(* ===== verification/_CoqProject ===== *)
-Q . S2P
Prelude.v
StateLogic.v
Leb128.v
BinaryReader.v
BinaryReaderSpec.v
ReaderLogic.v
Encode.v
Types.v
TypesSpec.v
EncTypes.v
Operands.v
Operators.v
OperatorReader.v
Instructions.v
Reencode.v
OperandSpec.v
OperandRoundtrip.v
OperatorSpec.v
InstrRoundtrip.v
SectionReader.v
CompositeTypes.v
Items.v
EncSections.v
ReencodeSections.v
Locality.v
FunctionSpec.v
CompositeSpec.v
SectionSpec.v
ItemSpec.v
SectionItems.v
Parser.v
ParserSpec.v
ParserStable.v
Names.v
NameSpec.v
ReencodeModule.v
ComponentReaders.v
ComponentEncode.v
ComponentSpec.v
ComponentNames.v
Migrate.v
MigrateModule.v
ModuleSpec.v
ModuleRoundtrip.v
ValidatorState.v
OperatorValidator.v
VisitOperators.v
ValidateOperator.v
Arity.v
IndexMap.v
TypeList.v
Canonical.v
ModuleState.v
ModuleValidator.v
LocalsSpec.v
ValidatorLogic.v
ValidatorModule.v
VisitSpec.v
VisitControl.v
FuncSpec.v
TypeListSpec.v
TypeMatch.v
InternSpec.v
AddTypesSpec.v
ModuleStateSpec.v
ModuleItemsSpec.v
ModuleValidatorSpec.v
ModuleBodiesSpec.v
MigrateSpec.v
MigrateRun.v
ReaderTheorems.v
OperatorTheorems.v
SectionTheorems.v
ModuleTheorems.v
ComponentTheorems.v
ComponentNameTheorems.v
ValidatorTheorems.v
TypeListTheorems.v
ModuleValidTheorems.v
MigrateTheorems.v
