(* ===== verification/Prelude.v ===== *)
(** * A verification of the binary format of WebAssembly in wasm-tools

    wasm-tools reads, checks, transforms and writes WebAssembly modules.  This
    library models the part of it that every tool depends on: the crate
    wasmparser, which decodes and validates modules, the crate
    wasm-encoder, which writes modules, and the module [reencode] of
    wasm-encoder, which carries a module or a component from one to the other;
    and the crate wasm-migrate of this repository, which instruments a function
    of a module so that it can be interrupted and resumed elsewhere.

    ** The program and its parts

    - [BinaryReader] (crates/wasmparser/src/binary_reader.rs) is a cursor over
      bytes with offsets and enabled features.  All decoding goes through it, as
      implementations of [FromReader] (readers.rs) and as [visit_operator],
      which decodes one operator and calls a visitor.
    - The types (readers/core/types.rs) and the items of the sections
      (readers/core/) are decoded by these readers; [SectionLimited] iterates
      over the items of a section.
    - [Parser] (parser.rs) cuts a module or component that arrives in chunks
      into payloads: sections, function bodies, nested modules.
    - [OperatorValidator] (validator/operators.rs) is a visitor which checks
      the operators of one function against the module
      ([WasmModuleResources], resources.rs); [FuncValidator]
      (validator/func.rs) runs it over a body, and in debug builds compares
      it with the arities of arity.rs.
    - [Validator] (validator.rs) takes the payloads of the parser one by one and
      builds the description of the module, [ModuleState] and [Module]
      (validator/core.rs); the types go into a list of types
      (validator/types.rs), after they were canonicalized
      (validator/core/canonical.rs), so that equal recursion groups get equal
      identifiers.  [Module] implements [WasmModuleResources], so the functions
      are validated against it.
    - wasm-encoder has its own types, instructions and section builders
      (crates/wasm-encoder/src/core/), each with an [Encode] implementation.
    - [Reencode] (crates/wasm-encoder/src/reencode.rs) translates every payload
      of a parsed module into a section of a new one; [ReencodeComponent]
      (reencode/component.rs) does the same for components, with the readers of
      wasmparser/src/readers/component/ and the encoders of
      wasm-encoder/src/component/, and calls [Reencode] for nested modules.
    - [WasmMigrate] (crates/wasm-migrate/src/lib.rs) reads a module with
      [Parser], divides a function into regions at its outermost blocks, computes
      the variables that each region modifies and that are live after it, and
      writes the module with [Reencode] and wasm-encoder, with a checkpoint
      memory, two functions of the host, and code that restores the variables at
      the start and saves them after a region.  A component is copied section by
      section with [ReencodeComponent], and one of its modules instrumented.
    - [ComponentName] (crates/wasmparser/src/validator/names.rs) parses the names of
      imports and exports of components, and takes them apart.
    - [IndexMap] and [IndexSet] (crates/wasmparser/src/collections/) keep the
      order of insertion; they are used when hash maps are not available.

    ** How the code is modelled

    A fallible method is a function of its receiver to a result and the new
    receiver: [ST S A := S -> result A * S], with [Ok], [Err] and [Panic].
    [Panic] is a Rust panic and, in loops with fuel, running out of fuel, so a
    theorem that excludes it also shows that the fuel is enough.  An encoder is
    a list of bytes or [None] when it panics.  Integers are [Z] with the wrap
    around written out; a [usize] has 64 bits, and the invariants keep
    every position and length below [2 ^ 64].  A message is its format string
    with its integer arguments.  Stacks are lists with the top first.  Debug
    assertions are left out, except that the counters they use are kept.

    Not in the repository and therefore parameters: the crate leb128 (class
    [Leb128] with its contract [Leb128Spec], and an instance [ref_leb128] that
    satisfies it), and the crate semver (class [Semver], with [SemverSpec]: the
    characters of a version, and an instance for versions of three numbers).  The
    traits of the program that have several
    implementations are classes: the index hooks of [Reencode], [ModuleArity],
    and [WasmModuleResources], whose contract is [ResourcesSpec]; a module
    satisfies it (module_resources_promise).  The hash maps that are only
    looked up and inserted into are lists of pairs or sets.  The module
    validator is modelled as it is compiled without the feature
    component-model: its entry points for components answer with the error for
    a component where a module is expected.  A validator that returned an error
    is not used again, so its state after an error is not kept.

    The readers of a component are readers as above; types of components and
    instances, which are nested, are one function of the reader for the types
    inside, iterated.  The encoders of nested types write into the bytes of the
    type around them, so they take the bytes written so far; their counters
    panic on overflow.  [push_depth] and [pop_depth] do nothing in the reencoder
    that is modelled and are left out.

    A name of a component is the list of its code points; positions count characters,
    which denotes the same slices as the byte positions of the code.  The parser of
    names is a state over what is left of the name.

    In wasm-migrate, [ModuleData] is split by the pass that fills its fields, and
    the order in which a hash set is iterated is a parameter ([HashOrder], with
    the contract that it lists the set).  What the injected code does is stated
    on a machine with forward branches (MigrateRun): the checkpoint memory and the
    functions of the host are concrete, the rest of the state of the program is
    abstract ([UserState]), and the original code of a region is given by its
    effect.

    ** The files

    - Prelude, StateLogic: results, state, integers, lists.  Leb128,
      BinaryReader, Encode: the primitives of both crates.  BinaryReaderSpec,
      ReaderLogic: their specifications and two program logics, [reads] for a
      decoder against an encoder and [wp] for a decoder on arbitrary bytes.
    - Types, Operands, Operators, OperatorReader: core types, operands, the
      table of operators and their decoder.  EncTypes, Instructions: the same
      in wasm-encoder.  Reencode: the translation.  TypesSpec, OperandSpec,
      OperatorSpec: well-formedness and safety.  OperandRoundtrip,
      InstrRoundtrip: round trips and panics.
    - SectionReader, CompositeTypes, Items, EncSections, ReencodeSections:
      sections, their items, and their translation.  Locality: what a read
      depends on.  FunctionSpec, CompositeSpec, SectionSpec, ItemSpec,
      SectionItems: the proofs, against the interface [SectionItem] of an item.
    - Parser, ParserSpec, ParserStable: the incremental parser.
    - Names, NameSpec: the name section.  ReencodeModule, ModuleSpec,
      ModuleRoundtrip: whole modules.
    - ComponentReaders, ComponentEncode: the readers of components, their
      encoders (Module [WC]) and the translation.  ComponentSpec:
      well-formedness and the interface [Readable] of a reader.
    - ComponentNames: import and export names.  ComponentNameTheorems: their grammar,
      a program logic for parsers against grammars ([accepts]), and the properties.
    - Migrate, MigrateModule: the passes over a function and the module around
      them.  MigrateSpec: regions, variables and addresses.  MigrateRun: the
      machine.
    - IndexMap: maps in the order of insertion, and their refinement.
    - ValidatorState, OperatorValidator, VisitOperators, ValidateOperator: the
      validator of functions, from the resources it is given to every operator.
      Arity: the annotations of the operators, what they mean, and the validator
      of a body that compares them.  LocalsSpec:
      locals against reference definitions.  ValidatorLogic, ValidatorModule,
      VisitSpec: a program logic for the validator.  VisitControl, FuncSpec:
      every operator and whole bodies.
    - TypeList, Canonical: lists of types with snapshots, interning, subtyping,
      canonicalization, and the checks of types.  ModuleState, ModuleValidator:
      the module under validation, constant expressions, and the validator of
      payloads.  TypeListSpec, TypeMatch: lists of types and the rules of
      subtyping.  InternSpec, AddTypesSpec: adding types.  ModuleStateSpec,
      ModuleItemsSpec, ModuleValidatorSpec, ModuleBodiesSpec: the invariant of
      the module, as resources and as state, and of the validator, over every
      item, section and payload.
    - ReaderTheorems, OperatorTheorems (with types), SectionTheorems,
      ModuleTheorems (with the parser), ComponentTheorems, ValidatorTheorems,
      TypeListTheorems, ModuleValidTheorems, MigrateTheorems: the properties.

    ** What the theorems show

    - C1, C2, C10, C20, C22 to C24: validating a whole module.  No input makes the
      validator panic, when it is new or was reset with room for the types of a
      module; an accepted module satisfies its invariant, its sections are in
      order, each of its functions was validated against the type declared for
      it, and its declared subtypes match their supertypes structurally, which
      are not final; adding types and checking constant expressions keep the
      invariant; a module is a correct implementation of the resources.
    - C19, C21, C25: types.  The subtype test decides the rules of subtyping,
      which are stated without the tables of the code (the direct edges between
      abstract types and their closure, the declared supertypes, the kind of a
      concrete type) and form a preorder; interning identifies recursion groups
      with equal types; a list with snapshots behaves as a list.
    - C3, C38: re-encoding a whole module, and its errors.
    - C4, C5: re-encoding a component.  Its sections of items, with nested
      types, are read back as equivalent items; a whole component, with nested
      modules and components, is written payload by payload and nothing else,
      and its names are read back as they were.
    - C6, C30: every operator that is decoded from arbitrary bytes survives
      translation, encoding and decoding; decoding never panics.
    - C7, C8, C39, C40: the operator validator.  Every operator of every
      proposal keeps the invariant and does not panic; a body is validated
      within as many turns of the loop as it has bytes; the arity of an operator
      is what its validation pops and pushes, unless it does not fit 32 bits;
      operands are canonical.
    - C9, C36, C37: the parser keeps its invariant on any input, in chunks or
      whole, and terminates.
    - C11 to C18: wasm-migrate.  The regions tile the body of the function; with
      nothing to restore, an instrumented function runs every region in order,
      when a region is an effect that leaves the operand stack empty and falls
      through; a restart enters the region that was recorded; the variables that
      are saved are enough to go on, relative to the sets that the analysis
      computes, which are exact for bodies without declared locals; where the
      saved values lie; the bodies for which the
      tree of blocks cannot be built; what is written for a component, and that
      it is what the reencoder writes when nothing is nested in it.  C13, C15, C16
      and C17 state what the code does where it differs from what it is meant to
      do.
    - C26: [IndexMap] refines the list of its entries.
    - C27 to C29: names of components.  The parser accepts the grammar of names and
      nothing else; the parts of an accepted name are found without a panic; names
      have an equality with its hash, and an order.
    - C31: LEB128 numbers: exact specifications of the readers.
    - C32: the 24-bit [RefType] implements the pair it stands for.
    - C33 to C35: the sections of a module and their translation.

    Further theorems that are not numbered: round trips of the encoders of
    strings, numbers, types, operators, names and section frames, the panics of
    the instruction encoder and of a component that ends inside a nested module,
    the compressed locals against their reference definition, reading signed 33-bit numbers, packed type indices, the scopes of
    initialized locals, the stability of the parser when bytes are added, reuse
    of a validator after a reset.

    ** Bounds and fuel

    A loop over a counted list is a recursion on the count.  The loops that run
    until the end of the input have fuel: one turn per remaining byte for
    operators and sections, since each turn consumes a byte, and [2 n + 2] for
    the payloads of a module of [n] bytes, since every payload but the [End] of
    a nested module consumes a byte.  Following supertypes takes at most as many
    links as the identifier of the type, since a supertype comes before its
    subtypes.  Types of a component are nested at most as deep as the bytes that
    are left, and [parse_component] takes one turn per byte at most, since every
    payload and every nested component has fewer bytes than what is around it;
    so does wasm-migrate on nested components.  The labels of a path in a name are
    at most as many as its characters.
    The theorems show that this is enough.

    ** Not modelled, and why

    The validation of components (validator/component.rs, component_types.rs):
    it needs the arenas of component types with their resources and subtyping, a
    system as large as the one for core types.  The semantics of the original
    code of a region.  The builder of
    components in wasm-encoder, which only counts indices.  Custom sections
    other than names: metadata of tools.  The text format (wast, wat,
    wasmprinter), WIT, random generation, mutation and shrinking, the command
    line: they are not part of the binary format or only call it.  Allocation
    reuse, the depth of the call stack when component types are read or written,
    and the time that [array.new_fixed] takes in unreachable code. *)

From Stdlib Require Import ZArith Lia String.
From stdpp Require Import prelude.

Local Open Scope Z_scope.

(** ** Fallible, panicking computations

    [Result<T, BinaryReaderError>] of [crates/wasmparser/src/binary_reader.rs].
    A formatted message is kept as its format string and the list of its
    integer arguments.  [Panic] stands for a Rust panic (a failed [assert!],
    an out of range index, an overflowing shift) and for a loop whose fuel ran
    out: theorems that exclude [Panic] exclude both. *)

Record Msg := mkMsg { fmt : string; args : list Z }.

Arguments mkMsg _%_string_scope _.

Definition lit (s : string) : Msg := mkMsg s [].
Arguments lit _%_string_scope.

Inductive BinaryReaderErrorKind := Custom | Invalid.

Record BinaryReaderError := mkError {
  message : Msg;
  kind : BinaryReaderErrorKind;
  offset : Z;
  needed_hint : option Z;
}.

Definition err_new_kind (k : BinaryReaderErrorKind) (m : Msg) (off : Z)
  : BinaryReaderError :=
  {| message := m; kind := k; offset := off; needed_hint := None |}.

Definition err_new (m : Msg) (off : Z) : BinaryReaderError :=
  err_new_kind Custom m off.

Definition err_invalid (m : Msg) (off : Z) : BinaryReaderError :=
  err_new_kind Invalid m off.

Definition err_eof (off hint : Z) : BinaryReaderError :=
  {| message := lit "unexpected end-of-file"; kind := Custom; offset := off;
     needed_hint := Some hint |}.

Definition set_message (m : Msg) (e : BinaryReaderError) : BinaryReaderError :=
  {| message := m; kind := kind e; offset := offset e;
     needed_hint := needed_hint e |}.

Inductive result (A : Type) :=
| Ok (a : A)
| Err (e : BinaryReaderError)
| Panic.
Arguments Ok {A} a.
Arguments Err {A} e.
Arguments Panic {A}.

(** The state survives an error, as the [&mut self] of a Rust method does. *)
Definition ST (S A : Type) : Type := S -> result A * S.

#[export] Instance ST_ret S : MRet (ST S) := fun A a s => (Ok a, s).
#[export] Instance ST_bind S : MBind (ST S) := fun A B k m s =>
  match m s with
  | (Ok a, s') => k a s'
  | (Err e, s') => (Err e, s')
  | (Panic, s') => (Panic, s')
  end.

Lemma ST_bind_eq {S A B} (m : ST S A) (k : A -> ST S B) s :
  (m ≫= k) s
  = match m s with
    | (Ok a, s') => k a s'
    | (Err e, s') => (Err e, s')
    | (Panic, s') => (Panic, s')
    end.
Proof. done. Qed.

Definition fail {S A} (e : BinaryReaderError) : ST S A := fun s => (Err e, s).
Definition panic {S A} : ST S A := fun s => (Panic, s).
Definition gets {S A} (f : S -> A) : ST S A := fun s => (Ok (f s), s).
Definition modify {S} (f : S -> S) : ST S unit := fun s => (Ok tt, f s).

(** [Result::map_err]. *)
Definition map_err {S A} (f : BinaryReaderError -> BinaryReaderError)
  (m : ST S A) : ST S A := fun s =>
  match m s with
  | (Err e, s') => (Err (f e), s')
  | x => x
  end.

(** ** Machine integers

    A [w]-bit unsigned integer is a [Z] of [0 .. 2^w - 1], a signed one a [Z]
    of [-2^(w-1) .. 2^(w-1) - 1]; [wrap] and [swrap] are the truncating
    conversions ([as u32], [as i32], ...). *)

Definition wrap (w z : Z) : Z := z mod 2 ^ w.
Definition swrap (w z : Z) : Z := (z + 2 ^ (w - 1)) mod 2 ^ w - 2 ^ (w - 1).

(** [x << s] at width [w]: the bits shifted out are lost. *)
Definition shl_u (w x s : Z) : Z := wrap w (Z.shiftl x s).
Definition shl_i (w x s : Z) : Z := swrap w (Z.shiftl x s).

Definition in_u (w z : Z) : Prop := 0 <= z < 2 ^ w.
Definition in_i (w z : Z) : Prop := - 2 ^ (w - 1) <= z < 2 ^ (w - 1).

Definition is_byte (b : Z) : Prop := 0 <= b < 256.

#[export] Instance is_byte_dec b : Decision (is_byte b).
Proof. unfold is_byte. apply _. Defined.

(** ** Shared lemmas *)

Lemma wrap_small w z : in_u w z -> wrap w z = z.
Proof. intros. by apply Z.mod_small. Qed.

Lemma swrap_small w z : 0 < w -> in_i w z -> swrap w z = z.
Proof.
  unfold swrap, in_i. intros Hw H.
  assert (2 ^ w = 2 * 2 ^ (w - 1)) as E.
  { rewrite <- Z.pow_succ_r by lia. f_equal. lia. }
  rewrite Z.mod_small; lia.
Qed.

Lemma swrap_range w z : 0 < w -> in_i w (swrap w z).
Proof.
  unfold swrap, in_i. intros Hw.
  assert (2 ^ w = 2 * 2 ^ (w - 1)) as E.
  { rewrite <- Z.pow_succ_r by lia. f_equal. lia. }
  pose proof (Z.mod_pos_bound (z + 2 ^ (w - 1)) (2 ^ w)). lia.
Qed.

(** Two numbers that agree modulo [2^w] have the same truncation. *)
Lemma swrap_cong w a b : 0 < w -> a mod 2 ^ w = b mod 2 ^ w -> swrap w a = swrap w b.
Proof.
  unfold swrap. intros Hw H. f_equal.
  rewrite <- (Z.add_mod_idemp_l a), <- (Z.add_mod_idemp_l b) by lia. by rewrite H.
Qed.

(** [or]-ing a number below [2^s] with a multiple of [2^s] is an addition. *)
Lemma lor_add x y s : 0 <= s -> 0 <= x < 2 ^ s -> Z.lor x (y * 2 ^ s) = x + y * 2 ^ s.
Proof.
  intros Hs Hx. rewrite <- (Z.add_lor_land x (y * 2 ^ s)).
  replace (Z.land x (y * 2 ^ s)) with 0; [lia|].
  symmetry. rewrite <- Z.shiftl_mul_pow2 by lia.
  apply Z.bits_inj'. intros n Hn. rewrite Z.land_spec, Z.bits_0.
  destruct (Z.lt_ge_cases n s).
  - rewrite Z.shiftl_spec_low by lia. by rewrite andb_false_r.
  - rewrite <- (Z.mod_small x (2 ^ s)) by lia.
    by rewrite Z.mod_pow2_bits_high by lia.
Qed.

Lemma land_127 b : Z.land b 127 = b mod 128.
Proof. change 127 with (Z.ones 7). by rewrite Z.land_ones. Qed.

Lemma land_128 b : is_byte b -> Z.land b 128 = if b <? 128 then 0 else 128.
Proof.
  unfold is_byte. intros H. change 128 with (2 ^ 7) at 1.
  destruct (Z.ltb_spec b 128).
  - apply Z.bits_inj'. intros n Hn. rewrite Z.land_spec, Z.bits_0.
    rewrite Z.pow2_bits_eqb by lia. destruct (Z.eqb_spec 7 n); [|by rewrite andb_false_r].
    subst. rewrite andb_true_r. rewrite <- (Z.mod_small b (2 ^ 7)) by lia.
    by apply Z.mod_pow2_bits_high.
  - apply Z.bits_inj'. intros n Hn. rewrite Z.land_spec.
    change 128 with (2 ^ 7). rewrite Z.pow2_bits_eqb by lia.
    destruct (Z.eqb_spec 7 n); [|by rewrite andb_false_r].
    subst. rewrite andb_true_r. replace b with ((b - 128) + 1 * 2 ^ 7) by lia.
    rewrite <- lor_add by lia. rewrite Z.lor_spec.
    change (Z.testbit (1 * 2 ^ 7) 7) with true. apply orb_true_r.
Qed.

Lemma take_length_app {A} (l k : list A) : take (length l) (l ++ k) = l.
Proof. apply take_app_length. Qed.

#[export] Instance in_u_dec w z : Decision (in_u w z).
Proof. unfold in_u. apply _. Defined.

#[export] Instance in_i_dec w z : Decision (in_i w z).
Proof. unfold in_i. apply _. Defined.

(** A decidable property of bytes is checked by enumeration. *)
Lemma byte_forall (P : Z -> bool) :
  forallb P (map Z.of_nat (seq 0 256)) = true -> forall b, is_byte b -> P b = true.
Proof.
  intros H b Hb. rewrite forallb_forall in H. apply H, in_map_iff.
  exists (Z.to_nat b). unfold is_byte in Hb. split; [lia|]. apply in_seq. lia.
Qed.

(** Chooses the default branch of a match on a byte that is none of the cases. *)
Ltac byte_default H :=
  repeat (match goal with |- context [match ?x with _ => _ end] => is_var x; destruct x end;
          try exact H; try lia).
