(* ===== verification/StateLogic.v ===== *)
(** Computations on a state and their safety, shared by the validators.

    [safe m s Q]: from the state [s], the computation [m] does not panic, and
    when it succeeds [Q] holds of its result and of the state. *)

From Stdlib Require Import ZArith Lia String.
From stdpp Require Import prelude.
From S2P Require Import Prelude.

Local Open Scope Z_scope.

(** ** Computations *)

Section operations.
Context {S : Type}.

(** [bail!] and [return Err(..)]. *)
Definition bail {A} (off : Z) (m : Msg) : ST S A := fail (err_new m off).

(** The state is left alone by a fallible or partial function. *)
Definition liftr {A} (x : result A) : ST S A := fun s => (x, s).

(** [unwrap] and [expect]. *)
Definition unwrap {A} (x : option A) : ST S A :=
  match x with Some a => mret a | None => panic end.

(** [ok_or_else(..)?]. *)
Definition ok_or {A} (off : Z) (m : Msg) (x : option A) : ST S A :=
  match x with Some a => mret a | None => bail off m end.

Fixpoint for_ {A} (f : A -> ST S ()) (l : list A) : ST S () :=
  match l with
  | [] => mret tt
  | x :: l' => f x;; for_ f l'
  end.

Definition when (b : bool) (m : ST S ()) : ST S () := if b then m else mret tt.
End operations.

(** A computation on a part of the state. *)
Definition zoom {S T A} (get : S -> T) (set : T -> S -> S) (m : ST T A) : ST S A :=
  fun s => let (x, t) := m (get s) in (x, set t s).

(** [binary_search_by_key] on increasing keys: the position of [idx], or where it
    would be inserted. *)
Fixpoint binary_search_by_key {A} (idx : Z) (l : list (Z * A)) : nat + nat :=
  match l with
  | [] => inr 0%nat
  | (i, _) :: l' =>
      if i =? idx then inl 0%nat
      else if idx <? i then inr 0%nat
      else match binary_search_by_key idx l' with
           | inl n => inl (Datatypes.S n)
           | inr n => inr (Datatypes.S n)
           end
  end.

(** A fallible function without a state. *)
#[export] Instance result_ret : MRet result := fun A a => Ok a.
#[export] Instance result_bind : MBind result := fun A B k m =>
  match m with
  | Ok a => k a
  | Err e => Err e
  | Panic => Panic
  end.

(** A value whose computation panics when it is [None]. *)
Definition expect {A} (x : option A) : result A :=
  match x with Some a => Ok a | None => Panic end.

(** ** Safety *)

Definition safe {S A} (m : ST S A) (v : S) (Q : A -> S -> Prop) : Prop :=
  match m v with
  | (Ok a, v') => Q a v'
  | (Err _, _) => True
  | (Panic, _) => False
  end.

Section rules.
Context {S : Type}.
Implicit Types v : S.

Lemma safe_bind {A B} (m : ST S A) (k : A -> ST S B) v Q :
  safe m v (fun a v' => safe (k a) v' Q) -> safe (m ≫= k) v Q.
Proof. unfold safe, mbind, ST_bind. by destruct (m v) as [[a|e|] v']. Qed.

Lemma safe_mono {A} (m : ST S A) v (Q Q' : A -> S -> Prop) :
  safe m v Q -> (forall a v', Q a v' -> Q' a v') -> safe m v Q'.
Proof. unfold safe. intros H HQ. destruct (m v) as [[a|e|] v']; [by apply HQ|done..]. Qed.

Lemma safe_ret {A} (a : A) v (Q : A -> S -> Prop) : Q a v -> safe (mret a) v Q.
Proof. done. Qed.

Lemma safe_gets {A} (f : S -> A) v (Q : A -> S -> Prop) : Q (f v) v -> safe (gets f) v Q.
Proof. done. Qed.

Lemma safe_modify f v (Q : () -> S -> Prop) : Q tt (f v) -> safe (modify f) v Q.
Proof. done. Qed.

Lemma safe_bail {A} off m v (Q : A -> S -> Prop) : safe (bail off m) v Q.
Proof. done. Qed.

Lemma safe_when b m v (Q : () -> S -> Prop) :
  (b = true -> safe m v Q) -> (b = false -> Q tt v) -> safe (when b m) v Q.
Proof. destruct b; intros H1 H2; [by apply H1|by apply H2]. Qed.

(** A check that bails out. *)
Lemma safe_check b off m v (Q : () -> S -> Prop) :
  (b = false -> Q tt v) -> safe (when b (bail off m)) v Q.
Proof. by destruct b; [|intros H; apply H]. Qed.

Lemma safe_ok_or {A} off m (x : option A) v (Q : A -> S -> Prop) :
  (forall a, x = Some a -> Q a v) -> safe (ok_or off m x) v Q.
Proof. destruct x; intros H; [by apply H|done]. Qed.

Lemma safe_unwrap {A} (x : option A) a v (Q : A -> S -> Prop) :
  x = Some a -> Q a v -> safe (unwrap x) v Q.
Proof. by intros -> HQ. Qed.

Lemma safe_liftr {A} (x : result A) v (Q : A -> S -> Prop) :
  match x with Ok a => Q a v | Err _ => True | Panic => False end -> safe (liftr x) v Q.
Proof. unfold safe, liftr. by destruct x. Qed.

Lemma safe_for {A} (f : A -> ST S ()) (I : nat -> S -> Prop) l v Q :
  I 0%nat v ->
  (forall k x v, l !! k = Some x -> I k v -> safe (f x) v (fun _ v' => I (Datatypes.S k) v')) ->
  (forall v', I (length l) v' -> Q tt v') ->
  safe (for_ f l) v Q.
Proof.
  intros H0 Hs HQ. revert I v H0 Hs HQ. induction l as [|x l IH]; intros I v H0 Hs HQ; cbn [for_].
  - by apply safe_ret, HQ.
  - apply safe_bind. eapply safe_mono; [by apply (Hs 0%nat)|]. intros [] v' H1.
    apply (IH (fun k => I (Datatypes.S k))); [done| |done]. intros k y w Hk. by apply (Hs (Datatypes.S k)).
Qed.
End rules.

Lemma safe_zoom {S T A} (get : S -> T) (set : T -> S -> S) (m : ST T A) s (Q : A -> S -> Prop) :
  safe m (get s) (fun a t => Q a (set t s)) -> safe (zoom get set m) s Q.
Proof. unfold safe, zoom. by destruct (m (get s)) as [[] t]. Qed.

(** ** Functions without a state *)

(** [x] is not a panic, and a value satisfies [Q]. *)
Definition rsafe {A} (x : result A) (Q : A -> Prop) : Prop :=
  match x with
  | Ok a => Q a
  | Err _ => True
  | Panic => False
  end.

Lemma rsafe_bind {A B} (m : result A) (k : A -> result B) Q :
  rsafe m (fun a => rsafe (k a) Q) -> rsafe (m ≫= k) Q.
Proof. by destruct m. Qed.

Lemma rsafe_mono {A} (m : result A) (Q Q' : A -> Prop) :
  rsafe m Q -> (forall a, Q a -> Q' a) -> rsafe m Q'.
Proof. destruct m; cbn; auto. Qed.

Lemma rsafe_ok {A} (a : A) (Q : A -> Prop) : Q a -> rsafe (Ok a) Q.
Proof. done. Qed.

Lemma rsafe_expect {A} (x : option A) a (Q : A -> Prop) : x = Some a -> Q a -> rsafe (expect x) Q.
Proof. by intros ->. Qed.

Lemma rsafe_expect_some {A} (x : option A) (Q : A -> Prop) :
  is_Some x -> (forall a, x = Some a -> Q a) -> rsafe (expect x) Q.
Proof. intros [a ->] HQ. by apply HQ. Qed.

(** A check that fails. *)
Lemma rsafe_check {A} (b : bool) e (m : result A) Q :
  (b = false -> rsafe m Q) -> rsafe (if b then Err e else m) Q.
Proof. destruct b; cbn; auto. Qed.

(** A loop that maps a list. *)
Lemma rsafe_mapM {A B} (g : A -> result B) (P : A -> B -> Prop) (l : list A) :
  (forall x, x ∈ l -> rsafe (g x) (P x)) -> rsafe (mapM g l) (Forall2 P l).
Proof.
  induction l as [|x l IH]; intros Hg; cbn [mapM]; [by constructor|].
  apply rsafe_bind. eapply rsafe_mono; [apply Hg; left|]. intros y Hy.
  apply rsafe_bind. eapply rsafe_mono; [apply IH; intros z Hz; apply Hg; by right|].
  intros ys Hys. by constructor.
Qed.

(** The rules as a step of a proof. *)
Ltac r_step :=
  match goal with
  | |- rsafe (mbind _ _) _ => apply rsafe_bind
  | |- rsafe (Ok _) _ => apply rsafe_ok
  | |- rsafe (mret _) _ => apply rsafe_ok
  | |- rsafe (Err _) _ => exact I
  | |- rsafe (if ?b then Err _ else _) _ => apply rsafe_check; intros ?
  end.
