(* ===== verification/Leb128.v ===== *)
(** LEB128: the meaning of a byte string as a variable length integer, and the
    [leb128] crate as an interface.

    [crates/wasm-encoder/src/lib.rs] writes every integer with
    [leb128::write::unsigned] and [leb128::write::signed].  That crate is not
    part of the repository, so it is the parameter [Leb128]; its documented
    behaviour (DWARF's LEB128: seven bits per byte, least significant group
    first, the high bit of a byte set on every byte but the last, no redundant
    trailing group) is the class [Leb128Spec].  [ref_leb128] is a reference
    implementation that satisfies it. *)

From Stdlib Require Import ZArith Lia.
From stdpp Require Import prelude.
From S2P Require Import Prelude.

Local Open Scope Z_scope.

(** A complete LEB128 string: the high bit is set on all bytes but the last. *)
Fixpoint leb_form (bs : list Z) : Prop :=
  match bs with
  | [] => False
  | [b] => 0 <= b < 128
  | b :: bs' => 128 <= b < 256 /\ leb_form bs'
  end.

Fixpoint uleb_val (bs : list Z) : Z :=
  match bs with
  | [] => 0
  | b :: bs' => b mod 128 + 128 * uleb_val bs'
  end.

(** The signed reading: bit 6 of the last byte is the sign. *)
Fixpoint sleb_val (bs : list Z) : Z :=
  match bs with
  | [] => 0
  | [b] => swrap 7 b
  | b :: bs' => b mod 128 + 128 * sleb_val bs'
  end.

Class Leb128 := {
  write_unsigned : Z -> list Z;
  write_signed : Z -> list Z;
}.

Class Leb128Spec (L : Leb128) : Prop := {
  unsigned_form v : in_u 64 v -> leb_form (write_unsigned v);
  unsigned_value v : in_u 64 v -> uleb_val (write_unsigned v) = v;
  unsigned_minimal v bs :
    in_u 64 v -> leb_form bs -> uleb_val bs = v ->
    (length (write_unsigned v) <= length bs)%nat;
  signed_form v : in_i 64 v -> leb_form (write_signed v);
  signed_value v : in_i 64 v -> sleb_val (write_signed v) = v;
  signed_minimal v bs :
    in_i 64 v -> leb_form bs -> sleb_val bs = v ->
    (length (write_signed v) <= length bs)%nat;
}.

(** ** Facts about the format *)

Lemma leb_form_cons b bs : bs <> [] -> leb_form (b :: bs) <-> 128 <= b < 256 /\ leb_form bs.
Proof. by destruct bs. Qed.

Lemma sleb_val_cons b bs : bs <> [] -> sleb_val (b :: bs) = b mod 128 + 128 * sleb_val bs.
Proof. by destruct bs. Qed.

Lemma leb_form_nonempty bs : leb_form bs -> bs <> [].
Proof. by destruct bs. Qed.

Lemma leb_form_bytes bs : leb_form bs -> Forall is_byte bs.
Proof.
  induction bs as [|b [|c bs] IH]; [done| |]; intros H.
  - constructor; [|done]. red. simpl in H. lia.
  - destruct H as [H H']. constructor; [red; lia | by apply IH].
Qed.

Lemma uleb_val_nonneg bs : 0 <= uleb_val bs.
Proof.
  induction bs as [|b bs IH]; simpl; [lia|].
  pose proof (Z.mod_pos_bound b 128). lia.
Qed.

Lemma pow7_succ n : 2 ^ (7 * Z.of_nat (S n)) = 128 * 2 ^ (7 * Z.of_nat n).
Proof.
  replace (7 * Z.of_nat (S n)) with (7 + 7 * Z.of_nat n) by lia.
  rewrite Z.pow_add_r by lia. done.
Qed.

Lemma uleb_val_bound bs : uleb_val bs < 2 ^ (7 * Z.of_nat (length bs)).
Proof.
  induction bs as [|b bs IH]; [done|].
  cbn [uleb_val length]. rewrite pow7_succ.
  pose proof (Z.mod_pos_bound b 128). lia.
Qed.

Lemma sleb_val_bound bs :
  bs <> [] -> in_i (7 * Z.of_nat (length bs)) (sleb_val bs).
Proof.
  induction bs as [|b [|c bs] IH]; [done| |]; intros _.
  - apply (swrap_range 7); lia.
  - rewrite sleb_val_cons by done. specialize (IH ltac:(done)). unfold in_i in *.
    set (n := length (c :: bs)) in *. change (length (b :: c :: bs)) with (S n).
    assert (E : 2 ^ (7 * Z.of_nat (S n) - 1) = 128 * 2 ^ (7 * Z.of_nat n - 1)).
    { replace (7 * Z.of_nat (S n) - 1) with (7 + (7 * Z.of_nat n - 1)) by lia.
      rewrite Z.pow_add_r by (unfold n; simpl; lia). done. }
    rewrite E. pose proof (Z.mod_pos_bound b 128). lia.
Qed.

(** The two readings agree up to the sign bit of the whole string. *)
Lemma sleb_uleb bs :
  bs <> [] -> sleb_val bs = swrap (7 * Z.of_nat (length bs)) (uleb_val bs).
Proof.
  intros Hne. rewrite <- (swrap_small (7 * Z.of_nat (length bs)) (sleb_val bs)).
  - apply swrap_cong; [destruct bs; simpl in *; [done|lia]|].
    revert Hne. induction bs as [|b [|c bs] IH]; [done| |]; intros _.
    + cbn [sleb_val uleb_val length]. unfold swrap. rewrite Z.mul_0_r, Z.add_0_r.
      change (7 - 1) with 6. change (7 * Z.of_nat 1) with 7.
      rewrite Zminus_mod_idemp_l. rewrite Z.mod_mod by lia. f_equal. lia.
    + rewrite sleb_val_cons by done.
      change (uleb_val (b :: c :: bs)) with (b mod 128 + 128 * uleb_val (c :: bs)).
      specialize (IH ltac:(done)).
      change (length (b :: c :: bs)) with (S (length (c :: bs))).
      rewrite pow7_succ.
      rewrite <- (Z.add_mod_idemp_r (b mod 128) (128 * sleb_val _)) by lia.
      rewrite <- (Z.add_mod_idemp_r (b mod 128) (128 * uleb_val _)) by lia.
      rewrite !Zmult_mod_distr_l, IH. done.
  - destruct bs; simpl in *; [done|lia].
  - by apply sleb_val_bound.
Qed.

(** ** The reference implementation *)

Fixpoint uleb_enc (fuel : nat) (v : Z) : list Z :=
  match fuel with
  | O => []
  | S fuel' =>
      if v <? 128 then [v]
      else (v mod 128 + 128) :: uleb_enc fuel' (v / 128)
  end.

Fixpoint sleb_enc (fuel : nat) (v : Z) : list Z :=
  match fuel with
  | O => []
  | S fuel' =>
      if (-64 <=? v) && (v <? 64) then [v mod 128]
      else (v mod 128 + 128) :: sleb_enc fuel' (v / 128)
  end.

#[export] Instance ref_leb128 : Leb128 := {
  write_unsigned := uleb_enc 10;
  write_signed := sleb_enc 10;
}.

Lemma uleb_enc_length n v : (length (uleb_enc n v) <= n)%nat.
Proof.
  revert v. induction n as [|n IH]; intros v; simpl; [lia|].
  case_match; simpl; [lia|]. specialize (IH (v / 128)). lia.
Qed.

Lemma sleb_enc_length n v : (length (sleb_enc n v) <= n)%nat.
Proof.
  revert v. induction n as [|n IH]; intros v; simpl; [lia|].
  case_match; simpl; [lia|]. specialize (IH (v / 128)). lia.
Qed.

Lemma uleb_enc_nonempty n v : uleb_enc (S n) v <> [].
Proof. simpl. by case_match. Qed.

Lemma sleb_enc_nonempty n v : sleb_enc (S n) v <> [].
Proof. simpl. by case_match. Qed.

Lemma mod128_byte v : 128 <= v mod 128 + 128 < 256.
Proof. pose proof (Z.mod_pos_bound v 128). lia. Qed.

Lemma mod128_again v : (v mod 128 + 128) mod 128 = v mod 128.
Proof. rewrite <- (Z.mul_1_l 128) at 2. by rewrite Z.mod_add, Z.mod_mod by lia. Qed.

Lemma uleb_enc_ok n v :
  0 <= v < 2 ^ (7 * Z.of_nat (S n)) ->
  leb_form (uleb_enc (S n) v) /\ uleb_val (uleb_enc (S n) v) = v.
Proof.
  revert v. induction n as [|n IH]; intros v Hv.
  - simpl in *. change (Z.pow_pos 2 7) with 128 in *.
    destruct (Z.ltb_spec v 128); [|lia]. simpl. rewrite Z.mod_small; lia.
  - remember (S n) as m eqn:Em. simpl. destruct (Z.ltb_spec v 128).
    + simpl. rewrite Z.mod_small; lia.
    + subst m. rewrite pow7_succ in Hv.
      destruct (IH (v / 128)) as [IH1 IH2].
      { split; [apply Z.div_pos; lia | apply Z.div_lt_upper_bound; lia]. }
      split.
      * apply leb_form_cons; [apply uleb_enc_nonempty|].
        split; [apply mod128_byte | done].
      * cbn [uleb_val]. rewrite IH2, mod128_again.
        pose proof (Z.div_mod v 128). lia.
Qed.

Lemma uleb_enc_minimal n v bs :
  leb_form bs -> uleb_val bs = v -> (length (uleb_enc n v) <= length bs)%nat.
Proof.
  revert v bs. induction n as [|n IH]; intros v bs Hbs Hv; [simpl; lia|].
  simpl. destruct (Z.ltb_spec v 128).
  { destruct bs; simpl; [done|lia]. }
  destruct bs as [|b [|c bs]]; [done| |].
  - simpl in *. rewrite Z.mod_small in Hv; lia.
  - destruct Hbs as [Hb Hbs]. apply le_n_S, (IH _ (c :: bs)); [done|].
    subst v. change (uleb_val (b :: c :: bs)) with (b mod 128 + 128 * uleb_val (c :: bs)).
    rewrite (Z.mul_comm 128), Z.div_add by lia.
    rewrite (Z.div_small (b mod 128)); [lia|].
    apply Z.mod_pos_bound. lia.
Qed.

Lemma swrap7_mod v : -64 <= v < 64 -> swrap 7 (v mod 128) = v.
Proof.
  intros H. rewrite <- (swrap_small 7 v) at 2; [|lia|unfold in_i; simpl; lia].
  apply swrap_cong; [lia|]. change (2 ^ 7) with 128. by rewrite Z.mod_mod.
Qed.

Lemma sleb_enc_ok n v :
  in_i (7 * Z.of_nat (S n)) v ->
  leb_form (sleb_enc (S n) v) /\ sleb_val (sleb_enc (S n) v) = v.
Proof.
  revert v. induction n as [|n IH]; intros v Hv; unfold in_i in *.
  - simpl in *. change (Z.pow_pos 2 6) with 64 in *.
    destruct (Z.leb_spec (-64) v), (Z.ltb_spec v 64); simpl; try lia.
    split; [apply Z.mod_pos_bound; lia | by apply swrap7_mod].
  - remember (S n) as m eqn:Em. simpl.
    destruct (Z.leb_spec (-64) v), (Z.ltb_spec v 64); cbn [andb].
    1: { split; [apply Z.mod_pos_bound; lia | by apply swrap7_mod]. }
    all: subst m;
      replace (7 * Z.of_nat (S (S n)) - 1) with (7 + (7 * Z.of_nat (S n) - 1)) in Hv by lia;
      rewrite Z.pow_add_r in Hv by lia; change (2 ^ 7) with 128 in Hv;
      destruct (IH (v / 128)) as [IH1 IH2];
      [ split; [apply Z.div_le_lower_bound; lia | apply Z.div_lt_upper_bound; lia] | ];
      (split;
       [ apply leb_form_cons; [apply sleb_enc_nonempty|];
         split; [apply mod128_byte | done]
       | rewrite sleb_val_cons by apply sleb_enc_nonempty;
         rewrite IH2, mod128_again; pose proof (Z.div_mod v 128); lia ]).
Qed.

Lemma sleb_enc_minimal n v bs :
  leb_form bs -> sleb_val bs = v -> (length (sleb_enc n v) <= length bs)%nat.
Proof.
  revert v bs. induction n as [|n IH]; intros v bs Hbs Hv; [simpl; lia|].
  simpl. destruct ((-64 <=? v) && (v <? 64)) eqn:Hs.
  { destruct bs; simpl; [done|lia]. }
  destruct bs as [|b [|c bs]]; [done| |].
  - exfalso. simpl in Hv. subst v.
    pose proof (swrap_range 7 b ltac:(lia)) as Hr. unfold in_i in Hr. simpl in Hr.
    change (Z.pow_pos 2 6) with 64 in Hr. lia.
  - destruct Hbs as [Hb Hbs]. apply le_n_S, (IH _ (c :: bs)); [done|].
    subst v. rewrite (sleb_val_cons b) by done.
    rewrite (Z.mul_comm 128), Z.div_add by lia.
    rewrite (Z.div_small (b mod 128)); [lia|].
    apply Z.mod_pos_bound. lia.
Qed.

#[export] Instance ref_leb128_spec : Leb128Spec ref_leb128.
Proof.
  assert (B : forall v, in_u 64 v -> 0 <= v < 2 ^ (7 * Z.of_nat 10))
    by (intros v; unfold in_u; simpl; lia).
  assert (S : forall v, in_i 64 v -> in_i (7 * Z.of_nat 10) v)
    by (intros v; unfold in_i; simpl; lia).
  split; intros v.
  - intros H. by apply (uleb_enc_ok 9), B.
  - intros H. by apply (uleb_enc_ok 9), B.
  - intros bs _. apply uleb_enc_minimal.
  - intros H. by apply (sleb_enc_ok 9), S.
  - intros H. by apply (sleb_enc_ok 9), S.
  - intros bs _. apply sleb_enc_minimal.
Qed.

(** ** What the interface gives its clients: lengths *)

Section lengths.
Context {L : Leb128} {LS : Leb128Spec L}.

Lemma write_unsigned_length n v :
  in_u 64 v -> v < 2 ^ (7 * Z.of_nat (S n)) ->
  (length (write_unsigned v) <= S n)%nat.
Proof.
  intros Hv Hn. destruct (uleb_enc_ok n v) as [Hf Hval]; [unfold in_u in Hv; lia|].
  etrans; [by apply (unsigned_minimal v (uleb_enc (S n) v))|].
  apply uleb_enc_length.
Qed.

Lemma write_signed_length n v :
  in_i 64 v -> in_i (7 * Z.of_nat (S n)) v ->
  (length (write_signed v) <= S n)%nat.
Proof.
  intros Hv Hn. destruct (sleb_enc_ok n v Hn) as [Hf Hval].
  etrans; [by apply (signed_minimal v (sleb_enc (S n) v))|].
  apply sleb_enc_length.
Qed.
End lengths.
