(* ===== verification/BinaryReader.v ===== *)
(** The binary reader of wasmparser, [crates/wasmparser/src/binary_reader.rs]:
    its state, its primitive reads, and the [FromReader] trait of
    [crates/wasmparser/src/readers.rs].

    A [usize] is a [Z]; the invariant [wf_reader] (BinaryReaderSpec.v) keeps
    every position below [2^64].  [&'a [u8]] and [&'a str] are lists of bytes. *)

From Stdlib Require Import ZArith Lia String.
From stdpp Require Import prelude.
From S2P Require Import Prelude.

Local Open Scope Z_scope.

(** ** Limits, [crates/wasmparser/src/limits.rs] *)

Definition MAX_WASM_TYPES : Z := 1000000.
Definition MAX_WASM_STRING_SIZE : Z := 100000.
Definition MAX_WASM_FUNCTION_SIZE : Z := 128 * 1024.
Definition MAX_WASM_BR_TABLE_SIZE : Z := MAX_WASM_FUNCTION_SIZE.
Definition MAX_WASM_CATCHES : Z := 10000.
Definition MAX_WASM_HANDLERS : Z := 10000.

(** ** Features, [crates/wasmparser/src/features.rs]

    The bit set is represented by its inflated form, one boolean per flag. *)

Record WasmFeatures := mkFeatures {
  mutable_global : bool;
  saturating_float_to_int : bool;
  sign_extension : bool;
  reference_types : bool;
  multi_value : bool;
  bulk_memory : bool;
  simd : bool;
  relaxed_simd : bool;
  threads : bool;
  shared_everything_threads : bool;
  tail_call : bool;
  floats : bool;
  multi_memory : bool;
  exceptions : bool;
  memory64 : bool;
  extended_const : bool;
  component_model : bool;
  function_references : bool;
  memory_control : bool;
  gc : bool;
  custom_page_sizes : bool;
  component_model_values : bool;
  component_model_nested_names : bool;
  component_model_more_flags : bool;
  component_model_multiple_returns : bool;
  legacy_exceptions : bool;
  gc_types : bool;
  stack_switching : bool;
  wide_arithmetic : bool;
  component_model_async : bool;
}.

Definition WasmFeatures_all : WasmFeatures :=
  mkFeatures true true true true true true true true true true
             true true true true true true true true true true
             true true true true true true true true true true.

(** [WasmFeatures::default()]. *)
Definition WasmFeatures_default : WasmFeatures := {|
  mutable_global := true; saturating_float_to_int := true;
  sign_extension := true; reference_types := true; multi_value := true;
  bulk_memory := true; simd := true; relaxed_simd := true; threads := true;
  shared_everything_threads := false; tail_call := true; floats := true;
  multi_memory := true; exceptions := true; memory64 := true;
  extended_const := true; component_model := true;
  function_references := true; memory_control := false; gc := true;
  custom_page_sizes := false; component_model_values := false;
  component_model_nested_names := false; component_model_more_flags := false;
  component_model_multiple_returns := false; legacy_exceptions := false;
  gc_types := true; stack_switching := false; wide_arithmetic := false;
  component_model_async := false |}.

(** ** State *)

Record BinaryReader := mkReader {
  buffer : list Z;
  position : Z;
  original_offset : Z;
  features : WasmFeatures;
}.

Abbreviation Reader := (ST BinaryReader).

Definition buffer_len (r : BinaryReader) : Z := Z.of_nat (length (buffer r)).

Definition set_position (p : Z) (r : BinaryReader) : BinaryReader :=
  mkReader (buffer r) p (original_offset r) (features r).

Definition BinaryReader_new_features (data : list Z) (off : Z) (f : WasmFeatures)
  : BinaryReader := mkReader data 0 off f.

Definition BinaryReader_new (data : list Z) (off : Z) : BinaryReader :=
  BinaryReader_new_features data off WasmFeatures_all.

Definition remaining_buffer (r : BinaryReader) : list Z :=
  drop (Z.to_nat (position r)) (buffer r).

Definition shrink (r : BinaryReader) : BinaryReader :=
  mkReader (remaining_buffer r) 0 (original_offset r + position r) (features r).

Definition original_position (r : BinaryReader) : Z :=
  original_offset r + position r.

Definition range (r : BinaryReader) : Z * Z :=
  (original_offset r, original_offset r + buffer_len r).

Definition eof (r : BinaryReader) : bool := buffer_len r <=? position r.

Definition bytes_remaining (r : BinaryReader) : Z := buffer_len r - position r.

Definition is_end_then_eof (r : BinaryReader) : bool :=
  bool_decide (remaining_buffer r = [0x0b]).

(** ** Primitive reads *)

Definition ensure_has_byte : Reader () := fun r =>
  if position r <? buffer_len r then (Ok tt, r)
  else (Err (err_eof (original_position r) 1), r).

Definition ensure_has_bytes (len : Z) : Reader () := fun r =>
  if position r + len <=? buffer_len r then (Ok tt, r)
  else
    let hint := position r + len - buffer_len r in
    (Err (err_eof (original_position r) hint), r).

Definition read_u8 : Reader Z := fun r =>
  match buffer r !! Z.to_nat (position r) with
  | Some b => (Ok b, set_position (position r + 1) r)
  | None => (Err (err_eof (original_position r) 1), r)
  end.

(** [self.buffer[self.position]], which panics out of range. *)
Definition index_position : Reader Z := fun r =>
  match buffer r !! Z.to_nat (position r) with
  | Some b => (Ok b, r)
  | None => (Panic, r)
  end.

Definition peek : Reader Z := ensure_has_byte;; index_position.

(** [&self.buffer[start..end]]. *)
Definition slice (start stop : Z) (l : list Z) : list Z :=
  take (Z.to_nat (stop - start)) (drop (Z.to_nat start) l).

Definition read_bytes (size : Z) : Reader (list Z) :=
  ensure_has_bytes size;;
  start ← gets position;
  modify (fun r => set_position (position r + size) r);;
  gets (fun r => slice start (position r) (buffer r)).

(** [uN::from_le_bytes]. *)
Fixpoint from_le_bytes (bs : list Z) : Z :=
  match bs with
  | [] => 0
  | b :: bs' => b + 256 * from_le_bytes bs'
  end.

Definition read_u32 : Reader Z :=
  ensure_has_bytes 4;;
  word ← gets (fun r => from_le_bytes (slice (position r) (position r + 4) (buffer r)));
  modify (fun r => set_position (position r + 4) r);;
  mret word.

Definition read_u64 : Reader Z :=
  ensure_has_bytes 8;;
  word ← gets (fun r => from_le_bytes (slice (position r) (position r + 8) (buffer r)));
  modify (fun r => set_position (position r + 8) r);;
  mret word.

(** An error at the byte just read: [self.original_position() - 1]. *)
Definition fail_prev {A} (m : Msg) : Reader A :=
  pos ← gets original_position;
  fail (err_new m (pos - 1)).

Definition read_u7 : Reader Z :=
  b ← read_u8;
  if negb (Z.land b 0x80 =? 0) then fail_prev (lit "invalid u7") else mret b.

(** ** Variable length integers

    The loops of [read_var_u32_big] and [read_var_u64_big] differ only in the
    width [w] of the accumulator, those of [read_var_i32_big], [read_var_s33]
    and [read_var_i64] in the width [acc] of the accumulator, the width [w] of
    the value and the shift [thr] from which a byte is the last one allowed.
    A shift by the width of the accumulator or more panics. *)

Fixpoint var_u_loop (w : Z) (too_long too_large : string) (fuel : nat)
  (result shift : Z) : Reader Z :=
  match fuel with
  | O => panic
  | S fuel' =>
      byte ← read_u8;
      if w <=? shift then panic else
      let result := Z.lor result (shl_u w (Z.land byte 0x7F) shift) in
      if (w - 7 <=? shift) && negb (Z.shiftr byte (w - shift) =? 0) then
        fail_prev (lit (if negb (Z.land byte 0x80 =? 0) then too_long else too_large))
      else
        let shift := shift + 7 in
        if Z.land byte 0x80 =? 0 then mret result
        else var_u_loop w too_long too_large fuel' result shift
  end.

Definition read_var_u32_big (byte : Z) : Reader Z :=
  var_u_loop 32 "invalid var_u32: integer representation too long"
    "invalid var_u32: integer too large" 10 (Z.land byte 0x7F) 7.

Definition read_var_u32 : Reader Z :=
  byte ← read_u8;
  if Z.land byte 0x80 =? 0 then mret byte else read_var_u32_big byte.

Definition read_var_u64_big (byte : Z) : Reader Z :=
  var_u_loop 64 "invalid var_u64: integer representation too long"
    "invalid var_u64: integer too large" 10 (Z.land byte 0x7F) 7.

Definition read_var_u64 : Reader Z :=
  byte ← read_u8;
  if Z.land byte 0x80 =? 0 then mret byte else read_var_u64_big byte.

Fixpoint var_i_loop (acc w thr : Z) (too_long too_large : string) (fuel : nat)
  (result shift : Z) : Reader Z :=
  match fuel with
  | O => panic
  | S fuel' =>
      byte ← read_u8;
      if acc <=? shift then panic else
      let result := Z.lor result (shl_i acc (Z.land byte 0x7F) shift) in
      if thr <=? shift then
        let continuation_bit := negb (Z.land byte 0x80 =? 0) in
        let sign_and_unused_bit :=
          Z.shiftr (swrap 8 (shl_u 8 byte 1)) (w - shift) in
        if continuation_bit
           || (negb (sign_and_unused_bit =? 0) && negb (sign_and_unused_bit =? -1))
        then fail_prev (lit (if continuation_bit then too_long else too_large))
        else mret result
      else
        let shift := shift + 7 in
        if Z.land byte 0x80 =? 0 then
          let ashift := acc - shift in
          mret (Z.shiftr (shl_i acc result ashift) ashift)
        else var_i_loop acc w thr too_long too_large fuel' result shift
  end.

Definition read_var_i32_big (byte : Z) : Reader Z :=
  var_i_loop 32 32 25 "invalid var_i32: integer representation too long"
    "invalid var_i32: integer too large" 10 (Z.land byte 0x7F) 7.

Definition read_var_i32 : Reader Z :=
  byte ← read_u8;
  if Z.land byte 0x80 =? 0 then mret (Z.shiftr (shl_i 32 byte 25) 25)
  else read_var_i32_big byte.

Definition read_var_s33 : Reader Z :=
  byte ← read_u8;
  if Z.land byte 0x80 =? 0 then mret (Z.shiftr (shl_i 8 (swrap 8 byte) 1) 1)
  else
    var_i_loop 64 33 25 "invalid var_s33: integer representation too long"
      "invalid var_s33: integer representation too long" 10 (Z.land byte 0x7F) 7.

Definition read_var_i64 : Reader Z :=
  var_i_loop 64 64 57 "invalid var_i64: integer representation too long"
    "invalid var_i64: integer too large" 10 0 0.

Definition read_f32 : Reader Z := read_u32.
Definition read_f64 : Reader Z := read_u64.

(** [bail!(pos, "{desc} size is out of bounds")]. *)
Definition read_size (limit : Z) (desc : string) : Reader Z :=
  pos ← gets original_position;
  size ← read_var_u32;
  if limit <? size then fail (err_new (lit (desc ++ " size is out of bounds")) pos)
  else mret size.

(** [skip]: runs [f] and returns a reader for the bytes it consumed. *)
Definition skip (f : Reader ()) : Reader BinaryReader :=
  start ← gets position;
  f;;
  gets (fun r => mkReader (slice start (position r) (buffer r)) 0
                   (original_offset r + start) (features r)).

Definition read_reader : Reader BinaryReader :=
  size ← read_var_u32;
  skip (read_bytes size;; mret tt).

Definition skip_string : Reader () :=
  len ← read_var_u32;
  if MAX_WASM_STRING_SIZE <? len then fail_prev (lit "string size out of bounds")
  else
    ensure_has_bytes len;;
    modify (fun r => set_position (position r + len) r).

(** ** Strings

    [core::str::from_utf8]: well-formed UTF-8 (the Unicode table of well-formed
    byte sequences, which excludes overlong forms, surrogates and code points
    above U+10FFFF). *)

Definition byte_in (lo hi b : Z) : bool := (lo <=? b) && (b <=? hi).

Fixpoint from_utf8 (bs : list Z) : bool :=
  match bs with
  | [] => true
  | a :: t =>
      if byte_in 0x00 0x7F a then from_utf8 t else
      match t with
      | [] => false
      | b :: t =>
          if byte_in 0xC2 0xDF a then byte_in 0x80 0xBF b && from_utf8 t else
          match t with
          | [] => false
          | c :: t =>
              if byte_in 0xE0 0xEF a then
                (if a =? 0xE0 then byte_in 0xA0 0xBF b
                 else if a =? 0xED then byte_in 0x80 0x9F b
                 else byte_in 0x80 0xBF b)
                && byte_in 0x80 0xBF c && from_utf8 t
              else
              match t with
              | [] => false
              | d :: t =>
                  byte_in 0xF0 0xF4 a
                  && (if a =? 0xF0 then byte_in 0x90 0xBF b
                      else if a =? 0xF4 then byte_in 0x80 0x8F b
                      else byte_in 0x80 0xBF b)
                  && byte_in 0x80 0xBF c && byte_in 0x80 0xBF d && from_utf8 t
              end
          end
      end
  end.

Definition internal_read_string (len : Z) : Reader (list Z) :=
  bytes ← read_bytes len;
  if from_utf8 bytes then mret bytes
  else fail_prev (lit "malformed UTF-8 encoding").

Definition read_string : Reader (list Z) :=
  len ← read_var_u32;
  if MAX_WASM_STRING_SIZE <? len then fail_prev (lit "string size out of bounds")
  else internal_read_string len.

Definition read_unlimited_string : Reader (list Z) :=
  len ← read_var_u32;
  internal_read_string len.

Definition invalid_leading_byte_error (byte : Z) (desc : string) (off : Z)
  : BinaryReaderError :=
  err_new (mkMsg ("invalid leading byte (0x{byte:x}) for " ++ desc)%string [byte]) off.

Definition invalid_leading_byte {A} (byte : Z) (desc : string) : Reader A :=
  pos ← gets original_position;
  fail (invalid_leading_byte_error byte desc (pos - 1)).

Inductive ExternalKind := EK_Func | EK_Table | EK_Memory | EK_Global | EK_Tag.

Definition external_kind_from_byte (byte off : Z) : result ExternalKind :=
  match byte with
  | 0x00 => Ok EK_Func
  | 0x01 => Ok EK_Table
  | 0x02 => Ok EK_Memory
  | 0x03 => Ok EK_Global
  | 0x04 => Ok EK_Tag
  | x => Err (invalid_leading_byte_error x "external kind" off)
  end.

Definition WASM_MAGIC_NUMBER : list Z := [0x00; 0x61; 0x73; 0x6d].

Definition read_header_version : Reader Z :=
  magic_number ← read_bytes 4;
  if negb (bool_decide (magic_number = WASM_MAGIC_NUMBER)) then
    pos ← gets original_position;
    fail (err_new (mkMsg "magic header not detected: bad magic number - expected={WASM_MAGIC_NUMBER:#x?} actual={magic_number:#x?}"
                     (WASM_MAGIC_NUMBER ++ magic_number)) (pos - 4))
  else read_u32.

(** ** [FromReader], [BinaryReader::read] and [BinaryReader::read_iter] *)

Class FromReader (A : Type) := from_reader : Reader A.

Definition read {A} `{FromReader A} : Reader A := from_reader.

#[export] Instance FromReader_u32 : FromReader Z := read_var_u32.

Definition from_reader_bool : Reader bool :=
  b ← read_u8;
  match b with
  | 0 => mret false
  | 1 => mret true
  | _ => fail_prev (lit "invalid boolean value")
  end.
#[export] Instance FromReader_bool : FromReader bool := from_reader_bool.

Definition from_reader_pair {A B} `{FromReader A, FromReader B} : Reader (A * B) :=
  a ← read;
  b ← read;
  mret (a, b).
#[export] Instance FromReader_pair {A B} `{FromReader A, FromReader B}
  : FromReader (A * B) := from_reader_pair.

(** Collecting a [BinaryReaderIter] of [n] items: the first error ends it. *)
Fixpoint read_n {A} `{FromReader A} (n : nat) : Reader (list A) :=
  match n with
  | O => mret []
  | S n' =>
      x ← read;
      xs ← read_n n';
      mret (x :: xs)
  end.

Definition read_iter {A} `{FromReader A} (limit : Z) (desc : string) : Reader (list A) :=
  size ← read_size limit desc;
  read_n (Z.to_nat size).
