(* ===== verification/BinaryReaderSpec.v ===== *)
(** What the reads of BinaryReader.v do: the reader invariant, and complete
    functional specifications of the variable length integers. *)

From Stdlib Require Import ZArith Lia String.
From stdpp Require Import prelude.
From S2P Require Import Prelude Leb128 BinaryReader.

Local Open Scope Z_scope.

(** ** The invariant *)

Record wf_reader (r : BinaryReader) : Prop := {
  wf_pos : 0 <= position r <= buffer_len r;
  wf_off : 0 <= original_offset r;
  wf_end : original_offset r + buffer_len r < 2 ^ 64;
  wf_bytes : Forall is_byte (buffer r);
}.

Lemma wf_new data off f :
  Forall is_byte data -> 0 <= off -> off + Z.of_nat (length data) < 2 ^ 64 ->
  wf_reader (BinaryReader_new_features data off f).
Proof. intros. split; unfold buffer_len; simpl; (lia || done). Qed.

Definition advance (n : nat) (r : BinaryReader) : BinaryReader :=
  set_position (position r + Z.of_nat n) r.

Lemma advance_0 r : advance 0 r = r.
Proof. destruct r. unfold advance, set_position. simpl. f_equal. lia. Qed.

Lemma advance_advance n m r : advance n (advance m r) = advance (m + n) r.
Proof. unfold advance, set_position. simpl. f_equal. lia. Qed.

Lemma advance_features n r : features (advance n r) = features r.
Proof. done. Qed.

Lemma advance_original_position n r :
  original_position (advance n r) = original_position r + Z.of_nat n.
Proof. unfold original_position, advance. simpl. lia. Qed.

Lemma remaining_advance n r :
  0 <= position r -> remaining_buffer (advance n r) = drop n (remaining_buffer r).
Proof.
  intros H. unfold remaining_buffer, advance. simpl. rewrite drop_drop. f_equal. lia.
Qed.

Lemma remaining_length r :
  wf_reader r -> Z.of_nat (length (remaining_buffer r)) = buffer_len r - position r.
Proof.
  intros [H _ _ _]. unfold remaining_buffer, buffer_len in *.
  rewrite length_drop. lia.
Qed.

Lemma remaining_bytes r : wf_reader r -> Forall is_byte (remaining_buffer r).
Proof. intros H. unfold remaining_buffer. apply Forall_drop. apply H. Qed.

Lemma wf_advance n r :
  wf_reader r -> (n <= length (remaining_buffer r))%nat -> wf_reader (advance n r).
Proof.
  intros Hwf Hn. pose proof (remaining_length r Hwf). destruct Hwf.
  split; unfold advance, buffer_len in *; simpl; try done; lia.
Qed.

(** Moving past a prefix of the remaining bytes. *)
Lemma advance_app r bs rest :
  wf_reader r -> remaining_buffer r = bs ++ rest ->
  wf_reader (advance (length bs) r) /\ remaining_buffer (advance (length bs) r) = rest.
Proof.
  intros Hwf E. split; [apply wf_advance; [done|]; rewrite E, length_app; lia|].
  rewrite remaining_advance by apply Hwf. by rewrite E, drop_app_length.
Qed.

Lemma lookup_remaining r :
  0 <= position r -> buffer r !! Z.to_nat (position r) = remaining_buffer r !! 0%nat.
Proof. intros H. unfold remaining_buffer. rewrite lookup_drop. f_equal. lia. Qed.

(** ** Single bytes *)

Lemma read_u8_cons r b rest :
  0 <= position r -> remaining_buffer r = b :: rest ->
  read_u8 r = (Ok b, advance 1 r).
Proof. intros H E. unfold read_u8. by rewrite lookup_remaining, E. Qed.

Lemma read_u8_nil r :
  0 <= position r -> remaining_buffer r = [] ->
  read_u8 r = (Err (err_eof (original_position r) 1), r).
Proof. intros H E. unfold read_u8. by rewrite lookup_remaining, E. Qed.

Lemma remaining_advance_cons r b rest :
  0 <= position r -> remaining_buffer r = b :: rest ->
  remaining_buffer (advance 1 r) = rest.
Proof. intros H E. by rewrite remaining_advance, E. Qed.

Lemma wf_advance_cons r b rest :
  wf_reader r -> remaining_buffer r = b :: rest ->
  wf_reader (advance 1 r) /\ is_byte b.
Proof.
  intros Hwf E. split.
  - apply wf_advance; [done|]. rewrite E. simpl. lia.
  - apply remaining_bytes in Hwf. rewrite E in Hwf. by inversion Hwf.
Qed.

(** ** LEB128: where a string ends *)

Inductive leb_end := Done (n : nat) | TooLong | Eof.

(** The length of the LEB128 string that starts [bs], at most [max] bytes. *)
Fixpoint leb_scan (max : nat) (bs : list Z) : leb_end :=
  match max, bs with
  | O, _ => TooLong
  | S _, [] => Eof
  | S max', b :: bs' =>
      if b <? 128 then Done 1
      else match leb_scan max' bs' with
           | Done n => Done (S n)
           | e => e
           end
  end.

Lemma leb_scan_done max bs n :
  leb_scan max bs = Done n -> (0 < n <= max)%nat /\ (n <= length bs)%nat.
Proof.
  revert bs n. induction max as [|max IH]; intros [|b bs] n; simpl; try done.
  case_match.
  - intros [= <-]. lia.
  - destruct (leb_scan max bs) eqn:E; try done. intros [= <-].
    apply IH in E. lia.
Qed.

Lemma leb_scan_eof max bs : leb_scan max bs = Eof -> (length bs < max)%nat.
Proof.
  revert bs. induction max as [|max IH]; intros [|b bs]; simpl; try done; [lia|].
  case_match; [done|]. destruct (leb_scan max bs) eqn:E; try done. intros _.
  apply IH in E. lia.
Qed.

Lemma leb_scan_too_long max bs : leb_scan max bs = TooLong -> (max <= length bs)%nat.
Proof.
  revert bs. induction max as [|max IH]; intros [|b bs]; simpl; try done; try lia.
  case_match; [done|]. destruct (leb_scan max bs) eqn:E; try done. intros _.
  apply IH in E. lia.
Qed.

Lemma leb_scan_form max bs rest :
  leb_form bs -> (length bs <= max)%nat -> leb_scan max (bs ++ rest) = Done (length bs).
Proof.
  revert bs. induction max as [|max IH]; intros [|b bs]; try done; simpl; [lia|].
  destruct bs as [|c bs].
  - intros Hb _. destruct (Z.ltb_spec b 128); [done|lia].
  - intros [Hb Hbs] Hl. destruct (Z.ltb_spec b 128); [lia|].
    change (b :: c :: bs) with (b :: (c :: bs)).
    rewrite (IH (c :: bs)); [done|done|simpl in *; lia].
Qed.

(** ** Arithmetic of the loops *)

Lemma shl_u_small w x s :
  0 <= s -> 0 <= x -> x * 2 ^ s < 2 ^ w -> shl_u w x s = x * 2 ^ s.
Proof.
  intros Hs Hx H. unfold shl_u. rewrite Z.shiftl_mul_pow2 by lia.
  apply wrap_small. unfold in_u. nia.
Qed.

Lemma cont_bit b : is_byte b -> (Z.land b 128 =? 0) = (b <? 128).
Proof. intros H. rewrite land_128 by done. by destruct (b <? 128). Qed.

(** [swrap] commutes with a shift to the left, and only looks at the top bits. *)
Lemma swrap_scale t a u :
  0 < t -> 0 <= a -> swrap (t + a) (u * 2 ^ a) = swrap t u * 2 ^ a.
Proof.
  intros Ht Ha. unfold swrap.
  replace (t + a - 1) with (t - 1 + a) by lia.
  rewrite !Z.pow_add_r by lia.
  rewrite <- Z.mul_add_distr_r, Zmult_mod_distr_r. lia.
Qed.

Lemma swrap_low s t res x :
  0 <= s -> 0 < t -> 0 <= res < 2 ^ s ->
  swrap (t + s) (res + x * 2 ^ s) = res + swrap t x * 2 ^ s.
Proof.
  intros Hs Ht Hr. unfold swrap.
  replace (t + s - 1) with (t - 1 + s) by lia.
  rewrite !Z.pow_add_r by lia.
  replace (res + x * 2 ^ s + 2 ^ (t - 1) * 2 ^ s)
    with (res + (x + 2 ^ (t - 1)) * 2 ^ s) by lia.
  pose proof (Z.pow_pos_nonneg 2 s). pose proof (Z.pow_pos_nonneg 2 t).
  rewrite (Z.mul_comm (2 ^ t)), Z.rem_mul_r by lia.
  rewrite Z.mod_add by lia. rewrite Z.mod_small by lia.
  rewrite Z.div_add by lia. rewrite (Z.div_small res) by lia. rewrite Z.add_0_l. lia.
Qed.

Lemma sign_extend acc t u :
  0 < t <= acc -> Z.shiftr (shl_i acc u (acc - t)) (acc - t) = swrap t u.
Proof.
  intros H. unfold shl_i. rewrite Z.shiftl_mul_pow2 by lia.
  replace acc with (t + (acc - t)) at 1 by lia.
  rewrite swrap_scale by lia. rewrite Z.shiftr_div_pow2 by lia.
  apply Z.div_mul. apply Z.pow_nonzero; lia.
Qed.

(** The check of the last byte of a signed number: the sign bit and the bits
    above the width all agree. *)
Lemma sign_and_unused b s :
  0 <= b < 128 -> 1 <= s ->
  let x := Z.shiftr (swrap 8 (shl_u 8 b 1)) s in
  (x = 0 \/ x = -1) <-> in_i s (swrap 7 b).
Proof.
  intros Hb Hs x. unfold in_i. set (y := swrap 7 b). set (p := 2 ^ (s - 1)).
  assert (Hp : 0 < p) by (apply Z.pow_pos_nonneg; lia).
  assert (Ex : x = y / p).
  { unfold x, shl_u, wrap. rewrite Z.shiftl_mul_pow2 by lia.
    rewrite (Z.mod_small (b * 2 ^ 1)) by lia.
    rewrite (swrap_scale 7 1) by lia. rewrite Z.shiftr_div_pow2 by lia.
    replace (2 ^ s) with (p * 2 ^ 1)
      by (unfold p; rewrite <- Z.pow_add_r by lia; f_equal; lia).
    by rewrite Z.div_mul_cancel_r by lia. }
  rewrite Ex. pose proof (Z.div_mod y p ltac:(lia)) as Ey.
  pose proof (Z.mod_pos_bound y p ltac:(lia)). split.
  - intros [E|E]; rewrite E in Ey; lia.
  - intros Hy. assert (-1 <= y / p) by (apply Z.div_le_lower_bound; lia).
    assert (y / p < 1) by (apply Z.div_lt_upper_bound; lia). lia.
Qed.

(** ** The loops *)

Lemma lor_group res b k :
  0 <= res < 2 ^ (7 * Z.of_nat k) ->
  let v := res + b mod 128 * 2 ^ (7 * Z.of_nat k) in
  Z.lor res (b mod 128 * 2 ^ (7 * Z.of_nat k)) = v /\ 0 <= v < 2 ^ (7 * Z.of_nat (S k)).
Proof.
  intros H v. split; [apply lor_add; lia|]. rewrite pow7_succ. unfold v.
  pose proof (Z.mod_pos_bound b 128). nia.
Qed.

Lemma uleb_step res b bs k :
  res + uleb_val (b :: bs) * 2 ^ (7 * Z.of_nat k)
  = (res + b mod 128 * 2 ^ (7 * Z.of_nat k)) + uleb_val bs * 2 ^ (7 * Z.of_nat (S k)).
Proof. cbn [uleb_val]. rewrite pow7_succ. lia. Qed.

Lemma sleb_step res b bs k :
  bs <> [] ->
  res + sleb_val (b :: bs) * 2 ^ (7 * Z.of_nat k)
  = (res + b mod 128 * 2 ^ (7 * Z.of_nat k)) + sleb_val bs * 2 ^ (7 * Z.of_nat (S k)).
Proof. intros. rewrite sleb_val_cons, pow7_succ by done. lia. Qed.

Lemma shiftr_zero_iff b s : 0 <= b -> 0 <= s -> (Z.shiftr b s =? 0) = (b <? 2 ^ s).
Proof.
  intros Hb Hs. rewrite Z.shiftr_div_pow2 by lia.
  assert (0 < 2 ^ s) by (apply Z.pow_pos_nonneg; lia).
  destruct (Z.ltb_spec b (2 ^ s)).
  - rewrite Z.div_small by lia. done.
  - apply Z.eqb_neq. assert (1 <= b / 2 ^ s) by (apply Z.div_le_lower_bound; lia). lia.
Qed.

Section unsigned.
Context (w : Z) (m : nat) (tl tg : string).
Hypothesis width : 7 * (Z.of_nat m - 1) < w <= 7 * Z.of_nat m.

Definition var_u_outcome (k : nat) (res : Z) (r : BinaryReader)
  : result Z * BinaryReader :=
  let rem := remaining_buffer r in
  match leb_scan (m - k) rem with
  | Done n =>
      let v := res + uleb_val (take n rem) * 2 ^ (7 * Z.of_nat k) in
      if v <? 2 ^ w then (Ok v, advance n r)
      else (Err (err_new (lit tg) (original_position r + Z.of_nat n - 1)), advance n r)
  | TooLong =>
      (Err (err_new (lit tl) (original_position r + Z.of_nat (m - k) - 1)),
       advance (m - k) r)
  | Eof =>
      (Err (err_eof (original_position r + Z.of_nat (length rem)) 1),
       advance (length rem) r)
  end.

(** One more byte with its continuation bit set. *)
Lemma var_u_outcome_step k res r b rest :
  (S k < m)%nat -> wf_reader r -> remaining_buffer r = b :: rest -> 128 <= b ->
  var_u_outcome (S k) (res + b mod 128 * 2 ^ (7 * Z.of_nat k)) (advance 1 r)
  = var_u_outcome k res r.
Proof.
  intros Hk Hwf E Hb. unfold var_u_outcome.
  rewrite (remaining_advance_cons r b rest), E by (done || apply Hwf).
  replace (m - k)%nat with (S (m - S k)) by lia. cbn [leb_scan].
  destruct (Z.ltb_spec b 128); [lia|].
  destruct (leb_scan (m - S k) rest) as [n| |] eqn:Es.
  - cbn [take]. rewrite uleb_step, !advance_advance, advance_original_position.
    replace (original_position r + Z.of_nat 1 + Z.of_nat n - 1)
      with (original_position r + Z.of_nat (S n) - 1) by lia. done.
  - rewrite advance_advance, advance_original_position. cbn [Nat.add].
    replace (original_position r + Z.of_nat 1 + Z.of_nat (m - S k) - 1)
      with (original_position r + Z.of_nat (S (m - S k)) - 1) by lia. done.
  - rewrite advance_advance, advance_original_position. cbn [length Nat.add].
    replace (original_position r + Z.of_nat 1 + Z.of_nat (length rest))
      with (original_position r + Z.of_nat (S (length rest))) by lia. done.
Qed.

Lemma var_u_loop_spec fuel k res r :
  (k < m)%nat -> (m - k <= fuel)%nat -> 0 <= res < 2 ^ (7 * Z.of_nat k) ->
  wf_reader r ->
  var_u_loop w tl tg fuel res (7 * Z.of_nat k) r = var_u_outcome k res r.
Proof.
  revert k res r. induction fuel as [|fuel IH]; intros k res r Hk Hf Hres Hwf; [lia|].
  pose proof (wf_pos r Hwf) as Hp.
  cbn [var_u_loop]. unfold mbind, ST_bind.
  destruct (remaining_buffer r) as [|b rest] eqn:E.
  { rewrite read_u8_nil by (done || lia). unfold var_u_outcome. rewrite E.
    replace (m - k)%nat with (S (m - S k)) by lia. cbn.
    by rewrite advance_0, Z.add_0_r. }
  rewrite (read_u8_cons r b rest) by (done || lia).
  destruct (wf_advance_cons r b rest Hwf E) as [Hwf' Hb].
  destruct (Z.leb_spec w (7 * Z.of_nat k)); [lia|].
  rewrite land_127, cont_bit by done.
  destruct (lor_group res b k Hres) as [Elor Hv].
  set (v := res + b mod 128 * 2 ^ (7 * Z.of_nat k)) in *.
  unfold is_byte in Hb.
  rewrite shiftr_zero_iff by lia.
  destruct (decide (S k = m)) as [Hlast|Hlast].
  - (* the last byte allowed *)
    destruct (Z.leb_spec (w - 7) (7 * Z.of_nat k)); [|lia]. cbn [andb].
    unfold var_u_outcome. rewrite E.
    replace (m - k)%nat with 1%nat by lia. cbn [leb_scan].
    assert (Hw : 2 ^ w = 2 ^ (w - 7 * Z.of_nat k) * 2 ^ (7 * Z.of_nat k))
      by (rewrite <- Z.pow_add_r by lia; f_equal; lia).
    assert (2 ^ (w - 7 * Z.of_nat k) <= 128)
      by (change 128 with (2 ^ 7); apply Z.pow_le_mono_r; lia).
    destruct (Z.ltb_spec b (2 ^ (w - 7 * Z.of_nat k))) as [Hlt|Hge]; cbn [negb].
    + destruct (Z.ltb_spec b 128) as [Hb'|]; [|lia].
      rewrite shl_u_small, Elor by (rewrite ?Z.mod_small by lia; nia).
      cbn [take uleb_val]. rewrite Z.mul_0_r, Z.add_0_r. fold v.
      destruct (Z.ltb_spec v (2 ^ w)); [done|].
      unfold v in *. rewrite (Z.mod_small b 128) in * by lia. nia.
    + unfold fail_prev, mbind, ST_bind, gets, fail.
      rewrite advance_original_position.
      destruct (Z.ltb_spec b 128) as [Hb'|]; cbn [negb]; [|done].
      cbn [take uleb_val]. rewrite Z.mul_0_r, Z.add_0_r. fold v.
      destruct (Z.ltb_spec v (2 ^ w)); [|done].
      unfold v in *. rewrite (Z.mod_small b 128) in * by lia. nia.
  - destruct (Z.leb_spec (w - 7) (7 * Z.of_nat k)); [lia|]. cbn [andb].
    assert (Hvw : v < 2 ^ w).
    { etrans; [apply Hv|]. apply Z.pow_lt_mono_r; lia. }
    rewrite shl_u_small, Elor by (unfold v in *; pose proof (Z.mod_pos_bound b 128); lia).
    destruct (Z.ltb_spec b 128) as [Hb'|Hb'].
    + unfold var_u_outcome. rewrite E.
      replace (m - k)%nat with (S (m - S k)) by lia. cbn [leb_scan].
      destruct (Z.ltb_spec b 128); [|lia].
      cbn [take uleb_val]. rewrite Z.mul_0_r, Z.add_0_r. fold v.
      by destruct (Z.ltb_spec v (2 ^ w)); [|lia].
    + replace (7 * Z.of_nat k + 7) with (7 * Z.of_nat (S k)) by lia.
      rewrite IH by (done || lia). unfold v. by apply var_u_outcome_step with rest; [lia|..].
Qed.
End unsigned.

Lemma in_i_group w k res x :
  0 <= res < 2 ^ (7 * Z.of_nat k) -> 7 * Z.of_nat k < w ->
  in_i w (res + x * 2 ^ (7 * Z.of_nat k)) <-> in_i (w - 7 * Z.of_nat k) x.
Proof.
  intros Hr Hw. unfold in_i.
  replace (w - 1) with ((w - 7 * Z.of_nat k - 1) + 7 * Z.of_nat k) by lia.
  rewrite Z.pow_add_r by lia.
  set (p := 2 ^ (w - 7 * Z.of_nat k - 1)). set (q := 2 ^ (7 * Z.of_nat k)) in *. nia.
Qed.

Section signed.
Context (acc w thr : Z) (m : nat) (tl tg : string).
Hypothesis width : 7 * (Z.of_nat m - 1) < w <= 7 * Z.of_nat m.
Hypothesis width_acc : w <= acc.
Hypothesis last_byte : 7 * (Z.of_nat m - 2) < thr <= 7 * (Z.of_nat m - 1).

Definition var_i_outcome (k : nat) (res : Z) (r : BinaryReader)
  : result Z * BinaryReader :=
  let rem := remaining_buffer r in
  match leb_scan (m - k) rem with
  | Done n =>
      let s := res + sleb_val (take n rem) * 2 ^ (7 * Z.of_nat k) in
      let u := res + uleb_val (take n rem) * 2 ^ (7 * Z.of_nat k) in
      if bool_decide (in_i w s) then
        (Ok (if bool_decide (k + n = m)%nat then swrap acc u else s), advance n r)
      else (Err (err_new (lit tg) (original_position r + Z.of_nat n - 1)), advance n r)
  | TooLong =>
      (Err (err_new (lit tl) (original_position r + Z.of_nat (m - k) - 1)),
       advance (m - k) r)
  | Eof =>
      (Err (err_eof (original_position r + Z.of_nat (length rem)) 1),
       advance (length rem) r)
  end.

Lemma var_i_outcome_step k res r b rest :
  (S k < m)%nat -> wf_reader r -> remaining_buffer r = b :: rest -> 128 <= b ->
  var_i_outcome (S k) (res + b mod 128 * 2 ^ (7 * Z.of_nat k)) (advance 1 r)
  = var_i_outcome k res r.
Proof.
  intros Hk Hwf E Hb. unfold var_i_outcome.
  rewrite (remaining_advance_cons r b rest), E by (done || apply Hwf).
  replace (m - k)%nat with (S (m - S k)) by lia. cbn [leb_scan].
  destruct (Z.ltb_spec b 128); [lia|].
  destruct (leb_scan (m - S k) rest) as [n| |] eqn:Es.
  - apply leb_scan_done in Es. cbn [take].
    rewrite uleb_step, sleb_step by (destruct rest, n; simpl in *; (lia || done)).
    rewrite !advance_advance, advance_original_position.
    replace (original_position r + Z.of_nat 1 + Z.of_nat n - 1)
      with (original_position r + Z.of_nat (S n) - 1) by lia.
    by rewrite Nat.add_succ_r.
  - rewrite advance_advance, advance_original_position. cbn [Nat.add].
    replace (original_position r + Z.of_nat 1 + Z.of_nat (m - S k) - 1)
      with (original_position r + Z.of_nat (S (m - S k)) - 1) by lia. done.
  - rewrite advance_advance, advance_original_position. cbn [length Nat.add].
    replace (original_position r + Z.of_nat 1 + Z.of_nat (length rest))
      with (original_position r + Z.of_nat (S (length rest))) by lia. done.
Qed.

(** The accumulator of the last byte, which may lose bits above its width. *)
Lemma lor_last res b k :
  0 <= res < 2 ^ (7 * Z.of_nat k) -> 7 * Z.of_nat k < acc ->
  Z.lor res (shl_i acc (b mod 128) (7 * Z.of_nat k))
  = swrap acc (res + b mod 128 * 2 ^ (7 * Z.of_nat k)).
Proof.
  intros Hr Hk. unfold shl_i. rewrite Z.shiftl_mul_pow2 by lia.
  replace acc with ((acc - 7 * Z.of_nat k) + 7 * Z.of_nat k) by lia.
  rewrite swrap_scale, swrap_low by lia. apply lor_add; lia.
Qed.

Lemma var_i_loop_spec fuel k res r :
  (k < m)%nat -> (m - k <= fuel)%nat -> 0 <= res < 2 ^ (7 * Z.of_nat k) ->
  wf_reader r ->
  var_i_loop acc w thr tl tg fuel res (7 * Z.of_nat k) r = var_i_outcome k res r.
Proof.
  revert k res r. induction fuel as [|fuel IH]; intros k res r Hk Hf Hres Hwf; [lia|].
  pose proof (wf_pos r Hwf) as Hp.
  cbn [var_i_loop]. unfold mbind, ST_bind.
  destruct (remaining_buffer r) as [|b rest] eqn:E.
  { rewrite read_u8_nil by (done || lia). unfold var_i_outcome. rewrite E.
    replace (m - k)%nat with (S (m - S k)) by lia. cbn.
    by rewrite advance_0, Z.add_0_r. }
  rewrite (read_u8_cons r b rest) by (done || lia).
  destruct (wf_advance_cons r b rest Hwf E) as [Hwf' Hb].
  destruct (Z.leb_spec acc (7 * Z.of_nat k)); [lia|].
  rewrite land_127, cont_bit by done.
  destruct (lor_group res b k Hres) as [Elor Hv].
  rewrite lor_last by lia.
  set (v := res + b mod 128 * 2 ^ (7 * Z.of_nat k)) in *.
  unfold is_byte in Hb.
  assert (Hone : b < 128 -> leb_scan (m - k) (b :: rest) = Done 1).
  { intros. replace (m - k)%nat with (S (m - S k)) by lia. simpl.
    by destruct (Z.ltb_spec b 128); [|lia]. }
  assert (Hs : 0 <= b < 128 ->
    swrap (7 * Z.of_nat (S k)) v = res + swrap 7 b * 2 ^ (7 * Z.of_nat k)).
  { intros. unfold v. rewrite Z.mod_small by lia.
    replace (7 * Z.of_nat (S k)) with (7 + 7 * Z.of_nat k) by lia.
    by apply swrap_low; lia. }
  destruct (decide (S k = m)) as [Hlast|Hlast].
  - (* the last byte allowed *)
    destruct (Z.leb_spec thr (7 * Z.of_nat k)); [|lia].
    unfold fail_prev, mbind, ST_bind, gets, fail, var_i_outcome.
    rewrite E. destruct (Z.ltb_spec b 128) as [Hb'|Hb']; cbn [negb orb].
    + rewrite Hone by done. change (take 1 (b :: rest)) with [b].
      cbn [sleb_val uleb_val].
      rewrite Z.mul_0_r, Z.add_0_r. fold v.
      destruct (sign_and_unused b (w - 7 * Z.of_nat k)) as [H1 H2]; [lia|lia|].
      set (x := Z.shiftr _ _) in *.
      pose proof (in_i_group w k res (swrap 7 b) Hres ltac:(lia)) as Hin.
      destruct (decide (x = 0 \/ x = -1)) as [Hx|Hx].
      * replace (_ && _) with false
          by (destruct Hx as [-> | ->]; done).
        rewrite bool_decide_eq_true_2 by (apply Hin, H1, Hx).
        by rewrite bool_decide_eq_true_2 by lia.
      * replace (_ && _) with true
          by (symmetry; destruct (Z.eqb_spec x 0), (Z.eqb_spec x (-1)); tauto || done).
        rewrite bool_decide_eq_false_2 by (rewrite Hin; tauto).
        by rewrite advance_original_position.
    + replace (m - k)%nat with 1%nat by lia. cbn [leb_scan].
      destruct (Z.ltb_spec b 128); [lia|].
      by rewrite advance_original_position.
  - destruct (Z.leb_spec thr (7 * Z.of_nat k)); [lia|].
    rewrite (swrap_small acc v); [|lia|].
    2: { unfold in_i. assert (2 ^ (7 * Z.of_nat (S k)) <= 2 ^ (acc - 1))
           by (apply Z.pow_le_mono_r; lia). lia. }
    replace (7 * Z.of_nat k + 7) with (7 * Z.of_nat (S k)) by lia.
    destruct (Z.ltb_spec b 128) as [Hb'|Hb'].
    + rewrite sign_extend, Hs by lia. unfold var_i_outcome. rewrite E, Hone by done.
      change (take 1 (b :: rest)) with [b]. cbn [sleb_val].
      rewrite bool_decide_eq_true_2.
      2: { apply in_i_group; [done|lia|].
           pose proof (swrap_range 7 b ltac:(lia)) as H7. unfold in_i in *.
           assert (2 ^ (7 - 1) <= 2 ^ (w - 7 * Z.of_nat k - 1))
             by (apply Z.pow_le_mono_r; lia). lia. }
      by rewrite bool_decide_eq_false_2 by lia.
    + rewrite IH by (done || lia). unfold v. by apply var_i_outcome_step with rest; [lia|..].
Qed.
End signed.

(** ** Specifications of the variable length reads

    [m] is the largest number of bytes a [w]-bit number may use.  The outcome
    is decided by where the LEB128 string ends and by its value. *)

Definition leb_u_spec (w : Z) (m : nat) (tl tg : string) (r : BinaryReader)
  : result Z * BinaryReader :=
  let rem := remaining_buffer r in
  match leb_scan m rem with
  | Done n =>
      let v := uleb_val (take n rem) in
      (if bool_decide (in_u w v) then Ok v
       else Err (err_new (lit tg) (original_position r + Z.of_nat n - 1)),
       advance n r)
  | TooLong =>
      (Err (err_new (lit tl) (original_position r + Z.of_nat m - 1)), advance m r)
  | Eof =>
      (Err (err_eof (original_position r + Z.of_nat (length rem)) 1),
       advance (length rem) r)
  end.

Definition leb_i_spec (w : Z) (m : nat) (tl tg : string) (r : BinaryReader)
  : result Z * BinaryReader :=
  let rem := remaining_buffer r in
  match leb_scan m rem with
  | Done n =>
      let v := sleb_val (take n rem) in
      (if bool_decide (in_i w v) then Ok v
       else Err (err_new (lit tg) (original_position r + Z.of_nat n - 1)),
       advance n r)
  | TooLong =>
      (Err (err_new (lit tl) (original_position r + Z.of_nat m - 1)), advance m r)
  | Eof =>
      (Err (err_eof (original_position r + Z.of_nat (length rem)) 1),
       advance (length rem) r)
  end.

Lemma var_u_outcome_spec w m tl tg r :
  0 <= w -> var_u_outcome w m tl tg 0 0 r = leb_u_spec w m tl tg r.
Proof.
  intros Hw. unfold var_u_outcome, leb_u_spec. rewrite Nat.sub_0_r.
  destruct (leb_scan m (remaining_buffer r)) as [n| |]; [|done..].
  change (7 * Z.of_nat 0) with 0. rewrite Z.add_0_l, Z.pow_0_r, Z.mul_1_r.
  pose proof (uleb_val_nonneg (take n (remaining_buffer r))).
  destruct (Z.ltb_spec (uleb_val (take n (remaining_buffer r))) (2 ^ w)).
  - rewrite bool_decide_eq_true_2; [done | split; lia].
  - rewrite bool_decide_eq_false_2; [done | unfold in_u; lia].
Qed.

(** The first byte of a number is read before the loop is entered. *)
Lemma first_byte_u w m tl tg r :
  7 * (Z.of_nat m - 1) < w <= 7 * Z.of_nat m -> (1 < m <= 10)%nat -> wf_reader r ->
  (byte ← read_u8;
   if Z.land byte 0x80 =? 0 then mret byte
   else var_u_loop w tl tg 10 (Z.land byte 0x7F) 7) r = leb_u_spec w m tl tg r.
Proof.
  intros Hw Hm Hwf. pose proof (wf_pos r Hwf).
  rewrite <- var_u_outcome_spec by lia. unfold mbind, ST_bind.
  destruct (remaining_buffer r) as [|b rest] eqn:E.
  { rewrite read_u8_nil by (done || lia). unfold var_u_outcome. rewrite E.
    destruct m; [lia|]. cbn. by rewrite advance_0, Z.add_0_r. }
  rewrite (read_u8_cons r b rest) by (done || lia).
  destruct (wf_advance_cons r b rest Hwf E) as [Hwf' Hb].
  rewrite land_127, cont_bit by done. unfold is_byte in Hb.
  pose proof (Z.mod_pos_bound b 128).
  destruct (Z.ltb_spec b 128) as [Hb'|Hb'].
  - unfold var_u_outcome. rewrite E. destruct m; [lia|]. cbn [Nat.sub leb_scan].
    destruct (Z.ltb_spec b 128); [|lia].
    change (take 1 (b :: rest)) with [b]. cbn [uleb_val].
    rewrite Z.mod_small by lia.
    replace (0 + (b + 128 * 0) * 2 ^ (7 * Z.of_nat 0)) with b by lia.
    assert (2 ^ 7 <= 2 ^ w) by (apply Z.pow_le_mono_r; lia).
    by destruct (Z.ltb_spec b (2 ^ w)); [|lia].
  - rewrite (var_u_loop_spec w m tl tg Hw 10 1) by (done || lia).
    rewrite <- (var_u_outcome_step w m tl tg 0 0 r b rest) by (done || lia).
    f_equal. change (7 * Z.of_nat 0) with 0. lia.
Qed.

Lemma first_byte_i acc w thr m tl tg fast r :
  7 * (Z.of_nat m - 1) < w <= 7 * Z.of_nat m -> w <= acc ->
  7 * (Z.of_nat m - 2) < thr <= 7 * (Z.of_nat m - 1) ->
  (1 < m <= 10)%nat -> (forall b, 0 <= b < 128 -> fast b = swrap 7 b) -> wf_reader r ->
  (byte ← read_u8;
   if Z.land byte 0x80 =? 0 then mret (fast byte)
   else var_i_loop acc w thr tl tg 10 (Z.land byte 0x7F) 7) r
  = var_i_outcome acc w m tl tg 0 0 r.
Proof.
  intros Hw Ha Ht Hm Hfast Hwf. pose proof (wf_pos r Hwf).
  unfold mbind, ST_bind.
  destruct (remaining_buffer r) as [|b rest] eqn:E.
  { rewrite read_u8_nil by (done || lia). unfold var_i_outcome. rewrite E.
    destruct m; [lia|]. cbn. by rewrite advance_0, Z.add_0_r. }
  rewrite (read_u8_cons r b rest) by (done || lia).
  destruct (wf_advance_cons r b rest Hwf E) as [Hwf' Hb].
  rewrite land_127, cont_bit by done. unfold is_byte in Hb.
  pose proof (Z.mod_pos_bound b 128).
  destruct (Z.ltb_spec b 128) as [Hb'|Hb'].
  - unfold var_i_outcome. rewrite E. destruct m; [lia|]. cbn [Nat.sub leb_scan].
    destruct (Z.ltb_spec b 128); [|lia].
    change (take 1 (b :: rest)) with [b]. cbn [sleb_val].
    rewrite Hfast by lia. change (7 * Z.of_nat 0) with 0.
    rewrite Z.add_0_l, Z.pow_0_r, Z.mul_1_r.
    rewrite bool_decide_eq_true_2.
    2: { pose proof (swrap_range 7 b ltac:(lia)) as H7. unfold in_i in *.
         assert (2 ^ (7 - 1) <= 2 ^ (w - 1)) by (apply Z.pow_le_mono_r; lia). lia. }
    by rewrite bool_decide_eq_false_2 by lia.
  - rewrite (var_i_loop_spec acc w thr m tl tg Hw Ha Ht 10 1) by (done || lia).
    rewrite <- (var_i_outcome_step acc w m tl tg 0 0 r b rest) by (done || lia).
    f_equal. change (7 * Z.of_nat 0) with 0. lia.
Qed.

(** When the accumulator has the width of the value, nothing is lost. *)
Lemma var_i_outcome_spec w m tl tg r :
  0 < w <= 7 * Z.of_nat m -> var_i_outcome w w m tl tg 0 0 r = leb_i_spec w m tl tg r.
Proof.
  intros Hw. unfold var_i_outcome, leb_i_spec. rewrite Nat.sub_0_r.
  destruct (leb_scan m (remaining_buffer r)) as [n| |] eqn:Es; [|done..].
  apply leb_scan_done in Es.
  set (bs := take n (remaining_buffer r)).
  assert (Hl : length bs = n) by (unfold bs; rewrite length_take; lia).
  change (7 * Z.of_nat 0) with 0. rewrite !Z.add_0_l, Z.pow_0_r, !Z.mul_1_r.
  case_bool_decide as Hin; [|done]. do 2 f_equal. case_bool_decide as Hn; [|done].
  rewrite <- (swrap_small w (sleb_val bs)) by (done || lia).
  apply swrap_cong; [lia|]. rewrite sleb_uleb by (intros ->; simpl in *; lia).
  rewrite Hl. replace (7 * Z.of_nat n) with (7 * Z.of_nat m) by lia.
  unfold swrap.
  assert (Hd : exists q, 2 ^ (7 * Z.of_nat m) = q * 2 ^ w).
  { exists (2 ^ (7 * Z.of_nat m - w)). rewrite <- Z.pow_add_r by lia. f_equal. lia. }
  destruct Hd as [q Hq].
  assert (0 < 2 ^ w) by (apply Z.pow_pos_nonneg; lia).
  assert (0 < 2 ^ (7 * Z.of_nat m)) by (apply Z.pow_pos_nonneg; lia).
  pose proof (Z.div_mod (uleb_val bs + 2 ^ (7 * Z.of_nat m - 1)) (2 ^ (7 * Z.of_nat m))
                ltac:(lia)) as Hdm.
  set (d := (uleb_val bs + _) / _) in Hdm.
  replace ((uleb_val bs + 2 ^ (7 * Z.of_nat m - 1)) mod 2 ^ (7 * Z.of_nat m)
           - 2 ^ (7 * Z.of_nat m - 1))
    with (uleb_val bs + (- d * q) * 2 ^ w) by nia.
  by rewrite Z.mod_add by lia.
Qed.

Lemma read_var_u32_spec r :
  wf_reader r ->
  read_var_u32 r = leb_u_spec 32 5 "invalid var_u32: integer representation too long"
                     "invalid var_u32: integer too large" r.
Proof. intros. apply (first_byte_u 32 5); (done || lia). Qed.

Lemma read_var_u64_spec r :
  wf_reader r ->
  read_var_u64 r = leb_u_spec 64 10 "invalid var_u64: integer representation too long"
                     "invalid var_u64: integer too large" r.
Proof. intros. apply (first_byte_u 64 10); (done || lia). Qed.

Lemma read_var_i32_spec r :
  wf_reader r ->
  read_var_i32 r = leb_i_spec 32 5 "invalid var_i32: integer representation too long"
                     "invalid var_i32: integer too large" r.
Proof.
  intros. rewrite <- var_i_outcome_spec by lia.
  apply (first_byte_i 32 32 25 5); try (done || lia).
  intros b Hb. apply (sign_extend 32 7). lia.
Qed.

Lemma read_var_i64_spec r :
  wf_reader r ->
  read_var_i64 r = leb_i_spec 64 10 "invalid var_i64: integer representation too long"
                     "invalid var_i64: integer too large" r.
Proof.
  intros. rewrite <- var_i_outcome_spec by lia.
  apply (var_i_loop_spec 64 64 57 10) with (k := 0%nat); (done || simpl; lia).
Qed.

(** [read_var_s33] accumulates in an [i64] and returns a five byte number
    without extending its sign. *)
Definition s33_value (bs : list Z) : Z :=
  if bool_decide (length bs = 5%nat) then uleb_val bs else sleb_val bs.

Definition s33_spec (r : BinaryReader) : result Z * BinaryReader :=
  let rem := remaining_buffer r in
  let too_long := lit "invalid var_s33: integer representation too long" in
  match leb_scan 5 rem with
  | Done n =>
      (if bool_decide (in_i 33 (sleb_val (take n rem))) then Ok (s33_value (take n rem))
       else Err (err_new too_long (original_position r + Z.of_nat n - 1)),
       advance n r)
  | TooLong => (Err (err_new too_long (original_position r + 4)), advance 5 r)
  | Eof =>
      (Err (err_eof (original_position r + Z.of_nat (length rem)) 1),
       advance (length rem) r)
  end.

Lemma read_var_s33_spec r : wf_reader r -> read_var_s33 r = s33_spec r.
Proof.
  intros Hwf. unfold read_var_s33.
  rewrite (first_byte_i 64 33 25 5); try (done || lia).
  2: { intros b Hb. unfold shl_i. rewrite <- (sign_extend 8 7) by lia.
       change (8 - 7) with 1. unfold shl_i. f_equal. apply swrap_cong; [lia|].
       rewrite !Z.shiftl_mul_pow2 by lia. unfold swrap.
       change (2 ^ 8) with 256. change (2 ^ (8 - 1)) with 128. change (2 ^ 1) with 2.
       replace (((b + 128) mod 256 - 128) * 2) with (2 * ((b + 128) mod 256) - 256) by lia.
       pose proof (Z.div_mod (b + 128) 256). 
       replace (2 * ((b + 128) mod 256) - 256) with (b * 2 + (- 2 * ((b + 128) / 256)) * 256)
         by lia. by rewrite Z.mod_add by lia. }
  unfold var_i_outcome, s33_spec. rewrite Nat.sub_0_r.
  destruct (leb_scan 5 (remaining_buffer r)) as [n| |] eqn:Es; [|repeat f_equal; lia|done].
  apply leb_scan_done in Es.
  set (bs := take n (remaining_buffer r)).
  assert (Hl : length bs = n) by (unfold bs; rewrite length_take; lia).
  change (7 * Z.of_nat 0) with 0. rewrite !Z.add_0_l, Z.pow_0_r, !Z.mul_1_r.
  case_bool_decide as Hin; [|done]. do 2 f_equal. unfold s33_value. rewrite Hl.
  change (0 + n)%nat with n. case_bool_decide as Hn; [|done].
  apply swrap_small; [lia|]. pose proof (uleb_val_nonneg bs).
  pose proof (uleb_val_bound bs) as Hb. rewrite Hl, Hn in Hb.
  unfold in_i. change (2 ^ (7 * Z.of_nat 5)) with 34359738368 in Hb.
  change (2 ^ (64 - 1)) with 9223372036854775808. lia.
Qed.

(** What its callers rely on: the [u32] values are exactly the non-negative ones. *)
Lemma s33_value_u32 bs :
  bs <> [] -> (length bs <= 5)%nat -> in_i 33 (sleb_val bs) ->
  (in_u 32 (s33_value bs) <-> in_u 32 (sleb_val bs))
  /\ (in_u 32 (sleb_val bs) -> s33_value bs = sleb_val bs).
Proof.
  intros Hne Hl Hin. unfold s33_value. case_bool_decide as H5; [|done].
  pose proof (sleb_uleb bs Hne) as E. rewrite H5 in E.
  pose proof (uleb_val_nonneg bs). pose proof (uleb_val_bound bs) as Hb.
  rewrite H5 in Hb. change (7 * Z.of_nat 5) with 35 in *. unfold swrap, in_i, in_u in *.
  change (2 ^ 35) with 34359738368 in *. change (2 ^ (35 - 1)) with 17179869184 in *.
  change (2 ^ (33 - 1)) with 4294967296 in *. change (2 ^ 32) with 4294967296 in *.
  destruct (Z.lt_ge_cases (uleb_val bs) 17179869184).
  - rewrite Z.mod_small in E by lia. lia.
  - replace (uleb_val bs + 17179869184)
      with (uleb_val bs - 17179869184 + 1 * 34359738368) in E by lia.
    rewrite Z.mod_add, Z.mod_small in E by lia. lia.
Qed.
