(* ===== verification/ReaderLogic.v ===== *)
(** Two program logics for readers.

    [reads f m bs a]: on any well-formed reader with features [f] whose
    remaining bytes start with [bs], [m] succeeds with [a] and consumes exactly
    [bs].  It composes along [mbind], so a decoder is proved against an encoder
    one field at a time.

    [wp E r0 k m Q]: run from [r0] advanced by [k] bytes, on arbitrary bytes, [m]
    does not panic, does not move backwards or past the end of the buffer, and
    reports only errors of [E], which includes those located between the position
    of [r0] and the end of its buffer; on success [Q] holds of the value and of
    the number of bytes consumed since [r0]. *)

From Stdlib Require Import ZArith Lia String.
From stdpp Require Import prelude.
From S2P Require Import Prelude Leb128 BinaryReader BinaryReaderSpec.

Local Open Scope Z_scope.

(** ** Successful reads *)

Definition reads {A} (f : WasmFeatures) (m : Reader A) (bs : list Z) (a : A) : Prop :=
  forall r rest, wf_reader r -> features r = f -> remaining_buffer r = bs ++ rest ->
  m r = (Ok a, advance (length bs) r).

Section reads.
Context (f : WasmFeatures).

Lemma reads_ret {A} (a : A) : reads f (mret a) [] a.
Proof. intros r rest Hwf Hf E. by rewrite advance_0. Qed.

Lemma reads_bind {A B} (m : Reader A) (k : A -> Reader B) bs bs' a b :
  reads f m bs a -> reads f (k a) bs' b -> reads f (m ≫= k) (bs ++ bs') b.
Proof.
  intros Hm Hk r rest Hwf Hf E. rewrite <- app_assoc in E.
  unfold mbind, ST_bind. rewrite (Hm r (bs' ++ rest)) by done.
  rewrite (Hk (advance (length bs) r) rest).
  - by rewrite advance_advance, length_app.
  - apply wf_advance; [done|]. rewrite E, length_app. lia.
  - done.
  - rewrite remaining_advance by apply Hwf. by rewrite E, drop_app_length.
Qed.

(** A read that consumes nothing, such as of the current position. *)
Lemma reads_gets {A B} (g : BinaryReader -> A) (k : A -> Reader B) bs b :
  (forall x, reads f (k x) bs b) -> reads f (gets g ≫= k) bs b.
Proof. intros H r rest Hwf Hf E. unfold mbind, ST_bind, gets. by eapply H. Qed.

Lemma reads_features {B} (k : WasmFeatures -> Reader B) bs b :
  reads f (k f) bs b -> reads f (gets features ≫= k) bs b.
Proof.
  intros H r rest Hwf Hf E. unfold mbind, ST_bind, gets. rewrite Hf. by eapply H.
Qed.

Lemma reads_u8 b : reads f read_u8 [b] b.
Proof. intros r rest Hwf Hf E. by eapply read_u8_cons; [apply Hwf|]. Qed.

Lemma peek_cons r b rest :
  wf_reader r -> remaining_buffer r = b :: rest -> peek r = (Ok b, r).
Proof.
  intros Hwf E. unfold peek, mbind, ST_bind, ensure_has_byte, index_position.
  pose proof (remaining_length r Hwf) as Hl. rewrite E in Hl. cbn [length] in Hl.
  destruct (Z.ltb_spec (position r) (buffer_len r)); [|lia].
  rewrite lookup_remaining by apply Hwf. by rewrite E.
Qed.

Lemma reads_peek {B} (k : Z -> Reader B) b bs x :
  reads f (k b) (b :: bs) x -> reads f (peek ≫= k) (b :: bs) x.
Proof.
  intros H r rest Hwf Hf E. unfold mbind, ST_bind.
  rewrite (peek_cons r b (bs ++ rest)) by done. by eapply H.
Qed.

Lemma reads_map_err {A} (g : BinaryReaderError -> BinaryReaderError) (m : Reader A) bs a :
  reads f m bs a -> reads f (map_err g m) bs a.
Proof. intros H r rest Hwf Hf E. unfold map_err. by rewrite (H r rest). Qed.

Lemma ensure_has_bytes_ok r bs rest :
  wf_reader r -> remaining_buffer r = bs ++ rest ->
  ensure_has_bytes (Z.of_nat (length bs)) r = (Ok tt, r).
Proof.
  intros Hwf E. pose proof (remaining_length r Hwf) as Hl.
  rewrite E, length_app in Hl. unfold ensure_has_bytes.
  destruct (Z.leb_spec (position r + Z.of_nat (length bs)) (buffer_len r)); [done|lia].
Qed.

Lemma slice_ok r bs rest :
  wf_reader r -> remaining_buffer r = bs ++ rest ->
  slice (position r) (position r + Z.of_nat (length bs)) (buffer r) = bs.
Proof.
  intros Hwf E. unfold slice. fold (remaining_buffer r). rewrite E.
  replace (Z.to_nat _) with (length bs) by lia. apply take_app_length.
Qed.

Lemma reads_bytes bs n : n = Z.of_nat (length bs) -> reads f (read_bytes n) bs bs.
Proof.
  intros -> r rest Hwf Hf E. unfold read_bytes, mbind, ST_bind.
  rewrite (ensure_has_bytes_ok r bs rest) by done.
  unfold gets, modify. cbn [position set_position buffer].
  by rewrite (slice_ok r bs rest).
Qed.

Lemma reads_u32 bs : length bs = 4%nat -> reads f read_u32 bs (from_le_bytes bs).
Proof.
  intros Hl r rest Hwf Hf E. unfold read_u32, mbind, ST_bind.
  pose proof (ensure_has_bytes_ok r bs rest Hwf E) as He.
  pose proof (slice_ok r bs rest Hwf E) as Hs. rewrite Hl in *.
  change (Z.of_nat 4) with 4 in *. rewrite He. unfold gets, modify. by rewrite Hs.
Qed.

Lemma reads_u64 bs : length bs = 8%nat -> reads f read_u64 bs (from_le_bytes bs).
Proof.
  intros Hl r rest Hwf Hf E. unfold read_u64, mbind, ST_bind.
  pose proof (ensure_has_bytes_ok r bs rest Hwf E) as He.
  pose proof (slice_ok r bs rest Hwf E) as Hs. rewrite Hl in *.
  change (Z.of_nat 8) with 8 in *. rewrite He. unfold gets, modify. by rewrite Hs.
Qed.

(** Any LEB128 string of the right length and range, minimal or not. *)
Lemma leb_u_reads w m tl tg r bs rest :
  leb_form bs -> (length bs <= m)%nat -> in_u w (uleb_val bs) ->
  remaining_buffer r = bs ++ rest ->
  leb_u_spec w m tl tg r = (Ok (uleb_val bs), advance (length bs) r).
Proof.
  intros Hf Hl Hin E. unfold leb_u_spec. rewrite E, leb_scan_form by done.
  rewrite take_app_length. by rewrite bool_decide_eq_true_2.
Qed.

Lemma leb_i_reads w m tl tg r bs rest :
  leb_form bs -> (length bs <= m)%nat -> in_i w (sleb_val bs) ->
  remaining_buffer r = bs ++ rest ->
  leb_i_spec w m tl tg r = (Ok (sleb_val bs), advance (length bs) r).
Proof.
  intros Hf Hl Hin E. unfold leb_i_spec. rewrite E, leb_scan_form by done.
  rewrite take_app_length. by rewrite bool_decide_eq_true_2.
Qed.

Context {L : Leb128} {LS : Leb128Spec L}.

Lemma in_u_mono w w' v : 0 <= w <= w' -> in_u w v -> in_u w' v.
Proof.
  unfold in_u. intros Hw H. pose proof (Z.pow_le_mono_r 2 w w'). lia.
Qed.

Lemma in_i_mono w w' v : 0 < w <= w' -> in_i w v -> in_i w' v.
Proof.
  unfold in_i. intros Hw H. pose proof (Z.pow_le_mono_r 2 (w - 1) (w' - 1)). lia.
Qed.

Lemma reads_var_u32 v : in_u 32 v -> reads f read_var_u32 (write_unsigned v) v.
Proof.
  intros Hv r rest Hwf Hf E. rewrite read_var_u32_spec by done.
  assert (H64 : in_u 64 v) by (apply (in_u_mono 32); [lia|done]).
  rewrite (leb_u_reads _ _ _ _ _ (write_unsigned v) rest); rewrite ?unsigned_value by done; try done.
  - by apply unsigned_form.
  - apply (write_unsigned_length 4); [done|]. unfold in_u in Hv. simpl in *. lia.
Qed.

Lemma reads_var_u64 v : in_u 64 v -> reads f read_var_u64 (write_unsigned v) v.
Proof.
  intros Hv r rest Hwf Hf E. rewrite read_var_u64_spec by done.
  rewrite (leb_u_reads _ _ _ _ _ (write_unsigned v) rest); rewrite ?unsigned_value by done; try done.
  - by apply unsigned_form.
  - apply (write_unsigned_length 9); [done|]. unfold in_u in Hv. simpl in *. lia.
Qed.

Lemma reads_var_i32 v : in_i 32 v -> reads f read_var_i32 (write_signed v) v.
Proof.
  intros Hv r rest Hwf Hf E. rewrite read_var_i32_spec by done.
  assert (H64 : in_i 64 v) by (apply (in_i_mono 32); [lia|done]).
  rewrite (leb_i_reads _ _ _ _ _ (write_signed v) rest); rewrite ?signed_value by done; try done.
  - by apply signed_form.
  - apply (write_signed_length 4); [done|]. apply (in_i_mono 32); [lia|done].
Qed.

Lemma reads_var_i64 v : in_i 64 v -> reads f read_var_i64 (write_signed v) v.
Proof.
  intros Hv r rest Hwf Hf E. rewrite read_var_i64_spec by done.
  rewrite (leb_i_reads _ _ _ _ _ (write_signed v) rest); rewrite ?signed_value by done; try done.
  - by apply signed_form.
  - apply (write_signed_length 9); [done|]. apply (in_i_mono 64); [lia|done].
Qed.

(** An [s33] that holds a [u32], as the encoder writes type indices. *)
Lemma reads_var_s33_u32 v : in_u 32 v -> reads f read_var_s33 (write_signed v) v.
Proof.
  intros Hv r rest Hwf Hf E. rewrite read_var_s33_spec by done.
  assert (H33 : in_i 33 v) by (unfold in_i, in_u in *; simpl in *; lia).
  assert (H64 : in_i 64 v) by (apply (in_i_mono 33); [lia|done]).
  assert (Hlen : (length (write_signed v) <= 5)%nat)
    by (apply (write_signed_length 4); [done|]; apply (in_i_mono 33); [lia|done]).
  pose proof (signed_form v H64) as Hform.
  unfold s33_spec. rewrite E, leb_scan_form, take_app_length by done.
  rewrite signed_value by done. rewrite bool_decide_eq_true_2 by done.
  destruct (s33_value_u32 (write_signed v)) as [_ H2];
    rewrite ?signed_value in * by done; try done.
  - by apply leb_form_nonempty.
  - by rewrite H2.
Qed.
End reads.

(** A read whose value depends on where it was read from, known up to [P]. *)
Definition reads_ex {A} (f : WasmFeatures) (m : Reader A) (bs : list Z) (P : A -> Prop) : Prop :=
  forall r rest, wf_reader r -> features r = f -> remaining_buffer r = bs ++ rest ->
  exists a, m r = (Ok a, advance (length bs) r) /\ P a.

Section reads_ex.
Context (f : WasmFeatures).

Lemma reads_reads_ex {A} (m : Reader A) bs a (P : A -> Prop) :
  reads f m bs a -> P a -> reads_ex f m bs P.
Proof. intros H HP r rest Hwf Hf E. exists a. split; [by eapply H|done]. Qed.

Lemma reads_ex_bind {A B} (m : Reader A) (k : A -> Reader B) bs bs' (P : A -> Prop) Q :
  reads_ex f m bs P -> (forall a, P a -> reads_ex f (k a) bs' Q) ->
  reads_ex f (m ≫= k) (bs ++ bs') Q.
Proof.
  intros Hm Hk r rest Hwf Hf E. rewrite <- app_assoc in E.
  destruct (Hm r (bs' ++ rest)) as (a & Ha & HP); [done..|].
  destruct (Hk a HP (advance (length bs) r) rest) as (b & Hb & HQ).
  - apply wf_advance; [done|]. rewrite E, length_app. lia.
  - done.
  - rewrite remaining_advance by apply Hwf. by rewrite E, drop_app_length.
  - exists b. split; [|done]. unfold mbind, ST_bind. rewrite Ha, Hb.
    by rewrite advance_advance, length_app.
Qed.

Lemma reads_ex_gets {A B} (g : BinaryReader -> A) (k : A -> Reader B) bs Q :
  (forall x, reads_ex f (k x) bs Q) -> reads_ex f (gets g ≫= k) bs Q.
Proof. intros H r rest Hwf Hf E. unfold mbind, ST_bind, gets. by eapply H. Qed.

(** The reader that [skip] returns holds exactly the bytes skipped. *)
Lemma reads_ex_skip m bs :
  reads f m bs tt ->
  reads_ex f (skip m) bs (fun br => wf_reader br /\ remaining_buffer br = bs).
Proof.
  intros Hm r rest Hwf Hf E. unfold skip, mbind, ST_bind, gets.
  rewrite (Hm r rest Hwf Hf E). eexists. split; [done|].
  assert (Es : slice (position r) (position (advance (length bs) r)) (buffer r) = bs)
    by by apply slice_ok with rest.
  cbn [buffer advance set_position original_offset features] in *.
  pose proof (remaining_bytes r Hwf) as Hb. rewrite E in Hb. apply Forall_app in Hb as [Hb _].
  pose proof (remaining_length r Hwf) as Hl. rewrite E, length_app in Hl.
  destruct Hwf as [Hp Ho He _].
  split; [|exact Es]. split; unfold buffer_len in *; simpl in *; rewrite ?Es; (lia || done).
Qed.
End reads_ex.

(** ** Arbitrary bytes *)

Definition err_in_range (r0 : BinaryReader) (e : BinaryReaderError) : Prop :=
  original_position r0 <= offset e <= original_offset r0 + buffer_len r0.

(** [E] holds of the errors that are allowed; it holds of every error that is
    reported in range, and of its reclassifications. *)
Definition wp {A} (E : BinaryReaderError -> Prop) (r0 : BinaryReader) (k : nat)
  (m : Reader A) (Q : A -> nat -> Prop) : Prop :=
  (k <= length (remaining_buffer r0))%nat ->
  exists k', (k <= k' <= length (remaining_buffer r0))%nat
    /\ (m (advance k r0)).2 = advance k' r0
    /\ match (m (advance k r0)).1 with
       | Ok a => Q a k'
       | Err e => E e
       | Panic => False
       end.

Record wp_env (E : BinaryReaderError -> Prop) (r0 : BinaryReader) : Prop := {
  env_wf : wf_reader r0;
  env_err e : err_in_range r0 e -> E e;
  env_set_message m e : kind e = Invalid -> E e -> E (set_message m e);
}.

Section wp.
Context (E : BinaryReaderError -> Prop) (r0 : BinaryReader).
Hypothesis Henv : wp_env E r0.
Local Abbreviation Hwf := (env_wf E r0 Henv).

Implicit Types k : nat.

Lemma wp_ret {A} k (a : A) (Q : A -> nat -> Prop) : Q a k -> wp E r0 k (mret a) Q.
Proof. intros HQ Hk. exists k. split; [lia|done]. Qed.

Lemma wp_bind {A B} k (m : Reader A) (g : A -> Reader B) Q :
  wp E r0 k m (fun a k' => wp E r0 k' (g a) Q) -> wp E r0 k (m ≫= g) Q.
Proof.
  intros H Hk. destruct (H Hk) as (k1 & Hk1 & E1 & Hm).
  unfold mbind, ST_bind. destruct (m (advance k r0)) as [[a|e|] r1]; simpl in *; subst.
  - destruct (Hm ltac:(lia)) as (k2 & Hk2 & H2). exists k2. split; [lia|done].
  - exists k1. done.
  - done.
Qed.

Lemma wp_mono {A} k (m : Reader A) (Q Q' : A -> nat -> Prop) :
  wp E r0 k m Q -> (forall a k', (k <= k')%nat -> Q a k' -> Q' a k') -> wp E r0 k m Q'.
Proof.
  intros H HQ Hk. destruct (H Hk) as (k1 & Hk1 & E1 & Hm). exists k1.
  split; [done|]. split; [done|]. destruct (m (advance k r0)).1; auto.
  apply HQ; [lia|done].
Qed.

Lemma end_position k :
  (k <= length (remaining_buffer r0))%nat ->
  original_position r0 + Z.of_nat k <= original_offset r0 + buffer_len r0.
Proof. intros Hk. pose proof (remaining_length r0 Hwf). unfold original_position. lia. Qed.

Lemma wp_fail {A} k e (Q : A -> nat -> Prop) :
  (original_position r0 <= offset e <= original_position r0 + Z.of_nat k) ->
  wp E r0 k (fail e) Q.
Proof.
  intros He Hk. exists k. split; [lia|]. split; [done|]. simpl.
  pose proof (end_position k Hk). apply (env_err _ _ Henv); unfold err_in_range. lia.
Qed.

Lemma wp_position k (Q : Z -> nat -> Prop) :
  Q (original_position r0 + Z.of_nat k) k -> wp E r0 k (gets original_position) Q.
Proof.
  intros HQ Hk. exists k. split; [lia|]. split; [done|]. unfold gets. cbn [fst].
  by rewrite advance_original_position.
Qed.

Lemma wp_features k (Q : WasmFeatures -> nat -> Prop) :
  Q (features r0) k -> wp E r0 k (gets features) Q.
Proof. intros HQ Hk. exists k. split; [lia|done]. Qed.

Lemma wp_fail_prev {A} k m (Q : A -> nat -> Prop) :
  (0 < k)%nat -> wp E r0 k (fail_prev m) Q.
Proof.
  intros Hk. apply wp_bind, wp_position, wp_fail. simpl. lia.
Qed.

Lemma wp_map_err {A} k g (m : Reader A) Q :
  (forall e, E e -> E (g e)) -> wp E r0 k m Q -> wp E r0 k (map_err g m) Q.
Proof.
  intros Hg H Hk. destruct (H Hk) as (k1 & Hk1 & E1 & Hm). exists k1.
  unfold map_err. destruct (m (advance k r0)) as [[a|e|] r1]; simpl in *; try done.
  split; [done|]. split; [done|]. by apply Hg.
Qed.

Lemma wf_at k : (k <= length (remaining_buffer r0))%nat -> wf_reader (advance k r0).
Proof. apply wf_advance, Hwf. Qed.

Lemma remaining_at k : remaining_buffer (advance k r0) = drop k (remaining_buffer r0).
Proof. apply remaining_advance, Hwf. Qed.

Lemma wp_u8 k (Q : Z -> nat -> Prop) :
  (forall b, is_byte b -> Q b (S k)) -> wp E r0 k read_u8 Q.
Proof.
  intros HQ Hk. pose proof (wf_at k Hk) as Hwf'. pose proof (wf_pos _ Hwf').
  destruct (remaining_buffer (advance k r0)) as [|b rest] eqn:E1.
  - exists k. rewrite read_u8_nil by (done || lia). split; [lia|]. split; [done|].
    rewrite advance_original_position. apply (env_err _ _ Henv); unfold err_in_range. cbn [fst offset err_eof].
    pose proof (end_position k Hk). lia.
  - exists (S k). rewrite (read_u8_cons _ b rest) by (done || lia).
    assert (Hlen : length (remaining_buffer (advance k r0)) = S (length rest)) by by rewrite E1.
    rewrite remaining_at, length_drop in Hlen.
    split; [lia|]. rewrite advance_advance, Nat.add_1_r. split; [done|].
    apply HQ. by eapply (wf_advance_cons _ b rest Hwf').
Qed.

Lemma wp_peek k (Q : Z -> nat -> Prop) :
  (forall b, is_byte b -> Q b k) -> wp E r0 k peek Q.
Proof.
  intros HQ Hk. pose proof (wf_at k Hk) as Hwf'. exists k. split; [lia|].
  destruct (remaining_buffer (advance k r0)) as [|b rest] eqn:E1.
  - unfold peek, mbind, ST_bind, ensure_has_byte.
    pose proof (remaining_length _ Hwf') as Hl. rewrite E1 in Hl. cbn [length] in Hl.
    destruct (Z.ltb_spec (position (advance k r0)) (buffer_len (advance k r0))); [lia|].
    split; [done|]. cbn [fst]. rewrite advance_original_position.
    apply (env_err _ _ Henv); unfold err_in_range. cbn [offset err_eof]. pose proof (end_position k Hk). lia.
  - rewrite (peek_cons _ b rest) by done. split; [done|]. apply HQ.
    by eapply (wf_advance_cons _ b rest Hwf').
Qed.

Lemma wp_leb_u k w m tl tg rd (Q : Z -> nat -> Prop) :
  (0 < m)%nat ->
  (forall r, wf_reader r -> rd r = leb_u_spec w m tl tg r) ->
  (forall v k', (k < k')%nat -> in_u w v -> Q v k') -> wp E r0 k rd Q.
Proof.
  intros Hm Hrd HQ Hk. rewrite Hrd by by apply wf_at. unfold leb_u_spec.
  rewrite remaining_at, advance_original_position.
  destruct (leb_scan m _) as [n| |] eqn:Es.
  - apply leb_scan_done in Es. rewrite length_drop in Es.
    pose proof (end_position (k + n) ltac:(lia)).
    exists (k + n)%nat. split; [lia|]. cbn [fst snd]. split; [apply advance_advance|].
    case_bool_decide; [apply HQ; [lia|done]|]. apply (env_err _ _ Henv); unfold err_in_range. cbn [offset err_eof err_new err_new_kind]. lia.
  - apply leb_scan_too_long in Es. rewrite length_drop in Es.
    pose proof (end_position (k + m) ltac:(lia)).
    exists (k + m)%nat. split; [lia|]. cbn [fst snd]. split; [apply advance_advance|].
    apply (env_err _ _ Henv); unfold err_in_range. cbn [offset err_eof err_new err_new_kind]. lia.
  - rewrite length_drop. exists (length (remaining_buffer r0)).
    pose proof (end_position _ (Nat.le_refl (length (remaining_buffer r0)))).
    split; [lia|]. cbn [fst snd]. rewrite advance_advance.
    split; [f_equal; lia|]. apply (env_err _ _ Henv); unfold err_in_range. cbn [offset err_eof err_new err_new_kind]. lia.
Qed.

Lemma wp_leb_i k w m tl tg rd (Q : Z -> nat -> Prop) :
  (0 < m)%nat ->
  (forall r, wf_reader r -> rd r = leb_i_spec w m tl tg r) ->
  (forall v k', (k < k')%nat -> in_i w v -> Q v k') -> wp E r0 k rd Q.
Proof.
  intros Hm Hrd HQ Hk. rewrite Hrd by by apply wf_at. unfold leb_i_spec.
  rewrite remaining_at, advance_original_position.
  destruct (leb_scan m _) as [n| |] eqn:Es.
  - apply leb_scan_done in Es. rewrite length_drop in Es.
    pose proof (end_position (k + n) ltac:(lia)).
    exists (k + n)%nat. split; [lia|]. cbn [fst snd]. split; [apply advance_advance|].
    case_bool_decide; [apply HQ; [lia|done]|]. apply (env_err _ _ Henv); unfold err_in_range. cbn [offset err_eof err_new err_new_kind]. lia.
  - apply leb_scan_too_long in Es. rewrite length_drop in Es.
    pose proof (end_position (k + m) ltac:(lia)).
    exists (k + m)%nat. split; [lia|]. cbn [fst snd]. split; [apply advance_advance|].
    apply (env_err _ _ Henv); unfold err_in_range. cbn [offset err_eof err_new err_new_kind]. lia.
  - rewrite length_drop. exists (length (remaining_buffer r0)).
    pose proof (end_position _ (Nat.le_refl (length (remaining_buffer r0)))).
    split; [lia|]. cbn [fst snd]. rewrite advance_advance.
    split; [f_equal; lia|]. apply (env_err _ _ Henv); unfold err_in_range. cbn [offset err_eof err_new err_new_kind]. lia.
Qed.

Lemma wp_var_u32 k (Q : Z -> nat -> Prop) :
  (forall v k', (k < k')%nat -> in_u 32 v -> Q v k') -> wp E r0 k read_var_u32 Q.
Proof. eapply wp_leb_u; [|apply read_var_u32_spec]. lia. Qed.

Lemma wp_var_u64 k (Q : Z -> nat -> Prop) :
  (forall v k', (k < k')%nat -> in_u 64 v -> Q v k') -> wp E r0 k read_var_u64 Q.
Proof. eapply wp_leb_u; [|apply read_var_u64_spec]. lia. Qed.

Lemma wp_var_i32 k (Q : Z -> nat -> Prop) :
  (forall v k', (k < k')%nat -> in_i 32 v -> Q v k') -> wp E r0 k read_var_i32 Q.
Proof. eapply wp_leb_i; [|apply read_var_i32_spec]. lia. Qed.

Lemma wp_var_i64 k (Q : Z -> nat -> Prop) :
  (forall v k', (k < k')%nat -> in_i 64 v -> Q v k') -> wp E r0 k read_var_i64 Q.
Proof. eapply wp_leb_i; [|apply read_var_i64_spec]. lia. Qed.

Lemma wp_var_s33 k (Q : Z -> nat -> Prop) :
  (forall v k', (k < k')%nat -> Q v k') -> wp E r0 k read_var_s33 Q.
Proof.
  intros HQ Hk. rewrite read_var_s33_spec by by apply wf_at. unfold s33_spec.
  rewrite remaining_at, advance_original_position.
  destruct (leb_scan 5 _) as [n| |] eqn:Es.
  - apply leb_scan_done in Es. rewrite length_drop in Es.
    pose proof (end_position (k + n) ltac:(lia)).
    exists (k + n)%nat. split; [lia|]. cbn [fst snd]. split; [apply advance_advance|].
    case_bool_decide; [apply HQ; lia|].
    apply (env_err _ _ Henv); unfold err_in_range. cbn [offset err_new err_new_kind]. lia.
  - apply leb_scan_too_long in Es. rewrite length_drop in Es.
    pose proof (end_position (k + 5) ltac:(lia)).
    exists (k + 5)%nat. split; [lia|]. cbn [fst snd]. split; [apply advance_advance|].
    apply (env_err _ _ Henv); unfold err_in_range. cbn [offset err_new err_new_kind]. lia.
  - rewrite length_drop. exists (length (remaining_buffer r0)).
    pose proof (end_position _ (Nat.le_refl (length (remaining_buffer r0)))).
    split; [lia|]. cbn [fst snd]. rewrite advance_advance.
    split; [f_equal; lia|].
    apply (env_err _ _ Henv); unfold err_in_range. cbn [offset err_eof]. lia.
Qed.

Lemma wp_ensure_has_bytes k n (Q : () -> nat -> Prop) :
  0 <= n ->
  ((k + Z.to_nat n <= length (remaining_buffer r0))%nat -> Q tt k) ->
  wp E r0 k (ensure_has_bytes n) Q.
Proof.
  intros Hn HQ Hk. exists k. split; [lia|]. unfold ensure_has_bytes.
  pose proof (remaining_length r0 Hwf).
  destruct (Z.leb_spec (position (advance k r0) + n) (buffer_len (advance k r0)))
    as [Hle|Hle]; cbn [fst snd].
  - split; [done|]. apply HQ. unfold buffer_len, advance in *. simpl in *. lia.
  - split; [done|]. rewrite advance_original_position.
    apply (env_err _ _ Henv); unfold err_in_range. cbn [offset err_eof]. pose proof (end_position k Hk). lia.
Qed.

Lemma wp_modify_position k n (Q : () -> nat -> Prop) :
  0 <= n -> (k + Z.to_nat n <= length (remaining_buffer r0))%nat ->
  Q tt (k + Z.to_nat n)%nat ->
  wp E r0 k (modify (fun r => set_position (position r + n) r)) Q.
Proof.
  intros Hn Hl HQ Hk. exists (k + Z.to_nat n)%nat. split; [lia|].
  unfold modify. cbn [fst snd]. split; [|done].
  unfold advance, set_position. simpl. f_equal. lia.
Qed.

Lemma wp_gets {A} k (g : BinaryReader -> A) (Q : A -> nat -> Prop) :
  Q (g (advance k r0)) k -> wp E r0 k (gets g) Q.
Proof. intros HQ Hk. exists k. split; [lia|done]. Qed.

(** The bytes between two positions, in range and of the expected length. *)
Lemma slice_at k n :
  0 <= n -> (k + Z.to_nat n <= length (remaining_buffer r0))%nat ->
  let bs := slice (position (advance k r0)) (position (advance k r0) + n) (buffer r0) in
  Z.of_nat (length bs) = n /\ Forall is_byte bs.
Proof.
  intros Hn Hl bs. split.
  - unfold bs, slice. rewrite length_take. fold (remaining_buffer (advance k r0)).
    change (buffer r0) with (buffer (advance k r0)).
    fold (remaining_buffer (advance k r0)). rewrite remaining_at, length_drop. lia.
  - unfold bs, slice. apply Forall_take, Forall_drop, Hwf.
Qed.

Lemma wp_bytes k n (Q : list Z -> nat -> Prop) :
  0 <= n ->
  (forall bs, Z.of_nat (length bs) = n -> Forall is_byte bs -> Q bs (k + Z.to_nat n)%nat) ->
  wp E r0 k (read_bytes n) Q.
Proof.
  intros Hn HQ. apply wp_bind, wp_ensure_has_bytes; [done|]. intros Hl.
  apply wp_bind, wp_gets. apply wp_bind, wp_modify_position; [done|done|].
  apply wp_gets. destruct (slice_at k n Hn Hl) as [H1 H2].
  replace (position (advance (k + Z.to_nat n) r0)) with (position (advance k r0) + n)
    by (unfold advance; simpl; lia).
  by apply HQ.
Qed.

Lemma from_le_bytes_bound bs :
  Forall is_byte bs -> 0 <= from_le_bytes bs < 2 ^ (8 * Z.of_nat (length bs)).
Proof.
  induction 1 as [|b bs Hb Hbs IH]; [simpl; lia|]. cbn [from_le_bytes length].
  replace (8 * Z.of_nat (S (length bs))) with (8 + 8 * Z.of_nat (length bs)) by lia.
  rewrite Z.pow_add_r by lia. unfold is_byte in Hb. change (2 ^ 8) with 256. lia.
Qed.

Lemma wp_u32 k (Q : Z -> nat -> Prop) :
  (forall v, in_u 32 v -> Q v (k + 4)%nat) -> wp E r0 k read_u32 Q.
Proof.
  intros HQ. apply wp_bind, wp_ensure_has_bytes; [done|]. intros Hl.
  apply wp_bind, wp_gets. apply wp_bind, wp_modify_position; [done|done|].
  destruct (slice_at k 4 ltac:(done) Hl) as [H1 H2].
  apply wp_ret, HQ. pose proof (from_le_bytes_bound _ H2) as H. rewrite H1 in H. exact H.
Qed.

Lemma wp_u64 k (Q : Z -> nat -> Prop) :
  (forall v, in_u 64 v -> Q v (k + 8)%nat) -> wp E r0 k read_u64 Q.
Proof.
  intros HQ. apply wp_bind, wp_ensure_has_bytes; [done|]. intros Hl.
  apply wp_bind, wp_gets. apply wp_bind, wp_modify_position; [done|done|].
  destruct (slice_at k 8 ltac:(done) Hl) as [H1 H2].
  apply wp_ret, HQ. pose proof (from_le_bytes_bound _ H2) as H. rewrite H1 in H. exact H.
Qed.

Lemma wp_skip k m (Q : BinaryReader -> nat -> Prop) :
  wp E r0 k m (fun _ k' => forall br, wf_reader br -> original_offset r0 + position r0 <= original_offset br -> Q br k') ->
  wp E r0 k (skip m) Q.
Proof.
  intros H. apply wp_bind, wp_gets. apply wp_bind.
  intros Hk. destruct (H Hk) as (k' & Hk' & E1 & Hm). exists k'.
  split; [done|]. split; [done|].
  destruct (m (advance k r0)) as [[a|e|] r1]; simpl in *; try done.
  apply wp_gets, Hm.
  - destruct Hwf as [Hp Ho He Hb]. pose proof (remaining_length r0 Hwf).
    assert (Hlen : Z.of_nat (length (slice (position r0 + Z.of_nat k)
               (position r0 + Z.of_nat k') (buffer r0))) = Z.of_nat k' - Z.of_nat k).
    { unfold slice, buffer_len in *. rewrite length_take, length_drop. lia. }
    split; unfold buffer_len in *; simpl; rewrite ?Hlen; try lia.
    unfold slice. by apply Forall_take, Forall_drop.
  - simpl. lia.
Qed.

Lemma wp_read_n {A} `{FromReader A} n k (P : A -> Prop) (Q : list A -> nat -> Prop) :
  (forall k, wp E r0 k read (fun (a : A) _ => P a)) ->
  (forall xs k', (k <= k')%nat -> length xs = n -> Forall P xs -> Q xs k') ->
  wp E r0 k (read_n n) Q.
Proof.
  intros HP. revert k Q. induction n as [|n IH]; intros k Q HQ; cbn [read_n].
  - apply wp_ret, HQ; [lia|done|constructor].
  - apply wp_bind. eapply wp_mono; [apply HP|]. intros x k1 Hk1 Hx; simpl in Hx.
    apply wp_bind, IH. intros xs k2 Hk2 Hl Hxs. apply wp_ret, HQ; [lia|simpl; lia|].
    by constructor.
Qed.
End wp.

(** One step of symbolic execution; [wp_prim] is extended by the components
    that define readers of their own. *)
Ltac wp_prim := fail.

Ltac wp_step :=
  match goal with
  | |- wp _ _ _ (mret _) _ => apply wp_ret
  | |- wp _ _ _ (_ ≫= _) _ => apply wp_bind
  | |- wp _ _ _ read_u8 _ => apply wp_u8; [done|intros ? ?]
  | |- wp _ _ _ peek _ => apply wp_peek; [done|intros ? ?]
  | |- wp _ _ _ read_var_u32 _ => apply wp_var_u32; [done|intros ? ? ? ?]
  | |- wp _ _ _ read_var_u64 _ => apply wp_var_u64; [done|intros ? ? ? ?]
  | |- wp _ _ _ read_var_i32 _ => apply wp_var_i32; [done|intros ? ? ? ?]
  | |- wp _ _ _ read_var_i64 _ => apply wp_var_i64; [done|intros ? ? ? ?]
  | |- wp _ _ _ read_var_s33 _ => apply wp_var_s33; [done|intros ? ? ?]
  | |- wp _ _ _ read_u32 _ => apply wp_u32; [done|intros ? ?]
  | |- wp _ _ _ read_u64 _ => apply wp_u64; [done|intros ? ?]
  | |- wp _ _ _ (read_bytes _) _ => apply wp_bytes; [done|lia|intros ? ? ?]
  | |- wp _ _ _ (gets original_position) _ => apply wp_position
  | |- wp _ _ _ (gets features) _ => apply wp_features
  | |- wp _ _ _ (fail_prev _) _ => apply wp_fail_prev; [done|lia]
  | |- wp _ _ _ (fail _) _ => apply wp_fail; [done|simpl; lia]
  | |- wp _ _ _ (if ?b then _ else _) _ => destruct b eqn:?
  | |- wp _ _ _ (match ?x with _ => _ end) _ => destruct x
  | _ => wp_prim
  end.
Ltac wp_run := repeat wp_step.

(** * The byte test [from_utf8] accepts exactly the UTF-8 encodings of sequences
    of Unicode scalar values. *)

(** A code point that is not a surrogate. *)
Definition scalar (c : Z) : Prop := 0 <= c < 0xD800 \/ 0xE000 <= c <= 0x10FFFF.

(** [char::encode_utf8]. *)
Definition utf8_enc (c : Z) : list Z :=
  if c <? 0x80 then [c]
  else if c <? 0x800 then [0xC0 + c / 64; 0x80 + c mod 64]
  else if c <? 0x10000 then [0xE0 + c / 4096; 0x80 + c / 64 mod 64; 0x80 + c mod 64]
  else [0xF0 + c / 262144; 0x80 + c / 4096 mod 64; 0x80 + c / 64 mod 64; 0x80 + c mod 64].

Definition utf8_encode (cs : list Z) : list Z := concat (map utf8_enc cs).

Lemma byte_in_spec lo hi b : byte_in lo hi b = true <-> lo <= b <= hi.
Proof. unfold byte_in. rewrite andb_true_iff, !Z.leb_le. done. Qed.

Lemma byte_in_false lo hi b : byte_in lo hi b = false <-> b < lo \/ hi < b.
Proof. unfold byte_in. rewrite andb_false_iff, !Z.leb_gt. done. Qed.

Ltac divmod := Z.to_euclidean_division_equations; lia.

(** Decides the range and equality tests of the goal. *)
Ltac decide_tests :=
  repeat match goal with
  | |- context [byte_in ?lo ?hi ?b] =>
      first [ rewrite (proj2 (byte_in_spec lo hi b)) by divmod
            | rewrite (proj2 (byte_in_false lo hi b)) by divmod ]
  | |- context [?a =? ?b] =>
      first [ rewrite (proj2 (Z.eqb_eq a b)) by divmod
            | rewrite (proj2 (Z.eqb_neq a b)) by divmod
            | destruct (Z.eqb_spec a b) ]
  end.

(** The bytes of one scalar value are accepted, whatever follows. *)
Lemma from_utf8_enc c rest : scalar c -> from_utf8 (utf8_enc c ++ rest) = from_utf8 rest.
Proof.
  unfold scalar, utf8_enc. intros Hc.
  destruct (Z.ltb_spec c 0x80); [|destruct (Z.ltb_spec c 0x800);
    [|destruct (Z.ltb_spec c 0x10000)]]; cbn [app from_utf8]; decide_tests; done.
Qed.

Lemma from_utf8_encode cs : Forall scalar cs -> from_utf8 (utf8_encode cs) = true.
Proof.
  induction 1 as [|c cs Hc Hcs IH]; [done|]. unfold utf8_encode. cbn [map concat].
  by rewrite from_utf8_enc.
Qed.

(** The first scalar value of an accepted string. *)
Lemma from_utf8_first bs :
  Forall is_byte bs -> from_utf8 bs = true -> bs <> [] ->
  exists c rest, scalar c /\ bs = utf8_enc c ++ rest /\ from_utf8 rest = true.
Proof.
  intros Hb Hf Hne. destruct bs as [|a t]; [done|]. apply Forall_cons in Hb as [Ha Ht].
  cbn [from_utf8] in Hf.
  destruct (byte_in 0 127 a) eqn:E1.
  { apply byte_in_spec in E1. exists a, t. split; [left; lia|]. split; [|done].
    unfold utf8_enc. by rewrite (proj2 (Z.ltb_lt a 0x80)) by lia. }
  apply byte_in_false in E1. unfold is_byte in *.
  destruct t as [|b t]; [done|]. apply Forall_cons in Ht as [Hb Ht].
  destruct (byte_in 194 223 a) eqn:E2.
  { apply byte_in_spec in E2. apply andb_true_iff in Hf as [H1 Hf]. apply byte_in_spec in H1.
    exists ((a - 0xC0) * 64 + (b - 0x80)), t. split; [left; lia|]. split; [|done].
    unfold utf8_enc. rewrite (proj2 (Z.ltb_ge _ 0x80)), (proj2 (Z.ltb_lt _ 0x800)) by lia.
    cbn [app]. repeat f_equal; divmod. }
  apply byte_in_false in E2.
  destruct t as [|c t]; [done|]. apply Forall_cons in Ht as [Hc Ht].
  destruct (byte_in 224 239 a) eqn:E3.
  { apply byte_in_spec in E3. rewrite !andb_true_iff in Hf. destruct Hf as [[H1 H2] Hf].
    apply byte_in_spec in H2.
    assert (Hb' : 0x80 <= b <= 0xBF /\ (a = 0xE0 -> 0xA0 <= b) /\ (a = 0xED -> b <= 0x9F)).
    { destruct (Z.eqb_spec a 0xE0), (Z.eqb_spec a 0xED); apply byte_in_spec in H1; lia. }
    set (cp := (a - 0xE0) * 4096 + (b - 0x80) * 64 + (c - 0x80)).
    exists cp, t. split; [unfold scalar, cp; lia|]. split; [|done].
    unfold utf8_enc. rewrite (proj2 (Z.ltb_ge cp 0x80)), (proj2 (Z.ltb_ge cp 0x800)),
      (proj2 (Z.ltb_lt cp 0x10000)) by (unfold cp; lia).
    cbn [app]. unfold cp. repeat f_equal; divmod. }
  apply byte_in_false in E3.
  destruct t as [|d t]; [done|]. rewrite !andb_true_iff in Hf.
  destruct Hf as [[[[H0 H1] H2] H3] Hf].
  apply byte_in_spec in H0, H2, H3.
  assert (Hb' : 0x80 <= b <= 0xBF /\ (a = 0xF0 -> 0x90 <= b) /\ (a = 0xF4 -> b <= 0x8F)).
  { destruct (Z.eqb_spec a 0xF0), (Z.eqb_spec a 0xF4); apply byte_in_spec in H1; lia. }
  set (cp := (a - 0xF0) * 262144 + (b - 0x80) * 4096 + (c - 0x80) * 64 + (d - 0x80)).
  exists cp, t. split; [unfold scalar, cp; lia|]. split; [|done].
  unfold utf8_enc. rewrite (proj2 (Z.ltb_ge cp 0x80)), (proj2 (Z.ltb_ge cp 0x800)),
    (proj2 (Z.ltb_ge cp 0x10000)) by (unfold cp; lia).
  cbn [app]. unfold cp. repeat f_equal; divmod.
Qed.

Lemma from_utf8_decode bs :
  Forall is_byte bs -> from_utf8 bs = true -> exists cs, Forall scalar cs /\ bs = utf8_encode cs.
Proof.
  remember (length bs) as n eqn:Hn. revert bs Hn.
  induction (lt_wf n) as [n _ IH]; intros bs Hn Hb Hf.
  destruct bs as [|b bs]; [by exists []|].
  destruct (from_utf8_first (b :: bs)) as (c & rest & Hc & E & Hr); [done..|].
  assert (Hl : (0 < length (utf8_enc c))%nat).
  { unfold utf8_enc. repeat case_match; simpl; lia. }
  rewrite E in Hb. apply Forall_app in Hb as [_ Hb].
  destruct (IH (length rest)) with rest as (cs & Hcs & ->); [|done..|].
  - rewrite Hn, E, length_app. lia.
  - exists (c :: cs). split; [by constructor|]. rewrite E. done.
Qed.
