(* ===== verification/Encode.v ===== *)
(** The [Encode] trait of wasm-encoder, [crates/wasm-encoder/src/lib.rs], and
    its implementations for primitive values.

    [encode] appends to a byte sink.  The model returns the bytes it appends,
    or [None] when it panics (a failed [assert!] or [unwrap]). *)

From Stdlib Require Import ZArith Lia String.
From stdpp Require Import prelude.
From S2P Require Import Prelude Leb128 BinaryReader BinaryReaderSpec ReaderLogic.

Local Open Scope Z_scope.

Definition Enc := option (list Z).

(** [sink.push(b)]. *)
Definition push (b : Z) : Enc := Some [b].

(** [sink.extend(bs)]. *)
Definition extend (bs : list Z) : Enc := Some bs.

(** [assert!(b)]. *)
Definition assert_enc (b : bool) : Enc := if b then Some [] else None.

(** One statement after the other. *)
Definition and_then (e1 e2 : Enc) : Enc :=
  b1 ← e1; b2 ← e2; Some (b1 ++ b2).

Infix "+>" := and_then (at level 60, right associativity).

Lemma and_then_assoc e1 e2 e3 : (e1 +> e2) +> e3 = e1 +> e2 +> e3.
Proof.
  destruct e1 as [b1|], e2 as [b2|], e3 as [b3|]; try done. unfold and_then. simpl.
  by rewrite app_assoc.
Qed.

Lemma and_then_nil_l e : Some [] +> e = e.
Proof. by destruct e. Qed.

Lemma and_then_nil_r e : e +> Some [] = e.
Proof. destruct e as [bs|]; [|done]. unfold and_then. simpl. by rewrite app_nil_r. Qed.

Class Encode (A : Type) := encode : A -> Enc.

(** [to_le_bytes]. *)
Fixpoint to_le_bytes (n : nat) (x : Z) : list Z :=
  match n with
  | O => []
  | S n' => x mod 256 :: to_le_bytes n' (x / 256)
  end.

Section encode.
Context {L : Leb128}.

Definition encode_u32 (v : Z) : Enc := Some (write_unsigned v).
Definition encode_u64 (v : Z) : Enc := Some (write_unsigned v).
Definition encode_i32 (v : Z) : Enc := Some (write_signed v).
Definition encode_i64 (v : Z) : Enc := Some (write_signed v).

Definition encode_usize (n : Z) : Enc :=
  assert_enc (n <=? 2 ^ 32 - 1) +> encode_u32 n.

(** A float is its bit pattern. *)
Definition encode_f32 (bits : Z) : Enc := extend (to_le_bytes 4 bits).
Definition encode_f64 (bits : Z) : Enc := extend (to_le_bytes 8 bits).

(** [for item in self { item.encode(sink) }]. *)
Fixpoint encode_items {A} (enc : A -> Enc) (xs : list A) : Enc :=
  match xs with
  | [] => Some []
  | x :: xs' => enc x +> encode_items enc xs'
  end.

(** [impl Encode for [T]]. *)
Definition encode_list {A} (enc : A -> Enc) (xs : list A) : Enc :=
  encode_usize (Z.of_nat (length xs)) +> encode_items enc xs.

(** [impl Encode for [u8]] and [impl Encode for str]. *)
Definition encode_bytes (bs : list Z) : Enc :=
  encode_usize (Z.of_nat (length bs)) +> extend bs.
Definition encode_str (s : list Z) : Enc :=
  encode_usize (Z.of_nat (length s)) +> extend s.

(** [encode_vec]: the length is [u32::try_from(..).unwrap()]. *)
Definition encode_vec {A} (enc : A -> Enc) (xs : list A) : Enc :=
  assert_enc (Z.of_nat (length xs) <=? 2 ^ 32 - 1)
  +> encode_u32 (Z.of_nat (length xs)) +> encode_items enc xs.

Definition encode_option {A} (enc : A -> Enc) (o : option A) : Enc :=
  match o with
  | Some v => push 0x01 +> enc v
  | None => push 0x00
  end.

(** Writing to a five byte buffer fails when it is too small. *)
Definition encoding_size (n : Z) : option Z :=
  let len := Z.of_nat (length (write_unsigned n)) in
  if len <=? 5 then Some len else None.

Definition encode_section (count : Z) (bytes : list Z) : Enc :=
  size ← encoding_size count;
  encode_usize (size + Z.of_nat (length bytes))
  +> encode_u32 count
  +> extend bytes.
End encode.

(** ** Encoders against readers *)

(** [e] succeeds and [m] reads back [a] from exactly the bytes it produced. *)
Definition enc_reads {A} (f : WasmFeatures) (e : Enc) (m : Reader A) (a : A) : Prop :=
  exists bs, e = Some bs /\ reads f m bs a.

Create HintDb enc.

Section enc_reads.
Context (f : WasmFeatures).

Lemma er_bind {A B} e e' (m : Reader A) (k : A -> Reader B) a b :
  enc_reads f e m a -> enc_reads f e' (k a) b -> enc_reads f (e +> e') (m ≫= k) b.
Proof.
  intros (bs & -> & H) (bs' & -> & H'). exists (bs ++ bs'). split; [done|].
  by apply reads_bind with a.
Qed.

(** The last field of a record. *)
Lemma er_last {A B} e (m : Reader A) (k : A -> Reader B) a b :
  enc_reads f e m a -> k a = mret b -> enc_reads f e (m ≫= k) b.
Proof.
  intros (bs & -> & H) E. exists bs. split; [done|]. rewrite <- (app_nil_r bs).
  apply reads_bind with a; [done|]. rewrite E. apply reads_ret.
Qed.

Lemma er_ret {A} (a : A) : enc_reads f (Some []) (mret a) a.
Proof. exists []. split; [done|]. apply reads_ret. Qed.

Lemma er_assert {A} b e (m : Reader A) a :
  b = true -> enc_reads f e m a -> enc_reads f (assert_enc b +> e) m a.
Proof. intros -> (bs & -> & H). by exists bs. Qed.

Lemma er_gets {A B} e (g : BinaryReader -> A) (k : A -> Reader B) b :
  (forall x, enc_reads f e (k x) b) -> enc_reads f e (gets g ≫= k) b.
Proof.
  intros H. destruct (H (g (BinaryReader_new [] 0))) as (bs & E & _).
  exists bs. split; [done|]. apply reads_gets. intros x.
  destruct (H x) as (bs' & E' & H'). by replace bs with bs' by congruence.
Qed.

Lemma er_features {B} e (k : WasmFeatures -> Reader B) b :
  enc_reads f e (k f) b -> enc_reads f e (gets features ≫= k) b.
Proof. intros (bs & E & H). exists bs. split; [done|]. by apply reads_features. Qed.

Lemma er_map_err {A} e g (m : Reader A) a :
  enc_reads f e m a -> enc_reads f e (map_err g m) a.
Proof. intros (bs & E & H). exists bs. split; [done|]. by apply reads_map_err. Qed.

Lemma er_push b : enc_reads f (push b) read_u8 b.
Proof. exists [b]. split; [done|]. apply reads_u8. Qed.

Lemma er_bytes bs n :
  n = Z.of_nat (length bs) -> enc_reads f (extend bs) (read_bytes n) bs.
Proof. intros ->. exists bs. split; [done|]. by apply reads_bytes. Qed.

(** Little endian words. *)
Lemma length_to_le_bytes n x : length (to_le_bytes n x) = n.
Proof. revert x. induction n as [|n IH]; intros x; simpl; [done|]. by rewrite IH. Qed.

Lemma from_to_le_bytes n x :
  0 <= x < 2 ^ (8 * Z.of_nat n) -> from_le_bytes (to_le_bytes n x) = x.
Proof.
  revert x. induction n as [|n IH]; intros x Hx; [simpl in *; lia|].
  replace (8 * Z.of_nat (S n)) with (8 + 8 * Z.of_nat n) in Hx by lia.
  rewrite Z.pow_add_r in Hx by lia. change (2 ^ 8) with 256 in Hx.
  cbn [to_le_bytes from_le_bytes]. rewrite IH.
  - pose proof (Z.div_mod x 256). lia.
  - split; [apply Z.div_pos; lia | apply Z.div_lt_upper_bound; lia].
Qed.

Lemma er_f32 v : in_u 32 v -> enc_reads f (encode_f32 v) read_f32 v.
Proof.
  intros Hv. exists (to_le_bytes 4 v). split; [done|].
  rewrite <- (from_to_le_bytes 4 v) at 2 by exact Hv.
  apply reads_u32, length_to_le_bytes.
Qed.

Lemma er_f64 v : in_u 64 v -> enc_reads f (encode_f64 v) read_f64 v.
Proof.
  intros Hv. exists (to_le_bytes 8 v). split; [done|].
  rewrite <- (from_to_le_bytes 8 v) at 2 by exact Hv.
  apply reads_u64, length_to_le_bytes.
Qed.

Context {L : Leb128} {LS : Leb128Spec L}.

Lemma er_u32 v : in_u 32 v -> enc_reads f (encode_u32 v) read_var_u32 v.
Proof. intros Hv. exists (write_unsigned v). split; [done|]. by apply reads_var_u32. Qed.

Lemma er_u64 v : in_u 64 v -> enc_reads f (encode_u64 v) read_var_u64 v.
Proof. intros Hv. exists (write_unsigned v). split; [done|]. by apply reads_var_u64. Qed.

Lemma er_i32 v : in_i 32 v -> enc_reads f (encode_i32 v) read_var_i32 v.
Proof. intros Hv. exists (write_signed v). split; [done|]. by apply reads_var_i32. Qed.

Lemma er_i64 v : in_i 64 v -> enc_reads f (encode_i64 v) read_var_i64 v.
Proof. intros Hv. exists (write_signed v). split; [done|]. by apply reads_var_i64. Qed.

Lemma er_s33 v : in_u 32 v -> enc_reads f (encode_i64 v) read_var_s33 v.
Proof. intros Hv. exists (write_signed v). split; [done|]. by apply reads_var_s33_u32. Qed.

Lemma er_usize n : in_u 32 n -> enc_reads f (encode_usize n) read_var_u32 n.
Proof.
  intros Hn. apply er_assert; [|by apply er_u32].
  unfold in_u in Hn. apply Z.leb_le. lia.
Qed.

Lemma er_size n limit desc :
  0 <= n <= limit -> limit < 2 ^ 32 ->
  enc_reads f (encode_usize n) (read_size limit desc) n.
Proof.
  intros Hn Hl. apply er_gets. intros pos. eapply er_last.
  - apply er_usize. unfold in_u. lia.
  - destruct (Z.ltb_spec limit n); [lia|done].
Qed.

Lemma er_items {A} `{FromReader A} (enc : A -> Enc) xs :
  Forall (fun x => enc_reads f (enc x) read x) xs ->
  enc_reads f (encode_items enc xs) (read_n (length xs)) xs.
Proof.
  induction 1 as [|x xs Hx Hxs IH]; [apply er_ret|].
  eapply er_bind; [exact Hx|]. simpl. eapply er_last; [exact IH|done].
Qed.

(** A counted list, whose items may be of another type than what is read. *)
Lemma er_iter {A B} `{FromReader A} (enc : B -> Enc) (ys : list B) xs limit desc :
  length ys = length xs -> Z.of_nat (length xs) <= limit -> limit < 2 ^ 32 ->
  enc_reads f (encode_items enc ys) (read_n (length xs)) xs ->
  enc_reads f (encode_list enc ys) (read_iter limit desc) xs.
Proof.
  intros Hlen Hl Hlim Hit. unfold encode_list. rewrite Hlen.
  eapply er_bind; [apply er_size; [|done]; lia|]. cbv beta. by rewrite Nat2Z.id.
Qed.

Lemma er_list {A} `{FromReader A} (enc : A -> Enc) xs limit desc :
  Z.of_nat (length xs) <= limit -> limit < 2 ^ 32 ->
  Forall (fun x => enc_reads f (enc x) read x) xs ->
  enc_reads f (encode_list enc xs) (read_iter limit desc) xs.
Proof. intros Hl Hlim Hxs. apply er_iter; [done..|]. by apply er_items. Qed.

Lemma er_str s :
  from_utf8 s = true -> Z.of_nat (length s) <= MAX_WASM_STRING_SIZE ->
  enc_reads f (encode_str s) read_string s.
Proof.
  intros Hs Hl. eapply er_bind.
  { apply er_usize. unfold in_u, MAX_WASM_STRING_SIZE in *. lia. }
  destruct (Z.ltb_spec MAX_WASM_STRING_SIZE (Z.of_nat (length s))); [lia|].
  eapply er_last; [by apply er_bytes|]. cbv beta. by rewrite Hs.
Qed.
End enc_reads.

#[export] Hint Resolve er_push er_u32 er_u64 er_i32 er_i64 er_f32 er_f64 : enc.
