(* ===== verification/Types.v ===== *)
(** Core types of wasmparser, [crates/wasmparser/src/readers/core/types.rs]:
    packed type indices, the 24-bit [RefType], heap types, value types, and
    their readers. *)

From Stdlib Require Import ZArith Lia String.
From stdpp Require Import prelude.
From S2P Require Import Prelude BinaryReader.

Local Open Scope Z_scope.

(** ** Packed indices

    [ unused:u10 kind:u2 index:u20 ].  A [CoreTypeId] is its index. *)

Definition CoreTypeId := Z.

Inductive UnpackedIndex :=
| Module_ (i : Z)
| RecGroup_ (i : Z)
| Id_ (id : CoreTypeId).

Definition PackedIndex := Z.

Definition KIND_MASK : Z := Z.shiftl 3 20.
Definition PACKED_INDEX_MASK : Z := Z.shiftl 1 20 - 1.
Definition UNUSED_MASK : Z := Z.ldiff (2 ^ 32 - 1) (Z.lor KIND_MASK PACKED_INDEX_MASK).
Definition MODULE_KIND : Z := Z.shiftl 0 20.
Definition REC_GROUP_KIND : Z := Z.shiftl 1 20.
Definition ID_KIND : Z := Z.shiftl 2 20.

Definition can_represent_index (index : Z) : bool :=
  Z.land index PACKED_INDEX_MASK =? index.

Definition packed_kind (p : PackedIndex) : Z := Z.land p KIND_MASK.
Definition packed_index (p : PackedIndex) : Z := Z.land p PACKED_INDEX_MASK.

Definition from_module_index (index : Z) : option PackedIndex :=
  if can_represent_index index then Some (Z.lor MODULE_KIND index) else None.

Definition from_rec_group_index (index : Z) : option PackedIndex :=
  if can_represent_index index then Some (Z.lor REC_GROUP_KIND index) else None.

(** [u32::try_from(..).unwrap()] cannot fail on an identifier below [2^32]. *)
Definition from_id (id : CoreTypeId) : option PackedIndex :=
  if can_represent_index id then Some (Z.lor ID_KIND id) else None.

(** [None] is the [unreachable!()] of the fourth kind. *)
Definition packed_is_canonical (p : PackedIndex) : option bool :=
  if (packed_kind p =? REC_GROUP_KIND) || (packed_kind p =? ID_KIND) then Some true
  else if packed_kind p =? MODULE_KIND then Some false
  else None.

Definition unpack (p : PackedIndex) : option UnpackedIndex :=
  if packed_kind p =? MODULE_KIND then Some (Module_ (packed_index p))
  else if packed_kind p =? REC_GROUP_KIND then Some (RecGroup_ (packed_index p))
  else if packed_kind p =? ID_KIND then Some (Id_ (packed_index p))
  else None.

Definition packed_as_module_index (p : PackedIndex) : option Z :=
  if packed_kind p =? MODULE_KIND then Some (packed_index p) else None.

Definition packed_as_rec_group_index (p : PackedIndex) : option Z :=
  if packed_kind p =? REC_GROUP_KIND then Some (packed_index p) else None.

Definition packed_as_core_type_id (p : PackedIndex) : option CoreTypeId :=
  if packed_kind p =? ID_KIND then Some (packed_index p) else None.

Definition pack (u : UnpackedIndex) : option PackedIndex :=
  match u with
  | Module_ i => from_module_index i
  | RecGroup_ i => from_rec_group_index i
  | Id_ id => from_id id
  end.

Definition unpacked_is_canonical (u : UnpackedIndex) : bool :=
  match u with RecGroup_ _ | Id_ _ => true | Module_ _ => false end.

Definition unpacked_as_module_index (u : UnpackedIndex) : option Z :=
  match u with Module_ i => Some i | _ => None end.

(** ** Heap types *)

Inductive AbstractHeapType :=
| HFunc | HExtern | HAny | HNone | HNoExtern | HNoFunc | HEq | HStruct | HArray
| HI31 | HExn | HNoExn | HCont | HNoCont.

#[export] Instance AbstractHeapType_eq_dec : EqDecision AbstractHeapType.
Proof. solve_decision. Defined.

Inductive HeapType :=
| Abstract (shared : bool) (ty : AbstractHeapType)
| Concrete (i : UnpackedIndex).

#[export] Instance UnpackedIndex_eq_dec : EqDecision UnpackedIndex.
Proof. solve_decision. Defined.

#[export] Instance HeapType_eq_dec : EqDecision HeapType.
Proof. solve_decision. Defined.

Definition ht_is_subtype_of (self other : AbstractHeapType) : bool :=
  if bool_decide (self = other) then true else
  match self, other with
  | (HEq | HI31 | HStruct | HArray | HNone), HAny => true
  | (HI31 | HStruct | HArray | HNone), HEq => true
  | HNoExtern, HExtern => true
  | HNoFunc, HFunc => true
  | HNone, (HI31 | HArray | HStruct) => true
  | HNoExn, HExn => true
  | HNoCont, HCont => true
  | (HFunc | HExtern | HExn | HAny | HEq | HArray | HI31 | HStruct | HCont | HNone
     | HNoFunc | HNoExtern | HNoExn | HNoCont), _ => false
  end.

(** ** Reference types

    A [u24], kept as its three little endian bytes:
    [ nullable:u1 concrete==1:u1 index:u22 ] or
    [ nullable:u1 concrete==0:u1 shared:u1 abstype:u4 unused:u17 ]. *)

Record RefType := mkRefType { rt0 : Z; rt1 : Z; rt2 : Z }.

#[export] Instance RefType_eq_dec : EqDecision RefType.
Proof. solve_decision. Defined.

Definition NULLABLE_BIT : Z := Z.shiftl 1 23.
Definition CONCRETE_BIT : Z := Z.shiftl 1 22.
Definition SHARED_BIT : Z := Z.shiftl 1 21.
Definition ABSTYPE_MASK : Z := Z.shiftl 15 17.
Definition INDEX_MASK : Z := Z.shiftl 1 22 - 1.

Definition ANY_ABSTYPE : Z := Z.shiftl 15 17.
Definition EQ_ABSTYPE : Z := Z.shiftl 13 17.
Definition I31_ABSTYPE : Z := Z.shiftl 8 17.
Definition STRUCT_ABSTYPE : Z := Z.shiftl 9 17.
Definition ARRAY_ABSTYPE : Z := Z.shiftl 12 17.
Definition FUNC_ABSTYPE : Z := Z.shiftl 5 17.
Definition NOFUNC_ABSTYPE : Z := Z.shiftl 4 17.
Definition EXTERN_ABSTYPE : Z := Z.shiftl 3 17.
Definition NOEXTERN_ABSTYPE : Z := Z.shiftl 2 17.
Definition EXN_ABSTYPE : Z := Z.shiftl 1 17.
Definition NOEXN_ABSTYPE : Z := Z.shiftl 14 17.
Definition NONE_ABSTYPE : Z := Z.shiftl 0 17.
Definition CONT_ABSTYPE : Z := Z.shiftl 7 17.
Definition NOCONT_ABSTYPE : Z := Z.shiftl 6 17.

Definition can_represent_type_index (index : Z) : bool :=
  Z.land index INDEX_MASK =? index.

Definition u24_to_u32 (r : RefType) : Z := from_le_bytes [rt0 r; rt1 r; rt2 r; 0].

(** The fourth byte, asserted to be zero in debug builds, is dropped. *)
Definition u32_to_u24 (x : Z) : RefType :=
  mkRefType (x mod 256) (x / 256 mod 256) (x / 65536 mod 256).

Definition as_u32 (r : RefType) : Z := u24_to_u32 r.

(** The condition [from_u32] asserts in debug builds. *)
Definition from_u32_ok (x : Z) : bool :=
  (Z.land x (Z.shiftl 255 24) =? 0)
  && (negb (Z.land x CONCRETE_BIT =? 0)
      || bool_decide (Z.land x ABSTYPE_MASK ∈
           [ANY_ABSTYPE; EQ_ABSTYPE; I31_ABSTYPE; STRUCT_ABSTYPE; ARRAY_ABSTYPE;
            FUNC_ABSTYPE; NOFUNC_ABSTYPE; EXTERN_ABSTYPE; NOEXTERN_ABSTYPE;
            NONE_ABSTYPE; EXN_ABSTYPE; NOEXN_ABSTYPE; CONT_ABSTYPE; NOCONT_ABSTYPE])).

Definition from_u32 (x : Z) : RefType := u32_to_u24 x.

Definition rt_concrete (nullable : bool) (index : PackedIndex) : RefType :=
  let nullable32 := NULLABLE_BIT * Z.b2z nullable in
  from_u32 (Z.lor (Z.lor nullable32 CONCRETE_BIT) index).

Definition abstype_of (ty : AbstractHeapType) : Z :=
  match ty with
  | HFunc => FUNC_ABSTYPE
  | HExtern => EXTERN_ABSTYPE
  | HAny => ANY_ABSTYPE
  | HNone => NONE_ABSTYPE
  | HNoExtern => NOEXTERN_ABSTYPE
  | HNoFunc => NOFUNC_ABSTYPE
  | HEq => EQ_ABSTYPE
  | HStruct => STRUCT_ABSTYPE
  | HArray => ARRAY_ABSTYPE
  | HI31 => I31_ABSTYPE
  | HExn => EXN_ABSTYPE
  | HNoExn => NOEXN_ABSTYPE
  | HCont => CONT_ABSTYPE
  | HNoCont => NOCONT_ABSTYPE
  end.

Definition rt_new (nullable : bool) (heap_type : HeapType) : option RefType :=
  let base32 := NULLABLE_BIT * Z.b2z nullable in
  match heap_type with
  | Concrete index => p ← pack index; Some (rt_concrete nullable p)
  | Abstract shared ty =>
      let base32 := Z.lor base32 (SHARED_BIT * Z.b2z shared) in
      Some (from_u32 (Z.lor base32 (abstype_of ty)))
  end.

Definition is_concrete_type_ref (r : RefType) : bool :=
  negb (Z.land (as_u32 r) CONCRETE_BIT =? 0).

Definition rt_type_index (r : RefType) : option PackedIndex :=
  if is_concrete_type_ref r then Some (Z.land (as_u32 r) INDEX_MASK) else None.

Definition abstype (r : RefType) : Z := Z.land (as_u32 r) ABSTYPE_MASK.

Definition is_func_ref (r : RefType) : bool :=
  negb (is_concrete_type_ref r) && (abstype r =? FUNC_ABSTYPE).
Definition is_extern_ref (r : RefType) : bool :=
  negb (is_concrete_type_ref r) && (abstype r =? EXTERN_ABSTYPE).
Definition is_array_ref (r : RefType) : bool :=
  negb (is_concrete_type_ref r) && (abstype r =? ARRAY_ABSTYPE).
Definition is_struct_ref (r : RefType) : bool :=
  negb (is_concrete_type_ref r) && (abstype r =? STRUCT_ABSTYPE).
Definition is_cont_ref (r : RefType) : bool :=
  negb (is_concrete_type_ref r) && (abstype r =? CONT_ABSTYPE).

Definition is_nullable (r : RefType) : bool :=
  negb (Z.land (as_u32 r) NULLABLE_BIT =? 0).

Definition as_non_null (r : RefType) : RefType :=
  from_u32 (Z.ldiff (as_u32 r) NULLABLE_BIT).

Definition nullable (r : RefType) : RefType :=
  from_u32 (Z.lor (as_u32 r) NULLABLE_BIT).

Definition rt_shared (r : RefType) : option RefType :=
  if is_concrete_type_ref r then None
  else Some (from_u32 (Z.lor (as_u32 r) SHARED_BIT)).

Definition abstract_of_abstype (x : Z) : option AbstractHeapType :=
  if x =? FUNC_ABSTYPE then Some HFunc
  else if x =? EXTERN_ABSTYPE then Some HExtern
  else if x =? ANY_ABSTYPE then Some HAny
  else if x =? NONE_ABSTYPE then Some HNone
  else if x =? NOEXTERN_ABSTYPE then Some HNoExtern
  else if x =? NOFUNC_ABSTYPE then Some HNoFunc
  else if x =? EQ_ABSTYPE then Some HEq
  else if x =? STRUCT_ABSTYPE then Some HStruct
  else if x =? ARRAY_ABSTYPE then Some HArray
  else if x =? I31_ABSTYPE then Some HI31
  else if x =? EXN_ABSTYPE then Some HExn
  else if x =? NOEXN_ABSTYPE then Some HNoExn
  else if x =? CONT_ABSTYPE then Some HCont
  else if x =? NOCONT_ABSTYPE then Some HNoCont
  else None.

(** [None] is one of the [unreachable!()]s. *)
Definition rt_heap_type (r : RefType) : option HeapType :=
  let s := as_u32 r in
  if is_concrete_type_ref r then
    p ← rt_type_index r;
    u ← unpack p;
    Some (Concrete u)
  else
    let shared := negb (Z.land s SHARED_BIT =? 0) in
    ty ← abstract_of_abstype (Z.land s ABSTYPE_MASK);
    Some (Abstract shared ty).

(** [RefType::difference]; [None] when an [unwrap] panics. *)
Definition rt_difference (a b : RefType) : option RefType :=
  h ← rt_heap_type a;
  rt_new (if is_nullable b then false else is_nullable a) h.

Definition FUNC : RefType := from_u32 FUNC_ABSTYPE.
Definition EXTERN : RefType := from_u32 EXTERN_ABSTYPE.
Definition FUNCREF : RefType := nullable FUNC.
Definition EXTERNREF : RefType := nullable EXTERN.

(** ** Value types *)

Inductive ValType := I32 | I64 | F32 | F64 | V128 | Ref (r : RefType).

#[export] Instance ValType_eq_dec : EqDecision ValType.
Proof. solve_decision. Defined.

Definition is_reference_type (t : ValType) : bool :=
  match t with Ref _ => true | _ => false end.

Definition as_reference_type (t : ValType) : option RefType :=
  match t with
  | Ref r => Some r
  | I32 | I64 | F32 | F64 | V128 => None
  end.

Definition is_defaultable (t : ValType) : bool :=
  match t with
  | I32 | I64 | F32 | F64 | V128 => true
  | Ref rt => is_nullable rt
  end.

Inductive StorageType := SI8 | SI16 | SVal (t : ValType).

Definition is_packed (s : StorageType) : bool :=
  match s with SI8 | SI16 => true | SVal _ => false end.

Definition storage_unpack (s : StorageType) : ValType :=
  match s with SVal ty => ty | SI8 | SI16 => I32 end.

Record FieldType := mkFieldType { element_type : StorageType; mutable : bool }.

(** ** Function types: parameters and results share one slice *)

Record FuncType := mkFuncType { params_results : list ValType; len_params : Z }.

Definition FuncType_new (params results : list ValType) : FuncType :=
  mkFuncType (params ++ results) (Z.of_nat (length params)).

(** [None]: the [assert!] fails. *)
Definition FuncType_from_raw_parts (pr : list ValType) (len : Z) : option FuncType :=
  if len <=? Z.of_nat (length pr) then Some (mkFuncType pr len) else None.

Definition func_params (t : FuncType) : list ValType :=
  take (Z.to_nat (len_params t)) (params_results t).

Definition func_results (t : FuncType) : list ValType :=
  drop (Z.to_nat (len_params t)) (params_results t).

(** ** Readers *)

Definition from_reader_abstract_heap_type : Reader AbstractHeapType :=
  b ← read_u8;
  match b with
  | 0x70 => mret HFunc
  | 0x6F => mret HExtern
  | 0x6E => mret HAny
  | 0x71 => mret HNone
  | 0x72 => mret HNoExtern
  | 0x73 => mret HNoFunc
  | 0x6D => mret HEq
  | 0x6B => mret HStruct
  | 0x6A => mret HArray
  | 0x6C => mret HI31
  | 0x69 => mret HExn
  | 0x74 => mret HNoExn
  | 0x68 => mret HCont
  | 0x75 => mret HNoCont
  | _ =>
      pos ← gets original_position;
      fail (err_invalid (lit "invalid abstract heap type") (pos - 1))
  end.
#[export] Instance FromReader_AbstractHeapType : FromReader AbstractHeapType :=
  from_reader_abstract_heap_type.

(** Errors of kind [Invalid] are reclassified by the type being read. *)
Definition reclassify (m : string) (e : BinaryReaderError) : BinaryReaderError :=
  match kind e with
  | Invalid => set_message (lit m) e
  | Custom => e
  end.

(** [u32::try_from]. *)
Definition u32_try_from (x : Z) : option Z :=
  if (0 <=? x) && (x <=? 2 ^ 32 - 1) then Some x else None.

(** Reads an [s33] on a clone, and keeps the clone only for a type index. *)
Definition from_reader_heap_type : Reader HeapType := fun r =>
  match read_var_s33 r with
  | (Ok s33, clone) =>
      match u32_try_from s33 with
      | Some idx =>
          match from_module_index idx with
          | Some p =>
              match unpack p with
              | Some u => (Ok (Concrete u), clone)
              | None => (Panic, clone)
              end
          | None =>
              (Err (err_new (lit "type index greater than implementation limits")
                      (original_position clone)), clone)
          end
      | None =>
          (b ← peek;
           match b with
           | 0x65 =>
               read_u8;;
               ty ← from_reader_abstract_heap_type;
               mret (Abstract true ty)
           | _ =>
               ty ← map_err (reclassify "invalid heap type") from_reader_abstract_heap_type;
               mret (Abstract false ty)
           end) r
      end
  | (Err e, _) => (Err e, r)
  | (Panic, _) => (Panic, r)
  end.
#[export] Instance FromReader_HeapType : FromReader HeapType := from_reader_heap_type.

Definition ok_or_err {A} (o : option A) (m : string) (pos : Z) : Reader A :=
  match o with
  | Some a => mret a
  | None => fail (err_new (lit m) pos)
  end.

Definition from_reader_ref_type : Reader RefType :=
  pos ← gets original_position;
  b ← peek;
  match b with
  | 0x63 | 0x64 =>
      b ← read_u8;
      let nullable := b =? 0x63 in
      hty ← from_reader_heap_type;
      ok_or_err (rt_new nullable hty) "type index too large" pos
  | _ =>
      hty ← map_err (reclassify "malformed reference type") from_reader_heap_type;
      ok_or_err (rt_new true hty) "type index too large" pos
  end.
#[export] Instance FromReader_RefType : FromReader RefType := from_reader_ref_type.

Definition from_reader_val_type : Reader ValType :=
  b ← peek;
  match b with
  | 0x7F => read_u8;; mret I32
  | 0x7E => read_u8;; mret I64
  | 0x7D => read_u8;; mret F32
  | 0x7C => read_u8;; mret F64
  | 0x7B => read_u8;; mret V128
  | _ =>
      refty ← map_err (reclassify "invalid value type") from_reader_ref_type;
      mret (Ref refty)
  end.
#[export] Instance FromReader_ValType : FromReader ValType := from_reader_val_type.

Definition from_reader_storage_type : Reader StorageType :=
  b ← peek;
  match b with
  | 0x78 => read_u8;; mret SI8
  | 0x77 => read_u8;; mret SI16
  | _ => ty ← from_reader_val_type; mret (SVal ty)
  end.
#[export] Instance FromReader_StorageType : FromReader StorageType :=
  from_reader_storage_type.
