(* ===== verification/TypesSpec.v ===== *)
(** The bit-packed types of Types.v implement the enums they stand for. *)

From Stdlib Require Import ZArith Lia String.
From stdpp Require Import prelude.
From S2P Require Import Prelude BinaryReader Types.

Local Open Scope Z_scope.

(** ** Bit fields *)

(** The bits of [lo + hi * 2^s]. *)
Lemma testbit_field lo hi s i :
  0 <= s -> 0 <= lo < 2 ^ s -> 0 <= i ->
  Z.testbit (lo + hi * 2 ^ s) i
  = if i <? s then Z.testbit lo i else Z.testbit hi (i - s).
Proof.
  intros Hs Hlo Hi. rewrite <- lor_add by done. rewrite Z.lor_spec.
  rewrite Z.mul_pow2_bits by lia. destruct (Z.ltb_spec i s).
  - rewrite (Z.testbit_neg_r hi) by lia. apply orb_false_r.
  - rewrite <- (Z.mod_small lo (2 ^ s)) by lia.
    by rewrite Z.mod_pow2_bits_high by lia.
Qed.

Lemma land_low lo hi s :
  0 <= s -> 0 <= lo < 2 ^ s -> Z.land (lo + hi * 2 ^ s) (Z.shiftl 1 s - 1) = lo.
Proof.
  intros Hs Hlo. rewrite Z.shiftl_1_l. replace (2 ^ s - 1) with (Z.ones s).
  - rewrite Z.land_ones, Z.mod_add, Z.mod_small by lia. done.
  - rewrite Z.ones_equiv. lia.
Qed.

(** Masking the high field keeps the masked part of it. *)
Lemma land_high lo hi m s :
  0 <= s -> 0 <= lo < 2 ^ s ->
  Z.land (lo + hi * 2 ^ s) (Z.shiftl m s) = Z.shiftl (Z.land hi m) s.
Proof.
  intros Hs Hlo. apply Z.bits_inj'. intros i Hi.
  rewrite Z.land_spec, testbit_field, !Z.shiftl_spec by lia.
  destruct (Z.ltb_spec i s).
  - rewrite (Z.testbit_neg_r m), (Z.testbit_neg_r (Z.land hi m)) by lia. apply andb_false_r.
  - by rewrite Z.land_spec.
Qed.

Lemma shiftl_eqb x y s : 0 <= s -> (Z.shiftl x s =? Z.shiftl y s) = (x =? y).
Proof.
  intros Hs. rewrite !Z.shiftl_mul_pow2 by lia.
  assert (0 < 2 ^ s) by (apply Z.pow_pos_nonneg; lia).
  destruct (Z.eqb_spec x y); [subst; apply Z.eqb_refl|]. apply Z.eqb_neq. nia.
Qed.

(** ** Packed indices *)

Definition unpacked_payload (u : UnpackedIndex) : Z :=
  match u with Module_ i | RecGroup_ i | Id_ i => i end.

Definition unpacked_valid (u : UnpackedIndex) : Prop := in_u 20 (unpacked_payload u).

Lemma can_represent_index_true i : in_u 20 i -> can_represent_index i = true.
Proof.
  intros Hi. unfold can_represent_index, PACKED_INDEX_MASK.
  rewrite <- (Z.add_0_r i) at 1. change 0 with (0 * 2 ^ 20) at 1.
  rewrite land_low by (unfold in_u in Hi; lia). apply Z.eqb_refl.
Qed.

Lemma can_represent_index_false i : 0 <= i -> ~ in_u 20 i -> can_represent_index i = false.
Proof.
  intros H0 Hi. unfold can_represent_index, PACKED_INDEX_MASK. apply Z.eqb_neq.
  change (Z.shiftl 1 20 - 1) with (Z.ones 20). rewrite Z.land_ones by lia.
  intros E. apply Hi. unfold in_u. pose proof (Z.mod_pos_bound i (2 ^ 20)). lia.
Qed.

Lemma kind_index_lor i kd :
  in_u 20 i -> Z.lor (Z.shiftl kd 20) i = i + kd * 2 ^ 20.
Proof.
  intros Hi. rewrite Z.lor_comm, Z.shiftl_mul_pow2 by lia.
  apply lor_add; [lia|apply Hi].
Qed.

(** The kind and index fields read back. *)
Lemma packed_fields i kd :
  in_u 20 i -> 0 <= kd < 3 ->
  packed_kind (i + kd * 2 ^ 20) = Z.shiftl kd 20 /\ packed_index (i + kd * 2 ^ 20) = i.
Proof.
  intros Hi Hk. split.
  - unfold packed_kind, KIND_MASK. rewrite land_high by (unfold in_u in Hi; lia).
    f_equal. assert (kd = 0 \/ kd = 1 \/ kd = 2) as [-> | [-> | ->]] by lia; done.
  - apply land_low; [lia|apply Hi].
Qed.

Lemma unpack_pack u :
  unpacked_valid u -> exists p, pack u = Some p /\ in_u 22 p /\ unpack p = Some u.
Proof.
  unfold unpacked_valid. intros Hu.
  assert (H : forall kd, 0 <= kd < 3 ->
    let i := unpacked_payload u in
    in_u 22 (i + kd * 2 ^ 20) /\
    unpack (i + kd * 2 ^ 20)
    = if kd =? 0 then Some (Module_ i) else if kd =? 1 then Some (RecGroup_ i)
      else Some (Id_ i)).
  { intros kd Hk i. split; [unfold in_u, i in *; lia|].
    destruct (packed_fields i kd Hu Hk) as [Ek Ei]. unfold unpack. rewrite Ek, Ei.
    unfold MODULE_KIND, REC_GROUP_KIND, ID_KIND. rewrite !shiftl_eqb by lia.
    assert (kd = 0 \/ kd = 1 \/ kd = 2) as [-> | [-> | ->]] by lia; done. }
  destruct u as [i|i|i]; simpl in *;
    unfold from_module_index, from_rec_group_index, from_id,
      MODULE_KIND, REC_GROUP_KIND, ID_KIND;
    rewrite can_represent_index_true, kind_index_lor by done.
  - exists (i + 0 * 2 ^ 20). destruct (H 0); [lia|]. done.
  - exists (i + 1 * 2 ^ 20). destruct (H 1); [lia|]. done.
  - exists (i + 2 * 2 ^ 20). destruct (H 2); [lia|]. done.
Qed.

Lemma pack_None u : 0 <= unpacked_payload u -> ~ unpacked_valid u -> pack u = None.
Proof.
  intros H0 Hu. destruct u; simpl in *;
    unfold from_module_index, from_rec_group_index, from_id;
    by rewrite can_represent_index_false.
Qed.

(** ** Reference types *)

Definition ht_valid (h : HeapType) : Prop :=
  match h with
  | Abstract _ _ => True
  | Concrete u => unpacked_valid u
  end.

Definition rt_valid (r : RefType) : Prop :=
  exists n h, ht_valid h /\ rt_new n h = Some r.

Lemma as_from_u32 x : in_u 24 x -> as_u32 (from_u32 x) = x.
Proof.
  unfold in_u. intros Hx. unfold as_u32, u24_to_u32, from_u32, u32_to_u24.
  cbn [from_le_bytes rt0 rt1 rt2].
  pose proof (Z.div_mod x 256 ltac:(lia)). pose proof (Z.div_mod (x / 256) 256 ltac:(lia)).
  replace (x / 65536) with (x / 256 / 256) by (rewrite Z.div_div by lia; done).
  rewrite (Z.mod_small (x / 256 / 256)); [lia|]. split.
  - apply Z.div_pos; [apply Z.div_pos; lia|lia].
  - apply Z.div_lt_upper_bound; [lia|]. apply Z.div_lt_upper_bound; lia.
Qed.

(** The word of a concrete reference, field by field. *)
Lemma concrete_word n p :
  in_u 22 p ->
  Z.lor (Z.lor (NULLABLE_BIT * Z.b2z n) CONCRETE_BIT) p = p + (1 + 2 * Z.b2z n) * 2 ^ 22.
Proof.
  intros Hp.
  replace (Z.lor (NULLABLE_BIT * Z.b2z n) CONCRETE_BIT) with ((1 + 2 * Z.b2z n) * 2 ^ 22)
    by (destruct n; done).
  rewrite Z.lor_comm. apply lor_add; [lia|apply Hp].
Qed.

Lemma as_u32_concrete n p :
  in_u 22 p -> as_u32 (rt_concrete n p) = p + (1 + 2 * Z.b2z n) * 2 ^ 22.
Proof.
  intros Hp. unfold rt_concrete. rewrite concrete_word by done. apply as_from_u32.
  unfold in_u in *. destruct n; simpl in *; lia.
Qed.

Lemma concrete_fields n p :
  in_u 22 p ->
  let r := rt_concrete n p in
  is_concrete_type_ref r = true /\ is_nullable r = n /\ rt_type_index r = Some p.
Proof.
  intros Hp r.
  assert (Hc : is_concrete_type_ref r = true).
  { unfold is_concrete_type_ref, r, CONCRETE_BIT. rewrite as_u32_concrete by done.
    rewrite land_high by (unfold in_u in Hp; lia). by destruct n. }
  split; [done|]. split.
  - unfold is_nullable, r, NULLABLE_BIT. rewrite as_u32_concrete by done.
    change (Z.shiftl 1 23) with (Z.shiftl 2 22).
    rewrite land_high by (unfold in_u in Hp; lia). by destruct n.
  - unfold rt_type_index. rewrite Hc. f_equal. unfold r, INDEX_MASK.
    rewrite as_u32_concrete by done. apply land_low; [lia|apply Hp].
Qed.

Lemma rt_new_heap_type n h :
  ht_valid h ->
  exists r, rt_new n h = Some r /\ rt_heap_type r = Some h /\ is_nullable r = n.
Proof.
  destruct h as [s t|u]; intros Hv.
  - eexists. split; [done|]. destruct n, s, t; done.
  - destruct (unpack_pack u Hv) as (p & Hpk & Hp & Hun).
    exists (rt_concrete n p). simpl. rewrite Hpk. split; [done|].
    destruct (concrete_fields n p Hp) as (H1 & H2 & H3). split; [|done].
    unfold rt_heap_type. rewrite H1, H3. simpl. by rewrite Hun.
Qed.

Lemma rt_new_from_u32_ok n h r :
  ht_valid h -> rt_new n h = Some r -> from_u32_ok (as_u32 r) = true.
Proof.
  destruct h as [s t|u]; intros Hv.
  - intros [= <-]. destruct n, s, t; vm_compute; done.
  - destruct (unpack_pack u Hv) as (p & Hpk & Hp & Hun). simpl. rewrite Hpk.
    intros [= <-]. destruct (concrete_fields n p Hp) as (H1 & _ & _).
    unfold from_u32_ok. unfold is_concrete_type_ref in H1. rewrite H1.
    rewrite orb_true_l, andb_true_r. rewrite as_u32_concrete by done.
    replace (p + (1 + 2 * Z.b2z n) * 2 ^ 22)
      with ((p + (1 + 2 * Z.b2z n) * 2 ^ 22) + 0 * 2 ^ 24) by lia.
    rewrite land_high; [done|lia|]. unfold in_u in Hp. destruct n; simpl in *; lia.
Qed.

(** A valid reference type is determined by its nullability and heap type. *)
Lemma rt_new_of_fields r h :
  rt_valid r -> rt_heap_type r = Some h -> rt_new (is_nullable r) h = Some r /\ ht_valid h.
Proof.
  intros (n & h' & Hv & Hn) Hh. destruct (rt_new_heap_type n h' Hv) as (r' & E1 & E2 & E3).
  rewrite Hn in E1. injection E1 as <-. rewrite E2 in Hh. injection Hh as <-.
  by rewrite E3.
Qed.

Lemma rt_valid_heap_type r : rt_valid r -> exists h, rt_heap_type r = Some h /\ ht_valid h.
Proof.
  intros (n & h & Hv & Hn). destruct (rt_new_heap_type n h Hv) as (r' & E1 & E2 & E3).
  rewrite Hn in E1. injection E1 as <-. by exists h.
Qed.

(** Setting and clearing bits of the high field. *)
Lemma lor_high lo hi m s :
  0 <= s -> 0 <= lo < 2 ^ s ->
  Z.lor (lo + hi * 2 ^ s) (Z.shiftl m s) = lo + Z.lor hi m * 2 ^ s.
Proof.
  intros Hs Hlo. apply Z.bits_inj'. intros i Hi.
  rewrite Z.lor_spec, !testbit_field, Z.shiftl_spec by lia.
  destruct (Z.ltb_spec i s).
  - rewrite (Z.testbit_neg_r m) by lia. apply orb_false_r.
  - by rewrite Z.lor_spec.
Qed.

Lemma ldiff_high lo hi m s :
  0 <= s -> 0 <= lo < 2 ^ s ->
  Z.ldiff (lo + hi * 2 ^ s) (Z.shiftl m s) = lo + Z.ldiff hi m * 2 ^ s.
Proof.
  intros Hs Hlo. apply Z.bits_inj'. intros i Hi.
  rewrite Z.ldiff_spec, !testbit_field, Z.shiftl_spec by lia.
  destruct (Z.ltb_spec i s).
  - rewrite (Z.testbit_neg_r m) by lia. apply andb_true_r.
  - by rewrite Z.ldiff_spec.
Qed.

Lemma as_non_null_new n h r :
  ht_valid h -> rt_new n h = Some r -> rt_new false h = Some (as_non_null r).
Proof.
  destruct h as [s t|u]; intros Hv.
  - intros [= <-]. destruct n, s, t; done.
  - destruct (unpack_pack u Hv) as (p & Hpk & Hp & Hun). simpl. rewrite Hpk.
    intros [= <-]. simpl. f_equal. unfold as_non_null. rewrite as_u32_concrete by done.
    unfold rt_concrete. rewrite concrete_word by done. f_equal.
    change NULLABLE_BIT with (Z.shiftl 2 22). rewrite ldiff_high by (unfold in_u in Hp; lia).
    by destruct n.
Qed.

Lemma nullable_new n h r :
  ht_valid h -> rt_new n h = Some r -> rt_new true h = Some (nullable r).
Proof.
  destruct h as [s t|u]; intros Hv.
  - intros [= <-]. destruct n, s, t; done.
  - destruct (unpack_pack u Hv) as (p & Hpk & Hp & Hun). simpl. rewrite Hpk.
    intros [= <-]. simpl. f_equal. unfold nullable. rewrite as_u32_concrete by done.
    unfold rt_concrete. rewrite concrete_word by done. f_equal.
    change NULLABLE_BIT with (Z.shiftl 2 22). rewrite lor_high by (unfold in_u in Hp; lia).
    by destruct n.
Qed.

Lemma rt_shared_new n h r :
  ht_valid h -> rt_new n h = Some r ->
  rt_shared r = match h with
                | Abstract _ t => rt_new n (Abstract true t)
                | Concrete _ => None
                end.
Proof.
  destruct h as [s t|u]; intros Hv.
  - intros [= <-]. destruct n, s, t; done.
  - destruct (unpack_pack u Hv) as (p & Hpk & Hp & Hun). simpl. rewrite Hpk.
    intros [= <-]. destruct (concrete_fields n p Hp) as (H1 & _ & _).
    unfold rt_shared. by rewrite H1.
Qed.

Lemma is_func_ref_new n h r :
  ht_valid h -> rt_new n h = Some r ->
  is_func_ref r = match h with Abstract _ HFunc => true | _ => false end
  /\ is_extern_ref r = match h with Abstract _ HExtern => true | _ => false end
  /\ is_array_ref r = match h with Abstract _ HArray => true | _ => false end
  /\ is_struct_ref r = match h with Abstract _ HStruct => true | _ => false end
  /\ is_cont_ref r = match h with Abstract _ HCont => true | _ => false end.
Proof.
  destruct h as [s t|u]; intros Hv.
  - intros [= <-]. destruct n, s, t; done.
  - destruct (unpack_pack u Hv) as (p & Hpk & Hp & Hun). simpl. rewrite Hpk.
    intros [= <-]. destruct (concrete_fields n p Hp) as (H1 & _ & _).
    unfold is_func_ref, is_extern_ref, is_array_ref, is_struct_ref, is_cont_ref.
    by rewrite H1.
Qed.

(** ** The subtype order of abstract heap types *)

Lemma ht_subtype_refl t : ht_is_subtype_of t t = true.
Proof. by destruct t. Qed.

Lemma ht_subtype_trans a b c :
  ht_is_subtype_of a b = true -> ht_is_subtype_of b c = true -> ht_is_subtype_of a c = true.
Proof. by destruct a, b; intros; try done; destruct c. Qed.

Lemma ht_subtype_antisym a b :
  ht_is_subtype_of a b = true -> ht_is_subtype_of b a = true -> a = b.
Proof. by destruct a, b. Qed.

#[export] Instance ht_subtype_order :
  PartialOrder (fun a b => ht_is_subtype_of a b = true).
Proof.
  split; [split|].
  - exact ht_subtype_refl.
  - exact ht_subtype_trans.
  - exact ht_subtype_antisym.
Qed.
