(* ===== verification/EncTypes.v ===== *)
(** Types and instruction operands of wasm-encoder, and their encodings:
    [crates/wasm-encoder/src/core/types.rs] and the operand structures of
    [crates/wasm-encoder/src/core/code.rs].

    wasm-encoder has types of the same names as wasmparser's; they live in the
    module [WE]. *)

From Stdlib Require Import ZArith Lia String.
From stdpp Require Import prelude.
From S2P Require Import Prelude Leb128 Encode.

Local Open Scope Z_scope.

Module WE.

Inductive AbstractHeapType :=
| Func | Extern | Any | None_ | NoExtern | NoFunc | Eq | Struct | Array | I31
| Exn | NoExn | Cont | NoCont.

Inductive HeapType :=
| Abstract (shared : bool) (ty : AbstractHeapType)
| Concrete (i : Z).

Record RefType := mkRefType { nullable : bool; heap_type : HeapType }.

Inductive ValType := I32 | I64 | F32 | F64 | V128 | Ref (r : RefType).

Definition is_numeric (t : ValType) : bool :=
  match t with I32 | I64 | F32 | F64 => true | V128 | Ref _ => false end.

Definition is_vector (t : ValType) : bool :=
  match t with V128 => true | I32 | I64 | F32 | F64 | Ref _ => false end.

Definition is_reference (t : ValType) : bool :=
  match t with Ref _ => true | I32 | I64 | F32 | F64 | V128 => false end.

Definition is_defaultable (t : ValType) : bool :=
  match t with Ref r => nullable r | I32 | I64 | F32 | F64 | V128 => true end.

Inductive StorageType := I8 | I16 | Val (t : ValType).

Definition storage_unpack (s : StorageType) : ValType :=
  match s with I8 | I16 => I32 | Val v => v end.

Record FieldType := mkFieldType { element_type : StorageType; mutable : bool }.

Record FuncType := mkFuncType { params_results : list ValType; len_params : Z }.

Definition FuncType_new (params results : list ValType) : FuncType :=
  mkFuncType (params ++ results) (Z.of_nat (length params)).

Definition func_params (t : FuncType) : list ValType :=
  take (Z.to_nat (len_params t)) (params_results t).

Definition func_results (t : FuncType) : list ValType :=
  drop (Z.to_nat (len_params t)) (params_results t).

(** Operands of instructions. *)

Record MemArg := mkMemArg { offset : Z; align : Z; memory_index : Z }.

Inductive Ordering := AcqRel | SeqCst.

Inductive BlockType :=
| Empty
| Result (t : ValType)
| FunctionType (f : Z).

Inductive Catch :=
| One (tag label : Z)
| OneRef (tag label : Z)
| All (label : Z)
| AllRef (label : Z).

Inductive Handle :=
| OnLabel (tag label : Z)
| OnSwitch (tag : Z).

Section encode.
Context {L : Leb128}.

Definition encode_abstract_heap_type (t : AbstractHeapType) : Enc :=
  match t with
  | Func => push 0x70
  | Extern => push 0x6F
  | Any => push 0x6E
  | None_ => push 0x71
  | NoExtern => push 0x72
  | NoFunc => push 0x73
  | Eq => push 0x6D
  | Struct => push 0x6B
  | Array => push 0x6A
  | I31 => push 0x6C
  | Exn => push 0x69
  | NoExn => push 0x74
  | Cont => push 0x68
  | NoCont => push 0x75
  end.

Definition encode_heap_type (h : HeapType) : Enc :=
  match h with
  | Abstract shared ty =>
      (if shared then push 0x65 else Some []) +> encode_abstract_heap_type ty
  | Concrete i => encode_i64 i
  end.

Definition encode_ref_type (r : RefType) : Enc :=
  match r with
  | mkRefType true (Abstract _ _ as heap) => encode_heap_type heap
  | mkRefType true h => push 0x63 +> encode_heap_type h
  | mkRefType false h => push 0x64 +> encode_heap_type h
  end.

Definition encode_val_type (t : ValType) : Enc :=
  match t with
  | I32 => push 0x7F
  | I64 => push 0x7E
  | F32 => push 0x7D
  | F64 => push 0x7C
  | V128 => push 0x7B
  | Ref rt => encode_ref_type rt
  end.

Definition encode_storage_type (s : StorageType) : Enc :=
  match s with
  | I8 => push 0x78
  | I16 => push 0x77
  | Val vt => encode_val_type vt
  end.

Definition encode_mem_arg (m : MemArg) : Enc :=
  if memory_index m =? 0 then
    encode_u32 (align m) +> encode_u64 (offset m)
  else
    encode_u32 (Z.lor (align m) (Z.shiftl 1 6))
    +> encode_u32 (memory_index m)
    +> encode_u64 (offset m).

Definition encode_ordering (o : Ordering) : Enc :=
  push (match o with SeqCst => 0 | AcqRel => 1 end).

Definition encode_block_type (b : BlockType) : Enc :=
  match b with
  | Empty => push 0x40
  | Result ty => encode_val_type ty
  | FunctionType f => encode_i64 f
  end.

Definition encode_catch (c : Catch) : Enc :=
  match c with
  | One tag label => push 0x00 +> encode_u32 tag +> encode_u32 label
  | OneRef tag label => push 0x01 +> encode_u32 tag +> encode_u32 label
  | All label => push 0x02 +> encode_u32 label
  | AllRef label => push 0x03 +> encode_u32 label
  end.

Definition encode_handle (h : Handle) : Enc :=
  match h with
  | OnLabel tag label => push 0x00 +> encode_u32 tag +> encode_u32 label
  | OnSwitch tag => push 0x01 +> encode_u32 tag
  end.
End encode.

#[export] Instance Encode_AbstractHeapType {L : Leb128} : Encode AbstractHeapType :=
  encode_abstract_heap_type.
#[export] Instance Encode_HeapType {L : Leb128} : Encode HeapType := encode_heap_type.
#[export] Instance Encode_RefType {L : Leb128} : Encode RefType := encode_ref_type.
#[export] Instance Encode_ValType {L : Leb128} : Encode ValType := encode_val_type.
#[export] Instance Encode_StorageType {L : Leb128} : Encode StorageType := encode_storage_type.

End WE.
