(* ===== verification/Operands.v ===== *)
(** Instruction operands of wasmparser and their readers:
    [crates/wasmparser/src/readers/core/operators.rs] and the operand readers of
    [crates/wasmparser/src/binary_reader.rs]. *)

From Stdlib Require Import ZArith Lia String.
From stdpp Require Import prelude.
From S2P Require Import Prelude BinaryReader Types.

Local Open Scope Z_scope.

(** ** Data *)

Inductive BlockType :=
| BT_Empty
| BT_Type (t : ValType)
| BT_FuncType (i : Z).

(** [memarg_offset] is the field [offset], a name of [BinaryReaderError] too. *)
Record MemArg := mkMemArg {
  align : Z;
  max_align : Z;
  memarg_offset : Z;
  memory : Z;
}.

Record BrTable := mkBrTable { br_reader : BinaryReader; cnt : Z; default : Z }.

(** [impl PartialEq for BrTable]. *)
Definition br_table_eq (a b : BrTable) : bool :=
  (cnt a =? cnt b) && (default a =? default b)
  && bool_decide (remaining_buffer (br_reader a) = remaining_buffer (br_reader b)).

Inductive Ordering := AcqRel | SeqCst.

(** [V128([u8; 16])]. *)
Definition V128Bytes := list Z.

(** [i128::from_le_bytes]. *)
Definition V128_i128 (v : V128Bytes) : Z := swrap 128 (from_le_bytes v).

Inductive Catch :=
| Catch_One (tag label : Z)
| Catch_OneRef (tag label : Z)
| Catch_All (label : Z)
| Catch_AllRef (label : Z).

Record TryTable := mkTryTable { try_ty : BlockType; catches : list Catch }.

Inductive Handle :=
| Handle_OnLabel (tag label : Z)
| Handle_OnSwitch (tag : Z).

Record ResumeTable := mkResumeTable { handlers : list Handle }.

(** ** Readers *)

Definition read_memarg (max_align : Z) : Reader MemArg :=
  flags_pos ← gets original_position;
  flags ← read_var_u32;
  f ← gets features;
  '(flags, memory) ←
    (if multi_memory f && negb (Z.land flags (Z.shiftl 1 6) =? 0) then
       m ← read_var_u32; mret (Z.lxor flags (Z.shiftl 1 6), m)
     else mret (flags, 0));
  if Z.shiftl 1 6 <=? flags then
    fail (err_new (lit "malformed memop alignment: alignment too large") flags_pos)
  else
    let align := wrap 8 flags in
    offset ← (if memory64 f then read_var_u64 else read_var_u32);
    mret (mkMemArg align max_align offset memory).

Definition read_ordering : Reader Ordering :=
  byte ← read_var_u32;
  match byte with
  | 0 => mret SeqCst
  | 1 => mret AcqRel
  | x => fail_prev (mkMsg "invalid atomic consistency ordering {}" [x])
  end.

(** [for _ in 0..cnt { reader.read_var_u32()?; }]. *)
Fixpoint skip_var_u32s (n : nat) : Reader () :=
  match n with
  | O => mret tt
  | S n' => read_var_u32;; skip_var_u32s n'
  end.

Definition read_br_table : Reader BrTable :=
  cnt ← read_size MAX_WASM_BR_TABLE_SIZE "br_table";
  reader ← skip (skip_var_u32s (Z.to_nat cnt));
  default ← read_var_u32;
  mret (mkBrTable reader (wrap 32 cnt) default).

Definition read_block_type : Reader BlockType :=
  b ← peek;
  if (Z.land b 0x80 =? 0) && negb (Z.land b 0x40 =? 0) then
    if b =? 0x40 then
      modify (fun r => set_position (position r + 1) r);;
      mret BT_Empty
    else
      t ← from_reader_val_type;
      mret (BT_Type t)
  else
    idx ← read_var_s33;
    match u32_try_from idx with
    | Some idx => mret (BT_FuncType idx)
    | None =>
        pos ← gets original_position;
        fail (err_new (lit "invalid function type") pos)
    end.

Definition read_lane_index (max : Z) : Reader Z :=
  index ← read_u8;
  if max <=? index then fail_prev (lit "invalid lane index")
  else mret index.

(** The loop that fills the [lanes] of [i8x16.shuffle]. *)
Fixpoint read_lanes (n : nat) : Reader (list Z) :=
  match n with
  | O => mret []
  | S n' => l ← read_lane_index 32; ls ← read_lanes n'; mret (l :: ls)
  end.

Definition read_v128 : Reader V128Bytes := read_bytes 16.

Definition zero_byte_expected : Reader Z :=
  b ← read_u8;
  match b with
  | 0 => mret 0
  | _ => fail_prev (lit "zero byte expected")
  end.

Definition read_memory_index_or_zero_if_not_multi_memory : Reader Z :=
  f ← gets features;
  if multi_memory f then read_var_u32 else zero_byte_expected.

Definition read_table_index_or_zero_if_not_reference_types : Reader Z :=
  f ← gets features;
  if reference_types f then read_var_u32 else zero_byte_expected.

Definition from_reader_catch : Reader Catch :=
  b ← read_u8;
  match b with
  | 0x00 => tag ← read_var_u32; label ← read_var_u32; mret (Catch_One tag label)
  | 0x01 => tag ← read_var_u32; label ← read_var_u32; mret (Catch_OneRef tag label)
  | 0x02 => label ← read_var_u32; mret (Catch_All label)
  | 0x03 => label ← read_var_u32; mret (Catch_AllRef label)
  | x => invalid_leading_byte x "catch"
  end.
#[export] Instance FromReader_Catch : FromReader Catch := from_reader_catch.

Definition from_reader_try_table : Reader TryTable :=
  ty ← read_block_type;
  catches ← read_iter MAX_WASM_CATCHES "catches";
  mret (mkTryTable ty catches).
#[export] Instance FromReader_TryTable : FromReader TryTable := from_reader_try_table.

Definition from_reader_handle : Reader Handle :=
  b ← read_u8;
  match b with
  | 0x00 => tag ← read_var_u32; label ← read_var_u32; mret (Handle_OnLabel tag label)
  | 0x01 => tag ← read_var_u32; mret (Handle_OnSwitch tag)
  | x => invalid_leading_byte x "on clause"
  end.
#[export] Instance FromReader_Handle : FromReader Handle := from_reader_handle.

Definition from_reader_resume_table : Reader ResumeTable :=
  handlers ← read_iter MAX_WASM_HANDLERS "resume table";
  mret (mkResumeTable handlers).
#[export] Instance FromReader_ResumeTable : FromReader ResumeTable :=
  from_reader_resume_table.

(** The flags, depth and two heap types of [br_on_cast] and [br_on_cast_fail]. *)
Definition read_br_on_cast : Reader (Z * RefType * RefType) :=
  pos ← gets original_position;
  cast_flags ← read_u8;
  relative_depth ← read_var_u32;
  '(from_type_nullable, to_type_nullable) ←
    match cast_flags with
    | 0 => mret (false, false)
    | 1 => mret (true, false)
    | 2 => mret (false, true)
    | 3 => mret (true, true)
    | _ => fail (err_new (mkMsg "invalid cast flags: {cast_flags:08b}" [cast_flags]) pos)
    end;
  from_heap_type ← from_reader_heap_type;
  from_ref_type ← ok_or_err (rt_new from_type_nullable from_heap_type)
                    "implementation error: type index too large" pos;
  to_heap_type ← from_reader_heap_type;
  to_ref_type ← ok_or_err (rt_new to_type_nullable to_heap_type)
                  "implementation error: type index too large" pos;
  mret (relative_depth, from_ref_type, to_ref_type).

(** ** The targets of a [br_table] *)

Record BrTableTargets := mkTargets { targets_reader : BinaryReader; remaining : Z }.

Definition targets (t : BrTable) : BrTableTargets := mkTargets (br_reader t) (cnt t).

(** [Iterator::next]: [None] ends the iteration. *)
Definition targets_next (t : BrTableTargets) : option (result Z) * BrTableTargets :=
  if remaining t =? 0 then
    if negb (eof (targets_reader t)) then
      (Some (Err (err_new (lit "trailing data in br_table")
                    (original_position (targets_reader t)))), t)
    else (None, t)
  else
    let (v, r') := read_var_u32 (targets_reader t) in
    (Some v, mkTargets r' (remaining t - 1)).

(** [collect::<Result<Vec<_>, _>>()]. *)
Fixpoint targets_collect (fuel : nat) (t : BrTableTargets) : result (list Z) :=
  match fuel with
  | O => Panic
  | S fuel' =>
      match targets_next t with
      | (None, _) => Ok []
      | (Some (Ok v), t') =>
          match targets_collect fuel' t' with
          | Ok vs => Ok (v :: vs)
          | e => e
          end
      | (Some (Err e), _) => Err e
      | (Some Panic, _) => Panic
      end
  end.

(** [cnt] items and the final [None] or error need [cnt + 1] calls. *)
Definition br_table_targets (t : BrTable) : result (list Z) :=
  targets_collect (S (Z.to_nat (cnt t))) (targets t).
