(* ===== verification/OperatorReader.v ===== *)
(** Decoding operators: [visit_operator] and the decoders of the prefixed
    opcodes, [crates/wasmparser/src/binary_reader.rs] and
    [crates/wasmparser/src/binary_reader/simd.rs].

    A [VisitOperator] receives exactly one call, whose arguments are the fields
    of an operator; a visitor is a function of the operator.  [simd_visitor]
    tells whether the visitor has a [VisitSimdOperator]. *)

From Stdlib Require Import ZArith Lia String.
From stdpp Require Import prelude.
From S2P Require Import Prelude BinaryReader Types Operands Operators.

Local Open Scope Z_scope.

Section visit.
Context {A : Type} (simd_visitor : bool) (visit : Op.Operator -> A).

Definition visit_0xfb_operator (pos : Z) : Reader A :=
  code ← read_var_u32;
  match code with
  | 0x0 => type_index ← read_var_u32; mret (visit (Op.StructNew type_index))
  | 0x01 => type_index ← read_var_u32; mret (visit (Op.StructNewDefault type_index))
  | 0x02 =>
    type_index ← read_var_u32; field_index ← read_var_u32;
    mret (visit (Op.StructGet type_index field_index))
  | 0x03 =>
    type_index ← read_var_u32; field_index ← read_var_u32;
    mret (visit (Op.StructGetS type_index field_index))
  | 0x04 =>
    type_index ← read_var_u32; field_index ← read_var_u32;
    mret (visit (Op.StructGetU type_index field_index))
  | 0x05 =>
    type_index ← read_var_u32; field_index ← read_var_u32;
    mret (visit (Op.StructSet type_index field_index))
  | 0x06 => type_index ← read_var_u32; mret (visit (Op.ArrayNew type_index))
  | 0x07 => type_index ← read_var_u32; mret (visit (Op.ArrayNewDefault type_index))
  | 0x08 =>
    type_index ← read_var_u32; n ← read_var_u32;
    mret (visit (Op.ArrayNewFixed type_index n))
  | 0x09 =>
    type_index ← read_var_u32; data_index ← read_var_u32;
    mret (visit (Op.ArrayNewData type_index data_index))
  | 0x0a =>
    type_index ← read_var_u32; elem_index ← read_var_u32;
    mret (visit (Op.ArrayNewElem type_index elem_index))
  | 0x0b => type_index ← read_var_u32; mret (visit (Op.ArrayGet type_index))
  | 0x0c => type_index ← read_var_u32; mret (visit (Op.ArrayGetS type_index))
  | 0x0d => type_index ← read_var_u32; mret (visit (Op.ArrayGetU type_index))
  | 0x0e => type_index ← read_var_u32; mret (visit (Op.ArraySet type_index))
  | 0x0f => mret (visit Op.ArrayLen)
  | 0x10 => type_index ← read_var_u32; mret (visit (Op.ArrayFill type_index))
  | 0x11 =>
    type_index_dst ← read_var_u32; type_index_src ← read_var_u32;
    mret (visit (Op.ArrayCopy type_index_dst type_index_src))
  | 0x12 =>
    type_index ← read_var_u32; data_index ← read_var_u32;
    mret (visit (Op.ArrayInitData type_index data_index))
  | 0x13 =>
    type_index ← read_var_u32; elem_index ← read_var_u32;
    mret (visit (Op.ArrayInitElem type_index elem_index))
  | 0x14 => hty ← from_reader_heap_type; mret (visit (Op.RefTestNonNull hty))
  | 0x15 => hty ← from_reader_heap_type; mret (visit (Op.RefTestNullable hty))
  | 0x16 => hty ← from_reader_heap_type; mret (visit (Op.RefCastNonNull hty))
  | 0x17 => hty ← from_reader_heap_type; mret (visit (Op.RefCastNullable hty))
  | 0x18 =>
    '(relative_depth, from_ref_type, to_ref_type) ← read_br_on_cast;
    mret (visit (Op.BrOnCast relative_depth from_ref_type to_ref_type))
  | 0x19 =>
    '(relative_depth, from_ref_type, to_ref_type) ← read_br_on_cast;
    mret (visit (Op.BrOnCastFail relative_depth from_ref_type to_ref_type))
  | 0x1a => mret (visit Op.AnyConvertExtern)
  | 0x1b => mret (visit Op.ExternConvertAny)
  | 0x1c => mret (visit Op.RefI31)
  | 0x1d => mret (visit Op.I31GetS)
  | 0x1e => mret (visit Op.I31GetU)
  | _ => fail (err_new (mkMsg "unknown 0xfb subopcode: 0x{code:x}" [code]) pos)
  end.

Definition visit_0xfc_operator (pos : Z) : Reader A :=
  code ← read_var_u32;
  match code with
  | 0x00 => mret (visit Op.I32TruncSatF32S)
  | 0x01 => mret (visit Op.I32TruncSatF32U)
  | 0x02 => mret (visit Op.I32TruncSatF64S)
  | 0x03 => mret (visit Op.I32TruncSatF64U)
  | 0x04 => mret (visit Op.I64TruncSatF32S)
  | 0x05 => mret (visit Op.I64TruncSatF32U)
  | 0x06 => mret (visit Op.I64TruncSatF64S)
  | 0x07 => mret (visit Op.I64TruncSatF64U)
  | 0x08 =>
    segment ← read_var_u32; mem ← read_var_u32;
    mret (visit (Op.MemoryInit segment mem))
  | 0x09 => segment ← read_var_u32; mret (visit (Op.DataDrop segment))
  | 0x0a => dst ← read_var_u32; src ← read_var_u32; mret (visit (Op.MemoryCopy dst src))
  | 0x0b => mem ← read_var_u32; mret (visit (Op.MemoryFill mem))
  | 0x0c =>
    segment ← read_var_u32; table ← read_var_u32;
    mret (visit (Op.TableInit segment table))
  | 0x0d => segment ← read_var_u32; mret (visit (Op.ElemDrop segment))
  | 0x0e =>
    dst_table ← read_var_u32; src_table ← read_var_u32;
    mret (visit (Op.TableCopy dst_table src_table))
  | 0x0f => table ← read_var_u32; mret (visit (Op.TableGrow table))
  | 0x10 => table ← read_var_u32; mret (visit (Op.TableSize table))
  | 0x11 => table ← read_var_u32; mret (visit (Op.TableFill table))
  | 0x12 => mem ← read_var_u32; mret (visit (Op.MemoryDiscard mem))
  | 0x13 => mret (visit Op.I64Add128)
  | 0x14 => mret (visit Op.I64Sub128)
  | 0x15 => mret (visit Op.I64MulWideS)
  | 0x16 => mret (visit Op.I64MulWideU)
  | _ => fail (err_new (mkMsg "unknown 0xfc subopcode: 0x{code:x}" [code]) pos)
  end.

Definition visit_0xfd_operator (pos : Z) : Reader A :=
  code ← read_var_u32;
  match code with
  | 0x00 => memarg ← read_memarg 4; mret (visit (Op.V128Load memarg))
  | 0x01 => memarg ← read_memarg 3; mret (visit (Op.V128Load8x8S memarg))
  | 0x02 => memarg ← read_memarg 3; mret (visit (Op.V128Load8x8U memarg))
  | 0x03 => memarg ← read_memarg 3; mret (visit (Op.V128Load16x4S memarg))
  | 0x04 => memarg ← read_memarg 3; mret (visit (Op.V128Load16x4U memarg))
  | 0x05 => memarg ← read_memarg 3; mret (visit (Op.V128Load32x2S memarg))
  | 0x06 => memarg ← read_memarg 3; mret (visit (Op.V128Load32x2U memarg))
  | 0x07 => memarg ← read_memarg 0; mret (visit (Op.V128Load8Splat memarg))
  | 0x08 => memarg ← read_memarg 1; mret (visit (Op.V128Load16Splat memarg))
  | 0x09 => memarg ← read_memarg 2; mret (visit (Op.V128Load32Splat memarg))
  | 0x0a => memarg ← read_memarg 3; mret (visit (Op.V128Load64Splat memarg))
  | 0x0b => memarg ← read_memarg 4; mret (visit (Op.V128Store memarg))
  | 0x0c => value ← read_v128; mret (visit (Op.V128Const value))
  | 0x0d =>
    lanes ← read_lanes 16;
    mret (visit (Op.I8x16Shuffle lanes))
  | 0x0e => mret (visit Op.I8x16Swizzle)
  | 0x0f => mret (visit Op.I8x16Splat)
  | 0x10 => mret (visit Op.I16x8Splat)
  | 0x11 => mret (visit Op.I32x4Splat)
  | 0x12 => mret (visit Op.I64x2Splat)
  | 0x13 => mret (visit Op.F32x4Splat)
  | 0x14 => mret (visit Op.F64x2Splat)
  | 0x15 => lane ← read_lane_index 16; mret (visit (Op.I8x16ExtractLaneS lane))
  | 0x16 => lane ← read_lane_index 16; mret (visit (Op.I8x16ExtractLaneU lane))
  | 0x17 => lane ← read_lane_index 16; mret (visit (Op.I8x16ReplaceLane lane))
  | 0x18 => lane ← read_lane_index 8; mret (visit (Op.I16x8ExtractLaneS lane))
  | 0x19 => lane ← read_lane_index 8; mret (visit (Op.I16x8ExtractLaneU lane))
  | 0x1a => lane ← read_lane_index 8; mret (visit (Op.I16x8ReplaceLane lane))
  | 0x1b => lane ← read_lane_index 4; mret (visit (Op.I32x4ExtractLane lane))
  | 0x1c => lane ← read_lane_index 4; mret (visit (Op.I32x4ReplaceLane lane))
  | 0x1d => lane ← read_lane_index 2; mret (visit (Op.I64x2ExtractLane lane))
  | 0x1e => lane ← read_lane_index 2; mret (visit (Op.I64x2ReplaceLane lane))
  | 0x1f => lane ← read_lane_index 4; mret (visit (Op.F32x4ExtractLane lane))
  | 0x20 => lane ← read_lane_index 4; mret (visit (Op.F32x4ReplaceLane lane))
  | 0x21 => lane ← read_lane_index 2; mret (visit (Op.F64x2ExtractLane lane))
  | 0x22 => lane ← read_lane_index 2; mret (visit (Op.F64x2ReplaceLane lane))
  | 0x23 => mret (visit Op.I8x16Eq)
  | 0x24 => mret (visit Op.I8x16Ne)
  | 0x25 => mret (visit Op.I8x16LtS)
  | 0x26 => mret (visit Op.I8x16LtU)
  | 0x27 => mret (visit Op.I8x16GtS)
  | 0x28 => mret (visit Op.I8x16GtU)
  | 0x29 => mret (visit Op.I8x16LeS)
  | 0x2a => mret (visit Op.I8x16LeU)
  | 0x2b => mret (visit Op.I8x16GeS)
  | 0x2c => mret (visit Op.I8x16GeU)
  | 0x2d => mret (visit Op.I16x8Eq)
  | 0x2e => mret (visit Op.I16x8Ne)
  | 0x2f => mret (visit Op.I16x8LtS)
  | 0x30 => mret (visit Op.I16x8LtU)
  | 0x31 => mret (visit Op.I16x8GtS)
  | 0x32 => mret (visit Op.I16x8GtU)
  | 0x33 => mret (visit Op.I16x8LeS)
  | 0x34 => mret (visit Op.I16x8LeU)
  | 0x35 => mret (visit Op.I16x8GeS)
  | 0x36 => mret (visit Op.I16x8GeU)
  | 0x37 => mret (visit Op.I32x4Eq)
  | 0x38 => mret (visit Op.I32x4Ne)
  | 0x39 => mret (visit Op.I32x4LtS)
  | 0x3a => mret (visit Op.I32x4LtU)
  | 0x3b => mret (visit Op.I32x4GtS)
  | 0x3c => mret (visit Op.I32x4GtU)
  | 0x3d => mret (visit Op.I32x4LeS)
  | 0x3e => mret (visit Op.I32x4LeU)
  | 0x3f => mret (visit Op.I32x4GeS)
  | 0x40 => mret (visit Op.I32x4GeU)
  | 0x41 => mret (visit Op.F32x4Eq)
  | 0x42 => mret (visit Op.F32x4Ne)
  | 0x43 => mret (visit Op.F32x4Lt)
  | 0x44 => mret (visit Op.F32x4Gt)
  | 0x45 => mret (visit Op.F32x4Le)
  | 0x46 => mret (visit Op.F32x4Ge)
  | 0x47 => mret (visit Op.F64x2Eq)
  | 0x48 => mret (visit Op.F64x2Ne)
  | 0x49 => mret (visit Op.F64x2Lt)
  | 0x4a => mret (visit Op.F64x2Gt)
  | 0x4b => mret (visit Op.F64x2Le)
  | 0x4c => mret (visit Op.F64x2Ge)
  | 0x4d => mret (visit Op.V128Not)
  | 0x4e => mret (visit Op.V128And)
  | 0x4f => mret (visit Op.V128AndNot)
  | 0x50 => mret (visit Op.V128Or)
  | 0x51 => mret (visit Op.V128Xor)
  | 0x52 => mret (visit Op.V128Bitselect)
  | 0x53 => mret (visit Op.V128AnyTrue)
  | 0x54 =>
    memarg ← read_memarg 0; lane ← read_lane_index 16;
    mret (visit (Op.V128Load8Lane memarg lane))
  | 0x55 =>
    memarg ← read_memarg 1; lane ← read_lane_index 8;
    mret (visit (Op.V128Load16Lane memarg lane))
  | 0x56 =>
    memarg ← read_memarg 2; lane ← read_lane_index 4;
    mret (visit (Op.V128Load32Lane memarg lane))
  | 0x57 =>
    memarg ← read_memarg 3; lane ← read_lane_index 2;
    mret (visit (Op.V128Load64Lane memarg lane))
  | 0x58 =>
    memarg ← read_memarg 0; lane ← read_lane_index 16;
    mret (visit (Op.V128Store8Lane memarg lane))
  | 0x59 =>
    memarg ← read_memarg 1; lane ← read_lane_index 8;
    mret (visit (Op.V128Store16Lane memarg lane))
  | 0x5a =>
    memarg ← read_memarg 2; lane ← read_lane_index 4;
    mret (visit (Op.V128Store32Lane memarg lane))
  | 0x5b =>
    memarg ← read_memarg 3; lane ← read_lane_index 2;
    mret (visit (Op.V128Store64Lane memarg lane))
  | 0x5c => memarg ← read_memarg 2; mret (visit (Op.V128Load32Zero memarg))
  | 0x5d => memarg ← read_memarg 3; mret (visit (Op.V128Load64Zero memarg))
  | 0x5e => mret (visit Op.F32x4DemoteF64x2Zero)
  | 0x5f => mret (visit Op.F64x2PromoteLowF32x4)
  | 0x60 => mret (visit Op.I8x16Abs)
  | 0x61 => mret (visit Op.I8x16Neg)
  | 0x62 => mret (visit Op.I8x16Popcnt)
  | 0x63 => mret (visit Op.I8x16AllTrue)
  | 0x64 => mret (visit Op.I8x16Bitmask)
  | 0x65 => mret (visit Op.I8x16NarrowI16x8S)
  | 0x66 => mret (visit Op.I8x16NarrowI16x8U)
  | 0x67 => mret (visit Op.F32x4Ceil)
  | 0x68 => mret (visit Op.F32x4Floor)
  | 0x69 => mret (visit Op.F32x4Trunc)
  | 0x6a => mret (visit Op.F32x4Nearest)
  | 0x6b => mret (visit Op.I8x16Shl)
  | 0x6c => mret (visit Op.I8x16ShrS)
  | 0x6d => mret (visit Op.I8x16ShrU)
  | 0x6e => mret (visit Op.I8x16Add)
  | 0x6f => mret (visit Op.I8x16AddSatS)
  | 0x70 => mret (visit Op.I8x16AddSatU)
  | 0x71 => mret (visit Op.I8x16Sub)
  | 0x72 => mret (visit Op.I8x16SubSatS)
  | 0x73 => mret (visit Op.I8x16SubSatU)
  | 0x74 => mret (visit Op.F64x2Ceil)
  | 0x75 => mret (visit Op.F64x2Floor)
  | 0x76 => mret (visit Op.I8x16MinS)
  | 0x77 => mret (visit Op.I8x16MinU)
  | 0x78 => mret (visit Op.I8x16MaxS)
  | 0x79 => mret (visit Op.I8x16MaxU)
  | 0x7a => mret (visit Op.F64x2Trunc)
  | 0x7b => mret (visit Op.I8x16AvgrU)
  | 0x7c => mret (visit Op.I16x8ExtAddPairwiseI8x16S)
  | 0x7d => mret (visit Op.I16x8ExtAddPairwiseI8x16U)
  | 0x7e => mret (visit Op.I32x4ExtAddPairwiseI16x8S)
  | 0x7f => mret (visit Op.I32x4ExtAddPairwiseI16x8U)
  | 0x80 => mret (visit Op.I16x8Abs)
  | 0x81 => mret (visit Op.I16x8Neg)
  | 0x82 => mret (visit Op.I16x8Q15MulrSatS)
  | 0x83 => mret (visit Op.I16x8AllTrue)
  | 0x84 => mret (visit Op.I16x8Bitmask)
  | 0x85 => mret (visit Op.I16x8NarrowI32x4S)
  | 0x86 => mret (visit Op.I16x8NarrowI32x4U)
  | 0x87 => mret (visit Op.I16x8ExtendLowI8x16S)
  | 0x88 => mret (visit Op.I16x8ExtendHighI8x16S)
  | 0x89 => mret (visit Op.I16x8ExtendLowI8x16U)
  | 0x8a => mret (visit Op.I16x8ExtendHighI8x16U)
  | 0x8b => mret (visit Op.I16x8Shl)
  | 0x8c => mret (visit Op.I16x8ShrS)
  | 0x8d => mret (visit Op.I16x8ShrU)
  | 0x8e => mret (visit Op.I16x8Add)
  | 0x8f => mret (visit Op.I16x8AddSatS)
  | 0x90 => mret (visit Op.I16x8AddSatU)
  | 0x91 => mret (visit Op.I16x8Sub)
  | 0x92 => mret (visit Op.I16x8SubSatS)
  | 0x93 => mret (visit Op.I16x8SubSatU)
  | 0x94 => mret (visit Op.F64x2Nearest)
  | 0x95 => mret (visit Op.I16x8Mul)
  | 0x96 => mret (visit Op.I16x8MinS)
  | 0x97 => mret (visit Op.I16x8MinU)
  | 0x98 => mret (visit Op.I16x8MaxS)
  | 0x99 => mret (visit Op.I16x8MaxU)
  | 0x9b => mret (visit Op.I16x8AvgrU)
  | 0x9c => mret (visit Op.I16x8ExtMulLowI8x16S)
  | 0x9d => mret (visit Op.I16x8ExtMulHighI8x16S)
  | 0x9e => mret (visit Op.I16x8ExtMulLowI8x16U)
  | 0x9f => mret (visit Op.I16x8ExtMulHighI8x16U)
  | 0xa0 => mret (visit Op.I32x4Abs)
  | 0xa1 => mret (visit Op.I32x4Neg)
  | 0xa3 => mret (visit Op.I32x4AllTrue)
  | 0xa4 => mret (visit Op.I32x4Bitmask)
  | 0xa7 => mret (visit Op.I32x4ExtendLowI16x8S)
  | 0xa8 => mret (visit Op.I32x4ExtendHighI16x8S)
  | 0xa9 => mret (visit Op.I32x4ExtendLowI16x8U)
  | 0xaa => mret (visit Op.I32x4ExtendHighI16x8U)
  | 0xab => mret (visit Op.I32x4Shl)
  | 0xac => mret (visit Op.I32x4ShrS)
  | 0xad => mret (visit Op.I32x4ShrU)
  | 0xae => mret (visit Op.I32x4Add)
  | 0xb1 => mret (visit Op.I32x4Sub)
  | 0xb5 => mret (visit Op.I32x4Mul)
  | 0xb6 => mret (visit Op.I32x4MinS)
  | 0xb7 => mret (visit Op.I32x4MinU)
  | 0xb8 => mret (visit Op.I32x4MaxS)
  | 0xb9 => mret (visit Op.I32x4MaxU)
  | 0xba => mret (visit Op.I32x4DotI16x8S)
  | 0xbc => mret (visit Op.I32x4ExtMulLowI16x8S)
  | 0xbd => mret (visit Op.I32x4ExtMulHighI16x8S)
  | 0xbe => mret (visit Op.I32x4ExtMulLowI16x8U)
  | 0xbf => mret (visit Op.I32x4ExtMulHighI16x8U)
  | 0xc0 => mret (visit Op.I64x2Abs)
  | 0xc1 => mret (visit Op.I64x2Neg)
  | 0xc3 => mret (visit Op.I64x2AllTrue)
  | 0xc4 => mret (visit Op.I64x2Bitmask)
  | 0xc7 => mret (visit Op.I64x2ExtendLowI32x4S)
  | 0xc8 => mret (visit Op.I64x2ExtendHighI32x4S)
  | 0xc9 => mret (visit Op.I64x2ExtendLowI32x4U)
  | 0xca => mret (visit Op.I64x2ExtendHighI32x4U)
  | 0xcb => mret (visit Op.I64x2Shl)
  | 0xcc => mret (visit Op.I64x2ShrS)
  | 0xcd => mret (visit Op.I64x2ShrU)
  | 0xce => mret (visit Op.I64x2Add)
  | 0xd1 => mret (visit Op.I64x2Sub)
  | 0xd5 => mret (visit Op.I64x2Mul)
  | 0xd6 => mret (visit Op.I64x2Eq)
  | 0xd7 => mret (visit Op.I64x2Ne)
  | 0xd8 => mret (visit Op.I64x2LtS)
  | 0xd9 => mret (visit Op.I64x2GtS)
  | 0xda => mret (visit Op.I64x2LeS)
  | 0xdb => mret (visit Op.I64x2GeS)
  | 0xdc => mret (visit Op.I64x2ExtMulLowI32x4S)
  | 0xdd => mret (visit Op.I64x2ExtMulHighI32x4S)
  | 0xde => mret (visit Op.I64x2ExtMulLowI32x4U)
  | 0xdf => mret (visit Op.I64x2ExtMulHighI32x4U)
  | 0xe0 => mret (visit Op.F32x4Abs)
  | 0xe1 => mret (visit Op.F32x4Neg)
  | 0xe3 => mret (visit Op.F32x4Sqrt)
  | 0xe4 => mret (visit Op.F32x4Add)
  | 0xe5 => mret (visit Op.F32x4Sub)
  | 0xe6 => mret (visit Op.F32x4Mul)
  | 0xe7 => mret (visit Op.F32x4Div)
  | 0xe8 => mret (visit Op.F32x4Min)
  | 0xe9 => mret (visit Op.F32x4Max)
  | 0xea => mret (visit Op.F32x4PMin)
  | 0xeb => mret (visit Op.F32x4PMax)
  | 0xec => mret (visit Op.F64x2Abs)
  | 0xed => mret (visit Op.F64x2Neg)
  | 0xef => mret (visit Op.F64x2Sqrt)
  | 0xf0 => mret (visit Op.F64x2Add)
  | 0xf1 => mret (visit Op.F64x2Sub)
  | 0xf2 => mret (visit Op.F64x2Mul)
  | 0xf3 => mret (visit Op.F64x2Div)
  | 0xf4 => mret (visit Op.F64x2Min)
  | 0xf5 => mret (visit Op.F64x2Max)
  | 0xf6 => mret (visit Op.F64x2PMin)
  | 0xf7 => mret (visit Op.F64x2PMax)
  | 0xf8 => mret (visit Op.I32x4TruncSatF32x4S)
  | 0xf9 => mret (visit Op.I32x4TruncSatF32x4U)
  | 0xfa => mret (visit Op.F32x4ConvertI32x4S)
  | 0xfb => mret (visit Op.F32x4ConvertI32x4U)
  | 0xfc => mret (visit Op.I32x4TruncSatF64x2SZero)
  | 0xfd => mret (visit Op.I32x4TruncSatF64x2UZero)
  | 0xfe => mret (visit Op.F64x2ConvertLowI32x4S)
  | 0xff => mret (visit Op.F64x2ConvertLowI32x4U)
  | 0x100 => mret (visit Op.I8x16RelaxedSwizzle)
  | 0x101 => mret (visit Op.I32x4RelaxedTruncF32x4S)
  | 0x102 => mret (visit Op.I32x4RelaxedTruncF32x4U)
  | 0x103 => mret (visit Op.I32x4RelaxedTruncF64x2SZero)
  | 0x104 => mret (visit Op.I32x4RelaxedTruncF64x2UZero)
  | 0x105 => mret (visit Op.F32x4RelaxedMadd)
  | 0x106 => mret (visit Op.F32x4RelaxedNmadd)
  | 0x107 => mret (visit Op.F64x2RelaxedMadd)
  | 0x108 => mret (visit Op.F64x2RelaxedNmadd)
  | 0x109 => mret (visit Op.I8x16RelaxedLaneselect)
  | 0x10a => mret (visit Op.I16x8RelaxedLaneselect)
  | 0x10b => mret (visit Op.I32x4RelaxedLaneselect)
  | 0x10c => mret (visit Op.I64x2RelaxedLaneselect)
  | 0x10d => mret (visit Op.F32x4RelaxedMin)
  | 0x10e => mret (visit Op.F32x4RelaxedMax)
  | 0x10f => mret (visit Op.F64x2RelaxedMin)
  | 0x110 => mret (visit Op.F64x2RelaxedMax)
  | 0x111 => mret (visit Op.I16x8RelaxedQ15mulrS)
  | 0x112 => mret (visit Op.I16x8RelaxedDotI8x16I7x16S)
  | 0x113 => mret (visit Op.I32x4RelaxedDotI8x16I7x16AddS)
  | _ => fail (err_new (mkMsg "unknown 0xfd subopcode: 0x{code:x}" [code]) pos)
  end.

Definition visit_0xfe_operator (pos : Z) : Reader A :=
  code ← read_var_u32;
  match code with
  | 0x00 => memarg ← read_memarg 2; mret (visit (Op.MemoryAtomicNotify memarg))
  | 0x01 => memarg ← read_memarg 2; mret (visit (Op.MemoryAtomicWait32 memarg))
  | 0x02 => memarg ← read_memarg 3; mret (visit (Op.MemoryAtomicWait64 memarg))
  | 0x03 =>
    b ← read_u8;
    if negb (b =? 0) then
      fail (err_new (lit "nonzero byte after `atomic.fence`") pos)
    else mret (visit Op.AtomicFence)
  | 0x10 => memarg ← read_memarg 2; mret (visit (Op.I32AtomicLoad memarg))
  | 0x11 => memarg ← read_memarg 3; mret (visit (Op.I64AtomicLoad memarg))
  | 0x12 => memarg ← read_memarg 0; mret (visit (Op.I32AtomicLoad8U memarg))
  | 0x13 => memarg ← read_memarg 1; mret (visit (Op.I32AtomicLoad16U memarg))
  | 0x14 => memarg ← read_memarg 0; mret (visit (Op.I64AtomicLoad8U memarg))
  | 0x15 => memarg ← read_memarg 1; mret (visit (Op.I64AtomicLoad16U memarg))
  | 0x16 => memarg ← read_memarg 2; mret (visit (Op.I64AtomicLoad32U memarg))
  | 0x17 => memarg ← read_memarg 2; mret (visit (Op.I32AtomicStore memarg))
  | 0x18 => memarg ← read_memarg 3; mret (visit (Op.I64AtomicStore memarg))
  | 0x19 => memarg ← read_memarg 0; mret (visit (Op.I32AtomicStore8 memarg))
  | 0x1a => memarg ← read_memarg 1; mret (visit (Op.I32AtomicStore16 memarg))
  | 0x1b => memarg ← read_memarg 0; mret (visit (Op.I64AtomicStore8 memarg))
  | 0x1c => memarg ← read_memarg 1; mret (visit (Op.I64AtomicStore16 memarg))
  | 0x1d => memarg ← read_memarg 2; mret (visit (Op.I64AtomicStore32 memarg))
  | 0x1e => memarg ← read_memarg 2; mret (visit (Op.I32AtomicRmwAdd memarg))
  | 0x1f => memarg ← read_memarg 3; mret (visit (Op.I64AtomicRmwAdd memarg))
  | 0x20 => memarg ← read_memarg 0; mret (visit (Op.I32AtomicRmw8AddU memarg))
  | 0x21 => memarg ← read_memarg 1; mret (visit (Op.I32AtomicRmw16AddU memarg))
  | 0x22 => memarg ← read_memarg 0; mret (visit (Op.I64AtomicRmw8AddU memarg))
  | 0x23 => memarg ← read_memarg 1; mret (visit (Op.I64AtomicRmw16AddU memarg))
  | 0x24 => memarg ← read_memarg 2; mret (visit (Op.I64AtomicRmw32AddU memarg))
  | 0x25 => memarg ← read_memarg 2; mret (visit (Op.I32AtomicRmwSub memarg))
  | 0x26 => memarg ← read_memarg 3; mret (visit (Op.I64AtomicRmwSub memarg))
  | 0x27 => memarg ← read_memarg 0; mret (visit (Op.I32AtomicRmw8SubU memarg))
  | 0x28 => memarg ← read_memarg 1; mret (visit (Op.I32AtomicRmw16SubU memarg))
  | 0x29 => memarg ← read_memarg 0; mret (visit (Op.I64AtomicRmw8SubU memarg))
  | 0x2a => memarg ← read_memarg 1; mret (visit (Op.I64AtomicRmw16SubU memarg))
  | 0x2b => memarg ← read_memarg 2; mret (visit (Op.I64AtomicRmw32SubU memarg))
  | 0x2c => memarg ← read_memarg 2; mret (visit (Op.I32AtomicRmwAnd memarg))
  | 0x2d => memarg ← read_memarg 3; mret (visit (Op.I64AtomicRmwAnd memarg))
  | 0x2e => memarg ← read_memarg 0; mret (visit (Op.I32AtomicRmw8AndU memarg))
  | 0x2f => memarg ← read_memarg 1; mret (visit (Op.I32AtomicRmw16AndU memarg))
  | 0x30 => memarg ← read_memarg 0; mret (visit (Op.I64AtomicRmw8AndU memarg))
  | 0x31 => memarg ← read_memarg 1; mret (visit (Op.I64AtomicRmw16AndU memarg))
  | 0x32 => memarg ← read_memarg 2; mret (visit (Op.I64AtomicRmw32AndU memarg))
  | 0x33 => memarg ← read_memarg 2; mret (visit (Op.I32AtomicRmwOr memarg))
  | 0x34 => memarg ← read_memarg 3; mret (visit (Op.I64AtomicRmwOr memarg))
  | 0x35 => memarg ← read_memarg 0; mret (visit (Op.I32AtomicRmw8OrU memarg))
  | 0x36 => memarg ← read_memarg 1; mret (visit (Op.I32AtomicRmw16OrU memarg))
  | 0x37 => memarg ← read_memarg 0; mret (visit (Op.I64AtomicRmw8OrU memarg))
  | 0x38 => memarg ← read_memarg 1; mret (visit (Op.I64AtomicRmw16OrU memarg))
  | 0x39 => memarg ← read_memarg 2; mret (visit (Op.I64AtomicRmw32OrU memarg))
  | 0x3a => memarg ← read_memarg 2; mret (visit (Op.I32AtomicRmwXor memarg))
  | 0x3b => memarg ← read_memarg 3; mret (visit (Op.I64AtomicRmwXor memarg))
  | 0x3c => memarg ← read_memarg 0; mret (visit (Op.I32AtomicRmw8XorU memarg))
  | 0x3d => memarg ← read_memarg 1; mret (visit (Op.I32AtomicRmw16XorU memarg))
  | 0x3e => memarg ← read_memarg 0; mret (visit (Op.I64AtomicRmw8XorU memarg))
  | 0x3f => memarg ← read_memarg 1; mret (visit (Op.I64AtomicRmw16XorU memarg))
  | 0x40 => memarg ← read_memarg 2; mret (visit (Op.I64AtomicRmw32XorU memarg))
  | 0x41 => memarg ← read_memarg 2; mret (visit (Op.I32AtomicRmwXchg memarg))
  | 0x42 => memarg ← read_memarg 3; mret (visit (Op.I64AtomicRmwXchg memarg))
  | 0x43 => memarg ← read_memarg 0; mret (visit (Op.I32AtomicRmw8XchgU memarg))
  | 0x44 => memarg ← read_memarg 1; mret (visit (Op.I32AtomicRmw16XchgU memarg))
  | 0x45 => memarg ← read_memarg 0; mret (visit (Op.I64AtomicRmw8XchgU memarg))
  | 0x46 => memarg ← read_memarg 1; mret (visit (Op.I64AtomicRmw16XchgU memarg))
  | 0x47 => memarg ← read_memarg 2; mret (visit (Op.I64AtomicRmw32XchgU memarg))
  | 0x48 => memarg ← read_memarg 2; mret (visit (Op.I32AtomicRmwCmpxchg memarg))
  | 0x49 => memarg ← read_memarg 3; mret (visit (Op.I64AtomicRmwCmpxchg memarg))
  | 0x4a => memarg ← read_memarg 0; mret (visit (Op.I32AtomicRmw8CmpxchgU memarg))
  | 0x4b => memarg ← read_memarg 1; mret (visit (Op.I32AtomicRmw16CmpxchgU memarg))
  | 0x4c => memarg ← read_memarg 0; mret (visit (Op.I64AtomicRmw8CmpxchgU memarg))
  | 0x4d => memarg ← read_memarg 1; mret (visit (Op.I64AtomicRmw16CmpxchgU memarg))
  | 0x4e => memarg ← read_memarg 2; mret (visit (Op.I64AtomicRmw32CmpxchgU memarg))
  | 0x4f =>
    ordering ← read_ordering; global_index ← read_var_u32;
    mret (visit (Op.GlobalAtomicGet ordering global_index))
  | 0x50 =>
    ordering ← read_ordering; global_index ← read_var_u32;
    mret (visit (Op.GlobalAtomicSet ordering global_index))
  | 0x51 =>
    ordering ← read_ordering; global_index ← read_var_u32;
    mret (visit (Op.GlobalAtomicRmwAdd ordering global_index))
  | 0x52 =>
    ordering ← read_ordering; global_index ← read_var_u32;
    mret (visit (Op.GlobalAtomicRmwSub ordering global_index))
  | 0x53 =>
    ordering ← read_ordering; global_index ← read_var_u32;
    mret (visit (Op.GlobalAtomicRmwAnd ordering global_index))
  | 0x54 =>
    ordering ← read_ordering; global_index ← read_var_u32;
    mret (visit (Op.GlobalAtomicRmwOr ordering global_index))
  | 0x55 =>
    ordering ← read_ordering; global_index ← read_var_u32;
    mret (visit (Op.GlobalAtomicRmwXor ordering global_index))
  | 0x56 =>
    ordering ← read_ordering; global_index ← read_var_u32;
    mret (visit (Op.GlobalAtomicRmwXchg ordering global_index))
  | 0x57 =>
    ordering ← read_ordering; global_index ← read_var_u32;
    mret (visit (Op.GlobalAtomicRmwCmpxchg ordering global_index))
  | 0x58 =>
    ordering ← read_ordering; table_index ← read_var_u32;
    mret (visit (Op.TableAtomicGet ordering table_index))
  | 0x59 =>
    ordering ← read_ordering; table_index ← read_var_u32;
    mret (visit (Op.TableAtomicSet ordering table_index))
  | 0x5a =>
    ordering ← read_ordering; table_index ← read_var_u32;
    mret (visit (Op.TableAtomicRmwXchg ordering table_index))
  | 0x5b =>
    ordering ← read_ordering; table_index ← read_var_u32;
    mret (visit (Op.TableAtomicRmwCmpxchg ordering table_index))
  | 0x5c =>
    ordering ← read_ordering;
    struct_type_index ← read_var_u32;
    field_index ← read_var_u32;
    mret (visit (Op.StructAtomicGet ordering struct_type_index field_index))
  | 0x5d =>
    ordering ← read_ordering;
    struct_type_index ← read_var_u32;
    field_index ← read_var_u32;
    mret (visit (Op.StructAtomicGetS ordering struct_type_index field_index))
  | 0x5e =>
    ordering ← read_ordering;
    struct_type_index ← read_var_u32;
    field_index ← read_var_u32;
    mret (visit (Op.StructAtomicGetU ordering struct_type_index field_index))
  | 0x5f =>
    ordering ← read_ordering;
    struct_type_index ← read_var_u32;
    field_index ← read_var_u32;
    mret (visit (Op.StructAtomicSet ordering struct_type_index field_index))
  | 0x60 =>
    ordering ← read_ordering;
    struct_type_index ← read_var_u32;
    field_index ← read_var_u32;
    mret (visit (Op.StructAtomicRmwAdd ordering struct_type_index field_index))
  | 0x61 =>
    ordering ← read_ordering;
    struct_type_index ← read_var_u32;
    field_index ← read_var_u32;
    mret (visit (Op.StructAtomicRmwSub ordering struct_type_index field_index))
  | 0x62 =>
    ordering ← read_ordering;
    struct_type_index ← read_var_u32;
    field_index ← read_var_u32;
    mret (visit (Op.StructAtomicRmwAnd ordering struct_type_index field_index))
  | 0x63 =>
    ordering ← read_ordering;
    struct_type_index ← read_var_u32;
    field_index ← read_var_u32;
    mret (visit (Op.StructAtomicRmwOr ordering struct_type_index field_index))
  | 0x64 =>
    ordering ← read_ordering;
    struct_type_index ← read_var_u32;
    field_index ← read_var_u32;
    mret (visit (Op.StructAtomicRmwXor ordering struct_type_index field_index))
  | 0x65 =>
    ordering ← read_ordering;
    struct_type_index ← read_var_u32;
    field_index ← read_var_u32;
    mret (visit (Op.StructAtomicRmwXchg ordering struct_type_index field_index))
  | 0x66 =>
    ordering ← read_ordering;
    struct_type_index ← read_var_u32;
    field_index ← read_var_u32;
    mret (visit (Op.StructAtomicRmwCmpxchg ordering struct_type_index field_index))
  | 0x67 =>
    ordering ← read_ordering; array_type_index ← read_var_u32;
    mret (visit (Op.ArrayAtomicGet ordering array_type_index))
  | 0x68 =>
    ordering ← read_ordering; array_type_index ← read_var_u32;
    mret (visit (Op.ArrayAtomicGetS ordering array_type_index))
  | 0x69 =>
    ordering ← read_ordering; array_type_index ← read_var_u32;
    mret (visit (Op.ArrayAtomicGetU ordering array_type_index))
  | 0x6a =>
    ordering ← read_ordering; array_type_index ← read_var_u32;
    mret (visit (Op.ArrayAtomicSet ordering array_type_index))
  | 0x6b =>
    ordering ← read_ordering; array_type_index ← read_var_u32;
    mret (visit (Op.ArrayAtomicRmwAdd ordering array_type_index))
  | 0x6c =>
    ordering ← read_ordering; array_type_index ← read_var_u32;
    mret (visit (Op.ArrayAtomicRmwSub ordering array_type_index))
  | 0x6d =>
    ordering ← read_ordering; array_type_index ← read_var_u32;
    mret (visit (Op.ArrayAtomicRmwAnd ordering array_type_index))
  | 0x6e =>
    ordering ← read_ordering; array_type_index ← read_var_u32;
    mret (visit (Op.ArrayAtomicRmwOr ordering array_type_index))
  | 0x6f =>
    ordering ← read_ordering; array_type_index ← read_var_u32;
    mret (visit (Op.ArrayAtomicRmwXor ordering array_type_index))
  | 0x70 =>
    ordering ← read_ordering; array_type_index ← read_var_u32;
    mret (visit (Op.ArrayAtomicRmwXchg ordering array_type_index))
  | 0x71 =>
    ordering ← read_ordering; array_type_index ← read_var_u32;
    mret (visit (Op.ArrayAtomicRmwCmpxchg ordering array_type_index))
  | 0x72 => mret (visit Op.RefI31Shared)
  | _ => fail (err_new (mkMsg "unknown 0xfe subopcode: 0x{code:x}" [code]) pos)
  end.

Definition visit_operator : Reader A :=
  pos ← gets original_position;
  code ← read_u8;
  match code with
  | 0x00 => mret (visit Op.Unreachable)
  | 0x01 => mret (visit Op.Nop)
  | 0x02 => blockty ← read_block_type; mret (visit (Op.Block blockty))
  | 0x03 => blockty ← read_block_type; mret (visit (Op.Loop blockty))
  | 0x04 => blockty ← read_block_type; mret (visit (Op.If blockty))
  | 0x05 => mret (visit Op.Else)
  | 0x06 => blockty ← read_block_type; mret (visit (Op.Try blockty))
  | 0x07 => tag_index ← read_var_u32; mret (visit (Op.Catch tag_index))
  | 0x08 => tag_index ← read_var_u32; mret (visit (Op.Throw tag_index))
  | 0x09 => relative_depth ← read_var_u32; mret (visit (Op.Rethrow relative_depth))
  | 0x0a => mret (visit Op.ThrowRef)
  | 0x0b => mret (visit Op.End)
  | 0x0c => relative_depth ← read_var_u32; mret (visit (Op.Br relative_depth))
  | 0x0d => relative_depth ← read_var_u32; mret (visit (Op.BrIf relative_depth))
  | 0x0e => targets ← read_br_table; mret (visit (Op.BrTable targets))
  | 0x0f => mret (visit Op.Return)
  | 0x10 => function_index ← read_var_u32; mret (visit (Op.Call function_index))
  | 0x11 =>
    index ← read_var_u32; table ← read_table_index_or_zero_if_not_reference_types;
    mret (visit (Op.CallIndirect index table))
  | 0x12 => function_index ← read_var_u32; mret (visit (Op.ReturnCall function_index))
  | 0x13 =>
    type_index ← read_var_u32; table_index ← read_var_u32;
    mret (visit (Op.ReturnCallIndirect type_index table_index))
  | 0x14 => type_index ← read_var_u32; mret (visit (Op.CallRef type_index))
  | 0x15 => type_index ← read_var_u32; mret (visit (Op.ReturnCallRef type_index))
  | 0x18 => relative_depth ← read_var_u32; mret (visit (Op.Delegate relative_depth))
  | 0x19 => mret (visit Op.CatchAll)
  | 0x1a => mret (visit Op.Drop)
  | 0x1b => mret (visit Op.Select)
  | 0x1c =>
    results ← read_var_u32;
    if negb (results =? 1) then
      pos ← gets position;
      fail (err_new (lit "invalid result arity") pos)
    else
      ty ← from_reader_val_type;
      mret (visit (Op.TypedSelect ty))
  | 0x1f => try_table ← from_reader_try_table; mret (visit (Op.TryTable try_table))
  | 0x20 => local_index ← read_var_u32; mret (visit (Op.LocalGet local_index))
  | 0x21 => local_index ← read_var_u32; mret (visit (Op.LocalSet local_index))
  | 0x22 => local_index ← read_var_u32; mret (visit (Op.LocalTee local_index))
  | 0x23 => global_index ← read_var_u32; mret (visit (Op.GlobalGet global_index))
  | 0x24 => global_index ← read_var_u32; mret (visit (Op.GlobalSet global_index))
  | 0x25 => table ← read_var_u32; mret (visit (Op.TableGet table))
  | 0x26 => table ← read_var_u32; mret (visit (Op.TableSet table))
  | 0x28 => memarg ← read_memarg 2; mret (visit (Op.I32Load memarg))
  | 0x29 => memarg ← read_memarg 3; mret (visit (Op.I64Load memarg))
  | 0x2a => memarg ← read_memarg 2; mret (visit (Op.F32Load memarg))
  | 0x2b => memarg ← read_memarg 3; mret (visit (Op.F64Load memarg))
  | 0x2c => memarg ← read_memarg 0; mret (visit (Op.I32Load8S memarg))
  | 0x2d => memarg ← read_memarg 0; mret (visit (Op.I32Load8U memarg))
  | 0x2e => memarg ← read_memarg 1; mret (visit (Op.I32Load16S memarg))
  | 0x2f => memarg ← read_memarg 1; mret (visit (Op.I32Load16U memarg))
  | 0x30 => memarg ← read_memarg 0; mret (visit (Op.I64Load8S memarg))
  | 0x31 => memarg ← read_memarg 0; mret (visit (Op.I64Load8U memarg))
  | 0x32 => memarg ← read_memarg 1; mret (visit (Op.I64Load16S memarg))
  | 0x33 => memarg ← read_memarg 1; mret (visit (Op.I64Load16U memarg))
  | 0x34 => memarg ← read_memarg 2; mret (visit (Op.I64Load32S memarg))
  | 0x35 => memarg ← read_memarg 2; mret (visit (Op.I64Load32U memarg))
  | 0x36 => memarg ← read_memarg 2; mret (visit (Op.I32Store memarg))
  | 0x37 => memarg ← read_memarg 3; mret (visit (Op.I64Store memarg))
  | 0x38 => memarg ← read_memarg 2; mret (visit (Op.F32Store memarg))
  | 0x39 => memarg ← read_memarg 3; mret (visit (Op.F64Store memarg))
  | 0x3a => memarg ← read_memarg 0; mret (visit (Op.I32Store8 memarg))
  | 0x3b => memarg ← read_memarg 1; mret (visit (Op.I32Store16 memarg))
  | 0x3c => memarg ← read_memarg 0; mret (visit (Op.I64Store8 memarg))
  | 0x3d => memarg ← read_memarg 1; mret (visit (Op.I64Store16 memarg))
  | 0x3e => memarg ← read_memarg 2; mret (visit (Op.I64Store32 memarg))
  | 0x3f =>
    mem ← read_memory_index_or_zero_if_not_multi_memory;
    mret (visit (Op.MemorySize mem))
  | 0x40 =>
    mem ← read_memory_index_or_zero_if_not_multi_memory;
    mret (visit (Op.MemoryGrow mem))
  | 0x41 => value ← read_var_i32; mret (visit (Op.I32Const value))
  | 0x42 => value ← read_var_i64; mret (visit (Op.I64Const value))
  | 0x43 => value ← read_f32; mret (visit (Op.F32Const value))
  | 0x44 => value ← read_f64; mret (visit (Op.F64Const value))
  | 0x45 => mret (visit Op.I32Eqz)
  | 0x46 => mret (visit Op.I32Eq)
  | 0x47 => mret (visit Op.I32Ne)
  | 0x48 => mret (visit Op.I32LtS)
  | 0x49 => mret (visit Op.I32LtU)
  | 0x4a => mret (visit Op.I32GtS)
  | 0x4b => mret (visit Op.I32GtU)
  | 0x4c => mret (visit Op.I32LeS)
  | 0x4d => mret (visit Op.I32LeU)
  | 0x4e => mret (visit Op.I32GeS)
  | 0x4f => mret (visit Op.I32GeU)
  | 0x50 => mret (visit Op.I64Eqz)
  | 0x51 => mret (visit Op.I64Eq)
  | 0x52 => mret (visit Op.I64Ne)
  | 0x53 => mret (visit Op.I64LtS)
  | 0x54 => mret (visit Op.I64LtU)
  | 0x55 => mret (visit Op.I64GtS)
  | 0x56 => mret (visit Op.I64GtU)
  | 0x57 => mret (visit Op.I64LeS)
  | 0x58 => mret (visit Op.I64LeU)
  | 0x59 => mret (visit Op.I64GeS)
  | 0x5a => mret (visit Op.I64GeU)
  | 0x5b => mret (visit Op.F32Eq)
  | 0x5c => mret (visit Op.F32Ne)
  | 0x5d => mret (visit Op.F32Lt)
  | 0x5e => mret (visit Op.F32Gt)
  | 0x5f => mret (visit Op.F32Le)
  | 0x60 => mret (visit Op.F32Ge)
  | 0x61 => mret (visit Op.F64Eq)
  | 0x62 => mret (visit Op.F64Ne)
  | 0x63 => mret (visit Op.F64Lt)
  | 0x64 => mret (visit Op.F64Gt)
  | 0x65 => mret (visit Op.F64Le)
  | 0x66 => mret (visit Op.F64Ge)
  | 0x67 => mret (visit Op.I32Clz)
  | 0x68 => mret (visit Op.I32Ctz)
  | 0x69 => mret (visit Op.I32Popcnt)
  | 0x6a => mret (visit Op.I32Add)
  | 0x6b => mret (visit Op.I32Sub)
  | 0x6c => mret (visit Op.I32Mul)
  | 0x6d => mret (visit Op.I32DivS)
  | 0x6e => mret (visit Op.I32DivU)
  | 0x6f => mret (visit Op.I32RemS)
  | 0x70 => mret (visit Op.I32RemU)
  | 0x71 => mret (visit Op.I32And)
  | 0x72 => mret (visit Op.I32Or)
  | 0x73 => mret (visit Op.I32Xor)
  | 0x74 => mret (visit Op.I32Shl)
  | 0x75 => mret (visit Op.I32ShrS)
  | 0x76 => mret (visit Op.I32ShrU)
  | 0x77 => mret (visit Op.I32Rotl)
  | 0x78 => mret (visit Op.I32Rotr)
  | 0x79 => mret (visit Op.I64Clz)
  | 0x7a => mret (visit Op.I64Ctz)
  | 0x7b => mret (visit Op.I64Popcnt)
  | 0x7c => mret (visit Op.I64Add)
  | 0x7d => mret (visit Op.I64Sub)
  | 0x7e => mret (visit Op.I64Mul)
  | 0x7f => mret (visit Op.I64DivS)
  | 0x80 => mret (visit Op.I64DivU)
  | 0x81 => mret (visit Op.I64RemS)
  | 0x82 => mret (visit Op.I64RemU)
  | 0x83 => mret (visit Op.I64And)
  | 0x84 => mret (visit Op.I64Or)
  | 0x85 => mret (visit Op.I64Xor)
  | 0x86 => mret (visit Op.I64Shl)
  | 0x87 => mret (visit Op.I64ShrS)
  | 0x88 => mret (visit Op.I64ShrU)
  | 0x89 => mret (visit Op.I64Rotl)
  | 0x8a => mret (visit Op.I64Rotr)
  | 0x8b => mret (visit Op.F32Abs)
  | 0x8c => mret (visit Op.F32Neg)
  | 0x8d => mret (visit Op.F32Ceil)
  | 0x8e => mret (visit Op.F32Floor)
  | 0x8f => mret (visit Op.F32Trunc)
  | 0x90 => mret (visit Op.F32Nearest)
  | 0x91 => mret (visit Op.F32Sqrt)
  | 0x92 => mret (visit Op.F32Add)
  | 0x93 => mret (visit Op.F32Sub)
  | 0x94 => mret (visit Op.F32Mul)
  | 0x95 => mret (visit Op.F32Div)
  | 0x96 => mret (visit Op.F32Min)
  | 0x97 => mret (visit Op.F32Max)
  | 0x98 => mret (visit Op.F32Copysign)
  | 0x99 => mret (visit Op.F64Abs)
  | 0x9a => mret (visit Op.F64Neg)
  | 0x9b => mret (visit Op.F64Ceil)
  | 0x9c => mret (visit Op.F64Floor)
  | 0x9d => mret (visit Op.F64Trunc)
  | 0x9e => mret (visit Op.F64Nearest)
  | 0x9f => mret (visit Op.F64Sqrt)
  | 0xa0 => mret (visit Op.F64Add)
  | 0xa1 => mret (visit Op.F64Sub)
  | 0xa2 => mret (visit Op.F64Mul)
  | 0xa3 => mret (visit Op.F64Div)
  | 0xa4 => mret (visit Op.F64Min)
  | 0xa5 => mret (visit Op.F64Max)
  | 0xa6 => mret (visit Op.F64Copysign)
  | 0xa7 => mret (visit Op.I32WrapI64)
  | 0xa8 => mret (visit Op.I32TruncF32S)
  | 0xa9 => mret (visit Op.I32TruncF32U)
  | 0xaa => mret (visit Op.I32TruncF64S)
  | 0xab => mret (visit Op.I32TruncF64U)
  | 0xac => mret (visit Op.I64ExtendI32S)
  | 0xad => mret (visit Op.I64ExtendI32U)
  | 0xae => mret (visit Op.I64TruncF32S)
  | 0xaf => mret (visit Op.I64TruncF32U)
  | 0xb0 => mret (visit Op.I64TruncF64S)
  | 0xb1 => mret (visit Op.I64TruncF64U)
  | 0xb2 => mret (visit Op.F32ConvertI32S)
  | 0xb3 => mret (visit Op.F32ConvertI32U)
  | 0xb4 => mret (visit Op.F32ConvertI64S)
  | 0xb5 => mret (visit Op.F32ConvertI64U)
  | 0xb6 => mret (visit Op.F32DemoteF64)
  | 0xb7 => mret (visit Op.F64ConvertI32S)
  | 0xb8 => mret (visit Op.F64ConvertI32U)
  | 0xb9 => mret (visit Op.F64ConvertI64S)
  | 0xba => mret (visit Op.F64ConvertI64U)
  | 0xbb => mret (visit Op.F64PromoteF32)
  | 0xbc => mret (visit Op.I32ReinterpretF32)
  | 0xbd => mret (visit Op.I64ReinterpretF64)
  | 0xbe => mret (visit Op.F32ReinterpretI32)
  | 0xbf => mret (visit Op.F64ReinterpretI64)
  | 0xc0 => mret (visit Op.I32Extend8S)
  | 0xc1 => mret (visit Op.I32Extend16S)
  | 0xc2 => mret (visit Op.I64Extend8S)
  | 0xc3 => mret (visit Op.I64Extend16S)
  | 0xc4 => mret (visit Op.I64Extend32S)
  | 0xd0 => hty ← from_reader_heap_type; mret (visit (Op.RefNull hty))
  | 0xd1 => mret (visit Op.RefIsNull)
  | 0xd2 => function_index ← read_var_u32; mret (visit (Op.RefFunc function_index))
  | 0xd3 => mret (visit Op.RefEq)
  | 0xd4 => mret (visit Op.RefAsNonNull)
  | 0xd5 => relative_depth ← read_var_u32; mret (visit (Op.BrOnNull relative_depth))
  | 0xd6 => relative_depth ← read_var_u32; mret (visit (Op.BrOnNonNull relative_depth))
  | 0xe0 => cont_type_index ← read_var_u32; mret (visit (Op.ContNew cont_type_index))
  | 0xe1 =>
    argument_index ← read_var_u32; result_index ← read_var_u32;
    mret (visit (Op.ContBind argument_index result_index))
  | 0xe2 => tag_index ← read_var_u32; mret (visit (Op.Suspend tag_index))
  | 0xe3 =>
    cont_type_index ← read_var_u32; resume_table ← from_reader_resume_table;
    mret (visit (Op.Resume cont_type_index resume_table))
  | 0xe4 =>
    cont_type_index ← read_var_u32;
    tag_index ← read_var_u32;
    resume_table ← from_reader_resume_table;
    mret (visit (Op.ResumeThrow cont_type_index tag_index resume_table))
  | 0xe5 =>
    cont_type_index ← read_var_u32; tag_index ← read_var_u32;
    mret (visit (Op.Switch cont_type_index tag_index))
  | 0xfb => visit_0xfb_operator pos
  | 0xfc => visit_0xfc_operator pos
  | 0xfd =>
    if simd_visitor then visit_0xfd_operator pos
    else fail (err_new (mkMsg "unexpected SIMD opcode: 0x{code:x}" [code]) pos)
  | 0xfe => visit_0xfe_operator pos
  | _ => fail (err_new (mkMsg "illegal opcode: 0x{code:x}" [code]) pos)
  end.

End visit.

(** The [OperatorFactory] builds the operator itself, and visits SIMD. *)
Definition read_operator : Reader Op.Operator := visit_operator true id.

(** [skip_const_expr]: operators up to an [end].  Each operator consumes at
    least one byte, so [fuel] above the number of remaining bytes suffices. *)
Fixpoint skip_const_expr_loop (fuel : nat) : Reader () :=
  match fuel with
  | O => panic
  | S fuel' =>
      op ← read_operator;
      match op with
      | Op.Mvp Op.End => mret tt
      | _ => skip_const_expr_loop fuel'
      end
  end.

Definition skip_const_expr : Reader () := fun r =>
  skip_const_expr_loop (S (length (remaining_buffer r))) r.
