(* ===== verification/Instructions.v ===== *)
(** Instructions of wasm-encoder and their encoding: [Instruction] and its
    [Encode] implementation, [crates/wasm-encoder/src/core/code.rs].

    The enum and the encoder are grouped by the comments of the encoder, and the
    larger groups are divided further; [Instruction] is the sum of the groups.
    Instructions live in the module [Instr].  A float is its bit pattern, an
    [i128] a [Z]. *)

From Stdlib Require Import ZArith.
From stdpp Require Import prelude.
From S2P Require Import Prelude Leb128 Encode EncTypes.

Local Open Scope Z_scope.

Module Instr.

(** Control instructions. *)
Inductive control_instr :=
| Unreachable
| Nop
| Block (bt : WE.BlockType)
| Loop (bt : WE.BlockType)
| If (bt : WE.BlockType)
| Else
| End
| Br (l : Z)
| BrIf (l : Z)
| BrTable (ls : list Z) (l : Z)
| BrOnNull (l : Z)
| BrOnNonNull (l : Z)
| Return
| Call (f : Z)
| CallRef (ty : Z)
| CallIndirect (type_index : Z) (table_index : Z)
| ReturnCallRef (ty : Z)
| ReturnCall (f : Z)
| ReturnCallIndirect (type_index : Z) (table_index : Z)
| Throw (t : Z)
| ThrowRef
| Try (bt : WE.BlockType)
| Delegate (l : Z)
| Catch (t : Z)
| CatchAll
| Rethrow (l : Z).

(** Parametric instructions, and [try_table]. *)
Inductive parametric_instr :=
| TryTable (ty : WE.BlockType) (catches : list WE.Catch)
| Drop
| Select
| TypedSelect (ty : WE.ValType).

(** Variable instructions, and [table.get] and [table.set]. *)
Inductive variable_instr :=
| LocalGet (l : Z)
| LocalSet (l : Z)
| LocalTee (l : Z)
| GlobalGet (g : Z)
| GlobalSet (g : Z)
| TableSet (table : Z)
| TableGet (table : Z).

(** Memory instructions. *)
Inductive memory_instr :=
| I32Load (m : WE.MemArg)
| I64Load (m : WE.MemArg)
| F32Load (m : WE.MemArg)
| F64Load (m : WE.MemArg)
| I32Load8S (m : WE.MemArg)
| I32Load8U (m : WE.MemArg)
| I32Load16S (m : WE.MemArg)
| I32Load16U (m : WE.MemArg)
| I64Load8S (m : WE.MemArg)
| I64Load8U (m : WE.MemArg)
| I64Load16S (m : WE.MemArg)
| I64Load16U (m : WE.MemArg)
| I64Load32S (m : WE.MemArg)
| I64Load32U (m : WE.MemArg)
| I32Store (m : WE.MemArg)
| I64Store (m : WE.MemArg)
| F32Store (m : WE.MemArg)
| F64Store (m : WE.MemArg)
| I32Store8 (m : WE.MemArg)
| I32Store16 (m : WE.MemArg)
| I64Store8 (m : WE.MemArg)
| I64Store16 (m : WE.MemArg)
| I64Store32 (m : WE.MemArg)
| MemorySize (i : Z)
| MemoryGrow (i : Z)
| MemoryInit (mem : Z) (data_index : Z)
| DataDrop (data : Z)
| MemoryCopy (src_mem : Z) (dst_mem : Z)
| MemoryFill (mem : Z)
| MemoryDiscard (mem : Z).

(** Numeric instructions: constants and comparisons. *)
Inductive numeric_instr :=
| I32Const (x : Z)
| I64Const (x : Z)
| F32Const (x : Z)
| F64Const (x : Z)
| I32Eqz
| I32Eq
| I32Ne
| I32LtS
| I32LtU
| I32GtS
| I32GtU
| I32LeS
| I32LeU
| I32GeS
| I32GeU
| I64Eqz
| I64Eq
| I64Ne
| I64LtS
| I64LtU
| I64GtS
| I64GtU
| I64LeS
| I64LeU
| I64GeS
| I64GeU
| F32Eq
| F32Ne
| F32Lt
| F32Gt
| F32Le
| F32Ge
| F64Eq
| F64Ne
| F64Lt
| F64Gt
| F64Le
| F64Ge.

(** Numeric instructions: arithmetic, conversions, sign extension. *)
Inductive arith_instr :=
| I32Clz
| I32Ctz
| I32Popcnt
| I32Add
| I32Sub
| I32Mul
| I32DivS
| I32DivU
| I32RemS
| I32RemU
| I32And
| I32Or
| I32Xor
| I32Shl
| I32ShrS
| I32ShrU
| I32Rotl
| I32Rotr
| I64Clz
| I64Ctz
| I64Popcnt
| I64Add
| I64Sub
| I64Mul
| I64DivS
| I64DivU
| I64RemS
| I64RemU
| I64And
| I64Or
| I64Xor
| I64Shl
| I64ShrS
| I64ShrU
| I64Rotl
| I64Rotr
| F32Abs
| F32Neg
| F32Ceil
| F32Floor
| F32Trunc
| F32Nearest
| F32Sqrt
| F32Add
| F32Sub
| F32Mul
| F32Div
| F32Min
| F32Max
| F32Copysign
| F64Abs
| F64Neg
| F64Ceil
| F64Floor
| F64Trunc
| F64Nearest
| F64Sqrt
| F64Add
| F64Sub
| F64Mul
| F64Div
| F64Min
| F64Max
| F64Copysign
| I32WrapI64
| I32TruncF32S
| I32TruncF32U
| I32TruncF64S
| I32TruncF64U
| I64ExtendI32S
| I64ExtendI32U
| I64TruncF32S
| I64TruncF32U
| I64TruncF64S
| I64TruncF64U
| F32ConvertI32S
| F32ConvertI32U
| F32ConvertI64S
| F32ConvertI64U
| F32DemoteF64
| F64ConvertI32S
| F64ConvertI32U
| F64ConvertI64S
| F64ConvertI64U
| F64PromoteF32
| I32ReinterpretF32
| I64ReinterpretF64
| F32ReinterpretI32
| F64ReinterpretI64
| I32Extend8S
| I32Extend16S
| I64Extend8S
| I64Extend16S
| I64Extend32S
| I32TruncSatF32S
| I32TruncSatF32U
| I32TruncSatF64S
| I32TruncSatF64U
| I64TruncSatF32S
| I64TruncSatF32U
| I64TruncSatF64S
| I64TruncSatF64U.

(** Reference types instructions. *)
Inductive reference_instr :=
| RefNull (ty : WE.HeapType)
| RefIsNull
| RefFunc (f : Z)
| RefEq
| RefAsNonNull.

(** GC instructions on structures and arrays. *)
Inductive gc_data_instr :=
| StructNew (type_index : Z)
| StructNewDefault (type_index : Z)
| StructGet (struct_type_index : Z) (field_index : Z)
| StructGetS (struct_type_index : Z) (field_index : Z)
| StructGetU (struct_type_index : Z) (field_index : Z)
| StructSet (struct_type_index : Z) (field_index : Z)
| ArrayNew (type_index : Z)
| ArrayNewDefault (type_index : Z)
| ArrayNewFixed (array_type_index : Z) (array_size : Z)
| ArrayNewData (array_type_index : Z) (array_data_index : Z)
| ArrayNewElem (array_type_index : Z) (array_elem_index : Z)
| ArrayGet (type_index : Z)
| ArrayGetS (type_index : Z)
| ArrayGetU (type_index : Z)
| ArraySet (type_index : Z)
| ArrayLen
| ArrayFill (type_index : Z)
| ArrayCopy (array_type_index_dst : Z) (array_type_index_src : Z)
| ArrayInitData (array_type_index : Z) (array_data_index : Z)
| ArrayInitElem (array_type_index : Z) (array_elem_index : Z).

(** GC instructions on references. *)
Inductive gc_ref_instr :=
| RefTestNonNull (heap_type : WE.HeapType)
| RefTestNullable (heap_type : WE.HeapType)
| RefCastNonNull (heap_type : WE.HeapType)
| RefCastNullable (heap_type : WE.HeapType)
| BrOnCast (relative_depth : Z) (from_ref_type : WE.RefType) (to_ref_type : WE.RefType)
| BrOnCastFail (relative_depth : Z) (from_ref_type : WE.RefType) (to_ref_type : WE.RefType)
| AnyConvertExtern
| ExternConvertAny
| RefI31
| I31GetS
| I31GetU.

(** Bulk memory instructions on tables. *)
Inductive bulk_instr :=
| TableInit (elem_index : Z) (table : Z)
| ElemDrop (segment : Z)
| TableFill (table : Z)
| TableGrow (table : Z)
| TableSize (table : Z)
| TableCopy (src_table : Z) (dst_table : Z).

(** SIMD loads, constants and splats. *)
Inductive simd_load_instr :=
| V128Load (memarg : WE.MemArg)
| V128Load8x8S (memarg : WE.MemArg)
| V128Load8x8U (memarg : WE.MemArg)
| V128Load16x4S (memarg : WE.MemArg)
| V128Load16x4U (memarg : WE.MemArg)
| V128Load32x2S (memarg : WE.MemArg)
| V128Load32x2U (memarg : WE.MemArg)
| V128Load8Splat (memarg : WE.MemArg)
| V128Load16Splat (memarg : WE.MemArg)
| V128Load32Splat (memarg : WE.MemArg)
| V128Load64Splat (memarg : WE.MemArg)
| V128Store (memarg : WE.MemArg)
| V128Const (x : Z)
| I8x16Shuffle (lanes : list Z)
| I8x16Swizzle
| I8x16Splat
| I16x8Splat
| I32x4Splat
| I64x2Splat
| F32x4Splat
| F64x2Splat.

(** SIMD lane accesses. *)
Inductive simd_lane_instr :=
| I8x16ExtractLaneS (lane : Z)
| I8x16ExtractLaneU (lane : Z)
| I8x16ReplaceLane (lane : Z)
| I16x8ExtractLaneS (lane : Z)
| I16x8ExtractLaneU (lane : Z)
| I16x8ReplaceLane (lane : Z)
| I32x4ExtractLane (lane : Z)
| I32x4ReplaceLane (lane : Z)
| I64x2ExtractLane (lane : Z)
| I64x2ReplaceLane (lane : Z)
| F32x4ExtractLane (lane : Z)
| F32x4ReplaceLane (lane : Z)
| F64x2ExtractLane (lane : Z)
| F64x2ReplaceLane (lane : Z).

(** SIMD comparisons. *)
Inductive simd_cmp_instr :=
| I8x16Eq
| I8x16Ne
| I8x16LtS
| I8x16LtU
| I8x16GtS
| I8x16GtU
| I8x16LeS
| I8x16LeU
| I8x16GeS
| I8x16GeU
| I16x8Eq
| I16x8Ne
| I16x8LtS
| I16x8LtU
| I16x8GtS
| I16x8GtU
| I16x8LeS
| I16x8LeU
| I16x8GeS
| I16x8GeU
| I32x4Eq
| I32x4Ne
| I32x4LtS
| I32x4LtU
| I32x4GtS
| I32x4GtU
| I32x4LeS
| I32x4LeU
| I32x4GeS
| I32x4GeU
| F32x4Eq
| F32x4Ne
| F32x4Lt
| F32x4Gt
| F32x4Le
| F32x4Ge
| F64x2Eq
| F64x2Ne
| F64x2Lt
| F64x2Gt
| F64x2Le
| F64x2Ge.

(** SIMD bitwise and 8-bit lane operations. *)
Inductive simd_i8x16_instr :=
| V128Not
| V128And
| V128AndNot
| V128Or
| V128Xor
| V128Bitselect
| V128AnyTrue
| I8x16Abs
| I8x16Neg
| I8x16Popcnt
| I8x16AllTrue
| I8x16Bitmask
| I8x16NarrowI16x8S
| I8x16NarrowI16x8U
| I8x16Shl
| I8x16ShrS
| I8x16ShrU
| I8x16Add
| I8x16AddSatS
| I8x16AddSatU
| I8x16Sub
| I8x16SubSatS
| I8x16SubSatU
| I8x16MinS
| I8x16MinU
| I8x16MaxS
| I8x16MaxU
| I8x16AvgrU
| I16x8ExtAddPairwiseI8x16S
| I16x8ExtAddPairwiseI8x16U
| I32x4ExtAddPairwiseI16x8S
| I32x4ExtAddPairwiseI16x8U.

(** SIMD 16-bit lane operations. *)
Inductive simd_i16x8_instr :=
| I16x8Abs
| I16x8Neg
| I16x8Q15MulrSatS
| I16x8AllTrue
| I16x8Bitmask
| I16x8NarrowI32x4S
| I16x8NarrowI32x4U
| I16x8ExtendLowI8x16S
| I16x8ExtendHighI8x16S
| I16x8ExtendLowI8x16U
| I16x8ExtendHighI8x16U
| I16x8Shl
| I16x8ShrS
| I16x8ShrU
| I16x8Add
| I16x8AddSatS
| I16x8AddSatU
| I16x8Sub
| I16x8SubSatS
| I16x8SubSatU
| I16x8Mul
| I16x8MinS
| I16x8MinU
| I16x8MaxS
| I16x8MaxU
| I16x8AvgrU
| I16x8ExtMulLowI8x16S
| I16x8ExtMulHighI8x16S
| I16x8ExtMulLowI8x16U
| I16x8ExtMulHighI8x16U.

(** SIMD 32-bit lane operations. *)
Inductive simd_i32x4_instr :=
| I32x4Abs
| I32x4Neg
| I32x4AllTrue
| I32x4Bitmask
| I32x4ExtendLowI16x8S
| I32x4ExtendHighI16x8S
| I32x4ExtendLowI16x8U
| I32x4ExtendHighI16x8U
| I32x4Shl
| I32x4ShrS
| I32x4ShrU
| I32x4Add
| I32x4Sub
| I32x4Mul
| I32x4MinS
| I32x4MinU
| I32x4MaxS
| I32x4MaxU
| I32x4DotI16x8S
| I32x4ExtMulLowI16x8S
| I32x4ExtMulHighI16x8S
| I32x4ExtMulLowI16x8U
| I32x4ExtMulHighI16x8U.

(** SIMD 64-bit lane operations. *)
Inductive simd_i64x2_instr :=
| I64x2Abs
| I64x2Neg
| I64x2AllTrue
| I64x2Bitmask
| I64x2ExtendLowI32x4S
| I64x2ExtendHighI32x4S
| I64x2ExtendLowI32x4U
| I64x2ExtendHighI32x4U
| I64x2Shl
| I64x2ShrS
| I64x2ShrU
| I64x2Add
| I64x2Sub
| I64x2Mul
| I64x2ExtMulLowI32x4S
| I64x2ExtMulHighI32x4S
| I64x2ExtMulLowI32x4U
| I64x2ExtMulHighI32x4U.

(** SIMD floating point operations. *)
Inductive simd_float_instr :=
| F32x4Ceil
| F32x4Floor
| F32x4Trunc
| F32x4Nearest
| F32x4Abs
| F32x4Neg
| F32x4Sqrt
| F32x4Add
| F32x4Sub
| F32x4Mul
| F32x4Div
| F32x4Min
| F32x4Max
| F32x4PMin
| F32x4PMax
| F64x2Ceil
| F64x2Floor
| F64x2Trunc
| F64x2Nearest
| F64x2Abs
| F64x2Neg
| F64x2Sqrt
| F64x2Add
| F64x2Sub
| F64x2Mul
| F64x2Div
| F64x2Min
| F64x2Max
| F64x2PMin
| F64x2PMax.

(** SIMD conversions. *)
Inductive simd_conv_instr :=
| I32x4TruncSatF32x4S
| I32x4TruncSatF32x4U
| F32x4ConvertI32x4S
| F32x4ConvertI32x4U
| I32x4TruncSatF64x2SZero
| I32x4TruncSatF64x2UZero
| F64x2ConvertLowI32x4S
| F64x2ConvertLowI32x4U
| F32x4DemoteF64x2Zero
| F64x2PromoteLowF32x4.

(** SIMD lane loads and stores, and 64-bit comparisons. *)
Inductive simd_mem_instr :=
| V128Load32Zero (memarg : WE.MemArg)
| V128Load64Zero (memarg : WE.MemArg)
| V128Load8Lane (memarg : WE.MemArg) (lane : Z)
| V128Load16Lane (memarg : WE.MemArg) (lane : Z)
| V128Load32Lane (memarg : WE.MemArg) (lane : Z)
| V128Load64Lane (memarg : WE.MemArg) (lane : Z)
| V128Store8Lane (memarg : WE.MemArg) (lane : Z)
| V128Store16Lane (memarg : WE.MemArg) (lane : Z)
| V128Store32Lane (memarg : WE.MemArg) (lane : Z)
| V128Store64Lane (memarg : WE.MemArg) (lane : Z)
| I64x2Eq
| I64x2Ne
| I64x2LtS
| I64x2GtS
| I64x2LeS
| I64x2GeS.

(** Relaxed SIMD. *)
Inductive relaxed_instr :=
| I8x16RelaxedSwizzle
| I32x4RelaxedTruncF32x4S
| I32x4RelaxedTruncF32x4U
| I32x4RelaxedTruncF64x2SZero
| I32x4RelaxedTruncF64x2UZero
| F32x4RelaxedMadd
| F32x4RelaxedNmadd
| F64x2RelaxedMadd
| F64x2RelaxedNmadd
| I8x16RelaxedLaneselect
| I16x8RelaxedLaneselect
| I32x4RelaxedLaneselect
| I64x2RelaxedLaneselect
| F32x4RelaxedMin
| F32x4RelaxedMax
| F64x2RelaxedMin
| F64x2RelaxedMax
| I16x8RelaxedQ15mulrS
| I16x8RelaxedDotI8x16I7x16S
| I32x4RelaxedDotI8x16I7x16AddS.

(** Atomic loads and stores. *)
Inductive atomic_instr :=
| MemoryAtomicNotify (memarg : WE.MemArg)
| MemoryAtomicWait32 (memarg : WE.MemArg)
| MemoryAtomicWait64 (memarg : WE.MemArg)
| AtomicFence
| I32AtomicLoad (memarg : WE.MemArg)
| I64AtomicLoad (memarg : WE.MemArg)
| I32AtomicLoad8U (memarg : WE.MemArg)
| I32AtomicLoad16U (memarg : WE.MemArg)
| I64AtomicLoad8U (memarg : WE.MemArg)
| I64AtomicLoad16U (memarg : WE.MemArg)
| I64AtomicLoad32U (memarg : WE.MemArg)
| I32AtomicStore (memarg : WE.MemArg)
| I64AtomicStore (memarg : WE.MemArg)
| I32AtomicStore8 (memarg : WE.MemArg)
| I32AtomicStore16 (memarg : WE.MemArg)
| I64AtomicStore8 (memarg : WE.MemArg)
| I64AtomicStore16 (memarg : WE.MemArg)
| I64AtomicStore32 (memarg : WE.MemArg).

(** Atomic read-modify-write: add, sub, and, or. *)
Inductive atomic_rmw_instr :=
| I32AtomicRmwAdd (memarg : WE.MemArg)
| I64AtomicRmwAdd (memarg : WE.MemArg)
| I32AtomicRmw8AddU (memarg : WE.MemArg)
| I32AtomicRmw16AddU (memarg : WE.MemArg)
| I64AtomicRmw8AddU (memarg : WE.MemArg)
| I64AtomicRmw16AddU (memarg : WE.MemArg)
| I64AtomicRmw32AddU (memarg : WE.MemArg)
| I32AtomicRmwSub (memarg : WE.MemArg)
| I64AtomicRmwSub (memarg : WE.MemArg)
| I32AtomicRmw8SubU (memarg : WE.MemArg)
| I32AtomicRmw16SubU (memarg : WE.MemArg)
| I64AtomicRmw8SubU (memarg : WE.MemArg)
| I64AtomicRmw16SubU (memarg : WE.MemArg)
| I64AtomicRmw32SubU (memarg : WE.MemArg)
| I32AtomicRmwAnd (memarg : WE.MemArg)
| I64AtomicRmwAnd (memarg : WE.MemArg)
| I32AtomicRmw8AndU (memarg : WE.MemArg)
| I32AtomicRmw16AndU (memarg : WE.MemArg)
| I64AtomicRmw8AndU (memarg : WE.MemArg)
| I64AtomicRmw16AndU (memarg : WE.MemArg)
| I64AtomicRmw32AndU (memarg : WE.MemArg)
| I32AtomicRmwOr (memarg : WE.MemArg)
| I64AtomicRmwOr (memarg : WE.MemArg)
| I32AtomicRmw8OrU (memarg : WE.MemArg)
| I32AtomicRmw16OrU (memarg : WE.MemArg)
| I64AtomicRmw8OrU (memarg : WE.MemArg)
| I64AtomicRmw16OrU (memarg : WE.MemArg)
| I64AtomicRmw32OrU (memarg : WE.MemArg).

(** Atomic read-modify-write: xor, exchange. *)
Inductive atomic_xchg_instr :=
| I32AtomicRmwXor (memarg : WE.MemArg)
| I64AtomicRmwXor (memarg : WE.MemArg)
| I32AtomicRmw8XorU (memarg : WE.MemArg)
| I32AtomicRmw16XorU (memarg : WE.MemArg)
| I64AtomicRmw8XorU (memarg : WE.MemArg)
| I64AtomicRmw16XorU (memarg : WE.MemArg)
| I64AtomicRmw32XorU (memarg : WE.MemArg)
| I32AtomicRmwXchg (memarg : WE.MemArg)
| I64AtomicRmwXchg (memarg : WE.MemArg)
| I32AtomicRmw8XchgU (memarg : WE.MemArg)
| I32AtomicRmw16XchgU (memarg : WE.MemArg)
| I64AtomicRmw8XchgU (memarg : WE.MemArg)
| I64AtomicRmw16XchgU (memarg : WE.MemArg)
| I64AtomicRmw32XchgU (memarg : WE.MemArg)
| I32AtomicRmwCmpxchg (memarg : WE.MemArg)
| I64AtomicRmwCmpxchg (memarg : WE.MemArg)
| I32AtomicRmw8CmpxchgU (memarg : WE.MemArg)
| I32AtomicRmw16CmpxchgU (memarg : WE.MemArg)
| I64AtomicRmw8CmpxchgU (memarg : WE.MemArg)
| I64AtomicRmw16CmpxchgU (memarg : WE.MemArg)
| I64AtomicRmw32CmpxchgU (memarg : WE.MemArg).

(** Shared-everything threads: globals and tables. *)
Inductive shared_global_instr :=
| GlobalAtomicGet (ordering : WE.Ordering) (global_index : Z)
| GlobalAtomicSet (ordering : WE.Ordering) (global_index : Z)
| GlobalAtomicRmwAdd (ordering : WE.Ordering) (global_index : Z)
| GlobalAtomicRmwSub (ordering : WE.Ordering) (global_index : Z)
| GlobalAtomicRmwAnd (ordering : WE.Ordering) (global_index : Z)
| GlobalAtomicRmwOr (ordering : WE.Ordering) (global_index : Z)
| GlobalAtomicRmwXor (ordering : WE.Ordering) (global_index : Z)
| GlobalAtomicRmwXchg (ordering : WE.Ordering) (global_index : Z)
| GlobalAtomicRmwCmpxchg (ordering : WE.Ordering) (global_index : Z)
| TableAtomicGet (ordering : WE.Ordering) (table_index : Z)
| TableAtomicSet (ordering : WE.Ordering) (table_index : Z)
| TableAtomicRmwXchg (ordering : WE.Ordering) (table_index : Z)
| TableAtomicRmwCmpxchg (ordering : WE.Ordering) (table_index : Z).

(** Shared-everything threads: structures. *)
Inductive shared_struct_instr :=
| StructAtomicGet (ordering : WE.Ordering) (struct_type_index : Z) (field_index : Z)
| StructAtomicGetS (ordering : WE.Ordering) (struct_type_index : Z) (field_index : Z)
| StructAtomicGetU (ordering : WE.Ordering) (struct_type_index : Z) (field_index : Z)
| StructAtomicSet (ordering : WE.Ordering) (struct_type_index : Z) (field_index : Z)
| StructAtomicRmwAdd (ordering : WE.Ordering) (struct_type_index : Z) (field_index : Z)
| StructAtomicRmwSub (ordering : WE.Ordering) (struct_type_index : Z) (field_index : Z)
| StructAtomicRmwAnd (ordering : WE.Ordering) (struct_type_index : Z) (field_index : Z)
| StructAtomicRmwOr (ordering : WE.Ordering) (struct_type_index : Z) (field_index : Z)
| StructAtomicRmwXor (ordering : WE.Ordering) (struct_type_index : Z) (field_index : Z)
| StructAtomicRmwXchg (ordering : WE.Ordering) (struct_type_index : Z) (field_index : Z)
| StructAtomicRmwCmpxchg (ordering : WE.Ordering) (struct_type_index : Z) (field_index : Z).

(** Shared-everything threads: arrays. *)
Inductive shared_array_instr :=
| ArrayAtomicGet (ordering : WE.Ordering) (array_type_index : Z)
| ArrayAtomicGetS (ordering : WE.Ordering) (array_type_index : Z)
| ArrayAtomicGetU (ordering : WE.Ordering) (array_type_index : Z)
| ArrayAtomicSet (ordering : WE.Ordering) (array_type_index : Z)
| ArrayAtomicRmwAdd (ordering : WE.Ordering) (array_type_index : Z)
| ArrayAtomicRmwSub (ordering : WE.Ordering) (array_type_index : Z)
| ArrayAtomicRmwAnd (ordering : WE.Ordering) (array_type_index : Z)
| ArrayAtomicRmwOr (ordering : WE.Ordering) (array_type_index : Z)
| ArrayAtomicRmwXor (ordering : WE.Ordering) (array_type_index : Z)
| ArrayAtomicRmwXchg (ordering : WE.Ordering) (array_type_index : Z)
| ArrayAtomicRmwCmpxchg (ordering : WE.Ordering) (array_type_index : Z)
| RefI31Shared.

(** Stack switching. *)
Inductive stack_instr :=
| ContNew (type_index : Z)
| ContBind (argument_index : Z) (result_index : Z)
| Suspend (tag_index : Z)
| Resume (cont_type_index : Z) (resume_table : list WE.Handle)
| ResumeThrow (cont_type_index : Z) (tag_index : Z) (resume_table : list WE.Handle)
| Switch (cont_type_index : Z) (tag_index : Z).

(** Wide arithmetic. *)
Inductive wide_instr :=
| I64Add128
| I64Sub128
| I64MulWideS
| I64MulWideU.

Inductive Instruction :=
| ControlInstr (i : control_instr)
| ParametricInstr (i : parametric_instr)
| VariableInstr (i : variable_instr)
| MemoryInstr (i : memory_instr)
| NumericInstr (i : numeric_instr)
| ArithInstr (i : arith_instr)
| ReferenceInstr (i : reference_instr)
| GcDataInstr (i : gc_data_instr)
| GcRefInstr (i : gc_ref_instr)
| BulkInstr (i : bulk_instr)
| SimdLoadInstr (i : simd_load_instr)
| SimdLaneInstr (i : simd_lane_instr)
| SimdCmpInstr (i : simd_cmp_instr)
| SimdI8x16Instr (i : simd_i8x16_instr)
| SimdI16x8Instr (i : simd_i16x8_instr)
| SimdI32x4Instr (i : simd_i32x4_instr)
| SimdI64x2Instr (i : simd_i64x2_instr)
| SimdFloatInstr (i : simd_float_instr)
| SimdConvInstr (i : simd_conv_instr)
| SimdMemInstr (i : simd_mem_instr)
| RelaxedInstr (i : relaxed_instr)
| AtomicInstr (i : atomic_instr)
| AtomicRmwInstr (i : atomic_rmw_instr)
| AtomicXchgInstr (i : atomic_xchg_instr)
| SharedGlobalInstr (i : shared_global_instr)
| SharedStructInstr (i : shared_struct_instr)
| SharedArrayInstr (i : shared_array_instr)
| StackInstr (i : stack_instr)
| WideInstr (i : wide_instr).

Section encode.
Context {L : Leb128}.

Definition encode_control (i : control_instr) : Enc :=
  match i with
  | Unreachable => push 0x00
  | Nop => push 0x01
  | Block bt => push 0x02 +> WE.encode_block_type bt
  | Loop bt => push 0x03 +> WE.encode_block_type bt
  | If bt => push 0x04 +> WE.encode_block_type bt
  | Else => push 0x05
  | Try bt => push 0x06 +> WE.encode_block_type bt
  | Catch t => push 0x07 +> encode_u32 t
  | Throw t => push 0x08 +> encode_u32 t
  | Rethrow l => push 0x09 +> encode_u32 l
  | ThrowRef => push 0x0A
  | End => push 0x0B
  | Br l => push 0x0C +> encode_u32 l
  | BrIf l => push 0x0D +> encode_u32 l
  | BrTable ls l => push 0x0E +> encode_list encode_u32 ls +> encode_u32 l
  | BrOnNull l => push 0xD5 +> encode_u32 l
  | BrOnNonNull l => push 0xD6 +> encode_u32 l
  | Return => push 0x0F
  | Call f => push 0x10 +> encode_u32 f
  | CallRef ty => push 0x14 +> encode_u32 ty
  | CallIndirect type_index table_index =>
      push 0x11 +> encode_u32 type_index +> encode_u32 table_index
  | ReturnCallRef ty => push 0x15 +> encode_u32 ty
  | ReturnCall f => push 0x12 +> encode_u32 f
  | ReturnCallIndirect type_index table_index =>
      push 0x13 +> encode_u32 type_index +> encode_u32 table_index
  | Delegate l => push 0x18 +> encode_u32 l
  | CatchAll => push 0x19
  end.

Definition encode_parametric (i : parametric_instr) : Enc :=
  match i with
  | Drop => push 0x1A
  | Select => push 0x1B
  | TypedSelect ty => push 0x1c +> encode_list WE.encode_val_type [ty]
  | TryTable ty catches =>
      push 0x1f +> WE.encode_block_type ty +> encode_list WE.encode_catch catches
  end.

Definition encode_variable (i : variable_instr) : Enc :=
  match i with
  | LocalGet l => push 0x20 +> encode_u32 l
  | LocalSet l => push 0x21 +> encode_u32 l
  | LocalTee l => push 0x22 +> encode_u32 l
  | GlobalGet g => push 0x23 +> encode_u32 g
  | GlobalSet g => push 0x24 +> encode_u32 g
  | TableGet table => push 0x25 +> encode_u32 table
  | TableSet table => push 0x26 +> encode_u32 table
  end.

Definition encode_memory (i : memory_instr) : Enc :=
  match i with
  | I32Load m => push 0x28 +> WE.encode_mem_arg m
  | I64Load m => push 0x29 +> WE.encode_mem_arg m
  | F32Load m => push 0x2A +> WE.encode_mem_arg m
  | F64Load m => push 0x2B +> WE.encode_mem_arg m
  | I32Load8S m => push 0x2C +> WE.encode_mem_arg m
  | I32Load8U m => push 0x2D +> WE.encode_mem_arg m
  | I32Load16S m => push 0x2E +> WE.encode_mem_arg m
  | I32Load16U m => push 0x2F +> WE.encode_mem_arg m
  | I64Load8S m => push 0x30 +> WE.encode_mem_arg m
  | I64Load8U m => push 0x31 +> WE.encode_mem_arg m
  | I64Load16S m => push 0x32 +> WE.encode_mem_arg m
  | I64Load16U m => push 0x33 +> WE.encode_mem_arg m
  | I64Load32S m => push 0x34 +> WE.encode_mem_arg m
  | I64Load32U m => push 0x35 +> WE.encode_mem_arg m
  | I32Store m => push 0x36 +> WE.encode_mem_arg m
  | I64Store m => push 0x37 +> WE.encode_mem_arg m
  | F32Store m => push 0x38 +> WE.encode_mem_arg m
  | F64Store m => push 0x39 +> WE.encode_mem_arg m
  | I32Store8 m => push 0x3A +> WE.encode_mem_arg m
  | I32Store16 m => push 0x3B +> WE.encode_mem_arg m
  | I64Store8 m => push 0x3C +> WE.encode_mem_arg m
  | I64Store16 m => push 0x3D +> WE.encode_mem_arg m
  | I64Store32 m => push 0x3E +> WE.encode_mem_arg m
  | MemorySize i => push 0x3F +> encode_u32 i
  | MemoryGrow i => push 0x40 +> encode_u32 i
  | MemoryInit mem data_index =>
      push 0xfc +> push 0x08 +> encode_u32 data_index +> encode_u32 mem
  | DataDrop data => push 0xfc +> push 0x09 +> encode_u32 data
  | MemoryCopy src_mem dst_mem =>
      push 0xfc +> push 0x0a +> encode_u32 dst_mem +> encode_u32 src_mem
  | MemoryFill mem => push 0xfc +> push 0x0b +> encode_u32 mem
  | MemoryDiscard mem => push 0xfc +> push 0x12 +> encode_u32 mem
  end.

Definition encode_numeric (i : numeric_instr) : Enc :=
  match i with
  | I32Const x => push 0x41 +> encode_i32 x
  | I64Const x => push 0x42 +> encode_i64 x
  | F32Const x => push 0x43 +> extend (to_le_bytes 4 x)
  | F64Const x => push 0x44 +> extend (to_le_bytes 8 x)
  | I32Eqz => push 0x45
  | I32Eq => push 0x46
  | I32Ne => push 0x47
  | I32LtS => push 0x48
  | I32LtU => push 0x49
  | I32GtS => push 0x4A
  | I32GtU => push 0x4B
  | I32LeS => push 0x4C
  | I32LeU => push 0x4D
  | I32GeS => push 0x4E
  | I32GeU => push 0x4F
  | I64Eqz => push 0x50
  | I64Eq => push 0x51
  | I64Ne => push 0x52
  | I64LtS => push 0x53
  | I64LtU => push 0x54
  | I64GtS => push 0x55
  | I64GtU => push 0x56
  | I64LeS => push 0x57
  | I64LeU => push 0x58
  | I64GeS => push 0x59
  | I64GeU => push 0x5A
  | F32Eq => push 0x5B
  | F32Ne => push 0x5C
  | F32Lt => push 0x5D
  | F32Gt => push 0x5E
  | F32Le => push 0x5F
  | F32Ge => push 0x60
  | F64Eq => push 0x61
  | F64Ne => push 0x62
  | F64Lt => push 0x63
  | F64Gt => push 0x64
  | F64Le => push 0x65
  | F64Ge => push 0x66
  end.

Definition encode_arith (i : arith_instr) : Enc :=
  match i with
  | I32Clz => push 0x67
  | I32Ctz => push 0x68
  | I32Popcnt => push 0x69
  | I32Add => push 0x6A
  | I32Sub => push 0x6B
  | I32Mul => push 0x6C
  | I32DivS => push 0x6D
  | I32DivU => push 0x6E
  | I32RemS => push 0x6F
  | I32RemU => push 0x70
  | I32And => push 0x71
  | I32Or => push 0x72
  | I32Xor => push 0x73
  | I32Shl => push 0x74
  | I32ShrS => push 0x75
  | I32ShrU => push 0x76
  | I32Rotl => push 0x77
  | I32Rotr => push 0x78
  | I64Clz => push 0x79
  | I64Ctz => push 0x7A
  | I64Popcnt => push 0x7B
  | I64Add => push 0x7C
  | I64Sub => push 0x7D
  | I64Mul => push 0x7E
  | I64DivS => push 0x7F
  | I64DivU => push 0x80
  | I64RemS => push 0x81
  | I64RemU => push 0x82
  | I64And => push 0x83
  | I64Or => push 0x84
  | I64Xor => push 0x85
  | I64Shl => push 0x86
  | I64ShrS => push 0x87
  | I64ShrU => push 0x88
  | I64Rotl => push 0x89
  | I64Rotr => push 0x8A
  | F32Abs => push 0x8B
  | F32Neg => push 0x8C
  | F32Ceil => push 0x8D
  | F32Floor => push 0x8E
  | F32Trunc => push 0x8F
  | F32Nearest => push 0x90
  | F32Sqrt => push 0x91
  | F32Add => push 0x92
  | F32Sub => push 0x93
  | F32Mul => push 0x94
  | F32Div => push 0x95
  | F32Min => push 0x96
  | F32Max => push 0x97
  | F32Copysign => push 0x98
  | F64Abs => push 0x99
  | F64Neg => push 0x9A
  | F64Ceil => push 0x9B
  | F64Floor => push 0x9C
  | F64Trunc => push 0x9D
  | F64Nearest => push 0x9E
  | F64Sqrt => push 0x9F
  | F64Add => push 0xA0
  | F64Sub => push 0xA1
  | F64Mul => push 0xA2
  | F64Div => push 0xA3
  | F64Min => push 0xA4
  | F64Max => push 0xA5
  | F64Copysign => push 0xA6
  | I32WrapI64 => push 0xA7
  | I32TruncF32S => push 0xA8
  | I32TruncF32U => push 0xA9
  | I32TruncF64S => push 0xAA
  | I32TruncF64U => push 0xAB
  | I64ExtendI32S => push 0xAC
  | I64ExtendI32U => push 0xAD
  | I64TruncF32S => push 0xAE
  | I64TruncF32U => push 0xAF
  | I64TruncF64S => push 0xB0
  | I64TruncF64U => push 0xB1
  | F32ConvertI32S => push 0xB2
  | F32ConvertI32U => push 0xB3
  | F32ConvertI64S => push 0xB4
  | F32ConvertI64U => push 0xB5
  | F32DemoteF64 => push 0xB6
  | F64ConvertI32S => push 0xB7
  | F64ConvertI32U => push 0xB8
  | F64ConvertI64S => push 0xB9
  | F64ConvertI64U => push 0xBA
  | F64PromoteF32 => push 0xBB
  | I32ReinterpretF32 => push 0xBC
  | I64ReinterpretF64 => push 0xBD
  | F32ReinterpretI32 => push 0xBE
  | F64ReinterpretI64 => push 0xBF
  | I32Extend8S => push 0xC0
  | I32Extend16S => push 0xC1
  | I64Extend8S => push 0xC2
  | I64Extend16S => push 0xC3
  | I64Extend32S => push 0xC4
  | I32TruncSatF32S => push 0xFC +> push 0x00
  | I32TruncSatF32U => push 0xFC +> push 0x01
  | I32TruncSatF64S => push 0xFC +> push 0x02
  | I32TruncSatF64U => push 0xFC +> push 0x03
  | I64TruncSatF32S => push 0xFC +> push 0x04
  | I64TruncSatF32U => push 0xFC +> push 0x05
  | I64TruncSatF64S => push 0xFC +> push 0x06
  | I64TruncSatF64U => push 0xFC +> push 0x07
  end.

Definition encode_reference (i : reference_instr) : Enc :=
  match i with
  | RefNull ty => push 0xd0 +> WE.encode_heap_type ty
  | RefIsNull => push 0xd1
  | RefFunc f => push 0xd2 +> encode_u32 f
  | RefEq => push 0xd3
  | RefAsNonNull => push 0xd4
  end.

Definition encode_gc_data (i : gc_data_instr) : Enc :=
  match i with
  | StructNew type_index => push 0xfb +> push 0x00 +> encode_u32 type_index
  | StructNewDefault type_index => push 0xfb +> push 0x01 +> encode_u32 type_index
  | StructGet struct_type_index field_index =>
      push 0xfb +> push 0x02 +> encode_u32 struct_type_index +> encode_u32 field_index
  | StructGetS struct_type_index field_index =>
      push 0xfb +> push 0x03 +> encode_u32 struct_type_index +> encode_u32 field_index
  | StructGetU struct_type_index field_index =>
      push 0xfb +> push 0x04 +> encode_u32 struct_type_index +> encode_u32 field_index
  | StructSet struct_type_index field_index =>
      push 0xfb +> push 0x05 +> encode_u32 struct_type_index +> encode_u32 field_index
  | ArrayNew type_index => push 0xfb +> push 0x06 +> encode_u32 type_index
  | ArrayNewDefault type_index => push 0xfb +> push 0x07 +> encode_u32 type_index
  | ArrayNewFixed array_type_index array_size =>
      push 0xfb +> push 0x08 +> encode_u32 array_type_index +> encode_u32 array_size
  | ArrayNewData array_type_index array_data_index =>
      push 0xfb
      +> push 0x09
      +> encode_u32 array_type_index
      +> encode_u32 array_data_index
  | ArrayNewElem array_type_index array_elem_index =>
      push 0xfb
      +> push 0x0a
      +> encode_u32 array_type_index
      +> encode_u32 array_elem_index
  | ArrayGet type_index => push 0xfb +> push 0x0b +> encode_u32 type_index
  | ArrayGetS type_index => push 0xfb +> push 0x0c +> encode_u32 type_index
  | ArrayGetU type_index => push 0xfb +> push 0x0d +> encode_u32 type_index
  | ArraySet type_index => push 0xfb +> push 0x0e +> encode_u32 type_index
  | ArrayLen => push 0xfb +> push 0x0f
  | ArrayFill type_index => push 0xfb +> push 0x10 +> encode_u32 type_index
  | ArrayCopy array_type_index_dst array_type_index_src =>
      push 0xfb
      +> push 0x11
      +> encode_u32 array_type_index_dst
      +> encode_u32 array_type_index_src
  | ArrayInitData array_type_index array_data_index =>
      push 0xfb
      +> push 0x12
      +> encode_u32 array_type_index
      +> encode_u32 array_data_index
  | ArrayInitElem array_type_index array_elem_index =>
      push 0xfb
      +> push 0x13
      +> encode_u32 array_type_index
      +> encode_u32 array_elem_index
  end.

Definition encode_gc_ref (i : gc_ref_instr) : Enc :=
  match i with
  | RefTestNonNull heap_type => push 0xfb +> push 0x14 +> WE.encode_heap_type heap_type
  | RefTestNullable heap_type =>
      push 0xfb +> push 0x15 +> WE.encode_heap_type heap_type
  | RefCastNonNull heap_type => push 0xfb +> push 0x16 +> WE.encode_heap_type heap_type
  | RefCastNullable heap_type =>
      push 0xfb +> push 0x17 +> WE.encode_heap_type heap_type
  | BrOnCast relative_depth from_ref_type to_ref_type =>
      push 0xfb
      +> push 0x18
      +> push (Z.lor (Z.b2z (WE.nullable from_ref_type)) (Z.shiftl (Z.b2z (WE.nullable to_ref_type)) 1))
      +> encode_u32 relative_depth
      +> WE.encode_heap_type (WE.heap_type from_ref_type)
      +> WE.encode_heap_type (WE.heap_type to_ref_type)
  | BrOnCastFail relative_depth from_ref_type to_ref_type =>
      push 0xfb
      +> push 0x19
      +> push (Z.lor (Z.b2z (WE.nullable from_ref_type)) (Z.shiftl (Z.b2z (WE.nullable to_ref_type)) 1))
      +> encode_u32 relative_depth
      +> WE.encode_heap_type (WE.heap_type from_ref_type)
      +> WE.encode_heap_type (WE.heap_type to_ref_type)
  | AnyConvertExtern => push 0xfb +> push 0x1a
  | ExternConvertAny => push 0xfb +> push 0x1b
  | RefI31 => push 0xfb +> push 0x1c
  | I31GetS => push 0xfb +> push 0x1d
  | I31GetU => push 0xfb +> push 0x1e
  end.

Definition encode_bulk (i : bulk_instr) : Enc :=
  match i with
  | TableInit elem_index table =>
      push 0xfc +> push 0x0c +> encode_u32 elem_index +> encode_u32 table
  | ElemDrop segment => push 0xfc +> push 0x0d +> encode_u32 segment
  | TableCopy src_table dst_table =>
      push 0xfc +> push 0x0e +> encode_u32 dst_table +> encode_u32 src_table
  | TableGrow table => push 0xfc +> push 0x0f +> encode_u32 table
  | TableSize table => push 0xfc +> push 0x10 +> encode_u32 table
  | TableFill table => push 0xfc +> push 0x11 +> encode_u32 table
  end.

Definition encode_simd_load (i : simd_load_instr) : Enc :=
  match i with
  | V128Load memarg => push 0xFD +> encode_u32 0x00 +> WE.encode_mem_arg memarg
  | V128Load8x8S memarg => push 0xFD +> encode_u32 0x01 +> WE.encode_mem_arg memarg
  | V128Load8x8U memarg => push 0xFD +> encode_u32 0x02 +> WE.encode_mem_arg memarg
  | V128Load16x4S memarg => push 0xFD +> encode_u32 0x03 +> WE.encode_mem_arg memarg
  | V128Load16x4U memarg => push 0xFD +> encode_u32 0x04 +> WE.encode_mem_arg memarg
  | V128Load32x2S memarg => push 0xFD +> encode_u32 0x05 +> WE.encode_mem_arg memarg
  | V128Load32x2U memarg => push 0xFD +> encode_u32 0x06 +> WE.encode_mem_arg memarg
  | V128Load8Splat memarg => push 0xFD +> encode_u32 0x07 +> WE.encode_mem_arg memarg
  | V128Load16Splat memarg => push 0xFD +> encode_u32 0x08 +> WE.encode_mem_arg memarg
  | V128Load32Splat memarg => push 0xFD +> encode_u32 0x09 +> WE.encode_mem_arg memarg
  | V128Load64Splat memarg => push 0xFD +> encode_u32 0x0A +> WE.encode_mem_arg memarg
  | V128Store memarg => push 0xFD +> encode_u32 0x0B +> WE.encode_mem_arg memarg
  | V128Const x => push 0xFD +> encode_u32 0x0C +> extend (to_le_bytes 16 x)
  | I8x16Shuffle lanes =>
      push 0xFD
      +> encode_u32 0x0D
      +> assert_enc (forallb (fun l => l <? 32) lanes)
      +> extend lanes
  | I8x16Swizzle => push 0xFD +> encode_u32 0x0E
  | I8x16Splat => push 0xFD +> encode_u32 0x0F
  | I16x8Splat => push 0xFD +> encode_u32 0x10
  | I32x4Splat => push 0xFD +> encode_u32 0x11
  | I64x2Splat => push 0xFD +> encode_u32 0x12
  | F32x4Splat => push 0xFD +> encode_u32 0x13
  | F64x2Splat => push 0xFD +> encode_u32 0x14
  end.

Definition encode_simd_lane (i : simd_lane_instr) : Enc :=
  match i with
  | I8x16ExtractLaneS lane =>
      push 0xFD +> encode_u32 0x15 +> assert_enc (lane <? 16) +> push lane
  | I8x16ExtractLaneU lane =>
      push 0xFD +> encode_u32 0x16 +> assert_enc (lane <? 16) +> push lane
  | I8x16ReplaceLane lane =>
      push 0xFD +> encode_u32 0x17 +> assert_enc (lane <? 16) +> push lane
  | I16x8ExtractLaneS lane =>
      push 0xFD +> encode_u32 0x18 +> assert_enc (lane <? 8) +> push lane
  | I16x8ExtractLaneU lane =>
      push 0xFD +> encode_u32 0x19 +> assert_enc (lane <? 8) +> push lane
  | I16x8ReplaceLane lane =>
      push 0xFD +> encode_u32 0x1A +> assert_enc (lane <? 8) +> push lane
  | I32x4ExtractLane lane =>
      push 0xFD +> encode_u32 0x1B +> assert_enc (lane <? 4) +> push lane
  | I32x4ReplaceLane lane =>
      push 0xFD +> encode_u32 0x1C +> assert_enc (lane <? 4) +> push lane
  | I64x2ExtractLane lane =>
      push 0xFD +> encode_u32 0x1D +> assert_enc (lane <? 2) +> push lane
  | I64x2ReplaceLane lane =>
      push 0xFD +> encode_u32 0x1E +> assert_enc (lane <? 2) +> push lane
  | F32x4ExtractLane lane =>
      push 0xFD +> encode_u32 0x1F +> assert_enc (lane <? 4) +> push lane
  | F32x4ReplaceLane lane =>
      push 0xFD +> encode_u32 0x20 +> assert_enc (lane <? 4) +> push lane
  | F64x2ExtractLane lane =>
      push 0xFD +> encode_u32 0x21 +> assert_enc (lane <? 2) +> push lane
  | F64x2ReplaceLane lane =>
      push 0xFD +> encode_u32 0x22 +> assert_enc (lane <? 2) +> push lane
  end.

Definition encode_simd_cmp (i : simd_cmp_instr) : Enc :=
  match i with
  | I8x16Eq => push 0xFD +> encode_u32 0x23
  | I8x16Ne => push 0xFD +> encode_u32 0x24
  | I8x16LtS => push 0xFD +> encode_u32 0x25
  | I8x16LtU => push 0xFD +> encode_u32 0x26
  | I8x16GtS => push 0xFD +> encode_u32 0x27
  | I8x16GtU => push 0xFD +> encode_u32 0x28
  | I8x16LeS => push 0xFD +> encode_u32 0x29
  | I8x16LeU => push 0xFD +> encode_u32 0x2A
  | I8x16GeS => push 0xFD +> encode_u32 0x2B
  | I8x16GeU => push 0xFD +> encode_u32 0x2C
  | I16x8Eq => push 0xFD +> encode_u32 0x2D
  | I16x8Ne => push 0xFD +> encode_u32 0x2E
  | I16x8LtS => push 0xFD +> encode_u32 0x2F
  | I16x8LtU => push 0xFD +> encode_u32 0x30
  | I16x8GtS => push 0xFD +> encode_u32 0x31
  | I16x8GtU => push 0xFD +> encode_u32 0x32
  | I16x8LeS => push 0xFD +> encode_u32 0x33
  | I16x8LeU => push 0xFD +> encode_u32 0x34
  | I16x8GeS => push 0xFD +> encode_u32 0x35
  | I16x8GeU => push 0xFD +> encode_u32 0x36
  | I32x4Eq => push 0xFD +> encode_u32 0x37
  | I32x4Ne => push 0xFD +> encode_u32 0x38
  | I32x4LtS => push 0xFD +> encode_u32 0x39
  | I32x4LtU => push 0xFD +> encode_u32 0x3A
  | I32x4GtS => push 0xFD +> encode_u32 0x3B
  | I32x4GtU => push 0xFD +> encode_u32 0x3C
  | I32x4LeS => push 0xFD +> encode_u32 0x3D
  | I32x4LeU => push 0xFD +> encode_u32 0x3E
  | I32x4GeS => push 0xFD +> encode_u32 0x3F
  | I32x4GeU => push 0xFD +> encode_u32 0x40
  | F32x4Eq => push 0xFD +> encode_u32 0x41
  | F32x4Ne => push 0xFD +> encode_u32 0x42
  | F32x4Lt => push 0xFD +> encode_u32 0x43
  | F32x4Gt => push 0xFD +> encode_u32 0x44
  | F32x4Le => push 0xFD +> encode_u32 0x45
  | F32x4Ge => push 0xFD +> encode_u32 0x46
  | F64x2Eq => push 0xFD +> encode_u32 0x47
  | F64x2Ne => push 0xFD +> encode_u32 0x48
  | F64x2Lt => push 0xFD +> encode_u32 0x49
  | F64x2Gt => push 0xFD +> encode_u32 0x4A
  | F64x2Le => push 0xFD +> encode_u32 0x4B
  | F64x2Ge => push 0xFD +> encode_u32 0x4C
  end.

Definition encode_simd_i8x16 (i : simd_i8x16_instr) : Enc :=
  match i with
  | V128Not => push 0xFD +> encode_u32 0x4D
  | V128And => push 0xFD +> encode_u32 0x4E
  | V128AndNot => push 0xFD +> encode_u32 0x4F
  | V128Or => push 0xFD +> encode_u32 0x50
  | V128Xor => push 0xFD +> encode_u32 0x51
  | V128Bitselect => push 0xFD +> encode_u32 0x52
  | V128AnyTrue => push 0xFD +> encode_u32 0x53
  | I8x16Abs => push 0xFD +> encode_u32 0x60
  | I8x16Neg => push 0xFD +> encode_u32 0x61
  | I8x16Popcnt => push 0xFD +> encode_u32 0x62
  | I8x16AllTrue => push 0xFD +> encode_u32 0x63
  | I8x16Bitmask => push 0xFD +> encode_u32 0x64
  | I8x16NarrowI16x8S => push 0xFD +> encode_u32 0x65
  | I8x16NarrowI16x8U => push 0xFD +> encode_u32 0x66
  | I8x16Shl => push 0xFD +> encode_u32 0x6b
  | I8x16ShrS => push 0xFD +> encode_u32 0x6c
  | I8x16ShrU => push 0xFD +> encode_u32 0x6d
  | I8x16Add => push 0xFD +> encode_u32 0x6e
  | I8x16AddSatS => push 0xFD +> encode_u32 0x6f
  | I8x16AddSatU => push 0xFD +> encode_u32 0x70
  | I8x16Sub => push 0xFD +> encode_u32 0x71
  | I8x16SubSatS => push 0xFD +> encode_u32 0x72
  | I8x16SubSatU => push 0xFD +> encode_u32 0x73
  | I8x16MinS => push 0xFD +> encode_u32 0x76
  | I8x16MinU => push 0xFD +> encode_u32 0x77
  | I8x16MaxS => push 0xFD +> encode_u32 0x78
  | I8x16MaxU => push 0xFD +> encode_u32 0x79
  | I8x16AvgrU => push 0xFD +> encode_u32 0x7B
  | I16x8ExtAddPairwiseI8x16S => push 0xFD +> encode_u32 0x7C
  | I16x8ExtAddPairwiseI8x16U => push 0xFD +> encode_u32 0x7D
  | I32x4ExtAddPairwiseI16x8S => push 0xFD +> encode_u32 0x7E
  | I32x4ExtAddPairwiseI16x8U => push 0xFD +> encode_u32 0x7F
  end.

Definition encode_simd_i16x8 (i : simd_i16x8_instr) : Enc :=
  match i with
  | I16x8Abs => push 0xFD +> encode_u32 0x80
  | I16x8Neg => push 0xFD +> encode_u32 0x81
  | I16x8Q15MulrSatS => push 0xFD +> encode_u32 0x82
  | I16x8AllTrue => push 0xFD +> encode_u32 0x83
  | I16x8Bitmask => push 0xFD +> encode_u32 0x84
  | I16x8NarrowI32x4S => push 0xFD +> encode_u32 0x85
  | I16x8NarrowI32x4U => push 0xFD +> encode_u32 0x86
  | I16x8ExtendLowI8x16S => push 0xFD +> encode_u32 0x87
  | I16x8ExtendHighI8x16S => push 0xFD +> encode_u32 0x88
  | I16x8ExtendLowI8x16U => push 0xFD +> encode_u32 0x89
  | I16x8ExtendHighI8x16U => push 0xFD +> encode_u32 0x8A
  | I16x8Shl => push 0xFD +> encode_u32 0x8B
  | I16x8ShrS => push 0xFD +> encode_u32 0x8C
  | I16x8ShrU => push 0xFD +> encode_u32 0x8D
  | I16x8Add => push 0xFD +> encode_u32 0x8E
  | I16x8AddSatS => push 0xFD +> encode_u32 0x8F
  | I16x8AddSatU => push 0xFD +> encode_u32 0x90
  | I16x8Sub => push 0xFD +> encode_u32 0x91
  | I16x8SubSatS => push 0xFD +> encode_u32 0x92
  | I16x8SubSatU => push 0xFD +> encode_u32 0x93
  | I16x8Mul => push 0xFD +> encode_u32 0x95
  | I16x8MinS => push 0xFD +> encode_u32 0x96
  | I16x8MinU => push 0xFD +> encode_u32 0x97
  | I16x8MaxS => push 0xFD +> encode_u32 0x98
  | I16x8MaxU => push 0xFD +> encode_u32 0x99
  | I16x8AvgrU => push 0xFD +> encode_u32 0x9B
  | I16x8ExtMulLowI8x16S => push 0xFD +> encode_u32 0x9C
  | I16x8ExtMulHighI8x16S => push 0xFD +> encode_u32 0x9D
  | I16x8ExtMulLowI8x16U => push 0xFD +> encode_u32 0x9E
  | I16x8ExtMulHighI8x16U => push 0xFD +> encode_u32 0x9F
  end.

Definition encode_simd_i32x4 (i : simd_i32x4_instr) : Enc :=
  match i with
  | I32x4Abs => push 0xFD +> encode_u32 0xA0
  | I32x4Neg => push 0xFD +> encode_u32 0xA1
  | I32x4AllTrue => push 0xFD +> encode_u32 0xA3
  | I32x4Bitmask => push 0xFD +> encode_u32 0xA4
  | I32x4ExtendLowI16x8S => push 0xFD +> encode_u32 0xA7
  | I32x4ExtendHighI16x8S => push 0xFD +> encode_u32 0xA8
  | I32x4ExtendLowI16x8U => push 0xFD +> encode_u32 0xA9
  | I32x4ExtendHighI16x8U => push 0xFD +> encode_u32 0xAA
  | I32x4Shl => push 0xFD +> encode_u32 0xAB
  | I32x4ShrS => push 0xFD +> encode_u32 0xAC
  | I32x4ShrU => push 0xFD +> encode_u32 0xAD
  | I32x4Add => push 0xFD +> encode_u32 0xAE
  | I32x4Sub => push 0xFD +> encode_u32 0xB1
  | I32x4Mul => push 0xFD +> encode_u32 0xB5
  | I32x4MinS => push 0xFD +> encode_u32 0xB6
  | I32x4MinU => push 0xFD +> encode_u32 0xB7
  | I32x4MaxS => push 0xFD +> encode_u32 0xB8
  | I32x4MaxU => push 0xFD +> encode_u32 0xB9
  | I32x4DotI16x8S => push 0xFD +> encode_u32 0xBA
  | I32x4ExtMulLowI16x8S => push 0xFD +> encode_u32 0xBC
  | I32x4ExtMulHighI16x8S => push 0xFD +> encode_u32 0xBD
  | I32x4ExtMulLowI16x8U => push 0xFD +> encode_u32 0xBE
  | I32x4ExtMulHighI16x8U => push 0xFD +> encode_u32 0xBF
  end.

Definition encode_simd_i64x2 (i : simd_i64x2_instr) : Enc :=
  match i with
  | I64x2Abs => push 0xFD +> encode_u32 0xC0
  | I64x2Neg => push 0xFD +> encode_u32 0xC1
  | I64x2AllTrue => push 0xFD +> encode_u32 0xC3
  | I64x2Bitmask => push 0xFD +> encode_u32 0xC4
  | I64x2ExtendLowI32x4S => push 0xFD +> encode_u32 0xC7
  | I64x2ExtendHighI32x4S => push 0xFD +> encode_u32 0xC8
  | I64x2ExtendLowI32x4U => push 0xFD +> encode_u32 0xC9
  | I64x2ExtendHighI32x4U => push 0xFD +> encode_u32 0xCA
  | I64x2Shl => push 0xFD +> encode_u32 0xCB
  | I64x2ShrS => push 0xFD +> encode_u32 0xCC
  | I64x2ShrU => push 0xFD +> encode_u32 0xCD
  | I64x2Add => push 0xFD +> encode_u32 0xCE
  | I64x2Sub => push 0xFD +> encode_u32 0xD1
  | I64x2Mul => push 0xFD +> encode_u32 0xD5
  | I64x2ExtMulLowI32x4S => push 0xFD +> encode_u32 0xDC
  | I64x2ExtMulHighI32x4S => push 0xFD +> encode_u32 0xDD
  | I64x2ExtMulLowI32x4U => push 0xFD +> encode_u32 0xDE
  | I64x2ExtMulHighI32x4U => push 0xFD +> encode_u32 0xDF
  end.

Definition encode_simd_float (i : simd_float_instr) : Enc :=
  match i with
  | F32x4Ceil => push 0xFD +> encode_u32 0x67
  | F32x4Floor => push 0xFD +> encode_u32 0x68
  | F32x4Trunc => push 0xFD +> encode_u32 0x69
  | F32x4Nearest => push 0xFD +> encode_u32 0x6A
  | F32x4Abs => push 0xFD +> encode_u32 0xE0
  | F32x4Neg => push 0xFD +> encode_u32 0xE1
  | F32x4Sqrt => push 0xFD +> encode_u32 0xE3
  | F32x4Add => push 0xFD +> encode_u32 0xE4
  | F32x4Sub => push 0xFD +> encode_u32 0xE5
  | F32x4Mul => push 0xFD +> encode_u32 0xE6
  | F32x4Div => push 0xFD +> encode_u32 0xE7
  | F32x4Min => push 0xFD +> encode_u32 0xE8
  | F32x4Max => push 0xFD +> encode_u32 0xE9
  | F32x4PMin => push 0xFD +> encode_u32 0xEA
  | F32x4PMax => push 0xFD +> encode_u32 0xEB
  | F64x2Ceil => push 0xFD +> encode_u32 0x74
  | F64x2Floor => push 0xFD +> encode_u32 0x75
  | F64x2Trunc => push 0xFD +> encode_u32 0x7A
  | F64x2Nearest => push 0xFD +> encode_u32 0x94
  | F64x2Abs => push 0xFD +> encode_u32 0xEC
  | F64x2Neg => push 0xFD +> encode_u32 0xED
  | F64x2Sqrt => push 0xFD +> encode_u32 0xEF
  | F64x2Add => push 0xFD +> encode_u32 0xF0
  | F64x2Sub => push 0xFD +> encode_u32 0xF1
  | F64x2Mul => push 0xFD +> encode_u32 0xF2
  | F64x2Div => push 0xFD +> encode_u32 0xF3
  | F64x2Min => push 0xFD +> encode_u32 0xF4
  | F64x2Max => push 0xFD +> encode_u32 0xF5
  | F64x2PMin => push 0xFD +> encode_u32 0xF6
  | F64x2PMax => push 0xFD +> encode_u32 0xF7
  end.

Definition encode_simd_conv (i : simd_conv_instr) : Enc :=
  match i with
  | I32x4TruncSatF32x4S => push 0xFD +> encode_u32 0xF8
  | I32x4TruncSatF32x4U => push 0xFD +> encode_u32 0xF9
  | F32x4ConvertI32x4S => push 0xFD +> encode_u32 0xFA
  | F32x4ConvertI32x4U => push 0xFD +> encode_u32 0xFB
  | I32x4TruncSatF64x2SZero => push 0xFD +> encode_u32 0xFC
  | I32x4TruncSatF64x2UZero => push 0xFD +> encode_u32 0xFD
  | F64x2ConvertLowI32x4S => push 0xFD +> encode_u32 0xFE
  | F64x2ConvertLowI32x4U => push 0xFD +> encode_u32 0xFF
  | F32x4DemoteF64x2Zero => push 0xFD +> encode_u32 0x5E
  | F64x2PromoteLowF32x4 => push 0xFD +> encode_u32 0x5F
  end.

Definition encode_simd_mem (i : simd_mem_instr) : Enc :=
  match i with
  | V128Load32Zero memarg => push 0xFD +> encode_u32 0x5C +> WE.encode_mem_arg memarg
  | V128Load64Zero memarg => push 0xFD +> encode_u32 0x5D +> WE.encode_mem_arg memarg
  | V128Load8Lane memarg lane =>
      push 0xFD
      +> encode_u32 0x54
      +> WE.encode_mem_arg memarg
      +> assert_enc (lane <? 16)
      +> push lane
  | V128Load16Lane memarg lane =>
      push 0xFD
      +> encode_u32 0x55
      +> WE.encode_mem_arg memarg
      +> assert_enc (lane <? 8)
      +> push lane
  | V128Load32Lane memarg lane =>
      push 0xFD
      +> encode_u32 0x56
      +> WE.encode_mem_arg memarg
      +> assert_enc (lane <? 4)
      +> push lane
  | V128Load64Lane memarg lane =>
      push 0xFD
      +> encode_u32 0x57
      +> WE.encode_mem_arg memarg
      +> assert_enc (lane <? 2)
      +> push lane
  | V128Store8Lane memarg lane =>
      push 0xFD
      +> encode_u32 0x58
      +> WE.encode_mem_arg memarg
      +> assert_enc (lane <? 16)
      +> push lane
  | V128Store16Lane memarg lane =>
      push 0xFD
      +> encode_u32 0x59
      +> WE.encode_mem_arg memarg
      +> assert_enc (lane <? 8)
      +> push lane
  | V128Store32Lane memarg lane =>
      push 0xFD
      +> encode_u32 0x5A
      +> WE.encode_mem_arg memarg
      +> assert_enc (lane <? 4)
      +> push lane
  | V128Store64Lane memarg lane =>
      push 0xFD
      +> encode_u32 0x5B
      +> WE.encode_mem_arg memarg
      +> assert_enc (lane <? 2)
      +> push lane
  | I64x2Eq => push 0xFD +> encode_u32 0xD6
  | I64x2Ne => push 0xFD +> encode_u32 0xD7
  | I64x2LtS => push 0xFD +> encode_u32 0xD8
  | I64x2GtS => push 0xFD +> encode_u32 0xD9
  | I64x2LeS => push 0xFD +> encode_u32 0xDA
  | I64x2GeS => push 0xFD +> encode_u32 0xDB
  end.

Definition encode_relaxed (i : relaxed_instr) : Enc :=
  match i with
  | I8x16RelaxedSwizzle => push 0xFD +> encode_u32 0x100
  | I32x4RelaxedTruncF32x4S => push 0xFD +> encode_u32 0x101
  | I32x4RelaxedTruncF32x4U => push 0xFD +> encode_u32 0x102
  | I32x4RelaxedTruncF64x2SZero => push 0xFD +> encode_u32 0x103
  | I32x4RelaxedTruncF64x2UZero => push 0xFD +> encode_u32 0x104
  | F32x4RelaxedMadd => push 0xFD +> encode_u32 0x105
  | F32x4RelaxedNmadd => push 0xFD +> encode_u32 0x106
  | F64x2RelaxedMadd => push 0xFD +> encode_u32 0x107
  | F64x2RelaxedNmadd => push 0xFD +> encode_u32 0x108
  | I8x16RelaxedLaneselect => push 0xFD +> encode_u32 0x109
  | I16x8RelaxedLaneselect => push 0xFD +> encode_u32 0x10A
  | I32x4RelaxedLaneselect => push 0xFD +> encode_u32 0x10B
  | I64x2RelaxedLaneselect => push 0xFD +> encode_u32 0x10C
  | F32x4RelaxedMin => push 0xFD +> encode_u32 0x10D
  | F32x4RelaxedMax => push 0xFD +> encode_u32 0x10E
  | F64x2RelaxedMin => push 0xFD +> encode_u32 0x10F
  | F64x2RelaxedMax => push 0xFD +> encode_u32 0x110
  | I16x8RelaxedQ15mulrS => push 0xFD +> encode_u32 0x111
  | I16x8RelaxedDotI8x16I7x16S => push 0xFD +> encode_u32 0x112
  | I32x4RelaxedDotI8x16I7x16AddS => push 0xFD +> encode_u32 0x113
  end.

Definition encode_atomic (i : atomic_instr) : Enc :=
  match i with
  | MemoryAtomicNotify memarg => push 0xFE +> push 0x00 +> WE.encode_mem_arg memarg
  | MemoryAtomicWait32 memarg => push 0xFE +> push 0x01 +> WE.encode_mem_arg memarg
  | MemoryAtomicWait64 memarg => push 0xFE +> push 0x02 +> WE.encode_mem_arg memarg
  | AtomicFence => push 0xFE +> push 0x03 +> push 0x00
  | I32AtomicLoad memarg => push 0xFE +> push 0x10 +> WE.encode_mem_arg memarg
  | I64AtomicLoad memarg => push 0xFE +> push 0x11 +> WE.encode_mem_arg memarg
  | I32AtomicLoad8U memarg => push 0xFE +> push 0x12 +> WE.encode_mem_arg memarg
  | I32AtomicLoad16U memarg => push 0xFE +> push 0x13 +> WE.encode_mem_arg memarg
  | I64AtomicLoad8U memarg => push 0xFE +> push 0x14 +> WE.encode_mem_arg memarg
  | I64AtomicLoad16U memarg => push 0xFE +> push 0x15 +> WE.encode_mem_arg memarg
  | I64AtomicLoad32U memarg => push 0xFE +> push 0x16 +> WE.encode_mem_arg memarg
  | I32AtomicStore memarg => push 0xFE +> push 0x17 +> WE.encode_mem_arg memarg
  | I64AtomicStore memarg => push 0xFE +> push 0x18 +> WE.encode_mem_arg memarg
  | I32AtomicStore8 memarg => push 0xFE +> push 0x19 +> WE.encode_mem_arg memarg
  | I32AtomicStore16 memarg => push 0xFE +> push 0x1A +> WE.encode_mem_arg memarg
  | I64AtomicStore8 memarg => push 0xFE +> push 0x1B +> WE.encode_mem_arg memarg
  | I64AtomicStore16 memarg => push 0xFE +> push 0x1C +> WE.encode_mem_arg memarg
  | I64AtomicStore32 memarg => push 0xFE +> push 0x1D +> WE.encode_mem_arg memarg
  end.

Definition encode_atomic_rmw (i : atomic_rmw_instr) : Enc :=
  match i with
  | I32AtomicRmwAdd memarg => push 0xFE +> push 0x1E +> WE.encode_mem_arg memarg
  | I64AtomicRmwAdd memarg => push 0xFE +> push 0x1F +> WE.encode_mem_arg memarg
  | I32AtomicRmw8AddU memarg => push 0xFE +> push 0x20 +> WE.encode_mem_arg memarg
  | I32AtomicRmw16AddU memarg => push 0xFE +> push 0x21 +> WE.encode_mem_arg memarg
  | I64AtomicRmw8AddU memarg => push 0xFE +> push 0x22 +> WE.encode_mem_arg memarg
  | I64AtomicRmw16AddU memarg => push 0xFE +> push 0x23 +> WE.encode_mem_arg memarg
  | I64AtomicRmw32AddU memarg => push 0xFE +> push 0x24 +> WE.encode_mem_arg memarg
  | I32AtomicRmwSub memarg => push 0xFE +> push 0x25 +> WE.encode_mem_arg memarg
  | I64AtomicRmwSub memarg => push 0xFE +> push 0x26 +> WE.encode_mem_arg memarg
  | I32AtomicRmw8SubU memarg => push 0xFE +> push 0x27 +> WE.encode_mem_arg memarg
  | I32AtomicRmw16SubU memarg => push 0xFE +> push 0x28 +> WE.encode_mem_arg memarg
  | I64AtomicRmw8SubU memarg => push 0xFE +> push 0x29 +> WE.encode_mem_arg memarg
  | I64AtomicRmw16SubU memarg => push 0xFE +> push 0x2A +> WE.encode_mem_arg memarg
  | I64AtomicRmw32SubU memarg => push 0xFE +> push 0x2B +> WE.encode_mem_arg memarg
  | I32AtomicRmwAnd memarg => push 0xFE +> push 0x2C +> WE.encode_mem_arg memarg
  | I64AtomicRmwAnd memarg => push 0xFE +> push 0x2D +> WE.encode_mem_arg memarg
  | I32AtomicRmw8AndU memarg => push 0xFE +> push 0x2E +> WE.encode_mem_arg memarg
  | I32AtomicRmw16AndU memarg => push 0xFE +> push 0x2F +> WE.encode_mem_arg memarg
  | I64AtomicRmw8AndU memarg => push 0xFE +> push 0x30 +> WE.encode_mem_arg memarg
  | I64AtomicRmw16AndU memarg => push 0xFE +> push 0x31 +> WE.encode_mem_arg memarg
  | I64AtomicRmw32AndU memarg => push 0xFE +> push 0x32 +> WE.encode_mem_arg memarg
  | I32AtomicRmwOr memarg => push 0xFE +> push 0x33 +> WE.encode_mem_arg memarg
  | I64AtomicRmwOr memarg => push 0xFE +> push 0x34 +> WE.encode_mem_arg memarg
  | I32AtomicRmw8OrU memarg => push 0xFE +> push 0x35 +> WE.encode_mem_arg memarg
  | I32AtomicRmw16OrU memarg => push 0xFE +> push 0x36 +> WE.encode_mem_arg memarg
  | I64AtomicRmw8OrU memarg => push 0xFE +> push 0x37 +> WE.encode_mem_arg memarg
  | I64AtomicRmw16OrU memarg => push 0xFE +> push 0x38 +> WE.encode_mem_arg memarg
  | I64AtomicRmw32OrU memarg => push 0xFE +> push 0x39 +> WE.encode_mem_arg memarg
  end.

Definition encode_atomic_xchg (i : atomic_xchg_instr) : Enc :=
  match i with
  | I32AtomicRmwXor memarg => push 0xFE +> push 0x3A +> WE.encode_mem_arg memarg
  | I64AtomicRmwXor memarg => push 0xFE +> push 0x3B +> WE.encode_mem_arg memarg
  | I32AtomicRmw8XorU memarg => push 0xFE +> push 0x3C +> WE.encode_mem_arg memarg
  | I32AtomicRmw16XorU memarg => push 0xFE +> push 0x3D +> WE.encode_mem_arg memarg
  | I64AtomicRmw8XorU memarg => push 0xFE +> push 0x3E +> WE.encode_mem_arg memarg
  | I64AtomicRmw16XorU memarg => push 0xFE +> push 0x3F +> WE.encode_mem_arg memarg
  | I64AtomicRmw32XorU memarg => push 0xFE +> push 0x40 +> WE.encode_mem_arg memarg
  | I32AtomicRmwXchg memarg => push 0xFE +> push 0x41 +> WE.encode_mem_arg memarg
  | I64AtomicRmwXchg memarg => push 0xFE +> push 0x42 +> WE.encode_mem_arg memarg
  | I32AtomicRmw8XchgU memarg => push 0xFE +> push 0x43 +> WE.encode_mem_arg memarg
  | I32AtomicRmw16XchgU memarg => push 0xFE +> push 0x44 +> WE.encode_mem_arg memarg
  | I64AtomicRmw8XchgU memarg => push 0xFE +> push 0x45 +> WE.encode_mem_arg memarg
  | I64AtomicRmw16XchgU memarg => push 0xFE +> push 0x46 +> WE.encode_mem_arg memarg
  | I64AtomicRmw32XchgU memarg => push 0xFE +> push 0x47 +> WE.encode_mem_arg memarg
  | I32AtomicRmwCmpxchg memarg => push 0xFE +> push 0x48 +> WE.encode_mem_arg memarg
  | I64AtomicRmwCmpxchg memarg => push 0xFE +> push 0x49 +> WE.encode_mem_arg memarg
  | I32AtomicRmw8CmpxchgU memarg => push 0xFE +> push 0x4A +> WE.encode_mem_arg memarg
  | I32AtomicRmw16CmpxchgU memarg => push 0xFE +> push 0x4B +> WE.encode_mem_arg memarg
  | I64AtomicRmw8CmpxchgU memarg => push 0xFE +> push 0x4C +> WE.encode_mem_arg memarg
  | I64AtomicRmw16CmpxchgU memarg => push 0xFE +> push 0x4D +> WE.encode_mem_arg memarg
  | I64AtomicRmw32CmpxchgU memarg => push 0xFE +> push 0x4E +> WE.encode_mem_arg memarg
  end.

Definition encode_shared_global (i : shared_global_instr) : Enc :=
  match i with
  | GlobalAtomicGet ordering global_index =>
      push 0xFE +> push 0x4F +> WE.encode_ordering ordering +> encode_u32 global_index
  | GlobalAtomicSet ordering global_index =>
      push 0xFE +> push 0x50 +> WE.encode_ordering ordering +> encode_u32 global_index
  | GlobalAtomicRmwAdd ordering global_index =>
      push 0xFE +> push 0x51 +> WE.encode_ordering ordering +> encode_u32 global_index
  | GlobalAtomicRmwSub ordering global_index =>
      push 0xFE +> push 0x52 +> WE.encode_ordering ordering +> encode_u32 global_index
  | GlobalAtomicRmwAnd ordering global_index =>
      push 0xFE +> push 0x53 +> WE.encode_ordering ordering +> encode_u32 global_index
  | GlobalAtomicRmwOr ordering global_index =>
      push 0xFE +> push 0x54 +> WE.encode_ordering ordering +> encode_u32 global_index
  | GlobalAtomicRmwXor ordering global_index =>
      push 0xFE +> push 0x55 +> WE.encode_ordering ordering +> encode_u32 global_index
  | GlobalAtomicRmwXchg ordering global_index =>
      push 0xFE +> push 0x56 +> WE.encode_ordering ordering +> encode_u32 global_index
  | GlobalAtomicRmwCmpxchg ordering global_index =>
      push 0xFE +> push 0x57 +> WE.encode_ordering ordering +> encode_u32 global_index
  | TableAtomicGet ordering table_index =>
      push 0xFE +> push 0x58 +> WE.encode_ordering ordering +> encode_u32 table_index
  | TableAtomicSet ordering table_index =>
      push 0xFE +> push 0x59 +> WE.encode_ordering ordering +> encode_u32 table_index
  | TableAtomicRmwXchg ordering table_index =>
      push 0xFE +> push 0x5A +> WE.encode_ordering ordering +> encode_u32 table_index
  | TableAtomicRmwCmpxchg ordering table_index =>
      push 0xFE +> push 0x5B +> WE.encode_ordering ordering +> encode_u32 table_index
  end.

Definition encode_shared_struct (i : shared_struct_instr) : Enc :=
  match i with
  | StructAtomicGet ordering struct_type_index field_index =>
      push 0xFE
      +> push 0x5C
      +> WE.encode_ordering ordering
      +> encode_u32 struct_type_index
      +> encode_u32 field_index
  | StructAtomicGetS ordering struct_type_index field_index =>
      push 0xFE
      +> push 0x5D
      +> WE.encode_ordering ordering
      +> encode_u32 struct_type_index
      +> encode_u32 field_index
  | StructAtomicGetU ordering struct_type_index field_index =>
      push 0xFE
      +> push 0x5E
      +> WE.encode_ordering ordering
      +> encode_u32 struct_type_index
      +> encode_u32 field_index
  | StructAtomicSet ordering struct_type_index field_index =>
      push 0xFE
      +> push 0x5F
      +> WE.encode_ordering ordering
      +> encode_u32 struct_type_index
      +> encode_u32 field_index
  | StructAtomicRmwAdd ordering struct_type_index field_index =>
      push 0xFE
      +> push 0x60
      +> WE.encode_ordering ordering
      +> encode_u32 struct_type_index
      +> encode_u32 field_index
  | StructAtomicRmwSub ordering struct_type_index field_index =>
      push 0xFE
      +> push 0x61
      +> WE.encode_ordering ordering
      +> encode_u32 struct_type_index
      +> encode_u32 field_index
  | StructAtomicRmwAnd ordering struct_type_index field_index =>
      push 0xFE
      +> push 0x62
      +> WE.encode_ordering ordering
      +> encode_u32 struct_type_index
      +> encode_u32 field_index
  | StructAtomicRmwOr ordering struct_type_index field_index =>
      push 0xFE
      +> push 0x63
      +> WE.encode_ordering ordering
      +> encode_u32 struct_type_index
      +> encode_u32 field_index
  | StructAtomicRmwXor ordering struct_type_index field_index =>
      push 0xFE
      +> push 0x64
      +> WE.encode_ordering ordering
      +> encode_u32 struct_type_index
      +> encode_u32 field_index
  | StructAtomicRmwXchg ordering struct_type_index field_index =>
      push 0xFE
      +> push 0x65
      +> WE.encode_ordering ordering
      +> encode_u32 struct_type_index
      +> encode_u32 field_index
  | StructAtomicRmwCmpxchg ordering struct_type_index field_index =>
      push 0xFE
      +> push 0x66
      +> WE.encode_ordering ordering
      +> encode_u32 struct_type_index
      +> encode_u32 field_index
  end.

Definition encode_shared_array (i : shared_array_instr) : Enc :=
  match i with
  | ArrayAtomicGet ordering array_type_index =>
      push 0xFE
      +> push 0x67
      +> WE.encode_ordering ordering
      +> encode_u32 array_type_index
  | ArrayAtomicGetS ordering array_type_index =>
      push 0xFE
      +> push 0x68
      +> WE.encode_ordering ordering
      +> encode_u32 array_type_index
  | ArrayAtomicGetU ordering array_type_index =>
      push 0xFE
      +> push 0x69
      +> WE.encode_ordering ordering
      +> encode_u32 array_type_index
  | ArrayAtomicSet ordering array_type_index =>
      push 0xFE
      +> push 0x6A
      +> WE.encode_ordering ordering
      +> encode_u32 array_type_index
  | ArrayAtomicRmwAdd ordering array_type_index =>
      push 0xFE
      +> push 0x6B
      +> WE.encode_ordering ordering
      +> encode_u32 array_type_index
  | ArrayAtomicRmwSub ordering array_type_index =>
      push 0xFE
      +> push 0x6C
      +> WE.encode_ordering ordering
      +> encode_u32 array_type_index
  | ArrayAtomicRmwAnd ordering array_type_index =>
      push 0xFE
      +> push 0x6D
      +> WE.encode_ordering ordering
      +> encode_u32 array_type_index
  | ArrayAtomicRmwOr ordering array_type_index =>
      push 0xFE
      +> push 0x6E
      +> WE.encode_ordering ordering
      +> encode_u32 array_type_index
  | ArrayAtomicRmwXor ordering array_type_index =>
      push 0xFE
      +> push 0x6F
      +> WE.encode_ordering ordering
      +> encode_u32 array_type_index
  | ArrayAtomicRmwXchg ordering array_type_index =>
      push 0xFE
      +> push 0x70
      +> WE.encode_ordering ordering
      +> encode_u32 array_type_index
  | ArrayAtomicRmwCmpxchg ordering array_type_index =>
      push 0xFE
      +> push 0x71
      +> WE.encode_ordering ordering
      +> encode_u32 array_type_index
  | RefI31Shared => push 0xFE +> push 0x72
  end.

Definition encode_stack (i : stack_instr) : Enc :=
  match i with
  | ContNew type_index => push 0xE0 +> encode_u32 type_index
  | ContBind argument_index result_index =>
      push 0xE1 +> encode_u32 argument_index +> encode_u32 result_index
  | Suspend tag_index => push 0xE2 +> encode_u32 tag_index
  | Resume cont_type_index resume_table =>
      push 0xE3
      +> encode_u32 cont_type_index
      +> encode_list WE.encode_handle resume_table
  | ResumeThrow cont_type_index tag_index resume_table =>
      push 0xE4
      +> encode_u32 cont_type_index
      +> encode_u32 tag_index
      +> encode_list WE.encode_handle resume_table
  | Switch cont_type_index tag_index =>
      push 0xE5 +> encode_u32 cont_type_index +> encode_u32 tag_index
  end.

Definition encode_wide (i : wide_instr) : Enc :=
  match i with
  | I64Add128 => push 0xFC +> encode_u32 19
  | I64Sub128 => push 0xFC +> encode_u32 20
  | I64MulWideS => push 0xFC +> encode_u32 21
  | I64MulWideU => push 0xFC +> encode_u32 22
  end.

Definition encode_instruction (i : Instruction) : Enc :=
  match i with
  | ControlInstr i => encode_control i
  | ParametricInstr i => encode_parametric i
  | VariableInstr i => encode_variable i
  | MemoryInstr i => encode_memory i
  | NumericInstr i => encode_numeric i
  | ArithInstr i => encode_arith i
  | ReferenceInstr i => encode_reference i
  | GcDataInstr i => encode_gc_data i
  | GcRefInstr i => encode_gc_ref i
  | BulkInstr i => encode_bulk i
  | SimdLoadInstr i => encode_simd_load i
  | SimdLaneInstr i => encode_simd_lane i
  | SimdCmpInstr i => encode_simd_cmp i
  | SimdI8x16Instr i => encode_simd_i8x16 i
  | SimdI16x8Instr i => encode_simd_i16x8 i
  | SimdI32x4Instr i => encode_simd_i32x4 i
  | SimdI64x2Instr i => encode_simd_i64x2 i
  | SimdFloatInstr i => encode_simd_float i
  | SimdConvInstr i => encode_simd_conv i
  | SimdMemInstr i => encode_simd_mem i
  | RelaxedInstr i => encode_relaxed i
  | AtomicInstr i => encode_atomic i
  | AtomicRmwInstr i => encode_atomic_rmw i
  | AtomicXchgInstr i => encode_atomic_xchg i
  | SharedGlobalInstr i => encode_shared_global i
  | SharedStructInstr i => encode_shared_struct i
  | SharedArrayInstr i => encode_shared_array i
  | StackInstr i => encode_stack i
  | WideInstr i => encode_wide i
  end.
End encode.

End Instr.

Coercion Instr.ControlInstr : Instr.control_instr >-> Instr.Instruction.
Coercion Instr.ParametricInstr : Instr.parametric_instr >-> Instr.Instruction.
Coercion Instr.VariableInstr : Instr.variable_instr >-> Instr.Instruction.
Coercion Instr.MemoryInstr : Instr.memory_instr >-> Instr.Instruction.
Coercion Instr.NumericInstr : Instr.numeric_instr >-> Instr.Instruction.
Coercion Instr.ArithInstr : Instr.arith_instr >-> Instr.Instruction.
Coercion Instr.ReferenceInstr : Instr.reference_instr >-> Instr.Instruction.
Coercion Instr.GcDataInstr : Instr.gc_data_instr >-> Instr.Instruction.
Coercion Instr.GcRefInstr : Instr.gc_ref_instr >-> Instr.Instruction.
Coercion Instr.BulkInstr : Instr.bulk_instr >-> Instr.Instruction.
Coercion Instr.SimdLoadInstr : Instr.simd_load_instr >-> Instr.Instruction.
Coercion Instr.SimdLaneInstr : Instr.simd_lane_instr >-> Instr.Instruction.
Coercion Instr.SimdCmpInstr : Instr.simd_cmp_instr >-> Instr.Instruction.
Coercion Instr.SimdI8x16Instr : Instr.simd_i8x16_instr >-> Instr.Instruction.
Coercion Instr.SimdI16x8Instr : Instr.simd_i16x8_instr >-> Instr.Instruction.
Coercion Instr.SimdI32x4Instr : Instr.simd_i32x4_instr >-> Instr.Instruction.
Coercion Instr.SimdI64x2Instr : Instr.simd_i64x2_instr >-> Instr.Instruction.
Coercion Instr.SimdFloatInstr : Instr.simd_float_instr >-> Instr.Instruction.
Coercion Instr.SimdConvInstr : Instr.simd_conv_instr >-> Instr.Instruction.
Coercion Instr.SimdMemInstr : Instr.simd_mem_instr >-> Instr.Instruction.
Coercion Instr.RelaxedInstr : Instr.relaxed_instr >-> Instr.Instruction.
Coercion Instr.AtomicInstr : Instr.atomic_instr >-> Instr.Instruction.
Coercion Instr.AtomicRmwInstr : Instr.atomic_rmw_instr >-> Instr.Instruction.
Coercion Instr.AtomicXchgInstr : Instr.atomic_xchg_instr >-> Instr.Instruction.
Coercion Instr.SharedGlobalInstr : Instr.shared_global_instr >-> Instr.Instruction.
Coercion Instr.SharedStructInstr : Instr.shared_struct_instr >-> Instr.Instruction.
Coercion Instr.SharedArrayInstr : Instr.shared_array_instr >-> Instr.Instruction.
Coercion Instr.StackInstr : Instr.stack_instr >-> Instr.Instruction.
Coercion Instr.WideInstr : Instr.wide_instr >-> Instr.Instruction.
