(* ===== verification/Reencode.v ===== *)
(** Translation of wasmparser's operators to wasm-encoder's instructions: the
    trait [Reencode] and its default methods, [reencode::utils], of
    [crates/wasm-encoder/src/reencode.rs].

    The index hooks of the trait are a class; its other methods are kept at
    their defaults.  The translation of one operator is a function of the
    operator: the hooks are modelled as pure functions. *)

From Stdlib Require Import ZArith Lia String.
From stdpp Require Import prelude.
From S2P Require Import Prelude BinaryReader Types Operands Operators.
From S2P Require Import Leb128 Encode EncTypes Instructions.

Local Open Scope Z_scope.

(** [reencode::Error]; [RPanic] is a Rust panic. *)
Inductive Error :=
| CanonicalizedHeapTypeReference
| InvalidConstExpr
| InvalidCodeSectionSize
| UnexpectedNonCoreModuleSection
| UnexpectedNonComponentSection
| UnsupportedCoreTypeInComponent
| ParseError (e : BinaryReaderError).

Inductive outcome (A : Type) := ROk (a : A) | RErr (e : Error) | RPanic.
Arguments ROk {A} a.
Arguments RErr {A} e.
Arguments RPanic {A}.

#[export] Instance outcome_ret : MRet outcome := fun A a => ROk a.
#[export] Instance outcome_bind : MBind outcome := fun A B k m =>
  match m with
  | ROk a => k a
  | RErr e => RErr e
  | RPanic => RPanic
  end.

(** [impl From<BinaryReaderError> for Error]. *)
Definition from_result {A} (x : result A) : outcome A :=
  match x with
  | Ok a => ROk a
  | Err e => RErr (ParseError e)
  | Panic => RPanic
  end.

Definition unwrap_outcome {A} (o : option A) : outcome A :=
  match o with Some a => ROk a | None => RPanic end.

Module Hooks.
Class Reencode := {
  data_index : Z -> Z;
  element_index : Z -> Z;
  function_index : Z -> Z;
  global_index : Z -> Z;
  memory_index : Z -> Z;
  table_index : Z -> Z;
  tag_index : Z -> Z;
  type_index : Z -> Z;
}.
End Hooks.

(** [RoundtripReencoder]: every hook is the identity of [utils]. *)
Definition RoundtripReencoder : Hooks.Reencode := {|
  Hooks.data_index := fun data => data;
  Hooks.element_index := fun element => element;
  Hooks.function_index := fun func => func;
  Hooks.global_index := fun global => global;
  Hooks.memory_index := fun memory => memory;
  Hooks.table_index := fun table => table;
  Hooks.tag_index := fun tag => tag;
  Hooks.type_index := fun ty => ty |}.

Section utils.
Context {T : Hooks.Reencode}.

Definition mem_arg (arg : MemArg) : WE.MemArg :=
  WE.mkMemArg (memarg_offset arg) (align arg) (Hooks.memory_index (memory arg)).

Definition ordering (arg : Ordering) : WE.Ordering :=
  match arg with
  | SeqCst => WE.SeqCst
  | AcqRel => WE.AcqRel
  end.

Definition catch (arg : Catch) : WE.Catch :=
  match arg with
  | Catch_One tag label => WE.One (Hooks.tag_index tag) label
  | Catch_OneRef tag label => WE.OneRef (Hooks.tag_index tag) label
  | Catch_All label => WE.All label
  | Catch_AllRef label => WE.AllRef label
  end.

Definition handle (arg : Handle) : WE.Handle :=
  match arg with
  | Handle_OnLabel tag label => WE.OnLabel (Hooks.tag_index tag) label
  | Handle_OnSwitch tag => WE.OnSwitch (Hooks.tag_index tag)
  end.

Definition type_index_unpacked (ty : UnpackedIndex) : outcome Z :=
  match unpacked_as_module_index ty with
  | Some ty => ROk (Hooks.type_index ty)
  | None => RErr CanonicalizedHeapTypeReference
  end.

Definition abstract_heap_type (value : AbstractHeapType) : WE.AbstractHeapType :=
  match value with
  | HFunc => WE.Func
  | HExtern => WE.Extern
  | HAny => WE.Any
  | HNone => WE.None_
  | HNoExtern => WE.NoExtern
  | HNoFunc => WE.NoFunc
  | HEq => WE.Eq
  | HStruct => WE.Struct
  | HArray => WE.Array
  | HI31 => WE.I31
  | HExn => WE.Exn
  | HNoExn => WE.NoExn
  | HCont => WE.Cont
  | HNoCont => WE.NoCont
  end.

Definition heap_type (ht : HeapType) : outcome WE.HeapType :=
  match ht with
  | Concrete i => i ← type_index_unpacked i; mret (WE.Concrete i)
  | Abstract shared ty => mret (WE.Abstract shared (abstract_heap_type ty))
  end.

Definition ref_type (rt : RefType) : outcome WE.RefType :=
  ht ← unwrap_outcome (rt_heap_type rt);
  ht ← heap_type ht;
  mret (WE.mkRefType (is_nullable rt) ht).

Definition val_type (val_ty : ValType) : outcome WE.ValType :=
  match val_ty with
  | I32 => mret WE.I32
  | I64 => mret WE.I64
  | F32 => mret WE.F32
  | F64 => mret WE.F64
  | V128 => mret WE.V128
  | Ref r => r ← ref_type r; mret (WE.Ref r)
  end.

Definition block_type (arg : BlockType) : outcome WE.BlockType :=
  match arg with
  | BT_Empty => mret WE.Empty
  | BT_FuncType n => mret (WE.FunctionType (Hooks.type_index n))
  | BT_Type t => t ← val_type t; mret (WE.Result t)
  end.

(** [$arg.targets().collect::<Result<Vec<_>, _>>()?]. *)
Definition br_targets (t : BrTable) : outcome (list Z) := from_result (br_table_targets t).

(** [Ok(..)] of the instruction the [build] rules of the macro construct. *)
Definition build (i : Instr.Instruction) : outcome Instr.Instruction := ROk i.

(** The macro [translate!] of [utils::instruction], group by group. *)

Definition instruction_mvp (arg : Op.mvp_op) : outcome Instr.Instruction :=
  match arg with
  | Op.Unreachable => build Instr.Unreachable
  | Op.Nop => build Instr.Nop
  | Op.Block blockty => blockty ← block_type blockty; build (Instr.Block blockty)
  | Op.Loop blockty => blockty ← block_type blockty; build (Instr.Loop blockty)
  | Op.If blockty => blockty ← block_type blockty; build (Instr.If blockty)
  | Op.Else => build Instr.Else
  | Op.End => build Instr.End
  | Op.Br relative_depth => build (Instr.Br relative_depth)
  | Op.BrIf relative_depth => build (Instr.BrIf relative_depth)
  | Op.BrTable targets =>
    ls ← br_targets targets;
    build (Instr.BrTable ls (default targets))
  | Op.Return => build Instr.Return
  | Op.Call function_index => build (Instr.Call (Hooks.function_index function_index))
  | Op.CallIndirect type_index table_index =>
    build (Instr.CallIndirect (Hooks.type_index type_index) (Hooks.table_index table_index))
  | Op.Drop => build Instr.Drop
  | Op.Select => build Instr.Select
  | Op.LocalGet local_index => build (Instr.LocalGet local_index)
  | Op.LocalSet local_index => build (Instr.LocalSet local_index)
  | Op.LocalTee local_index => build (Instr.LocalTee local_index)
  | Op.GlobalGet global_index =>
    build (Instr.GlobalGet (Hooks.global_index global_index))
  | Op.GlobalSet global_index =>
    build (Instr.GlobalSet (Hooks.global_index global_index))
  | Op.I32Load memarg => build (Instr.I32Load (mem_arg memarg))
  | Op.I64Load memarg => build (Instr.I64Load (mem_arg memarg))
  | Op.F32Load memarg => build (Instr.F32Load (mem_arg memarg))
  | Op.F64Load memarg => build (Instr.F64Load (mem_arg memarg))
  | Op.I32Load8S memarg => build (Instr.I32Load8S (mem_arg memarg))
  | Op.I32Load8U memarg => build (Instr.I32Load8U (mem_arg memarg))
  | Op.I32Load16S memarg => build (Instr.I32Load16S (mem_arg memarg))
  | Op.I32Load16U memarg => build (Instr.I32Load16U (mem_arg memarg))
  | Op.I64Load8S memarg => build (Instr.I64Load8S (mem_arg memarg))
  | Op.I64Load8U memarg => build (Instr.I64Load8U (mem_arg memarg))
  | Op.I64Load16S memarg => build (Instr.I64Load16S (mem_arg memarg))
  | Op.I64Load16U memarg => build (Instr.I64Load16U (mem_arg memarg))
  | Op.I64Load32S memarg => build (Instr.I64Load32S (mem_arg memarg))
  | Op.I64Load32U memarg => build (Instr.I64Load32U (mem_arg memarg))
  | Op.I32Store memarg => build (Instr.I32Store (mem_arg memarg))
  | Op.I64Store memarg => build (Instr.I64Store (mem_arg memarg))
  | Op.F32Store memarg => build (Instr.F32Store (mem_arg memarg))
  | Op.F64Store memarg => build (Instr.F64Store (mem_arg memarg))
  | Op.I32Store8 memarg => build (Instr.I32Store8 (mem_arg memarg))
  | Op.I32Store16 memarg => build (Instr.I32Store16 (mem_arg memarg))
  | Op.I64Store8 memarg => build (Instr.I64Store8 (mem_arg memarg))
  | Op.I64Store16 memarg => build (Instr.I64Store16 (mem_arg memarg))
  | Op.I64Store32 memarg => build (Instr.I64Store32 (mem_arg memarg))
  | Op.MemorySize mem => build (Instr.MemorySize (Hooks.memory_index mem))
  | Op.MemoryGrow mem => build (Instr.MemoryGrow (Hooks.memory_index mem))
  | Op.I32Const value => build (Instr.I32Const value)
  | Op.I64Const value => build (Instr.I64Const value)
  | Op.F32Const value => build (Instr.F32Const value)
  | Op.F64Const value => build (Instr.F64Const value)
  | Op.I32Eqz => build Instr.I32Eqz
  | Op.I32Eq => build Instr.I32Eq
  | Op.I32Ne => build Instr.I32Ne
  | Op.I32LtS => build Instr.I32LtS
  | Op.I32LtU => build Instr.I32LtU
  | Op.I32GtS => build Instr.I32GtS
  | Op.I32GtU => build Instr.I32GtU
  | Op.I32LeS => build Instr.I32LeS
  | Op.I32LeU => build Instr.I32LeU
  | Op.I32GeS => build Instr.I32GeS
  | Op.I32GeU => build Instr.I32GeU
  | Op.I64Eqz => build Instr.I64Eqz
  | Op.I64Eq => build Instr.I64Eq
  | Op.I64Ne => build Instr.I64Ne
  | Op.I64LtS => build Instr.I64LtS
  | Op.I64LtU => build Instr.I64LtU
  | Op.I64GtS => build Instr.I64GtS
  | Op.I64GtU => build Instr.I64GtU
  | Op.I64LeS => build Instr.I64LeS
  | Op.I64LeU => build Instr.I64LeU
  | Op.I64GeS => build Instr.I64GeS
  | Op.I64GeU => build Instr.I64GeU
  | Op.F32Eq => build Instr.F32Eq
  | Op.F32Ne => build Instr.F32Ne
  | Op.F32Lt => build Instr.F32Lt
  | Op.F32Gt => build Instr.F32Gt
  | Op.F32Le => build Instr.F32Le
  | Op.F32Ge => build Instr.F32Ge
  | Op.F64Eq => build Instr.F64Eq
  | Op.F64Ne => build Instr.F64Ne
  | Op.F64Lt => build Instr.F64Lt
  | Op.F64Gt => build Instr.F64Gt
  | Op.F64Le => build Instr.F64Le
  | Op.F64Ge => build Instr.F64Ge
  | Op.I32Clz => build Instr.I32Clz
  | Op.I32Ctz => build Instr.I32Ctz
  | Op.I32Popcnt => build Instr.I32Popcnt
  | Op.I32Add => build Instr.I32Add
  | Op.I32Sub => build Instr.I32Sub
  | Op.I32Mul => build Instr.I32Mul
  | Op.I32DivS => build Instr.I32DivS
  | Op.I32DivU => build Instr.I32DivU
  | Op.I32RemS => build Instr.I32RemS
  | Op.I32RemU => build Instr.I32RemU
  | Op.I32And => build Instr.I32And
  | Op.I32Or => build Instr.I32Or
  | Op.I32Xor => build Instr.I32Xor
  | Op.I32Shl => build Instr.I32Shl
  | Op.I32ShrS => build Instr.I32ShrS
  | Op.I32ShrU => build Instr.I32ShrU
  | Op.I32Rotl => build Instr.I32Rotl
  | Op.I32Rotr => build Instr.I32Rotr
  | Op.I64Clz => build Instr.I64Clz
  | Op.I64Ctz => build Instr.I64Ctz
  | Op.I64Popcnt => build Instr.I64Popcnt
  | Op.I64Add => build Instr.I64Add
  | Op.I64Sub => build Instr.I64Sub
  | Op.I64Mul => build Instr.I64Mul
  | Op.I64DivS => build Instr.I64DivS
  | Op.I64DivU => build Instr.I64DivU
  | Op.I64RemS => build Instr.I64RemS
  | Op.I64RemU => build Instr.I64RemU
  | Op.I64And => build Instr.I64And
  | Op.I64Or => build Instr.I64Or
  | Op.I64Xor => build Instr.I64Xor
  | Op.I64Shl => build Instr.I64Shl
  | Op.I64ShrS => build Instr.I64ShrS
  | Op.I64ShrU => build Instr.I64ShrU
  | Op.I64Rotl => build Instr.I64Rotl
  | Op.I64Rotr => build Instr.I64Rotr
  | Op.F32Abs => build Instr.F32Abs
  | Op.F32Neg => build Instr.F32Neg
  | Op.F32Ceil => build Instr.F32Ceil
  | Op.F32Floor => build Instr.F32Floor
  | Op.F32Trunc => build Instr.F32Trunc
  | Op.F32Nearest => build Instr.F32Nearest
  | Op.F32Sqrt => build Instr.F32Sqrt
  | Op.F32Add => build Instr.F32Add
  | Op.F32Sub => build Instr.F32Sub
  | Op.F32Mul => build Instr.F32Mul
  | Op.F32Div => build Instr.F32Div
  | Op.F32Min => build Instr.F32Min
  | Op.F32Max => build Instr.F32Max
  | Op.F32Copysign => build Instr.F32Copysign
  | Op.F64Abs => build Instr.F64Abs
  | Op.F64Neg => build Instr.F64Neg
  | Op.F64Ceil => build Instr.F64Ceil
  | Op.F64Floor => build Instr.F64Floor
  | Op.F64Trunc => build Instr.F64Trunc
  | Op.F64Nearest => build Instr.F64Nearest
  | Op.F64Sqrt => build Instr.F64Sqrt
  | Op.F64Add => build Instr.F64Add
  | Op.F64Sub => build Instr.F64Sub
  | Op.F64Mul => build Instr.F64Mul
  | Op.F64Div => build Instr.F64Div
  | Op.F64Min => build Instr.F64Min
  | Op.F64Max => build Instr.F64Max
  | Op.F64Copysign => build Instr.F64Copysign
  | Op.I32WrapI64 => build Instr.I32WrapI64
  | Op.I32TruncF32S => build Instr.I32TruncF32S
  | Op.I32TruncF32U => build Instr.I32TruncF32U
  | Op.I32TruncF64S => build Instr.I32TruncF64S
  | Op.I32TruncF64U => build Instr.I32TruncF64U
  | Op.I64ExtendI32S => build Instr.I64ExtendI32S
  | Op.I64ExtendI32U => build Instr.I64ExtendI32U
  | Op.I64TruncF32S => build Instr.I64TruncF32S
  | Op.I64TruncF32U => build Instr.I64TruncF32U
  | Op.I64TruncF64S => build Instr.I64TruncF64S
  | Op.I64TruncF64U => build Instr.I64TruncF64U
  | Op.F32ConvertI32S => build Instr.F32ConvertI32S
  | Op.F32ConvertI32U => build Instr.F32ConvertI32U
  | Op.F32ConvertI64S => build Instr.F32ConvertI64S
  | Op.F32ConvertI64U => build Instr.F32ConvertI64U
  | Op.F32DemoteF64 => build Instr.F32DemoteF64
  | Op.F64ConvertI32S => build Instr.F64ConvertI32S
  | Op.F64ConvertI32U => build Instr.F64ConvertI32U
  | Op.F64ConvertI64S => build Instr.F64ConvertI64S
  | Op.F64ConvertI64U => build Instr.F64ConvertI64U
  | Op.F64PromoteF32 => build Instr.F64PromoteF32
  | Op.I32ReinterpretF32 => build Instr.I32ReinterpretF32
  | Op.I64ReinterpretF64 => build Instr.I64ReinterpretF64
  | Op.F32ReinterpretI32 => build Instr.F32ReinterpretI32
  | Op.F64ReinterpretI64 => build Instr.F64ReinterpretI64
  end.

Definition instruction_sign_extension (arg : Op.sign_extension_op) : outcome Instr.Instruction :=
  match arg with
  | Op.I32Extend8S => build Instr.I32Extend8S
  | Op.I32Extend16S => build Instr.I32Extend16S
  | Op.I64Extend8S => build Instr.I64Extend8S
  | Op.I64Extend16S => build Instr.I64Extend16S
  | Op.I64Extend32S => build Instr.I64Extend32S
  end.

Definition instruction_gc (arg : Op.gc_op) : outcome Instr.Instruction :=
  match arg with
  | Op.RefEq => build Instr.RefEq
  | Op.StructNew struct_type_index =>
    build (Instr.StructNew (Hooks.type_index struct_type_index))
  | Op.StructNewDefault struct_type_index =>
    build (Instr.StructNewDefault (Hooks.type_index struct_type_index))
  | Op.StructGet struct_type_index field_index =>
    build (Instr.StructGet (Hooks.type_index struct_type_index) field_index)
  | Op.StructGetS struct_type_index field_index =>
    build (Instr.StructGetS (Hooks.type_index struct_type_index) field_index)
  | Op.StructGetU struct_type_index field_index =>
    build (Instr.StructGetU (Hooks.type_index struct_type_index) field_index)
  | Op.StructSet struct_type_index field_index =>
    build (Instr.StructSet (Hooks.type_index struct_type_index) field_index)
  | Op.ArrayNew array_type_index =>
    build (Instr.ArrayNew (Hooks.type_index array_type_index))
  | Op.ArrayNewDefault array_type_index =>
    build (Instr.ArrayNewDefault (Hooks.type_index array_type_index))
  | Op.ArrayNewFixed array_type_index array_size =>
    build (Instr.ArrayNewFixed (Hooks.type_index array_type_index) array_size)
  | Op.ArrayNewData array_type_index array_data_index =>
    build (Instr.ArrayNewData (Hooks.type_index array_type_index) (Hooks.data_index array_data_index))
  | Op.ArrayNewElem array_type_index array_elem_index =>
    build (Instr.ArrayNewElem (Hooks.type_index array_type_index) (Hooks.element_index array_elem_index))
  | Op.ArrayGet array_type_index =>
    build (Instr.ArrayGet (Hooks.type_index array_type_index))
  | Op.ArrayGetS array_type_index =>
    build (Instr.ArrayGetS (Hooks.type_index array_type_index))
  | Op.ArrayGetU array_type_index =>
    build (Instr.ArrayGetU (Hooks.type_index array_type_index))
  | Op.ArraySet array_type_index =>
    build (Instr.ArraySet (Hooks.type_index array_type_index))
  | Op.ArrayLen => build Instr.ArrayLen
  | Op.ArrayFill array_type_index =>
    build (Instr.ArrayFill (Hooks.type_index array_type_index))
  | Op.ArrayCopy array_type_index_dst array_type_index_src =>
    build (Instr.ArrayCopy (Hooks.type_index array_type_index_dst) (Hooks.type_index array_type_index_src))
  | Op.ArrayInitData array_type_index array_data_index =>
    build (Instr.ArrayInitData (Hooks.type_index array_type_index) (Hooks.data_index array_data_index))
  | Op.ArrayInitElem array_type_index array_elem_index =>
    build (Instr.ArrayInitElem (Hooks.type_index array_type_index) (Hooks.element_index array_elem_index))
  | Op.RefTestNonNull hty => hty ← heap_type hty; build (Instr.RefTestNonNull hty)
  | Op.RefTestNullable hty => hty ← heap_type hty; build (Instr.RefTestNullable hty)
  | Op.RefCastNonNull hty => hty ← heap_type hty; build (Instr.RefCastNonNull hty)
  | Op.RefCastNullable hty => hty ← heap_type hty; build (Instr.RefCastNullable hty)
  | Op.BrOnCast relative_depth from_ref_type to_ref_type =>
    from_ref_type ← ref_type from_ref_type; to_ref_type ← ref_type to_ref_type; build (Instr.BrOnCast relative_depth from_ref_type to_ref_type)
  | Op.BrOnCastFail relative_depth from_ref_type to_ref_type =>
    from_ref_type ← ref_type from_ref_type; to_ref_type ← ref_type to_ref_type; build (Instr.BrOnCastFail relative_depth from_ref_type to_ref_type)
  | Op.AnyConvertExtern => build Instr.AnyConvertExtern
  | Op.ExternConvertAny => build Instr.ExternConvertAny
  | Op.RefI31 => build Instr.RefI31
  | Op.I31GetS => build Instr.I31GetS
  | Op.I31GetU => build Instr.I31GetU
  end.

Definition instruction_saturating_float_to_int (arg : Op.saturating_float_to_int_op) : outcome Instr.Instruction :=
  match arg with
  | Op.I32TruncSatF32S => build Instr.I32TruncSatF32S
  | Op.I32TruncSatF32U => build Instr.I32TruncSatF32U
  | Op.I32TruncSatF64S => build Instr.I32TruncSatF64S
  | Op.I32TruncSatF64U => build Instr.I32TruncSatF64U
  | Op.I64TruncSatF32S => build Instr.I64TruncSatF32S
  | Op.I64TruncSatF32U => build Instr.I64TruncSatF32U
  | Op.I64TruncSatF64S => build Instr.I64TruncSatF64S
  | Op.I64TruncSatF64U => build Instr.I64TruncSatF64U
  end.

Definition instruction_bulk_memory (arg : Op.bulk_memory_op) : outcome Instr.Instruction :=
  match arg with
  | Op.MemoryInit data_index mem =>
    build (Instr.MemoryInit (Hooks.memory_index mem) (Hooks.data_index data_index))
  | Op.DataDrop data_index => build (Instr.DataDrop (Hooks.data_index data_index))
  | Op.MemoryCopy dst_mem src_mem =>
    build (Instr.MemoryCopy (Hooks.memory_index src_mem) (Hooks.memory_index dst_mem))
  | Op.MemoryFill mem => build (Instr.MemoryFill (Hooks.memory_index mem))
  | Op.TableInit elem_index table =>
    build (Instr.TableInit (Hooks.element_index elem_index) (Hooks.table_index table))
  | Op.ElemDrop elem_index => build (Instr.ElemDrop (Hooks.element_index elem_index))
  | Op.TableCopy dst_table src_table =>
    build (Instr.TableCopy (Hooks.table_index src_table) (Hooks.table_index dst_table))
  end.

Definition instruction_reference_types (arg : Op.reference_types_op) : outcome Instr.Instruction :=
  match arg with
  | Op.TypedSelect ty => ty ← val_type ty; build (Instr.TypedSelect ty)
  | Op.RefNull hty => hty ← heap_type hty; build (Instr.RefNull hty)
  | Op.RefIsNull => build Instr.RefIsNull
  | Op.RefFunc function_index =>
    build (Instr.RefFunc (Hooks.function_index function_index))
  | Op.TableFill table => build (Instr.TableFill (Hooks.table_index table))
  | Op.TableGet table => build (Instr.TableGet (Hooks.table_index table))
  | Op.TableSet table => build (Instr.TableSet (Hooks.table_index table))
  | Op.TableGrow table => build (Instr.TableGrow (Hooks.table_index table))
  | Op.TableSize table => build (Instr.TableSize (Hooks.table_index table))
  end.

Definition instruction_tail_call (arg : Op.tail_call_op) : outcome Instr.Instruction :=
  match arg with
  | Op.ReturnCall function_index =>
    build (Instr.ReturnCall (Hooks.function_index function_index))
  | Op.ReturnCallIndirect type_index table_index =>
    build (Instr.ReturnCallIndirect (Hooks.type_index type_index) (Hooks.table_index table_index))
  end.

Definition instruction_memory_control (arg : Op.memory_control_op) : outcome Instr.Instruction :=
  match arg with
  | Op.MemoryDiscard mem => build (Instr.MemoryDiscard (Hooks.memory_index mem))
  end.

Definition instruction_threads (arg : Op.threads_op) : outcome Instr.Instruction :=
  match arg with
  | Op.MemoryAtomicNotify memarg => build (Instr.MemoryAtomicNotify (mem_arg memarg))
  | Op.MemoryAtomicWait32 memarg => build (Instr.MemoryAtomicWait32 (mem_arg memarg))
  | Op.MemoryAtomicWait64 memarg => build (Instr.MemoryAtomicWait64 (mem_arg memarg))
  | Op.AtomicFence => build Instr.AtomicFence
  | Op.I32AtomicLoad memarg => build (Instr.I32AtomicLoad (mem_arg memarg))
  | Op.I64AtomicLoad memarg => build (Instr.I64AtomicLoad (mem_arg memarg))
  | Op.I32AtomicLoad8U memarg => build (Instr.I32AtomicLoad8U (mem_arg memarg))
  | Op.I32AtomicLoad16U memarg => build (Instr.I32AtomicLoad16U (mem_arg memarg))
  | Op.I64AtomicLoad8U memarg => build (Instr.I64AtomicLoad8U (mem_arg memarg))
  | Op.I64AtomicLoad16U memarg => build (Instr.I64AtomicLoad16U (mem_arg memarg))
  | Op.I64AtomicLoad32U memarg => build (Instr.I64AtomicLoad32U (mem_arg memarg))
  | Op.I32AtomicStore memarg => build (Instr.I32AtomicStore (mem_arg memarg))
  | Op.I64AtomicStore memarg => build (Instr.I64AtomicStore (mem_arg memarg))
  | Op.I32AtomicStore8 memarg => build (Instr.I32AtomicStore8 (mem_arg memarg))
  | Op.I32AtomicStore16 memarg => build (Instr.I32AtomicStore16 (mem_arg memarg))
  | Op.I64AtomicStore8 memarg => build (Instr.I64AtomicStore8 (mem_arg memarg))
  | Op.I64AtomicStore16 memarg => build (Instr.I64AtomicStore16 (mem_arg memarg))
  | Op.I64AtomicStore32 memarg => build (Instr.I64AtomicStore32 (mem_arg memarg))
  | Op.I32AtomicRmwAdd memarg => build (Instr.I32AtomicRmwAdd (mem_arg memarg))
  | Op.I64AtomicRmwAdd memarg => build (Instr.I64AtomicRmwAdd (mem_arg memarg))
  | Op.I32AtomicRmw8AddU memarg => build (Instr.I32AtomicRmw8AddU (mem_arg memarg))
  | Op.I32AtomicRmw16AddU memarg => build (Instr.I32AtomicRmw16AddU (mem_arg memarg))
  | Op.I64AtomicRmw8AddU memarg => build (Instr.I64AtomicRmw8AddU (mem_arg memarg))
  | Op.I64AtomicRmw16AddU memarg => build (Instr.I64AtomicRmw16AddU (mem_arg memarg))
  | Op.I64AtomicRmw32AddU memarg => build (Instr.I64AtomicRmw32AddU (mem_arg memarg))
  | Op.I32AtomicRmwSub memarg => build (Instr.I32AtomicRmwSub (mem_arg memarg))
  | Op.I64AtomicRmwSub memarg => build (Instr.I64AtomicRmwSub (mem_arg memarg))
  | Op.I32AtomicRmw8SubU memarg => build (Instr.I32AtomicRmw8SubU (mem_arg memarg))
  | Op.I32AtomicRmw16SubU memarg => build (Instr.I32AtomicRmw16SubU (mem_arg memarg))
  | Op.I64AtomicRmw8SubU memarg => build (Instr.I64AtomicRmw8SubU (mem_arg memarg))
  | Op.I64AtomicRmw16SubU memarg => build (Instr.I64AtomicRmw16SubU (mem_arg memarg))
  | Op.I64AtomicRmw32SubU memarg => build (Instr.I64AtomicRmw32SubU (mem_arg memarg))
  | Op.I32AtomicRmwAnd memarg => build (Instr.I32AtomicRmwAnd (mem_arg memarg))
  | Op.I64AtomicRmwAnd memarg => build (Instr.I64AtomicRmwAnd (mem_arg memarg))
  | Op.I32AtomicRmw8AndU memarg => build (Instr.I32AtomicRmw8AndU (mem_arg memarg))
  | Op.I32AtomicRmw16AndU memarg => build (Instr.I32AtomicRmw16AndU (mem_arg memarg))
  | Op.I64AtomicRmw8AndU memarg => build (Instr.I64AtomicRmw8AndU (mem_arg memarg))
  | Op.I64AtomicRmw16AndU memarg => build (Instr.I64AtomicRmw16AndU (mem_arg memarg))
  | Op.I64AtomicRmw32AndU memarg => build (Instr.I64AtomicRmw32AndU (mem_arg memarg))
  | Op.I32AtomicRmwOr memarg => build (Instr.I32AtomicRmwOr (mem_arg memarg))
  | Op.I64AtomicRmwOr memarg => build (Instr.I64AtomicRmwOr (mem_arg memarg))
  | Op.I32AtomicRmw8OrU memarg => build (Instr.I32AtomicRmw8OrU (mem_arg memarg))
  | Op.I32AtomicRmw16OrU memarg => build (Instr.I32AtomicRmw16OrU (mem_arg memarg))
  | Op.I64AtomicRmw8OrU memarg => build (Instr.I64AtomicRmw8OrU (mem_arg memarg))
  | Op.I64AtomicRmw16OrU memarg => build (Instr.I64AtomicRmw16OrU (mem_arg memarg))
  | Op.I64AtomicRmw32OrU memarg => build (Instr.I64AtomicRmw32OrU (mem_arg memarg))
  | Op.I32AtomicRmwXor memarg => build (Instr.I32AtomicRmwXor (mem_arg memarg))
  | Op.I64AtomicRmwXor memarg => build (Instr.I64AtomicRmwXor (mem_arg memarg))
  | Op.I32AtomicRmw8XorU memarg => build (Instr.I32AtomicRmw8XorU (mem_arg memarg))
  | Op.I32AtomicRmw16XorU memarg => build (Instr.I32AtomicRmw16XorU (mem_arg memarg))
  | Op.I64AtomicRmw8XorU memarg => build (Instr.I64AtomicRmw8XorU (mem_arg memarg))
  | Op.I64AtomicRmw16XorU memarg => build (Instr.I64AtomicRmw16XorU (mem_arg memarg))
  | Op.I64AtomicRmw32XorU memarg => build (Instr.I64AtomicRmw32XorU (mem_arg memarg))
  | Op.I32AtomicRmwXchg memarg => build (Instr.I32AtomicRmwXchg (mem_arg memarg))
  | Op.I64AtomicRmwXchg memarg => build (Instr.I64AtomicRmwXchg (mem_arg memarg))
  | Op.I32AtomicRmw8XchgU memarg => build (Instr.I32AtomicRmw8XchgU (mem_arg memarg))
  | Op.I32AtomicRmw16XchgU memarg =>
    build (Instr.I32AtomicRmw16XchgU (mem_arg memarg))
  | Op.I64AtomicRmw8XchgU memarg => build (Instr.I64AtomicRmw8XchgU (mem_arg memarg))
  | Op.I64AtomicRmw16XchgU memarg =>
    build (Instr.I64AtomicRmw16XchgU (mem_arg memarg))
  | Op.I64AtomicRmw32XchgU memarg =>
    build (Instr.I64AtomicRmw32XchgU (mem_arg memarg))
  | Op.I32AtomicRmwCmpxchg memarg =>
    build (Instr.I32AtomicRmwCmpxchg (mem_arg memarg))
  | Op.I64AtomicRmwCmpxchg memarg =>
    build (Instr.I64AtomicRmwCmpxchg (mem_arg memarg))
  | Op.I32AtomicRmw8CmpxchgU memarg =>
    build (Instr.I32AtomicRmw8CmpxchgU (mem_arg memarg))
  | Op.I32AtomicRmw16CmpxchgU memarg =>
    build (Instr.I32AtomicRmw16CmpxchgU (mem_arg memarg))
  | Op.I64AtomicRmw8CmpxchgU memarg =>
    build (Instr.I64AtomicRmw8CmpxchgU (mem_arg memarg))
  | Op.I64AtomicRmw16CmpxchgU memarg =>
    build (Instr.I64AtomicRmw16CmpxchgU (mem_arg memarg))
  | Op.I64AtomicRmw32CmpxchgU memarg =>
    build (Instr.I64AtomicRmw32CmpxchgU (mem_arg memarg))
  end.

Definition instruction_simd (arg : Op.simd_op) : outcome Instr.Instruction :=
  match arg with
  | Op.V128Load memarg => build (Instr.V128Load (mem_arg memarg))
  | Op.V128Load8x8S memarg => build (Instr.V128Load8x8S (mem_arg memarg))
  | Op.V128Load8x8U memarg => build (Instr.V128Load8x8U (mem_arg memarg))
  | Op.V128Load16x4S memarg => build (Instr.V128Load16x4S (mem_arg memarg))
  | Op.V128Load16x4U memarg => build (Instr.V128Load16x4U (mem_arg memarg))
  | Op.V128Load32x2S memarg => build (Instr.V128Load32x2S (mem_arg memarg))
  | Op.V128Load32x2U memarg => build (Instr.V128Load32x2U (mem_arg memarg))
  | Op.V128Load8Splat memarg => build (Instr.V128Load8Splat (mem_arg memarg))
  | Op.V128Load16Splat memarg => build (Instr.V128Load16Splat (mem_arg memarg))
  | Op.V128Load32Splat memarg => build (Instr.V128Load32Splat (mem_arg memarg))
  | Op.V128Load64Splat memarg => build (Instr.V128Load64Splat (mem_arg memarg))
  | Op.V128Load32Zero memarg => build (Instr.V128Load32Zero (mem_arg memarg))
  | Op.V128Load64Zero memarg => build (Instr.V128Load64Zero (mem_arg memarg))
  | Op.V128Store memarg => build (Instr.V128Store (mem_arg memarg))
  | Op.V128Load8Lane memarg lane => build (Instr.V128Load8Lane (mem_arg memarg) lane)
  | Op.V128Load16Lane memarg lane =>
    build (Instr.V128Load16Lane (mem_arg memarg) lane)
  | Op.V128Load32Lane memarg lane =>
    build (Instr.V128Load32Lane (mem_arg memarg) lane)
  | Op.V128Load64Lane memarg lane =>
    build (Instr.V128Load64Lane (mem_arg memarg) lane)
  | Op.V128Store8Lane memarg lane =>
    build (Instr.V128Store8Lane (mem_arg memarg) lane)
  | Op.V128Store16Lane memarg lane =>
    build (Instr.V128Store16Lane (mem_arg memarg) lane)
  | Op.V128Store32Lane memarg lane =>
    build (Instr.V128Store32Lane (mem_arg memarg) lane)
  | Op.V128Store64Lane memarg lane =>
    build (Instr.V128Store64Lane (mem_arg memarg) lane)
  | Op.V128Const value => build (Instr.V128Const (V128_i128 value))
  | Op.I8x16Shuffle lanes => build (Instr.I8x16Shuffle lanes)
  | Op.I8x16ExtractLaneS lane => build (Instr.I8x16ExtractLaneS lane)
  | Op.I8x16ExtractLaneU lane => build (Instr.I8x16ExtractLaneU lane)
  | Op.I8x16ReplaceLane lane => build (Instr.I8x16ReplaceLane lane)
  | Op.I16x8ExtractLaneS lane => build (Instr.I16x8ExtractLaneS lane)
  | Op.I16x8ExtractLaneU lane => build (Instr.I16x8ExtractLaneU lane)
  | Op.I16x8ReplaceLane lane => build (Instr.I16x8ReplaceLane lane)
  | Op.I32x4ExtractLane lane => build (Instr.I32x4ExtractLane lane)
  | Op.I32x4ReplaceLane lane => build (Instr.I32x4ReplaceLane lane)
  | Op.I64x2ExtractLane lane => build (Instr.I64x2ExtractLane lane)
  | Op.I64x2ReplaceLane lane => build (Instr.I64x2ReplaceLane lane)
  | Op.F32x4ExtractLane lane => build (Instr.F32x4ExtractLane lane)
  | Op.F32x4ReplaceLane lane => build (Instr.F32x4ReplaceLane lane)
  | Op.F64x2ExtractLane lane => build (Instr.F64x2ExtractLane lane)
  | Op.F64x2ReplaceLane lane => build (Instr.F64x2ReplaceLane lane)
  | Op.I8x16Swizzle => build Instr.I8x16Swizzle
  | Op.I8x16Splat => build Instr.I8x16Splat
  | Op.I16x8Splat => build Instr.I16x8Splat
  | Op.I32x4Splat => build Instr.I32x4Splat
  | Op.I64x2Splat => build Instr.I64x2Splat
  | Op.F32x4Splat => build Instr.F32x4Splat
  | Op.F64x2Splat => build Instr.F64x2Splat
  | Op.I8x16Eq => build Instr.I8x16Eq
  | Op.I8x16Ne => build Instr.I8x16Ne
  | Op.I8x16LtS => build Instr.I8x16LtS
  | Op.I8x16LtU => build Instr.I8x16LtU
  | Op.I8x16GtS => build Instr.I8x16GtS
  | Op.I8x16GtU => build Instr.I8x16GtU
  | Op.I8x16LeS => build Instr.I8x16LeS
  | Op.I8x16LeU => build Instr.I8x16LeU
  | Op.I8x16GeS => build Instr.I8x16GeS
  | Op.I8x16GeU => build Instr.I8x16GeU
  | Op.I16x8Eq => build Instr.I16x8Eq
  | Op.I16x8Ne => build Instr.I16x8Ne
  | Op.I16x8LtS => build Instr.I16x8LtS
  | Op.I16x8LtU => build Instr.I16x8LtU
  | Op.I16x8GtS => build Instr.I16x8GtS
  | Op.I16x8GtU => build Instr.I16x8GtU
  | Op.I16x8LeS => build Instr.I16x8LeS
  | Op.I16x8LeU => build Instr.I16x8LeU
  | Op.I16x8GeS => build Instr.I16x8GeS
  | Op.I16x8GeU => build Instr.I16x8GeU
  | Op.I32x4Eq => build Instr.I32x4Eq
  | Op.I32x4Ne => build Instr.I32x4Ne
  | Op.I32x4LtS => build Instr.I32x4LtS
  | Op.I32x4LtU => build Instr.I32x4LtU
  | Op.I32x4GtS => build Instr.I32x4GtS
  | Op.I32x4GtU => build Instr.I32x4GtU
  | Op.I32x4LeS => build Instr.I32x4LeS
  | Op.I32x4LeU => build Instr.I32x4LeU
  | Op.I32x4GeS => build Instr.I32x4GeS
  | Op.I32x4GeU => build Instr.I32x4GeU
  | Op.I64x2Eq => build Instr.I64x2Eq
  | Op.I64x2Ne => build Instr.I64x2Ne
  | Op.I64x2LtS => build Instr.I64x2LtS
  | Op.I64x2GtS => build Instr.I64x2GtS
  | Op.I64x2LeS => build Instr.I64x2LeS
  | Op.I64x2GeS => build Instr.I64x2GeS
  | Op.F32x4Eq => build Instr.F32x4Eq
  | Op.F32x4Ne => build Instr.F32x4Ne
  | Op.F32x4Lt => build Instr.F32x4Lt
  | Op.F32x4Gt => build Instr.F32x4Gt
  | Op.F32x4Le => build Instr.F32x4Le
  | Op.F32x4Ge => build Instr.F32x4Ge
  | Op.F64x2Eq => build Instr.F64x2Eq
  | Op.F64x2Ne => build Instr.F64x2Ne
  | Op.F64x2Lt => build Instr.F64x2Lt
  | Op.F64x2Gt => build Instr.F64x2Gt
  | Op.F64x2Le => build Instr.F64x2Le
  | Op.F64x2Ge => build Instr.F64x2Ge
  | Op.V128Not => build Instr.V128Not
  | Op.V128And => build Instr.V128And
  | Op.V128AndNot => build Instr.V128AndNot
  | Op.V128Or => build Instr.V128Or
  | Op.V128Xor => build Instr.V128Xor
  | Op.V128Bitselect => build Instr.V128Bitselect
  | Op.V128AnyTrue => build Instr.V128AnyTrue
  | Op.I8x16Abs => build Instr.I8x16Abs
  | Op.I8x16Neg => build Instr.I8x16Neg
  | Op.I8x16Popcnt => build Instr.I8x16Popcnt
  | Op.I8x16AllTrue => build Instr.I8x16AllTrue
  | Op.I8x16Bitmask => build Instr.I8x16Bitmask
  | Op.I8x16NarrowI16x8S => build Instr.I8x16NarrowI16x8S
  | Op.I8x16NarrowI16x8U => build Instr.I8x16NarrowI16x8U
  | Op.I8x16Shl => build Instr.I8x16Shl
  | Op.I8x16ShrS => build Instr.I8x16ShrS
  | Op.I8x16ShrU => build Instr.I8x16ShrU
  | Op.I8x16Add => build Instr.I8x16Add
  | Op.I8x16AddSatS => build Instr.I8x16AddSatS
  | Op.I8x16AddSatU => build Instr.I8x16AddSatU
  | Op.I8x16Sub => build Instr.I8x16Sub
  | Op.I8x16SubSatS => build Instr.I8x16SubSatS
  | Op.I8x16SubSatU => build Instr.I8x16SubSatU
  | Op.I8x16MinS => build Instr.I8x16MinS
  | Op.I8x16MinU => build Instr.I8x16MinU
  | Op.I8x16MaxS => build Instr.I8x16MaxS
  | Op.I8x16MaxU => build Instr.I8x16MaxU
  | Op.I8x16AvgrU => build Instr.I8x16AvgrU
  | Op.I16x8ExtAddPairwiseI8x16S => build Instr.I16x8ExtAddPairwiseI8x16S
  | Op.I16x8ExtAddPairwiseI8x16U => build Instr.I16x8ExtAddPairwiseI8x16U
  | Op.I16x8Abs => build Instr.I16x8Abs
  | Op.I16x8Neg => build Instr.I16x8Neg
  | Op.I16x8Q15MulrSatS => build Instr.I16x8Q15MulrSatS
  | Op.I16x8AllTrue => build Instr.I16x8AllTrue
  | Op.I16x8Bitmask => build Instr.I16x8Bitmask
  | Op.I16x8NarrowI32x4S => build Instr.I16x8NarrowI32x4S
  | Op.I16x8NarrowI32x4U => build Instr.I16x8NarrowI32x4U
  | Op.I16x8ExtendLowI8x16S => build Instr.I16x8ExtendLowI8x16S
  | Op.I16x8ExtendHighI8x16S => build Instr.I16x8ExtendHighI8x16S
  | Op.I16x8ExtendLowI8x16U => build Instr.I16x8ExtendLowI8x16U
  | Op.I16x8ExtendHighI8x16U => build Instr.I16x8ExtendHighI8x16U
  | Op.I16x8Shl => build Instr.I16x8Shl
  | Op.I16x8ShrS => build Instr.I16x8ShrS
  | Op.I16x8ShrU => build Instr.I16x8ShrU
  | Op.I16x8Add => build Instr.I16x8Add
  | Op.I16x8AddSatS => build Instr.I16x8AddSatS
  | Op.I16x8AddSatU => build Instr.I16x8AddSatU
  | Op.I16x8Sub => build Instr.I16x8Sub
  | Op.I16x8SubSatS => build Instr.I16x8SubSatS
  | Op.I16x8SubSatU => build Instr.I16x8SubSatU
  | Op.I16x8Mul => build Instr.I16x8Mul
  | Op.I16x8MinS => build Instr.I16x8MinS
  | Op.I16x8MinU => build Instr.I16x8MinU
  | Op.I16x8MaxS => build Instr.I16x8MaxS
  | Op.I16x8MaxU => build Instr.I16x8MaxU
  | Op.I16x8AvgrU => build Instr.I16x8AvgrU
  | Op.I16x8ExtMulLowI8x16S => build Instr.I16x8ExtMulLowI8x16S
  | Op.I16x8ExtMulHighI8x16S => build Instr.I16x8ExtMulHighI8x16S
  | Op.I16x8ExtMulLowI8x16U => build Instr.I16x8ExtMulLowI8x16U
  | Op.I16x8ExtMulHighI8x16U => build Instr.I16x8ExtMulHighI8x16U
  | Op.I32x4ExtAddPairwiseI16x8S => build Instr.I32x4ExtAddPairwiseI16x8S
  | Op.I32x4ExtAddPairwiseI16x8U => build Instr.I32x4ExtAddPairwiseI16x8U
  | Op.I32x4Abs => build Instr.I32x4Abs
  | Op.I32x4Neg => build Instr.I32x4Neg
  | Op.I32x4AllTrue => build Instr.I32x4AllTrue
  | Op.I32x4Bitmask => build Instr.I32x4Bitmask
  | Op.I32x4ExtendLowI16x8S => build Instr.I32x4ExtendLowI16x8S
  | Op.I32x4ExtendHighI16x8S => build Instr.I32x4ExtendHighI16x8S
  | Op.I32x4ExtendLowI16x8U => build Instr.I32x4ExtendLowI16x8U
  | Op.I32x4ExtendHighI16x8U => build Instr.I32x4ExtendHighI16x8U
  | Op.I32x4Shl => build Instr.I32x4Shl
  | Op.I32x4ShrS => build Instr.I32x4ShrS
  | Op.I32x4ShrU => build Instr.I32x4ShrU
  | Op.I32x4Add => build Instr.I32x4Add
  | Op.I32x4Sub => build Instr.I32x4Sub
  | Op.I32x4Mul => build Instr.I32x4Mul
  | Op.I32x4MinS => build Instr.I32x4MinS
  | Op.I32x4MinU => build Instr.I32x4MinU
  | Op.I32x4MaxS => build Instr.I32x4MaxS
  | Op.I32x4MaxU => build Instr.I32x4MaxU
  | Op.I32x4DotI16x8S => build Instr.I32x4DotI16x8S
  | Op.I32x4ExtMulLowI16x8S => build Instr.I32x4ExtMulLowI16x8S
  | Op.I32x4ExtMulHighI16x8S => build Instr.I32x4ExtMulHighI16x8S
  | Op.I32x4ExtMulLowI16x8U => build Instr.I32x4ExtMulLowI16x8U
  | Op.I32x4ExtMulHighI16x8U => build Instr.I32x4ExtMulHighI16x8U
  | Op.I64x2Abs => build Instr.I64x2Abs
  | Op.I64x2Neg => build Instr.I64x2Neg
  | Op.I64x2AllTrue => build Instr.I64x2AllTrue
  | Op.I64x2Bitmask => build Instr.I64x2Bitmask
  | Op.I64x2ExtendLowI32x4S => build Instr.I64x2ExtendLowI32x4S
  | Op.I64x2ExtendHighI32x4S => build Instr.I64x2ExtendHighI32x4S
  | Op.I64x2ExtendLowI32x4U => build Instr.I64x2ExtendLowI32x4U
  | Op.I64x2ExtendHighI32x4U => build Instr.I64x2ExtendHighI32x4U
  | Op.I64x2Shl => build Instr.I64x2Shl
  | Op.I64x2ShrS => build Instr.I64x2ShrS
  | Op.I64x2ShrU => build Instr.I64x2ShrU
  | Op.I64x2Add => build Instr.I64x2Add
  | Op.I64x2Sub => build Instr.I64x2Sub
  | Op.I64x2Mul => build Instr.I64x2Mul
  | Op.I64x2ExtMulLowI32x4S => build Instr.I64x2ExtMulLowI32x4S
  | Op.I64x2ExtMulHighI32x4S => build Instr.I64x2ExtMulHighI32x4S
  | Op.I64x2ExtMulLowI32x4U => build Instr.I64x2ExtMulLowI32x4U
  | Op.I64x2ExtMulHighI32x4U => build Instr.I64x2ExtMulHighI32x4U
  | Op.F32x4Ceil => build Instr.F32x4Ceil
  | Op.F32x4Floor => build Instr.F32x4Floor
  | Op.F32x4Trunc => build Instr.F32x4Trunc
  | Op.F32x4Nearest => build Instr.F32x4Nearest
  | Op.F32x4Abs => build Instr.F32x4Abs
  | Op.F32x4Neg => build Instr.F32x4Neg
  | Op.F32x4Sqrt => build Instr.F32x4Sqrt
  | Op.F32x4Add => build Instr.F32x4Add
  | Op.F32x4Sub => build Instr.F32x4Sub
  | Op.F32x4Mul => build Instr.F32x4Mul
  | Op.F32x4Div => build Instr.F32x4Div
  | Op.F32x4Min => build Instr.F32x4Min
  | Op.F32x4Max => build Instr.F32x4Max
  | Op.F32x4PMin => build Instr.F32x4PMin
  | Op.F32x4PMax => build Instr.F32x4PMax
  | Op.F64x2Ceil => build Instr.F64x2Ceil
  | Op.F64x2Floor => build Instr.F64x2Floor
  | Op.F64x2Trunc => build Instr.F64x2Trunc
  | Op.F64x2Nearest => build Instr.F64x2Nearest
  | Op.F64x2Abs => build Instr.F64x2Abs
  | Op.F64x2Neg => build Instr.F64x2Neg
  | Op.F64x2Sqrt => build Instr.F64x2Sqrt
  | Op.F64x2Add => build Instr.F64x2Add
  | Op.F64x2Sub => build Instr.F64x2Sub
  | Op.F64x2Mul => build Instr.F64x2Mul
  | Op.F64x2Div => build Instr.F64x2Div
  | Op.F64x2Min => build Instr.F64x2Min
  | Op.F64x2Max => build Instr.F64x2Max
  | Op.F64x2PMin => build Instr.F64x2PMin
  | Op.F64x2PMax => build Instr.F64x2PMax
  | Op.I32x4TruncSatF32x4S => build Instr.I32x4TruncSatF32x4S
  | Op.I32x4TruncSatF32x4U => build Instr.I32x4TruncSatF32x4U
  | Op.F32x4ConvertI32x4S => build Instr.F32x4ConvertI32x4S
  | Op.F32x4ConvertI32x4U => build Instr.F32x4ConvertI32x4U
  | Op.I32x4TruncSatF64x2SZero => build Instr.I32x4TruncSatF64x2SZero
  | Op.I32x4TruncSatF64x2UZero => build Instr.I32x4TruncSatF64x2UZero
  | Op.F64x2ConvertLowI32x4S => build Instr.F64x2ConvertLowI32x4S
  | Op.F64x2ConvertLowI32x4U => build Instr.F64x2ConvertLowI32x4U
  | Op.F32x4DemoteF64x2Zero => build Instr.F32x4DemoteF64x2Zero
  | Op.F64x2PromoteLowF32x4 => build Instr.F64x2PromoteLowF32x4
  end.

Definition instruction_relaxed_simd (arg : Op.relaxed_simd_op) : outcome Instr.Instruction :=
  match arg with
  | Op.I8x16RelaxedSwizzle => build Instr.I8x16RelaxedSwizzle
  | Op.I32x4RelaxedTruncF32x4S => build Instr.I32x4RelaxedTruncF32x4S
  | Op.I32x4RelaxedTruncF32x4U => build Instr.I32x4RelaxedTruncF32x4U
  | Op.I32x4RelaxedTruncF64x2SZero => build Instr.I32x4RelaxedTruncF64x2SZero
  | Op.I32x4RelaxedTruncF64x2UZero => build Instr.I32x4RelaxedTruncF64x2UZero
  | Op.F32x4RelaxedMadd => build Instr.F32x4RelaxedMadd
  | Op.F32x4RelaxedNmadd => build Instr.F32x4RelaxedNmadd
  | Op.F64x2RelaxedMadd => build Instr.F64x2RelaxedMadd
  | Op.F64x2RelaxedNmadd => build Instr.F64x2RelaxedNmadd
  | Op.I8x16RelaxedLaneselect => build Instr.I8x16RelaxedLaneselect
  | Op.I16x8RelaxedLaneselect => build Instr.I16x8RelaxedLaneselect
  | Op.I32x4RelaxedLaneselect => build Instr.I32x4RelaxedLaneselect
  | Op.I64x2RelaxedLaneselect => build Instr.I64x2RelaxedLaneselect
  | Op.F32x4RelaxedMin => build Instr.F32x4RelaxedMin
  | Op.F32x4RelaxedMax => build Instr.F32x4RelaxedMax
  | Op.F64x2RelaxedMin => build Instr.F64x2RelaxedMin
  | Op.F64x2RelaxedMax => build Instr.F64x2RelaxedMax
  | Op.I16x8RelaxedQ15mulrS => build Instr.I16x8RelaxedQ15mulrS
  | Op.I16x8RelaxedDotI8x16I7x16S => build Instr.I16x8RelaxedDotI8x16I7x16S
  | Op.I32x4RelaxedDotI8x16I7x16AddS => build Instr.I32x4RelaxedDotI8x16I7x16AddS
  end.

Definition instruction_exceptions (arg : Op.exceptions_op) : outcome Instr.Instruction :=
  match arg with
  | Op.TryTable try_table =>
    bt ← block_type (try_ty try_table);
    build (Instr.TryTable bt (map catch (catches try_table)))
  | Op.Throw tag_index => build (Instr.Throw (Hooks.tag_index tag_index))
  | Op.ThrowRef => build Instr.ThrowRef
  end.

Definition instruction_legacy_exceptions (arg : Op.legacy_exceptions_op) : outcome Instr.Instruction :=
  match arg with
  | Op.Try blockty => blockty ← block_type blockty; build (Instr.Try blockty)
  | Op.Catch tag_index => build (Instr.Catch (Hooks.tag_index tag_index))
  | Op.Rethrow relative_depth => build (Instr.Rethrow relative_depth)
  | Op.Delegate relative_depth => build (Instr.Delegate relative_depth)
  | Op.CatchAll => build Instr.CatchAll
  end.

Definition instruction_shared_everything_threads (arg : Op.shared_everything_threads_op) : outcome Instr.Instruction :=
  match arg with
  | Op.GlobalAtomicGet ord global_index =>
    build (Instr.GlobalAtomicGet (ordering ord) (Hooks.global_index global_index))
  | Op.GlobalAtomicSet ord global_index =>
    build (Instr.GlobalAtomicSet (ordering ord) (Hooks.global_index global_index))
  | Op.GlobalAtomicRmwAdd ord global_index =>
    build (Instr.GlobalAtomicRmwAdd (ordering ord) (Hooks.global_index global_index))
  | Op.GlobalAtomicRmwSub ord global_index =>
    build (Instr.GlobalAtomicRmwSub (ordering ord) (Hooks.global_index global_index))
  | Op.GlobalAtomicRmwAnd ord global_index =>
    build (Instr.GlobalAtomicRmwAnd (ordering ord) (Hooks.global_index global_index))
  | Op.GlobalAtomicRmwOr ord global_index =>
    build (Instr.GlobalAtomicRmwOr (ordering ord) (Hooks.global_index global_index))
  | Op.GlobalAtomicRmwXor ord global_index =>
    build (Instr.GlobalAtomicRmwXor (ordering ord) (Hooks.global_index global_index))
  | Op.GlobalAtomicRmwXchg ord global_index =>
    build (Instr.GlobalAtomicRmwXchg (ordering ord) (Hooks.global_index global_index))
  | Op.GlobalAtomicRmwCmpxchg ord global_index =>
    build (Instr.GlobalAtomicRmwCmpxchg (ordering ord) (Hooks.global_index global_index))
  | Op.TableAtomicGet ord table_index =>
    build (Instr.TableAtomicGet (ordering ord) (Hooks.table_index table_index))
  | Op.TableAtomicSet ord table_index =>
    build (Instr.TableAtomicSet (ordering ord) (Hooks.table_index table_index))
  | Op.TableAtomicRmwXchg ord table_index =>
    build (Instr.TableAtomicRmwXchg (ordering ord) (Hooks.table_index table_index))
  | Op.TableAtomicRmwCmpxchg ord table_index =>
    build (Instr.TableAtomicRmwCmpxchg (ordering ord) (Hooks.table_index table_index))
  | Op.StructAtomicGet ord struct_type_index field_index =>
    build (Instr.StructAtomicGet (ordering ord) (Hooks.type_index struct_type_index) field_index)
  | Op.StructAtomicGetS ord struct_type_index field_index =>
    build (Instr.StructAtomicGetS (ordering ord) (Hooks.type_index struct_type_index) field_index)
  | Op.StructAtomicGetU ord struct_type_index field_index =>
    build (Instr.StructAtomicGetU (ordering ord) (Hooks.type_index struct_type_index) field_index)
  | Op.StructAtomicSet ord struct_type_index field_index =>
    build (Instr.StructAtomicSet (ordering ord) (Hooks.type_index struct_type_index) field_index)
  | Op.StructAtomicRmwAdd ord struct_type_index field_index =>
    build (Instr.StructAtomicRmwAdd (ordering ord) (Hooks.type_index struct_type_index) field_index)
  | Op.StructAtomicRmwSub ord struct_type_index field_index =>
    build (Instr.StructAtomicRmwSub (ordering ord) (Hooks.type_index struct_type_index) field_index)
  | Op.StructAtomicRmwAnd ord struct_type_index field_index =>
    build (Instr.StructAtomicRmwAnd (ordering ord) (Hooks.type_index struct_type_index) field_index)
  | Op.StructAtomicRmwOr ord struct_type_index field_index =>
    build (Instr.StructAtomicRmwOr (ordering ord) (Hooks.type_index struct_type_index) field_index)
  | Op.StructAtomicRmwXor ord struct_type_index field_index =>
    build (Instr.StructAtomicRmwXor (ordering ord) (Hooks.type_index struct_type_index) field_index)
  | Op.StructAtomicRmwXchg ord struct_type_index field_index =>
    build (Instr.StructAtomicRmwXchg (ordering ord) (Hooks.type_index struct_type_index) field_index)
  | Op.StructAtomicRmwCmpxchg ord struct_type_index field_index =>
    build (Instr.StructAtomicRmwCmpxchg (ordering ord) (Hooks.type_index struct_type_index) field_index)
  | Op.ArrayAtomicGet ord array_type_index =>
    build (Instr.ArrayAtomicGet (ordering ord) (Hooks.type_index array_type_index))
  | Op.ArrayAtomicGetS ord array_type_index =>
    build (Instr.ArrayAtomicGetS (ordering ord) (Hooks.type_index array_type_index))
  | Op.ArrayAtomicGetU ord array_type_index =>
    build (Instr.ArrayAtomicGetU (ordering ord) (Hooks.type_index array_type_index))
  | Op.ArrayAtomicSet ord array_type_index =>
    build (Instr.ArrayAtomicSet (ordering ord) (Hooks.type_index array_type_index))
  | Op.ArrayAtomicRmwAdd ord array_type_index =>
    build (Instr.ArrayAtomicRmwAdd (ordering ord) (Hooks.type_index array_type_index))
  | Op.ArrayAtomicRmwSub ord array_type_index =>
    build (Instr.ArrayAtomicRmwSub (ordering ord) (Hooks.type_index array_type_index))
  | Op.ArrayAtomicRmwAnd ord array_type_index =>
    build (Instr.ArrayAtomicRmwAnd (ordering ord) (Hooks.type_index array_type_index))
  | Op.ArrayAtomicRmwOr ord array_type_index =>
    build (Instr.ArrayAtomicRmwOr (ordering ord) (Hooks.type_index array_type_index))
  | Op.ArrayAtomicRmwXor ord array_type_index =>
    build (Instr.ArrayAtomicRmwXor (ordering ord) (Hooks.type_index array_type_index))
  | Op.ArrayAtomicRmwXchg ord array_type_index =>
    build (Instr.ArrayAtomicRmwXchg (ordering ord) (Hooks.type_index array_type_index))
  | Op.ArrayAtomicRmwCmpxchg ord array_type_index =>
    build (Instr.ArrayAtomicRmwCmpxchg (ordering ord) (Hooks.type_index array_type_index))
  | Op.RefI31Shared => build Instr.RefI31Shared
  end.

Definition instruction_function_references (arg : Op.function_references_op) : outcome Instr.Instruction :=
  match arg with
  | Op.CallRef type_index => build (Instr.CallRef (Hooks.type_index type_index))
  | Op.ReturnCallRef type_index =>
    build (Instr.ReturnCallRef (Hooks.type_index type_index))
  | Op.RefAsNonNull => build Instr.RefAsNonNull
  | Op.BrOnNull relative_depth => build (Instr.BrOnNull relative_depth)
  | Op.BrOnNonNull relative_depth => build (Instr.BrOnNonNull relative_depth)
  end.

Definition instruction_stack_switching (arg : Op.stack_switching_op) : outcome Instr.Instruction :=
  match arg with
  | Op.ContNew cont_type_index =>
    build (Instr.ContNew (Hooks.type_index cont_type_index))
  | Op.ContBind argument_index result_index =>
    build (Instr.ContBind (Hooks.type_index argument_index) (Hooks.type_index result_index))
  | Op.Suspend tag_index => build (Instr.Suspend (Hooks.tag_index tag_index))
  | Op.Resume cont_type_index resume_table =>
    build (Instr.Resume (Hooks.type_index cont_type_index) (map handle (handlers resume_table)))
  | Op.ResumeThrow cont_type_index tag_index resume_table =>
    build (Instr.ResumeThrow (Hooks.type_index cont_type_index) (Hooks.tag_index tag_index) (map handle (handlers resume_table)))
  | Op.Switch cont_type_index tag_index =>
    build (Instr.Switch (Hooks.type_index cont_type_index) (Hooks.tag_index tag_index))
  end.

Definition instruction_wide_arithmetic (arg : Op.wide_arithmetic_op) : outcome Instr.Instruction :=
  match arg with
  | Op.I64Add128 => build Instr.I64Add128
  | Op.I64Sub128 => build Instr.I64Sub128
  | Op.I64MulWideS => build Instr.I64MulWideS
  | Op.I64MulWideU => build Instr.I64MulWideU
  end.

Definition instruction (arg : Op.Operator) : outcome Instr.Instruction :=
  match arg with
  | Op.Mvp o => instruction_mvp o
  | Op.SignExtension o => instruction_sign_extension o
  | Op.Gc o => instruction_gc o
  | Op.SaturatingFloatToInt o => instruction_saturating_float_to_int o
  | Op.BulkMemory o => instruction_bulk_memory o
  | Op.ReferenceTypes o => instruction_reference_types o
  | Op.TailCall o => instruction_tail_call o
  | Op.MemoryControl o => instruction_memory_control o
  | Op.Threads o => instruction_threads o
  | Op.Simd o => instruction_simd o
  | Op.RelaxedSimd o => instruction_relaxed_simd o
  | Op.Exceptions o => instruction_exceptions o
  | Op.LegacyExceptions o => instruction_legacy_exceptions o
  | Op.SharedEverythingThreads o => instruction_shared_everything_threads o
  | Op.FunctionReferences o => instruction_function_references o
  | Op.StackSwitching o => instruction_stack_switching o
  | Op.WideArithmetic o => instruction_wide_arithmetic o
  end.
End utils.
