(* ===== verification/OperandSpec.v ===== *)
(** Types and operands: on arbitrary bytes their readers do not panic and
    produce well-formed values, and well-formed values survive translation to
    wasm-encoder, encoding and reading back. *)

From Stdlib Require Import ZArith Lia String.
From stdpp Require Import prelude.
From S2P Require Import Prelude Leb128 BinaryReader BinaryReaderSpec ReaderLogic Encode Types TypesSpec.
From S2P Require Import EncTypes Operands Operators Instructions Reencode.

Local Open Scope Z_scope.

(** ** Well-formed operands

    What a reader with features [f] produces. *)

(** A type reference that still names a type of the module. *)
Definition ht_module (h : HeapType) : Prop :=
  match h with
  | Abstract _ _ => True
  | Concrete (Module_ i) => in_u 20 i
  | Concrete _ => False
  end.

Definition rt_module (r : RefType) : Prop :=
  exists n h, ht_module h /\ rt_new n h = Some r.

Definition vt_module (t : ValType) : Prop :=
  match t with Ref r => rt_module r | _ => True end.

Definition st_module (s : StorageType) : Prop :=
  match s with SVal t => vt_module t | _ => True end.

Definition bt_module (b : BlockType) : Prop :=
  match b with
  | BT_Empty => True
  | BT_Type t => vt_module t
  | BT_FuncType i => in_u 32 i
  end.

Definition memarg_wf (f : WasmFeatures) (a : Z) (m : MemArg) : Prop :=
  max_align m = a
  /\ in_u 6 (align m)
  /\ in_u (if memory64 f then 64 else 32) (memarg_offset m)
  /\ (if multi_memory f then in_u 32 (memory m) else memory m = 0).

Definition lane_wf (max l : Z) : Prop := 0 <= l < max.

(** An index that is zero unless a proposal is enabled. *)
Definition index_wf (enabled : bool) (i : Z) : Prop :=
  if enabled then in_u 32 i else i = 0.

Definition catch_wf (c : Catch) : Prop :=
  match c with
  | Catch_One tag label | Catch_OneRef tag label => in_u 32 tag /\ in_u 32 label
  | Catch_All label | Catch_AllRef label => in_u 32 label
  end.

Definition try_table_wf (t : TryTable) : Prop :=
  bt_module (try_ty t) /\ Forall catch_wf (catches t)
  /\ Z.of_nat (length (catches t)) <= MAX_WASM_CATCHES.

Definition handle_wf (h : Handle) : Prop :=
  match h with
  | Handle_OnLabel tag label => in_u 32 tag /\ in_u 32 label
  | Handle_OnSwitch tag => in_u 32 tag
  end.

Definition resume_table_wf (t : ResumeTable) : Prop :=
  Forall handle_wf (handlers t) /\ Z.of_nat (length (handlers t)) <= MAX_WASM_HANDLERS.

Definition v128_wf (v : V128Bytes) : Prop := length v = 16%nat /\ Forall is_byte v.

Definition lanes_wf (ls : list Z) : Prop := length ls = 16%nat /\ Forall (lane_wf 32) ls.

Definition br_table_wf (t : BrTable) : Prop :=
  0 <= cnt t <= MAX_WASM_BR_TABLE_SIZE /\ in_u 32 (default t)
  /\ exists ls, br_table_targets t = Ok ls /\ Forall (in_u 32) ls
       /\ Z.of_nat (length ls) = cnt t.

Lemma ht_module_valid h : ht_module h -> ht_valid h.
Proof. by destruct h as [|[]]. Qed.

Lemma rt_module_heap_type r :
  rt_module r ->
  exists h, ht_module h /\ rt_heap_type r = Some h /\ rt_new (is_nullable r) h = Some r.
Proof.
  intros (n & h & Hh & Hr). exists h.
  destruct (rt_new_heap_type n h) as (r' & Hr' & Hht & Hn); [by apply ht_module_valid|].
  assert (r' = r) as -> by congruence. by rewrite Hn.
Qed.

(** ** Arbitrary bytes *)

Section wp.
Context (E : BinaryReaderError -> Prop) (r0 : BinaryReader).
Hypothesis Henv : wp_env E r0.

Implicit Types k : nat.

Lemma wp_abstract_heap_type k (Q : AbstractHeapType -> nat -> Prop) :
  (forall t, Q t (S k)) -> wp E r0 k from_reader_abstract_heap_type Q.
Proof. intros HQ. unfold from_reader_abstract_heap_type. wp_run; apply HQ. Qed.

Lemma reclassify_ok m e : E e -> E (reclassify m e).
Proof.
  unfold reclassify. destruct (kind e) eqn:Hk; [done|]. by apply (env_set_message _ _ Henv).
Qed.

Lemma from_module_index_ok i p :
  0 <= i -> from_module_index i = Some p -> in_u 20 i /\ unpack p = Some (Module_ i).
Proof.
  intros H0 Hp. destruct (decide (in_u 20 i)) as [Hi|Hi].
  - destruct (unpack_pack (Module_ i) Hi) as (p' & Hp' & _ & Hun).
    simpl in Hp'. split; [done|]. congruence.
  - pose proof (pack_None (Module_ i) H0 Hi) as Hn. simpl in Hn. congruence.
Qed.

Lemma wp_heap_type k (Q : HeapType -> nat -> Prop) :
  (forall h k', (k < k')%nat -> ht_module h -> Q h k') ->
  wp E r0 k from_reader_heap_type Q.
Proof.
  intros HQ Hk.
  destruct (wp_var_s33 E r0 Henv k (fun _ k' => (k < k')%nat) ltac:(done) Hk)
    as (k1 & Hk1 & E1 & H1).
  unfold from_reader_heap_type.
  destruct (read_var_s33 (advance k r0)) as [[v|e|] r1]; cbn [fst snd] in *; subst.
  - unfold u32_try_from. destruct (Z.leb_spec 0 v), (Z.leb_spec v (2 ^ 32 - 1)); simpl andb; cbv iota.
    1: destruct (from_module_index v) as [p|] eqn:Ep.
    1: { destruct (from_module_index_ok v p) as [Hv ->]; [done|done|].
         exists k1. split; [lia|]. split; [done|]. by apply HQ. }
    1: { exists k1. split; [lia|]. split; [done|]. apply (env_err _ _ Henv).
         unfold err_in_range. cbn [offset err_new err_new_kind].
         rewrite advance_original_position.
         pose proof (end_position E r0 Henv k1 ltac:(lia)). lia. }
    all: apply (fun m => m : wp E r0 k _ Q); [|done].
    all: wp_step; wp_step.
    all: assert (Hft : wp E r0 k (ty ← map_err (reclassify "invalid heap type")
                                      from_reader_abstract_heap_type;
                                 mret (Abstract false ty)) Q)
      by (apply wp_bind, wp_map_err; [apply reclassify_ok|];
          apply wp_abstract_heap_type; intros t; wp_run; apply HQ; [lia|done]).
    all: repeat (match goal with |- wp _ _ _ (match ?x with _ => _ end) _ => destruct x end;
                 try exact Hft).
    all: wp_run; apply wp_abstract_heap_type; intros t; wp_run; apply HQ; [lia|done].
  - exists k. split; [lia|]. done.
  - done.
Qed.

Lemma wp_ok_or_err {A} k (o : option A) m pos (Q : A -> nat -> Prop) :
  original_position r0 <= pos <= original_position r0 + Z.of_nat k ->
  (forall a, o = Some a -> Q a k) -> wp E r0 k (ok_or_err o m pos) Q.
Proof. intros Hp HQ. destruct o as [a|]; simpl; wp_run. by apply HQ. Qed.

Lemma wp_ref_type k (Q : RefType -> nat -> Prop) :
  (forall t k', (k < k')%nat -> rt_module t -> Q t k') ->
  wp E r0 k from_reader_ref_type Q.
Proof.
  intros HQ.
  assert (Hht : forall n h k1, (k < k1)%nat -> ht_module h ->
    wp E r0 k1 (ok_or_err (rt_new n h) "type index too large"
                  (original_position r0 + Z.of_nat k)) Q).
  { intros n h k1 Hk1 Hh. apply wp_ok_or_err; [lia|]. intros r Hr. apply HQ; [done|].
    by exists n, h. }
  unfold from_reader_ref_type. do 4 wp_step.
  repeat (match goal with |- wp _ _ _ (match ?x with _ => _ end) _ => destruct x end;
          try (apply wp_bind, wp_map_err; [apply reclassify_ok|];
               apply wp_heap_type; intros h k1 Hk1 Hh; by apply Hht)).
  all: do 2 wp_step; apply wp_bind, wp_heap_type; intros h k1 Hk1 Hh; apply Hht; [lia|done].
Qed.

Lemma wp_val_type k (Q : ValType -> nat -> Prop) :
  (forall t k', (k < k')%nat -> vt_module t -> Q t k') ->
  wp E r0 k from_reader_val_type Q.
Proof.
  intros HQ. unfold from_reader_val_type. do 2 wp_step.
  repeat (match goal with |- wp _ _ _ (match ?x with _ => _ end) _ => destruct x end;
          try (apply wp_bind, wp_map_err; [apply reclassify_ok|];
               apply wp_ref_type; intros h k1 Hk1 Hh; wp_run; by apply HQ)).
  all: wp_run; apply HQ; [lia|done].
Qed.

Lemma wp_storage_type k (Q : StorageType -> nat -> Prop) :
  (forall t k', (k < k')%nat -> st_module t -> Q t k') ->
  wp E r0 k from_reader_storage_type Q.
Proof.
  intros HQ. unfold from_reader_storage_type. do 2 wp_step.
  repeat (match goal with |- wp _ _ _ (match ?x with _ => _ end) _ => destruct x end;
          try (apply wp_bind, wp_val_type; intros h k1 Hk1 Hh; wp_run; by apply HQ)).
  all: wp_run; apply HQ; [lia|done].
Qed.

(** A peeked byte is there to be skipped. *)
Lemma wp_peek_ne k (Q : Z -> nat -> Prop) :
  (forall b, is_byte b -> (S k <= length (remaining_buffer r0))%nat -> Q b k) ->
  wp E r0 k peek Q.
Proof.
  intros HQ Hk. destruct (wp_peek E r0 Henv k (fun b _ => is_byte b) ltac:(done) Hk)
    as (k1 & Hk1 & E1 & H1).
  exists k1. split; [done|]. split; [done|].
  assert (k1 = k) as ->.
  { unfold peek, mbind, ST_bind, ensure_has_byte, index_position in E1.
    destruct (position _ <? buffer_len _); [destruct (buffer _ !! _)|]; simpl in E1;
      unfold advance, set_position in E1; injection E1; lia. }
  destruct (peek (advance k r0)) as [[b|e|] r1] eqn:Ep; [|done|done].
  apply HQ; [done|]. unfold peek, mbind, ST_bind, ensure_has_byte in Ep.
  destruct (Z.ltb_spec (position (advance k r0)) (buffer_len (advance k r0))) as [Hlt|]; [|done].
  pose proof (remaining_length r0 (env_wf _ _ Henv)) as Hl.
  unfold buffer_len, advance in *. simpl in *. lia.
Qed.

Lemma wp_block_type k (Q : BlockType -> nat -> Prop) :
  (forall b k', (k < k')%nat -> bt_module b -> Q b k') -> wp E r0 k read_block_type Q.
Proof.
  intros HQ. apply wp_bind, wp_peek_ne. intros b Hb Hk.
  destruct (_ && _); [destruct (b =? 64)|].
  - apply wp_bind, wp_modify_position; [lia|lia|]. wp_run. apply HQ; [lia|done].
  - apply wp_bind, wp_val_type. intros t k1 Hk1 Ht. wp_run. by apply HQ.
  - do 2 wp_step. unfold u32_try_from.
    destruct (Z.leb_spec 0 v), (Z.leb_spec v (2 ^ 32 - 1)); cbn [andb]; wp_run.
    apply HQ; [done|]. unfold bt_module, in_u. lia.
Qed.

Lemma wp_memarg k a (Q : MemArg -> nat -> Prop) :
  (forall m k', (k < k')%nat -> memarg_wf (features r0) a m -> Q m k') ->
  wp E r0 k (read_memarg a) Q.
Proof.
  intros HQ.
  assert (Hoff : forall flags m k1, (k < k1)%nat -> 0 <= flags ->
    (if multi_memory (features r0) then in_u 32 m else m = 0) ->
    wp E r0 k1
      (if Z.shiftl 1 6 <=? flags then
         fail (err_new (lit "malformed memop alignment: alignment too large")
                 (original_position r0 + Z.of_nat k))
       else
         offset ← (if memory64 (features r0) then read_var_u64 else read_var_u32);
         mret (mkMemArg (wrap 8 flags) a offset m)) Q).
  { intros flags m k1 Hk1 Hf Hm. destruct (Z.leb_spec (Z.shiftl 1 6) flags) as [|Hlt].
    { wp_run. }
    change (Z.shiftl 1 6) with 64 in Hlt.
    assert (Ha : wrap 8 flags = flags) by (apply wrap_small; unfold in_u; lia).
    apply wp_bind. destruct (memory64 (features r0)) eqn:H64; wp_run;
      (apply HQ; [lia|]; unfold memarg_wf; cbn [max_align align memarg_offset memory];
       rewrite Ha, H64; unfold in_u in *; repeat split; (lia || done)). }
  unfold read_memarg. do 6 wp_step. apply wp_bind.
  destruct (multi_memory (features r0) && negb (Z.land v (Z.shiftl 1 6) =? 0)) eqn:Hb.
  - apply andb_true_iff in Hb as [Hmm _]. rewrite Hmm in Hoff. do 3 wp_step.
    apply Hoff; [lia| |done]. apply Z.lxor_nonneg. unfold in_u in *. change (Z.shiftl 1 6) with 64. lia.
  - wp_step. apply Hoff; [lia|unfold in_u in *; lia|].
    destruct (multi_memory (features r0)); unfold in_u; lia.
Qed.

Lemma wp_ordering k (Q : Ordering -> nat -> Prop) :
  (forall o k', (k < k')%nat -> Q o k') -> wp E r0 k read_ordering Q.
Proof. intros HQ. unfold read_ordering. wp_run; by apply HQ. Qed.

Lemma wp_lane k max (Q : Z -> nat -> Prop) :
  (forall l, lane_wf max l -> Q l (S k)) -> wp E r0 k (read_lane_index max) Q.
Proof.
  intros HQ. unfold read_lane_index. do 2 wp_step.
  destruct (Z.leb_spec max b); wp_run. apply HQ. unfold lane_wf, is_byte in *. lia.
Qed.

Lemma wp_lanes n k (Q : list Z -> nat -> Prop) :
  (forall ls k', (k <= k')%nat -> length ls = n -> Forall (lane_wf 32) ls -> Q ls k') ->
  wp E r0 k (read_lanes n) Q.
Proof.
  revert k Q. induction n as [|n IH]; intros k Q HQ; simpl read_lanes; [by wp_run; apply HQ|].
  apply wp_bind, wp_lane. intros l Hl. apply wp_bind, IH. intros ls k1 Hk1 Hn Hls.
  wp_run. apply HQ; [lia|simpl; lia|]. by constructor.
Qed.

Lemma wp_v128 k (Q : V128Bytes -> nat -> Prop) :
  (forall v, v128_wf v -> Q v (k + 16)%nat) -> wp E r0 k read_v128 Q.
Proof. intros HQ. unfold read_v128. wp_run. apply HQ. split; [lia|done]. Qed.

Lemma wp_zero_byte k (Q : Z -> nat -> Prop) : Q 0 (S k) -> wp E r0 k zero_byte_expected Q.
Proof. intros HQ. unfold zero_byte_expected. wp_run. done. Qed.

Lemma wp_memory_index k (Q : Z -> nat -> Prop) :
  (forall i k', (k < k')%nat -> index_wf (multi_memory (features r0)) i -> Q i k') ->
  wp E r0 k read_memory_index_or_zero_if_not_multi_memory Q.
Proof.
  unfold index_wf. intros HQ. apply wp_bind, wp_features.
  destruct (multi_memory (features r0)); wp_run; [by apply HQ|].
  apply wp_zero_byte, HQ; [lia|done].
Qed.

Lemma wp_table_index k (Q : Z -> nat -> Prop) :
  (forall i k', (k < k')%nat -> index_wf (reference_types (features r0)) i -> Q i k') ->
  wp E r0 k read_table_index_or_zero_if_not_reference_types Q.
Proof.
  unfold index_wf. intros HQ. apply wp_bind, wp_features.
  destruct (reference_types (features r0)); wp_run; [by apply HQ|].
  apply wp_zero_byte, HQ; [lia|done].
Qed.

Lemma wp_invalid_leading_byte {A} k b d (Q : A -> nat -> Prop) :
  (0 < k)%nat -> wp E r0 k (invalid_leading_byte b d) Q.
Proof. intros Hk. unfold invalid_leading_byte. wp_run. Qed.

Lemma wp_size k limit desc (Q : Z -> nat -> Prop) :
  (forall n k', (k < k')%nat -> 0 <= n <= limit -> Q n k') ->
  wp E r0 k (read_size limit desc) Q.
Proof.
  intros HQ. unfold read_size. do 4 wp_step. destruct (Z.ltb_spec limit v); wp_run.
  apply HQ; [done|]. unfold in_u in *. lia.
Qed.

Lemma wp_catch k (Q : Catch -> nat -> Prop) :
  (forall c k', (k < k')%nat -> catch_wf c -> Q c k') -> wp E r0 k from_reader_catch Q.
Proof.
  intros HQ. unfold from_reader_catch.
  wp_run; try (apply wp_invalid_leading_byte; lia); (apply HQ; [lia|done]).
Qed.

Lemma wp_handle k (Q : Handle -> nat -> Prop) :
  (forall c k', (k < k')%nat -> handle_wf c -> Q c k') -> wp E r0 k from_reader_handle Q.
Proof.
  intros HQ. unfold from_reader_handle.
  wp_run; try (apply wp_invalid_leading_byte; lia); (apply HQ; [lia|done]).
Qed.

Lemma wp_iter {A} `{FromReader A} k limit desc (P : A -> Prop) (Q : list A -> nat -> Prop) :
  (forall k, wp E r0 k read (fun (a : A) _ => P a)) ->
  (forall xs k', (k < k')%nat -> Z.of_nat (length xs) <= limit -> Forall P xs -> Q xs k') ->
  wp E r0 k (read_iter limit desc) Q.
Proof.
  intros HP HQ. apply wp_bind, wp_size. intros n k1 Hk1 Hn.
  apply wp_read_n with P; [done|]. intros xs k2 Hk2 Hl Hxs. apply HQ; [lia|lia|done].
Qed.

Lemma wp_try_table k (Q : TryTable -> nat -> Prop) :
  (forall c k', (k < k')%nat -> try_table_wf c -> Q c k') ->
  wp E r0 k from_reader_try_table Q.
Proof.
  intros HQ. apply wp_bind, wp_block_type. intros b k1 Hk1 Hb.
  apply wp_bind, wp_iter with catch_wf; [intros; by apply wp_catch|].
  intros xs k2 Hk2 Hl Hxs. wp_run. apply HQ; [lia|]. by split.
Qed.

Lemma wp_resume_table k (Q : ResumeTable -> nat -> Prop) :
  (forall c k', (k < k')%nat -> resume_table_wf c -> Q c k') ->
  wp E r0 k from_reader_resume_table Q.
Proof.
  intros HQ. apply wp_bind, wp_iter with handle_wf; [intros; by apply wp_handle|].
  intros xs k2 Hk2 Hl Hxs. wp_run. apply HQ; [lia|]. by split.
Qed.

Lemma wp_br_on_cast k (Q : Z * RefType * RefType -> nat -> Prop) :
  (forall d t1 t2 k', (k < k')%nat -> in_u 32 d -> rt_module t1 -> rt_module t2 ->
     Q (d, t1, t2) k') ->
  wp E r0 k read_br_on_cast Q.
Proof.
  intros HQ. unfold read_br_on_cast. do 6 wp_step. apply wp_bind.
  assert (Hrest : forall n1 n2,
    wp E r0 k' (from_heap_type ← from_reader_heap_type;
                from_ref_type ← ok_or_err (rt_new n1 from_heap_type)
                  "implementation error: type index too large" (original_position r0 + Z.of_nat k);
                to_heap_type ← from_reader_heap_type;
                to_ref_type ← ok_or_err (rt_new n2 to_heap_type)
                  "implementation error: type index too large" (original_position r0 + Z.of_nat k);
                mret (v, from_ref_type, to_ref_type)) Q).
  { intros n1 n2. apply wp_bind, wp_heap_type. intros h1 k1 Hk1 Hh1.
    apply wp_bind, wp_ok_or_err; [lia|]. intros t1 Ht1.
    apply wp_bind, wp_heap_type. intros h2 k2 Hk2 Hh2.
    apply wp_bind, wp_ok_or_err; [lia|]. intros t2 Ht2.
    wp_run. apply HQ; [lia|done|by exists n1, h1|by exists n2, h2]. }
  repeat match goal with |- wp _ _ _ (match ?x with _ => _ end) _ => destruct x end;
    solve [wp_step; apply Hrest | wp_step].
Qed.

Lemma leb_scan_prefix m bs n rest :
  leb_scan m bs = Done n -> leb_scan m (take n bs ++ rest) = Done n.
Proof.
  revert bs n. induction m as [|m IH]; intros [|b bs] n; simpl; try done.
  destruct (b <? 128) eqn:Hb; [intros [= <-]; simpl; by rewrite Hb|].
  destruct (leb_scan m bs) as [n'| |] eqn:Es; try done. intros [= <-].
  simpl. by rewrite Hb, (IH _ _ Es).
Qed.

(** A [u32] that was read is read again from the bytes it was read from. *)
Lemma read_var_u32_inv r v r' :
  wf_reader r -> read_var_u32 r = (Ok v, r') ->
  in_u 32 v /\ exists bs, remaining_buffer r = bs ++ remaining_buffer r'
    /\ r' = advance (length bs) r /\ forall f, reads f read_var_u32 bs v.
Proof.
  intros Hwf. rewrite read_var_u32_spec by done. unfold leb_u_spec.
  destruct (leb_scan 5 (remaining_buffer r)) as [n| |] eqn:Es; try done.
  case_bool_decide as Hv; [|done]. intros [= <- <-]. split; [done|].
  pose proof (leb_scan_done _ _ _ Es) as [_ Hn].
  exists (take n (remaining_buffer r)). rewrite length_take, Nat.min_l by done.
  split; [|split; [done|]].
  - rewrite remaining_advance by apply Hwf. by rewrite take_drop.
  - intros f r2 rest Hwf2 _ E2. rewrite read_var_u32_spec by done. unfold leb_u_spec.
    rewrite E2, (leb_scan_prefix _ _ _ _ Es).
    rewrite take_app_le, take_take, Nat.min_id by (rewrite length_take; lia).
    rewrite bool_decide_eq_true_2 by done. rewrite length_take, Nat.min_l by done. done.
Qed.

Lemma targets_collect_cons n r v r' :
  read_var_u32 r = (Ok v, r') ->
  targets_collect (S (S n)) (mkTargets r (Z.of_nat (S n)))
  = match targets_collect (S n) (mkTargets r' (Z.of_nat n)) with
    | Ok vs => Ok (v :: vs)
    | e => e
    end.
Proof.
  intros Hr. cbn [targets_collect]. unfold targets_next at 1.
  cbn [remaining targets_reader]. destruct (Z.eqb_spec (Z.of_nat (S n)) 0); [lia|].
  rewrite Hr. by replace (Z.of_nat (S n) - 1) with (Z.of_nat n) by lia.
Qed.

Lemma targets_collect_nil r :
  wf_reader r -> remaining_buffer r = [] -> targets_collect 1 (mkTargets r 0) = Ok [].
Proof.
  intros Hwf E1. cbn [targets_collect]. unfold targets_next. cbn [remaining targets_reader].
  pose proof (remaining_length r Hwf) as Hl. rewrite E1 in Hl. simpl in Hl.
  unfold eof. destruct (Z.leb_spec (buffer_len r) (position r)); [done|lia].
Qed.

(** The targets that were skipped are the targets that are collected later,
    from a reader for exactly the skipped bytes. *)
Lemma skip_var_u32s_inv n r r' :
  wf_reader r -> skip_var_u32s n r = (Ok tt, r') ->
  exists ls bs, length ls = n /\ Forall (in_u 32) ls
    /\ remaining_buffer r = bs ++ remaining_buffer r' /\ r' = advance (length bs) r
    /\ forall r2, wf_reader r2 -> remaining_buffer r2 = bs ->
         targets_collect (S n) (mkTargets r2 (Z.of_nat n)) = Ok ls.
Proof.
  revert r. induction n as [|n IH]; intros r Hwf Hs.
  - injection Hs as <-. exists [], []. rewrite advance_0. repeat split; [done|].
    intros r2 Hwf2 E2. by apply targets_collect_nil.
  - cbn [skip_var_u32s] in Hs. unfold mbind, ST_bind in Hs.
    destruct (read_var_u32 r) as [[v|e|] r1] eqn:Er; try done.
    destruct (read_var_u32_inv _ _ _ Hwf Er) as (Hv & bs & E1 & Hr1 & Hreads).
    assert (Hwf1 : wf_reader r1).
    { rewrite Hr1. apply wf_advance; [done|]. rewrite E1, length_app. lia. }
    destruct (IH r1 Hwf1 Hs) as (ls & bs' & Hl & Hls & E2 & Hr' & Hc).
    exists (v :: ls), (bs ++ bs'). split; [simpl; lia|]. split; [by constructor|].
    rewrite <- app_assoc, <- E2. split; [done|]. split.
    { rewrite Hr', Hr1, advance_advance, length_app. done. }
    intros r2 Hwf2 E3.
    rewrite (targets_collect_cons n r2 v (advance (length bs) r2))
      by by apply (Hreads (features r2) r2 bs').
    rewrite Hc; [done| |].
    + apply wf_advance; [done|]. rewrite E3, length_app. lia.
    + rewrite remaining_advance by apply Hwf2. by rewrite E3, drop_app_length.
Qed.

Lemma wp_skip_var_u32s n k (Q : () -> nat -> Prop) :
  (forall k', (k <= k')%nat -> Q tt k') -> wp E r0 k (skip_var_u32s n) Q.
Proof.
  revert k Q. induction n as [|n IH]; intros k Q HQ; cbn [skip_var_u32s]; [wp_run; by apply HQ|].
  do 2 wp_step. apply IH. intros k2 Hk2. apply HQ. lia.
Qed.

Lemma wp_skip_targets n k (Q : BinaryReader -> nat -> Prop) :
  (forall r ls k', (k <= k')%nat -> length ls = n -> Forall (in_u 32) ls ->
     targets_collect (S n) (mkTargets r (Z.of_nat n)) = Ok ls -> Q r k') ->
  wp E r0 k (skip (skip_var_u32s n)) Q.
Proof.
  intros HQ Hk. pose proof (env_wf _ _ Henv) as Hwf.
  destruct (wp_skip_var_u32s n k (fun _ k' => (k <= k')%nat) ltac:(done) Hk)
    as (k1 & Hk1 & E1 & H1).
  exists k1. split; [done|]. unfold skip, mbind, ST_bind, gets.
  destruct (skip_var_u32s n (advance k r0)) as [[[]|e|] r1] eqn:Es;
    cbn [fst snd] in *; subst; try done.
  split; [done|].
  destruct (skip_var_u32s_inv _ _ _ (wf_at E r0 Henv k Hk) Es)
    as (ls & bs & Hl & Hls & E2 & E3 & Hc).
  apply HQ with ls; [done|done|done|].
  assert (Hlen : length bs = (k1 - k)%nat).
  { apply (f_equal position) in E3. unfold advance in E3. simpl in E3. lia. }
  assert (Ebs : slice (position (advance k r0)) (position (advance k1 r0)) (buffer r0) = bs).
  { rewrite <- (slice_ok (advance k r0) bs (remaining_buffer (advance k1 r0)));
      [|by apply (wf_at E)|done].
    f_equal. rewrite Hlen. unfold advance. simpl. lia. }
  apply Hc.
  - destruct (slice_at E r0 Henv k (Z.of_nat (k1 - k))) as [S1 S2]; [lia|lia|].
    replace (position (advance k r0) + Z.of_nat (k1 - k)) with (position (advance k1 r0))
      in S1, S2 by (unfold advance; simpl; lia).
    pose proof (remaining_length r0 Hwf). destruct Hwf as [Hp Ho He Hb].
    split; unfold buffer_len in *; simpl in *; rewrite ?S1; try lia. done.
  - exact Ebs.
Qed.

Lemma wp_br_table k (Q : BrTable -> nat -> Prop) :
  (forall t k', (k < k')%nat -> br_table_wf t -> Q t k') -> wp E r0 k read_br_table Q.
Proof.
  intros HQ. apply wp_bind, wp_size. intros n k1 Hk1 Hn.
  apply wp_bind, wp_skip_targets. intros r ls k2 Hk2 Hl Hls Hc. do 3 wp_step.
  apply HQ; [lia|].
  assert (Hw : wrap 32 n = n).
  { apply wrap_small. unfold in_u, MAX_WASM_BR_TABLE_SIZE, MAX_WASM_FUNCTION_SIZE in *. lia. }
  rewrite Hw. split; [done|]. split; [done|]. exists ls.
  unfold br_table_targets, targets. cbn [cnt br_reader].
  rewrite <- (Z2Nat.id n) at 2 by lia. cbn [cnt]. split; [done|]. split; [done|lia].
Qed.
End wp.

Ltac wp_prim ::=
  match goal with
  | |- wp _ _ _ from_reader_heap_type _ => apply wp_heap_type; [done|intros ? ? ? ?]
  | |- wp _ _ _ from_reader_ref_type _ => apply wp_ref_type; [done|intros ? ? ? ?]
  | |- wp _ _ _ from_reader_val_type _ => apply wp_val_type; [done|intros ? ? ? ?]
  | |- wp _ _ _ read_block_type _ => apply wp_block_type; [done|intros ? ? ? ?]
  | |- wp _ _ _ (read_memarg _) _ => apply wp_memarg; [done|intros ? ? ? ?]
  | |- wp _ _ _ read_ordering _ => apply wp_ordering; [done|intros ? ? ?]
  | |- wp _ _ _ (read_lane_index _) _ => apply wp_lane; [done|intros ? ?]
  | |- wp _ _ _ (read_lanes _) _ => apply wp_lanes; [done|intros ? ? ? ? ?]
  | |- wp _ _ _ read_v128 _ => apply wp_v128; [done|intros ? ?]
  | |- wp _ _ _ read_f32 _ => apply wp_u32; [done|intros ? ?]
  | |- wp _ _ _ read_f64 _ => apply wp_u64; [done|intros ? ?]
  | |- wp _ _ _ read_memory_index_or_zero_if_not_multi_memory _ =>
      apply wp_memory_index; [done|intros ? ? ? ?]
  | |- wp _ _ _ read_table_index_or_zero_if_not_reference_types _ =>
      apply wp_table_index; [done|intros ? ? ? ?]
  | |- wp _ _ _ from_reader_try_table _ => apply wp_try_table; [done|intros ? ? ? ?]
  | |- wp _ _ _ from_reader_resume_table _ => apply wp_resume_table; [done|intros ? ? ? ?]
  | |- wp _ _ _ read_br_on_cast _ => apply wp_br_on_cast; [done|intros ? ? ? ? ? ? ? ?]
  | |- wp _ _ _ read_br_table _ => apply wp_br_table; [done|intros ? ? ? ?]
  end.
