(* ===== verification/OperandRoundtrip.v ===== *)
(** Well-formed types and operands survive translation to wasm-encoder
    ([RoundtripReencoder]), encoding, and reading back. *)

From Stdlib Require Import ZArith Lia String.
From stdpp Require Import prelude.
From S2P Require Import Prelude Leb128 BinaryReader BinaryReaderSpec ReaderLogic Encode Types TypesSpec.
From S2P Require Import EncTypes Operands Operators Instructions Reencode OperandSpec.

Local Open Scope Z_scope.

#[export] Existing Instance RoundtripReencoder.

Section roundtrip.
Context (f : WasmFeatures) {L : Leb128} {LS : Leb128Spec L}.

(** A single byte below 128 is the LEB128 form of itself. *)
Lemma er_push_u32 b : 0 <= b < 128 -> enc_reads f (push b) read_var_u32 b.
Proof.
  intros Hb. exists [b]. split; [done|]. intros r rest Hwf Hf E.
  rewrite read_var_u32_spec by done.
  rewrite (leb_u_reads _ _ _ _ _ [b] rest); cbn [uleb_val length]; try done.
  - by rewrite Z.mod_small, Z.mul_0_r, Z.add_0_r by lia.
  - lia.
  - rewrite Z.mod_small by lia. unfold in_u. lia.
Qed.

(** ** Heap types *)

(** The byte of an abstract heap type is a negative [s33]. *)
Lemma read_var_s33_neg r b rest :
  wf_reader r -> 64 <= b < 128 -> remaining_buffer r = b :: rest ->
  exists v, read_var_s33 r = (Ok v, advance 1 r) /\ u32_try_from v = None.
Proof.
  intros Hwf Hb E. rewrite read_var_s33_spec by done. unfold s33_spec. rewrite E.
  cbn [leb_scan]. destruct (Z.ltb_spec b 128); [|lia].
  assert (Hs : swrap 7 b = b - 128).
  { unfold swrap. change (2 ^ (7 - 1)) with 64. change (2 ^ 7) with 128.
    replace (b + 64) with (b - 64 + 1 * 128) by lia. rewrite Z.mod_add, Z.mod_small by lia. lia. }
  unfold s33_value. cbn [firstn sleb_val length]. rewrite Hs.
  rewrite (bool_decide_eq_true_2 (in_i 33 (b - 128))) by (unfold in_i; simpl; lia).
  rewrite (bool_decide_eq_false_2 (1 = 5)%nat) by lia.
  exists (b - 128). split; [done|]. unfold u32_try_from.
  by rewrite (proj2 (Z.leb_gt 0 (b - 128))) by lia.
Qed.

(** The part of [from_reader_heap_type] after a negative [s33]. *)
Lemma er_heap_type_neg e b e' (m : Reader HeapType) h :
  e = push b +> e' -> 64 <= b < 128 ->
  m = (b ← peek;
       match b with
       | 0x65 => read_u8;; ty ← from_reader_abstract_heap_type; mret (Abstract true ty)
       | _ => ty ← map_err (reclassify "invalid heap type") from_reader_abstract_heap_type;
              mret (Abstract false ty)
       end) ->
  enc_reads f e m h -> enc_reads f e from_reader_heap_type h.
Proof.
  intros -> Hb -> (bs & E & H). exists bs. split; [done|]. intros r rest Hwf Hf Er.
  assert (exists bs', bs = b :: bs') as (bs' & ->).
  { destruct e' as [l|]; [|done]. injection E as <-. by exists l. }
  unfold from_reader_heap_type.
  destruct (read_var_s33_neg r b (bs' ++ rest) Hwf Hb Er) as (v & -> & ->).
  by apply (H r rest).
Qed.

Lemma er_peek {B} e b e' (k : Z -> Reader B) x :
  e = push b +> e' -> enc_reads f e (k b) x -> enc_reads f e (peek ≫= k) x.
Proof.
  intros -> (bs & E & H). exists bs. split; [done|].
  assert (exists bs', bs = b :: bs') as (bs' & ->).
  { destruct e' as [l|]; [|done]. injection E as <-. by exists l. }
  by apply reads_peek.
Qed.

Lemma er_abstract_heap_type t :
  enc_reads f (WE.encode_abstract_heap_type (abstract_heap_type t))
    from_reader_abstract_heap_type t.
Proof. destruct t; (eapply er_last; [apply er_push|reflexivity]). Qed.

(** The byte of an abstract heap type, and that no other reader claims it. *)
Lemma abstract_heap_type_byte t :
  exists b, WE.encode_abstract_heap_type (abstract_heap_type t) = push b +> Some []
    /\ 0x68 <= b <= 0x75.
Proof. destruct t; eexists; (split; [reflexivity|lia]). Qed.

Lemma er_heap_type_abstract shared t :
  enc_reads f (WE.encode_heap_type (WE.Abstract shared (abstract_heap_type t)))
    from_reader_heap_type (Abstract shared t).
Proof.
  destruct (abstract_heap_type_byte t) as (b & Eb & Hb).
  pose proof (er_abstract_heap_type t) as Ht. cbn [WE.encode_heap_type]. destruct shared.
  - eapply er_heap_type_neg; [done|lia|done|]. eapply er_peek; [done|]. cbv iota.
    eapply er_bind; [apply er_push|]. by eapply er_last.
  - rewrite Eb in *. eapply (er_heap_type_neg _ b (Some [])); [done|lia|done|].
    eapply (er_peek _ b (Some [])); [done|].
    destruct (decide (b = 0x65)); [lia|].
    assert (Hm : enc_reads f (Some [] +> push b +> Some [])
      (ty ← map_err (reclassify "invalid heap type") from_reader_abstract_heap_type;
       mret (Abstract false ty)) (Abstract false t)) by (eapply er_last; [by apply er_map_err|done]).
    clear Ht Eb.
    repeat (match goal with |- context [match ?x with _ => _ end] => is_var x; destruct x end;
            try exact Hm; try lia).
Qed.

Lemma er_heap_type h :
  ht_module h ->
  exists h', heap_type h = ROk h'
    /\ enc_reads f (WE.encode_heap_type h') from_reader_heap_type h.
Proof.
  destruct h as [shared t|[i|i|i]]; intros Hh; try done.
  - eexists. split; [done|]. apply er_heap_type_abstract.
  - eexists. split; [done|].
    destruct (er_s33 f i) as (bs & E & Hr).
    { unfold ht_module, in_u in *. lia. }
    exists bs. split; [done|]. intros r rest Hwf Hf Er. unfold from_reader_heap_type.
    rewrite (Hr r rest) by done. unfold u32_try_from.
    assert (Hi : 0 <= i <= 2 ^ 32 - 1) by (unfold ht_module, in_u in Hh; lia).
    rewrite (proj2 (Z.leb_le 0 i)), (proj2 (Z.leb_le i _)) by lia. simpl andb. cbv iota.
    destruct (unpack_pack (Module_ i) Hh) as (p & Hp & _ & Hun). simpl in Hp.
    by rewrite Hp, Hun.
Qed.

(** ** Reference, value and block types *)

(** Every encoding of a reference type starts with one of these bytes. *)
Lemma er_ref_type r :
  rt_module r ->
  exists r', ref_type r = ROk r'
    /\ enc_reads f (WE.encode_ref_type r') from_reader_ref_type r
    /\ exists b e', WE.encode_ref_type r' = push b +> e' /\ 0x63 <= b <= 0x75.
Proof.
  intros Hr. destruct (rt_module_heap_type r Hr) as (h & Hh & Eh & En).
  destruct (er_heap_type h Hh) as (h' & Eh' & Hreads).
  exists (WE.mkRefType (is_nullable r) h').
  split. { unfold ref_type. by rewrite Eh; simpl; rewrite Eh'. }
  assert (Hlong : forall n, n = is_nullable r ->
    enc_reads f (push (if n then 0x63 else 0x64) +> WE.encode_heap_type h')
      from_reader_ref_type r).
  { intros n ->. apply er_gets. intros pos.
    destruct (is_nullable r);
      (eapply er_peek; [done|]; cbv iota; eapply er_bind; [apply er_push|];
       eapply er_last; [done|]; simpl; by rewrite En). }
  destruct (is_nullable r); [destruct h' as [shared t|i]|].
  - destruct h as [s t'|[]]; try done. injection Eh' as <- <-. cbn [WE.encode_ref_type].
    destruct (abstract_heap_type_byte t') as (b & Eb & Hb).
    assert (exists b' e', WE.encode_heap_type (WE.Abstract s (abstract_heap_type t'))
      = push b' +> e' /\ 0x65 <= b' <= 0x75) as (b' & e' & Ee & Hb').
    { cbn [WE.encode_heap_type]. rewrite Eb. destruct s.
      - by eexists 0x65, _.
      - exists b, (Some []). split; [done|lia]. }
    split; [|exists b', e'; split; [done|lia]].
    apply er_gets. intros pos. rewrite Ee in *. eapply er_peek; [done|].
    assert (Hm : enc_reads f (push b' +> e')
      (hty ← map_err (reclassify "malformed reference type") from_reader_heap_type;
       ok_or_err (rt_new true hty) "type index too large" pos) r).
    { eapply er_last; [by apply er_map_err|]. cbv beta. by rewrite En. }
    clear Hlong Hreads Ee Eb Hb. byte_default Hm.
  - split; [by apply (Hlong true)|]. eexists 0x63, _. split; [done|lia].
  - split; [by apply (Hlong false)|]. destruct h'; eexists 0x64, _; (split; [done|lia]).
Qed.

Lemma er_val_type t :
  vt_module t ->
  exists t', val_type t = ROk t'
    /\ enc_reads f (WE.encode_val_type t') from_reader_val_type t
    /\ exists b e', WE.encode_val_type t' = push b +> e'
         /\ (0x63 <= b <= 0x75 \/ 0x7B <= b <= 0x7F).
Proof.
  destruct t as [| | | | |r]; intros Ht;
    [..|destruct (er_ref_type r Ht) as (r' & Er & Hreads & b & e' & Ee & Hb)];
    [exists WE.I32|exists WE.I64|exists WE.F32|exists WE.F64|exists WE.V128|exists (WE.Ref r')].
  1-5: split; [done|]; split;
    [eapply (er_peek _ _ (Some [])); [done|]; cbv iota; eapply er_last; [apply er_push|done]
    |eexists _, (Some []); split; [done|lia]].
  split. { simpl. by rewrite Er. } cbn [WE.encode_val_type].
  split; [|exists b, e'; split; [done|lia]].
  rewrite Ee in *. eapply er_peek; [done|].
  assert (Hm : enc_reads f (push b +> e')
    (refty ← map_err (reclassify "invalid value type") from_reader_ref_type;
     mret (Ref refty)) (Ref r)) by (eapply er_last; [by apply er_map_err|done]).
  clear Hreads Ee. byte_default Hm.
Qed.

(** The first byte of the encoding of a non-negative number. *)
Lemma write_signed_first v :
  in_u 32 v ->
  exists b bs, write_signed v = b :: bs /\ is_byte b /\ ~ 64 <= b < 128.
Proof.
  intros Hv. assert (H64 : in_i 64 v) by (unfold in_i, in_u in *; simpl in *; lia).
  pose proof (signed_form v H64) as Hform. pose proof (signed_value v H64) as Hval.
  pose proof (leb_form_bytes _ Hform) as Hbytes.
  destruct (write_signed v) as [|b bs]; [done|]. exists b, bs. split; [done|].
  apply Forall_cons in Hbytes as [Hb0 _]. split; [done|]. destruct bs as [|c bs].
  - cbn [sleb_val] in Hval. unfold swrap, in_u in *. change (2 ^ (7 - 1)) with 64 in *.
    change (2 ^ 7) with 128 in *. intros Hb.
    replace (b + 64) with (b - 64 + 1 * 128) in Hval by lia.
    rewrite Z.mod_add, Z.mod_small in Hval by lia. lia.
  - destruct Hform as [Hb _]. lia.
Qed.

Lemma sign_bits b :
  is_byte b ->
  (Z.land b 0x80 =? 0) && negb (Z.land b 0x40 =? 0) = bool_decide (64 <= b < 128).
Proof.
  intros Hb. apply Bool.eqb_prop. revert b Hb.
  apply (byte_forall (fun b => Bool.eqb _ (bool_decide (64 <= b < 128)))).
  vm_compute. reflexivity.
Qed.

Lemma er_block_type b :
  bt_module b ->
  exists b', block_type b = ROk b'
    /\ enc_reads f (WE.encode_block_type b') read_block_type b.
Proof.
  destruct b as [|t|i]; intros Hb.
  - exists WE.Empty. split; [done|]. exists [0x40]. split; [done|].
    intros r rest Hwf Hf E. unfold read_block_type, mbind, ST_bind.
    by rewrite (peek_cons r 0x40 rest).
  - destruct (er_val_type t Hb) as (t' & Et & Hreads & b & e' & Ee & Hbb).
    exists (WE.Result t'). split. { simpl. by rewrite Et. }
    cbn [WE.encode_block_type]. rewrite Ee in *. eapply er_peek; [done|].
    rewrite sign_bits by (unfold is_byte; lia). rewrite bool_decide_eq_true_2 by lia.
    destruct (Z.eqb_spec b 0x40); [lia|]. by eapply er_last.
  - exists (WE.FunctionType i). split; [done|]. destruct (er_s33 f i Hb) as (bs & E & Hr).
    destruct (write_signed_first i Hb) as (b & bs' & Ew & Hbyte & Hnb).
    exists bs. split; [done|]. injection E as <-. rewrite Ew in *. apply reads_peek.
    rewrite sign_bits by done. rewrite bool_decide_eq_false_2 by done.
    rewrite <- (app_nil_r (b :: bs')). apply reads_bind with i; [done|].
    unfold bt_module, in_u in Hb. unfold u32_try_from.
    rewrite (proj2 (Z.leb_le 0 i)), (proj2 (Z.leb_le i _)) by lia. apply reads_ret.
Qed.

(** ** Operands *)

(** The alignment with and without the multi-memory flag. *)
Lemma align_flag a : in_u 6 a ->
  (Z.land a 64 =? 0) = true /\ Z.lor a 64 = a + 64
  /\ (Z.land (a + 64) 64 =? 0) = false /\ Z.lxor (a + 64) 64 = a.
Proof.
  intros Ha. assert (Hb : is_byte a) by (unfold in_u, is_byte in *; lia).
  enough ((64 <=? a) || ((Z.land a 64 =? 0) && (Z.lor a 64 =? a + 64)
            && negb (Z.land (a + 64) 64 =? 0) && (Z.lxor (a + 64) 64 =? a)) = true) as H.
  { destruct (Z.leb_spec 64 a); [unfold in_u in Ha; lia|].
    rewrite !orb_false_l, !andb_true_iff, negb_true_iff, !Z.eqb_eq in H.
    rewrite Z.eqb_eq. tauto. }
  revert a Ha Hb. intros a _. revert a.
  apply (byte_forall (fun a => (64 <=? a) || _)). vm_compute. reflexivity.
Qed.

(** Reading an alignment, an optional memory index and an offset. *)
Lemma er_memarg a m :
  memarg_wf f a m -> enc_reads f (WE.encode_mem_arg (mem_arg m)) (read_memarg a) m.
Proof.
  intros (Ha & Hal & Hoff & Hmem). destruct m as [al mx off mm]; cbn [max_align align
    memarg_offset memory] in *. subst mx.
  destruct (align_flag al Hal) as (F1 & F2 & F3 & F4).
  assert (Hal' : 0 <= al < 64) by exact Hal.
  assert (Ho : enc_reads f (encode_u64 off)
    (if memory64 f then read_var_u64 else read_var_u32) off).
  { destruct (memory64 f); [by apply er_u64|by apply er_u32]. }
  assert (Htail : forall pos, enc_reads f (encode_u64 off)
    (if 64 <=? al then
       fail (err_new (lit "malformed memop alignment: alignment too large") pos)
     else
       offset ← (if memory64 f then read_var_u64 else read_var_u32);
       mret (mkMemArg (wrap 8 al) a offset mm)) (mkMemArg al a off mm)).
  { intros pos. rewrite (proj2 (Z.leb_gt 64 al)) by lia. eapply er_last; [done|].
    rewrite wrap_small by (unfold in_u; lia). done. }
  unfold WE.encode_mem_arg, mem_arg, read_memarg. change (Z.shiftl 1 6) with 64.
  cbn [WE.memory_index WE.align WE.offset align memarg_offset memory Hooks.memory_index
       RoundtripReencoder].
  apply er_gets. intros pos. destruct (Z.eqb_spec mm 0) as [->|Hmm].
  - eapply er_bind; [apply er_u32; [done|unfold in_u; lia]|]. apply er_features.
    rewrite F1, andb_false_r. apply Htail.
  - destruct (multi_memory f) eqn:Hf; [|done]. rewrite F2.
    eapply er_bind; [apply er_u32; [done|unfold in_u; lia]|]. apply er_features.
    rewrite Hf, F3, F4. cbn [negb andb].
    apply er_bind with (al, mm); [|apply Htail]. by eapply er_last; [apply er_u32|].
Qed.

Lemma er_ordering o : enc_reads f (WE.encode_ordering (ordering o)) read_ordering o.
Proof. destruct o; (eapply er_last; [apply er_push_u32; simpl; lia|done]). Qed.

Lemma er_lane max l :
  lane_wf max l -> enc_reads f (assert_enc (l <? max) +> push l) (read_lane_index max) l.
Proof.
  intros Hl. unfold lane_wf in Hl. apply er_assert; [apply Z.ltb_lt; lia|].
  eapply er_last; [apply er_push|]. cbv beta. by rewrite (proj2 (Z.leb_gt max l)) by lia.
Qed.

Lemma reads_lanes ls :
  Forall (lane_wf 32) ls -> reads f (read_lanes (length ls)) ls ls.
Proof.
  induction 1 as [|l ls Hl Hls IH]; [apply reads_ret|].
  change (l :: ls) with ([l] ++ ls) at 2. unfold lane_wf in Hl. apply reads_bind with l.
  - apply (reads_bind f _ _ [l] []) with l; [apply reads_u8|].
    rewrite (proj2 (Z.leb_gt 32 l)) by lia. apply reads_ret.
  - rewrite <- (app_nil_r ls) at 2. apply reads_bind with ls; [done|apply reads_ret].
Qed.

Lemma er_lanes ls :
  lanes_wf ls ->
  enc_reads f (assert_enc (forallb (fun l => l <? 32) ls) +> extend ls) (read_lanes 16) ls.
Proof.
  intros [Hl Hls]. apply er_assert.
  - apply forallb_forall. intros x Hx. apply Z.ltb_lt. rewrite Forall_forall in Hls.
    apply list_elem_of_In, Hls in Hx. apply Hx.
  - exists ls. split; [done|]. rewrite <- Hl. by apply reads_lanes.
Qed.

Lemma to_from_le_bytes bs :
  Forall is_byte bs -> to_le_bytes (length bs) (from_le_bytes bs) = bs.
Proof.
  induction 1 as [|b bs Hb Hbs IH]; [done|]. cbn [length to_le_bytes from_le_bytes].
  unfold is_byte in Hb. rewrite (Z.mul_comm 256), Z.mod_add, Z.mod_small by lia.
  rewrite Z.div_add, Z.div_small, Z.add_0_l by lia. by rewrite IH.
Qed.

(** The bytes of a number depend on it only modulo [2^(8n)]. *)
Lemma to_le_bytes_mod n x : to_le_bytes n (x mod 2 ^ (8 * Z.of_nat n)) = to_le_bytes n x.
Proof.
  revert x. induction n as [|n IH]; intros x; [done|]. cbn [to_le_bytes].
  replace (8 * Z.of_nat (S n)) with (8 + 8 * Z.of_nat n) by lia.
  rewrite Z.pow_add_r by lia. change (2 ^ 8) with 256.
  assert (Hp : 0 < 2 ^ (8 * Z.of_nat n)) by (apply Z.pow_pos_nonneg; lia).
  rewrite Z.rem_mul_r by lia. f_equal.
  - rewrite (Z.mul_comm 256), Z.mod_add by lia. apply Z.mod_mod. lia.
  - rewrite (Z.mul_comm 256), Z.div_add by lia.
    rewrite (Z.div_small (x mod 256)) by (apply Z.mod_pos_bound; lia). apply IH.
Qed.

Lemma er_v128 v :
  v128_wf v -> enc_reads f (extend (to_le_bytes 16 (V128_i128 v))) read_v128 v.
Proof.
  intros [Hl Hb]. replace (to_le_bytes 16 (V128_i128 v)) with v; [by apply er_bytes; rewrite Hl|].
  rewrite <- (to_from_le_bytes v Hb) at 1. rewrite Hl.
  rewrite <- (to_le_bytes_mod 16 (from_le_bytes v)), <- (to_le_bytes_mod 16 (V128_i128 v)).
  f_equal. unfold V128_i128, swrap. change (8 * Z.of_nat 16) with 128.
  rewrite Zminus_mod_idemp_l. f_equal. lia.
Qed.

Lemma write_unsigned_zero : write_unsigned 0 = [0].
Proof.
  assert (H0 : in_u 64 0) by (unfold in_u; lia).
  pose proof (unsigned_form 0 H0) as Hform. pose proof (unsigned_value 0 H0) as Hval.
  pose proof (unsigned_minimal 0 [0] H0 ltac:(simpl; lia) ltac:(done)) as Hmin.
  destruct (write_unsigned 0) as [|b [|c bs]]; simpl in *; [done| |lia].
  f_equal. rewrite Z.mod_small in Hval by lia. lia.
Qed.

Lemma er_zero_byte : enc_reads f (encode_u32 0) zero_byte_expected 0.
Proof.
  unfold encode_u32. rewrite write_unsigned_zero.
  eapply er_last; [apply er_push|done].
Qed.

Lemma er_memory_index i :
  index_wf (multi_memory f) i ->
  enc_reads f (encode_u32 i) read_memory_index_or_zero_if_not_multi_memory i.
Proof.
  unfold index_wf. intros Hi. apply er_features.
  destruct (multi_memory f); [by apply er_u32|]. subst i. apply er_zero_byte.
Qed.

Lemma er_table_index i :
  index_wf (reference_types f) i ->
  enc_reads f (encode_u32 i) read_table_index_or_zero_if_not_reference_types i.
Proof.
  unfold index_wf. intros Hi. apply er_features.
  destruct (reference_types f); [by apply er_u32|]. subst i. apply er_zero_byte.
Qed.

Lemma er_catch c : catch_wf c -> enc_reads f (WE.encode_catch (catch c)) read c.
Proof.
  destruct c; cbn [catch WE.encode_catch catch_wf]; intros Hc; unfold read, from_reader,
    FromReader_Catch, from_reader_catch;
    (eapply er_bind; [apply er_push|]; cbv iota;
     repeat (eapply er_bind; [apply er_u32; [done|tauto]|]);
     (eapply er_last; [apply er_u32; [done|tauto]|done])).
Qed.

Lemma er_handle h : handle_wf h -> enc_reads f (WE.encode_handle (handle h)) read h.
Proof.
  destruct h; cbn [handle WE.encode_handle handle_wf]; intros Hc; unfold read, from_reader,
    FromReader_Handle, from_reader_handle;
    (eapply er_bind; [apply er_push|]; cbv iota;
     repeat (eapply er_bind; [apply er_u32; [done|tauto]|]);
     (eapply er_last; [apply er_u32; [done|tauto]|done])).
Qed.

Lemma encode_items_map {A B} (g : A -> B) (enc : B -> Enc) xs :
  encode_items enc (map g xs) = encode_items (fun x => enc (g x)) xs.
Proof. induction xs as [|x xs IH]; [done|]. simpl. by rewrite IH. Qed.

Lemma er_list_map {A B} `{FromReader A} (g : A -> B) (enc : B -> Enc) xs limit desc
  (P : A -> Prop) :
  Z.of_nat (length xs) <= limit -> limit < 2 ^ 32 ->
  (forall x, P x -> enc_reads f (enc (g x)) read x) -> Forall P xs ->
  enc_reads f (encode_list enc (map g xs)) (read_iter limit desc) xs.
Proof.
  intros Hl Hlim HP Hxs. unfold encode_list. rewrite length_map, encode_items_map.
  apply (er_list f (fun x => enc (g x))); [done|done|]. by eapply Forall_impl.
Qed.

(** A list whose items are translated, encoded and read back one by one. *)
Lemma er_mapM {A B} `{FromReader A} (tr : A -> outcome B) (enc : B -> Enc) (P : A -> Prop) xs :
  (forall x, P x -> exists y, tr x = ROk y /\ enc_reads f (enc y) read x) -> Forall P xs ->
  exists ys, mapM tr xs = ROk ys /\ length ys = length xs
    /\ enc_reads f (encode_items enc ys) (read_n (length xs)) xs.
Proof.
  intros Htr. induction 1 as [|x xs Hx _ IH].
  - exists []. split; [done|]. split; [done|]. apply er_ret.
  - destruct (Htr x Hx) as (y & Ey & Hy). destruct IH as (ys & Eys & Hl & Hys).
    exists (y :: ys). cbn [mapM]. rewrite Ey. cbn [mbind outcome_bind]. rewrite Eys.
    split; [done|]. split; [simpl; lia|]. cbn [encode_items length read_n].
    eapply er_bind; [exact Hy|]. simpl. eapply er_last; [exact Hys|done].
Qed.

Lemma er_resume_table t :
  resume_table_wf t ->
  enc_reads f (encode_list WE.encode_handle (map handle (handlers t)))
    from_reader_resume_table t.
Proof.
  intros [Hh Hl]. destruct t as [hs]. eapply er_last; [|done].
  apply er_list_map with handle_wf; [done|done|apply er_handle|done].
Qed.

Lemma er_try_table t :
  try_table_wf t ->
  exists bt, block_type (try_ty t) = ROk bt
    /\ enc_reads f (WE.encode_block_type bt
                    +> encode_list WE.encode_catch (map catch (catches t)))
         from_reader_try_table t.
Proof.
  intros (Hbt & Hc & Hl). destruct (er_block_type _ Hbt) as (bt & Ebt & Hreads).
  exists bt. split; [done|]. eapply er_bind; [done|]. destruct t as [ty cs].
  eapply er_last; [|done]. apply er_list_map with catch_wf; [done|done|apply er_catch|done].
Qed.

Lemma er_ret_bind {A B} e (a : A) (k : A -> Reader B) b :
  enc_reads f e (k a) b -> enc_reads f e (mret a ≫= k) b.
Proof. done. Qed.

Lemma er_br_on_cast d t1 t2 :
  in_u 32 d -> rt_module t1 -> rt_module t2 ->
  exists t1' t2', ref_type t1 = ROk t1' /\ ref_type t2 = ROk t2'
    /\ enc_reads f
         (push (Z.lor (Z.b2z (WE.nullable t1')) (Z.shiftl (Z.b2z (WE.nullable t2')) 1))
          +> encode_u32 d
          +> WE.encode_heap_type (WE.heap_type t1')
          +> WE.encode_heap_type (WE.heap_type t2'))
         read_br_on_cast (d, t1, t2).
Proof.
  intros Hd H1 H2.
  destruct (rt_module_heap_type t1 H1) as (h1 & Hh1 & Eh1 & En1).
  destruct (rt_module_heap_type t2 H2) as (h2 & Hh2 & Eh2 & En2).
  destruct (er_heap_type h1 Hh1) as (h1' & Eh1' & Hr1).
  destruct (er_heap_type h2 Hh2) as (h2' & Eh2' & Hr2).
  exists (WE.mkRefType (is_nullable t1) h1'), (WE.mkRefType (is_nullable t2) h2').
  split; [|split]. 1-2: unfold ref_type; rewrite ?Eh1, ?Eh2; simpl; by rewrite ?Eh1', ?Eh2'.
  cbn [WE.nullable WE.heap_type]. apply er_gets. intros pos.
  eapply er_bind; [apply er_push|]. eapply er_bind; [by apply er_u32|].
  destruct (is_nullable t1), (is_nullable t2);
    [apply (er_ret_bind _ (true, true))|apply (er_ret_bind _ (true, false))
    |apply (er_ret_bind _ (false, true))|apply (er_ret_bind _ (false, false))];
    cbv iota; (eapply er_bind; [exact Hr1|]; rewrite En1; apply er_ret_bind;
               eapply er_last; [exact Hr2|]; cbv beta; by rewrite En2).
Qed.
End roundtrip.
