(* ===== verification/OperatorSpec.v ===== *)
(** Decoding operators from arbitrary bytes: [visit_operator] does not panic,
    stays inside its buffer, and visits a well-formed operator. *)

From Stdlib Require Import ZArith Lia String.
From stdpp Require Import prelude.
From S2P Require Import Prelude Leb128 BinaryReader BinaryReaderSpec ReaderLogic Types Operands Operators.
From S2P Require Import OperatorReader OperandSpec.

Local Open Scope Z_scope.

(** ** Well-formed operators: every field is what a reader of its type produces *)

Section wf.
Context (f : WasmFeatures).

Definition mvp_wf (o : Op.mvp_op) : Prop :=
  match o with
  | Op.Block blockty | Op.Loop blockty | Op.If blockty => bt_module blockty
  | Op.Br relative_depth | Op.BrIf relative_depth => in_u 32 relative_depth
  | Op.BrTable targets => br_table_wf targets
  | Op.Call function_index => in_u 32 function_index
  | Op.CallIndirect type_index table_index =>
      in_u 32 type_index /\ index_wf (reference_types f) table_index
  | Op.LocalGet local_index | Op.LocalSet local_index | Op.LocalTee local_index =>
      in_u 32 local_index
  | Op.GlobalGet global_index | Op.GlobalSet global_index => in_u 32 global_index
  | Op.I32Load memarg => memarg_wf f 2 memarg
  | Op.I64Load memarg => memarg_wf f 3 memarg
  | Op.F32Load memarg => memarg_wf f 2 memarg
  | Op.F64Load memarg => memarg_wf f 3 memarg
  | Op.I32Load8S memarg | Op.I32Load8U memarg => memarg_wf f 0 memarg
  | Op.I32Load16S memarg | Op.I32Load16U memarg => memarg_wf f 1 memarg
  | Op.I64Load8S memarg | Op.I64Load8U memarg => memarg_wf f 0 memarg
  | Op.I64Load16S memarg | Op.I64Load16U memarg => memarg_wf f 1 memarg
  | Op.I64Load32S memarg | Op.I64Load32U memarg | Op.I32Store memarg =>
      memarg_wf f 2 memarg
  | Op.I64Store memarg => memarg_wf f 3 memarg
  | Op.F32Store memarg => memarg_wf f 2 memarg
  | Op.F64Store memarg => memarg_wf f 3 memarg
  | Op.I32Store8 memarg => memarg_wf f 0 memarg
  | Op.I32Store16 memarg => memarg_wf f 1 memarg
  | Op.I64Store8 memarg => memarg_wf f 0 memarg
  | Op.I64Store16 memarg => memarg_wf f 1 memarg
  | Op.I64Store32 memarg => memarg_wf f 2 memarg
  | Op.MemorySize mem | Op.MemoryGrow mem => index_wf (multi_memory f) mem
  | Op.I32Const value => in_i 32 value
  | Op.I64Const value => in_i 64 value
  | Op.F32Const value => in_u 32 value
  | Op.F64Const value => in_u 64 value
  | _ => True
  end.

Definition sign_extension_wf (o : Op.sign_extension_op) : Prop :=
  True.

Definition gc_wf (o : Op.gc_op) : Prop :=
  match o with
  | Op.StructNew struct_type_index | Op.StructNewDefault struct_type_index =>
      in_u 32 struct_type_index
  | Op.StructGet struct_type_index field_index
  | Op.StructGetS struct_type_index field_index
  | Op.StructGetU struct_type_index field_index
  | Op.StructSet struct_type_index field_index =>
      in_u 32 struct_type_index /\ in_u 32 field_index
  | Op.ArrayNew array_type_index | Op.ArrayNewDefault array_type_index =>
      in_u 32 array_type_index
  | Op.ArrayNewFixed array_type_index array_size =>
      in_u 32 array_type_index /\ in_u 32 array_size
  | Op.ArrayNewData array_type_index array_data_index =>
      in_u 32 array_type_index /\ in_u 32 array_data_index
  | Op.ArrayNewElem array_type_index array_elem_index =>
      in_u 32 array_type_index /\ in_u 32 array_elem_index
  | Op.ArrayGet array_type_index | Op.ArrayGetS array_type_index
  | Op.ArrayGetU array_type_index | Op.ArraySet array_type_index
  | Op.ArrayFill array_type_index => in_u 32 array_type_index
  | Op.ArrayCopy array_type_index_dst array_type_index_src =>
      in_u 32 array_type_index_dst /\ in_u 32 array_type_index_src
  | Op.ArrayInitData array_type_index array_data_index =>
      in_u 32 array_type_index /\ in_u 32 array_data_index
  | Op.ArrayInitElem array_type_index array_elem_index =>
      in_u 32 array_type_index /\ in_u 32 array_elem_index
  | Op.RefTestNonNull hty | Op.RefTestNullable hty | Op.RefCastNonNull hty
  | Op.RefCastNullable hty => ht_module hty
  | Op.BrOnCast relative_depth from_ref_type to_ref_type
  | Op.BrOnCastFail relative_depth from_ref_type to_ref_type =>
      in_u 32 relative_depth /\ rt_module from_ref_type /\ rt_module to_ref_type
  | _ => True
  end.

Definition saturating_float_to_int_wf (o : Op.saturating_float_to_int_op) : Prop :=
  True.

Definition bulk_memory_wf (o : Op.bulk_memory_op) : Prop :=
  match o with
  | Op.MemoryInit data_index mem => in_u 32 data_index /\ in_u 32 mem
  | Op.DataDrop data_index => in_u 32 data_index
  | Op.MemoryCopy dst_mem src_mem => in_u 32 dst_mem /\ in_u 32 src_mem
  | Op.MemoryFill mem => in_u 32 mem
  | Op.TableInit elem_index table => in_u 32 elem_index /\ in_u 32 table
  | Op.ElemDrop elem_index => in_u 32 elem_index
  | Op.TableCopy dst_table src_table => in_u 32 dst_table /\ in_u 32 src_table
  end.

Definition reference_types_wf (o : Op.reference_types_op) : Prop :=
  match o with
  | Op.TypedSelect ty => vt_module ty
  | Op.RefNull hty => ht_module hty
  | Op.RefFunc function_index => in_u 32 function_index
  | Op.TableFill table | Op.TableGet table | Op.TableSet table
  | Op.TableGrow table | Op.TableSize table => in_u 32 table
  | _ => True
  end.

Definition tail_call_wf (o : Op.tail_call_op) : Prop :=
  match o with
  | Op.ReturnCall function_index => in_u 32 function_index
  | Op.ReturnCallIndirect type_index table_index =>
      in_u 32 type_index /\ in_u 32 table_index
  end.

Definition memory_control_wf (o : Op.memory_control_op) : Prop :=
  match o with
  | Op.MemoryDiscard mem => in_u 32 mem
  end.

Definition threads_wf (o : Op.threads_op) : Prop :=
  match o with
  | Op.MemoryAtomicNotify memarg | Op.MemoryAtomicWait32 memarg =>
      memarg_wf f 2 memarg
  | Op.MemoryAtomicWait64 memarg => memarg_wf f 3 memarg
  | Op.I32AtomicLoad memarg => memarg_wf f 2 memarg
  | Op.I64AtomicLoad memarg => memarg_wf f 3 memarg
  | Op.I32AtomicLoad8U memarg => memarg_wf f 0 memarg
  | Op.I32AtomicLoad16U memarg => memarg_wf f 1 memarg
  | Op.I64AtomicLoad8U memarg => memarg_wf f 0 memarg
  | Op.I64AtomicLoad16U memarg => memarg_wf f 1 memarg
  | Op.I64AtomicLoad32U memarg | Op.I32AtomicStore memarg => memarg_wf f 2 memarg
  | Op.I64AtomicStore memarg => memarg_wf f 3 memarg
  | Op.I32AtomicStore8 memarg => memarg_wf f 0 memarg
  | Op.I32AtomicStore16 memarg => memarg_wf f 1 memarg
  | Op.I64AtomicStore8 memarg => memarg_wf f 0 memarg
  | Op.I64AtomicStore16 memarg => memarg_wf f 1 memarg
  | Op.I64AtomicStore32 memarg | Op.I32AtomicRmwAdd memarg => memarg_wf f 2 memarg
  | Op.I64AtomicRmwAdd memarg => memarg_wf f 3 memarg
  | Op.I32AtomicRmw8AddU memarg => memarg_wf f 0 memarg
  | Op.I32AtomicRmw16AddU memarg => memarg_wf f 1 memarg
  | Op.I64AtomicRmw8AddU memarg => memarg_wf f 0 memarg
  | Op.I64AtomicRmw16AddU memarg => memarg_wf f 1 memarg
  | Op.I64AtomicRmw32AddU memarg | Op.I32AtomicRmwSub memarg => memarg_wf f 2 memarg
  | Op.I64AtomicRmwSub memarg => memarg_wf f 3 memarg
  | Op.I32AtomicRmw8SubU memarg => memarg_wf f 0 memarg
  | Op.I32AtomicRmw16SubU memarg => memarg_wf f 1 memarg
  | Op.I64AtomicRmw8SubU memarg => memarg_wf f 0 memarg
  | Op.I64AtomicRmw16SubU memarg => memarg_wf f 1 memarg
  | Op.I64AtomicRmw32SubU memarg | Op.I32AtomicRmwAnd memarg => memarg_wf f 2 memarg
  | Op.I64AtomicRmwAnd memarg => memarg_wf f 3 memarg
  | Op.I32AtomicRmw8AndU memarg => memarg_wf f 0 memarg
  | Op.I32AtomicRmw16AndU memarg => memarg_wf f 1 memarg
  | Op.I64AtomicRmw8AndU memarg => memarg_wf f 0 memarg
  | Op.I64AtomicRmw16AndU memarg => memarg_wf f 1 memarg
  | Op.I64AtomicRmw32AndU memarg | Op.I32AtomicRmwOr memarg => memarg_wf f 2 memarg
  | Op.I64AtomicRmwOr memarg => memarg_wf f 3 memarg
  | Op.I32AtomicRmw8OrU memarg => memarg_wf f 0 memarg
  | Op.I32AtomicRmw16OrU memarg => memarg_wf f 1 memarg
  | Op.I64AtomicRmw8OrU memarg => memarg_wf f 0 memarg
  | Op.I64AtomicRmw16OrU memarg => memarg_wf f 1 memarg
  | Op.I64AtomicRmw32OrU memarg | Op.I32AtomicRmwXor memarg => memarg_wf f 2 memarg
  | Op.I64AtomicRmwXor memarg => memarg_wf f 3 memarg
  | Op.I32AtomicRmw8XorU memarg => memarg_wf f 0 memarg
  | Op.I32AtomicRmw16XorU memarg => memarg_wf f 1 memarg
  | Op.I64AtomicRmw8XorU memarg => memarg_wf f 0 memarg
  | Op.I64AtomicRmw16XorU memarg => memarg_wf f 1 memarg
  | Op.I64AtomicRmw32XorU memarg | Op.I32AtomicRmwXchg memarg =>
      memarg_wf f 2 memarg
  | Op.I64AtomicRmwXchg memarg => memarg_wf f 3 memarg
  | Op.I32AtomicRmw8XchgU memarg => memarg_wf f 0 memarg
  | Op.I32AtomicRmw16XchgU memarg => memarg_wf f 1 memarg
  | Op.I64AtomicRmw8XchgU memarg => memarg_wf f 0 memarg
  | Op.I64AtomicRmw16XchgU memarg => memarg_wf f 1 memarg
  | Op.I64AtomicRmw32XchgU memarg | Op.I32AtomicRmwCmpxchg memarg =>
      memarg_wf f 2 memarg
  | Op.I64AtomicRmwCmpxchg memarg => memarg_wf f 3 memarg
  | Op.I32AtomicRmw8CmpxchgU memarg => memarg_wf f 0 memarg
  | Op.I32AtomicRmw16CmpxchgU memarg => memarg_wf f 1 memarg
  | Op.I64AtomicRmw8CmpxchgU memarg => memarg_wf f 0 memarg
  | Op.I64AtomicRmw16CmpxchgU memarg => memarg_wf f 1 memarg
  | Op.I64AtomicRmw32CmpxchgU memarg => memarg_wf f 2 memarg
  | _ => True
  end.

Definition simd_wf (o : Op.simd_op) : Prop :=
  match o with
  | Op.V128Load memarg => memarg_wf f 4 memarg
  | Op.V128Load8x8S memarg | Op.V128Load8x8U memarg | Op.V128Load16x4S memarg
  | Op.V128Load16x4U memarg | Op.V128Load32x2S memarg | Op.V128Load32x2U memarg =>
      memarg_wf f 3 memarg
  | Op.V128Load8Splat memarg => memarg_wf f 0 memarg
  | Op.V128Load16Splat memarg => memarg_wf f 1 memarg
  | Op.V128Load32Splat memarg => memarg_wf f 2 memarg
  | Op.V128Load64Splat memarg => memarg_wf f 3 memarg
  | Op.V128Load32Zero memarg => memarg_wf f 2 memarg
  | Op.V128Load64Zero memarg => memarg_wf f 3 memarg
  | Op.V128Store memarg => memarg_wf f 4 memarg
  | Op.V128Load8Lane memarg lane => memarg_wf f 0 memarg /\ lane_wf 16 lane
  | Op.V128Load16Lane memarg lane => memarg_wf f 1 memarg /\ lane_wf 8 lane
  | Op.V128Load32Lane memarg lane => memarg_wf f 2 memarg /\ lane_wf 4 lane
  | Op.V128Load64Lane memarg lane => memarg_wf f 3 memarg /\ lane_wf 2 lane
  | Op.V128Store8Lane memarg lane => memarg_wf f 0 memarg /\ lane_wf 16 lane
  | Op.V128Store16Lane memarg lane => memarg_wf f 1 memarg /\ lane_wf 8 lane
  | Op.V128Store32Lane memarg lane => memarg_wf f 2 memarg /\ lane_wf 4 lane
  | Op.V128Store64Lane memarg lane => memarg_wf f 3 memarg /\ lane_wf 2 lane
  | Op.V128Const value => v128_wf value
  | Op.I8x16Shuffle lanes => lanes_wf lanes
  | Op.I8x16ExtractLaneS lane | Op.I8x16ExtractLaneU lane
  | Op.I8x16ReplaceLane lane => lane_wf 16 lane
  | Op.I16x8ExtractLaneS lane | Op.I16x8ExtractLaneU lane
  | Op.I16x8ReplaceLane lane => lane_wf 8 lane
  | Op.I32x4ExtractLane lane | Op.I32x4ReplaceLane lane => lane_wf 4 lane
  | Op.I64x2ExtractLane lane | Op.I64x2ReplaceLane lane => lane_wf 2 lane
  | Op.F32x4ExtractLane lane | Op.F32x4ReplaceLane lane => lane_wf 4 lane
  | Op.F64x2ExtractLane lane | Op.F64x2ReplaceLane lane => lane_wf 2 lane
  | _ => True
  end.

Definition relaxed_simd_wf (o : Op.relaxed_simd_op) : Prop :=
  True.

Definition exceptions_wf (o : Op.exceptions_op) : Prop :=
  match o with
  | Op.TryTable try_table => try_table_wf try_table
  | Op.Throw tag_index => in_u 32 tag_index
  | _ => True
  end.

Definition legacy_exceptions_wf (o : Op.legacy_exceptions_op) : Prop :=
  match o with
  | Op.Try blockty => bt_module blockty
  | Op.Catch tag_index => in_u 32 tag_index
  | Op.Rethrow relative_depth | Op.Delegate relative_depth => in_u 32 relative_depth
  | _ => True
  end.

Definition shared_everything_threads_wf (o : Op.shared_everything_threads_op) : Prop :=
  match o with
  | Op.GlobalAtomicGet _ global_index | Op.GlobalAtomicSet _ global_index
  | Op.GlobalAtomicRmwAdd _ global_index | Op.GlobalAtomicRmwSub _ global_index
  | Op.GlobalAtomicRmwAnd _ global_index | Op.GlobalAtomicRmwOr _ global_index
  | Op.GlobalAtomicRmwXor _ global_index | Op.GlobalAtomicRmwXchg _ global_index
  | Op.GlobalAtomicRmwCmpxchg _ global_index => in_u 32 global_index
  | Op.TableAtomicGet _ table_index | Op.TableAtomicSet _ table_index
  | Op.TableAtomicRmwXchg _ table_index | Op.TableAtomicRmwCmpxchg _ table_index =>
      in_u 32 table_index
  | Op.StructAtomicGet _ struct_type_index field_index
  | Op.StructAtomicGetS _ struct_type_index field_index
  | Op.StructAtomicGetU _ struct_type_index field_index
  | Op.StructAtomicSet _ struct_type_index field_index
  | Op.StructAtomicRmwAdd _ struct_type_index field_index
  | Op.StructAtomicRmwSub _ struct_type_index field_index
  | Op.StructAtomicRmwAnd _ struct_type_index field_index
  | Op.StructAtomicRmwOr _ struct_type_index field_index
  | Op.StructAtomicRmwXor _ struct_type_index field_index
  | Op.StructAtomicRmwXchg _ struct_type_index field_index
  | Op.StructAtomicRmwCmpxchg _ struct_type_index field_index =>
      in_u 32 struct_type_index /\ in_u 32 field_index
  | Op.ArrayAtomicGet _ array_type_index | Op.ArrayAtomicGetS _ array_type_index
  | Op.ArrayAtomicGetU _ array_type_index | Op.ArrayAtomicSet _ array_type_index
  | Op.ArrayAtomicRmwAdd _ array_type_index
  | Op.ArrayAtomicRmwSub _ array_type_index
  | Op.ArrayAtomicRmwAnd _ array_type_index
  | Op.ArrayAtomicRmwOr _ array_type_index
  | Op.ArrayAtomicRmwXor _ array_type_index
  | Op.ArrayAtomicRmwXchg _ array_type_index
  | Op.ArrayAtomicRmwCmpxchg _ array_type_index => in_u 32 array_type_index
  | _ => True
  end.

Definition function_references_wf (o : Op.function_references_op) : Prop :=
  match o with
  | Op.CallRef type_index | Op.ReturnCallRef type_index => in_u 32 type_index
  | Op.BrOnNull relative_depth | Op.BrOnNonNull relative_depth =>
      in_u 32 relative_depth
  | _ => True
  end.

Definition stack_switching_wf (o : Op.stack_switching_op) : Prop :=
  match o with
  | Op.ContNew cont_type_index => in_u 32 cont_type_index
  | Op.ContBind argument_index result_index =>
      in_u 32 argument_index /\ in_u 32 result_index
  | Op.Suspend tag_index => in_u 32 tag_index
  | Op.Resume cont_type_index resume_table =>
      in_u 32 cont_type_index /\ resume_table_wf resume_table
  | Op.ResumeThrow cont_type_index tag_index resume_table =>
      in_u 32 cont_type_index /\ in_u 32 tag_index /\ resume_table_wf resume_table
  | Op.Switch cont_type_index tag_index =>
      in_u 32 cont_type_index /\ in_u 32 tag_index
  end.

Definition wide_arithmetic_wf (o : Op.wide_arithmetic_op) : Prop :=
  True.

Definition op_wf (o : Op.Operator) : Prop :=
  match o with
  | Op.Mvp o => mvp_wf o
  | Op.SignExtension o => sign_extension_wf o
  | Op.Gc o => gc_wf o
  | Op.SaturatingFloatToInt o => saturating_float_to_int_wf o
  | Op.BulkMemory o => bulk_memory_wf o
  | Op.ReferenceTypes o => reference_types_wf o
  | Op.TailCall o => tail_call_wf o
  | Op.MemoryControl o => memory_control_wf o
  | Op.Threads o => threads_wf o
  | Op.Simd o => simd_wf o
  | Op.RelaxedSimd o => relaxed_simd_wf o
  | Op.Exceptions o => exceptions_wf o
  | Op.LegacyExceptions o => legacy_exceptions_wf o
  | Op.SharedEverythingThreads o => shared_everything_threads_wf o
  | Op.FunctionReferences o => function_references_wf o
  | Op.StackSwitching o => stack_switching_wf o
  | Op.WideArithmetic o => wide_arithmetic_wf o
  end.
End wf.

(** ** The decoders *)

Section visit.
Context (E : BinaryReaderError -> Prop) (r0 : BinaryReader).
Hypothesis Henv : wp_env E r0.
Context {A : Type} (visit : Op.Operator -> A) (Q : A -> nat -> Prop) (k : nat).
Hypothesis HQ : forall op k',
  (k < k')%nat -> op_wf (features r0) op -> Q (visit op) k'.

Ltac wf_solve := first [assumption | exact I | split; wf_solve].
Ltac visited := apply HQ; [lia|wf_solve].

Lemma wp_visit_0xfb k' pos :
  (k < k')%nat -> original_position r0 <= pos <= original_position r0 + Z.of_nat k' ->
  wp E r0 k' (visit_0xfb_operator visit pos) Q.
Proof. intros Hk Hp. unfold visit_0xfb_operator. wp_run; visited. Qed.

Lemma wp_visit_0xfc k' pos :
  (k < k')%nat -> original_position r0 <= pos <= original_position r0 + Z.of_nat k' ->
  wp E r0 k' (visit_0xfc_operator visit pos) Q.
Proof. intros Hk Hp. unfold visit_0xfc_operator. wp_run; visited. Qed.

Lemma wp_visit_0xfd k' pos :
  (k < k')%nat -> original_position r0 <= pos <= original_position r0 + Z.of_nat k' ->
  wp E r0 k' (visit_0xfd_operator visit pos) Q.
Proof. intros Hk Hp. unfold visit_0xfd_operator. wp_run; visited. Qed.

Lemma wp_visit_0xfe k' pos :
  (k < k')%nat -> original_position r0 <= pos <= original_position r0 + Z.of_nat k' ->
  wp E r0 k' (visit_0xfe_operator visit pos) Q.
Proof. intros Hk Hp. unfold visit_0xfe_operator. wp_run; visited. Qed.

Context (simd_visitor : bool).

(** The errors of a [select] whose type list is not a single type are
    reported at the position in the buffer instead of the original one. *)
Hypothesis Harity : forall off, position r0 <= off <= buffer_len r0 ->
  E (err_new (lit "invalid result arity") off).

Lemma wp_invalid_arity k' (P : A -> nat -> Prop) :
  wp E r0 k' (gets position) (fun pos k2 =>
    wp E r0 k2 (fail (err_new (lit "invalid result arity") pos)) P).
Proof.
  apply wp_gets. intros Hk. exists k'. split; [lia|]. split; [done|]. apply Harity.
  pose proof (remaining_length r0 (env_wf _ _ Henv)). unfold advance. simpl. lia.
Qed.

Lemma wp_visit_operator : wp E r0 k (visit_operator simd_visitor visit) Q.
Proof.
  unfold visit_operator. wp_run;
    first [ visited
          | apply wp_visit_0xfb; lia | apply wp_visit_0xfc; lia
          | apply wp_visit_0xfd; lia | apply wp_visit_0xfe; lia
          | idtac ].
  all: apply wp_invalid_arity.
Qed.
End visit.
