(* ===== verification/InstrRoundtrip.v ===== *)
(** When wasm-encoder's instruction encoder panics. *)

From Stdlib Require Import ZArith Lia String.
From stdpp Require Import prelude.
From S2P Require Import Prelude Leb128 BinaryReader BinaryReaderSpec ReaderLogic Encode Types TypesSpec.
From S2P Require Import EncTypes Operands Operators OperatorReader Instructions Reencode OperandSpec.
From S2P Require Import OperandRoundtrip OperatorSpec.

Local Open Scope Z_scope.

(** Lane immediates are in range and lists fit a [u32] length. *)
Definition fits_u32 {A} (xs : list A) : bool := Z.of_nat (length xs) <=? 2 ^ 32 - 1.

Definition encodable (i : Instr.Instruction) : bool :=
  match i with
  | Instr.ControlInstr (Instr.BrTable ls _) => fits_u32 ls
  | Instr.ParametricInstr (Instr.TryTable _ catches) => fits_u32 catches
  | Instr.StackInstr (Instr.Resume _ t) => fits_u32 t
  | Instr.StackInstr (Instr.ResumeThrow _ _ t) => fits_u32 t
  | Instr.SimdLoadInstr (Instr.I8x16Shuffle lanes) => forallb (fun l => l <? 32) lanes
  | Instr.SimdLaneInstr
      (Instr.I8x16ExtractLaneS l | Instr.I8x16ExtractLaneU l | Instr.I8x16ReplaceLane l)
  | Instr.SimdMemInstr (Instr.V128Load8Lane _ l | Instr.V128Store8Lane _ l) => l <? 16
  | Instr.SimdLaneInstr
      (Instr.I16x8ExtractLaneS l | Instr.I16x8ExtractLaneU l | Instr.I16x8ReplaceLane l)
  | Instr.SimdMemInstr (Instr.V128Load16Lane _ l | Instr.V128Store16Lane _ l) => l <? 8
  | Instr.SimdLaneInstr
      (Instr.I32x4ExtractLane l | Instr.I32x4ReplaceLane l
       | Instr.F32x4ExtractLane l | Instr.F32x4ReplaceLane l)
  | Instr.SimdMemInstr (Instr.V128Load32Lane _ l | Instr.V128Store32Lane _ l) => l <? 4
  | Instr.SimdLaneInstr
      (Instr.I64x2ExtractLane l | Instr.I64x2ReplaceLane l
       | Instr.F64x2ExtractLane l | Instr.F64x2ReplaceLane l)
  | Instr.SimdMemInstr (Instr.V128Load64Lane _ l | Instr.V128Store64Lane _ l) => l <? 2
  | _ => true
  end.

Section total.
Context {L : Leb128}.

Lemma abstract_heap_type_total t : is_Some (WE.encode_abstract_heap_type t).
Proof. destruct t; by eexists. Qed.

Lemma heap_type_total h : is_Some (WE.encode_heap_type h).
Proof.
  destruct h as [s t|i]; [|by eexists]. destruct (abstract_heap_type_total t) as [b E].
  cbn [WE.encode_heap_type]. rewrite E. destruct s; by eexists.
Qed.

Lemma val_type_total t : is_Some (WE.encode_val_type t).
Proof.
  destruct t as [| | | | |[n h]]; try by eexists. destruct (heap_type_total h) as [b E].
  destruct n, h; cbn [WE.encode_val_type WE.encode_ref_type]; rewrite E; by eexists.
Qed.

Lemma block_type_total b : is_Some (WE.encode_block_type b).
Proof. destruct b; [by eexists|apply val_type_total|by eexists]. Qed.

Lemma mem_arg_total m : is_Some (WE.encode_mem_arg m).
Proof. unfold WE.encode_mem_arg. case_match; by eexists. Qed.

Lemma encode_items_total {A} (enc : A -> Enc) xs :
  (forall x, is_Some (enc x)) -> is_Some (encode_items enc xs).
Proof.
  intros H. induction xs as [|x xs [b IH]]; [by eexists|]. destruct (H x) as [b' E].
  cbn [encode_items]. rewrite E, IH. by eexists.
Qed.

Lemma encode_list_total {A} (enc : A -> Enc) xs :
  (forall x, is_Some (enc x)) ->
  exists b, encode_list enc xs = if fits_u32 xs then Some b else None.
Proof.
  intros H. destruct (encode_items_total enc xs H) as [b E].
  unfold encode_list, encode_usize, fits_u32. rewrite E.
  destruct (Z.of_nat (length xs) <=? 2 ^ 32 - 1); by eexists.
Qed.

Lemma and_then_some b e : is_Some (Some b +> e) <-> is_Some e.
Proof. destruct e; simpl; split; intros [x Hx]; by eexists. Qed.

Lemma and_then_assert c e : is_Some (assert_enc c +> e) <-> c = true /\ is_Some e.
Proof.
  destruct c; [change (assert_enc true) with (Some (@nil Z)); rewrite and_then_some; tauto|].
  split; [by intros []|by intros []].
Qed.

(** Discharges one part of an encoding. *)
Ltac part :=
  match goal with
  | |- context [WE.encode_mem_arg ?m] => destruct (mem_arg_total m) as [? ->]
  | |- context [WE.encode_heap_type ?h] => destruct (heap_type_total h) as [? ->]
  | |- context [WE.encode_block_type ?b] => destruct (block_type_total b) as [? ->]
  | |- context [encode_list encode_u32 ?xs] =>
      destruct (encode_list_total encode_u32 xs ltac:(intros; by eexists)) as [? ->]
  | |- context [encode_list WE.encode_catch ?xs] =>
      destruct (encode_list_total WE.encode_catch xs ltac:(intros []; by eexists)) as [? ->]
  | |- context [encode_list WE.encode_handle ?xs] =>
      destruct (encode_list_total WE.encode_handle xs ltac:(intros []; by eexists)) as [? ->]
  | |- context [encode_list WE.encode_val_type [?t]] =>
      destruct (encode_list_total WE.encode_val_type [t] val_type_total) as [? ->]
  | |- context [fits_u32 [?t]] => change (fits_u32 [t]) with true; cbv iota
  | |- context [fits_u32 ?xs] => destruct (fits_u32 xs)
  end.

Lemma encode_instruction_some i :
  is_Some (Instr.encode_instruction i) <-> encodable i = true.
Proof.
  destruct i; match goal with |- context [Instr.encode_instruction (_ ?j)] => destruct j end;
    cbn [Instr.encode_instruction encodable]; first [split; [done|by eexists]|idtac].
  all: cbn [Instr.encode_control Instr.encode_parametric Instr.encode_variable
    Instr.encode_memory Instr.encode_numeric Instr.encode_arith
    Instr.encode_reference Instr.encode_gc_data Instr.encode_gc_ref
    Instr.encode_bulk Instr.encode_simd_load Instr.encode_simd_lane
    Instr.encode_simd_cmp Instr.encode_simd_i8x16 Instr.encode_simd_i16x8
    Instr.encode_simd_i32x4 Instr.encode_simd_i64x2 Instr.encode_simd_float
    Instr.encode_simd_conv Instr.encode_simd_mem Instr.encode_relaxed
    Instr.encode_atomic Instr.encode_atomic_rmw Instr.encode_atomic_xchg
    Instr.encode_shared_global Instr.encode_shared_struct Instr.encode_shared_array
    Instr.encode_stack Instr.encode_wide].
  all: repeat part.
  all: unfold push, encode_u32, extend;
    repeat first [rewrite and_then_some | rewrite and_then_assert].
  all: match goal with
       | |- _ <-> true = true => split; [done|by eexists]
       | |- _ /\ _ <-> _ => split; [tauto|intros ->; split; [done|by eexists]]
       | |- _ => split; [by intros []|done]
       end.
Qed.
End total.

(** Encoding an instruction panics exactly when a SIMD lane immediate is out
    of range for its shape or a list of labels, catches or handlers has more than
    [u32::MAX] entries; every other instruction has an encoding. *)
Theorem encode_instruction_panics {L : Leb128} i :
  Instr.encode_instruction i = None <-> encodable i = false.
Proof.
  pose proof (encode_instruction_some i) as H. rewrite <- not_true_iff_false, <- H.
  rewrite <- eq_None_not_Some. done.
Qed.

(** * Operators survive translation, encoding and decoding: wasmparser's decoder
    inverts wasm-encoder's encoder on all 618 operators. *)

(** [reencoder.instruction(op)?.encode(sink)]. *)
Definition enc_of {L : Leb128} (o : outcome Instr.Instruction) : Enc :=
  match o with ROk i => Instr.encode_instruction i | _ => None end.

Section roundtrip.
Context (f : WasmFeatures) {L : Leb128} {LS : Leb128Spec L}.
Context {A : Type} (v : Op.Operator -> A).

Abbreviation rt o :=
  (enc_reads f (enc_of (instruction o)) (visit_operator true v) (v o)).

(** One field: an encoder against the reader of its type. *)
Ltac field :=
  lazymatch goal with
  | |- enc_reads _ _ read_var_u32 _ => apply er_u32; [done|assumption]
  | |- enc_reads _ _ (read_memarg _) _ => apply er_memarg; [done|assumption]
  | |- enc_reads _ _ (read_lane_index _) _ => apply er_lane; assumption
  | |- enc_reads _ _ read_ordering _ => apply er_ordering
  | |- enc_reads _ _ read_var_i32 _ => apply er_i32; [done|assumption]
  | |- enc_reads _ _ read_var_i64 _ => apply er_i64; [done|assumption]
  | |- enc_reads _ _ read_f32 _ => apply er_f32; assumption
  | |- enc_reads _ _ read_f64 _ => apply er_f64; assumption
  | |- enc_reads _ _ read_memory_index_or_zero_if_not_multi_memory _ =>
      apply er_memory_index; [done|assumption]
  | |- enc_reads _ _ read_table_index_or_zero_if_not_reference_types _ =>
      apply er_table_index; [done|assumption]
  | |- enc_reads _ _ read_v128 _ => apply er_v128; assumption
  | |- enc_reads _ _ (read_lanes _) _ => apply er_lanes; assumption
  | |- enc_reads _ _ from_reader_resume_table _ => apply er_resume_table; [done|assumption]
  | |- enc_reads _ _ read_u8 _ => apply er_push
  | _ => eassumption
  end.

(** The prefixes. *)
Lemma er_0xfb e x :
  (forall pos, enc_reads f e (visit_0xfb_operator v pos) x) ->
  enc_reads f (push 0xfb +> e) (visit_operator true v) x.
Proof. intros H. apply er_gets. intros pos. eapply er_bind; [apply er_push|]. apply H. Qed.

Lemma er_0xfc e x :
  (forall pos, enc_reads f e (visit_0xfc_operator v pos) x) ->
  enc_reads f (push 0xfc +> e) (visit_operator true v) x.
Proof. intros H. apply er_gets. intros pos. eapply er_bind; [apply er_push|]. apply H. Qed.

Lemma er_0xfd e x :
  (forall pos, enc_reads f e (visit_0xfd_operator v pos) x) ->
  enc_reads f (push 0xfd +> e) (visit_operator true v) x.
Proof. intros H. apply er_gets. intros pos. eapply er_bind; [apply er_push|]. apply H. Qed.

Lemma er_0xfe e x :
  (forall pos, enc_reads f e (visit_0xfe_operator v pos) x) ->
  enc_reads f (push 0xfe +> e) (visit_operator true v) x.
Proof. intros H. apply er_gets. intros pos. eapply er_bind; [apply er_push|]. apply H. Qed.

(** The opcode, and the opcode after a prefix. *)
Ltac opcode :=
  lazymatch goal with
  | |- enc_reads _ (push 0xfb +> _) _ _ => apply er_0xfb; intros pos
  | |- enc_reads _ (push 0xfc +> _) _ _ => apply er_0xfc; intros pos
  | |- enc_reads _ (push 0xfd +> _) _ _ => apply er_0xfd; intros pos
  | |- enc_reads _ (push 0xfe +> _) _ _ => apply er_0xfe; intros pos
  | |- enc_reads _ (push _) _ _ =>
      unfold visit_operator; apply er_gets; intros pos;
      eapply er_last; [apply er_push|reflexivity]
  | |- enc_reads _ (push _ +> _) _ _ =>
      unfold visit_operator; apply er_gets; intros pos;
      eapply er_bind; [apply er_push|]; cbv beta iota
  end.
Ltac subopcode :=
  lazymatch goal with
  | |- enc_reads _ _ (visit_0xfb_operator _ _) _ => unfold visit_0xfb_operator
  | |- enc_reads _ _ (visit_0xfc_operator _ _) _ => unfold visit_0xfc_operator
  | |- enc_reads _ _ (visit_0xfd_operator _ _) _ => unfold visit_0xfd_operator
  | |- enc_reads _ _ (visit_0xfe_operator _ _) _ => unfold visit_0xfe_operator
  end;
  lazymatch goal with
  | |- enc_reads _ (push _) _ _ =>
      eapply er_last; [apply er_push_u32; lia|reflexivity]
  | |- enc_reads _ (encode_u32 _) _ _ =>
      eapply er_last; [apply er_u32; [done|unfold in_u; lia]|reflexivity]
  | |- enc_reads _ (push _ +> _) _ _ =>
      eapply er_bind; [apply er_push_u32; lia|]; cbv beta iota
  | |- enc_reads _ (encode_u32 _ +> _) _ _ =>
      eapply er_bind; [apply er_u32; [done|unfold in_u; lia]|]; cbv beta iota
  end.
Ltac fields :=
  repeat first [ eapply er_last; [field|reflexivity]
               | eapply er_bind; [field|]; cbv beta iota ].

(** The instruction and its encoding, with the translated types named. *)
Ltac translate :=
  cbn [instruction instruction_mvp instruction_sign_extension instruction_gc
    instruction_saturating_float_to_int instruction_bulk_memory
    instruction_reference_types instruction_tail_call instruction_memory_control
    instruction_threads instruction_simd instruction_relaxed_simd
    instruction_exceptions instruction_legacy_exceptions
    instruction_shared_everything_threads instruction_function_references
    instruction_stack_switching instruction_wide_arithmetic build enc_of mbind
    outcome_bind Instr.encode_instruction Instr.encode_control
    Instr.encode_parametric Instr.encode_variable Instr.encode_memory
    Instr.encode_numeric Instr.encode_arith Instr.encode_reference
    Instr.encode_gc_data Instr.encode_gc_ref Instr.encode_bulk
    Instr.encode_simd_load Instr.encode_simd_lane Instr.encode_simd_cmp
    Instr.encode_simd_i8x16 Instr.encode_simd_i16x8 Instr.encode_simd_i32x4
    Instr.encode_simd_i64x2 Instr.encode_simd_float Instr.encode_simd_conv
    Instr.encode_simd_mem Instr.encode_relaxed Instr.encode_atomic
    Instr.encode_atomic_rmw Instr.encode_atomic_xchg Instr.encode_shared_global
    Instr.encode_shared_struct Instr.encode_shared_array Instr.encode_stack
    Instr.encode_wide Hooks.data_index Hooks.element_index Hooks.function_index
    Hooks.global_index Hooks.memory_index Hooks.table_index Hooks.tag_index
    Hooks.type_index RoundtripReencoder];
  repeat match goal with
  | H : bt_module ?b |- context [block_type ?b] =>
      destruct (er_block_type f b H) as (? & -> & ?)
  | H : ht_module ?h |- context [heap_type ?h] =>
      destruct (er_heap_type f h H) as (? & -> & ?)
  | Hd : in_u 32 ?d, H1 : rt_module ?t1, H2 : rt_module ?t2
    |- enc_reads _ _ _ (v (Op.Gc (_ ?d ?t1 ?t2))) =>
      destruct (er_br_on_cast f d t1 t2 Hd H1 H2) as (? & ? & -> & -> & ?)
  end;
  cbn [instruction instruction_mvp instruction_sign_extension instruction_gc
    instruction_saturating_float_to_int instruction_bulk_memory
    instruction_reference_types instruction_tail_call instruction_memory_control
    instruction_threads instruction_simd instruction_relaxed_simd
    instruction_exceptions instruction_legacy_exceptions
    instruction_shared_everything_threads instruction_function_references
    instruction_stack_switching instruction_wide_arithmetic build enc_of mbind
    outcome_bind Instr.encode_instruction Instr.encode_control
    Instr.encode_parametric Instr.encode_variable Instr.encode_memory
    Instr.encode_numeric Instr.encode_arith Instr.encode_reference
    Instr.encode_gc_data Instr.encode_gc_ref Instr.encode_bulk
    Instr.encode_simd_load Instr.encode_simd_lane Instr.encode_simd_cmp
    Instr.encode_simd_i8x16 Instr.encode_simd_i16x8 Instr.encode_simd_i32x4
    Instr.encode_simd_i64x2 Instr.encode_simd_float Instr.encode_simd_conv
    Instr.encode_simd_mem Instr.encode_relaxed Instr.encode_atomic
    Instr.encode_atomic_rmw Instr.encode_atomic_xchg Instr.encode_shared_global
    Instr.encode_shared_struct Instr.encode_shared_array Instr.encode_stack
    Instr.encode_wide Hooks.data_index Hooks.element_index Hooks.function_index
    Hooks.global_index Hooks.memory_index Hooks.table_index Hooks.tag_index
    Hooks.type_index RoundtripReencoder].

Ltac roundtrip :=
  intros Hwf; cbn [op_wf mvp_wf sign_extension_wf gc_wf saturating_float_to_int_wf bulk_memory_wf
    reference_types_wf tail_call_wf memory_control_wf threads_wf simd_wf
    relaxed_simd_wf exceptions_wf legacy_exceptions_wf shared_everything_threads_wf
    function_references_wf stack_switching_wf wide_arithmetic_wf] in Hwf; repeat match type of Hwf with _ /\ _ => destruct Hwf as [? Hwf] end;
  translate; opcode; try subopcode; fields.

Lemma rt_sign_extension o : sign_extension_wf o -> rt (Op.SignExtension o).
Proof. destruct o; roundtrip. Qed.

Lemma rt_gc o : gc_wf o -> rt (Op.Gc o).
Proof. destruct o; roundtrip. Qed.

Lemma rt_saturating_float_to_int o : saturating_float_to_int_wf o -> rt (Op.SaturatingFloatToInt o).
Proof. destruct o; roundtrip. Qed.

Lemma rt_bulk_memory o : bulk_memory_wf o -> rt (Op.BulkMemory o).
Proof. destruct o; roundtrip. Qed.

Lemma rt_tail_call o : tail_call_wf o -> rt (Op.TailCall o).
Proof. destruct o; roundtrip. Qed.

Lemma rt_memory_control o : memory_control_wf o -> rt (Op.MemoryControl o).
Proof. destruct o; roundtrip. Qed.

Lemma rt_threads o : threads_wf f o -> rt (Op.Threads o).
Proof. destruct o; roundtrip. Qed.

Lemma rt_simd o : simd_wf f o -> rt (Op.Simd o).
Proof. destruct o; roundtrip. Qed.

Lemma rt_relaxed_simd o : relaxed_simd_wf o -> rt (Op.RelaxedSimd o).
Proof. destruct o; roundtrip. Qed.

Lemma rt_legacy_exceptions o : legacy_exceptions_wf o -> rt (Op.LegacyExceptions o).
Proof. destruct o; roundtrip. Qed.

Lemma rt_shared_everything_threads o : shared_everything_threads_wf o -> rt (Op.SharedEverythingThreads o).
Proof. destruct o; roundtrip. Qed.

Lemma rt_function_references o : function_references_wf o -> rt (Op.FunctionReferences o).
Proof. destruct o; roundtrip. Qed.

Lemma rt_stack_switching o : stack_switching_wf o -> rt (Op.StackSwitching o).
Proof. destruct o; roundtrip. Qed.

Lemma rt_wide_arithmetic o : wide_arithmetic_wf o -> rt (Op.WideArithmetic o).
Proof. destruct o; roundtrip. Qed.

Lemma rt_mvp o : (forall t, o <> Op.BrTable t) -> mvp_wf f o -> rt (Op.Mvp o).
Proof. intros Hbr. destruct o; try roundtrip. by destruct (Hbr targets). Qed.

(** A list of one element, read by a count that must be one. *)
Lemma er_singleton {X B} (enc : WE.ValType -> Enc) t' (m : Reader X) (k : X -> Reader B) x b
  (m' : Reader B) :
  enc_reads f (enc t') m x -> k x = mret b ->
  enc_reads f (encode_list enc [t'])
    (results ← read_var_u32; if negb (results =? 1) then m' else (m ≫= k)) b.
Proof.
  intros Hm Hk. unfold encode_list.
  eapply er_bind; [apply er_usize; [done|unfold in_u; simpl; lia]|].
  cbn [length Z.of_nat Z.eqb negb encode_items Pos.of_succ_nat Pos.eqb].
  eapply er_bind; [exact Hm|]. rewrite Hk. apply er_ret.
Qed.

Lemma rt_reference_types o : reference_types_wf o -> rt (Op.ReferenceTypes o).
Proof.
  destruct o; try roundtrip. intros Hty. cbn [reference_types_wf] in Hty.
  destruct (er_val_type f ty Hty) as (t' & Et & Hr & _).
  cbn [instruction instruction_reference_types]. rewrite Et.
  cbn [mbind outcome_bind build enc_of Instr.encode_instruction Instr.encode_parametric].
  apply er_gets. intros pos. eapply er_bind; [apply er_push|]. cbv beta iota.
  by eapply er_singleton.
Qed.

Lemma rt_exceptions o : exceptions_wf o -> rt (Op.Exceptions o).
Proof.
  destruct o; try roundtrip. intros Hty. cbn [exceptions_wf] in Hty.
  destruct (er_try_table f _ Hty) as (bt & Ebt & Hr).
  cbn [instruction instruction_exceptions]. rewrite Ebt.
  cbn [mbind outcome_bind build enc_of Instr.encode_instruction Instr.encode_parametric].
  apply er_gets. intros pos. eapply er_bind; [apply er_push|]. cbv beta iota.
  by eapply er_last.
Qed.

(** ** Branch tables

    The decoded table keeps a reader for the bytes of its targets, so tables
    are compared by their targets. *)

Definition br_table_equiv (t t' : BrTable) : Prop :=
  cnt t = cnt t' /\ default t = default t' /\ br_table_targets t = br_table_targets t'.

Lemma targets_of_items ls bs r :
  Forall (in_u 32) ls -> encode_items encode_u32 ls = Some bs -> wf_reader r ->
  remaining_buffer r = bs ->
  targets_collect (S (length ls)) (mkTargets r (Z.of_nat (length ls))) = Ok ls.
Proof.
  intros Hls. revert bs r. induction Hls as [|x ls Hx Hls IH]; intros bs r E Hwf Er.
  - injection E as <-. by apply targets_collect_nil.
  - cbn [encode_items] in E. destruct (er_u32 f x Hx) as (b1 & E1 & H1).
    rewrite E1 in E. destruct (encode_items encode_u32 ls) as [b2|]; [|done].
    injection E as <-. cbn [length].
    rewrite (targets_collect_cons _ r x (advance (length b1) r)).
    + rewrite (IH b2); [done|done| |].
      * apply wf_advance; [done|]. rewrite Er, length_app. lia.
      * rewrite remaining_advance by apply Hwf. by rewrite Er, drop_app_length.
    + injection E1 as <-. by apply (reads_var_u32 (features r) x Hx r b2).
Qed.

Lemma reads_skip_items ls bs :
  Forall (in_u 32) ls -> encode_items encode_u32 ls = Some bs ->
  reads f (skip_var_u32s (length ls)) bs tt.
Proof.
  intros Hls. revert bs. induction Hls as [|x ls Hx Hls IH]; intros bs E.
  - injection E as <-. apply reads_ret.
  - cbn [encode_items] in E. destruct (er_u32 f x Hx) as (b1 & E1 & H1). rewrite E1 in E.
    destruct (encode_items encode_u32 ls) as [b2|]; [|done]. injection E as <-.
    apply reads_bind with x; [done|]. by apply IH.
Qed.

Lemma encode_items_u32 ls : exists bs, encode_items encode_u32 ls = Some bs.
Proof.
  induction ls as [|x ls (bs & IH)]; [by exists []|]. cbn [encode_items]. rewrite IH.
  by eexists.
Qed.

Lemma br_table_reads t :
  br_table_wf t ->
  exists ls bs, br_table_targets t = Ok ls
    /\ encode_list encode_u32 ls +> encode_u32 (default t) = Some bs
    /\ reads_ex f read_br_table bs (br_table_equiv t).
Proof.
  intros (Hcnt & Hd & ls & Hls & Hin & Hlen). exists ls.
  destruct (er_u32 f (default t) Hd) as (bd & Ed & Hrd).
  destruct (encode_items_u32 ls) as (bi & Ei).
  destruct (er_size f (Z.of_nat (length ls)) MAX_WASM_BR_TABLE_SIZE "br_table")
    as (bc & Ec & Hrc); [lia|done|].
  unfold encode_list. rewrite Ec, Ei, Ed. eexists. split; [done|]. split; [done|].
  rewrite <- app_assoc.
  eapply reads_ex_bind with (P := eq (Z.of_nat (length ls))); [by eapply reads_reads_ex|].
  intros n <-. rewrite Nat2Z.id.
  eapply reads_ex_bind; [by apply reads_ex_skip, reads_skip_items|]. intros br [Hwf Hrem].
  rewrite <- (app_nil_r bd).
  eapply reads_ex_bind with (P := eq (default t)); [by eapply reads_reads_ex|].
  intros d <-. eapply reads_reads_ex; [apply reads_ret|].
  assert (Hw : wrap 32 (Z.of_nat (length ls)) = cnt t).
  { rewrite Hlen. apply wrap_small.
    unfold in_u, MAX_WASM_BR_TABLE_SIZE, MAX_WASM_FUNCTION_SIZE in *. lia. }
  rewrite Hw. split; [done|]. split; [done|].
  rewrite Hls. unfold br_table_targets, targets. cbn [cnt br_reader].
  rewrite <- Hlen, Nat2Z.id. symmetry. by apply (targets_of_items ls bi).
Qed.

Lemma rt_br_table t :
  br_table_wf t ->
  exists bs, enc_of (instruction (Op.BrTable t)) = Some bs
    /\ reads_ex f (visit_operator true v) bs
         (fun a => exists t', a = v (Op.BrTable t') /\ br_table_equiv t t').
Proof.
  intros Hwf. destruct (br_table_reads t Hwf) as (ls & bs & Hls & Ebs & Hr).
  cbn [instruction instruction_mvp]. unfold br_targets. rewrite Hls.
  cbn [from_result mbind outcome_bind build enc_of Instr.encode_instruction Instr.encode_control].
  rewrite Ebs. exists ([0x0e] ++ bs). split; [done|]. apply reads_ex_gets. intros pos.
  eapply reads_ex_bind with (P := eq 0x0e); [by eapply reads_reads_ex; [apply reads_u8|]|].
  intros c <-. rewrite <- (app_nil_r bs). eapply reads_ex_bind; [exact Hr|].
  intros t' Ht'. eapply reads_reads_ex; [apply reads_ret|]. by exists t'.
Qed.

(** ** All operators *)

(** Equal but for the representation of branch targets. *)
Definition op_equiv (o o' : Op.Operator) : Prop :=
  match o, o' with
  | Op.Mvp (Op.BrTable t), Op.Mvp (Op.BrTable t') => br_table_equiv t t'
  | _, _ => o = o'
  end.

Lemma op_equiv_refl o : op_equiv o o.
Proof. by destruct o as [[]|o|o|o|o|o|o|o|o|o|o|o|o|o|o|o|o]. Qed.

Lemma br_table_or_not o : (exists t, o = Op.BrTable t) \/ (forall t, o <> Op.BrTable t).
Proof. destruct o; first [by right | left; by eexists]. Qed.

Lemma rt_operator o :
  op_wf f o ->
  exists bs, enc_of (instruction o) = Some bs
    /\ reads_ex f (visit_operator true v) bs (fun a => exists o', a = v o' /\ op_equiv o o').
Proof.
  assert (Hex : rt o -> exists bs, enc_of (instruction o) = Some bs
    /\ reads_ex f (visit_operator true v) bs (fun a => exists o', a = v o' /\ op_equiv o o')).
  { intros (bs & E & H). exists bs. split; [done|]. eapply reads_reads_ex; [exact H|].
    exists o. split; [done|apply op_equiv_refl]. }
  intros Hwf. destruct o as [o|o|o|o|o|o|o|o|o|o|o|o|o|o|o|o|o]; cbn [op_wf] in Hwf.
  1: destruct (br_table_or_not o) as [(t & ->)|Hn].
  1: { destruct (rt_br_table t Hwf) as (bs & E & H). exists bs. split; [done|].
       intros r rest Hr Hf Er. destruct (H r rest Hr Hf Er) as (a & Ha & t' & -> & Ht).
       eexists. split; [done|]. by exists (Op.BrTable t'). }
  all: apply Hex.
  - by apply rt_mvp.
  - by apply rt_sign_extension.
  - by apply rt_gc.
  - by apply rt_saturating_float_to_int.
  - by apply rt_bulk_memory.
  - by apply rt_reference_types.
  - by apply rt_tail_call.
  - by apply rt_memory_control.
  - by apply rt_threads.
  - by apply rt_simd.
  - by apply rt_relaxed_simd.
  - by apply rt_exceptions.
  - by apply rt_legacy_exceptions.
  - by apply rt_shared_everything_threads.
  - by apply rt_function_references.
  - by apply rt_stack_switching.
  - by apply rt_wide_arithmetic.
Qed.
End roundtrip.

(** * Sequences of operators: the outcome of decoding one operator from arbitrary
    bytes, the operators of a constant expression, and the round trip of one
    operator in the form the sections use. *)

(** ** One operator *)

(** An error of the decoder: located in the part of the buffer being read, but
    for the one error that is reported relative to the buffer. *)
Definition operator_error (r : BinaryReader) (e : BinaryReaderError) : Prop :=
  err_in_range r e
  \/ (message e = lit "invalid result arity" /\ kind e = Custom
      /\ position r <= offset e <= buffer_len r).

Lemma operator_env r : wf_reader r -> wp_env (operator_error r) r.
Proof.
  intros Hwf. split; [done|by left|]. intros m e Hk [He|(_ & Hc & _)]; [by left|congruence].
Qed.

(** One decoded operator: where it ends and what it is. *)
Lemma visit_operator_outcome {A} r simd_visitor (visit : Op.Operator -> A) :
  wf_reader r ->
  match visit_operator simd_visitor visit r with
  | (Ok a, r') => exists op k, a = visit op /\ op_wf (features r) op
      /\ (0 < k <= length (remaining_buffer r))%nat /\ r' = advance k r
  | (Err e, r') => operator_error r e /\ wf_reader r'
  | (Panic, _) => False
  end.
Proof.
  intros Hwf.
  destruct (wp_visit_operator (operator_error r) r (operator_env r Hwf) visit
    (fun a k => exists op, a = visit op /\ op_wf (features r) op /\ (0 < k)%nat) 0
    ltac:(intros op k' Hk Hop; by exists op) simd_visitor
    ltac:(intros off Hoff; by right) ltac:(lia)) as (k & Hk & E & Hm).
  rewrite advance_0 in *.
  destruct (visit_operator simd_visitor visit r) as [[a|e|] r']; simpl in *; subst; [|split|done].
  - destruct Hm as (op & -> & Hop & Hk0). exists op, k. split; [done|]. split; [done|]. by split; [lia|].
  - done.
  - by apply wf_advance; [|lia].
Qed.

(** ** Several operators *)

(** [ops] are decoded one after the other from [r] to [r']. *)
Inductive decodes : BinaryReader -> list Op.Operator -> BinaryReader -> Prop :=
| decodes_nil r : decodes r [] r
| decodes_cons r op r1 ops r' :
    read_operator r = (Ok op, r1) -> decodes r1 ops r' -> decodes r (op :: ops) r'.

Lemma decodes_app r ops r1 ops' r' :
  decodes r ops r1 -> decodes r1 ops' r' -> decodes r (ops ++ ops') r'.
Proof. induction 1; [done|]. intros. simpl. by econstructor; eauto. Qed.

Lemma skip_const_expr_loop_ok fuel r :
  wf_reader r -> (length (remaining_buffer r) < fuel)%nat ->
  match skip_const_expr_loop fuel r with
  | (Ok tt, r') => exists ops, decodes r (ops ++ [Op.End : Op.Operator]) r'
      /\ (Op.End : Op.Operator) ∉ ops
  | (Err e, _) => exists ops r1, decodes r ops r1 /\ operator_error r1 e
  | (Panic, _) => False
  end.
Proof.
  revert r. induction fuel as [|fuel IH]; intros r Hwf Hl; [lia|].
  cbn [skip_const_expr_loop]. unfold mbind, ST_bind.
  pose proof (visit_operator_outcome r true id Hwf) as H. fold read_operator in H.
  destruct (read_operator r) as [[op|e|] r1] eqn:Er; [| |done].
  2: { exists [], r. split; [constructor|apply H]. }
  destruct H as (op' & k & -> & _ & Hk & ->). change (id op') with op' in *.
  assert (Hwf1 : wf_reader (advance k r)) by (apply wf_advance; [done|lia]).
  specialize (IH (advance k r) Hwf1). rewrite remaining_advance, length_drop in IH by apply Hwf.
  specialize (IH ltac:(lia)).
  assert (Hstep : op' = Op.End \/ (op' <> Op.End
    /\ match op' with Op.Mvp Op.End => mret tt | _ => skip_const_expr_loop fuel end
       = skip_const_expr_loop fuel)).
  { destruct op' as [[]|o|o|o|o|o|o|o|o|o|o|o|o|o|o|o|o];
      first [right; split; [discriminate|reflexivity] | by left]. }
  destruct Hstep as [->|[Hne ->]].
  - exists []. split; [|apply not_elem_of_nil]. econstructor; [done|constructor].
  - destruct (skip_const_expr_loop fuel (advance k r)) as [[[]|e|] r']; [| |done].
    + destruct IH as (ops & Hd & Hn). exists (op' :: ops). split; [by econstructor|].
      apply not_elem_of_cons. split; [congruence|done].
    + destruct IH as (ops & r2 & Hd & He). exists (op' :: ops), r2. split; [by econstructor|done].
Qed.

(** ** Round trip *)

Section roundtrip.
Context {L : Leb128} {LS : Leb128Spec L}.

Lemma operator_roundtrip_ex f op :
  op_wf f op ->
  exists i bs, instruction op = ROk i /\ Instr.encode_instruction i = Some bs
    /\ reads_ex f read_operator bs (op_equiv op).
Proof.
  intros Hop. destruct (rt_operator f id op Hop) as (bs & E & H).
  unfold enc_of in E. destruct (instruction op) as [i| |]; try done.
  exists i, bs. split; [done|]. split; [done|]. intros r rest Hwf Hf Er.
  destruct (H r rest Hwf Hf Er) as (a & Ha & o' & -> & Ho). exists o'. by split.
Qed.
End roundtrip.
