(* ===== verification/SectionReader.v ===== *)
(** Sections as counted lists of items: [SectionLimited] and its iterators, and
    [Subsections], of [crates/wasmparser/src/readers.rs]; on the encoding side,
    the section builders of [crates/wasm-encoder/src/core/*.rs], all of which
    hold the bytes of their items and the number of items added. *)

From Stdlib Require Import ZArith Lia String.
From stdpp Require Import prelude.
From S2P Require Import Prelude Leb128 BinaryReader Encode.
From S2P Require Import Types Operands Operators Instructions Reencode.

Local Open Scope Z_scope.

(** ** Reading *)

Record SectionLimited := mkSection { sec_reader : BinaryReader; sec_count : Z }.

(** [SectionLimited::new]: the reader is moved into the section. *)
Definition section_new (r : BinaryReader) : result SectionLimited :=
  match read_var_u32 r with
  | (Ok count, r') => Ok (mkSection r' count)
  | (Err e, _) => Err e
  | (Panic, _) => Panic
  end.

Definition section_original_position (s : SectionLimited) : Z :=
  original_position (sec_reader s).

Definition section_range (s : SectionLimited) : Z * Z := range (sec_reader s).

Record SectionLimitedIntoIter := mkIter {
  section : SectionLimited;
  remaining : Z;
  iter_end : bool;
}.

Definition section_into_iter (s : SectionLimited) : SectionLimitedIntoIter :=
  mkIter s (sec_count s) false.

(** [result.is_err()]; a panic unwinds and leaves no iterator behind. *)
Definition is_err {A} (x : result A) : bool :=
  match x with Err _ => true | _ => false end.

Definition section_next {A} `{FromReader A} (it : SectionLimitedIntoIter)
  : option (result A) * SectionLimitedIntoIter :=
  if iter_end it then (None, it)
  else if remaining it =? 0 then
    let it' := mkIter (section it) (remaining it) true in
    if eof (sec_reader (section it)) then (None, it')
    else (Some (Err (err_new
            (lit "section size mismatch: unexpected data at the end of the section")
            (original_position (sec_reader (section it))))), it')
  else
    let (x, r') := read (A := A) (sec_reader (section it)) in
    (Some x, mkIter (mkSection r' (sec_count (section it))) (remaining it - 1) (is_err x)).

Definition section_next_with_offset {A} `{FromReader A} (it : SectionLimitedIntoIter)
  : option (result (Z * A)) * SectionLimitedIntoIter :=
  let pos := original_position (sec_reader (section it)) in
  match section_next (A := A) it with
  | (None, it') => (None, it')
  | (Some (Ok x), it') => (Some (Ok (pos, x)), it')
  | (Some (Err e), it') => (Some (Err e), it')
  | (Some Panic, it') => (Some Panic, it')
  end.

(** [for item in section { body(item?)? }], with a mutable state [S] of the
    body.  The iterator yields at most one item per announced item, one error
    and the end, which bounds the fuel of [for_each]. *)
Fixpoint for_iter {A S} `{FromReader A} (fuel : nat) (body : A -> S -> outcome S)
  (it : SectionLimitedIntoIter) (s : S) : outcome S :=
  match fuel with
  | O => RPanic
  | Datatypes.S fuel' =>
      match section_next it with
      | (None, _) => ROk s
      | (Some x, it') =>
          item ← from_result x;
          s' ← body item s;
          for_iter fuel' body it' s'
      end
  end.

Definition for_each {A S} `{FromReader A} (body : A -> S -> outcome S)
  (sec : SectionLimited) (s : S) : outcome S :=
  for_iter (Datatypes.S (Datatypes.S (Z.to_nat (sec_count sec)))) body
    (section_into_iter sec) s.

(** [section.into_iter().collect::<Result<Vec<_>>>()]. *)
Fixpoint collect_iter {A} `{FromReader A} (fuel : nat) (it : SectionLimitedIntoIter)
  : result (list A) :=
  match fuel with
  | O => Panic
  | Datatypes.S fuel' =>
      match section_next it with
      | (None, _) => Ok []
      | (Some (Ok x), it') =>
          match collect_iter fuel' it' with
          | Ok xs => Ok (x :: xs)
          | Err e => Err e
          | Panic => Panic
          end
      | (Some (Err e), _) => Err e
      | (Some Panic, _) => Panic
      end
  end.

Definition section_collect {A} `{FromReader A} (sec : SectionLimited) : result (list A) :=
  collect_iter (Datatypes.S (Datatypes.S (Z.to_nat (sec_count sec)))) (section_into_iter sec).

(** ** Subsections *)

Class Subsection (A : Type) := subsection_from_reader : Z -> BinaryReader -> result A.

(** [Subsections::read]. *)
Definition subsection_read {A} `{Subsection A} : Reader A := fun r =>
  match read_u7 r with
  | (Ok subsection_id, r1) =>
      match read_reader r1 with
      | (Ok br, r2) => (subsection_from_reader subsection_id br, r2)
      | (Err e, r2) => (Err e, r2)
      | (Panic, r2) => (Panic, r2)
      end
  | (Err e, r1) => (Err e, r1)
  | (Panic, r1) => (Panic, r1)
  end.

Definition subsections_next {A} `{Subsection A} (r : BinaryReader)
  : option (result A) * BinaryReader :=
  if eof r then (None, r)
  else let (x, r') := subsection_read r in (Some x, r').

(** ** Encoding *)

(** [CodeSection], [DataSection], [ElementSection], [ExportSection],
    [FunctionSection], [GlobalSection], [ImportSection], [MemorySection],
    [TableSection], [TagSection] and [TypeSection] have the same fields and the
    same [encode]. *)
Record SectionBuilder := mkBuilder { bytes : list Z; num_added : Z }.

Definition SectionBuilder_new : SectionBuilder := mkBuilder [] 0.

(** Encoding into [self.bytes], then [self.num_added += 1], which panics when it
    overflows. *)
Definition add_item (e : Enc) (s : SectionBuilder) : option SectionBuilder :=
  bs ← e;
  if num_added s =? 2 ^ 32 - 1 then None
  else Some (mkBuilder (bytes s ++ bs) (num_added s + 1)).

Definition encode_builder {L : Leb128} (s : SectionBuilder) : Enc :=
  encode_section (num_added s) (bytes s).
