(* ===== verification/CompositeTypes.v ===== *)
(** Recursion groups and composite types: their readers,
    [crates/wasmparser/src/readers/core/types.rs], their encoder,
    [CoreTypeEncoder] of [crates/wasm-encoder/src/core/types.rs], and the
    translation between them, [crates/wasm-encoder/src/reencode.rs]. *)

From Stdlib Require Import ZArith Lia String.
From stdpp Require Import prelude.
From S2P Require Import Prelude Leb128 BinaryReader Encode Types EncTypes Operands.
From S2P Require Import Operators Instructions Reencode SectionReader.

Local Open Scope Z_scope.

(** ** Limits, [crates/wasmparser/src/limits.rs] *)

Definition MAX_WASM_SUPERTYPES : Z := 1.
Definition MAX_WASM_FUNCTION_PARAMS : Z := 1000.
Definition MAX_WASM_FUNCTION_RETURNS : Z := 1000.
Definition MAX_WASM_STRUCT_FIELDS : Z := 10000.

(** ** Data, as wasmparser has it *)

Record ArrayType := mkArrayType { array_element : FieldType }.
Record StructType := mkStructType { fields : list FieldType }.
Record ContType := mkContType { cont_index : PackedIndex }.

Inductive CompositeInnerType :=
| CFunc (t : FuncType)
| CArray (t : ArrayType)
| CStruct (t : StructType)
| CCont (t : ContType).

Record CompositeType := mkCompositeType { inner : CompositeInnerType; ct_shared : bool }.

Record SubType := mkSubType {
  is_final : bool;
  supertype_idx : option PackedIndex;
  composite_type_of : CompositeType;
}.

(** Each type with its offset. *)
Inductive RecGroupInner :=
| Implicit (t : Z * SubType)
| Explicit (ts : list (Z * SubType)).

Record RecGroup := mkRecGroup { group_inner : RecGroupInner }.

Definition rec_group_explicit (types : list (Z * SubType)) : RecGroup :=
  mkRecGroup (Explicit types).
Definition rec_group_implicit (off : Z) (ty : SubType) : RecGroup :=
  mkRecGroup (Implicit (off, ty)).

Definition is_explicit_rec_group (g : RecGroup) : bool :=
  match group_inner g with Explicit _ => true | Implicit _ => false end.

Definition into_types_and_offsets (g : RecGroup) : list (Z * SubType) :=
  match group_inner g with
  | Implicit tup => [tup]
  | Explicit types => types
  end.

Definition into_types (g : RecGroup) : list SubType := map snd (into_types_and_offsets g).

(** ** Readers *)

Definition from_reader_func_type : Reader FuncType :=
  params ← read_iter (A := ValType) MAX_WASM_FUNCTION_PARAMS "function params";
  let len_params := Z.of_nat (length params) in
  results ← read_iter (A := ValType) MAX_WASM_FUNCTION_RETURNS "function returns";
  match FuncType_from_raw_parts (params ++ results) len_params with
  | Some t => mret t
  | None => panic
  end.
#[export] Instance FromReader_FuncType : FromReader FuncType := from_reader_func_type.

Definition from_reader_field_type : Reader FieldType :=
  element_type ← read (A := StorageType);
  mutable ← read_u8;
  match mutable with
  | 0 => mret (mkFieldType element_type false)
  | 1 => mret (mkFieldType element_type true)
  | _ =>
      pos ← gets original_position;
      fail (err_new (lit "malformed mutability byte for field type") pos)
  end.
#[export] Instance FromReader_FieldType : FromReader FieldType := from_reader_field_type.

Definition from_reader_array_type : Reader ArrayType :=
  t ← from_reader_field_type;
  mret (mkArrayType t).
#[export] Instance FromReader_ArrayType : FromReader ArrayType := from_reader_array_type.

Definition from_reader_struct_type : Reader StructType :=
  fs ← read_iter (A := FieldType) MAX_WASM_STRUCT_FIELDS "struct fields";
  mret (mkStructType fs).
#[export] Instance FromReader_StructType : FromReader StructType := from_reader_struct_type.

Definition from_reader_cont_type : Reader ContType :=
  s33 ← read_var_s33;
  match u32_try_from s33 with
  | Some idx =>
      pos ← gets original_position;
      idx ← ok_or_err (from_module_index idx)
              "type index greater than implementation limits" pos;
      mret (mkContType idx)
  | None =>
      pos ← gets original_position;
      fail (err_new (lit "invalid continuation type") pos)
  end.
#[export] Instance FromReader_ContType : FromReader ContType := from_reader_cont_type.

Definition read_composite_type (opcode : Z) : Reader CompositeType :=
  '(shared, opcode) ←
    (if opcode =? 0x65 then op ← read_u8; mret (true, op) else mret (false, opcode));
  inner ←
    match opcode with
    | 0x60 => t ← read (A := FuncType); mret (CFunc t)
    | 0x5e => t ← read (A := ArrayType); mret (CArray t)
    | 0x5f => t ← read (A := StructType); mret (CStruct t)
    | 0x5d => t ← read (A := ContType); mret (CCont t)
    | x => invalid_leading_byte x "type"
    end;
  mret (mkCompositeType inner shared).

Definition from_reader_composite_type : Reader CompositeType :=
  opcode ← read_u8;
  read_composite_type opcode.
#[export] Instance FromReader_CompositeType : FromReader CompositeType :=
  from_reader_composite_type.

Definition from_reader_sub_type : Reader SubType :=
  pos ← gets original_position;
  opcode ← read_u8;
  if (opcode =? 0x4f) || (opcode =? 0x50) then
    idxs ← read_iter (A := Z) MAX_WASM_SUPERTYPES "supertype idxs";
    if 1 <? Z.of_nat (length idxs) then
      fail (err_new (lit "multiple supertypes not supported") pos)
    else
      supertype_idx ←
        match idxs with
        | [] => mret None
        | idx :: _ =>
            pos ← gets original_position;
            idx ← ok_or_err (from_module_index idx)
                    "type index greater than implementation limits" pos;
            mret (Some idx)
        end;
      op ← read_u8;
      composite_type ← read_composite_type op;
      mret (mkSubType (opcode =? 0x4f) supertype_idx composite_type)
  else
    composite_type ← read_composite_type opcode;
    mret (mkSubType true None composite_type).
#[export] Instance FromReader_SubType : FromReader SubType := from_reader_sub_type.

(** The loop over the types of an explicit group. *)
Fixpoint read_types_with_offsets (n : nat) : Reader (list (Z * SubType)) :=
  match n with
  | O => mret []
  | S n' =>
      offset ← gets original_position;
      ty ← read (A := SubType);
      types ← read_types_with_offsets n';
      mret ((offset, ty) :: types)
  end.

Definition from_reader_rec_group : Reader RecGroup :=
  b ← peek;
  match b with
  | 0x4e =>
      read_u8;;
      size ← read_size MAX_WASM_TYPES "rec group types";
      types ← read_types_with_offsets (Z.to_nat size);
      mret (rec_group_explicit types)
  | _ =>
      pos ← gets original_position;
      ty ← read (A := SubType);
      mret (rec_group_implicit pos ty)
  end.
#[export] Instance FromReader_RecGroup : FromReader RecGroup := from_reader_rec_group.

(** ** Data and encoder, as wasm-encoder has them *)

Module WEType.

Record ArrayType := mkArrayType { array_element : WE.FieldType }.
Record StructType := mkStructType { fields : list WE.FieldType }.
Record ContType := mkContType { cont_index : Z }.

Inductive CompositeInnerType :=
| Func (t : WE.FuncType)
| Array (t : ArrayType)
| Struct (t : StructType)
| Cont (t : ContType).

Record CompositeType := mkCompositeType { inner : CompositeInnerType; shared : bool }.

Record SubType := mkSubType {
  is_final : bool;
  supertype_idx : option Z;
  composite_type : CompositeType;
}.

Section encoder.
Context {L : Leb128}.

(** [CoreTypeEncoder]; its flag [push_prefix_if_component_core_type] is an
    argument of the methods that read it. *)

Definition encode_function (params results : list WE.ValType) : Enc :=
  push 0x60
  +> encode_usize (Z.of_nat (length params)) +> encode_items WE.encode_val_type params
  +> encode_usize (Z.of_nat (length results)) +> encode_items WE.encode_val_type results.

Definition encode_field (ty : WE.StorageType) (mutable : bool) : Enc :=
  WE.encode_storage_type ty +> push (Z.b2z mutable).

Definition encode_array (ty : WE.StorageType) (mutable : bool) : Enc :=
  push 0x5e +> encode_field ty mutable.

Definition encode_struct (fields : list WE.FieldType) : Enc :=
  push 0x5f +> encode_usize (Z.of_nat (length fields))
  +> encode_items (fun f => encode_field (WE.element_type f) (WE.mutable f)) fields.

Definition encode_cont (ty : ContType) : Enc := push 0x5d +> encode_i64 (cont_index ty).

Definition encode_subtype (push_prefix_if_component_core_type : bool) (ty : SubType) : Enc :=
  (if bool_decide (supertype_idx ty <> None) || negb (is_final ty) then
     (if is_final ty then push 0x4f
      else (if push_prefix_if_component_core_type then push 0x00 else Some []) +> push 0x50)
     +> encode_option encode_u32 (supertype_idx ty)
   else Some [])
  +> (if shared (composite_type ty) then push 0x65 else Some [])
  +> match inner (composite_type ty) with
     | Func t => encode_function (WE.func_params t) (WE.func_results t)
     | Array t =>
         encode_array (WE.element_type (array_element t)) (WE.mutable (array_element t))
     | Struct t => encode_struct (fields t)
     | Cont t => encode_cont t
     end.

Definition rec (types : list SubType) : Enc :=
  push 0x4e +> encode_usize (Z.of_nat (length types))
  +> encode_items (encode_subtype false) types.
End encoder.
End WEType.

(** ** Translation *)

Section utils.
Context {T : Hooks.Reencode} {L : Leb128}.

Definition storage_type (storage_ty : StorageType) : outcome WE.StorageType :=
  match storage_ty with
  | SI8 => mret WE.I8
  | SI16 => mret WE.I16
  | SVal v => v ← val_type v; mret (WE.Val v)
  end.

Definition field_type (field_ty : FieldType) : outcome WE.FieldType :=
  element_type ← storage_type (element_type field_ty);
  mret (WE.mkFieldType element_type (mutable field_ty)).

Definition array_type (array_ty : ArrayType) : outcome WEType.ArrayType :=
  f ← field_type (array_element array_ty);
  mret (WEType.mkArrayType f).

Definition struct_type (struct_ty : StructType) : outcome WEType.StructType :=
  fs ← mapM field_type (fields struct_ty);
  mret (WEType.mkStructType fs).

Definition cont_type (cont_ty : ContType) : outcome WEType.ContType :=
  u ← unwrap_outcome (unpack (cont_index cont_ty));
  i ← type_index_unpacked u;
  mret (WEType.mkContType i).

Definition func_type (func_ty : FuncType) : outcome WE.FuncType :=
  buf ← mapM val_type (func_params func_ty ++ func_results func_ty);
  mret (WE.mkFuncType buf (Z.of_nat (length (func_params func_ty)))).

Definition composite_type (composite_ty : CompositeType) : outcome WEType.CompositeType :=
  inner ←
    match inner composite_ty with
    | CFunc f => t ← func_type f; mret (WEType.Func t)
    | CArray a => t ← array_type a; mret (WEType.Array t)
    | CStruct s => t ← struct_type s; mret (WEType.Struct t)
    | CCont c => t ← cont_type c; mret (WEType.Cont t)
    end;
  mret (WEType.mkCompositeType inner (ct_shared composite_ty)).

Definition sub_type (sub_ty : SubType) : outcome WEType.SubType :=
  supertype_idx ←
    match supertype_idx sub_ty with
    | Some i =>
        u ← unwrap_outcome (unpack i);
        i ← type_index_unpacked u;
        mret (Some i)
    | None => mret None
    end;
  composite_type ← composite_type (composite_type_of sub_ty);
  mret (WEType.mkSubType (is_final sub_ty) supertype_idx composite_type).

(** [types.ty()] counts the group before it is encoded. *)
Definition parse_recursive_type_group (rec_group : RecGroup) (types : SectionBuilder)
  : outcome SectionBuilder :=
  if is_explicit_rec_group rec_group then
    subtypes ← mapM sub_type (into_types rec_group);
    unwrap_outcome (add_item (WEType.rec subtypes) types)
  else
    match into_types rec_group with
    | ty :: _ =>
        ty ← sub_type ty;
        unwrap_outcome (add_item (WEType.encode_subtype false ty) types)
    | [] => RPanic
    end.

Definition parse_type_section (types : SectionBuilder) (section : SectionLimited)
  : outcome SectionBuilder :=
  for_each parse_recursive_type_group section types.
End utils.
