(* ===== verification/Items.v ===== *)
(** The items of the sections of a core module as wasmparser reads them,
    [crates/wasmparser/src/readers/core/*.rs]. *)

From Stdlib Require Import ZArith Lia String.
From stdpp Require Import prelude.
From S2P Require Import Prelude BinaryReader Types Operands Operators OperatorReader.
From S2P Require Import SectionReader.

Local Open Scope Z_scope.

(** ** Strings and external kinds *)

(** [impl FromReader for &str]; a string is a type of its own, so that it does
    not share the instances of other lists. *)
Record Str := mkStr { str_bytes : list Z }.

Definition from_reader_str : Reader Str := s ← read_string; mret (mkStr s).
#[export] Instance FromReader_Str : FromReader Str := from_reader_str.

Definition lift_result {A} (x : result A) : Reader A := fun r => (x, r).

Definition from_reader_external_kind : Reader ExternalKind :=
  offset ← gets original_position;
  byte ← read_u8;
  lift_result (external_kind_from_byte byte offset).
#[export] Instance FromReader_ExternalKind : FromReader ExternalKind :=
  from_reader_external_kind.

(** ** Operators of a function body or of a constant expression, operators.rs *)

Record OperatorsReader := mkOperatorsReader { op_reader : BinaryReader }.

Definition OperatorsReader_new (r : BinaryReader) : OperatorsReader := mkOperatorsReader r.

Definition operators_eof (o : OperatorsReader) : bool := eof (op_reader o).

Definition operators_ensure_end (o : OperatorsReader) : result () :=
  if operators_eof o then Ok tt
  else Err (err_new (lit "unexpected data at the end of operators")
              (original_position (op_reader o))).

Definition operators_read (o : OperatorsReader) : result Op.Operator * OperatorsReader :=
  let (x, r') := read_operator (op_reader o) in (x, mkOperatorsReader r').

Definition operators_is_end_then_eof (o : OperatorsReader) : bool :=
  is_end_then_eof (op_reader o).

Record OperatorsIterator := mkOperatorsIterator { ops_reader : OperatorsReader; ops_err : bool }.

Definition operators_into_iter (o : OperatorsReader) : OperatorsIterator :=
  mkOperatorsIterator o false.

Definition operators_next (it : OperatorsIterator)
  : option (result Op.Operator) * OperatorsIterator :=
  if ops_err it || operators_eof (ops_reader it) then (None, it)
  else
    let (x, o') := operators_read (ops_reader it) in
    (Some x, mkOperatorsIterator o' (is_err x)).

(** [read_with_offset]. *)
Definition operators_next_with_offset (it : OperatorsIterator)
  : option (result (Op.Operator * Z)) * OperatorsIterator :=
  if ops_err it || operators_eof (ops_reader it) then (None, it)
  else
    let pos := original_position (op_reader (ops_reader it)) in
    let (x, o') := operators_read (ops_reader it) in
    (Some (match x with Ok op => Ok (op, pos) | Err e => Err e | Panic => Panic end),
     mkOperatorsIterator o' (is_err x)).

(** [.collect::<Result<Vec<_>>>()]: an operator takes at least one byte. *)
Fixpoint operators_collect_loop (fuel : nat) (it : OperatorsIterator)
  : result (list Op.Operator) :=
  match fuel with
  | O => Panic
  | S fuel' =>
      match operators_next it with
      | (None, _) => Ok []
      | (Some (Ok op), it') =>
          match operators_collect_loop fuel' it' with
          | Ok ops => Ok (op :: ops)
          | Err e => Err e
          | Panic => Panic
          end
      | (Some (Err e), _) => Err e
      | (Some Panic, _) => Panic
      end
  end.

Definition operators_collect (o : OperatorsReader) : result (list Op.Operator) :=
  operators_collect_loop (S (length (remaining_buffer (op_reader o)))) (operators_into_iter o).

(** ** Constant expressions, init.rs *)

Record ConstExpr := mkConstExpr { expr_reader : BinaryReader }.

Definition const_expr_operators_reader (e : ConstExpr) : OperatorsReader :=
  OperatorsReader_new (expr_reader e).

Definition from_reader_const_expr : Reader ConstExpr :=
  reader ← skip skip_const_expr;
  mret (mkConstExpr reader).
#[export] Instance FromReader_ConstExpr : FromReader ConstExpr := from_reader_const_expr.

(** ** Tables, tables.rs *)

Record TableType := mkTableType {
  table_element_type : RefType;
  table64 : bool;
  table_initial : Z;
  table_maximum : option Z;
  table_shared : bool;
}.

Inductive TableInit := RefNull | Expr (e : ConstExpr).

Record Table := mkTable { table_ty : TableType; table_init : TableInit }.

(** [if wide { read_var_u64()? } else { read_var_u32()?.into() }]. *)
Definition read_limit (wide : bool) : Reader Z :=
  if wide then read_var_u64 else read_var_u32.

Definition read_maximum (has_max wide : bool) : Reader (option Z) :=
  if negb has_max then mret None else m ← read_limit wide; mret (Some m).

Definition from_reader_table_type : Reader TableType :=
  element_type ← read (A := RefType);
  pos ← gets original_position;
  flags ← read_u8;
  if negb (Z.ldiff flags 0x7 =? 0) then
    fail (err_new (lit "invalid table resizable limits flags") pos)
  else
    let has_max := negb (Z.land flags 0x1 =? 0) in
    let shared := negb (Z.land flags 0x2 =? 0) in
    let table64 := negb (Z.land flags 0x4 =? 0) in
    initial ← read_limit table64;
    maximum ← read_maximum has_max table64;
    mret (mkTableType element_type table64 initial maximum shared).
#[export] Instance FromReader_TableType : FromReader TableType := from_reader_table_type.

Definition from_reader_table : Reader Table :=
  b ← peek;
  has_init_expr ← (if b =? 0x40 then read_u8;; mret true else mret false);
  (if has_init_expr : bool then
     z ← read_u8;
     if negb (z =? 0x00) then fail_prev (lit "invalid table encoding") else mret tt
   else mret tt);;
  ty ← read (A := TableType);
  init ← (if has_init_expr : bool then e ← read (A := ConstExpr); mret (Expr e)
          else mret RefNull);
  mret (mkTable ty init).
#[export] Instance FromReader_Table : FromReader Table := from_reader_table.

(** ** Memories, memories.rs *)

Record MemoryType := mkMemoryType {
  mem_memory64 : bool;
  mem_shared : bool;
  mem_initial : Z;
  mem_maximum : option Z;
  page_size_log2 : option Z;
}.

Definition from_reader_memory_type : Reader MemoryType :=
  pos ← gets original_position;
  flags ← read_u8;
  if negb (Z.ldiff flags 0xf =? 0) then
    fail (err_new (lit "invalid memory limits flags") pos)
  else
    let memory64 := negb (Z.land flags 0x4 =? 0) in
    let shared := negb (Z.land flags 0x2 =? 0) in
    let has_max := negb (Z.land flags 0x1 =? 0) in
    let has_page_size := negb (Z.land flags 0x8 =? 0) in
    initial ← read_limit memory64;
    maximum ← read_maximum has_max memory64;
    page_size_log2 ← (if has_page_size then p ← read_var_u32; mret (Some p) else mret None);
    mret (mkMemoryType memory64 shared initial maximum page_size_log2).
#[export] Instance FromReader_MemoryType : FromReader MemoryType := from_reader_memory_type.

(** ** Tags, tags.rs *)

Inductive TagKind := Exception.
Record TagType := mkTagType { tag_kind_of : TagKind; func_type_idx : Z }.

Definition from_reader_tag_type : Reader TagType :=
  attribute ← read_u8;
  if negb (attribute =? 0) then fail_prev (lit "invalid tag attributes")
  else
    func_type_idx ← read_var_u32;
    mret (mkTagType Exception func_type_idx).
#[export] Instance FromReader_TagType : FromReader TagType := from_reader_tag_type.

(** ** Globals, globals.rs *)

Record GlobalType := mkGlobalType {
  content_type : ValType;
  global_mutable : bool;
  global_shared : bool;
}.

Record Global := mkGlobal { global_ty : GlobalType; init_expr : ConstExpr }.

Definition from_reader_global_type : Reader GlobalType :=
  content_type ← read (A := ValType);
  flags ← read_u8;
  f ← gets features;
  (if shared_everything_threads f then
     if 0x3 <? flags then fail_prev (lit "malformed global flags") else mret tt
   else
     if 0x1 <? flags then
       fail_prev (lit "malformed mutability -- or shared globals require the shared-everything-threads proposal")
     else mret tt);;
  mret (mkGlobalType content_type (0 <? Z.land flags 0x1) (0 <? Z.land flags 0x2)).
#[export] Instance FromReader_GlobalType : FromReader GlobalType := from_reader_global_type.

Definition from_reader_global : Reader Global :=
  ty ← read (A := GlobalType);
  init_expr ← read (A := ConstExpr);
  mret (mkGlobal ty init_expr).
#[export] Instance FromReader_Global : FromReader Global := from_reader_global.

(** ** Imports, imports.rs, and exports, exports.rs *)

Inductive TypeRef :=
| TR_Func (i : Z)
| TR_Table (t : TableType)
| TR_Memory (t : MemoryType)
| TR_Global (t : GlobalType)
| TR_Tag (t : TagType).

Record Import := mkImport { import_module : Str; import_name : Str; import_ty : TypeRef }.

Definition from_reader_type_ref : Reader TypeRef :=
  k ← read (A := ExternalKind);
  match k with
  | EK_Func => i ← read_var_u32; mret (TR_Func i)
  | EK_Table => t ← read (A := TableType); mret (TR_Table t)
  | EK_Memory => t ← read (A := MemoryType); mret (TR_Memory t)
  | EK_Global => t ← read (A := GlobalType); mret (TR_Global t)
  | EK_Tag => t ← read (A := TagType); mret (TR_Tag t)
  end.
#[export] Instance FromReader_TypeRef : FromReader TypeRef := from_reader_type_ref.

Definition from_reader_import : Reader Import :=
  module ← read (A := Str);
  name ← read (A := Str);
  ty ← read (A := TypeRef);
  mret (mkImport module name ty).
#[export] Instance FromReader_Import : FromReader Import := from_reader_import.

Record Export := mkExport { export_name : Str; export_kind_of : ExternalKind; export_index : Z }.

Definition from_reader_export : Reader Export :=
  name ← read (A := Str);
  kind ← read (A := ExternalKind);
  index ← read_var_u32;
  mret (mkExport name kind index).
#[export] Instance FromReader_Export : FromReader Export := from_reader_export.

(** ** Data segments, data.rs *)

Inductive DataKind := DK_Passive | DK_Active (memory_index : Z) (offset_expr : ConstExpr).

Record Data := mkData { data_kind : DataKind; data_bytes : list Z; data_range : Z * Z }.

Definition from_reader_data : Reader Data :=
  segment_start ← gets original_position;
  flags ← read_var_u32;
  kind ←
    match flags with
    | 1 => mret DK_Passive
    | 0 | 2 =>
        memory_index ← (if flags =? 0 then mret 0 else read_var_u32);
        offset_expr ← read (A := ConstExpr);
        mret (DK_Active memory_index offset_expr)
    | _ => fail (err_new (lit "invalid flags byte in data segment") segment_start)
    end;
  data ← read_reader;
  mret (mkData kind (remaining_buffer data) (segment_start, (range data).2)).
#[export] Instance FromReader_Data : FromReader Data := from_reader_data.

(** ** Element segments, elements.rs *)

Inductive ElementKind :=
| ELK_Passive
| ELK_Active (table_index : option Z) (offset_expr : ConstExpr)
| ELK_Declared.

Inductive ElementItems :=
| EI_Functions (fs : SectionLimited)
| EI_Expressions (ty : RefType) (es : SectionLimited).

Record Element := mkElement {
  element_kind : ElementKind;
  element_items_of : ElementItems;
  element_range : Z * Z;
}.

Fixpoint skip_const_exprs (n : nat) : Reader () :=
  match n with
  | O => mret tt
  | S n' => skip_const_expr;; skip_const_exprs n'
  end.

(** The closure given to [reader.skip]. *)
Definition skip_element_items (exprs : bool) : Reader () :=
  items_count ← read_var_u32;
  if exprs then skip_const_exprs (Z.to_nat items_count)
  else skip_var_u32s (Z.to_nat items_count).

Definition read_element_kind (flags : Z) : Reader ElementKind :=
  if negb (Z.land flags 0x1 =? 0) then
    if negb (Z.land flags 0x2 =? 0) then mret ELK_Declared else mret ELK_Passive
  else
    table_index ←
      (if Z.land flags 0x2 =? 0 then mret None else i ← read_var_u32; mret (Some i));
    offset_expr ← read (A := ConstExpr);
    mret (ELK_Active table_index offset_expr).

Definition read_element_type (flags : Z) (exprs : bool) : Reader (option RefType) :=
  if negb (Z.land flags 0x3 =? 0) then
    if exprs then t ← read (A := RefType); mret (Some t)
    else
      k ← read (A := ExternalKind);
      match k with
      | EK_Func => mret None
      | _ => fail_prev (lit "only the function external type is supported in elem segment")
      end
  else mret None.

Definition from_reader_element : Reader Element :=
  elem_start ← gets original_position;
  flags ← read_var_u32;
  if negb (Z.ldiff flags 0x7 =? 0) then
    fail_prev (lit "invalid flags byte in element segment")
  else
    kind ← read_element_kind flags;
    let exprs := negb (Z.land flags 0x4 =? 0) in
    ty ← read_element_type flags exprs;
    data ← skip (skip_element_items exprs);
    items ←
      (if exprs then
         sec ← lift_result (section_new data);
         mret (EI_Expressions (match ty with Some t => t | None => Types.FUNCREF end) sec)
       else
         match ty with
         | Some _ => panic
         | None => sec ← lift_result (section_new data); mret (EI_Functions sec)
         end);
    elem_end ← gets original_position;
    mret (mkElement kind items (elem_start, elem_end)).
#[export] Instance FromReader_Element : FromReader Element := from_reader_element.

(** ** Function bodies, code.rs *)

Record FunctionBody := mkFunctionBody { body_reader : BinaryReader }.

Definition from_reader_function_body : Reader FunctionBody :=
  reader ← read_reader;
  mret (mkFunctionBody reader).
#[export] Instance FromReader_FunctionBody : FromReader FunctionBody :=
  from_reader_function_body.

Fixpoint skip_locals_loop (n : nat) : Reader () :=
  match n with
  | O => mret tt
  | S n' => read_var_u32;; read (A := ValType);; skip_locals_loop n'
  end.

Definition skip_locals : Reader () :=
  count ← read_var_u32;
  skip_locals_loop (Z.to_nat count).

Definition get_operators_reader (b : FunctionBody) : result OperatorsReader :=
  match skip_locals (body_reader b) with
  | (Ok _, r) => Ok (OperatorsReader_new r)
  | (Err e, _) => Err e
  | (Panic, _) => Panic
  end.

Record LocalsReader := mkLocalsReader { locals_reader : BinaryReader; locals_count : Z }.

Definition get_locals_reader (b : FunctionBody) : result LocalsReader :=
  match read_var_u32 (body_reader b) with
  | (Ok count, r) => Ok (mkLocalsReader r count)
  | (Err e, _) => Err e
  | (Panic, _) => Panic
  end.

(** [LocalsReader::read]. *)
Definition locals_read (l : LocalsReader) : result (Z * ValType) * LocalsReader :=
  let (x, r') := (count ← read (A := Z); value_type ← read (A := ValType);
                  mret (count, value_type)) (locals_reader l) in
  (x, mkLocalsReader r' (locals_count l)).

Record LocalsIterator := mkLocalsIterator {
  locals_iter : LocalsReader;
  locals_left : Z;
  locals_err : bool;
}.

Definition locals_into_iter (l : LocalsReader) : LocalsIterator :=
  mkLocalsIterator l (locals_count l) false.

Definition locals_next (it : LocalsIterator)
  : option (result (Z * ValType)) * LocalsIterator :=
  if locals_err it || (locals_left it =? 0) then (None, it)
  else
    let (x, l') := locals_read (locals_iter it) in
    (Some x, mkLocalsIterator l' (locals_left it - 1) (is_err x)).

(** [.collect::<Result<Vec<_>>>()]: one call per announced pair, and the end. *)
Fixpoint locals_collect_loop (fuel : nat) (it : LocalsIterator)
  : result (list (Z * ValType)) :=
  match fuel with
  | O => Panic
  | S fuel' =>
      match locals_next it with
      | (None, _) => Ok []
      | (Some (Ok x), it') =>
          match locals_collect_loop fuel' it' with
          | Ok xs => Ok (x :: xs)
          | Err e => Err e
          | Panic => Panic
          end
      | (Some (Err e), _) => Err e
      | (Some Panic, _) => Panic
      end
  end.

Definition locals_collect (l : LocalsReader) : result (list (Z * ValType)) :=
  locals_collect_loop (S (Z.to_nat (locals_count l))) (locals_into_iter l).
