(* ===== verification/EncSections.v ===== *)
(** wasm-encoder's data and encoders for the items of the sections of a core
    module, and the module builder: [crates/wasm-encoder/src/core.rs],
    [crates/wasm-encoder/src/raw.rs] and [crates/wasm-encoder/src/core/*.rs].

    The sections with a list of items are [SectionBuilder]s; the methods that
    add an item return the builder, or [None] when they panic. *)

From Stdlib Require Import ZArith Lia String.
From stdpp Require Import prelude.
From S2P Require Import Prelude Leb128 BinaryReader Encode EncTypes Instructions.
From S2P Require Import SectionReader.

Local Open Scope Z_scope.

Module WS.

(** ** Constant expressions and function bodies, code.rs *)

Record ConstExpr := mkConstExpr { expr_bytes : list Z }.

Definition ConstExpr_empty : ConstExpr := mkConstExpr [].
Definition ConstExpr_raw (bytes : list Z) : ConstExpr := mkConstExpr bytes.

Record Function := mkFunction { function_bytes : list Z }.

Section code.
Context {L : Leb128}.

Definition ConstExpr_extended (insns : list Instr.Instruction) : option ConstExpr :=
  bs ← encode_items Instr.encode_instruction insns;
  Some (mkConstExpr bs).

Definition with_insn (e : ConstExpr) (insn : Instr.Instruction) : option ConstExpr :=
  bs ← Instr.encode_instruction insn;
  Some (mkConstExpr (expr_bytes e ++ bs)).

Definition encode_const_expr (e : ConstExpr) : Enc :=
  extend (expr_bytes e) +> Instr.encode_instruction Instr.End.

(** [Function::new]. *)
Definition Function_new (locals : list (Z * WE.ValType)) : option Function :=
  bs ← encode_usize (Z.of_nat (length locals))
       +> encode_items (fun '(count, ty) => encode_u32 count +> WE.encode_val_type ty) locals;
  Some (mkFunction bs).

(** [Function::instruction] and [Function::raw]. *)
Definition function_instruction (f : Function) (i : Instr.Instruction) : option Function :=
  bs ← Instr.encode_instruction i;
  Some (mkFunction (function_bytes f ++ bs)).

Definition function_raw (f : Function) (bytes : list Z) : Function :=
  mkFunction (function_bytes f ++ bytes).

Definition encode_function (f : Function) : Enc := encode_bytes (function_bytes f).

(** [CodeSection::function] and [CodeSection::raw]. *)
Definition code_function (func : Function) (s : SectionBuilder) : option SectionBuilder :=
  add_item (encode_function func) s.

Definition code_raw (data : list Z) (s : SectionBuilder) : option SectionBuilder :=
  add_item (encode_bytes data) s.
End code.

(** [l == *last_type]. *)
#[export] Instance AbstractHeapType_eq_dec : EqDecision WE.AbstractHeapType.
Proof. solve_decision. Defined.
#[export] Instance HeapType_eq_dec : EqDecision WE.HeapType.
Proof. solve_decision. Defined.
#[export] Instance RefType_eq_dec : EqDecision WE.RefType.
Proof. solve_decision. Defined.
#[export] Instance ValType_eq_dec : EqDecision WE.ValType.
Proof. solve_decision. Defined.

(** The loop of [Function::new_with_locals_types]; [rev_collected] is
    [locals_collected], last element first.  [*last_count += 1] panics when it
    overflows. *)
Fixpoint collect_locals (ls : list WE.ValType) (rev_collected : list (Z * WE.ValType))
  : option (list (Z * WE.ValType)) :=
  match ls with
  | [] => Some (rev rev_collected)
  | l :: ls' =>
      match rev_collected with
      | (last_count, last_type) :: rest =>
          if decide (l = last_type) then
            if last_count =? 2 ^ 32 - 1 then None
            else collect_locals ls' ((last_count + 1, last_type) :: rest)
          else collect_locals ls' ((1, l) :: rev_collected)
      | [] => collect_locals ls' [(1, l)]
      end
  end.

Definition new_with_locals_types {L : Leb128} (locals : list WE.ValType) : option Function :=
  locals_collected ← collect_locals locals [];
  Function_new locals_collected.

(** ** Types of entities *)

Record MemoryType := mkMemoryType {
  mem_minimum : Z;
  mem_maximum : option Z;
  mem_memory64 : bool;
  mem_shared : bool;
  page_size_log2 : option Z;
}.

Record TableType := mkTableType {
  table_element_type : WE.RefType;
  table64 : bool;
  table_minimum : Z;
  table_maximum : option Z;
  table_shared : bool;
}.

Record GlobalType := mkGlobalType {
  global_val_type : WE.ValType;
  global_mutable : bool;
  global_shared : bool;
}.

Inductive TagKind := Exception.
Record TagType := mkTagType { tag_kind_of : TagKind; func_type_idx : Z }.

Inductive EntityType :=
| EFunction (i : Z)
| ETable (t : TableType)
| EMemory (t : MemoryType)
| EGlobal (t : GlobalType)
| ETag (t : TagType).

Inductive ExportKind := Func | Table | Memory | Global | Tag.

Definition CORE_FUNCTION_SORT : Z := 0x00.
Definition CORE_TABLE_SORT : Z := 0x01.
Definition CORE_MEMORY_SORT : Z := 0x02.
Definition CORE_GLOBAL_SORT : Z := 0x03.
Definition CORE_TAG_SORT : Z := 0x04.

(** [if c { flags |= bit }]. *)
Definition set_flag (c : bool) (bit flags : Z) : Z := if c then Z.lor flags bit else flags.

Definition is_some {A} (o : option A) : bool := match o with Some _ => true | None => false end.

(** [if let Some(x) = o { x.encode(sink) }]. *)
Definition encode_if_some {A} (enc : A -> Enc) (o : option A) : Enc :=
  match o with Some x => enc x | None => Some [] end.

(** ** Element and data segments *)

Inductive Elements :=
| Functions (fs : list Z)
| Expressions (ty : WE.RefType) (es : list ConstExpr).

Inductive ElementMode :=
| EPassive
| EDeclared
| EActive (table : option Z) (offset : ConstExpr).

Record ElementSegment := mkElementSegment { el_mode : ElementMode; elements : Elements }.

Inductive DataSegmentMode :=
| DActive (memory_index : Z) (offset : ConstExpr)
| DPassive.

Record DataSegment := mkDataSegment { data_mode : DataSegmentMode; data : list Z }.

(** [RefType::FUNCREF]. *)
Definition FUNCREF : WE.RefType := WE.mkRefType true (WE.Abstract false WE.Func).

Section encode.
Context {L : Leb128}.

Definition encode_memory_type (t : MemoryType) : Enc :=
  let flags := 0 in
  let flags := set_flag (is_some (mem_maximum t)) 0x1 flags in
  let flags := set_flag (mem_shared t) 0x2 flags in
  let flags := set_flag (mem_memory64 t) 0x4 flags in
  let flags := set_flag (is_some (page_size_log2 t)) 0x8 flags in
  push flags
  +> encode_u64 (mem_minimum t)
  +> encode_if_some encode_u64 (mem_maximum t)
  +> encode_if_some encode_u32 (page_size_log2 t).

Definition encode_table_type (t : TableType) : Enc :=
  let flags := 0 in
  let flags := set_flag (is_some (table_maximum t)) 0x1 flags in
  let flags := set_flag (table_shared t) 0x2 flags in
  let flags := set_flag (table64 t) 0x4 flags in
  WE.encode_ref_type (table_element_type t)
  +> push flags
  +> encode_u64 (table_minimum t)
  +> encode_if_some encode_u64 (table_maximum t).

Definition encode_global_type (t : GlobalType) : Enc :=
  WE.encode_val_type (global_val_type t)
  +> (let flag := 0 in
      let flag := set_flag (global_mutable t) 0x1 flag in
      let flag := set_flag (global_shared t) 0x2 flag in
      push flag).

Definition encode_tag_type (t : TagType) : Enc :=
  push (match tag_kind_of t with Exception => 0x0 end) +> encode_u32 (func_type_idx t).

Definition encode_entity_type (t : EntityType) : Enc :=
  match t with
  | EFunction i => push CORE_FUNCTION_SORT +> encode_u32 i
  | ETable t => push CORE_TABLE_SORT +> encode_table_type t
  | EMemory t => push CORE_MEMORY_SORT +> encode_memory_type t
  | EGlobal t => push CORE_GLOBAL_SORT +> encode_global_type t
  | ETag t => push CORE_TAG_SORT +> encode_tag_type t
  end.

Definition encode_export_kind (k : ExportKind) : Enc :=
  push (match k with
        | Func => CORE_FUNCTION_SORT
        | Table => CORE_TABLE_SORT
        | Memory => CORE_MEMORY_SORT
        | Global => CORE_GLOBAL_SORT
        | Tag => CORE_TAG_SORT
        end).

(** ** Adding items to sections *)

Definition functions_function (type_index : Z) (s : SectionBuilder) : option SectionBuilder :=
  add_item (encode_u32 type_index) s.

Definition memories_memory (t : MemoryType) (s : SectionBuilder) : option SectionBuilder :=
  add_item (encode_memory_type t) s.

Definition tables_table (t : TableType) (s : SectionBuilder) : option SectionBuilder :=
  add_item (encode_table_type t) s.

Definition tables_table_with_init (t : TableType) (init : ConstExpr) (s : SectionBuilder)
  : option SectionBuilder :=
  add_item (push 0x40 +> push 0x00 +> encode_table_type t +> encode_const_expr init) s.

Definition globals_global (t : GlobalType) (init_expr : ConstExpr) (s : SectionBuilder)
  : option SectionBuilder :=
  add_item (encode_global_type t +> encode_const_expr init_expr) s.

Definition imports_import (module field : list Z) (ty : EntityType) (s : SectionBuilder)
  : option SectionBuilder :=
  add_item (encode_str module +> encode_str field +> encode_entity_type ty) s.

Definition exports_export (name : list Z) (kind : ExportKind) (index : Z) (s : SectionBuilder)
  : option SectionBuilder :=
  add_item (encode_str name +> encode_export_kind kind +> encode_u32 index) s.

Definition tags_tag (t : TagType) (s : SectionBuilder) : option SectionBuilder :=
  add_item (encode_tag_type t) s.

(** [DataSection::segment]. *)
Definition encode_data_segment (segment : DataSegment) : Enc :=
  match data_mode segment with
  | DPassive => push 0x01
  | DActive 0 offset => push 0x00 +> encode_const_expr offset
  | DActive memory_index offset =>
      push 0x02 +> encode_u32 memory_index +> encode_const_expr offset
  end
  +> encode_usize (Z.of_nat (length (data segment)))
  +> extend (data segment).

Definition data_segment (segment : DataSegment) (s : SectionBuilder) : option SectionBuilder :=
  add_item (encode_data_segment segment) s.

Definition data_active (memory_index : Z) (offset : ConstExpr) (d : list Z) (s : SectionBuilder)
  : option SectionBuilder :=
  data_segment (mkDataSegment (DActive memory_index offset) d) s.

Definition data_passive (d : list Z) (s : SectionBuilder) : option SectionBuilder :=
  data_segment (mkDataSegment DPassive d) s.

(** [ElementSection::segment]: the flags, the table and the offset, and whether
    the type of the elements follows. *)
Definition encode_element_mode (segment : ElementSegment) : Enc * bool :=
  let expr_bit := match elements segment with Expressions _ _ => 0x4 | Functions _ => 0x0 end in
  match el_mode segment with
  | EPassive => (encode_u32 (Z.lor 0x01 expr_bit), true)
  | EActive table offset =>
      let short := match table, elements segment with
                   | None, Functions _ => true
                   | None, Expressions ty _ => bool_decide (ty = FUNCREF)
                   | Some _, _ => false
                   end in
      if short then (encode_u32 expr_bit +> encode_const_expr offset, false)
      else (encode_u32 (Z.lor 0x02 expr_bit)
            +> encode_u32 (match table with Some t => t | None => 0 end)
            +> encode_const_expr offset, true)
  | EDeclared => (encode_u32 (Z.lor 0x03 expr_bit), true)
  end.

Definition encode_element_segment (segment : ElementSegment) : Enc :=
  let (mode, encode_type) := encode_element_mode segment in
  mode
  +> match elements segment with
     | Functions fs =>
         (if encode_type then push 0x00 else Some []) +> encode_list encode_u32 fs
     | Expressions ty e =>
         (if encode_type then WE.encode_ref_type ty else Some [])
         +> encode_usize (Z.of_nat (length e)) +> encode_items encode_const_expr e
     end.

Definition element_segment (segment : ElementSegment) (s : SectionBuilder)
  : option SectionBuilder :=
  add_item (encode_element_segment segment) s.

Definition element_active (table_index : option Z) (offset : ConstExpr) (e : Elements)
  (s : SectionBuilder) : option SectionBuilder :=
  element_segment (mkElementSegment (EActive table_index offset) e) s.

Definition element_passive (e : Elements) (s : SectionBuilder) : option SectionBuilder :=
  element_segment (mkElementSegment EPassive e) s.

Definition element_declared (e : Elements) (s : SectionBuilder) : option SectionBuilder :=
  element_segment (mkElementSegment EDeclared e) s.

(** ** Other sections *)

(** [StartSection] and [DataCountSection] hold one number. *)
Definition encode_start_section (function_index : Z) : Enc :=
  size ← encoding_size function_index;
  encode_usize size +> encode_u32 function_index.

Definition encode_data_count_section (count : Z) : Enc :=
  size ← encoding_size count;
  encode_usize size +> encode_u32 count.

Definition encode_custom_section (name custom_data : list Z) : Enc :=
  if Z.of_nat (length name) <=? 2 ^ 32 - 1 then
    encoded_name_len ← encoding_size (Z.of_nat (length name));
    encode_usize (encoded_name_len + Z.of_nat (length name) + Z.of_nat (length custom_data))
    +> encode_str name +> extend custom_data
  else None.

(** [RawSection]. *)
Definition encode_raw_section (raw : list Z) : Enc := encode_bytes raw.
End encode.

(** ** Modules, core.rs *)

Inductive SectionId :=
| SCustom | SType | SImport | SFunction | STable | SMemory | SGlobal | SExport | SStart
| SElement | SCode | SData | SDataCount | STag.

Definition section_id (id : SectionId) : Z :=
  match id with
  | SCustom => 0 | SType => 1 | SImport => 2 | SFunction => 3 | STable => 4
  | SMemory => 5 | SGlobal => 6 | SExport => 7 | SStart => 8 | SElement => 9
  | SCode => 10 | SData => 11 | SDataCount => 12 | STag => 13
  end.

Record Module_ := mkModule { module_bytes : list Z }.

Definition HEADER : list Z := [0x00; 0x61; 0x73; 0x6D; 0x01; 0x00; 0x00; 0x00].

Definition Module_new : Module_ := mkModule HEADER.

(** [Module::section]: the id, then the encoding of the section. *)
Definition module_section (id : Z) (e : Enc) (m : Module_) : option Module_ :=
  bs ← push id +> e;
  Some (mkModule (module_bytes m ++ bs)).
End WS.
