(* ===== verification/ReencodeSections.v ===== *)
(** Translation of the sections of a core module, [reencode::utils] of
    [crates/wasm-encoder/src/reencode.rs].

    As in Reencode.v the index hooks of the trait are a parameter and the other
    methods are kept at their defaults. *)

From Stdlib Require Import ZArith Lia String.
From stdpp Require Import prelude.
From S2P Require Import Prelude Leb128 BinaryReader Encode Types EncTypes Operands.
From S2P Require Import Operators OperatorReader Instructions Reencode SectionReader.
From S2P Require Import Items EncSections.

Local Open Scope Z_scope.

Section utils.
Context {T : Hooks.Reencode} {L : Leb128}.

(** ** Operators *)

(** [parse_instruction]: the reader moves past the operator. *)
Definition parse_instruction (reader : OperatorsReader)
  : outcome (Instr.Instruction * OperatorsReader) :=
  let (x, reader') := operators_read reader in
  op ← from_result x;
  i ← instruction op;
  mret (i, reader').

(** The loop of [const_expr]; an operator takes at least one byte. *)
Fixpoint const_expr_loop (fuel : nat) (ops : OperatorsReader) (bytes : list Z)
  : outcome (list Z) :=
  match fuel with
  | O => RPanic
  | S fuel' =>
      if operators_is_end_then_eof ops then ROk bytes
      else
        '(insn, ops') ← parse_instruction ops;
        bs ← unwrap_outcome (Instr.encode_instruction insn);
        const_expr_loop fuel' ops' (bytes ++ bs)
  end.

Definition const_expr (e : ConstExpr) : outcome WS.ConstExpr :=
  let ops := const_expr_operators_reader e in
  bytes ← const_expr_loop (S (length (remaining_buffer (op_reader ops)))) ops [];
  mret (WS.ConstExpr_raw bytes).

(** ** Types of entities *)

Definition export_kind (external_kind : ExternalKind) : WS.ExportKind :=
  match external_kind with
  | EK_Func => WS.Func
  | EK_Table => WS.Table
  | EK_Memory => WS.Memory
  | EK_Global => WS.Global
  | EK_Tag => WS.Tag
  end.

Definition external_index (kind : ExternalKind) (index : Z) : Z :=
  match kind with
  | EK_Func => Hooks.function_index index
  | EK_Table => Hooks.table_index index
  | EK_Memory => Hooks.memory_index index
  | EK_Global => Hooks.global_index index
  | EK_Tag => Hooks.tag_index index
  end.

Definition memory_type (memory_ty : MemoryType) : WS.MemoryType :=
  WS.mkMemoryType (mem_initial memory_ty) (mem_maximum memory_ty) (mem_memory64 memory_ty)
    (mem_shared memory_ty) (page_size_log2 memory_ty).

Definition tag_kind (kind : TagKind) : WS.TagKind :=
  match kind with Exception => WS.Exception end.

Definition tag_type (tag_ty : TagType) : WS.TagType :=
  WS.mkTagType (tag_kind (tag_kind_of tag_ty)) (Hooks.type_index (func_type_idx tag_ty)).

Definition table_type (table_ty : TableType) : outcome WS.TableType :=
  element_type ← ref_type (table_element_type table_ty);
  mret (WS.mkTableType element_type (table64 table_ty) (table_initial table_ty)
          (table_maximum table_ty) (table_shared table_ty)).

Definition global_type (global_ty : GlobalType) : outcome WS.GlobalType :=
  val_type ← val_type (content_type global_ty);
  mret (WS.mkGlobalType val_type (global_mutable global_ty) (global_shared global_ty)).

Definition entity_type (type_ref : TypeRef) : outcome WS.EntityType :=
  match type_ref with
  | TR_Func i => mret (WS.EFunction (Hooks.type_index i))
  | TR_Table t => t ← table_type t; mret (WS.ETable t)
  | TR_Memory m => mret (WS.EMemory (memory_type m))
  | TR_Global g => g ← global_type g; mret (WS.EGlobal g)
  | TR_Tag t => mret (WS.ETag (tag_type t))
  end.

(** ** Sections *)

Definition parse_table (table : Table) (tables : SectionBuilder) : outcome SectionBuilder :=
  ty ← table_type (table_ty table);
  match table_init table with
  | RefNull => unwrap_outcome (WS.tables_table ty tables)
  | Expr e => e ← const_expr e; unwrap_outcome (WS.tables_table_with_init ty e tables)
  end.

Definition parse_table_section (tables : SectionBuilder) (section : SectionLimited)
  : outcome SectionBuilder := for_each parse_table section tables.

Definition parse_tag (tag : TagType) (tags : SectionBuilder) : outcome SectionBuilder :=
  unwrap_outcome (WS.tags_tag (tag_type tag) tags).

Definition parse_tag_section (tags : SectionBuilder) (section : SectionLimited)
  : outcome SectionBuilder := for_each parse_tag section tags.

Definition parse_export (export : Export) (exports : SectionBuilder)
  : outcome SectionBuilder :=
  unwrap_outcome (WS.exports_export (str_bytes (export_name export))
    (export_kind (export_kind_of export))
    (external_index (export_kind_of export) (export_index export)) exports).

Definition parse_export_section (exports : SectionBuilder) (section : SectionLimited)
  : outcome SectionBuilder := for_each parse_export section exports.

Definition parse_global (global : Global) (globals : SectionBuilder)
  : outcome SectionBuilder :=
  ty ← global_type (global_ty global);
  init_expr ← const_expr (init_expr global);
  unwrap_outcome (WS.globals_global ty init_expr globals).

Definition parse_global_section (globals : SectionBuilder) (section : SectionLimited)
  : outcome SectionBuilder := for_each parse_global section globals.

Definition parse_import (import : Import) (imports : SectionBuilder)
  : outcome SectionBuilder :=
  ty ← entity_type (import_ty import);
  unwrap_outcome (WS.imports_import (str_bytes (import_module import))
    (str_bytes (import_name import)) ty imports).

Definition parse_import_section (imports : SectionBuilder) (section : SectionLimited)
  : outcome SectionBuilder := for_each parse_import section imports.

Definition parse_memory (memory : MemoryType) (memories : SectionBuilder)
  : outcome SectionBuilder :=
  unwrap_outcome (WS.memories_memory (memory_type memory) memories).

Definition parse_memory_section (memories : SectionBuilder) (section : SectionLimited)
  : outcome SectionBuilder := for_each parse_memory section memories.

Definition parse_function (func : Z) (functions : SectionBuilder) : outcome SectionBuilder :=
  unwrap_outcome (WS.functions_function (Hooks.type_index func) functions).

Definition parse_function_section (functions : SectionBuilder) (section : SectionLimited)
  : outcome SectionBuilder := for_each parse_function section functions.

Definition parse_data (datum : Data) (data : SectionBuilder) : outcome SectionBuilder :=
  match data_kind datum with
  | DK_Active memory_index offset_expr =>
      offset ← const_expr offset_expr;
      unwrap_outcome (WS.data_active (Hooks.memory_index memory_index) offset
        (data_bytes datum) data)
  | DK_Passive => unwrap_outcome (WS.data_passive (data_bytes datum) data)
  end.

Definition parse_data_section (data : SectionBuilder) (section : SectionLimited)
  : outcome SectionBuilder := for_each parse_data section data.

Definition element_items (items : ElementItems) : outcome WS.Elements :=
  match items with
  | EI_Functions f =>
      funcs ← for_each (fun func funcs => ROk (funcs ++ [Hooks.function_index func])) f [];
      mret (WS.Functions funcs)
  | EI_Expressions ty e =>
      exprs ← for_each (A := ConstExpr)
                (fun expr exprs => x ← const_expr expr; mret (exprs ++ [x])) e [];
      ty ← ref_type ty;
      mret (WS.Expressions ty exprs)
  end.

(** The table index that is kept absent only when it was and is still zero. *)
Definition reencode_table_index (table_index : option Z) : option Z :=
  let n := Hooks.table_index (match table_index with Some i => i | None => 0 end) in
  match table_index with
  | None => if n =? 0 then None else Some n
  | Some _ => Some n
  end.

Definition parse_element (element : Element) (elements : SectionBuilder)
  : outcome SectionBuilder :=
  elems ← element_items (element_items_of element);
  match element_kind element with
  | ELK_Active table_index offset_expr =>
      let table_index := reencode_table_index table_index in
      offset ← const_expr offset_expr;
      unwrap_outcome (WS.element_active table_index offset elems elements)
  | ELK_Passive => unwrap_outcome (WS.element_passive elems elements)
  | ELK_Declared => unwrap_outcome (WS.element_declared elems elements)
  end.

Definition parse_element_section (elements : SectionBuilder) (section : SectionLimited)
  : outcome SectionBuilder := for_each parse_element section elements.

(** ** Code *)

(** [for pair in func.get_locals_reader()?]: the iterator yields at most one
    pair per announced pair, and the end. *)
Fixpoint parsed_locals_loop (fuel : nat) (it : LocalsIterator)
  (locals : list (Z * WE.ValType)) : outcome (list (Z * WE.ValType)) :=
  match fuel with
  | O => RPanic
  | S fuel' =>
      match locals_next it with
      | (None, _) => ROk locals
      | (Some x, it') =>
          '(cnt, ty) ← from_result x;
          ty ← val_type ty;
          parsed_locals_loop fuel' it' (locals ++ [(cnt, ty)])
      end
  end.

Definition new_function_with_parsed_locals (func : FunctionBody) : outcome WS.Function :=
  reader ← from_result (get_locals_reader func);
  locals ← parsed_locals_loop (S (Z.to_nat (locals_count reader)))
             (locals_into_iter reader) [];
  unwrap_outcome (WS.Function_new locals).

(** [while !reader.eof() { f.instruction(..) }]. *)
Fixpoint function_body_loop (fuel : nat) (reader : OperatorsReader) (f : WS.Function)
  : outcome WS.Function :=
  match fuel with
  | O => RPanic
  | S fuel' =>
      if operators_eof reader then ROk f
      else
        '(i, reader') ← parse_instruction reader;
        f' ← unwrap_outcome (WS.function_instruction f i);
        function_body_loop fuel' reader' f'
  end.

Definition parse_function_body (func : FunctionBody) (code : SectionBuilder)
  : outcome SectionBuilder :=
  f ← new_function_with_parsed_locals func;
  reader ← from_result (get_operators_reader func);
  f ← function_body_loop (S (length (remaining_buffer (op_reader reader)))) reader f;
  unwrap_outcome (WS.code_function f code).

Definition parse_code_section (code : SectionBuilder) (section : SectionLimited)
  : outcome SectionBuilder := for_each parse_function_body section code.
End utils.
