(* ===== verification/Locality.v ===== *)
(** Locality of readers: a successful read depends only on the bytes it
    consumed, on the features and on where in the file it started.  What comes
    later in the buffer, and how the buffer is cut, does not matter.

    Decoders that first skip some items and later read them again from a reader
    for exactly the skipped bytes ([br_table], constant expressions, element
    segments) are correct because the readers are local. *)

From Stdlib Require Import ZArith Lia String.
From stdpp Require Import prelude.
From S2P Require Import Prelude Leb128 BinaryReader BinaryReaderSpec ReaderLogic Encode Types TypesSpec.
From S2P Require Import EncTypes Operands Operators OperatorReader Instructions Reencode OperandSpec.
From S2P Require Import OperandRoundtrip OperatorSpec InstrRoundtrip.

Local Open Scope Z_scope.

(** [r2] stands where [r] stands, and its remaining bytes start with [bs]. *)
Record at_bytes (r r2 : BinaryReader) (bs rest : list Z) : Prop := {
  at_wf : wf_reader r2;
  at_features : features r2 = features r;
  at_position : original_position r2 = original_position r;
  at_remaining : remaining_buffer r2 = bs ++ rest;
}.

(** A success of [m] consumes at least [p] bytes and is local. *)
Definition local {A} (p : nat) (m : Reader A) : Prop :=
  forall r a r', wf_reader r -> m r = (Ok a, r') ->
  exists bs, (p <= length bs)%nat
    /\ remaining_buffer r = bs ++ remaining_buffer r' /\ r' = advance (length bs) r
    /\ forall r2 rest, at_bytes r r2 bs rest -> m r2 = (Ok a, advance (length bs) r2).

Lemma at_bytes_advance r r2 bs bs' rest :
  at_bytes r r2 (bs ++ bs') rest ->
  at_bytes (advance (length bs) r) (advance (length bs) r2) bs' rest.
Proof.
  intros [Hwf2 Hf Hp Hb]. split.
  - apply wf_advance; [done|]. rewrite Hb, !length_app. lia.
  - done.
  - rewrite !advance_original_position. lia.
  - rewrite remaining_advance by apply Hwf2. by rewrite Hb, <- app_assoc, drop_app_length.
Qed.

Lemma at_bytes_weaken r r2 bs bs' rest :
  at_bytes r r2 (bs ++ bs') rest -> at_bytes r r2 bs (bs' ++ rest).
Proof. intros [Hwf Hf Hp Hb]. split; [done..|]. by rewrite Hb, app_assoc. Qed.

Lemma local_reader_wf {A} p (m : Reader A) r a r' :
  local p m -> wf_reader r -> m r = (Ok a, r') -> wf_reader r'.
Proof.
  intros Hm Hwf Hr. destruct (Hm r a r' Hwf Hr) as (bs & _ & E & -> & _).
  apply wf_advance; [done|]. rewrite E, length_app. lia.
Qed.

Lemma local_weaken {A} p (m : Reader A) : local p m -> local 0 m.
Proof.
  intros Hm r a r' Hwf Hr. destruct (Hm r a r' Hwf Hr) as (bs & _ & H).
  exists bs. split; [lia|done].
Qed.

Lemma local_ret {A} (a : A) : local 0 (mret a).
Proof.
  intros r b r' Hwf [= <- <-]. exists []. rewrite !advance_0. repeat split; [done|].
  intros r2 rest _. by rewrite advance_0.
Qed.

Lemma local_fail {A} p e : local p (fail (A := A) e).
Proof. intros r a r' Hwf Hr. discriminate. Qed.

Lemma local_panic {A} p : local p (panic (A := A)).
Proof. intros r a r' Hwf Hr. discriminate. Qed.

Lemma local_bind_gen {A B} p q (m : Reader A) (g : A -> Reader B) :
  local p m -> (forall a, local q (g a)) -> local (p + q) (m ≫= g).
Proof.
  intros Hm Hg r b r' Hwf Hr. unfold mbind, ST_bind in Hr.
  destruct (m r) as [[a|e|] r1] eqn:Em; try done.
  pose proof (local_reader_wf p m r a r1 Hm Hwf Em) as Hwf1.
  destruct (Hm r a r1 Hwf Em) as (bs & Hp & E1 & -> & H1).
  destruct (Hg a _ b r' Hwf1 Hr) as (bs' & Hq & E2 & -> & H2).
  exists (bs ++ bs'). split; [rewrite length_app; lia|].
  split; [by rewrite <- app_assoc, <- E2|]. split; [by rewrite advance_advance, length_app|].
  intros r2 rest Hat. unfold mbind, ST_bind.
  rewrite (H1 r2 (bs' ++ rest)) by by apply at_bytes_weaken.
  rewrite (H2 (advance (length bs) r2) rest), advance_advance, length_app; [done|].
  by apply at_bytes_advance.
Qed.

(** The first or the second reader consumes. *)
Lemma local_bind_l {A B} (m : Reader A) (g : A -> Reader B) :
  local 1 m -> (forall a, local 0 (g a)) -> local 1 (m ≫= g).
Proof. apply (local_bind_gen 1 0). Qed.

Lemma local_bind_r {A B} p (m : Reader A) (g : A -> Reader B) :
  local 0 m -> (forall a, local p (g a)) -> local p (m ≫= g).
Proof. apply (local_bind_gen 0 p). Qed.

Lemma local_map_err {A} p g (m : Reader A) : local p m -> local p (map_err g m).
Proof.
  intros Hm r a r' Hwf Hr. unfold map_err in *.
  destruct (m r) as [[b|e|] r1] eqn:Em; try done. injection Hr as <- <-.
  destruct (Hm r b r1 Hwf Em) as (bs & Hp & E & -> & H). exists bs. repeat split; [done..|].
  intros r2 rest Hat. by rewrite (H r2 rest Hat).
Qed.

(** What a reader may ask of its state. *)
Lemma local_gets {A} (g : BinaryReader -> A) :
  (forall r r2, features r2 = features r -> original_position r2 = original_position r ->
     g r2 = g r) -> local 0 (gets g).
Proof.
  intros Hg r a r' Hwf [= <- <-]. exists []. rewrite !advance_0. repeat split; [done|].
  intros r2 rest [_ Hf Hp _]. unfold gets. by rewrite advance_0, (Hg r r2).
Qed.

Lemma local_position : local 0 (gets original_position).
Proof. by apply local_gets. Qed.

Lemma local_features : local 0 (gets features).
Proof. by apply local_gets. Qed.

Lemma local_fail_prev {A} p m : local p (fail_prev (A := A) m).
Proof. apply local_bind_r; [apply local_position|]. intros. apply local_fail. Qed.

Lemma local_invalid_leading_byte {A} p b d : local p (invalid_leading_byte (A := A) b d).
Proof. apply local_bind_r; [apply local_position|]. intros. apply local_fail. Qed.

(** ** Primitive reads *)

Lemma local_u8 : local 1 read_u8.
Proof.
  intros r a r' Hwf Hr. destruct (remaining_buffer r) as [|b rest] eqn:E.
  { rewrite read_u8_nil in Hr by (done || apply Hwf). done. }
  rewrite (read_u8_cons r b rest) in Hr by (done || apply Hwf). injection Hr as <- <-.
  exists [b]. split; [done|].
  split; [by rewrite (remaining_advance_cons r b rest) by (done || apply Hwf)|].
  split; [done|]. intros r2 rest2 [Hwf2 _ _ E2]. apply (reads_u8 (features r2) b r2 rest2); done.
Qed.

(** Looking at the next byte is local when that byte is consumed later. *)
Lemma local_peek {B} (g : Z -> Reader B) : (forall b, local 1 (g b)) -> local 1 (peek ≫= g).
Proof.
  intros Hg r a r' Hwf Hr. unfold mbind, ST_bind in Hr.
  destruct (peek r) as [[b|e|] r1] eqn:Ep; try done.
  destruct (remaining_buffer r) as [|b0 rest] eqn:E.
  { unfold peek, ensure_has_byte, mbind, ST_bind in Ep.
    pose proof (remaining_length r Hwf) as Hl. rewrite E in Hl. simpl in Hl.
    destruct (Z.ltb_spec (position r) (buffer_len r)); [lia|done]. }
  rewrite (peek_cons r b0 rest) in Ep by done. injection Ep as <- <-.
  destruct (Hg b0 r a r' Hwf Hr) as (bs & Hp & E1 & -> & H).
  exists bs. rewrite <- E. repeat split; [done..|]. intros r2 rest2 Hat.
  destruct bs as [|b1 bs]; [simpl in Hp; lia|].
  assert (b1 = b0) as -> by (rewrite E in E1; by injection E1).
  unfold mbind, ST_bind. destruct Hat as [Hwf2 Hf2 Hp2 Hb2] eqn:?.
  rewrite (peek_cons r2 b0 (bs ++ rest2)) by done. by apply (H r2 rest2).
Qed.

(** A reader whose success is a function [F] of a LEB128 string. *)
Lemma leb_local rd m (F : list Z -> option Z) :
  (forall r a r', wf_reader r -> rd r = (Ok a, r') <->
     exists n, leb_scan m (remaining_buffer r) = Done n
       /\ F (take n (remaining_buffer r)) = Some a /\ r' = advance n r) ->
  local 1 rd.
Proof.
  intros Hrd r a r' Hwf Hr. apply Hrd in Hr as (n & Es & Ha & ->); [|done].
  pose proof (leb_scan_done _ _ _ Es) as [Hn0 Hn].
  exists (take n (remaining_buffer r)). rewrite length_take, Nat.min_l by done.
  split; [lia|]. split; [by rewrite remaining_advance, take_drop by apply Hwf|].
  split; [done|]. intros r2 rest [Hwf2 _ _ E2]. apply Hrd; [done|]. exists n.
  rewrite E2, (leb_scan_prefix _ _ _ _ Es).
  by rewrite take_app_le, take_take, Nat.min_id by (rewrite length_take; lia).
Qed.

Definition u_value (w : Z) (bs : list Z) : option Z :=
  if bool_decide (in_u w (uleb_val bs)) then Some (uleb_val bs) else None.
Definition i_value (w : Z) (bs : list Z) : option Z :=
  if bool_decide (in_i w (sleb_val bs)) then Some (sleb_val bs) else None.
Definition s33_result (bs : list Z) : option Z :=
  if bool_decide (in_i 33 (sleb_val bs)) then Some (s33_value bs) else None.

Ltac leb_local_by n V spec :=
  apply (leb_local _ n V); intros r a r' Hwf; rewrite spec by exact Hwf;
  unfold u_value, i_value, s33_result, leb_u_spec, leb_i_spec, s33_spec;
  destruct (leb_scan n (remaining_buffer r)) as [k| |];
  [|by split; [|intros (? & ? & _)]..];
  split; [intros Hr; exists k; revert Hr|intros (k' & [= <-] & Hr & ->); revert Hr];
  case_bool_decide; naive_solver.

Lemma local_var_u32 : local 1 read_var_u32.
Proof. leb_local_by 5%nat (u_value 32) read_var_u32_spec. Qed.

Lemma local_var_u64 : local 1 read_var_u64.
Proof. leb_local_by 10%nat (u_value 64) read_var_u64_spec. Qed.

Lemma local_var_i32 : local 1 read_var_i32.
Proof. leb_local_by 5%nat (i_value 32) read_var_i32_spec. Qed.

Lemma local_var_i64 : local 1 read_var_i64.
Proof. leb_local_by 10%nat (i_value 64) read_var_i64_spec. Qed.

Lemma local_var_s33 : local 1 read_var_s33.
Proof. leb_local_by 5%nat s33_result read_var_s33_spec. Qed.

(** A fixed number of bytes that is read, or not, as a whole. *)
Lemma local_fixed {A} (m : Reader A) n (g : list Z -> A) :
  0 <= n ->
  (forall r bs rest, wf_reader r -> remaining_buffer r = bs ++ rest ->
     Z.of_nat (length bs) = n -> m r = (Ok (g bs), advance (length bs) r)) ->
  (forall r a r', m r = (Ok a, r') -> position r + n <= buffer_len r) ->
  local (Z.to_nat n) m.
Proof.
  intros Hn Hok Hlen r a r' Hwf Hr. pose proof (Hlen r a r' Hr) as Hl.
  pose proof (remaining_length r Hwf) as Hrem.
  set (bs := take (Z.to_nat n) (remaining_buffer r)).
  assert (Hbs : Z.of_nat (length bs) = n) by (unfold bs; rewrite length_take; lia).
  assert (E : remaining_buffer r = bs ++ drop (Z.to_nat n) (remaining_buffer r))
    by (unfold bs; by rewrite take_drop).
  rewrite (Hok r bs _ Hwf E Hbs) in Hr. injection Hr as <- <-.
  exists bs. split; [lia|]. split.
  { rewrite remaining_advance by apply Hwf. by replace (length bs) with (Z.to_nat n) by lia. }
  split; [done|]. intros r2 rest [Hwf2 _ _ E2]. by apply (Hok r2 bs rest).
Qed.

Lemma ensure_has_bytes_inv n r r' : ensure_has_bytes n r = (Ok tt, r') -> position r + n <= buffer_len r.
Proof. unfold ensure_has_bytes. destruct (Z.leb_spec (position r + n) (buffer_len r)); done. Qed.

Lemma local_bytes n : 0 <= n -> local 0 (read_bytes n).
Proof.
  intros Hn. eapply local_weaken, (local_fixed _ n id); [done| |].
  - intros r bs rest Hwf E Hl. by apply (reads_bytes (features r) bs n) with rest.
  - intros r a r' Hr. unfold read_bytes, mbind, ST_bind in Hr.
    destruct (ensure_has_bytes n r) as [[[]|e|] r1] eqn:Ee; try done.
    by eapply ensure_has_bytes_inv.
Qed.

Lemma local_u32 : local 1 read_u32.
Proof.
  intros r a r' Hwf Hr.
  destruct (local_fixed read_u32 4 from_le_bytes ltac:(done)) with r a r'
    as (bs & Hl & H); [..|exists bs; split; [lia|done]]; try done.
  - intros r2 bs rest Hwf2 E Hl. apply (reads_u32 (features r2) bs) with rest; [lia|done..].
  - intros r2 b r2' Hr2. unfold read_u32, mbind, ST_bind in Hr2.
    destruct (ensure_has_bytes 4 r2) as [[[]|e|] r3] eqn:Ee; try done.
    by eapply ensure_has_bytes_inv.
Qed.

Lemma local_u64 : local 1 read_u64.
Proof.
  intros r a r' Hwf Hr.
  destruct (local_fixed read_u64 8 from_le_bytes ltac:(done)) with r a r'
    as (bs & Hl & H); [..|exists bs; split; [lia|done]]; try done.
  - intros r2 bs rest Hwf2 E Hl. apply (reads_u64 (features r2) bs) with rest; [lia|done..].
  - intros r2 b r2' Hr2. unfold read_u64, mbind, ST_bind in Hr2.
    destruct (ensure_has_bytes 8 r2) as [[[]|e|] r3] eqn:Ee; try done.
    by eapply ensure_has_bytes_inv.
Qed.

(** A reader for the bytes skipped is the same wherever they were skipped. *)
Lemma local_skip p m : local p m -> local p (skip m).
Proof.
  intros Hm r br r' Hwf Hr. unfold skip, mbind, ST_bind, gets in Hr.
  destruct (m r) as [[[]|e|] r1] eqn:Em; try done. injection Hr as <- <-.
  destruct (Hm r tt r1 Hwf Em) as (bs & Hp & E & -> & H).
  exists bs. split; [done|]. split; [done|]. split; [done|].
  intros r2 rest Hat. unfold skip, mbind, ST_bind, gets. rewrite (H r2 rest Hat).
  destruct Hat as [Hwf2 Hf Hpos E2]. do 3 f_equal.
  - cbn [position buffer set_position advance].
    by rewrite (slice_ok r2 bs rest), (slice_ok r bs _ Hwf E).
  - unfold original_position in Hpos. simpl. lia.
  - done.
Qed.

(** * Types, operands and operators are decoded locally (Locality.v). *)

(** ** Automation *)

Create HintDb locality discriminated.
#[export] Hint Constants Opaque : locality.

Lemma local_ok_or_err {A} (o : option A) m pos : local 0 (ok_or_err o m pos).
Proof. destruct o; [apply local_ret|apply local_fail]. Qed.

Lemma local_position_fail {A} p (e : Z -> BinaryReaderError) :
  local p (pos ← gets position; fail (A := A) (e pos)).
Proof. intros r a r' Hwf Hr. discriminate. Qed.

#[export] Hint Resolve local_u8 local_var_u32 local_var_u64 local_var_i32 local_var_i64
  local_var_s33 local_u32 local_u64 local_ok_or_err local_ret : locality.

Ltac local_step :=
  match goal with
  | |- local _ (fail _) => apply local_fail
  | |- local _ panic => apply local_panic
  | |- local _ (fail_prev _) => apply local_fail_prev
  | |- local _ (invalid_leading_byte _ _) => apply local_invalid_leading_byte
  | |- local 0 (mret _) => apply local_ret
  | |- local 1 (peek ≫= _) => apply local_peek; intros ?
  | |- local 0 (peek ≫= _) => apply (local_weaken 1), local_peek; intros ?
  | |- local _ (gets original_position ≫= _) => apply local_bind_r; [apply local_position|intros ?]
  | |- local _ (gets features ≫= _) => apply local_bind_r; [apply local_features|intros ?]
  | |- local _ (gets position ≫= _) => apply local_position_fail
  | |- local 1 (mret _ ≫= _) => apply local_bind_r; [apply local_ret|intros ?]
  | |- local _ ((if ?b then _ else _) ≫= _) => destruct b
  | |- local _ ((match ?x with _ => _ end) ≫= _) => destruct x
  | |- local _ (if ?b then _ else _) => destruct b
  | |- local _ (match ?x with _ => _ end) => destruct x
  | |- local 1 (_ ≫= _) => apply local_bind_l; [|intros ?]
  | |- local 0 (_ ≫= _) => apply local_bind_r; [|intros ?]
  | |- local 1 (map_err _ _) => apply local_map_err
  | |- local _ (skip _) => apply local_skip
  | |- local _ _ => solve [auto 2 with locality]
  | |- local 0 _ => apply (local_weaken 1)
  end.
Ltac local_run := repeat local_step.

Lemma local_ext {A} p (m m' : Reader A) :
  (forall r, wf_reader r -> m r = m' r) -> local p m' -> local p m.
Proof.
  intros E Hm r a r' Hwf Hr. rewrite E in Hr by done.
  destruct (Hm r a r' Hwf Hr) as (bs & Hp & E1 & -> & H). exists bs.
  split; [done|]. split; [done|]. split; [done|].
  intros r2 rest Hat. rewrite E by apply Hat. by apply (H r2 rest).
Qed.

(** ** Types *)

Lemma local_abstract_heap_type : local 1 from_reader_abstract_heap_type.
Proof. unfold from_reader_abstract_heap_type. local_run. Qed.

Lemma abstract_heap_type_first r t r' :
  wf_reader r -> from_reader_abstract_heap_type r = (Ok t, r') ->
  exists b rest, remaining_buffer r = b :: rest /\ 64 <= b < 128.
Proof.
  intros Hwf. unfold from_reader_abstract_heap_type, mbind, ST_bind.
  destruct (remaining_buffer r) as [|b rest] eqn:E.
  { by rewrite read_u8_nil by (done || apply Hwf). }
  rewrite (read_u8_cons r b rest) by (done || apply Hwf). intros Hr. exists b, rest.
  split; [done|]. destruct b as [|p|p]; [discriminate| |discriminate].
  repeat (destruct p as [p|p|]; try discriminate); lia.
Qed.

(** An abstract heap type, or its [shared] prefix, is one byte of an [s33]. *)
Lemma abstract_part_first r h r' :
  wf_reader r ->
  (b ← peek;
   match b with
   | 0x65 => read_u8;; ty ← from_reader_abstract_heap_type; mret (Abstract true ty)
   | _ => ty ← map_err (reclassify "invalid heap type") from_reader_abstract_heap_type;
          mret (Abstract false ty)
   end) r = (Ok h, r') ->
  exists b rest, remaining_buffer r = b :: rest /\ 64 <= b < 128.
Proof.
  intros Hwf. destruct (remaining_buffer r) as [|b rest] eqn:E.
  { unfold peek, ensure_has_byte, mbind, ST_bind.
    pose proof (remaining_length r Hwf) as Hl. rewrite E in Hl. simpl in Hl.
    by destruct (Z.ltb_spec (position r) (buffer_len r)); [lia|]. }
  unfold mbind, ST_bind. rewrite (peek_cons r b rest) by done. intros Hr. exists b, rest.
  split; [done|]. destruct (Z.eq_dec b 0x65) as [->|Hb]; [lia|].
  assert (Hd : forall X Y : Reader HeapType, match b with 0x65 => X | _ => Y end = Y).
  { intros X Y. byte_default (eq_refl Y). }
  rewrite Hd in Hr. unfold map_err in Hr.
  destruct (from_reader_abstract_heap_type r) as [[t|e|] r1] eqn:Ha; try done.
  destruct (abstract_heap_type_first r t r1 Hwf Ha) as (b' & rest' & E' & Hb').
  rewrite E in E'. by injection E' as -> ->.
Qed.

Lemma local_heap_type : local 1 from_reader_heap_type.
Proof.
  intros r h r' Hwf Hr. unfold from_reader_heap_type in Hr.
  destruct (read_var_s33 r) as [[s33|e|] clone] eqn:Es; try done.
  destruct (u32_try_from s33) as [idx|] eqn:Ei.
  - destruct (from_module_index idx) as [p|] eqn:Ep; [|done].
    destruct (unpack p) as [u|] eqn:Eu; [|done]. injection Hr as <- <-.
    destruct (local_var_s33 r s33 clone Hwf Es) as (bs & Hl & E & -> & H).
    exists bs. split; [done|]. split; [done|]. split; [done|]. intros r2 rest Hat.
    unfold from_reader_heap_type. by rewrite (H r2 rest Hat), Ei, Ep, Eu.
  - match type of Hr with ?m r = _ => assert (Hm : local 1 m) end.
    { pose proof local_abstract_heap_type. local_run; done. }
    destruct (abstract_part_first r h r' Hwf Hr) as (b & rest0 & E0 & Hb).
    destruct (Hm r h r' Hwf Hr) as (bs & Hl & E & -> & H).
    exists bs. split; [done|]. split; [done|]. split; [done|]. intros r2 rest Hat.
    unfold from_reader_heap_type. destruct bs as [|b1 bs]; [simpl in Hl; lia|].
    assert (b1 = b) as -> by (rewrite E0 in E; by injection E).
    destruct (read_var_s33_neg r2 b (bs ++ rest)) as (v & -> & ->); [apply Hat|done|apply Hat|].
    by apply (H r2 rest).
Qed.

#[export] Hint Resolve local_heap_type : locality.

Lemma local_ref_type : local 1 from_reader_ref_type.
Proof. unfold from_reader_ref_type. local_run. Qed.
#[export] Hint Resolve local_ref_type : locality.

Lemma local_val_type : local 1 from_reader_val_type.
Proof. unfold from_reader_val_type. local_run. Qed.
#[export] Hint Resolve local_val_type : locality.

(** The byte that was peeked is consumed. *)
Lemma local_block_type : local 1 read_block_type.
Proof.
  apply (local_ext _ _ (b ← peek;
    if (Z.land b 0x80 =? 0) && negb (Z.land b 0x40 =? 0) then
      if b =? 0x40 then read_u8;; mret BT_Empty
      else t ← from_reader_val_type; mret (BT_Type t)
    else
      idx ← read_var_s33;
      match u32_try_from idx with
      | Some idx => mret (BT_FuncType idx)
      | None => pos ← gets original_position; fail (err_new (lit "invalid function type") pos)
      end)).
  - intros r Hwf. unfold read_block_type, mbind, ST_bind.
    destruct (remaining_buffer r) as [|b rest] eqn:E.
    { unfold peek, ensure_has_byte, mbind, ST_bind.
      pose proof (remaining_length r Hwf) as Hl. rewrite E in Hl. simpl in Hl.
      by destruct (Z.ltb_spec (position r) (buffer_len r)); [lia|]. }
    rewrite (peek_cons r b rest) by done. destruct (_ && _); [|done].
    destruct (b =? 0x40); [|done]. unfold mbind, ST_bind.
    by rewrite (read_u8_cons r b rest) by (done || apply Hwf).
  - local_run.
Qed.

(** ** Operands *)

#[export] Hint Resolve local_block_type : locality.

Lemma local_memarg a : local 1 (read_memarg a).
Proof. unfold read_memarg. local_run. Qed.

Lemma local_ordering : local 1 read_ordering.
Proof. unfold read_ordering. local_run. Qed.

Lemma local_lane max : local 1 (read_lane_index max).
Proof. unfold read_lane_index. local_run. Qed.
#[export] Hint Resolve local_memarg local_ordering local_lane : locality.

Lemma local_lanes n : local 0 (read_lanes n).
Proof. induction n; cbn [read_lanes]; local_run. Qed.

Lemma local_v128 : local 0 read_v128.
Proof. by apply local_bytes. Qed.

Lemma local_zero_byte : local 1 zero_byte_expected.
Proof. unfold zero_byte_expected. local_run. Qed.
#[export] Hint Resolve local_lanes local_v128 local_zero_byte : locality.

Lemma local_memory_index : local 1 read_memory_index_or_zero_if_not_multi_memory.
Proof. unfold read_memory_index_or_zero_if_not_multi_memory. local_run. Qed.

Lemma local_table_index : local 1 read_table_index_or_zero_if_not_reference_types.
Proof. unfold read_table_index_or_zero_if_not_reference_types. local_run. Qed.

Lemma local_size limit desc : local 1 (read_size limit desc).
Proof. unfold read_size. local_run. Qed.
#[export] Hint Resolve local_memory_index local_table_index local_size : locality.

Lemma local_read_n {A} `{FromReader A} n : local 1 (read (A := A)) -> local 0 (read_n (A := A) n).
Proof. intros Hr. induction n; cbn [read_n]; local_run; done. Qed.

Lemma local_iter {A} `{FromReader A} limit desc :
  local 1 (read (A := A)) -> local 1 (read_iter (A := A) limit desc).
Proof.
  intros Hr. unfold read_iter. apply local_bind_l; [apply local_size|]. intros n.
  by apply local_read_n.
Qed.

Lemma local_catch : local 1 from_reader_catch.
Proof. unfold from_reader_catch. local_run. Qed.

Lemma local_handle : local 1 from_reader_handle.
Proof. unfold from_reader_handle. local_run. Qed.

Lemma local_try_table : local 1 from_reader_try_table.
Proof.
  unfold from_reader_try_table. local_run. apply local_iter, local_catch.
Qed.

Lemma local_resume_table : local 1 from_reader_resume_table.
Proof.
  unfold from_reader_resume_table. local_run. apply local_iter, local_handle.
Qed.

Lemma local_br_on_cast : local 1 read_br_on_cast.
Proof. unfold read_br_on_cast. local_run. Qed.

Lemma local_skip_var_u32s n : local 0 (skip_var_u32s n).
Proof. induction n; cbn [skip_var_u32s]; local_run. Qed.
#[export] Hint Resolve local_try_table local_resume_table local_br_on_cast
  local_skip_var_u32s : locality.

Lemma local_br_table : local 1 read_br_table.
Proof. unfold read_br_table. local_run. Qed.
#[export] Hint Resolve local_br_table : locality.

(** ** Operators *)

Lemma local_f32 : local 1 read_f32.
Proof. exact local_u32. Qed.

Lemma local_f64 : local 1 read_f64.
Proof. exact local_u64. Qed.
#[export] Hint Resolve local_f32 local_f64 : locality.

Section visit.
Context {A : Type} (simd_visitor : bool) (visit : Op.Operator -> A).

Lemma local_visit_0xfb pos : local 1 (visit_0xfb_operator visit pos).
Proof. unfold visit_0xfb_operator. local_run. Qed.

Lemma local_visit_0xfc pos : local 1 (visit_0xfc_operator visit pos).
Proof. unfold visit_0xfc_operator. local_run. Qed.

Lemma local_visit_0xfd pos : local 1 (visit_0xfd_operator visit pos).
Proof. unfold visit_0xfd_operator. local_run. Qed.

Lemma local_visit_0xfe pos : local 1 (visit_0xfe_operator visit pos).
Proof. unfold visit_0xfe_operator. local_run. Qed.

Local Hint Resolve local_visit_0xfb local_visit_0xfc local_visit_0xfd local_visit_0xfe : locality.

Lemma local_visit_operator : local 1 (visit_operator simd_visitor visit).
Proof. unfold visit_operator. local_run. Qed.
End visit.

Lemma local_operator : local 1 read_operator.
Proof. apply local_visit_operator. Qed.

(** * The operator [end] is the byte 0x0b, and no other byte decodes to it.
    [skip_const_expr] looks for the operator, [is_end_then_eof] for the byte. *)

Section not_end.
Context (E : BinaryReaderError -> Prop) (r0 : BinaryReader).
Hypothesis Henv : wp_env E r0.

(** No decoder of a prefixed opcode produces [end]. *)
Let not_end : Op.Operator -> nat -> Prop := fun op _ => op <> Op.End.

Ltac not_end := unfold not_end; discriminate.

Lemma fb_not_end k pos :
  original_position r0 <= pos <= original_position r0 + Z.of_nat k ->
  wp E r0 k (visit_0xfb_operator id pos) not_end.
Proof. intros Hp. unfold visit_0xfb_operator. wp_run; not_end. Qed.

Lemma fc_not_end k pos :
  original_position r0 <= pos <= original_position r0 + Z.of_nat k ->
  wp E r0 k (visit_0xfc_operator id pos) not_end.
Proof. intros Hp. unfold visit_0xfc_operator. wp_run; not_end. Qed.

Lemma fd_not_end k pos :
  original_position r0 <= pos <= original_position r0 + Z.of_nat k ->
  wp E r0 k (visit_0xfd_operator id pos) not_end.
Proof. intros Hp. unfold visit_0xfd_operator. wp_run; not_end. Qed.

Lemma fe_not_end k pos :
  original_position r0 <= pos <= original_position r0 + Z.of_nat k ->
  wp E r0 k (visit_0xfe_operator id pos) not_end.
Proof. intros Hp. unfold visit_0xfe_operator. wp_run; not_end. Qed.

Hypothesis Harity : forall off, position r0 <= off <= buffer_len r0 ->
  E (err_new (lit "invalid result arity") off).

Lemma wp_first_byte b rest (Q : Z -> nat -> Prop) :
  remaining_buffer r0 = b :: rest -> Q b 1%nat -> wp E r0 0 read_u8 Q.
Proof.
  intros Hr HQ Hk. rewrite advance_0.
  rewrite (read_u8_cons r0 b rest) by (done || apply (env_wf _ _ Henv)).
  exists 1%nat. rewrite Hr. split; [simpl; lia|]. by split.
Qed.

Lemma operator_not_end b rest :
  remaining_buffer r0 = b :: rest -> b <> 0x0b -> wp E r0 0 read_operator not_end.
Proof.
  intros Hr Hb. unfold read_operator, visit_operator. wp_step. wp_step. wp_step.
  apply (wp_first_byte b rest); [done|].
  wp_run; first [ by exfalso; apply Hb | not_end
    | apply fb_not_end; lia | apply fc_not_end; lia
    | apply fd_not_end; lia | apply fe_not_end; lia | idtac ].
  all: by apply wp_invalid_arity.
Qed.
End not_end.

(** [end] is read from exactly the byte 0x0b. *)
Lemma read_end r r' :
  wf_reader r -> read_operator r = (Ok (Op.End : Op.Operator), r') ->
  remaining_buffer r = 0x0b :: remaining_buffer r'.
Proof.
  intros Hwf Hr.
  destruct (remaining_buffer r) as [|b rest] eqn:E.
  { unfold read_operator, visit_operator, mbind, ST_bind, gets in Hr.
    by rewrite read_u8_nil in Hr by (done || apply Hwf). }
  destruct (Z.eq_dec b 0x0b) as [->|Hb].
  - unfold read_operator, visit_operator, mbind, ST_bind, gets in Hr.
    rewrite (read_u8_cons r 0x0b rest) in Hr by (done || apply Hwf).
    injection Hr as <-. by rewrite (remaining_advance_cons r 0x0b rest) by (done || apply Hwf).
  - exfalso.
    destruct (operator_not_end (operator_error r) r (operator_env r Hwf)
      ltac:(intros off Hoff; by right) b rest E Hb ltac:(lia)) as (k & _ & _ & Hm).
    rewrite advance_0, Hr in Hm. by apply Hm.
Qed.

Lemma reads_end f : reads f read_operator [0x0b] (Op.End : Op.Operator).
Proof.
  intros r rest Hwf Hf E. unfold read_operator, visit_operator, mbind, ST_bind, gets.
  by rewrite (read_u8_cons r 0x0b rest) by (done || apply Hwf).
Qed.
