(* ===== verification/FunctionSpec.v ===== *)
(** Sequences of operators: constant expressions and function bodies.  What is
    decoded once is decoded again from the slice that was skipped, and survives
    translation, encoding and decoding. *)

From Stdlib Require Import ZArith Lia String.
From stdpp Require Import prelude.
From S2P Require Import Prelude Leb128 BinaryReader BinaryReaderSpec ReaderLogic Encode Types TypesSpec.
From S2P Require Import EncTypes Operands Operators OperatorReader Instructions Reencode OperandSpec.
From S2P Require Import OperandRoundtrip OperatorSpec InstrRoundtrip SectionReader Items EncSections.
From S2P Require Import ReencodeSections Locality.

Local Open Scope Z_scope.

Abbreviation end_op := (Op.End : Op.Operator).

(** ** Operators in sequence *)

Lemma read_operator_ok r op r' :
  wf_reader r -> read_operator r = (Ok op, r') ->
  wf_reader r' /\ features r' = features r /\ op_wf (features r) op.
Proof.
  intros Hwf Hr. pose proof (visit_operator_outcome r true id Hwf) as H.
  unfold read_operator in Hr. rewrite Hr in H. destruct H as (op' & k & -> & Hop & Hk & ->).
  split; [apply wf_advance; [done|lia]|]. by split.
Qed.

Lemma decodes_ok r ops r' :
  wf_reader r -> decodes r ops r' ->
  wf_reader r' /\ features r' = features r /\ Forall (op_wf (features r)) ops.
Proof.
  intros Hwf H. revert Hwf. induction H as [r|r op r1 ops r' Hop Hd IH]; intros Hwf; [done|].
  destruct (read_operator_ok r op r1 Hwf Hop) as (Hwf1 & Hf & Hw).
  destruct (IH Hwf1) as (Hwf' & Hf' & Hws). rewrite Hf in *.
  split; [done|]. split; [done|]. by constructor.
Qed.

Lemma decodes_local r ops r' :
  wf_reader r -> decodes r ops r' ->
  exists bs, (length ops <= length bs)%nat
    /\ remaining_buffer r = bs ++ remaining_buffer r' /\ r' = advance (length bs) r
    /\ forall r2 rest, at_bytes r r2 bs rest -> decodes r2 ops (advance (length bs) r2).
Proof.
  intros Hwf H. revert Hwf. induction H as [r|r op r1 ops r' Hop Hd IH]; intros Hwf.
  - exists []. rewrite advance_0. split; [done|]. split; [done|]. split; [done|].
    intros r2 rest _. rewrite advance_0. constructor.
  - destruct (read_operator_ok r op r1 Hwf Hop) as (Hwf1 & _).
    destruct (local_operator r op r1 Hwf Hop) as (bs & Hl & E & -> & H).
    destruct (IH Hwf1) as (bs' & Hl' & E' & -> & H').
    exists (bs ++ bs'). split; [rewrite length_app; simpl; lia|].
    split; [by rewrite <- app_assoc, <- E'|].
    split; [by rewrite advance_advance, length_app|]. intros r2 rest Hat.
    econstructor; [apply (H r2 (bs' ++ rest)); by apply at_bytes_weaken|].
    rewrite length_app, <- advance_advance. apply (H' _ rest). by apply at_bytes_advance.
Qed.

Lemma remaining_nil_eof r : wf_reader r -> eof r = bool_decide (remaining_buffer r = []).
Proof.
  intros Hwf. pose proof (remaining_length r Hwf) as Hl. unfold eof.
  destruct (remaining_buffer r); simpl in Hl; case_bool_decide; try done;
    destruct (Z.leb_spec (buffer_len r) (position r)); (done || lia).
Qed.

(** Collecting the operators of a reader is decoding it to its end. *)
Lemma operators_collect_loop_ok fuel r :
  wf_reader r -> (length (remaining_buffer r) < fuel)%nat ->
  match operators_collect_loop fuel (mkOperatorsIterator (mkOperatorsReader r) false) with
  | Ok ops => exists r', decodes r ops r' /\ remaining_buffer r' = []
  | Err e => exists ops r1 r2, decodes r ops r1 /\ read_operator r1 = (Err e, r2)
  | Panic => False
  end.
Proof.
  revert r. induction fuel as [|fuel IH]; intros r Hwf Hl; [lia|].
  cbn [operators_collect_loop]. unfold operators_next, operators_eof, operators_read.
  cbn [ops_err ops_reader op_reader orb]. rewrite remaining_nil_eof by done.
  case_bool_decide as He; [exists r; split; [constructor|done]|].
  pose proof (visit_operator_outcome r true id Hwf) as Ho. fold read_operator in Ho.
  destruct (read_operator r) as [[op|e|] r1] eqn:Er; [| |done]; cbn [is_err].
  2: { exists [], r, r1. split; [constructor|done]. }
  destruct Ho as (op' & k & _ & _ & Hk & ->).
  specialize (IH (advance k r) ltac:(by apply wf_advance; [|lia])).
  rewrite remaining_advance, length_drop in IH by apply Hwf. specialize (IH ltac:(lia)).
  destruct (operators_collect_loop fuel _) as [ops|e|]; [| |done].
  - destruct IH as (r' & Hd & Hn). exists r'. split; [by econstructor|done].
  - destruct IH as (ops & r1 & r2 & Hd & Hn). exists (op :: ops), r1, r2.
    split; [by econstructor|done].
Qed.

(** An operator is not read from an empty reader. *)
Lemma read_operator_nil r op r' :
  wf_reader r -> remaining_buffer r = [] -> read_operator r <> (Ok op, r').
Proof.
  intros Hwf E Hr. destruct (local_operator r op r' Hwf Hr) as (bs & Hl & E' & _).
  rewrite E in E'. destruct bs; [simpl in Hl; lia|discriminate].
Qed.

Lemma operators_collect_ok r ops r' :
  wf_reader r -> decodes r ops r' -> remaining_buffer r' = [] ->
  operators_collect (mkOperatorsReader r) = Ok ops.
Proof.
  intros Hwf Hd He.
  assert (H : forall fuel, (length ops < fuel)%nat ->
    operators_collect_loop fuel (mkOperatorsIterator (mkOperatorsReader r) false) = Ok ops).
  { revert Hwf. induction Hd as [r|r op ra ops r' Hop Hd IH]; intros Hwf [|fuel] Hl; try lia;
      cbn [operators_collect_loop]; unfold operators_next, operators_eof, operators_read;
      cbn [ops_err ops_reader op_reader orb]; rewrite remaining_nil_eof by done.
    - by rewrite bool_decide_eq_true_2.
    - rewrite bool_decide_eq_false_2.
      2: { intros En. by destruct (read_operator_nil r op ra Hwf En). }
      destruct (read_operator_ok r op ra Hwf Hop) as (Hwfa & _).
      rewrite Hop. cbn [is_err]. rewrite IH; [done|done|done|simpl in Hl; lia]. }
  apply H. destruct (decodes_local r ops r' Hwf Hd) as (bs & Hl & E & _).
  rewrite He, app_nil_r in E. cbn [op_reader]. rewrite E. lia.
Qed.

(** Two readers whose operators are the same up to [op_equiv]. *)
Definition operators_equiv (o o' : OperatorsReader) : Prop :=
  exists ops ops', operators_collect o = Ok ops /\ operators_collect o' = Ok ops'
    /\ Forall2 op_equiv ops ops'.

Section roundtrip.
Context {L : Leb128} {LS : Leb128Spec L}.

(** The bytes of one translated operator. *)
Definition op_bytes (op : Op.Operator) : Enc := enc_of (instruction op).

(** Translated and encoded operators are decoded again. *)
Lemma ops_roundtrip f ops :
  Forall (op_wf f) ops ->
  exists bs, encode_items op_bytes ops = Some bs
    /\ forall r rest, wf_reader r -> features r = f -> remaining_buffer r = bs ++ rest ->
       exists ops', decodes r ops' (advance (length bs) r) /\ Forall2 op_equiv ops ops'.
Proof.
  induction 1 as [|op ops Hop _ IH].
  - exists []. split; [done|]. intros r rest Hwf Hf E. exists [].
    rewrite advance_0. split; constructor.
  - destruct IH as (bs' & E' & IH).
    destruct (operator_roundtrip_ex f op Hop) as (i & bs & Ei & Eb & Hrd).
    exists (bs ++ bs'). cbn [encode_items]. unfold op_bytes at 1. rewrite Ei. cbn [enc_of].
    rewrite Eb, E'. split; [done|]. intros r rest Hwf Hf E. rewrite <- app_assoc in E.
    destruct (Hrd r (bs' ++ rest) Hwf Hf E) as (op' & Hop' & Heq).
    destruct (read_operator_ok r op' _ Hwf Hop') as (Hwf1 & Hf1 & _).
    destruct (IH (advance (length bs) r) rest) as (ops' & Hd & Heqs); [done|by rewrite Hf1| |].
    { rewrite remaining_advance by apply Hwf. by rewrite E, drop_app_length. }
    exists (op' :: ops'). rewrite length_app, <- advance_advance.
    split; [by econstructor|by constructor].
Qed.

Lemma op_bytes_instruction f op :
  op_wf f op -> exists i bs, instruction op = ROk i /\ Instr.encode_instruction i = Some bs
    /\ op_bytes op = Some bs.
Proof.
  intros Hop. destruct (operator_roundtrip_ex f op Hop) as (i & bs & Ei & Eb & _).
  exists i, bs. unfold op_bytes. by rewrite Ei.
Qed.

(** ** Constant expressions *)

(** The operators of a constant expression, before its [end]. *)
Record const_expr_ops (e : ConstExpr) (ops : list Op.Operator) : Prop := {
  expr_wf : wf_reader (expr_reader e);
  expr_decodes : decodes (expr_reader e) (ops ++ [end_op])
                   (advance (length (remaining_buffer (expr_reader e))) (expr_reader e));
  expr_no_end : end_op ∉ ops;
}.

(** What reading a constant expression establishes. *)
Definition const_expr_wf (f : WasmFeatures) (e : ConstExpr) : Prop :=
  features (expr_reader e) = f /\ exists ops, const_expr_ops e ops.

Definition const_expr_equiv (e e' : ConstExpr) : Prop :=
  operators_equiv (const_expr_operators_reader e) (const_expr_operators_reader e').

(** [skip_const_expr] stops after the first [end]. *)
Lemma skip_const_expr_ok r ops r' :
  wf_reader r -> decodes r (ops ++ [end_op]) r' -> end_op ∉ ops ->
  skip_const_expr r = (Ok tt, r').
Proof.
  intros Hwf Hd Hn. unfold skip_const_expr.
  destruct (decodes_local _ _ _ Hwf Hd) as (bs & Hl & E & _).
  assert (Hfuel : (length (ops ++ [end_op]) < S (length (remaining_buffer r)))%nat)
    by (rewrite E, (length_app bs); lia).
  clear Hl E bs Hwf. revert Hfuel. generalize (S (length (remaining_buffer r))).
  revert r Hd Hn. induction ops as [|op ops IH]; intros r Hd Hn [|fuel] Hfuel; try lia;
    cbn [skip_const_expr_loop]; unfold mbind, ST_bind; simpl in Hd.
  - inversion Hd as [|? ? r1 ? ? Hop Hd']; subst. rewrite Hop.
    inversion Hd'; subst. done.
  - inversion Hd as [|? ? r1 ? ? Hop Hd']; subst. rewrite Hop.
    apply not_elem_of_cons in Hn as [Hne Hn].
    rewrite <- (IH r1 Hd' Hn fuel) by (simpl in Hfuel; lia).
    by destruct op as [[]|o|o|o|o|o|o|o|o|o|o|o|o|o|o|o|o].
Qed.

(** The reader that [skip] returns. *)
Definition slice_reader (r : BinaryReader) (bs : list Z) : BinaryReader :=
  mkReader bs 0 (original_position r) (features r).

Lemma at_slice_reader r bs rest :
  wf_reader r -> remaining_buffer r = bs ++ rest -> at_bytes r (slice_reader r bs) bs [].
Proof.
  intros Hwf E. pose proof (remaining_length r Hwf) as Hl. rewrite E, length_app in Hl.
  pose proof (remaining_bytes r Hwf) as Hb. rewrite E in Hb. apply Forall_app in Hb as [Hb _].
  destruct Hwf as [Hp Ho He _]. split; [|done| |].
  - split; unfold slice_reader, buffer_len in *; simpl; unfold original_position; (lia || done).
  - unfold slice_reader, original_position. simpl. unfold original_position. lia.
  - unfold remaining_buffer. simpl. by rewrite app_nil_r.
Qed.

Lemma skip_ok m r bs rest :
  wf_reader r -> m r = (Ok tt, advance (length bs) r) -> remaining_buffer r = bs ++ rest ->
  skip m r = (Ok (slice_reader r bs), advance (length bs) r).
Proof.
  intros Hwf Hm E. unfold skip, mbind, ST_bind, gets. rewrite Hm. unfold slice_reader.
  cbn [advance set_position buffer position original_offset features].
  by rewrite (slice_ok r bs rest).
Qed.

Lemma skip_inv p m r br r' :
  local p m -> wf_reader r -> skip m r = (Ok br, r') ->
  exists bs, m r = (Ok tt, r') /\ br = slice_reader r bs /\ (p <= length bs)%nat
    /\ remaining_buffer r = bs ++ remaining_buffer r' /\ r' = advance (length bs) r.
Proof.
  intros Hm Hwf Hs. assert (Hm' : exists r1, m r = (Ok tt, r1)).
  { unfold skip, mbind, ST_bind, gets in Hs.
    destruct (m r) as [[[]|e|] r1]; [by exists r1|discriminate..]. }
  destruct Hm' as [r1 Hm']. destruct (Hm r tt r1 Hwf Hm') as (bs & Hp & E & -> & _).
  rewrite (skip_ok m r bs _ Hwf Hm' E) in Hs. injection Hs as <- <-. by exists bs.
Qed.

Lemma const_expr_loop_ok f fuel r ops r' acc :
  wf_reader r -> features r = f -> decodes r (ops ++ [end_op]) r' -> remaining_buffer r' = [] ->
  end_op ∉ ops -> (length ops < fuel)%nat ->
  exists bs, encode_items op_bytes ops = Some bs
    /\ const_expr_loop fuel (mkOperatorsReader r) acc = ROk (acc ++ bs).
Proof.
  revert fuel r acc. induction ops as [|op ops IH]; intros [|fuel] r acc Hwf Hf Hd He Hn Hl;
    simpl in Hl; try lia; cbn [const_expr_loop];
    inversion Hd as [|? ? r1 ? ? Hop Hd']; subst;
    unfold operators_is_end_then_eof, is_end_then_eof; cbn [op_reader].
  - inversion Hd'; subst. rewrite (read_end r r' Hwf Hop), He.
    rewrite bool_decide_eq_true_2 by done. exists []. by rewrite app_nil_r.
  - apply not_elem_of_cons in Hn as [Hne Hn].
    rewrite bool_decide_eq_false_2.
    2: { intros E. pose proof (reads_end (features r) r [] Hwf eq_refl E) as Hr.
         rewrite Hop in Hr. congruence. }
    destruct (read_operator_ok r op r1 Hwf Hop) as (Hwf1 & Hf1 & Hw).
    destruct (op_bytes_instruction _ _ Hw) as (i & bs & Ei & Eb & Ebs).
    destruct (IH fuel r1 (acc ++ bs) Hwf1 Hf1 Hd' He Hn ltac:(lia)) as (bs' & E' & Hloop).
    exists (bs ++ bs'). cbn [encode_items]. rewrite Ebs, E'. split; [done|].
    unfold parse_instruction, operators_read. cbn [op_reader]. rewrite Hop.
    cbn [from_result mbind outcome_bind]. rewrite Ei.
    cbn [mbind outcome_bind mret outcome_ret].
    rewrite Eb. cbn [unwrap_outcome mbind outcome_bind]. by rewrite Hloop, app_assoc.
Qed.

Lemma remaining_advance_all r :
  wf_reader r -> remaining_buffer (advance (length (remaining_buffer r)) r) = [].
Proof. intros Hwf. rewrite remaining_advance by apply Hwf. apply drop_all. Qed.

Lemma const_expr_collect e ops :
  const_expr_ops e ops ->
  operators_collect (const_expr_operators_reader e) = Ok (ops ++ [end_op]).
Proof.
  intros [Hwf Hd Hn]. eapply operators_collect_ok; [done..|]. by apply remaining_advance_all.
Qed.

(** Reading an expression whose operators are decoded from [bs]. *)
Lemma read_const_expr_ok r bs rest ops :
  wf_reader r -> remaining_buffer r = bs ++ rest -> end_op ∉ ops ->
  decodes r (ops ++ [end_op]) (advance (length bs) r) ->
  from_reader_const_expr r
    = (Ok (mkConstExpr (slice_reader r bs)), advance (length bs) r)
  /\ const_expr_ops (mkConstExpr (slice_reader r bs)) ops.
Proof.
  intros Hwf E Hn Hd. split.
  { unfold from_reader_const_expr, mbind, ST_bind.
    by rewrite (skip_ok _ _ _ _ Hwf (skip_const_expr_ok _ _ _ Hwf Hd Hn) E). }
  pose proof (at_slice_reader r _ _ Hwf E) as Hat.
  destruct (decodes_local _ _ _ Hwf Hd) as (bs2 & _ & E2 & _ & Hloc).
  assert (bs2 = bs) as ->.
  { rewrite remaining_advance in E2 by apply Hwf. rewrite E, drop_app_length in E2.
    by apply app_inv_tail in E2. }
  split; [apply Hat| |done]. cbn [expr_reader].
  rewrite (at_remaining _ _ _ _ Hat), app_nil_r. by apply (Hloc _ []).
Qed.

Lemma op_equiv_end ops ops' : Forall2 op_equiv ops ops' -> end_op ∉ ops -> end_op ∉ ops'.
Proof.
  intros Heq Hn Hin. apply Hn. apply list_elem_of_lookup in Hin as [j Hj].
  destruct (Forall2_lookup_r _ _ _ _ _ Heq Hj) as (op & Hopj & Ho).
  apply list_elem_of_lookup. exists j. rewrite Hopj. f_equal.
  unfold op_equiv in Ho. by destruct op as [[]|o|o|o|o|o|o|o|o|o|o|o|o|o|o|o|o].
Qed.

(** The encoding of a translated expression is read as an equivalent one. *)
Lemma reads_ops_end f ops bs :
  Forall (op_wf f) ops -> end_op ∉ ops -> encode_items op_bytes ops = Some bs ->
  reads_ex f from_reader_const_expr (bs ++ [0x0b]) (fun e' =>
    exists ops', const_expr_ops e' ops' /\ Forall2 op_equiv ops ops').
Proof.
  intros Hws Hn Eb r rest Hwf Hf E. rewrite <- app_assoc in E.
  destruct (ops_roundtrip f ops Hws) as (bs' & E' & Hrt).
  assert (bs' = bs) as -> by congruence.
  destruct (Hrt r ([0x0b] ++ rest) Hwf Hf E) as (ops' & Hd & Heq).
  destruct (decodes_ok _ _ _ Hwf Hd) as (Hwf1 & Hf1 & _).
  assert (Hend : read_operator (advance (length bs) r)
    = (Ok end_op, advance (length (bs ++ [0x0b])) r)).
  { rewrite (reads_end f _ rest), advance_advance, length_app; [done|done|congruence|].
    rewrite remaining_advance by apply Hwf. by rewrite E, drop_app_length. }
  rewrite app_assoc in E.
  destruct (read_const_expr_ok r (bs ++ [0x0b]) rest ops' Hwf E) as [Hr Hops].
  - by apply (op_equiv_end ops).
  - eapply decodes_app; [done|]. econstructor; [done|constructor].
  - eexists. split; [exact Hr|]. by exists ops'.
Qed.

(** A constant expression that was read is translated, and its encoding is read
    as an equivalent expression. *)
Lemma const_expr_roundtrip f e :
  const_expr_wf f e ->
  exists e' bs, const_expr e = ROk e' /\ WS.encode_const_expr e' = Some bs
    /\ reads_ex f from_reader_const_expr bs (const_expr_equiv e).
Proof.
  intros (Hf & ops & Hops). pose proof Hops as [Hwf Hd Hn].
  destruct (decodes_local _ _ _ Hwf Hd) as (bse & Hl & Ee & _).
  rewrite remaining_advance_all, app_nil_r in Ee by done. rewrite length_app in Hl. simpl in Hl.
  unfold const_expr, const_expr_operators_reader, OperatorsReader_new. cbn [op_reader].
  destruct (const_expr_loop_ok f (S (length (remaining_buffer (expr_reader e))))
    (expr_reader e) ops _ [] Hwf Hf Hd (remaining_advance_all _ Hwf) Hn) as (bs & Eb & ->);
    [rewrite Ee; lia|].
  exists (WS.ConstExpr_raw bs), (bs ++ [0x0b]). split; [done|]. split; [done|].
  destruct (decodes_ok _ _ _ Hwf Hd) as (_ & _ & Hws). rewrite Hf in Hws.
  apply Forall_app in Hws as [Hws _].
  intros r rest Hwfr Hfr Er.
  destruct (reads_ops_end f ops bs Hws Hn Eb r rest Hwfr Hfr Er) as (e' & Hr & ops' & Hops' & Heq).
  exists e'. split; [done|]. exists (ops ++ [end_op]), (ops' ++ [end_op]).
  split; [by apply const_expr_collect|]. split; [by apply const_expr_collect|].
  apply Forall2_app; [done|]. by repeat constructor.
Qed.
End roundtrip.

(** ** Reading constant expressions from arbitrary bytes *)

(** The error that a typed [select] reports at an offset of its own. *)
Definition arity_error (e : BinaryReaderError) : Prop :=
  message e = lit "invalid result arity" /\ kind e = Custom.

Section wp.
Context (E : BinaryReaderError -> Prop) (r0 : BinaryReader).
Hypothesis Henv : wp_env E r0.
Hypothesis Harity : forall e, arity_error e -> E e.

Lemma wp_operator k (Q : Op.Operator -> nat -> Prop) :
  (forall op k', (k < k')%nat -> op_wf (features r0) op -> Q op k') ->
  wp E r0 k read_operator Q.
Proof.
  intros HQ. apply (wp_visit_operator E r0 Henv id Q k HQ true). intros off _. by apply Harity.
Qed.

Lemma wp_skip_const_expr_loop fuel k (Q : () -> nat -> Prop) :
  (length (remaining_buffer r0) - k < fuel)%nat ->
  (forall k', (k < k')%nat -> Q tt k') -> wp E r0 k (skip_const_expr_loop fuel) Q.
Proof.
  revert k Q. induction fuel as [|fuel IH]; intros k Q Hfuel HQ; [lia|].
  cbn [skip_const_expr_loop]. apply wp_bind.
  intros Hle. apply wp_operator; [|done]. intros op k1 Hk1 _.
  assert (Hgo : wp E r0 k1 (skip_const_expr_loop fuel) Q).
  { intros Hle1. apply IH; [lia| |done]. intros k2 Hk2. apply HQ. lia. }
  destruct op as [[]|o|o|o|o|o|o|o|o|o|o|o|o|o|o|o|o];
    first [exact Hgo | apply wp_ret, HQ; lia].
Qed.

Lemma wp_skip_const_expr k (Q : () -> nat -> Prop) :
  (forall k', (k < k')%nat -> Q tt k') -> wp E r0 k skip_const_expr Q.
Proof.
  intros HQ Hk. unfold skip_const_expr.
  apply (wp_skip_const_expr_loop (S (length (remaining_buffer (advance k r0)))) k Q); [|done..].
  rewrite remaining_advance by apply Henv. rewrite length_drop. lia.
Qed.

(** A fact about successful outcomes can be added to a postcondition. *)
Lemma wp_strengthen {A} k (m : Reader A) (Q : A -> nat -> Prop) (P : A -> Prop) :
  wp E r0 k m Q -> (forall a r', wf_reader (advance k r0) -> m (advance k r0) = (Ok a, r') -> P a) ->
  wp E r0 k m (fun a k' => Q a k' /\ P a).
Proof.
  intros H HP Hk. destruct (H Hk) as (k' & Hk' & E1 & Hm). exists k'.
  split; [done|]. split; [done|].
  pose proof (wf_advance k r0 (env_wf _ _ Henv) Hk) as Hwf.
  destruct (m (advance k r0)) as [[a|e|] r'] eqn:Em; [|done..]. split; [done|].
  by apply (HP a r').
Qed.
End wp.

Lemma read_const_expr_inv r e r' :
  wf_reader r -> from_reader_const_expr r = (Ok e, r') -> const_expr_wf (features r) e.
Proof.
  intros Hwf Hr. pose proof (skip_const_expr_loop_ok _ r Hwf (Nat.lt_succ_diag_r _)) as H.
  fold (skip_const_expr r) in H.
  destruct (skip_const_expr r) as [[[]|e'|] r1] eqn:Es.
  2, 3: unfold from_reader_const_expr, skip, mbind, ST_bind, gets in Hr; by rewrite Es in Hr.
  destruct H as (ops & Hd & Hn).
  destruct (decodes_local _ _ _ Hwf Hd) as (bs & _ & Eb & -> & _).
  destruct (read_const_expr_ok r bs _ ops Hwf Eb Hn Hd) as [Hr' Hops].
  rewrite Hr in Hr'. injection Hr' as -> ->. split; [done|]. by exists ops.
Qed.

Lemma local_skip_const_expr : local 1 skip_const_expr.
Proof.
  intros r [] r' Hwf Hr.
  pose proof (skip_const_expr_loop_ok _ r Hwf (Nat.lt_succ_diag_r _)) as H.
  fold (skip_const_expr r) in H. rewrite Hr in H. destruct H as (ops & Hd & Hn).
  destruct (decodes_local _ _ _ Hwf Hd) as (bs & Hl & Eb & Ha & H).
  exists bs. rewrite length_app in Hl. simpl in Hl. split; [lia|]. split; [done|].
  split; [done|]. intros r2 rest Hat.
  apply (skip_const_expr_ok r2 ops); [apply Hat|by apply (H r2 rest)|done].
Qed.

Lemma local_const_expr : local 1 from_reader_const_expr.
Proof.
  unfold from_reader_const_expr. apply local_bind_l; [apply local_skip, local_skip_const_expr|].
  intros. apply local_ret.
Qed.

Lemma wp_const_expr E r0 k (Q : ConstExpr -> nat -> Prop) :
  wp_env E r0 -> (forall e, arity_error e -> E e) ->
  (forall e k', (k < k')%nat -> const_expr_wf (features r0) e -> Q e k') ->
  wp E r0 k from_reader_const_expr Q.
Proof.
  intros Henv Harity HQ.
  assert (H : wp E r0 k from_reader_const_expr (fun _ k' => (k < k')%nat)).
  { unfold from_reader_const_expr. apply wp_bind, wp_skip; [done|].
    apply wp_skip_const_expr; [done..|]. intros k' Hk' br _ _. by apply wp_ret. }
  eapply wp_mono; [apply (wp_strengthen E r0 Henv _ _ _ (const_expr_wf (features r0)) H)|].
  - intros e r' Hwf Hr. by apply (read_const_expr_inv _ e r') in Hr.
  - intros e k' _ [Hk He]. by apply HQ.
Qed.

(** * Function bodies: reading their locals and operators, and the round trip of
    a whole body. *)

(** ** Locals *)

Definition local_wf (x : Z * ValType) : Prop := in_u 32 x.1 /\ vt_module x.2.

(** The locals are [locals_count] pairs after the count. *)
Lemma skip_locals_loop_read_n n r :
  skip_locals_loop n r
  = match read_n (A := Z * ValType) n r with
    | (Ok _, r') => (Ok tt, r')
    | (Err e, r') => (Err e, r')
    | (Panic, r') => (Panic, r')
    end.
Proof.
  revert r. induction n as [|n IH]; intros r; [done|].
  cbn [skip_locals_loop read_n]. unfold read, from_reader, FromReader_pair, from_reader_pair, read, from_reader,
    FromReader_u32, FromReader_ValType, mbind, ST_bind.
  destruct (read_var_u32 r) as [[c|e|] r1]; [|done..].
  destruct (from_reader_val_type r1) as [[t|e|] r2]; [|done..]. simpl. rewrite IH.
  by destruct (read_n n r2) as [[xs|e|] r3].
Qed.

Lemma locals_collect_read_n n c r :
  locals_collect_loop (S n) (mkLocalsIterator (mkLocalsReader r c) (Z.of_nat n) false)
  = (read_n (A := Z * ValType) n r).1.
Proof.
  revert r. induction n as [|n IH]; intros r; [done|].
  cbn [read_n]. remember (S n) as m. cbn [locals_collect_loop]. subst m. unfold locals_next.
  cbn [locals_err locals_left orb]. destruct (Z.eqb_spec (Z.of_nat (S n)) 0); [lia|].
  unfold locals_read. cbn [locals_iter locals_reader locals_count].
  change (count ← read (A := Z); value_type ← read (A := ValType); mret (count, value_type))
    with (read (A := Z * ValType)).
  rewrite ST_bind_eq. destruct (read r) as [[x|e|] r1]; [|done..].
  cbn [is_err]. replace (Z.of_nat (S n) - 1) with (Z.of_nat n) by lia. rewrite IH.
  rewrite ST_bind_eq. by destruct (read_n n r1) as [[xs|e|] r2].
Qed.

Section wp.
Context (E : BinaryReaderError -> Prop) (r0 : BinaryReader).
Hypothesis Henv : wp_env E r0.

Lemma wp_locals n k (Q : list (Z * ValType) -> nat -> Prop) :
  (forall xs k', (k <= k')%nat -> length xs = n -> Forall local_wf xs -> Q xs k') ->
  wp E r0 k (read_n n) Q.
Proof.
  intros HQ. apply (wp_read_n E r0 n k local_wf); [|done].
  intros k1. unfold read, from_reader, FromReader_pair, from_reader_pair, read,
    from_reader, FromReader_u32, FromReader_ValType.
  wp_run. by split.
Qed.
End wp.

(** Locals read from arbitrary bytes. *)
Lemma read_locals_ok n r :
  wf_reader r ->
  match read_n (A := Z * ValType) n r with
  | (Ok ls, r') => length ls = n /\ Forall local_wf ls /\ wf_reader r' /\ features r' = features r
  | (Err e, _) => err_in_range r e
  | (Panic, _) => False
  end.
Proof.
  intros Hwf. assert (Henv : wp_env (err_in_range r) r) by by split.
  destruct (wp_locals _ r Henv n 0 (fun xs k => length xs = n /\ Forall local_wf xs)
    ltac:(done) ltac:(lia)) as (k & Hk & E & Hm). rewrite advance_0 in *.
  destruct (read_n n r) as [[ls|e|] r']; simpl in *; subst; [|done..].
  destruct Hm as [Hl Hls]. split; [done|]. split; [done|]. split; [|done].
  by apply wf_advance; [|lia].
Qed.

Section translate.
Context {L : Leb128} {LS : Leb128Spec L}.

(** [(cnt, reencoder.val_type(ty)?)] and its encoding. *)
Definition translate_local (x : Z * ValType) : outcome (Z * WE.ValType) :=
  ty ← val_type x.2; mret (x.1, ty).
Definition encode_local (x : Z * WE.ValType) : Enc :=
  let '(count, ty) := x in encode_u32 count +> WE.encode_val_type ty.

Lemma er_local f x :
  local_wf x -> exists y, translate_local x = ROk y /\ enc_reads f (encode_local y) read x.
Proof.
  destruct x as [c t]. intros [Hc Ht]. simpl in Hc, Ht.
  destruct (er_val_type f t Ht) as (t' & Et & Hr & _). exists (c, t').
  split; [unfold translate_local; cbn [snd fst]; by rewrite Et|].
  change (enc_reads f (encode_u32 c +> WE.encode_val_type t')
    (a ← read (A := Z); b ← read (A := ValType); mret (a, b)) (c, t)).
  eapply er_bind; [by apply er_u32|]. eapply er_last; [exact Hr|done].
Qed.

Lemma parsed_locals_loop_ok n c r acc :
  wf_reader r ->
  parsed_locals_loop (S n) (mkLocalsIterator (mkLocalsReader r c) (Z.of_nat n) false) acc
  = match (read_n (A := Z * ValType) n r).1 with
    | Ok ls => ls' ← mapM translate_local ls; ROk (acc ++ ls')
    | Err e => RErr (ParseError e)
    | Panic => RPanic
    end.
Proof.
  revert r acc. induction n as [|n IH]; intros r acc Hwf; [by simpl; rewrite app_nil_r|].
  cbn [read_n]. remember (S n) as m. cbn [parsed_locals_loop]. subst m. unfold locals_next.
  cbn [locals_err locals_left orb]. destruct (Z.eqb_spec (Z.of_nat (S n)) 0); [lia|].
  unfold locals_read. cbn [locals_iter locals_reader locals_count].
  change (count ← read (A := Z); value_type ← read (A := ValType); mret (count, value_type))
    with (read (A := Z * ValType)).
  rewrite ST_bind_eq. pose proof (read_locals_ok 1 r Hwf) as H1.
  cbn [read_n] in H1. unfold mbind, ST_bind in H1.
  destruct (read r) as [[[c0 ty]|e|] r1]; [|done..]. cbn [from_result mbind outcome_bind].
  destruct H1 as (_ & Hls & Hwf1 & _). apply Forall_inv in Hls.
  destruct (er_local (features r) (c0, ty) Hls) as ([c1 t1] & Et & _).
  unfold translate_local in Et. simpl in Et.
  destruct (val_type ty) as [t'| |] eqn:Ev; try done. injection Et as <- <-.
  cbn [mbind outcome_bind is_err]. replace (Z.of_nat (S n) - 1) with (Z.of_nat n) by lia.
  rewrite IH by done. rewrite ST_bind_eq.
  destruct (read_n n r1) as [[xs|e|] r2]; [|done..]. cbn [fst].
  assert (Hm : mapM translate_local ((c0, ty) :: xs)
               = (ys ← mapM translate_local xs; ROk ((c0, t') :: ys))).
  { assert (Ht : translate_local (c0, ty) = ROk (c0, t')).
    { unfold translate_local. cbn [snd fst]. by rewrite Ev. }
    cbn [mapM]. by rewrite Ht. }
  cbn [fst mret ST_ret]. rewrite Hm.
  destruct (mapM translate_local xs) as [ys| |]; [|done..]. simpl. by rewrite <- app_assoc.
Qed.

(** ** Bodies *)

(** The locals and the operators of a body, or the first error. *)
Definition body_parts (b : FunctionBody) : result (list (Z * ValType) * list Op.Operator) :=
  match get_locals_reader b with
  | Ok l =>
      match locals_collect l with
      | Ok ls =>
          match get_operators_reader b with
          | Ok o =>
              match operators_collect o with
              | Ok ops => Ok (ls, ops)
              | Err e => Err e
              | Panic => Panic
              end
          | Err e => Err e
          | Panic => Panic
          end
      | Err e => Err e
      | Panic => Panic
      end
  | Err e => Err e
  | Panic => Panic
  end.

Definition function_body_equiv (b b' : FunctionBody) : Prop :=
  exists ls ops ops', body_parts b = Ok (ls, ops) /\ body_parts b' = Ok (ls, ops')
    /\ Forall2 op_equiv ops ops'.

(** The parts of a body whose count and locals are read from its start. *)
Lemma body_parts_read r n ls r1 r2 :
  0 <= n -> read_var_u32 r = (Ok n, r1) -> read_n (A := Z * ValType) (Z.to_nat n) r1 = (Ok ls, r2) ->
  get_locals_reader (mkFunctionBody r) = Ok (mkLocalsReader r1 n)
  /\ get_operators_reader (mkFunctionBody r) = Ok (mkOperatorsReader r2)
  /\ body_parts (mkFunctionBody r)
     = match operators_collect (mkOperatorsReader r2) with
       | Ok ops => Ok (ls, ops)
       | Err e => Err e
       | Panic => Panic
       end.
Proof.
  intros Hn0 Hn Hls.
  assert (Hl : get_locals_reader (mkFunctionBody r) = Ok (mkLocalsReader r1 n)).
  { unfold get_locals_reader. cbn [body_reader]. by rewrite Hn. }
  assert (Ho : get_operators_reader (mkFunctionBody r) = Ok (mkOperatorsReader r2)).
  { unfold get_operators_reader, skip_locals. cbn [body_reader].
    rewrite ST_bind_eq, Hn, skip_locals_loop_read_n, Hls. done. }
  split; [done|]. split; [done|]. unfold body_parts. rewrite Hl, Ho.
  unfold locals_collect, locals_into_iter. cbn [locals_count].
  replace (mkLocalsIterator (mkLocalsReader r1 n) n false)
    with (mkLocalsIterator (mkLocalsReader r1 n) (Z.of_nat (Z.to_nat n)) false)
    by by rewrite Z2Nat.id.
  by rewrite locals_collect_read_n, Hls.
Qed.

(** The loop over the operators appends their encodings, or stops at the error
    of the decoder. *)
Lemma function_body_loop_ok fuel r fn :
  wf_reader r -> (length (remaining_buffer r) < fuel)%nat ->
  match operators_collect_loop fuel (mkOperatorsIterator (mkOperatorsReader r) false) with
  | Ok ops => exists bs, encode_items op_bytes ops = Some bs
      /\ function_body_loop fuel (mkOperatorsReader r) fn
         = ROk (WS.mkFunction (WS.function_bytes fn ++ bs))
  | Err e => function_body_loop fuel (mkOperatorsReader r) fn = RErr (ParseError e)
  | Panic => False
  end.
Proof.
  revert r fn. induction fuel as [|fuel IH]; intros r fn Hwf Hl; [lia|].
  cbn [operators_collect_loop function_body_loop].
  unfold operators_next, operators_eof, operators_read. cbn [ops_err ops_reader op_reader orb].
  rewrite remaining_nil_eof by done. case_bool_decide as He.
  { exists []. destruct fn. simpl. by rewrite app_nil_r. }
  pose proof (visit_operator_outcome r true id Hwf) as Ho. fold read_operator in Ho.
  unfold parse_instruction, operators_read. cbn [op_reader].
  destruct (read_operator r) as [[op|e|] r1] eqn:Er; [|done..]; cbn [is_err].
  destruct Ho as (op' & k & -> & Hop & Hk & ->).
  destruct (op_bytes_instruction _ _ Hop) as (i & bs & Ei & Eb & Ebs).
  change (id op') with op'. cbn [from_result mbind outcome_bind]. rewrite Ei.
  cbn [mbind outcome_bind mret outcome_ret]. unfold WS.function_instruction. rewrite Eb.
  cbn [mbind option_bind unwrap_outcome outcome_bind].
  specialize (IH (advance k r) (WS.mkFunction (WS.function_bytes fn ++ bs))
    ltac:(by apply wf_advance; [|lia])).
  rewrite remaining_advance, length_drop in IH by apply Hwf. specialize (IH ltac:(lia)).
  destruct (operators_collect_loop fuel _) as [ops|e|]; [|done..].
  destruct IH as (bs' & E' & ->). exists (bs ++ bs'). cbn [encode_items]. rewrite Ebs, E'.
  split; [done|]. cbn [WS.function_bytes]. by rewrite app_assoc.
Qed.

(** The function that re-encoding a body builds: its locals, then its operators. *)
Definition body_bytes (ls : list (Z * ValType)) (ops : list Op.Operator) : Enc :=
  match mapM translate_local ls with
  | ROk ls' => encode_usize (Z.of_nat (length ls')) +> encode_items encode_local ls'
  | _ => None
  end +> encode_items op_bytes ops.

Lemma body_bytes_ok f ls ops :
  Forall local_wf ls -> Z.of_nat (length ls) < 2 ^ 32 -> Forall (op_wf f) ops ->
  exists ls' lb ob, mapM translate_local ls = ROk ls'
    /\ WS.Function_new ls' = Some (WS.mkFunction lb)
    /\ encode_items op_bytes ops = Some ob /\ body_bytes ls ops = Some (lb ++ ob)
    /\ forall r, wf_reader r -> features r = f -> remaining_buffer r = lb ++ ob ->
       exists ops', body_parts (mkFunctionBody r) = Ok (ls, ops') /\ Forall2 op_equiv ops ops'.
Proof.
  intros Hls Hlen Hops.
  destruct (er_mapM f translate_local encode_local local_wf ls (er_local f) Hls)
    as (ls' & Els & Hl & ib & Eib & Hib).
  destruct (er_usize f (Z.of_nat (length ls))) as (cb & Ecb & Hcb); [unfold in_u; lia|].
  destruct (ops_roundtrip f ops Hops) as (ob & Eob & Hob).
  exists ls', (cb ++ ib), ob. split; [done|].
  split. { unfold WS.Function_new. rewrite Hl, Ecb. change (encode_items _ ls') with
    (encode_items encode_local ls'). by rewrite Eib. }
  split; [done|]. split. { unfold body_bytes. by rewrite Els, Hl, Ecb, Eib, Eob. }
  intros r Hwf Hf Er. rewrite <- app_assoc in Er.
  pose proof (Hcb r (ib ++ ob) Hwf Hf Er) as Hn.
  destruct (advance_app r cb (ib ++ ob) Hwf Er) as [Hwf1 Er1].
  pose proof (Hib _ ob Hwf1 Hf Er1) as Hread. rewrite <- (Nat2Z.id (length ls)) in Hread at 1.
  destruct (advance_app _ ib ob Hwf1 Er1) as [Hwf2 Er2].
  destruct (Hob _ [] Hwf2 Hf) as (ops' & Hd & Heq); [by rewrite app_nil_r|].
  exists ops'. split; [|done].
  destruct (body_parts_read r _ ls _ _ (Nat2Z.is_nonneg _) Hn Hread) as (_ & _ & ->).
  rewrite (operators_collect_ok _ ops' _ Hwf2 Hd); [done|].
  rewrite remaining_advance by apply Hwf2. by rewrite Er2, drop_all.
Qed.

Lemma read_var_u32_ok r n r' :
  wf_reader r -> read_var_u32 r = (Ok n, r') ->
  in_u 32 n /\ wf_reader r' /\ features r' = features r.
Proof.
  intros Hwf Hr. split; [by destruct (read_var_u32_inv _ _ _ Hwf Hr)|].
  split; [by eapply local_reader_wf; [apply local_var_u32| |]|].
  by destruct (local_var_u32 _ _ _ Hwf Hr) as (bs & _ & _ & -> & _).
Qed.

(** The locals of a body from arbitrary bytes. *)
Lemma body_locals_ok r :
  wf_reader r ->
  (exists e, body_parts (mkFunctionBody r) = Err e
     /\ new_function_with_parsed_locals (mkFunctionBody r) = RErr (ParseError e))
  \/ exists n ls r1 r2, in_u 32 n /\ read_var_u32 r = (Ok n, r1)
       /\ read_n (Z.to_nat n) r1 = (Ok ls, r2)
       /\ length ls = Z.to_nat n /\ Forall local_wf ls /\ wf_reader r2 /\ features r2 = features r
       /\ new_function_with_parsed_locals (mkFunctionBody r)
          = (ls' ← mapM translate_local ls; unwrap_outcome (WS.Function_new ls')).
Proof.
  intros Hwf. unfold new_function_with_parsed_locals, body_parts, get_locals_reader.
  cbn [body_reader]. destruct (read_var_u32 r) as [[n|e|] r1] eqn:En.
  2: { left. by exists e. }
  2: { rewrite read_var_u32_spec in En by done. unfold leb_u_spec in En.
       destruct (leb_scan _ _); [case_bool_decide|..]; discriminate. }
  destruct (read_var_u32_ok r n r1 Hwf En) as (Hn & Hwf1 & Hf1).
  pose proof (read_locals_ok (Z.to_nat n) r1 Hwf1) as Hls.
  cbn [from_result mbind outcome_bind]. unfold locals_collect, locals_into_iter.
  cbn [locals_count].
  replace (mkLocalsIterator (mkLocalsReader r1 n) n false)
    with (mkLocalsIterator (mkLocalsReader r1 n) (Z.of_nat (Z.to_nat n)) false)
    by (rewrite Z2Nat.id; [done|apply Hn]).
  rewrite parsed_locals_loop_ok, locals_collect_read_n by done.
  destruct (read_n (Z.to_nat n) r1) as [[ls|e|] r2] eqn:Els; [|left; by exists e|done].
  right. destruct Hls as (Hl & Hw & Hwf2 & Hf2). exists n, ls, r1, r2. cbn [fst].
  rewrite Hf2. do 7 (split; [done|]). by destruct (mapM translate_local ls).
Qed.

(** Re-encoding a body from arbitrary bytes. *)
Lemma parse_function_body_ok f b s :
  wf_reader (body_reader b) -> features (body_reader b) = f ->
  match body_parts b with
  | Ok (ls, ops) => exists bs, body_bytes ls ops = Some bs
      /\ parse_function_body b s = unwrap_outcome (add_item (encode_bytes bs) s)
      /\ forall r, wf_reader r -> features r = f -> remaining_buffer r = bs ->
         function_body_equiv b (mkFunctionBody r)
  | Err e => parse_function_body b s = RErr (ParseError e)
  | Panic => False
  end.
Proof.
  destruct b as [r]. cbn [body_reader]. intros Hwf Hf. unfold parse_function_body.
  destruct (body_locals_ok r Hwf) as
    [(e & -> & ->)|(n & ls & r1 & r2 & Hn & En & Els & Hl & Hw & Hwf2 & Hf2 & ->)]; [done|].
  destruct (body_parts_read r n ls r1 r2 (proj1 Hn) En Els) as (_ & -> & Hparts).
  rewrite Hparts. unfold operators_collect, operators_into_iter. cbn [op_reader].
  pose proof (operators_collect_loop_ok _ r2 Hwf2 (Nat.lt_succ_diag_r _)) as Hops.
  pose proof (fun fn => function_body_loop_ok _ r2 fn Hwf2 (Nat.lt_succ_diag_r _)) as Hloop.
  assert (Hlen : Z.of_nat (length ls) < 2 ^ 32) by (unfold in_u in Hn; lia).
  assert (Hnew : exists fn, (ls' ← mapM translate_local ls; unwrap_outcome (WS.Function_new ls'))
    = ROk fn).
  { destruct (body_bytes_ok f ls [] Hw Hlen ltac:(constructor)) as (ls' & lb & _ & -> & E & _).
    simpl. rewrite E. by eexists. }
  cbn [from_result mbind outcome_bind].
  destruct (operators_collect_loop _ _) as [ops|e|] eqn:Eops; [| |done].
  - destruct Hops as (r' & Hd & Hr'). destruct (decodes_ok _ _ _ Hwf2 Hd) as (_ & _ & Hws).
    rewrite Hf2, Hf in Hws.
    destruct (body_bytes_ok f ls ops Hw Hlen Hws) as (ls' & lb & ob & -> & E & Eob & Eb & Hrt).
    exists (lb ++ ob). split; [done|]. cbn [mbind outcome_bind]. rewrite E.
    cbn [unwrap_outcome mbind outcome_bind op_reader]. destruct (Hloop (WS.mkFunction lb)) as (ob' & Eob' & ->).
    assert (ob' = ob) as -> by congruence. split; [done|].
    intros r3 Hwf3 Hf3 E3. destruct (Hrt r3 Hwf3 Hf3 E3) as (ops' & Hp & Heq).
    exists ls, ops, ops'. split; [|done]. rewrite Hparts.
    unfold operators_collect, operators_into_iter. cbn [op_reader]. by rewrite Eops.
  - destruct Hnew as [fn Hfn]. cbn [mbind outcome_bind] in Hfn. rewrite Hfn.
    cbn [mbind outcome_bind from_result op_reader]. by rewrite (Hloop fn).
Qed.

(** The bytes of a re-encoded body, framed by their size, are read back. *)
Lemma reads_function_body f b bs :
  Z.of_nat (length bs) < 2 ^ 32 ->
  (forall r, wf_reader r -> features r = f -> remaining_buffer r = bs ->
     function_body_equiv b (mkFunctionBody r)) ->
  exists es, encode_bytes bs = Some es
    /\ reads_ex f from_reader_function_body es (function_body_equiv b).
Proof.
  intros Hl Heq. destruct (er_usize f (Z.of_nat (length bs))) as (cb & Ecb & Hcb).
  { unfold in_u. lia. }
  exists (cb ++ bs). unfold encode_bytes. rewrite Ecb. split; [done|].
  intros r rest Hwf Hf E. rewrite <- app_assoc in E.
  destruct (advance_app r cb _ Hwf E) as [Hwf1 E1].
  unfold from_reader_function_body, read_reader. rewrite !ST_bind_eq.
  rewrite (Hcb r (bs ++ rest) Hwf Hf E).
  rewrite (skip_ok _ _ bs rest Hwf1); [|by rewrite ST_bind_eq,
    (reads_bytes f bs _ eq_refl (advance (length cb) r) rest Hwf1 Hf E1)|done].
  eexists. rewrite length_app, <- advance_advance. split; [done|].
  pose proof (at_slice_reader _ _ _ Hwf1 E1) as Hat.
  apply Heq; [apply Hat|done|]. by rewrite (at_remaining _ _ _ _ Hat), app_nil_r.
Qed.
End translate.
