(* ===== verification/CompositeSpec.v ===== *)
(** Recursion groups and composite types: reading arbitrary bytes, and the round
    trip through wasm-encoder. *)

From Stdlib Require Import ZArith Lia String.
From stdpp Require Import prelude.
From S2P Require Import Prelude Leb128 BinaryReader BinaryReaderSpec ReaderLogic Encode Types TypesSpec.
From S2P Require Import EncTypes Operands Operators Instructions Reencode OperandSpec OperandRoundtrip.
From S2P Require Import SectionReader CompositeTypes.

Local Open Scope Z_scope.

(** ** Well-formed types *)

(** A packed index that names a type of the module. *)
Definition index_module (p : PackedIndex) : Prop :=
  exists i, in_u 20 i /\ from_module_index i = Some p /\ unpack p = Some (Module_ i).

Definition field_wf (t : FieldType) : Prop := st_module (element_type t).

Definition func_type_wf (t : FuncType) : Prop :=
  exists params results, t = FuncType_new params results
    /\ Forall vt_module params /\ Forall vt_module results
    /\ Z.of_nat (length params) <= MAX_WASM_FUNCTION_PARAMS
    /\ Z.of_nat (length results) <= MAX_WASM_FUNCTION_RETURNS.

Definition inner_wf (t : CompositeInnerType) : Prop :=
  match t with
  | CFunc t => func_type_wf t
  | CArray t => field_wf (array_element t)
  | CStruct t => Forall field_wf (fields t)
                 /\ Z.of_nat (length (fields t)) <= MAX_WASM_STRUCT_FIELDS
  | CCont t => index_module (cont_index t)
  end.

Definition sub_type_wf (t : SubType) : Prop :=
  inner_wf (inner (composite_type_of t))
  /\ match supertype_idx t with Some p => index_module p | None => True end.

Definition rec_group_wf (g : RecGroup) : Prop :=
  Forall sub_type_wf (into_types g) /\ Z.of_nat (length (into_types g)) <= MAX_WASM_TYPES.

(** Groups that differ only in the offsets of their types. *)
Definition rec_group_equiv (g g' : RecGroup) : Prop :=
  is_explicit_rec_group g = is_explicit_rec_group g' /\ into_types g = into_types g'.

(** ** Arbitrary bytes *)

Section wp.
Context (E : BinaryReaderError -> Prop) (r0 : BinaryReader).
Hypothesis Henv : wp_env E r0.
Implicit Types k : nat.

Lemma wp_func_type k (Q : FuncType -> nat -> Prop) :
  (forall t k', (k < k')%nat -> func_type_wf t -> Q t k') -> wp E r0 k from_reader_func_type Q.
Proof.
  intros HQ. unfold from_reader_func_type.
  apply wp_bind, (wp_iter E r0 Henv _ _ _ vt_module); [intros; by apply wp_val_type|].
  intros params k1 Hk1 Hl1 Hp.
  apply wp_bind, (wp_iter E r0 Henv _ _ _ vt_module); [intros; by apply wp_val_type|].
  intros results k2 Hk2 Hl2 Hr. unfold FuncType_from_raw_parts.
  destruct (Z.leb_spec (Z.of_nat (length params)) (Z.of_nat (length (params ++ results))));
    [|rewrite length_app in *; lia].
  apply wp_ret, HQ; [lia|]. by exists params, results.
Qed.

Lemma wp_field_type k (Q : FieldType -> nat -> Prop) :
  (forall t k', (k < k')%nat -> field_wf t -> Q t k') -> wp E r0 k from_reader_field_type Q.
Proof.
  intros HQ. unfold from_reader_field_type, read, from_reader, FromReader_StorageType.
  apply wp_bind, wp_storage_type; [done|]. intros t k1 Hk1 Ht.
  wp_run; (apply HQ; [lia|done]).
Qed.

Lemma wp_index {A} k i m pos (g : PackedIndex -> Reader A) Q :
  0 <= i -> original_position r0 <= pos <= original_position r0 + Z.of_nat k ->
  (forall p, index_module p -> wp E r0 k (g p) Q) ->
  wp E r0 k (p ← ok_or_err (from_module_index i) m pos; g p) Q.
Proof.
  intros Hi Hpos Hg. apply wp_bind, (wp_ok_or_err E r0 Henv); [done|]. intros p Hp.
  apply Hg. exists i. destruct (from_module_index_ok i p Hi Hp). done.
Qed.

Lemma u32_try_from_some v i : u32_try_from v = Some i -> i = v /\ in_u 32 i.
Proof.
  unfold u32_try_from, in_u. destruct (Z.leb_spec 0 v), (Z.leb_spec v (2 ^ 32 - 1)); simpl andb;
    intros [= <-]; lia.
Qed.

Lemma wp_cont_type k (Q : ContType -> nat -> Prop) :
  (forall t k', (k < k')%nat -> index_module (cont_index t) -> Q t k') ->
  wp E r0 k from_reader_cont_type Q.
Proof.
  intros HQ. unfold from_reader_cont_type. do 2 wp_step.
  destruct (u32_try_from v) as [i|] eqn:Ei; [|by wp_run].
  apply u32_try_from_some in Ei as [-> Hi]. do 2 wp_step.
  apply wp_index; [apply Hi|lia|]. intros p Hp. apply wp_ret, HQ; [lia|done].
Qed.

Lemma wp_composite_type k op (Q : CompositeType -> nat -> Prop) :
  (0 < k)%nat ->
  (forall t k', (k <= k')%nat -> inner_wf (inner t) -> Q t k') ->
  wp E r0 k (read_composite_type op) Q.
Proof.
  intros Hk HQ. unfold read_composite_type.
  apply wp_bind. apply (wp_mono E r0 _ _ (fun _ k' => (k <= k')%nat)).
  { destruct (op =? 0x65); wp_run; lia. }
  intros [shared op'] k1 Hk1 Hk1'. cbv beta iota. apply wp_bind.
  apply (wp_mono E r0 _ _ (fun t k' => (k1 <= k')%nat /\ inner_wf t)).
  - repeat match goal with |- wp _ _ _ (match ?x with _ => _ end) _ => destruct x end;
      try (apply wp_invalid_leading_byte; [done|lia]);
      unfold read, from_reader, FromReader_FuncType, FromReader_ArrayType,
        FromReader_StructType, FromReader_ContType, from_reader_array_type,
        from_reader_struct_type; apply wp_bind.
    + apply wp_bind, (wp_iter E r0 Henv _ _ _ field_wf); [intros; by apply wp_field_type|].
      intros fs k2 Hk2 Hl Hf. apply wp_ret, wp_ret. split; [lia|]. by split.
    + apply wp_cont_type. intros t k2 Hk2 Ht. apply wp_ret. split; [lia|done].
    + apply wp_bind, wp_field_type. intros t k2 Hk2 Ht. apply wp_ret, wp_ret. split; [lia|done].
    + apply wp_func_type. intros t k2 Hk2 Ht. apply wp_ret. split; [lia|done].
  - intros t k2 Hk2 [Hk2' Ht]. apply wp_ret, HQ; [lia|done].
Qed.

Lemma wp_sub_type k (Q : SubType -> nat -> Prop) :
  (forall t k', (k < k')%nat -> sub_type_wf t -> Q t k') -> wp E r0 k from_reader_sub_type Q.
Proof.
  intros HQ. unfold from_reader_sub_type. do 4 wp_step.
  destruct ((b =? 0x4f) || (b =? 0x50)).
  2: { apply wp_bind, wp_composite_type; [lia|]. intros t k1 Hk1 Ht.
       apply wp_ret, HQ; [lia|]. by split. }
  apply wp_bind, (wp_iter E r0 Henv _ _ _ (in_u 32)).
  { intros k1. unfold read, from_reader, FromReader_u32. by wp_run. }
  intros idxs k1 Hk1 Hl Hidxs. destruct (1 <? Z.of_nat (length idxs)); [wp_run|].
  apply wp_bind. apply (wp_mono E r0 _ _ (fun s k' => (k1 <= k')%nat
    /\ match s with Some p => index_module p | None => True end)).
  - destruct idxs as [|i idxs]; [by wp_run|]. apply Forall_cons in Hidxs as [Hi _].
    do 2 wp_step. apply wp_index; [apply Hi|lia|]. intros p Hp. by apply wp_ret.
  - intros s k2 Hk2 [Hk2' Hs]. do 2 wp_step. apply wp_bind, wp_composite_type; [lia|].
    intros t k3 Hk3 Ht. apply wp_ret, HQ; [lia|]. by split.
Qed.

Lemma wp_types_with_offsets n k (Q : list (Z * SubType) -> nat -> Prop) :
  (forall ts k', (k <= k')%nat -> length ts = n -> Forall sub_type_wf (map snd ts) -> Q ts k') ->
  wp E r0 k (read_types_with_offsets n) Q.
Proof.
  revert k Q. induction n as [|n IH]; intros k Q HQ; cbn [read_types_with_offsets].
  - apply wp_ret, HQ; [lia|done|constructor].
  - do 2 wp_step. apply wp_bind, wp_sub_type. intros t k1 Hk1 Ht.
    apply wp_bind, IH. intros ts k2 Hk2 Hl Hts. apply wp_ret, HQ; [lia|simpl; lia|].
    by constructor.
Qed.

Lemma wp_rec_group k (Q : RecGroup -> nat -> Prop) :
  (forall g k', (k < k')%nat -> rec_group_wf g -> Q g k') -> wp E r0 k from_reader_rec_group Q.
Proof.
  intros HQ. unfold from_reader_rec_group. do 2 wp_step.
  assert (Himp : wp E r0 k (pos ← gets original_position; ty ← read (A := SubType);
    mret (rec_group_implicit pos ty)) Q).
  { do 2 wp_step. apply wp_bind, wp_sub_type. intros t k1 Hk1 Ht. apply wp_ret, HQ; [done|].
    split; [by apply Forall_singleton|]. simpl. unfold MAX_WASM_TYPES. lia. }
  repeat (match goal with |- wp _ _ _ (match ?x with _ => _ end) _ => destruct x end;
          try exact Himp).
  do 2 wp_step. apply wp_bind, (wp_size E r0 Henv). intros n k1 Hk1 Hn.
  apply wp_bind, wp_types_with_offsets. intros ts k2 Hk2 Hl Hts.
  apply wp_ret, HQ; [lia|]. split; [done|]. unfold into_types, into_types_and_offsets. simpl.
  rewrite length_map. lia.
Qed.
End wp.

(** ** Round trip *)

Section roundtrip.
Context (f : WasmFeatures) {L : Leb128} {LS : Leb128Spec L}.

Lemma er_storage_type t :
  st_module t ->
  exists t', storage_type t = ROk t'
    /\ enc_reads f (WE.encode_storage_type t') from_reader_storage_type t.
Proof.
  destruct t as [| |t]; intros Ht; [exists WE.I8|exists WE.I16|].
  1, 2: split; [done|]; eapply (er_peek _ _ _ (Some [])); [done|]; cbv iota;
        eapply er_last; [apply er_push|done].
  destruct (er_val_type f t Ht) as (t' & Et & Hr & b & e' & Ee & Hb). exists (WE.Val t').
  split; [simpl; by rewrite Et|]. cbn [WE.encode_storage_type]. rewrite Ee in *.
  eapply er_peek; [done|].
  assert (Hm : enc_reads f (push b +> e') (ty ← from_reader_val_type; mret (SVal ty)) (SVal t))
    by (eapply er_last; [exact Hr|done]).
  clear Hr Ee. byte_default Hm.
Qed.

Definition encode_field_type (t : WE.FieldType) : Enc :=
  WEType.encode_field (WE.element_type t) (WE.mutable t).

Lemma er_field_type t :
  field_wf t ->
  exists t', field_type t = ROk t'
    /\ enc_reads f (encode_field_type t') from_reader_field_type t.
Proof.
  intros Ht. destruct t as [s m]. destruct (er_storage_type s Ht) as (s' & Es & Hr).
  exists (WE.mkFieldType s' m). unfold field_type. cbn [element_type mutable]. rewrite Es.
  split; [done|]. eapply er_bind; [exact Hr|]. eapply er_last; [apply er_push|]. by destruct m.
Qed.

Lemma func_new_parts params results :
  func_params (FuncType_new params results) = params
  /\ func_results (FuncType_new params results) = results.
Proof.
  unfold func_params, func_results, FuncType_new. cbn [params_results len_params].
  by rewrite Nat2Z.id, take_app_length, drop_app_length.
Qed.

(** Parameters and results are translated together and encoded apart. *)
Lemma mapM_app {A B} (tr : A -> outcome B) xs xs' ys ys' :
  mapM tr xs = ROk ys -> mapM tr xs' = ROk ys' -> mapM tr (xs ++ xs') = ROk (ys ++ ys').
Proof.
  revert ys. induction xs as [|x xs IH]; intros ys; cbn [mapM app].
  - intros [= <-]. done.
  - destruct (tr x) as [y| |]; [|done..]. cbn [mbind outcome_bind].
    destruct (mapM tr xs) as [zs| |]; [|done..]. intros [= <-] E'.
    by rewrite (IH zs eq_refl E').
Qed.

Lemma er_func_type t :
  func_type_wf t ->
  exists t', func_type t = ROk t'
    /\ enc_reads f (encode_list WE.encode_val_type (WE.func_params t')
         +> encode_list WE.encode_val_type (WE.func_results t')) from_reader_func_type t.
Proof.
  intros (params & results & -> & Hp & Hr & Hlp & Hlr).
  assert (Hv : forall x, vt_module x -> exists y, val_type x = ROk y
    /\ enc_reads f (WE.encode_val_type y) (read (A := ValType)) x).
  { intros x Hx. destruct (er_val_type f x Hx) as (y & Ey & Hy & _). by exists y. }
  destruct (er_mapM f val_type WE.encode_val_type vt_module params Hv Hp)
    as (ps & Eps & Hlps & Hrp).
  destruct (er_mapM f val_type WE.encode_val_type vt_module results Hv Hr)
    as (rs & Ers & Hlrs & Hrr).
  exists (WE.FuncType_new ps rs). unfold func_type.
  destruct (func_new_parts params results) as [-> ->]. rewrite (mapM_app _ _ _ _ _ Eps Ers).
  split; [by rewrite <- Hlps|].
  unfold WE.func_params, WE.func_results, WE.FuncType_new. cbn [WE.params_results WE.len_params].
  rewrite Nat2Z.id, take_app_length, drop_app_length.
  unfold from_reader_func_type. eapply er_bind; [by apply er_iter|].
  eapply er_last; [by apply er_iter|]. cbv zeta. unfold FuncType_from_raw_parts.
  destruct (Z.leb_spec (Z.of_nat (length params)) (Z.of_nat (length (params ++ results))));
    [done|rewrite length_app in *; lia].
Qed.

(** The type after its opcode, and with it. *)
Definition read_inner (op : Z) : Reader CompositeInnerType :=
  match op with
  | 0x60 => t ← read (A := FuncType); mret (CFunc t)
  | 0x5e => t ← read (A := ArrayType); mret (CArray t)
  | 0x5f => t ← read (A := StructType); mret (CStruct t)
  | 0x5d => t ← read (A := ContType); mret (CCont t)
  | x => invalid_leading_byte x "type"
  end.

Definition encode_inner (t : WEType.CompositeInnerType) : Enc :=
  match t with
  | WEType.Func t => WEType.encode_function (WE.func_params t) (WE.func_results t)
  | WEType.Array t =>
      WEType.encode_array (WE.element_type (WEType.array_element t))
        (WE.mutable (WEType.array_element t))
  | WEType.Struct t => WEType.encode_struct (WEType.fields t)
  | WEType.Cont t => WEType.encode_cont t
  end.

Lemma er_cont_type c :
  index_module (cont_index c) ->
  exists c', cont_type c = ROk c'
    /\ enc_reads f (encode_i64 (WEType.cont_index c')) from_reader_cont_type c.
Proof.
  destruct c as [p]. intros (i & Hi & Hp & Hun). cbn [cont_index] in *.
  exists (WEType.mkContType i). unfold cont_type. cbn [cont_index]. rewrite Hun.
  split; [done|]. unfold from_reader_cont_type. unfold in_u in Hi.
  cbn [WEType.cont_index]. rewrite <- (and_then_nil_r (encode_i64 i)).
  eapply er_bind; [apply er_s33; [done|unfold in_u; lia]|]. cbv beta. unfold u32_try_from.
  rewrite (proj2 (Z.leb_le 0 i)), (proj2 (Z.leb_le i _)) by lia. simpl andb. cbv iota.
  apply er_gets. intros pos. rewrite Hp. apply (er_ret f).
Qed.

Lemma er_fields ts :
  Forall field_wf ts ->
  exists ts', mapM field_type ts = ROk ts' /\ length ts' = length ts
    /\ enc_reads f (encode_items encode_field_type ts') (read_n (length ts)) ts.
Proof. apply er_mapM. intros t Ht. by apply er_field_type. Qed.

(** Translation, the opcode, and what follows the opcode. *)
Definition translate_inner (t : CompositeInnerType) : outcome WEType.CompositeInnerType :=
  match t with
  | CFunc f => t ← func_type f; mret (WEType.Func t)
  | CArray a => t ← array_type a; mret (WEType.Array t)
  | CStruct s => t ← struct_type s; mret (WEType.Struct t)
  | CCont c => t ← cont_type c; mret (WEType.Cont t)
  end.

Lemma er_inner t :
  inner_wf t ->
  exists t' op e, translate_inner t = ROk t' /\ encode_inner t' = push op +> e
    /\ 0x5d <= op <= 0x60 /\ enc_reads f e (read_inner op) t.
Proof.
  destruct t as [t|[t]|[ts]|c]; intros Ht; cbn [inner_wf] in Ht.
  - destruct (er_func_type t Ht) as (t' & Et & Hr). eexists _, _, _.
    simpl. rewrite Et. split; [done|]. split; [done|]. split; [lia|].
    unfold encode_list in Hr. rewrite and_then_assoc in Hr. eapply er_last; [exact Hr|done].
  - destruct (er_field_type t Ht) as (t' & Et & Hr). eexists _, _, _.
    simpl. unfold array_type. cbn [array_element]. rewrite Et. split; [done|].
    split; [done|]. split; [lia|]. eapply er_last; [eapply er_last; [exact Hr|done]|done].
  - destruct Ht as [Ht Hl]. cbn [fields] in *. destruct (er_fields ts Ht) as (ts' & Et & Hlen & Hr).
    eexists _, _, _. simpl. unfold struct_type. cbn [fields]. rewrite Et. split; [done|].
    split; [done|]. split; [lia|]. eapply er_last; [|done]. eapply er_last; [|done].
    by apply (er_iter f encode_field_type ts').
  - destruct (er_cont_type c Ht) as (c' & Ec & Hr). eexists _, _, _.
    simpl. rewrite Ec. split; [done|]. split; [done|]. split; [lia|].
    eapply er_last; [exact Hr|done].
Qed.

Lemma read_composite_type_eq op :
  read_composite_type op
  = ('(shared, op) ← (if op =? 0x65 then op ← read_u8; mret (true, op) else mret (false, op));
     inner ← read_inner op;
     mret (mkCompositeType inner shared)).
Proof. done. Qed.

Lemma er_composite t :
  inner_wf (inner t) ->
  exists t' op e, composite_type t = ROk t'
    /\ (if WEType.shared t' then push 0x65 else Some []) +> encode_inner (WEType.inner t')
       = push op +> e
    /\ (0x5d <= op <= 0x60 \/ op = 0x65) /\ enc_reads f e (read_composite_type op) t.
Proof.
  intros Ht. destruct (er_inner (inner t) Ht) as (i' & op & e & Ei & Ee & Hop & Hr).
  exists (WEType.mkCompositeType i' (ct_shared t)), (if ct_shared t then 0x65 else op),
    (if ct_shared t then push op +> e else e).
  split. { unfold composite_type. fold (translate_inner (inner t)). by rewrite Ei. }
  cbn [WEType.shared WEType.inner]. rewrite Ee, read_composite_type_eq.
  destruct t as [i []]; cbn [ct_shared inner] in *.
  - split; [done|]. split; [lia|]. rewrite Z.eqb_refl.
    eapply er_bind; [eapply er_last; [apply er_push|done]|]. cbv iota beta.
    eapply er_last; [exact Hr|done].
  - split; [apply and_then_nil_l|]. split; [lia|].
    rewrite (proj2 (Z.eqb_neq op 0x65)) by lia. apply er_ret_bind. cbv iota beta.
    eapply er_last; [exact Hr|done].
Qed.

(** The supertype: a list of at most one index. *)
Lemma er_supertype s :
  match s with Some p => index_module p | None => True end ->
  exists s' idxs,
    match s with
    | Some i => u ← unwrap_outcome (unpack i); i ← type_index_unpacked u; mret (Some i)
    | None => mret None
    end = ROk s'
    /\ enc_reads f (encode_option encode_u32 s')
         (read_iter (A := Z) MAX_WASM_SUPERTYPES "supertype idxs") idxs
    /\ (length idxs <= 1)%nat
    /\ match idxs, s with
       | [], None => True
       | [i], Some p => from_module_index i = Some p
       | _, _ => False
       end
    /\ (s' = None <-> s = None).
Proof.
  destruct s as [p|].
  - intros (i & Hi & Hp & Hun). exists (Some i), [i]. rewrite Hun. split; [done|].
    split; [|done]. unfold in_u in Hi.
    change (encode_option encode_u32 (Some i)) with (push 1 +> encode_u32 i).
    eapply er_bind.
    { apply er_gets. intros pos. eapply er_last; [by apply er_push_u32|done]. }
    change (Z.to_nat 1) with 1%nat. cbn [read_n].
    eapply er_last; [|done]. apply er_u32; [exact LS|unfold in_u; lia].
  - intros _. exists None, []. split; [done|]. split; [|simpl; split; [lia|done]].
    change (encode_option encode_u32 None) with (push 0).
    rewrite <- (and_then_nil_r (push 0)). eapply er_bind.
    { apply er_gets. intros pos. eapply er_last; [by apply er_push_u32|done]. }
    apply er_ret.
Qed.

(** A subtype with its prefix byte. *)
Lemma er_sub_prefixed (fin : bool) (s : option PackedIndex) c (s' : option Z) idxs op e :
  enc_reads f (encode_option encode_u32 s')
    (read_iter (A := Z) MAX_WASM_SUPERTYPES "supertype idxs") idxs ->
  (length idxs <= 1)%nat ->
  match idxs, s with
  | [], None => True
  | [i], Some p => from_module_index i = Some p
  | _, _ => False
  end ->
  enc_reads f e (read_composite_type op) c ->
  enc_reads f (push (if fin then 0x4f else 0x50) +> encode_option encode_u32 s' +> push op +> e)
    from_reader_sub_type (mkSubType fin s c).
Proof.
  intros Hidx Hl Hm Hr. unfold from_reader_sub_type. apply er_gets. intros pos.
  eapply er_bind; [apply er_push|].
  replace (((if fin then 79 else 80) =? 79) || ((if fin then 79 else 80) =? 80)) with true
    by by destruct fin.
  replace ((if fin then 79 else 80) =? 79) with fin by by destruct fin. cbv iota.
  eapply er_bind; [exact Hidx|].
  destruct (Z.ltb_spec 1 (Z.of_nat (length idxs))); [lia|].
  assert (Hrest : enc_reads f (push op +> e)
    (op ← read_u8; composite_type ← read_composite_type op;
     mret (mkSubType fin s composite_type)) (mkSubType fin s c)).
  { eapply er_bind; [apply er_push|]. eapply er_last; [exact Hr|done]. }
  destruct idxs as [|i [|? ?]], s as [p|]; try done.
  rewrite <- (and_then_nil_l (push op +> e)). eapply er_bind; [|exact Hrest].
  apply er_gets. intros pos'. rewrite Hm. apply (er_ret f).
Qed.

Lemma er_sub_type t :
  sub_type_wf t ->
  exists t', sub_type t = ROk t'
    /\ enc_reads f (WEType.encode_subtype false t') from_reader_sub_type t
    /\ exists b e, WEType.encode_subtype false t' = push b +> e /\ 0x4f <= b <= 0x65.
Proof.
  intros [Hi Hs].
  destruct (er_composite (composite_type_of t) Hi) as (c' & op & e & Ec & Ee & Hop & Hr).
  destruct (er_supertype (supertype_idx t) Hs) as (s' & idxs & Es & Hidx & Hlen & Hm & Hnone).
  exists (WEType.mkSubType (is_final t) s' c').
  split. { unfold sub_type. rewrite Es. cbn [mbind outcome_bind]. by rewrite Ec. }
  destruct t as [fin s c]; cbn [is_final supertype_idx composite_type_of] in *.
  pose proof (er_sub_prefixed fin s c s' idxs op e Hidx Hlen Hm Hr) as Hpre.
  unfold WEType.encode_subtype. cbn [WEType.supertype_idx WEType.is_final WEType.composite_type].
  fold (encode_inner (WEType.inner c')). rewrite Ee.
  destruct (bool_decide (s' <> None) || negb fin) eqn:Hb.
  - replace (if fin then push 79 else Some [] +> push 80) with (push (if fin then 79 else 80))
      by by destruct fin.
    rewrite and_then_assoc. split; [done|]. eexists _, _. split; [done|]. destruct fin; lia.
  - apply orb_false_iff in Hb as [Hb Hf]. apply bool_decide_eq_false_1 in Hb.
    assert (s' = None) as -> by (destruct s'; [by destruct Hb|done]).
    assert (s = None) as -> by by apply Hnone. destruct fin; [|done].
    rewrite and_then_nil_l. split; [|exists op, e; split; [done|lia]].
    apply er_gets. intros pos. eapply er_bind; [apply er_push|].
    rewrite (proj2 (Z.eqb_neq op 0x4f)), (proj2 (Z.eqb_neq op 0x50)) by lia. cbv iota.
    eapply er_last; [exact Hr|done].
Qed.

(** ** Recursion groups *)

Lemma reads_types_with_offsets ts :
  Forall sub_type_wf ts ->
  exists ts' bs, mapM sub_type ts = ROk ts' /\ length ts' = length ts
    /\ encode_items (WEType.encode_subtype false) ts' = Some bs
    /\ reads_ex f (read_types_with_offsets (length ts)) bs (fun ys => map snd ys = ts).
Proof.
  induction 1 as [|t ts Ht _ IH].
  - exists [], []. do 3 (split; [done|]). apply (reads_reads_ex f _ _ []); [apply reads_ret|done].
  - destruct (er_sub_type t Ht) as (t' & Et & (b1 & E1 & H1) & _).
    destruct IH as (ts' & b2 & Ets & Hl & E2 & H2). exists (t' :: ts'), (b1 ++ b2).
    cbn [mapM]. rewrite Et. cbn [mbind outcome_bind]. rewrite Ets. split; [done|].
    split; [simpl; lia|]. cbn [encode_items]. rewrite E1, E2. split; [done|].
    cbn [length read_types_with_offsets]. apply reads_ex_gets. intros pos.
    eapply reads_ex_bind; [by apply (reads_reads_ex f _ _ t (eq t) H1)|]. intros ? <-.
    rewrite <- (app_nil_r b2). eapply reads_ex_bind; [exact H2|]. intros ys <-.
    by apply (reads_reads_ex f _ _ ((pos, t) :: ys)); [apply reads_ret|].
Qed.

Lemma reads_ex_peek {B} (k : Z -> Reader B) b bs Q :
  reads_ex f (k b) (b :: bs) Q -> reads_ex f (peek ≫= k) (b :: bs) Q.
Proof.
  intros H r rest Hwf Hf E. unfold mbind, ST_bind.
  rewrite (peek_cons r b (bs ++ rest)) by done. by apply (H r rest).
Qed.

(** A group re-encodes to bytes that read back to it, offsets apart. *)
Lemma rec_group_reencode g s :
  rec_group_wf g ->
  exists e bs, parse_recursive_type_group g s = unwrap_outcome (add_item e s)
    /\ e = Some bs /\ reads_ex f from_reader_rec_group bs (rec_group_equiv g).
Proof.
  intros [Hts Hl]. unfold parse_recursive_type_group.
  destruct g as [[[off t]|ts]]; cbn [is_explicit_rec_group group_inner].
  - unfold into_types in *. cbn in Hts |- *. apply Forall_cons in Hts as [Ht _].
    destruct (er_sub_type t Ht) as (t' & Et & (bs & Eb & Hr) & b & e & Ee & Hb).
    exists (WEType.encode_subtype false t'), bs. rewrite Et. split; [done|]. split; [done|].
    rewrite Ee in Eb. destruct e as [bs'|]; [|done]. injection Eb as <-. apply reads_ex_peek.
    assert (Hm : reads_ex f (pos ← gets original_position; ty ← read (A := SubType);
      mret (rec_group_implicit pos ty)) (b :: bs') (rec_group_equiv (mkRecGroup (Implicit (off, t))))).
    { apply reads_ex_gets. intros pos. rewrite <- (app_nil_r (b :: bs')).
      eapply reads_ex_bind; [by apply (reads_reads_ex f _ _ t (eq t) Hr)|]. intros ? <-.
      by apply (reads_reads_ex f _ _ (rec_group_implicit pos t)); [apply reads_ret|]. }
    clear Hr Ee. byte_default Hm.
  - unfold into_types in *. cbn in Hts, Hl |- *.
    destruct (reads_types_with_offsets (map snd ts) Hts) as (ts' & bs & Ets & Hlen & Eb & Hr).
    destruct (er_size f (Z.of_nat (length ts')) MAX_WASM_TYPES "rec group types")
      as (nb & En & Hn); [rewrite Hlen; lia|done|].
    exists (WEType.rec ts'), (0x4e :: nb ++ bs).
    rewrite Ets. split; [done|]. split; [unfold WEType.rec; by rewrite En, Eb|].
    apply reads_ex_peek. cbv iota. apply (reads_ex_bind f _ _ [0x4e] _ (eq 0x4e)).
    { by apply (reads_reads_ex f _ _ 0x4e), eq_refl; apply reads_u8. }
    intros _ _. eapply reads_ex_bind; [by apply (reads_reads_ex f _ _ _ (eq (Z.of_nat (length ts'))) Hn)|].
    intros ? <-. rewrite Nat2Z.id, Hlen, <- (app_nil_r bs).
    eapply reads_ex_bind; [exact Hr|]. intros ys Hys.
    by apply (reads_reads_ex f _ _ (rec_group_explicit ys)); [apply reads_ret|].
Qed.
End roundtrip.
