(* ===== verification/SectionSpec.v ===== *)
(** Sections of items: what iterating over a section does, and the round trip of
    a section for any kind of item whose own translation is correct. *)

From Stdlib Require Import ZArith Lia String.
From stdpp Require Import prelude.
From S2P Require Import Prelude Leb128 BinaryReader BinaryReaderSpec ReaderLogic Encode Types Operands.
From S2P Require Import Operators OperatorReader Instructions Reencode OperandSpec OperandRoundtrip.
From S2P Require Import InstrRoundtrip SectionReader Locality FunctionSpec.

Local Open Scope Z_scope.

(** ** Iterating *)

Definition trailing_data_error (r : BinaryReader) : BinaryReaderError :=
  err_new (lit "section size mismatch: unexpected data at the end of the section")
    (original_position r).

(** The items a section yields, and how the iteration ends. *)
Fixpoint section_items {A} `{FromReader A} (n : nat) (r : BinaryReader) : list A * result () :=
  match n with
  | O => ([], if eof r then Ok tt else Err (trailing_data_error r))
  | S n' =>
      match read r with
      | (Ok x, r') => let (xs, st) := section_items n' r' in (x :: xs, st)
      | (Err e, _) => ([], Err e)
      | (Panic, _) => ([], Panic)
      end
  end.

Fixpoint fold_outcome {A S} (body : A -> S -> outcome S) (xs : list A) (s : S) : outcome S :=
  match xs with
  | [] => ROk s
  | x :: xs' => s' ← body x s; fold_outcome body xs' s'
  end.

Section iterate.
Context {A S : Type} `{FromReader A}.

(** Taking the next item of an iterator that has not met an error. *)
Lemma section_next_items n r c :
  section_next (A := A) (mkIter (mkSection r c) (Z.of_nat n) false)
  = match n with
    | O => if eof r then (None, mkIter (mkSection r c) 0 true)
           else (Some (Err (trailing_data_error r)), mkIter (mkSection r c) 0 true)
    | Datatypes.S n' =>
        let (x, r') := read r in (Some x, mkIter (mkSection r' c) (Z.of_nat n') (is_err x))
    end.
Proof.
  unfold section_next. cbn [iter_end remaining section sec_reader sec_count].
  destruct n as [|n]; [done|]. destruct (Z.eqb_spec (Z.of_nat (Datatypes.S n)) 0); [lia|].
  by replace (Z.of_nat (Datatypes.S n) - 1) with (Z.of_nat n) by lia.
Qed.

Lemma for_iter_items (body : A -> S -> outcome S) n fuel r c s :
  (n + 1 < fuel)%nat ->
  for_iter fuel body (mkIter (mkSection r c) (Z.of_nat n) false) s
  = let (xs, st) := section_items n r in
    s' ← fold_outcome body xs s; from_result st;; ROk s'.
Proof.
  revert fuel r s. induction n as [|n IH]; intros [|fuel] r s Hf; try lia;
    cbn [for_iter]; rewrite section_next_items; cbn [section_items].
  - by destruct (eof r).
  - destruct (read r) as [[x|e|] r1]; [|done..]. cbn [is_err from_result mbind outcome_bind].
    specialize (IH fuel r1). destruct (section_items n r1) as [xs st].
    cbn [fold_outcome mbind outcome_bind].
    destruct (body x s) as [s1| |]; [|done..]. cbn [mbind outcome_bind]. apply IH. lia.
Qed.

Lemma collect_iter_items n fuel r c :
  (n + 1 < fuel)%nat ->
  collect_iter (A := A) fuel (mkIter (mkSection r c) (Z.of_nat n) false)
  = let (xs, st) := section_items n r in
    match st with Ok _ => Ok xs | Err e => Err e | Panic => Panic end.
Proof.
  revert fuel r. induction n as [|n IH]; intros [|fuel] r Hf; try lia;
    cbn [collect_iter]; rewrite section_next_items; cbn [section_items].
  - by destruct (eof r).
  - destruct (read r) as [[x|e|] r1]; [|done..]. cbn [is_err].
    rewrite (IH fuel r1) by lia. destruct (section_items n r1) as [xs [u|e|]]; done.
Qed.

Lemma for_each_items (body : A -> S -> outcome S) r n s :
  0 <= n ->
  for_each body (mkSection r n) s
  = let (xs, st) := section_items (Z.to_nat n) r in
    s' ← fold_outcome body xs s; from_result st;; ROk s'.
Proof.
  intros Hn. unfold for_each, section_into_iter. cbn [sec_count].
  rewrite <- (Z2Nat.id n) at 3 by done. apply for_iter_items. lia.
Qed.

Lemma section_collect_items r n :
  0 <= n ->
  section_collect (A := A) (mkSection r n)
  = let (xs, st) := section_items (Z.to_nat n) r in
    match st with Ok _ => Ok xs | Err e => Err e | Panic => Panic end.
Proof.
  intros Hn. unfold section_collect, section_into_iter. cbn [sec_count].
  rewrite <- (Z2Nat.id n) at 3 by done. apply collect_iter_items. lia.
Qed.

(** Items read one after the other, and nothing after them. *)
Lemma section_items_read_n n r xs r' :
  read_n n r = (Ok xs, r') -> eof r' = true -> section_items n r = (xs, Ok tt).
Proof.
  revert r xs. induction n as [|n IH]; intros r xs Hr He; cbn [read_n section_items] in *.
  - injection Hr as <- <-. by rewrite He.
  - rewrite ST_bind_eq in Hr. destruct (read r) as [[x|e|] r1]; [|done..].
    rewrite ST_bind_eq in Hr. destruct (read_n n r1) as [[ys|e|] r2] eqn:Ey; [|done..].
    injection Hr as <- <-. by rewrite (IH r1 ys).
Qed.
End iterate.

(** ** Kinds of items *)

(** An item, how it is translated and what a re-encoded item keeps of it.
    [item_check] is what the translation still finds out about an item that was
    read; [item_fits] says that its encoding is not too long. *)
Class SectionItem (A : Type) `{FromReader A} := {
  parse_item : A -> SectionBuilder -> outcome SectionBuilder;
  item_wf : WasmFeatures -> A -> Prop;
  item_check : A -> result ();
  item_fits : A -> Prop;
  item_equiv : A -> A -> Prop;
}.

Class SectionItemLaws (A : Type) `{SectionItem A} : Prop := {
  item_read E r0 k (Q : A -> nat -> Prop) :
    wp_env E r0 -> (forall e, arity_error e -> E e) ->
    (forall a k', (k < k')%nat -> item_wf (features r0) a -> Q a k') ->
    wp E r0 k (read (A := A)) Q;
  item_parse f a s :
    item_wf f a ->
    match item_check a with
    | Ok _ => exists e, parse_item a s = unwrap_outcome (add_item e s)
        /\ (item_fits a -> exists bs, e = Some bs)
        /\ (forall bs, e = Some bs -> reads_ex f read bs (item_equiv a))
    | Err e => parse_item a s = RErr (ParseError e)
    | Panic => False
    end;
}.

(** ** Reading back *)

(** A section as the parser of a module reads it: a size, then the content. *)
Definition read_section (A : Type) `{FromReader A} : Reader (list A) := fun r =>
  match read_reader r with
  | (Ok br, r') =>
      (match section_new br with
       | Ok sec => section_collect (A := A) sec
       | Err e => Err e
       | Panic => Panic
       end, r')
  | (Err e, r') => (Err e, r')
  | (Panic, r') => (Panic, r')
  end.

Section generic.
Context {A : Type} `{SectionItemLaws A} {L : Leb128} {LS : Leb128Spec L}.

Lemma section_items_ok n r :
  wf_reader r ->
  Forall (item_wf (features r)) (section_items (A := A) n r).1
  /\ (length (section_items (A := A) n r).1 <= n)%nat
  /\ match (section_items (A := A) n r).2 with
     | Ok _ => True
     | Err e => err_in_range r e \/ arity_error e
     | Panic => False
     end.
Proof.
  revert r. induction n as [|n IH]; intros r Hwf; cbn [section_items].
  { cbn [fst snd]. split; [constructor|]. split; [done|]. destruct (eof r) eqn:He; [done|]. left.
    destruct Hwf. unfold err_in_range, trailing_data_error, original_position.
    unfold err_new, buffer_len in *. simpl. lia. }
  assert (Henv : wp_env (fun e => err_in_range r e \/ arity_error e) r).
  { split; [done|by left|]. intros m e Hk [He|[_ Hc]]; [by left|congruence]. }
  destruct (item_read _ r 0 (fun a k => item_wf (features r) a /\ (0 < k)%nat) Henv
    ltac:(by right) ltac:(done) ltac:(lia)) as (k & Hk & E & Hm). rewrite advance_0 in *.
  destruct (read r) as [[x|e|] r1]; simpl in *; subst.
  - destruct (IH (advance k r)) as (Hws & Hl & Hst); [by apply wf_advance; [|lia]|].
    destruct (section_items n (advance k r)) as [xs st]. simpl in *.
    split; [constructor; [apply Hm|done]|]. split; [lia|]. destruct st as [| |]; [done| |done].
    destruct Hst as [Hst|Hst]; [left|by right]. unfold err_in_range in *.
    rewrite advance_original_position in Hst. change (buffer_len (advance k r)) with (buffer_len r) in Hst.
    change (original_offset (advance k r)) with (original_offset r) in Hst. lia.
  - split; [constructor|]. split; [lia|done].
  - done.
Qed.

Definition items_check (xs : list A) : result () :=
  fold_right (fun x acc => match item_check x with Ok _ => acc | y => y end) (Ok tt) xs.

(** Translating the items appends their encodings. *)
Lemma fold_parse_items f xs s :
  Forall (item_wf f) xs ->
  0 <= num_added s -> num_added s + Z.of_nat (length xs) < 2 ^ 32 ->
  match items_check xs with
  | Ok _ =>
      (Forall item_fits xs -> exists s', fold_outcome parse_item xs s = ROk s')
      /\ (forall s', fold_outcome parse_item xs s = ROk s' ->
            num_added s' = num_added s + Z.of_nat (length xs)
            /\ exists bs, bytes s' = bytes s ++ bs
               /\ reads_ex f (read_n (length xs)) bs (Forall2 item_equiv xs))
      /\ (forall e, fold_outcome parse_item xs s <> RErr e)
  | Err e => Forall item_fits xs -> fold_outcome parse_item xs s = RErr (ParseError e)
  | Panic => False
  end.
Proof.
  intros Hxs. revert s. induction Hxs as [|x xs Hx _ IH]; intros s Hs Hl.
  - split; [by exists s|]. split; [|done]. intros s' [= <-]. split; [simpl; lia|].
    exists []. rewrite app_nil_r. split; [done|].
    apply (reads_reads_ex f _ _ []); [apply reads_ret|constructor].
  - pose proof (item_parse f x s Hx) as Hp. cbn [items_check fold_right fold_outcome length] in *.
    destruct (item_check x) as [u|e|]; [|by intros _; rewrite Hp|done].
    fold (items_check xs) in *. destruct Hp as (e & -> & Hfit & Hrd).
    unfold add_item. destruct (Z.eqb_spec (num_added s) (2 ^ 32 - 1)); [lia|].
    destruct e as [bs|]; cbn [mbind option_bind unwrap_outcome outcome_bind].
    2: { destruct (items_check xs) as [u'|e'|] eqn:Ec.
         - split; [|by split]. intros Hf. apply Forall_cons in Hf as [Hf _].
           by destruct (Hfit Hf).
         - intros Hf. apply Forall_cons in Hf as [Hf _]. by destruct (Hfit Hf).
         - by apply (IH SectionBuilder_new); simpl; lia. }
    specialize (IH (mkBuilder (bytes s ++ bs) (num_added s + 1)) ltac:(simpl; lia) ltac:(simpl; lia)).
    destruct (items_check xs) as [u'|e'|]; [|intros Hf; apply Forall_cons in Hf as [_ Hf]; auto|done].
    destruct IH as (Hok & Hback & Hne).
    split; [intros Hf; apply Forall_cons in Hf as [_ Hf]; auto|]. split; [|done].
    intros s' Es. destruct (Hback s' Es) as (Hn & bs' & Eb & Hr). cbn [num_added bytes] in *.
    split; [lia|]. exists (bs ++ bs'). rewrite Eb, app_assoc. split; [done|]. cbn [read_n].
    eapply reads_ex_bind; [by apply Hrd|]. intros y Hy. rewrite <- (app_nil_r bs').
    eapply reads_ex_bind; [exact Hr|]. intros ys Hys.
    by apply (reads_reads_ex f _ _ (y :: ys)); [apply reads_ret|constructor].
Qed.

(** A section's content, read back. *)
Lemma content_read_back f br count body (P : list A -> Prop) :
  wf_reader br -> features br = f -> in_u 32 count ->
  reads_ex f (read_n (Z.to_nat count)) body P -> remaining_buffer br = write_unsigned count ++ body ->
  exists sec xs, section_new br = Ok sec /\ section_collect (A := A) sec = Ok xs /\ P xs.
Proof.
  intros Hwf Hf Hc Hbody Er. destruct (advance_app br _ _ Hwf Er) as [Hwf3 Er3].
  rewrite <- (app_nil_r body) in Er3.
  destruct (Hbody _ [] Hwf3 ltac:(done) Er3) as (xs & Hxs & HP).
  eexists _, xs. split; [|split; [|exact HP]].
  - unfold section_new. by rewrite (reads_var_u32 f _ Hc br body Hwf Hf Er).
  - rewrite section_collect_items by apply Hc.
    rewrite (section_items_read_n _ _ xs _ Hxs); [done|].
    destruct (advance_app _ body [] Hwf3 Er3) as [Hwf4 Er4].
    rewrite remaining_nil_eof by done. by rewrite bool_decide_eq_true_2.
Qed.
(** A section of items read one after the other, with its count and its size. *)
Lemma reads_section f count body (P : list A -> Prop) bs :
  in_u 32 count ->
  reads_ex f (read_n (Z.to_nat count)) body P -> encode_section count body = Some bs ->
  reads_ex f (read_section A) bs P.
Proof.
  intros Hc Hbody Henc r rest Hwf Hf Er. unfold encode_section, encoding_size in Henc.
  destruct (Z.leb_spec (Z.of_nat (length (write_unsigned count))) 5); [|done].
  cbn [mbind option_bind] in Henc. set (payload := write_unsigned count ++ body).
  assert (Hlen : Z.of_nat (length (write_unsigned count)) + Z.of_nat (length body)
    = Z.of_nat (length payload)) by (unfold payload; rewrite length_app; lia).
  rewrite Hlen in Henc. unfold encode_usize in Henc.
  destruct (Z.leb_spec (Z.of_nat (length payload)) (2 ^ 32 - 1)) as [Hp|]; [|done].
  injection Henc as <-. fold payload in Er |- *.
  set (sz := write_unsigned (Z.of_nat (length payload))) in *. rewrite <- app_assoc in Er.
  destruct (advance_app r sz _ Hwf Er) as [Hwf1 Er1].
  assert (Hrr : read_reader r
    = (Ok (slice_reader (advance (length sz) r) payload), advance (length (sz ++ payload)) r)).
  { unfold read_reader. rewrite ST_bind_eq.
    rewrite (reads_var_u32 f (Z.of_nat (length payload)) ltac:(unfold in_u; lia) r
      (payload ++ rest) Hwf Hf Er).
    rewrite (skip_ok _ _ payload rest Hwf1); [by rewrite length_app, advance_advance| |done].
    by rewrite ST_bind_eq, (reads_bytes f payload _ eq_refl (advance (length sz) r) rest Hwf1 Hf Er1). }
  pose proof (at_slice_reader _ _ _ Hwf1 Er1) as [Hwf2 Hf2 _ Er2].
  set (br := slice_reader _ _) in *. rewrite app_nil_r in Er2.
  destruct (content_read_back f br count body P Hwf2 ltac:(by rewrite Hf2) Hc Hbody Er2)
    as (sec & xs & Hsec & Hcol & HP).
  exists xs. split; [|done]. unfold read_section. by rewrite Hrr, Hsec, Hcol.
Qed.

Lemma encode_builder_fails s :
  in_u 32 (num_added s) -> encode_builder s = None -> 2 ^ 32 <= Z.of_nat (length (bytes s)) + 5.
Proof.
  intros Hn. unfold encode_builder, encode_section, encoding_size.
  assert (Hl : (length (write_unsigned (num_added s)) <= 5)%nat).
  { apply (write_unsigned_length 4); unfold in_u in *; simpl in *; lia. }
  rewrite (proj2 (Z.leb_le _ _)) by lia. cbn [mbind option_bind]. unfold encode_usize.
  destruct (Z.leb_spec (Z.of_nat (length (write_unsigned (num_added s)))
    + Z.of_nat (length (bytes s))) (2 ^ 32 - 1)); [done|lia].
Qed.

(** Re-encoding a section, from arbitrary bytes. *)
Lemma reencode_section r sec :
  wf_reader r -> section_new r = Ok sec ->
  exists (xs : list A) (st : result ()),
    section_collect (A := A) sec = match st with Ok _ => Ok xs | Err e => Err e | Panic => Panic end
    /\ match items_check xs, st with
       | Ok _, Ok _ =>
           (Forall item_fits xs ->
              exists s, for_each parse_item sec SectionBuilder_new = ROk s)
           /\ forall s, for_each parse_item sec SectionBuilder_new = ROk s ->
              num_added s = Z.of_nat (length xs)
              /\ (encode_builder s = None -> 2 ^ 32 <= Z.of_nat (length (bytes s)) + 5)
              /\ forall bs, encode_builder s = Some bs ->
                 reads_ex (features r) (read_section A) bs (Forall2 item_equiv xs)
       | Ok _, Err e | Err e, _ =>
           Forall item_fits xs ->
           for_each parse_item sec SectionBuilder_new = RErr (ParseError e)
       | _, _ => False
       end.
Proof.
  intros Hwf Hsec. unfold section_new in Hsec.
  destruct (read_var_u32 r) as [[n|e|] r1] eqn:En; try done. injection Hsec as <-.
  pose proof (read_var_u32_inv r n r1 Hwf En) as [Hn _].
  destruct (local_var_u32 r n r1 Hwf En) as (nb & _ & Enb & Er1 & _).
  assert (Hwf1 : wf_reader r1) by by eapply local_reader_wf; [apply local_var_u32|..].
  destruct (section_items_ok (Z.to_nat n) r1 Hwf1) as (Hws & Hl & Hst).
  rewrite section_collect_items, for_each_items by apply Hn.
  destruct (section_items (Z.to_nat n) r1) as [xs st] eqn:Ei. cbn [fst snd] in *.
  exists xs, st. split; [done|]. subst r1. cbn [features advance set_position] in Hws.
  assert (Hlen : Z.of_nat (length xs) < 2 ^ 32) by (unfold in_u in Hn; lia).
  pose proof (fold_parse_items _ xs SectionBuilder_new Hws ltac:(done) ltac:(simpl; lia)) as Hf.
  destruct (items_check xs) as [u|e|]; [|by intros Hfit; rewrite Hf|done].
  destruct Hf as (Hok & Hback & _).
  destruct st as [[]|e|]; [|intros Hfit; by destruct (Hok Hfit) as [s ->]|done].
  split; [intros Hfit; destruct (Hok Hfit) as [s ->]; by exists s|].
  intros s Hs. destruct (fold_outcome parse_item xs SectionBuilder_new) as [s1| |] eqn:Es;
    try done. injection Hs as ->.
  destruct (Hback s eq_refl) as (Hns & bs & Eb & Hr). cbn [num_added bytes SectionBuilder_new] in *.
  split; [done|]. assert (Hin : in_u 32 (num_added s)) by (unfold in_u; lia).
  split; [by apply encode_builder_fails|].
  intros out Hout. eapply reads_section; [exact Hin| |exact Hout].
  replace (Z.to_nat (num_added s)) with (length xs) by lia. by rewrite Eb.
Qed.
(** What a successful translation says. *)
Lemma fold_parse_checked f xs s s' :
  Forall (item_wf f) xs -> fold_outcome parse_item xs s = ROk s' -> exists u, items_check xs = Ok u.
Proof.
  intros Hxs. revert s. induction Hxs as [|x xs Hx _ IH]; intros s Hs; [by exists tt|].
  pose proof (item_parse f x s Hx) as Hp. cbn [items_check fold_right fold_outcome] in *.
  destruct (item_check x) as [u|e|]; [|by rewrite Hp in Hs|done].
  destruct (parse_item x s) as [s1| |]; [|done..]. by apply (IH s1).
Qed.

Lemma translate_section r sec s :
  wf_reader r -> section_new r = Ok sec -> for_each parse_item sec SectionBuilder_new = ROk s ->
  exists xs : list A, section_collect (A := A) sec = Ok xs
    /\ num_added s = Z.of_nat (length xs) /\ in_u 32 (num_added s)
    /\ reads_ex (features r) (read_n (length xs)) (bytes s) (Forall2 item_equiv xs)
    /\ exists u, items_check xs = Ok u.
Proof.
  intros Hwf Hsec Hs. unfold section_new in Hsec.
  destruct (read_var_u32 r) as [[n|e|] r1] eqn:En; try done. injection Hsec as <-.
  pose proof (read_var_u32_inv r n r1 Hwf En) as [Hn _].
  destruct (local_var_u32 r n r1 Hwf En) as (nb & _ & Enb & Er1 & _).
  assert (Hwf1 : wf_reader r1) by by eapply local_reader_wf; [apply local_var_u32|..].
  destruct (section_items_ok (Z.to_nat n) r1 Hwf1) as (Hws & Hl & Hst).
  rewrite section_collect_items by apply Hn. rewrite for_each_items in Hs by apply Hn.
  destruct (section_items (Z.to_nat n) r1) as [xs st] eqn:Ei. cbn [fst snd] in *.
  destruct (fold_outcome parse_item xs SectionBuilder_new) as [s1| |] eqn:Es; try done.
  destruct st as [[]|e|]; try done. injection Hs as ->. exists xs. split; [done|].
  subst r1. cbn [features advance set_position] in Hws. unfold in_u in Hn.
  pose proof (fold_parse_items _ xs SectionBuilder_new Hws ltac:(done) ltac:(simpl; lia)) as Hf.
  destruct (fold_parse_checked _ xs _ s Hws Es) as [u Hc]. rewrite Hc in Hf.
  destruct Hf as (_ & Hback & _). destruct (Hback s Es) as (Hns & bs & Eb & Hr).
  cbn [num_added bytes SectionBuilder_new app] in *. rewrite Eb. unfold in_u. split_and!; [lia|lia|lia|done|by eexists].
Qed.

End generic.
