(* ===== verification/ItemSpec.v ===== *)
(** The items of the sections: reading them from arbitrary bytes, and reading
    back what wasm-encoder writes for them. *)

From Stdlib Require Import ZArith Lia String.
From stdpp Require Import prelude.
From S2P Require Import Prelude Leb128 BinaryReader BinaryReaderSpec ReaderLogic Encode Types TypesSpec.
From S2P Require Import EncTypes Operands Operators OperatorReader Instructions Reencode OperandSpec.
From S2P Require Import OperandRoundtrip OperatorSpec InstrRoundtrip SectionReader Items EncSections.
From S2P Require Import ReencodeSections Locality FunctionSpec SectionSpec.

Local Open Scope Z_scope.

(** ** Well-formed items *)

Definition str_wf (s : Str) : Prop :=
  from_utf8 (str_bytes s) = true /\ Z.of_nat (length (str_bytes s)) <= MAX_WASM_STRING_SIZE.

Definition limit_wf (wide : bool) (v : Z) : Prop := in_u (if wide then 64 else 32) v.

Definition limits_wf (wide : bool) (initial : Z) (maximum : option Z) : Prop :=
  limit_wf wide initial /\ match maximum with Some m => limit_wf wide m | None => True end.

Definition table_type_wf (t : TableType) : Prop :=
  rt_module (table_element_type t)
  /\ limits_wf (table64 t) (table_initial t) (table_maximum t).

Definition memory_type_wf (t : MemoryType) : Prop :=
  limits_wf (mem_memory64 t) (mem_initial t) (mem_maximum t)
  /\ match page_size_log2 t with Some p => in_u 32 p | None => True end.

Definition tag_type_wf (t : TagType) : Prop := in_u 32 (func_type_idx t).

Definition global_type_wf (f : WasmFeatures) (t : GlobalType) : Prop :=
  vt_module (content_type t) /\ (global_shared t = true -> shared_everything_threads f = true).

Definition type_ref_wf (f : WasmFeatures) (t : TypeRef) : Prop :=
  match t with
  | TR_Func i => in_u 32 i
  | TR_Table t => table_type_wf t
  | TR_Memory t => memory_type_wf t
  | TR_Global t => global_type_wf f t
  | TR_Tag t => tag_type_wf t
  end.

Definition import_wf (f : WasmFeatures) (i : Import) : Prop :=
  str_wf (import_module i) /\ str_wf (import_name i) /\ type_ref_wf f (import_ty i).

Definition export_wf (e : Export) : Prop := str_wf (export_name e) /\ in_u 32 (export_index e).

Definition table_wf (f : WasmFeatures) (t : Table) : Prop :=
  table_type_wf (table_ty t)
  /\ match table_init t with Expr e => const_expr_wf f e | RefNull => True end.

Definition global_wf (f : WasmFeatures) (g : Global) : Prop :=
  global_type_wf f (global_ty g) /\ const_expr_wf f (init_expr g).

Definition data_wf (f : WasmFeatures) (d : Data) : Prop :=
  Z.of_nat (length (data_bytes d)) < 2 ^ 32
  /\ match data_kind d with
     | DK_Active i e => in_u 32 i /\ const_expr_wf f e
     | DK_Passive => True
     end.

(** The items a section yields up to its end. *)
Definition yields {A} `{FromReader A} (sec : SectionLimited) (xs : list A) : Prop :=
  in_u 32 (sec_count sec)
  /\ section_items (Z.to_nat (sec_count sec)) (sec_reader sec) = (xs, Ok tt)
  /\ length xs = Z.to_nat (sec_count sec).

Definition element_items_wf (f : WasmFeatures) (i : ElementItems) : Prop :=
  match i with
  | EI_Functions sec => exists fs : list Z, yields sec fs /\ Forall (in_u 32) fs
  | EI_Expressions ty sec =>
      rt_module ty
      /\ exists es : list ConstExpr, yields sec es /\ Forall (const_expr_wf f) es
  end.

(** An active segment with no table index has functions or [funcref]s. *)
Definition element_wf (f : WasmFeatures) (e : Element) : Prop :=
  element_items_wf f (element_items_of e)
  /\ match element_kind e with
     | ELK_Active table_index offset =>
         const_expr_wf f offset
         /\ match table_index with
            | Some i => in_u 32 i
            | None => match element_items_of e with
                      | EI_Expressions ty _ => ty = Types.FUNCREF
                      | EI_Functions _ => True
                      end
            end
     | _ => True
     end.

(** ** Arbitrary bytes *)

Section wp.
Context (E : BinaryReaderError -> Prop) (r0 : BinaryReader).
Hypothesis Henv : wp_env E r0.
Implicit Types k : nat.

Lemma wp_read_string k (Q : list Z -> nat -> Prop) :
  (forall s k', (k < k')%nat -> str_wf (mkStr s) -> Q s k') -> wp E r0 k read_string Q.
Proof.
  intros HQ. unfold read_string, internal_read_string.
  do 2 wp_step. destruct (Z.ltb_spec MAX_WASM_STRING_SIZE v); [wp_run|].
  apply wp_bind, wp_bytes; [done|unfold in_u in *; lia|]. intros bs Hl Hb.
  destruct (from_utf8 bs) eqn:Hu; [wp_run|].
  - apply HQ; [lia|]. split; [done|]. cbn [str_bytes]. lia.
  - apply wp_fail_prev; [done|lia].
Qed.

Lemma wp_str k (Q : Str -> nat -> Prop) :
  (forall s k', (k < k')%nat -> str_wf s -> Q s k') -> wp E r0 k from_reader_str Q.
Proof.
  intros HQ. apply wp_bind, wp_read_string. intros s k' Hk Hs. apply wp_ret. by apply HQ.
Qed.

Lemma wp_external_kind k (Q : ExternalKind -> nat -> Prop) :
  (forall x, Q x (S k)) -> wp E r0 k from_reader_external_kind Q.
Proof.
  intros HQ. unfold from_reader_external_kind. do 4 wp_step.
  intros Hk. exists (S k). split; [lia|]. split; [done|]. unfold lift_result, external_kind_from_byte.
  pose proof (end_position E r0 Henv (S k) Hk).
  assert (He : forall m, E (err_new m (original_position r0 + Z.of_nat k))).
  { intros m. apply (env_err _ _ Henv). unfold err_in_range. simpl. lia. }
  repeat match goal with |- context [match ?x with _ => _ end] => is_var x; destruct x end;
    first [exact (HQ _) | exact (He _)].
Qed.

Lemma wp_limit k wide (Q : Z -> nat -> Prop) :
  (forall v k', (k < k')%nat -> limit_wf wide v -> Q v k') -> wp E r0 k (read_limit wide) Q.
Proof. intros HQ. unfold read_limit, limit_wf in *. destruct wide; wp_run; by apply HQ. Qed.

Lemma wp_maximum k has_max wide (Q : option Z -> nat -> Prop) :
  (forall o k', (k <= k')%nat ->
     match o with Some m => limit_wf wide m | None => True end -> Q o k') ->
  wp E r0 k (read_maximum has_max wide) Q.
Proof.
  intros HQ. unfold read_maximum. destruct has_max; cbn [negb].
  - apply wp_bind, wp_limit. intros v k1 Hk1 Hv. apply wp_ret, HQ; [lia|done].
  - apply wp_ret, HQ; [lia|done].
Qed.

Lemma wp_table_type k (Q : TableType -> nat -> Prop) :
  (forall t k', (k < k')%nat -> table_type_wf t -> Q t k') -> wp E r0 k from_reader_table_type Q.
Proof.
  intros HQ. unfold from_reader_table_type, read, from_reader, FromReader_RefType.
  apply wp_bind, wp_ref_type; [done|]. intros t k1 Hk1 Ht. do 4 wp_step.
  destruct (negb (Z.ldiff b 0x7 =? 0)); [wp_run|]. cbv zeta.
  apply wp_bind, wp_limit. intros v k2 Hk2 Hv. apply wp_bind, wp_maximum. intros o k3 Hk3 Ho.
  apply wp_ret, HQ; [lia|]. split; [done|]. by split.
Qed.

Lemma wp_memory_type k (Q : MemoryType -> nat -> Prop) :
  (forall t k', (k < k')%nat -> memory_type_wf t -> Q t k') ->
  wp E r0 k from_reader_memory_type Q.
Proof.
  intros HQ. unfold from_reader_memory_type. do 4 wp_step.
  destruct (negb (Z.ldiff b 0xf =? 0)); [wp_run|]. cbv zeta.
  apply wp_bind, wp_limit. intros v k2 Hk2 Hv. apply wp_bind, wp_maximum. intros o k3 Hk3 Ho.
  wp_run; (apply HQ; [lia|]); (split; [by split|done]).
Qed.

Lemma wp_tag_type k (Q : TagType -> nat -> Prop) :
  (forall t k', (k < k')%nat -> tag_type_wf t -> Q t k') -> wp E r0 k from_reader_tag_type Q.
Proof. intros HQ. unfold from_reader_tag_type. wp_run. apply HQ; [lia|done]. Qed.

Lemma wp_global_type k (Q : GlobalType -> nat -> Prop) :
  (forall t k', (k < k')%nat -> global_type_wf (features r0) t -> Q t k') ->
  wp E r0 k from_reader_global_type Q.
Proof.
  intros HQ. unfold from_reader_global_type, read, from_reader, FromReader_ValType.
  apply wp_bind, wp_val_type; [done|]. intros t k1 Hk1 Ht. do 4 wp_step. apply wp_bind.
  apply (wp_mono E r0 _ _ (fun _ k' => (k < k')%nat /\
    (0 < Z.land b 2 -> shared_everything_threads (features r0) = true))).
  - destruct (shared_everything_threads (features r0)); [wp_run; by split; [lia|]|].
    destruct (Z.ltb_spec 1 b); [wp_run|]. apply wp_ret. split; [lia|].
    assert (b = 0 \/ b = 1) as [ -> | -> ] by (unfold is_byte in *; lia); done.
  - intros _ k2 Hk2 [Hk2' Hs]. apply wp_ret, HQ; [lia|]. split; [done|]. cbn [global_shared].
    intros Hb. apply Hs. by apply Z.ltb_lt.
Qed.

Lemma wp_type_ref k (Q : TypeRef -> nat -> Prop) :
  (forall t k', (k < k')%nat -> type_ref_wf (features r0) t -> Q t k') ->
  wp E r0 k from_reader_type_ref Q.
Proof.
  intros HQ. unfold from_reader_type_ref, read, from_reader, FromReader_ExternalKind,
    FromReader_TableType, FromReader_MemoryType, FromReader_GlobalType, FromReader_TagType.
  apply wp_bind, wp_external_kind. intros [].
  - wp_run. apply HQ; [lia|done].
  - apply wp_bind, wp_table_type. intros t k1 Hk1 Ht. apply wp_ret, HQ; [lia|done].
  - apply wp_bind, wp_memory_type. intros t k1 Hk1 Ht. apply wp_ret, HQ; [lia|done].
  - apply wp_bind, wp_global_type. intros t k1 Hk1 Ht. apply wp_ret, HQ; [lia|done].
  - apply wp_bind, wp_tag_type. intros t k1 Hk1 Ht. apply wp_ret, HQ; [lia|done].
Qed.

Lemma wp_import k (Q : Import -> nat -> Prop) :
  (forall t k', (k < k')%nat -> import_wf (features r0) t -> Q t k') ->
  wp E r0 k from_reader_import Q.
Proof.
  intros HQ. unfold from_reader_import, read, from_reader, FromReader_Str, FromReader_TypeRef.
  apply wp_bind, wp_str. intros m k1 Hk1 Hm. apply wp_bind, wp_str. intros n k2 Hk2 Hn.
  apply wp_bind, wp_type_ref. intros t k3 Hk3 Ht. apply wp_ret, HQ; [lia|]. split; [done|]. by split.
Qed.

Lemma wp_export k (Q : Export -> nat -> Prop) :
  (forall t k', (k < k')%nat -> export_wf t -> Q t k') -> wp E r0 k from_reader_export Q.
Proof.
  intros HQ. unfold from_reader_export, read, from_reader, FromReader_Str, FromReader_ExternalKind.
  apply wp_bind, wp_str. intros m k1 Hk1 Hm. apply wp_bind, wp_external_kind. intros x.
  wp_run. apply HQ; [lia|by split].
Qed.
End wp.

(** ** Readers for a part of the buffer *)

Lemma read_reader_inv r br r' :
  wf_reader r -> read_reader r = (Ok br, r') ->
  wf_reader br /\ features br = features r /\ Z.of_nat (length (remaining_buffer br)) < 2 ^ 32.
Proof.
  intros Hwf Hr. unfold read_reader in Hr. rewrite ST_bind_eq in Hr.
  destruct (read_var_u32 r) as [[n|e|] r1] eqn:En; try done.
  pose proof (read_var_u32_inv r n r1 Hwf En) as [Hn _].
  assert (Hwf1 : wf_reader r1) by by eapply local_reader_wf; [apply local_var_u32|..].
  assert (Hf1 : features r1 = features r)
    by by destruct (local_var_u32 r n r1 Hwf En) as (nb & _ & _ & -> & _).
  assert (Hloc : local 0 (read_bytes n;; mret tt)).
  { apply local_bind_r; [apply local_bytes, Hn|]. intros. apply local_ret. }
  destruct (skip_inv _ _ r1 br r' Hloc Hwf1 Hr) as (bs & Hb & -> & _ & Eb & ->).
  pose proof (at_slice_reader r1 bs _ Hwf1 Eb) as [Hwf2 Hf2 _ Er].
  split; [done|]. split; [by rewrite Hf2|]. rewrite Er, app_nil_r.
  assert (Hlen : Z.of_nat (length bs) = n); [|unfold in_u in Hn; lia].
  rewrite ST_bind_eq in Hb. unfold read_bytes, mbind, ST_bind, ensure_has_bytes in Hb.
  destruct (position r1 + n <=? buffer_len r1); [|done].
  apply (f_equal (fun x => position x.2)) in Hb. simpl in Hb. lia.
Qed.

Section wp_parts.
Context (E : BinaryReaderError -> Prop) (r0 : BinaryReader).
Hypothesis Henv : wp_env E r0.
Hypothesis Harity : forall e, arity_error e -> E e.
Implicit Types k : nat.

Lemma wp_read_reader k (Q : BinaryReader -> nat -> Prop) :
  (forall br k', (k < k')%nat -> wf_reader br -> features br = features r0 ->
     Z.of_nat (length (remaining_buffer br)) < 2 ^ 32 -> Q br k') ->
  wp E r0 k read_reader Q.
Proof.
  intros HQ.
  assert (H : wp E r0 k read_reader (fun _ k' => (k < k')%nat)).
  { unfold read_reader. do 2 wp_step. apply wp_skip; [done|]. apply wp_bind, wp_bytes; [done| |].
    { unfold in_u in *. lia. }
    intros bs Hl _. apply wp_ret. intros br _ _. lia. }
  eapply wp_mono; [apply (wp_strengthen E r0 Henv _ _ _ (fun br => wf_reader br
    /\ features br = features r0 /\ Z.of_nat (length (remaining_buffer br)) < 2 ^ 32) H)|].
  - intros br r' Hwf Hr. by apply (read_reader_inv _ br r') in Hr.
  - intros br k' _ (Hk & Hw & Hf & Hl). by apply HQ.
Qed.

Lemma wp_table k (Q : Table -> nat -> Prop) :
  (forall t k', (k < k')%nat -> table_wf (features r0) t -> Q t k') ->
  wp E r0 k from_reader_table Q.
Proof.
  intros HQ. unfold from_reader_table, read, from_reader, FromReader_TableType,
    FromReader_ConstExpr. do 2 wp_step. apply wp_bind.
  apply (wp_mono E r0 _ _ (fun _ k' => (k <= k')%nat)); [destruct (b =? 0x40); wp_run; lia|].
  intros has k1 _ Hk1. apply wp_bind.
  apply (wp_mono E r0 _ _ (fun _ k' => (k1 <= k')%nat)); [destruct has; wp_run; lia|].
  intros _ k2 _ Hk2. apply wp_bind, wp_table_type; [done|]. intros t k3 Hk3 Ht.
  apply wp_bind. destruct has.
  - apply wp_bind, wp_const_expr; [done..|]. intros e k4 Hk4 He.
    apply wp_ret, wp_ret, HQ; [lia|by split].
  - apply wp_ret, wp_ret, HQ; [lia|by split].
Qed.

Lemma wp_global k (Q : Global -> nat -> Prop) :
  (forall t k', (k < k')%nat -> global_wf (features r0) t -> Q t k') ->
  wp E r0 k from_reader_global Q.
Proof.
  intros HQ. unfold from_reader_global, read, from_reader, FromReader_GlobalType,
    FromReader_ConstExpr.
  apply wp_bind, wp_global_type; [done|]. intros t k1 Hk1 Ht.
  apply wp_bind, wp_const_expr; [done..|]. intros e k2 Hk2 He.
  apply wp_ret, HQ; [lia|by split].
Qed.

Lemma wp_data k (Q : Data -> nat -> Prop) :
  (forall t k', (k < k')%nat -> data_wf (features r0) t -> Q t k') ->
  wp E r0 k from_reader_data Q.
Proof.
  intros HQ. unfold from_reader_data. do 4 wp_step. apply wp_bind.
  apply (wp_mono E r0 _ _ (fun d k' => (k < k')%nat /\ match d with
    | DK_Active i e => in_u 32 i /\ const_expr_wf (features r0) e
    | DK_Passive => True
    end)).
  - assert (Hactive : wp E r0 k' (memory_index ← (if v =? 0 then mret 0 else read_var_u32);
      offset_expr ← read (A := ConstExpr); mret (DK_Active memory_index offset_expr))
      (fun d k' => (k < k')%nat /\ match d with
        | DK_Active i e => in_u 32 i /\ const_expr_wf (features r0) e
        | DK_Passive => True
        end)).
    { apply wp_bind, (wp_mono E r0 _ _ (fun i k2 => (k' <= k2)%nat /\ in_u 32 i)).
      { destruct (v =? 0); wp_run; (split; [lia|done]). }
      intros i k2 _ [Hk2 Hi]. apply wp_bind, wp_const_expr; [done..|]. intros e k3 Hk3 He.
      apply wp_ret. split; [lia|done]. }
    repeat match goal with |- wp _ _ _ (match ?x with _ => _ end) _ => destruct x end;
      first [exact Hactive | apply wp_ret; split; [lia|done] | wp_run].
  - intros d k2 _ [Hk2 Hd]. apply wp_bind, wp_read_reader. intros br k3 Hk3 Hw Hf Hl.
    apply wp_ret, HQ; [lia|by split].
Qed.
End wp_parts.

(** ** Element segments *)

(** Skipped items can be read again. *)
Lemma skip_const_exprs_read_n n r r' :
  wf_reader r -> skip_const_exprs n r = (Ok tt, r') ->
  exists es, read_n (A := ConstExpr) n r = (Ok es, r') /\ length es = n
    /\ Forall (const_expr_wf (features r)) es.
Proof.
  revert r. induction n as [|n IH]; intros r Hwf Hr; cbn [skip_const_exprs read_n] in *.
  { injection Hr as <-. by exists []. }
  rewrite ST_bind_eq in Hr. destruct (skip_const_expr r) as [[[]|e|] r1] eqn:Es; try done.
  destruct (local_skip_const_expr r tt r1 Hwf Es) as (bs & _ & Eb & -> & _).
  assert (Hread : from_reader_const_expr r
    = (Ok (mkConstExpr (slice_reader r bs)), advance (length bs) r)).
  { unfold from_reader_const_expr. rewrite ST_bind_eq. by rewrite (skip_ok _ _ _ _ Hwf Es Eb). }
  assert (Hwf1 : wf_reader (advance (length bs) r))
    by by eapply local_reader_wf; [apply local_skip_const_expr|..].
  destruct (IH _ Hwf1 Hr) as (es & Ees & Hl & Hes).
  exists (mkConstExpr (slice_reader r bs) :: es).
  rewrite ST_bind_eq. change (read (A := ConstExpr)) with from_reader_const_expr.
  rewrite Hread, ST_bind_eq, Ees. split; [done|]. split; [simpl; lia|]. constructor; [|done].
  by apply (read_const_expr_inv r _ _ Hwf Hread).
Qed.

Lemma skip_var_u32s_read_n n r r' :
  wf_reader r -> skip_var_u32s n r = (Ok tt, r') ->
  exists xs, read_n (A := Z) n r = (Ok xs, r') /\ length xs = n /\ Forall (in_u 32) xs.
Proof.
  revert r. induction n as [|n IH]; intros r Hwf Hr; cbn [skip_var_u32s read_n] in *.
  { injection Hr as <-. by exists []. }
  rewrite ST_bind_eq in Hr. destruct (read_var_u32 r) as [[v|e|] r1] eqn:Es; try done.
  assert (Hwf1 : wf_reader r1) by by eapply local_reader_wf; [apply local_var_u32|..].
  destruct (IH _ Hwf1 Hr) as (xs & Exs & Hl & Hxs). exists (v :: xs).
  rewrite ST_bind_eq. change (read (A := Z)) with read_var_u32.
  rewrite Es, ST_bind_eq, Exs. split; [done|]. split; [simpl; lia|]. constructor; [|done].
  by apply (read_var_u32_inv r v r1 Hwf Es).
Qed.

(** The section of items over exactly the skipped bytes. *)
Lemma skipped_section {A} `{FromReader A} (P : A -> Prop) (skip_items : nat -> Reader ()) r data r' :
  local 1 (read (A := A)) ->
  (forall n, local 0 (skip_items n)) ->
  (forall n r1 r2, wf_reader r1 -> features r1 = features r -> skip_items n r1 = (Ok tt, r2) ->
     exists xs, read_n (A := A) n r1 = (Ok xs, r2) /\ length xs = n /\ Forall P xs) ->
  wf_reader r ->
  skip (n ← read_var_u32; skip_items (Z.to_nat n)) r = (Ok data, r') ->
  exists sec xs, section_new data = Ok sec /\ yields (A := A) sec xs /\ Forall P xs.
Proof.
  intros Hread Hloc Hskip Hwf Hr.
  assert (Hl : local 1 (n ← read_var_u32; skip_items (Z.to_nat n)))
    by (apply local_bind_l; [apply local_var_u32|done]).
  destruct (skip_inv 1 _ r data r' Hl Hwf Hr) as (bs & Hm & -> & _ & Eb & ->).
  rewrite ST_bind_eq in Hm. destruct (read_var_u32 r) as [[n|e|] r1] eqn:En; try done.
  pose proof (read_var_u32_inv r n r1 Hwf En) as [Hn _].
  assert (Hwf1 : wf_reader r1) by by eapply local_reader_wf; [apply local_var_u32|..].
  destruct (local_var_u32 r n r1 Hwf En) as (nb & _ & Enb & -> & Hnloc).
  destruct (Hskip _ _ _ Hwf1 eq_refl Hm) as (xs & Exs & Hlen & Hxs).
  destruct (local_read_n (Z.to_nat n) Hread _ _ _ Hwf1 Exs) as (ib & _ & Eib & Ea & Hiloc).
  rewrite Enb, Eib, app_assoc in Eb. apply app_inv_tail in Eb as <-.
  rewrite Eib, app_assoc in Enb. pose proof (at_slice_reader r _ _ Hwf Enb) as Hat.
  pose proof (Hnloc _ _ (at_bytes_weaken _ _ _ _ _ Hat)) as Hn2.
  pose proof (Hiloc _ _ (at_bytes_advance _ _ _ _ _ Hat)) as Hi2.
  exists (mkSection (advance (length nb) (slice_reader r (nb ++ ib))) n), xs.
  split; [unfold section_new; by rewrite Hn2|]. split; [|done].
  split; [done|]. cbn [sec_count sec_reader]. split; [|done].
  eapply section_items_read_n; [exact Hi2|]. rewrite advance_advance, <- length_app.
  destruct Hat as [Hwf2 _ _ Er2].
  destruct (advance_app _ _ _ Hwf2 Er2) as [Hwf3 Er3]. rewrite remaining_nil_eof by done.
  by rewrite bool_decide_eq_true_2.
Qed.

Lemma local_skip_const_exprs n : local 0 (skip_const_exprs n).
Proof.
  induction n as [|n IH]; cbn [skip_const_exprs]; [apply local_ret|].
  apply local_bind_r; [apply (local_weaken 1), local_skip_const_expr|done].
Qed.

(** The items of a segment, read from the bytes that were skipped. *)
Definition skipped_items (f : WasmFeatures) (exprs : bool) (data : BinaryReader) : Prop :=
  exists sec, section_new data = Ok sec
    /\ if exprs then exists es : list ConstExpr, yields sec es /\ Forall (const_expr_wf f) es
       else exists fs : list Z, yields sec fs /\ Forall (in_u 32) fs.

Lemma skip_element_items_inv exprs r data r' :
  wf_reader r -> skip (skip_element_items exprs) r = (Ok data, r') ->
  skipped_items (features r) exprs data.
Proof.
  intros Hwf Hr. destruct exprs.
  - destruct (skipped_section (const_expr_wf (features r)) skip_const_exprs r data r')
      as (sec & es & Hsec & Hes); [apply local_const_expr|apply local_skip_const_exprs| |done..|].
    + intros n r1 r2 Hwf1 <-. by apply skip_const_exprs_read_n.
    + exists sec. split; [done|]. by exists es.
  - destruct (skipped_section (in_u 32) skip_var_u32s r data r')
      as (sec & fs & Hsec & Hfs); [apply local_var_u32|apply local_skip_var_u32s| |done..|].
    + intros n r1 r2 Hwf1 _. by apply skip_var_u32s_read_n.
    + exists sec. split; [done|]. by exists fs.
Qed.

Section wp_element.
Context (E : BinaryReaderError -> Prop) (r0 : BinaryReader).
Hypothesis Henv : wp_env E r0.
Hypothesis Harity : forall e, arity_error e -> E e.
Implicit Types k : nat.

Lemma wp_skip_const_exprs n k (Q : () -> nat -> Prop) :
  (forall k', (k <= k')%nat -> Q tt k') -> wp E r0 k (skip_const_exprs n) Q.
Proof.
  revert k. induction n as [|n IH]; intros k HQ; cbn [skip_const_exprs].
  - apply wp_ret, HQ. lia.
  - apply wp_bind, wp_skip_const_expr; [done..|]. intros k1 Hk1. apply IH. intros k2 Hk2.
    apply HQ. lia.
Qed.

Lemma wp_skip_items exprs k (Q : BinaryReader -> nat -> Prop) :
  (forall data k', (k < k')%nat -> skipped_items (features r0) exprs data -> Q data k') ->
  wp E r0 k (skip (skip_element_items exprs)) Q.
Proof.
  intros HQ.
  assert (H : wp E r0 k (skip (skip_element_items exprs)) (fun _ k' => (k < k')%nat)).
  { apply wp_skip; [done|]. unfold skip_element_items. do 2 wp_step. destruct exprs.
    - apply wp_skip_const_exprs. intros; lia.
    - apply wp_skip_var_u32s; [done|]. intros; lia. }
  eapply wp_mono; [apply (wp_strengthen E r0 Henv _ _ _ (skipped_items (features r0) exprs) H)|].
  - intros data r' Hwf Hr. by apply (skip_element_items_inv exprs _ data r') in Hr.
  - intros data k' _ [Hk Hd]. by apply HQ.
Qed.

Lemma wp_element_kind flags k (Q : ElementKind -> nat -> Prop) :
  (forall x k', (k <= k')%nat ->
     match x with
     | ELK_Active (Some i) e =>
         in_u 32 i /\ const_expr_wf (features r0) e /\ Z.land flags 0x3 <> 0
     | ELK_Active None e => const_expr_wf (features r0) e /\ Z.land flags 0x3 = 0
     | _ => True
     end -> Q x k') ->
  wp E r0 k (read_element_kind flags) Q.
Proof.
  intros HQ. unfold read_element_kind, read, from_reader, FromReader_ConstExpr.
  destruct (Z.eqb_spec (Z.land flags 1) 0) as [H1|H1]; cbn [negb].
  2: { destruct (negb _); apply wp_ret, HQ; (lia || done). }
  assert (Hbits : Z.land flags 0x3 = Z.land flags 0x2).
  { change 0x3 with (Z.lor 0x1 0x2). by rewrite Z.land_lor_distr_r, H1. }
  destruct (Z.eqb_spec (Z.land flags 2) 0) as [H2|H2].
  - apply wp_bind, wp_ret, wp_bind, wp_const_expr; [done..|]. intros e k1 Hk1 He.
    apply wp_ret, HQ; [lia|]. split; [done|lia].
  - do 3 wp_step. apply wp_ret, wp_bind, wp_const_expr; [done..|]. intros e k1 Hk1 He.
    apply wp_ret, HQ; [lia|]. split; [done|]. split; [done|lia].
Qed.

Lemma wp_element_type flags exprs k (Q : option RefType -> nat -> Prop) :
  (forall x k', (k <= k')%nat ->
     match x with
     | Some t => rt_module t /\ exprs = true /\ Z.land flags 0x3 <> 0
     | None => exprs = true -> Z.land flags 0x3 = 0
     end -> Q x k') ->
  wp E r0 k (read_element_type flags exprs) Q.
Proof.
  intros HQ. unfold read_element_type, read, from_reader, FromReader_RefType,
    FromReader_ExternalKind.
  destruct (Z.eqb_spec (Z.land flags 3) 0) as [H3|H3]; cbn [negb].
  { apply wp_ret, HQ; [lia|done]. }
  destruct exprs.
  - apply wp_bind, wp_ref_type; [done|]. intros t k1 Hk1 Ht. apply wp_ret, HQ; [lia|done].
  - apply wp_bind, wp_external_kind; [done|]. intros []; wp_run. apply HQ; [lia|done].
Qed.

Lemma rt_module_funcref : rt_module Types.FUNCREF.
Proof. by exists true, (Abstract false HFunc). Qed.

Lemma wp_element k (Q : Element -> nat -> Prop) :
  (forall t k', (k < k')%nat -> element_wf (features r0) t -> Q t k') ->
  wp E r0 k from_reader_element Q.
Proof.
  intros HQ. unfold from_reader_element. do 4 wp_step.
  destruct (negb (Z.ldiff v 0x7 =? 0)); [wp_run|].
  apply wp_bind, wp_element_kind. intros kd k1 Hk1 Hkd. cbv zeta.
  set (exprs := negb (Z.land v 0x4 =? 0)).
  apply wp_bind, wp_element_type. intros ty k2 Hk2 Hty.
  apply wp_bind, wp_skip_items. intros data k3 Hk3 (sec & Hsec & Hitems).
  assert (Hlift : forall (P : SectionLimited -> nat -> Prop),
    P sec k3 -> wp E r0 k3 (lift_result (section_new data)) P).
  { intros P HP Hk. rewrite Hsec. exists k3. split; [lia|done]. }
  destruct exprs.
  - apply wp_bind, wp_bind, Hlift, wp_ret, wp_bind, wp_position, wp_ret, HQ; [lia|].
    split; cbn [element_items_of element_kind element_items_wf].
    + split; [|done]. destruct ty; [apply Hty|apply rt_module_funcref].
    + destruct kd as [|[i|] e|]; try done; [tauto|]. destruct Hkd as [He Hz].
      split; [done|]. destruct ty; [tauto|done].
  - destruct ty as [t|]; [by destruct Hty as (_ & ? & _)|].
    apply wp_bind, wp_bind, Hlift, wp_ret, wp_bind, wp_position, wp_ret, HQ; [lia|].
    split; [done|]. cbn [element_items_of element_kind].
    destruct kd as [|[i|] e|]; try done; tauto.
Qed.
End wp_element.
