(* ===== verification/SectionItems.v ===== *)
(** The items of the sections: what wasm-encoder writes for a translated item is
    read back as an equivalent item; the instances of the interface
    [SectionItem]. *)

From Stdlib Require Import ZArith Lia String.
From stdpp Require Import prelude.
From S2P Require Import Prelude Leb128 BinaryReader BinaryReaderSpec ReaderLogic Encode Types TypesSpec.
From S2P Require Import EncTypes Operands Operators OperatorReader Instructions Reencode OperandSpec.
From S2P Require Import OperandRoundtrip OperatorSpec InstrRoundtrip SectionReader CompositeTypes Items.
From S2P Require Import EncSections ReencodeSections Locality FunctionSpec CompositeSpec SectionSpec ItemSpec.

Local Open Scope Z_scope.

(** ** Encoders against readers, up to an equivalence *)

(** [e] succeeds and [m] reads back a value in [P] from exactly its bytes. *)
Definition enc_reads_ex {A} (f : WasmFeatures) (e : Enc) (m : Reader A) (P : A -> Prop) : Prop :=
  exists bs, e = Some bs /\ reads_ex f m bs P.

Section enc_reads_ex.
Context (f : WasmFeatures).

Lemma erx_exact {A} e (m : Reader A) a (P : A -> Prop) :
  enc_reads f e m a -> P a -> enc_reads_ex f e m P.
Proof. intros (bs & -> & H) HP. exists bs. split; [done|]. by apply reads_reads_ex with a. Qed.

Lemma erx_ret {A} (a : A) (P : A -> Prop) : P a -> enc_reads_ex f (Some []) (mret a) P.
Proof. intros HP. by apply erx_exact with a; [apply er_ret|]. Qed.

Lemma erx_bind {A B} e e' (m : Reader A) (k : A -> Reader B) (P : A -> Prop) Q :
  enc_reads_ex f e m P -> is_Some e' -> (forall a, P a -> enc_reads_ex f e' (k a) Q) ->
  enc_reads_ex f (e +> e') (m ≫= k) Q.
Proof.
  intros (bs & -> & Hm) [bs' ->] Hk. exists (bs ++ bs'). split; [done|].
  eapply reads_ex_bind; [exact Hm|]. intros a Ha. destruct (Hk a Ha) as (bs2 & E & H).
  by injection E as ->.
Qed.

Lemma erx_then {A B} e e' (m : Reader A) (k : A -> Reader B) a Q :
  enc_reads f e m a -> enc_reads_ex f e' (k a) Q -> enc_reads_ex f (e +> e') (m ≫= k) Q.
Proof.
  intros Hm Hk. apply erx_bind with (eq a); [by apply erx_exact with a| |by intros ? <-].
  destruct Hk as (bs & -> & _). done.
Qed.

(** The last field of a record. *)
Lemma erx_last {A B} e (m : Reader A) (g : A -> B) (P : A -> Prop) (Q : B -> Prop) :
  enc_reads_ex f e m P -> (forall a, P a -> Q (g a)) ->
  enc_reads_ex f e (a ← m; mret (g a)) Q.
Proof.
  intros Hm HQ. rewrite <- (and_then_nil_r e). apply erx_bind with P; [done|done|].
  intros a Ha. apply erx_ret. auto.
Qed.

Lemma erx_gets {A B} e (g : BinaryReader -> A) (k : A -> Reader B) Q :
  (forall x, enc_reads_ex f e (k x) Q) -> enc_reads_ex f e (gets g ≫= k) Q.
Proof.
  intros H. destruct (H (g (BinaryReader_new [] 0))) as (bs & E & _).
  exists bs. split; [done|]. apply reads_ex_gets. intros x.
  destruct (H x) as (bs' & E' & H'). by replace bs with bs' by congruence.
Qed.

Lemma erx_peek {B} e b e' (k : Z -> Reader B) Q :
  e = push b +> e' -> enc_reads_ex f e (k b) Q -> enc_reads_ex f e (peek ≫= k) Q.
Proof.
  intros -> (bs & E & H). exists bs. split; [done|].
  assert (exists bs', bs = b :: bs') as (bs' & ->).
  { destruct e' as [l|]; [|done]. injection E as <-. by exists l. }
  intros r rest Hwf Hf Er. rewrite ST_bind_eq.
  rewrite (peek_cons r b (bs' ++ rest)) by done. by apply (H r rest).
Qed.

Lemma erx_mono {A} e (m : Reader A) (P Q : A -> Prop) :
  enc_reads_ex f e m P -> (forall a, P a -> Q a) -> enc_reads_ex f e m Q.
Proof.
  intros (bs & -> & H) HPQ. exists bs. split; [done|]. intros r rest Hwf Hf Er.
  destruct (H r rest Hwf Hf Er) as (a & Ha & HP). exists a. auto.
Qed.
End enc_reads_ex.

Lemma read_n_length {A} `{FromReader A} n r xs r' :
  read_n (A := A) n r = (Ok xs, r') -> length xs = n.
Proof.
  revert r xs. induction n as [|n IH]; intros r xs Hr; cbn [read_n] in Hr.
  { by injection Hr as <- <-. }
  rewrite ST_bind_eq in Hr. destruct (read r) as [[v|e|] r1]; try done.
  rewrite ST_bind_eq in Hr. destruct (read_n n r1) as [[ys|e|] r2] eqn:Ex; try done.
  injection Hr as <- <-. simpl. f_equal. by eapply IH.
Qed.

Section roundtrip.
Context (f : WasmFeatures) {L : Leb128} {LS : Leb128Spec L}.

(** ** Types of entities *)

Lemma er_limit wide v : limit_wf wide v -> enc_reads f (encode_u64 v) (read_limit wide) v.
Proof.
  destruct wide; intros Hv; [by apply er_u64|].
  exists (write_unsigned v). split; [done|]. by apply reads_var_u32.
Qed.

Lemma er_maximum wide m :
  match m with Some v => limit_wf wide v | None => True end ->
  enc_reads f (WS.encode_if_some encode_u64 m) (read_maximum (WS.is_some m) wide) m.
Proof.
  destruct m as [v|]; intros Hv; [|apply er_ret].
  eapply er_last; [by apply er_limit|done].
Qed.

(** The flags byte of the limits. *)
Lemma limits_flags (mx sh wide ps : bool) :
  let F := WS.set_flag ps 0x8 (WS.set_flag wide 0x4 (WS.set_flag sh 0x2 (WS.set_flag mx 0x1 0))) in
  (Z.ldiff F 0xf =? 0) = true /\ (ps = false -> (Z.ldiff F 0x7 =? 0) = true)
  /\ negb (Z.land F 0x1 =? 0) = mx /\ negb (Z.land F 0x2 =? 0) = sh
  /\ negb (Z.land F 0x4 =? 0) = wide /\ negb (Z.land F 0x8 =? 0) = ps.
Proof. by destruct mx, sh, wide, ps. Qed.

Lemma er_memory_type t :
  memory_type_wf t ->
  enc_reads f (WS.encode_memory_type (memory_type t)) from_reader_memory_type t.
Proof.
  destruct t as [m64 sh ini mx ps]. intros [[Hi Hm] Hp]. cbn in Hi, Hm, Hp.
  unfold WS.encode_memory_type, memory_type.
  cbn [WS.mem_minimum WS.mem_maximum WS.mem_memory64 WS.mem_shared WS.page_size_log2
       mem_initial mem_maximum mem_memory64 mem_shared page_size_log2].
  apply er_gets. intros pos. cbv zeta. eapply er_bind; [apply er_push|].
  pose proof (er_maximum m64 mx Hm) as Hmax.
  assert (Hps : enc_reads f (WS.encode_if_some encode_u32 ps)
    (if WS.is_some ps then p ← read_var_u32; mret (Some p) else mret None) ps).
  { destruct ps; [eapply er_last; [by apply er_u32|done]|apply er_ret]. }
  destruct (limits_flags (WS.is_some mx) sh m64 (WS.is_some ps)) as (-> & _ & -> & -> & -> & ->).
  cbn [negb]. eapply er_bind; [by apply er_limit|]. eapply er_bind; [exact Hmax|].
  eapply er_last; [exact Hps|done].
Qed.

Lemma er_table_type t :
  table_type_wf t ->
  exists t' b e', table_type t = ROk t' /\ WS.encode_table_type t' = push b +> e' /\ b <> 0x40
    /\ enc_reads f (WS.encode_table_type t') from_reader_table_type t.
Proof.
  destruct t as [el t64 ini mx sh]. intros [Hel [Hi Hm]]. cbn in Hel, Hi, Hm.
  destruct (er_ref_type f el Hel) as (el' & Eel & Hr & b & e' & Ee & Hb).
  exists (WS.mkTableType el' t64 ini mx sh). unfold table_type. cbn [table_element_type].
  rewrite Eel. unfold WS.encode_table_type.
  cbn [WS.table_element_type WS.table_minimum WS.table_maximum WS.table64 WS.table_shared]. cbv zeta.
  eexists b, _. split; [done|]. rewrite Ee at 1. rewrite and_then_assoc.
  split; [done|]. split; [lia|].
  eapply er_bind; [exact Hr|]. apply er_gets. intros pos. eapply er_bind; [apply er_push|].
  pose proof (er_maximum t64 mx Hm) as Hmax.
  destruct (limits_flags (WS.is_some mx) sh t64 false) as (_ & Hf & H1 & H2 & H4 & _).
  cbn [WS.set_flag] in Hf, H1, H2, H4. rewrite Hf, H1, H2, H4 by done.
  cbn [negb]. eapply er_bind; [by apply er_limit|]. eapply er_last; [exact Hmax|done].
Qed.

Lemma er_tag_type t :
  tag_type_wf t -> enc_reads f (WS.encode_tag_type (tag_type t)) from_reader_tag_type t.
Proof.
  destruct t as [[] i]. intros Hi. eapply er_bind; [apply er_push|]. cbn.
  eapply er_last; [by apply er_u32|done].
Qed.

Lemma er_global_type t :
  global_type_wf f t ->
  exists t', global_type t = ROk t' /\ enc_reads f (WS.encode_global_type t') from_reader_global_type t.
Proof.
  destruct t as [ct mu sh]. intros [Hct Hsh]. cbn in Hct, Hsh.
  destruct (er_val_type f ct Hct) as (ct' & Ect & Hr & _).
  exists (WS.mkGlobalType ct' mu sh). unfold global_type. cbn [content_type]. rewrite Ect.
  split; [done|]. unfold WS.encode_global_type.
  cbn [WS.global_val_type WS.global_mutable WS.global_shared]. cbv zeta.
  eapply er_bind; [exact Hr|]. rewrite <- (and_then_nil_r (push _)).
  eapply er_bind; [apply er_push|]. eapply er_features.
  destruct sh; [rewrite Hsh by done|]; destruct mu, (shared_everything_threads f); cbn;
    apply er_ret_bind, er_ret.
Qed.

Lemma er_external_kind k :
  enc_reads f (WS.encode_export_kind (export_kind k)) from_reader_external_kind k.
Proof.
  apply er_gets. intros pos. rewrite <- (and_then_nil_r (WS.encode_export_kind _)).
  eapply er_bind; [apply er_push|]. exists []. split; [done|]. intros r rest _ _ _.
  rewrite advance_0. by destruct k.
Qed.

Lemma er_from_str s : str_wf s -> enc_reads f (encode_str (str_bytes s)) from_reader_str s.
Proof.
  destruct s as [s]. intros [Hu Hl]. eapply er_last; [by apply er_str|done].
Qed.

Lemma er_type_ref t :
  type_ref_wf f t ->
  exists t', entity_type t = ROk t' /\ enc_reads f (WS.encode_entity_type t') from_reader_type_ref t.
Proof.
  pose proof er_external_kind as Hk. unfold WS.encode_export_kind in Hk.
  destruct t as [i|t|t|t|t]; cbn [type_ref_wf]; intros Ht.
  - eexists. split; [done|]. eapply er_bind; [apply (Hk EK_Func)|].
    eapply er_last; [by apply er_u32|done].
  - destruct (er_table_type t Ht) as (t' & _ & _ & Et & _ & _ & Hr). exists (WS.ETable t').
    split; [simpl; by rewrite Et|]. eapply er_bind; [apply (Hk EK_Table)|].
    eapply er_last; [exact Hr|done].
  - eexists. split; [done|]. eapply er_bind; [apply (Hk EK_Memory)|].
    eapply er_last; [by apply er_memory_type|done].
  - destruct (er_global_type t Ht) as (t' & Et & Hr). exists (WS.EGlobal t').
    split; [simpl; by rewrite Et|]. eapply er_bind; [apply (Hk EK_Global)|].
    eapply er_last; [exact Hr|done].
  - eexists. split; [done|]. eapply er_bind; [apply (Hk EK_Tag)|].
    eapply er_last; [by apply er_tag_type|done].
Qed.

(** ** Items of the sections *)

Lemma import_reencode i s :
  import_wf f i ->
  exists e, parse_import i s = unwrap_outcome (add_item e s) /\ enc_reads f e from_reader_import i.
Proof.
  destruct i as [m n t]. intros (Hm & Hn & Ht). destruct (er_type_ref t Ht) as (t' & Et & Hr).
  unfold parse_import. cbn [import_ty import_module import_name]. rewrite Et.
  eexists. split; [done|]. eapply er_bind; [by apply er_from_str|].
  eapply er_bind; [by apply er_from_str|]. eapply er_last; [exact Hr|done].
Qed.

Lemma export_reencode x s :
  export_wf x ->
  exists e, parse_export x s = unwrap_outcome (add_item e s) /\ enc_reads f e from_reader_export x.
Proof.
  destruct x as [n k i]. intros [Hn Hi]. eexists. split; [done|].
  eapply er_bind; [by apply er_from_str|]. eapply er_bind; [apply er_external_kind|].
  eapply er_last; [|done]. destruct k; by apply er_u32.
Qed.

Definition table_equiv (t t' : Table) : Prop :=
  table_ty t = table_ty t'
  /\ match table_init t, table_init t' with
     | RefNull, RefNull => True
     | Expr e, Expr e' => const_expr_equiv e e'
     | _, _ => False
     end.

Lemma erx_const_expr e :
  const_expr_wf f e ->
  exists e', const_expr e = ROk e'
    /\ enc_reads_ex f (WS.encode_const_expr e') (read (A := ConstExpr)) (const_expr_equiv e).
Proof.
  intros He. destruct (const_expr_roundtrip f e He) as (e' & bs & Ee & Eb & Hr).
  exists e'. split; [done|]. by exists bs.
Qed.

Lemma table_reencode t s :
  table_wf f t ->
  exists e, parse_table t s = unwrap_outcome (add_item e s)
    /\ enc_reads_ex f e from_reader_table (table_equiv t).
Proof.
  destruct t as [ty [|e]]; intros [Ht He]; cbn in Ht, He;
    destruct (er_table_type ty Ht) as (t' & b & e' & Et & Ee & Hb & Hr);
    unfold parse_table; cbn [table_ty table_init]; rewrite Et; cbn [mbind outcome_bind].
  - exists (WS.encode_table_type t'). split; [done|]. eapply erx_peek; [done|].
    apply erx_exact with (mkTable ty RefNull); [|done].
    rewrite (proj2 (Z.eqb_neq b 0x40)) by done. do 2 apply er_ret_bind.
    eapply er_last; [exact Hr|done].
  - destruct (erx_const_expr e He) as (e2 & Ee2 & Hre). rewrite Ee2.
    eexists. split; [done|]. eapply erx_peek; [done|]. cbn [Z.eqb Pos.eqb].
    eapply erx_then; [eapply er_last; [apply er_push|done]|]. cbv iota beta.
    eapply erx_then; [eapply er_last; [apply er_push|done]|].
    eapply erx_then; [exact Hr|]. cbv iota.
    eapply (erx_last f _ _ (fun i => mkTable ty i)
      (fun i => match i with Expr e' => const_expr_equiv e e' | RefNull => False end)).
    + eapply (erx_last f _ _ Expr); [exact Hre|done].
    + intros [|e3] H3; by split.
Qed.

Definition global_equiv (g g' : Global) : Prop :=
  global_ty g = global_ty g' /\ const_expr_equiv (init_expr g) (init_expr g').

Lemma global_reencode g s :
  global_wf f g ->
  exists e, parse_global g s = unwrap_outcome (add_item e s)
    /\ enc_reads_ex f e from_reader_global (global_equiv g).
Proof.
  destruct g as [ty e]. intros [Ht He]. cbn in Ht, He.
  destruct (er_global_type ty Ht) as (t' & Et & Hr).
  destruct (erx_const_expr e He) as (e' & Ee & Hre).
  unfold parse_global. cbn [global_ty init_expr]. rewrite Et. cbn [mbind outcome_bind].
  rewrite Ee. eexists. split; [done|]. eapply erx_then; [exact Hr|].
  eapply (erx_last f _ _ (mkGlobal ty)); [exact Hre|]. intros e2 H2. by split.
Qed.

Definition data_equiv (d d' : Data) : Prop :=
  data_bytes d = data_bytes d'
  /\ match data_kind d, data_kind d' with
     | DK_Passive, DK_Passive => True
     | DK_Active i e, DK_Active i' e' => i = i' /\ const_expr_equiv e e'
     | _, _ => False
     end.

Lemma erx_read_reader bs :
  Z.of_nat (length bs) < 2 ^ 32 ->
  enc_reads_ex f (encode_usize (Z.of_nat (length bs)) +> extend bs) read_reader
    (fun br => remaining_buffer br = bs).
Proof.
  intros Hl. eapply erx_then; [apply (er_usize f (Z.of_nat (length bs))); unfold in_u; lia|].
  exists bs. split; [done|]. intros r rest Hwf Hf E.
  assert (Hm : reads f (read_bytes (Z.of_nat (length bs));; mret tt) bs tt).
  { rewrite <- (app_nil_r bs) at 2. eapply reads_bind; [by apply reads_bytes|apply reads_ret]. }
  destruct (reads_ex_skip f _ bs Hm r rest Hwf Hf E) as (br & Hbr & _ & Eb). by exists br.
Qed.

(** The bytes of a data segment, after its kind. *)
Lemma erx_data_bytes start kd bs :
  Z.of_nat (length bs) < 2 ^ 32 ->
  enc_reads_ex f (encode_usize (Z.of_nat (length bs)) +> extend bs)
    (data ← read_reader;
     mret (mkData kd (remaining_buffer data) (start, (range data).2)))
    (fun d => data_kind d = kd /\ data_bytes d = bs).
Proof.
  intros Hl. eapply (erx_last f _ _
    (fun data => mkData kd (remaining_buffer data) (start, (range data).2)));
    [by apply erx_read_reader|]. by intros br ->.
Qed.

(** An active segment, after its flags. *)
Lemma erx_active i e e' (m : Reader Z) ei :
  enc_reads f ei m i ->
  enc_reads_ex f (WS.encode_const_expr e') (read (A := ConstExpr)) (const_expr_equiv e) ->
  enc_reads_ex f (ei +> WS.encode_const_expr e')
    (memory_index ← m; offset_expr ← read (A := ConstExpr);
     mret (DK_Active memory_index offset_expr))
    (fun kd => exists e2, kd = DK_Active i e2 /\ const_expr_equiv e e2).
Proof.
  intros Hi Hr. eapply erx_then; [exact Hi|].
  eapply (erx_last f _ _ (DK_Active i)); [exact Hr|]. intros e2 H2. by exists e2.
Qed.

Lemma data_reencode d s :
  data_wf f d ->
  exists e, parse_data d s = unwrap_outcome (add_item e s)
    /\ enc_reads_ex f e from_reader_data (data_equiv d).
Proof.
  destruct d as [[|i e] bs rg]; intros [Hl Hd]; cbn in Hl, Hd; unfold parse_data;
    cbn [data_kind data_bytes].
  - eexists. split; [done|]. apply erx_gets. intros start.
    eapply erx_then; [by apply er_push_u32|]. cbv iota.
    eapply erx_mono; [by apply erx_data_bytes|]. intros d [Hk Hb]. split; [done|]. by rewrite Hk.
  - destruct Hd as [Hi He]. destruct (erx_const_expr e He) as (e' & Ee & Hr). rewrite Ee.
    eexists. split; [done|].
    assert (Hfin : forall start kd, (exists e2, kd = DK_Active i e2 /\ const_expr_equiv e e2) ->
      enc_reads_ex f (encode_usize (Z.of_nat (length bs)) +> extend bs)
        (data ← read_reader; mret (mkData kd (remaining_buffer data) (start, (range data).2)))
        (data_equiv (mkData (DK_Active i e) bs rg))).
    { intros start kd (e2 & -> & H2). eapply erx_mono; [by apply erx_data_bytes|].
      intros d [Hk Hb]. split; [done|]. by rewrite Hk. }
    assert (Hsome : is_Some (encode_usize (Z.of_nat (length bs)) +> extend bs)).
    { destruct (erx_read_reader bs Hl) as (out & -> & _). done. }
    apply erx_gets. intros start.
    destruct (Z.eq_dec i 0) as [->|Hi0].
    + change (WS.encode_data_segment _) with ((push 0 +> WS.encode_const_expr e')
        +> encode_usize (Z.of_nat (length bs)) +> extend bs).
      rewrite and_then_assoc. eapply erx_then; [by apply er_push_u32|]. cbv iota.
      eapply erx_bind; [|exact Hsome|apply Hfin].
      rewrite <- (and_then_nil_l (WS.encode_const_expr e')).
      by apply erx_active; [apply er_ret|..].
    + replace (WS.encode_data_segment _) with ((push 2 +> encode_u32 i +> WS.encode_const_expr e')
        +> encode_usize (Z.of_nat (length bs)) +> extend bs) by by destruct i.
      rewrite and_then_assoc. eapply erx_then; [by apply er_push_u32|]. cbv iota.
      eapply erx_bind; [|exact Hsome|apply Hfin].
      by apply erx_active; [apply er_u32|..].
Qed.

(** ** Element segments *)

(** Items that are skipped and then read from the bytes that were skipped. *)
Lemma reads_skipped {A} `{FromReader A} (skip_items : nat -> Reader ()) n body (P : list A -> Prop) :
  in_u 32 n ->
  (forall r xs r', read_n (A := A) (Z.to_nat n) r = (Ok xs, r') ->
     skip_items (Z.to_nat n) r = (Ok tt, r')) ->
  reads_ex f (read_n (A := A) (Z.to_nat n)) body P ->
  reads_ex f (skip (n ← read_var_u32; skip_items (Z.to_nat n))) (write_unsigned n ++ body)
    (fun data => exists sec xs, section_new data = Ok sec /\ yields sec xs /\ P xs).
Proof.
  intros Hn Hskip Hr r rest Hwf Hf E.
  pose proof E as E'. rewrite <- app_assoc in E'.
  destruct (advance_app r _ _ Hwf E') as [Hwf1 E1].
  destruct (Hr _ rest Hwf1 Hf E1) as (xs & Hxs & _).
  exists (slice_reader r (write_unsigned n ++ body)). split.
  { apply (skip_ok _ _ _ rest Hwf); [|done]. rewrite ST_bind_eq.
    rewrite (reads_var_u32 f n Hn r _ Hwf Hf E'), (Hskip _ _ _ Hxs).
    by rewrite advance_advance, length_app. }
  pose proof (at_slice_reader r _ _ Hwf E) as [Hwf2 Hf2 _ E2].
  set (br := slice_reader _ _) in *. rewrite app_nil_r in E2.
  destruct (advance_app br _ _ Hwf2 E2) as [Hwf3 E3].
  rewrite <- (app_nil_r body) in E3.
  destruct (Hr _ [] Hwf3 ltac:(simpl; congruence) E3) as (ys & Hys & HP).
  exists (mkSection (advance (length (write_unsigned n)) br) n), ys.
  split. { unfold section_new. by rewrite (reads_var_u32 f n Hn br body Hwf2 ltac:(congruence) E2). }
  split; [|done]. split; [done|]. cbn [sec_count sec_reader].
  split; [|by eapply read_n_length].
  eapply section_items_read_n; [exact Hys|].
  destruct (advance_app _ body [] Hwf3 E3) as [Hwf4 E4].
  rewrite remaining_nil_eof by done. by rewrite bool_decide_eq_true_2.
Qed.

Lemma read_n_skip_const_exprs n r es r' :
  read_n (A := ConstExpr) n r = (Ok es, r') -> skip_const_exprs n r = (Ok tt, r').
Proof.
  revert r es. induction n as [|n IH]; intros r es Hr; cbn [skip_const_exprs read_n] in *.
  { by injection Hr as <- <-. }
  rewrite ST_bind_eq in *. unfold read, from_reader, FromReader_ConstExpr, from_reader_const_expr,
    skip, mbind, ST_bind, gets in Hr.
  destruct (skip_const_expr r) as [[[]|e|] r1]; try done.
  cbn [mret ST_ret] in Hr. destruct (read_n n r1) as [[xs|e|] r2] eqn:Ex; try done. injection Hr as <- <-. by eapply IH.
Qed.

Lemma read_n_skip_var_u32s n r es r' :
  read_n (A := Z) n r = (Ok es, r') -> skip_var_u32s n r = (Ok tt, r').
Proof.
  revert r es. induction n as [|n IH]; intros r es Hr; cbn [skip_var_u32s read_n] in *.
  { by injection Hr as <- <-. }
  unfold mbind, ST_bind in *. change (read (A := Z)) with read_var_u32 in Hr.
  destruct (read_var_u32 r) as [[v|e|] r1]; try done.
  destruct (read_n (A := Z) n r1) as [[xs|e|] r2] eqn:Ex; try done.
  injection Hr as <- <-. by eapply IH.
Qed.

Definition element_items_equiv (i i' : ElementItems) : Prop :=
  match i, i' with
  | EI_Functions sec, EI_Functions sec' =>
      exists fs : list Z, yields sec fs /\ yields sec' fs
  | EI_Expressions ty sec, EI_Expressions ty' sec' =>
      ty = ty' /\ exists es es' : list ConstExpr,
        yields sec es /\ yields sec' es' /\ Forall2 const_expr_equiv es es'
  | _, _ => False
  end.

Definition element_kind_equiv (k k' : ElementKind) : Prop :=
  match k, k' with
  | ELK_Passive, ELK_Passive | ELK_Declared, ELK_Declared => True
  | ELK_Active i e, ELK_Active i' e' => i = i' /\ const_expr_equiv e e'
  | _, _ => False
  end.

Definition element_equiv (e e' : Element) : Prop :=
  element_kind_equiv (element_kind e) (element_kind e')
  /\ element_items_equiv (element_items_of e) (element_items_of e').

(** What [from_reader_element] reads after the kind of the segment. *)
Definition read_element_rest (start flags : Z) (kind : ElementKind) : Reader Element :=
  let exprs := negb (Z.land flags 0x4 =? 0) in
  ty ← read_element_type flags exprs;
  data ← skip (skip_element_items exprs);
  items ←
    (if exprs then
       sec ← lift_result (section_new data);
       mret (EI_Expressions (match ty with Some t => t | None => Types.FUNCREF end) sec)
     else
       match ty with
       | Some _ => panic
       | None => sec ← lift_result (section_new data); mret (EI_Functions sec)
       end);
  elem_end ← gets original_position;
  mret (mkElement kind items (start, elem_end)).

Lemma encode_usize_ok n : in_u 32 n -> encode_usize n = Some (write_unsigned n).
Proof. intros Hn. unfold encode_usize, in_u in *. by rewrite (proj2 (Z.leb_le _ _)) by lia. Qed.

(** The end of the segment, once its items are delimited. *)
Lemma erx_finish_element {A} `{FromReader A} e m (P : list A -> Prop) start kd
  (mk : SectionLimited -> ElementItems) (Q : Element -> Prop) :
  enc_reads_ex f e (skip m)
    (fun data => exists sec xs, section_new data = Ok sec /\ yields sec xs /\ P xs) ->
  (forall sec xs elem_end, yields sec xs -> P xs -> Q (mkElement kd (mk sec) (start, elem_end))) ->
  enc_reads_ex f e
    (data ← skip m;
     items ← (sec ← lift_result (section_new data); mret (mk sec));
     elem_end ← gets original_position;
     mret (mkElement kd items (start, elem_end))) Q.
Proof.
  intros Hm HQ. rewrite <- (and_then_nil_r e). eapply erx_bind; [exact Hm|done|].
  intros data (sec & xs & Hsec & Hy & HP). rewrite Hsec. exists []. split; [done|].
  intros r rest Hwf Hf E. eexists. rewrite advance_0. split; [done|]. by eapply HQ.
Qed.

Lemma erx_functions start flags kd sec fs :
  Z.land flags 0x4 = 0 -> yields sec fs -> Forall (in_u 32) fs ->
  enc_reads_ex f
    ((if negb (Z.land flags 0x3 =? 0) then push 0x00 else Some []) +> encode_list encode_u32 fs)
    (read_element_rest start flags kd)
    (fun e => element_kind e = kd /\ element_items_equiv (EI_Functions sec) (element_items_of e)).
Proof.
  intros H4 Hy Hfs. unfold read_element_rest. rewrite H4. cbn [Z.eqb negb]. cbv zeta.
  apply erx_then with None.
  { unfold read_element_type. destruct (negb _); [|apply er_ret].
    eapply er_last; [apply (er_external_kind EK_Func)|done]. }
  cbv iota. apply (erx_finish_element _ _ (eq fs)); [|by intros sec' ? ? Hy' <-; split; [|exists fs]].
  assert (Hlen : in_u 32 (Z.of_nat (length fs))).
  { destruct Hy as (Hc & _ & ->). unfold in_u in *. lia. }
  destruct (er_items f encode_u32 fs) as (body & Eb & Hb).
  { eapply Forall_impl; [exact Hfs|]. intros x Hx. by apply er_u32. }
  unfold encode_list. rewrite encode_usize_ok, Eb by done.
  exists (write_unsigned (Z.of_nat (length fs)) ++ body).
  split; [done|]. apply reads_skipped; [done|intros r xs r'; apply read_n_skip_var_u32s|].
  rewrite Nat2Z.id. by apply (reads_reads_ex f _ _ fs).
Qed.

(** The translated expressions of a segment. *)
Lemma const_exprs_reencode es acc :
  Forall (const_expr_wf f) es ->
  exists es' body,
    fold_outcome (fun e xs => x ← const_expr e; mret (xs ++ [x])) es acc = ROk (acc ++ es')
    /\ length es' = length es /\ encode_items WS.encode_const_expr es' = Some body
    /\ reads_ex f (read_n (length es)) body (Forall2 const_expr_equiv es).
Proof.
  intros Hes. revert acc. induction Hes as [|e es He _ IH]; intros acc; cbn [fold_outcome].
  - exists [], []. rewrite app_nil_r. do 3 (split; [done|]).
    apply (reads_reads_ex f _ _ []); [apply reads_ret|constructor].
  - destruct (erx_const_expr e He) as (e' & Ee & bs & Eb & Hr). rewrite Ee.
    cbn [mbind outcome_bind mret outcome_ret].
    destruct (IH (acc ++ [e'])) as (es' & body & -> & Hl & Ebody & Hbody).
    exists (e' :: es'), (bs ++ body). rewrite <- app_assoc. split; [done|].
    split; [simpl; lia|]. cbn [encode_items]. rewrite Eb, Ebody. split; [done|].
    cbn [length read_n]. eapply reads_ex_bind; [exact Hr|]. intros x Hx.
    rewrite <- (app_nil_r body). eapply reads_ex_bind; [exact Hbody|]. intros xs Hxs.
    by apply (reads_reads_ex f _ _ (x :: xs)); [apply reads_ret|constructor].
Qed.

Lemma erx_expressions start flags kd sec ty ty' es es' body :
  Z.land flags 0x4 <> 0 -> yields sec es ->
  enc_reads f (WE.encode_ref_type ty') from_reader_ref_type ty ->
  (Z.land flags 0x3 = 0 -> ty = Types.FUNCREF) ->
  length es' = length es -> encode_items WS.encode_const_expr es' = Some body ->
  reads_ex f (read_n (length es)) body (Forall2 const_expr_equiv es) ->
  enc_reads_ex f
    ((if negb (Z.land flags 0x3 =? 0) then WE.encode_ref_type ty' else Some [])
     +> encode_usize (Z.of_nat (length es')) +> encode_items WS.encode_const_expr es')
    (read_element_rest start flags kd)
    (fun e => element_kind e = kd
       /\ element_items_equiv (EI_Expressions ty sec) (element_items_of e)).
Proof.
  intros H4 Hy Hty Hfr Hl Eb Hb. unfold read_element_rest.
  rewrite (proj2 (Z.eqb_neq _ 0) H4). cbn [negb]. cbv zeta.
  apply erx_then with (if negb (Z.land flags 0x3 =? 0) then Some ty else None).
  { unfold read_element_type. destruct (negb _); [|apply er_ret].
    eapply er_last; [exact Hty|done]. }
  cbv iota. apply (erx_finish_element _ _ (Forall2 const_expr_equiv es)).
  2: { intros sec' es2 ? Hy' Hes2. split; [done|]. cbn [element_items_of].
       split; [|by exists es, es2].
       destruct (Z.eqb_spec (Z.land flags 3) 0) as [H3|]; cbn [negb]; [by apply Hfr|done]. }
  assert (Hlen : in_u 32 (Z.of_nat (length es))).
  { destruct Hy as (Hc & _ & ->). unfold in_u in *. lia. }
  rewrite Hl, encode_usize_ok, Eb by done. eexists. split; [done|].
  apply reads_skipped; [done|intros r xs r'; apply read_n_skip_const_exprs|].
  by rewrite Nat2Z.id.
Qed.

Lemma for_each_yields {A S} `{FromReader A} (body : A -> S -> outcome S) sec xs s :
  yields sec xs -> for_each body sec s = fold_outcome body xs s.
Proof.
  destruct sec as [r n]. intros (Hn & Hi & _). cbn [sec_count sec_reader] in *.
  rewrite for_each_items by apply Hn. rewrite Hi. by destruct (fold_outcome body xs s).
Qed.

(** The parts of [ElementSection::segment] that depend on the items. *)
Definition elements_bit (i : WS.Elements) : Z :=
  match i with WS.Expressions _ _ => 0x4 | WS.Functions _ => 0x0 end.

Definition encode_elements (encode_type : bool) (i : WS.Elements) : Enc :=
  match i with
  | WS.Functions fs =>
      (if encode_type then push 0x00 else Some []) +> encode_list encode_u32 fs
  | WS.Expressions ty e =>
      (if encode_type then WE.encode_ref_type ty else Some [])
      +> encode_usize (Z.of_nat (length e)) +> encode_items WS.encode_const_expr e
  end.

Lemma fold_functions fs acc :
  fold_outcome (fun func funcs => ROk (funcs ++ [Hooks.function_index func])) fs acc
  = ROk (acc ++ fs).
Proof.
  revert acc. induction fs as [|x fs IH]; intros acc; cbn [fold_outcome].
  - by rewrite app_nil_r.
  - cbn [mbind outcome_bind]. rewrite IH, <- app_assoc. done.
Qed.

(** The items of a segment are translated and, for flags that agree with them,
    read back. *)
Lemma element_items_reencode i :
  element_items_wf f i ->
  exists i', element_items i = ROk i'
    /\ (match i with EI_Expressions ty _ => ty = Types.FUNCREF | EI_Functions _ => True end ->
        match i' with WS.Expressions ty _ => ty = WS.FUNCREF | WS.Functions _ => True end)
    /\ forall start flags kd,
       Z.land flags 0x4 = elements_bit i' ->
       (Z.land flags 0x3 = 0 ->
        match i with EI_Expressions ty _ => ty = Types.FUNCREF | EI_Functions _ => True end) ->
       enc_reads_ex f (encode_elements (negb (Z.land flags 0x3 =? 0)) i')
         (read_element_rest start flags kd)
         (fun e => element_kind e = kd /\ element_items_equiv i (element_items_of e)).
Proof.
  destruct i as [sec|ty sec]; cbn [element_items_wf].
  - intros (fs & Hy & Hfs). exists (WS.Functions fs). unfold element_items.
    rewrite (for_each_yields _ _ _ _ Hy), fold_functions. split; [done|]. split; [done|].
    intros start flags kd H4 _. by apply erx_functions.
  - intros (Hty & es & Hy & Hes).
    destruct (const_exprs_reencode es [] Hes) as (es' & body & Ees & Hl & Eb & Hb).
    destruct (er_ref_type f ty Hty) as (ty' & Ety & Hr & _).
    exists (WS.Expressions ty' es'). unfold element_items.
    rewrite (for_each_yields _ _ _ _ Hy), Ees. cbn [mbind outcome_bind]. rewrite Ety.
    split; [done|]. split; [intros ->; vm_compute in Ety; by injection Ety as <-|].
    intros start flags kd H4 Hfr. cbn [elements_bit encode_elements] in *.
    eapply erx_expressions; try done. by rewrite H4.
Qed.

(** Flags, kind and items of a segment, together. *)
Lemma erx_element kd ke flags e_rest items rg :
  0 <= flags < 8 ->
  enc_reads_ex f ke (read_element_kind flags) (element_kind_equiv kd) ->
  (forall start kd', enc_reads_ex f e_rest (read_element_rest start flags kd')
     (fun e => element_kind e = kd' /\ element_items_equiv items (element_items_of e))) ->
  enc_reads_ex f ((encode_u32 flags +> ke) +> e_rest) from_reader_element
    (element_equiv (mkElement kd items rg)).
Proof.
  intros Hfl Hk Hrest. apply erx_gets. intros start. rewrite and_then_assoc.
  eapply erx_then; [apply er_u32; [apply _|unfold in_u; lia]|].
  replace (Z.ldiff flags 0x7) with 0.
  2: { change 0x7 with (Z.ones 3). rewrite Z.ldiff_ones_r by lia.
       rewrite Z.shiftr_div_pow2, Z.div_small by lia. done. }
  cbn [Z.eqb negb]. eapply erx_bind; [exact Hk| |].
  { destruct (Hrest start kd) as (bs & -> & _). done. }
  intros kd' Hkd'. eapply erx_mono; [apply (Hrest start kd')|].
  intros e [<- Hi]. by split.
Qed.

Lemma encode_element_segment_eq m i :
  WS.encode_element_segment (WS.mkElementSegment m i)
  = (WS.encode_element_mode (WS.mkElementSegment m i)).1
    +> encode_elements (WS.encode_element_mode (WS.mkElementSegment m i)).2 i.
Proof.
  unfold WS.encode_element_segment. by destruct (WS.encode_element_mode _), i.
Qed.

(** A segment with the given flags and the encoding [ke] of its table and offset. *)
Lemma element_mode_reencode kd m ke low items i' rg :
  low = 0 \/ low = 1 \/ low = 2 \/ low = 3 ->
  WS.encode_element_mode (WS.mkElementSegment m i')
  = (encode_u32 (Z.lor low (elements_bit i')) +> ke, negb (low =? 0)) ->
  enc_reads_ex f ke (read_element_kind (Z.lor low (elements_bit i'))) (element_kind_equiv kd) ->
  (forall start kd',
     enc_reads_ex f (encode_elements (negb (Z.land (Z.lor low (elements_bit i')) 0x3 =? 0)) i')
       (read_element_rest start (Z.lor low (elements_bit i')) kd')
       (fun e => element_kind e = kd' /\ element_items_equiv items (element_items_of e))) ->
  enc_reads_ex f (WS.encode_element_segment (WS.mkElementSegment m i')) from_reader_element
    (element_equiv (mkElement kd items rg)).
Proof.
  intros Hlow Hmode Hk Hrest. rewrite encode_element_segment_eq, Hmode. cbn [fst snd].
  assert (Hl : 0 <= Z.lor low (elements_bit i') < 8
    /\ Z.land (Z.lor low (elements_bit i')) 0x3 = low).
  { destruct i', Hlow as [ -> | [ -> | [ -> | -> ]]]; done. }
  destruct Hl as [Hl H3]. rewrite H3 in Hrest. by apply erx_element.
Qed.

(** An active segment: its table, then its offset. *)
Lemma erx_active_kind ti flags e e' ei :
  let m := if Z.land flags 0x2 =? 0 then mret None else i ← read_var_u32; mret (Some i) in
  enc_reads f ei m ti -> Z.land flags 0x1 = 0 ->
  enc_reads_ex f (WS.encode_const_expr e') (read (A := ConstExpr)) (const_expr_equiv e) ->
  enc_reads_ex f (ei +> WS.encode_const_expr e') (read_element_kind flags)
    (element_kind_equiv (ELK_Active ti e)).
Proof.
  intros m Hi H1 Hr. unfold read_element_kind. rewrite H1. cbn [Z.eqb negb].
  eapply erx_then; [exact Hi|]. eapply (erx_last f _ _ (ELK_Active ti)); [exact Hr|].
  by intros e2 H2.
Qed.

Lemma element_reencode x s :
  element_wf f x ->
  exists e, parse_element x s = unwrap_outcome (add_item e s)
    /\ enc_reads_ex f e from_reader_element (element_equiv x).
Proof.
  destruct x as [kd items rg]. intros [Hitems Hkd]. cbn [element_items_of element_kind] in *.
  destruct (element_items_reencode items Hitems) as (i' & Ei & Hshort & Hrest).
  unfold parse_element. cbn [element_items_of element_kind]. rewrite Ei. cbn [mbind outcome_bind].
  destruct kd as [|ti e|].
  - eexists. split; [done|]. eapply (element_mode_reencode _ _ (Some []) 1); [tauto| | |].
    + by rewrite and_then_nil_r.
    + destruct i'; by apply erx_ret.
    + intros start kd'. destruct i'; by apply Hrest.
  - destruct Hkd as [He Hti]. destruct (erx_const_expr e He) as (e' & Ee & Hr). rewrite Ee.
    eexists. split; [done|]. destruct ti as [i|].
    + eapply (element_mode_reencode _ _ (encode_u32 i +> WS.encode_const_expr e') 2); [tauto|done| |].
      * apply (erx_active_kind (Some i) _ e e'); [|destruct i'; done|done].
        destruct i'; (eapply er_last; [by apply er_u32|done]).
      * intros start kd'. destruct i'; by apply Hrest.
    + eapply (element_mode_reencode _ _ (WS.encode_const_expr e') 0); [tauto| | |].
      * destruct i' as [fs|ty es]; [done|]. unfold WS.encode_element_mode.
        cbn [WS.el_mode WS.elements reencode_table_index]. cbn.
        by rewrite bool_decide_eq_true_2 by by apply Hshort.
      * rewrite <- (and_then_nil_l (WS.encode_const_expr e')).
        apply (erx_active_kind None _ e e'); [destruct i'; apply er_ret|destruct i'; done|done].
      * intros start kd'. destruct i'; by apply Hrest.
  - eexists. split; [done|]. eapply (element_mode_reencode _ _ (Some []) 3); [tauto| | |].
    + by rewrite and_then_nil_r.
    + destruct i'; by apply erx_ret.
    + intros start kd'. destruct i'; by apply Hrest.
Qed.
End roundtrip.

(** * The kinds of items of the sections of a core module, as instances of
    [SectionItem]: the interface against which the round trip of a section is
    proved, and the laws that discharge it. *)

(** Items that are checked completely when they are read. *)
Definition checked {A} (_ : A) : result () := Ok tt.
Definition always {A} (_ : A) : Prop := True.

Lemma eager_parse {A} `{FromReader A} f (e : Enc) (P : A -> Prop) (x y : outcome SectionBuilder) :
  x = y -> enc_reads_ex f e read P ->
  x = y /\ (True -> exists bs, e = Some bs)
  /\ forall bs, e = Some bs -> reads_ex f (read (A := A)) bs P.
Proof.
  intros -> (bs & -> & Hr). split; [done|]. split; [by exists bs|]. by intros ? [= <-].
Qed.

Section items.
Context {L : Leb128}.

#[export] Instance RecGroup_item : SectionItem RecGroup := {
  parse_item := parse_recursive_type_group;
  item_wf := fun _ => rec_group_wf;
  item_check := checked; item_fits := always;
  item_equiv := rec_group_equiv;
}.

#[export] Instance Import_item : SectionItem Import := {
  parse_item := parse_import;
  item_wf := import_wf;
  item_check := checked; item_fits := always;
  item_equiv := eq;
}.

(** The function section holds type indices. *)
#[export] Instance function_item : SectionItem Z := {
  parse_item := parse_function;
  item_wf := fun _ => in_u 32;
  item_check := checked; item_fits := always;
  item_equiv := eq;
}.

#[export] Instance Table_item : SectionItem Table := {
  parse_item := parse_table;
  item_wf := table_wf;
  item_check := checked; item_fits := always;
  item_equiv := table_equiv;
}.

#[export] Instance MemoryType_item : SectionItem MemoryType := {
  parse_item := parse_memory;
  item_wf := fun _ => memory_type_wf;
  item_check := checked; item_fits := always;
  item_equiv := eq;
}.

#[export] Instance TagType_item : SectionItem TagType := {
  parse_item := parse_tag;
  item_wf := fun _ => tag_type_wf;
  item_check := checked; item_fits := always;
  item_equiv := eq;
}.

#[export] Instance Global_item : SectionItem Global := {
  parse_item := parse_global;
  item_wf := global_wf;
  item_check := checked; item_fits := always;
  item_equiv := global_equiv;
}.

#[export] Instance Export_item : SectionItem Export := {
  parse_item := parse_export;
  item_wf := fun _ => export_wf;
  item_check := checked; item_fits := always;
  item_equiv := eq;
}.

#[export] Instance Element_item : SectionItem Element := {
  parse_item := parse_element;
  item_wf := element_wf;
  item_check := checked; item_fits := always;
  item_equiv := element_equiv;
}.

#[export] Instance Data_item : SectionItem Data := {
  parse_item := parse_data;
  item_wf := data_wf;
  item_check := checked; item_fits := always;
  item_equiv := data_equiv;
}.

(** A body is decoded when it is translated, not when it is read. *)
Definition body_check (b : FunctionBody) : result () :=
  match body_parts b with Ok _ => Ok tt | Err e => Err e | Panic => Panic end.

Definition body_fits (b : FunctionBody) : Prop :=
  forall ls ops bs, body_parts b = Ok (ls, ops) -> body_bytes ls ops = Some bs ->
  Z.of_nat (length bs) < 2 ^ 32.

#[export] Instance FunctionBody_item : SectionItem FunctionBody := {
  parse_item := parse_function_body;
  item_wf := fun f b => wf_reader (body_reader b) /\ features (body_reader b) = f;
  item_check := body_check; item_fits := body_fits;
  item_equiv := function_body_equiv;
}.
End items.

Section laws.
Context {L : Leb128} {LS : Leb128Spec L}.

#[export] Instance RecGroup_laws : SectionItemLaws RecGroup.
Proof.
  split.
  - intros E r0 k Q Henv _ HQ. by apply wp_rec_group.
  - intros f a s Ha. destruct (rec_group_reencode f a s Ha) as (e & bs & Hp & -> & Hr).
    exists (Some bs). apply eager_parse; [done|]. by exists bs.
Qed.

#[export] Instance Import_laws : SectionItemLaws Import.
Proof.
  split.
  - intros E r0 k Q Henv _ HQ. by apply wp_import.
  - intros f a s Ha. destruct (import_reencode f a s Ha) as (e & Hp & Hr).
    exists e. apply eager_parse; [done|]. by eapply erx_exact.
Qed.

#[export] Instance function_laws : SectionItemLaws Z.
Proof.
  split.
  - intros E r0 k Q Henv _ HQ. apply wp_var_u32; [done|]. intros v k' Hk Hv. by apply HQ.
  - intros f a s Ha. eexists. apply eager_parse; [done|]. eapply erx_exact; [by apply er_u32|done].
Qed.

#[export] Instance Table_laws : SectionItemLaws Table.
Proof.
  split.
  - intros E r0 k Q Henv Ha HQ. by apply wp_table.
  - intros f a s Ha. destruct (table_reencode f a s Ha) as (e & Hp & Hr).
    exists e. by apply eager_parse.
Qed.

#[export] Instance MemoryType_laws : SectionItemLaws MemoryType.
Proof.
  split.
  - intros E r0 k Q Henv _ HQ. by apply wp_memory_type.
  - intros f a s Ha. eexists. apply eager_parse; [done|].
    eapply erx_exact; [by apply er_memory_type|done].
Qed.

#[export] Instance TagType_laws : SectionItemLaws TagType.
Proof.
  split.
  - intros E r0 k Q Henv _ HQ. by apply wp_tag_type.
  - intros f a s Ha. eexists. apply eager_parse; [done|].
    eapply erx_exact; [by apply er_tag_type|done].
Qed.

#[export] Instance Global_laws : SectionItemLaws Global.
Proof.
  split.
  - intros E r0 k Q Henv Ha HQ. by apply wp_global.
  - intros f a s Ha. destruct (global_reencode f a s Ha) as (e & Hp & Hr).
    exists e. by apply eager_parse.
Qed.

#[export] Instance Export_laws : SectionItemLaws Export.
Proof.
  split.
  - intros E r0 k Q Henv _ HQ. by apply wp_export.
  - intros f a s Ha. destruct (export_reencode f a s Ha) as (e & Hp & Hr).
    exists e. apply eager_parse; [done|]. by eapply erx_exact.
Qed.

#[export] Instance Element_laws : SectionItemLaws Element.
Proof.
  split.
  - intros E r0 k Q Henv Ha HQ. by apply wp_element.
  - intros f a s Ha. destruct (element_reencode f a s Ha) as (e & Hp & Hr).
    exists e. by apply eager_parse.
Qed.

#[export] Instance Data_laws : SectionItemLaws Data.
Proof.
  split.
  - intros E r0 k Q Henv Ha HQ. by apply wp_data.
  - intros f a s Ha. destruct (data_reencode f a s Ha) as (e & Hp & Hr).
    exists e. by apply eager_parse.
Qed.

#[export] Instance FunctionBody_laws : SectionItemLaws FunctionBody.
Proof.
  split.
  - intros E r0 k Q Henv _ HQ. unfold read, from_reader, FromReader_FunctionBody,
      from_reader_function_body. apply wp_bind, wp_read_reader; [done|].
    intros br k' Hk Hwf Hf _. apply wp_ret, HQ; [done|by split].
  - intros f b s [Hwf Hf]. pose proof (parse_function_body_ok f b s Hwf Hf) as H.
    cbn [item_check FunctionBody_item]. unfold body_check.
    destruct (body_parts b) as [[ls ops]|e|] eqn:Eb; [|done..].
    destruct H as (bs & Ebs & Hp & Hrt). exists (encode_bytes bs). split; [done|]. split.
    + intros Hfit. destruct (reads_function_body f b bs) as (es & Ees & _); [|done|by exists es].
      by apply (Hfit ls ops bs).
    + intros es Ees. destruct (Z.ltb_spec (Z.of_nat (length bs)) (2 ^ 32)).
      * destruct (reads_function_body f b bs) as (es' & Ees' & Hr); [done..|].
        by replace es with es' by congruence.
      * unfold encode_bytes, encode_usize in Ees.
        destruct (Z.leb_spec (Z.of_nat (length bs)) (2 ^ 32 - 1)); [lia|done].
Qed.
End laws.
