(* ===== verification/Parser.v ===== *)
(** The incremental parser of modules and components,
    [crates/wasmparser/src/parser.rs], with the custom section reader of
    [crates/wasmparser/src/readers/core/custom.rs] and the start function of a
    component, [crates/wasmparser/src/readers/component/start.rs].

    A [u64] of the parser is a [Z] whose additions and subtractions are checked;
    positions, which are [usize], are treated as in BinaryReader.v.  The
    sections of a component are delimited here; their items are not modelled. *)

From Stdlib Require Import ZArith Lia String.
From stdpp Require Import prelude.
From S2P Require Import Prelude BinaryReader Types Operands Operators Instructions Reencode.
From S2P Require Import SectionReader CompositeTypes Items.

Local Open Scope Z_scope.

Definition WASM_MODULE_VERSION : Z := 0x1.
Definition WASM_COMPONENT_VERSION : Z := 0xd.
Definition KIND_MODULE : Z := 0x00.
Definition KIND_COMPONENT : Z := 0x01.

Definition MAX_WASM_MODULE_SIZE : Z := 1024 * 1024 * 1024.
Definition MAX_WASM_START_ARGS : Z := 1000.

(** ** State *)

Inductive Encoding := EModule | EComponent.

Inductive State :=
| Header
| SectionStart
| InFunctionBody (remaining len : Z).

Record Parser := mkParser {
  p_state : State;
  p_offset : Z;
  p_max_size : Z;
  p_encoding : Encoding;
  p_features : WasmFeatures;
}.

Definition set_state (s : State) (p : Parser) : Parser :=
  mkParser s (p_offset p) (p_max_size p) (p_encoding p) (p_features p).
Definition set_encoding (e : Encoding) (p : Parser) : Parser :=
  mkParser (p_state p) (p_offset p) (p_max_size p) e (p_features p).
Definition set_max_size (m : Z) (p : Parser) : Parser :=
  mkParser (p_state p) (p_offset p) m (p_encoding p) (p_features p).
Definition set_offset (o : Z) (p : Parser) : Parser :=
  mkParser (p_state p) o (p_max_size p) (p_encoding p) (p_features p).
Definition set_features (f : WasmFeatures) (p : Parser) : Parser :=
  mkParser (p_state p) (p_offset p) (p_max_size p) (p_encoding p) f.

Definition u64_MAX : Z := 2 ^ 64 - 1.

Definition Parser_new (off : Z) : Parser :=
  mkParser Header off u64_MAX EModule WasmFeatures_all.

(** ** Payloads *)

Record CustomSectionReader := mkCustom { custom_name : list Z; custom_reader : BinaryReader }.

(** [CustomSectionReader::new]. *)
Definition custom_new (reader : BinaryReader) : result CustomSectionReader :=
  match read_string reader with
  | (Ok name, reader') => Ok (mkCustom name reader')
  | (Err e, _) => Err e
  | (Panic, _) => Panic
  end.

Definition custom_data_offset (c : CustomSectionReader) : Z := original_position (custom_reader c).
Definition custom_data (c : CustomSectionReader) : list Z := remaining_buffer (custom_reader c).
Definition custom_range (c : CustomSectionReader) : Z * Z := range (custom_reader c).

Record ComponentStartFunction := mkComponentStart {
  start_func_index : Z;
  start_arguments : list Z;
  start_results : Z;
}.

Definition from_reader_component_start : Reader ComponentStartFunction :=
  func_index ← read_var_u32;
  arguments ← read_iter (A := Z) MAX_WASM_START_ARGS "start function arguments";
  results ← read_size MAX_WASM_FUNCTION_RETURNS "start function results";
  mret (mkComponentStart func_index arguments results).
#[export] Instance FromReader_ComponentStart : FromReader ComponentStartFunction :=
  from_reader_component_start.

Inductive Payload :=
| Version (num : Z) (encoding : Encoding) (range : Z * Z)
| TypeSection (s : SectionLimited)
| ImportSection (s : SectionLimited)
| FunctionSection (s : SectionLimited)
| TableSection (s : SectionLimited)
| MemorySection (s : SectionLimited)
| TagSection (s : SectionLimited)
| GlobalSection (s : SectionLimited)
| ExportSection (s : SectionLimited)
| StartSection (func : Z) (range : Z * Z)
| ElementSection (s : SectionLimited)
| DataCountSection (count : Z) (range : Z * Z)
| DataSection (s : SectionLimited)
| CodeSectionStart (count : Z) (range : Z * Z) (size : Z)
| CodeSectionEntry (body : FunctionBody)
| ModuleSection (parser : Parser) (unchecked_range : Z * Z)
| InstanceSection (s : SectionLimited)
| CoreTypeSection (s : SectionLimited)
| ComponentSection (parser : Parser) (unchecked_range : Z * Z)
| ComponentInstanceSection (s : SectionLimited)
| ComponentAliasSection (s : SectionLimited)
| ComponentTypeSection (s : SectionLimited)
| ComponentCanonicalSection (s : SectionLimited)
| ComponentStartSection (start : ComponentStartFunction) (range : Z * Z)
| ComponentImportSection (s : SectionLimited)
| ComponentExportSection (s : SectionLimited)
| CustomSection (c : CustomSectionReader)
| UnknownSection (id : Z) (contents : list Z) (range : Z * Z)
| End_ (pos : Z).

Inductive Chunk :=
| NeedMoreData (hint : Z)
| Parsed (consumed : Z) (payload : Payload).

(** ** Reading sections *)

Definition clear_hint (e : BinaryReaderError) : BinaryReaderError :=
  mkError (message e) (kind e) (offset e) None.

(** [section]: the content of the section, given to [ctor]. *)
Definition section {A} (len : Z) (ctor : BinaryReader -> result A) (variant : A -> Payload)
  : Reader Payload :=
  reader ← skip (read_bytes len;; mret tt);
  x ← map_err clear_hint (lift_result (ctor reader));
  mret (variant x).

Definition single_item {A} `{FromReader A} (len : Z) (desc : string) : Reader (A * (Z * Z)) :=
  pos ← gets original_position;
  let range := (pos, pos + len) in
  content ← skip (read_bytes len;; mret tt);
  let (ret, content') := read (A := A) content in
  ret ← map_err clear_hint (lift_result ret);
  if negb (eof content') then
    fail (err_new (mkMsg ("unexpected content in the " ++ desc ++ " section")%string [])
            (original_position content'))
  else mret (ret, range).

(** [delimited]: the result and the length that is left. *)
Definition delimited {A} (len : Z) (f : Reader A) : Reader (A * Z) :=
  start ← gets original_position;
  ret ← f;
  pos ← gets original_position;
  if (pos - start <=? 2 ^ 32 - 1) && (pos - start <=? len) then mret (ret, len - (pos - start))
  else fail (err_new (lit "unexpected end-of-file") start).

(** ** Parsing *)

(** The parser and the reader it is given. *)
Abbreviation PR := (ST (Parser * BinaryReader)).

Definition on_reader {A} (m : Reader A) : PR A := fun '(p, r) =>
  let (x, r') := m r in (x, (p, r')).

Definition on_parser (f : Parser -> Parser) : PR () := modify (fun '(p, r) => (f p, r)).

Definition get_parser : PR Parser := gets fst.

Definition u64_sub (a b : Z) : PR Z := if b <=? a then mret (a - b) else panic.
Definition u64_add (a b : Z) : PR Z := if a + b <=? u64_MAX then mret (a + b) else panic.

(** A module or a component within a component: the parser skips over it and
    hands out a parser for it. *)
Definition nested_section (id len len_pos : Z) : PR Payload :=
  if MAX_WASM_MODULE_SIZE <? len then
    on_reader (fail (err_new (mkMsg ((if (id =? 1)%Z then "module" else "component ")
                                       ++ " section is too large")%string []) len_pos))
  else
    pos ← on_reader (gets original_position);
    let range := (pos, pos + len) in
    p ← get_parser;
    max_size ← u64_sub (p_max_size p) len;
    on_parser (set_max_size max_size);;
    off ← u64_add (p_offset p) len;
    on_parser (set_offset off);;
    let parser := set_max_size len (set_features (p_features p) (Parser_new pos)) in
    match id with
    | 1 => mret (ModuleSection parser range)
    | 4 => mret (ComponentSection parser range)
    | _ => panic
    end.

Definition code_section_start (len : Z) : PR Payload :=
  start ← on_reader (gets original_position);
  '(count, len) ← on_reader (delimited len read_var_u32);
  pos ← on_reader (gets original_position);
  let range := (start, pos + len) in
  on_parser (set_state (InFunctionBody count len));;
  mret (CodeSectionStart count range len).

Definition unknown_section (id len : Z) : Reader Payload :=
  off ← gets original_position;
  contents ← read_bytes len;
  mret (UnknownSection id contents (off, off + len)).

(** The sections of a module, by their id; [None] for an unknown id. *)
Definition module_section_payload (id len : Z) : option (PR Payload) :=
  match id with
  | 1 => Some (on_reader (section len section_new TypeSection))
  | 2 => Some (on_reader (section len section_new ImportSection))
  | 3 => Some (on_reader (section len section_new FunctionSection))
  | 4 => Some (on_reader (section len section_new TableSection))
  | 5 => Some (on_reader (section len section_new MemorySection))
  | 6 => Some (on_reader (section len section_new GlobalSection))
  | 7 => Some (on_reader (section len section_new ExportSection))
  | 8 => Some (on_reader ('(func, range) ← single_item (A := Z) len "start";
                          mret (StartSection func range)))
  | 9 => Some (on_reader (section len section_new ElementSection))
  | 10 => Some (code_section_start len)
  | 11 => Some (on_reader (section len section_new DataSection))
  | 12 => Some (on_reader ('(count, range) ← single_item (A := Z) len "data count";
                           mret (DataCountSection count range)))
  | 13 => Some (on_reader (section len section_new TagSection))
  | _ => None
  end.

Definition component_section_payload (id len len_pos : Z) : option (PR Payload) :=
  match id with
  | 1 | 4 => Some (nested_section id len len_pos)
  | 2 => Some (on_reader (section len section_new InstanceSection))
  | 3 => Some (on_reader (section len section_new CoreTypeSection))
  | 5 => Some (on_reader (section len section_new ComponentInstanceSection))
  | 6 => Some (on_reader (section len section_new ComponentAliasSection))
  | 7 => Some (on_reader (section len section_new ComponentTypeSection))
  | 8 => Some (on_reader (section len section_new ComponentCanonicalSection))
  | 9 => Some (on_reader ('(start, range) ← single_item (A := ComponentStartFunction) len
                                              "component start";
                          mret (ComponentStartSection start range)))
  | 10 => Some (on_reader (section len section_new ComponentImportSection))
  | 11 => Some (on_reader (section len section_new ComponentExportSection))
  | _ => None
  end.

Definition section_payload (id len len_pos : Z) : PR Payload :=
  p ← get_parser;
  if id =? 0 then on_reader (section len custom_new CustomSection)
  else
    match match p_encoding p with
          | EModule => module_section_payload id len
          | EComponent => component_section_payload id len len_pos
          end with
    | Some m => m
    | None => on_reader (unknown_section id len)
    end.

(** [State::SectionStart]. *)
Definition parse_section_start (eof : bool) : PR Payload :=
  remaining ← on_reader (gets bytes_remaining);
  if eof && (remaining =? 0) then
    pos ← on_reader (gets original_position);
    mret (End_ pos)
  else
    id_pos ← on_reader (gets original_position);
    id ← on_reader read_u8;
    if negb (Z.land id 0x80 =? 0) then
      on_reader (fail (err_new (lit "malformed section id") id_pos))
    else
      len_pos ← on_reader (gets original_position);
      len ← on_reader read_var_u32;
      pos ← on_reader (gets original_position);
      let consumed := pos - id_pos in
      p ← get_parser;
      if p_max_size p - consumed - len <? 0 then
        on_reader (fail (err_new (lit "section too large") len_pos))
      else section_payload id len len_pos.

(** [State::Header]. *)
Definition parse_header : PR Payload :=
  start ← on_reader (gets original_position);
  header_version ← on_reader read_header_version;
  encoding ←
    (let k := wrap 16 (Z.shiftr header_version 16) in
     if k =? KIND_MODULE then mret EModule
     else if k =? KIND_COMPONENT then mret EComponent
     else on_reader (fail (err_new (mkMsg "unknown binary version: {header_version:#10x}"
                                     [header_version]) (start + 4))));
  on_parser (set_encoding encoding);;
  let num := wrap 16 header_version in
  on_parser (set_state SectionStart);;
  pos ← on_reader (gets original_position);
  mret (Version num encoding (start, pos)).

(** [State::FunctionBody] with functions left. *)
Definition parse_function_entry (remaining len : Z) : PR Payload :=
  '(body, len) ← on_reader (delimited len (r ← read_reader; mret (mkFunctionBody r)));
  on_parser (set_state (InFunctionBody (remaining - 1) len));;
  mret (CodeSectionEntry body).

Definition parse_reader (eof : bool) : PR Payload :=
  p ← get_parser;
  match p_state p with
  | Header => parse_header
  | SectionStart => parse_section_start eof
  | InFunctionBody remaining len =>
      if remaining =? 0 then
        if len =? 0 then
          on_parser (set_state SectionStart);;
          parse_section_start eof
        else
          off ← on_reader (gets original_position);
          on_reader (fail (err_new (lit "trailing bytes at end of section") off))
      else parse_function_entry remaining len
  end.

(** [&data[..max_size as usize]]. *)
Definition limit_data (p : Parser) (data : list Z) (eof : bool) : list Z * bool :=
  if p_max_size p <? Z.of_nat (length data) then (take (Z.to_nat (p_max_size p)) data, true)
  else (data, eof).

Definition parse (p : Parser) (data : list Z) (eof : bool) : result Chunk * Parser :=
  let (data, eof) := limit_data p data eof in
  let starting_offset := p_offset p in
  let reader := BinaryReader_new_features data starting_offset (p_features p) in
  match parse_reader eof (p, reader) with
  | (Ok payload, (p', reader')) =>
      let consumed := original_position reader' - starting_offset in
      if u64_MAX <? p_offset p' + consumed then (Panic, p')
      else if p_max_size p' <? consumed then (Panic, set_offset (p_offset p' + consumed) p')
      else (Ok (Parsed consumed payload),
            set_max_size (p_max_size p' - consumed) (set_offset (p_offset p' + consumed) p'))
  | (Err e, (p', _)) =>
      if eof then (Err e, p')
      else match needed_hint e with
           | Some hint => (Ok (NeedMoreData hint), p')
           | None => (Err e, p')
           end
  | (Panic, (p', _)) => (Panic, p')
  end.

(** [skip_section]; [None] when it panics. *)
Definition skip_section (p : Parser) : option Parser :=
  match p_state p with
  | InFunctionBody _ skip =>
      if (p_offset p + skip <=? u64_MAX) && (skip <=? p_max_size p) then
        Some (set_state SectionStart
                (set_max_size (p_max_size p - skip) (set_offset (p_offset p + skip) p)))
      else None
  | _ => None
  end.

(** ** [parse_all] *)

(** The state captured by the closure given to [iter::from_fn]. *)
Record ParseAll := mkParseAll {
  pa_stack : list Parser;
  pa_cur : Parser;
  pa_done : bool;
  pa_data : list Z;
}.

Definition parse_all (p : Parser) (data : list Z) : ParseAll := mkParseAll [] p false data.

(** The parsers after a payload; the stack has its top first. *)
Definition after_payload (payload : Payload) (stack : list Parser) (cur : Parser)
  : list Parser * Parser * bool :=
  match payload with
  | ModuleSection parser _ | ComponentSection parser _ => (cur :: stack, parser, false)
  | End_ _ => match stack with p :: stack' => (stack', p, false) | [] => ([], cur, true) end
  | _ => (stack, cur, false)
  end.

(** [&data[consumed..]] panics past the end; so does [NeedMoreData], which
    [unreachable!] excludes. *)
Definition parse_all_next (st : ParseAll) : option (result Payload) * ParseAll :=
  if pa_done st then (None, st)
  else
    match parse (pa_cur st) (pa_data st) true with
    | (Err e, cur) => (Some (Err e), mkParseAll (pa_stack st) cur true (pa_data st))
    | (Ok (NeedMoreData _), cur) => (Some Panic, mkParseAll (pa_stack st) cur false (pa_data st))
    | (Ok (Parsed consumed payload), cur) =>
        if Z.of_nat (length (pa_data st)) <? consumed then
          (Some Panic, mkParseAll (pa_stack st) cur false (pa_data st))
        else
          let data := drop (Z.to_nat consumed) (pa_data st) in
          let '(stack, cur, done) := after_payload payload (pa_stack st) cur in
          (Some (Ok payload), mkParseAll stack cur done data)
    | (Panic, cur) => (Some Panic, mkParseAll (pa_stack st) cur false (pa_data st))
    end.

(** ** [Payload::as_section] *)

Definition as_section (p : Payload) : option (Z * (Z * Z)) :=
  match p with
  | Version _ _ _ => None
  | TypeSection s => Some (1, section_range s)
  | ImportSection s => Some (2, section_range s)
  | FunctionSection s => Some (3, section_range s)
  | TableSection s => Some (4, section_range s)
  | MemorySection s => Some (5, section_range s)
  | TagSection s => Some (13, section_range s)
  | GlobalSection s => Some (6, section_range s)
  | ExportSection s => Some (7, section_range s)
  | ElementSection s => Some (9, section_range s)
  | DataSection s => Some (11, section_range s)
  | StartSection _ range => Some (8, range)
  | DataCountSection _ range => Some (12, range)
  | CodeSectionStart _ range _ => Some (10, range)
  | CodeSectionEntry _ => None
  | ModuleSection _ range => Some (1, range)
  | InstanceSection s => Some (2, section_range s)
  | CoreTypeSection s => Some (3, section_range s)
  | ComponentSection _ range => Some (4, range)
  | ComponentInstanceSection s => Some (5, section_range s)
  | ComponentAliasSection s => Some (6, section_range s)
  | ComponentTypeSection s => Some (7, section_range s)
  | ComponentCanonicalSection s => Some (8, section_range s)
  | ComponentStartSection _ range => Some (9, range)
  | ComponentImportSection s => Some (10, section_range s)
  | ComponentExportSection s => Some (11, section_range s)
  | CustomSection c => Some (0, custom_range c)
  | UnknownSection id _ range => Some (id, range)
  | End_ _ => None
  end.

(** ** Headers *)

(** [u16::to_le_bytes]. *)
Definition le2 (v : Z) : list Z := [v mod 256; v / 256 mod 256].

Definition is_core_wasm (bytes : list Z) : bool :=
  bool_decide (take 8 bytes = WASM_MAGIC_NUMBER ++ le2 WASM_MODULE_VERSION ++ le2 KIND_MODULE).

Definition is_component (bytes : list Z) : bool :=
  bool_decide (take 8 bytes
               = WASM_MAGIC_NUMBER ++ le2 WASM_COMPONENT_VERSION ++ le2 KIND_COMPONENT).

(** ** Parsing a stream

    The loop of the documentation of [Parser::parse].  [s_input] holds what the
    calls of [Read::read] will return: each call takes at most [hint] bytes of
    the first segment, and none once the input is exhausted. *)

Record Stream := mkStream {
  s_stack : list Parser;
  s_cur : Parser;
  s_eof : bool;
  s_buf : list Z;
  s_input : list (list Z);
}.

Definition stream (p : Parser) (input : list (list Z)) : Stream := mkStream [] p false [] input.

(** [reader.read(&mut buf[len..])], where [buf[len..]] has [hint] bytes. *)
Definition read_input (hint : Z) (input : list (list Z)) : list Z * list (list Z) :=
  match input with
  | [] => ([], [])
  | s :: input' =>
      let rest := drop (Z.to_nat hint) s in
      (take (Z.to_nat hint) s, if bool_decide (rest = []) then input' else rest :: input')
  end.

Inductive Step :=
| Continue (st : Stream)
| Emit (payload : Payload) (st : Stream)
| Stop (x : result Payload).

Definition stream_step (st : Stream) : Step :=
  match parse (s_cur st) (s_buf st) (s_eof st) with
  | (Err e, _) => Stop (Err e)
  | (Panic, _) => Stop Panic
  | (Ok (NeedMoreData hint), cur) =>
      if s_eof st then Stop Panic
      else
        let '(bytes, input) := read_input hint (s_input st) in
        Continue (mkStream (s_stack st) cur (bool_decide (bytes = [])) (s_buf st ++ bytes) input)
  | (Ok (Parsed consumed payload), cur) =>
      let '(stack, cur, done) := after_payload payload (s_stack st) cur in
      if done then Stop (Ok payload)
      else if Z.of_nat (length (s_buf st)) <? consumed then Stop Panic
      else
        Emit payload (mkStream stack cur (s_eof st) (drop (Z.to_nat consumed) (s_buf st)) (s_input st))
  end.

(** The payloads the loop sees, and how it ends; [None] when the fuel runs out. *)
Fixpoint stream_run (fuel : nat) (st : Stream) : option (list (result Payload)) :=
  match fuel with
  | O => None
  | S fuel' =>
      match stream_step st with
      | Continue st' => stream_run fuel' st'
      | Emit payload st' => xs ← stream_run fuel' st'; Some (Ok payload :: xs)
      | Stop x => Some [x]
      end
  end.
