(* ===== verification/ParserSpec.v ===== *)
(** What a call of the parser does on arbitrary bytes: the invariant of the
    parser, the bytes a payload takes and the errors it may report. *)

From Stdlib Require Import ZArith Lia String.
From stdpp Require Import prelude.
From S2P Require Import Prelude Leb128 BinaryReader BinaryReaderSpec ReaderLogic Encode Types Operands.
From S2P Require Import Operators OperatorReader Instructions Reencode OperandSpec SectionReader CompositeTypes.
From S2P Require Import Items Locality FunctionSpec ItemSpec Parser.

Local Open Scope Z_scope.

(** ** The invariant *)

Definition state_wf (s : State) (max_size : Z) : Prop :=
  match s with
  | Header | SectionStart => True
  | InFunctionBody remaining len => in_u 32 remaining /\ in_u 32 len /\ len <= max_size
  end.

(** The bytes a parser may still read end within the address space. *)
Record wf_parser (p : Parser) : Prop := {
  wfp_offset : 0 <= p_offset p;
  wfp_max_size : 0 <= p_max_size p;
  wfp_end : p_offset p + p_max_size p <= u64_MAX;
  wfp_state : state_wf (p_state p) (p_max_size p);
}.

Lemma wf_parser_new : wf_parser (Parser_new 0).
Proof. split; unfold Parser_new, u64_MAX; simpl; lia. Qed.

(** ** Sections *)

Lemma range_env r : wf_reader r -> wp_env (err_in_range r) r.
Proof. by split. Qed.

(** A constructor of a section's reader, run on the section's content. *)
Definition ctor_safe {A} (ctor : BinaryReader -> result A) : Prop :=
  forall br, wf_reader br ->
  match ctor br with Ok _ => True | Err e => err_in_range br e | Panic => False end.

(** A reader that does not panic and reports errors in range. *)
Definition item_safe {A} (m : Reader A) : Prop :=
  forall r, wf_reader r -> wp (err_in_range r) r 0 m (fun _ _ => True).

Lemma item_safe_run {A} (m : Reader A) r :
  item_safe m -> wf_reader r ->
  exists k, (k <= length (remaining_buffer r))%nat /\ (m r).2 = advance k r
    /\ match (m r).1 with Ok _ => True | Err e => err_in_range r e | Panic => False end.
Proof.
  intros Hm Hwf. destruct (Hm r Hwf (Nat.le_0_l _)) as (k & Hk & E & H).
  rewrite advance_0 in *. exists k. split; [lia|done].
Qed.

Lemma section_new_safe : ctor_safe section_new.
Proof.
  intros br Hwf. unfold section_new.
  destruct (item_safe_run read_var_u32 br) as (k & _ & _ & H); [|done|].
  { intros r Hr. pose proof (range_env r Hr). apply wp_var_u32; done. }
  by destruct (read_var_u32 br) as [[a|e|] r'].
Qed.

Lemma custom_new_safe : ctor_safe custom_new.
Proof.
  intros br Hwf. unfold custom_new.
  destruct (item_safe_run read_string br) as (k & _ & _ & H); [|done|].
  { intros r Hr. pose proof (range_env r Hr). by apply wp_read_string. }
  by destruct (read_string br) as [[a|e|] r'].
Qed.

Lemma u32_safe : item_safe (read (A := Z)).
Proof. intros r Hr. pose proof (range_env r Hr). by apply wp_var_u32. Qed.

Definition start_wf (s : ComponentStartFunction) : Prop :=
  in_u 32 (start_func_index s) /\ Z.of_nat (length (start_arguments s)) <= MAX_WASM_START_ARGS
  /\ Forall (in_u 32) (start_arguments s) /\ 0 <= start_results s <= MAX_WASM_FUNCTION_RETURNS.

Lemma wp_component_start r :
  wf_reader r -> wp (err_in_range r) r 0 (read (A := ComponentStartFunction)) (fun s _ => start_wf s).
Proof.
  intros Hr. pose proof (range_env r Hr). unfold read, from_reader, FromReader_ComponentStart, from_reader_component_start.
  do 2 wp_step. apply wp_bind, (wp_iter _ r H _ _ _ (in_u 32)).
  { intros k1. by apply wp_var_u32. }
  intros xs k2 _ Hl Hxs. apply wp_bind, (wp_size _ r H). intros n k3 _ Hn. by apply wp_ret.
Qed.

Lemma component_start_safe : item_safe (read (A := ComponentStartFunction)).
Proof. intros r Hr. eapply wp_mono; [by apply wp_component_start|done]. Qed.

Lemma component_start_inv r s r' :
  wf_reader r -> read (A := ComponentStartFunction) r = (Ok s, r') -> start_wf s.
Proof.
  intros Hr Hs. destruct (wp_component_start r Hr (Nat.le_0_l _)) as (k & _ & _ & H).
  rewrite advance_0, Hs in H. exact H.
Qed.

(** The content of a section whose length is [n]. *)
Definition content_at (r0 : BinaryReader) (k : nat) (n : Z) : BinaryReader :=
  slice_reader (advance k r0) (take (Z.to_nat n) (drop k (remaining_buffer r0))).

Section wp.
Context (r0 : BinaryReader).
Hypothesis Hwf : wf_reader r0.
Local Abbreviation E := (err_in_range r0).
Local Abbreviation Henv := (range_env r0 Hwf).
Implicit Types k : nat.

Lemma content_wf k n :
  0 <= n -> (k + Z.to_nat n <= length (remaining_buffer r0))%nat -> wf_reader (content_at r0 k n).
Proof.
  intros Hn Hk. apply (at_slice_reader _ _ (drop (Z.to_nat n) (drop k (remaining_buffer r0)))).
  - apply wf_advance; [done|lia].
  - rewrite remaining_advance by apply Hwf. by rewrite take_drop.
Qed.

Lemma content_range k n e :
  0 <= n -> (k + Z.to_nat n <= length (remaining_buffer r0))%nat ->
  err_in_range (content_at r0 k n) e -> E e.
Proof.
  intros Hn Hk. pose proof (remaining_length r0 Hwf).
  unfold err_in_range, content_at, slice_reader, original_position, buffer_len. simpl.
  unfold original_position in *. simpl. rewrite length_take, length_drop.
  unfold buffer_len in *. lia.
Qed.

Lemma skip_eq m r :
  skip m r
  = match m r with
    | (Ok _, r') => (Ok (mkReader (slice (position r) (position r') (buffer r')) 0
                           (original_offset r' + position r) (features r')), r')
    | (Err e, r') => (Err e, r')
    | (Panic, r') => (Panic, r')
    end.
Proof. done. Qed.

Lemma wp_content k n (Q : BinaryReader -> nat -> Prop) :
  0 <= n ->
  ((k + Z.to_nat n <= length (remaining_buffer r0))%nat ->
   Q (content_at r0 k n) (k + Z.to_nat n)%nat) ->
  wp E r0 k (skip (read_bytes n;; mret tt)) Q.
Proof.
  intros Hn HQ.
  assert (H : wp E r0 k (read_bytes n;; mret tt) (fun _ k' => k' = (k + Z.to_nat n)%nat)).
  { apply wp_bind, wp_bytes; [apply Henv|done|]. intros. by apply wp_ret. }
  intros Hk. destruct (H Hk) as (k' & Hk' & E1 & Hm).
  exists k'. rewrite skip_eq. destruct ((read_bytes n;; mret tt) (advance k r0)) as [[[]|e|] r1];
    simpl in E1, Hm; subst; [|by split; [lia|]|done].
  split; [lia|]. split; [done|]. cbn [fst gets]. specialize (HQ ltac:(lia)).
  replace (mkReader _ _ _ _) with (content_at r0 k n); [done|].
  unfold content_at, slice_reader, slice, remaining_buffer. cbn [position buffer advance set_position original_offset features].
  f_equal. rewrite drop_drop. f_equal; [lia|]. f_equal. pose proof (wf_pos r0 Hwf). lia.
Qed.

(** The position stays within the buffer. *)
Lemma wp_within {A} k (m : Reader A) (Q : A -> nat -> Prop) :
  wp E r0 k m (fun a k' => (k' <= length (remaining_buffer r0))%nat -> Q a k') -> wp E r0 k m Q.
Proof.
  intros H Hk. destruct (H Hk) as (k' & Hk' & E1 & Hm). exists k'. split; [done|].
  split; [done|]. destruct (m _).1; try done. apply Hm. lia.
Qed.

Lemma wp_lift_result {A} k (x : result A) (Q : A -> nat -> Prop) :
  match x with Ok a => Q a k | Err e => E e | Panic => False end ->
  wp E r0 k (lift_result x) Q.
Proof. intros H Hk. exists k. split; [lia|]. by destruct x. Qed.

Lemma wp_section {A} k n (ctor : BinaryReader -> result A) variant (Q : Payload -> nat -> Prop) :
  ctor_safe ctor -> 0 <= n ->
  (forall x, (k + Z.to_nat n <= length (remaining_buffer r0))%nat ->
     ctor (content_at r0 k n) = Ok x -> Q (variant x) (k + Z.to_nat n)%nat) ->
  wp E r0 k (section n ctor variant) Q.
Proof.
  intros Hc Hn HQ. apply wp_bind, wp_content; [done|]. intros Hk.
  apply wp_bind, wp_map_err; [by intros|]. apply wp_lift_result.
  specialize (Hc _ (content_wf k n Hn Hk)). destruct (ctor _) as [x|e|] eqn:Ex; [|by eapply content_range|done].
  by apply wp_ret, HQ.
Qed.

Lemma wp_single_item {A} `{FromReader A} k n desc (Q : A * (Z * Z) -> nat -> Prop) :
  item_safe (read (A := A)) -> 0 <= n ->
  (forall x r', (k + Z.to_nat n <= length (remaining_buffer r0))%nat ->
     read (A := A) (content_at r0 k n) = (Ok x, r') -> eof r' = true ->
     Q (x, (original_position r0 + Z.of_nat k, original_position r0 + Z.of_nat k + n))
       (k + Z.to_nat n)%nat) ->
  wp E r0 k (single_item n desc) Q.
Proof.
  intros Hs Hn HQ. apply wp_bind, wp_position. apply wp_bind, wp_content; [done|]. intros Hk.
  destruct (item_safe_run read _ Hs (content_wf k n Hn Hk)) as (j & Hj & Er & Hx).
  destruct (read (content_at r0 k n)) as [x r'] eqn:Ex. simpl in Er, Hx.
  apply wp_bind, wp_map_err; [by intros|]. apply wp_lift_result.
  destruct x as [x|e|]; [|by eapply content_range|done].
  destruct (eof r') eqn:Ee; cbn [negb].
  - apply wp_ret. by eapply HQ.
  - intros Hk'. eexists. split; [split; [apply Nat.le_refl|exact Hk']|]. split; [done|].
    apply (content_range k n); [done..|]. subst r'.
    unfold err_in_range. cbn [fst fail offset err_new err_new_kind].
    rewrite advance_original_position. pose proof (remaining_length _ (content_wf k n Hn Hk)).
    unfold original_position in *. lia.
Qed.
End wp.

(** ** Parsers with their reader *)

(** Run from parser [p] and [r0] advanced by [k] bytes, [m] does not panic; an
    error is in range and leaves the parser [p0]. *)
Definition wpp {A} (r0 : BinaryReader) (p0 p : Parser) (k : nat) (m : PR A)
  (Q : A -> Parser -> nat -> Prop) : Prop :=
  (k <= length (remaining_buffer r0))%nat ->
  exists k' p', (k <= k' <= length (remaining_buffer r0))%nat
    /\ (m (p, advance k r0)).2 = (p', advance k' r0)
    /\ match (m (p, advance k r0)).1 with
       | Ok a => Q a p' k'
       | Err e => err_in_range r0 e /\ p' = p0
       | Panic => False
       end.

Section wpp.
Context (r0 : BinaryReader) (p0 : Parser).
Hypothesis Hwf : wf_reader r0.
Implicit Types (k : nat) (p : Parser).

Lemma wpp_ret {A} p k (a : A) (Q : A -> Parser -> nat -> Prop) :
  Q a p k -> wpp r0 p0 p k (mret a) Q.
Proof. intros HQ Hk. exists k, p. split; [lia|done]. Qed.

Lemma wpp_bind {A B} p k (m : PR A) (g : A -> PR B) Q :
  wpp r0 p0 p k m (fun a p' k' => wpp r0 p0 p' k' (g a) Q) -> wpp r0 p0 p k (m ≫= g) Q.
Proof.
  intros H Hk. destruct (H Hk) as (k1 & p1 & Hk1 & E1 & Hm). rewrite ST_bind_eq.
  destruct (m (p, advance k r0)) as [[a|e|] s1]; simpl in *; subst; [|by exists k1, p1|done].
  destruct (Hm ltac:(lia)) as (k2 & p2 & Hk2 & H2). exists k2, p2. split; [lia|done].
Qed.

Lemma wpp_mono {A} p k (m : PR A) (Q Q' : A -> Parser -> nat -> Prop) :
  wpp r0 p0 p k m Q -> (forall a p' k', (k <= k')%nat -> Q a p' k' -> Q' a p' k') ->
  wpp r0 p0 p k m Q'.
Proof.
  intros H HQ Hk. destruct (H Hk) as (k1 & p1 & Hk1 & E1 & Hm). exists k1, p1.
  split; [done|]. split; [done|]. destruct (m _).1; [|done..]. apply HQ; [lia|done].
Qed.

Lemma wpp_reader {A} k (m : Reader A) (Q : A -> Parser -> nat -> Prop) :
  wp (err_in_range r0) r0 k m (fun a k' => Q a p0 k') -> wpp r0 p0 p0 k (on_reader m) Q.
Proof.
  intros H Hk. destruct (H Hk) as (k1 & Hk1 & E1 & Hm). exists k1, p0. unfold on_reader.
  destruct (m (advance k r0)) as [[a|e|] r1]; simpl in *; subst;
    [done|by split|done].
Qed.

Lemma wpp_position p k (Q : Z -> Parser -> nat -> Prop) :
  Q (original_position r0 + Z.of_nat k) p k ->
  wpp r0 p0 p k (on_reader (gets original_position)) Q.
Proof.
  intros HQ Hk. exists k, p. split; [lia|]. split; [done|]. cbn [fst on_reader gets].
  by rewrite advance_original_position.
Qed.

Lemma wpp_parser p k f (Q : () -> Parser -> nat -> Prop) :
  Q tt (f p) k -> wpp r0 p0 p k (on_parser f) Q.
Proof. intros HQ Hk. exists k, (f p). split; [lia|done]. Qed.

Lemma wpp_get_parser p k (Q : Parser -> Parser -> nat -> Prop) :
  Q p p k -> wpp r0 p0 p k get_parser Q.
Proof. intros HQ Hk. exists k, p. split; [lia|done]. Qed.

Lemma wpp_u64_sub p k a b (Q : Z -> Parser -> nat -> Prop) :
  b <= a -> Q (a - b) p k -> wpp r0 p0 p k (u64_sub a b) Q.
Proof. intros Hab HQ. unfold u64_sub. destruct (Z.leb_spec b a); [by apply wpp_ret|lia]. Qed.

Lemma wpp_u64_add p k a b (Q : Z -> Parser -> nat -> Prop) :
  a + b <= u64_MAX -> Q (a + b) p k -> wpp r0 p0 p k (u64_add a b) Q.
Proof. intros Hab HQ. unfold u64_add. destruct (Z.leb_spec (a + b) u64_MAX); [by apply wpp_ret|lia]. Qed.
End wpp.

(** ** A payload *)

(** The bytes of a nested module or component, which the payload hands to
    another parser. *)
Definition nested_parser (pl : Payload) : option Parser :=
  match pl with ModuleSection np _ | ComponentSection np _ => Some np | _ => None end.

Definition nested_size (pl : Payload) : Z :=
  match nested_parser pl with Some np => p_max_size np | None => 0 end.

Definition is_end (pl : Payload) : bool := match pl with End_ _ => true | _ => false end.

(** Where the readers of a payload come from, and the range of its numbers. *)
Definition section_of (f : WasmFeatures) (s : SectionLimited) : Prop :=
  exists br, wf_reader br /\ features br = f /\ section_new br = Ok s.

Definition payload_wf (enc : Encoding) (f : WasmFeatures) (pl : Payload) : Prop :=
  match pl with
  | TypeSection s | ImportSection s | FunctionSection s | TableSection s | MemorySection s
  | TagSection s | GlobalSection s | ExportSection s | ElementSection s | DataSection s
  | InstanceSection s | CoreTypeSection s | ComponentInstanceSection s | ComponentAliasSection s
  | ComponentTypeSection s | ComponentCanonicalSection s | ComponentImportSection s
  | ComponentExportSection s => section_of f s
  | CustomSection c => exists br, wf_reader br /\ features br = f /\ custom_new br = Ok c
  | StartSection n _ | DataCountSection n _ => in_u 32 n
  | UnknownSection id _ (a, b) => in_u 32 (b - a) /\ 0 < id < 128 /\ (enc = EModule -> 13 < id)
  | ModuleSection np (a, b) | ComponentSection np (a, b) => a = p_offset np /\ b = a + p_max_size np
  | ComponentStartSection s _ => start_wf s
  | _ => True
  end.

(** The bodies that a code section still has. *)
Definition bodies_left (s : State) : Z := match s with InFunctionBody n _ => n | _ => 0 end.

(** A code section is followed by as many bodies as it says, and by nothing else before them. *)
Definition bodies_wf (s : State) (pl : Payload) (s' : State) : Prop :=
  match pl with
  | CodeSectionStart count _ _ => bodies_left s = 0 /\ bodies_left s' = count /\ 0 <= count
  | CodeSectionEntry b => 0 < bodies_left s /\ bodies_left s' = bodies_left s - 1 /\ wf_reader (body_reader b)
  | _ => bodies_left s = 0 /\ bodies_left s' = 0
  end.

(** Only the header sets the encoding. *)
Definition encoding_after (pl : Payload) (e : Encoding) : Encoding :=
  match pl with Version _ e' _ => e' | _ => e end.

(** A payload of [k] bytes, before [parse] moves the parser past them. *)
Record payload_ok (p : Parser) (pl : Payload) (p' : Parser) (k : nat) : Prop := {
  po_fits : Z.of_nat k + nested_size pl <= p_max_size p;
  po_offset : p_offset p' = p_offset p + nested_size pl;
  po_max_size : p_max_size p' = p_max_size p - nested_size pl;
  po_features : p_features p' = p_features p;
  po_state : state_wf (p_state p') (p_max_size p - nested_size pl - Z.of_nat k);
  po_progress : if is_end pl then k = 0%nat else (0 < k)%nat;
  po_nested np : nested_parser pl = Some np ->
    np = set_max_size (nested_size pl)
           (set_features (p_features p) (Parser_new (p_offset p + Z.of_nat k)))
    /\ 0 <= nested_size pl;
  po_content : payload_wf (p_encoding p) (p_features p) pl;
  po_encoding : p_encoding p' = encoding_after pl (p_encoding p);
  po_bodies : bodies_wf (p_state p) pl (p_state p');
}.

Lemma plain_payload_ok p pl p' k :
  nested_parser pl = None -> Z.of_nat k <= p_max_size p ->
  p_offset p' = p_offset p -> p_max_size p' = p_max_size p -> p_features p' = p_features p ->
  p_encoding p' = encoding_after pl (p_encoding p) ->
  state_wf (p_state p') (p_max_size p - Z.of_nat k) ->
  (if is_end pl then k = 0%nat else (0 < k)%nat) ->
  payload_wf (p_encoding p) (p_features p) pl -> bodies_wf (p_state p) pl (p_state p') ->
  payload_ok p pl p' k.
Proof.
  intros Hn Hk Ho Hm Hf He Hs Hp Hc Hb. assert (E : nested_size pl = 0) by (unfold nested_size; by rewrite Hn).
  split; rewrite ?E, ?Z.add_0_r, ?Z.sub_0_r; try done. intros np Hnp. congruence.
Qed.

Section payload.
Context (p : Parser) (r0 : BinaryReader).
Hypothesis Hp : wf_parser p.
Hypothesis Hwf : wf_reader r0.
Hypothesis Hpos : original_position r0 = p_offset p.
Hypothesis Hlen : Z.of_nat (length (remaining_buffer r0)) <= p_max_size p.
Hypothesis Hfeat : features r0 = p_features p.
Implicit Types k : nat.

Local Abbreviation post := (fun pl p' k' => payload_ok p pl p' k').

Lemma wpp_section {A} k n (ctor : BinaryReader -> result A) variant :
  ctor_safe ctor -> 0 <= n -> (0 < k)%nat -> p_state p = SectionStart ->
  (forall x, nested_parser (variant x) = None /\ is_end (variant x) = false
     /\ (forall e, encoding_after (variant x) e = e) /\ bodies_wf SectionStart (variant x) SectionStart) ->
  (forall x br, wf_reader br -> features br = p_features p -> ctor br = Ok x ->
     payload_wf (p_encoding p) (p_features p) (variant x)) ->
  wpp r0 p p k (on_reader (section n ctor variant)) post.
Proof.
  intros Hc Hn Hk Hs Hv Hw. apply wpp_reader, wp_section; [done..|]. intros x Hl Hx.
  destruct (Hv x) as (H1 & H2 & H3 & H4). apply plain_payload_ok; rewrite ?Hs; [done|lia|done..| | |done].
  { rewrite H2. lia. }
  eapply Hw; [by apply content_wf|exact Hfeat|exact Hx].
Qed.

Lemma wpp_single_item {A} `{FromReader A} k n desc (g : A * (Z * Z) -> Reader Payload) :
  item_safe (read (A := A)) -> 0 <= n -> (0 < k)%nat -> p_state p = SectionStart ->
  (forall x r r' rg, wf_reader r -> read (A := A) r = (Ok x, r') ->
     exists pl, g (x, rg) = mret pl /\ nested_parser pl = None /\ is_end pl = false
       /\ (forall e, encoding_after pl e = e) /\ bodies_wf SectionStart pl SectionStart
       /\ payload_wf (p_encoding p) (p_features p) pl) ->
  wpp r0 p p k (on_reader (single_item (A := A) n desc ≫= g)) post.
Proof.
  intros Hc Hn Hk Hs Hv. apply wpp_reader, wp_bind, wp_single_item; [done..|]. intros x r' Hl Hx _.
  edestruct (Hv x) as (pl & -> & H1 & H2 & H3 & H4 & Hc2); [by eapply content_wf; [..|exact Hl]|exact Hx|].
  apply wp_ret, plain_payload_ok; rewrite ?Hs; [done|lia|done..| |done|done]. rewrite H2. lia.
Qed.

Lemma wp_delimited {A} k n (m : Reader A) (Q : A * Z -> nat -> Prop) :
  wp (err_in_range r0) r0 k m (fun a k' => forall n', 0 <= n' <= n -> (k <= k')%nat ->
      n' = n - (Z.of_nat k' - Z.of_nat k) -> Q (a, n') k') ->
  wp (err_in_range r0) r0 k (delimited n m) Q.
Proof.
  intros H. pose proof (range_env r0 Hwf). unfold delimited. do 2 wp_step. apply wp_bind.
  eapply wp_mono; [exact H|]. intros a k' Hk HQ. do 2 wp_step.
  destruct (_ && _) eqn:Eb; [|wp_run].
  apply andb_prop in Eb as [_ Eb%Z.leb_le]. apply wp_ret, HQ; lia.
Qed.

Lemma wpp_code_section_start k n :
  in_u 32 n -> (0 < k)%nat -> Z.of_nat k + n <= p_max_size p -> p_state p = SectionStart ->
  wpp r0 p p k (code_section_start n) post.
Proof.
  intros Hn Hk Hf Hs. unfold code_section_start. apply wpp_bind, wpp_position.
  apply wpp_bind, wpp_reader, wp_delimited, wp_var_u32; [by apply range_env|].
  intros v k' Hk' Hv n' Hn' _ E. apply wpp_bind, wpp_position. apply wpp_bind, wpp_parser, wpp_ret.
  apply plain_payload_ok; [done|lia|done..| |cbn; lia|done|rewrite Hs; cbn; unfold in_u in *; lia]. cbn. unfold in_u in *. lia.
Qed.

Lemma wpp_nested_section id k n len_pos :
  id = 1 \/ id = 4 -> in_u 32 n -> (0 < k)%nat -> Z.of_nat k + n <= p_max_size p ->
  p_state p = SectionStart -> original_position r0 <= len_pos <= original_position r0 + Z.of_nat k ->
  wpp r0 p p k (nested_section id n len_pos) post.
Proof.
  intros Hid Hn Hk Hf Hs Hlp. unfold in_u in *. destruct Hp as [Ho Hm He _].
  unfold nested_section. destruct (Z.ltb_spec MAX_WASM_MODULE_SIZE n).
  { apply wpp_reader, wp_fail; [by apply range_env|]. done. }
  apply wpp_bind, wpp_position. apply wpp_bind, wpp_get_parser.
  apply wpp_bind, wpp_u64_sub; [lia|]. apply wpp_bind, wpp_parser.
  apply wpp_bind, wpp_u64_add; [lia|]. apply wpp_bind, wpp_parser.
  destruct Hid as [-> | ->]; apply wpp_ret; (split; cbn; rewrite ?Hs;
    [lia|done..|lia|intros np [= <-]; rewrite Hpos; split; [done|lia]|done|done|tauto]).
Qed.

Lemma wpp_unknown_section id k n :
  in_u 32 n -> (0 < k)%nat -> p_state p = SectionStart -> 0 < id < 128 ->
  (p_encoding p = EModule -> 13 < id) ->
  wpp r0 p p k (on_reader (unknown_section id n)) post.
Proof.
  intros Hn Hk Hs Hid He. apply wpp_reader. pose proof (range_env r0 Hwf).
  apply wp_bind, wp_position. apply wp_bind, wp_within, wp_bytes; [done|apply Hn|]. intros bs _ _ Hl.
  unfold in_u in *. apply wp_ret, plain_payload_ok; rewrite ?Hs; [done|lia|done..|cbn; lia| |cbn; tauto].
  cbn. unfold in_u. split; [lia|done].
Qed.

Lemma wpp_section_payload id k n len_pos :
  in_u 32 n -> (0 < k)%nat -> Z.of_nat k + n <= p_max_size p -> 0 <= id < 128 ->
  p_state p = SectionStart -> original_position r0 <= len_pos <= original_position r0 + Z.of_nat k ->
  wpp r0 p p k (section_payload id n len_pos) post.
Proof.
  intros Hn Hk Hf Hid Hs Hlp. assert (0 <= n) by (unfold in_u in Hn; lia).
  pose proof section_new_safe. pose proof u32_safe. pose proof component_start_safe.
  apply wpp_bind, wpp_get_parser. destruct (Z.eqb_spec id 0).
  { apply wpp_section; [apply custom_new_safe|done..|intros; cbn; tauto|]. intros x br Hw Hfe Hx. by exists br. }
  assert (Hu : forall x r r', wf_reader r -> read (A := Z) r = (Ok x, r') -> in_u 32 x).
  { intros x r r' Hr Hx. by destruct (read_var_u32_inv r x r' Hr Hx). }
  unfold module_section_payload, component_section_payload.
  repeat case_match; simplify_eq;
    first [ apply wpp_section; [done..|intros; cbn; tauto|]; intros x br Hw Hfe Hx; by exists br
          | apply wpp_single_item; [done..|]; intros x r r' rg Hr Hx; eexists;
            split_and!; [done..|cbn; tauto|first [by eapply Hu|by eapply component_start_inv]]
          | apply wpp_unknown_section; [done..|lia|intros; (lia || congruence)]
          | by apply wpp_code_section_start | by apply wpp_nested_section; [lia|..]].
Qed.

Lemma wpp_parse_section_start (is_eof : bool) :
  p_state p = SectionStart ->
  wpp r0 p p 0 (parse_section_start is_eof)
    (fun pl p' k' => payload_ok p pl p' k'
       /\ (is_end pl = true -> is_eof = true /\ remaining_buffer r0 = [] /\ p' = p)).
Proof.
  intros Hs. pose proof (range_env r0 Hwf). pose proof (remaining_length r0 Hwf) as Hr.
  apply wpp_bind, wpp_reader, wp_gets. rewrite advance_0. unfold bytes_remaining.
  destruct (is_eof && _) eqn:Ee.
  { apply andb_prop in Ee as [-> E0%Z.eqb_eq]. apply wpp_bind, wpp_position, wpp_ret.
    assert (remaining_buffer r0 = []) by (apply length_zero_iff_nil; lia).
    destruct Hp. split; [|done]. apply plain_payload_ok; rewrite ?Hs; [done..|cbn; tauto]. }
  apply wpp_bind, wpp_position. apply wpp_bind, wpp_reader, wp_u8; [done|]. intros id Hid.
  rewrite cont_bit by done. destruct (Z.ltb_spec id 128); cbn [negb].
  2: { apply wpp_reader, wp_fail; [done|]. simpl. lia. }
  apply wpp_bind, wpp_position. apply wpp_bind, wpp_reader, wp_var_u32; [done|].
  intros n k Hk Hn. apply wpp_bind, wpp_position. apply wpp_bind, wpp_get_parser.
  destruct (Z.ltb_spec (p_max_size p - (original_position r0 + Z.of_nat k
              - (original_position r0 + Z.of_nat 0)) - n) 0).
  { apply wpp_reader, wp_fail; [done|]. simpl. lia. }
  eapply wpp_mono; [apply wpp_section_payload; [done|lia|lia|unfold is_byte in *; lia|done|lia]|].
  intros pl p' k' Hk' Hok. split; [done|]. intros He.
  pose proof (po_progress _ _ _ _ Hok) as Hpr. rewrite He in Hpr. lia.
Qed.
Local Abbreviation post_more := (fun pl p' k' => payload_ok p pl p' k' /\ is_end pl = false).

Lemma wpp_parse_header :
  p_state p = Header -> wpp r0 p p 0 parse_header post_more.
Proof.
  intros Hs. pose proof (range_env r0 Hwf). apply wpp_bind, wpp_position.
  apply wpp_bind, wpp_reader. unfold read_header_version.
  apply wp_bind, wp_bytes; [done..|]. intros bs Hbs _. destruct (negb _).
  { apply wp_bind, wp_position, wp_fail; [done|]. simpl. lia. }
  apply wp_within, wp_u32; [done|]. intros v Hv Hl.
  assert (Hk : forall e, wpp r0 p p 8
    (on_parser (set_encoding e);; on_parser (set_state SectionStart);;
     pos ← on_reader (gets original_position);
     mret (Version (wrap 16 v) e (original_position r0 + Z.of_nat 0, pos))) post_more).
  { intros e. do 2 apply wpp_bind, wpp_parser. apply wpp_bind, wpp_position, wpp_ret.
    split; [|done]. apply plain_payload_ok; rewrite ?Hs; [done|lia|done..|cbn; lia|done|cbn; tauto]. }
  apply wpp_bind. destruct (_ =? KIND_MODULE); [by apply wpp_ret, Hk|].
  destruct (_ =? KIND_COMPONENT); [by apply wpp_ret, Hk|].
  apply wpp_reader, wp_fail; [done|]. simpl. lia.
Qed.

Lemma wpp_parse_function_entry remaining len :
  p_state p = InFunctionBody remaining len -> remaining <> 0 ->
  wpp r0 p p 0 (parse_function_entry remaining len) post_more.
Proof.
  intros Hs Hr. pose proof (range_env r0 Hwf). pose proof (wfp_state p Hp) as Hw.
  rewrite Hs in Hw. cbn in Hw. destruct Hw as (Hw1 & Hw2 & Hw3). unfold in_u in *.
  apply wpp_bind, wpp_reader, wp_within, wp_delimited, wp_bind, wp_read_reader; [done|].
  intros br k Hk Hbr _ _. apply wp_ret. intros n' Hn' _ E Hl.
  apply wpp_bind, wpp_parser, wpp_ret. split; [|done].
  apply plain_payload_ok; [done|lia|done..| |cbn; lia|done|rewrite Hs; cbn; split_and!; [lia|done..]]. cbn. unfold in_u in *. lia.
Qed.
End payload.

(** A parser that has read all the functions of the code section is about to
    read a section; it turns to it even when the section is not yet there. *)
Definition resume (p : Parser) : Parser :=
  match p_state p with
  | InFunctionBody remaining len =>
      if (remaining =? 0) && (len =? 0) then set_state SectionStart p else p
  | _ => p
  end.

Lemma resume_wf p : wf_parser p -> wf_parser (resume p).
Proof. intros Hp. unfold resume. repeat case_match; [done..| |done]. by destruct Hp. Qed.

Lemma payload_ok_state p pl p' k :
  bodies_left (p_state p) = 0 -> payload_ok (set_state SectionStart p) pl p' k -> payload_ok p pl p' k.
Proof. intros E []. split; try done. unfold bodies_wf in *. by rewrite E. Qed.

Lemma wpp_parse_reader p r0 (is_eof : bool) :
  wf_parser p -> wf_reader r0 -> original_position r0 = p_offset p ->
  Z.of_nat (length (remaining_buffer r0)) <= p_max_size p -> features r0 = p_features p ->
  wpp r0 (resume p) p 0 (parse_reader is_eof)
    (fun pl p' k => payload_ok p pl p' k
       /\ (is_end pl = true -> is_eof = true /\ remaining_buffer r0 = [] /\ p' = resume p)).
Proof.
  intros Hp Hwf Hpos Hlen Hfeat. apply wpp_bind, wpp_get_parser. unfold resume.
  destruct (p_state p) as [| |remaining len] eqn:Hs.
  - eapply wpp_mono; [by apply wpp_parse_header|]. intros pl p' k _ [Hok ->]. by split.
  - by apply wpp_parse_section_start.
  - destruct (Z.eqb_spec remaining 0) as [->|Hr]; cbn [andb].
    + destruct (len =? 0).
      * apply wpp_bind, wpp_parser. eapply wpp_mono; [apply wpp_parse_section_start; try done|].
        { by destruct Hp. }
        intros pl p' k _ [Hok He]. split; [by eapply payload_ok_state; [rewrite Hs|]|done].
      * apply wpp_bind, wpp_position. apply wpp_reader, wp_fail; [by apply range_env|]. simpl. lia.
    + eapply wpp_mono; [by apply wpp_parse_function_entry|].
      intros pl p' k _ [Hok ->]. by split.
Qed.

(** ** [parse] *)

Lemma limit_data_spec p data (is_eof : bool) :
  wf_parser p ->
  exists data', (limit_data p data is_eof).1 = data' /\ data' `prefix_of` data
    /\ Z.of_nat (length data') <= p_max_size p
    /\ (data' = data /\ (limit_data p data is_eof).2 = is_eof
        \/ Z.of_nat (length data') = p_max_size p /\ (limit_data p data is_eof).2 = true).
Proof.
  intros [_ Hm _ _]. unfold limit_data.
  destruct (Z.ltb_spec (p_max_size p) (Z.of_nat (length data))); eexists; (split; [done|]); cbn [fst snd].
  - rewrite length_take. split; [apply prefix_take|]. split; [lia|]. right. split; [lia|done].
  - split; [done|]. split; [lia|]. by left.
Qed.

Definition advance_parser (k : nat) (p : Parser) : Parser :=
  set_max_size (p_max_size p - Z.of_nat k) (set_offset (p_offset p + Z.of_nat k) p).

(** What the parser reports about [data]. *)
Definition parse_post (p : Parser) (data : list Z) (is_eof : bool) (x : result Chunk) (p' : Parser)
  : Prop :=
  match x with
  | Ok (Parsed consumed pl) =>
      exists k p1, consumed = Z.of_nat k /\ (k <= length data)%nat /\ payload_ok p pl p1 k
        /\ p' = advance_parser k p1
        /\ (is_end pl = true -> (limit_data p data is_eof) = ([], true) /\ p1 = resume p)
  | Ok (NeedMoreData hint) =>
      is_eof = false /\ Z.of_nat (length data) <= p_max_size p /\ p' = resume p
  | Err e =>
      p_offset p <= offset e <= p_offset p + Z.of_nat (length data) /\ p' = resume p
  | Panic => False
  end.

Lemma parse_ok p data is_eof :
  wf_parser p -> Forall is_byte data ->
  parse_post p data is_eof (parse p data is_eof).1 (parse p data is_eof).2.
Proof.
  intros Hp Hb. unfold parse_post, parse.
  destruct (limit_data_spec p data is_eof Hp) as (data' & E & [rest ->] & Hl & Hcase).
  destruct (limit_data p (data' ++ rest) is_eof) as [data1 eof1] eqn:El. simpl in E, Hcase; subst data1.
  apply Forall_app in Hb as [Hb _]. rewrite length_app in *. set (r0 := BinaryReader_new_features _ _ _).
  assert (Hwf : wf_reader r0) by (destruct Hp; apply wf_new; unfold u64_MAX in *; (done || lia)).
  assert (Hrem : remaining_buffer r0 = data') by done.
  assert (Hpos : original_position r0 = p_offset p) by (unfold original_position; simpl; lia).
  destruct (wpp_parse_reader p r0 eof1 Hp Hwf Hpos Hl eq_refl (Nat.le_0_l _)) as (k & p1 & Hk & Es & Hm).
  rewrite advance_0 in *. rewrite Hrem in Hk.
  destruct (parse_reader eof1 (p, r0)) as [[pl|e|] [p2 r1]]; simpl in Es, Hm; [| |done].
  - injection Es as -> ->. rewrite advance_original_position, Hpos.
    replace (p_offset p + Z.of_nat k - p_offset p) with (Z.of_nat k) by lia.
    destruct Hm as [Hok He]. destruct (Hok) as [Hf Ho Hms _ _ _ _ _ _ _]. destruct Hp as [Hp1 Hp2 Hp3 _].
    destruct (Z.ltb_spec u64_MAX (p_offset p1 + Z.of_nat k)); [lia|].
    destruct (Z.ltb_spec (p_max_size p1) (Z.of_nat k)); [lia|].
    exists k, p1. split; [done|]. split; [lia|]. split; [done|]. split; [done|].
    intros (-> & Hd & ->)%He. rewrite Hrem in Hd. by rewrite Hd.
  - injection Es as -> _. destruct Hm as [He ->]. unfold err_in_range in He.
    rewrite Hpos in He. change (buffer_len r0) with (Z.of_nat (length data')) in He.
    destruct eof1; [split; [simpl in *; lia|done]|].
    destruct Hcase as [[Hd ->]|[_ Hd]]; [|done].
    apply (f_equal length) in Hd. rewrite length_app in Hd.
    destruct (needed_hint e); (split; [simpl in *; (lia || done)|try done]). split; [lia|done].
Qed.

Lemma payload_ok_wf p pl p1 k :
  wf_parser p -> payload_ok p pl p1 k -> wf_parser (advance_parser k p1).
Proof.
  intros [Hp1 Hp2 Hp3 _] [Hf Ho Hm _ Hs _ Hn _ _ _].
  assert (0 <= nested_size pl).
  { unfold nested_size in *. destruct (nested_parser pl) as [np|]; [by apply (Hn np)|lia]. }
  split; cbn; rewrite ?Ho, ?Hm; [lia..|done].
Qed.

Lemma nested_wf p pl p1 k np :
  wf_parser p -> payload_ok p pl p1 k -> nested_parser pl = Some np -> wf_parser np.
Proof.
  intros [Hp1 Hp2 Hp3 _] [Hf Ho Hm _ Hs _ Hn _ _ _] Hnp. destruct (Hn np Hnp) as [-> ?].
  split; cbn; [lia..|done].
Qed.

(** ** [parse_all] *)

Definition wf_all (st : ParseAll) : Prop :=
  wf_parser (pa_cur st) /\ Forall wf_parser (pa_stack st) /\ Forall is_byte (pa_data st).

(** Decreases with every payload. *)
Definition all_measure (st : ParseAll) : nat :=
  if pa_done st then 0 else S (length (pa_stack st) + 2 * length (pa_data st)).

Lemma parse_all_next_ok st :
  wf_all st ->
  match parse_all_next st with
  | (None, st') => pa_done st = true /\ st' = st
  | (Some (Ok _), st') => wf_all st' /\ (all_measure st' < all_measure st)%nat
  | (Some (Err _), st') => wf_all st' /\ pa_done st' = true /\ (all_measure st' < all_measure st)%nat
  | (Some Panic, _) => False
  end.
Proof.
  intros (Hc & Hs & Hb). unfold parse_all_next, all_measure.
  destruct (pa_done st) eqn:Hd; [done|].
  pose proof (parse_ok (pa_cur st) (pa_data st) true Hc Hb) as Hp.
  destruct (parse (pa_cur st) (pa_data st) true) as [[[h|c pl]|e|] p']; simpl in Hp; [by destruct Hp| |destruct Hp as [_ ->]|done].
  - destruct Hp as (k & p1 & -> & Hk & Hok & -> & _).
    destruct (Z.ltb_spec (Z.of_nat (length (pa_data st))) (Z.of_nat k)); [lia|].
    pose proof (payload_ok_wf _ _ _ _ Hc Hok) as Hw. pose proof (po_progress _ _ _ _ Hok) as Hpr.
    pose proof (fun np => nested_wf _ _ _ _ np Hc Hok) as Hn. rewrite Nat2Z.id.
    assert (Hb' : Forall is_byte (drop k (pa_data st))) by by apply Forall_drop.
    assert (Hl : length (drop k (pa_data st)) = (length (pa_data st) - k)%nat) by apply length_drop.
    unfold wf_all. destruct pl; cbn in *; rewrite ?Hl; try (split_and!; [done..|lia]).
    1,2: split_and!; [by apply Hn|by constructor|done|lia].
    destruct (pa_stack st) as [|q qs]; cbn; rewrite ?Hl; [split_and!; [done..|lia]|].
    inversion Hs; subst. split_and!; [done..|lia].
  - unfold wf_all. cbn. split_and!; [by apply resume_wf|done..|lia].
Qed.

(** The outcomes of the iterator, all of them; [None] when the fuel runs out. *)
Fixpoint payloads (fuel : nat) (st : ParseAll) : option (list (result Payload)) :=
  match fuel with
  | O => None
  | S fuel' =>
      match parse_all_next st with
      | (None, _) => Some []
      | (Some x, st') => xs ← payloads fuel' st'; Some (x :: xs)
      end
  end.

Lemma payloads_total fuel st :
  wf_all st -> (all_measure st < fuel)%nat ->
  exists xs, payloads fuel st = Some xs /\ (length xs <= all_measure st)%nat
    /\ Forall (fun x => x <> Panic) xs.
Proof.
  revert st. induction fuel as [|fuel IH]; intros st Hwf Hf; [lia|]. cbn [payloads].
  pose proof (parse_all_next_ok st Hwf) as Hn.
  destruct (parse_all_next st) as [[x|] st']; [|exists []; by split_and!; [|cbn; lia|]].
  assert (Hx : wf_all st' /\ (all_measure st' < all_measure st)%nat /\ x <> Panic)
    by by destruct x; [destruct Hn|destruct Hn as (? & ? & ?)|].
  destruct Hx as (Hwf' & Hm & Hx). destruct (IH st' Hwf' ltac:(lia)) as (xs & Hxs & Hl & Hall).
  exists (x :: xs). rewrite Hxs. split_and!; [done|cbn; lia|by constructor].
Qed.
