(* ===== verification/ParserStable.v ===== *)
(** Incremental parsing: what the parser reports about a part of the input it
    also reports about the whole input, so that a module that arrives in chunks
    is parsed as if it were entirely in memory. *)

From Stdlib Require Import ZArith Lia String.
From stdpp Require Import prelude.
From S2P Require Import Prelude Leb128 BinaryReader BinaryReaderSpec ReaderLogic Encode Types Operands.
From S2P Require Import Operators OperatorReader Instructions Reencode OperandSpec SectionReader CompositeTypes.
From S2P Require Import Items Locality FunctionSpec ItemSpec Parser ParserSpec.

Local Open Scope Z_scope.

(** ** Errors that more data does not repair *)

(** An error either asks for at least one more byte, or is reported whatever
    bytes follow. *)
Definition final_errors {A} (m : Reader A) : Prop :=
  forall r e r', wf_reader r -> m r = (Err e, r') ->
  match needed_hint e with
  | Some hint => 0 < hint
  | None => forall r2 rest, at_bytes r r2 (remaining_buffer r) rest -> exists r2', m r2 = (Err e, r2')
  end.

(** A read that is settled by the bytes that are there. *)
Definition settled {A} (m : Reader A) : Prop := local 0 m /\ final_errors m.

Lemma settled_ret {A} (a : A) : settled (mret a).
Proof. split; [apply local_ret|]. by intros r e r' _ [=]. Qed.

Lemma settled_bind {A B} (m : Reader A) (g : A -> Reader B) :
  settled m -> (forall a, settled (g a)) -> settled (m ≫= g).
Proof.
  intros [Hl He] Hg. split; [by apply local_bind_r; [|intros; apply Hg]|].
  intros r e r' Hwf Hr. rewrite ST_bind_eq in Hr. destruct (m r) as [[a|e1|] r1] eqn:Em; [| |done].
  - pose proof (local_reader_wf 0 m r a r1 Hl Hwf Em) as Hwf1.
    destruct (Hl r a r1 Hwf Em) as (bs & _ & E & -> & Hm).
    pose proof (proj2 (Hg a) _ e r' Hwf1 Hr) as H. destruct (needed_hint e); [done|].
    intros r2 rest Hat. rewrite E in Hat. rewrite ST_bind_eq.
    rewrite (Hm r2 _ (at_bytes_weaken _ _ _ _ _ Hat)). by eapply H, at_bytes_advance.
  - injection Hr as -> ->. pose proof (He r e r' Hwf Em) as H. destruct (needed_hint e); [done|].
    intros r2 rest Hat. destruct (H r2 rest Hat) as [r2' E]. exists r2'. by rewrite ST_bind_eq, E.
Qed.

Lemma settled_fail {A} m off : settled (fail (A := A) (err_new m off)).
Proof. split; [apply local_fail|]. intros r e r' _ [= <- <-]. intros r2 rest _. by eexists. Qed.

Lemma settled_gets {A} (g : BinaryReader -> A) : local 0 (gets g) -> settled (gets g).
Proof. intros H. split; [done|]. by intros r e r' _ [=]. Qed.

Lemma settled_position : settled (gets original_position).
Proof. apply settled_gets, local_position. Qed.

(** The content of a section is read on its own; its errors are final. *)
Lemma settled_content {A} (x : result A) : settled (map_err clear_hint (lift_result x)).
Proof.
  destruct x as [a|e|]; split.
  - apply local_map_err, local_ret.
  - by intros r e r' _ [=].
  - by intros r a r' _ [=].
  - intros r e' r' _ [= <- <-]. intros r2 rest _. by eexists.
  - by intros r a r' _ [=].
  - by intros r e' r' _ [=].
Qed.

Lemma settled_u8 : settled read_u8.
Proof.
  split; [eapply local_weaken, local_u8|]. intros r e r' Hwf. unfold read_u8.
  destruct (buffer r !! _); [done|]. by intros [= <- <-].
Qed.

Lemma leb_scan_too_long_app m bs rest : leb_scan m bs = TooLong -> leb_scan m (bs ++ rest) = TooLong.
Proof.
  revert bs. induction m as [|m IH]; intros [|b bs]; try done. cbn.
  case_match; [done|]. destruct (leb_scan m bs) eqn:E; try done. by rewrite (IH bs E).
Qed.

Lemma settled_var_u32 : settled read_var_u32.
Proof.
  split; [eapply local_weaken, local_var_u32|]. intros r e r' Hwf.
  rewrite read_var_u32_spec by done. unfold leb_u_spec.
  destruct (leb_scan 5 (remaining_buffer r)) as [n| |] eqn:Es; [case_bool_decide; [done|]|..];
    intros [= <- <-]; cbn [needed_hint err_new err_new_kind err_eof]; [..|done];
    intros r2 rest [Hwf2 _ Hpos E2]; rewrite read_var_u32_spec by done; unfold leb_u_spec; rewrite E2.
  - replace (leb_scan 5 (remaining_buffer r ++ rest)) with (Done n)
      by by rewrite <- (leb_scan_prefix _ _ _ (drop n (remaining_buffer r) ++ rest) Es), app_assoc, take_drop.
    destruct (leb_scan_done _ _ _ Es) as [_ Hn]. rewrite take_app_le by done. rewrite bool_decide_eq_false_2 by done. rewrite Hpos. by eexists.
  - rewrite leb_scan_too_long_app by done. rewrite Hpos. by eexists.
Qed.

Lemma ensure_has_bytes_hint n r e r' :
  ensure_has_bytes n r = (Err e, r') -> exists h, needed_hint e = Some h /\ 0 < h.
Proof.
  unfold ensure_has_bytes. destruct (Z.leb_spec (position r + n) (buffer_len r)); [done|].
  intros [= <- <-]. eexists. split; [done|]. lia.
Qed.

(** A read whose only error is that of [ensure_has_bytes]. *)
Lemma settled_bytes n : 0 <= n -> settled (read_bytes n).
Proof.
  intros Hn. split; [by apply local_bytes|]. intros r e r' Hwf Hr. unfold read_bytes in Hr.
  rewrite ST_bind_eq in Hr. destruct (ensure_has_bytes n r) as [[[]|e1|] r1] eqn:Ee; [done| |done].
  injection Hr as -> ->. by destruct (ensure_has_bytes_hint _ _ _ _ Ee) as (h & -> & ?).
Qed.

Lemma settled_u32 : settled read_u32.
Proof.
  split; [eapply local_weaken, local_u32|]. intros r e r' Hwf Hr. unfold read_u32 in Hr.
  rewrite ST_bind_eq in Hr. destruct (ensure_has_bytes 4 r) as [[[]|e1|] r1] eqn:Ee; [done| |done].
  injection Hr as -> ->. by destruct (ensure_has_bytes_hint _ _ _ _ Ee) as (h & -> & ?).
Qed.

Lemma settled_skip (m : Reader ()) : settled m -> settled (skip m).
Proof.
  intros [Hl He]. split; [by apply local_skip|]. intros r e r' Hwf Hr. rewrite skip_eq in Hr.
  destruct (m r) as [[a|e1|] r1] eqn:Em; [done| |done]. injection Hr as -> ->.
  pose proof (He r e r' Hwf Em) as H. destruct (needed_hint e); [done|].
  intros r2 rest Hat. destruct (H r2 rest Hat) as [r2' E]. exists r2'. by rewrite skip_eq, E.
Qed.

Lemma settled_panic {A} : settled (panic (A := A)).
Proof. split; [apply local_panic|]. by intros r e r' _ [=]. Qed.

Lemma settled_ext {A} (m m' : Reader A) :
  (forall r, wf_reader r -> m r = m' r) -> settled m' -> settled m.
Proof.
  intros Hm [Hl He]. split.
  - intros r a r' Hwf Hr. rewrite Hm in Hr by done.
    destruct (Hl r a r' Hwf Hr) as (bs & Hp & E & -> & H). exists bs. split_and!; [done..|].
    intros r2 rest Hat. rewrite Hm by apply Hat. by eapply H.
  - intros r e r' Hwf Hr. rewrite Hm in Hr by done. pose proof (He r e r' Hwf Hr) as H.
    destruct (needed_hint e); [done|]. intros r2 rest Hat. rewrite Hm by apply Hat. by eapply H.
Qed.

(** What follows a length may rely on its range. *)
Lemma settled_var_u32_bind {B} (g : Z -> Reader B) :
  (forall n, in_u 32 n -> settled (g n)) -> settled (read_var_u32 ≫= g).
Proof.
  intros Hg. apply (settled_ext _ (n ← read_var_u32; if decide (in_u 32 n) then g n else panic)).
  - intros r Hwf. rewrite !ST_bind_eq. destruct (read_var_u32 r) as [[n|e|] r'] eqn:En; try done.
    destruct (read_var_u32_inv r n r' Hwf En) as [Hn _]. by rewrite decide_True.
  - apply settled_bind; [apply settled_var_u32|]. intros n. case_decide; [by apply Hg|apply settled_panic].
Qed.

Lemma settled_read_reader : settled read_reader.
Proof.
  apply settled_var_u32_bind. intros n [Hn _]. apply settled_skip, settled_bind; [by apply settled_bytes|].
  intros. apply settled_ret.
Qed.

Create HintDb settled.
#[export] Hint Resolve settled_ret settled_fail settled_position settled_content
  settled_u8 settled_var_u32 settled_bytes settled_u32
  settled_read_reader : settled.
Ltac settled_run :=
  repeat first
    [ progress intros
    | match goal with |- settled (_ ≫= _) => apply settled_bind end
    | match goal with |- settled (skip _) => apply settled_skip end
    | match goal with |- settled (if ?b then _ else _) => destruct b end
    | match goal with |- settled (match ?x with _ => _ end) => destruct x end
    | solve [eauto with settled] ].

Lemma settled_section {A} n (ctor : BinaryReader -> result A) variant :
  0 <= n -> settled (section n ctor variant).
Proof.
  intros. unfold section. settled_run.
Qed.

Lemma settled_single_item {A} `{FromReader A} n desc : 0 <= n -> settled (single_item (A := A) n desc).
Proof. intros. unfold single_item. settled_run. Qed.

Lemma settled_delimited {A} n (m : Reader A) : settled m -> settled (delimited n m).
Proof. intros. unfold delimited. settled_run. Qed.

Lemma settled_unknown_section id n : 0 <= n -> settled (unknown_section id n).
Proof. intros. unfold unknown_section. settled_run. Qed.

Lemma settled_header_version : settled read_header_version.
Proof. apply settled_bind; [by apply settled_bytes|]. settled_run. Qed.

#[export] Hint Resolve settled_section settled_single_item settled_delimited
  settled_unknown_section settled_header_version : settled.

(** ** The same for the parser with its reader *)

Record psettled {A} (m : PR A) : Prop := {
  ps_local p r x p' r' : wf_reader r -> m (p, r) = (Ok x, (p', r')) ->
    exists bs, remaining_buffer r = bs ++ remaining_buffer r' /\ r' = advance (length bs) r
      /\ forall r2 rest, at_bytes r r2 bs rest -> m (p, r2) = (Ok x, (p', advance (length bs) r2));
  ps_errors p r e p' r' : wf_reader r -> m (p, r) = (Err e, (p', r')) ->
    match needed_hint e with
    | Some hint => 0 < hint
    | None => forall r2 rest, at_bytes r r2 (remaining_buffer r) rest ->
        exists r2', m (p, r2) = (Err e, (p', r2'))
    end;
}.

Lemma psettled_reader {A} (m : Reader A) : settled m -> psettled (on_reader m).
Proof.
  intros [Hl He]. split; intros p r x p' r' Hwf; unfold on_reader.
  - destruct (m r) as [y r1] eqn:Em. intros [= -> <- ->].
    destruct (Hl r x r' Hwf Em) as (bs & _ & E & -> & H). exists bs. split; [done|]. split; [done|].
    intros r2 rest Hat. by rewrite (H r2 rest Hat).
  - destruct (m r) as [y r1] eqn:Em. intros [= -> <- ->].
    pose proof (He r x r' Hwf Em) as H. destruct (needed_hint x); [done|].
    intros r2 rest Hat. destruct (H r2 rest Hat) as [r2' E]. exists r2'. by rewrite E.
Qed.

Lemma psettled_bind {A B} (m : PR A) (g : A -> PR B) :
  psettled m -> (forall a, psettled (g a)) -> psettled (m ≫= g).
Proof.
  intros [Hl He] Hg. split; intros p r x p' r' Hwf Hr; rewrite ST_bind_eq in Hr;
    destruct (m (p, r)) as [[a|e1|] [p1 r1]] eqn:Em; try done.
  - destruct (Hl p r a p1 r1 Hwf Em) as (bs & E & -> & Hm).
    destruct (ps_local _ (Hg a) p1 _ x p' r' (proj1 (advance_app r bs _ Hwf E)) Hr)
      as (bs2 & E2 & -> & Hm2).
    exists (bs ++ bs2). split; [by rewrite E, E2, app_assoc|].
    split; [by rewrite advance_advance, length_app|]. intros r2 rest Hat. rewrite ST_bind_eq.
    rewrite (Hm r2 _ (at_bytes_weaken _ _ _ _ _ Hat)).
    rewrite (Hm2 _ rest) by by apply at_bytes_advance. by rewrite advance_advance, length_app.
  - destruct (Hl p r a p1 r1 Hwf Em) as (bs & E & -> & Hm).
    pose proof (ps_errors _ (Hg a) p1 _ x p' r' (proj1 (advance_app r bs _ Hwf E)) Hr) as H.
    destruct (needed_hint x); [done|]. intros r2 rest Hat. rewrite E in Hat. rewrite ST_bind_eq.
    rewrite (Hm r2 _ (at_bytes_weaken _ _ _ _ _ Hat)). by eapply H, at_bytes_advance.
  - injection Hr as -> -> ->. pose proof (He p r x p' r' Hwf Em) as H.
    destruct (needed_hint x); [done|]. intros r2 rest Hat.
    destruct (H r2 rest Hat) as [r2' E]. exists r2'. by rewrite ST_bind_eq, E.
Qed.

(** A step that does not touch the reader. *)
Lemma psettled_pure {A} (m : PR A) (g : Parser -> result A * Parser) :
  (forall p r, m (p, r) = ((g p).1, ((g p).2, r))) ->
  (forall p e, (g p).1 <> Err e) -> psettled m.
Proof.
  intros Hm Hg. split; intros p r x p' r' Hwf Hr; rewrite Hm in Hr; injection Hr as Hx <- <-.
  - exists []. rewrite advance_0. split; [done|]. split; [done|]. intros r2 rest _.
    by rewrite Hm, Hx, advance_0.
  - by destruct (Hg p x).
Qed.

Lemma psettled_ret {A} (a : A) : psettled (mret a).
Proof. by apply (psettled_pure _ (fun p => (Ok a, p))). Qed.
Lemma psettled_panic {A} : psettled (panic (A := A)).
Proof. by apply (psettled_pure _ (fun p => (Panic, p))). Qed.
Lemma psettled_parser f : psettled (on_parser f).
Proof. by apply (psettled_pure _ (fun p => (Ok tt, f p))). Qed.
Lemma psettled_get_parser : psettled get_parser.
Proof. by apply (psettled_pure _ (fun p => (Ok p, p))). Qed.
Lemma psettled_u64_sub a b : psettled (u64_sub a b).
Proof. unfold u64_sub. case_match; [apply psettled_ret|apply psettled_panic]. Qed.
Lemma psettled_u64_add a b : psettled (u64_add a b).
Proof. unfold u64_add. case_match; [apply psettled_ret|apply psettled_panic]. Qed.

#[export] Hint Resolve psettled_ret psettled_panic psettled_parser psettled_get_parser
  psettled_u64_sub psettled_u64_add : settled.
Ltac psettled_run :=
  repeat first
    [ progress intros
    | match goal with |- psettled (_ ≫= _) => apply psettled_bind end
    | match goal with |- psettled (on_reader _) => apply psettled_reader; settled_run end
    | match goal with |- psettled (if ?b then _ else _) => destruct b end
    | match goal with |- psettled (match ?x with _ => _ end) => destruct x end
    | solve [eauto with settled] ].

Lemma psettled_section_payload id n len_pos : 0 <= n -> psettled (section_payload id n len_pos).
Proof.
  intros Hn. unfold section_payload, module_section_payload, component_section_payload.
  apply psettled_bind; [apply psettled_get_parser|]. intros p.
  destruct (id =? 0); [psettled_run|].
  unfold nested_section, code_section_start. repeat case_match; simplify_eq; psettled_run.
Qed.

Lemma psettled_parse_header : psettled parse_header.
Proof. unfold parse_header. psettled_run. Qed.

Lemma psettled_function_entry n len : psettled (parse_function_entry n len).
Proof.
  unfold parse_function_entry. apply psettled_bind; [|psettled_run].
  apply psettled_reader, settled_delimited. settled_run.
Qed.

Lemma psettled_ext {A} (m m' : PR A) :
  (forall p r, wf_reader r -> m (p, r) = m' (p, r)) -> psettled m' -> psettled m.
Proof.
  intros Hm [Hl He]. split; intros p r x p' r' Hwf Hr; rewrite Hm in Hr by done.
  - destruct (Hl p r x p' r' Hwf Hr) as (bs & E & -> & H). exists bs. split_and!; [done..|].
    intros r2 rest Hat. rewrite Hm by apply Hat. by eapply H.
  - pose proof (He p r x p' r' Hwf Hr) as H. destruct (needed_hint x); [done|].
    intros r2 rest Hat. rewrite Hm by apply Hat. by eapply H.
Qed.

Lemma psettled_var_u32_bind {B} (g : Z -> PR B) :
  (forall n, in_u 32 n -> psettled (g n)) -> psettled (on_reader read_var_u32 ≫= g).
Proof.
  intros Hg.
  apply (psettled_ext _ (n ← on_reader read_var_u32; if decide (in_u 32 n) then g n else panic)).
  - intros p r Hwf. rewrite !ST_bind_eq. unfold on_reader.
    destruct (read_var_u32 r) as [[n|e|] r'] eqn:En; try done.
    destruct (read_var_u32_inv r n r' Hwf En) as [Hn _]. by rewrite decide_True.
  - apply psettled_bind; [apply psettled_reader, settled_var_u32|]. intros n.
    case_decide; [by apply Hg|apply psettled_panic].
Qed.

(** A section, its id and its length. *)
Definition parse_section : PR Payload := parse_section_start false.

Lemma parse_section_unfold p r (is_eof : bool) :
  is_eof && (bytes_remaining r =? 0) = false ->
  parse_section_start is_eof (p, r) = parse_section (p, r).
Proof. intros E. unfold parse_section, parse_section_start. rewrite !ST_bind_eq. cbn -[Z.eqb]. by rewrite E. Qed.

Lemma psettled_parse_section : psettled parse_section.
Proof.
  apply (psettled_ext _ (id_pos ← on_reader (gets original_position);
    id ← on_reader read_u8;
    if negb (Z.land id 0x80 =? 0) then
      on_reader (fail (err_new (lit "malformed section id") id_pos))
    else
      len_pos ← on_reader (gets original_position);
      len ← on_reader read_var_u32;
      pos ← on_reader (gets original_position);
      p ← get_parser;
      if p_max_size p - (pos - id_pos) - len <? 0 then
        on_reader (fail (err_new (lit "section too large") len_pos))
      else section_payload id len len_pos)); [done|].
  do 2 (apply psettled_bind; [apply psettled_reader; settled_run|]; intros).
  case_match; [psettled_run|].
  apply psettled_bind; [apply psettled_reader; settled_run|]. intros len_pos.
  apply psettled_var_u32_bind. intros n [Hn _].
  apply psettled_bind; [apply psettled_reader; settled_run|]. intros pos.
  apply psettled_bind; [apply psettled_get_parser|]. intros p.
  case_match; [psettled_run|by apply psettled_section_payload].
Qed.

(** ** [parse] *)

(** An outcome that does not ask for more data. *)
Definition decided {A} (x : result A) : Prop :=
  match x with Ok _ => True | Err e => needed_hint e = None | Panic => False end.

(** [r2] has the bytes of [r] and maybe more. *)
Definition more_data {A} (m m2 : PR A) : Prop :=
  forall p r r2 rest x p' r', wf_reader r -> at_bytes r r2 (remaining_buffer r) rest ->
  m (p, r) = (x, (p', r')) -> decided x ->
  exists r2', m2 (p, r2) = (x, (p', r2'))
    /\ match x with Ok _ => original_position r2' = original_position r' | _ => True end.

Lemma psettled_more {A} (m : PR A) : psettled m -> more_data m m.
Proof.
  intros [Hl He] p r r2 rest x p' r' Hwf Hat Hr Hd. destruct x as [a|e|]; [| |done].
  - destruct (Hl p r a p' r' Hwf Hr) as (bs & E & -> & H). rewrite E in Hat.
    rewrite (H r2 _ (at_bytes_weaken _ _ _ _ _ Hat)). eexists. split; [done|].
    rewrite !advance_original_position. by destruct Hat as [_ _ -> _].
  - pose proof (He p r e p' r' Hwf Hr) as H. simpl in Hd. rewrite Hd in H.
    destruct (H r2 rest Hat) as [r2' E]. by exists r2'.
Qed.

Lemma more_data_section (is_eof : bool) :
  more_data (parse_section_start false) (parse_section_start is_eof).
Proof.
  intros p r r2 rest x p' r' Hwf Hat Hr Hd.
  rewrite (parse_section_unfold p r2).
  { by eapply (psettled_more _ psettled_parse_section). }
  destruct (is_eof && _) eqn:Ee; [exfalso|done]. apply andb_prop in Ee as [_ Ee%Z.eqb_eq].
  destruct Hat as [Hwf2 _ _ E2]. pose proof (remaining_length r2 Hwf2) as Hl.
  unfold bytes_remaining in Ee. rewrite E2, length_app in Hl.
  assert (E : remaining_buffer r = []) by (apply length_zero_iff_nil; lia).
  assert (E8 : on_reader read_u8 (p, r) = (Err (err_eof (original_position r) 1), (p, r)))
    by (unfold on_reader; by rewrite read_u8_nil by (done || apply Hwf)).
  unfold parse_section_start in Hr. do 2 (rewrite ST_bind_eq in Hr; cbn -[read_u8] in Hr).
  rewrite ST_bind_eq in Hr.
  rewrite E8 in Hr. by injection Hr as <- <- <-.
Qed.

Lemma more_data_reader (is_eof : bool) : more_data (parse_reader false) (parse_reader is_eof).
Proof.
  intros p r r2 rest x p' r' Hwf Hat Hr. unfold parse_reader in *. rewrite ST_bind_eq in *.
  cbn [get_parser gets fst] in *. revert Hr.
  destruct (p_state p) as [| |n len]; [|apply (more_data_section is_eof p r r2 rest); done|].
  { apply (psettled_more _ psettled_parse_header p r r2 rest); done. }
  destruct (n =? 0); [|by apply (psettled_more _ (psettled_function_entry n len) p r r2 rest)].
  destruct (len =? 0).
  - rewrite !ST_bind_eq. cbn [on_parser modify]. by apply (more_data_section is_eof _ r r2 rest).
  - refine (psettled_more _ _ p r r2 rest x p' r' Hwf Hat). psettled_run.
Qed.

Lemma hint_positive p r e p' r' :
  wf_reader r -> parse_reader false (p, r) = (Err e, (p', r')) ->
  match needed_hint e with Some hint => 0 < hint | None => True end.
Proof.
  intros Hwf Hr. unfold parse_reader in Hr. rewrite ST_bind_eq in Hr.
  cbn [get_parser gets fst] in Hr.
  assert (H : forall (m : PR Payload) q, psettled m -> m (q, r) = (Err e, (p', r')) ->
    match needed_hint e with Some hint => 0 < hint | None => True end).
  { intros m q Hm Hq. pose proof (ps_errors m Hm q r e p' r' Hwf Hq). by destruct (needed_hint e). }
  revert Hr. destruct (p_state p) as [| |n len];
    [apply H, psettled_parse_header|apply H, psettled_parse_section|].
  destruct (n =? 0); [|apply H, psettled_function_entry]. destruct (len =? 0).
  - rewrite ST_bind_eq. cbn [on_parser modify]. apply H, psettled_parse_section.
  - apply H. psettled_run.
Qed.

(** More data does not change an outcome other than [NeedMoreData]. *)
Definition needs_more (x : result Chunk) : bool :=
  match x with Ok (NeedMoreData _) => true | _ => false end.

Lemma limit_data_app p data more (is_eof : bool) :
  0 <= p_max_size p ->
  exists more' eof', limit_data p (data ++ more) is_eof
    = ((limit_data p data false).1 ++ more', eof')
    /\ ((limit_data p data false).2 = true -> more' = [] /\ eof' = true)
    /\ more' `prefix_of` more
    /\ Z.of_nat (length ((limit_data p data false).1 ++ more')) <= p_max_size p.
Proof.
  intros Hm. unfold limit_data. rewrite !length_app.
  destruct (Z.ltb_spec (p_max_size p) (Z.of_nat (length data)));
    destruct (Z.ltb_spec (p_max_size p) (Z.of_nat (length data + length more))); try lia;
    cbn [fst snd].
  - exists [], true. rewrite app_nil_r, take_app_le by lia. split_and!; [done..|apply prefix_nil|].
    rewrite ?app_nil_r, length_take. lia.
  - eexists (take (Z.to_nat (p_max_size p) - length data) more), true.
    rewrite take_app_ge by lia. split_and!; [done..|apply prefix_take|].
    rewrite length_app, length_take. lia.
  - exists more, is_eof. split_and!; [done..|]. rewrite length_app. lia.
Qed.

Lemma parse_more p data more (is_eof : bool) :
  wf_parser p -> Forall is_byte (data ++ more) -> needs_more (parse p data false).1 = false ->
  parse p (data ++ more) is_eof = parse p data false.
Proof.
  intros Hp Hb Hn. destruct (limit_data_app p data more is_eof (wfp_max_size p Hp))
    as (more' & eof' & El & Heof & [more2 ->] & Hlen).
  destruct (limit_data_spec p data false Hp) as (data' & Ed & [data2 Hd] & _ & _).
  rewrite Ed in *.
  assert (Hb' : Forall is_byte (data' ++ more')).
  { rewrite Hd in Hb. apply Forall_app in Hb as [[Hb1 _]%Forall_app [Hb2 _]%Forall_app]. by apply Forall_app. }
  assert (Hok : (parse p data false).1 <> Panic).
  { apply Forall_app in Hb as [Hb _]. pose proof (parse_ok p data false Hp Hb) as H. by intros E; rewrite E in H. }
  unfold parse in *. rewrite El. destruct (limit_data p data false) as [data1 eof1]. simpl in *; subst data1.
  destruct eof1; [by destruct (Heof eq_refl) as [-> ->]; rewrite app_nil_r|].
  set (r := BinaryReader_new_features data' _ _) in *.
  set (r2 := BinaryReader_new_features (data' ++ more') _ _).
  assert (Hat : at_bytes r r2 (remaining_buffer r) more').
  { destruct Hp as [Hp1 _ Hp3 _]. split; [|done..]. apply wf_new; [done|done|].
    unfold u64_MAX in *. lia. }
  assert (Hwf : wf_reader r).
  { destruct Hp as [Hp1 _ Hp3 _]. rewrite length_app in Hlen. apply Forall_app in Hb' as [Hb' _].
    apply wf_new; [done|done|]. unfold u64_MAX in *. lia. }
  destruct (parse_reader false (p, r)) as [x [p' r']] eqn:Er.
  destruct (more_data_reader eof' p r r2 more' x p' r' Hwf Hat Er) as (r2' & E2 & Hpos).
  { destruct x as [pl|e|]; [done| |done]. simpl in *. by destruct (needed_hint e). }
  rewrite E2. destruct x as [pl|e|]; [by rewrite Hpos| |done].
  simpl in *. destruct (needed_hint e); [done|]. by destruct eof'.
Qed.

Lemma parse_resume p data is_eof : parse (resume p) data is_eof = parse p data is_eof.
Proof.
  unfold resume. destruct (p_state p) as [| |n len] eqn:Es; [done..|].
  destruct ((n =? 0) && (len =? 0)) eqn:E; [|done]. apply andb_prop in E as [E1 E2].
  assert (Er : forall e r, parse_reader e (set_state SectionStart p, r) = parse_reader e (p, r)).
  { intros e r. unfold parse_reader. rewrite !ST_bind_eq. cbn [get_parser gets fst p_state set_state].
    by rewrite Es, E1, E2. }
  unfold parse, limit_data. cbn [p_max_size p_offset p_features set_state].
  by destruct (_ <? _); rewrite Er.
Qed.

Lemma parse_hint p data is_eof h p' :
  wf_parser p -> Forall is_byte data -> parse p data is_eof = (Ok (NeedMoreData h), p') -> 0 < h.
Proof.
  intros Hp Hb Hpa. pose proof (parse_ok p data is_eof Hp Hb) as Hok. rewrite Hpa in Hok.
  destruct Hok as (-> & Hlen & _). unfold parse, limit_data in Hpa.
  destruct (Z.ltb_spec (p_max_size p) (Z.of_nat (length data))); [lia|].
  set (r := BinaryReader_new_features _ _ _) in Hpa.
  assert (Hwf : wf_reader r) by (destruct Hp; apply wf_new; unfold u64_MAX in *; (done || lia)).
  destruct (parse_reader false (p, r)) as [[pl|e|] [p1 r1]] eqn:Er; [by repeat case_match| |done].
  pose proof (hint_positive p r e p1 r1 Hwf Er) as H1. destruct (needed_hint e); [|done].
  by injection Hpa as <- _.
Qed.

(** ** Streams *)

(** The stream is at the point of the iterator over the whole input. *)
Record stream_at (pa : ParseAll) (st : Stream) : Prop := {
  sa_stack : s_stack st = pa_stack pa;
  sa_cur : s_cur st = pa_cur pa \/ s_cur st = resume (pa_cur pa);
  sa_data : pa_data pa = s_buf st ++ concat (s_input st);
  sa_eof : s_eof st = true -> concat (s_input st) = [];
  sa_input : Forall (fun s => s <> []) (s_input st);
}.

Lemma read_input_ok h input :
  0 < h -> Forall (fun s => s <> []) input ->
  let '(bytes, input') := read_input h input in
  concat input = bytes ++ concat input' /\ Forall (fun s => s <> []) input'
  /\ (bytes = [] -> concat input' = []).
Proof.
  intros Hh Hin. destruct input as [|s input]; [by split_and!|].
  inversion Hin as [|? ? Hs Hin']; subst. cbn [read_input concat].
  split_and!.
  - case_bool_decide as E; cbn [concat]; [|by rewrite app_assoc, take_drop].
    by rewrite <- (take_drop (Z.to_nat h) s) at 1; rewrite E, app_nil_r.
  - case_bool_decide; [done|by constructor].
  - destruct s as [|b s]; [done|]. destruct (Z.to_nat h) eqn:E; [lia|done].
Qed.

(** The steps of the stream that remain, beside those that give a payload. *)
Definition stream_measure (st : Stream) : nat :=
  length (concat (s_input st)) + if s_eof st then 0 else 1.

Lemma stream_parse pa st :
  wf_all pa -> stream_at pa st -> needs_more (parse (s_cur st) (s_buf st) (s_eof st)).1 = false ->
  parse (pa_cur pa) (pa_data pa) true = parse (s_cur st) (s_buf st) (s_eof st).
Proof.
  intros (Hc & Hs & Hb) [_ Hcur Hd He _] Hn.
  assert (E : forall d e, parse (pa_cur pa) d e = parse (s_cur st) d e).
  { intros d e. destruct Hcur as [-> | ->]; [done|]. by rewrite parse_resume. }
  assert (Hw : wf_parser (s_cur st)) by (destruct Hcur as [-> | ->]; [done|by apply resume_wf]).
  rewrite E, Hd. destruct (s_eof st) eqn:Eof; [by rewrite He, app_nil_r|].
  rewrite Hd in Hb. by apply parse_more.
Qed.

Lemma resume_resume p : resume (resume p) = resume p.
Proof.
  unfold resume at 2 3. destruct (p_state p) as [| |n len] eqn:Es;
    [unfold resume; by rewrite Es..|].
  destruct ((n =? 0) && (len =? 0)) eqn:E; [done|]. unfold resume. by rewrite Es, E.
Qed.

Lemma stream_cur pa st : stream_at pa st -> wf_all pa -> wf_parser (s_cur st) /\ Forall is_byte (s_buf st).
Proof.
  intros [_ Hcur Hd _ _] (Hc & _ & Hb). rewrite Hd in Hb. apply Forall_app in Hb as [Hb _].
  destruct Hcur as [-> | ->]; [done|]. split; [by apply resume_wf|done].
Qed.

(** More input is read while the payload is incomplete. *)
Lemma stream_wait pa st :
  wf_all pa -> stream_at pa st -> needs_more (parse (s_cur st) (s_buf st) (s_eof st)).1 = true ->
  exists st', stream_step st = Continue st' /\ stream_at pa st'
    /\ (stream_measure st' < stream_measure st)%nat.
Proof.
  intros Hwf Hat En. destruct (stream_cur pa st Hat Hwf) as [Hw Hbuf].
  destruct Hat as [Hstack Hcur Hdata Heof Hin]. unfold stream_step.
  pose proof (parse_ok (s_cur st) (s_buf st) (s_eof st) Hw Hbuf) as Hok.
  destruct (parse (s_cur st) (s_buf st) (s_eof st)) as [[[h|]| |] p'] eqn:Ep; try done.
  cbn [fst snd parse_post] in Hok. destruct Hok as (E & _ & ->). rewrite E.
  pose proof (parse_hint _ _ _ _ _ Hw Hbuf Ep) as Hh.
  pose proof (read_input_ok h (s_input st) Hh Hin) as Hr.
  destruct (read_input h (s_input st)) as [bytes input]. destruct Hr as (Hr1 & Hr2 & Hr3).
  eexists. split; [done|]. split.
  - split; cbn; [done| |by rewrite Hdata, Hr1, app_assoc|by intros ?%bool_decide_eq_true; auto|done].
    right. destruct Hcur as [-> | ->]; [done|apply resume_resume].
  - unfold stream_measure. cbn. rewrite E, Hr1, length_app.
    case_bool_decide as Eb; [lia|]. destruct bytes; [done|]. cbn. lia.
Qed.

(** A payload is the one the iterator gives. *)
Lemma stream_emit pa st :
  wf_all pa -> stream_at pa st -> pa_done pa = false ->
  needs_more (parse (s_cur st) (s_buf st) (s_eof st)).1 = false ->
  exists x pa', parse_all_next pa = (Some x, pa')
    /\ match stream_step st with
       | Continue _ => False
       | Emit pl st' => x = Ok pl /\ stream_at pa' st' /\ pa_done pa' = false
           /\ stream_measure st' = stream_measure st
       | Stop y => x = y /\ pa_done pa' = true
       end.
Proof.
  intros Hwf Hat Hd En. destruct (stream_cur pa st Hat Hwf) as [Hw Hbuf].
  pose proof (stream_parse pa st Hwf Hat En) as Hp. pose proof (parse_ok _ _ (s_eof st) Hw Hbuf) as Hok.
  destruct Hat as [Hstack Hcur Hdata Heof Hin]. unfold stream_step, parse_all_next. rewrite Hd, Hp.
  destruct (parse (s_cur st) (s_buf st) (s_eof st)) as [[[h|c pl]|e|] p']; [done| |by do 2 eexists|done].
  destruct Hok as (k & p1 & -> & Hk & _).
  destruct (Z.ltb_spec (Z.of_nat (length (pa_data pa))) (Z.of_nat k)).
  { rewrite Hdata, length_app in *. lia. }
  destruct (Z.ltb_spec (Z.of_nat (length (s_buf st))) (Z.of_nat k)); [lia|].
  rewrite Hstack, Nat2Z.id. destruct (after_payload pl (pa_stack pa) p') as [[stack cur] [|]].
  - by do 2 eexists.
  - do 2 eexists. split; [done|]. split_and!; [done| |done..].
    split; cbn; [done|by left| |done..]. rewrite Hdata. by rewrite drop_app_le by lia.
Qed.

Lemma payloads_done n pa xs : pa_done pa = true -> payloads n pa = Some xs -> xs = [].
Proof. intros Hd. destruct n; [done|]. cbn. unfold parse_all_next. rewrite Hd. by intros [= <-]. Qed.

Lemma stream_payloads m n pa st xs :
  wf_all pa -> stream_at pa st -> pa_done pa = false ->
  payloads n pa = Some xs -> (n + stream_measure st <= m)%nat -> stream_run m st = Some xs.
Proof.
  revert n pa st xs. induction m as [|m IH]; intros n pa st xs Hwf Hat Hd Hxs Hm.
  { destruct n; [done|]. lia. }
  cbn [stream_run]. destruct (needs_more (parse (s_cur st) (s_buf st) (s_eof st)).1) eqn:En.
  - destruct (stream_wait pa st Hwf Hat En) as (st' & -> & Hat' & Hm'). apply (IH n pa); (done || lia).
  - destruct (stream_emit pa st Hwf Hat Hd En) as (x & pa' & Hx & Hst).
    destruct n as [|n]; [done|]. cbn [payloads] in Hxs.
    pose proof (parse_all_next_ok pa Hwf) as Hn. rewrite Hx in Hxs, Hn.
    destruct (payloads n pa') as [ys|] eqn:Ey; [|done]. injection Hxs as <-.
    destruct (stream_step st) as [st'|pl st'|y]; [done| |].
    + destruct Hst as (-> & Hat' & Hd' & Hm'). destruct Hn as [Hwf' _].
      rewrite (IH n pa' st' ys); (done || lia).
    + destruct Hst as [-> Hd']. by rewrite (payloads_done n pa' ys).
Qed.

(** ** How the iteration ends *)

(** The last outcome is an error or the end of a module; the others are payloads. *)
Fixpoint ends_well (xs : list (result Payload)) : Prop :=
  match xs with
  | [] => False
  | [x] => match x with Ok pl => is_end pl = true | Err _ => True | Panic => False end
  | x :: xs' => (exists pl, x = Ok pl) /\ ends_well xs'
  end.

Lemma after_payload_done pl stack cur :
  (after_payload pl stack cur).2 = true -> is_end pl = true.
Proof. by destruct pl, stack. Qed.

Lemma parse_all_next_end st x st' :
  wf_all st -> parse_all_next st = (Some x, st') ->
  if pa_done st' then match x with Ok pl => is_end pl = true | Err _ => True | Panic => False end
  else exists pl, x = Ok pl.
Proof.
  intros Hwf Hx. pose proof (parse_all_next_ok st Hwf) as Hn. rewrite Hx in Hn.
  unfold parse_all_next in Hx. destruct (pa_done st) eqn:Hd; [done|].
  destruct (parse (pa_cur st) (pa_data st) true) as [[[h|c pl]|e|] p'];
    [by injection Hx as <- <-| |by injection Hx as <- <-|by injection Hx as <- <-].
  destruct (_ <? _); [by injection Hx as <- <-|].
  pose proof (after_payload_done pl (pa_stack st) p') as Hdone.
  destruct (after_payload pl (pa_stack st) p') as [[stack cur] [|]]; injection Hx as <- <-; cbn; eauto.
Qed.

Lemma payloads_ends_well n st xs :
  wf_all st -> pa_done st = false -> payloads n st = Some xs -> ends_well xs.
Proof.
  revert st xs. induction n as [|n IH]; intros st xs Hwf Hd Hxs; [done|]. cbn [payloads] in Hxs.
  pose proof (parse_all_next_ok st Hwf) as Hn.
  destruct (parse_all_next st) as [[x|] st'] eqn:Hx; [|by destruct Hn; congruence].
  pose proof (parse_all_next_end st x st' Hwf Hx) as He.
  destruct (payloads n st') as [ys|] eqn:Ey; [|done]. injection Hxs as <-.
  destruct (pa_done st') eqn:Hd'.
  - by rewrite (payloads_done n st' ys).
  - destruct He as [pl ->]. destruct Hn as [Hwf' _]. specialize (IH st' ys Hwf' Hd' Ey).
    destruct ys; [done|]. split; [by eexists|done].
Qed.

(** ** The functions of the code section *)

Lemma parse_function_entry_inv n len p r pl p' r' :
  parse_function_entry n len (p, r) = (Ok pl, (p', r')) ->
  exists body, pl = CodeSectionEntry body
    /\ original_position r' - original_position r <= len
    /\ p' = set_state (InFunctionBody (n - 1) (len - (original_position r' - original_position r))) p.
Proof.
  unfold parse_function_entry, delimited. rewrite ST_bind_eq. unfold on_reader. rewrite !ST_bind_eq.
  cbn [gets]. rewrite ST_bind_eq.
  destruct ((read_reader ≫= _) r) as [[body|e|] r1]; [|done..].
  rewrite ST_bind_eq. cbn [gets]. destruct (_ && _) eqn:E; [|done].
  apply andb_prop in E as [_ E%Z.leb_le]. cbn. intros [= <- <- <-]. by eexists.
Qed.

(** The [n] functions of a code section, read one after the other. *)
Fixpoint parse_entries (n : nat) (p : Parser) (data : list Z) : option (Parser * list Z) :=
  match n with
  | O => Some (p, data)
  | S n' =>
      match parse p data true with
      | (Ok (Parsed consumed (CodeSectionEntry _)), p') =>
          parse_entries n' p' (drop (Z.to_nat consumed) data)
      | _ => None
      end
  end.

Lemma parse_entry_inv p data n len consumed body p' :
  wf_parser p -> Forall is_byte data -> p_state p = InFunctionBody n len -> n <> 0 ->
  parse p data true = (Ok (Parsed consumed (CodeSectionEntry body)), p') ->
  0 <= consumed <= len
  /\ p' = set_state (InFunctionBody (n - 1) (len - consumed)) (advance_parser (Z.to_nat consumed) p).
Proof.
  intros Hp Hb Hs Hn Hpa. pose proof (parse_ok p data true Hp Hb) as Hok. rewrite Hpa in Hok.
  destruct Hok as (k & p1 & -> & _ & Hok & _). rewrite Nat2Z.id. unfold parse in Hpa.
  destruct (limit_data p data true) as [data' eof']. set (r := BinaryReader_new_features _ _ _) in Hpa.
  destruct (parse_reader eof' (p, r)) as [[pl|e|] [p2 r2]] eqn:Er; [|by repeat case_match|done].
  destruct (_ <? _) in Hpa; [done|]. destruct (_ <? _) in Hpa; [done|].
  injection Hpa as Hc -> <-. unfold parse_reader in Er. rewrite ST_bind_eq in Er.
  cbn [get_parser gets fst] in Er. rewrite Hs in Er.
  assert (Hpos : original_position r = p_offset p) by (unfold original_position; cbn; lia).
  destruct (Z.eqb_spec n 0); [done|].
  destruct (parse_function_entry_inv _ _ _ _ _ _ _ Er) as (b & [= <-] & Hle & ->).
  rewrite Hpos in *. rewrite <- Hc in *. split; [lia|]. 
  unfold advance_parser, set_state. cbn. by rewrite <- Hc.
Qed.

(** Reading them all leaves the parser where [skip_section] leaves it. *)
Lemma parse_entries_skip n len p data p' rest :
  wf_parser p -> Forall is_byte data -> p_state p = InFunctionBody (Z.of_nat n) len ->
  parse_entries n p data = Some (p', rest) ->
  exists len', p_state p' = InFunctionBody 0 len' /\ 0 <= len' <= len
    /\ rest = drop (Z.to_nat (len - len')) data
    /\ p' = set_state (InFunctionBody 0 len') (advance_parser (Z.to_nat (len - len')) p).
Proof.
  revert len p data. induction n as [|n IH]; intros len p data Hp Hb Hs; cbn [parse_entries].
  { intros [= <- <-]. exists len. rewrite Z.sub_diag. cbn. split; [done|].
    pose proof (wfp_state p Hp) as Hw. rewrite Hs in Hw. destruct Hw as (_ & Hw & _).
    split; [unfold in_u in Hw; lia|]. split; [done|].
    destruct p. cbn in Hs. subst. unfold advance_parser, set_state. cbn. f_equal; lia. }
  pose proof (parse_ok p data true Hp Hb) as Hok.
  destruct (parse p data true) as [[[h|c pl]|e|] p1] eqn:Epa; try done.
  destruct pl; try done. intros Hpe.
  destruct (parse_entry_inv p data _ len c body p1 Hp Hb Hs ltac:(lia) Epa) as [Hc E1].
  destruct Hok as (k & p2 & -> & _ & Hpok & Hp1 & _). cbn [fst snd] in Hp1.
  assert (Hw1 : wf_parser p1) by (rewrite Hp1; by eapply payload_ok_wf).
  destruct (IH (len - Z.of_nat k) p1 (drop (Z.to_nat (Z.of_nat k)) data)) as (len' & H1 & H2 & -> & ->);
    [done|by apply Forall_drop| |done|].
  { rewrite E1. cbn. f_equal. lia. }
  exists len'. rewrite Nat2Z.id in *. split; [done|]. split; [lia|]. split.
  - rewrite drop_drop. f_equal. lia.
  - rewrite E1. unfold advance_parser, set_state. cbn. f_equal; lia.
Qed.
