(* ===== verification/Names.v ===== *)
(** The name section: its reader [crates/wasmparser/src/readers/core/names.rs],
    its encoder [crates/wasm-encoder/src/core/names.rs], and its translation in
    [reencode::utils] of [crates/wasm-encoder/src/reencode.rs]. *)

From Stdlib Require Import ZArith Lia String.
From stdpp Require Import prelude.
From S2P Require Import Prelude Leb128 BinaryReader Encode Types EncTypes Operands.
From S2P Require Import Operators OperatorReader Instructions Reencode SectionReader.
From S2P Require Import CompositeTypes Items EncSections ReencodeSections Parser.

Local Open Scope Z_scope.

(** ** Reading *)

Record Naming := mkNaming { naming_index : Z; naming_name : list Z }.

Definition from_reader_naming : Reader Naming :=
  index ← read_var_u32;
  name ← read_unlimited_string;
  mret (mkNaming index name).
#[export] Instance FromReader_Naming : FromReader Naming := from_reader_naming.

(** [NameMap] and [IndirectNameMap] are sections of [Naming] and [IndirectNaming]. *)
Record IndirectNaming := mkIndirectNaming { indirect_index : Z; indirect_names : SectionLimited }.

(** The loop that skips the names of a [NameMap]. *)
Fixpoint skip_namings (n : nat) : Reader () :=
  match n with
  | O => mret tt
  | S n' => read_var_u32;; skip_string;; skip_namings n'
  end.

Definition from_reader_indirect_naming : Reader IndirectNaming :=
  index ← read_var_u32;
  names ← skip (count ← read_var_u32; skip_namings (Z.to_nat count));
  map ← lift_result (section_new names);
  mret (mkIndirectNaming index map).
#[export] Instance FromReader_IndirectNaming : FromReader IndirectNaming :=
  from_reader_indirect_naming.

Inductive Name :=
| Name_Module (name : list Z) (name_range : Z * Z)
| Name_Function (map : SectionLimited)
| Name_Local (map : SectionLimited)
| Name_Label (map : SectionLimited)
| Name_Type (map : SectionLimited)
| Name_Table (map : SectionLimited)
| Name_Memory (map : SectionLimited)
| Name_Global (map : SectionLimited)
| Name_Element (map : SectionLimited)
| Name_Data (map : SectionLimited)
| Name_Field (map : SectionLimited)
| Name_Tag (map : SectionLimited)
| Name_Unknown (ty : Z) (data : list Z) (range : Z * Z).

Definition name_map_of (mk : SectionLimited -> Name) (reader : BinaryReader) : result Name :=
  match section_new reader with
  | Ok map => Ok (mk map)
  | Err e => Err e
  | Panic => Panic
  end.

Definition name_from_reader (id : Z) (reader : BinaryReader) : result Name :=
  let data := remaining_buffer reader in
  let offset := original_position reader in
  match id with
  | 0 =>
      match read_string reader with
      | (Ok name, reader') =>
          if negb (eof reader') then
            Err (err_new (lit "trailing data at the end of a name") (original_position reader'))
          else Ok (Name_Module name (offset, original_position reader'))
      | (Err e, _) => Err e
      | (Panic, _) => Panic
      end
  | 1 => name_map_of Name_Function reader
  | 2 => name_map_of Name_Local reader
  | 3 => name_map_of Name_Label reader
  | 4 => name_map_of Name_Type reader
  | 5 => name_map_of Name_Table reader
  | 6 => name_map_of Name_Memory reader
  | 7 => name_map_of Name_Global reader
  | 8 => name_map_of Name_Element reader
  | 9 => name_map_of Name_Data reader
  | 10 => name_map_of Name_Field reader
  | 11 => name_map_of Name_Tag reader
  | ty => Ok (Name_Unknown ty data (offset, offset + Z.of_nat (length data)))
  end.
#[export] Instance Subsection_Name : Subsection Name := name_from_reader.

(** [CustomSectionReader::as_known], as far as its callers here look at it: the
    other known sections are not distinguished. *)
Inductive KnownCustom := KC_Name (reader : BinaryReader) | KC_Other.

(** ["name"]. *)
Definition name_str : list Z := [0x6e; 0x61; 0x6d; 0x65].

Definition as_known (c : CustomSectionReader) : KnownCustom :=
  if bool_decide (custom_name c = name_str) then KC_Name (shrink (custom_reader c)) else KC_Other.

(** ** Encoding *)

Module WN.
Section encode.
Context {L : Leb128}.

(** [NameMap] and [IndirectNameMap] have the fields of the sections. *)
Definition NameMap := SectionBuilder.
Definition IndirectNameMap := SectionBuilder.

Definition encode_name_map (s : SectionBuilder) : Enc :=
  encode_u32 (num_added s) +> extend (bytes s).

Definition size (s : SectionBuilder) : option Z :=
  n ← encoding_size (num_added s);
  Some (n + Z.of_nat (length (bytes s))).

Definition append (idx : Z) (name : list Z) (s : NameMap) : option NameMap :=
  add_item (encode_u32 idx +> encode_str name) s.

Definition indirect_append (idx : Z) (names : NameMap) (s : IndirectNameMap)
  : option IndirectNameMap :=
  add_item (encode_u32 idx +> encode_name_map names) s.

(** [NameSection]: the bytes of its subsections. *)
Definition NameSection := list Z.
Definition NameSection_new : NameSection := [].

Definition subsection_header (id len : Z) : Enc := push id +> encode_usize len.

(** A subsection is appended to [self.bytes]. *)
Definition push_subsection (names : NameSection) (e : Enc) : option NameSection :=
  bs ← e;
  Some (names ++ bs).

Definition module (name : list Z) (names : NameSection) : option NameSection :=
  if Z.of_nat (length name) <=? 2 ^ 32 - 1 then
    len ← encoding_size (Z.of_nat (length name));
    push_subsection names (subsection_header 0 (len + Z.of_nat (length name)) +> encode_str name)
  else None.

(** [functions], [locals], [labels], [types], [tables], [memories], [globals],
    [elements], [data], [fields] and [tags], by the id of their subsection. *)
Definition map_subsection (id : Z) (map : SectionBuilder) (names : NameSection)
  : option NameSection :=
  n ← size map;
  push_subsection names (subsection_header id n +> encode_name_map map).

Definition raw (id : Z) (data : list Z) (names : NameSection) : option NameSection :=
  push_subsection names (push id +> encode_bytes data).

Definition encode_name_section (names : NameSection) : Enc :=
  WS.encode_custom_section name_str names.
End encode.
End WN.

(** ** Translation *)

Section utils.
Context {T : Hooks.Reencode} {L : Leb128}.

Definition append_naming (map_index : Z -> Z) (naming : Naming) (ret : WN.NameMap)
  : outcome WN.NameMap :=
  unwrap_outcome (WN.append (map_index (naming_index naming)) (naming_name naming) ret).

Definition name_map (map : SectionLimited) (map_index : Z -> Z) : outcome WN.NameMap :=
  for_each (A := Naming) (append_naming map_index) map SectionBuilder_new.

Definition append_indirect (map_index : Z -> Z) (naming : IndirectNaming)
  (ret : WN.IndirectNameMap) : outcome WN.IndirectNameMap :=
  names ← name_map (indirect_names naming) (fun i => i);
  unwrap_outcome (WN.indirect_append (map_index (indirect_index naming)) names ret).

Definition indirect_name_map (map : SectionLimited) (map_index : Z -> Z)
  : outcome WN.IndirectNameMap :=
  for_each (A := IndirectNaming) (append_indirect map_index) map SectionBuilder_new.

Definition push_map (id : Z) (names : WN.NameSection) (map : outcome SectionBuilder)
  : outcome WN.NameSection :=
  map ← map;
  unwrap_outcome (WN.map_subsection id map names).

Definition parse_custom_name_subsection (section : Name) (names : WN.NameSection)
  : outcome WN.NameSection :=
  match section with
  | Name_Module name _ => unwrap_outcome (WN.module name names)
  | Name_Function map => push_map 1 names (name_map map Hooks.function_index)
  | Name_Type map => push_map 4 names (name_map map Hooks.type_index)
  | Name_Local map => push_map 2 names (indirect_name_map map Hooks.function_index)
  | Name_Label map => push_map 3 names (indirect_name_map map Hooks.function_index)
  | Name_Table map => push_map 5 names (name_map map Hooks.table_index)
  | Name_Memory map => push_map 6 names (name_map map Hooks.memory_index)
  | Name_Global map => push_map 7 names (name_map map Hooks.global_index)
  | Name_Element map => push_map 8 names (name_map map Hooks.element_index)
  | Name_Data map => push_map 9 names (name_map map Hooks.data_index)
  | Name_Tag map => push_map 11 names (name_map map Hooks.tag_index)
  | Name_Field map => push_map 10 names (indirect_name_map map Hooks.type_index)
  | Name_Unknown ty data _ => unwrap_outcome (WN.raw ty data names)
  end.

(** The loop over the subsections; each takes at least one byte. *)
Fixpoint name_section_loop (fuel : nat) (section : BinaryReader) (ret : WN.NameSection)
  : outcome WN.NameSection :=
  match fuel with
  | O => RPanic
  | S fuel' =>
      match subsections_next (A := Name) section with
      | (None, _) => ROk ret
      | (Some x, section') =>
          subsection ← from_result x;
          ret' ← parse_custom_name_subsection subsection ret;
          name_section_loop fuel' section' ret'
      end
  end.

Definition custom_name_section (section : BinaryReader) : outcome WN.NameSection :=
  name_section_loop (S (length (remaining_buffer section))) section WN.NameSection_new.
End utils.
