(* ===== verification/NameSpec.v ===== *)
(** The name section: what the translation of a name section writes is read
    back as the same names. *)

From Stdlib Require Import ZArith Lia String.
From stdpp Require Import prelude.
From S2P Require Import Prelude Leb128 BinaryReader BinaryReaderSpec ReaderLogic Encode Types EncTypes Operands.
From S2P Require Import Operators OperatorReader Instructions Reencode OperandSpec OperandRoundtrip.
From S2P Require Import InstrRoundtrip SectionReader CompositeTypes Items EncSections ReencodeSections Locality.
From S2P Require Import FunctionSpec CompositeSpec SectionSpec ItemSpec SectionItems Parser ParserSpec Names.

Local Open Scope Z_scope.

(** ** Names *)

Definition naming_wf (n : Naming) : Prop :=
  in_u 32 (naming_index n) /\ from_utf8 (naming_name n) = true
  /\ Z.of_nat (length (naming_name n)) < 2 ^ 32.

Section wp.
Context (E : BinaryReaderError -> Prop) (r0 : BinaryReader).
Hypothesis Henv : wp_env E r0.
Implicit Types k : nat.

Lemma wp_unlimited_string k (Q : list Z -> nat -> Prop) :
  (forall s k', (k < k')%nat -> from_utf8 s = true -> Z.of_nat (length s) < 2 ^ 32 -> Q s k') ->
  wp E r0 k read_unlimited_string Q.
Proof.
  intros HQ. unfold read_unlimited_string, internal_read_string. do 2 wp_step.
  unfold in_u in *. apply wp_bind, wp_bytes; [done|lia|]. intros bs Hl _.
  destruct (from_utf8 bs) eqn:Hu; [wp_run; apply HQ; (done || lia)|]. apply wp_fail_prev; [done|lia].
Qed.

Lemma wp_naming k (Q : Naming -> nat -> Prop) :
  (forall n k', (k < k')%nat -> naming_wf n -> Q n k') -> wp E r0 k from_reader_naming Q.
Proof.
  intros HQ. unfold from_reader_naming. do 2 wp_step. apply wp_bind, wp_unlimited_string.
  intros s k2 Hk Hu Hl. apply wp_ret, HQ; [lia|by split].
Qed.

Lemma wp_skip_string k (Q : () -> nat -> Prop) :
  (forall k', (k < k')%nat -> Q tt k') -> wp E r0 k skip_string Q.
Proof.
  intros HQ. unfold skip_string. do 2 wp_step. destruct (_ <? _); [wp_run|]. unfold in_u in *.
  apply wp_bind, wp_ensure_has_bytes; [done|lia|]. intros Hl.
  apply wp_modify_position; [lia..|]. apply HQ. lia.
Qed.

Lemma wp_skip_namings n k (Q : () -> nat -> Prop) :
  (forall k', (k <= k')%nat -> Q tt k') -> wp E r0 k (skip_namings n) Q.
Proof.
  revert k. induction n as [|n IH]; intros k HQ; cbn [skip_namings]; [by apply wp_ret, HQ|].
  do 2 wp_step. apply wp_bind, wp_skip_string. intros k2 Hk2. apply IH. intros k3 Hk3. apply HQ. lia.
Qed.
End wp.

(** ** Locality *)

Lemma local_var_u32_bind {B} (g : Z -> Reader B) :
  (forall n, in_u 32 n -> local 0 (g n)) -> local 1 (read_var_u32 ≫= g).
Proof.
  intros Hg. apply (local_ext 1 _ (n ← read_var_u32; if decide (in_u 32 n) then g n else panic)).
  - intros r Hwf. rewrite !ST_bind_eq. destruct (read_var_u32 r) as [[n|e|] r'] eqn:En; try done.
    destruct (read_var_u32_inv r n r' Hwf En) as [Hn _]. by rewrite decide_True.
  - apply local_bind_l; [apply local_var_u32|]. intros n.
    case_decide; [by apply Hg|apply local_panic].
Qed.

Lemma local_read_reader : local 1 read_reader.
Proof.
  apply local_var_u32_bind. intros n [Hn _]. apply local_skip, local_bind_r; [by apply local_bytes|].
  intros. apply local_ret.
Qed.

Lemma local_unlimited_string : local 1 read_unlimited_string.
Proof.
  apply local_var_u32_bind. intros n [Hn _]. apply local_bind_r; [by apply local_bytes|]. intros bs.
  case_match; [apply local_ret|apply local_fail_prev].
Qed.

Lemma local_naming : local 1 from_reader_naming.
Proof.
  apply local_bind_l; [apply local_var_u32|]. intros i.
  apply local_bind_r; [eapply local_weaken, local_unlimited_string|]. intros s. apply local_ret.
Qed.

Lemma local_advance n : 0 <= n ->
  local 0 (ensure_has_bytes n;; modify (fun r => set_position (position r + n) r)).
Proof.
  intros Hn. eapply local_weaken, (local_fixed _ n (fun _ => tt)); [done| |].
  - intros r bs rest Hwf E <-. by rewrite ST_bind_eq, (ensure_has_bytes_ok r bs rest).
  - intros r a r' Hr. rewrite ST_bind_eq in Hr.
    destruct (ensure_has_bytes n r) as [[[]|e|] r1] eqn:Ee; try done. by eapply ensure_has_bytes_inv.
Qed.

Lemma local_skip_string : local 1 skip_string.
Proof.
  apply local_var_u32_bind. intros n [Hn _].
  case_match; [apply local_fail_prev|by apply local_advance].
Qed.

Lemma local_skip_namings n : local 0 (skip_namings n).
Proof.
  induction n as [|n IH]; cbn [skip_namings]; [apply local_ret|].
  apply local_bind_r; [eapply local_weaken, local_var_u32|]. intros _.
  apply local_bind_r; [eapply local_weaken, local_skip_string|]. done.
Qed.

(** ** Skipping names and reading them *)

Lemma read_bytes_inv n r bs r' :
  wf_reader r -> 0 <= n -> read_bytes n r = (Ok bs, r') ->
  Z.of_nat (length bs) = n /\ position r + n <= buffer_len r /\ r' = set_position (position r + n) r.
Proof.
  intros [Hp _ _ _] Hn. unfold read_bytes. rewrite ST_bind_eq. unfold ensure_has_bytes.
  destruct (Z.leb_spec (position r + n) (buffer_len r)) as [Hl|]; [|done].
  cbn. intros [= <- <-]. split; [|done]. unfold slice, buffer_len in *.
  rewrite length_take, length_drop. lia.
Qed.

(** A name that is read can be skipped, unless it is too long for that. *)
Lemma skip_string_read r s r' :
  wf_reader r -> read_unlimited_string r = (Ok s, r') ->
  skip_string r = (Ok tt, r') /\ Z.of_nat (length s) <= MAX_WASM_STRING_SIZE
  \/ (exists e r'', skip_string r = (Err e, r'')) /\ MAX_WASM_STRING_SIZE < Z.of_nat (length s).
Proof.
  intros Hwf. unfold read_unlimited_string, skip_string, internal_read_string.
  rewrite !ST_bind_eq. destruct (read_var_u32 r) as [[n|e|] r1] eqn:En; [|done..].
  pose proof (read_var_u32_inv r n r1 Hwf En) as [[Hn _] _].
  assert (Hwf1 : wf_reader r1) by by eapply local_reader_wf; [apply local_var_u32|..].
  rewrite ST_bind_eq. destruct (read_bytes n r1) as [[bs|e|] r2] eqn:Eb; [|done..].
  destruct (read_bytes_inv n r1 bs r2 Hwf1 Hn Eb) as (Hl & Hle & ->).
  destruct (from_utf8 bs); [|done]. intros [= <- <-].
  destruct (Z.ltb_spec MAX_WASM_STRING_SIZE n).
  - right. split; [|lia]. by do 2 eexists.
  - left. split; [|lia]. rewrite ST_bind_eq. unfold ensure_has_bytes.
    by rewrite (proj2 (Z.leb_le _ _)) by done.
Qed.

Definition short_name (n : Naming) : Prop :=
  Z.of_nat (length (naming_name n)) <= MAX_WASM_STRING_SIZE.

Lemma skip_namings_read n r xs r' :
  wf_reader r -> read_n (A := Naming) n r = (Ok xs, r') ->
  (Forall short_name xs <-> skip_namings n r = (Ok tt, r'))
  /\ (forall r2, skip_namings n r = (Ok tt, r2) -> r2 = r').
Proof.
  revert r xs. induction n as [|n IH]; intros r xs Hwf Hr; cbn [read_n skip_namings] in *.
  { injection Hr as <- <-. split; [by split|]. by intros r2 [= <-]. }
  rewrite ST_bind_eq in Hr. rewrite !ST_bind_eq.
  unfold read at 1, from_reader, FromReader_Naming, from_reader_naming in Hr. rewrite ST_bind_eq in Hr.
  destruct (read_var_u32 r) as [[i|e|] r1] eqn:Ei; [|done..].
  assert (Hwf1 : wf_reader r1) by by eapply local_reader_wf; [apply local_var_u32|..].
  rewrite ST_bind_eq in Hr. rewrite ST_bind_eq.
  destruct (read_unlimited_string r1) as [[s|e|] r2] eqn:Es; [|done..].
  assert (Hwf2 : wf_reader r2) by by eapply local_reader_wf; [apply local_unlimited_string|..].
  cbn [mret ST_ret] in Hr. rewrite ST_bind_eq in Hr. destruct (read_n n r2) as [[ys|e|] r3] eqn:En; [|done..].
  injection Hr as <- <-. destruct (IH r2 ys Hwf2 En) as [IH1 IH2].
  destruct (skip_string_read r1 s r2 Hwf1 Es) as [[-> Hs]|[(e & r4 & ->) Hs]].
  - split; [|done]. rewrite <- IH1. rewrite Forall_cons. unfold short_name at 1. cbn. tauto.
  - split; [|done]. rewrite Forall_cons. unfold short_name at 1. cbn. split; [lia|done].
Qed.

(** ** Name maps *)

Section items.
Context {L : Leb128}.

#[export] Instance Naming_item : SectionItem Naming := {
  parse_item := append_naming (fun i => i);
  item_wf := fun _ => naming_wf;
  item_check := checked; item_fits := always;
  item_equiv := eq;
}.

(** The names of an indirect name are read when they are translated. *)
Definition indirect_check (n : IndirectNaming) : result () :=
  match section_collect (A := Naming) (indirect_names n) with
  | Ok _ => Ok tt
  | Err e => Err e
  | Panic => Panic
  end.

Definition indirect_view (n : IndirectNaming) : result (Z * list Naming) :=
  match section_collect (A := Naming) (indirect_names n) with
  | Ok xs => Ok (indirect_index n, xs)
  | Err e => Err e
  | Panic => Panic
  end.

Definition indirect_equiv (a b : IndirectNaming) : Prop :=
  exists v, indirect_view a = Ok v /\ indirect_view b = Ok v.

Record indirect_wf (f : WasmFeatures) (n : IndirectNaming) : Prop := {
  iw_index : in_u 32 (indirect_index n);
  iw_names : exists br, wf_reader br /\ features br = f /\ section_new br = Ok (indirect_names n);
  iw_short xs : section_collect (A := Naming) (indirect_names n) = Ok xs -> Forall short_name xs;
}.

#[export] Instance IndirectNaming_item : SectionItem IndirectNaming := {
  parse_item := append_indirect (fun i => i);
  item_wf := indirect_wf;
  item_check := indirect_check; item_fits := always;
  item_equiv := indirect_equiv;
}.
End items.

Section laws.
Context {L : Leb128} {LS : Leb128Spec L}.

Lemma er_unlimited_string f s :
  from_utf8 s = true -> Z.of_nat (length s) < 2 ^ 32 ->
  enc_reads f (encode_str s) read_unlimited_string s.
Proof.
  intros Hs Hl. eapply er_bind; [apply er_usize; [exact LS|unfold in_u; lia]|].
  eapply er_last; [by apply er_bytes|]. cbv beta. by rewrite Hs.
Qed.

Lemma er_naming f n :
  naming_wf n ->
  enc_reads f (encode_u32 (naming_index n) +> encode_str (naming_name n)) from_reader_naming n.
Proof.
  intros (Hi & Hu & Hl). eapply er_bind; [by apply er_u32|].
  eapply er_last; [by apply er_unlimited_string|]. by destruct n.
Qed.

#[export] Instance Naming_laws : SectionItemLaws Naming.
Proof.
  split.
  - intros E r0 k Q Henv _ HQ. by apply wp_naming.
  - intros f a s Ha. eexists. apply eager_parse; [done|]. eapply erx_exact; [by apply er_naming|done].
Qed.

Lemma name_map_translated br sec s :
  wf_reader br -> section_new br = Ok sec -> name_map sec (fun i => i) = ROk s ->
  exists xs, section_collect (A := Naming) sec = Ok xs /\ in_u 32 (num_added s)
    /\ num_added s = Z.of_nat (length xs) /\ reads (features br) (read_n (length xs)) (bytes s) xs.
Proof.
  intros Hwf Hsec Hs. unfold name_map, WN.NameMap in Hs.
  change (append_naming (fun i => i)) with (parse_item (A := Naming)) in Hs.
  destruct (translate_section (A := Naming) br sec s Hwf Hsec Hs)
    as (xs & Hxs & Hn & Hin & Hr & _).
  exists xs. split_and!; [done..|]. intros r rest Hwf' Hf E.
  destruct (Hr r rest Hwf' Hf E) as (ys & Hys & Heq). rewrite Hys. do 2 f_equal.
  symmetry. by apply list_eq_Forall2.
Qed.

Lemma section_items_inv n r xs u :
  section_items (A := Naming) n r = (xs, Ok u) -> exists r', read_n (A := Naming) n r = (Ok xs, r').
Proof.
  revert r xs. induction n as [|n IH]; intros r xs; cbn [section_items read_n].
  { destruct (eof r); [|done]. intros [= <- _]. by eexists. }
  rewrite ST_bind_eq. destruct (read r) as [[x|e|] r1]; [|done..].
  destruct (section_items n r1) as [ys st] eqn:Ei. intros [= <- ->].
  destruct (IH r1 ys Ei) as [r' E]. rewrite ST_bind_eq, E. by eexists.
Qed.

Definition skip_names : Reader () := count ← read_var_u32; skip_namings (Z.to_nat count).

Lemma local_skip_names : local 1 skip_names.
Proof. apply local_bind_l; [apply local_var_u32|intros; apply local_skip_namings]. Qed.

(** The count that was skipped is read again. *)
Lemma skipped_count r names r' :
  wf_reader r -> skip skip_names r = (Ok names, r') -> exists sec, section_new names = Ok sec.
Proof.
  intros Hwf Hr. destruct (skip_inv 1 _ r names r' local_skip_names Hwf Hr) as (bs & Hm & -> & _ & Eb & ->).
  unfold skip_names in Hm. rewrite ST_bind_eq in Hm.
  destruct (read_var_u32 r) as [[n|e|] r1] eqn:En; try done.
  assert (Hwf1 : wf_reader r1) by by eapply local_reader_wf; [apply local_var_u32|..].
  destruct (local_var_u32 r n r1 Hwf En) as (nb & _ & Enb & -> & Hnloc).
  destruct (local_skip_namings _ _ _ _ Hwf1 Hm) as (ib & _ & Eib & _ & _).
  assert (bs = nb ++ ib) as ->.
  { rewrite Eb, Eib, app_assoc in Enb. by apply app_inv_tail in Enb. }
  pose proof (at_slice_reader r _ _ Hwf Eb) as Hat. unfold section_new.
  rewrite (Hnloc _ _ (at_bytes_weaken _ _ _ _ _ Hat)). by eexists.
Qed.

(** Reading an indirect name checks the lengths of its names only. *)
Lemma skipped_names r names r' sec xs :
  wf_reader r -> skip skip_names r = (Ok names, r') ->
  section_new names = Ok sec -> section_collect (A := Naming) sec = Ok xs -> Forall short_name xs.
Proof.
  intros Hwf Hr Hsec Hxs.
  destruct (skip_inv 1 _ r names r' local_skip_names Hwf Hr) as (bs & Hm & -> & _ & Eb & ->).
  unfold skip_names in Hm. rewrite ST_bind_eq in Hm. destruct (read_var_u32 r) as [[n|e|] r1] eqn:En; try done.
  pose proof (read_var_u32_inv r n r1 Hwf En) as [Hn _].
  assert (Hwf1 : wf_reader r1) by by eapply local_reader_wf; [apply local_var_u32|..].
  destruct (local_var_u32 r n r1 Hwf En) as (nb & _ & Enb & -> & Hnloc).
  destruct (local_skip_namings _ _ _ _ Hwf1 Hm) as (ib & _ & Eib & Ea & _).
  assert (bs = nb ++ ib) as ->.
  { rewrite Eb, Eib, app_assoc in Enb. by apply app_inv_tail in Enb. }
  pose proof (at_slice_reader r _ _ Hwf Eb) as Hat.
  pose proof (Hnloc _ _ (at_bytes_weaken _ _ _ _ _ Hat)) as Hn2.
  unfold section_new in Hsec. rewrite Hn2 in Hsec. injection Hsec as <-.
  rewrite section_collect_items in Hxs by apply Hn.
  destruct (section_items _ _) as [ys [u|e|]] eqn:Ei; [|done..]. injection Hxs as ->.
  destruct (section_items_inv _ _ _ _ Ei) as [r2 Hr2].
  destruct (at_bytes_advance _ _ _ _ _ Hat) as [Hwf2 Hf2 Hp2 Er2]. rewrite app_nil_r in Er2.
  destruct (local_read_n (Z.to_nat n) local_naming _ _ _ Hwf2 Hr2) as (jb & _ & Ejb & _ & Hloc).
  rewrite Er2 in Ejb. assert (Hr3 := Hloc (advance (length nb) r)
    (remaining_buffer r2 ++ remaining_buffer (advance (length (nb ++ ib)) r))).
  destruct (skip_namings_read (Z.to_nat n) (advance (length nb) r) xs
    (advance (length jb) (advance (length nb) r)) Hwf1) as [Hs Heq].
  { apply Hr3. split; [done|by rewrite Hf2|by rewrite Hp2|]. by rewrite Eib, app_assoc, <- Ejb. }
  apply Hs. rewrite Hm. f_equal. by apply Heq.
Qed.

Lemma read_indirect_inv r n r' :
  wf_reader r -> from_reader_indirect_naming r = (Ok n, r') -> indirect_wf (features r) n.
Proof.
  intros Hwf Hr. unfold from_reader_indirect_naming in Hr. rewrite ST_bind_eq in Hr.
  destruct (read_var_u32 r) as [[i|e|] r1] eqn:Ei; [|done..].
  pose proof (read_var_u32_inv r i r1 Hwf Ei) as [Hi _].
  assert (Hwf1 : wf_reader r1) by by eapply local_reader_wf; [apply local_var_u32|..].
  assert (Hf1 : features r1 = features r)
    by by destruct (local_var_u32 r i r1 Hwf Ei) as (nb & _ & _ & -> & _).
  rewrite ST_bind_eq in Hr. fold skip_names in Hr.
  destruct (skip skip_names r1) as [[names|e|] r2] eqn:Es; [|done..].
  rewrite ST_bind_eq in Hr. unfold lift_result in Hr.
  destruct (section_new names) as [sec|e|] eqn:En; [|done..]. injection Hr as <- <-.
  destruct (skip_inv 1 _ r1 names r2 local_skip_names Hwf1 Es) as (bs & _ & -> & _ & Eb & _).
  pose proof (at_slice_reader r1 _ _ Hwf1 Eb) as [Hwf3 Hf3 _ _].
  split; cbn [indirect_index indirect_names]; [done| |].
  - eexists. split; [exact Hwf3|]. by split; [etrans; [exact Hf3|]|].
  - intros xs Hxs. by eapply (skipped_names r1 _ r2).
Qed.

Lemma wp_indirect E r0 k (Q : IndirectNaming -> nat -> Prop) :
  wp_env E r0 ->
  (forall n k', (k < k')%nat -> indirect_wf (features r0) n -> Q n k') ->
  wp E r0 k from_reader_indirect_naming Q.
Proof.
  intros Henv HQ.
  assert (H : wp E r0 k from_reader_indirect_naming (fun _ k' => (k < k')%nat)).
  { unfold from_reader_indirect_naming. do 2 wp_step. apply wp_bind.
    assert (Hs : wp E r0 k' (skip skip_names) (fun _ k2 => (k' < k2)%nat)).
    { apply wp_skip; [done|]. unfold skip_names. do 2 wp_step. apply wp_skip_namings; [done|]. lia. }
    eapply wp_mono; [apply (wp_strengthen E r0 Henv _ _ _
      (fun br => exists sec, section_new br = Ok sec) Hs)|].
    { intros br r' Hwf Hr. by eapply skipped_count. }
    intros br k2 _ [Hk2 [sec Hsec]]. rewrite Hsec.
    apply wp_bind. intros Hl. exists k2. split; [lia|]. split; [done|]. cbn. apply wp_ret. lia. }
  eapply wp_mono; [apply (wp_strengthen E r0 Henv _ _ _ (indirect_wf (features r0)) H)|].
  - intros n r' Hwf Hr. by apply (read_indirect_inv _ n r') in Hr.
  - intros n k' _ [Hk Hn]. by apply HQ.
Qed.

Lemma checked_items (xs : list Naming) : items_check xs = Ok tt.
Proof. induction xs as [|x xs IH]; [done|exact IH]. Qed.

(** Translating the names of a map succeeds when they can be read. *)
Lemma name_map_ok br sec :
  wf_reader br -> section_new br = Ok sec ->
  match section_collect (A := Naming) sec with
  | Ok _ => exists s, name_map sec (fun i => i) = ROk s
  | Err e => name_map sec (fun i => i) = RErr (ParseError e)
  | Panic => False
  end.
Proof.
  intros Hwf Hsec. unfold name_map, WN.NameMap.
  change (append_naming (fun i => i)) with (parse_item (A := Naming)).
  destruct (reencode_section (A := Naming) br sec Hwf Hsec) as (xs & st & -> & H).
  rewrite checked_items in H. assert (Hf : Forall (item_fits (A := Naming)) xs) by by apply Forall_true.
  destruct st as [u|e|]; [by apply H|by apply H|done].
Qed.

Lemma reads_skip_names f xs n body :
  n = Z.of_nat (length xs) -> in_u 32 n -> Forall short_name xs ->
  reads f (read_n (length xs)) body xs -> reads f skip_names (write_unsigned n ++ body) tt.
Proof.
  intros Hn Hin Hs Hr. eapply reads_bind; [by apply reads_var_u32|]. intros r rest Hwf Hf E.
  rewrite Hn, Nat2Z.id. by apply (skip_namings_read _ r xs); [|apply Hr with rest|].
Qed.

Lemma indirect_read_back f idx xs n body :
  in_u 32 idx -> n = Z.of_nat (length xs) -> in_u 32 n -> Forall short_name xs ->
  reads f (read_n (length xs)) body xs ->
  reads_ex f from_reader_indirect_naming (write_unsigned idx ++ write_unsigned n ++ body)
    (fun b => indirect_view b = Ok (idx, xs)).
Proof.
  intros Hi Hn Hin Hs Hr. eapply reads_ex_bind.
  { eapply (reads_reads_ex f _ _ idx (eq idx)); [by apply reads_var_u32|done]. }
  intros ? <-. intros r rest Hwf Hf E. fold skip_names.
  pose proof (reads_skip_names f xs n body Hn Hin Hs Hr r rest Hwf Hf E) as Hm.
  rewrite ST_bind_eq, (skip_ok _ r _ rest Hwf Hm E).
  destruct (at_slice_reader r _ _ Hwf E) as [Hwf2 Hf2 _ Er2]. rewrite app_nil_r in Er2.
  destruct (content_read_back f _ n body (eq xs) Hwf2 ltac:(by rewrite Hf2) Hin) as (sec & ys & Hsec & Hc & <-);
    [|done|].
  { rewrite Hn, Nat2Z.id. by apply (reads_reads_ex f _ _ xs (eq xs)). }
  rewrite ST_bind_eq. unfold lift_result. rewrite Hsec. eexists. split; [done|].
  unfold indirect_view. cbn [indirect_names indirect_index]. by rewrite Hc.
Qed.

#[export] Instance IndirectNaming_laws : SectionItemLaws IndirectNaming.
Proof.
  split.
  - intros E r0 k Q Henv _ HQ. by apply wp_indirect.
  - intros f a s [Hi (br & Hwf & <- & Hsec) Hs]. pose proof (name_map_ok br _ Hwf Hsec) as Hm.
    cbn [item_check parse_item IndirectNaming_item]. unfold indirect_check, append_indirect.
    destruct (section_collect _) as [xs|e|] eqn:Ec; [|by rewrite Hm|done].
    destruct Hm as [nm Hnm]. rewrite Hnm.
    eexists. split; [done|]. split; [by eexists|]. intros bs [= <-].
    destruct (name_map_translated br _ nm Hwf Hsec Hnm) as (ys & Hys & Hin & Hn & Hr).
    rewrite Ec in Hys. injection Hys as <-.
    intros r rest Hwf2 Hf2 E.
    destruct (indirect_read_back (features br) _ xs (num_added nm) (bytes nm) Hi Hn Hin (Hs _ eq_refl) Hr
      r rest Hwf2 Hf2 E) as (b & Hb & Hv). exists b. split; [exact Hb|].
    eexists. split; [|exact Hv]. unfold indirect_view. by rewrite Ec.
Qed.
End laws.

(** * The name section as a whole: its subsections, and what they say. *)

(** ** What a subsection says *)

Inductive NameView :=
| NV_Module (name : list Z)
| NV_Names (id : Z) (xs : list Naming)
| NV_Indirect (id : Z) (xs : list (Z * list Naming))
| NV_Unknown (ty : Z) (data : list Z).

(** The id of the subsection, for the kinds of names that are maps. *)
Definition direct_map (n : Name) : option (Z * SectionLimited) :=
  match n with
  | Name_Function map => Some (1, map)
  | Name_Type map => Some (4, map)
  | Name_Table map => Some (5, map)
  | Name_Memory map => Some (6, map)
  | Name_Global map => Some (7, map)
  | Name_Element map => Some (8, map)
  | Name_Data map => Some (9, map)
  | Name_Tag map => Some (11, map)
  | _ => None
  end.

Definition indirect_map (n : Name) : option (Z * SectionLimited) :=
  match n with
  | Name_Local map => Some (2, map)
  | Name_Label map => Some (3, map)
  | Name_Field map => Some (10, map)
  | _ => None
  end.

Definition result_bind {A B} (x : result A) (k : A -> result B) : result B :=
  match x with Ok a => k a | Err e => Err e | Panic => Panic end.

Fixpoint indirect_views (xs : list IndirectNaming) : result (list (Z * list Naming)) :=
  match xs with
  | [] => Ok []
  | x :: xs' =>
      result_bind (indirect_view x) (fun v => result_bind (indirect_views xs') (fun vs => Ok (v :: vs)))
  end.

Definition name_view (n : Name) : result NameView :=
  match n with
  | Name_Module name _ => Ok (NV_Module name)
  | Name_Unknown ty data _ => Ok (NV_Unknown ty data)
  | _ =>
      match direct_map n, indirect_map n with
      | Some (id, sec), _ => result_bind (section_collect (A := Naming) sec) (fun xs => Ok (NV_Names id xs))
      | _, Some (id, sec) =>
          result_bind (section_collect (A := IndirectNaming) sec) (fun xs =>
          result_bind (indirect_views xs) (fun vs => Ok (NV_Indirect id vs)))
      | _, _ => Panic
      end
  end.

(** All the subsections; each takes at least one byte. *)
Fixpoint names_view (fuel : nat) (r : BinaryReader) : result (list NameView) :=
  match fuel with
  | O => Panic
  | S fuel' =>
      match subsections_next (A := Name) r with
      | (None, _) => Ok []
      | (Some x, r') =>
          result_bind x (fun n => result_bind (name_view n) (fun v =>
          result_bind (names_view fuel' r') (fun vs => Ok (v :: vs))))
      end
  end.

(** ** Framing *)

Section framing.
Context {L : Leb128} {LS : Leb128Spec L}.

Lemma read_u7_ok f id : 0 <= id < 128 -> reads f read_u7 [id] id.
Proof.
  intros Hid r rest Hwf Hf E. unfold read_u7. rewrite ST_bind_eq.
  rewrite (reads_u8 f id r rest Hwf Hf E). rewrite cont_bit by (unfold is_byte; lia).
  by rewrite (proj2 (Z.ltb_lt _ _)) by lia.
Qed.

Lemma read_reader_ok f content :
  Z.of_nat (length content) < 2 ^ 32 ->
  forall r rest, wf_reader r -> features r = f ->
  remaining_buffer r = (write_unsigned (Z.of_nat (length content)) ++ content) ++ rest ->
  exists br, read_reader r
    = (Ok br, advance (length (write_unsigned (Z.of_nat (length content)) ++ content)) r)
    /\ wf_reader br /\ features br = f /\ remaining_buffer br = content.
Proof.
  intros Hl r rest Hwf Hf E. rewrite <- app_assoc in E.
  destruct (advance_app r _ _ Hwf E) as [Hwf1 E1]. eexists. unfold read_reader. rewrite ST_bind_eq.
  rewrite (reads_var_u32 f (Z.of_nat (length content)) ltac:(unfold in_u; lia) r _ Hwf Hf E).
  rewrite (skip_ok _ _ content rest Hwf1); [|
    by rewrite ST_bind_eq, (reads_bytes f content _ eq_refl _ rest Hwf1 Hf E1)|done].
  split; [by rewrite length_app, advance_advance|].
  destruct (at_slice_reader _ _ _ Hwf1 E1) as [Hwf2 Hf2 _ Er]. rewrite app_nil_r in Er.
  split_and!; [done|by rewrite Hf2|done].
Qed.

(** A subsection of any name section: its id, its size and its content. *)
Lemma framed_read_back {A} `{Subsection A} f id content (P : A -> Prop) :
  0 <= id < 128 -> Z.of_nat (length content) < 2 ^ 32 ->
  (forall br, wf_reader br -> features br = f -> remaining_buffer br = content ->
     exists n, subsection_from_reader id br = Ok n /\ P n) ->
  reads_ex f (subsection_read (A := A)) (id :: write_unsigned (Z.of_nat (length content)) ++ content) P.
Proof.
  intros Hid Hl HP r rest Hwf Hf E. unfold subsection_read.
  change (id :: ?x) with ([id] ++ x) in E. rewrite <- app_assoc in E.
  rewrite (read_u7_ok f id Hid r _ Hwf Hf E). destruct (advance_app r [id] _ Hwf E) as [Hwf1 E1].
  destruct (read_reader_ok f content Hl _ rest Hwf1 Hf E1) as (br & -> & Hwf2 & Hf2 & Er).
  destruct (HP br Hwf2 Hf2 Er) as (n & Hn & HPn). exists n.
  rewrite Hn, advance_advance. by split.
Qed.

Lemma subsection_read_back f id content (P : Name -> Prop) :
  0 <= id < 128 -> Z.of_nat (length content) < 2 ^ 32 ->
  (forall br, wf_reader br -> features br = f -> remaining_buffer br = content ->
     exists n, name_from_reader id br = Ok n /\ P n) ->
  reads_ex f (subsection_read (A := Name))
    (id :: write_unsigned (Z.of_nat (length content)) ++ content) P.
Proof. apply (framed_read_back (A := Name)). Qed.

(** ** One subsection *)

Lemma direct_map_parse n id sec names :
  direct_map n = Some (id, sec) ->
  parse_custom_name_subsection (T := RoundtripReencoder) n names
    = push_map id names (name_map sec (fun i => i))
  /\ 0 <= id < 128
  /\ (forall xs, section_collect (A := Naming) sec = Ok xs -> name_view n = Ok (NV_Names id xs))
  /\ forall br, exists mk, name_from_reader id br = name_map_of mk br
       /\ forall s, direct_map (mk s) = Some (id, s).
Proof.
  destruct n; intros [= <- <-]; (split; [done|split; [lia|split; [|intros br; by eexists]]]);
    intros xs Hxs; cbn -[section_collect]; by rewrite Hxs.
Qed.

Lemma indirect_map_parse n id sec names :
  indirect_map n = Some (id, sec) ->
  parse_custom_name_subsection (T := RoundtripReencoder) n names
    = push_map id names (indirect_name_map sec (fun i => i))
  /\ 0 <= id < 128
  /\ (forall xs vs, section_collect (A := IndirectNaming) sec = Ok xs -> indirect_views xs = Ok vs ->
        name_view n = Ok (NV_Indirect id vs))
  /\ forall br, exists mk, name_from_reader id br = name_map_of mk br
       /\ forall s, indirect_map (mk s) = Some (id, s).
Proof.
  destruct n; intros [= <- <-]; (split; [done|split; [lia|split; [|intros br; by eexists]]]);
    intros xs vs Hxs Hvs; cbn -[section_collect indirect_views]; rewrite Hxs; cbn -[indirect_views]; by rewrite Hvs.
Qed.

(** What a map is written as. *)
Lemma push_map_bytes id names (s : SectionBuilder) names' :
  in_u 32 (num_added s) -> push_map id names (ROk s) = ROk names' ->
  let content := write_unsigned (num_added s) ++ bytes s in
  names' = names ++ id :: write_unsigned (Z.of_nat (length content)) ++ content
  /\ Z.of_nat (length content) < 2 ^ 32.
Proof.
  intros Hn H content. unfold push_map, WN.map_subsection, WN.size, encoding_size in H. cbn in H.
  destruct (Z.leb_spec (Z.of_nat (length (write_unsigned (num_added s)))) 5); [|done]. cbn in H.
  assert (Hl : Z.of_nat (length (write_unsigned (num_added s))) + Z.of_nat (length (bytes s))
    = Z.of_nat (length content)) by (unfold content; rewrite length_app; lia).
  rewrite Hl in H. unfold WN.subsection_header, encode_usize in H.
  destruct (Z.leb_spec (Z.of_nat (length content)) (2 ^ 32 - 1)); [|done].
  cbn in H. injection H as <-. split; [done|lia].
Qed.

(** How a subsection was read. *)
Lemma name_from_reader_inv id br n :
  name_from_reader id br = Ok n ->
  (exists name rg r', n = Name_Module name rg /\ read_string br = (Ok name, r'))
  \/ (exists sec, section_new br = Ok sec
        /\ (direct_map n = Some (id, sec) \/ indirect_map n = Some (id, sec)))
  \/ (exists rg, n = Name_Unknown id (remaining_buffer br) rg
        /\ forall br', exists rg', name_from_reader id br' = Ok (Name_Unknown id (remaining_buffer br') rg')).
Proof.
  unfold name_from_reader at 1, name_map_of. intros H.
  destruct id as [|p|p]; [|do 4 (try destruct p as [p|p|])|].
  all: try by (right; right; injection H as <-; eexists; split; [done|intros br'; by eexists]).
  all: try by (right; left; destruct (section_new br) as [sec|e|]; [|done..]; injection H as <-;
               exists sec; split; [done|]; first [by left|by right]).
  left. destruct (read_string br) as [[name|e|] r'] eqn:Er; [|done..].
  destruct (negb (eof r')); [done|]. injection H as <-. by do 3 eexists.
Qed.

Lemma module_name_read_back f name :
  str_wf (mkStr name) ->
  forall br, wf_reader br -> features br = f ->
  remaining_buffer br = write_unsigned (Z.of_nat (length name)) ++ name ->
  exists n, name_from_reader 0 br = Ok n /\ name_view n = Ok (NV_Module name).
Proof.
  intros [Hu Hl] br Hwf Hf E. destruct (er_str f name Hu Hl) as (bs & Ebs & Hr).
  assert (bs = write_unsigned (Z.of_nat (length name)) ++ name) as ->.
  { unfold encode_str, encode_usize in Ebs. unfold MAX_WASM_STRING_SIZE in Hl. cbn [str_bytes] in Hl.
    rewrite (proj2 (Z.leb_le _ _)) in Ebs by lia. by injection Ebs as <-. }
  rewrite <- (app_nil_r (_ ++ _)) in E. unfold name_from_reader. rewrite (Hr br [] Hwf Hf E).
  destruct (advance_app br _ _ Hwf E) as [Hwf1 E1]. rewrite remaining_nil_eof by done.
  rewrite bool_decide_eq_true_2 by done. by eexists.
Qed.

Lemma module_name_bytes name names names' :
  WN.module name names = Some names' ->
  let content := write_unsigned (Z.of_nat (length name)) ++ name in
  names' = names ++ 0 :: write_unsigned (Z.of_nat (length content)) ++ content
  /\ Z.of_nat (length content) < 2 ^ 32.
Proof.
  intros H content. unfold WN.module, encoding_size in H.
  destruct (Z.leb_spec (Z.of_nat (length name)) (2 ^ 32 - 1)); [|done].
  destruct (Z.leb_spec (Z.of_nat (length (write_unsigned (Z.of_nat (length name))))) 5); [|done].
  cbn in H.
  assert (Hl : Z.of_nat (length (write_unsigned (Z.of_nat (length name)))) + Z.of_nat (length name)
    = Z.of_nat (length content)) by (unfold content; rewrite length_app; lia).
  rewrite Hl in H. unfold WN.subsection_header, encode_usize, encode_str, encode_usize in H.
  destruct (Z.leb_spec (Z.of_nat (length content)) (2 ^ 32 - 1)); [|done].
  rewrite (proj2 (Z.leb_le _ _)) in H by done. cbn in H. injection H as <-. split; [done|lia].
Qed.

Definition subsection_written (f : WasmFeatures) (n : Name) (names names' : WN.NameSection) : Prop :=
  exists v bs, name_view n = Ok v /\ names' = names ++ bs /\ bs <> []
    /\ reads_ex f (subsection_read (A := Name)) bs (fun n' => name_view n' = Ok v).

Lemma direct_written f br n id sec names names' :
  wf_reader br -> features br = f -> section_new br = Ok sec -> direct_map n = Some (id, sec) ->
  parse_custom_name_subsection (T := RoundtripReencoder) n names = ROk names' ->
  subsection_written f n names names'.
Proof.
  intros Hwf Hf Hsec Hd Hp. destruct (direct_map_parse n id sec names Hd) as (E & Hid & Hv & Hmk).
  rewrite E in Hp. destruct (name_map sec (fun i => i)) as [s|e|] eqn:Em; [|done..].
  destruct (name_map_translated br sec s Hwf Hsec Em) as (xs & Hxs & Hin & Hn & Hr).
  destruct (push_map_bytes id names s names' Hin Hp) as [-> Hl].
  eexists _, _. split; [by apply Hv|]. split; [done|]. split; [done|]. apply subsection_read_back; [done..|].
  intros br2 Hwf2 Hf2 E2. destruct (Hmk br2) as (mk & Ek & Hk). rewrite Ek. unfold name_map_of.
  destruct (content_read_back f br2 _ (bytes s) (eq xs) Hwf2 Hf2 Hin) as (sec2 & ys & -> & Hc & <-);
    [|done|].
  { rewrite Hn, Nat2Z.id. apply (reads_reads_ex f _ _ xs (eq xs)); [by subst f|done]. }
  eexists. split; [done|].
  by apply (direct_map_parse _ _ _ names (Hk sec2)).
Qed.

Lemma equiv_views xs ys vs :
  Forall2 indirect_equiv xs ys -> indirect_views xs = Ok vs -> indirect_views ys = Ok vs.
Proof.
  intros H. revert vs. induction H as [|x y xs ys (v & Hx & Hy) _ IH]; intros vs; [done|].
  cbn. rewrite Hx, Hy. cbn. destruct (indirect_views xs) as [ws|e|]; [|done..].
  cbn. by rewrite (IH ws eq_refl).
Qed.

Lemma checked_views (xs : list IndirectNaming) u :
  items_check xs = Ok u -> exists vs, indirect_views xs = Ok vs.
Proof.
  induction xs as [|x xs IH]; [by exists []|]. cbn -[indirect_view]. intros H.
  unfold indirect_check in H. unfold indirect_view at 1.
  destruct (section_collect (indirect_names x)); [|done..]. destruct (IH H) as [vs Hvs].
  cbn. rewrite Hvs. by eexists.
Qed.

Lemma indirect_written f br n id sec names names' :
  wf_reader br -> features br = f -> section_new br = Ok sec -> indirect_map n = Some (id, sec) ->
  parse_custom_name_subsection (T := RoundtripReencoder) n names = ROk names' ->
  subsection_written f n names names'.
Proof.
  intros Hwf Hf Hsec Hd Hp. destruct (indirect_map_parse n id sec names Hd) as (E & Hid & Hv & Hmk).
  rewrite E in Hp. destruct (indirect_name_map sec (fun i => i)) as [s|e|] eqn:Em; [|done..].
  unfold indirect_name_map, WN.IndirectNameMap in Em.
  change (append_indirect (fun i => i)) with (parse_item (A := IndirectNaming)) in Em.
  destruct (translate_section (A := IndirectNaming) br sec s Hwf Hsec Em) as (xs & Hxs & Hn & Hin & Hr & u & Hu).
  destruct (push_map_bytes id names s names' Hin Hp) as [-> Hl].
  destruct (checked_views xs u Hu) as [vs Hvs].
  eexists _, _. split; [by apply (Hv xs vs)|]. split; [done|]. split; [done|]. apply subsection_read_back; [done..|].
  intros br2 Hwf2 Hf2 E2. destruct (Hmk br2) as (mk & Ek & Hk). rewrite Ek. unfold name_map_of.
  rewrite Hf in Hr. destruct (content_read_back f br2 _ (bytes s) (Forall2 indirect_equiv xs) Hwf2 Hf2 Hin)
    as (sec2 & ys & -> & Hc & Heq); [by rewrite Hn, Nat2Z.id|done|].
  eexists. split; [done|].
  apply (indirect_map_parse _ _ _ names (Hk sec2)) with ys; [done|by apply (equiv_views xs)].
Qed.

Lemma read_string_inv r s r' :
  wf_reader r -> read_string r = (Ok s, r') ->
  str_wf (mkStr s) /\ wf_reader r' /\ features r' = features r.
Proof.
  intros Hwf Hr. destruct (wp_read_string _ r (range_env r Hwf) 0 (fun s _ => str_wf (mkStr s))
    ltac:(done) (Nat.le_0_l _)) as (k & Hk & E & H). rewrite advance_0, Hr in *. cbn in E, H. subst r'.
  split_and!; [done|apply wf_advance; [done|lia]|done].
Qed.

(** Whatever the kind of the subsection. *)
Lemma written_subsection f id br n names names' :
  0 <= id < 128 -> wf_reader br -> features br = f -> Z.of_nat (length (remaining_buffer br)) < 2 ^ 32 ->
  name_from_reader id br = Ok n ->
  parse_custom_name_subsection (T := RoundtripReencoder) n names = ROk names' ->
  subsection_written f n names names'.
Proof.
  intros Hid Hwf Hf Hl Hn Hp.
  destruct (name_from_reader_inv id br n Hn)
    as [(name & rg & r' & -> & Hr)|[(sec & Hsec & [Hd|Hd])|(rg & -> & Hun)]].
  - cbn in Hp. destruct (WN.module name names) as [names1|] eqn:Em; [|done]. injection Hp as ->.
    destruct (module_name_bytes name names names' Em) as [-> Hl2].
    destruct (read_string_inv br name r' Hwf Hr) as [Hs _].
    eexists _, _. split; [done|]. split; [done|]. split; [done|].
    apply subsection_read_back; [lia|done|]. by apply module_name_read_back.
  - by eapply direct_written.
  - by eapply indirect_written.
  - cbn in Hp. unfold WN.raw, encode_bytes, encode_usize in Hp.
    rewrite (proj2 (Z.leb_le _ _)) in Hp by lia. cbn in Hp. injection Hp as <-.
    eexists _, _. split; [done|]. split; [done|]. split; [done|]. apply subsection_read_back; [done..|].
    intros br2 _ _ <-. destruct (Hun br2) as [rg2 ->]. by eexists.
Qed.

(** ** All subsections *)

Lemma local_read_u7 : local 1 read_u7.
Proof.
  apply local_bind_l; [apply local_u8|]. intros b. case_match; [apply local_fail_prev|apply local_ret].
Qed.

Lemma read_u7_inv r id r' : wf_reader r -> read_u7 r = (Ok id, r') -> 0 <= id < 128.
Proof.
  intros Hwf. unfold read_u7. rewrite ST_bind_eq. destruct (remaining_buffer r) as [|b rest] eqn:E.
  { by rewrite read_u8_nil by (done || apply Hwf). }
  rewrite (read_u8_cons r b rest) by (done || apply Hwf).
  destruct (wf_advance_cons r b rest Hwf E) as [_ Hb]. rewrite cont_bit by done.
  destruct (Z.ltb_spec b 128); [|done]. intros [= <- _]. unfold is_byte in Hb. lia.
Qed.

Lemma subsection_read_inv {A} `{Subsection A} r (n : A) r' :
  wf_reader r -> subsection_read (A := A) r = (Ok n, r') ->
  (wf_reader r' /\ features r' = features r)
  /\ exists id br, 0 <= id < 128 /\ wf_reader br /\ features br = features r
    /\ Z.of_nat (length (remaining_buffer br)) < 2 ^ 32 /\ subsection_from_reader id br = Ok n.
Proof.
  intros Hwf. unfold subsection_read. destruct (read_u7 r) as [[id|e|] r1] eqn:Eu; [|done..].
  pose proof (read_u7_inv r id r1 Hwf Eu) as Hid.
  pose proof (local_reader_wf 1 _ r id r1 local_read_u7 Hwf Eu) as Hwf1.
  destruct (local_read_u7 r id r1 Hwf Eu) as (b1 & _ & _ & -> & _).
  destruct (read_reader _) as [[br|e|] r2] eqn:Er; [|done..].
  destruct (read_reader_inv _ br r2 Hwf1 Er) as (Hwf2 & Hf2 & Hl2).
  destruct (local_read_reader _ br r2 Hwf1 Er) as (b2 & _ & Eb2 & -> & _).
  intros [= Hn <-]. split; [split; [|done]|by exists id, br].
  apply (advance_app _ b2 _ Hwf1 Eb2).
Qed.

Lemma names_written fuel r ret ns :
  wf_reader r -> name_section_loop (T := RoundtripReencoder) fuel r ret = ROk ns ->
  exists vs bs, names_view fuel r = Ok vs /\ ns = ret ++ bs
    /\ forall r2 fuel2, wf_reader r2 -> features r2 = features r -> remaining_buffer r2 = bs ->
       (length bs < fuel2)%nat -> names_view fuel2 r2 = Ok vs.
Proof.
  revert r ret. induction fuel as [|fuel IH]; intros r ret Hwf Hs; [done|].
  cbn [name_section_loop names_view] in *. unfold subsections_next in *. destruct (eof r).
  { injection Hs as <-. exists [], []. rewrite app_nil_r. split_and!; [done..|].
    intros r2 fuel2 Hwf2 _ E Hl. destruct fuel2; [lia|]. cbn [names_view]. unfold subsections_next.
    rewrite remaining_nil_eof by done. by rewrite bool_decide_eq_true_2. }
  destruct (subsection_read r) as [[n|e|] r'] eqn:Er; [|done..]. cbn [from_result] in Hs.
  destruct (subsection_read_inv r n r' Hwf Er) as ((Hwf' & Hf') & id & br & Hid & Hwfb & Hfb & Hlb & Hn).
  cbn in Hs. destruct (parse_custom_name_subsection n ret) as [ret'|e|] eqn:Ep; [|done..].
  destruct (written_subsection _ id br n ret ret' Hid Hwfb Hfb Hlb Hn Ep)
    as (v & b1 & Hv & -> & Hne & Hrd).
  destruct (IH r' _ Hwf' Hs) as (vs & b2 & Hvs & -> & Hback). rewrite Hf' in Hback.
  exists (v :: vs), (b1 ++ b2). cbn. rewrite Hv. cbn. rewrite Hvs. split_and!; [done|by rewrite app_assoc|].
  intros r2 fuel2 Hwf2 Hf2 E2 Hl. destruct fuel2 as [|fuel2]; [lia|]. cbn [names_view].
  unfold subsections_next. rewrite remaining_nil_eof by done.
  rewrite bool_decide_eq_false_2 by (rewrite E2; by destruct b1).
  destruct (Hrd r2 b2 Hwf2 Hf2 E2) as (n2 & -> & Hv2). destruct (advance_app r2 b1 b2 Hwf2 E2) as [Hwf3 E3].
  rewrite length_app in Hl. destruct b1; [done|]. cbn in Hl. cbn [result_bind]. rewrite Hv2. cbn [result_bind].
  rewrite (Hback _ fuel2 Hwf3); [done|done|done|lia].
Qed.
End framing.
