(* ===== verification/ReencodeModule.v ===== *)
(** Translation of a whole core module, [parse_core_module] of
    [crates/wasm-encoder/src/reencode.rs]: every payload that [parse_all] yields
    is translated into a section of a new module.

    As in Reencode.v the index hooks are a parameter and the other methods of
    the trait are kept at their defaults. *)

From Stdlib Require Import ZArith Lia String.
From stdpp Require Import prelude.
From S2P Require Import Prelude Leb128 BinaryReader Encode Types EncTypes Operands.
From S2P Require Import Operators OperatorReader Instructions Reencode SectionReader.
From S2P Require Import CompositeTypes Items EncSections ReencodeSections Parser Names.

Local Open Scope Z_scope.

Section utils.
Context {T : Hooks.Reencode} {L : Leb128}.

(** ** Hooks *)

Definition intersperse_section_hook (module : WS.Module_) (after before : option WS.SectionId)
  : outcome WS.Module_ := ROk module.

(** The module that is written, with [last_section]. *)
Abbreviation ModuleState := (WS.Module_ * option WS.SectionId)%type.

Definition handle_intersperse_section_hook (next_section : option WS.SectionId)
  (st : ModuleState) : outcome ModuleState :=
  let after := snd st in
  module ← intersperse_section_hook (fst st) after next_section;
  mret (module, next_section).

Definition data_count (count : Z) : Z := count.
Definition start_section (start : Z) : Z := Hooks.function_index start.

(** [module.section(&section)]. *)
Definition push_section (id : WS.SectionId) (e : Enc) (st : ModuleState) : outcome ModuleState :=
  module ← unwrap_outcome (WS.module_section (WS.section_id id) e (fst st));
  mret (module, snd st).

(** ** Sections *)

(** [get_original_section]: the subtractions of [usize] panic when they
    underflow, a range out of [data] is an error. *)
Definition get_original_section (orig_offset : Z) (data : list Z) (range : Z * Z)
  : outcome (list Z) :=
  let (start, stop) := range in
  if (start <? orig_offset) || (stop <? orig_offset) then RPanic
  else
    let start := start - orig_offset in
    let stop := stop - orig_offset in
    if (start <=? stop) && (stop <=? Z.of_nat (length data)) then ROk (slice start stop data)
    else RErr InvalidCodeSectionSize.

(** A section of items: the hook, the items, the section. *)
Definition reencode_items (id : WS.SectionId)
  (parse_items : SectionBuilder -> SectionLimited -> outcome SectionBuilder)
  (section : SectionLimited) (st : ModuleState) : outcome ModuleState :=
  st ← handle_intersperse_section_hook (Some id) st;
  items ← parse_items SectionBuilder_new section;
  push_section id (encode_builder items) st.

Definition parse_custom_section (section : CustomSectionReader) (st : ModuleState)
  : outcome ModuleState :=
  match as_known section with
  | KC_Name name =>
      names ← custom_name_section name;
      push_section WS.SCustom (WN.encode_name_section names) st
  | KC_Other =>
      push_section WS.SCustom (WS.encode_custom_section (custom_name section) (custom_data section)) st
  end.

Definition parse_unknown_section (id : Z) (contents : list Z) (st : ModuleState)
  : outcome ModuleState :=
  module ← unwrap_outcome (WS.module_section id (WS.encode_raw_section contents) (fst st));
  mret (module, snd st).

(** The body of the loop over the payloads. *)
Definition parse_payload (orig_offset : Z) (data : list Z) (payload : Payload) (st : ModuleState)
  : outcome ModuleState :=
  match payload with
  | Version _ EModule _ => mret st
  | Version _ EComponent _ => RErr UnexpectedNonCoreModuleSection
  | TypeSection section => reencode_items WS.SType parse_type_section section st
  | ImportSection section => reencode_items WS.SImport parse_import_section section st
  | FunctionSection section => reencode_items WS.SFunction parse_function_section section st
  | TableSection section => reencode_items WS.STable parse_table_section section st
  | MemorySection section => reencode_items WS.SMemory parse_memory_section section st
  | TagSection section => reencode_items WS.STag parse_tag_section section st
  | GlobalSection section => reencode_items WS.SGlobal parse_global_section section st
  | ExportSection section => reencode_items WS.SExport parse_export_section section st
  | StartSection func _ =>
      st ← handle_intersperse_section_hook (Some WS.SStart) st;
      push_section WS.SStart (WS.encode_start_section (start_section func)) st
  | ElementSection section => reencode_items WS.SElement parse_element_section section st
  | DataCountSection count _ =>
      st ← handle_intersperse_section_hook (Some WS.SDataCount) st;
      push_section WS.SDataCount (WS.encode_data_count_section (data_count count)) st
  | DataSection section => reencode_items WS.SData parse_data_section section st
  | CodeSectionStart _ range _ =>
      st ← handle_intersperse_section_hook (Some WS.SCode) st;
      section ← get_original_section orig_offset data range;
      let reader := BinaryReader_new section (fst range) in
      section ← from_result (section_new reader);
      codes ← parse_code_section SectionBuilder_new section;
      push_section WS.SCode (encode_builder codes) st
  | CodeSectionEntry _ => mret st
  | ModuleSection _ _ | InstanceSection _ | CoreTypeSection _ | ComponentSection _ _
  | ComponentInstanceSection _ | ComponentAliasSection _ | ComponentTypeSection _
  | ComponentCanonicalSection _ | ComponentStartSection _ _ | ComponentImportSection _
  | ComponentExportSection _ => RErr UnexpectedNonCoreModuleSection
  | CustomSection section => parse_custom_section section st
  | End_ _ => handle_intersperse_section_hook None st
  | UnknownSection _ _ _ =>
      match as_section payload with
      | Some (id, range) =>
          section ← get_original_section orig_offset data range;
          parse_unknown_section id section st
      | None => RPanic
      end
  end.

(** The loop over [parse_all], which yields at most two payloads per byte and
    one more. *)
Fixpoint parse_payloads (fuel : nat) (orig_offset : Z) (data : list Z) (it : ParseAll)
  (st : ModuleState) : outcome ModuleState :=
  match fuel with
  | O => RPanic
  | S fuel' =>
      match parse_all_next it with
      | (None, _) => ROk st
      | (Some section, it') =>
          payload ← from_result section;
          st' ← parse_payload orig_offset data payload st;
          parse_payloads fuel' orig_offset data it' st'
      end
  end.

Definition parse_core_module (module : WS.Module_) (parser : Parser) (data : list Z)
  : outcome WS.Module_ :=
  let orig_offset := p_offset parser in
  '(module, _) ← parse_payloads (2 * length data + 2) orig_offset data (parse_all parser data)
                   (module, None);
  mret module.
End utils.
