(* ===== verification/ComponentReaders.v ===== *)
(** The items of the sections of a component, as [wasmparser] reads them:
    [crates/wasmparser/src/readers/component/*.rs].

    The types of components and instances contain declarations, which contain
    types; their readers call each other once per level, and each level takes at
    least one byte, which bounds the fuel. *)

From Stdlib Require Import ZArith Lia String.
From stdpp Require Import prelude.
From S2P Require Import Prelude Leb128 BinaryReader Types Operands SectionReader CompositeTypes Items Parser.

Local Open Scope Z_scope.

(** ** Limits, limits.rs *)

Definition MAX_WASM_MODULE_TYPE_DECLS : Z := 100000.
Definition MAX_WASM_COMPONENT_TYPE_DECLS : Z := 100000.
Definition MAX_WASM_INSTANCE_TYPE_DECLS : Z := 100000.
Definition MAX_WASM_RECORD_FIELDS : Z := 10000.
Definition MAX_WASM_VARIANT_CASES : Z := 10000.
Definition MAX_WASM_TUPLE_TYPES : Z := 10000.
Definition MAX_WASM_FLAG_NAMES : Z := 1000.
Definition MAX_WASM_ENUM_CASES : Z := 10000.
Definition MAX_WASM_INSTANTIATION_EXPORTS : Z := 100000.
Definition MAX_WASM_CANONICAL_OPTIONS : Z := 10.
Definition MAX_WASM_INSTANTIATION_ARGS : Z := 100000.

(** ** Value types, types.rs *)

Inductive PrimitiveValType :=
| PBool | PS8 | PU8 | PS16 | PU16 | PS32 | PU32 | PS64 | PU64 | PF32 | PF64 | PChar | PString.

Definition primitive_from_byte (byte : Z) : option PrimitiveValType :=
  match byte with
  | 0x7f => Some PBool
  | 0x7e => Some PS8
  | 0x7d => Some PU8
  | 0x7c => Some PS16
  | 0x7b => Some PU16
  | 0x7a => Some PS32
  | 0x79 => Some PU32
  | 0x78 => Some PS64
  | 0x77 => Some PU64
  | 0x76 => Some PF32
  | 0x75 => Some PF64
  | 0x74 => Some PChar
  | 0x73 => Some PString
  | _ => None
  end.

Inductive ComponentValType :=
| CV_Primitive (ty : PrimitiveValType)
| CV_Type (index : Z).

(** The index is a signed number of 33 bits, cast to [u32]. *)
Definition from_reader_component_val_type : Reader ComponentValType :=
  b ← peek;
  match primitive_from_byte b with
  | Some ty => read_u8;; mret (CV_Primitive ty)
  | None => i ← read_var_s33; mret (CV_Type (wrap 32 i))
  end.
#[export] Instance FromReader_ComponentValType : FromReader ComponentValType := from_reader_component_val_type.

Definition from_reader_option_val_type : Reader (option ComponentValType) :=
  b ← read_u8;
  match b with
  | 0x0 => mret None
  | 0x1 => ty ← read; mret (Some ty)
  | x => invalid_leading_byte x "optional component value type"
  end.
#[export] Instance FromReader_option_val_type : FromReader (option ComponentValType) := from_reader_option_val_type.

(** ** Names and references, imports.rs and exports.rs *)

Inductive ComponentExternalKind :=
| CEK_Module | CEK_Func | CEK_Value | CEK_Type | CEK_Instance | CEK_Component.

(** [byte2.unwrap()] panics. *)
Definition component_external_kind_from_bytes (byte1 : Z) (byte2 : option Z) (offset : Z)
  : result ComponentExternalKind :=
  match byte1 with
  | 0x00 =>
      match byte2 with
      | None => Panic
      | Some 0x11 => Ok CEK_Module
      | Some x => Err (invalid_leading_byte_error x "component external kind" (offset + 1))
      end
  | 0x01 => Ok CEK_Func
  | 0x02 => Ok CEK_Value
  | 0x03 => Ok CEK_Type
  | 0x04 => Ok CEK_Component
  | 0x05 => Ok CEK_Instance
  | x => Err (invalid_leading_byte_error x "component external kind" offset)
  end.

(** The bytes of a sort: a second one after zero. *)
Definition read_sort : Reader (Z * option Z) :=
  byte1 ← read_u8;
  if byte1 =? 0x00 then byte2 ← read_u8; mret (byte1, Some byte2) else mret (byte1, None).

Definition from_reader_component_external_kind : Reader ComponentExternalKind :=
  offset ← gets original_position;
  '(byte1, byte2) ← read_sort;
  lift_result (component_external_kind_from_bytes byte1 byte2 offset).
#[export] Instance FromReader_ComponentExternalKind : FromReader ComponentExternalKind :=
  from_reader_component_external_kind.

Record ComponentExportName := mkExportName { export_name_str : Str }.
Record ComponentImportName := mkImportName { import_name_str : Str }.

Definition from_reader_component_export_name : Reader ComponentExportName :=
  b ← read_u8;
  match b with
  | 0x00 | 0x01 => s ← read_string; mret (mkExportName (mkStr s))
  | x => invalid_leading_byte x "export name"
  end.
#[export] Instance FromReader_ComponentExportName : FromReader ComponentExportName :=
  from_reader_component_export_name.

Definition from_reader_component_import_name : Reader ComponentImportName :=
  b ← read_u8;
  match b with
  | 0x00 | 0x01 => s ← read_string; mret (mkImportName (mkStr s))
  | x => invalid_leading_byte x "import name"
  end.
#[export] Instance FromReader_ComponentImportName : FromReader ComponentImportName :=
  from_reader_component_import_name.

Inductive TypeBounds := TB_Eq (index : Z) | TB_SubResource.

Definition from_reader_type_bounds : Reader TypeBounds :=
  b ← read_u8;
  match b with
  | 0x00 => i ← read; mret (TB_Eq i)
  | 0x01 => mret TB_SubResource
  | x => invalid_leading_byte x "type bound"
  end.
#[export] Instance FromReader_TypeBounds : FromReader TypeBounds := from_reader_type_bounds.

Inductive ComponentTypeRef :=
| CTR_Module (index : Z)
| CTR_Func (index : Z)
| CTR_Value (ty : ComponentValType)
| CTR_Type (bounds : TypeBounds)
| CTR_Instance (index : Z)
| CTR_Component (index : Z).

Definition type_ref_kind (t : ComponentTypeRef) : ComponentExternalKind :=
  match t with
  | CTR_Module _ => CEK_Module
  | CTR_Func _ => CEK_Func
  | CTR_Value _ => CEK_Value
  | CTR_Type _ => CEK_Type
  | CTR_Instance _ => CEK_Instance
  | CTR_Component _ => CEK_Component
  end.

Definition from_reader_component_type_ref : Reader ComponentTypeRef :=
  kind ← read (A := ComponentExternalKind);
  match kind with
  | CEK_Module => i ← read; mret (CTR_Module i)
  | CEK_Func => i ← read; mret (CTR_Func i)
  | CEK_Value => t ← read; mret (CTR_Value t)
  | CEK_Type => b ← read; mret (CTR_Type b)
  | CEK_Instance => i ← read; mret (CTR_Instance i)
  | CEK_Component => i ← read; mret (CTR_Component i)
  end.
#[export] Instance FromReader_ComponentTypeRef : FromReader ComponentTypeRef := from_reader_component_type_ref.

Record ComponentImport := mkComponentImport { ci_name : ComponentImportName; ci_ty : ComponentTypeRef }.

Definition from_reader_component_import : Reader ComponentImport :=
  name ← read;
  ty ← read;
  mret (mkComponentImport name ty).
#[export] Instance FromReader_ComponentImport : FromReader ComponentImport := from_reader_component_import.

Record ComponentExport := mkComponentExport {
  ce_name : ComponentExportName;
  ce_kind : ComponentExternalKind;
  ce_index : Z;
  ce_ty : option ComponentTypeRef;
}.

Definition from_reader_component_export : Reader ComponentExport :=
  name ← read;
  kind ← read;
  index ← read;
  b ← read_u8;
  ty ← match b with
       | 0x00 => mret None
       | 0x01 => ty ← read; mret (Some ty)
       | other => invalid_leading_byte other "optional component export type"
       end;
  mret (mkComponentExport name kind index ty).
#[export] Instance FromReader_ComponentExport : FromReader ComponentExport := from_reader_component_export.

(** ** Aliases, aliases.rs *)

Inductive ComponentOuterAliasKind := OAK_CoreModule | OAK_CoreType | OAK_Type | OAK_Component.

Inductive ComponentAlias :=
| CA_InstanceExport (kind : ComponentExternalKind) (instance_index : Z) (name : Str)
| CA_CoreInstanceExport (kind : ExternalKind) (instance_index : Z) (name : Str)
| CA_Outer (kind : ComponentOuterAliasKind) (count index : Z).

Definition component_outer_alias_kind_from_bytes (byte1 : Z) (byte2 : option Z) (offset : Z)
  : result ComponentOuterAliasKind :=
  match byte1 with
  | 0x00 =>
      match byte2 with
      | None => Panic
      | Some 0x10 => Ok OAK_CoreType
      | Some 0x11 => Ok OAK_CoreModule
      | Some x => Err (invalid_leading_byte_error x "component outer alias kind" (offset + 1))
      end
  | 0x03 => Ok OAK_Type
  | 0x04 => Ok OAK_Component
  | x => Err (invalid_leading_byte_error x "component outer alias kind" offset)
  end.

Definition core_instance_export_kind (byte1 : Z) (byte2 : option Z) (offset : Z) : result ExternalKind :=
  match byte2 with
  | Some byte2 => external_kind_from_byte byte2 offset
  | None => Err (invalid_leading_byte_error byte1 "core instance export kind" offset)
  end.

Definition from_reader_component_alias : Reader ComponentAlias :=
  offset ← gets original_position;
  '(byte1, byte2) ← read_sort;
  b ← read_u8;
  match b with
  | 0x00 =>
      kind ← lift_result (component_external_kind_from_bytes byte1 byte2 offset);
      instance_index ← read_var_u32;
      name ← read_string;
      mret (CA_InstanceExport kind instance_index (mkStr name))
  | 0x01 =>
      kind ← lift_result (core_instance_export_kind byte1 byte2 offset);
      instance_index ← read_var_u32;
      name ← read_string;
      mret (CA_CoreInstanceExport kind instance_index (mkStr name))
  | 0x02 =>
      kind ← lift_result (component_outer_alias_kind_from_bytes byte1 byte2 offset);
      count ← read_var_u32;
      index ← read_var_u32;
      mret (CA_Outer kind count index)
  | x => invalid_leading_byte x "alias"
  end.
#[export] Instance FromReader_ComponentAlias : FromReader ComponentAlias := from_reader_component_alias.

(** ** Core types, types.rs *)

Inductive OuterAliasKind := OuterType.

Inductive ModuleTypeDeclaration :=
| MTD_Type (ty : RecGroup)
| MTD_Export (name : Str) (ty : TypeRef)
| MTD_OuterAlias (kind : OuterAliasKind) (count index : Z)
| MTD_Import (import : Import).

Definition from_reader_module_type_declaration : Reader ModuleTypeDeclaration :=
  b ← read_u8;
  match b with
  | 0x00 => i ← read; mret (MTD_Import i)
  | 0x01 => g ← read; mret (MTD_Type g)
  | 0x02 =>
      k ← read_u8;
      kind ← match k with
             | 0x10 => mret OuterType
             | x => invalid_leading_byte x "outer alias kind"
             end;
      t ← read_u8;
      match t with
      | 0x01 => count ← read; index ← read; mret (MTD_OuterAlias kind count index)
      | x => invalid_leading_byte x "outer alias target"
      end
  | 0x03 => name ← read; ty ← read; mret (MTD_Export name ty)
  | x => invalid_leading_byte x "type definition"
  end.
#[export] Instance FromReader_ModuleTypeDeclaration : FromReader ModuleTypeDeclaration :=
  from_reader_module_type_declaration.

Inductive CoreType :=
| CoreRec (group : RecGroup)
| CoreModule (decls : list ModuleTypeDeclaration).

(** [0x50] is a module type; a non-final [sub] type has the prefix [0x00]. *)
Definition from_reader_core_type : Reader CoreType :=
  b ← peek;
  match b with
  | 0x00 =>
      read_u8;;
      x ← peek;
      if negb (x =? 0x50) then invalid_leading_byte x "non-final sub type"
      else g ← read; mret (CoreRec g)
  | 0x50 =>
      read_u8;;
      decls ← read_iter MAX_WASM_MODULE_TYPE_DECLS "module type declaration";
      mret (CoreModule decls)
  | _ => g ← read; mret (CoreRec g)
  end.
#[export] Instance FromReader_CoreType : FromReader CoreType := from_reader_core_type.

(** ** Defined types and functions, types.rs *)

Record VariantCase := mkVariantCase {
  case_name : Str;
  case_ty : option ComponentValType;
  case_refines : option Z;
}.

Definition from_reader_variant_case : Reader VariantCase :=
  name ← read;
  ty ← read;
  b ← read_u8;
  refines ← match b with
            | 0x0 => mret None
            | 0x1 => i ← read_var_u32; mret (Some i)
            | x => invalid_leading_byte x "variant case refines"
            end;
  mret (mkVariantCase name ty refines).
#[export] Instance FromReader_VariantCase : FromReader VariantCase := from_reader_variant_case.

Inductive ComponentDefinedType :=
| CD_Primitive (ty : PrimitiveValType)
| CD_Record (fields : list (Str * ComponentValType))
| CD_Variant (cases : list VariantCase)
| CD_List (ty : ComponentValType)
| CD_Tuple (tys : list ComponentValType)
| CD_Flags (names : list Str)
| CD_Enum (names : list Str)
| CD_Option (ty : ComponentValType)
| CD_Result (ok err : option ComponentValType)
| CD_Own (index : Z)
| CD_Borrow (index : Z)
| CD_Future (ty : option ComponentValType)
| CD_Stream (ty : ComponentValType)
| CD_ErrorContext.

Definition read_component_defined_type (byte : Z) : Reader ComponentDefinedType :=
  match byte with
  | 0x72 => l ← read_iter MAX_WASM_RECORD_FIELDS "record field"; mret (CD_Record l)
  | 0x71 => l ← read_iter MAX_WASM_VARIANT_CASES "variant cases"; mret (CD_Variant l)
  | 0x70 => t ← read; mret (CD_List t)
  | 0x6f => l ← read_iter MAX_WASM_TUPLE_TYPES "tuple types"; mret (CD_Tuple l)
  | 0x6e => l ← read_iter MAX_WASM_FLAG_NAMES "flag names"; mret (CD_Flags l)
  | 0x6d => l ← read_iter MAX_WASM_ENUM_CASES "enum cases"; mret (CD_Enum l)
  | 0x6b => t ← read; mret (CD_Option t)
  | 0x6a => ok ← read; err ← read; mret (CD_Result ok err)
  | 0x69 => i ← read; mret (CD_Own i)
  | 0x68 => i ← read; mret (CD_Borrow i)
  | 0x67 => t ← read; mret (CD_Future t)
  | 0x66 => t ← read; mret (CD_Stream t)
  | 0x65 => mret CD_ErrorContext
  | x => invalid_leading_byte x "component defined type"
  end.

Inductive ComponentFuncResult :=
| FR_Unnamed (ty : ComponentValType)
| FR_Named (tys : list (Str * ComponentValType)).

Definition from_reader_component_func_result : Reader ComponentFuncResult :=
  b ← read_u8;
  match b with
  | 0x00 => t ← read; mret (FR_Unnamed t)
  | 0x01 => l ← read_iter MAX_WASM_FUNCTION_RETURNS "component function results"; mret (FR_Named l)
  | x => invalid_leading_byte x "component function results"
  end.
#[export] Instance FromReader_ComponentFuncResult : FromReader ComponentFuncResult :=
  from_reader_component_func_result.

Record ComponentFuncType := mkComponentFuncType {
  cf_params : list (Str * ComponentValType);
  cf_results : ComponentFuncResult;
}.

(** ** Component types, types.rs *)

Inductive ComponentType : Type :=
| CT_Defined (ty : ComponentDefinedType)
| CT_Func (ty : ComponentFuncType)
| CT_Component (decls : list ComponentTypeDeclaration)
| CT_Instance (decls : list InstanceTypeDeclaration)
| CT_Resource (rep : ValType) (dtor : option Z)
with ComponentTypeDeclaration : Type :=
| CTD_CoreType (ty : CoreType)
| CTD_Type (ty : ComponentType)
| CTD_Alias (alias : ComponentAlias)
| CTD_Export (name : ComponentExportName) (ty : ComponentTypeRef)
| CTD_Import (import : ComponentImport)
with InstanceTypeDeclaration : Type :=
| ITD_CoreType (ty : CoreType)
| ITD_Type (ty : ComponentType)
| ITD_Alias (alias : ComponentAlias)
| ITD_Export (name : ComponentExportName) (ty : ComponentTypeRef).

(** The readers of declarations, given the reader of types. *)
Definition read_instance_type_declaration (read_type : Reader ComponentType) : Reader InstanceTypeDeclaration :=
  b ← read_u8;
  match b with
  | 0x00 => t ← read; mret (ITD_CoreType t)
  | 0x01 => t ← read_type; mret (ITD_Type t)
  | 0x02 => a ← read; mret (ITD_Alias a)
  | 0x04 => name ← read; ty ← read; mret (ITD_Export name ty)
  | x => invalid_leading_byte x "component or instance type declaration"
  end.

Definition declaration_of_instance (d : InstanceTypeDeclaration) : ComponentTypeDeclaration :=
  match d with
  | ITD_CoreType t => CTD_CoreType t
  | ITD_Type t => CTD_Type t
  | ITD_Alias a => CTD_Alias a
  | ITD_Export name ty => CTD_Export name ty
  end.

Definition read_component_type_declaration (read_type : Reader ComponentType) : Reader ComponentTypeDeclaration :=
  b ← peek;
  if b =? 0x03 then read_u8;; i ← read; mret (CTD_Import i)
  else d ← read_instance_type_declaration read_type; mret (declaration_of_instance d).

(** A type, with the readers of the declarations. *)
Definition read_component_type (read_component_decl : Reader ComponentTypeDeclaration)
  (read_instance_decl : Reader InstanceTypeDeclaration) : Reader ComponentType :=
  b ← read_u8;
  match b with
  | 0x3f =>
      rep ← read;
      d ← read_u8;
      dtor ← match d with
             | 0x00 => mret None
             | 0x01 => i ← read; mret (Some i)
             | b => invalid_leading_byte b "resource destructor"
             end;
      mret (CT_Resource rep dtor)
  | 0x40 =>
      params ← read_iter MAX_WASM_FUNCTION_PARAMS "component function parameters";
      results ← read;
      mret (CT_Func (mkComponentFuncType params results))
  | 0x41 =>
      decls ← read_iter (H := read_component_decl) MAX_WASM_COMPONENT_TYPE_DECLS "component type declaration";
      mret (CT_Component decls)
  | 0x42 =>
      decls ← read_iter (H := read_instance_decl) MAX_WASM_INSTANCE_TYPE_DECLS "instance type declaration";
      mret (CT_Instance decls)
  | x =>
      match primitive_from_byte x with
      | Some ty => mret (CT_Defined (CD_Primitive ty))
      | None => t ← read_component_defined_type x; mret (CT_Defined t)
      end
  end.

Fixpoint component_type_reader (fuel : nat) : Reader ComponentType :=
  match fuel with
  | O => fun r => (Panic, r)
  | S fuel' =>
      read_component_type (read_component_type_declaration (component_type_reader fuel'))
        (read_instance_type_declaration (component_type_reader fuel'))
  end.

Definition from_reader_component_type : Reader ComponentType := fun r =>
  component_type_reader (S (length (remaining_buffer r))) r.
#[export] Instance FromReader_ComponentType : FromReader ComponentType := from_reader_component_type.

Definition from_reader_component_type_declaration : Reader ComponentTypeDeclaration :=
  read_component_type_declaration from_reader_component_type.

Definition from_reader_instance_type_declaration : Reader InstanceTypeDeclaration :=
  read_instance_type_declaration from_reader_component_type.

(** ** Instances, instances.rs *)

Inductive InstantiationArgKind := IAK_Instance.

Definition from_reader_instantiation_arg_kind : Reader InstantiationArgKind :=
  b ← read_u8;
  match b with
  | 0x12 => mret IAK_Instance
  | x => invalid_leading_byte x "instantiation arg kind"
  end.
#[export] Instance FromReader_InstantiationArgKind : FromReader InstantiationArgKind :=
  from_reader_instantiation_arg_kind.

Record InstantiationArg := mkInstantiationArg { arg_name : Str; arg_kind : InstantiationArgKind; arg_index : Z }.

Definition from_reader_instantiation_arg : Reader InstantiationArg :=
  name ← read;
  kind ← read;
  index ← read;
  mret (mkInstantiationArg name kind index).
#[export] Instance FromReader_InstantiationArg : FromReader InstantiationArg := from_reader_instantiation_arg.

Inductive Instance_ :=
| I_Instantiate (module_index : Z) (args : list InstantiationArg)
| I_FromExports (exports : list Export).

Definition from_reader_instance : Reader Instance_ :=
  b ← read_u8;
  match b with
  | 0x00 =>
      module_index ← read_var_u32;
      args ← read_iter MAX_WASM_INSTANTIATION_ARGS "core instantiation arguments";
      mret (I_Instantiate module_index args)
  | 0x01 =>
      exports ← read_iter MAX_WASM_INSTANTIATION_ARGS "core instantiation arguments";
      mret (I_FromExports exports)
  | x => invalid_leading_byte x "core instance"
  end.
#[export] Instance FromReader_Instance : FromReader Instance_ := from_reader_instance.

Record ComponentInstantiationArg := mkComponentInstantiationArg {
  carg_name : Str;
  carg_kind : ComponentExternalKind;
  carg_index : Z;
}.

Definition from_reader_component_instantiation_arg : Reader ComponentInstantiationArg :=
  name ← read;
  kind ← read;
  index ← read;
  mret (mkComponentInstantiationArg name kind index).
#[export] Instance FromReader_ComponentInstantiationArg : FromReader ComponentInstantiationArg :=
  from_reader_component_instantiation_arg.

Inductive ComponentInstance :=
| CI_Instantiate (component_index : Z) (args : list ComponentInstantiationArg)
| CI_FromExports (exports : list ComponentExport).

(** An export of an instance has no type. *)
Definition read_untyped_export : Reader ComponentExport :=
  name ← read;
  kind ← read;
  index ← read;
  mret (mkComponentExport name kind index None).

Definition from_reader_component_instance : Reader ComponentInstance :=
  b ← read_u8;
  match b with
  | 0x00 =>
      component_index ← read_var_u32;
      args ← read_iter MAX_WASM_INSTANTIATION_ARGS "instantiation arguments";
      mret (CI_Instantiate component_index args)
  | 0x01 =>
      size ← read_size MAX_WASM_INSTANTIATION_EXPORTS "instantiation exports";
      exports ← read_n (H := read_untyped_export) (Z.to_nat size);
      mret (CI_FromExports exports)
  | x => invalid_leading_byte x "instance"
  end.
#[export] Instance FromReader_ComponentInstance : FromReader ComponentInstance := from_reader_component_instance.

(** ** Canonical functions, canonicals.rs *)

Inductive CanonicalOption :=
| CO_UTF8
| CO_UTF16
| CO_CompactUTF16
| CO_Memory (index : Z)
| CO_Realloc (index : Z)
| CO_PostReturn (index : Z)
| CO_Async
| CO_Callback (index : Z).

Definition from_reader_canonical_option : Reader CanonicalOption :=
  b ← read_u8;
  match b with
  | 0x00 => mret CO_UTF8
  | 0x01 => mret CO_UTF16
  | 0x02 => mret CO_CompactUTF16
  | 0x03 => i ← read_var_u32; mret (CO_Memory i)
  | 0x04 => i ← read_var_u32; mret (CO_Realloc i)
  | 0x05 => i ← read_var_u32; mret (CO_PostReturn i)
  | 0x06 => mret CO_Async
  | 0x07 => i ← read_var_u32; mret (CO_Callback i)
  | x => invalid_leading_byte x "canonical option"
  end.
#[export] Instance FromReader_CanonicalOption : FromReader CanonicalOption := from_reader_canonical_option.

Inductive CanonicalFunction :=
| CF_Lift (core_func_index type_index : Z) (options : list CanonicalOption)
| CF_Lower (func_index : Z) (options : list CanonicalOption)
| CF_ResourceNew (resource : Z)
| CF_ResourceDrop (resource : Z)
| CF_ResourceRep (resource : Z)
| CF_ThreadSpawn (func_ty_index : Z)
| CF_ThreadHwConcurrency
| CF_TaskBackpressure
| CF_TaskReturn (type_index : Z)
| CF_TaskWait (async_ : bool) (memory : Z)
| CF_TaskPoll (async_ : bool) (memory : Z)
| CF_TaskYield (async_ : bool)
| CF_SubtaskDrop
| CF_StreamNew (ty : Z)
| CF_StreamRead (ty : Z) (options : list CanonicalOption)
| CF_StreamWrite (ty : Z) (options : list CanonicalOption)
| CF_StreamCancelRead (ty : Z) (async_ : bool)
| CF_StreamCancelWrite (ty : Z) (async_ : bool)
| CF_StreamCloseReadable (ty : Z)
| CF_StreamCloseWritable (ty : Z)
| CF_FutureNew (ty : Z)
| CF_FutureRead (ty : Z) (options : list CanonicalOption)
| CF_FutureWrite (ty : Z) (options : list CanonicalOption)
| CF_FutureCancelRead (ty : Z) (async_ : bool)
| CF_FutureCancelWrite (ty : Z) (async_ : bool)
| CF_FutureCloseReadable (ty : Z)
| CF_FutureCloseWritable (ty : Z)
| CF_ErrorContextNew (options : list CanonicalOption)
| CF_ErrorContextDebugMessage (options : list CanonicalOption)
| CF_ErrorContextDrop.

Definition read_options : Reader (list CanonicalOption) := read_iter MAX_WASM_CANONICAL_OPTIONS "canonical options".

Definition from_reader_canonical_function : Reader CanonicalFunction :=
  b ← read_u8;
  match b with
  | 0x00 =>
      b ← read_u8;
      match b with
      | 0x00 =>
          core_func_index ← read_var_u32;
          options ← read_options;
          type_index ← read_var_u32;
          mret (CF_Lift core_func_index type_index options)
      | x => invalid_leading_byte x "canonical function lift"
      end
  | 0x01 =>
      b ← read_u8;
      match b with
      | 0x00 => func_index ← read_var_u32; options ← read_options; mret (CF_Lower func_index options)
      | x => invalid_leading_byte x "canonical function lower"
      end
  | 0x02 => i ← read; mret (CF_ResourceNew i)
  | 0x03 => i ← read; mret (CF_ResourceDrop i)
  | 0x04 => i ← read; mret (CF_ResourceRep i)
  | 0x05 => i ← read; mret (CF_ThreadSpawn i)
  | 0x06 => mret CF_ThreadHwConcurrency
  | 0x08 => mret CF_TaskBackpressure
  | 0x09 => i ← read; mret (CF_TaskReturn i)
  | 0x0a => a ← read; m ← read; mret (CF_TaskWait a m)
  | 0x0b => a ← read; m ← read; mret (CF_TaskPoll a m)
  | 0x0c => a ← read; mret (CF_TaskYield a)
  | 0x0d => mret CF_SubtaskDrop
  | 0x0e => i ← read; mret (CF_StreamNew i)
  | 0x0f => i ← read; options ← read_options; mret (CF_StreamRead i options)
  | 0x10 => i ← read; options ← read_options; mret (CF_StreamWrite i options)
  | 0x11 => i ← read; a ← read; mret (CF_StreamCancelRead i a)
  | 0x12 => i ← read; a ← read; mret (CF_StreamCancelWrite i a)
  | 0x13 => i ← read; mret (CF_StreamCloseReadable i)
  | 0x14 => i ← read; mret (CF_StreamCloseWritable i)
  | 0x15 => i ← read; mret (CF_FutureNew i)
  | 0x16 => i ← read; options ← read_options; mret (CF_FutureRead i options)
  | 0x17 => i ← read; options ← read_options; mret (CF_FutureWrite i options)
  | 0x18 => i ← read; a ← read; mret (CF_FutureCancelRead i a)
  | 0x19 => i ← read; a ← read; mret (CF_FutureCancelWrite i a)
  | 0x1a => i ← read; mret (CF_FutureCloseReadable i)
  | 0x1b => i ← read; mret (CF_FutureCloseWritable i)
  | 0x1c => options ← read_options; mret (CF_ErrorContextNew options)
  | 0x1d => options ← read_options; mret (CF_ErrorContextDebugMessage options)
  | 0x1e => mret CF_ErrorContextDrop
  | x => invalid_leading_byte x "canonical function"
  end.
#[export] Instance FromReader_CanonicalFunction : FromReader CanonicalFunction := from_reader_canonical_function.

(** ** Names, names.rs *)

Inductive ComponentName :=
| CN_Component (name : list Z) (name_range : Z * Z)
| CN_CoreFuncs (map : SectionLimited)
| CN_CoreGlobals (map : SectionLimited)
| CN_CoreMemories (map : SectionLimited)
| CN_CoreTables (map : SectionLimited)
| CN_CoreModules (map : SectionLimited)
| CN_CoreInstances (map : SectionLimited)
| CN_CoreTypes (map : SectionLimited)
| CN_Types (map : SectionLimited)
| CN_Instances (map : SectionLimited)
| CN_Components (map : SectionLimited)
| CN_Funcs (map : SectionLimited)
| CN_Values (map : SectionLimited)
| CN_Unknown (ty : Z) (data : list Z) (range : Z * Z).

(** The constructor that a sort selects; [None] for an unknown sort. *)
Definition component_name_ctor : Reader (option (SectionLimited -> ComponentName)) :=
  b ← read_u8;
  match b with
  | 0x00 =>
      b ← read_u8;
      mret match b with
           | 0x00 => Some CN_CoreFuncs
           | 0x01 => Some CN_CoreTables
           | 0x02 => Some CN_CoreMemories
           | 0x03 => Some CN_CoreGlobals
           | 0x10 => Some CN_CoreTypes
           | 0x11 => Some CN_CoreModules
           | 0x12 => Some CN_CoreInstances
           | _ => None
           end
  | 0x01 => mret (Some CN_Funcs)
  | 0x02 => mret (Some CN_Values)
  | 0x03 => mret (Some CN_Types)
  | 0x04 => mret (Some CN_Components)
  | 0x05 => mret (Some CN_Instances)
  | _ => mret None
  end.

Definition component_name_from_reader (id : Z) (reader : BinaryReader) : result ComponentName :=
  let data := remaining_buffer reader in
  let offset := original_position reader in
  let range := (offset, offset + Z.of_nat (length data)) in
  match id with
  | 0 =>
      match read_string reader with
      | (Ok name, reader') =>
          if negb (eof reader') then
            Err (err_new (lit "trailing data at the end of a name") (original_position reader'))
          else Ok (CN_Component name (offset, original_position reader'))
      | (Err e, _) => Err e
      | (Panic, _) => Panic
      end
  | 1 =>
      match component_name_ctor reader with
      | (Ok (Some ctor), reader') =>
          match section_new (shrink reader') with
          | Ok map => Ok (ctor map)
          | Err e => Err e
          | Panic => Panic
          end
      | (Ok None, _) => Ok (CN_Unknown 1 data range)
      | (Err e, _) => Err e
      | (Panic, _) => Panic
      end
  | ty => Ok (CN_Unknown ty data range)
  end.
#[export] Instance Subsection_ComponentName : Subsection ComponentName := component_name_from_reader.

(** [CustomSectionReader::as_known] for the custom section ["component-name"]. *)
Definition component_name_str : list Z :=
  [0x63; 0x6f; 0x6d; 0x70; 0x6f; 0x6e; 0x65; 0x6e; 0x74; 0x2d; 0x6e; 0x61; 0x6d; 0x65].

Definition as_component_name (c : CustomSectionReader) : option BinaryReader :=
  if bool_decide (custom_name c = component_name_str) then Some (shrink (custom_reader c)) else None.
