(* ===== verification/ComponentEncode.v ===== *)
(** The items of the sections of a component, as [wasm-encoder] writes them,
    [crates/wasm-encoder/src/component/*.rs], and their translation,
    [component_utils] of [crates/wasm-encoder/src/reencode/component.rs].

    As in Reencode.v the index hooks of the trait are a parameter and the other
    methods are kept at their defaults; [push_depth] and [pop_depth] do nothing.
    An encoder that borrows a sink is the bytes of the sink. *)

From Stdlib Require Import ZArith Lia String.
From stdpp Require Import prelude.
From S2P Require Import Prelude Leb128 BinaryReader Encode Types EncTypes Operands Operators Instructions Reencode.
From S2P Require Import SectionReader CompositeTypes Items EncSections ReencodeSections Parser Names ReencodeModule ComponentReaders.

Local Open Scope Z_scope.

Module WC.

(** ** Value types, types.rs *)

Inductive PrimitiveValType :=
| Bool | S8 | U8 | S16 | U16 | S32 | U32 | S64 | U64 | F32 | F64 | Char | String_.

Inductive ComponentValType := Primitive (ty : PrimitiveValType) | VType (index : Z).

Definition primitive_byte (ty : PrimitiveValType) : Z :=
  match ty with
  | Bool => 0x7f | S8 => 0x7e | U8 => 0x7d | S16 => 0x7c | U16 => 0x7b | S32 => 0x7a | U32 => 0x79
  | S64 => 0x78 | U64 => 0x77 | F32 => 0x76 | F64 => 0x75 | Char => 0x74 | String_ => 0x73
  end.

Definition encode_primitive_val_type (ty : PrimitiveValType) : Enc := push (primitive_byte ty).

(** ** Sorts, component.rs *)

Definition CORE_TYPE_SORT : Z := 0x10.
Definition CORE_MODULE_SORT : Z := 0x11.
Definition CORE_INSTANCE_SORT : Z := 0x12.
Definition CORE_SORT : Z := 0x00.
Definition FUNCTION_SORT : Z := 0x01.
Definition VALUE_SORT : Z := 0x02.
Definition TYPE_SORT : Z := 0x03.
Definition COMPONENT_SORT : Z := 0x04.
Definition INSTANCE_SORT : Z := 0x05.

Inductive ComponentExportKind := Module_ | Func | Value | Type_ | Instance_ | Component.

Definition encode_component_export_kind (k : ComponentExportKind) : Enc :=
  match k with
  | Module_ => push CORE_SORT +> push CORE_MODULE_SORT
  | Func => push FUNCTION_SORT
  | Value => push VALUE_SORT
  | Type_ => push TYPE_SORT
  | Instance_ => push INSTANCE_SORT
  | Component => push COMPONENT_SORT
  end.

Inductive ComponentOuterAliasKind := OCoreModule | OCoreType | OType | OComponent.

Definition encode_component_outer_alias_kind (k : ComponentOuterAliasKind) : Enc :=
  match k with
  | OCoreModule => push CORE_SORT +> push CORE_MODULE_SORT
  | OCoreType => push CORE_SORT +> push CORE_TYPE_SORT
  | OType => push TYPE_SORT
  | OComponent => push COMPONENT_SORT
  end.

Inductive TypeBounds := Eq_ (index : Z) | SubResource.

Inductive ComponentTypeRef :=
| RModule (index : Z)
| RFunc (index : Z)
| RValue (ty : ComponentValType)
| RType (bounds : TypeBounds)
| RInstance (index : Z)
| RComponent (index : Z).

Definition ref_kind (t : ComponentTypeRef) : ComponentExportKind :=
  match t with
  | RModule _ => Module_
  | RFunc _ => Func
  | RValue _ => Value
  | RType _ => Type_
  | RInstance _ => Instance_
  | RComponent _ => Component
  end.

Inductive Alias :=
| InstanceExport (instance : Z) (kind : ComponentExportKind) (name : list Z)
| CoreInstanceExport (instance : Z) (kind : WS.ExportKind) (name : list Z)
| Outer (kind : ComponentOuterAliasKind) (count index : Z).

Inductive CanonicalOption :=
| UTF8 | UTF16 | CompactUTF16 | Memory (index : Z) | Realloc (index : Z) | PostReturn (index : Z) | Async
| Callback (index : Z).

Inductive ModuleArg := ArgInstance (index : Z).

(** [self.num_added += 1] on [u32]. *)
Definition incr (n : Z) : option Z := if n =? 2 ^ 32 - 1 then None else Some (n + 1).

(** Appending to a sink. *)
Definition append (sink : list Z) (e : Enc) : option (list Z) := bs ← e; Some (sink ++ bs).

Section encoder.
Context {L : Leb128}.

(** The index is written as a signed number, not to be confused with a primitive. *)
Definition encode_component_val_type (t : ComponentValType) : Enc :=
  match t with
  | Primitive ty => encode_primitive_val_type ty
  | VType index => encode_i64 index
  end.

Definition encode_type_bounds (b : TypeBounds) : Enc :=
  match b with
  | Eq_ i => push 0x00 +> encode_u32 i
  | SubResource => push 0x01
  end.

Definition encode_component_type_ref (t : ComponentTypeRef) : Enc :=
  encode_component_export_kind (ref_kind t)
  +> match t with
     | RModule idx | RFunc idx | RInstance idx | RComponent idx => encode_u32 idx
     | RValue ty => encode_component_val_type ty
     | RType bounds => encode_type_bounds bounds
     end.

Definition encode_component_export_name (name : list Z) : Enc := push 0x00 +> encode_str name.
Definition encode_component_import_name (name : list Z) : Enc := push 0x00 +> encode_str name.

Definition encode_alias (a : Alias) : Enc :=
  match a with
  | InstanceExport instance kind name =>
      encode_component_export_kind kind +> push 0x00 +> encode_u32 instance +> encode_str name
  | CoreInstanceExport instance kind name =>
      push CORE_SORT +> WS.encode_export_kind kind +> push 0x01 +> encode_u32 instance +> encode_str name
  | Outer kind count index =>
      encode_component_outer_alias_kind kind +> push 0x02 +> encode_u32 count +> encode_u32 index
  end.

(** ** Defined types: [ComponentDefinedTypeEncoder] *)

Definition encode_named_type (f : list Z * ComponentValType) : Enc :=
  encode_str (fst f) +> encode_component_val_type (snd f).

Definition defined_primitive (ty : PrimitiveValType) : Enc := encode_primitive_val_type ty.
Definition defined_record (fields : list (list Z * ComponentValType)) : Enc :=
  push 0x72 +> encode_list encode_named_type fields.
Definition encode_case (c : list Z * option ComponentValType * option Z) : Enc :=
  let '(name, ty, refines) := c in
  encode_str name +> encode_option encode_component_val_type ty +> encode_option encode_u32 refines.
Definition defined_variant (cases : list (list Z * option ComponentValType * option Z)) : Enc :=
  push 0x71 +> encode_list encode_case cases.
Definition defined_list (ty : ComponentValType) : Enc := push 0x70 +> encode_component_val_type ty.
Definition defined_tuple (types : list ComponentValType) : Enc :=
  push 0x6F +> encode_list encode_component_val_type types.
Definition defined_flags (names : list (list Z)) : Enc := push 0x6E +> encode_list encode_str names.
Definition defined_enum_type (tags : list (list Z)) : Enc := push 0x6D +> encode_list encode_str tags.
Definition defined_option (ty : ComponentValType) : Enc := push 0x6B +> encode_component_val_type ty.
Definition defined_result (ok err : option ComponentValType) : Enc :=
  push 0x6A +> encode_option encode_component_val_type ok +> encode_option encode_component_val_type err.
Definition defined_own (idx : Z) : Enc := push 0x69 +> encode_u32 idx.
Definition defined_borrow (idx : Z) : Enc := push 0x68 +> encode_u32 idx.
Definition defined_future (payload : option ComponentValType) : Enc :=
  push 0x67 +> encode_option encode_component_val_type payload.
Definition defined_stream (payload : ComponentValType) : Enc := push 0x66 +> encode_component_val_type payload.
Definition defined_error_context : Enc := push 0x65.

(** ** Functions: [ComponentFuncTypeEncoder], with its assertions *)

Record ComponentFuncTypeEncoder := mkFuncEncoder {
  params_encoded : bool;
  results_encoded : bool;
  func_sink : list Z;
}.

Definition func_encoder_new (sink : list Z) : ComponentFuncTypeEncoder := mkFuncEncoder false false (sink ++ [0x40]).

Definition func_params (params : list (list Z * ComponentValType)) (f : ComponentFuncTypeEncoder)
  : option ComponentFuncTypeEncoder :=
  if params_encoded f then None
  else
    sink ← append (func_sink f) (encode_list encode_named_type params);
    Some (mkFuncEncoder true (results_encoded f) sink).

Definition func_result (ty : ComponentValType) (f : ComponentFuncTypeEncoder) : option ComponentFuncTypeEncoder :=
  if negb (params_encoded f) || results_encoded f then None
  else
    sink ← append (func_sink f) (push 0x00 +> encode_component_val_type ty);
    Some (mkFuncEncoder (params_encoded f) true sink).

Definition func_results (results : list (list Z * ComponentValType)) (f : ComponentFuncTypeEncoder)
  : option ComponentFuncTypeEncoder :=
  if negb (params_encoded f) || results_encoded f then None
  else
    sink ← append (func_sink f) (push 0x01 +> encode_list encode_named_type results);
    Some (mkFuncEncoder (params_encoded f) true sink).

Definition encode_resource (rep : WE.ValType) (dtor : option Z) : Enc :=
  push 0x3f +> WE.encode_val_type rep
  +> match dtor with
     | Some i => push 0x01 +> encode_u32 i
     | None => push 0x00
     end.

(** ** Module types: [ModuleType] *)

Record ModuleType := mkModuleType { mt_bytes : list Z; mt_num_added : Z; mt_types_added : Z }.

Definition ModuleType_new : ModuleType := mkModuleType [] 0 0.

Definition module_import (module name : list Z) (ty : WS.EntityType) (m : ModuleType) : option ModuleType :=
  bytes ← append (mt_bytes m) (push 0x00 +> encode_str module +> encode_str name +> WS.encode_entity_type ty);
  n ← incr (mt_num_added m);
  Some (mkModuleType bytes n (mt_types_added m)).

(** [ty()]: the encoder of a core type writes into the bytes. *)
Definition module_ty (m : ModuleType) : option ModuleType :=
  n ← incr (mt_num_added m);
  t ← incr (mt_types_added m);
  Some (mkModuleType (mt_bytes m ++ [0x01]) n t).

Definition module_set_bytes (bytes : list Z) (m : ModuleType) : ModuleType :=
  mkModuleType bytes (mt_num_added m) (mt_types_added m).

Definition alias_outer_core_type (count index : Z) (m : ModuleType) : option ModuleType :=
  bytes ← append (mt_bytes m) (push 0x02 +> push CORE_TYPE_SORT +> push 0x01 +> encode_u32 count +> encode_u32 index);
  n ← incr (mt_num_added m);
  t ← incr (mt_types_added m);
  Some (mkModuleType bytes n t).

Definition module_export (name : list Z) (ty : WS.EntityType) (m : ModuleType) : option ModuleType :=
  bytes ← append (mt_bytes m) (push 0x03 +> encode_str name +> WS.encode_entity_type ty);
  n ← incr (mt_num_added m);
  Some (mkModuleType bytes n (mt_types_added m)).

Definition encode_module_type (m : ModuleType) : Enc := push 0x50 +> encode_u32 (mt_num_added m) +> Some (mt_bytes m).

(** ** Component and instance types: [ComponentType], which [InstanceType] wraps *)

Record ComponentType := mkComponentType {
  ct_bytes : list Z;
  ct_num_added : Z;
  ct_core_types_added : Z;
  ct_types_added : Z;
  ct_instances_added : Z;
}.

Definition ComponentType_new : ComponentType := mkComponentType [] 0 0 0 0.

Definition component_set_bytes (bytes : list Z) (c : ComponentType) : ComponentType :=
  mkComponentType bytes (ct_num_added c) (ct_core_types_added c) (ct_types_added c) (ct_instances_added c).

Definition add_core_type (c : ComponentType) : option ComponentType :=
  t ← incr (ct_core_types_added c);
  Some (mkComponentType (ct_bytes c) (ct_num_added c) t (ct_types_added c) (ct_instances_added c)).

Definition add_type (c : ComponentType) : option ComponentType :=
  t ← incr (ct_types_added c);
  Some (mkComponentType (ct_bytes c) (ct_num_added c) (ct_core_types_added c) t (ct_instances_added c)).

Definition add_instance (c : ComponentType) : option ComponentType :=
  t ← incr (ct_instances_added c);
  Some (mkComponentType (ct_bytes c) (ct_num_added c) (ct_core_types_added c) (ct_types_added c) t).

(** Bytes of a declaration, and [self.num_added += 1]. *)
Definition add_declaration (e : Enc) (c : ComponentType) : option ComponentType :=
  bytes ← append (ct_bytes c) e;
  n ← incr (ct_num_added c);
  Some (mkComponentType bytes n (ct_core_types_added c) (ct_types_added c) (ct_instances_added c)).

Definition component_core_type (c : ComponentType) : option ComponentType :=
  c ← add_declaration (push 0x00) c; add_core_type c.

Definition component_ty (c : ComponentType) : option ComponentType :=
  c ← add_declaration (push 0x01) c; add_type c.

Definition component_alias_decl (alias : Alias) (c : ComponentType) : option ComponentType :=
  c ← add_declaration (push 0x02 +> encode_alias alias) c;
  match alias with
  | InstanceExport _ Type_ _ | Outer OType _ _ => add_type c
  | Outer OCoreType _ _ => add_core_type c
  | InstanceExport _ Instance_ _ => add_instance c
  | _ => Some c
  end.

(** The types and instances that an import or an export adds. *)
Definition count_type_ref (ty : ComponentTypeRef) (c : ComponentType) : option ComponentType :=
  match ty with
  | RType _ => add_type c
  | RInstance _ => add_instance c
  | _ => Some c
  end.

Definition component_import (name : list Z) (ty : ComponentTypeRef) (c : ComponentType) : option ComponentType :=
  c ← add_declaration (push 0x03 +> encode_component_import_name name +> encode_component_type_ref ty) c;
  count_type_ref ty c.

Definition component_export (name : list Z) (ty : ComponentTypeRef) (c : ComponentType) : option ComponentType :=
  c ← add_declaration (push 0x04 +> encode_component_export_name name +> encode_component_type_ref ty) c;
  count_type_ref ty c.

Definition encode_component_type (c : ComponentType) : Enc :=
  push 0x41 +> encode_u32 (ct_num_added c) +> Some (ct_bytes c).

Definition encode_instance_type (c : ComponentType) : Enc :=
  push 0x42 +> encode_u32 (ct_num_added c) +> Some (ct_bytes c).

(** ** Sections of imports, exports, aliases and instances *)

Definition imports_import (name : list Z) (ty : ComponentTypeRef) (s : SectionBuilder) : option SectionBuilder :=
  add_item (encode_component_import_name name +> encode_component_type_ref ty) s.

Definition exports_export (name : list Z) (kind : ComponentExportKind) (index : Z) (ty : option ComponentTypeRef)
  (s : SectionBuilder) : option SectionBuilder :=
  add_item (encode_component_export_name name +> encode_component_export_kind kind +> encode_u32 index
            +> match ty with
               | Some ty => push 0x01 +> encode_component_type_ref ty
               | None => push 0x00
               end) s.

Definition aliases_alias (alias : Alias) (s : SectionBuilder) : option SectionBuilder := add_item (encode_alias alias) s.

Definition encode_module_arg (a : ModuleArg) : Enc :=
  match a with ArgInstance idx => push CORE_INSTANCE_SORT +> encode_u32 idx end.

(** [InstanceSection]. *)
Definition core_instantiate (module_index : Z) (args : list (list Z * ModuleArg)) (s : SectionBuilder)
  : option SectionBuilder :=
  add_item (push 0x00 +> encode_u32 module_index
            +> encode_list (fun a => encode_str (fst a) +> encode_module_arg (snd a)) args) s.

Definition core_export_items (exports : list (list Z * WS.ExportKind * Z)) (s : SectionBuilder) : option SectionBuilder :=
  add_item (push 0x01
            +> encode_list (fun '(name, kind, index) => encode_str name +> WS.encode_export_kind kind +> encode_u32 index)
                 exports) s.

(** [ComponentInstanceSection]. *)
Definition component_instantiate (component_index : Z) (args : list (list Z * ComponentExportKind * Z))
  (s : SectionBuilder) : option SectionBuilder :=
  add_item (push 0x00 +> encode_u32 component_index
            +> encode_list (fun '(name, kind, index) =>
                 encode_str name +> encode_component_export_kind kind +> encode_u32 index) args) s.

Definition component_export_items (exports : list (list Z * ComponentExportKind * Z)) (s : SectionBuilder)
  : option SectionBuilder :=
  add_item (push 0x01
            +> encode_list (fun '(name, kind, index) =>
                 encode_component_export_name name +> encode_component_export_kind kind +> encode_u32 index) exports) s.

(** ** Canonical functions, canonicals.rs *)

Definition encode_canonical_option (o : CanonicalOption) : Enc :=
  match o with
  | UTF8 => push 0x00
  | UTF16 => push 0x01
  | CompactUTF16 => push 0x02
  | Memory idx => push 0x03 +> encode_u32 idx
  | Realloc idx => push 0x04 +> encode_u32 idx
  | PostReturn idx => push 0x05 +> encode_u32 idx
  | Async => push 0x06
  | Callback idx => push 0x07 +> encode_u32 idx
  end.

Definition encode_options (options : list CanonicalOption) : Enc := encode_list encode_canonical_option options.

(** [if async_ { 1 } else { 0 }]. *)
Definition async_byte (async_ : bool) : Enc := push (if async_ then 1 else 0).

Definition canon_lift (core_func_index type_index : Z) (options : list CanonicalOption) : SectionBuilder -> option SectionBuilder :=
  add_item (push 0x00 +> push 0x00 +> encode_u32 core_func_index +> encode_options options +> encode_u32 type_index).
Definition canon_lower (func_index : Z) (options : list CanonicalOption) : SectionBuilder -> option SectionBuilder :=
  add_item (push 0x01 +> push 0x00 +> encode_u32 func_index +> encode_options options).
Definition resource_new (ty_index : Z) : SectionBuilder -> option SectionBuilder := add_item (push 0x02 +> encode_u32 ty_index).
Definition resource_drop (ty_index : Z) : SectionBuilder -> option SectionBuilder := add_item (push 0x03 +> encode_u32 ty_index).
Definition resource_rep (ty_index : Z) : SectionBuilder -> option SectionBuilder := add_item (push 0x04 +> encode_u32 ty_index).
Definition thread_spawn (ty_index : Z) : SectionBuilder -> option SectionBuilder := add_item (push 0x05 +> encode_u32 ty_index).
Definition thread_hw_concurrency : SectionBuilder -> option SectionBuilder := add_item (push 0x06).
Definition task_backpressure : SectionBuilder -> option SectionBuilder := add_item (push 0x08).
Definition task_return (ty : Z) : SectionBuilder -> option SectionBuilder := add_item (push 0x09 +> encode_u32 ty).
Definition task_wait (async_ : bool) (memory : Z) : SectionBuilder -> option SectionBuilder :=
  add_item (push 0x0a +> async_byte async_ +> encode_u32 memory).
Definition task_poll (async_ : bool) (memory : Z) : SectionBuilder -> option SectionBuilder :=
  add_item (push 0x0b +> async_byte async_ +> encode_u32 memory).
Definition task_yield (async_ : bool) : SectionBuilder -> option SectionBuilder := add_item (push 0x0c +> async_byte async_).
Definition subtask_drop : SectionBuilder -> option SectionBuilder := add_item (push 0x0d).
Definition stream_new (ty : Z) : SectionBuilder -> option SectionBuilder := add_item (push 0x0e +> encode_u32 ty).
Definition stream_read (ty : Z) (options : list CanonicalOption) : SectionBuilder -> option SectionBuilder :=
  add_item (push 0x0f +> encode_u32 ty +> encode_options options).
Definition stream_write (ty : Z) (options : list CanonicalOption) : SectionBuilder -> option SectionBuilder :=
  add_item (push 0x10 +> encode_u32 ty +> encode_options options).
Definition stream_cancel_read (ty : Z) (async_ : bool) : SectionBuilder -> option SectionBuilder :=
  add_item (push 0x11 +> encode_u32 ty +> async_byte async_).
Definition stream_cancel_write (ty : Z) (async_ : bool) : SectionBuilder -> option SectionBuilder :=
  add_item (push 0x12 +> encode_u32 ty +> async_byte async_).
Definition stream_close_readable (ty : Z) : SectionBuilder -> option SectionBuilder := add_item (push 0x13 +> encode_u32 ty).
Definition stream_close_writable (ty : Z) : SectionBuilder -> option SectionBuilder := add_item (push 0x14 +> encode_u32 ty).
Definition future_new (ty : Z) : SectionBuilder -> option SectionBuilder := add_item (push 0x15 +> encode_u32 ty).
Definition future_read (ty : Z) (options : list CanonicalOption) : SectionBuilder -> option SectionBuilder :=
  add_item (push 0x16 +> encode_u32 ty +> encode_options options).
Definition future_write (ty : Z) (options : list CanonicalOption) : SectionBuilder -> option SectionBuilder :=
  add_item (push 0x17 +> encode_u32 ty +> encode_options options).
Definition future_cancel_read (ty : Z) (async_ : bool) : SectionBuilder -> option SectionBuilder :=
  add_item (push 0x18 +> encode_u32 ty +> async_byte async_).
Definition future_cancel_write (ty : Z) (async_ : bool) : SectionBuilder -> option SectionBuilder :=
  add_item (push 0x19 +> encode_u32 ty +> async_byte async_).
Definition future_close_readable (ty : Z) : SectionBuilder -> option SectionBuilder := add_item (push 0x1a +> encode_u32 ty).
Definition future_close_writable (ty : Z) : SectionBuilder -> option SectionBuilder := add_item (push 0x1b +> encode_u32 ty).
Definition error_context_new (options : list CanonicalOption) : SectionBuilder -> option SectionBuilder :=
  add_item (push 0x1c +> encode_options options).
Definition error_context_debug_message (options : list CanonicalOption) : SectionBuilder -> option SectionBuilder :=
  add_item (push 0x1d +> encode_options options).
Definition error_context_drop : SectionBuilder -> option SectionBuilder := add_item (push 0x1e).

(** ** The start section, start.rs *)

Definition encode_component_start (function_index : Z) (args : list Z) (results : Z) : Enc :=
  bytes ← encode_u32 function_index +> encode_list encode_u32 args +> encode_u32 results;
  encode_bytes bytes.

(** ** The component, component.rs *)

Inductive ComponentSectionId :=
| CoreCustomId | CoreModuleId | CoreInstanceId | CoreTypeId | ComponentId | InstanceId | AliasId | TypeId
| CanonicalFunctionId | StartId | ImportId | ExportId.

Definition component_section_id (id : ComponentSectionId) : Z :=
  match id with
  | CoreCustomId => 0 | CoreModuleId => 1 | CoreInstanceId => 2 | CoreTypeId => 3 | ComponentId => 4 | InstanceId => 5
  | AliasId => 6 | TypeId => 7 | CanonicalFunctionId => 8 | StartId => 9 | ImportId => 10 | ExportId => 11
  end.

Record Component_ := mkComponent { component_bytes : list Z }.

Definition COMPONENT_HEADER : list Z := [0x00; 0x61; 0x73; 0x6D; 0x0d; 0x00; 0x01; 0x00].

Definition Component_new : Component_ := mkComponent COMPONENT_HEADER.

Definition component_section (id : Z) (e : Enc) (c : Component_) : option Component_ :=
  bs ← e;
  Some (mkComponent (component_bytes c ++ id :: bs)).

(** [ModuleSection] and [NestedComponentSection]. *)
Definition encode_module (m : WS.Module_) : Enc := encode_bytes (WS.module_bytes m).
Definition encode_component (c : Component_) : Enc := encode_bytes (component_bytes c).

(** ** The names, names.rs: the bytes of the subsections *)

Definition ComponentNameSection := list Z.

Definition names_component (name : list Z) (names : ComponentNameSection) : option ComponentNameSection :=
  if Z.of_nat (length name) <=? 2 ^ 32 - 1 then
    len ← encoding_size (Z.of_nat (length name));
    append names (push 0 +> encode_usize (len + Z.of_nat (length name)) +> encode_str name)
  else None.

Definition component_decls (kind : Z) (map : SectionBuilder) (names : ComponentNameSection)
  : option ComponentNameSection :=
  n ← WN.size map;
  append names (push 1 +> encode_usize (1 + n) +> push kind +> WN.encode_name_map map).

Definition core_decls (kind : Z) (map : SectionBuilder) (names : ComponentNameSection)
  : option ComponentNameSection :=
  n ← WN.size map;
  append names (push 1 +> encode_usize (2 + n) +> push CORE_SORT +> push kind +> WN.encode_name_map map).

Definition names_raw (id : Z) (data : list Z) (names : ComponentNameSection) : option ComponentNameSection :=
  append names (push id +> encode_bytes data).

Definition encode_component_name_section (names : ComponentNameSection) : Enc :=
  WS.encode_custom_section component_name_str names.
End encoder.
End WC.

(** ** Hooks *)

Module ComponentHooks.
Class ReencodeComponent := {
  component_type_index : Z -> Z;
  component_instance_index : Z -> Z;
  component_func_index : Z -> Z;
  component_index : Z -> Z;
  module_index : Z -> Z;
  instance_index : Z -> Z;
  component_value_index : Z -> Z;
  outer_type_index : Z -> Z -> Z;
  outer_component_type_index : Z -> Z -> Z;
  outer_component_index : Z -> Z -> Z;
  outer_module_index : Z -> Z -> Z;
}.
End ComponentHooks.
Import ComponentHooks.

(** [impl ReencodeComponent for RoundtripReencoder {}]. *)
Definition RoundtripComponentReencoder : ReencodeComponent := {|
  component_type_index := fun ty => ty;
  component_instance_index := fun ty => ty;
  component_func_index := fun ty => ty;
  component_index := fun ty => ty;
  module_index := fun ty => ty;
  instance_index := fun ty => ty;
  component_value_index := fun ty => ty;
  outer_type_index := fun _ ty => Hooks.type_index (Reencode := RoundtripReencoder) ty;
  outer_component_type_index := fun _ ty => ty;
  outer_component_index := fun _ component => component;
  outer_module_index := fun _ module => module |}.

(** ** Translation *)

Section utils.
Context {T : Hooks.Reencode} {TC : ReencodeComponent} {L : Leb128}.

Definition component_primitive_val_type (ty : PrimitiveValType) : WC.PrimitiveValType :=
  match ty with
  | PBool => WC.Bool | PS8 => WC.S8 | PU8 => WC.U8 | PS16 => WC.S16 | PU16 => WC.U16 | PS32 => WC.S32 | PU32 => WC.U32
  | PS64 => WC.S64 | PU64 => WC.U64 | PF32 => WC.F32 | PF64 => WC.F64 | PChar => WC.Char | PString => WC.String_
  end.

Definition component_val_type (ty : ComponentValType) : WC.ComponentValType :=
  match ty with
  | CV_Type u => WC.VType (component_type_index u)
  | CV_Primitive pty => WC.Primitive (component_primitive_val_type pty)
  end.

Definition component_export_kind (ty : ComponentExternalKind) : WC.ComponentExportKind :=
  match ty with
  | CEK_Module => WC.Module_
  | CEK_Func => WC.Func
  | CEK_Value => WC.Value
  | CEK_Type => WC.Type_
  | CEK_Instance => WC.Instance_
  | CEK_Component => WC.Component
  end.

Definition component_external_index (kind : ComponentExternalKind) (index : Z) : Z :=
  match kind with
  | CEK_Func => component_func_index index
  | CEK_Module => module_index index
  | CEK_Component => component_index index
  | CEK_Type => component_type_index index
  | CEK_Instance => component_instance_index index
  | CEK_Value => component_value_index index
  end.

Definition component_outer_alias_kind (kind : ComponentOuterAliasKind) : WC.ComponentOuterAliasKind :=
  match kind with
  | OAK_CoreModule => WC.OCoreModule
  | OAK_CoreType => WC.OCoreType
  | OAK_Type => WC.OType
  | OAK_Component => WC.OComponent
  end.

Definition type_bounds (ty : TypeBounds) : WC.TypeBounds :=
  match ty with
  | TB_Eq u => WC.Eq_ (component_type_index u)
  | TB_SubResource => WC.SubResource
  end.

Definition component_type_ref (ty : ComponentTypeRef) : WC.ComponentTypeRef :=
  match ty with
  | CTR_Module u => WC.RModule (Hooks.type_index u)
  | CTR_Func u => WC.RFunc (component_type_index u)
  | CTR_Value valty => WC.RValue (component_val_type valty)
  | CTR_Type bounds => WC.RType (type_bounds bounds)
  | CTR_Instance u => WC.RInstance (component_type_index u)
  | CTR_Component u => WC.RComponent (component_type_index u)
  end.

Definition canonical_option (ty : CanonicalOption) : WC.CanonicalOption :=
  match ty with
  | CO_UTF8 => WC.UTF8
  | CO_UTF16 => WC.UTF16
  | CO_CompactUTF16 => WC.CompactUTF16
  | CO_Memory u => WC.Memory (Hooks.memory_index u)
  | CO_Realloc u => WC.Realloc (Hooks.function_index u)
  | CO_PostReturn u => WC.PostReturn (Hooks.function_index u)
  | CO_Async => WC.Async
  | CO_Callback u => WC.Callback (Hooks.function_index u)
  end.

Definition component_alias (alias : ComponentAlias) : WC.Alias :=
  match alias with
  | CA_InstanceExport kind instance_index name =>
      WC.InstanceExport (component_instance_index instance_index) (component_export_kind kind) (str_bytes name)
  | CA_CoreInstanceExport kind instance_index_ name =>
      WC.CoreInstanceExport (instance_index instance_index_) (export_kind kind) (str_bytes name)
  | CA_Outer kind count index =>
      WC.Outer (component_outer_alias_kind kind) count
        match kind with
        | OAK_CoreModule => outer_module_index count index
        | OAK_CoreType => outer_type_index count index
        | OAK_Type => outer_component_type_index count index
        | OAK_Component => outer_component_index count index
        end
  end.

(** *** Types *)

Definition named_type (f : Str * ComponentValType) : list Z * WC.ComponentValType :=
  (str_bytes (fst f), component_val_type (snd f)).

Definition parse_component_defined_type (ty : ComponentDefinedType) : Enc :=
  match ty with
  | CD_Primitive p => WC.defined_primitive (component_primitive_val_type p)
  | CD_Record r => WC.defined_record (map named_type r)
  | CD_Variant v =>
      WC.defined_variant (map (fun case =>
        (str_bytes (case_name case), component_val_type <$> case_ty case, case_refines case)) v)
  | CD_List t => WC.defined_list (component_val_type t)
  | CD_Tuple t => WC.defined_tuple (map component_val_type t)
  | CD_Flags t => WC.defined_flags (map str_bytes t)
  | CD_Enum t => WC.defined_enum_type (map str_bytes t)
  | CD_Option t => WC.defined_option (component_val_type t)
  | CD_Result ok err => WC.defined_result (component_val_type <$> ok) (component_val_type <$> err)
  | CD_Own i => WC.defined_own (component_type_index i)
  | CD_Borrow i => WC.defined_borrow (component_type_index i)
  | CD_Future t => WC.defined_future (component_val_type <$> t)
  | CD_Stream t => WC.defined_stream (component_val_type t)
  | CD_ErrorContext => WC.defined_error_context
  end.

Definition parse_component_func_type (func : WC.ComponentFuncTypeEncoder) (ty : ComponentFuncType)
  : option WC.ComponentFuncTypeEncoder :=
  func ← WC.func_params (map named_type (cf_params ty)) func;
  match cf_results ty with
  | FR_Unnamed ty => WC.func_result (component_val_type ty) func
  | FR_Named list => WC.func_results (map named_type list) func
  end.

(** [parse_recursive_type_group] on an encoder of core types; a type of a
    component ([prefix]) that is not final has a prefix byte. *)
Definition parse_core_group (prefix : bool) (sink : list Z) (rec_group : RecGroup) : outcome (list Z) :=
  if is_explicit_rec_group rec_group then
    subtypes ← mapM sub_type (into_types rec_group);
    unwrap_outcome (WC.append sink (WEType.rec subtypes))
  else
    match into_types rec_group with
    | ty :: _ =>
        ty ← sub_type ty;
        unwrap_outcome (WC.append sink (WEType.encode_subtype prefix ty))
    | [] => RPanic
    end.

Definition parse_component_module_type_declaration (decl : ModuleTypeDeclaration) (module : WC.ModuleType)
  : outcome WC.ModuleType :=
  match decl with
  | MTD_Type rec =>
      module ← unwrap_outcome (WC.module_ty module);
      bytes ← parse_core_group false (WC.mt_bytes module) rec;
      mret (WC.module_set_bytes bytes module)
  | MTD_Export name ty =>
      ty ← entity_type ty;
      unwrap_outcome (WC.module_export (str_bytes name) ty module)
  | MTD_OuterAlias OuterType count index =>
      unwrap_outcome (WC.alias_outer_core_type count (outer_type_index count index) module)
  | MTD_Import import =>
      ty ← entity_type (import_ty import);
      unwrap_outcome (WC.module_import (str_bytes (import_module import)) (str_bytes (import_name import)) ty module)
  end.

(** [for decl in decls { body(&mut ret, decl)?; }]. *)
Section for_decl.
Context {D S : Type} (body : D -> S -> outcome S).

Fixpoint for_decl (decls : list D) (ret : S) : outcome S :=
  match decls with
  | [] => ROk ret
  | decl :: decls => ret ← body decl ret; for_decl decls ret
  end.
End for_decl.

Definition component_module_type (decls : list ModuleTypeDeclaration) : outcome WC.ModuleType :=
  for_decl parse_component_module_type_declaration decls WC.ModuleType_new.

Definition parse_component_core_type (sink : list Z) (decl : CoreType) : outcome (list Z) :=
  match decl with
  | CoreRec rec => parse_core_group true sink rec
  | CoreModule decls =>
      m ← component_module_type decls;
      unwrap_outcome (WC.append sink (WC.encode_module_type m))
  end.

(** The declarations that do not contain types. *)
Definition parse_core_type_decl (core : CoreType) (c : WC.ComponentType) : outcome WC.ComponentType :=
  c ← unwrap_outcome (WC.component_core_type c);
  bytes ← parse_component_core_type (WC.ct_bytes c) core;
  mret (WC.component_set_bytes bytes c).

Fixpoint parse_component_type (dst : list Z) (ty : ComponentType) {struct ty} : outcome (list Z) :=
  match ty with
  | CT_Defined ty => unwrap_outcome (WC.append dst (parse_component_defined_type ty))
  | CT_Func func =>
      f ← unwrap_outcome (parse_component_func_type (WC.func_encoder_new dst) func);
      mret (WC.func_sink f)
  | CT_Component component =>
      c ← for_decl (fun d c => parse_component_type_declaration d c) component WC.ComponentType_new;
      unwrap_outcome (WC.append dst (WC.encode_component_type c))
  | CT_Instance instance =>
      c ← for_decl (fun d c => parse_component_instance_type_declaration d c) instance WC.ComponentType_new;
      unwrap_outcome (WC.append dst (WC.encode_instance_type c))
  | CT_Resource rep dtor =>
      rep ← val_type rep;
      unwrap_outcome (WC.append dst (WC.encode_resource rep (Hooks.function_index <$> dtor)))
  end
with parse_component_type_declaration (decl : ComponentTypeDeclaration) (c : WC.ComponentType) {struct decl}
  : outcome WC.ComponentType :=
  match decl with
  | CTD_CoreType ty => parse_core_type_decl ty c
  | CTD_Type ty =>
      c ← unwrap_outcome (WC.component_ty c);
      bytes ← parse_component_type (WC.ct_bytes c) ty;
      mret (WC.component_set_bytes bytes c)
  | CTD_Alias a => unwrap_outcome (WC.component_alias_decl (component_alias a) c)
  | CTD_Export name ty =>
      unwrap_outcome (WC.component_export (str_bytes (export_name_str name)) (component_type_ref ty) c)
  | CTD_Import import =>
      unwrap_outcome (WC.component_import (str_bytes (import_name_str (ci_name import))) (component_type_ref (ci_ty import)) c)
  end
with parse_component_instance_type_declaration (decl : InstanceTypeDeclaration) (c : WC.ComponentType) {struct decl}
  : outcome WC.ComponentType :=
  match decl with
  | ITD_CoreType ty => parse_core_type_decl ty c
  | ITD_Type ty =>
      c ← unwrap_outcome (WC.component_ty c);
      bytes ← parse_component_type (WC.ct_bytes c) ty;
      mret (WC.component_set_bytes bytes c)
  | ITD_Alias a => unwrap_outcome (WC.component_alias_decl (component_alias a) c)
  | ITD_Export name ty =>
      unwrap_outcome (WC.component_export (str_bytes (export_name_str name)) (component_type_ref ty) c)
  end.

Definition component_type (decls : list ComponentTypeDeclaration) : outcome WC.ComponentType :=
  for_decl parse_component_type_declaration decls WC.ComponentType_new.

Definition component_instance_type (decls : list InstanceTypeDeclaration) : outcome WC.ComponentType :=
  for_decl parse_component_instance_type_declaration decls WC.ComponentType_new.
(** ** Sections

    [types.ty()] counts the type before it is written. *)
Definition section_ty (body : list Z -> outcome (list Z)) (s : SectionBuilder) : outcome SectionBuilder :=
  n ← unwrap_outcome (WC.incr (num_added s));
  bs ← body (bytes s);
  mret (mkBuilder bs n).

Definition component_type_item (ty : ComponentType) : SectionBuilder -> outcome SectionBuilder :=
  section_ty (fun dst => parse_component_type dst ty).

Definition core_type_item (ty : CoreType) : SectionBuilder -> outcome SectionBuilder :=
  section_ty (fun dst => parse_component_core_type dst ty).

Definition component_import_item (import : ComponentImport) (imports : SectionBuilder) : outcome SectionBuilder :=
  unwrap_outcome (WC.imports_import (str_bytes (import_name_str (ci_name import))) (component_type_ref (ci_ty import)) imports).

(** The types of [stream.cancel-*] and [future.cancel-*] are not translated. *)
Definition parse_component_canonical (func : CanonicalFunction) (section : SectionBuilder) : outcome SectionBuilder :=
  unwrap_outcome
    match func with
    | CF_Lift core_func_index type_index options =>
        WC.canon_lift (Hooks.function_index core_func_index) (component_type_index type_index)
          (map canonical_option options) section
    | CF_Lower func_index options =>
        WC.canon_lower (component_func_index func_index) (map canonical_option options) section
    | CF_ResourceNew resource => WC.resource_new (component_type_index resource) section
    | CF_ResourceDrop resource => WC.resource_drop (component_type_index resource) section
    | CF_ResourceRep resource => WC.resource_rep (component_type_index resource) section
    | CF_ThreadSpawn func_ty_index => WC.thread_spawn (Hooks.type_index func_ty_index) section
    | CF_ThreadHwConcurrency => WC.thread_hw_concurrency section
    | CF_TaskBackpressure => WC.task_backpressure section
    | CF_TaskReturn type_index => WC.task_return (Hooks.type_index type_index) section
    | CF_TaskWait async_ memory => WC.task_wait async_ (Hooks.memory_index memory) section
    | CF_TaskPoll async_ memory => WC.task_poll async_ (Hooks.memory_index memory) section
    | CF_TaskYield async_ => WC.task_yield async_ section
    | CF_SubtaskDrop => WC.subtask_drop section
    | CF_StreamNew ty => WC.stream_new (component_type_index ty) section
    | CF_StreamRead ty options => WC.stream_read (component_type_index ty) (map canonical_option options) section
    | CF_StreamWrite ty options => WC.stream_write (component_type_index ty) (map canonical_option options) section
    | CF_StreamCancelRead ty async_ => WC.stream_cancel_read ty async_ section
    | CF_StreamCancelWrite ty async_ => WC.stream_cancel_write ty async_ section
    | CF_StreamCloseReadable ty => WC.stream_close_readable (component_type_index ty) section
    | CF_StreamCloseWritable ty => WC.stream_close_writable (component_type_index ty) section
    | CF_FutureNew ty => WC.future_new (component_type_index ty) section
    | CF_FutureRead ty options => WC.future_read (component_type_index ty) (map canonical_option options) section
    | CF_FutureWrite ty options => WC.future_write (component_type_index ty) (map canonical_option options) section
    | CF_FutureCancelRead ty async_ => WC.future_cancel_read ty async_ section
    | CF_FutureCancelWrite ty async_ => WC.future_cancel_write ty async_ section
    | CF_FutureCloseReadable ty => WC.future_close_readable (component_type_index ty) section
    | CF_FutureCloseWritable ty => WC.future_close_writable (component_type_index ty) section
    | CF_ErrorContextNew options => WC.error_context_new (map canonical_option options) section
    | CF_ErrorContextDebugMessage options => WC.error_context_debug_message (map canonical_option options) section
    | CF_ErrorContextDrop => WC.error_context_drop section
    end.

Definition component_alias_item (alias : ComponentAlias) (aliases : SectionBuilder) : outcome SectionBuilder :=
  unwrap_outcome (WC.aliases_alias (component_alias alias) aliases).

Definition parse_component_instance (instance : ComponentInstance) (instances : SectionBuilder)
  : outcome SectionBuilder :=
  unwrap_outcome
    match instance with
    | CI_Instantiate component_index_ args =>
        WC.component_instantiate (component_index component_index_)
          (map (fun arg => (str_bytes (carg_name arg), component_export_kind (carg_kind arg),
                            component_external_index (carg_kind arg) (carg_index arg))) args) instances
    | CI_FromExports exports =>
        WC.component_export_items
          (map (fun export => (str_bytes (export_name_str (ce_name export)), component_export_kind (ce_kind export),
                               component_external_index (ce_kind export) (ce_index export))) exports) instances
    end.

Definition parse_instance (instance : Instance_) (instances : SectionBuilder) : outcome SectionBuilder :=
  unwrap_outcome
    match instance with
    | I_Instantiate module_index_ args =>
        WC.core_instantiate (module_index module_index_)
          (map (fun arg => match arg_kind arg with
                           | IAK_Instance => (str_bytes (arg_name arg), WC.ArgInstance (instance_index (arg_index arg)))
                           end) args) instances
    | I_FromExports exports =>
        WC.core_export_items
          (map (fun export => (str_bytes (export_name export), export_kind (export_kind_of export),
                               external_index (export_kind_of export) (export_index export))) exports) instances
    end.

Definition parse_component_export (export : ComponentExport) (exports : SectionBuilder) : outcome SectionBuilder :=
  unwrap_outcome
    (WC.exports_export (str_bytes (export_name_str (ce_name export))) (component_export_kind (ce_kind export))
       (component_external_index (ce_kind export) (ce_index export)) (component_type_ref <$> ce_ty export) exports).

Definition parse_component_type_section (types : SectionBuilder) (section : SectionLimited) : outcome SectionBuilder :=
  for_each component_type_item section types.
Definition parse_component_import_section (imports : SectionBuilder) (section : SectionLimited) : outcome SectionBuilder :=
  for_each component_import_item section imports.
Definition parse_component_canonical_section (canonical : SectionBuilder) (section : SectionLimited)
  : outcome SectionBuilder := for_each parse_component_canonical section canonical.
Definition parse_component_alias_section (aliases : SectionBuilder) (section : SectionLimited) : outcome SectionBuilder :=
  for_each component_alias_item section aliases.
Definition parse_component_instance_section (instances : SectionBuilder) (section : SectionLimited)
  : outcome SectionBuilder := for_each parse_component_instance section instances.
Definition parse_instance_section (instances : SectionBuilder) (section : SectionLimited) : outcome SectionBuilder :=
  for_each parse_instance section instances.
Definition parse_core_type_section (types : SectionBuilder) (section : SectionLimited) : outcome SectionBuilder :=
  for_each core_type_item section types.
Definition parse_component_export_section (exports : SectionBuilder) (section : SectionLimited) : outcome SectionBuilder :=
  for_each parse_component_export section exports.

Definition parse_component_start_section (func : ComponentStartFunction) (component : WC.Component_)
  : outcome WC.Component_ :=
  unwrap_outcome (WC.component_section (WC.component_section_id WC.StartId)
    (WC.encode_component_start (component_func_index (start_func_index func)) (map component_value_index (start_arguments func))
       (start_results func)) component).

(** ** Names *)

Definition push_core_names (kind : Z) (map : outcome WN.NameMap) (names : WC.ComponentNameSection)
  : outcome WC.ComponentNameSection := m ← map; unwrap_outcome (WC.core_decls kind m names).
Definition push_component_names (kind : Z) (map : outcome WN.NameMap) (names : WC.ComponentNameSection)
  : outcome WC.ComponentNameSection := m ← map; unwrap_outcome (WC.component_decls kind m names).

Definition parse_custom_component_name_subsection (section : ComponentName) (names : WC.ComponentNameSection)
  : outcome WC.ComponentNameSection :=
  match section with
  | CN_Component name _ => unwrap_outcome (WC.names_component name names)
  | CN_CoreFuncs map => push_core_names 0x00 (name_map map Hooks.function_index) names
  | CN_CoreGlobals map => push_core_names 0x03 (name_map map Hooks.global_index) names
  | CN_CoreMemories map => push_core_names 0x02 (name_map map Hooks.memory_index) names
  | CN_CoreTables map => push_core_names 0x01 (name_map map Hooks.table_index) names
  | CN_CoreModules map => push_core_names WC.CORE_MODULE_SORT (name_map map module_index) names
  | CN_CoreInstances map => push_core_names WC.CORE_INSTANCE_SORT (name_map map instance_index) names
  | CN_CoreTypes map => push_core_names WC.CORE_TYPE_SORT (name_map map Hooks.type_index) names
  | CN_Types map => push_component_names WC.TYPE_SORT (name_map map component_type_index) names
  | CN_Instances map => push_component_names WC.INSTANCE_SORT (name_map map component_instance_index) names
  | CN_Components map => push_component_names WC.COMPONENT_SORT (name_map map component_index) names
  | CN_Funcs map => push_component_names WC.FUNCTION_SORT (name_map map component_func_index) names
  | CN_Values map => push_component_names WC.VALUE_SORT (name_map map component_value_index) names
  | CN_Unknown ty data _ => unwrap_outcome (WC.names_raw ty data names)
  end.

(** The loop over the subsections; each takes at least one byte. *)
Fixpoint component_name_loop (fuel : nat) (section : BinaryReader) (ret : WC.ComponentNameSection)
  : outcome WC.ComponentNameSection :=
  match fuel with
  | O => RPanic
  | S fuel' =>
      match subsections_next (A := ComponentName) section with
      | (None, _) => ROk ret
      | (Some x, section') =>
          subsection ← from_result x;
          ret' ← parse_custom_component_name_subsection subsection ret;
          component_name_loop fuel' section' ret'
      end
  end.

Definition custom_component_name_section (section : BinaryReader) : outcome WC.ComponentNameSection :=
  component_name_loop (S (length (remaining_buffer section))) section [].

(** ** Components *)

(** [component.section(&section)]. *)
Definition push_component_section (id : WC.ComponentSectionId) (e : Enc) (component : WC.Component_)
  : outcome WC.Component_ := unwrap_outcome (WC.component_section (WC.component_section_id id) e component).

Definition reencode_component_items (id : WC.ComponentSectionId)
  (parse_items : SectionBuilder -> SectionLimited -> outcome SectionBuilder) (section : SectionLimited)
  (component : WC.Component_) : outcome WC.Component_ :=
  items ← parse_items SectionBuilder_new section;
  push_component_section id (encode_builder items) component.

Definition parse_component_custom_section (section : CustomSectionReader) (component : WC.Component_)
  : outcome WC.Component_ :=
  match as_component_name section with
  | Some name =>
      names ← custom_component_name_section name;
      push_component_section WC.CoreCustomId (WC.encode_component_name_section names) component
  | None =>
      push_component_section WC.CoreCustomId
        (WS.encode_custom_section (custom_name section) (custom_data section)) component
  end.

Definition parse_unknown_component_section (id : Z) (contents : list Z) (component : WC.Component_)
  : outcome WC.Component_ := unwrap_outcome (WC.component_section id (WS.encode_raw_section contents) component).

(** [&whole_component[range]] panics out of range. *)
Definition index_range (range : Z * Z) (data : list Z) : outcome (list Z) :=
  let (start, stop) := range in
  if (start <=? stop) && (stop <=? Z.of_nat (length data)) then ROk (slice start stop data) else RPanic.

Definition parse_component_submodule (parser : Parser) (submodule : list Z) (component : WC.Component_)
  : outcome WC.Component_ :=
  module ← parse_core_module WS.Module_new parser submodule;
  push_component_section WC.CoreModuleId (WC.encode_module module) component.

(** A payload, given the translation of the components in it. *)
Definition parse_component_payload (subcomponent : WC.Component_ -> Parser -> list Z -> outcome WC.Component_)
  (whole_component : list Z) (payload : Payload) (component : WC.Component_) : outcome WC.Component_ :=
  match payload with
  | Version _ EComponent _ => mret component
  | Version _ EModule _ => RErr UnexpectedNonComponentSection
  | TypeSection _ | ImportSection _ | FunctionSection _ | TableSection _ | MemorySection _ | TagSection _
  | GlobalSection _ | ExportSection _ | StartSection _ _ | ElementSection _ | DataCountSection _ _ | DataSection _
  | CodeSectionStart _ _ _ | CodeSectionEntry _ => RErr UnexpectedNonComponentSection
  | ComponentTypeSection section => reencode_component_items WC.TypeId parse_component_type_section section component
  | ComponentImportSection section =>
      reencode_component_items WC.ImportId parse_component_import_section section component
  | ComponentCanonicalSection section =>
      reencode_component_items WC.CanonicalFunctionId parse_component_canonical_section section component
  | ComponentAliasSection section => reencode_component_items WC.AliasId parse_component_alias_section section component
  | ComponentInstanceSection section =>
      reencode_component_items WC.InstanceId parse_component_instance_section section component
  | InstanceSection section => reencode_component_items WC.CoreInstanceId parse_instance_section section component
  | CoreTypeSection section => reencode_component_items WC.CoreTypeId parse_core_type_section section component
  | ComponentExportSection section =>
      reencode_component_items WC.ExportId parse_component_export_section section component
  | CustomSection section => parse_component_custom_section section component
  | ModuleSection parser unchecked_range =>
      submodule ← index_range unchecked_range whole_component;
      parse_component_submodule parser submodule component
  | ComponentSection parser unchecked_range =>
      data ← index_range unchecked_range whole_component;
      sub ← subcomponent WC.Component_new parser data;
      push_component_section WC.ComponentId (WC.encode_component sub) component
  | ComponentStartSection start _ => parse_component_start_section start component
  | End_ _ => mret component
  | UnknownSection _ _ _ =>
      match as_section payload with
      | Some (id, range) =>
          section ← index_range range whole_component;
          parse_unknown_component_section id section component
      | None => RPanic
      end
  end.

(** [remaining = &remaining[unchecked_range.len()..]] panics past the end. *)
Definition skip_nested (payload : Payload) (remaining : list Z) : outcome (list Z) :=
  match payload with
  | ComponentSection _ (start, stop) | ModuleSection _ (start, stop) =>
      if stop - start <=? Z.of_nat (length remaining) then ROk (drop (Z.to_nat (stop - start)) remaining) else RPanic
  | _ => ROk remaining
  end.

(** The loop of [parse_component]; a nested component is shorter than what is
    left, and every payload takes at least one byte. *)
Fixpoint parse_component_loop (fuel : nat) (whole_component : list Z) (component : WC.Component_) (parser : Parser)
  (remaining : list Z) : outcome WC.Component_ :=
  match fuel with
  | O => RPanic
  | S fuel' =>
      match remaining with
      | [] => ROk component
      | _ =>
          match parse parser remaining true with
          | (Ok (Parsed consumed payload), parser') =>
              if Z.of_nat (length remaining) <? consumed then RPanic
              else
                remaining' ← skip_nested payload (drop (Z.to_nat consumed) remaining);
                component' ← parse_component_payload (parse_component_loop fuel' whole_component) whole_component
                               payload component;
                parse_component_loop fuel' whole_component component' parser' remaining'
          | (Ok (NeedMoreData _), _) => RPanic
          | (Err e, _) => RErr (ParseError e)
          | (Panic, _) => RPanic
          end
      end
  end.

Definition parse_component (component : WC.Component_) (parser : Parser) (data : list Z) : outcome WC.Component_ :=
  parse_component_loop (S (length data)) data component parser data.
End utils.
