(* ===== verification/ComponentSpec.v ===== *)
(** The items of the sections of a component: reading them from arbitrary bytes.

    [Readable] is the interface of a type that can be read: reading never panics,
    consumes at least one byte and gives a well-formed value. *)

From Stdlib Require Import ZArith Lia String.
From stdpp Require Import prelude.
From S2P Require Import Prelude Leb128 BinaryReader BinaryReaderSpec ReaderLogic Encode Types Operands.
From S2P Require Import OperandSpec SectionReader CompositeTypes Items CompositeSpec ItemSpec ComponentReaders.

Local Open Scope Z_scope.

Class Readable (A : Type) `{FromReader A} (P : WasmFeatures -> A -> Prop) : Prop :=
  wp_readable E r0 k (Q : A -> nat -> Prop) :
    wp_env E r0 -> (forall a k', (k < k')%nat -> P (features r0) a -> Q a k') -> wp E r0 k (read (A := A)) Q.

(** ** Well-formed items *)

Definition opt_wf {A} (P : A -> Prop) (o : option A) : Prop := match o with Some a => P a | None => True end.

(** A list of well-formed items within a limit of the reader. *)
Definition list_wf {A} (limit : Z) (P : A -> Prop) (l : list A) : Prop :=
  Z.of_nat (length l) <= limit /\ Forall P l.

Definition val_type_wf (t : ComponentValType) : Prop :=
  match t with CV_Primitive _ => True | CV_Type i => in_u 32 i end.

Definition bounds_wf (b : TypeBounds) : Prop := match b with TB_Eq i => in_u 32 i | TB_SubResource => True end.

Definition component_type_ref_wf (t : ComponentTypeRef) : Prop :=
  match t with
  | CTR_Module i | CTR_Func i | CTR_Instance i | CTR_Component i => in_u 32 i
  | CTR_Value t => val_type_wf t
  | CTR_Type b => bounds_wf b
  end.

Definition component_import_wf (i : ComponentImport) : Prop :=
  str_wf (import_name_str (ci_name i)) /\ component_type_ref_wf (ci_ty i).

Definition component_export_wf (e : ComponentExport) : Prop :=
  str_wf (export_name_str (ce_name e)) /\ in_u 32 (ce_index e) /\ opt_wf component_type_ref_wf (ce_ty e).

Definition alias_wf (a : ComponentAlias) : Prop :=
  match a with
  | CA_InstanceExport _ i name | CA_CoreInstanceExport _ i name => in_u 32 i /\ str_wf name
  | CA_Outer _ count index => in_u 32 count /\ in_u 32 index
  end.

Definition module_decl_wf (f : WasmFeatures) (d : ModuleTypeDeclaration) : Prop :=
  match d with
  | MTD_Type g => rec_group_wf g
  | MTD_Export name ty => str_wf name /\ type_ref_wf f ty
  | MTD_OuterAlias _ count index => in_u 32 count /\ in_u 32 index
  | MTD_Import i => import_wf f i
  end.

Definition core_type_wf (f : WasmFeatures) (t : CoreType) : Prop :=
  match t with
  | CoreRec g => rec_group_wf g
  | CoreModule ds => list_wf MAX_WASM_MODULE_TYPE_DECLS (module_decl_wf f) ds
  end.

Definition named_type_wf (p : Str * ComponentValType) : Prop := str_wf (fst p) /\ val_type_wf (snd p).

Definition case_wf (c : VariantCase) : Prop :=
  str_wf (case_name c) /\ opt_wf val_type_wf (case_ty c) /\ opt_wf (in_u 32) (case_refines c).

Definition defined_type_wf (t : ComponentDefinedType) : Prop :=
  match t with
  | CD_Primitive _ | CD_ErrorContext => True
  | CD_Record l => list_wf MAX_WASM_RECORD_FIELDS named_type_wf l
  | CD_Variant l => list_wf MAX_WASM_VARIANT_CASES case_wf l
  | CD_List t | CD_Option t | CD_Stream t => val_type_wf t
  | CD_Tuple l => list_wf MAX_WASM_TUPLE_TYPES val_type_wf l
  | CD_Flags l => list_wf MAX_WASM_FLAG_NAMES str_wf l
  | CD_Enum l => list_wf MAX_WASM_ENUM_CASES str_wf l
  | CD_Result ok err => opt_wf val_type_wf ok /\ opt_wf val_type_wf err
  | CD_Own i | CD_Borrow i => in_u 32 i
  | CD_Future t => opt_wf val_type_wf t
  end.

Definition func_result_wf (r : ComponentFuncResult) : Prop :=
  match r with
  | FR_Unnamed t => val_type_wf t
  | FR_Named l => list_wf MAX_WASM_FUNCTION_RETURNS named_type_wf l
  end.

Definition component_func_wf (t : ComponentFuncType) : Prop :=
  list_wf MAX_WASM_FUNCTION_PARAMS named_type_wf (cf_params t) /\ func_result_wf (cf_results t).

Definition canonical_option_wf (o : CanonicalOption) : Prop :=
  match o with
  | CO_Memory i | CO_Realloc i | CO_PostReturn i | CO_Callback i => in_u 32 i
  | _ => True
  end.

Definition options_wf : list CanonicalOption -> Prop := list_wf MAX_WASM_CANONICAL_OPTIONS canonical_option_wf.

Definition canonical_wf (c : CanonicalFunction) : Prop :=
  match c with
  | CF_Lift i t o => in_u 32 i /\ in_u 32 t /\ options_wf o
  | CF_Lower i o | CF_StreamRead i o | CF_StreamWrite i o | CF_FutureRead i o | CF_FutureWrite i o =>
      in_u 32 i /\ options_wf o
  | CF_ErrorContextNew o | CF_ErrorContextDebugMessage o => options_wf o
  | CF_ResourceNew i | CF_ResourceDrop i | CF_ResourceRep i | CF_ThreadSpawn i | CF_TaskReturn i
  | CF_TaskWait _ i | CF_TaskPoll _ i | CF_StreamNew i | CF_StreamCancelRead i _ | CF_StreamCancelWrite i _
  | CF_StreamCloseReadable i | CF_StreamCloseWritable i | CF_FutureNew i | CF_FutureCancelRead i _
  | CF_FutureCancelWrite i _ | CF_FutureCloseReadable i | CF_FutureCloseWritable i => in_u 32 i
  | CF_ThreadHwConcurrency | CF_TaskBackpressure | CF_TaskYield _ | CF_SubtaskDrop | CF_ErrorContextDrop => True
  end.

Definition arg_wf (a : InstantiationArg) : Prop := str_wf (arg_name a) /\ in_u 32 (arg_index a).

Definition instance_wf (i : Instance_) : Prop :=
  match i with
  | I_Instantiate i args => in_u 32 i /\ list_wf MAX_WASM_INSTANTIATION_ARGS arg_wf args
  | I_FromExports es => list_wf MAX_WASM_INSTANTIATION_ARGS export_wf es
  end.

Definition component_arg_wf (a : ComponentInstantiationArg) : Prop := str_wf (carg_name a) /\ in_u 32 (carg_index a).

(** The exports of an instance have no types. *)
Definition untyped_export_wf (e : ComponentExport) : Prop := component_export_wf e /\ ce_ty e = None.

Definition component_instance_wf (i : ComponentInstance) : Prop :=
  match i with
  | CI_Instantiate i args => in_u 32 i /\ list_wf MAX_WASM_INSTANTIATION_ARGS component_arg_wf args
  | CI_FromExports es => list_wf MAX_WASM_INSTANTIATION_EXPORTS untyped_export_wf es
  end.

(** Types nested to a depth less than [n]. *)
Section declarations.
Context (f : WasmFeatures) (wf : ComponentType -> Prop).

Definition instance_decl_wf (d : InstanceTypeDeclaration) : Prop :=
  match d with
  | ITD_CoreType t => core_type_wf f t
  | ITD_Type t => wf t
  | ITD_Alias a => alias_wf a
  | ITD_Export name ty => str_wf (export_name_str name) /\ component_type_ref_wf ty
  end.

Definition component_decl_wf (d : ComponentTypeDeclaration) : Prop :=
  match d with
  | CTD_CoreType t => core_type_wf f t
  | CTD_Type t => wf t
  | CTD_Alias a => alias_wf a
  | CTD_Export name ty => str_wf (export_name_str name) /\ component_type_ref_wf ty
  | CTD_Import i => component_import_wf i
  end.

Definition type_layer_wf (t : ComponentType) : Prop :=
  match t with
  | CT_Defined t => defined_type_wf t
  | CT_Func t => component_func_wf t
  | CT_Component ds => list_wf MAX_WASM_COMPONENT_TYPE_DECLS component_decl_wf ds
  | CT_Instance ds => list_wf MAX_WASM_INSTANCE_TYPE_DECLS instance_decl_wf ds
  | CT_Resource rep dtor => vt_module rep /\ opt_wf (in_u 32) dtor
  end.
End declarations.

Fixpoint nested_type_wf (f : WasmFeatures) (n : nat) (t : ComponentType) : Prop :=
  match n with
  | O => False
  | S n => type_layer_wf f (nested_type_wf f n) t
  end.

Definition component_type_wf (f : WasmFeatures) (t : ComponentType) : Prop := exists n, nested_type_wf f n t.

(** ** Arbitrary bytes *)

(** Items of a list that are read from position [k0] on. *)
Lemma wp_read_n_from E r0 {A} `{FromReader A} n k0 k (P : A -> Prop) (Q : list A -> nat -> Prop) :
  (k0 <= k)%nat ->
  (forall k, (k0 <= k)%nat -> wp E r0 k read (fun (a : A) _ => P a)) ->
  (forall xs k', (k <= k')%nat -> length xs = n -> Forall P xs -> Q xs k') ->
  wp E r0 k (read_n n) Q.
Proof.
  intros Hk HP. revert k Q Hk. induction n as [|n IH]; intros k Q Hk HQ; cbn [read_n].
  - apply wp_ret, HQ; [lia|done|constructor].
  - apply wp_bind. eapply wp_mono; [by apply HP|]. intros x k1 Hk1 Hx; simpl in Hx.
    apply wp_bind, IH; [lia|]. intros xs k2 Hk2 Hl Hxs. apply wp_ret, HQ; [lia|simpl; lia|].
    by constructor.
Qed.

Section wp.
Context (E : BinaryReaderError -> Prop) (r0 : BinaryReader).
Hypothesis Henv : wp_env E r0.
Implicit Types k : nat.

Lemma wp_iter_from {A} `{FromReader A} k limit desc (P : A -> Prop) (Q : list A -> nat -> Prop) :
  (forall k', (k < k')%nat -> wp E r0 k' read (fun (a : A) _ => P a)) ->
  (forall xs k', (k < k')%nat -> list_wf limit P xs -> Q xs k') ->
  wp E r0 k (read_iter limit desc) Q.
Proof.
  intros HP HQ. apply wp_bind, wp_size; [done|]. intros n k1 Hk1 Hn.
  apply (wp_read_n_from E r0 _ (S k) _ P); [lia|intros; apply HP; lia|].
  intros xs k2 Hk2 Hl Hxs. apply HQ; [lia|]. split; [lia|done].
Qed.

Lemma wp_list {A P} `{HA : Readable A P} k limit desc (Q : list A -> nat -> Prop) :
  (forall xs k', (k < k')%nat -> list_wf limit (P (features r0)) xs -> Q xs k') ->
  wp E r0 k (read_iter limit desc) Q.
Proof.
  apply wp_iter_from. intros k' _. apply HA; [done|]. by intros a k2 _ Ha.
Qed.
End wp.

Ltac wp_component :=
  match goal with
  | |- wp _ _ _ (read (A := _)) _ => apply wp_readable; [done|intros ? ? ? ?]
  | |- wp _ _ _ (read_iter _ _) _ => refine (wp_list _ _ ltac:(eassumption) _ _ _ _ _); intros ? ? ? ?
  | |- wp _ _ _ read_string _ => apply wp_read_string; [done|intros ? ? ? ?]
  | |- wp _ _ _ (invalid_leading_byte _ _) _ => apply wp_invalid_leading_byte; [done|lia]
  end.
Ltac wp_go := repeat first [wp_component | wp_step].
(** The end of an execution: the postcondition, for a well-formed value. *)
Ltac wp_end := match goal with HQ : forall _ _, _ -> _ -> ?Q _ _ |- ?Q _ _ => apply HQ; [lia|done] end.
Ltac readable_start x :=
  let E := fresh "E" in let r0 := fresh "r0" in let k := fresh "k" in let Q := fresh "Q" in
  intros E r0 k Q ? HQ; change (wp E r0 k x Q); unfold x.
Ltac readable x := readable_start x; wp_go; wp_end.

#[export] Instance u32_readable : Readable Z (fun _ => in_u 32).
Proof. intros E r0 k Q Henv HQ. by apply wp_var_u32. Qed.

#[export] Instance Str_readable : Readable Str (fun _ => str_wf).
Proof. intros E r0 k Q Henv HQ. by apply wp_str. Qed.

#[export] Instance bool_readable : Readable bool (fun _ _ => True).
Proof. readable from_reader_bool. Qed.

#[export] Instance ExternalKind_readable : Readable ExternalKind (fun _ _ => True).
Proof. intros E r0 k Q Henv HQ. apply wp_external_kind; [done|]. intros x. apply HQ; [lia|done]. Qed.

#[export] Instance TypeRef_readable : Readable TypeRef type_ref_wf.
Proof. intros E r0 k Q Henv HQ. by apply wp_type_ref. Qed.

#[export] Instance Import_readable : Readable Import import_wf.
Proof. intros E r0 k Q Henv HQ. by apply wp_import. Qed.

#[export] Instance Export_readable : Readable Export (fun _ => export_wf).
Proof. intros E r0 k Q Henv HQ. by apply wp_export. Qed.

#[export] Instance RecGroup_readable : Readable RecGroup (fun _ => rec_group_wf).
Proof. intros E r0 k Q Henv HQ. by apply wp_rec_group. Qed.

#[export] Instance ValType_readable : Readable ValType (fun _ => vt_module).
Proof. intros E r0 k Q Henv HQ. by apply wp_val_type. Qed.

#[export] Instance pair_readable {A B PA PB} `{HA : Readable A PA, HB : Readable B PB} :
  Readable (A * B) (fun f p => PA f (fst p) /\ PB f (snd p)).
Proof.
  intros E r0 k Q Henv HQ. change (wp E r0 k (from_reader_pair (A := A) (B := B)) Q).
  unfold from_reader_pair. wp_go. wp_end.
Qed.

#[export] Instance ComponentValType_readable : Readable ComponentValType (fun _ => val_type_wf).
Proof.
  readable_start from_reader_component_val_type. do 2 wp_step.
  destruct (primitive_from_byte b); wp_run; (apply HQ; [lia|]); [done|].
  unfold val_type_wf, in_u, wrap. by apply Z.mod_pos_bound.
Qed.

#[export] Instance option_val_type_readable : Readable (option ComponentValType) (fun _ => opt_wf val_type_wf).
Proof. readable from_reader_option_val_type. Qed.

(** The two bytes of a sort, of which the second is there when the first is zero. *)
Definition sort_bytes (k k' : nat) (b1 : Z) (b2 : option Z) : Prop :=
  match b2 with Some _ => (k + 2 <= k')%nat | None => b1 <> 0 /\ (k < k')%nat end.

Lemma wp_sort E r0 k (Q : Z * option Z -> nat -> Prop) :
  wp_env E r0 -> (forall b1 b2 k', sort_bytes k k' b1 b2 -> Q (b1, b2) k') -> wp E r0 k read_sort Q.
Proof.
  intros Henv HQ. unfold read_sort. do 2 wp_step.
  destruct (Z.eqb_spec b 0x00); wp_run; apply HQ; simpl; [lia|]. split; [done|lia].
Qed.

(** A kind that the bytes of a sort stand for: its errors are in the sort. *)
Definition sort_result {A} (g : Z -> option Z -> Z -> result A) : Prop :=
  forall b1 b2 off, match g b1 b2 off with
  | Ok _ => True
  | Err e => offset e = off \/ (b2 <> None /\ offset e = off + 1)
  | Panic => b1 = 0 /\ b2 = None
  end.

Lemma wp_kind {A} E r0 k k1 k' (g : Z -> option Z -> Z -> result A) b1 b2 (Q : A -> nat -> Prop) :
  wp_env E r0 -> sort_result g -> sort_bytes k k1 b1 b2 -> (k1 <= k')%nat -> (forall a, Q a k') ->
  wp E r0 k' (lift_result (g b1 b2 (original_position r0 + Z.of_nat k))) Q.
Proof.
  intros Henv Hg Hs Hk1 HQ Hk'. exists k'. split; [lia|]. split; [done|]. unfold lift_result. cbn [fst].
  specialize (Hg b1 b2 (original_position r0 + Z.of_nat k)). unfold sort_bytes in Hs.
  pose proof (end_position E r0 Henv k' Hk'). destruct (g _ _ _) as [a|e|]; [done| |].
  - apply (env_err _ _ Henv). unfold err_in_range. destruct b2, Hg as [Hg|[Hg1 Hg]]; try done; lia.
  - destruct Hg as [-> ->]. by destruct Hs.
Qed.

Ltac sort_result := intros b1 b2 off; repeat case_match; simplify_eq; auto; (right; split; [done|reflexivity]).

Lemma external_kind_result : sort_result component_external_kind_from_bytes.
Proof. unfold component_external_kind_from_bytes. sort_result. Qed.

Lemma outer_alias_kind_result : sort_result component_outer_alias_kind_from_bytes.
Proof. unfold component_outer_alias_kind_from_bytes. sort_result. Qed.

Lemma core_instance_kind_result : sort_result core_instance_export_kind.
Proof. unfold core_instance_export_kind, external_kind_from_byte. sort_result. Qed.

#[export] Instance ComponentExternalKind_readable : Readable ComponentExternalKind (fun _ _ => True).
Proof.
  readable_start from_reader_component_external_kind. do 2 wp_step.
  apply wp_bind, wp_sort; [done|]. intros b1 b2 k' Hs.
  eapply wp_kind; [done|apply external_kind_result|done|done|]. intros a. apply HQ; [|done].
  unfold sort_bytes in Hs. destruct b2; lia.
Qed.

#[export] Instance ComponentExportName_readable :
  Readable ComponentExportName (fun _ n => str_wf (export_name_str n)).
Proof. readable from_reader_component_export_name. Qed.

#[export] Instance ComponentImportName_readable :
  Readable ComponentImportName (fun _ n => str_wf (import_name_str n)).
Proof. readable from_reader_component_import_name. Qed.

#[export] Instance TypeBounds_readable : Readable TypeBounds (fun _ => bounds_wf).
Proof. readable from_reader_type_bounds. Qed.

#[export] Instance ComponentTypeRef_readable : Readable ComponentTypeRef (fun _ => component_type_ref_wf).
Proof. readable from_reader_component_type_ref. Qed.

#[export] Instance ComponentImport_readable : Readable ComponentImport (fun _ => component_import_wf).
Proof. readable from_reader_component_import. Qed.

#[export] Instance ComponentExport_readable : Readable ComponentExport (fun _ => component_export_wf).
Proof. readable from_reader_component_export. Qed.

#[export] Instance ComponentAlias_readable : Readable ComponentAlias (fun _ => alias_wf).
Proof.
  readable_start from_reader_component_alias. do 2 wp_step.
  apply wp_bind, wp_sort; [done|]. intros b1 b2 k1 Hs. do 2 wp_step.
  assert (Hk : (k < k1)%nat) by (unfold sort_bytes in Hs; destruct b2; lia).
  repeat match goal with |- wp _ _ _ (match ?x with _ => _ end) _ => destruct x end; try (wp_go; fail);
    apply wp_bind; (eapply wp_kind;
      [done|first [apply external_kind_result | apply core_instance_kind_result | apply outer_alias_kind_result]
      |exact Hs|lia|]); intros kind; wp_go; wp_end.
Qed.

#[export] Instance ModuleTypeDeclaration_readable : Readable ModuleTypeDeclaration module_decl_wf.
Proof. readable from_reader_module_type_declaration. Qed.

#[export] Instance CoreType_readable : Readable CoreType core_type_wf.
Proof. readable from_reader_core_type. Qed.

#[export] Instance VariantCase_readable : Readable VariantCase (fun _ => case_wf).
Proof. readable from_reader_variant_case. Qed.

Lemma wp_component_defined_type E r0 k byte (Q : ComponentDefinedType -> nat -> Prop) :
  wp_env E r0 -> (0 < k)%nat -> (forall t k', (k <= k')%nat -> defined_type_wf t -> Q t k') ->
  wp E r0 k (read_component_defined_type byte) Q.
Proof. intros Henv Hk HQ. unfold read_component_defined_type. wp_go; apply HQ; try lia; done. Qed.

#[export] Instance ComponentFuncResult_readable : Readable ComponentFuncResult (fun _ => func_result_wf).
Proof. readable from_reader_component_func_result. Qed.

#[export] Instance InstantiationArgKind_readable : Readable InstantiationArgKind (fun _ _ => True).
Proof. readable from_reader_instantiation_arg_kind. Qed.

#[export] Instance InstantiationArg_readable : Readable InstantiationArg (fun _ => arg_wf).
Proof. readable from_reader_instantiation_arg. Qed.

#[export] Instance Instance_readable : Readable Instance_ (fun _ => instance_wf).
Proof. readable from_reader_instance. Qed.

#[export] Instance ComponentInstantiationArg_readable :
  Readable ComponentInstantiationArg (fun _ => component_arg_wf).
Proof. readable from_reader_component_instantiation_arg. Qed.

#[export] Instance ComponentInstance_readable : Readable ComponentInstance (fun _ => component_instance_wf).
Proof.
  readable_start from_reader_component_instance. do 2 wp_step.
  repeat match goal with |- wp _ _ _ (match ?x with _ => _ end) _ => destruct x end; try (wp_go; wp_end; fail);
    try (wp_go; fail).
  apply wp_bind, wp_size; [done|]. intros n k1 Hk1 Hn. apply wp_bind.
  apply (wp_read_n_from E r0 (H := read_untyped_export) _ 0 _ untyped_export_wf); [lia| |].
  - intros k2 _. change (wp E r0 k2 read_untyped_export (fun e _ => untyped_export_wf e)).
    unfold read_untyped_export. wp_go. by split.
  - intros es k2 Hk2 Hl Hes. apply wp_ret, HQ; [lia|]. split; [lia|done].
Qed.

#[export] Instance CanonicalOption_readable : Readable CanonicalOption (fun _ => canonical_option_wf).
Proof. readable from_reader_canonical_option. Qed.

#[export] Instance CanonicalFunction_readable : Readable CanonicalFunction (fun _ => canonical_wf).
Proof. readable_start from_reader_canonical_function. unfold read_options. wp_go; wp_end. Qed.

(** ** Nested types *)

Section layer.
Context (E : BinaryReaderError -> Prop) (r0 : BinaryReader) (wf : ComponentType -> Prop).
Context (read_type : Reader ComponentType) (k0 : nat).
Hypothesis Henv : wp_env E r0.
(** What is nested is read from [k0] on. *)
Hypothesis Htype : forall k, (k0 <= k)%nat -> wp E r0 k read_type (fun t k' => (k < k')%nat /\ wf t).
Implicit Types k : nat.

Lemma wp_nested k (Q : ComponentType -> nat -> Prop) :
  (k0 <= k)%nat -> (forall t k', (k < k')%nat -> wf t -> Q t k') -> wp E r0 k read_type Q.
Proof. intros Hk HQ. eapply wp_mono; [by apply Htype|]. intros t k' _ [Hk' Ht]. by apply HQ. Qed.

Lemma wp_instance_declaration k (Q : InstanceTypeDeclaration -> nat -> Prop) :
  (k0 <= k)%nat ->
  (forall d k', (k < k')%nat -> instance_decl_wf (features r0) wf d -> Q d k') ->
  wp E r0 k (read_instance_type_declaration read_type) Q.
Proof.
  intros Hk HQ. unfold read_instance_type_declaration.
  wp_go; try wp_end. apply wp_nested; [lia|]. intros t k' Hk' Ht. wp_go. wp_end.
Qed.

Lemma wp_component_declaration k (Q : ComponentTypeDeclaration -> nat -> Prop) :
  (k0 <= k)%nat ->
  (forall d k', (k < k')%nat -> component_decl_wf (features r0) wf d -> Q d k') ->
  wp E r0 k (read_component_type_declaration read_type) Q.
Proof.
  intros Hk HQ. unfold read_component_type_declaration. do 2 wp_step. destruct (b =? 0x03); [wp_go; wp_end|].
  apply wp_bind, wp_instance_declaration; [done|]. intros d k' Hk' Hd. apply wp_ret, HQ; [lia|]. by destruct d.
Qed.
End layer.

Lemma wp_type_layer E r0 k wf read_type (Q : ComponentType -> nat -> Prop) :
  wp_env E r0 ->
  (forall k', (k < k')%nat -> wp E r0 k' read_type (fun t k2 => (k' < k2)%nat /\ wf t)) ->
  (forall t k', (k < k')%nat -> type_layer_wf (features r0) wf t -> Q t k') ->
  wp E r0 k (read_component_type (read_component_type_declaration read_type)
    (read_instance_type_declaration read_type)) Q.
Proof.
  intros Henv Ht HQ. unfold read_component_type. do 2 wp_step.
  assert (Hother : wp E r0 (S k) (match primitive_from_byte b with
    | Some ty => mret (CT_Defined (CD_Primitive ty))
    | None => t ← read_component_defined_type b; mret (CT_Defined t)
    end) Q).
  { destruct (primitive_from_byte b); [wp_go; wp_end|].
    apply wp_bind, wp_component_defined_type; [done|lia|]. intros t k1 Hk1 Hd. apply wp_ret, HQ; [lia|done]. }
  repeat match goal with |- wp _ _ _ (match ?x with _ => _ end) _ => is_var x; destruct x end; try exact Hother;
    try (wp_go; wp_end; fail).
  - apply wp_bind, (wp_iter_from E r0 Henv (H := read_component_type_declaration read_type) _ _ _
      (component_decl_wf (features r0) wf)).
    + intros k1 Hk1. apply (wp_component_declaration E r0 wf read_type (S k)); [done|intros; apply Ht; lia|lia|done].
    + intros ds k1 Hk1 Hds. apply wp_ret, HQ; [lia|done].
  - apply wp_bind, (wp_iter_from E r0 Henv (H := read_instance_type_declaration read_type) _ _ _
      (instance_decl_wf (features r0) wf)).
    + intros k1 Hk1. apply (wp_instance_declaration E r0 wf read_type (S k)); [done|intros; apply Ht; lia|lia|done].
    + intros ds k1 Hk1 Hds. apply wp_ret, HQ; [lia|done].
Qed.

(** Each level of nesting consumes a byte: the fuel does not run out. *)
Lemma wp_component_type_reader E r0 n k (Q : ComponentType -> nat -> Prop) :
  wp_env E r0 -> (length (remaining_buffer r0) - k < n)%nat ->
  (forall t k', (k < k')%nat -> nested_type_wf (features r0) n t -> Q t k') ->
  wp E r0 k (component_type_reader n) Q.
Proof.
  intros Henv. revert k Q. induction n as [|n IH]; intros k Q Hn HQ; [lia|].
  apply (wp_type_layer E r0 k (nested_type_wf (features r0) n)); [done| |done].
  intros k' Hk' Hl. apply IH; [lia|done|done].
Qed.

#[export] Instance ComponentType_readable : Readable ComponentType component_type_wf.
Proof.
  intros E r0 k Q Henv HQ Hk.
  pose proof (wp_component_type_reader E r0 (S (length (remaining_buffer (advance k r0)))) k Q Henv) as H.
  rewrite (remaining_at E r0 Henv), length_drop in H. specialize (H ltac:(lia)).
  unfold read, from_reader, FromReader_ComponentType, from_reader_component_type.
  rewrite (remaining_at E r0 Henv), length_drop. apply H; [|done].
  intros t k' Hk' Ht. apply HQ; [done|by eexists].
Qed.
