(* ===== verification/ComponentNames.v ===== *)
(** Import and export names of components:
    [crates/wasmparser/src/validator/names.rs].

    A string is the list of its characters, as code points; positions count
    characters, which denotes the same slices as the byte positions of the code.
    The crate semver is the class [Semver]: versions, and which strings are
    versions. *)

From Stdlib Require Import ZArith Lia String Ascii.
From stdpp Require Import prelude.
From S2P Require Import Prelude StateLogic BinaryReader.

Local Open Scope Z_scope.

(** ** Strings *)

Abbreviation Chars := (list Z).

Definition chars (s : string) : Chars := map (fun a => Z.of_N (N_of_ascii a)) (list_ascii_of_string s).
Arguments chars _%_string_scope.

Definition DASH : Z := 0x2d.
Definition DOT : Z := 0x2e.
Definition COLON : Z := 0x3a.
Definition SLASH : Z := 0x2f.
Definition AT : Z := 0x40.
Definition LT_ : Z := 0x3c.
Definition GT_ : Z := 0x3e.

Definition is_az (c : Z) : bool := (0x61 <=? c) && (c <=? 0x7a).
Definition is_AZ (c : Z) : bool := (0x41 <=? c) && (c <=? 0x5a).
Definition is_digit (c : Z) : bool := (0x30 <=? c) && (c <=? 0x39).

(** [char::len_utf8] and [str::len]. *)
Definition len_utf8 (c : Z) : Z := if c <? 0x80 then 1 else if c <? 0x800 then 2 else if c <? 0x10000 then 3 else 4.
Definition str_len (s : Chars) : Z := foldr (fun c n => len_utf8 c + n) 0 s.

Definition to_ascii_lowercase (c : Z) : Z := if is_AZ c then c + 32 else c.

(** [char::is_whitespace]. *)
Definition is_whitespace (c : Z) : bool :=
  ((0x9 <=? c) && (c <=? 0xd)) || (c =? 0x20) || (c =? 0x85) || (c =? 0xa0) || (c =? 0x1680)
  || ((0x2000 <=? c) && (c <=? 0x200a)) || (c =? 0x2028) || (c =? 0x2029) || (c =? 0x202f) || (c =? 0x205f)
  || (c =? 0x3000).

Fixpoint strip_prefix (prefix s : Chars) : option Chars :=
  match prefix, s with
  | [], _ => Some s
  | a :: prefix, c :: s => if a =? c then strip_prefix prefix s else None
  | _ :: _, [] => None
  end.

Fixpoint str_find (f : Z -> bool) (s : Chars) : option nat :=
  match s with
  | [] => None
  | c :: s => if f c then Some 0%nat else S <$> str_find f s
  end.

Fixpoint str_rfind (f : Z -> bool) (s : Chars) : option nat :=
  match s with
  | [] => None
  | c :: s =>
      match str_rfind f s with
      | Some i => Some (S i)
      | None => if f c then Some 0%nat else None
      end
  end.

Definition contains (c : Z) (s : Chars) : bool := existsb (Z.eqb c) s.

Definition starts_with (c : Z) (s : Chars) : bool := match s with a :: _ => a =? c | [] => false end.

Definition ends_with (c : Z) (s : Chars) : bool := match last s with Some a => a =? c | None => false end.

(** [&s[start..stop]] and [&s[start..]]. *)
Definition str_slice (start stop : nat) (s : Chars) : option Chars :=
  if (start <=? stop)%nat && (stop <=? length s)%nat then Some (take (stop - start) (drop start s)) else None.
Definition str_from (start : nat) (s : Chars) : option Chars := str_slice start (length s) s.

Fixpoint words_from (word : Chars) (s : Chars) : list Chars :=
  match s with
  | [] => match word with [] => [] | _ => [word] end
  | c :: s =>
      if is_whitespace c then match word with [] => words_from [] s | _ => word :: words_from [] s end
      else words_from (word ++ [c]) s
  end.
Definition split_whitespace (s : Chars) : list Chars := words_from [] s.

(** [char] and [str] are compared by code point, lexicographically. *)
Fixpoint str_cmp (s t : Chars) : comparison :=
  match s, t with
  | [], [] => Eq
  | [], _ :: _ => Lt
  | _ :: _, [] => Gt
  | a :: s, b :: t => match a ?= b with Eq => str_cmp s t | x => x end
  end.

(** What a value feeds into a [Hasher]. *)
Inductive HashInput := HashU8 (n : Z) | HashLen (n : Z) | HashChar (c : Z) | HashStr (s : Chars).

(** ** Kebab strings *)

Fixpoint kebab_loop (lower upper : bool) (cs : Chars) : bool :=
  match cs with
  | [] => true
  | c :: cs =>
      if is_az c && negb lower && negb upper then kebab_loop true upper cs
      else if is_AZ c && negb lower && negb upper then kebab_loop lower true cs
      else if is_az c && lower then kebab_loop lower upper cs
      else if is_AZ c && upper then kebab_loop lower upper cs
      else if is_digit c && (lower || upper) then kebab_loop lower upper cs
      else if (c =? DASH) && (lower || upper) then kebab_loop false false cs
      else false
  end.

Definition is_kebab_case (s : Chars) : bool :=
  kebab_loop false false s && (negb (bool_decide (s = [])) && negb (ends_with DASH s)).

Record KebabStr := new_unchecked { kebab_str : Chars }.

Definition KebabStr_new (s : Chars) : option KebabStr := if is_kebab_case s then Some (new_unchecked s) else None.

Definition kebab_eq (a b : KebabStr) : bool :=
  if negb (str_len (kebab_str a) =? str_len (kebab_str b)) then false
  else forallb (fun '(x, y) => to_ascii_lowercase x =? to_ascii_lowercase y) (zip (kebab_str a) (kebab_str b)).

Definition kebab_cmp (a b : KebabStr) : comparison :=
  str_cmp (map to_ascii_lowercase (kebab_str a)) (map to_ascii_lowercase (kebab_str b)).

Definition kebab_hash (a : KebabStr) : list HashInput :=
  HashLen (str_len (kebab_str a)) :: map (fun c => HashChar (to_ascii_lowercase c)) (kebab_str a).

(** ** Names *)

Inductive ParsedComponentNameKind := PLabel | PConstructor | PMethod | PStatic | PInterface | PDependency | PUrl | PHash.

Record ComponentName := mkComponentName { raw : Chars; parsed_kind : ParsedComponentNameKind }.

Record ResourceFunc := mkResourceFunc { resource_func_str : Chars }.
Record InterfaceName := mkInterfaceName { interface_name_str : Chars }.
Record DependencyName := mkDependencyName { dependency_name_str : Chars }.
Record UrlName := mkUrlName { url_name_str : Chars }.
Record HashName := mkHashName { hash_name_str : Chars }.

Inductive ComponentNameKind :=
| Label (s : KebabStr)
| Constructor (s : KebabStr)
| Method (f : ResourceFunc)
| Static (f : ResourceFunc)
| Interface (i : InterfaceName)
| Dependency (d : DependencyName)
| Url (u : UrlName)
| Hash (h : HashName).

Definition CONSTRUCTOR : Chars := chars "[constructor]".
Definition METHOD : Chars := chars "[method]".
Definition STATIC : Chars := chars "[static]".

(** [ComponentName::kind]; [None] when a slice is out of range. *)
Definition component_name_kind (n : ComponentName) : option ComponentNameKind :=
  match parsed_kind n with
  | PLabel => Some (Label (new_unchecked (raw n)))
  | PConstructor => s ← str_from (length CONSTRUCTOR) (raw n); Some (Constructor (new_unchecked s))
  | PMethod => s ← str_from (length METHOD) (raw n); Some (Method (mkResourceFunc s))
  | PStatic => s ← str_from (length STATIC) (raw n); Some (Static (mkResourceFunc s))
  | PInterface => Some (Interface (mkInterfaceName (raw n)))
  | PDependency => Some (Dependency (mkDependencyName (raw n)))
  | PUrl => Some (Url (mkUrlName (raw n)))
  | PHash => Some (Hash (mkHashName (raw n)))
  end.

(** [ComponentNameKind::kind]. *)
Definition name_kind_of (k : ComponentNameKind) : ParsedComponentNameKind :=
  match k with
  | Label _ => PLabel
  | Constructor _ => PConstructor
  | Method _ => PMethod
  | Static _ => PStatic
  | Interface _ => PInterface
  | Dependency _ => PDependency
  | Url _ => PUrl
  | Hash _ => PHash
  end.

(** The derived order, that of the declaration. *)
Definition kind_rank (k : ParsedComponentNameKind) : Z :=
  match k with
  | PLabel => 0 | PConstructor => 1 | PMethod => 2 | PStatic => 3 | PInterface => 4 | PDependency => 5 | PUrl => 6
  | PHash => 7
  end.
Definition parsed_kind_cmp (a b : ParsedComponentNameKind) : comparison := kind_rank a ?= kind_rank b.

(** The arms for different kinds come after the test of the kinds; [None] is [unreachable!]. *)
Definition kind_cmp (a b : ComponentNameKind) : option comparison :=
  match parsed_kind_cmp (name_kind_of a) (name_kind_of b) with
  | Eq =>
      match a, b with
      | Label lhs, Label rhs => Some (kebab_cmp lhs rhs)
      | Constructor lhs, Constructor rhs => Some (kebab_cmp lhs rhs)
      | Method lhs, Method rhs | Method lhs, Static rhs | Static lhs, Method rhs | Static lhs, Static rhs =>
          Some (str_cmp (resource_func_str lhs) (resource_func_str rhs))
      | Interface lhs, Interface rhs => Some (str_cmp (interface_name_str lhs) (interface_name_str rhs))
      | Dependency lhs, Dependency rhs => Some (str_cmp (dependency_name_str lhs) (dependency_name_str rhs))
      | Url lhs, Url rhs => Some (str_cmp (url_name_str lhs) (url_name_str rhs))
      | Hash lhs, Hash rhs => Some (str_cmp (hash_name_str lhs) (hash_name_str rhs))
      | _, _ => None
      end
  | unequal => Some unequal
  end.

Definition kind_hash (k : ComponentNameKind) : list HashInput :=
  match k with
  | Label name => HashU8 0 :: kebab_hash name
  | Constructor name => HashU8 1 :: kebab_hash name
  | Method name | Static name => [HashU8 2; HashStr (resource_func_str name)]
  | Interface name => [HashU8 3; HashStr (interface_name_str name)]
  | Dependency name => [HashU8 4; HashStr (dependency_name_str name)]
  | Url name => [HashU8 5; HashStr (url_name_str name)]
  | Hash name => [HashU8 6; HashStr (hash_name_str name)]
  end.

Definition kind_eq (a b : ComponentNameKind) : bool :=
  match a, b with
  | Label a, Label b => kebab_eq a b
  | Constructor a, Constructor b => kebab_eq a b
  | Method a, Method b | Static a, Static b | Method a, Static b | Static a, Method b =>
      bool_decide (resource_func_str a = resource_func_str b)
  | Interface a, Interface b => bool_decide (interface_name_str a = interface_name_str b)
  | Dependency a, Dependency b => bool_decide (dependency_name_str a = dependency_name_str b)
  | Url a, Url b => bool_decide (url_name_str a = url_name_str b)
  | Hash a, Hash b => bool_decide (hash_name_str a = hash_name_str b)
  | _, _ => false
  end.

(** The instances of [ComponentName], through [kind]; [None] is a panic.
    [partial_cmp] compares the parsed kinds only. *)
Definition name_hash (n : ComponentName) : option (list HashInput) := k ← component_name_kind n; Some (kind_hash k).
Definition name_eq (a b : ComponentName) : option bool :=
  x ← component_name_kind a; y ← component_name_kind b; Some (kind_eq x y).
Definition name_cmp (a b : ComponentName) : option comparison :=
  x ← component_name_kind a; y ← component_name_kind b; kind_cmp x y.
Definition name_partial_cmp (a b : ComponentName) : option comparison :=
  Some (parsed_kind_cmp (parsed_kind a) (parsed_kind b)).

(** ** Parts of names; [None] is a panic *)

Definition is_char (c : Z) : Z -> bool := Z.eqb c.

Definition resource (f : ResourceFunc) : option KebabStr :=
  dot ← str_find (is_char DOT) (resource_func_str f);
  s ← str_slice 0 dot (resource_func_str f);
  Some (new_unchecked s).

Definition namespace (i : InterfaceName) : option KebabStr :=
  colon ← str_rfind (is_char COLON) (interface_name_str i);
  s ← str_slice 0 colon (interface_name_str i);
  Some (new_unchecked s).

Definition package (i : InterfaceName) : option KebabStr :=
  colon ← str_rfind (is_char COLON) (interface_name_str i);
  slash ← str_find (is_char SLASH) (interface_name_str i);
  s ← str_slice (colon + 1) slash (interface_name_str i);
  Some (new_unchecked s).

Definition find_or_end (c : Z) (s : Chars) : nat :=
  match str_find (is_char c) s with Some i => i | None => length s end.

Definition projection (i : InterfaceName) : option KebabStr :=
  slash ← str_find (is_char SLASH) (interface_name_str i);
  s ← str_slice (slash + 1) (find_or_end AT (interface_name_str i)) (interface_name_str i);
  Some (new_unchecked s).

Definition interface (i : InterfaceName) : option KebabStr :=
  p ← projection i;
  s ← str_slice 0 (find_or_end SLASH (kebab_str p)) (kebab_str p);
  Some (new_unchecked s).

(** ** Parsing *)

(** [semver::Version::parse]. *)
Class Semver := {
  Version : Type;
  version_parse : Chars -> option Version;
}.

(** A version is made of letters, digits, dots, dashes and pluses. *)
Definition semver_char (c : Z) : bool := is_az c || is_AZ c || is_digit c || (c =? DOT) || (c =? DASH) || (c =? 0x2b).
Class SemverSpec (V : Semver) := {
  version_chars s v : version_parse s = Some v -> Forall (fun c => semver_char c = true) s;
}.

(** The version of an interface name: [None] is a panic. *)
Definition interface_version {V : Semver} (i : InterfaceName) : option (option Version) :=
  match str_find (is_char AT) (interface_name_str i) with
  | None => Some None
  | Some at_ =>
      s ← str_from (at_ + 1) (interface_name_str i);
      v ← version_parse s;
      Some (Some v)
  end.

Record ComponentNameParser := mkNameParser { next : Chars; np_offset : Z; np_features : WasmFeatures }.

Abbreviation Parse := (ST ComponentNameParser).

Definition set_next (s : Chars) (p : ComponentNameParser) : ComponentNameParser :=
  mkNameParser s (np_offset p) (np_features p).

Definition is_base64_step (i : nat) (byte : Z) (equals : Z) : option Z :=
  if (is_digit byte || is_az byte || is_AZ byte || (byte =? 0x2b) || (byte =? 0x2f)) && (equals =? 0) then Some equals
  else if (byte =? 0x3d) && (0 <? i)%nat && (equals <? 2) then Some (equals + 1)
  else None.

Fixpoint is_base64_loop (i : nat) (equals : Z) (s : Chars) : bool :=
  match s with
  | [] => true
  | byte :: s =>
      match is_base64_step i byte equals with
      | Some equals => is_base64_loop (S i) equals s
      | None => false
      end
  end.

(** A character that is not ASCII has bytes that are not accepted. *)
Definition is_base64 (s : Chars) : bool := if bool_decide (s = []) then false else is_base64_loop 0 0 s.

Definition bail_at {A} (m : string) : Parse A := offset ← gets np_offset; bail offset (lit m).
Arguments bail_at {A} _%_string_scope.

Definition eat_str (prefix : Chars) : Parse bool :=
  s ← gets next;
  match strip_prefix prefix s with
  | Some rest => modify (set_next rest);; mret true
  | None => mret false
  end.

Definition expect_str (prefix : Chars) : Parse () :=
  b ← eat_str prefix; if b : bool then mret tt else bail_at "expected `{prefix}` at `{}`".

Definition eat_up_to (c : Z) : Parse (option Chars) :=
  s ← gets next;
  match str_find (is_char c) s with
  | Some i => modify (set_next (drop i s));; mret (Some (take i s))
  | None => mret None
  end.

(** [&self.next[c.len_utf8()..]] panics when there is nothing left. *)
Definition eat_until (c : Z) : Parse (option Chars) :=
  ret ← eat_up_to c;
  match ret with
  | Some _ => s ← gets next; rest ← unwrap (str_from 1 s); modify (set_next rest);; mret ret
  | None => mret None
  end.

Definition kebab (s : Chars) : Parse KebabStr :=
  match KebabStr_new s with Some name => mret name | None => bail_at "`{s}` is not in kebab case" end.

Definition take_until (c : Z) : Parse Chars :=
  s ← eat_until c; match s with Some s => mret s | None => bail_at "failed to find `{c}` character" end.

Definition take_up_to (c : Z) : Parse Chars :=
  s ← eat_up_to c; match s with Some s => mret s | None => bail_at "failed to find `{c}` character" end.

Definition take_rest : Parse Chars := ret ← gets next; modify (set_next []);; mret ret.

Definition expect_kebab : Parse KebabStr := s ← take_rest; kebab s.

Definition not_kebab_char (c : Z) : bool := negb (is_az c || is_AZ c || is_digit c || (c =? DASH)).

Definition take_kebab : Parse KebabStr :=
  s ← gets next;
  match str_find not_kebab_char s with
  | Some i => modify (set_next (drop i s));; kebab (take i s)
  | None => expect_kebab
  end.

(** The characters of a kebab string are ASCII, so those that are alphabetic and
    not lowercase are the capital letters. *)
Definition take_lowercase_kebab : Parse KebabStr :=
  k ← take_kebab;
  if existsb is_AZ (kebab_str k) then bail_at "character `{c}` is not lowercase in package name/namespace" else mret k.

(** [while self.next.starts_with(c) { self.expect_str(c)?; take()?; }]; every turn
    takes a character. *)
Fixpoint take_while_sep (fuel : nat) (c : Z) (take_ : Parse KebabStr) : Parse () :=
  match fuel with
  | O => panic
  | S fuel =>
      s ← gets next;
      if starts_with c s then expect_str [c];; take_;; take_while_sep fuel c take_ else mret tt
  end.

Definition take_all (c : Z) (take_ : Parse KebabStr) : Parse () :=
  s ← gets next; take_while_sep (S (length s)) c take_.

Definition pkg_path (require_projection : bool) : Parse () :=
  take_lowercase_kebab;;
  expect_str [COLON];;
  take_lowercase_kebab;;
  f ← gets np_features;
  when (component_model_nested_names f) (take_all COLON take_lowercase_kebab);;
  s ← gets next;
  if starts_with SLASH s then
    expect_str [SLASH];; take_kebab;; when (component_model_nested_names f) (take_all SLASH take_kebab)
  else when require_projection (bail_at "expected `/` after package name").

Section semver.
Context {V : Semver}.

Definition semver (s : Chars) : Parse Version :=
  match version_parse s with Some v => mret v | None => bail_at "`{s}` is not a valid semver: {e}" end.

(** [self.semver(s)?;]: the version is dropped. *)
Definition check_semver (s : Chars) : Parse () := semver s;; mret tt.

Definition semver_range (range : Chars) : Parse () :=
  if bool_decide (range = chars "*") then mret tt
  else
    match strip_prefix (chars ">=") range with
    | Some range =>
        let '(lower, upper) :=
          match str_find (is_char 0x20) range with
          | Some i => (take i range, Some (drop (S i) range))
          | None => (range, None)
          end in
        check_semver lower;;
        match upper with
        | Some upper =>
            match strip_prefix [LT_] upper with
            | Some upper => check_semver upper
            | None => bail_at "expected `<` at start of version range upper bounds"
            end
        | None => mret tt
        end
    | None =>
        match strip_prefix [LT_] range with
        | Some upper => check_semver upper
        | None => bail_at "expected `>=` or `<` at start of version range"
        end
    end.

Definition check_hash (hash : Chars) : Parse () :=
  let rest := match strip_prefix (chars "sha256") hash with
              | Some s => Some s
              | None =>
                  match strip_prefix (chars "sha384") hash with
                  | Some s => Some s
                  | None => strip_prefix (chars "sha512") hash
                  end
              end in
  match rest with
  | None => bail_at "unrecognized hash algorithm: `{hash}`"
  | Some rest =>
      match strip_prefix [DASH] rest with
      | None => bail_at "expected `-` after hash algorithm: {hash}"
      | Some rest =>
          let base64 := match str_find (is_char 0x3f) rest with Some i => take i rest | None => rest end in
          if is_base64 base64 then mret tt else bail_at "not valid base64: `{base64}`"
      end
  end.

Definition parse_hash : Parse Chars :=
  integrity ← take_up_to GT_;
  let hashes := split_whitespace integrity in
  for_ check_hash hashes;;
  if bool_decide (hashes = []) then bail_at "integrity hash cannot be empty" else mret integrity.

Definition eat_optional_hash : Parse (option Chars) :=
  b ← eat_str [0x2c];
  if b : bool then
    expect_str (chars "integrity=<");;
    ret ← parse_hash;
    expect_str [GT_];;
    mret (Some ret)
  else mret None.

Definition pkg_name_query : Parse () :=
  pkg_path false;;
  b ← eat_str [AT];
  if b : bool then
    star ← eat_str (chars "*");
    if star : bool then mret tt
    else
      expect_str (chars "{");;
      range ← take_up_to 0x7d;
      expect_str (chars "}");;
      semver_range range
  else mret tt.

Definition pkg_name (require_projection : bool) : Parse () :=
  pkg_path require_projection;;
  b ← eat_str [AT];
  if b : bool then
    v ← eat_up_to GT_;
    version ← match v with Some version => mret version | None => take_rest end;
    check_semver version
  else mret tt.

Definition resource_function (k : ParsedComponentNameKind) : Parse ParsedComponentNameKind :=
  resource ← take_until DOT; kebab resource;; expect_kebab;; mret k.

(** [if self.eat_str(prefix) { body; return } rest]. *)
Definition if_eat (prefix : Chars) (body rest : Parse ParsedComponentNameKind) : Parse ParsedComponentNameKind :=
  b ← eat_str prefix; if b : bool then body else rest.

Definition parse_name : Parse ParsedComponentNameKind :=
  if_eat CONSTRUCTOR (expect_kebab;; mret PConstructor)
  (if_eat METHOD (resource_function PMethod)
  (if_eat STATIC (resource_function PStatic)
  (if_eat (chars "unlocked-dep=")
    (expect_str [LT_];; pkg_name_query;; expect_str [GT_];; mret PDependency)
  (if_eat (chars "locked-dep=")
    (expect_str [LT_];; pkg_name false;; expect_str [GT_];; eat_optional_hash;; mret PDependency)
  (if_eat (chars "url=")
    (expect_str [LT_];;
     url ← take_up_to GT_;
     when (contains LT_ url) (bail_at "url cannot contain `<`");;
     expect_str [GT_];;
     eat_optional_hash;;
     mret PUrl)
  (if_eat (chars "integrity=")
    (expect_str [LT_];; parse_hash;; expect_str [GT_];; mret PHash)
  (s ← gets next;
   if contains COLON s then pkg_name true;; mret PInterface else expect_kebab;; mret PLabel))))))).

Definition ComponentName_new_with_features (name : Chars) (offset : Z) (features : WasmFeatures) : result ComponentName :=
  match parse_name (mkNameParser name offset features) with
  | (Ok kind, parser) =>
      if negb (bool_decide (next parser = [])) then Err (err_new (lit "trailing characters found: `{}`") offset)
      else Ok (mkComponentName name kind)
  | (Err e, _) => Err e
  | (Panic, _) => Panic
  end.

Definition ComponentName_new (name : Chars) (offset : Z) : result ComponentName :=
  ComponentName_new_with_features name offset WasmFeatures_default.
End semver.
