(* ===== verification/Migrate.v ===== *)
(** The injection of checkpoint and restore procedures, [crates/wasm-migrate/src/lib.rs]:
    the data of a module, the regions of a function, the variables that they
    modify and read, and the instructions that are injected.

    [ModuleData] is split by the pass that fills its fields: [ModuleSections] is
    filled while the module is read, the other records by one pass of
    [pre_module_encoding] each.  A pass returns the fields that it fills, which
    are empty before it.  [None] is a panic; a [HashSet] is a finite set with an
    order of iteration that is a parameter, since Rust does not specify it. *)

From Stdlib Require Import ZArith Lia String.
From stdpp Require Import prelude gmap.
From S2P Require Import Prelude Leb128 BinaryReader Encode Types EncTypes Operands Operators OperatorReader.
From S2P Require Import Instructions Reencode SectionReader CompositeTypes Items EncSections ReencodeSections Parser.

Local Open Scope Z_scope.

Module WM.

(** ** The tree of blocks *)

Inductive NodeType := CODE | BLOCK | LOOP | IF | ELSE.

Record TreeNode := mkTreeNode {
  index : Z;
  node_type : NodeType;
  start_inst : Z;
  end_inst : Z;
  outer : Z;
}.

Definition TreeNode_new (index : Z) (node_type : NodeType) (start_inst : Z) : TreeNode :=
  mkTreeNode index node_type start_inst start_inst start_inst.

Definition set_outer (x : Z) (n : TreeNode) : TreeNode :=
  mkTreeNode (index n) (node_type n) (start_inst n) (end_inst n) x.
Definition set_end_inst (x : Z) (n : TreeNode) : TreeNode :=
  mkTreeNode (index n) (node_type n) (start_inst n) x (outer n).

(** The stack of open nodes, top first, and the nodes. *)
Definition opening_block (node_type : NodeType) (inst_index : Z) (stack : list Z) (blocks : list TreeNode)
  : list Z * list TreeNode :=
  let index := Z.of_nat (length blocks) + 1 in
  let node := TreeNode_new index node_type inst_index in
  let node := set_outer (match stack with stack_top :: _ => stack_top | [] => 0 end) node in
  (index :: stack, blocks ++ [node]).

(** [block_index - 1] and [blocks[index]] panic when they are out of range. *)
Definition closig_block (inst_index : Z) (stack : list Z) (blocks : list TreeNode)
  : option (list Z * list TreeNode) :=
  match stack with
  | [] => Some (stack, blocks)
  | block_index :: stack =>
      if block_index <? 1 then None
      else
        let index := Z.to_nat (block_index - 1) in
        block ← blocks !! index;
        Some (stack, <[index := set_end_inst inst_index block]> blocks)
  end.

Definition close_preceeding_code_portion (inst_index : Z) (stack : list Z) (blocks : list TreeNode)
  : option (list Z * list TreeNode) :=
  if inst_index <? 1 then None else closig_block (inst_index - 1) stack blocks.

(** The variables of the loop of [build_block_tree]. *)
Record TreeState := mkTreeState {
  ts_stack : list Z;
  ts_blocks : list TreeNode;
  ts_insts : gmap Z (list Z);
  code_section_is_open : bool;
}.

Definition close_open_code (current_inst : Z) (s : TreeState) : option TreeState :=
  if code_section_is_open s then
    '(stack, blocks) ← close_preceeding_code_portion current_inst (ts_stack s) (ts_blocks s);
    Some (mkTreeState stack blocks (ts_insts s) false)
  else Some s.

Definition open_node (ty : NodeType) (current_inst : Z) (s : TreeState) : TreeState :=
  let (stack, blocks) := opening_block ty current_inst (ts_stack s) (ts_blocks s) in
  mkTreeState stack blocks (ts_insts s) (code_section_is_open s).

(** The operators that open a node of their own. *)
Definition opens (op : Op.Operator) : option NodeType :=
  match op with
  | Op.Mvp (Op.Block _) => Some BLOCK
  | Op.Mvp (Op.Loop _) => Some LOOP
  | Op.Mvp (Op.If _) => Some IF
  | Op.Mvp Op.Else => Some ELSE
  | _ => None
  end.

(** The [match] on the operator. *)
Definition tree_step (current_inst : Z) (op : Op.Operator) (s : TreeState) : option TreeState :=
  match opens op, op with
  | Some ty, _ => s ← close_open_code current_inst s; Some (open_node ty current_inst s)
  | None, Op.Mvp Op.End =>
      s ← close_open_code current_inst s;
      '(stack, blocks) ← closig_block current_inst (ts_stack s) (ts_blocks s);
      Some (mkTreeState stack blocks (ts_insts s) (code_section_is_open s))
  | None, _ =>
      if negb (code_section_is_open s) then
        let s := open_node CODE current_inst s in
        stack_top ← head (ts_stack s);
        Some (mkTreeState (ts_stack s) (ts_blocks s)
                (<[wrap 32 stack_top := [wrap 32 current_inst]]> (ts_insts s)) true)
      else
        stack_top ← head (ts_stack s);
        insts ← ts_insts s !! wrap 32 stack_top;
        Some (mkTreeState (ts_stack s) (ts_blocks s)
                (<[wrap 32 stack_top := insts ++ [wrap 32 current_inst]]> (ts_insts s)) true)
  end.

(** [while !binary_reader.eof()], with [op.unwrap()]; an operator takes at least one byte. *)
Fixpoint tree_loop (fuel : nat) (r : BinaryReader) (s : TreeState) : option TreeState :=
  if eof r then Some s
  else match fuel with
  | O => None
  | S fuel' =>
      match read_operator r with
      | (Ok op, r') => s ← tree_step (position r) op s; tree_loop fuel' r' s
      | _ => None
      end
  end.

(** [Self::skip_locals(&mut binary_reader).expect(..)]. *)
Definition body_operators (b : FunctionBody) : option BinaryReader :=
  match skip_locals (body_reader b) with
  | (Ok _, r) => Some r
  | _ => None
  end.

Record BlockTree := mkBlockTree { blocks : list TreeNode; insts_in_code_node : gmap Z (list Z) }.

Definition build_block_tree (code_entry : FunctionBody) : option BlockTree :=
  r ← body_operators code_entry;
  s ← tree_loop (length (remaining_buffer r)) r (mkTreeState [] [] ∅ false);
  if bool_decide (ts_stack s = []) then Some (mkBlockTree (ts_blocks s) (ts_insts s)) else None.

(** Each first-level block is checkpointed. *)
Definition generate_checkpoint_list (blocks : list TreeNode) : list Z :=
  map index (filter (fun block => outer block = 0) blocks).

(** ** Modified and live variables *)

(** The loop over the operators from the start of a block to its end: operators
    before the start are read, but an error there is not noticed. *)
Fixpoint scan_block {A} (fuel : nat) (visit : Op.Operator -> A -> A) (block : TreeNode) (r : BinaryReader) (a : A)
  : option A :=
  if eof r then Some a
  else match fuel with
  | O => None
  | S fuel' =>
      let current_inst := position r in
      match read_operator r with
      | (Panic, _) => None
      | (op, r') =>
          if current_inst <? end_inst block then
            if start_inst block <=? current_inst then
              match op with
              | Ok op => scan_block fuel' visit block r' (visit op a)
              | _ => None
              end
            else scan_block fuel' visit block r' a
          else Some a
      end
  end.

(** Locals, and globals. *)
Abbreviation VarSets := (gset Z * gset Z)%type.

Definition visit_modified (op : Op.Operator) (s : VarSets) : VarSets :=
  match op with
  | Op.Mvp (Op.LocalSet local_index) | Op.Mvp (Op.LocalTee local_index) => ({[local_index]} ∪ fst s, snd s)
  | Op.Mvp (Op.GlobalSet global_index) => (fst s, {[global_index]} ∪ snd s)
  | _ => s
  end.

Definition visit_read (op : Op.Operator) (s : VarSets) : VarSets :=
  match op with
  | Op.Mvp (Op.LocalGet local_index) => ({[local_index]} ∪ fst s, snd s)
  | Op.Mvp (Op.GlobalGet global_index) => (fst s, {[global_index]} ∪ snd s)
  | _ => s
  end.

(** The sets of one checkpoint; the reader starts at the declarations of the locals. *)
Definition scan_checkpoint (visit : Op.Operator -> VarSets -> VarSets) (body : FunctionBody)
  (blocks : list TreeNode) (checkpoint : Z) : option VarSets :=
  if checkpoint <? 1 then None
  else
    block ← blocks !! Z.to_nat (checkpoint - 1);
    let r := body_reader body in
    scan_block (length (remaining_buffer r)) visit block r (∅, ∅).

Definition mutable_globals (global_section : list WS.GlobalType) : gset Z :=
  list_to_set (omap (fun '(i, g) => if WS.global_mutable g then Some (wrap 32 (Z.of_nat i)) else None)
                 (imap pair global_section)).

(** [modified_vars_set] and [set_global_vars]. *)
Definition generate_modified_var_list (body : FunctionBody) (blocks : list TreeNode) (checkpoint_list : list Z)
  (global_section : list WS.GlobalType) : option (list (gset Z) * list (gset Z)) :=
  sets ← mapM (scan_checkpoint visit_modified body blocks) checkpoint_list;
  Some (map fst sets, map (fun s => snd s ∪ mutable_globals global_section) sets).

(** [cumulative_set.extend(set); since_init.push(cumulative_set.clone())]. *)
Fixpoint cumulative (cumulative_set : gset Z) (sets : list (gset Z)) : list (gset Z) :=
  match sets with
  | [] => []
  | set :: sets => (cumulative_set ∪ set) :: cumulative (cumulative_set ∪ set) sets
  end.

(** The loop over [(0..n).rev()] that collects what the successors read. *)
Fixpoint successors_loop (live_in : list (gset Z)) (n : nat) (cumulative_set : gset Z) (out : list (gset Z))
  : option (list (gset Z)) :=
  match n with
  | O => Some out
  | S i =>
      cumulative_set ←
        if (i =? length live_in - 1)%nat then Some ∅
        else next ← live_in !! S i; Some (cumulative_set ∪ next);
      successors_loop live_in i cumulative_set (out ++ [cumulative_set])
  end.

(** [len() - 1] panics on an empty list. *)
Definition live_in_successors (live_in : list (gset Z)) : option (list (gset Z)) :=
  match live_in with
  | [] => None
  | _ => out ← successors_loop live_in (length live_in - 1) ∅ []; Some (rev out)
  end.

Definition live_out_at (n : nat) (modified successor : list (gset Z)) (i : nat) : option (gset Z) :=
  if (i =? n - 1)%nat then Some ∅
  else m ← modified !! i; s ← successor !! i; Some (m ∩ s).

(** [live_in[0] = HashSet::new()] panics on an empty list. *)
Definition reset_first (sets : list (gset Z)) : option (list (gset Z)) :=
  match sets with [] => None | _ :: rest => Some (∅ :: rest) end.

(** The live-in and the live-out sets of one kind of variables. *)
Definition live_sets (n : nat) (read modified : list (gset Z)) : option (list (gset Z) * list (gset Z)) :=
  live_in ← reset_first read;
  let modified_since_init := cumulative ∅ modified in
  successor ← live_in_successors live_in;
  live_out ← mapM (live_out_at n modified_since_init successor) (seq 0 n);
  Some (live_in, live_out).

Record LiveVars := mkLiveVars {
  modified_vars_set : list (gset Z);
  set_global_vars : list (gset Z);
  live_in_set_vars : list (gset Z);
  get_global_vars : list (gset Z);
  live_out_set_vars : list (gset Z);
  live_out_global_vars : list (gset Z);
}.

(** The checkpoints are visited in reverse order, and the lists reversed. *)
Definition generate_live_var_list (body : FunctionBody) (blocks : list TreeNode) (checkpoint_list : list Z)
  (modified_vars set_globals : list (gset Z)) : option LiveVars :=
  sets ← mapM (scan_checkpoint visit_read body blocks) (rev checkpoint_list);
  let n := length checkpoint_list in
  '(live_in, live_out) ← live_sets n (rev (map fst sets)) modified_vars;
  '(get_globals, live_out_globals) ← live_sets n (rev (map snd sets)) set_globals;
  Some (mkLiveVars modified_vars set_globals live_in get_globals live_out live_out_globals).

(** ** Modules *)

(** The fields of [ModuleData] that are filled while a module is read. *)
Record ModuleSections := mkModuleSections {
  start_func : Z;
  type_section : option SectionBuilder;
  function_to_type : list Z;
  import_section : option SectionBuilder;
  table_section : option SectionBuilder;
  tag_section : option SectionBuilder;
  global_section : list WS.GlobalType;
  global_init_expr : list WS.ConstExpr;
  export_section : option SectionBuilder;
  exports : list Export;
  function_section : option SectionBuilder;
  element_section_with_cr : option SectionBuilder;
  element_section : option SectionBuilder;
  code_section : option SectionBuilder;
  function_bodies : list FunctionBody;
  data_section : option SectionBuilder;
  data_count_section : option Z;
  memory_section : option SectionBuilder;
  custom_section : list CustomSectionReader;
  params : list (list WE.ValType);
  results : list (list WE.ValType);
  globals : list WE.ValType;
  checkpoint_memory_index : Z;
  num_of_import_functions : Z;
}.

Definition set_start_func (x : Z) (m : ModuleSections) : ModuleSections :=
  mkModuleSections x (type_section m) (function_to_type m) (import_section m) (table_section m)
    (tag_section m) (global_section m) (global_init_expr m) (export_section m) (exports m)
    (function_section m) (element_section_with_cr m) (element_section m) (code_section m)
    (function_bodies m) (data_section m) (data_count_section m) (memory_section m) (custom_section m)
    (params m) (results m) (globals m) (checkpoint_memory_index m) (num_of_import_functions m).
Definition set_type_section (x : option SectionBuilder) (m : ModuleSections) : ModuleSections :=
  mkModuleSections (start_func m) x (function_to_type m) (import_section m) (table_section m)
    (tag_section m) (global_section m) (global_init_expr m) (export_section m) (exports m)
    (function_section m) (element_section_with_cr m) (element_section m) (code_section m)
    (function_bodies m) (data_section m) (data_count_section m) (memory_section m) (custom_section m)
    (params m) (results m) (globals m) (checkpoint_memory_index m) (num_of_import_functions m).
Definition set_function_to_type (x : list Z) (m : ModuleSections) : ModuleSections :=
  mkModuleSections (start_func m) (type_section m) x (import_section m) (table_section m) (tag_section m)
    (global_section m) (global_init_expr m) (export_section m) (exports m) (function_section m)
    (element_section_with_cr m) (element_section m) (code_section m) (function_bodies m) (data_section m)
    (data_count_section m) (memory_section m) (custom_section m) (params m) (results m) (globals m)
    (checkpoint_memory_index m) (num_of_import_functions m).
Definition set_import_section (x : option SectionBuilder) (m : ModuleSections) : ModuleSections :=
  mkModuleSections (start_func m) (type_section m) (function_to_type m) x (table_section m) (tag_section m)
    (global_section m) (global_init_expr m) (export_section m) (exports m) (function_section m)
    (element_section_with_cr m) (element_section m) (code_section m) (function_bodies m) (data_section m)
    (data_count_section m) (memory_section m) (custom_section m) (params m) (results m) (globals m)
    (checkpoint_memory_index m) (num_of_import_functions m).
Definition set_table_section (x : option SectionBuilder) (m : ModuleSections) : ModuleSections :=
  mkModuleSections (start_func m) (type_section m) (function_to_type m) (import_section m) x (tag_section m)
    (global_section m) (global_init_expr m) (export_section m) (exports m) (function_section m)
    (element_section_with_cr m) (element_section m) (code_section m) (function_bodies m) (data_section m)
    (data_count_section m) (memory_section m) (custom_section m) (params m) (results m) (globals m)
    (checkpoint_memory_index m) (num_of_import_functions m).
Definition set_tag_section (x : option SectionBuilder) (m : ModuleSections) : ModuleSections :=
  mkModuleSections (start_func m) (type_section m) (function_to_type m) (import_section m) (table_section m)
    x (global_section m) (global_init_expr m) (export_section m) (exports m) (function_section m)
    (element_section_with_cr m) (element_section m) (code_section m) (function_bodies m) (data_section m)
    (data_count_section m) (memory_section m) (custom_section m) (params m) (results m) (globals m)
    (checkpoint_memory_index m) (num_of_import_functions m).
Definition set_global_section (x : list WS.GlobalType) (m : ModuleSections) : ModuleSections :=
  mkModuleSections (start_func m) (type_section m) (function_to_type m) (import_section m) (table_section m)
    (tag_section m) x (global_init_expr m) (export_section m) (exports m) (function_section m)
    (element_section_with_cr m) (element_section m) (code_section m) (function_bodies m) (data_section m)
    (data_count_section m) (memory_section m) (custom_section m) (params m) (results m) (globals m)
    (checkpoint_memory_index m) (num_of_import_functions m).
Definition set_global_init_expr (x : list WS.ConstExpr) (m : ModuleSections) : ModuleSections :=
  mkModuleSections (start_func m) (type_section m) (function_to_type m) (import_section m) (table_section m)
    (tag_section m) (global_section m) x (export_section m) (exports m) (function_section m)
    (element_section_with_cr m) (element_section m) (code_section m) (function_bodies m) (data_section m)
    (data_count_section m) (memory_section m) (custom_section m) (params m) (results m) (globals m)
    (checkpoint_memory_index m) (num_of_import_functions m).
Definition set_export_section (x : option SectionBuilder) (m : ModuleSections) : ModuleSections :=
  mkModuleSections (start_func m) (type_section m) (function_to_type m) (import_section m) (table_section m)
    (tag_section m) (global_section m) (global_init_expr m) x (exports m) (function_section m)
    (element_section_with_cr m) (element_section m) (code_section m) (function_bodies m) (data_section m)
    (data_count_section m) (memory_section m) (custom_section m) (params m) (results m) (globals m)
    (checkpoint_memory_index m) (num_of_import_functions m).
Definition set_exports (x : list Export) (m : ModuleSections) : ModuleSections :=
  mkModuleSections (start_func m) (type_section m) (function_to_type m) (import_section m) (table_section m)
    (tag_section m) (global_section m) (global_init_expr m) (export_section m) x (function_section m)
    (element_section_with_cr m) (element_section m) (code_section m) (function_bodies m) (data_section m)
    (data_count_section m) (memory_section m) (custom_section m) (params m) (results m) (globals m)
    (checkpoint_memory_index m) (num_of_import_functions m).
Definition set_function_section (x : option SectionBuilder) (m : ModuleSections) : ModuleSections :=
  mkModuleSections (start_func m) (type_section m) (function_to_type m) (import_section m) (table_section m)
    (tag_section m) (global_section m) (global_init_expr m) (export_section m) (exports m) x
    (element_section_with_cr m) (element_section m) (code_section m) (function_bodies m) (data_section m)
    (data_count_section m) (memory_section m) (custom_section m) (params m) (results m) (globals m)
    (checkpoint_memory_index m) (num_of_import_functions m).
Definition set_element_section_with_cr (x : option SectionBuilder) (m : ModuleSections) : ModuleSections :=
  mkModuleSections (start_func m) (type_section m) (function_to_type m) (import_section m) (table_section m)
    (tag_section m) (global_section m) (global_init_expr m) (export_section m) (exports m)
    (function_section m) x (element_section m) (code_section m) (function_bodies m) (data_section m)
    (data_count_section m) (memory_section m) (custom_section m) (params m) (results m) (globals m)
    (checkpoint_memory_index m) (num_of_import_functions m).
Definition set_element_section (x : option SectionBuilder) (m : ModuleSections) : ModuleSections :=
  mkModuleSections (start_func m) (type_section m) (function_to_type m) (import_section m) (table_section m)
    (tag_section m) (global_section m) (global_init_expr m) (export_section m) (exports m)
    (function_section m) (element_section_with_cr m) x (code_section m) (function_bodies m) (data_section m)
    (data_count_section m) (memory_section m) (custom_section m) (params m) (results m) (globals m)
    (checkpoint_memory_index m) (num_of_import_functions m).
Definition set_code_section (x : option SectionBuilder) (m : ModuleSections) : ModuleSections :=
  mkModuleSections (start_func m) (type_section m) (function_to_type m) (import_section m) (table_section m)
    (tag_section m) (global_section m) (global_init_expr m) (export_section m) (exports m)
    (function_section m) (element_section_with_cr m) (element_section m) x (function_bodies m)
    (data_section m) (data_count_section m) (memory_section m) (custom_section m) (params m) (results m)
    (globals m) (checkpoint_memory_index m) (num_of_import_functions m).
Definition set_function_bodies (x : list FunctionBody) (m : ModuleSections) : ModuleSections :=
  mkModuleSections (start_func m) (type_section m) (function_to_type m) (import_section m) (table_section m)
    (tag_section m) (global_section m) (global_init_expr m) (export_section m) (exports m)
    (function_section m) (element_section_with_cr m) (element_section m) (code_section m) x (data_section m)
    (data_count_section m) (memory_section m) (custom_section m) (params m) (results m) (globals m)
    (checkpoint_memory_index m) (num_of_import_functions m).
Definition set_data_section (x : option SectionBuilder) (m : ModuleSections) : ModuleSections :=
  mkModuleSections (start_func m) (type_section m) (function_to_type m) (import_section m) (table_section m)
    (tag_section m) (global_section m) (global_init_expr m) (export_section m) (exports m)
    (function_section m) (element_section_with_cr m) (element_section m) (code_section m)
    (function_bodies m) x (data_count_section m) (memory_section m) (custom_section m) (params m)
    (results m) (globals m) (checkpoint_memory_index m) (num_of_import_functions m).
Definition set_data_count_section (x : option Z) (m : ModuleSections) : ModuleSections :=
  mkModuleSections (start_func m) (type_section m) (function_to_type m) (import_section m) (table_section m)
    (tag_section m) (global_section m) (global_init_expr m) (export_section m) (exports m)
    (function_section m) (element_section_with_cr m) (element_section m) (code_section m)
    (function_bodies m) (data_section m) x (memory_section m) (custom_section m) (params m) (results m)
    (globals m) (checkpoint_memory_index m) (num_of_import_functions m).
Definition set_memory_section (x : option SectionBuilder) (m : ModuleSections) : ModuleSections :=
  mkModuleSections (start_func m) (type_section m) (function_to_type m) (import_section m) (table_section m)
    (tag_section m) (global_section m) (global_init_expr m) (export_section m) (exports m)
    (function_section m) (element_section_with_cr m) (element_section m) (code_section m)
    (function_bodies m) (data_section m) (data_count_section m) x (custom_section m) (params m) (results m)
    (globals m) (checkpoint_memory_index m) (num_of_import_functions m).
Definition set_custom_section (x : list CustomSectionReader) (m : ModuleSections) : ModuleSections :=
  mkModuleSections (start_func m) (type_section m) (function_to_type m) (import_section m) (table_section m)
    (tag_section m) (global_section m) (global_init_expr m) (export_section m) (exports m)
    (function_section m) (element_section_with_cr m) (element_section m) (code_section m)
    (function_bodies m) (data_section m) (data_count_section m) (memory_section m) x (params m) (results m)
    (globals m) (checkpoint_memory_index m) (num_of_import_functions m).
Definition set_params (x : list (list WE.ValType)) (m : ModuleSections) : ModuleSections :=
  mkModuleSections (start_func m) (type_section m) (function_to_type m) (import_section m) (table_section m)
    (tag_section m) (global_section m) (global_init_expr m) (export_section m) (exports m)
    (function_section m) (element_section_with_cr m) (element_section m) (code_section m)
    (function_bodies m) (data_section m) (data_count_section m) (memory_section m) (custom_section m) x
    (results m) (globals m) (checkpoint_memory_index m) (num_of_import_functions m).
Definition set_results (x : list (list WE.ValType)) (m : ModuleSections) : ModuleSections :=
  mkModuleSections (start_func m) (type_section m) (function_to_type m) (import_section m) (table_section m)
    (tag_section m) (global_section m) (global_init_expr m) (export_section m) (exports m)
    (function_section m) (element_section_with_cr m) (element_section m) (code_section m)
    (function_bodies m) (data_section m) (data_count_section m) (memory_section m) (custom_section m)
    (params m) x (globals m) (checkpoint_memory_index m) (num_of_import_functions m).
Definition set_globals (x : list WE.ValType) (m : ModuleSections) : ModuleSections :=
  mkModuleSections (start_func m) (type_section m) (function_to_type m) (import_section m) (table_section m)
    (tag_section m) (global_section m) (global_init_expr m) (export_section m) (exports m)
    (function_section m) (element_section_with_cr m) (element_section m) (code_section m)
    (function_bodies m) (data_section m) (data_count_section m) (memory_section m) (custom_section m)
    (params m) (results m) x (checkpoint_memory_index m) (num_of_import_functions m).
Definition set_checkpoint_memory_index (x : Z) (m : ModuleSections) : ModuleSections :=
  mkModuleSections (start_func m) (type_section m) (function_to_type m) (import_section m) (table_section m)
    (tag_section m) (global_section m) (global_init_expr m) (export_section m) (exports m)
    (function_section m) (element_section_with_cr m) (element_section m) (code_section m)
    (function_bodies m) (data_section m) (data_count_section m) (memory_section m) (custom_section m)
    (params m) (results m) (globals m) x (num_of_import_functions m).
Definition set_num_of_import_functions (x : Z) (m : ModuleSections) : ModuleSections :=
  mkModuleSections (start_func m) (type_section m) (function_to_type m) (import_section m) (table_section m)
    (tag_section m) (global_section m) (global_init_expr m) (export_section m) (exports m)
    (function_section m) (element_section_with_cr m) (element_section m) (code_section m)
    (function_bodies m) (data_section m) (data_count_section m) (memory_section m) (custom_section m)
    (params m) (results m) (globals m) (checkpoint_memory_index m) x.

Definition ModuleSections_new : ModuleSections :=
  mkModuleSections 0 None [] None None None [] [] None [] None None None None [] None None None [] [] [] [] 0 0.

(** [map_type] of [crates/wasm-mutate/src/module.rs]; [as_module_index().unwrap()]
    panics. *)
Definition map_ref_type (ref_ty : RefType) : option WE.RefType :=
  h ← rt_heap_type ref_ty;
  h ← match h with
      | Concrete i => i ← unpacked_as_module_index i; Some (WE.Concrete i)
      | Abstract shared ty => Some (WE.Abstract shared (abstract_heap_type ty))
      end;
  Some (WE.mkRefType (is_nullable ref_ty) h).

Definition map_type (tpe : ValType) : option WE.ValType :=
  match tpe with
  | I32 => Some WE.I32
  | I64 => Some WE.I64
  | F32 => Some WE.F32
  | F64 => Some WE.F64
  | V128 => Some WE.V128
  | Ref t => t ← map_ref_type t; Some (WE.Ref t)
  end.

(** ** Locals *)

(** The closure, once per announced pair; [local_count += count] panics when it overflows. *)
Fixpoint read_local_pairs (n : nat) (local_count : Z) (l : LocalsReader) : option (list (Z * WE.ValType)) :=
  match n with
  | O => Some []
  | S n' =>
      match locals_read l with
      | (Ok (count, ty), l') =>
          if 2 ^ 32 <=? local_count + count then None
          else
            ty ← map_type ty;
            rest ← read_local_pairs n' (local_count + count) l';
            Some ((count, ty) :: rest)
      | _ => None
      end
  end.

Definition extract_local_pairs (function_body : FunctionBody) : option (list (Z * WE.ValType)) :=
  match get_locals_reader function_body with
  | Ok l => read_local_pairs (Z.to_nat (locals_count l)) 0 l
  | _ => None
  end.

Definition extract_locals (m : ModuleSections) : option (list (list (Z * WE.ValType))) :=
  mapM extract_local_pairs (function_bodies m).

(** [for (num, ty) in locals { for _ in 0..num { .. } }]. *)
Definition expand_locals (locals : list (Z * WE.ValType)) : list WE.ValType :=
  flat_map (fun '(num, ty) => replicate (Z.to_nat num) ty) locals.

Definition get_params_and_locals (m : ModuleSections) (locals : list (list (Z * WE.ValType))) (func_index : nat)
  : option (list WE.ValType) :=
  func_type_index ← function_to_type m !! (func_index + Z.to_nat (num_of_import_functions m))%nat;
  params ← params m !! Z.to_nat func_type_index;
  locals ← locals !! func_index;
  Some (params ++ expand_locals locals).

(** ** Addresses *)

Definition slot_size (ty : WE.ValType) : Z :=
  match ty with
  | WE.I32 | WE.F32 | WE.Ref _ => 2
  | WE.I64 | WE.F64 => 4
  | WE.V128 => 8
  end.

(** [for i in 0..tys.len() { map.insert(i as u32, next_address); next_address += size }]. *)
Fixpoint assign_slots (i : Z) (tys : list WE.ValType) (next_address : Z) (mapping : gmap Z Z) : gmap Z Z * Z :=
  match tys with
  | [] => (mapping, next_address)
  | ty :: tys => assign_slots (i + 1) tys (next_address + slot_size ty) (<[wrap 32 i := next_address]> mapping)
  end.

Record Slots := mkSlots {
  resuming_block_var : Z;
  resuming_block_addr : Z;
  checkpoint_var_memory_mapping : gmap Z Z;
  checkpoint_global_memory_mapping : gmap Z Z;
}.

(** The slots, and the locals with the new variable; the address of
    [ModuleData::new] is zero. *)
Definition compute_var_to_mem_mapping (m : ModuleSections) (locals : list (list (Z * WE.ValType)))
  (func_index : nat) : option (Slots * list (list (Z * WE.ValType))) :=
  params_and_locals ← get_params_and_locals m locals func_index;
  function_locals ← locals !! func_index;
  let resuming_block_addr := 0 in
  let (vars, next_address) := assign_slots 0 params_and_locals (resuming_block_addr + 1) ∅ in
  let (globals, _) := assign_slots 0 (map WS.global_val_type (global_section m)) next_address ∅ in
  Some (mkSlots (wrap 32 (Z.of_nat (length params_and_locals))) resuming_block_addr vars globals,
        <[func_index := function_locals ++ [(1, WE.I32)]]> locals).

(** ** The data for encoding *)

Record ModuleData := mkModuleData {
  sections : ModuleSections;
  locals : list (list (Z * WE.ValType));
  tree : BlockTree;
  checkpoint_list : list Z;
  live_vars : LiveVars;
  slots : Slots;
}.

(** [pre_module_encoding] with [inject]. *)
Definition pre_module_encoding (m : ModuleSections) (func_index : nat) : option ModuleData :=
  locals ← extract_locals m;
  body ← function_bodies m !! func_index;
  tree ← build_block_tree body;
  let checkpoint_list := generate_checkpoint_list (blocks tree) in
  '(modified, set_globals) ← generate_modified_var_list body (blocks tree) checkpoint_list (global_section m);
  live ← generate_live_var_list body (blocks tree) checkpoint_list modified set_globals;
  '(slots, locals) ← compute_var_to_mem_mapping m locals func_index;
  Some (mkModuleData m locals tree checkpoint_list live slots).

(** ** Instructions *)

(** The order in which the elements of a [HashSet] are iterated over. *)
(** Sequences of instructions. *)
Abbreviation code := (list Instr.Instruction).

Declare Scope code_scope.
Delimit Scope code_scope with code.
Notation "⟦ x ; .. ; y ⟧" :=
  (@cons Instr.Instruction x .. (@cons Instr.Instruction y (@nil Instr.Instruction)) ..) : code_scope.
Local Open Scope code_scope.

(** [Some], at the type of instructions. *)
Definition inst (i : Instr.Instruction) : option Instr.Instruction := Some i.

Class HashOrder := iter : gset Z -> list Z.

Section code.
Context {H : HashOrder} (d : ModuleData) (func_index : nat).

Definition checkpoint_mem_arg : WE.MemArg := WE.mkMemArg 0 2 (checkpoint_memory_index (sections d)).

Definition load (ty : WE.ValType) : option Instr.Instruction :=
  match ty with
  | WE.I32 => inst (Instr.I32Load checkpoint_mem_arg)
  | WE.I64 => inst (Instr.I64Load checkpoint_mem_arg)
  | WE.F32 => inst (Instr.F32Load checkpoint_mem_arg)
  | WE.F64 => inst (Instr.F64Load checkpoint_mem_arg)
  | WE.V128 => inst (Instr.V128Load checkpoint_mem_arg)
  | WE.Ref _ => None
  end.

Definition store (ty : WE.ValType) : option Instr.Instruction :=
  match ty with
  | WE.I32 => inst (Instr.I32Store checkpoint_mem_arg)
  | WE.I64 => inst (Instr.I64Store checkpoint_mem_arg)
  | WE.F32 => inst (Instr.F32Store checkpoint_mem_arg)
  | WE.F64 => inst (Instr.F64Store checkpoint_mem_arg)
  | WE.V128 => inst (Instr.V128Store checkpoint_mem_arg)
  | WE.Ref _ => None
  end.

Definition initialize_resuming_block_var (index_restore_memory : Z) : code :=
  ⟦Instr.Block WE.Empty;
   Instr.Call index_restore_memory;
   Instr.I32Const (swrap 32 (resuming_block_addr (slots d)));
   Instr.I32Load checkpoint_mem_arg;
   Instr.LocalSet (resuming_block_var (slots d));
   Instr.End⟧.

(** [iter().position(|&i| i == block_index).unwrap()]. *)
Definition checkpoint_position (block_index : Z) : option nat :=
  fst <$> list_find (fun i => i = block_index) (checkpoint_list d).

(** The locals and globals that are saved at a checkpoint. *)
Definition saved_vars (distributed : bool) (checkpoint_index : nat) : option (gset Z * gset Z) :=
  let live := live_vars d in
  if distributed then
    v ← modified_vars_set live !! checkpoint_index; g ← set_global_vars live !! checkpoint_index; Some (v, g)
  else
    v ← live_out_set_vars live !! checkpoint_index; g ← live_out_global_vars live !! checkpoint_index; Some (v, g).

(** [while let Some(var) = vars.pop()]: from the last to the first. *)
Definition load_local (params_and_locals : list WE.ValType) (var : Z) : option code :=
  address ← checkpoint_var_memory_mapping (slots d) !! var;
  ty ← params_and_locals !! Z.to_nat var;
  i ← load ty;
  Some ⟦Instr.I32Const (swrap 32 address); i; Instr.LocalSet var⟧.

Definition load_global (global : Z) : option code :=
  address ← checkpoint_global_memory_mapping (slots d) !! global;
  ty ← globals (sections d) !! Z.to_nat global;
  i ← load ty;
  Some ⟦Instr.I32Const (swrap 32 address); i; Instr.GlobalSet global⟧.

Definition resume_modified_vars (block_index : Z) (distributed : bool) : option code :=
  checkpoint_index ← checkpoint_position block_index;
  '(modified_vars, global_vars) ← saved_vars distributed checkpoint_index;
  params_and_locals ← get_params_and_locals (sections d) (locals d) func_index;
  let v := resuming_block_var (slots d) in
  let guard : code :=
    if distributed then ⟦Instr.LocalGet v; Instr.I32Const 0; Instr.I32Eq; Instr.BrIf 0⟧
    else ⟦Instr.LocalGet v; Instr.I32Const 0; Instr.I32Eq; Instr.BrIf 0;
          Instr.LocalGet v; Instr.I32Const (swrap 32 block_index); Instr.I32Ne; Instr.BrIf 0⟧ in
  loads ← mapM (load_local params_and_locals) (rev (iter modified_vars));
  global_loads ← mapM load_global (rev (iter global_vars));
  Some (⟦Instr.Block WE.Empty⟧ ++ guard ++ concat loads ++ concat global_loads ++ ⟦Instr.End⟧).

Definition store_local (params_and_locals : list WE.ValType) (var : Z) : option code :=
  address ← checkpoint_var_memory_mapping (slots d) !! var;
  ty ← params_and_locals !! Z.to_nat var;
  i ← store ty;
  Some ⟦Instr.I32Const (swrap 32 address); Instr.LocalGet var; i⟧.

(** The type is that of the local with the index of the global. *)
Definition store_global (params_and_locals : list WE.ValType) (global : Z) : option code :=
  address ← checkpoint_global_memory_mapping (slots d) !! global;
  ty ← params_and_locals !! Z.to_nat global;
  i ← store ty;
  Some ⟦Instr.I32Const (swrap 32 address); Instr.GlobalGet global; i⟧.

(** The list of locals is computed in the loops. *)
Definition checkpoint_live_out_vars (block_index : Z) (distributed : bool) : option code :=
  checkpoint_index ← checkpoint_position block_index;
  '(variable_set, global_set) ← saved_vars distributed checkpoint_index;
  let types := get_params_and_locals (sections d) (locals d) func_index in
  stores ← mapM (fun var => tys ← types; store_local tys var) (iter variable_set);
  global_stores ← mapM (fun global => tys ← types; store_global tys global) (iter global_set);
  Some (⟦Instr.Block WE.Empty⟧ ++ concat stores ++ concat global_stores
        ++ ⟦Instr.I32Const (swrap 32 (resuming_block_addr (slots d))); Instr.I32Const (swrap 32 block_index);
             Instr.I32Store checkpoint_mem_arg; Instr.End⟧).

Definition jump_to_end (block_index : Z) : code :=
  let v := resuming_block_var (slots d) in
  ⟦Instr.Block WE.Empty;
   Instr.LocalGet v; Instr.I32Const (swrap 32 block_index); Instr.I32Eq; Instr.BrIf 0;
   Instr.LocalGet v; Instr.I32Const 0; Instr.I32Eq; Instr.BrIf 0;
   Instr.Br 1;
   Instr.End⟧.

(** [new_index += 2] panics when it overflows. *)
Definition shift_index (index : Z) : option Z :=
  if num_of_import_functions (sections d) <=? index then
    if 2 ^ 32 <=? index + 2 then None else Some (index + 2)
  else Some index.

(** Translation, and the functions that are called moved past the new imports. *)
Definition shift_calls (op : Op.Operator) : option Instr.Instruction :=
  match instruction (T := RoundtripReencoder) op with
  | ROk (Instr.ControlInstr (Instr.Call index)) => new_index ← shift_index index; inst (Instr.Call new_index)
  | ROk (Instr.ControlInstr (Instr.ReturnCall index)) =>
      new_index ← shift_index index; inst (Instr.ReturnCall new_index)
  | ROk instruction => Some instruction
  | _ => None
  end.

Fixpoint print_loop (fuel : nat) (block : TreeNode) (r : BinaryReader) (insts : code)
  : option code :=
  if eof r then Some insts
  else match fuel with
  | O => None
  | S fuel' =>
      let current_inst := position r in
      match read_operator r with
      | (Panic, _) => None
      | (op, r') =>
          if current_inst <=? end_inst block then
            if start_inst block <=? current_inst then
              match op with
              | Ok op => i ← shift_calls op; print_loop fuel' block r' (insts ++ [i])
              | _ => None
              end
            else print_loop fuel' block r' insts
          else Some insts
      end
  end.

Definition print_block_instructions (block_index : Z) (function_body : FunctionBody)
  : option code :=
  if block_index <? 1 then None
  else
    block ← blocks (tree d) !! Z.to_nat (block_index - 1);
    r ← body_operators function_body;
    print_loop (length (remaining_buffer r)) block r [].

(** The body of a function that is not instrumented. *)
Fixpoint update_loop (fuel : nat) (r : BinaryReader) (insts : code)
  : option code :=
  if eof r then Some insts
  else match fuel with
  | O => None
  | S fuel' =>
      match read_operator r with
      | (Ok op, r') => i ← shift_calls op; update_loop fuel' r' (insts ++ [i])
      | _ => None
      end
  end.

Definition update_instructions (function_body : FunctionBody) : option code :=
  r ← body_operators function_body;
  update_loop (length (remaining_buffer r)) r [].

(** ** The instrumented function *)

(** The question to the host whether to migrate, after a checkpoint. *)
Definition migrate_check : code :=
  ⟦Instr.Block WE.Empty; Instr.Call (num_of_import_functions (sections d)); Instr.I32Const 0; Instr.I32Eq;
   Instr.BrIf 0; Instr.Unreachable; Instr.End⟧.

(** One turn of the loop over the blocks, for a checkpointed block. *)
Definition encode_region (distributed : bool) (function_body : FunctionBody) (is_first is_last : bool)
  (previous_block_index : option Z) (block_index : Z) : option code :=
  resume ← if is_first then Some []
           else previous ← previous_block_index; resume_modified_vars previous distributed;
  body ← print_block_instructions block_index function_body;
  if is_last then Some (resume ++ body)
  else
    checkpoint ← checkpoint_live_out_vars block_index distributed;
    Some (⟦Instr.Block WE.Empty⟧ ++ resume ++ jump_to_end block_index ++ body ++ checkpoint ++ migrate_check
          ++ ⟦Instr.End⟧).

(** [for block in module_data.blocks.iter()]. *)
Fixpoint encode_regions (distributed : bool) (function_body : FunctionBody) (bs : list TreeNode)
  (previous_block_index : option Z) : option code :=
  match bs with
  | [] => Some []
  | block :: bs =>
      if bool_decide (index block ∈ checkpoint_list d) then
        let is_last := bool_decide (last (checkpoint_list d) = Some (index block)) in
        let is_first := bool_decide (head (checkpoint_list d) = Some (index block)) in
        region ← encode_region distributed function_body is_first is_last previous_block_index (index block);
        rest ← encode_regions distributed function_body bs (Some (index block));
        Some (region ++ rest)
      else encode_regions distributed function_body bs previous_block_index
  end.

Definition instrument (distributed : bool) : option code :=
  function_body ← function_bodies (sections d) !! func_index;
  regions ← encode_regions distributed function_body (blocks (tree d)) None;
  Some (initialize_resuming_block_var (num_of_import_functions (sections d) + 1) ++ regions ++ ⟦Instr.End⟧).
End code.

End WM.
