(* ===== verification/MigrateModule.v ===== *)
(** The injection of checkpoint and restore procedures into a whole module,
    [crates/wasm-migrate/src/lib.rs]: reading a module, writing it with the
    instrumented function, the modules of a component, and [compute].

    Errors that are returned are [RErr], panics are [RPanic] or [None]; [compute]
    turns errors into panics. *)

From Stdlib Require Import ZArith Lia String Ascii.
From stdpp Require Import prelude gmap.
From S2P Require Import Prelude Leb128 BinaryReader Encode Types EncTypes Operands Operators OperatorReader.
From S2P Require Import Instructions Reencode SectionReader CompositeTypes Items EncSections ReencodeSections Parser.
From S2P Require Import ReencodeModule ComponentReaders ComponentEncode Migrate.

Local Open Scope Z_scope.

Module WMM.
Import WM.

Existing Instance RoundtripReencoder.
Existing Instance RoundtripComponentReencoder.

(** ** Reading *)

(** [Result::expect]. *)
Definition expect_ok {A} (x : outcome A) : outcome A :=
  match x with RErr _ => RPanic | x => x end.

(** [+= 1] and [+ offset] on [u32]. *)
Definition add_u32 (a b : Z) : option Z := if 2 ^ 32 <=? a + b then None else Some (a + b).

(** [if !section.is_empty() { field = Some(section) }]. *)
Definition unless_empty (section : SectionBuilder) (set : option SectionBuilder -> ModuleSections -> ModuleSections)
  (m : ModuleSections) : ModuleSections :=
  if num_added section =? 0 then m else set (Some section) m.

(** [into_iter_err_on_gc_types]: an error is unwrapped by the caller. *)
Definition func_type_of_group (group : RecGroup) : option FuncType :=
  match into_types group with
  | [ty] =>
      if negb (is_final ty) || bool_decide (is_Some (supertype_idx ty)) then None
      else match inner (composite_type_of ty) with
           | CFunc f => Some f
           | _ => None
           end
  | _ => None
  end.

Section read.
Context {L : Leb128}.

(** The section of the builders, then the pass over the items. *)
Definition read_type (group : RecGroup) (m : ModuleSections) : outcome ModuleSections :=
  ty ← unwrap_outcome (func_type_of_group group);
  ps ← unwrap_outcome (mapM map_type (func_params ty));
  rs ← unwrap_outcome (mapM map_type (func_results ty));
  mret (set_results (results m ++ [rs]) (set_params (params m ++ [ps]) m)).

Definition read_import (import : Import) (m : ModuleSections) : outcome ModuleSections :=
  match import_ty import with
  | TR_Func ty =>
      n ← unwrap_outcome (add_u32 (num_of_import_functions m) 1);
      mret (set_num_of_import_functions n (set_function_to_type (function_to_type m ++ [ty]) m))
  | _ => mret m
  end.

Definition read_function (ty : Z) (m : ModuleSections) : outcome ModuleSections :=
  mret (set_function_to_type (function_to_type m ++ [ty]) m).

Definition read_memory (_ : MemoryType) (m : ModuleSections) : outcome ModuleSections :=
  n ← unwrap_outcome (add_u32 (checkpoint_memory_index m) 1);
  mret (set_checkpoint_memory_index n m).

(** [unimplemented!] panics. *)
Definition global_val_type (ty : ValType) : option WE.ValType :=
  match ty with
  | I32 => Some WE.I32
  | I64 => Some WE.I64
  | F32 => Some WE.F32
  | F64 => Some WE.F64
  | V128 => Some WE.V128
  | Ref _ => None
  end.

Definition read_global (global : Global) (m : ModuleSections) : outcome ModuleSections :=
  let ty := global_ty global in
  val_type ← unwrap_outcome (global_val_type (content_type ty));
  init_expr ← expect_ok (const_expr (init_expr global));
  mret (set_global_init_expr (global_init_expr m ++ [init_expr])
          (set_global_section
             (global_section m ++ [WS.mkGlobalType val_type (global_mutable ty) (global_shared ty)])
             (set_globals (globals m ++ [val_type]) m))).

Definition read_export (export : Export) (m : ModuleSections) : outcome ModuleSections :=
  mret (set_exports (exports m ++ [export]) m).

(** References to functions of the module move past the two new imports. *)
Definition shift_elements (num_of_import_functions : Z) (e : WS.Elements) : option WS.Elements :=
  match e with
  | WS.Functions elems =>
      slice ← mapM (fun e => add_u32 e (if num_of_import_functions <=? e then 2 else 0)) elems;
      Some (WS.Functions slice)
  | WS.Expressions ty el => Some (WS.Expressions ty el)
  end.

Definition read_element (num_of_import_functions : Z) (element : Element) (s : SectionBuilder)
  : outcome SectionBuilder :=
  items ← expect_ok (element_items (element_items_of element));
  items_content ← unwrap_outcome (shift_elements num_of_import_functions items);
  match element_kind element with
  | ELK_Passive => unwrap_outcome (WS.element_passive items_content s)
  | ELK_Active table_index offset_expr =>
      off ← expect_ok (const_expr offset_expr);
      unwrap_outcome (WS.element_active table_index off items_content s)
  | ELK_Declared => unwrap_outcome (WS.element_declared items_content s)
  end.

(** A section of items: it is translated as a whole, then its items are read. *)
Definition read_items {A} `{FromReader A} (parse : SectionBuilder -> SectionLimited -> outcome SectionBuilder)
  (set : option SectionBuilder -> ModuleSections -> ModuleSections)
  (read_item : A -> ModuleSections -> outcome ModuleSections) (reader : SectionLimited) (m : ModuleSections)
  : outcome ModuleSections :=
  section ← expect_ok (parse SectionBuilder_new reader);
  expect_ok (for_each read_item reader (unless_empty section set m)).

(** The field is left as it is. *)
Definition keep (_ : option SectionBuilder) (m : ModuleSections) : ModuleSections := m.

(** A section that is only translated. *)
Definition read_whole (parse : SectionBuilder -> SectionLimited -> outcome SectionBuilder)
  (set : option SectionBuilder -> ModuleSections -> ModuleSections) (reader : SectionLimited) (m : ModuleSections)
  : outcome ModuleSections :=
  section ← expect_ok (parse SectionBuilder_new reader);
  mret (unless_empty section set m).

Definition read_element_section (reader : SectionLimited) (m : ModuleSections) : outcome ModuleSections :=
  original ← expect_ok (parse_element_section SectionBuilder_new reader);
  let m := set_element_section (Some original) m in
  shifted ← expect_ok (for_each (read_element (num_of_import_functions m)) reader SectionBuilder_new);
  mret (unless_empty shifted set_element_section_with_cr m).

Definition read_code_section (orig_offset : Z) (data : list Z) (range : Z * Z) (m : ModuleSections)
  : outcome ModuleSections :=
  section ← expect_ok (get_original_section orig_offset data range);
  section ← from_result (section_new (BinaryReader_new section (fst range)));
  codes ← parse_code_section SectionBuilder_new section;
  mret (set_code_section (Some codes) m).

Definition read_payload (orig_offset : Z) (data : list Z) (payload : Payload) (m : ModuleSections)
  : outcome ModuleSections :=
  match payload with
  | TypeSection reader => read_items parse_type_section set_type_section read_type reader m
  | ImportSection reader => read_items parse_import_section set_import_section read_import reader m
  | FunctionSection reader => read_items parse_function_section set_function_section read_function reader m
  | TableSection reader => read_whole parse_table_section set_table_section reader m
  | MemorySection reader => read_items parse_memory_section set_memory_section read_memory reader m
  | TagSection reader => read_whole parse_tag_section set_tag_section reader m
  | GlobalSection reader => read_items parse_global_section keep read_global reader m
  | ExportSection reader => read_items parse_export_section set_export_section read_export reader m
  | StartSection func _ => mret (set_start_func func m)
  | ElementSection reader => read_element_section reader m
  | DataCountSection count _ => mret (set_data_count_section (Some count) m)
  | DataSection reader => read_whole parse_data_section set_data_section reader m
  | CodeSectionStart _ range _ => read_code_section orig_offset data range m
  | CodeSectionEntry body => mret (set_function_bodies (function_bodies m ++ [body]) m)
  | CustomSection reader => mret (set_custom_section (custom_section m ++ [reader]) m)
  | _ => mret m
  end.

(** The loop over [parse_all], as in [parse_core_module]. *)
Fixpoint read_payloads (fuel : nat) (orig_offset : Z) (data : list Z) (it : ParseAll) (m : ModuleSections)
  : outcome ModuleSections :=
  match fuel with
  | O => RPanic
  | S fuel' =>
      match parse_all_next it with
      | (None, _) => ROk m
      | (Some payload, it') =>
          payload ← from_result payload;
          m ← read_payload orig_offset data payload m;
          read_payloads fuel' orig_offset data it' m
      end
  end.

Definition read_module_bytecode (parser : Parser) (wasm_bytes : list Z) : outcome ModuleSections :=
  read_payloads (2 * length wasm_bytes + 2) (p_offset parser) wasm_bytes (parse_all parser wasm_bytes)
    ModuleSections_new.
End read.

(** ** Writing *)

Definition bytes_of (s : string) : list Z := map (fun a => Z.of_nat (nat_of_ascii a)) (list_ascii_of_string s).
Arguments bytes_of _%_string_scope.

Section write.
Context {L : Leb128} {H : HashOrder}.

(** [module.section(&section)]. *)
Definition push (id : WS.SectionId) (e : Enc) (module : WS.Module_) : option WS.Module_ :=
  WS.module_section (WS.section_id id) e module.

(** [if let Some(section) = section { module.section(&section) }]. *)
Definition push_some (id : WS.SectionId) (section : option SectionBuilder) (module : WS.Module_)
  : option WS.Module_ :=
  match section with
  | Some s => push id (encode_builder s) module
  | None => Some module
  end.

Definition add_function_type (ps rs : list WE.ValType) (s : SectionBuilder) : option SectionBuilder :=
  add_item (WEType.encode_function ps rs) s.

(** The types, with those of the functions of the host at the end, and the
    index of the first of these. *)
Definition encode_types (m : ModuleSections) (func_index : nat) (inject : bool) : option (SectionBuilder * Z) :=
  types ← match type_section m with
          | Some types => Some types
          | None =>
              func_type_index ← function_to_type m !! func_index;
              ps ← params m !! Z.to_nat func_type_index;
              rs ← results m !! Z.to_nat func_type_index;
              add_function_type ps rs SectionBuilder_new
          end;
  let index_should_migrate := num_added types in
  _ ← add_u32 index_should_migrate 1;
  types ← if inject then types ← add_function_type [] [WE.I32] types; add_function_type [] [] types
          else Some types;
  Some (types, index_should_migrate).

(** [host.should_migrate] and [host.restore_memory] come after the imports of the module. *)
Definition host_imports (index_should_migrate : Z) (s : SectionBuilder) : option SectionBuilder :=
  s ← WS.imports_import (bytes_of "host") (bytes_of "should_migrate") (WS.EFunction index_should_migrate) s;
  WS.imports_import (bytes_of "host") (bytes_of "restore_memory") (WS.EFunction (index_should_migrate + 1)) s.

Definition encode_imports (m : ModuleSections) (inject : bool) (index_should_migrate : Z) (module : WS.Module_)
  : option WS.Module_ :=
  match import_section m with
  | None =>
      if inject then
        imports ← host_imports index_should_migrate SectionBuilder_new;
        push WS.SImport (encode_builder imports) module
      else Some module
  | Some imports =>
      imports ← if inject then host_imports index_should_migrate imports else Some imports;
      push WS.SImport (encode_builder imports) module
  end.

Definition encode_functions (m : ModuleSections) (inject : bool) (module : WS.Module_) : option WS.Module_ :=
  match function_section m with
  | Some functions => push WS.SFunction (encode_builder functions) module
  | None =>
      if inject then
        functions ← WS.functions_function 0 SectionBuilder_new;
        push WS.SFunction (encode_builder functions) module
      else Some module
  end.

(** A memory of [minimum] pages. *)
Definition plain_memory (minimum : Z) : WS.MemoryType := WS.mkMemoryType minimum None false false None.

(** The checkpoint memory and one more; without injection no memory is written. *)
Definition encode_memories (m : ModuleSections) (inject : bool) (module : WS.Module_) : option WS.Module_ :=
  let memories := match memory_section m with Some s => s | None => SectionBuilder_new end in
  if inject then
    memories ← WS.memories_memory (plain_memory 1) memories;
    memories ← WS.memories_memory (plain_memory 2) memories;
    push WS.SMemory (encode_builder memories) module
  else Some module.

(** [global_init_expr[i]] panics when it is out of range. *)
Fixpoint encode_globals (tys : list WS.GlobalType) (inits : list WS.ConstExpr) (s : SectionBuilder)
  : option SectionBuilder :=
  match tys, inits with
  | [], _ => Some s
  | ty :: tys, init :: inits => s ← WS.globals_global ty init s; encode_globals tys inits s
  | _ :: _, [] => None
  end.

(** Every exported function moves by two. *)
Definition encode_export (export : Export) (s : SectionBuilder) : option SectionBuilder :=
  let kind := export_kind_of export in
  index ← add_u32 (export_index export) (match kind with EK_Func => 2 | _ => 0 end);
  WS.exports_export (str_bytes (export_name export)) (export_kind kind) (external_index kind index) s.

Fixpoint encode_exports (es : list Export) (s : SectionBuilder) : option SectionBuilder :=
  match es with
  | [] => Some s
  | e :: es => s ← encode_export e s; encode_exports es s
  end.

Definition encode_export_section (m : ModuleSections) (inject : bool) (module : WS.Module_) : option WS.Module_ :=
  if inject then
    s ← encode_exports (exports m) SectionBuilder_new;
    s ← WS.exports_export (bytes_of "checkpoint_memory") WS.Memory (checkpoint_memory_index m) s;
    push WS.SExport (encode_builder s) module
  else push_some WS.SExport (export_section m) module.

(** [Function::new], then [f.instruction] for each instruction. *)
Definition function_of (locals : list (Z * WE.ValType)) (insts : code) : option WS.Function :=
  f ← WS.Function_new locals;
  foldr (fun i k f => f ← WS.function_instruction f i; k f) Some insts f.

Definition update_function_indexes (d : ModuleData) (function_body : FunctionBody)
  (locals : list (Z * WE.ValType)) : option WS.Function :=
  insts ← update_instructions d function_body;
  function_of locals insts.

(** The function at [i]: instrumented, or with its calls moved. *)
Definition encode_function_at (d : ModuleData) (func_index : nat) (distributed : bool) (i : nat)
  : option WS.Function :=
  function_locals ← locals d !! i;
  if (i =? func_index)%nat then
    insts ← instrument d func_index distributed;
    function_of function_locals insts
  else
    body ← function_bodies (sections d) !! i;
    update_function_indexes d body function_locals.

(** The functions before [func_index], the one there, and those after it. *)
Fixpoint encode_bodies (d : ModuleData) (func_index : nat) (distributed : bool) (idxs : list nat)
  (codes : SectionBuilder) : option SectionBuilder :=
  match idxs with
  | [] => Some codes
  | i :: idxs =>
      f ← encode_function_at d func_index distributed i;
      codes ← WS.code_function f codes;
      encode_bodies d func_index distributed idxs codes
  end.

(** [inject] is the data of the instrumented function and whether checkpoints
    are distributed, or [None]. *)
Definition encode_code (m : ModuleSections) (func_index : nat) (inject : option (ModuleData * bool))
  (module : WS.Module_) : option WS.Module_ :=
  match inject with
  | Some (d, distributed) =>
      let idxs := seq 0 func_index ++ func_index :: seq (S func_index) (length (function_bodies m) - S func_index) in
      codes ← encode_bodies d func_index distributed idxs SectionBuilder_new;
      push WS.SCode (encode_builder codes) module
  | None => push_some WS.SCode (code_section m) module
  end.

Definition encode_module (m : ModuleSections) (func_index : nat) (inject : option (ModuleData * bool))
  : option WS.Module_ :=
  let injected := bool_decide (is_Some inject) in
  '(types, index_should_migrate) ← encode_types m func_index injected;
  module ← push WS.SType (encode_builder types) WS.Module_new;
  module ← encode_imports m injected index_should_migrate module;
  module ← encode_functions m injected module;
  module ← push_some WS.STable (table_section m) module;
  module ← encode_memories m injected module;
  globals ← encode_globals (global_section m) (global_init_expr m) SectionBuilder_new;
  module ← push WS.SGlobal (encode_builder globals) module;
  module ← encode_export_section m injected module;
  module ← push_some WS.SElement (if injected then element_section_with_cr m else element_section m) module;
  module ← match data_count_section m with
           | Some count => push WS.SDataCount (WS.encode_data_count_section count) module
           | None => Some module
           end;
  module ← encode_code m func_index inject module;
  push_some WS.SData (data_section m) module.

(** [compute] when the bytes are not a component. *)
Definition compute_module (wasm_bytes : list Z) (func_index : nat) (distributed : bool) : option (list Z) :=
  match read_module_bytecode (Parser_new 0) wasm_bytes with
  | ROk m =>
      d ← pre_module_encoding m func_index;
      module ← encode_module m func_index (Some (d, distributed));
      Some (WS.module_bytes module)
  | _ => None
  end.
End write.

(** ** Components *)

Section component.
Context {L : Leb128} {H : HashOrder} (func_index : nat) (target_component target_module : Z) (distributed : bool).

(** [+ 1] on [i32]. *)
Definition plus_i32 (a b : Z) : option Z := if 2 ^ 31 <=? a + b then None else Some (a + b).

(** A module of a component: it is read, and written with the procedures when it
    is the target. *)
Definition elaborate_module (parser : Parser) (wasm_bytes : list Z) (is_target_module : bool) : outcome WS.Module_ :=
  m ← expect_ok (read_module_bytecode parser wasm_bytes);
  inject ← if is_target_module then
             d ← unwrap_outcome (pre_module_encoding m func_index);
             mret (Some (d, distributed))
           else mret None;
  unwrap_outcome (encode_module m func_index inject).

(** The sections that are translated as they are; unknown sections are dropped,
    and the sections of core modules ignored. *)
Definition copy_payload (payload : Payload) (component : WC.Component_) : outcome WC.Component_ :=
  match payload with
  | InstanceSection reader => reencode_component_items WC.CoreInstanceId parse_instance_section reader component
  | CoreTypeSection reader => reencode_component_items WC.CoreTypeId parse_core_type_section reader component
  | ComponentInstanceSection reader =>
      reencode_component_items WC.InstanceId parse_component_instance_section reader component
  | ComponentAliasSection reader => reencode_component_items WC.AliasId parse_component_alias_section reader component
  | ComponentTypeSection reader => reencode_component_items WC.TypeId parse_component_type_section reader component
  | ComponentCanonicalSection reader =>
      reencode_component_items WC.CanonicalFunctionId parse_component_canonical_section reader component
  | ComponentStartSection start _ => parse_component_start_section start component
  | ComponentImportSection reader =>
      reencode_component_items WC.ImportId parse_component_import_section reader component
  | ComponentExportSection reader =>
      reencode_component_items WC.ExportId parse_component_export_section reader component
  | CustomSection reader => parse_component_custom_section reader component
  | _ => mret component
  end.

(** One payload; [nested] elaborates a component inside.  The ranges count from
    the start of the outermost component, [wasm_bytes] from that of this one. *)
Definition elaborate_payload (nested : Z -> Parser -> list Z -> WC.Component_ -> outcome WC.Component_)
  (component_number : Z) (wasm_bytes : list Z) (payload : Payload) (component : WC.Component_) (module_index : Z)
  : outcome (WC.Component_ * Z) :=
  match payload with
  | ModuleSection parser unchecked_range =>
      module_index ← unwrap_outcome (plus_i32 module_index 1);
      bytes ← index_range unchecked_range wasm_bytes;
      module ← elaborate_module parser bytes
                 ((target_component =? component_number) && (target_module =? module_index));
      component ← push_component_section WC.CoreModuleId (WC.encode_module module) component;
      mret (component, module_index)
  | ComponentSection parser unchecked_range =>
      number ← unwrap_outcome (plus_i32 component_number 1);
      bytes ← index_range unchecked_range wasm_bytes;
      nested_component ← expect_ok (nested number parser bytes WC.Component_new);
      component ← push_component_section WC.ComponentId (WC.encode_component nested_component) component;
      mret (component, module_index)
  | _ => component ← expect_ok (copy_payload payload component); mret (component, module_index)
  end.

(** The loop over [parse_all], which also goes through what is nested. *)
Fixpoint elaborate_payloads (nested : Z -> Parser -> list Z -> WC.Component_ -> outcome WC.Component_)
  (component_number : Z) (wasm_bytes : list Z) (fuel : nat) (it : ParseAll) (component : WC.Component_)
  (module_index : Z) : outcome WC.Component_ :=
  match fuel with
  | O => RPanic
  | S fuel' =>
      match parse_all_next it with
      | (None, _) => ROk component
      | (Some payload, it') =>
          payload ← from_result payload;
          '(component, module_index) ←
            elaborate_payload nested component_number wasm_bytes payload component module_index;
          elaborate_payloads nested component_number wasm_bytes fuel' it' component module_index
      end
  end.

(** [depth] bounds how deep components are nested. *)
Fixpoint elaborate_component_bytecode (depth : nat) (component_number : Z) (parser : Parser) (wasm_bytes : list Z)
  (component : WC.Component_) : outcome WC.Component_ :=
  match depth with
  | O => RPanic
  | S depth' =>
      elaborate_payloads (elaborate_component_bytecode depth') component_number wasm_bytes
        (2 * length wasm_bytes + 2) (parse_all parser wasm_bytes) component 0
  end.

(** [compute], for the component and the module with the given indices. *)
Definition compute (wasm_bytes : list Z) : option (list Z) :=
  if is_component wasm_bytes then
    match elaborate_component_bytecode (S (length wasm_bytes)) 0 (Parser_new 0) wasm_bytes WC.Component_new with
    | ROk component => Some (WC.component_bytes component)
    | _ => None
    end
  else compute_module wasm_bytes func_index distributed.
End component.

End WMM.
