(* ===== verification/ModuleSpec.v ===== *)
(** What a core module says, section by section, and how the bytes of a section
    that wasm-encoder wrote are parsed again. *)

From Stdlib Require Import ZArith Lia String.
From stdpp Require Import prelude.
From S2P Require Import Prelude Leb128 BinaryReader BinaryReaderSpec ReaderLogic Encode Types EncTypes Operands.
From S2P Require Import Operators OperatorReader Instructions Reencode OperandSpec OperandRoundtrip.
From S2P Require Import InstrRoundtrip SectionReader CompositeTypes Items EncSections ReencodeSections Locality.
From S2P Require Import FunctionSpec CompositeSpec SectionSpec ItemSpec SectionItems Parser ParserSpec.
From S2P Require Import ParserStable Names NameSpec ReencodeModule.

Local Open Scope Z_scope.

(** ** The content of a module *)

Inductive ModSection :=
| MS_Types (xs : list RecGroup)
| MS_Imports (xs : list Import)
| MS_Functions (xs : list Z)
| MS_Tables (xs : list Table)
| MS_Memories (xs : list MemoryType)
| MS_Tags (xs : list TagType)
| MS_Globals (xs : list Global)
| MS_Exports (xs : list Export)
| MS_Start (func : Z)
| MS_Elements (xs : list Element)
| MS_DataCount (count : Z)
| MS_Data (xs : list Data)
| MS_Code (xs : list FunctionBody)
| MS_Names (vs : list NameView)
| MS_Custom (name data : list Z)
| MS_Unknown (id : Z) (contents : list Z).

(** The same content, up to the equivalences of the items. *)
Inductive ms_equiv : ModSection -> ModSection -> Prop :=
| mse_types xs ys : Forall2 rec_group_equiv xs ys -> ms_equiv (MS_Types xs) (MS_Types ys)
| mse_tables xs ys : Forall2 table_equiv xs ys -> ms_equiv (MS_Tables xs) (MS_Tables ys)
| mse_globals xs ys : Forall2 global_equiv xs ys -> ms_equiv (MS_Globals xs) (MS_Globals ys)
| mse_elements xs ys : Forall2 element_equiv xs ys -> ms_equiv (MS_Elements xs) (MS_Elements ys)
| mse_data xs ys : Forall2 data_equiv xs ys -> ms_equiv (MS_Data xs) (MS_Data ys)
| mse_code xs ys : Forall2 function_body_equiv xs ys -> ms_equiv (MS_Code xs) (MS_Code ys)
| mse_eq s : ms_equiv s s.

Definition items_view {A} `{FromReader A} (mk : list A -> ModSection) (sec : SectionLimited)
  : outcome (option ModSection) :=
  xs ← from_result (section_collect (A := A) sec);
  mret (Some (mk xs)).

(** The section a payload stands for; the header, the functions of the code
    section and the end stand for none. *)
Definition payload_view (orig_offset : Z) (data : list Z) (pl : Payload)
  : outcome (option ModSection) :=
  match pl with
  | Version _ EModule _ | CodeSectionEntry _ | End_ _ => mret None
  | TypeSection s => items_view MS_Types s
  | ImportSection s => items_view MS_Imports s
  | FunctionSection s => items_view MS_Functions s
  | TableSection s => items_view MS_Tables s
  | MemorySection s => items_view MS_Memories s
  | TagSection s => items_view MS_Tags s
  | GlobalSection s => items_view MS_Globals s
  | ExportSection s => items_view MS_Exports s
  | StartSection func _ => mret (Some (MS_Start func))
  | ElementSection s => items_view MS_Elements s
  | DataCountSection count _ => mret (Some (MS_DataCount count))
  | DataSection s => items_view MS_Data s
  | CodeSectionStart _ range _ =>
      section ← get_original_section orig_offset data range;
      s ← from_result (section_new (BinaryReader_new section (fst range)));
      items_view MS_Code s
  | CustomSection c =>
      match as_known c with
      | KC_Name r =>
          vs ← from_result (names_view (S (length (remaining_buffer r))) r);
          mret (Some (MS_Names vs))
      | KC_Other => mret (Some (MS_Custom (custom_name c) (custom_data c)))
      end
  | UnknownSection id _ range =>
      contents ← get_original_section orig_offset data range;
      mret (Some (MS_Unknown id contents))
  | _ => RErr UnexpectedNonCoreModuleSection
  end.

Definition cons_view (v : option ModSection) (vs : list ModSection) : list ModSection :=
  match v with Some v => v :: vs | None => vs end.

Fixpoint module_views (fuel : nat) (orig_offset : Z) (data : list Z) (it : ParseAll)
  : outcome (list ModSection) :=
  match fuel with
  | O => RPanic
  | S fuel' =>
      match parse_all_next it with
      | (None, _) => ROk []
      | (Some x, it') =>
          pl ← from_result x;
          v ← payload_view orig_offset data pl;
          vs ← module_views fuel' orig_offset data it';
          mret (cons_view v vs)
      end
  end.

(** The sections of a module, decoded. *)
Definition module_view (data : list Z) : outcome (list ModSection) :=
  module_views (2 * length data + 2) 0 data (parse_all (Parser_new 0) data).

(** ** Parsing a section again *)

Abbreviation all := WasmFeatures_all.

(** The parser of a module or component in front of a section at [o]. *)
Definition enc_parser (enc : Encoding) (o : Z) : Parser := mkParser SectionStart o (u64_MAX - o) enc all.

Definition sec_parser (o : Z) : Parser := mkParser SectionStart o (u64_MAX - o) EModule all.

Definition fresh (o : Z) (data : list Z) : BinaryReader := BinaryReader_new_features data o all.

Lemma fresh_wf o data :
  Forall is_byte data -> 0 <= o -> o + Z.of_nat (length data) <= u64_MAX -> wf_reader (fresh o data).
Proof. intros. apply wf_new; unfold u64_MAX in *; (done || lia). Qed.

Lemma fresh_position o data : original_position (fresh o data) = o.
Proof. unfold original_position. cbn. lia. Qed.

Lemma advance_sec_parser k o : advance_parser k (sec_parser o) = sec_parser (o + Z.of_nat k).
Proof.
  unfold advance_parser, sec_parser, set_max_size, set_offset.
  cbn [p_state p_offset p_max_size p_encoding p_features]. f_equal. lia.
Qed.

Lemma pr_read {A B} (m : Reader A) (k : A -> PR B) p r a r' :
  m r = (Ok a, r') -> (on_reader m ≫= k) (p, r) = k a (p, r').
Proof. intros E. rewrite ST_bind_eq. unfold on_reader. by rewrite E. Qed.

Lemma pr_gets {A B} (g : BinaryReader -> A) (k : A -> PR B) p r :
  (on_reader (gets g) ≫= k) (p, r) = k (g r) (p, r).
Proof. done. Qed.

Lemma pr_get {B} (k : Parser -> PR B) p r : (get_parser ≫= k) (p, r) = k p (p, r).
Proof. done. Qed.

(** A step of the reader is a step of the parser. *)
Lemma parse_step p data pl p' k :
  p_features p = all -> 0 <= p_offset p -> p_offset p + p_max_size p = u64_MAX ->
  Z.of_nat (length data) <= p_max_size p ->
  parse_reader true (p, fresh (p_offset p) data) = (Ok pl, (p', advance k (fresh (p_offset p) data))) ->
  p_offset p' = p_offset p -> p_max_size p' = p_max_size p -> (k <= length data)%nat ->
  parse p data true = (Ok (Parsed (Z.of_nat k) pl), advance_parser k p').
Proof.
  intros Hf Ho Hm Hl Hr Ho' Hm' Hk. unfold parse, limit_data.
  destruct (Z.ltb_spec (p_max_size p) (Z.of_nat (length data))); [lia|].
  rewrite Hf. fold (fresh (p_offset p) data). rewrite Hr.
  rewrite advance_original_position, fresh_position.
  replace (p_offset p + Z.of_nat k - p_offset p) with (Z.of_nat k) by lia. rewrite Ho', Hm'.
  destruct (Z.ltb_spec u64_MAX (p_offset p + Z.of_nat k)); [lia|].
  destruct (Z.ltb_spec (p_max_size p) (Z.of_nat k)); [lia|].
  unfold advance_parser. by rewrite Ho', Hm'.
Qed.

Section reparse.
Context {L : Leb128} {LS : Leb128Spec L}.

Lemma parse_reader_section enc o id n tail :
  0 <= id < 128 -> in_u 32 n ->
  let data := id :: write_unsigned n ++ tail in
  wf_reader (fresh o data) -> 1 + Z.of_nat (length (write_unsigned n)) + n <= u64_MAX - o ->
  parse_reader true (enc_parser enc o, fresh o data)
  = section_payload id n (o + 1)
      (enc_parser enc o, advance (S (length (write_unsigned n))) (fresh o data)).
Proof.
  intros Hid Hn data Hwf Hfit. set (r := fresh o data).
  assert (E0 : remaining_buffer r = id :: write_unsigned n ++ tail) by done.
  destruct (advance_app r [id] _ Hwf E0) as [Hwf1 E1]. change (length [id]) with 1%nat in *.
  unfold parse_reader. rewrite pr_get. cbn [p_state enc_parser]. rewrite parse_section_unfold.
  2: { unfold bytes_remaining. rewrite <- remaining_length by done. rewrite E0. cbn [length].
       apply andb_false_intro2, Z.eqb_neq. lia. }
  unfold parse_section, parse_section_start. do 2 (rewrite pr_gets; cbn [andb]).
  rewrite (pr_read _ _ _ _ id (advance 1 r)) by (eapply read_u8_cons; [apply Hwf|exact E0]).
  rewrite cont_bit by (unfold is_byte; lia). rewrite (proj2 (Z.ltb_lt id 128)) by lia. cbn [negb].
  rewrite pr_gets.
  rewrite (pr_read _ _ _ _ n (advance (S (length (write_unsigned n))) r)).
  2: { rewrite (reads_var_u32 all n Hn _ tail Hwf1 eq_refl E1). by rewrite advance_advance. }
  rewrite pr_gets, pr_get. cbn [p_max_size enc_parser].
  rewrite !advance_original_position. unfold r at 1 2 3. rewrite !fresh_position.
  destruct (Z.ltb_spec (u64_MAX - o - (o + Z.of_nat (S (length (write_unsigned n))) - o) - n) 0); [lia|].
  by replace (original_position r) with o by (symmetry; apply fresh_position).
Qed.

Lemma parse_section_at o id n tail pl p' j :
  let data := id :: write_unsigned n ++ tail in
  let k := S (length (write_unsigned n)) in
  0 <= id < 128 -> in_u 32 n -> 0 <= o -> Forall is_byte data ->
  o + Z.of_nat (length data) <= u64_MAX -> n <= Z.of_nat (length tail) -> (j <= length tail)%nat ->
  section_payload id n (o + 1) (sec_parser o, advance k (fresh o data))
    = (Ok pl, (p', advance (k + j) (fresh o data))) ->
  p_offset p' = o -> p_max_size p' = u64_MAX - o ->
  parse (sec_parser o) data true = (Ok (Parsed (Z.of_nat (k + j)) pl), advance_parser (k + j) p').
Proof.
  intros data k Hid Hn Ho Hb Hfit Hnt Hj Hs Ho' Hm'. pose proof (fresh_wf o _ Hb Ho Hfit) as Hwf.
  assert (Hlen : Z.of_nat (length data) = Z.of_nat k + Z.of_nat (length tail)).
  { unfold data, k. cbn [length]. rewrite length_app. lia. }
  pose proof (parse_reader_section EModule o id n tail Hid Hn Hwf ltac:(unfold k in *; lia)) as Hp.
  fold data k in Hp. change (enc_parser EModule o) with (sec_parser o) in Hp. rewrite Hs in Hp.
  pose proof (parse_step (sec_parser o) data pl p' (k + j)) as H.
  cbn [p_features p_offset p_max_size sec_parser] in H. apply H; (done || lia).
Qed.

(** The reader at the content of a section. *)
Lemma content_reader o id content rest :
  let n := Z.of_nat (length content) in
  let data := (id :: write_unsigned n ++ content) ++ rest in
  let k := S (length (write_unsigned n)) in
  wf_reader (fresh o data) ->
  wf_reader (advance k (fresh o data)) /\ remaining_buffer (advance k (fresh o data)) = content ++ rest
  /\ original_position (advance k (fresh o data)) = o + Z.of_nat k.
Proof.
  intros n data k Hwf. rewrite advance_original_position, fresh_position.
  assert (E : remaining_buffer (fresh o data) = (id :: write_unsigned n) ++ content ++ rest).
  { unfold fresh, remaining_buffer. cbn [buffer position BinaryReader_new_features]. unfold data. cbn.
    by rewrite <- app_assoc. }
  destruct (advance_app _ _ _ Hwf E) as [Hwf1 E1]. by split_and!.
Qed.

(** A section whose content is read by [m], at once. *)
Lemma parse_section_content (m : Reader Payload) (P : Payload -> Prop) o id content rest :
  let n := Z.of_nat (length content) in
  let sb := id :: write_unsigned n ++ content in
  0 <= id < 128 -> n < 2 ^ 32 -> 0 <= o ->
  Forall is_byte (sb ++ rest) -> o + Z.of_nat (length (sb ++ rest)) <= u64_MAX ->
  (forall len_pos r, section_payload id n len_pos (sec_parser o, r) = on_reader m (sec_parser o, r)) ->
  (forall r, wf_reader r -> features r = all -> remaining_buffer r = content ++ rest ->
     original_position r + n = o + Z.of_nat (length sb) ->
     exists pl, m r = (Ok pl, advance (length content) r) /\ P pl) ->
  exists pl, parse (sec_parser o) (sb ++ rest) true
    = (Ok (Parsed (Z.of_nat (length sb)) pl), sec_parser (o + Z.of_nat (length sb))) /\ P pl.
Proof.
  intros n sb Hid Hn Ho Hb Hfit Hm Hr. assert (Hin : in_u 32 n) by (unfold in_u, n; lia).
  pose proof (fresh_wf o _ Hb Ho Hfit) as Hwf.
  destruct (content_reader o id content rest Hwf) as (Hwf1 & E1 & Hpos).
  assert (Hsb : length sb = (S (length (write_unsigned n)) + length content)%nat)
    by (unfold sb; cbn [length]; rewrite length_app; lia).
  assert (E : sb ++ rest = id :: write_unsigned n ++ (content ++ rest))
    by (unfold sb; cbn; by rewrite <- app_assoc).
  destruct (Hr _ Hwf1 eq_refl E1) as (pl & Hpl & HP); [rewrite Hpos; fold n; lia|].
  fold n in Hpl. fold sb in Hpl. exists pl. split; [|done].
  rewrite <- advance_sec_parser, Hsb, E. apply parse_section_at; try done.
  - by rewrite <- E.
  - by rewrite <- E.
  - rewrite length_app. unfold n. lia.
  - rewrite length_app. lia.
  - rewrite Hm. unfold on_reader. rewrite E in Hpl. rewrite Hpl. by rewrite advance_advance.
Qed.

(** ** The kinds of sections *)

Lemma section_content {A} (ctor : BinaryReader -> result A) variant content (P : Payload -> Prop) :
  (forall br, wf_reader br -> features br = all -> remaining_buffer br = content ->
     exists x, ctor br = Ok x /\ P (variant x)) ->
  reads_ex all (Parser.section (Z.of_nat (length content)) ctor variant) content P.
Proof.
  intros H r rest Hwf Hf E. unfold Parser.section. rewrite ST_bind_eq.
  rewrite (skip_ok _ r content rest Hwf); [|
    by rewrite ST_bind_eq, (reads_bytes all content _ eq_refl r rest Hwf Hf E)|done].
  destruct (at_slice_reader r content rest Hwf E) as [Hwf2 Hf2 _ Er]. rewrite app_nil_r in Er.
  destruct (H _ Hwf2 ltac:(by rewrite Hf2) Er) as (x & Hx & HP). exists (variant x). split; [|done].
  rewrite ST_bind_eq. unfold map_err, lift_result. by rewrite Hx.
Qed.

Lemma single_item_content {A} `{FromReader A} desc content (x : A) :
  reads all read content x ->
  reads_ex all (single_item (A := A) (Z.of_nat (length content)) desc) content (fun y => y.1 = x).
Proof.
  intros H1 r rest Hwf Hf E. unfold single_item. rewrite ST_bind_eq. cbn [gets].
  rewrite ST_bind_eq. rewrite (skip_ok _ r content rest Hwf); [|
    by rewrite ST_bind_eq, (reads_bytes all content _ eq_refl r rest Hwf Hf E)|done].
  destruct (at_slice_reader r content rest Hwf E) as [Hwf2 Hf2 _ Er].
  rewrite (H1 _ [] Hwf2 ltac:(by rewrite Hf2) Er). rewrite ST_bind_eq. unfold map_err, lift_result.
  destruct (advance_app _ content [] Hwf2 Er) as [Hwf3 Er3].
  rewrite remaining_nil_eof by done. rewrite bool_decide_eq_true_2 by done. by eexists.
Qed.
End reparse.

(** * The sections that the translation writes, parsed again: each is reported by
    [parse_all] as a section with the same content. *)

(** ** Runs of the iterator *)

Inductive pa_steps : ParseAll -> list Payload -> ParseAll -> Prop :=
| steps_nil st : pa_steps st [] st
| steps_cons st pl st' pls st'' :
    parse_all_next st = (Some (Ok pl), st') -> pa_steps st' pls st'' -> pa_steps st (pl :: pls) st''.

Lemma pa_steps_app st pls st' pls' st'' :
  pa_steps st pls st' -> pa_steps st' pls' st'' -> pa_steps st (pls ++ pls') st''.
Proof. induction 1; [done|]. intros. cbn. econstructor; eauto. Qed.

Fixpoint payload_views (orig_offset : Z) (data : list Z) (pls : list Payload)
  : outcome (list ModSection) :=
  match pls with
  | [] => ROk []
  | pl :: pls' =>
      v ← payload_view orig_offset data pl;
      vs ← payload_views orig_offset data pls';
      mret (cons_view v vs)
  end.

Lemma payload_views_app o data pls pls' vs vs' :
  payload_views o data pls = ROk vs -> payload_views o data pls' = ROk vs' ->
  payload_views o data (pls ++ pls') = ROk (vs ++ vs').
Proof.
  revert vs. induction pls as [|pl pls IH]; intros vs Hv Hv'; cbn in *; [by injection Hv as <-|].
  destruct (payload_view o data pl) as [v|e|]; [|done..]. cbn in *.
  destruct (payload_views o data pls) as [ws|e|]; [|done..]. injection Hv as <-. cbn.
  rewrite (IH ws eq_refl Hv'). cbn. by destruct v.
Qed.

(** The iterator of the rest of a module. *)
Definition at_rest (cur : Parser) (data : list Z) : ParseAll := mkParseAll [] cur false data.

Lemma at_rest_next cur k data pl p' :
  parse cur data true = (Ok (Parsed (Z.of_nat k) pl), p') ->
  (k <= length data)%nat -> after_payload pl [] p' = ([], p', false) ->
  parse_all_next (at_rest cur data) = (Some (Ok pl), at_rest p' (drop k data)).
Proof.
  intros Hp Hk Ha. unfold parse_all_next. cbn [pa_done at_rest pa_cur pa_data pa_stack].
  rewrite Hp. destruct (Z.ltb_spec (Z.of_nat (length data)) (Z.of_nat k)); [lia|].
  by rewrite Ha, Nat2Z.id.
Qed.

Lemma at_rest_step cur o k data pl p' :
  resume cur = sec_parser o -> parse (sec_parser o) data true = (Ok (Parsed (Z.of_nat k) pl), p') ->
  (k <= length data)%nat -> after_payload pl [] p' = ([], p', false) ->
  parse_all_next (at_rest cur data) = (Some (Ok pl), at_rest p' (drop k data)).
Proof. intros Hc Hp. apply at_rest_next. by rewrite <- parse_resume, Hc. Qed.

(** ** Sections parsed again *)

Definition reparses (sb : list Z) (v : ModSection) : Prop :=
  forall pre rest cur, Forall is_byte (pre ++ sb ++ rest) ->
  Z.of_nat (length (pre ++ sb ++ rest)) <= u64_MAX -> resume cur = sec_parser (Z.of_nat (length pre)) ->
  exists pls cur' v', pa_steps (at_rest cur (sb ++ rest)) pls (at_rest cur' rest)
    /\ resume cur' = sec_parser (Z.of_nat (length pre) + Z.of_nat (length sb))
    /\ payload_views 0 (pre ++ sb ++ rest) pls = ROk [v'] /\ ms_equiv v v'.

Lemma viewed_after pl o data v p' :
  payload_view o data pl = ROk (Some v) -> after_payload pl [] p' = ([], p', false).
Proof. by destruct pl. Qed.

Section reparse.
Context {L : Leb128} {LS : Leb128Spec L}.

(** A section that is one payload. *)
Lemma reparses_one (m : Reader Payload) id content v :
  let n := Z.of_nat (length content) in
  let sb := id :: write_unsigned n ++ content in
  0 <= id < 128 -> n < 2 ^ 32 ->
  (forall o len_pos r, section_payload id n len_pos (sec_parser o, r) = on_reader m (sec_parser o, r)) ->
  (forall pre rest r, wf_reader r -> features r = all -> remaining_buffer r = content ++ rest ->
     original_position r + n = Z.of_nat (length pre) + Z.of_nat (length sb) ->
     exists pl v', m r = (Ok pl, advance (length content) r)
       /\ payload_view 0 (pre ++ sb ++ rest) pl = ROk (Some v') /\ ms_equiv v v') ->
  reparses sb v.
Proof.
  intros n sb Hid Hn Hm Hr pre rest cur Hb Hl Hc.
  assert (Hb' : Forall is_byte (sb ++ rest)) by by apply Forall_app in Hb as [_ ?].
  assert (Hl' : Z.of_nat (length pre) + Z.of_nat (length (sb ++ rest)) <= u64_MAX)
    by (rewrite length_app in Hl; lia).
  destruct (parse_section_content m (fun pl => exists v',
    payload_view 0 (pre ++ sb ++ rest) pl = ROk (Some v') /\ ms_equiv v v')
    (Z.of_nat (length pre)) id content rest Hid Hn ltac:(lia) Hb' Hl') as (pl & Hp & v' & Hv & Heq).
  { intros. apply Hm. }
  { intros r Hwf Hf E Hpos. destruct (Hr pre rest r Hwf Hf E Hpos) as (pl & v' & H1 & H2 & H3). eauto. }
  fold n in Hp. fold sb in Hp.
  pose proof (at_rest_step cur _ (length sb) _ pl _ Hc Hp ltac:(rewrite length_app; lia)
    (viewed_after _ _ _ _ _ Hv)) as Hs. rewrite drop_app_length in Hs.
  eexists [pl], _, v'. split; [econstructor; [exact Hs|constructor]|].
  split; [done|]. split; [|done]. cbn [payload_views]. by rewrite Hv.
Qed.

(** The bytes of a section of items. *)
Lemma encode_builder_bytes s enc :
  encode_builder s = Some enc ->
  let content := write_unsigned (num_added s) ++ bytes s in
  enc = write_unsigned (Z.of_nat (length content)) ++ content /\ Z.of_nat (length content) < 2 ^ 32.
Proof.
  intros H content. unfold encode_builder, encode_section, encoding_size in H.
  destruct (Z.leb_spec (Z.of_nat (length (write_unsigned (num_added s)))) 5); [|done]. cbn in H.
  assert (Hl : Z.of_nat (length (write_unsigned (num_added s))) + Z.of_nat (length (bytes s))
    = Z.of_nat (length content)) by (unfold content; rewrite length_app; lia).
  rewrite Hl in H. unfold encode_usize in H.
  destruct (Z.leb_spec (Z.of_nat (length content)) (2 ^ 32 - 1)); [|done].
  injection H as <-. split; [done|lia].
Qed.

Lemma reparses_items {A} `{FromReader A} id variant (mk : list A -> ModSection) (equiv : A -> A -> Prop)
  (xs : list A) s enc :
  0 <= id < 128 ->
  (forall n o len_pos r, section_payload id n len_pos (sec_parser o, r)
     = on_reader (Parser.section n section_new variant) (sec_parser o, r)) ->
  (forall o data sec, payload_view o data (variant sec) = items_view mk sec) ->
  (forall xs ys, Forall2 equiv xs ys -> ms_equiv (mk xs) (mk ys)) ->
  num_added s = Z.of_nat (length xs) -> in_u 32 (num_added s) ->
  reads_ex all (read_n (length xs)) (bytes s) (Forall2 equiv xs) ->
  encode_builder s = Some enc -> reparses (id :: enc) (mk xs).
Proof.
  intros Hid Hsp Hv Heq Hn Hin Hr Henc. destruct (encode_builder_bytes s enc Henc) as [-> Hl].
  set (content := write_unsigned (num_added s) ++ bytes s) in *.
  eapply reparses_one; [done|done|intros; apply Hsp|].
  intros pre rest r Hwf Hf E _.
  destruct (section_content section_new variant content (fun pl => exists ys,
    payload_view 0 (pre ++ (id :: write_unsigned (Z.of_nat (length content)) ++ content) ++ rest) pl
      = ROk (Some (mk ys)) /\ Forall2 equiv xs ys)) with (r := r) (rest := rest)
    as (pl & Hpl & ys & Hys & Hxy); [|done..|].
  - intros br Hwf2 Hf2 E2.
    destruct (content_read_back all br _ (bytes s) (Forall2 equiv xs) Hwf2 Hf2 Hin)
      as (sec & ys & Hsec & Hc & Hxy); [by rewrite Hn, Nat2Z.id|done|].
    exists sec. split; [done|]. exists ys. split; [|done]. rewrite Hv. unfold items_view. by rewrite Hc.
  - exists pl, (mk ys). split_and!; auto.
Qed.

(** [StartSection] and [DataCountSection]. *)
Lemma number_section_bytes x enc :
  (size ← encoding_size x; encode_usize size +> encode_u32 x) = Some enc ->
  enc = write_unsigned (Z.of_nat (length (write_unsigned x))) ++ write_unsigned x
  /\ Z.of_nat (length (write_unsigned x)) < 2 ^ 32.
Proof.
  unfold encoding_size, encode_usize. destruct (Z.leb_spec (Z.of_nat (length (write_unsigned x))) 5); [|done].
  cbn [mbind option_bind].
  rewrite (proj2 (Z.leb_le _ _)) by lia. intros [= <-]. split; [done|lia].
Qed.

Lemma reparses_number id desc (variant : Z -> Z * Z -> Payload) (mk : Z -> ModSection) x enc :
  0 <= id < 128 ->
  (forall n o len_pos r, section_payload id n len_pos (sec_parser o, r)
     = on_reader ('(y, range) ← single_item (A := Z) n desc; mret (variant y range)) (sec_parser o, r)) ->
  (forall o data y rg, payload_view o data (variant y rg) = ROk (Some (mk y))) ->
  in_u 32 x -> (size ← encoding_size x; encode_usize size +> encode_u32 x) = Some enc ->
  reparses (id :: enc) (mk x).
Proof.
  intros Hid Hsp Hv Hx Henc. destruct (number_section_bytes x enc Henc) as [-> Hl].
  eapply reparses_one; [done|done|intros; apply Hsp|]. intros pre rest r Hwf Hf E _.
  destruct (single_item_content (A := Z) desc (write_unsigned x) x) with (r := r) (rest := rest)
    as ([y rg] & Hy & Exy); [by apply reads_var_u32|done..|]. cbn in Exy. subst y.
  exists (variant x rg), (mk x). split; [by rewrite ST_bind_eq, Hy|].
  split; [apply Hv|constructor].
Qed.

(** Custom sections. *)
Lemma custom_section_bytes name data enc :
  WS.encode_custom_section name data = Some enc ->
  let content := (write_unsigned (Z.of_nat (length name)) ++ name) ++ data in
  enc = write_unsigned (Z.of_nat (length content)) ++ content /\ Z.of_nat (length content) < 2 ^ 32
  /\ encode_str name = Some (write_unsigned (Z.of_nat (length name)) ++ name).
Proof.
  intros H content. unfold WS.encode_custom_section, encoding_size in H.
  destruct (Z.leb_spec (Z.of_nat (length name)) (2 ^ 32 - 1)); [|done].
  destruct (Z.leb_spec (Z.of_nat (length (write_unsigned (Z.of_nat (length name))))) 5); [|done].
  assert (Hl : Z.of_nat (length (write_unsigned (Z.of_nat (length name)))) + Z.of_nat (length name)
    + Z.of_nat (length data) = Z.of_nat (length content)) by (unfold content; rewrite !length_app; lia).
  cbn [mbind option_bind] in H. rewrite Hl in H. unfold encode_str, encode_usize in *.
  destruct (Z.leb_spec (Z.of_nat (length content)) (2 ^ 32 - 1)); [|done].
  rewrite (proj2 (Z.leb_le _ _)) in * by done. cbn in H. injection H as <-. split_and!; [done|lia|done].
Qed.

Lemma custom_read_back name data br :
  str_wf (mkStr name) -> wf_reader br -> features br = all ->
  encode_str name = Some (write_unsigned (Z.of_nat (length name)) ++ name) ->
  remaining_buffer br = (write_unsigned (Z.of_nat (length name)) ++ name) ++ data ->
  exists c, custom_new br = Ok c /\ custom_name c = name /\ custom_data c = data
    /\ wf_reader (custom_reader c) /\ features (custom_reader c) = all.
Proof.
  intros [Hu Hl] Hwf Hf Es E. destruct (er_str all name Hu Hl) as (bs & Ebs & Hr).
  rewrite Es in Ebs. injection Ebs as <-. unfold custom_new. rewrite (Hr br data Hwf Hf E).
  destruct (advance_app br _ _ Hwf E) as [Hwf1 E1]. eexists. by split_and!.
Qed.

Lemma reparses_custom name data enc :
  str_wf (mkStr name) -> name <> name_str -> WS.encode_custom_section name data = Some enc ->
  reparses (0 :: enc) (MS_Custom name data).
Proof.
  intros Hs Hne Henc. destruct (custom_section_bytes name data enc Henc) as (-> & Hl & Es).
  set (content := _ ++ data) in *.
  eapply (reparses_one (Parser.section (Z.of_nat (length content)) custom_new CustomSection));
    [lia|done|done|]. intros pre rest r Hwf Hf E _.
  destruct (section_content custom_new CustomSection content (fun pl =>
    payload_view 0 (pre ++ (0 :: write_unsigned (Z.of_nat (length content)) ++ content) ++ rest) pl
      = ROk (Some (MS_Custom name data)))) with (r := r) (rest := rest) as (pl & Hpl & Hv); [|done..|].
  - intros br Hwf2 Hf2 E2.
    destruct (custom_read_back name data br Hs Hwf2 Hf2 Es E2) as (c & Hc & Hn & Hd & _).
    exists c. split; [done|]. cbn. unfold as_known. by rewrite bool_decide_eq_false_2, Hn, Hd by (by rewrite Hn).
  - exists pl, (MS_Custom name data). split_and!; [done|done|constructor].
Qed.

Lemma shrink_wf r : wf_reader r -> wf_reader (shrink r).
Proof.
  intros Hwf. pose proof (remaining_length r Hwf). pose proof (remaining_bytes r Hwf). destruct Hwf.
  split; unfold shrink, buffer_len in *; cbn; (done || lia).
Qed.

Lemma shrink_remaining r : remaining_buffer (shrink r) = remaining_buffer r.
Proof. done. Qed.

Lemma reparses_names r ns enc :
  wf_reader r -> features r = all -> custom_name_section (T := RoundtripReencoder) r = ROk ns ->
  WN.encode_name_section ns = Some enc ->
  exists vs, names_view (S (length (remaining_buffer r))) r = Ok vs /\ reparses (0 :: enc) (MS_Names vs).
Proof.
  intros Hwf Hf Hns Henc. destruct (names_written _ r [] ns Hwf Hns) as (vs & bs & Hvs & -> & Hback).
  exists vs. split; [done|]. cbn [app] in Henc. rewrite Hf in Hback.
  destruct (custom_section_bytes name_str bs enc Henc) as (-> & Hl & Es).
  set (content := _ ++ bs) in *.
  eapply (reparses_one (Parser.section (Z.of_nat (length content)) custom_new CustomSection));
    [lia|done|done|]. intros pre rest r2 Hwf2 Hf2 E _.
  destruct (section_content custom_new CustomSection content (fun pl =>
    payload_view 0 (pre ++ (0 :: write_unsigned (Z.of_nat (length content)) ++ content) ++ rest) pl
      = ROk (Some (MS_Names vs)))) with (r := r2) (rest := rest) as (pl & Hpl & Hv); [|done..|].
  - intros br Hwfb Hfb Eb.
    destruct (custom_read_back name_str bs br) as (c & Hc & Hn & Hd & Hwfc & Hfc); [by split|done..|].
    exists c. split; [done|]. cbn [payload_view]. unfold as_known. rewrite bool_decide_eq_true_2 by done.
    unfold custom_data in Hd. rewrite (Hback (shrink (custom_reader c))); [done|by apply shrink_wf|done|done|].
    rewrite shrink_remaining, Hd. lia.
  - exists pl, (MS_Names vs). split_and!; [done|done|constructor].
Qed.

(** Unknown sections. *)
Lemma original_content pre sb rest content a :
  sb = take (length sb - length content) sb ++ content ->
  a + Z.of_nat (length content) = Z.of_nat (length pre) + Z.of_nat (length sb) ->
  get_original_section 0 (pre ++ sb ++ rest) (a, a + Z.of_nat (length content)) = ROk content.
Proof.
  intros E Ha. assert (Hl : (length content <= length sb)%nat) by (rewrite E, length_app; lia).
  unfold get_original_section. rewrite !Z.sub_0_r.
  destruct (Z.ltb_spec a 0); [lia|]. destruct (Z.ltb_spec (a + Z.of_nat (length content)) 0); [lia|].
  cbn [orb]. destruct (Z.leb_spec a (a + Z.of_nat (length content))); [|lia].
  rewrite !length_app. destruct (Z.leb_spec (a + Z.of_nat (length content))
    (Z.of_nat (length pre + (length sb + length rest)))); [|lia]. cbn [andb]. f_equal. unfold slice.
  replace (Z.to_nat (a + Z.of_nat (length content) - a)) with (length content) by lia.
  replace (Z.to_nat a) with (length (pre ++ take (length sb - length content) sb))
    by (rewrite length_app, length_take; lia).
  revert E. generalize (take (length sb - length content) sb). intros t ->.
  rewrite <- app_assoc, (app_assoc pre), drop_app_length. apply take_app_length.
Qed.

Lemma reparses_unknown id contents enc :
  13 < id < 128 -> WS.encode_raw_section contents = Some enc -> reparses (id :: enc) (MS_Unknown id contents).
Proof.
  intros Hid Henc. unfold WS.encode_raw_section, encode_bytes, encode_usize in Henc.
  destruct (Z.leb_spec (Z.of_nat (length contents)) (2 ^ 32 - 1)); [|done]. injection Henc as <-.
  eapply (reparses_one (unknown_section id (Z.of_nat (length contents)))); [lia|lia| |].
  - intros o len_pos r. unfold section_payload. rewrite pr_get. cbn [p_encoding sec_parser].
    destruct (Z.eqb_spec id 0); [lia|]. unfold module_section_payload.
    destruct id as [|p|p]; try lia. do 4 (try destruct p as [p|p|]); (lia || done).
  - intros pre rest r Hwf Hf E Hpos. unfold unknown_section. rewrite ST_bind_eq. cbn [gets].
    rewrite ST_bind_eq, (reads_bytes all contents _ eq_refl r rest Hwf Hf E).
    eexists _, _. split; [done|]. split; [|constructor]. cbn [payload_view].
    rewrite (original_content pre _ rest contents (original_position r)); [done| |done].
    cbn [length]. rewrite length_app.
    replace (S (length (write_unsigned (Z.of_nat (length contents))) + length contents) - length contents)%nat
      with (length (id :: write_unsigned (Z.of_nat (length contents)))) by (cbn; lia).
    change (id :: ?x ++ ?y) with ((id :: x) ++ y). by rewrite take_app_length.
Qed.

(** ** The code section *)

(** The parser of a module within the code section. *)
Definition body_parser (o n len : Z) : Parser :=
  mkParser (InFunctionBody n len) o (u64_MAX - o) EModule all.

Lemma parse_entry o n len data b k :
  0 <= o -> o + Z.of_nat (length data) <= u64_MAX -> 0 < n -> Z.of_nat k <= len -> len < 2 ^ 32 ->
  (k <= length data)%nat -> from_reader_function_body (fresh o data) = (Ok b, advance k (fresh o data)) ->
  parse (body_parser o n len) data true
  = (Ok (Parsed (Z.of_nat k) (CodeSectionEntry b)),
     body_parser (o + Z.of_nat k) (n - 1) (len - Z.of_nat k)).
Proof.
  intros Ho Hfit Hn Hk Hlen Hkd Hb.
  pose proof (parse_step (body_parser o n len) data (CodeSectionEntry b)
    (body_parser o (n - 1) (len - Z.of_nat k)) k) as H.
  cbn [p_features p_offset p_max_size body_parser] in H. rewrite H; [|done|done|lia|lia| |done..].
  - f_equal. unfold advance_parser, body_parser, set_max_size, set_offset.
    cbn [p_state p_offset p_max_size p_encoding p_features]. f_equal. lia.
  - unfold parse_reader. rewrite pr_get. cbn [p_state body_parser].
    destruct (Z.eqb_spec n 0); [lia|]. unfold parse_function_entry.
    erewrite (pr_read _ _ _ _ (b, len - Z.of_nat k)); [done|].
    unfold delimited. rewrite ST_bind_eq. cbn [gets]. rewrite ST_bind_eq.
    unfold from_reader_function_body in Hb. rewrite Hb. rewrite ST_bind_eq. cbn [gets].
    rewrite advance_original_position, fresh_position.
    replace (o + Z.of_nat k - o) with (Z.of_nat k) by lia.
    rewrite (proj2 (Z.leb_le _ _)) by lia. by rewrite (proj2 (Z.leb_le _ _)) by lia.
Qed.

Lemma entries_run n o body rest xs d :
  0 <= o -> Forall is_byte (body ++ rest) -> o + Z.of_nat (length (body ++ rest)) <= u64_MAX ->
  Z.of_nat (length body) < 2 ^ 32 ->
  read_n (A := FunctionBody) n (fresh o (body ++ rest))
    = (Ok xs, advance (length body) (fresh o (body ++ rest))) ->
  exists pls, pa_steps (at_rest (body_parser o (Z.of_nat n) (Z.of_nat (length body))) (body ++ rest)) pls
      (at_rest (body_parser (o + Z.of_nat (length body)) 0 0) rest)
    /\ payload_views 0 d pls = ROk [].
Proof.
  revert o body xs. induction n as [|n IH]; intros o body xs Ho Hb Hfit Hl Hr; cbn [read_n] in Hr.
  { apply (f_equal (fun x => position x.2)) in Hr. cbn in Hr.
    destruct body; [|cbn in Hr; lia]. exists []. cbn. rewrite Z.add_0_r. split; [constructor|done]. }
  pose proof (fresh_wf o _ Hb Ho Hfit) as Hwf. set (r := fresh o (body ++ rest)) in *.
  rewrite ST_bind_eq in Hr. destruct (read r) as [[x|e|] r1] eqn:Ex; [|done..].
  rewrite ST_bind_eq in Hr. destruct (read_n n r1) as [[ys|e|] r2] eqn:Ey; [|done..].
  injection Hr as _ E2.
  assert (Hloc : local 1 (read (A := FunctionBody))).
  { apply local_bind_l; [apply local_read_reader|]. intros. apply local_ret. }
  pose proof (local_reader_wf 1 _ r x r1 Hloc Hwf Ex) as Hwf1.
  destruct (Hloc r x r1 Hwf Ex) as (b1 & Hb1 & Eb1 & -> & _).
  destruct (local_read_n n Hloc _ _ _ Hwf1 Ey) as (b2 & _ & Eb2 & -> & Hn).
  rewrite advance_advance in E2. apply (f_equal position) in E2. unfold advance in E2. cbn in E2.
  assert (Ebr : body ++ rest = b1 ++ b2 ++ remaining_buffer (advance (length b2) (advance (length b1) r)))
    by (rewrite <- Eb2, <- Eb1; done).
  rewrite app_assoc in Ebr. apply app_inj_1 in Ebr as [-> Erest]; [|rewrite length_app; lia].
  rewrite <- Erest in Eb2. rewrite length_app in *.
  assert (Hb' : Forall is_byte (b2 ++ rest)) by (rewrite <- app_assoc in Hb; by apply Forall_app in Hb as [_ ?]).
  assert (Hfit' : o + Z.of_nat (length b1) + Z.of_nat (length (b2 ++ rest)) <= u64_MAX)
    by (rewrite !length_app in *; lia).
  pose proof (parse_entry o (Z.of_nat (S n)) (Z.of_nat (length b1 + length b2)) ((b1 ++ b2) ++ rest)
    x (length b1) Ho ltac:(rewrite !length_app in *; lia)
    ltac:(lia) ltac:(lia) Hl ltac:(rewrite !length_app; lia) Ex) as Hp.
  destruct (IH (o + Z.of_nat (length b1)) b2 ys ltac:(lia) Hb' Hfit' ltac:(lia)) as (pls & Hs & Hv).
  { apply (Hn _ rest). split; [apply fresh_wf; [done|lia|done]|done| |done].
    unfold r. by rewrite advance_original_position, !fresh_position. }
  exists (CodeSectionEntry x :: pls). split; [|cbn; by rewrite Hv].
  econstructor; [eapply at_rest_next; [exact Hp|rewrite !length_app; lia|done]|].
  rewrite <- app_assoc, drop_app_length.
  replace (Z.of_nat (S n) - 1) with (Z.of_nat n) by lia.
  replace (Z.of_nat (length b1 + length b2) - Z.of_nat (length b1)) with (Z.of_nat (length b2)) by lia.
  by replace (o + Z.of_nat (length b1 + length b2)) with (o + Z.of_nat (length b1) + Z.of_nat (length b2)) by lia.
Qed.

Lemma code_section_start_ok o count body rest r :
  wf_reader r -> features r = all -> in_u 32 count ->
  let n := Z.of_nat (length (write_unsigned count ++ body)) in
  n < 2 ^ 32 -> remaining_buffer r = write_unsigned count ++ body ++ rest ->
  code_section_start n (sec_parser o, r)
  = (Ok (CodeSectionStart count (original_position r, original_position r + n) (Z.of_nat (length body))),
     (body_parser o count (Z.of_nat (length body)), advance (length (write_unsigned count)) r)).
Proof.
  intros Hwf Hf Hc n Hn E. unfold code_section_start. rewrite pr_gets.
  assert (Hn' : n = Z.of_nat (length (write_unsigned count)) + Z.of_nat (length body))
    by (unfold n; rewrite length_app; lia).
  rewrite (pr_read _ _ _ _ (count, Z.of_nat (length body)) (advance (length (write_unsigned count)) r)).
  - rewrite pr_gets. rewrite advance_original_position. rewrite !ST_bind_eq. cbn [on_parser modify].
    unfold body_parser, set_state, sec_parser, mret, ST_ret. cbn [p_offset p_max_size p_encoding p_features].
    by replace (original_position r + n) with (original_position r
      + Z.of_nat (length (write_unsigned count)) + Z.of_nat (length body)) by lia.
  - unfold delimited. rewrite ST_bind_eq. cbn [gets]. rewrite ST_bind_eq.
    rewrite (reads_var_u32 all count Hc r _ Hwf Hf E). rewrite ST_bind_eq. cbn [gets].
    rewrite advance_original_position.
    replace (original_position r + Z.of_nat (length (write_unsigned count)) - original_position r)
      with (Z.of_nat (length (write_unsigned count))) by lia.
    rewrite (proj2 (Z.leb_le _ _)) by lia. rewrite (proj2 (Z.leb_le _ _)) by lia. cbn [andb].
    by replace (n - Z.of_nat (length (write_unsigned count))) with (Z.of_nat (length body)) by lia.
Qed.

(** The payload at the start of the code section, and the section it stands for. *)
Lemma parse_code_start o count body rest :
  let content := write_unsigned count ++ body in
  let n := Z.of_nat (length content) in
  let sb := 10 :: write_unsigned n ++ content in
  let start := o + Z.of_nat (length sb) - n in
  0 <= o -> in_u 32 count -> n < 2 ^ 32 -> Forall is_byte (sb ++ rest) ->
  o + Z.of_nat (length (sb ++ rest)) <= u64_MAX ->
  parse (sec_parser o) (sb ++ rest) true
  = (Ok (Parsed (Z.of_nat (length sb - length body))
           (CodeSectionStart count (start, start + n) (Z.of_nat (length body)))),
     body_parser (o + Z.of_nat (length sb - length body)) count (Z.of_nat (length body))).
Proof.
  intros content n sb start Ho Hc Hn Hb Hfit. pose proof (fresh_wf o _ Hb Ho Hfit) as Hwf.
  destruct (content_reader o 10 content rest Hwf) as (Hwf1 & E1 & Hpos).
  fold n in Hwf1, E1, Hpos. fold sb in Hwf1, E1, Hpos.
  set (k := S (length (write_unsigned n))) in *. set (j := length (write_unsigned count)).
  assert (Hsb : (length sb = k + (j + length body))%nat)
    by (unfold sb, k, j, content; cbn [length]; rewrite !length_app; lia).
  assert (Hn' : n = Z.of_nat j + Z.of_nat (length body))
    by (unfold n, j, content; rewrite length_app; lia).
  assert (E : sb ++ rest = 10 :: write_unsigned n ++ (content ++ rest))
    by (unfold sb; cbn; by rewrite <- app_assoc).
  assert (E1' := E1). unfold content in E1'. rewrite <- app_assoc in E1'.
  pose proof (code_section_start_ok o count body rest _ Hwf1 eq_refl Hc Hn E1') as Hcs.
  fold content in Hcs. fold n in Hcs. fold j in Hcs. rewrite advance_advance, Hpos in Hcs.
  replace (length sb - length body)%nat with (k + j)%nat by lia.
  replace start with (o + Z.of_nat k) by (unfold start; lia).
  rewrite E in Hcs, Hb, Hfit |- *.
  rewrite (parse_section_at o 10 n (content ++ rest)
    (CodeSectionStart count (o + Z.of_nat k, o + Z.of_nat k + n) (Z.of_nat (length body)))
    (body_parser o count (Z.of_nat (length body))) j); try done.
  - f_equal. unfold advance_parser, body_parser, set_max_size, set_offset.
    cbn [p_state p_offset p_max_size p_encoding p_features]. f_equal. lia.
  - unfold in_u. lia.
  - rewrite length_app. fold n. lia.
  - unfold content, j. rewrite !length_app. lia.
Qed.

Lemma code_view pre sb rest content count body (xs : list FunctionBody) len :
  let n := Z.of_nat (length content) in
  let start := Z.of_nat (length pre) + Z.of_nat (length sb) - n in
  sb = take (length sb - length content) sb ++ content -> content = write_unsigned count ++ body ->
  Forall is_byte (pre ++ sb ++ rest) -> Z.of_nat (length (pre ++ sb ++ rest)) <= u64_MAX ->
  in_u 32 count -> count = Z.of_nat (length xs) ->
  reads_ex all (read_n (length xs)) body (Forall2 function_body_equiv xs) ->
  exists ys, payload_view 0 (pre ++ sb ++ rest) (CodeSectionStart count (start, start + n) len)
      = ROk (Some (MS_Code ys)) /\ Forall2 function_body_equiv xs ys.
Proof.
  intros n start Esb Ec Hb Hl Hin Hn Hr.
  assert (Hlen : (length content <= length sb)%nat) by (rewrite Esb, length_app; lia).
  assert (Hwf : wf_reader (BinaryReader_new content start)).
  { rewrite !length_app in Hl. unfold start. apply fresh_wf; [|lia|fold n; lia].
    apply Forall_app in Hb as [_ [Hb _]%Forall_app]. rewrite Esb in Hb. by apply Forall_app in Hb as [_ ?]. }
  destruct (content_read_back all _ count body (Forall2 function_body_equiv xs) Hwf eq_refl Hin)
    as (sec & ys & Hsec & Hc & Hxy); [by rewrite Hn, Nat2Z.id|done|].
  exists ys. split; [|done]. cbn [payload_view fst].
  pose proof (original_content pre sb rest content start Esb ltac:(unfold start; lia)) as Ho.
  fold n in Ho. rewrite Ho.
  cbn [mbind outcome_bind]. rewrite Hsec. cbn [from_result mbind outcome_bind]. unfold items_view. by rewrite Hc.
Qed.

Lemma resume_body_parser o : resume (body_parser o 0 0) = sec_parser o.
Proof. done. Qed.

Lemma reparses_code (xs : list FunctionBody) s enc :
  num_added s = Z.of_nat (length xs) -> in_u 32 (num_added s) ->
  reads_ex all (read_n (length xs)) (bytes s) (Forall2 function_body_equiv xs) ->
  encode_builder s = Some enc -> reparses (10 :: enc) (MS_Code xs).
Proof.
  intros Hn Hin Hr Henc pre rest cur Hb Hl Hc. destruct (encode_builder_bytes s enc Henc) as [-> Hlen].
  set (content := write_unsigned (num_added s) ++ bytes s) in *.
  set (n := Z.of_nat (length content)) in *. set (sb := 10 :: write_unsigned n ++ content) in *.
  set (o := Z.of_nat (length pre)) in *.
  assert (Hb' : Forall is_byte (sb ++ rest)) by by apply Forall_app in Hb as [_ ?].
  assert (Hl' : o + Z.of_nat (length (sb ++ rest)) <= u64_MAX)
    by (rewrite length_app in Hl; unfold o; lia).
  pose proof (parse_code_start o (num_added s) (bytes s) rest ltac:(lia) Hin Hlen Hb' Hl') as Hp.
  fold content in Hp. fold n in Hp. fold sb in Hp. set (j := (length sb - length (bytes s))%nat) in *.
  set (h := 10 :: write_unsigned n ++ write_unsigned (num_added s)).
  assert (Hs : sb = h ++ bytes s) by (unfold sb, content, h; cbn; by rewrite <- app_assoc).
  assert (Hj : j = length h) by (unfold j; rewrite Hs, length_app; lia).
  assert (Esb : sb = take (length sb - length content) sb ++ content).
  { assert (Hs2 : sb = (10 :: write_unsigned n) ++ content) by done. rewrite Hs2 at 1 2 3.
    by rewrite length_app, Nat.add_sub, take_app_length. }
  destruct (code_view pre sb rest content (num_added s) (bytes s) xs (Z.of_nat (length (bytes s)))
    Esb eq_refl Hb Hl Hin Hn Hr) as (ys & Hv & Hxy).
  rewrite Hj in Hp. rewrite Hs, <- app_assoc in Hb', Hl'. rewrite length_app in Hl'.
  destruct (Hr (fresh (o + Z.of_nat (length h)) (bytes s ++ rest)) rest) as (zs & Hz & _); [|done..|].
  { apply fresh_wf; [by apply Forall_app in Hb' as [_ ?]|lia|lia]. }
  destruct (entries_run (length xs) (o + Z.of_nat (length h)) (bytes s) rest zs (pre ++ sb ++ rest))
    as (pls & Hst & Hvs); [lia|by apply Forall_app in Hb' as [_ ?]|lia| |done|].
  { unfold n, content in Hlen. rewrite length_app in Hlen. lia. }
  eexists _, _, (MS_Code ys). split; [|split; [|split; [|by constructor]]].
  - econstructor; [|exact Hst]. rewrite <- Hn.
    replace (bytes s ++ rest) with (drop (length h) (sb ++ rest))
      by (rewrite Hs, <- app_assoc; apply drop_app_length).
    eapply at_rest_step; [exact Hc|exact Hp|rewrite Hs, !length_app; lia|done].
  - rewrite resume_body_parser. f_equal. rewrite Hs, length_app. lia.
  - cbn [payload_views]. unfold n in Hv |- *. fold o in Hv. rewrite Hv, Hvs. done.
Qed.
End reparse.
