(* ===== verification/ModuleRoundtrip.v ===== *)
(** The translation of a whole module: every section of the input is written as
    a section with the same content, and the module parses to these sections. *)

From Stdlib Require Import ZArith Lia String.
From stdpp Require Import prelude.
From S2P Require Import Prelude Leb128 BinaryReader BinaryReaderSpec ReaderLogic Encode Types EncTypes Operands.
From S2P Require Import Operators OperatorReader Instructions Reencode OperandSpec OperandRoundtrip.
From S2P Require Import InstrRoundtrip SectionReader CompositeTypes Items EncSections ReencodeSections Locality.
From S2P Require Import FunctionSpec CompositeSpec SectionSpec ItemSpec SectionItems Parser ParserSpec.
From S2P Require Import ParserStable Names NameSpec ReencodeModule ModuleSpec.

Local Open Scope Z_scope.

Section roundtrip.
Context {L : Leb128} {LS : Leb128Spec L}.

(** ** The bytes of one payload *)

(** The bytes added for a payload, by the section it stands for. *)
Definition added (v : option ModSection) (bs : list Z) : Prop :=
  match v with Some v => reparses bs v | None => bs = [] end.

Lemma module_section_bytes id e m m' :
  unwrap_outcome (WS.module_section id e m) = ROk m' ->
  exists enc, e = Some enc /\ WS.module_bytes m' = WS.module_bytes m ++ id :: enc.
Proof. destruct e as [enc|]; [|done]. intros [= <-]. by exists enc. Qed.

Lemma push_section_bytes id e st st' :
  push_section id e st = ROk st' ->
  exists enc, e = Some enc
    /\ WS.module_bytes st'.1 = WS.module_bytes st.1 ++ WS.section_id id :: enc.
Proof.
  unfold push_section.
  destruct (unwrap_outcome (WS.module_section (WS.section_id id) e st.1)) as [m| |] eqn:E; [|done..].
  intros [= <-]. by apply module_section_bytes in E.
Qed.

Lemma reencode_items_bytes {A} `{SectionItemLaws A} id variant (mk : list A -> ModSection) sec st st' :
  section_of all sec ->
  (forall n o len_pos r, section_payload (WS.section_id id) n len_pos (sec_parser o, r)
     = on_reader (Parser.section n section_new variant) (sec_parser o, r)) ->
  (forall o data sec, payload_view o data (variant sec) = items_view mk sec) ->
  (forall xs ys, Forall2 item_equiv xs ys -> ms_equiv (mk xs) (mk ys)) ->
  reencode_items id (fun s sec => for_each parse_item sec s) sec st = ROk st' ->
  exists v bs, items_view mk sec = ROk v
    /\ WS.module_bytes st'.1 = WS.module_bytes st.1 ++ bs /\ added v bs.
Proof.
  intros (br & Hwf & Hf & Hsec) Hp Hv Heq Hst. unfold reencode_items in Hst.
  cbn [mbind outcome_bind handle_intersperse_section_hook intersperse_section_hook mret outcome_ret] in Hst.
  destruct (for_each parse_item sec SectionBuilder_new) as [s| |] eqn:Es; [|done..].
  cbn [mbind outcome_bind] in Hst. apply push_section_bytes in Hst as (enc & Henc & Hb).
  destruct (translate_section br sec s Hwf Hsec Es) as (xs & Hc & Hn & Hin & Hr & _).
  rewrite Hf in Hr. exists (Some (mk xs)), (WS.section_id id :: enc).
  split; [unfold items_view; by rewrite Hc|]. split; [done|]. cbn [added].
  eapply reparses_items; [by destruct id|exact Hp|exact Hv|exact Heq|done..].
Qed.

(** The code section, from the bytes of the original. *)
Lemma original_section_bytes data a b content :
  Forall is_byte data -> get_original_section 0 data (a, b) = ROk content ->
  Forall is_byte content /\ 0 <= a /\ a + Z.of_nat (length content) <= Z.of_nat (length data).
Proof.
  intros Hb. unfold get_original_section. destruct (Z.ltb_spec a 0); [done|].
  destruct (Z.ltb_spec b 0); [done|]. cbn [orb]. rewrite !Z.sub_0_r.
  destruct (Z.leb_spec a b); [|done]. destruct (Z.leb_spec b (Z.of_nat (length data))); [|done].
  intros [= <-]. unfold slice. split; [by apply Forall_take, Forall_drop|]. split; [done|].
  rewrite length_take, length_drop. lia.
Qed.

Lemma code_section_bytes data n rg len st st' :
  Forall is_byte data -> Z.of_nat (length data) <= u64_MAX ->
  parse_payload 0 data (CodeSectionStart n rg len) st = ROk st' ->
  exists v bs, payload_view 0 data (CodeSectionStart n rg len) = ROk v
    /\ WS.module_bytes st'.1 = WS.module_bytes st.1 ++ bs /\ added v bs.
Proof.
  intros Hb Hl Hst. destruct rg as [a b].
  cbn [parse_payload payload_view mbind outcome_bind handle_intersperse_section_hook
       intersperse_section_hook mret outcome_ret fst snd] in *.
  destruct (get_original_section 0 data (a, b)) as [content| |] eqn:Eo; [|done..].
  destruct (original_section_bytes data a b content Hb Eo) as (Hbc & Ha & Hfit).
  assert (Hwf : wf_reader (BinaryReader_new content a)) by (apply fresh_wf; (done || lia)).
  cbn [mbind outcome_bind] in *.
  destruct (section_new (BinaryReader_new content a)) as [sec| |] eqn:Hsec; [|done..].
  cbn [from_result mbind outcome_bind] in *.
  destruct (parse_code_section SectionBuilder_new sec) as [s| |] eqn:Es; [|done..].
  cbn [mbind outcome_bind] in Hst. apply push_section_bytes in Hst as (enc & Henc & Hm).
  change (for_each (parse_item (A := FunctionBody)) sec SectionBuilder_new = ROk s) in Es.
  destruct (translate_section (A := FunctionBody) _ sec s Hwf Hsec Es) as (xs & Hc & Hn & Hin & Hr & _).
  exists (Some (MS_Code xs)), (10 :: enc). split; [unfold items_view; by rewrite Hc|].
  split; [done|]. by eapply reparses_code.
Qed.

Lemma custom_section_added data c st st' :
  payload_wf EModule all (CustomSection c) ->
  parse_payload 0 data (CustomSection c) st = ROk st' ->
  exists v bs, payload_view 0 data (CustomSection c) = ROk v
    /\ WS.module_bytes st'.1 = WS.module_bytes st.1 ++ bs /\ added v bs.
Proof.
  intros (br & Hwf & Hf & Hc) Hst. unfold custom_new in Hc.
  destruct (read_string br) as [[nm| |] r1] eqn:En; [|done..]. injection Hc as <-.
  destruct (read_string_inv br nm r1 Hwf En) as (Hs & Hwf1 & Hf1).
  cbn [parse_payload payload_view] in *. unfold parse_custom_section, as_known in *.
  cbn [custom_name] in *. destruct (bool_decide (nm = name_str)) eqn:Ek.
  - destruct (custom_name_section _) as [ns| |] eqn:Ens; [|done..]. cbn [mbind outcome_bind] in Hst.
    apply push_section_bytes in Hst as (enc & Henc & Hm).
    destruct (reparses_names (shrink r1) ns enc) as (vs & Hvs & Hr);
      [by apply shrink_wf|by rewrite <- Hf, <- Hf1|done..|].
    exists (Some (MS_Names vs)), (0 :: enc). cbn [custom_reader]. rewrite Hvs. by split_and!.
  - apply push_section_bytes in Hst as (enc & Henc & Hm).
    eexists (Some _), (0 :: enc). split; [done|]. split; [done|]. cbn [added].
    apply reparses_custom; [done|by apply bool_decide_eq_false in Ek|done].
Qed.

Lemma forall2_eq_sections {A} (mk : list A -> ModSection) xs ys :
  Forall2 eq xs ys -> ms_equiv (mk xs) (mk ys).
Proof. intros ->%list_eq_Forall2. constructor. Qed.

Lemma number_section_added id desc variant (mk : Z -> ModSection) (e : Z -> Enc) x st st' :
  (forall n o len_pos r, section_payload (WS.section_id id) n len_pos (sec_parser o, r)
     = on_reader ('(y, range) ← single_item (A := Z) n desc; mret (variant y range)) (sec_parser o, r)) ->
  (forall o data y rg, payload_view o data (variant y rg) = ROk (Some (mk y))) ->
  e x = (size ← encoding_size x; encode_usize size +> encode_u32 x) ->
  in_u 32 x -> push_section id (e x) st = ROk st' ->
  exists bs, WS.module_bytes st'.1 = WS.module_bytes st.1 ++ bs /\ reparses bs (mk x).
Proof.
  intros Hsp Hv He Hx Hst. apply push_section_bytes in Hst as (enc & Henc & Hm). rewrite He in Henc.
  eexists. split; [exact Hm|]. eapply reparses_number; [by destruct id|exact Hsp|exact Hv|done..].
Qed.

Lemma unknown_section_added data id contents rg st st' :
  payload_wf EModule all (UnknownSection id contents rg) ->
  parse_payload 0 data (UnknownSection id contents rg) st = ROk st' ->
  exists v bs, payload_view 0 data (UnknownSection id contents rg) = ROk v
    /\ WS.module_bytes st'.1 = WS.module_bytes st.1 ++ bs /\ added v bs.
Proof.
  destruct rg as [a b]. intros (_ & Hid & Hm) Hst.
  cbn [parse_payload payload_view as_section] in *.
  destruct (get_original_section 0 data (a, b)) as [c| |]; [|done..]. cbn [mbind outcome_bind] in *.
  unfold parse_unknown_section in Hst. destruct (unwrap_outcome _) as [m| |] eqn:Em; [|done..].
  injection Hst as <-. apply module_section_bytes in Em as (enc & Henc & Hb).
  eexists _, _. split; [done|]. split; [done|]. apply reparses_unknown; [|done].
  specialize (Hm eq_refl). lia.
Qed.

Lemma payload_added data pl st st' :
  Forall is_byte data -> Z.of_nat (length data) <= u64_MAX -> payload_wf EModule all pl ->
  parse_payload 0 data pl st = ROk st' ->
  exists v bs, payload_view 0 data pl = ROk v
    /\ WS.module_bytes st'.1 = WS.module_bytes st.1 ++ bs /\ added v bs.
Proof.
  intros Hb Hl Hw Hst. destruct pl; try done.
  - destruct encoding; [|done]. injection Hst as <-. exists None, []. by rewrite app_nil_r.
  - eapply (reencode_items_bytes (A := RecGroup) WS.SType); try done. intros. by constructor.
  - eapply (reencode_items_bytes (A := Import) WS.SImport); try done. by apply forall2_eq_sections.
  - eapply (reencode_items_bytes (A := Z) WS.SFunction); try done. by apply forall2_eq_sections.
  - eapply (reencode_items_bytes (A := Table) WS.STable); try done. intros. by constructor.
  - eapply (reencode_items_bytes (A := MemoryType) WS.SMemory); try done. by apply forall2_eq_sections.
  - eapply (reencode_items_bytes (A := TagType) WS.STag); try done. by apply forall2_eq_sections.
  - eapply (reencode_items_bytes (A := Global) WS.SGlobal); try done. intros. by constructor.
  - eapply (reencode_items_bytes (A := Export) WS.SExport); try done. by apply forall2_eq_sections.
  - edestruct (number_section_added WS.SStart) as (bs & Hm & Hr); [..|exact Hw|exact Hst|];
      [done|by intros; instantiate (1 := MS_Start)|done|]. eexists _, bs. by split_and!.
  - eapply (reencode_items_bytes (A := Element) WS.SElement); try done. intros. by constructor.
  - edestruct (number_section_added WS.SDataCount) as (bs & Hm & Hr); [..|exact Hw|exact Hst|];
      [done|by intros; instantiate (1 := MS_DataCount)|done|]. eexists _, bs. by split_and!.
  - eapply (reencode_items_bytes (A := Data) WS.SData); try done. intros. by constructor.
  - by eapply code_section_bytes.
  - injection Hst as <-. exists None, []. by rewrite app_nil_r.
  - by apply custom_section_added.
  - by apply unknown_section_added.
  - injection Hst as <-. exists None, []. by rewrite app_nil_r.
Qed.

(** ** The bytes of all payloads *)

Inductive sections_of : list Z -> list ModSection -> Prop :=
| so_nil : sections_of [] []
| so_cons sb v bs vs : reparses sb v -> sections_of bs vs -> sections_of (sb ++ bs) (v :: vs).

Lemma added_sections v bs vs bs' :
  added v bs -> sections_of bs' vs -> sections_of (bs ++ bs') (cons_view v vs).
Proof. destruct v; cbn; [by constructor|by intros ->]. Qed.

(** The iterator within a core module. *)
Definition core_all (it : ParseAll) : Prop :=
  wf_all it /\ pa_stack it = [] /\ p_encoding (pa_cur it) = EModule /\ p_features (pa_cur it) = all.

Definition core_payload (pl : Payload) : Prop :=
  match pl with
  | Version _ EComponent _ | ModuleSection _ _ | ComponentSection _ _ => False
  | _ => True
  end.

Lemma core_next it pl it' :
  core_all it -> parse_all_next it = (Some (Ok pl), it') ->
  payload_wf EModule all pl /\ (core_payload pl -> core_all it').
Proof.
  intros (Hw & Hs & He & Hf) Hn. pose proof (parse_all_next_ok it Hw) as Hok. rewrite Hn in Hok.
  destruct Hok as [Hw' _]. destruct Hw as (Hc & _ & Hb). unfold parse_all_next in Hn.
  pose proof (parse_ok (pa_cur it) (pa_data it) true Hc Hb) as Hp.
  destruct (pa_done it); [done|].
  destruct (parse (pa_cur it) (pa_data it) true) as [[[h|c pl']|e|] p']; try done.
  cbn [fst snd parse_post] in Hp. destruct Hp as (k & p1 & -> & Hk & Hpo & Ep & _).
  destruct (Z.ltb_spec (Z.of_nat (length (pa_data it))) (Z.of_nat k)); [lia|].
  pose proof (po_content _ _ _ _ Hpo) as Hct. pose proof (po_encoding _ _ _ _ Hpo) as Hen.
  pose proof (po_features _ _ _ _ Hpo) as Hfe. rewrite He, Hf in *.
  assert (Hp1 : p_encoding p' = p_encoding p1 /\ p_features p' = p_features p1) by by subst p'.
  destruct Hp1 as [Ee Ef]. rewrite Hs in Hn.
  assert (pl' = pl) as -> by (destruct (after_payload pl' [] p') as [[? ?] ?]; by injection Hn).
  split; [done|]. intros Hcp. split; [done|]. rewrite <- Ee in Hen. rewrite <- Ef in Hfe.
  destruct pl; cbn [after_payload] in Hn; injection Hn as <-; cbn in Hen |- *; try done.
  cbn in Hcp. by destruct encoding.
Qed.

Lemma parse_payload_core data pl st st' :
  parse_payload 0 data pl st = ROk st' -> core_payload pl.
Proof. destruct pl; try done. by destruct encoding. Qed.

Lemma payloads_added data fuel it st st' :
  Forall is_byte data -> Z.of_nat (length data) <= u64_MAX -> core_all it ->
  parse_payloads fuel 0 data it st = ROk st' ->
  exists vs bs, module_views fuel 0 data it = ROk vs
    /\ WS.module_bytes st'.1 = WS.module_bytes st.1 ++ bs /\ sections_of bs vs.
Proof.
  intros Hb Hl. revert it st. induction fuel as [|fuel IH]; intros it st Hc Hst; [done|].
  cbn [parse_payloads module_views] in *.
  destruct (parse_all_next it) as [[[pl|e|]|] it'] eqn:Hn; [|done..|].
  2: { injection Hst as <-. exists [], []. rewrite app_nil_r. split_and!; [done..|constructor]. }
  cbn [from_result mbind outcome_bind] in *.
  destruct (parse_payload 0 data pl st) as [st1| |] eqn:Hp; [|done..]. cbn [mbind outcome_bind] in Hst.
  destruct (core_next it pl it' Hc Hn) as [Hw Hc'].
  destruct (payload_added data pl st st1 Hb Hl Hw Hp) as (v & bs & Hv & Hm & Ha).
  destruct (IH it' st1 (Hc' (parse_payload_core _ _ _ _ Hp)) Hst) as (vs & bs' & Hvs & Hm' & Hs).
  exists (cons_view v vs), (bs ++ bs'). rewrite Hv. cbn [mbind outcome_bind]. rewrite Hvs.
  split_and!; [done|by rewrite Hm', Hm, app_assoc|by apply added_sections].
Qed.

(** ** Parsing the new module *)

Lemma sections_parsed bs vs pre cur :
  sections_of bs vs -> Forall is_byte (pre ++ bs) -> Z.of_nat (length (pre ++ bs)) <= u64_MAX ->
  resume cur = sec_parser (Z.of_nat (length pre)) ->
  exists pls cur' vs', pa_steps (at_rest cur bs) pls (at_rest cur' [])
    /\ resume cur' = sec_parser (Z.of_nat (length (pre ++ bs)))
    /\ payload_views 0 (pre ++ bs) pls = ROk vs' /\ Forall2 ms_equiv vs vs'.
Proof.
  intros Hs. revert pre cur. induction Hs as [|sb v bs vs Hr Hs IH]; intros pre cur Hb Hl Hc.
  - exists [], cur, []. rewrite app_nil_r. split_and!; [constructor|done..].
  - destruct (Hr pre bs cur Hb Hl Hc) as (pls & cur' & v' & Hst & Hc' & Hv & Hvv).
    destruct (IH (pre ++ sb) cur') as (pls2 & cur2 & vs' & Hst2 & Hc2 & Hv2 & Hvs);
      [by rewrite <- app_assoc..|rewrite length_app, Nat2Z.inj_add; done|].
    rewrite <- app_assoc in Hc2, Hv2. exists (pls ++ pls2), cur2, (v' :: vs').
    split_and!; [by eapply pa_steps_app|done| |by constructor].
    change (v' :: vs') with ([v'] ++ vs'). by apply payload_views_app.
Qed.

Lemma end_next cur o :
  0 <= o -> o <= u64_MAX -> resume cur = sec_parser o ->
  parse_all_next (at_rest cur []) = (Some (Ok (End_ o)), mkParseAll [] (sec_parser o) true []).
Proof.
  intros Ho Hl Hc. unfold parse_all_next. cbn [pa_done pa_cur pa_data at_rest pa_stack].
  rewrite <- parse_resume, Hc.
  rewrite (parse_step (sec_parser o) [] (End_ o) (sec_parser o) 0); cbn [sec_parser p_features p_offset p_max_size length];
    try (done || lia).
  - rewrite advance_sec_parser. cbn. by rewrite Z.add_0_r.
  - unfold parse_reader. rewrite pr_get. cbn [p_state sec_parser]. unfold parse_section_start.
    rewrite pr_gets. change (true && (bytes_remaining (fresh o []) =? 0)) with true. cbv iota.
    rewrite pr_gets. by rewrite fresh_position, advance_0.
Qed.

Lemma header_version_read : reads all read_header_version WS.HEADER 1.
Proof.
  intros r rest Hwf Hf E.
  change WS.HEADER with (WASM_MAGIC_NUMBER ++ [0x01; 0x00; 0x00; 0x00]) in E |- *.
  rewrite <- app_assoc in E. unfold read_header_version. rewrite ST_bind_eq.
  rewrite (reads_bytes all WASM_MAGIC_NUMBER 4 eq_refl r _ Hwf Hf E).
  rewrite bool_decide_eq_true_2 by done. cbn [negb].
  destruct (advance_app r _ _ Hwf E) as [Hwf1 E1].
  rewrite (reads_u32 all [0x01; 0x00; 0x00; 0x00] eq_refl _ _ Hwf1 Hf E1). by rewrite advance_advance.
Qed.

Lemma header_next rest :
  Forall is_byte (WS.HEADER ++ rest) -> Z.of_nat (length (WS.HEADER ++ rest)) <= u64_MAX ->
  parse_all_next (parse_all (Parser_new 0) (WS.HEADER ++ rest))
  = (Some (Ok (Version 1 EModule (0, 8))), at_rest (sec_parser 8) rest).
Proof.
  intros Hb Hl. pose proof (fresh_wf 0 _ Hb ltac:(lia) ltac:(lia)) as Hwf.
  change (parse_all ?p ?d) with (at_rest p d).
  rewrite (at_rest_next _ 8 _ (Version 1 EModule (0, 8)) (sec_parser 8)); [done| |rewrite length_app; cbn; lia|done].
  change (sec_parser 8) with (advance_parser 8 (set_state SectionStart (Parser_new 0))).
  apply (parse_step (Parser_new 0)); cbn [Parser_new p_features p_offset p_max_size]; try (done || lia).
  2: { rewrite length_app. cbn. lia. }
  change (mkParser Header 0 u64_MAX EModule all) with (Parser_new 0).
  unfold parse_reader. rewrite pr_get. cbn [p_state Parser_new]. unfold parse_header.
  rewrite pr_gets. rewrite (pr_read _ _ _ _ 1 (advance 8 (fresh 0 (WS.HEADER ++ rest))))
    by (by apply header_version_read with (rest := rest)).
  rewrite fresh_position. done.
Qed.

Lemma module_views_steps data it pls it' vs fuel :
  pa_steps it pls it' -> pa_done it' = true -> wf_all it -> (all_measure it < fuel)%nat ->
  payload_views 0 data pls = ROk vs -> module_views fuel 0 data it = ROk vs.
Proof.
  intros Hs. revert fuel vs. induction Hs as [it|it pl it1 pls it2 Hn Hs IH];
    intros fuel vs Hd Hw Hf Hv; (destruct fuel as [|fuel]; [lia|]); cbn [module_views].
  - cbn in Hv. unfold parse_all_next. by rewrite Hd.
  - pose proof (parse_all_next_ok it Hw) as Hok. rewrite Hn in Hok |- *. destruct Hok as [Hw1 Hm].
    cbn [from_result mbind outcome_bind payload_views] in *.
    destruct (payload_view 0 data pl) as [v| |]; [|done..]. cbn [mbind outcome_bind] in *.
    destruct (payload_views 0 data pls) as [ws| |]; [|done..].
    by rewrite (IH fuel ws) by (done || lia).
Qed.

Lemma parse_all_wf data :
  Forall is_byte data -> core_all (parse_all (Parser_new 0) data).
Proof.
  intros Hb. split_and!; [|done..]. split_and!; [|by constructor|done]. split; cbn; (done || lia).
Qed.

Lemma sections_module bs vs :
  sections_of bs vs -> Forall is_byte (WS.HEADER ++ bs) ->
  Z.of_nat (length (WS.HEADER ++ bs)) <= u64_MAX ->
  exists vs', module_view (WS.HEADER ++ bs) = ROk vs' /\ Forall2 ms_equiv vs vs'.
Proof.
  intros Hs Hb Hl.
  destruct (sections_parsed bs vs WS.HEADER (sec_parser 8) Hs Hb Hl) as (pls & cur & vs' & Hst & Hc & Hv & Hvs);
    [done|]. exists vs'. split; [|done]. set (data := WS.HEADER ++ bs) in *.
  pose proof (end_next cur _ (Nat2Z.is_nonneg _) Hl Hc) as He.
  eapply (module_views_steps data _ (Version 1 EModule (0, 8) :: pls ++ [End_ (Z.of_nat (length data))])
      (mkParseAll [] (sec_parser (Z.of_nat (length data))) true []));
    [|reflexivity|by apply parse_all_wf|unfold all_measure, parse_all; cbn [pa_done pa_stack pa_data length]; lia|].
  - econstructor; [by apply header_next|]. eapply pa_steps_app; [exact Hst|].
    econstructor; [exact He|constructor].
  - cbn [payload_views payload_view mbind outcome_bind mret outcome_ret].
    rewrite (payload_views_app _ _ pls [End_ (Z.of_nat (length data))] vs' [] Hv eq_refl).
    by rewrite app_nil_r.
Qed.

Lemma core_module_sections data m :
  Forall is_byte data -> Z.of_nat (length data) <= u64_MAX ->
  parse_core_module WS.Module_new (Parser_new 0) data = ROk m ->
  exists vs bs, module_view data = ROk vs
    /\ WS.module_bytes m = WS.HEADER ++ bs /\ sections_of bs vs.
Proof.
  intros Hb Hl Hm. unfold parse_core_module in Hm. cbn [p_offset Parser_new] in Hm.
  destruct (parse_payloads _ _ _ _ _) as [[m' o]| |] eqn:Hp; [|done..]. injection Hm as <-.
  exact (payloads_added data _ _ _ _ Hb Hl (parse_all_wf data Hb) Hp).
Qed.
End roundtrip.

(** * When the translation of a module cannot fail: the sections of the input can
    be decoded, and so can the function bodies. *)

(** A result that is not an error. *)
Definition no_error {A} (x : outcome A) : Prop := forall e, x <> RErr e.

Lemma no_error_bind {A B} (x : outcome A) (k : A -> outcome B) :
  no_error x -> (forall a, x = ROk a -> no_error (k a)) -> no_error (x ≫= k).
Proof. intros Hx Hk e. destruct x as [a|e'|]; cbn; [by apply Hk|by destruct (Hx e')|done]. Qed.

Lemma no_error_unwrap {A} (x : option A) : no_error (unwrap_outcome x).
Proof. by destruct x. Qed.

Lemma no_error_ok {A} (x : A) : no_error (ROk x).
Proof. done. Qed.

Section errors.
Context {L : Leb128} {LS : Leb128Spec L}.

Lemma translate_no_error {A} `{SectionItemLaws A} r sec (xs : list A) u :
  wf_reader r -> section_new r = Ok sec -> section_collect sec = Ok xs -> items_check xs = Ok u ->
  no_error (for_each parse_item sec SectionBuilder_new).
Proof.
  intros Hwf Hsec Hc Hu. unfold section_new in Hsec.
  destruct (read_var_u32 r) as [[n|e|] r1] eqn:En; try done. injection Hsec as <-.
  pose proof (read_var_u32_inv r n r1 Hwf En) as [Hn _].
  assert (Hwf1 : wf_reader r1) by by eapply local_reader_wf; [apply local_var_u32|..].
  destruct (section_items_ok (Z.to_nat n) r1 Hwf1) as (Hws & Hl & Hst).
  rewrite section_collect_items in Hc by apply Hn. rewrite for_each_items by apply Hn.
  destruct (section_items (Z.to_nat n) r1) as [ys st]. cbn [fst snd] in *. destruct st; [|done..].
  injection Hc as ->. unfold in_u in Hn.
  pose proof (fold_parse_items _ xs SectionBuilder_new Hws ltac:(done) ltac:(simpl; lia)) as Hf.
  rewrite Hu in Hf. destruct Hf as (_ & _ & Hf). intros e.
  by destruct (fold_outcome parse_item xs SectionBuilder_new) as [s|e'|]; [|destruct (Hf e')|].
Qed.

(** Sections of items that are decoded when they are read. *)
Lemma reencode_items_no_error {A} `{SectionItemLaws A} id (mk : list A -> ModSection) sec v st :
  (forall x : A, item_check x = Ok tt) -> section_of all sec -> items_view mk sec = ROk v ->
  no_error (reencode_items id (fun s sec => for_each parse_item sec s) sec st).
Proof.
  intros Hck (br & Hwf & Hf & Hsec) Hv. unfold items_view in Hv.
  destruct (section_collect sec) as [xs| |] eqn:Hc; [|done..].
  apply no_error_bind; [done|]. intros st1 _. apply no_error_bind.
  - eapply (translate_no_error br); [done..|]. instantiate (1 := tt).
    clear - Hck. induction xs as [|x xs IH]; [done|]. simpl. by rewrite Hck.
  - intros s _. apply no_error_bind; [apply no_error_unwrap|done].
Qed.

(** ** Names *)

Lemma views_checked xs vs : indirect_views xs = Ok vs -> items_check xs = Ok tt.
Proof.
  revert vs. induction xs as [|x xs IH]; intros vs Hv; [done|]. cbn in *.
  unfold indirect_check, indirect_view in *.
  destruct (section_collect _) as [ys| |]; [|done..]. cbn in *.
  destruct (indirect_views xs) as [ws| |]; [|done..]. by apply (IH ws).
Qed.

Lemma push_map_no_error id names m : no_error m -> no_error (push_map id names m).
Proof. intros Hm. apply no_error_bind; [done|]. intros s _. apply no_error_unwrap. Qed.

Lemma name_view_no_error id br n names v :
  wf_reader br -> name_from_reader id br = Ok n -> name_view n = Ok v ->
  no_error (parse_custom_name_subsection n names).
Proof.
  intros Hwf Hn Hv.
  destruct (name_from_reader_inv id br n Hn)
    as [(name & rg & r' & -> & Hr)|[(sec & Hsec & [Hd|Hd])|(rg & -> & Hun)]].
  - apply no_error_unwrap.
  - destruct (direct_map_parse n id sec names Hd) as (E & _). rewrite E. apply push_map_no_error.
    pose proof (name_map_ok br sec Hwf Hsec) as Hm.
    assert (exists xs, section_collect (A := Naming) sec = Ok xs) as [xs Hc].
    { destruct n; try done; cbn in Hd; injection Hd as <- ->; cbn [name_view direct_map indirect_map] in Hv;
        destruct (section_collect sec) as [xs| |]; try done; by exists xs. }
    rewrite Hc in Hm. by destruct Hm as [s ->].
  - destruct (indirect_map_parse n id sec names Hd) as (E & _). rewrite E. apply push_map_no_error.
    unfold indirect_name_map, WN.IndirectNameMap.
    change (append_indirect (fun i => i)) with (parse_item (A := IndirectNaming)).
    assert (exists xs vs, section_collect (A := IndirectNaming) sec = Ok xs /\ indirect_views xs = Ok vs)
      as (xs & vs & Hc & Hvs).
    { destruct n; try done; cbn in Hd; injection Hd as <- ->; cbn [name_view direct_map indirect_map] in Hv;
        destruct (section_collect sec) as [xs| |]; try done; cbn in Hv;
        destruct (indirect_views xs) as [vs| |] eqn:Hvs; try done; by exists xs, vs. }
    eapply (translate_no_error br); [done..|by eapply views_checked].
  - apply no_error_unwrap.
Qed.

Lemma names_no_error fuel r ret vs :
  wf_reader r -> names_view fuel r = Ok vs -> no_error (name_section_loop fuel r ret).
Proof.
  revert r ret vs. induction fuel as [|fuel IH]; intros r ret vs Hwf Hv; [done|].
  cbn [name_section_loop names_view] in *. unfold subsections_next in *. destruct (eof r); [done|].
  destruct (subsection_read r) as [[n|e|] r'] eqn:Er; [|done..]. cbn [from_result result_bind] in *.
  destruct (subsection_read_inv r n r' Hwf Er) as ((Hwf' & Hf') & id & br & Hid & Hwfb & Hfb & Hlb & Hn).
  destruct (name_view n) as [v| |] eqn:Hnv; [|done..]. cbn [result_bind] in Hv.
  destruct (names_view fuel r') as [ws| |] eqn:Hws; [|done..].
  apply no_error_bind; [done|]. intros ? [= <-].
  apply no_error_bind; [by eapply name_view_no_error|]. intros ret' _. by eapply IH.
Qed.

(** ** Payloads *)

(** The bodies of the code section can be translated. *)
Definition section_checked (v : ModSection) : Prop :=
  match v with MS_Code xs => items_check xs = Ok tt | _ => True end.

Definition view_checked (v : option ModSection) : Prop :=
  match v with Some v => section_checked v | None => True end.

Lemma push_section_no_error id e st : no_error (push_section id e st).
Proof. apply no_error_bind; [apply no_error_unwrap|done]. Qed.

Lemma custom_no_error data c v st :
  payload_wf EModule all (CustomSection c) -> payload_view 0 data (CustomSection c) = ROk v ->
  no_error (parse_custom_section c st).
Proof.
  intros (br & Hwf & Hf & Hc) Hv. unfold custom_new in Hc.
  destruct (read_string br) as [[nm| |] r1] eqn:En; [|done..]. injection Hc as <-.
  destruct (read_string_inv br nm r1 Hwf En) as (Hs & Hwf1 & Hf1).
  cbn [payload_view] in Hv. unfold parse_custom_section, as_known in *.
  destruct (bool_decide _); [|apply push_section_no_error].
  cbn [custom_reader] in *.
  destruct (names_view _ (shrink r1)) as [vs| |] eqn:Hvs; [|done..].
  apply no_error_bind; [|intros ns _; apply push_section_no_error].
  eapply names_no_error; [by apply shrink_wf|exact Hvs].
Qed.

Lemma code_no_error data n rg len v st :
  Forall is_byte data -> Z.of_nat (length data) <= u64_MAX ->
  payload_view 0 data (CodeSectionStart n rg len) = ROk v -> view_checked v ->
  no_error (parse_payload 0 data (CodeSectionStart n rg len) st).
Proof.
  intros Hb Hl Hv Hck. destruct rg as [a b]. cbn [parse_payload payload_view fst] in *.
  apply no_error_bind; [done|]. intros st1 _.
  destruct (get_original_section 0 data (a, b)) as [content| |] eqn:Eo; [|done..].
  destruct (original_section_bytes data a b content Hb Eo) as (Hbc & Ha & Hfit).
  assert (Hwf : wf_reader (BinaryReader_new content a)) by (apply fresh_wf; (done || lia)).
  cbn [mbind outcome_bind] in *.
  destruct (section_new (BinaryReader_new content a)) as [sec| |] eqn:Hsec; [|done..].
  cbn [from_result mbind outcome_bind] in *. unfold items_view in Hv.
  destruct (section_collect sec) as [xs| |] eqn:Hc; [|done..]. injection Hv as <-.
  apply no_error_bind; [|intros s _; apply push_section_no_error].
  exact (translate_no_error (A := FunctionBody) _ sec xs tt Hwf Hsec Hc Hck).
Qed.

Lemma payload_no_error data pl v st :
  Forall is_byte data -> Z.of_nat (length data) <= u64_MAX -> payload_wf EModule all pl ->
  payload_view 0 data pl = ROk v -> view_checked v -> no_error (parse_payload 0 data pl st).
Proof.
  intros Hb Hl Hw Hv Hck. destruct pl; try done.
  - by destruct encoding.
  - exact (reencode_items_no_error (A := RecGroup) WS.SType MS_Types s v st (fun _ => eq_refl) Hw Hv).
  - exact (reencode_items_no_error (A := Import) WS.SImport MS_Imports s v st (fun _ => eq_refl) Hw Hv).
  - exact (reencode_items_no_error (A := Z) WS.SFunction MS_Functions s v st (fun _ => eq_refl) Hw Hv).
  - exact (reencode_items_no_error (A := Table) WS.STable MS_Tables s v st (fun _ => eq_refl) Hw Hv).
  - exact (reencode_items_no_error (A := MemoryType) WS.SMemory MS_Memories s v st (fun _ => eq_refl) Hw Hv).
  - exact (reencode_items_no_error (A := TagType) WS.STag MS_Tags s v st (fun _ => eq_refl) Hw Hv).
  - exact (reencode_items_no_error (A := Global) WS.SGlobal MS_Globals s v st (fun _ => eq_refl) Hw Hv).
  - exact (reencode_items_no_error (A := Export) WS.SExport MS_Exports s v st (fun _ => eq_refl) Hw Hv).
  - apply no_error_bind; [done|]. intros. apply push_section_no_error.
  - exact (reencode_items_no_error (A := Element) WS.SElement MS_Elements s v st (fun _ => eq_refl) Hw Hv).
  - apply no_error_bind; [done|]. intros. apply push_section_no_error.
  - exact (reencode_items_no_error (A := Data) WS.SData MS_Data s v st (fun _ => eq_refl) Hw Hv).
  - by eapply code_no_error.
  - by eapply custom_no_error.
  - cbn [parse_payload payload_view as_section] in *.
    destruct (get_original_section _ _ _) as [c| |]; [|done..].
    apply no_error_bind; [done|]. intros c' _.
    apply no_error_bind; [apply no_error_unwrap|done].
Qed.

(** ** The module *)

Lemma views_no_error data fuel it vs st :
  Forall is_byte data -> Z.of_nat (length data) <= u64_MAX -> core_all it ->
  module_views fuel 0 data it = ROk vs -> Forall section_checked vs ->
  no_error (parse_payloads fuel 0 data it st).
Proof.
  intros Hb Hl. revert it st vs. induction fuel as [|fuel IH]; intros it st vs Hc Hv Hck; [done|].
  cbn [parse_payloads module_views] in *.
  destruct (parse_all_next it) as [[[pl|e|]|] it'] eqn:Hn; [|done..].
  cbn [from_result mbind outcome_bind] in Hv.
  destruct (core_next it pl it' Hc Hn) as [Hw Hc'].
  destruct (payload_view 0 data pl) as [v| |] eqn:Hpv; [|done..]. cbn [mbind outcome_bind] in Hv.
  destruct (module_views fuel 0 data it') as [ws| |] eqn:Hws; [|done..]. injection Hv as <-.
  assert (view_checked v /\ Forall section_checked ws) as [Hck1 Hck2]
    by (destruct v; cbn in *; [by inversion Hck|done]).
  apply no_error_bind; [done|]. intros ? [= <-].
  apply no_error_bind; [by eapply payload_no_error|]. intros st' Hp.
  eapply IH; [|done..]. by eapply Hc', parse_payload_core.
Qed.

(** More fuel changes nothing. *)
Lemma parse_payloads_fuel data fuel it st :
  wf_all it -> (all_measure it < fuel)%nat ->
  parse_payloads fuel 0 data it st = parse_payloads (S (all_measure it)) 0 data it st.
Proof.
  enough (H : forall f1 f2 it st, wf_all it -> (all_measure it < f1)%nat -> (all_measure it < f2)%nat ->
    parse_payloads f1 0 data it st = parse_payloads f2 0 data it st) by (intros; apply H; (done || lia)).
  clear. induction f1 as [|f1 IH]; intros [|f2] it st Hw H1 H2; try lia. cbn [parse_payloads].
  pose proof (parse_all_next_ok it Hw) as Hok.
  destruct (parse_all_next it) as [[[pl|e|]|] it']; [|done..]. destruct Hok as [Hw' Hm].
  cbn [from_result mbind outcome_bind].
  destruct (parse_payload 0 data pl st) as [st'| |]; [|done..]. apply IH; [done|lia..].
Qed.
End errors.
