(* ===== verification/ValidatorState.v ===== *)
(** What the operator validator is given, the features
    ([crates/wasmparser/src/validator.rs]) and the module
    ([WasmModuleResources] of [crates/wasmparser/src/resources.rs]), and its own
    state: locals, initializations, operands and control frames
    ([crates/wasmparser/src/validator/operators.rs]). *)

From Stdlib Require Import ZArith Lia String.
From stdpp Require Import prelude.
From S2P Require Import Prelude StateLogic BinaryReader Types Operands CompositeTypes Items.

Local Open Scope Z_scope.

(** ** Reference types *)

Definition ANY : RefType := from_u32 ANY_ABSTYPE.
Definition EQ : RefType := from_u32 EQ_ABSTYPE.
Definition EXN : RefType := from_u32 EXN_ABSTYPE.
Definition I31 : RefType := from_u32 I31_ABSTYPE.
Definition ANYREF : RefType := nullable ANY.
Definition EQREF : RefType := nullable EQ.
Definition EXNREF : RefType := nullable EXN.

(** ** Features *)

(** The error is the message, without an offset. *)
Definition check_ref_type_features (f : WasmFeatures) (r : RefType) : option string + unit :=
  if negb (reference_types f) then inl (Some "reference types support is not enabled"%string)
  else match rt_heap_type r with
  | None => inl None
  | Some (Concrete _) =>
      if function_references f || gc f then inr tt
      else inl (Some "function references required for index reference types"%string)
  | Some (Abstract shared ty) =>
      if shared && negb (shared_everything_threads f) then
        inl (Some "shared reference types require the shared-everything-threads proposal"%string)
      else if negb (gc_types f) && bool_decide (ty <> HFunc) && bool_decide (ty <> HExn) then
        inl (Some "gc types are disallowed but found type which requires gc"%string)
      else
        match ty, is_nullable r with
        | HFunc, true | HExtern, true => inr tt
        | HFunc, false | HExtern, false =>
            if function_references f then inr tt
            else inl (Some "function references required for non-nullable types"%string)
        | HAny, _ | HNone, _ | HEq, _ | HStruct, _ | HArray, _ | HI31, _ | HNoExtern, _ | HNoFunc, _ =>
            if gc f then inr tt
            else inl (Some "heap types not supported without the gc feature"%string)
        | HExn, _ | HNoExn, _ =>
            if exceptions f then inr tt
            else inl (Some "exception refs not supported without the exception handling feature"%string)
        | HCont, _ | HNoCont, _ =>
            if stack_switching f then inr tt
            else inl (Some "continuation refs not supported without the stack switching feature"%string)
        end
  end.

Definition check_value_type_features (f : WasmFeatures) (ty : ValType) : option string + unit :=
  match ty with
  | I32 | I64 => inr tt
  | F32 | F64 =>
      if floats f then inr tt else inl (Some "floating-point support is disabled"%string)
  | Ref r => check_ref_type_features f r
  | V128 => if simd f then inr tt else inl (Some "SIMD support is not enabled"%string)
  end.

(** [map_err(|e| BinaryReaderError::new(e, offset))?]. *)
Definition at_offset {A} (off : Z) (x : option string + A) : result A :=
  match x with
  | inr a => Ok a
  | inl (Some m) => Err (err_new (lit m) off)
  | inl None => Panic
  end.

(** ** The module *)

(** The methods that look a type up by its identifier, or that ask which kind
    of index a type has, can panic; their outer [option] is [None] then. *)
Class WasmModuleResources := {
  table_at : Z -> option TableType;
  memory_at : Z -> option MemoryType;
  tag_at : Z -> option (option FuncType);
  global_at : Z -> option GlobalType;
  sub_type_at : Z -> option (option SubType);
  sub_type_at_id : CoreTypeId -> option SubType;
  type_id_of_function : Z -> option CoreTypeId;
  type_index_of_function : Z -> option Z;
  element_type_at : Z -> option RefType;
  is_subtype : ValType -> ValType -> option bool;
  is_shared : RefType -> option bool;
  (** The heap type that is written to is the result. *)
  check_heap_type : HeapType -> Z -> result HeapType;
  top_type : HeapType -> option HeapType;
  element_count : Z;
  res_data_count : option Z;
  is_function_referenced : Z -> bool;
}.

Section resources.
Context {R : WasmModuleResources}.

(** The default methods. *)
Definition check_ref_type (ref_type : RefType) (off : Z) : result RefType :=
  match rt_heap_type ref_type with
  | None => Panic
  | Some heap_ty =>
      match check_heap_type heap_ty off with
      | Ok heap_ty =>
          match rt_new (is_nullable ref_type) heap_ty with
          | Some r => Ok r
          | None => Panic
          end
      | Err e => Err e
      | Panic => Panic
      end
  end.

Definition check_value_type (t : ValType) (f : WasmFeatures) (off : Z) : result ValType :=
  match at_offset off (check_value_type_features f t) with
  | Ok _ =>
      match t with
      | Ref r =>
          match check_ref_type r off with
          | Ok r => Ok (Ref r)
          | Err e => Err e
          | Panic => Panic
          end
      | I32 | I64 | F32 | F64 | V128 => Ok t
      end
  | Err e => Err e
  | Panic => Panic
  end.
End resources.

(** [TableType::index_type] and [MemoryType::index_type]. *)
Definition table_index_type (t : TableType) : ValType := if table64 t then I64 else I32.
Definition memory_index_type (m : MemoryType) : ValType := if mem_memory64 m then I64 else I32.

(** * The state of the operator validator: locals, their initialization, control
    frames and operands, from [crates/wasmparser/src/validator/operators.rs].

    A [Vec] that is used as a stack is a list whose head is its last element. *)

(** ** Initialization of locals *)

(** [local_inits] is indexed, [inits] is a stack. *)
Record LocalInits := mkLocalInits {
  inits_of : list bool;
  inits : list Z;
  first_non_default_local : Z;
}.

Definition LocalInits_default : LocalInits := mkLocalInits [] [] (2 ^ 32 - 1).

(** [Vec::resize] to a larger length. *)
Definition extend_with {A} (n : nat) (x : A) (l : list A) : list A := l ++ replicate n x.

(** The length of a [Vec] is far from overflowing. *)
Definition define_params (count : Z) (li : LocalInits) : LocalInits :=
  mkLocalInits (extend_with (Z.to_nat count) true (inits_of li)) (inits li) (first_non_default_local li).

Definition li_define_locals (count : Z) (ty : ValType) (li : LocalInits) : LocalInits :=
  let len := Z.of_nat (length (inits_of li)) in
  let is_defaultable := is_defaultable ty in
  let first :=
    if negb is_defaultable && (first_non_default_local li =? 2 ^ 32 - 1) then wrap 32 len
    else first_non_default_local li in
  mkLocalInits (extend_with (Z.to_nat count) is_defaultable (inits_of li)) (inits li) first.

(** [None] is an index out of bounds. *)
Definition is_uninit (local_index : Z) (li : LocalInits) : option bool :=
  if local_index <? first_non_default_local li then Some false
  else negb <$> inits_of li !! Z.to_nat local_index.

Definition set_init (local_index : Z) (li : LocalInits) : option LocalInits :=
  match is_uninit local_index li with
  | Some true =>
      Some (mkLocalInits (<[Z.to_nat local_index := true]> (inits_of li)) (local_index :: inits li)
              (first_non_default_local li))
  | Some false => Some li
  | None => None
  end.

Definition li_push_ctrl (li : LocalInits) : Z := Z.of_nat (length (inits li)).

(** The locals of the popped frame, last to first. *)
Definition uninit_all (is_ : list Z) (l : list bool) : option (list bool) :=
  foldr (fun i acc =>
    l ← acc;
    if decide (Z.to_nat i < length l)%nat then Some (<[Z.to_nat i := false]> l) else None) (Some l) is_.

(** [split_off] panics beyond the end. *)
Definition li_pop_ctrl (height : Z) (li : LocalInits) : option LocalInits :=
  let n := Z.of_nat (length (inits li)) - height in
  if n <? 0 then None
  else
    l ← uninit_all (take (Z.to_nat n) (inits li)) (inits_of li);
    Some (mkLocalInits l (drop (Z.to_nat n) (inits li)) (first_non_default_local li)).

(** ** Locals *)

Definition MAX_LOCALS_TO_TRACK : nat := 50.
Definition MAX_WASM_FUNCTION_LOCALS : Z := 50000.

Record Locals := mkLocals {
  num_locals : Z;
  first : list ValType;
  all_locals : list (Z * ValType);
}.

(** The loop that fills [first]. *)
Definition push_first (count : Z) (ty : ValType) (first : list ValType) : list ValType :=
  extend_with (Nat.min (Z.to_nat count) (MAX_LOCALS_TO_TRACK - length first)) ty first.

Definition define (count : Z) (ty : ValType) (l : Locals) : bool * Locals :=
  let n := num_locals l + count in
  if 2 ^ 32 - 1 <? n then (false, l)
  else
    let l := mkLocals n (first l) (all_locals l) in
    if MAX_WASM_FUNCTION_LOCALS <? n then (false, l)
    else (true, mkLocals n (push_first count ty (first l)) (all_locals l ++ [(n - 1, ty)])).

(** The outer [option] is [None] when the access panics. *)
Definition get_bsearch (l : Locals) (idx : Z) : option (option ValType) :=
  match binary_search_by_key idx (all_locals l) with
  | inr i =>
      if (i =? length (all_locals l))%nat then Some None
      else x ← all_locals l !! i; Some (Some (snd x))
  | inl i => x ← all_locals l !! i; Some (Some (snd x))
  end.

Definition locals_get (l : Locals) (idx : Z) : option (option ValType) :=
  match first l !! Z.to_nat idx with
  | Some ty => Some (Some ty)
  | None => get_bsearch l idx
  end.

(** ** Frames and operands *)

Inductive FrameKind :=
| FK_Block | FK_If | FK_Else | FK_Loop | FK_TryTable | FK_LegacyTry | FK_LegacyCatch | FK_LegacyCatchAll.

#[export] Instance FrameKind_eq_dec : EqDecision FrameKind.
Proof. solve_decision. Defined.

Record Frame := mkFrame {
  frame_kind : FrameKind;
  frame_block_type : BlockType;
  height : Z;
  unreachable_ : bool;
  init_height : Z;
}.

Inductive MaybeType (T : Type) :=
| Bottom
| UnknownRef (ty : option AbstractHeapType)
| Known (t : T).
Arguments Bottom {T}.
Arguments UnknownRef {T} ty.
Arguments Known {T} t.

(** [From<MaybeType<RefType>> for MaybeType<ValType>]. *)
Definition maybe_val (ty : MaybeType RefType) : MaybeType ValType :=
  match ty with
  | Bottom => Bottom
  | UnknownRef ty => UnknownRef ty
  | Known t => Known (Ref t)
  end.

Definition maybe_as_non_null (ty : MaybeType RefType) : MaybeType RefType :=
  match ty with
  | Bottom => Bottom
  | UnknownRef ty => UnknownRef ty
  | Known ty => Known (as_non_null ty)
  end.

(** The outer [option] is [None] when [is_shared] panics. *)
Definition is_maybe_shared {R : WasmModuleResources} (ty : MaybeType RefType) : option (option bool) :=
  match ty with
  | Bottom => Some None
  | UnknownRef _ => Some None
  | Known ty => Some <$> is_shared ty
  end.

(** [pop_push_count] is there in debug builds only; it is not bounded here. *)
Record OperatorValidator := mkOV {
  locals : Locals;
  local_inits : LocalInits;
  ov_features : WasmFeatures;
  popped_types_tmp : list (MaybeType ValType);
  control : list Frame;
  operands : list (MaybeType ValType);
  end_which_emptied_control : option Z;
  ov_shared : bool;
  pop_push_count : Z * Z;
}.

Definition set_locals (x : Locals) (v : OperatorValidator) : OperatorValidator :=
  mkOV x (local_inits v) (ov_features v) (popped_types_tmp v) (control v) (operands v)
    (end_which_emptied_control v) (ov_shared v) (pop_push_count v).
Definition set_local_inits (x : LocalInits) (v : OperatorValidator) : OperatorValidator :=
  mkOV (locals v) x (ov_features v) (popped_types_tmp v) (control v) (operands v)
    (end_which_emptied_control v) (ov_shared v) (pop_push_count v).
Definition set_popped (x : list (MaybeType ValType)) (v : OperatorValidator) : OperatorValidator :=
  mkOV (locals v) (local_inits v) (ov_features v) x (control v) (operands v)
    (end_which_emptied_control v) (ov_shared v) (pop_push_count v).
Definition set_control (x : list Frame) (v : OperatorValidator) : OperatorValidator :=
  mkOV (locals v) (local_inits v) (ov_features v) (popped_types_tmp v) x (operands v)
    (end_which_emptied_control v) (ov_shared v) (pop_push_count v).
Definition set_operands (x : list (MaybeType ValType)) (v : OperatorValidator) : OperatorValidator :=
  mkOV (locals v) (local_inits v) (ov_features v) (popped_types_tmp v) (control v) x
    (end_which_emptied_control v) (ov_shared v) (pop_push_count v).
Definition set_end_which (x : option Z) (v : OperatorValidator) : OperatorValidator :=
  mkOV (locals v) (local_inits v) (ov_features v) (popped_types_tmp v) (control v) (operands v)
    x (ov_shared v) (pop_push_count v).
Definition set_shared (x : bool) (v : OperatorValidator) : OperatorValidator :=
  mkOV (locals v) (local_inits v) (ov_features v) (popped_types_tmp v) (control v) (operands v)
    (end_which_emptied_control v) x (pop_push_count v).
Definition set_count (x : Z * Z) (v : OperatorValidator) : OperatorValidator :=
  mkOV (locals v) (local_inits v) (ov_features v) (popped_types_tmp v) (control v) (operands v)
    (end_which_emptied_control v) (ov_shared v) x.

(** [OperatorValidator::new], with empty allocations. *)
Definition OperatorValidator_new (f : WasmFeatures) : OperatorValidator :=
  mkOV (mkLocals 0 [] []) LocalInits_default f [] [] [] None false (0, 0).

(** ** Computations of the validator *)

Abbreviation V := (ST OperatorValidator).
