(* ===== verification/OperatorValidator.v ===== *)
(** The operator validator: the methods of [OperatorValidator] and
    [OperatorValidatorTemp] in [crates/wasmparser/src/validator/operators.rs].

    [off] is the offset of the operator, the class [WasmModuleResources] the
    module.  Debug assertions are not part of the model, except that the
    counters [pop_push_count] are kept.  A type in a message is represented by a
    number, a structured type is left out. *)

From Stdlib Require Import ZArith Lia String.
From stdpp Require Import prelude.
From S2P Require Import Prelude StateLogic BinaryReader Types Operands CompositeTypes Items ValidatorState.

Local Open Scope Z_scope.

Definition ty_to_str (ty : ValType) : Z :=
  match ty with
  | I32 => 0x7f
  | I64 => 0x7e
  | F32 => 0x7d
  | F64 => 0x7c
  | V128 => 0x7b
  | Ref r => as_u32 r
  end.

Definition err_beyond_end {A} (off : Z) : V A :=
  bail off (lit "operators remaining after end of function").

Definition record_pop : V () :=
  modify (fun v => set_count (fst (pop_push_count v) + 1, snd (pop_push_count v)) v).
Definition record_push : V () :=
  modify (fun v => set_count (fst (pop_push_count v), snd (pop_push_count v) + 1) v).

Definition operand_stack_height (v : OperatorValidator) : Z := Z.of_nat (length (operands v)).
Definition control_stack_height (v : OperatorValidator) : Z := Z.of_nat (length (control v)).

Definition peek_operand_at (v : OperatorValidator) (depth : Z) : option (option ValType) :=
  match operands v !! Z.to_nat depth with
  | None => None
  | Some (Known t) => Some (Some t)
  | Some Bottom | Some (UnknownRef _) => Some None
  end.

Definition get_frame (v : OperatorValidator) (depth : Z) : option Frame := control v !! Z.to_nat depth.

Section validator.
Context {R : WasmModuleResources} (off : Z).

(** ** Operands *)

Definition push_operand (ty : MaybeType ValType) : V () :=
  modify (fun v => set_operands (ty :: operands v) v);;
  record_push.

(** What the debug build asserts of the type that is pushed; the assertion is not
    part of [push_operand]. *)
Definition push_assertion (ty : MaybeType ValType) : bool :=
  match ty with
  | Known (Ref r) =>
      match rt_heap_type r with
      | Some (Concrete (Id_ _)) => true
      | Some (Concrete _) => false
      | Some (Abstract _ _) => true
      | None => false
      end
  | _ => true
  end.

Definition push_type (ty : ValType) : V () := push_operand (Known ty).

(** What the popped type must be. *)
Definition check_popped (actual : MaybeType ValType) (expected : ValType) : V () :=
  match actual, expected with
  | Bottom, _ => mret tt
  | UnknownRef actual_ty, Ref expected =>
      match actual_ty with
      | Some actual =>
          shared ← unwrap (is_shared expected);
          actual ← unwrap (rt_new false (Abstract shared actual));
          matches ← unwrap (is_subtype (Ref actual) (Ref expected));
          when (negb matches)
            (bail off (mkMsg "type mismatch: expected {}, found {}"
                         [ty_to_str (Ref expected); ty_to_str (Ref actual)]))
      | None => mret tt
      end
  | Known actual, expected =>
      matches ← unwrap (is_subtype actual expected);
      when (negb matches)
        (bail off (mkMsg "type mismatch: expected {}, found {}" [ty_to_str expected; ty_to_str actual]))
  | UnknownRef _, (I32 | I64 | F32 | F64 | V128) =>
      bail off (mkMsg "type mismatch: expected {}, found heap type" [ty_to_str expected])
  end.

Definition _pop_operand (expected : option ValType) (popped : option (MaybeType ValType))
  : V (MaybeType ValType) :=
  modify (fun v => match popped with Some ty => set_operands (ty :: operands v) v | None => v end);;
  v ← gets id;
  match control v with
  | [] => err_beyond_end off
  | c :: _ =>
      actual ←
        (if (Z.of_nat (length (operands v)) =? height c) && unreachable_ c then mret Bottom
         else if Z.of_nat (length (operands v)) =? height c then
           bail off (mkMsg "type mismatch: expected {desc} but nothing on stack"
                       (match expected with Some ty => [ty_to_str ty] | None => [] end))
         else match operands v with
              | [] => panic
              | ty :: operands' => modify (set_operands operands');; mret ty
              end);
      match expected with
      | Some expected => check_popped actual expected
      | None => mret tt
      end;;
      record_pop;;
      mret actual
  end.

(** The fast path, then the slow one. *)
Definition pop_operand (expected : option ValType) : V (MaybeType ValType) :=
  v ← gets id;
  match operands v with
  | ty :: operands' =>
      modify (set_operands operands');;
      match ty, control v with
      | Known actual_ty, c :: _ =>
          if bool_decide (Some actual_ty = expected)
             && (height c <=? Z.of_nat (length operands')) then
            record_pop;;
            mret (Known actual_ty)
          else _pop_operand expected (Some ty)
      | _, _ => _pop_operand expected (Some ty)
      end
  | [] => _pop_operand expected None
  end.

(** [self.pop_operand(Some(ty))?]. *)
Definition pop_type (ty : ValType) : V () := pop_operand (Some ty);; mret tt.

(** [for ty in tys.rev() { self.pop_operand(Some(ty))?; }] *)
Definition pop_types (tys : list ValType) : V () := for_ pop_type (rev tys).

Definition push_types (tys : list ValType) : V () := for_ push_type tys.

Definition type_too_large : Msg := lit "implementation limit: type index too large".

Definition push_concrete_ref (nullable : bool) (type_index : Z) : V () :=
  heap_ty ← liftr (check_heap_type (Concrete (Module_ type_index)) off);
  ref_ty ← ok_or off type_too_large (rt_new nullable heap_ty);
  push_type (Ref ref_ty).

Definition pop_concrete_ref (nullable : bool) (type_index : Z) : V (MaybeType ValType) :=
  heap_ty ← liftr (check_heap_type (Concrete (Module_ type_index)) off);
  ref_ty ← ok_or off type_too_large (rt_new nullable heap_ty);
  pop_operand (Some (Ref ref_ty)).

Definition pop_push_label_types (label_types : list ValType) : V () :=
  pop_types label_types;;
  push_types label_types.

Definition match_operand (actual expected : ValType) : V () :=
  tmp ← gets pop_push_count;
  push_type actual;;
  pop_type expected;;
  modify (set_count tmp).

Definition match_stack_operands (expected_tys : list ValType) : V () :=
  tmp ← gets pop_push_count;
  for_ (fun expected_ty =>
    actual_ty ← pop_operand (Some expected_ty);
    modify (fun v => set_popped (actual_ty :: popped_types_tmp v) v)) (rev expected_tys);;
  modify (fun v => set_popped [] (set_operands (rev (popped_types_tmp v) ++ operands v) v));;
  modify (set_count tmp).

Definition pop_ref (expected : option RefType) : V (MaybeType RefType) :=
  ty ← pop_operand (Ref <$> expected);
  match ty with
  | Bottom => mret (UnknownRef None)
  | UnknownRef ty => mret (UnknownRef ty)
  | Known (Ref rt) => mret (Known rt)
  | Known ty => bail off (mkMsg "type mismatch: expected ref but found {}" [ty_to_str ty])
  end.

Definition pop_maybe_shared_ref (expected : AbstractHeapType) : V (MaybeType RefType) :=
  actual ← pop_ref None;
  match actual with
  | Bottom => mret Bottom
  | UnknownRef None => mret (UnknownRef None)
  | UnknownRef (Some actual) =>
      when (negb (ht_is_subtype_of actual expected))
        (bail off (lit "type mismatch: expected subtype of {}, found {}"));;
      mret (UnknownRef (Some actual))
  | Known actual =>
      shared ← unwrap (is_shared actual);
      expected ← unwrap (rt_new true (Abstract shared expected));
      matches ← unwrap (is_subtype (Ref actual) (Ref expected));
      when (negb matches)
        (bail off (mkMsg "type mismatch: expected subtype of {expected}, found {actual}"
                     [ty_to_str (Ref expected); ty_to_str (Ref actual)]));;
      mret (Known actual)
  end.

Definition local (idx : Z) : V ValType :=
  v ← gets id;
  ty ← unwrap (locals_get (locals v) idx);
  ok_or off (mkMsg "unknown local {}: local index out of bounds" [idx]) ty.

(** ** The module *)

Definition element_type_at' (elem_index : Z) : V RefType :=
  ok_or off (mkMsg "unknown elem segment {}: segment index out of bounds" [elem_index])
    (element_type_at elem_index).

Definition sub_type_at' (at_ : Z) : V SubType :=
  ty ← unwrap (sub_type_at at_);
  ok_or off (lit "unknown type: type index out of bounds") ty.

(** [self.inner.shared && !shared]. *)
Definition check_access (shared : bool) (m : Msg) : V () :=
  v ← gets id;
  when (ov_shared v && negb shared) (bail off m).

Definition struct_type_at (at_ : Z) : V StructType :=
  sub_ty ← sub_type_at' at_;
  match inner (composite_type_of sub_ty) with
  | CStruct struct_ty =>
      check_access (ct_shared (composite_type_of sub_ty))
        (lit "shared functions cannot access unshared structs");;
      mret struct_ty
  | _ => bail off (mkMsg "expected struct type at index {at}, found {sub_ty}" [at_])
  end.

Definition struct_field_at (struct_type_index field_index : Z) : V FieldType :=
  ty ← struct_type_at struct_type_index;
  ok_or off (lit "unknown field: field index out of bounds") (fields ty !! Z.to_nat field_index).

Definition mutable_struct_field_at (struct_type_index field_index : Z) : V FieldType :=
  field ← struct_field_at struct_type_index field_index;
  when (negb (mutable field)) (bail off (lit "invalid struct modification: struct field is immutable"));;
  mret field.

Definition array_type_at (at_ : Z) : V FieldType :=
  sub_ty ← sub_type_at' at_;
  match inner (composite_type_of sub_ty) with
  | CArray array_ty =>
      check_access (ct_shared (composite_type_of sub_ty))
        (lit "shared functions cannot access unshared arrays");;
      mret (array_element array_ty)
  | _ => bail off (mkMsg "expected array type at index {at}, found {sub_ty}" [at_])
  end.

Definition mutable_array_type_at (at_ : Z) : V FieldType :=
  field ← array_type_at at_;
  when (negb (mutable field)) (bail off (lit "invalid array modification: array is immutable"));;
  mret field.

Definition func_type_at (at_ : Z) : V FuncType :=
  sub_ty ← sub_type_at' at_;
  match inner (composite_type_of sub_ty) with
  | CFunc func_ty =>
      check_access (ct_shared (composite_type_of sub_ty))
        (lit "shared functions cannot access unshared functions");;
      mret func_ty
  | _ => bail off (mkMsg "expected func type at index {at}, found {sub_ty}" [at_])
  end.

Definition cont_type_at (at_ : Z) : V ContType :=
  sub_ty ← sub_type_at' at_;
  match inner (composite_type_of sub_ty) with
  | CCont cont_ty =>
      check_access (ct_shared (composite_type_of sub_ty))
        (lit "shared continuations cannot access unshared continuations");;
      mret cont_ty
  | _ => bail off (mkMsg "non-continuation type {at}" [at_])
  end.

(** [None] when an [expect] or [unwrap_func] panics. *)
Definition func_type_of_cont_type (cont_ty : ContType) : option FuncType :=
  func_id ← packed_as_core_type_id (cont_index cont_ty);
  sub_ty ← sub_type_at_id func_id;
  match inner (composite_type_of sub_ty) with
  | CFunc f => Some f
  | _ => None
  end.

Definition tag_at' (at_ : Z) : V FuncType :=
  ty ← unwrap (tag_at at_);
  ok_or off (mkMsg "unknown tag {}: tag index out of bounds" [at_]) ty.

Definition exception_tag_at (at_ : Z) : V FuncType :=
  func_ty ← tag_at' at_;
  when (negb (length (func_results func_ty) =? 0)%nat)
    (bail off (lit "invalid exception type: non-empty tag result type"));;
  mret func_ty.

Definition global_type_at (at_ : Z) : V GlobalType :=
  match global_at at_ with
  | Some ty =>
      check_access (global_shared ty) (lit "shared functions cannot access unshared globals");;
      mret ty
  | None => bail off (lit "unknown global: global index out of bounds")
  end.

Definition table_type_at (table : Z) : V TableType :=
  match table_at table with
  | Some ty =>
      check_access (table_shared ty) (lit "shared functions cannot access unshared tables");;
      mret ty
  | None => bail off (mkMsg "unknown table {table}: table index out of bounds" [table])
  end.

Definition params (ty : BlockType) : V (list ValType) :=
  match ty with
  | BT_Empty | BT_Type _ => mret []
  | BT_FuncType t => f ← func_type_at t; mret (func_params f)
  end.

Definition results (ty : BlockType) : V (list ValType) :=
  match ty with
  | BT_Empty => mret []
  | BT_Type t => mret [t]
  | BT_FuncType t => f ← func_type_at t; mret (func_results f)
  end.

Definition label_types (ty : BlockType) (kind : FrameKind) : V (list ValType) :=
  match kind with
  | FK_Loop => params ty
  | _ => results ty
  end.

Definition check_data_segment (data_index : Z) : V () :=
  match res_data_count with
  | None => bail off (lit "data count section required")
  | Some count =>
      if data_index <? count then mret tt
      else bail off (mkMsg "unknown data segment {data_index}" [data_index])
  end.

Definition type_of_function (function_index : Z) : V FuncType :=
  match type_index_of_function function_index with
  | Some type_index => func_type_at type_index
  | None => bail off (mkMsg "unknown function {function_index}: function index out of bounds" [function_index])
  end.

Definition check_memory_index (memory_index : Z) : V ValType :=
  match memory_at memory_index with
  | Some mem => mret (memory_index_type mem)
  | None => bail off (mkMsg "unknown memory {}" [memory_index])
  end.

Definition check_memarg (memarg : MemArg) : V ValType :=
  index_ty ← check_memory_index (memory memarg);
  when (max_align memarg <? align memarg)
    (bail off (lit "malformed memop alignment: alignment must not be larger than natural"));;
  when (bool_decide (index_ty = I32) && (2 ^ 32 - 1 <? memarg_offset memarg))
    (bail off (lit "offset out of range: must be <= 2**32"));;
  mret index_ty.

Definition check_floats_enabled : V () :=
  v ← gets id;
  when (negb (floats (ov_features v))) (bail off (lit "floating-point instruction disallowed")).

Definition check_shared_memarg (memarg : MemArg) : V ValType :=
  when (negb (align memarg =? max_align memarg))
    (bail off (lit "atomic instructions must always specify maximum alignment"));;
  check_memory_index (memory memarg).

(** The block type that is written to is the result. *)
Definition check_block_type (ty : BlockType) : V BlockType :=
  match ty with
  | BT_Empty => mret BT_Empty
  | BT_Type t =>
      v ← gets id;
      t ← liftr (check_value_type t (ov_features v) off);
      mret (BT_Type t)
  | BT_FuncType idx =>
      v ← gets id;
      when (negb (multi_value (ov_features v)))
        (bail off (lit "blocks, loops, and ifs may only produce a resulttype when multi-value is not enabled"));;
      func_type_at idx;;
      mret (BT_FuncType idx)
  end.

(** ** Control *)

Definition unreachable : V () :=
  v ← gets id;
  match control v with
  | [] => err_beyond_end off
  | c :: control' =>
      let c' := mkFrame (frame_kind c) (frame_block_type c) (height c) true (init_height c) in
      modify (fun v => set_operands (drop (length (operands v) - Z.to_nat (height c)) (operands v))
                         (set_control (c' :: control') v))
  end.

(** A new frame, as high as the operands are. *)
Definition push_frame (kind : FrameKind) (ty : BlockType) : V () :=
  modify (fun v =>
    set_control (mkFrame kind ty (Z.of_nat (length (operands v))) false (li_push_ctrl (local_inits v))
                   :: control v) v).

Definition push_ctrl (kind : FrameKind) (ty : BlockType) : V () :=
  push_frame kind ty;;
  tys ← params ty;
  push_types tys.

Definition pop_ctrl : V Frame :=
  v ← gets id;
  match control v with
  | [] => err_beyond_end off
  | frame :: _ =>
      li ← unwrap (li_pop_ctrl (init_height frame) (local_inits v));
      modify (set_local_inits li);;
      tys ← results (frame_block_type frame);
      pop_types tys;;
      v ← gets id;
      when (negb (Z.of_nat (length (operands v)) =? height frame))
        (bail off (lit "type mismatch: values remaining on stack at end of block"));;
      modify (fun v => set_control (tail (control v)) v);;
      mret frame
  end.

Definition jump (depth : Z) : V (BlockType * FrameKind) :=
  v ← gets id;
  match control v with
  | [] => err_beyond_end off
  | _ =>
      match control v !! Z.to_nat depth with
      | Some frame => mret (frame_block_type frame, frame_kind frame)
      | None => bail off (lit "unknown label: branch depth too large")
      end
  end.

(** The frame of the function. *)
Definition function_frame : V Frame :=
  v ← gets id;
  match last (control v) with
  | Some frame => mret frame
  | None => err_beyond_end off
  end.

Definition check_return : V () :=
  frame ← function_frame;
  tys ← results (frame_block_type frame);
  pop_types tys;;
  unreachable.

(** [iter.all(|(a, b)| is_subtype(a, b))], which stops at the first [false]. *)
Fixpoint all_subtypes (tys : list (ValType * ValType)) : option bool :=
  match tys with
  | [] => Some true
  | (a, b) :: tys' =>
      match is_subtype a b with
      | Some true => all_subtypes tys'
      | r => r
      end
  end.

Definition is_subtype_many (ts1 ts2 : list ValType) : option bool := all_subtypes (combine ts1 ts2).

(** [!a || b], where [a] can panic and [b] is not evaluated when [a] is false. *)
Definition not_or (a b : option bool) : option bool :=
  match a with
  | Some false => Some true
  | Some true => b
  | None => None
  end.

Definition check_func_type_same_results (callee_ty : FuncType) : V () :=
  frame ← function_frame;
  caller_rets ← results (frame_block_type frame);
  mismatch ← unwrap
    (not_or (Some (length (func_results callee_ty) =? length caller_rets)%nat)
       (not_or (all_subtypes (combine (func_results callee_ty) caller_rets)) (Some false)));
  when mismatch
    (caller_rets ← results (frame_block_type frame);
     bail off (lit "type mismatch: current function requires result type [{caller_rets}] but callee returns [{callee_rets}]")).

Definition check_call_ty (ty : FuncType) : V () :=
  pop_types (func_params ty);;
  push_types (func_results ty).

Definition check_return_call_ty (ty : FuncType) : V () :=
  check_func_type_same_results ty;;
  pop_types (func_params ty);;
  tmp ← gets pop_push_count;
  push_types (func_results ty);;
  check_return;;
  modify (set_count tmp).

Definition check_call_ref_ty (type_index : Z) : V FuncType :=
  hty ← liftr (check_heap_type (Concrete (Module_ type_index)) off);
  expected ← unwrap (rt_new true hty);
  pop_ref (Some expected);;
  func_type_at type_index.

Definition check_call_indirect_ty (type_index table_index : Z) : V FuncType :=
  tab ← table_type_at table_index;
  matches ← unwrap (is_subtype (Ref (table_element_type tab)) (Ref FUNCREF));
  when (negb matches)
    (bail off (lit "type mismatch: indirect calls must go through a table with type <= funcref"));;
  pop_type (table_index_type tab);;
  func_type_at type_index.

(** ** Common operators *)

Definition check_cmp_op (ty : ValType) : V () := pop_type ty;; pop_type ty;; push_type I32.
Definition check_fcmp_op (ty : ValType) : V () := check_floats_enabled;; check_cmp_op ty.
Definition check_unary_op (ty : ValType) : V () := pop_type ty;; push_type ty.
Definition check_funary_op (ty : ValType) : V () := check_floats_enabled;; check_unary_op ty.
Definition check_conversion_op (into from : ValType) : V () := pop_type from;; push_type into.
Definition check_fconversion_op (into from : ValType) : V () :=
  check_floats_enabled;; check_conversion_op into from.
Definition check_binary_op (ty : ValType) : V () := pop_type ty;; pop_type ty;; push_type ty.
Definition check_fbinary_op (ty : ValType) : V () := check_floats_enabled;; check_binary_op ty.

Definition check_atomic_load (memarg : MemArg) (load_ty : ValType) : V () :=
  ty ← check_shared_memarg memarg;
  pop_type ty;;
  push_type load_ty.

Definition check_atomic_store (memarg : MemArg) (store_ty : ValType) : V () :=
  ty ← check_shared_memarg memarg;
  pop_type store_ty;;
  pop_type ty.

Definition check_atomic_binary_memory_op (memarg : MemArg) (op_ty : ValType) : V () :=
  ty ← check_shared_memarg memarg;
  pop_type op_ty;;
  pop_type ty;;
  push_type op_ty.

Definition check_atomic_binary_memory_cmpxchg (memarg : MemArg) (op_ty : ValType) : V () :=
  ty ← check_shared_memarg memarg;
  pop_type op_ty;;
  pop_type op_ty;;
  pop_type ty;;
  push_type op_ty.

Definition check_downcast (nullable : bool) (heap_type : HeapType) : V RefType :=
  heap_type ← liftr (check_heap_type heap_type off);
  sub_ty ← ok_or off type_too_large (rt_new nullable heap_type);
  top ← unwrap (top_type heap_type);
  sup_ty ← unwrap (rt_new true top);
  pop_ref (Some sup_ty);;
  mret sub_ty.

Definition check_ref_test (nullable : bool) (heap_type : HeapType) : V () :=
  check_downcast nullable heap_type;;
  push_type I32.

Definition check_ref_cast (nullable : bool) (heap_type : HeapType) : V () :=
  sub_ty ← check_downcast nullable heap_type;
  push_type (Ref sub_ty).

Definition check_atomic_global_rmw_ty (global_index : Z) : V ValType :=
  ty ← global_type_at global_index;
  when (negb (bool_decide (content_type ty = I32) || bool_decide (content_type ty = I64)))
    (bail off (lit "invalid type: `global.atomic.rmw.*` only allows `i32` and `i64`"));;
  mret (content_type ty).

Definition check_struct_atomic_rmw (struct_type_index field_index : Z) : V () :=
  field ← mutable_struct_field_at struct_type_index field_index;
  field_ty ←
    match element_type field with
    | SVal I32 => mret I32
    | SVal I64 => mret I64
    | _ => bail off (lit "invalid type: `struct.atomic.rmw.{}` only allows `i32` and `i64`")
    end;
  pop_type field_ty;;
  pop_concrete_ref true struct_type_index;;
  push_type field_ty.

Definition check_array_atomic_rmw (type_index : Z) : V () :=
  field ← mutable_array_type_at type_index;
  elem_ty ←
    match element_type field with
    | SVal I32 => mret I32
    | SVal I64 => mret I64
    | _ => bail off (lit "invalid type: `array.atomic.rmw.{}` only allows `i32` and `i64`")
    end;
  pop_type elem_ty;;
  pop_type I32;;
  pop_concrete_ref true type_index;;
  push_type elem_ty.

Definition check_binop128 : V () :=
  pop_type I64;; pop_type I64;; pop_type I64;; pop_type I64;; push_type I64;; push_type I64.

Definition check_i64_mul_wide : V () :=
  pop_type I64;; pop_type I64;; push_type I64;; push_type I64.

(** ** Continuations *)

(** The continuation that a reference type refers to. *)
Definition cont_of_ref (rt : RefType) : V ContType :=
  p ← unwrap (rt_type_index rt);
  id ← unwrap (packed_as_core_type_id p);
  sub_ty ← unwrap (sub_type_at_id id);
  match inner (composite_type_of sub_ty) with
  | CCont cont => mret cont
  | _ => bail off (lit "non-continuation type")
  end.

Definition check_handle (old_func_ty : FuncType) (handle : Handle) : V () :=
  match handle with
  | Handle_OnLabel tag label =>
      tag_ty ← tag_at' tag;
      block ← jump label;
      tys ← label_types (fst block) (snd block);
      match last tys with
      | Some (Ref rt) =>
          if is_concrete_type_ref rt then
            new_cont ← cont_of_ref rt;
            new_func_ty ← unwrap (func_type_of_cont_type new_cont);
            mismatch ← unwrap
              (not_or (Some (length (func_params new_func_ty) =? length (func_results tag_ty))%nat)
                 (not_or (is_subtype_many (func_params new_func_ty) (func_results tag_ty))
                    (not_or (Some (length (func_results old_func_ty) =? length (func_results new_func_ty))%nat)
                       (not_or (is_subtype_many (func_results old_func_ty) (func_results new_func_ty))
                          (Some false)))));
            when mismatch
              (bail off (lit "type mismatch in continuation type"));;
            let expected_nargs := S (length (func_params tag_ty)) in
            when (negb (length tys =? expected_nargs)%nat)
              (bail off (mkMsg "type mismatch: expected {expected_nargs} label result(s), but label is annotated with {actual_nargs} results"
                           [Z.of_nat expected_nargs; Z.of_nat (length tys)]));;
            for_ (fun '(tagty, lblty) =>
              matches ← unwrap (is_subtype lblty tagty);
              when (negb matches)
                (bail off (lit "type mismatch between tag type and label type")))
              (combine (take (expected_nargs - 1) tys) (func_params tag_ty))
          else bail off (mkMsg "type mismatch: {}" [ty_to_str (Ref rt)])
      | Some ty => bail off (mkMsg "type mismatch: {}" [ty_to_str ty])
      | None => bail off (lit "type mismatch: instruction requires continuation reference type but label has none")
      end
  | Handle_OnSwitch tag =>
      tag_ty ← tag_at' tag;
      when (negb (length (func_params tag_ty) =? 0)%nat)
        (bail off (lit "type mismatch: non-empty tag parameter type"))
  end.

Definition check_resume_table (table : ResumeTable) (type_index : Z) : V FuncType :=
  cont_ty ← cont_type_at type_index;
  old_func_ty ← unwrap (func_type_of_cont_type cont_ty);
  for_ (check_handle old_func_ty) (handlers table);;
  mret old_func_ty.
End validator.

(** ** Construction *)

Section construction.
Context {R : WasmModuleResources}.

(** The locals of the parameters. *)
Definition define_param_locals (l : Locals) (tys : list ValType) : Locals :=
  foldl (fun l ty => snd (define 1 ty l)) l tys.

Definition new_func (ty off : Z) (f : WasmFeatures) : result OperatorValidator :=
  let ret := set_control [mkFrame FK_Block (BT_FuncType ty) 0 false 0] (OperatorValidator_new f) in
  match sub_type_at ty with
  | None => Panic
  | Some None => Err (err_new (lit "unknown type: type index out of bounds") off)
  | Some (Some sub_ty) =>
      match inner (composite_type_of sub_ty) with
      | CFunc func_ty =>
          let ret := set_locals (define_param_locals (locals ret) (func_params func_ty)) ret in
          let ret := set_local_inits
            (define_params (Z.of_nat (length (func_params func_ty))) (local_inits ret)) ret in
          Ok (if ct_shared (composite_type_of sub_ty) then set_shared true ret else ret)
      | _ => Err (err_new (mkMsg "expected func type at index {ty}, found {sub_ty}" [ty]) off)
      end
  end.

Definition new_const_expr (f : WasmFeatures) (ty : ValType) : OperatorValidator :=
  set_control [mkFrame FK_Block (BT_Type ty) 0 false 0] (OperatorValidator_new f).

Definition define_locals (off count : Z) (ty : ValType) : V () :=
  v ← gets id;
  ty ← liftr (check_value_type ty (ov_features v) off);
  if count =? 0 then mret tt
  else
    v ← gets id;
    let (ok, l) := define count ty (locals v) in
    modify (set_locals l);;
    if ok then modify (fun v => set_local_inits (li_define_locals count ty (local_inits v)) v)
    else bail off (lit "too many locals: locals exceed maximum").

Definition finish (off : Z) : V () :=
  v ← gets id;
  match control v with
  | _ :: _ => bail off (lit "control frames remain at end of function: END opcode expected")
  | [] =>
      e ← unwrap (end_which_emptied_control v);
      when (negb (off =? e + 1)) (err_beyond_end off)
  end.
End construction.
