(* ===== verification/VisitOperators.v ===== *)
(** [VisitOperator] for [OperatorValidatorTemp], in
    [crates/wasmparser/src/validator/operators.rs]: the methods that are more
    than a check of operand types.  The others are branches of [ValidateOperator]. *)

From Stdlib Require Import ZArith Lia String.
From stdpp Require Import prelude.
From S2P Require Import Prelude StateLogic BinaryReader Types Operands Operators CompositeTypes Items.
From S2P Require Import ValidatorState OperatorValidator.

Local Open Scope Z_scope.

Section visit.
Context {R : WasmModuleResources} (off : Z).

(** ** Blocks *)

Definition visit_block_kind (kind : FrameKind) (ty : BlockType) : V () :=
  ty ← check_block_type off ty;
  tys ← params off ty;
  pop_types off tys;;
  push_ctrl off kind ty.

Definition visit_block (ty : BlockType) : V () := visit_block_kind FK_Block ty.
Definition visit_loop (ty : BlockType) : V () := visit_block_kind FK_Loop ty.
Definition visit_try (ty : BlockType) : V () := visit_block_kind FK_LegacyTry ty.

Definition visit_if (ty : BlockType) : V () :=
  ty ← check_block_type off ty;
  pop_type off I32;;
  tys ← params off ty;
  pop_types off tys;;
  push_ctrl off FK_If ty.

Definition visit_else : V () :=
  frame ← pop_ctrl off;
  when (negb (bool_decide (frame_kind frame = FK_If)))
    (bail off (lit "else found outside of an `if` block"));;
  push_ctrl off FK_Else (frame_block_type frame).

Definition visit_end : V () :=
  frame ← pop_ctrl off;
  frame ←
    (if bool_decide (frame_kind frame = FK_If) then
       push_ctrl off FK_Else (frame_block_type frame);;
       pop_ctrl off
     else mret frame);
  tys ← results off (frame_block_type frame);
  push_types tys;;
  v ← gets id;
  match control v, end_which_emptied_control v with
  | [], None => if off =? 0 then panic else modify (set_end_which (Some off))
  | _, _ => mret tt
  end.

(** ** Exceptions *)

Definition check_catch (catch : Catch) : V () :=
  match catch with
  | Catch_One tag label =>
      tag ← exception_tag_at off tag;
      '(ty, kind) ← jump off label;
      let params := func_params tag in
      types ← label_types off ty kind;
      when (negb (length params =? length types)%nat)
        (bail off (lit "type mismatch: catch label must have same number of types as tag"));;
      for_ (fun '(expected, actual) => match_operand off actual expected) (combine types params)
  | Catch_OneRef tag label =>
      tag ← exception_tag_at off tag;
      '(ty, kind) ← jump off label;
      let tag_params := func_params tag in
      label_types ← label_types off ty kind;
      when (negb (length tag_params + 1 =? length label_types)%nat)
        (bail off (lit "type mismatch: catch_ref label must have one more type than tag types"));;
      for_ (fun '(expected_label_type, actual_tag_param) =>
              match_operand off actual_tag_param expected_label_type)
        (combine label_types (tag_params ++ [Ref EXN]))
  | Catch_All label =>
      '(ty, kind) ← jump off label;
      tys ← label_types off ty kind;
      when (negb (length tys =? 0)%nat)
        (bail off (lit "type mismatch: catch_all label must have no result types"))
  | Catch_AllRef label =>
      '(ty, kind) ← jump off label;
      types ← label_types off ty kind;
      match types with
      | [ty] =>
          matches ← unwrap (is_subtype (Ref EXN) ty);
          when (negb matches)
            (bail off (lit "type mismatch: catch_all_ref label must a subtype of (ref exn)"))
      | _ => bail off (lit "type mismatch: catch_all_ref label must have exactly one result type")
      end
  end.

Definition visit_try_table (ty : TryTable) : V () :=
  bt ← check_block_type off (try_ty ty);
  tys ← params off bt;
  pop_types off tys;;
  for_ check_catch (catches ty);;
  push_ctrl off FK_TryTable bt.

Definition visit_throw (index : Z) : V () :=
  ty ← exception_tag_at off index;
  pop_types off (func_params ty);;
  unreachable off.

Definition visit_throw_ref : V () := pop_type off (Ref EXNREF);; unreachable off.

Definition visit_catch (index : Z) : V () :=
  frame ← pop_ctrl off;
  when (negb (bool_decide (frame_kind frame = FK_LegacyTry))
        && negb (bool_decide (frame_kind frame = FK_LegacyCatch)))
    (bail off (lit "catch found outside of an `try` block"));;
  push_frame FK_LegacyCatch (frame_block_type frame);;
  ty ← exception_tag_at off index;
  push_types (func_params ty).

Definition visit_rethrow (relative_depth : Z) : V () :=
  '(_, kind) ← jump off relative_depth;
  when (negb (bool_decide (kind = FK_LegacyCatch)) && negb (bool_decide (kind = FK_LegacyCatchAll)))
    (bail off (lit "invalid rethrow label: target was not a `catch` block"));;
  unreachable off.

Definition visit_delegate (relative_depth : Z) : V () :=
  frame ← pop_ctrl off;
  when (negb (bool_decide (frame_kind frame = FK_LegacyTry)))
    (bail off (lit "delegate found outside of an `try` block"));;
  jump off relative_depth;;
  tys ← results off (frame_block_type frame);
  push_types tys.

Definition visit_catch_all : V () :=
  frame ← pop_ctrl off;
  if bool_decide (frame_kind frame = FK_LegacyCatchAll) then
    bail off (lit "only one catch_all allowed per `try` block")
  else
    when (negb (bool_decide (frame_kind frame = FK_LegacyTry))
          && negb (bool_decide (frame_kind frame = FK_LegacyCatch)))
      (bail off (lit "catch_all found outside of a `try` block"));;
    push_frame FK_LegacyCatchAll (frame_block_type frame).

(** ** Branches *)

Definition visit_br (relative_depth : Z) : V () :=
  '(ty, kind) ← jump off relative_depth;
  tys ← label_types off ty kind;
  pop_types off tys;;
  unreachable off.

Definition visit_br_if (relative_depth : Z) : V () :=
  pop_type off I32;;
  '(ty, kind) ← jump off relative_depth;
  label_types ← label_types off ty kind;
  pop_push_label_types off label_types.

Definition check_target (default_types : list ValType) (relative_depth : Z) : V () :=
  block ← jump off relative_depth;
  label_tys ← label_types off (fst block) (snd block);
  when (negb (length label_tys =? length default_types)%nat)
    (bail off (lit "type mismatch: br_table target labels have different number of types"));;
  match_stack_operands off label_tys.

(** The loop over the targets. *)
Fixpoint check_targets (fuel : nat) (default_types : list ValType) (it : BrTableTargets) : V () :=
  match fuel with
  | O => panic
  | S fuel' =>
      match targets_next it with
      | (None, _) => mret tt
      | (Some element, it') =>
          relative_depth ← liftr element;
          check_target default_types relative_depth;;
          check_targets fuel' default_types it'
      end
  end.

Definition visit_br_table (table : BrTable) : V () :=
  pop_type off I32;;
  default ← jump off (default table);
  default_types ← label_types off (fst default) (snd default);
  check_targets (S (Z.to_nat (cnt table))) default_types (targets table);;
  pop_types off default_types;;
  unreachable off.

(** ** Parametric operators, locals and globals *)

Definition visit_select : V () :=
  pop_type off I32;;
  ty1 ← pop_operand off None;
  ty2 ← pop_operand off None;
  ty ←
    match ty1, ty2 with
    | UnknownRef _, _ | _, UnknownRef _ | Known (Ref _), _ | _, Known (Ref _) =>
        bail off (lit "type mismatch: select only takes integral types")
    | Bottom, t | t, Bottom => mret t
    | Known t1, Known t2 =>
        when (negb (bool_decide (t1 = t2)))
          (bail off (lit "type mismatch: select operands have different types"));;
        mret (Known t1)
    end;
  push_operand ty.

Definition visit_typed_select (ty : ValType) : V () :=
  v ← gets id;
  ty ← liftr (check_value_type ty (ov_features v) off);
  pop_type off I32;;
  pop_type off ty;;
  pop_type off ty;;
  push_type ty.

Definition visit_local_get (local_index : Z) : V () :=
  ty ← local off local_index;
  v ← gets id;
  uninit ← unwrap (is_uninit local_index (local_inits v));
  when uninit (bail off (mkMsg "uninitialized local: {}" [local_index]));;
  push_type ty.

(** [self.local_inits.set_init(local_index)]. *)
Definition set_local_init (local_index : Z) : V () :=
  v ← gets id;
  li ← unwrap (set_init local_index (local_inits v));
  modify (set_local_inits li).

Definition visit_local_set (local_index : Z) : V () :=
  ty ← local off local_index;
  pop_type off ty;;
  set_local_init local_index.

Definition visit_local_tee (local_index : Z) : V () :=
  expected_ty ← local off local_index;
  pop_type off expected_ty;;
  set_local_init local_index;;
  push_type expected_ty.

Definition visit_global_get (global_index : Z) : V () :=
  ty ← global_type_at off global_index;
  push_type (content_type ty).

Definition visit_global_set (global_index : Z) : V () :=
  ty ← global_type_at off global_index;
  when (negb (global_mutable ty))
    (bail off (lit "global is immutable: cannot modify it with `global.set`"));;
  pop_type off (content_type ty).

(** [i32], [i64] or a subtype of [supertype]. *)
Definition check_atomic_type (ty supertype : ValType) (m : Msg) : V () :=
  valid ←
    (if bool_decide (ty = I32) || bool_decide (ty = I64) then mret true else unwrap (is_subtype ty supertype));
  when (negb valid) (bail off m).

Definition visit_global_atomic_get (global_index : Z) : V () :=
  visit_global_get global_index;;
  ty ← global_type_at off global_index;
  check_atomic_type (content_type ty) (Ref ANYREF)
    (lit "invalid type: `global.atomic.get` only allows `i32`, `i64` and subtypes of `anyref`").

Definition visit_global_atomic_set (global_index : Z) : V () :=
  visit_global_set global_index;;
  ty ← global_type_at off global_index;
  check_atomic_type (content_type ty) (Ref ANYREF)
    (lit "invalid type: `global.atomic.set` only allows `i32`, `i64` and subtypes of `anyref`").

Definition visit_global_atomic_rmw_xchg (global_index : Z) : V () :=
  ty ← global_type_at off global_index;
  check_atomic_type (content_type ty) (Ref ANYREF)
    (lit "invalid type: `global.atomic.rmw.xchg` only allows `i32`, `i64` and subtypes of `anyref`");;
  check_unary_op off (content_type ty).

Definition visit_global_atomic_rmw_cmpxchg (global_index : Z) : V () :=
  ty ← global_type_at off global_index;
  check_atomic_type (content_type ty) (Ref EQREF)
    (lit "invalid type: `global.atomic.rmw.cmpxchg` only allows `i32`, `i64` and subtypes of `eqref`");;
  check_binary_op off (content_type ty).

(** ** References *)

Definition visit_ref_null (heap_type : HeapType) : V () :=
  v ← gets id;
  match rt_new true heap_type with
  | Some ty => liftr (at_offset off (check_ref_type_features (ov_features v) ty))
  | None => mret tt
  end;;
  heap_type ← liftr (check_heap_type heap_type off);
  ty ← unwrap (rt_new true heap_type);
  push_type (Ref ty).

Definition visit_ref_as_non_null : V () :=
  ty ← pop_ref off None;
  push_operand (maybe_val (maybe_as_non_null ty)).

Definition visit_br_on_null (relative_depth : Z) : V () :=
  ref_ty ← pop_ref off None;
  '(ft, kind) ← jump off relative_depth;
  label_types ← label_types off ft kind;
  pop_push_label_types off label_types;;
  push_operand (maybe_val (maybe_as_non_null ref_ty)).

Definition visit_br_on_non_null (relative_depth : Z) : V () :=
  '(ft, kind) ← jump off relative_depth;
  label_types ← label_types off ft kind;
  expected ←
    match last label_types with
    | None => bail off (lit "type mismatch: br_on_non_null target has no label types")
    | Some (Ref ty) => mret ty
    | Some _ => bail off (lit "type mismatch: br_on_non_null target does not end with heap type")
    end;
  pop_ref off (Some (nullable expected));;
  pop_push_label_types off (removelast label_types).

Definition visit_ref_is_null : V () := pop_ref off None;; push_type I32.

Definition visit_ref_func (function_index : Z) : V () :=
  type_id ← ok_or off (mkMsg "unknown function {}: function index out of bounds" [function_index])
              (type_id_of_function function_index);
  when (negb (is_function_referenced function_index))
    (bail off (lit "undeclared function reference"));;
  ty ← ok_or off type_too_large (rt_new false (Concrete (Id_ type_id)));
  push_type (Ref ty).

Definition visit_ref_eq : V () :=
  a ← pop_maybe_shared_ref off HEq;
  b ← pop_maybe_shared_ref off HEq;
  a_is_shared ← unwrap (is_maybe_shared a);
  b_is_shared ← unwrap (is_maybe_shared b);
  match a_is_shared, b_is_shared with
  | Some is_a_shared, Some is_b_shared =>
      when (negb (bool_decide (is_a_shared = is_b_shared)))
        (bail off (lit "type mismatch: expected `ref.eq` types to match `shared`-ness"))
  | _, _ => mret tt
  end;;
  push_type I32.

Definition convert_ref (from to : AbstractHeapType) : V () :=
  ty ← pop_maybe_shared_ref off from;
  ref ←
    match ty with
    | Bottom | UnknownRef _ => mret (UnknownRef (Some to))
    | Known ty =>
        shared ← unwrap (is_shared ty);
        r ← unwrap (rt_new (is_nullable ty) (Abstract shared to));
        mret (Known r)
    end;
  push_operand (maybe_val ref).

Definition visit_any_convert_extern : V () := convert_ref HExtern HAny.
Definition visit_extern_convert_any : V () := convert_ref HAny HExtern.

(** The checks that [br_on_cast] and [br_on_cast_fail] share. *)
Definition check_cast_types (from_ref_type to_ref_type : RefType) : V (RefType * RefType) :=
  from_ref_type ← liftr (check_ref_type from_ref_type off);
  to_ref_type ← liftr (check_ref_type to_ref_type off);
  matches ← unwrap (is_subtype (Ref to_ref_type) (Ref from_ref_type));
  when (negb matches)
    (bail off (mkMsg "type mismatch: expected {from_ref_type}, found {to_ref_type}"
                 [ty_to_str (Ref from_ref_type); ty_to_str (Ref to_ref_type)]));;
  mret (from_ref_type, to_ref_type).

Definition visit_br_on_cast (relative_depth : Z) (from_ref_type to_ref_type : RefType) : V () :=
  '(from_ref_type, to_ref_type) ← check_cast_types from_ref_type to_ref_type;
  '(block_ty, frame_kind) ← jump off relative_depth;
  label_types ← label_types off block_ty frame_kind;
  match last label_types with
  | Some label_ty =>
      matches ← unwrap (is_subtype (Ref to_ref_type) label_ty);
      if (matches : bool) then pop_type off (Ref from_ref_type)
      else bail off (mkMsg "type mismatch: casting to type {to_ref_type}, but it does not match label result type {label_ty}"
                       [ty_to_str (Ref to_ref_type); ty_to_str label_ty])
  | None => bail off (lit "type mismatch: br_on_cast to label with empty types, must have a reference type")
  end;;
  pop_push_label_types off (removelast label_types);;
  diff_ty ← unwrap (rt_difference from_ref_type to_ref_type);
  push_type (Ref diff_ty).

Definition visit_br_on_cast_fail (relative_depth : Z) (from_ref_type to_ref_type : RefType) : V () :=
  '(from_ref_type, to_ref_type) ← check_cast_types from_ref_type to_ref_type;
  '(block_ty, frame_kind) ← jump off relative_depth;
  label_tys ← label_types off block_ty frame_kind;
  diff_ty ← unwrap (rt_difference from_ref_type to_ref_type);
  match last label_tys with
  | Some label_ty =>
      matches ← unwrap (is_subtype (Ref diff_ty) label_ty);
      if (matches : bool) then pop_type off (Ref from_ref_type)
      else bail off (mkMsg "type mismatch: expected label result type {label_ty}, found {diff_ty}"
                       [ty_to_str label_ty; ty_to_str (Ref diff_ty)])
  | None => bail off (lit "type mismatch: expected a reference type, found nothing")
  end;;
  pop_push_label_types off (removelast label_tys);;
  push_type (Ref to_ref_type).

Definition visit_ref_i31_shared : V () :=
  pop_type off I32;;
  ty ← unwrap (rt_shared I31);
  push_type (Ref ty).

Definition visit_i31_get : V () := pop_maybe_shared_ref off HI31;; push_type I32.

(** ** Memories and tables *)

(** The smaller of two index types. *)
Definition min_index_type (src dst : ValType) : ValType :=
  match src with I32 => I32 | _ => dst end.

Definition visit_memory_copy (dst src : Z) : V () :=
  dst_ty ← check_memory_index off dst;
  src_ty ← check_memory_index off src;
  pop_type off (min_index_type src_ty dst_ty);;
  pop_type off src_ty;;
  pop_type off dst_ty.

Definition visit_table_init (segment table : Z) : V () :=
  table ← table_type_at off table;
  segment_ty ← element_type_at' off segment;
  matches ← unwrap (is_subtype (Ref segment_ty) (Ref (table_element_type table)));
  when (negb matches)
    (bail off (lit "type mismatch"));;
  pop_type off I32;;
  pop_type off I32;;
  pop_type off (table_index_type table).

Definition visit_table_copy (dst_table src_table : Z) : V () :=
  src ← table_type_at off src_table;
  dst ← table_type_at off dst_table;
  matches ← unwrap (is_subtype (Ref (table_element_type src)) (Ref (table_element_type dst)));
  when (negb matches)
    (bail off (lit "type mismatch"));;
  pop_type off (min_index_type (table_index_type src) (table_index_type dst));;
  pop_type off (table_index_type src);;
  pop_type off (table_index_type dst).

Definition visit_table_get (table : Z) : V () :=
  table ← table_type_at off table;
  pop_type off (table_index_type table);;
  push_type (Ref (table_element_type table)).

Definition visit_table_set (table : Z) : V () :=
  table ← table_type_at off table;
  pop_type off (Ref (table_element_type table));;
  pop_type off (table_index_type table).

Definition visit_table_grow (table : Z) : V () :=
  table ← table_type_at off table;
  pop_type off (table_index_type table);;
  pop_type off (Ref (table_element_type table));;
  push_type (table_index_type table).

Definition visit_table_size (table : Z) : V () :=
  table ← table_type_at off table;
  push_type (table_index_type table).

Definition visit_table_fill (table : Z) : V () :=
  table ← table_type_at off table;
  pop_type off (table_index_type table);;
  pop_type off (Ref (table_element_type table));;
  pop_type off (table_index_type table).

(** The element type is a subtype of the shared version of [supertype]. *)
Definition check_shared_subtype (ty : RefType) (supertype : RefType) (m : Msg) : V () :=
  supertype ← unwrap (rt_shared supertype);
  matches ← unwrap (is_subtype (Ref ty) (Ref supertype));
  when (negb matches) (bail off m).

Definition visit_table_atomic_get (table : Z) : V () :=
  visit_table_get table;;
  ty ← table_type_at off table;
  check_shared_subtype (table_element_type ty) ANYREF
    (lit "invalid type: `table.atomic.get` only allows subtypes of `anyref`").

Definition visit_table_atomic_set (table : Z) : V () :=
  visit_table_set table;;
  ty ← table_type_at off table;
  check_shared_subtype (table_element_type ty) ANYREF
    (lit "invalid type: `table.atomic.set` only allows subtypes of `anyref`").

Definition visit_table_atomic_rmw_xchg (table : Z) : V () :=
  table ← table_type_at off table;
  check_shared_subtype (table_element_type table) ANYREF
    (lit "invalid type: `table.atomic.rmw.xchg` only allows subtypes of `anyref`");;
  pop_type off (Ref (table_element_type table));;
  pop_type off (table_index_type table);;
  push_type (Ref (table_element_type table)).

Definition visit_table_atomic_rmw_cmpxchg (table : Z) : V () :=
  table ← table_type_at off table;
  check_shared_subtype (table_element_type table) EQREF
    (lit "invalid type: `table.atomic.rmw.cmpxchg` only allows subtypes of `eqref`");;
  pop_type off (Ref (table_element_type table));;
  pop_type off (Ref (table_element_type table));;
  pop_type off (table_index_type table);;
  push_type (Ref (table_element_type table)).

(** ** Structs *)

Definition visit_struct_new (struct_type_index : Z) : V () :=
  struct_ty ← struct_type_at off struct_type_index;
  pop_types off (map (fun f => storage_unpack (element_type f)) (fields struct_ty));;
  push_concrete_ref off false struct_type_index.

Definition visit_struct_new_default (type_index : Z) : V () :=
  ty ← struct_type_at off type_index;
  for_ (fun field =>
    when (negb (is_defaultable (storage_unpack (element_type field))))
      (bail off (mkMsg "invalid `struct.new_default`: {val_ty} field is not defaultable"
                   [ty_to_str (storage_unpack (element_type field))]))) (fields ty);;
  push_concrete_ref off false type_index.

(** [struct.get], [struct.get_s] and [struct.get_u]. *)
Definition visit_struct_get_field (packed : bool) (m : Msg) (struct_type_index field_index : Z) : V () :=
  field_ty ← struct_field_at off struct_type_index field_index;
  when (negb (bool_decide (is_packed (element_type field_ty) = packed))) (bail off m);;
  pop_concrete_ref off true struct_type_index;;
  push_type (storage_unpack (element_type field_ty)).

Definition visit_struct_get : Z -> Z -> V () :=
  visit_struct_get_field false (lit "can only use struct `get` with non-packed storage types").
Definition visit_struct_get_s : Z -> Z -> V () :=
  visit_struct_get_field true (lit "cannot use struct.get_s with non-packed storage types").
Definition visit_struct_get_u : Z -> Z -> V () :=
  visit_struct_get_field true (lit "cannot use struct.get_u with non-packed storage types").

Definition visit_struct_set (struct_type_index field_index : Z) : V () :=
  field_ty ← mutable_struct_field_at off struct_type_index field_index;
  pop_type off (storage_unpack (element_type field_ty));;
  pop_concrete_ref off true struct_type_index;;
  mret tt.

(** The storage types of atomic accesses: [packed] ones when they are allowed,
    [i32], [i64] and the subtypes of the shared version of [supertype]. *)
Definition check_atomic_storage (packed : bool) (ty : StorageType) (supertype : RefType) (m : Msg) : V () :=
  is_valid_type ←
    match ty with
    | SI8 | SI16 => mret packed
    | SVal I32 | SVal I64 => mret true
    | SVal v => supertype ← unwrap (rt_shared supertype); unwrap (is_subtype v (Ref supertype))
    end;
  when (negb is_valid_type) (bail off m).

Definition visit_struct_atomic_get (struct_type_index field_index : Z) : V () :=
  visit_struct_get struct_type_index field_index;;
  field ← struct_field_at off struct_type_index field_index;
  check_atomic_storage false (element_type field) ANYREF
    (lit "invalid type: `struct.atomic.get` only allows `i32`, `i64` and subtypes of `anyref`").

(** [struct.atomic.get_u] is checked as [struct.get_s] too. *)
Definition visit_struct_atomic_get_s (struct_type_index field_index : Z) : V () :=
  visit_struct_get_s struct_type_index field_index.
Definition visit_struct_atomic_get_u (struct_type_index field_index : Z) : V () :=
  visit_struct_get_s struct_type_index field_index.

Definition visit_struct_atomic_set (struct_type_index field_index : Z) : V () :=
  visit_struct_set struct_type_index field_index;;
  field ← struct_field_at off struct_type_index field_index;
  check_atomic_storage true (element_type field) ANYREF
    (lit "invalid type: `struct.atomic.set` only allows `i8`, `i16`, `i32`, `i64` and subtypes of `anyref`").

Definition visit_struct_atomic_rmw_xchg (struct_type_index field_index : Z) : V () :=
  field ← mutable_struct_field_at off struct_type_index field_index;
  check_atomic_storage false (element_type field) ANYREF
    (lit "invalid type: `struct.atomic.rmw.xchg` only allows `i32`, `i64` and subtypes of `anyref`");;
  let field_ty := storage_unpack (element_type field) in
  pop_type off field_ty;;
  pop_concrete_ref off true struct_type_index;;
  push_type field_ty.

Definition visit_struct_atomic_rmw_cmpxchg (struct_type_index field_index : Z) : V () :=
  field ← mutable_struct_field_at off struct_type_index field_index;
  check_atomic_storage false (element_type field) EQREF
    (lit "invalid type: `struct.atomic.rmw.cmpxchg` only allows `i32`, `i64` and subtypes of `eqref`");;
  let field_ty := storage_unpack (element_type field) in
  pop_type off field_ty;;
  pop_type off field_ty;;
  pop_concrete_ref off true struct_type_index;;
  push_type field_ty.

(** ** Arrays *)

Definition visit_array_new (type_index : Z) : V () :=
  array_ty ← array_type_at off type_index;
  pop_type off I32;;
  pop_type off (storage_unpack (element_type array_ty));;
  push_concrete_ref off false type_index.

Definition visit_array_new_default (type_index : Z) : V () :=
  ty ← array_type_at off type_index;
  let val_ty := storage_unpack (element_type ty) in
  when (negb (is_defaultable val_ty))
    (bail off (mkMsg "invalid `array.new_default`: {val_ty} field is not defaultable" [ty_to_str val_ty]));;
  pop_type off I32;;
  push_concrete_ref off false type_index.

Definition visit_array_new_fixed (type_index n : Z) : V () :=
  array_ty ← array_type_at off type_index;
  let elem_ty := storage_unpack (element_type array_ty) in
  for_ (fun _ => pop_type off elem_ty) (seq 0 (Z.to_nat n));;
  push_concrete_ref off false type_index.

(** Numeric and vector elements. *)
Definition check_not_ref (ty : ValType) (m : Msg) : V () :=
  match ty with
  | I32 | I64 | F32 | F64 | V128 => mret tt
  | Ref _ => bail off m
  end.

Definition visit_array_new_data (type_index data_index : Z) : V () :=
  array_ty ← array_type_at off type_index;
  check_not_ref (storage_unpack (element_type array_ty))
    (lit "type mismatch: array.new_data can only create arrays with numeric and vector elements");;
  check_data_segment off data_index;;
  pop_type off I32;;
  pop_type off I32;;
  push_concrete_ref off false type_index.

(** The element segment fits the array. *)
Definition check_array_elem (array_ty : FieldType) (elem_index : Z) (m1 m2 : Msg) : V () :=
  match storage_unpack (element_type array_ty) with
  | Ref array_ref_ty =>
      elem_ref_ty ← element_type_at' off elem_index;
      matches ← unwrap (is_subtype (Ref elem_ref_ty) (Ref array_ref_ty));
      when (negb matches) (bail off m2)
  | I32 | I64 | F32 | F64 | V128 => bail off m1
  end.

Definition visit_array_new_elem (type_index elem_index : Z) : V () :=
  array_ty ← array_type_at off type_index;
  check_array_elem array_ty elem_index
    (lit "type mismatch: array.new_elem can only create arrays with reference elements")
    (mkMsg "invalid array.new_elem instruction: element segment {elem_index} type mismatch: expected {array_ref_ty}, found {elem_ref_ty}"
       [elem_index]);;
  pop_type off I32;;
  pop_type off I32;;
  push_concrete_ref off false type_index.

(** [array.get], [array.get_s] and [array.get_u]. *)
Definition visit_array_get_element (packed : bool) (m : Msg) (type_index : Z) : V () :=
  array_ty ← array_type_at off type_index;
  let elem_ty := element_type array_ty in
  when (negb (bool_decide (is_packed elem_ty = packed))) (bail off m);;
  pop_type off I32;;
  pop_concrete_ref off true type_index;;
  push_type (storage_unpack elem_ty).

Definition visit_array_get : Z -> V () :=
  visit_array_get_element false (lit "cannot use array.get with packed storage types").
Definition visit_array_get_s : Z -> V () :=
  visit_array_get_element true (lit "cannot use array.get_s with non-packed storage types").
Definition visit_array_get_u : Z -> V () :=
  visit_array_get_element true (lit "cannot use array.get_u with non-packed storage types").

Definition visit_array_atomic_get (type_index : Z) : V () :=
  visit_array_get type_index;;
  array_ty ← array_type_at off type_index;
  check_atomic_storage false (element_type array_ty) ANYREF
    (lit "invalid type: `array.atomic.get` only allows `i32`, `i64` and subtypes of `anyref`").

Definition visit_array_set (type_index : Z) : V () :=
  array_ty ← mutable_array_type_at off type_index;
  pop_type off (storage_unpack (element_type array_ty));;
  pop_type off I32;;
  pop_concrete_ref off true type_index;;
  mret tt.

Definition visit_array_atomic_set (type_index : Z) : V () :=
  visit_array_set type_index;;
  array_ty ← array_type_at off type_index;
  check_atomic_storage true (element_type array_ty) ANYREF
    (lit "invalid type: `array.atomic.set` only allows `i8`, `i16`, `i32`, `i64` and subtypes of `anyref`").

Definition visit_array_len : V () := pop_maybe_shared_ref off HArray;; push_type I32.

Definition visit_array_fill (array_type_index : Z) : V () :=
  array_ty ← mutable_array_type_at off array_type_index;
  pop_type off I32;;
  pop_type off (storage_unpack (element_type array_ty));;
  pop_type off I32;;
  pop_concrete_ref off true array_type_index;;
  mret tt.

Definition visit_array_copy (type_index_dst type_index_src : Z) : V () :=
  array_ty_dst ← mutable_array_type_at off type_index_dst;
  array_ty_src ← array_type_at off type_index_src;
  match element_type array_ty_dst, element_type array_ty_src with
  | SI8, SI8 => mret tt
  | SI8, _ => bail off (lit "array types do not match: expected i8, found {ty}")
  | SI16, SI16 => mret tt
  | SI16, _ => bail off (lit "array types do not match: expected i16, found {ty}")
  | SVal dst, SVal src =>
      matches ← unwrap (is_subtype src dst);
      when (negb matches)
        (bail off (mkMsg "array types do not match: expected {dst}, found {src}" [ty_to_str dst; ty_to_str src]))
  | SVal dst, _ => bail off (mkMsg "array types do not match: expected {dst}, found {src}" [ty_to_str dst])
  end;;
  pop_type off I32;;
  pop_type off I32;;
  pop_concrete_ref off true type_index_src;;
  pop_type off I32;;
  pop_concrete_ref off true type_index_dst;;
  mret tt.

Definition visit_array_init_data (array_type_index array_data_index : Z) : V () :=
  array_ty ← mutable_array_type_at off array_type_index;
  check_not_ref (storage_unpack (element_type array_ty))
    (lit "invalid array.init_data: array type is not numeric or vector");;
  check_data_segment off array_data_index;;
  pop_type off I32;;
  pop_type off I32;;
  pop_type off I32;;
  pop_concrete_ref off true array_type_index;;
  mret tt.

Definition visit_array_init_elem (type_index elem_index : Z) : V () :=
  array_ty ← mutable_array_type_at off type_index;
  check_array_elem array_ty elem_index
    (lit "type mismatch: array.init_elem can only create arrays with reference elements")
    (mkMsg "invalid array.init_elem instruction: element segment {elem_index} type mismatch: expected {array_ref_ty}, found {elem_ref_ty}"
       [elem_index]);;
  pop_type off I32;;
  pop_type off I32;;
  pop_type off I32;;
  pop_concrete_ref off true type_index;;
  mret tt.

Definition visit_array_atomic_rmw_xchg (type_index : Z) : V () :=
  field ← mutable_array_type_at off type_index;
  check_atomic_storage false (element_type field) ANYREF
    (lit "invalid type: `array.atomic.rmw.xchg` only allows `i32`, `i64` and subtypes of `anyref`");;
  let elem_ty := storage_unpack (element_type field) in
  pop_type off elem_ty;;
  pop_type off I32;;
  pop_concrete_ref off true type_index;;
  push_type elem_ty.

Definition visit_array_atomic_rmw_cmpxchg (type_index : Z) : V () :=
  field ← mutable_array_type_at off type_index;
  check_atomic_storage false (element_type field) EQREF
    (lit "invalid type: `array.atomic.rmw.cmpxchg` only allows `i32`, `i64` and subtypes of `eqref`");;
  let elem_ty := storage_unpack (element_type field) in
  pop_type off elem_ty;;
  pop_type off elem_ty;;
  pop_type off I32;;
  pop_concrete_ref off true type_index;;
  push_type elem_ty.

(** ** Stack switching *)

Definition visit_cont_new (type_index : Z) : V () :=
  cont_ty ← cont_type_at off type_index;
  pop_ref off (Some (rt_concrete true (cont_index cont_ty)));;
  push_concrete_ref off false type_index.

Definition visit_cont_bind (argument_index result_index : Z) : V () :=
  arg_cont ← cont_type_at off argument_index;
  arg_func ← unwrap (func_type_of_cont_type arg_cont);
  res_cont ← cont_type_at off result_index;
  res_func ← unwrap (func_type_of_cont_type res_cont);
  when (length (func_params arg_func) <? length (func_params res_func))%nat
    (bail off (lit "type mismatch in continuation arguments"));;
  let argcnt := (length (func_params arg_func) - length (func_params res_func))%nat in
  mismatch ← unwrap
    (not_or (is_subtype_many (func_params res_func) (drop argcnt (func_params arg_func)))
       (not_or (Some (length (func_results arg_func) =? length (func_results res_func))%nat)
          (not_or (is_subtype_many (func_results arg_func) (func_results res_func)) (Some false))));
  when mismatch
    (bail off (lit "type mismatch in continuation types"));;
  pop_concrete_ref off true argument_index;;
  pop_types off (take argcnt (func_params arg_func));;
  push_concrete_ref off false result_index.

Definition visit_suspend (tag_index : Z) : V () :=
  ft ← tag_at' off tag_index;
  pop_types off (func_params ft);;
  push_types (func_results ft).

Definition visit_resume (type_index : Z) (table : ResumeTable) : V () :=
  ft ← check_resume_table off table type_index;
  pop_concrete_ref off true type_index;;
  pop_types off (func_params ft);;
  push_types (func_results ft).

Definition visit_resume_throw (type_index tag_index : Z) (table : ResumeTable) : V () :=
  ft ← check_resume_table off table type_index;
  tag_ty ← exception_tag_at off tag_index;
  when (negb (length (func_results tag_ty) =? 0)%nat)
    (bail off (lit "type mismatch: non-empty tag result type"));;
  pop_concrete_ref off true type_index;;
  pop_types off (func_params tag_ty);;
  push_types (func_results ft).

Definition visit_switch (type_index tag_index : Z) : V () :=
  cont_ty ← cont_type_at off type_index;
  func_ty ← unwrap (func_type_of_cont_type cont_ty);
  tag_ty ← tag_at' off tag_index;
  when (negb (length (func_params tag_ty) =? 0)%nat)
    (bail off (lit "type mismatch: non-empty tag parameter type"));;
  match last (func_params func_ty) with
  | Some (Ref rt) =>
      if is_concrete_type_ref rt then
        other_cont_ty ← cont_of_ref off rt;
        other_func_ty ← unwrap (func_type_of_cont_type other_cont_ty);
        mismatch ← unwrap
          (not_or (Some (length (func_results func_ty) =? length (func_results tag_ty))%nat)
             (not_or (is_subtype_many (func_results func_ty) (func_results tag_ty))
                (not_or (Some (length (func_results other_func_ty) =? length (func_results tag_ty))%nat)
                   (not_or (is_subtype_many (func_results tag_ty) (func_results other_func_ty))
                      (Some false)))));
        when mismatch
          (bail off (lit "type mismatch in continuation types"));;
        pop_concrete_ref off true type_index;;
        pop_types off (removelast (func_params func_ty));;
        push_types (func_params other_func_ty)
      else bail off (mkMsg "type mismatch: expected a continuation reference, found {}" [ty_to_str (Ref rt)])
  | Some ty => bail off (mkMsg "type mismatch: expected a continuation reference, found {}" [ty_to_str ty])
  | None => bail off (lit "type mismatch: instruction requires a continuation reference")
  end.
End visit.
