(* ===== verification/ValidateOperator.v ===== *)
(** The dispatch of [VisitOperator] in
    [crates/wasmparser/src/validator/operators.rs] and
    [crates/wasmparser/src/validator/operators/simd.rs]: a function per group of
    operators, and [WasmProposalValidator], which checks that the proposal of
    the operator is enabled before it is validated. *)

From Stdlib Require Import ZArith Lia String.
From stdpp Require Import prelude.
From S2P Require Import Prelude StateLogic BinaryReader Types Operands Operators CompositeTypes Items.
From S2P Require Import ValidatorState OperatorValidator VisitOperators.

Local Open Scope Z_scope.

Section dispatch.
Context {R : WasmModuleResources} (off : Z).

(** ** SIMD *)

Definition check_simd_lane_index (index max : Z) : V () :=
  when (max <=? index) (bail off (lit "SIMD index out of bounds")).

Definition check_v128_splat (src_ty : ValType) : V () := pop_type off src_ty;; push_type V128.
Definition check_v128_binary_op : V () := pop_type off V128;; pop_type off V128;; push_type V128.
Definition check_v128_fbinary_op : V () := check_floats_enabled off;; check_v128_binary_op.
Definition check_v128_unary_op : V () := pop_type off V128;; push_type V128.
Definition check_v128_funary_op : V () := check_floats_enabled off;; check_v128_unary_op.
Definition check_v128_ternary_op : V () :=
  pop_type off V128;; pop_type off V128;; pop_type off V128;; push_type V128.
Definition check_v128_bitmask_op : V () := pop_type off V128;; push_type I32.
Definition check_v128_shift_op : V () := pop_type off I32;; pop_type off V128;; push_type V128.

Definition check_v128_load_op (memarg : MemArg) : V () :=
  idx ← check_memarg off memarg;
  pop_type off idx;;
  push_type V128.

Definition visit_i8x16_shuffle (lanes : list Z) : V () :=
  pop_type off V128;;
  pop_type off V128;;
  for_ (fun i => check_simd_lane_index i 32) lanes;;
  push_type V128.

(** ** Groups *)

Definition visit_mvp (o : Op.mvp_op) : V () :=
  match o with
  | Op.Nop => mret tt
  | Op.Return => check_return off
  | Op.CallIndirect type_index table_index =>
      ty ← check_call_indirect_ty off type_index table_index; check_call_ty off ty
  | Op.I32Load memarg | Op.I32Load8S memarg | Op.I32Load16S memarg | Op.I32Load8U memarg
  | Op.I32Load16U memarg => ty ← check_memarg off memarg; pop_type off ty;; push_type I32
  | Op.I64Load memarg | Op.I64Load8S memarg | Op.I64Load16S memarg | Op.I64Load32S memarg
  | Op.I64Load8U memarg | Op.I64Load16U memarg | Op.I64Load32U memarg =>
      ty ← check_memarg off memarg; pop_type off ty;; push_type I64
  | Op.F32Load memarg =>
      check_floats_enabled off;; ty ← check_memarg off memarg; pop_type off ty;; push_type F32
  | Op.F64Load memarg =>
      check_floats_enabled off;; ty ← check_memarg off memarg; pop_type off ty;; push_type F64
  | Op.I32Store memarg | Op.I32Store8 memarg | Op.I32Store16 memarg =>
      ty ← check_memarg off memarg; pop_type off I32;; pop_type off ty
  | Op.I64Store memarg | Op.I64Store8 memarg | Op.I64Store16 memarg | Op.I64Store32 memarg =>
      ty ← check_memarg off memarg; pop_type off I64;; pop_type off ty
  | Op.F32Store memarg =>
      check_floats_enabled off;; ty ← check_memarg off memarg; pop_type off F32;; pop_type off ty
  | Op.F64Store memarg =>
      check_floats_enabled off;; ty ← check_memarg off memarg; pop_type off F64;; pop_type off ty
  | Op.MemorySize mem => index_ty ← check_memory_index off mem; push_type index_ty
  | Op.MemoryGrow mem =>
      index_ty ← check_memory_index off mem; pop_type off index_ty;; push_type index_ty
  | Op.I32Const value => push_type I32
  | Op.I64Const value => push_type I64
  | Op.F32Const value => check_floats_enabled off;; push_type F32
  | Op.F64Const value => check_floats_enabled off;; push_type F64
  | Op.I32Eqz => pop_type off I32;; push_type I32
  | Op.I32Eq | Op.I32Ne | Op.I32LtS | Op.I32LtU | Op.I32GtS | Op.I32GtU | Op.I32LeS | Op.I32LeU
  | Op.I32GeS | Op.I32GeU => check_cmp_op off I32
  | Op.I64Eqz => pop_type off I64;; push_type I32
  | Op.I64Eq | Op.I64Ne | Op.I64LtS | Op.I64LtU | Op.I64GtS | Op.I64GtU | Op.I64LeS | Op.I64LeU
  | Op.I64GeS | Op.I64GeU => check_cmp_op off I64
  | Op.F32Eq | Op.F32Ne | Op.F32Lt | Op.F32Gt | Op.F32Le | Op.F32Ge => check_fcmp_op off F32
  | Op.F64Eq | Op.F64Ne | Op.F64Lt | Op.F64Gt | Op.F64Le | Op.F64Ge => check_fcmp_op off F64
  | Op.I32Clz | Op.I32Ctz | Op.I32Popcnt => check_unary_op off I32
  | Op.I32Add | Op.I32Sub | Op.I32Mul | Op.I32DivS | Op.I32DivU | Op.I32RemS | Op.I32RemU
  | Op.I32And | Op.I32Or | Op.I32Xor | Op.I32Shl | Op.I32ShrS | Op.I32ShrU | Op.I32Rotl
  | Op.I32Rotr => check_binary_op off I32
  | Op.I64Clz | Op.I64Ctz | Op.I64Popcnt => check_unary_op off I64
  | Op.I64Add | Op.I64Sub | Op.I64Mul | Op.I64DivS | Op.I64DivU | Op.I64RemS | Op.I64RemU
  | Op.I64And | Op.I64Or | Op.I64Xor | Op.I64Shl | Op.I64ShrS | Op.I64ShrU | Op.I64Rotl
  | Op.I64Rotr => check_binary_op off I64
  | Op.F32Abs | Op.F32Neg | Op.F32Ceil | Op.F32Floor | Op.F32Trunc | Op.F32Nearest | Op.F32Sqrt =>
      check_funary_op off F32
  | Op.F32Add | Op.F32Sub | Op.F32Mul | Op.F32Div | Op.F32Min | Op.F32Max | Op.F32Copysign =>
      check_fbinary_op off F32
  | Op.F64Abs | Op.F64Neg | Op.F64Ceil | Op.F64Floor | Op.F64Trunc | Op.F64Nearest | Op.F64Sqrt =>
      check_funary_op off F64
  | Op.F64Add | Op.F64Sub | Op.F64Mul | Op.F64Div | Op.F64Min | Op.F64Max | Op.F64Copysign =>
      check_fbinary_op off F64
  | Op.I32WrapI64 => check_conversion_op off I32 I64
  | Op.I32TruncF32S | Op.I32TruncF32U | Op.I32ReinterpretF32 => check_conversion_op off I32 F32
  | Op.I32TruncF64S | Op.I32TruncF64U => check_conversion_op off I32 F64
  | Op.I64ExtendI32S | Op.I64ExtendI32U => check_conversion_op off I64 I32
  | Op.I64TruncF32S | Op.I64TruncF32U => check_conversion_op off I64 F32
  | Op.I64TruncF64S | Op.I64TruncF64U | Op.I64ReinterpretF64 => check_conversion_op off I64 F64
  | Op.F32ConvertI32S | Op.F32ConvertI32U | Op.F32ReinterpretI32 => check_fconversion_op off F32 I32
  | Op.F32ConvertI64S | Op.F32ConvertI64U => check_fconversion_op off F32 I64
  | Op.F32DemoteF64 => check_fconversion_op off F32 F64
  | Op.F64ConvertI32S | Op.F64ConvertI32U => check_fconversion_op off F64 I32
  | Op.F64ConvertI64S | Op.F64ConvertI64U | Op.F64ReinterpretI64 => check_fconversion_op off F64 I64
  | Op.F64PromoteF32 => check_fconversion_op off F64 F32
  | Op.Unreachable => unreachable off
  | Op.Block blockty => visit_block off blockty
  | Op.Loop blockty => visit_loop off blockty
  | Op.If blockty => visit_if off blockty
  | Op.Else => visit_else off
  | Op.End => visit_end off
  | Op.Br relative_depth => visit_br off relative_depth
  | Op.BrIf relative_depth => visit_br_if off relative_depth
  | Op.BrTable targets => visit_br_table off targets
  | Op.Call function_index => ty ← type_of_function off function_index; check_call_ty off ty
  | Op.Drop => pop_operand off None;; mret tt
  | Op.Select => visit_select off
  | Op.LocalGet local_index => visit_local_get off local_index
  | Op.LocalSet local_index => visit_local_set off local_index
  | Op.LocalTee local_index => visit_local_tee off local_index
  | Op.GlobalGet global_index => visit_global_get off global_index
  | Op.GlobalSet global_index => visit_global_set off global_index
  end.

Definition visit_sign_extension (o : Op.sign_extension_op) : V () :=
  match o with
  | Op.I32Extend8S | Op.I32Extend16S => check_unary_op off I32
  | Op.I64Extend8S | Op.I64Extend16S | Op.I64Extend32S => check_unary_op off I64
  end.

Definition visit_gc (o : Op.gc_op) : V () :=
  match o with
  | Op.RefTestNonNull hty => check_ref_test off false hty
  | Op.RefTestNullable hty => check_ref_test off true hty
  | Op.RefCastNonNull hty => check_ref_cast off false hty
  | Op.RefCastNullable hty => check_ref_cast off true hty
  | Op.RefEq => visit_ref_eq off
  | Op.StructNew struct_type_index => visit_struct_new off struct_type_index
  | Op.StructNewDefault struct_type_index => visit_struct_new_default off struct_type_index
  | Op.StructGet struct_type_index field_index => visit_struct_get off struct_type_index field_index
  | Op.StructGetS struct_type_index field_index => visit_struct_get_s off struct_type_index field_index
  | Op.StructGetU struct_type_index field_index => visit_struct_get_u off struct_type_index field_index
  | Op.StructSet struct_type_index field_index => visit_struct_set off struct_type_index field_index
  | Op.ArrayNew array_type_index => visit_array_new off array_type_index
  | Op.ArrayNewDefault array_type_index => visit_array_new_default off array_type_index
  | Op.ArrayNewFixed array_type_index array_size =>
      visit_array_new_fixed off array_type_index array_size
  | Op.ArrayNewData array_type_index array_data_index =>
      visit_array_new_data off array_type_index array_data_index
  | Op.ArrayNewElem array_type_index array_elem_index =>
      visit_array_new_elem off array_type_index array_elem_index
  | Op.ArrayGet array_type_index => visit_array_get off array_type_index
  | Op.ArrayGetS array_type_index => visit_array_get_s off array_type_index
  | Op.ArrayGetU array_type_index => visit_array_get_u off array_type_index
  | Op.ArraySet array_type_index => visit_array_set off array_type_index
  | Op.ArrayLen => visit_array_len off
  | Op.ArrayFill array_type_index => visit_array_fill off array_type_index
  | Op.ArrayCopy array_type_index_dst array_type_index_src =>
      visit_array_copy off array_type_index_dst array_type_index_src
  | Op.ArrayInitData array_type_index array_data_index =>
      visit_array_init_data off array_type_index array_data_index
  | Op.ArrayInitElem array_type_index array_elem_index =>
      visit_array_init_elem off array_type_index array_elem_index
  | Op.BrOnCast relative_depth from_ref_type to_ref_type =>
      visit_br_on_cast off relative_depth from_ref_type to_ref_type
  | Op.BrOnCastFail relative_depth from_ref_type to_ref_type =>
      visit_br_on_cast_fail off relative_depth from_ref_type to_ref_type
  | Op.ExternConvertAny => visit_extern_convert_any off
  | Op.RefI31 => pop_type off I32;; push_type (Ref I31)
  | Op.I31GetS | Op.I31GetU => visit_i31_get off
  | Op.AnyConvertExtern => visit_any_convert_extern off
  end.

Definition visit_saturating_float_to_int (o : Op.saturating_float_to_int_op) : V () :=
  match o with
  | Op.I32TruncSatF32S | Op.I32TruncSatF32U => check_conversion_op off I32 F32
  | Op.I32TruncSatF64S | Op.I32TruncSatF64U => check_conversion_op off I32 F64
  | Op.I64TruncSatF32S | Op.I64TruncSatF32U => check_conversion_op off I64 F32
  | Op.I64TruncSatF64S | Op.I64TruncSatF64U => check_conversion_op off I64 F64
  end.

Definition visit_bulk_memory (o : Op.bulk_memory_op) : V () :=
  match o with
  | Op.MemoryInit data_index mem =>
      ty ← check_memory_index off mem; check_data_segment off data_index;; pop_type off I32;; pop_type off I32;; pop_type off ty
  | Op.DataDrop data_index => check_data_segment off data_index
  | Op.MemoryFill mem =>
      ty ← check_memory_index off mem; pop_type off ty;; pop_type off I32;; pop_type off ty
  | Op.MemoryCopy dst_mem src_mem => visit_memory_copy off dst_mem src_mem
  | Op.TableInit elem_index table => visit_table_init off elem_index table
  | Op.ElemDrop elem_index => element_type_at' off elem_index;; mret tt
  | Op.TableCopy dst_table src_table => visit_table_copy off dst_table src_table
  end.

Definition visit_reference_types (o : Op.reference_types_op) : V () :=
  match o with
  | Op.TypedSelect ty => visit_typed_select off ty
  | Op.RefNull hty => visit_ref_null off hty
  | Op.RefIsNull => visit_ref_is_null off
  | Op.RefFunc function_index => visit_ref_func off function_index
  | Op.TableFill table => visit_table_fill off table
  | Op.TableGet table => visit_table_get off table
  | Op.TableSet table => visit_table_set off table
  | Op.TableGrow table => visit_table_grow off table
  | Op.TableSize table => visit_table_size off table
  end.

Definition visit_tail_call (o : Op.tail_call_op) : V () :=
  match o with
  | Op.ReturnCallIndirect type_index table_index =>
      ty ← check_call_indirect_ty off type_index table_index; check_return_call_ty off ty
  | Op.ReturnCall function_index =>
      ty ← type_of_function off function_index; check_return_call_ty off ty
  end.

Definition visit_memory_control (o : Op.memory_control_op) : V () :=
  match o with
  | Op.MemoryDiscard mem => ty ← check_memory_index off mem; pop_type off ty;; pop_type off ty
  end.

Definition visit_threads (o : Op.threads_op) : V () :=
  match o with
  | Op.MemoryAtomicNotify memarg | Op.I32AtomicRmwAdd memarg | Op.I32AtomicRmw8AddU memarg
  | Op.I32AtomicRmw16AddU memarg | Op.I32AtomicRmwSub memarg | Op.I32AtomicRmw8SubU memarg
  | Op.I32AtomicRmw16SubU memarg | Op.I32AtomicRmwAnd memarg | Op.I32AtomicRmw8AndU memarg
  | Op.I32AtomicRmw16AndU memarg | Op.I32AtomicRmwOr memarg | Op.I32AtomicRmw8OrU memarg
  | Op.I32AtomicRmw16OrU memarg | Op.I32AtomicRmwXor memarg | Op.I32AtomicRmw8XorU memarg
  | Op.I32AtomicRmw16XorU memarg | Op.I32AtomicRmwXchg memarg | Op.I32AtomicRmw8XchgU memarg
  | Op.I32AtomicRmw16XchgU memarg => check_atomic_binary_memory_op off memarg I32
  | Op.MemoryAtomicWait32 memarg =>
      ty ← check_shared_memarg off memarg; pop_type off I64;; pop_type off I32;; pop_type off ty;; push_type I32
  | Op.MemoryAtomicWait64 memarg =>
      ty ← check_shared_memarg off memarg; pop_type off I64;; pop_type off I64;; pop_type off ty;; push_type I32
  | Op.AtomicFence => mret tt
  | Op.I32AtomicLoad memarg | Op.I32AtomicLoad8U memarg | Op.I32AtomicLoad16U memarg =>
      check_atomic_load off memarg I32
  | Op.I64AtomicLoad memarg | Op.I64AtomicLoad8U memarg | Op.I64AtomicLoad16U memarg
  | Op.I64AtomicLoad32U memarg => check_atomic_load off memarg I64
  | Op.I32AtomicStore memarg | Op.I32AtomicStore8 memarg | Op.I32AtomicStore16 memarg =>
      check_atomic_store off memarg I32
  | Op.I64AtomicStore memarg | Op.I64AtomicStore8 memarg | Op.I64AtomicStore16 memarg
  | Op.I64AtomicStore32 memarg => check_atomic_store off memarg I64
  | Op.I64AtomicRmwAdd memarg | Op.I64AtomicRmw8AddU memarg | Op.I64AtomicRmw16AddU memarg
  | Op.I64AtomicRmw32AddU memarg | Op.I64AtomicRmwSub memarg | Op.I64AtomicRmw8SubU memarg
  | Op.I64AtomicRmw16SubU memarg | Op.I64AtomicRmw32SubU memarg | Op.I64AtomicRmwAnd memarg
  | Op.I64AtomicRmw8AndU memarg | Op.I64AtomicRmw16AndU memarg | Op.I64AtomicRmw32AndU memarg
  | Op.I64AtomicRmwOr memarg | Op.I64AtomicRmw8OrU memarg | Op.I64AtomicRmw16OrU memarg
  | Op.I64AtomicRmw32OrU memarg | Op.I64AtomicRmwXor memarg | Op.I64AtomicRmw8XorU memarg
  | Op.I64AtomicRmw16XorU memarg | Op.I64AtomicRmw32XorU memarg | Op.I64AtomicRmwXchg memarg
  | Op.I64AtomicRmw8XchgU memarg | Op.I64AtomicRmw16XchgU memarg | Op.I64AtomicRmw32XchgU memarg =>
      check_atomic_binary_memory_op off memarg I64
  | Op.I32AtomicRmwCmpxchg memarg | Op.I32AtomicRmw8CmpxchgU memarg
  | Op.I32AtomicRmw16CmpxchgU memarg => check_atomic_binary_memory_cmpxchg off memarg I32
  | Op.I64AtomicRmwCmpxchg memarg | Op.I64AtomicRmw8CmpxchgU memarg
  | Op.I64AtomicRmw16CmpxchgU memarg | Op.I64AtomicRmw32CmpxchgU memarg =>
      check_atomic_binary_memory_cmpxchg off memarg I64
  end.

Definition visit_simd (o : Op.simd_op) : V () :=
  match o with
  | Op.V128Load memarg | Op.V128Load8Splat memarg | Op.V128Load16Splat memarg
  | Op.V128Load32Splat memarg | Op.V128Load32Zero memarg =>
      ty ← check_memarg off memarg; pop_type off ty;; push_type V128
  | Op.V128Load8x8S memarg | Op.V128Load8x8U memarg | Op.V128Load16x4S memarg
  | Op.V128Load16x4U memarg | Op.V128Load32x2S memarg | Op.V128Load32x2U memarg
  | Op.V128Load64Splat memarg | Op.V128Load64Zero memarg => check_v128_load_op memarg
  | Op.V128Store memarg => ty ← check_memarg off memarg; pop_type off V128;; pop_type off ty
  | Op.V128Load8Lane memarg lane =>
      idx ← check_memarg off memarg; check_simd_lane_index lane 16;; pop_type off V128;; pop_type off idx;; push_type V128
  | Op.V128Load16Lane memarg lane =>
      idx ← check_memarg off memarg; check_simd_lane_index lane 8;; pop_type off V128;; pop_type off idx;; push_type V128
  | Op.V128Load32Lane memarg lane =>
      idx ← check_memarg off memarg; check_simd_lane_index lane 4;; pop_type off V128;; pop_type off idx;; push_type V128
  | Op.V128Load64Lane memarg lane =>
      idx ← check_memarg off memarg; check_simd_lane_index lane 2;; pop_type off V128;; pop_type off idx;; push_type V128
  | Op.V128Store8Lane memarg lane =>
      idx ← check_memarg off memarg; check_simd_lane_index lane 16;; pop_type off V128;; pop_type off idx
  | Op.V128Store16Lane memarg lane =>
      idx ← check_memarg off memarg; check_simd_lane_index lane 8;; pop_type off V128;; pop_type off idx
  | Op.V128Store32Lane memarg lane =>
      idx ← check_memarg off memarg; check_simd_lane_index lane 4;; pop_type off V128;; pop_type off idx
  | Op.V128Store64Lane memarg lane =>
      idx ← check_memarg off memarg; check_simd_lane_index lane 2;; pop_type off V128;; pop_type off idx
  | Op.V128Const value => push_type V128
  | Op.I8x16ExtractLaneS lane | Op.I8x16ExtractLaneU lane =>
      check_simd_lane_index lane 16;; pop_type off V128;; push_type I32
  | Op.I8x16ReplaceLane lane =>
      check_simd_lane_index lane 16;; pop_type off I32;; pop_type off V128;; push_type V128
  | Op.I16x8ExtractLaneS lane | Op.I16x8ExtractLaneU lane =>
      check_simd_lane_index lane 8;; pop_type off V128;; push_type I32
  | Op.I16x8ReplaceLane lane =>
      check_simd_lane_index lane 8;; pop_type off I32;; pop_type off V128;; push_type V128
  | Op.I32x4ExtractLane lane => check_simd_lane_index lane 4;; pop_type off V128;; push_type I32
  | Op.I32x4ReplaceLane lane =>
      check_simd_lane_index lane 4;; pop_type off I32;; pop_type off V128;; push_type V128
  | Op.I64x2ExtractLane lane => check_simd_lane_index lane 2;; pop_type off V128;; push_type I64
  | Op.I64x2ReplaceLane lane =>
      check_simd_lane_index lane 2;; pop_type off I64;; pop_type off V128;; push_type V128
  | Op.F32x4ExtractLane lane =>
      check_floats_enabled off;; check_simd_lane_index lane 4;; pop_type off V128;; push_type F32
  | Op.F32x4ReplaceLane lane =>
      check_floats_enabled off;; check_simd_lane_index lane 4;; pop_type off F32;; pop_type off V128;; push_type V128
  | Op.F64x2ExtractLane lane =>
      check_floats_enabled off;; check_simd_lane_index lane 2;; pop_type off V128;; push_type F64
  | Op.F64x2ReplaceLane lane =>
      check_floats_enabled off;; check_simd_lane_index lane 2;; pop_type off F64;; pop_type off V128;; push_type V128
  | Op.I8x16Swizzle => pop_type off V128;; pop_type off V128;; push_type V128
  | Op.I8x16Splat | Op.I16x8Splat | Op.I32x4Splat => check_v128_splat I32
  | Op.I64x2Splat => check_v128_splat I64
  | Op.F32x4Splat => check_floats_enabled off;; check_v128_splat F32
  | Op.F64x2Splat => check_floats_enabled off;; check_v128_splat F64
  | Op.I8x16Eq | Op.I8x16Ne | Op.I8x16LtS | Op.I8x16LtU | Op.I8x16GtS | Op.I8x16GtU | Op.I8x16LeS
  | Op.I8x16LeU | Op.I8x16GeS | Op.I8x16GeU | Op.I16x8Eq | Op.I16x8Ne | Op.I16x8LtS | Op.I16x8LtU
  | Op.I16x8GtS | Op.I16x8GtU | Op.I16x8LeS | Op.I16x8LeU | Op.I16x8GeS | Op.I16x8GeU | Op.I32x4Eq
  | Op.I32x4Ne | Op.I32x4LtS | Op.I32x4LtU | Op.I32x4GtS | Op.I32x4GtU | Op.I32x4LeS | Op.I32x4LeU
  | Op.I32x4GeS | Op.I32x4GeU | Op.I64x2Eq | Op.I64x2Ne | Op.I64x2LtS | Op.I64x2GtS | Op.I64x2LeS
  | Op.I64x2GeS | Op.V128And | Op.V128AndNot | Op.V128Or | Op.V128Xor | Op.I8x16NarrowI16x8S
  | Op.I8x16NarrowI16x8U | Op.I8x16Add | Op.I8x16AddSatS | Op.I8x16AddSatU | Op.I8x16Sub
  | Op.I8x16SubSatS | Op.I8x16SubSatU | Op.I8x16MinS | Op.I8x16MinU | Op.I8x16MaxS | Op.I8x16MaxU
  | Op.I8x16AvgrU | Op.I16x8Q15MulrSatS | Op.I16x8NarrowI32x4S | Op.I16x8NarrowI32x4U | Op.I16x8Add
  | Op.I16x8AddSatS | Op.I16x8AddSatU | Op.I16x8Sub | Op.I16x8SubSatS | Op.I16x8SubSatU
  | Op.I16x8Mul | Op.I16x8MinS | Op.I16x8MinU | Op.I16x8MaxS | Op.I16x8MaxU | Op.I16x8AvgrU
  | Op.I16x8ExtMulLowI8x16S | Op.I16x8ExtMulHighI8x16S | Op.I16x8ExtMulLowI8x16U
  | Op.I16x8ExtMulHighI8x16U | Op.I32x4Add | Op.I32x4Sub | Op.I32x4Mul | Op.I32x4MinS
  | Op.I32x4MinU | Op.I32x4MaxS | Op.I32x4MaxU | Op.I32x4DotI16x8S | Op.I32x4ExtMulLowI16x8S
  | Op.I32x4ExtMulHighI16x8S | Op.I32x4ExtMulLowI16x8U | Op.I32x4ExtMulHighI16x8U | Op.I64x2Add
  | Op.I64x2Sub | Op.I64x2Mul | Op.I64x2ExtMulLowI32x4S | Op.I64x2ExtMulHighI32x4S
  | Op.I64x2ExtMulLowI32x4U | Op.I64x2ExtMulHighI32x4U => check_v128_binary_op
  | Op.F32x4Eq | Op.F32x4Ne | Op.F32x4Lt | Op.F32x4Gt | Op.F32x4Le | Op.F32x4Ge | Op.F64x2Eq
  | Op.F64x2Ne | Op.F64x2Lt | Op.F64x2Gt | Op.F64x2Le | Op.F64x2Ge | Op.F32x4Add | Op.F32x4Sub
  | Op.F32x4Mul | Op.F32x4Div | Op.F32x4Min | Op.F32x4Max | Op.F32x4PMin | Op.F32x4PMax
  | Op.F64x2Add | Op.F64x2Sub | Op.F64x2Mul | Op.F64x2Div | Op.F64x2Min | Op.F64x2Max
  | Op.F64x2PMin | Op.F64x2PMax => check_v128_fbinary_op
  | Op.V128Not | Op.I8x16Abs | Op.I8x16Neg | Op.I8x16Popcnt | Op.I16x8ExtAddPairwiseI8x16S
  | Op.I16x8ExtAddPairwiseI8x16U | Op.I16x8Abs | Op.I16x8Neg | Op.I16x8ExtendLowI8x16S
  | Op.I16x8ExtendHighI8x16S | Op.I16x8ExtendLowI8x16U | Op.I16x8ExtendHighI8x16U
  | Op.I32x4ExtAddPairwiseI16x8S | Op.I32x4ExtAddPairwiseI16x8U | Op.I32x4Abs | Op.I32x4Neg
  | Op.I32x4ExtendLowI16x8S | Op.I32x4ExtendHighI16x8S | Op.I32x4ExtendLowI16x8U
  | Op.I32x4ExtendHighI16x8U | Op.I64x2Abs | Op.I64x2Neg | Op.I64x2ExtendLowI32x4S
  | Op.I64x2ExtendHighI32x4S | Op.I64x2ExtendLowI32x4U | Op.I64x2ExtendHighI32x4U =>
      check_v128_unary_op
  | Op.V128Bitselect => pop_type off V128;; pop_type off V128;; pop_type off V128;; push_type V128
  | Op.V128AnyTrue | Op.I8x16AllTrue | Op.I8x16Bitmask | Op.I16x8AllTrue | Op.I16x8Bitmask
  | Op.I32x4AllTrue | Op.I32x4Bitmask | Op.I64x2AllTrue | Op.I64x2Bitmask => check_v128_bitmask_op
  | Op.I8x16Shl | Op.I8x16ShrS | Op.I8x16ShrU | Op.I16x8Shl | Op.I16x8ShrS | Op.I16x8ShrU
  | Op.I32x4Shl | Op.I32x4ShrS | Op.I32x4ShrU | Op.I64x2Shl | Op.I64x2ShrS | Op.I64x2ShrU =>
      check_v128_shift_op
  | Op.F32x4Ceil | Op.F32x4Floor | Op.F32x4Trunc | Op.F32x4Nearest | Op.F32x4Abs | Op.F32x4Neg
  | Op.F32x4Sqrt | Op.F64x2Ceil | Op.F64x2Floor | Op.F64x2Trunc | Op.F64x2Nearest | Op.F64x2Abs
  | Op.F64x2Neg | Op.F64x2Sqrt | Op.I32x4TruncSatF32x4S | Op.I32x4TruncSatF32x4U
  | Op.F32x4ConvertI32x4S | Op.F32x4ConvertI32x4U | Op.I32x4TruncSatF64x2SZero
  | Op.I32x4TruncSatF64x2UZero | Op.F64x2ConvertLowI32x4S | Op.F64x2ConvertLowI32x4U
  | Op.F32x4DemoteF64x2Zero | Op.F64x2PromoteLowF32x4 => check_v128_funary_op
  | Op.I8x16Shuffle lanes => visit_i8x16_shuffle lanes
  end.

Definition visit_relaxed_simd (o : Op.relaxed_simd_op) : V () :=
  match o with
  | Op.I8x16RelaxedSwizzle => pop_type off V128;; pop_type off V128;; push_type V128
  | Op.I32x4RelaxedTruncF32x4S | Op.I32x4RelaxedTruncF32x4U | Op.I32x4RelaxedTruncF64x2SZero
  | Op.I32x4RelaxedTruncF64x2UZero => check_v128_unary_op
  | Op.F32x4RelaxedMadd | Op.F32x4RelaxedNmadd | Op.F64x2RelaxedMadd | Op.F64x2RelaxedNmadd
  | Op.I8x16RelaxedLaneselect | Op.I16x8RelaxedLaneselect | Op.I32x4RelaxedLaneselect
  | Op.I64x2RelaxedLaneselect | Op.I32x4RelaxedDotI8x16I7x16AddS => check_v128_ternary_op
  | Op.F32x4RelaxedMin | Op.F32x4RelaxedMax | Op.F64x2RelaxedMin | Op.F64x2RelaxedMax
  | Op.I16x8RelaxedQ15mulrS | Op.I16x8RelaxedDotI8x16I7x16S => check_v128_binary_op
  end.

Definition visit_exceptions (o : Op.exceptions_op) : V () :=
  match o with
  | Op.TryTable try_table => visit_try_table off try_table
  | Op.Throw tag_index => visit_throw off tag_index
  | Op.ThrowRef => visit_throw_ref off
  end.

Definition visit_legacy_exceptions (o : Op.legacy_exceptions_op) : V () :=
  match o with
  | Op.Try blockty => visit_try off blockty
  | Op.Catch tag_index => visit_catch off tag_index
  | Op.Rethrow relative_depth => visit_rethrow off relative_depth
  | Op.Delegate relative_depth => visit_delegate off relative_depth
  | Op.CatchAll => visit_catch_all off
  end.

Definition visit_shared_everything_threads (o : Op.shared_everything_threads_op) : V () :=
  match o with
  | Op.GlobalAtomicRmwAdd ordering global_index | Op.GlobalAtomicRmwSub ordering global_index
  | Op.GlobalAtomicRmwAnd ordering global_index | Op.GlobalAtomicRmwOr ordering global_index
  | Op.GlobalAtomicRmwXor ordering global_index =>
      ty ← check_atomic_global_rmw_ty off global_index; check_unary_op off ty
  | Op.StructAtomicRmwAdd ordering struct_type_index field_index
  | Op.StructAtomicRmwSub ordering struct_type_index field_index
  | Op.StructAtomicRmwAnd ordering struct_type_index field_index
  | Op.StructAtomicRmwOr ordering struct_type_index field_index
  | Op.StructAtomicRmwXor ordering struct_type_index field_index =>
      check_struct_atomic_rmw off struct_type_index field_index
  | Op.ArrayAtomicRmwAdd ordering array_type_index | Op.ArrayAtomicRmwSub ordering array_type_index
  | Op.ArrayAtomicRmwAnd ordering array_type_index | Op.ArrayAtomicRmwOr ordering array_type_index
  | Op.ArrayAtomicRmwXor ordering array_type_index => check_array_atomic_rmw off array_type_index
  | Op.GlobalAtomicGet ordering global_index => visit_global_atomic_get off global_index
  | Op.GlobalAtomicSet ordering global_index => visit_global_atomic_set off global_index
  | Op.GlobalAtomicRmwXchg ordering global_index => visit_global_atomic_rmw_xchg off global_index
  | Op.GlobalAtomicRmwCmpxchg ordering global_index => visit_global_atomic_rmw_cmpxchg off global_index
  | Op.TableAtomicGet ordering table_index => visit_table_atomic_get off table_index
  | Op.TableAtomicSet ordering table_index => visit_table_atomic_set off table_index
  | Op.TableAtomicRmwXchg ordering table_index => visit_table_atomic_rmw_xchg off table_index
  | Op.TableAtomicRmwCmpxchg ordering table_index => visit_table_atomic_rmw_cmpxchg off table_index
  | Op.StructAtomicGet ordering struct_type_index field_index =>
      visit_struct_atomic_get off struct_type_index field_index
  | Op.StructAtomicGetS ordering struct_type_index field_index =>
      visit_struct_atomic_get_s off struct_type_index field_index
  | Op.StructAtomicGetU ordering struct_type_index field_index =>
      visit_struct_atomic_get_u off struct_type_index field_index
  | Op.StructAtomicSet ordering struct_type_index field_index =>
      visit_struct_atomic_set off struct_type_index field_index
  | Op.StructAtomicRmwXchg ordering struct_type_index field_index =>
      visit_struct_atomic_rmw_xchg off struct_type_index field_index
  | Op.StructAtomicRmwCmpxchg ordering struct_type_index field_index =>
      visit_struct_atomic_rmw_cmpxchg off struct_type_index field_index
  | Op.ArrayAtomicGet ordering array_type_index => visit_array_atomic_get off array_type_index
  | Op.ArrayAtomicGetS ordering array_type_index => visit_array_get_s off array_type_index
  | Op.ArrayAtomicGetU ordering array_type_index => visit_array_get_u off array_type_index
  | Op.ArrayAtomicSet ordering array_type_index => visit_array_atomic_set off array_type_index
  | Op.ArrayAtomicRmwXchg ordering array_type_index => visit_array_atomic_rmw_xchg off array_type_index
  | Op.ArrayAtomicRmwCmpxchg ordering array_type_index =>
      visit_array_atomic_rmw_cmpxchg off array_type_index
  | Op.RefI31Shared => visit_ref_i31_shared off
  end.

Definition visit_function_references (o : Op.function_references_op) : V () :=
  match o with
  | Op.CallRef type_index => ty ← check_call_ref_ty off type_index; check_call_ty off ty
  | Op.ReturnCallRef type_index => ty ← check_call_ref_ty off type_index; check_return_call_ty off ty
  | Op.RefAsNonNull => visit_ref_as_non_null off
  | Op.BrOnNull relative_depth => visit_br_on_null off relative_depth
  | Op.BrOnNonNull relative_depth => visit_br_on_non_null off relative_depth
  end.

Definition visit_stack_switching (o : Op.stack_switching_op) : V () :=
  match o with
  | Op.ContNew cont_type_index => visit_cont_new off cont_type_index
  | Op.ContBind argument_index result_index => visit_cont_bind off argument_index result_index
  | Op.Suspend tag_index => visit_suspend off tag_index
  | Op.Resume cont_type_index resume_table => visit_resume off cont_type_index resume_table
  | Op.ResumeThrow cont_type_index tag_index resume_table =>
      visit_resume_throw off cont_type_index tag_index resume_table
  | Op.Switch cont_type_index tag_index => visit_switch off cont_type_index tag_index
  end.

Definition visit_wide_arithmetic (o : Op.wide_arithmetic_op) : V () :=
  match o with
  | Op.I64Add128 | Op.I64Sub128 => check_binop128 off
  | Op.I64MulWideS | Op.I64MulWideU => check_i64_mul_wide off
  end.

(** ** Proposals *)

Definition check_enabled (flag : bool) (desc : string) : V () :=
  if flag then mret tt else bail off (lit (desc ++ " support is not enabled")).

(** The proposal of a group: its feature and its description; [mvp] has none. *)
Definition validate_proposal (f : WasmFeatures) (o : Op.Operator) : option (bool * string) :=
  match o with
  | Op.Mvp _ => None
  | Op.SignExtension _ => Some (sign_extension f, "sign extension operations"%string)
  | Op.Gc _ => Some (gc f, "gc"%string)
  | Op.SaturatingFloatToInt _ => Some (saturating_float_to_int f, "saturating float to int conversions"%string)
  | Op.BulkMemory _ => Some (bulk_memory f, "bulk memory"%string)
  | Op.ReferenceTypes _ => Some (reference_types f, "reference types"%string)
  | Op.TailCall _ => Some (tail_call f, "tail calls"%string)
  | Op.MemoryControl _ => Some (memory_control f, "memory control"%string)
  | Op.Threads _ => Some (threads f, "threads"%string)
  | Op.Simd _ => Some (simd f, "SIMD"%string)
  | Op.RelaxedSimd _ => Some (relaxed_simd f, "relaxed SIMD"%string)
  | Op.Exceptions _ => Some (exceptions f, "exceptions"%string)
  | Op.LegacyExceptions _ => Some (legacy_exceptions f, "legacy exceptions"%string)
  | Op.SharedEverythingThreads _ => Some (shared_everything_threads f, "shared-everything-threads"%string)
  | Op.FunctionReferences _ => Some (function_references f, "function references"%string)
  | Op.StackSwitching _ => Some (stack_switching f, "stack switching"%string)
  | Op.WideArithmetic _ => Some (wide_arithmetic f, "wide arithmetic"%string)
  end.

Definition visit_temp (o : Op.Operator) : V () :=
  match o with
  | Op.Mvp o => visit_mvp o
  | Op.SignExtension o => visit_sign_extension o
  | Op.Gc o => visit_gc o
  | Op.SaturatingFloatToInt o => visit_saturating_float_to_int o
  | Op.BulkMemory o => visit_bulk_memory o
  | Op.ReferenceTypes o => visit_reference_types o
  | Op.TailCall o => visit_tail_call o
  | Op.MemoryControl o => visit_memory_control o
  | Op.Threads o => visit_threads o
  | Op.Simd o => visit_simd o
  | Op.RelaxedSimd o => visit_relaxed_simd o
  | Op.Exceptions o => visit_exceptions o
  | Op.LegacyExceptions o => visit_legacy_exceptions o
  | Op.SharedEverythingThreads o => visit_shared_everything_threads o
  | Op.FunctionReferences o => visit_function_references o
  | Op.StackSwitching o => visit_stack_switching o
  | Op.WideArithmetic o => visit_wide_arithmetic o
  end.

(** [FuncValidator::op]. *)
Definition validate_operator (o : Op.Operator) : V () :=
  v ← gets id;
  match validate_proposal (ov_features v) o with
  | Some (flag, desc) => check_enabled flag desc
  | None => mret tt
  end;;
  visit_temp o.
End dispatch.
