(* ===== verification/Arity.v ===== *)
(** The arity of operators: [crates/wasmparser/src/arity.rs], with the
    annotations of the operator table in [crates/wasmparser/src/lib.rs] and the
    implementation of [ModuleArity] for the operator validator.

    Then [FuncValidator] of [crates/wasmparser/src/validator/func.rs], which
    validates a function body.

    The macro [operator_arity!] interprets the annotation of an operator; here
    the annotation is a value and the interpretation a function. *)

From Stdlib Require Import ZArith Lia String.
From stdpp Require Import prelude.
From S2P Require Import Prelude StateLogic Leb128 BinaryReader Types Operands Operators OperatorReader.
From S2P Require Import SectionReader CompositeTypes Items ValidatorState OperatorValidator VisitOperators.
From S2P Require Import ValidateOperator.

Local Open Scope Z_scope.

(** ** The interface *)

Class ModuleArity := {
  arity_sub_type_at : Z -> option SubType;
  tag_type_arity : Z -> option (Z * Z);
  arity_type_index_of_function : Z -> option Z;
  arity_func_type_of_cont_type : ContType -> option FuncType;
  sub_type_of_ref_type : RefType -> option SubType;
  arity_control_stack_height : Z;
  label_block : Z -> option (BlockType * FrameKind);
}.

(** [len() as u32]. *)
Definition len_u32 {A} (l : list A) : Z := wrap 32 (Z.of_nat (length l)).

Definition func_arity (f : FuncType) : Z * Z := (len_u32 (func_params f), len_u32 (func_results f)).

(** ** Annotations *)

Inductive fixed_category :=
| F_load_lane | F_load | F_store | F_test | F_unary | F_binary | F_cmp | F_shift | F_splat
| F_ternary | F_conversion | F_push | F_extract | F_replace
| F_atomic_rmw_array | F_atomic_rmw | F_atomic_cmpxchg.

Definition fixed (c : fixed_category) : Z * Z :=
  match c with
  | F_load_lane => (2, 1)
  | F_load => (1, 1)
  | F_store => (2, 0)
  | F_test => (1, 1)
  | F_unary => (1, 1)
  | F_binary => (2, 1)
  | F_cmp => (2, 1)
  | F_shift => (2, 1)
  | F_splat => (1, 1)
  | F_ternary => (3, 1)
  | F_conversion => (1, 1)
  | F_push => (0, 1)
  | F_extract => (1, 1)
  | F_replace => (2, 1)
  | F_atomic_rmw_array => (3, 1)
  | F_atomic_rmw => (2, 1)
  | F_atomic_cmpxchg => (3, 1)
  end.

(** A category, with the argument of the operator that it is about. *)
Inductive category :=
| C_tag (tag_index : Z)
| C_func (func_index : Z)
| C_type (type_index : Z)
| C_switch (type_index : Z)
| C_type_diff (type1_index type2_index : Z)
| C_size (size : Z)
| C_br (depth : Z)
| C_ret
| C_block (blockty : BlockType)
| C_implicit_else
| C_end
| C_try_table (t : TryTable)
| C_br_table (t : BrTable).

(** [T_swap] is a category after a tilde. *)
Inductive token :=
| T_lit (val : Z)
| T_cat (c : category)
| T_swap (c : category).

(** The tokens before and after the arrow. *)
Inductive annotation :=
| Arity (before after : list token)
| Fixed (c : fixed_category).

Definition checked_sub (a b : Z) : option Z := if a <? b then None else Some (a - b).

Section arity.
Context {M : ModuleArity}.

Definition sub_type_arity (t : SubType) : option (Z * Z) :=
  match inner (composite_type_of t) with
  | CFunc f => Some (func_arity f)
  | CStruct s => Some (len_u32 (fields s), len_u32 (fields s))
  | CArray _ => None
  | CCont c => f ← arity_func_type_of_cont_type c; Some (func_arity f)
  end.

Definition type_arity (type_index : Z) : option (Z * Z) :=
  t ← arity_sub_type_at type_index; sub_type_arity t.

Definition block_type_arity (ty : BlockType) : option (Z * Z) :=
  match ty with
  | BT_Empty => Some (0, 0)
  | BT_Type _ => Some (0, 1)
  | BT_FuncType t => type_arity t
  end.

Definition count_br (depth : Z) : option (Z * Z) :=
  match label_block depth with
  | None => None
  | Some (ty, kind) =>
      match block_type_arity ty with
      | None => None
      | Some (params, results) =>
          let n := match kind with FK_Loop => params | _ => results end in
          Some (n, n)
      end
  end.

Definition count (c : category) : option (Z * Z) :=
  match c with
  | C_tag tag_index => tag_type_arity tag_index
  | C_func func_index => t ← arity_type_index_of_function func_index; type_arity t
  | C_type type_index => type_arity type_index
  | C_switch type_index =>
      st ← arity_sub_type_at type_index;
      match inner (composite_type_of st) with
      | CCont ct =>
          f ← arity_func_type_of_cont_type ct;
          last_param ← last (func_params f);
          match last_param with
          | Ref rt => t ← sub_type_of_ref_type rt; sub_type_arity t
          | _ => None
          end
      | _ => None
      end
  | C_type_diff type1_index type2_index =>
      match type_arity type1_index, type_arity type2_index with
      | Some a, Some b =>
          match checked_sub (fst a) (fst b), checked_sub (snd a) (snd b) with
          | Some x, Some y => Some (x, y)
          | _, _ => None
          end
      | _, _ => None
      end
  | C_size size => Some (size, size)
  | C_br depth => count_br depth
  | C_ret =>
      match checked_sub arity_control_stack_height 1 with
      | None => None
      | Some x =>
          match label_block x with
          | Some (ty, _) => block_type_arity ty
          | None => None
          end
      end
  | C_block blockty => block_type_arity blockty
  | C_implicit_else =>
      match label_block 0 with
      | None => None
      | Some (ty, kind) =>
          match block_type_arity ty with
          | None => None
          | Some (params, results) =>
              Some (match kind with FK_If => (results, params) | _ => (0, 0) end)
          end
      end
  | C_end =>
      match label_block 0 with
      | Some (ty, _) => block_type_arity ty
      | None => None
      end
  | C_try_table t => block_type_arity (try_ty t)
  | C_br_table t => count_br (default t)
  end.

(** [as i32] and the sum of [i32]s, as it wraps. *)
Definition add_i32 (x y : Z * Z) : Z * Z :=
  (swrap 32 (swrap 32 (fst x) + fst y), swrap 32 (swrap 32 (snd x) + snd y)).

Definition swap (x : Z * Z) : Z * Z := (snd x, fst x).

(** The rules for parameters; those for results are the same after the arrow. *)
Fixpoint sum_tokens (l : list token) : option (Z * Z) :=
  match l with
  | [] => Some (0, 0)
  | T_lit val :: l' => rest ← sum_tokens l'; Some (add_i32 (val, val) rest)
  | T_cat c :: l' => x ← count c; rest ← sum_tokens l'; Some (add_i32 x rest)
  | T_swap c :: l' => x ← count c; rest ← sum_tokens l'; Some (add_i32 (swap x) rest)
  end.

Definition annotation_arity (a : annotation) : option (Z * Z) :=
  match a with
  | Arity before after =>
      match sum_tokens before, sum_tokens after with
      | Some (a, _), Some (_, d) => if (0 <=? a) && (0 <=? d) then Some (a, d) else None
      | _, _ => None
      end
  | Fixed c => Some (fixed c)
  end.
End arity.

(** ** The operators *)

Definition mvp_annotation (o : Op.mvp_op) : annotation :=
  match o with
  | Op.Unreachable | Op.Nop => Arity [T_lit 0] [T_lit 0]
  | Op.Block blockty | Op.Loop blockty => Arity [T_cat (C_block blockty)] [T_swap (C_block blockty)]
  | Op.If blockty => Arity [T_lit 1; T_cat (C_block blockty)] [T_swap (C_block blockty)]
  | Op.Else => Arity [T_swap C_end] [T_swap C_end]
  | Op.End => Arity [T_cat C_implicit_else; T_swap C_end] [T_cat C_implicit_else; T_cat C_end]
  | Op.Br relative_depth => Arity [T_cat (C_br relative_depth)] [T_lit 0]
  | Op.BrIf relative_depth => Arity [T_lit 1; T_cat (C_br relative_depth)] [T_cat (C_br relative_depth)]
  | Op.BrTable targets => Arity [T_lit 1; T_cat (C_br_table targets)] [T_lit 0]
  | Op.Return => Arity [T_swap C_ret] [T_lit 0]
  | Op.Call function_index => Arity [T_cat (C_func function_index)] [T_cat (C_func function_index)]
  | Op.CallIndirect type_index _ =>
      Arity [T_lit 1; T_cat (C_type type_index)] [T_cat (C_type type_index)]
  | Op.Drop | Op.LocalSet _ | Op.GlobalSet _ => Arity [T_lit 1] [T_lit 0]
  | Op.Select => Arity [T_lit 3] [T_lit 1]
  | Op.LocalGet _ | Op.GlobalGet _ | Op.MemorySize _ => Arity [T_lit 0] [T_lit 1]
  | Op.LocalTee _ | Op.MemoryGrow _ => Arity [T_lit 1] [T_lit 1]
  | Op.I32Load _ | Op.I64Load _ | Op.F32Load _ | Op.F64Load _ | Op.I32Load8S _ | Op.I32Load8U _
  | Op.I32Load16S _ | Op.I32Load16U _ | Op.I64Load8S _ | Op.I64Load8U _ | Op.I64Load16S _
  | Op.I64Load16U _ | Op.I64Load32S _ | Op.I64Load32U _ => Fixed F_load
  | Op.I32Store _ | Op.I64Store _ | Op.F32Store _ | Op.F64Store _ | Op.I32Store8 _
  | Op.I32Store16 _ | Op.I64Store8 _ | Op.I64Store16 _ | Op.I64Store32 _ => Fixed F_store
  | Op.I32Const _ | Op.I64Const _ | Op.F32Const _ | Op.F64Const _ => Fixed F_push
  | Op.I32Eqz | Op.I64Eqz => Fixed F_test
  | Op.I32Eq | Op.I32Ne | Op.I32LtS | Op.I32LtU | Op.I32GtS | Op.I32GtU | Op.I32LeS | Op.I32LeU
  | Op.I32GeS | Op.I32GeU | Op.I64Eq | Op.I64Ne | Op.I64LtS | Op.I64LtU | Op.I64GtS | Op.I64GtU
  | Op.I64LeS | Op.I64LeU | Op.I64GeS | Op.I64GeU | Op.F32Eq | Op.F32Ne | Op.F32Lt | Op.F32Gt
  | Op.F32Le | Op.F32Ge | Op.F64Eq | Op.F64Ne | Op.F64Lt | Op.F64Gt | Op.F64Le | Op.F64Ge => Fixed F_cmp
  | Op.I32Clz | Op.I32Ctz | Op.I32Popcnt | Op.I64Clz | Op.I64Ctz | Op.I64Popcnt | Op.F32Abs
  | Op.F32Neg | Op.F32Ceil | Op.F32Floor | Op.F32Trunc | Op.F32Nearest | Op.F32Sqrt | Op.F64Abs
  | Op.F64Neg | Op.F64Ceil | Op.F64Floor | Op.F64Trunc | Op.F64Nearest | Op.F64Sqrt => Fixed F_unary
  | Op.I32Add | Op.I32Sub | Op.I32Mul | Op.I32DivS | Op.I32DivU | Op.I32RemS | Op.I32RemU
  | Op.I32And | Op.I32Or | Op.I32Xor | Op.I32Shl | Op.I32ShrS | Op.I32ShrU | Op.I32Rotl
  | Op.I32Rotr | Op.I64Add | Op.I64Sub | Op.I64Mul | Op.I64DivS | Op.I64DivU | Op.I64RemS
  | Op.I64RemU | Op.I64And | Op.I64Or | Op.I64Xor | Op.I64Shl | Op.I64ShrS | Op.I64ShrU
  | Op.I64Rotl | Op.I64Rotr | Op.F32Add | Op.F32Sub | Op.F32Mul | Op.F32Div | Op.F32Min | Op.F32Max
  | Op.F32Copysign | Op.F64Add | Op.F64Sub | Op.F64Mul | Op.F64Div | Op.F64Min | Op.F64Max
  | Op.F64Copysign => Fixed F_binary
  | Op.I32WrapI64 | Op.I32TruncF32S | Op.I32TruncF32U | Op.I32TruncF64S | Op.I32TruncF64U
  | Op.I64ExtendI32S | Op.I64ExtendI32U | Op.I64TruncF32S | Op.I64TruncF32U | Op.I64TruncF64S
  | Op.I64TruncF64U | Op.F32ConvertI32S | Op.F32ConvertI32U | Op.F32ConvertI64S | Op.F32ConvertI64U
  | Op.F32DemoteF64 | Op.F64ConvertI32S | Op.F64ConvertI32U | Op.F64ConvertI64S | Op.F64ConvertI64U
  | Op.F64PromoteF32 | Op.I32ReinterpretF32 | Op.I64ReinterpretF64 | Op.F32ReinterpretI32
  | Op.F64ReinterpretI64 => Fixed F_conversion
  end.

Definition sign_extension_annotation (o : Op.sign_extension_op) : annotation :=
  match o with
  | Op.I32Extend8S | Op.I32Extend16S | Op.I64Extend8S | Op.I64Extend16S | Op.I64Extend32S =>
      Fixed F_unary
  end.

Definition gc_annotation (o : Op.gc_op) : annotation :=
  match o with
  | Op.RefEq | Op.ArrayNew _ | Op.ArrayNewData _ _ | Op.ArrayNewElem _ _ | Op.ArrayGet _
  | Op.ArrayGetS _ | Op.ArrayGetU _ => Arity [T_lit 2] [T_lit 1]
  | Op.StructNew struct_type_index => Arity [T_cat (C_type struct_type_index)] [T_lit 1]
  | Op.StructNewDefault _ => Arity [T_lit 0] [T_lit 1]
  | Op.StructGet _ _ | Op.StructGetS _ _ | Op.StructGetU _ _ | Op.ArrayNewDefault _ | Op.ArrayLen
  | Op.RefTestNonNull _ | Op.RefTestNullable _ | Op.RefCastNonNull _ | Op.RefCastNullable _
  | Op.AnyConvertExtern | Op.ExternConvertAny | Op.RefI31 | Op.I31GetS | Op.I31GetU =>
      Arity [T_lit 1] [T_lit 1]
  | Op.StructSet _ _ => Arity [T_lit 2] [T_lit 0]
  | Op.ArrayNewFixed _ array_size => Arity [T_cat (C_size array_size)] [T_lit 1]
  | Op.ArraySet _ => Arity [T_lit 3] [T_lit 0]
  | Op.ArrayFill _ | Op.ArrayInitData _ _ | Op.ArrayInitElem _ _ => Arity [T_lit 4] [T_lit 0]
  | Op.ArrayCopy _ _ => Arity [T_lit 5] [T_lit 0]
  | Op.BrOnCast relative_depth _ _ | Op.BrOnCastFail relative_depth _ _ =>
      Arity [T_cat (C_br relative_depth)] [T_cat (C_br relative_depth)]
  end.

Definition saturating_float_to_int_annotation (o : Op.saturating_float_to_int_op) : annotation :=
  match o with
  | Op.I32TruncSatF32S | Op.I32TruncSatF32U | Op.I32TruncSatF64S | Op.I32TruncSatF64U
  | Op.I64TruncSatF32S | Op.I64TruncSatF32U | Op.I64TruncSatF64S | Op.I64TruncSatF64U =>
      Fixed F_conversion
  end.

Definition bulk_memory_annotation (o : Op.bulk_memory_op) : annotation :=
  match o with
  | Op.MemoryInit _ _ | Op.MemoryCopy _ _ | Op.MemoryFill _ | Op.TableInit _ _ | Op.TableCopy _ _ =>
      Arity [T_lit 3] [T_lit 0]
  | Op.DataDrop _ | Op.ElemDrop _ => Arity [T_lit 0] [T_lit 0]
  end.

Definition reference_types_annotation (o : Op.reference_types_op) : annotation :=
  match o with
  | Op.TypedSelect _ => Arity [T_lit 3] [T_lit 1]
  | Op.RefNull _ | Op.RefFunc _ | Op.TableSize _ => Arity [T_lit 0] [T_lit 1]
  | Op.RefIsNull | Op.TableGet _ => Arity [T_lit 1] [T_lit 1]
  | Op.TableFill _ => Arity [T_lit 3] [T_lit 0]
  | Op.TableSet _ => Arity [T_lit 2] [T_lit 0]
  | Op.TableGrow _ => Arity [T_lit 2] [T_lit 1]
  end.

Definition tail_call_annotation (o : Op.tail_call_op) : annotation :=
  match o with
  | Op.ReturnCall function_index => Arity [T_cat (C_func function_index)] [T_lit 0]
  | Op.ReturnCallIndirect type_index _ => Arity [T_lit 1; T_cat (C_type type_index)] [T_lit 0]
  end.

Definition memory_control_annotation (o : Op.memory_control_op) : annotation :=
  match o with
  | Op.MemoryDiscard _ => Arity [T_lit 2] [T_lit 0]
  end.

Definition threads_annotation (o : Op.threads_op) : annotation :=
  match o with
  | Op.MemoryAtomicNotify _ | Op.I32AtomicRmwAdd _ | Op.I64AtomicRmwAdd _ | Op.I32AtomicRmw8AddU _
  | Op.I32AtomicRmw16AddU _ | Op.I64AtomicRmw8AddU _ | Op.I64AtomicRmw16AddU _
  | Op.I64AtomicRmw32AddU _ | Op.I32AtomicRmwSub _ | Op.I64AtomicRmwSub _ | Op.I32AtomicRmw8SubU _
  | Op.I32AtomicRmw16SubU _ | Op.I64AtomicRmw8SubU _ | Op.I64AtomicRmw16SubU _
  | Op.I64AtomicRmw32SubU _ | Op.I32AtomicRmwAnd _ | Op.I64AtomicRmwAnd _ | Op.I32AtomicRmw8AndU _
  | Op.I32AtomicRmw16AndU _ | Op.I64AtomicRmw8AndU _ | Op.I64AtomicRmw16AndU _
  | Op.I64AtomicRmw32AndU _ | Op.I32AtomicRmwOr _ | Op.I64AtomicRmwOr _ | Op.I32AtomicRmw8OrU _
  | Op.I32AtomicRmw16OrU _ | Op.I64AtomicRmw8OrU _ | Op.I64AtomicRmw16OrU _
  | Op.I64AtomicRmw32OrU _ | Op.I32AtomicRmwXor _ | Op.I64AtomicRmwXor _ | Op.I32AtomicRmw8XorU _
  | Op.I32AtomicRmw16XorU _ | Op.I64AtomicRmw8XorU _ | Op.I64AtomicRmw16XorU _
  | Op.I64AtomicRmw32XorU _ | Op.I32AtomicRmwXchg _ | Op.I64AtomicRmwXchg _
  | Op.I32AtomicRmw8XchgU _ | Op.I32AtomicRmw16XchgU _ | Op.I64AtomicRmw8XchgU _
  | Op.I64AtomicRmw16XchgU _ | Op.I64AtomicRmw32XchgU _ => Fixed F_atomic_rmw
  | Op.MemoryAtomicWait32 _ | Op.MemoryAtomicWait64 _ => Arity [T_lit 3] [T_lit 1]
  | Op.AtomicFence => Arity [T_lit 0] [T_lit 0]
  | Op.I32AtomicLoad _ | Op.I64AtomicLoad _ | Op.I32AtomicLoad8U _ | Op.I32AtomicLoad16U _
  | Op.I64AtomicLoad8U _ | Op.I64AtomicLoad16U _ | Op.I64AtomicLoad32U _ => Fixed F_load
  | Op.I32AtomicStore _ | Op.I64AtomicStore _ | Op.I32AtomicStore8 _ | Op.I32AtomicStore16 _
  | Op.I64AtomicStore8 _ | Op.I64AtomicStore16 _ | Op.I64AtomicStore32 _ => Fixed F_store
  | Op.I32AtomicRmwCmpxchg _ | Op.I64AtomicRmwCmpxchg _ | Op.I32AtomicRmw8CmpxchgU _
  | Op.I32AtomicRmw16CmpxchgU _ | Op.I64AtomicRmw8CmpxchgU _ | Op.I64AtomicRmw16CmpxchgU _
  | Op.I64AtomicRmw32CmpxchgU _ => Fixed F_atomic_cmpxchg
  end.

Definition simd_annotation (o : Op.simd_op) : annotation :=
  match o with
  | Op.V128Load _ | Op.V128Load8x8S _ | Op.V128Load8x8U _ | Op.V128Load16x4S _ | Op.V128Load16x4U _
  | Op.V128Load32x2S _ | Op.V128Load32x2U _ | Op.V128Load8Splat _ | Op.V128Load16Splat _
  | Op.V128Load32Splat _ | Op.V128Load64Splat _ | Op.V128Load32Zero _ | Op.V128Load64Zero _ =>
      Fixed F_load
  | Op.V128Store _ | Op.V128Store8Lane _ _ | Op.V128Store16Lane _ _ | Op.V128Store32Lane _ _
  | Op.V128Store64Lane _ _ => Fixed F_store
  | Op.V128Load8Lane _ _ | Op.V128Load16Lane _ _ | Op.V128Load32Lane _ _ | Op.V128Load64Lane _ _ =>
      Fixed F_load_lane
  | Op.V128Const _ => Fixed F_push
  | Op.I8x16Shuffle _ => Arity [T_lit 2] [T_lit 1]
  | Op.I8x16ExtractLaneS _ | Op.I8x16ExtractLaneU _ | Op.I16x8ExtractLaneS _
  | Op.I16x8ExtractLaneU _ | Op.I32x4ExtractLane _ | Op.I64x2ExtractLane _ | Op.F32x4ExtractLane _
  | Op.F64x2ExtractLane _ => Fixed F_extract
  | Op.I8x16ReplaceLane _ | Op.I16x8ReplaceLane _ | Op.I32x4ReplaceLane _ | Op.I64x2ReplaceLane _
  | Op.F32x4ReplaceLane _ | Op.F64x2ReplaceLane _ => Fixed F_replace
  | Op.I8x16Swizzle | Op.I8x16Eq | Op.I8x16Ne | Op.I8x16LtS | Op.I8x16LtU | Op.I8x16GtS
  | Op.I8x16GtU | Op.I8x16LeS | Op.I8x16LeU | Op.I8x16GeS | Op.I8x16GeU | Op.I16x8Eq | Op.I16x8Ne
  | Op.I16x8LtS | Op.I16x8LtU | Op.I16x8GtS | Op.I16x8GtU | Op.I16x8LeS | Op.I16x8LeU | Op.I16x8GeS
  | Op.I16x8GeU | Op.I32x4Eq | Op.I32x4Ne | Op.I32x4LtS | Op.I32x4LtU | Op.I32x4GtS | Op.I32x4GtU
  | Op.I32x4LeS | Op.I32x4LeU | Op.I32x4GeS | Op.I32x4GeU | Op.I64x2Eq | Op.I64x2Ne | Op.I64x2LtS
  | Op.I64x2GtS | Op.I64x2LeS | Op.I64x2GeS | Op.F32x4Eq | Op.F32x4Ne | Op.F32x4Lt | Op.F32x4Gt
  | Op.F32x4Le | Op.F32x4Ge | Op.F64x2Eq | Op.F64x2Ne | Op.F64x2Lt | Op.F64x2Gt | Op.F64x2Le
  | Op.F64x2Ge | Op.V128And | Op.V128AndNot | Op.V128Or | Op.V128Xor | Op.I8x16NarrowI16x8S
  | Op.I8x16NarrowI16x8U | Op.I8x16Add | Op.I8x16AddSatS | Op.I8x16AddSatU | Op.I8x16Sub
  | Op.I8x16SubSatS | Op.I8x16SubSatU | Op.I8x16MinS | Op.I8x16MinU | Op.I8x16MaxS | Op.I8x16MaxU
  | Op.I8x16AvgrU | Op.I16x8Q15MulrSatS | Op.I16x8NarrowI32x4S | Op.I16x8NarrowI32x4U | Op.I16x8Add
  | Op.I16x8AddSatS | Op.I16x8AddSatU | Op.I16x8Sub | Op.I16x8SubSatS | Op.I16x8SubSatU
  | Op.I16x8Mul | Op.I16x8MinS | Op.I16x8MinU | Op.I16x8MaxS | Op.I16x8MaxU | Op.I16x8AvgrU
  | Op.I16x8ExtMulLowI8x16S | Op.I16x8ExtMulHighI8x16S | Op.I16x8ExtMulLowI8x16U
  | Op.I16x8ExtMulHighI8x16U | Op.I32x4Add | Op.I32x4Sub | Op.I32x4Mul | Op.I32x4MinS
  | Op.I32x4MinU | Op.I32x4MaxS | Op.I32x4MaxU | Op.I32x4DotI16x8S | Op.I32x4ExtMulLowI16x8S
  | Op.I32x4ExtMulHighI16x8S | Op.I32x4ExtMulLowI16x8U | Op.I32x4ExtMulHighI16x8U | Op.I64x2Add
  | Op.I64x2Sub | Op.I64x2Mul | Op.I64x2ExtMulLowI32x4S | Op.I64x2ExtMulHighI32x4S
  | Op.I64x2ExtMulLowI32x4U | Op.I64x2ExtMulHighI32x4U | Op.F32x4Add | Op.F32x4Sub | Op.F32x4Mul
  | Op.F32x4Div | Op.F32x4Min | Op.F32x4Max | Op.F32x4PMin | Op.F32x4PMax | Op.F64x2Add
  | Op.F64x2Sub | Op.F64x2Mul | Op.F64x2Div | Op.F64x2Min | Op.F64x2Max | Op.F64x2PMin
  | Op.F64x2PMax => Fixed F_binary
  | Op.I8x16Splat | Op.I16x8Splat | Op.I32x4Splat | Op.I64x2Splat | Op.F32x4Splat | Op.F64x2Splat =>
      Fixed F_splat
  | Op.V128Not | Op.I8x16Abs | Op.I8x16Neg | Op.I8x16Popcnt | Op.I16x8ExtAddPairwiseI8x16S
  | Op.I16x8ExtAddPairwiseI8x16U | Op.I16x8Abs | Op.I16x8Neg | Op.I16x8ExtendLowI8x16S
  | Op.I16x8ExtendHighI8x16S | Op.I16x8ExtendLowI8x16U | Op.I16x8ExtendHighI8x16U
  | Op.I32x4ExtAddPairwiseI16x8S | Op.I32x4ExtAddPairwiseI16x8U | Op.I32x4Abs | Op.I32x4Neg
  | Op.I32x4ExtendLowI16x8S | Op.I32x4ExtendHighI16x8S | Op.I32x4ExtendLowI16x8U
  | Op.I32x4ExtendHighI16x8U | Op.I64x2Abs | Op.I64x2Neg | Op.I64x2ExtendLowI32x4S
  | Op.I64x2ExtendHighI32x4S | Op.I64x2ExtendLowI32x4U | Op.I64x2ExtendHighI32x4U | Op.F32x4Ceil
  | Op.F32x4Floor | Op.F32x4Trunc | Op.F32x4Nearest | Op.F32x4Abs | Op.F32x4Neg | Op.F32x4Sqrt
  | Op.F64x2Ceil | Op.F64x2Floor | Op.F64x2Trunc | Op.F64x2Nearest | Op.F64x2Abs | Op.F64x2Neg
  | Op.F64x2Sqrt | Op.I32x4TruncSatF32x4S | Op.I32x4TruncSatF32x4U | Op.F32x4ConvertI32x4S
  | Op.F32x4ConvertI32x4U | Op.I32x4TruncSatF64x2SZero | Op.I32x4TruncSatF64x2UZero
  | Op.F64x2ConvertLowI32x4S | Op.F64x2ConvertLowI32x4U | Op.F32x4DemoteF64x2Zero
  | Op.F64x2PromoteLowF32x4 => Fixed F_unary
  | Op.V128Bitselect => Fixed F_ternary
  | Op.V128AnyTrue | Op.I8x16AllTrue | Op.I8x16Bitmask | Op.I16x8AllTrue | Op.I16x8Bitmask
  | Op.I32x4AllTrue | Op.I32x4Bitmask | Op.I64x2AllTrue | Op.I64x2Bitmask => Fixed F_test
  | Op.I8x16Shl | Op.I8x16ShrS | Op.I8x16ShrU | Op.I16x8Shl | Op.I16x8ShrS | Op.I16x8ShrU
  | Op.I32x4Shl | Op.I32x4ShrS | Op.I32x4ShrU | Op.I64x2Shl | Op.I64x2ShrS | Op.I64x2ShrU =>
      Fixed F_shift
  end.

Definition relaxed_simd_annotation (o : Op.relaxed_simd_op) : annotation :=
  match o with
  | Op.I8x16RelaxedSwizzle | Op.F32x4RelaxedMin | Op.F32x4RelaxedMax | Op.F64x2RelaxedMin
  | Op.F64x2RelaxedMax | Op.I16x8RelaxedQ15mulrS | Op.I16x8RelaxedDotI8x16I7x16S => Fixed F_binary
  | Op.I32x4RelaxedTruncF32x4S | Op.I32x4RelaxedTruncF32x4U | Op.I32x4RelaxedTruncF64x2SZero
  | Op.I32x4RelaxedTruncF64x2UZero => Fixed F_unary
  | Op.F32x4RelaxedMadd | Op.F32x4RelaxedNmadd | Op.F64x2RelaxedMadd | Op.F64x2RelaxedNmadd
  | Op.I8x16RelaxedLaneselect | Op.I16x8RelaxedLaneselect | Op.I32x4RelaxedLaneselect
  | Op.I64x2RelaxedLaneselect | Op.I32x4RelaxedDotI8x16I7x16AddS => Fixed F_ternary
  end.

Definition exceptions_annotation (o : Op.exceptions_op) : annotation :=
  match o with
  | Op.TryTable try_table => Arity [T_cat (C_try_table try_table)] [T_swap (C_try_table try_table)]
  | Op.Throw tag_index => Arity [T_cat (C_tag tag_index)] [T_lit 0]
  | Op.ThrowRef => Arity [T_lit 1] [T_lit 0]
  end.

Definition legacy_exceptions_annotation (o : Op.legacy_exceptions_op) : annotation :=
  match o with
  | Op.Try blockty => Arity [T_cat (C_block blockty)] [T_swap (C_block blockty)]
  | Op.Catch tag_index => Arity [T_swap C_end] [T_swap (C_tag tag_index)]
  | Op.Rethrow _ => Arity [T_lit 0] [T_lit 0]
  | Op.Delegate _ => Arity [T_swap C_end] [T_cat C_end]
  | Op.CatchAll => Arity [T_swap C_end] [T_lit 0]
  end.

Definition shared_everything_threads_annotation (o : Op.shared_everything_threads_op) : annotation :=
  match o with
  | Op.GlobalAtomicGet _ _ => Arity [T_lit 0] [T_lit 1]
  | Op.GlobalAtomicSet _ _ => Arity [T_lit 1] [T_lit 0]
  | Op.GlobalAtomicRmwAdd _ _ | Op.GlobalAtomicRmwSub _ _ | Op.GlobalAtomicRmwAnd _ _
  | Op.GlobalAtomicRmwOr _ _ | Op.GlobalAtomicRmwXor _ _ => Fixed F_unary
  | Op.GlobalAtomicRmwXchg _ _ | Op.TableAtomicGet _ _ | Op.StructAtomicGet _ _ _
  | Op.StructAtomicGetS _ _ _ | Op.StructAtomicGetU _ _ _ | Op.RefI31Shared => Arity [T_lit 1] [T_lit 1]
  | Op.GlobalAtomicRmwCmpxchg _ _ | Op.TableAtomicRmwXchg _ _ | Op.StructAtomicRmwXchg _ _ _
  | Op.ArrayAtomicGet _ _ | Op.ArrayAtomicGetS _ _ | Op.ArrayAtomicGetU _ _ => Arity [T_lit 2] [T_lit 1]
  | Op.TableAtomicSet _ _ | Op.StructAtomicSet _ _ _ => Arity [T_lit 2] [T_lit 0]
  | Op.TableAtomicRmwCmpxchg _ _ | Op.StructAtomicRmwCmpxchg _ _ _ | Op.ArrayAtomicRmwXchg _ _ =>
      Arity [T_lit 3] [T_lit 1]
  | Op.StructAtomicRmwAdd _ _ _ | Op.StructAtomicRmwSub _ _ _ | Op.StructAtomicRmwAnd _ _ _
  | Op.StructAtomicRmwOr _ _ _ | Op.StructAtomicRmwXor _ _ _ => Fixed F_atomic_rmw
  | Op.ArrayAtomicSet _ _ => Arity [T_lit 3] [T_lit 0]
  | Op.ArrayAtomicRmwAdd _ _ | Op.ArrayAtomicRmwSub _ _ | Op.ArrayAtomicRmwAnd _ _
  | Op.ArrayAtomicRmwOr _ _ | Op.ArrayAtomicRmwXor _ _ => Fixed F_atomic_rmw_array
  | Op.ArrayAtomicRmwCmpxchg _ _ => Arity [T_lit 4] [T_lit 1]
  end.

Definition function_references_annotation (o : Op.function_references_op) : annotation :=
  match o with
  | Op.CallRef type_index => Arity [T_lit 1; T_cat (C_type type_index)] [T_cat (C_type type_index)]
  | Op.ReturnCallRef type_index => Arity [T_lit 1; T_cat (C_type type_index)] [T_lit 0]
  | Op.RefAsNonNull => Arity [T_lit 1] [T_lit 1]
  | Op.BrOnNull relative_depth =>
      Arity [T_lit 1; T_cat (C_br relative_depth)] [T_lit 1; T_cat (C_br relative_depth)]
  | Op.BrOnNonNull relative_depth =>
      Arity [T_cat (C_br relative_depth)] [T_cat (C_br relative_depth); T_lit (-1)]
  end.

Definition stack_switching_annotation (o : Op.stack_switching_op) : annotation :=
  match o with
  | Op.ContNew _ => Arity [T_lit 1] [T_lit 1]
  | Op.ContBind argument_index result_index =>
      Arity [T_cat (C_type_diff argument_index result_index); T_lit 1] [T_lit 1]
  | Op.Suspend tag_index => Arity [T_cat (C_tag tag_index)] [T_cat (C_tag tag_index)]
  | Op.Resume cont_type_index _ =>
      Arity [T_lit 1; T_cat (C_type cont_type_index)] [T_cat (C_type cont_type_index)]
  | Op.ResumeThrow cont_type_index tag_index _ =>
      Arity [T_lit 1; T_cat (C_tag tag_index)] [T_cat (C_type cont_type_index)]
  | Op.Switch cont_type_index _ =>
      Arity [T_cat (C_type cont_type_index)] [T_swap (C_switch cont_type_index)]
  end.

Definition wide_arithmetic_annotation (o : Op.wide_arithmetic_op) : annotation :=
  match o with
  | Op.I64Add128 | Op.I64Sub128 => Arity [T_lit 4] [T_lit 2]
  | Op.I64MulWideS | Op.I64MulWideU => Arity [T_lit 2] [T_lit 2]
  end.

Definition operator_annotation (o : Op.Operator) : annotation :=
  match o with
  | Op.Mvp o => mvp_annotation o
  | Op.SignExtension o => sign_extension_annotation o
  | Op.Gc o => gc_annotation o
  | Op.SaturatingFloatToInt o => saturating_float_to_int_annotation o
  | Op.BulkMemory o => bulk_memory_annotation o
  | Op.ReferenceTypes o => reference_types_annotation o
  | Op.TailCall o => tail_call_annotation o
  | Op.MemoryControl o => memory_control_annotation o
  | Op.Threads o => threads_annotation o
  | Op.Simd o => simd_annotation o
  | Op.RelaxedSimd o => relaxed_simd_annotation o
  | Op.Exceptions o => exceptions_annotation o
  | Op.LegacyExceptions o => legacy_exceptions_annotation o
  | Op.SharedEverythingThreads o => shared_everything_threads_annotation o
  | Op.FunctionReferences o => function_references_annotation o
  | Op.StackSwitching o => stack_switching_annotation o
  | Op.WideArithmetic o => wide_arithmetic_annotation o
  end.

Definition operator_arity {M : ModuleArity} (o : Op.Operator) : option (Z * Z) :=
  annotation_arity (operator_annotation o).

(** ** The validator *)

Section validator_arity.
Context {R : WasmModuleResources}.

(** [self.0.jump(depth).ok()]. *)
Definition validator_label_block (v : OperatorValidator) (depth : Z) : option (BlockType * FrameKind) :=
  match control v !! Z.to_nat depth with
  | Some frame => Some (frame_block_type frame, frame_kind frame)
  | None => None
  end.

Definition validator_sub_type_of_ref_type (rt : RefType) : option SubType :=
  match rt_type_index rt with
  | Some i => id ← packed_as_core_type_id i; sub_type_at_id id
  | None => None
  end.

(** Where the module panics there is no arity here. *)
Definition validator_arity (v : OperatorValidator) : ModuleArity := {|
  arity_sub_type_at at_ := sub_type_at at_ ≫= id;
  tag_type_arity at_ := func_arity <$> (tag_at at_ ≫= id);
  arity_type_index_of_function := type_index_of_function;
  arity_func_type_of_cont_type := func_type_of_cont_type;
  sub_type_of_ref_type := validator_sub_type_of_ref_type;
  arity_control_stack_height := wrap 32 (Z.of_nat (length (control v)));
  label_block := validator_label_block v;
|}.
End validator_arity.

(** * Validation of a function body: [crates/wasmparser/src/validator/func.rs].

    The debug build's comparison with [operator_arity] is not part of
    [FuncValidator_validate]; [Arity] models what it computes. *)

(** [resources] is the class, and the allocations are left out. *)
Record FuncToValidate := mkFuncToValidate {
  ftv_index : Z;
  ftv_ty : Z;
  ftv_features : WasmFeatures;
}.

Record FuncValidator := mkFuncValidator { validator : OperatorValidator; fv_index : Z }.

Section func.
Context {R : WasmModuleResources}.

Definition into_validator (f : FuncToValidate) : result FuncValidator :=
  match new_func (ftv_ty f) 0 (ftv_features f) with
  | Ok v => Ok (mkFuncValidator v (ftv_index f))
  | Err _ | Panic => Panic
  end.

(** The loop over [n] groups of locals. *)
Fixpoint read_local_groups (n : nat) (r : BinaryReader) (v : OperatorValidator)
  : result () * BinaryReader * OperatorValidator :=
  match n with
  | O => (Ok tt, r, v)
  | S n' =>
      let offset := original_position r in
      match (cnt ← read (A := Z); ty ← read (A := ValType); mret (cnt, ty)) r with
      | (Ok (cnt, ty), r) =>
          match define_locals offset cnt ty v with
          | (Ok _, v) => read_local_groups n' r v
          | (Err e, v) => (Err e, r, v)
          | (Panic, v) => (Panic, r, v)
          end
      | (Err e, r) => (Err e, r, v)
      | (Panic, r) => (Panic, r, v)
      end
  end.

Definition read_locals (r : BinaryReader) (v : OperatorValidator)
  : result () * BinaryReader * OperatorValidator :=
  match read_var_u32 r with
  | (Ok n, r) => read_local_groups (Z.to_nat n) r v
  | (Err e, r) => (Err e, r, v)
  | (Panic, r) => (Panic, r, v)
  end.

(** [reader.visit_operator(&mut self.visitor(reader.original_position()))??]. *)
Definition validate_step (r : BinaryReader) (v : OperatorValidator)
  : result () * BinaryReader * OperatorValidator :=
  match visit_operator true (validate_operator (original_position r)) r with
  | (Ok visited, r) => let (x, v) := visited v in (x, r, v)
  | (Err e, r) => (Err e, r, v)
  | (Panic, r) => (Panic, r, v)
  end.

(** [None] when [fuel] operators are not enough. *)
Fixpoint validate_operators (fuel : nat) (r : BinaryReader) (v : OperatorValidator)
  : option (result () * BinaryReader * OperatorValidator) :=
  if eof r then Some (Ok tt, r, v)
  else match fuel with
  | O => None
  | S fuel' =>
      match validate_step r v with
      | (Ok _, r, v) => validate_operators fuel' r v
      | (Err e, r, v) => Some (Err e, r, v)
      | (Panic, r, v) => Some (Panic, r, v)
      end
  end.

Definition with_features (f : WasmFeatures) (r : BinaryReader) : BinaryReader :=
  mkReader (buffer r) (position r) (original_offset r) f.

Definition FuncValidator_validate (fuel : nat) (body : FunctionBody) (v : OperatorValidator)
  : option (result () * OperatorValidator) :=
  match read_locals (body_reader body) v with
  | (Ok _, r, v) =>
      match validate_operators fuel (with_features (ov_features v) r) v with
      | Some (Ok _, r, v) => Some (finish (original_position r) v)
      | Some (Err e, r, v) => Some (Err e, v)
      | Some (Panic, r, v) => Some (Panic, v)
      | None => None
      end
  | (Err e, _, v) => Some (Err e, v)
  | (Panic, _, v) => Some (Panic, v)
  end.
End func.
