(* ===== verification/IndexMap.v ===== *)
(** Maps that keep the order of insertion, as used when hash collections are not
    available: [crates/wasmparser/src/collections/index_map/detail.rs] and the
    set built on it, [crates/wasmparser/src/collections/index_set.rs].

    A key is compared through its borrowed form, so two keys can be equal for the
    map without being the same; the b-tree from keys to slots keeps the key that
    was inserted first.  Mutable references to values are the indices of their
    slots.  [None] is a panic: an index out of range or an [expect]. *)

From stdpp Require Import prelude gmap list.
From S2P Require Import Prelude.

(** [K: Borrow<Q>], with the order of [Q] known by its equality. *)
Class Borrow (K Q : Type) := borrow : K -> Q.

(** ** The map *)

Record Slot (K V : Type) := Slot_new { slot_key : K; slot_value : V }.
Arguments Slot_new {K V}.
Arguments slot_key {K V}.
Arguments slot_value {K V}.

Definition as_pair {K V} (s : Slot K V) : K * V := (slot_key s, slot_value s).

Record IndexMap (K Q V : Type) `{Countable Q} := mkIndexMap {
  key2slot : gmap Q (K * nat);
  slots : list (Slot K V);
}.
Arguments mkIndexMap {K Q V _ _}.
Arguments key2slot {K Q V _ _}.
Arguments slots {K Q V _ _}.

(** [Vec::swap_remove]: the last element takes the place of the removed one. *)
Definition vec_swap_remove {A} (index : nat) (l : list A) : option (A * list A) :=
  removed ← l !! index;
  last ← last l;
  Some (removed, take (length l - 1) (<[index := last]> l)).

Section map.
Context {K Q V : Type} `{Countable Q} {B : Borrow K Q}.
Implicit Types (m : IndexMap K Q V) (key : K) (q : Q) (value : V) (index : nat).

Definition im_new : IndexMap K Q V := mkIndexMap ∅ [].

Definition im_len m : nat := length (slots m).

Definition im_is_empty m : bool := (im_len m =? 0)%nat.

Definition im_contains_key q m : bool := bool_decide (is_Some (key2slot m !! q)).

(** The slot is replaced with its key; the key of the tree stays. *)
Definition im_insert_full key value m : option ((nat * option V) * IndexMap K Q V) :=
  match key2slot m !! borrow key with
  | None =>
      let index := length (slots m) in
      Some ((index, None), mkIndexMap (<[borrow key := (key, index)]> (key2slot m)) (slots m ++ [Slot_new key value]))
  | Some (_, index) =>
      old_slot ← slots m !! index;
      Some ((index, Some (slot_value old_slot)), mkIndexMap (key2slot m) (<[index := Slot_new key value]> (slots m)))
  end.

Definition im_insert key value m : option (option V * IndexMap K Q V) :=
  '((_, old), m) ← im_insert_full key value m;
  Some (old, m).

Definition im_swap_remove_full q m : option (option (nat * K * V) * IndexMap K Q V) :=
  match key2slot m !! q with
  | None => Some (None, m)
  | Some (_, index) =>
      let keys := delete q (key2slot m) in
      '(removed, slots) ← vec_swap_remove index (slots m);
      keys ←
        if (index =? length slots)%nat then Some keys
        else
          swapped ← slots !! index;
          '(k, _) ← keys !! borrow (slot_key swapped);
          Some (<[borrow (slot_key swapped) := (k, index)]> keys);
      Some (Some (index, slot_key removed, slot_value removed), mkIndexMap keys slots)
  end.

Definition im_swap_remove q m : option (option V * IndexMap K Q V) :=
  '(r, m) ← im_swap_remove_full q m;
  Some (option_map (fun '(_index, _key, value) => value) r, m).

Definition im_swap_remove_entry q m : option (option (K * V) * IndexMap K Q V) :=
  '(r, m) ← im_swap_remove_full q m;
  Some (option_map (fun '(_index, key, value) => (key, value)) r, m).

(** [self.slots[index].value], read and written. *)
Definition slot_at index m : option V := slot_value <$> slots m !! index.

Definition slot_update (f : V -> V) index m : option (IndexMap K Q V) :=
  s ← slots m !! index;
  Some (mkIndexMap (key2slot m) (<[index := Slot_new (slot_key s) (f (slot_value s))]> (slots m))).

(** The outer option is the panic of the index. *)
Definition im_get q m : option (option V) :=
  match key2slot m !! q with
  | None => Some None
  | Some (_, index) => v ← slot_at index m; Some (Some v)
  end.

Definition im_get_mut q m : option (option nat) :=
  match key2slot m !! q with
  | None => Some None
  | Some (_, index) => _ ← slot_at index m; Some (Some index)
  end.

Definition im_get_key_value q m : option (option (K * V)) :=
  match key2slot m !! q with
  | None => Some None
  | Some (key, index) => v ← slot_at index m; Some (Some (key, v))
  end.

Definition im_get_full q m : option (option (nat * K * V)) :=
  match key2slot m !! q with
  | None => Some None
  | Some (key, index) => v ← slot_at index m; Some (Some (index, key, v))
  end.

Definition im_get_index_of q m : option nat := snd <$> key2slot m !! q.

Definition im_get_index index m : option (K * V) := as_pair <$> slots m !! index.

(** The key, and the reference to the value. *)
Definition im_get_index_mut index m : option (K * nat) := (fun s => (slot_key s, index)) <$> slots m !! index.

(** [map[key]] and [map[index]]. *)
Definition im_index_key q m : option V := v ← im_get q m; v.

Definition im_index m index : option V := snd <$> im_get_index index m.

Definition im_clear (_ : IndexMap K Q V) : IndexMap K Q V := mkIndexMap ∅ [].

Fixpoint im_extend (items : list (K * V)) m : option (IndexMap K Q V) :=
  match items with
  | [] => Some m
  | (k, v) :: items => '(_, m) ← im_insert k v m; im_extend items m
  end.

Definition im_from_iter (items : list (K * V)) : option (IndexMap K Q V) := im_extend items im_new.

(** *** Entries *)

Inductive Entry :=
| Vacant (key : K)
| Occupied (key : K) (index : nat).

Definition im_entry key m : Entry :=
  match key2slot m !! borrow key with
  | None => Vacant key
  | Some (k, index) => Occupied k index
  end.

Definition entry_key (e : Entry) : K := match e with Vacant key | Occupied key _ => key end.

(** [VacantEntry::insert]: a reference to the new value. *)
Definition vacant_insert key value m : option (nat * IndexMap K Q V) :=
  let index := length (slots m) in
  let m := mkIndexMap (<[borrow key := (key, index)]> (key2slot m)) (slots m ++ [Slot_new key value]) in
  _ ← slot_at index m;
  Some (index, m).

(** [OccupiedEntry::into_mut]. *)
Definition occupied_into_mut index m : option nat := _ ← slot_at index m; Some index.

(** [OccupiedEntry::insert]: the key of the entry is that of the tree. *)
Definition occupied_insert key index value m : option (V * IndexMap K Q V) :=
  old_slot ← slots m !! index;
  Some (slot_value old_slot, mkIndexMap (key2slot m) (<[index := Slot_new key value]> (slots m))).

Definition or_insert_with_key (default : K -> V) (e : Entry) m : option (nat * IndexMap K Q V) :=
  match e with
  | Occupied _ index => index ← occupied_into_mut index m; Some (index, m)
  | Vacant key => vacant_insert key (default key) m
  end.

Definition or_insert_with (default : unit -> V) (e : Entry) m : option (nat * IndexMap K Q V) :=
  match e with
  | Occupied _ index => index ← occupied_into_mut index m; Some (index, m)
  | Vacant key => vacant_insert key (default tt) m
  end.

Definition or_insert (default : V) (e : Entry) m : option (nat * IndexMap K Q V) :=
  match e with
  | Occupied _ index => index ← occupied_into_mut index m; Some (index, m)
  | Vacant key => vacant_insert key default m
  end.

Definition and_modify (f : V -> V) (e : Entry) m : option (Entry * IndexMap K Q V) :=
  match e with
  | Occupied key index => m ← slot_update f index m; Some (Occupied key index, m)
  | Vacant key => Some (Vacant key, m)
  end.

(** *** Iterators *)

(** The slots that are left. *)
Definition im_iter m : list (Slot K V) := slots m.

Definition iter_next (it : list (Slot K V)) : option ((K * V) * list (Slot K V)) :=
  match it with
  | [] => None
  | s :: it => Some (as_pair s, it)
  end.

Definition iter_next_back (it : list (Slot K V)) : option ((K * V) * list (Slot K V)) :=
  match last it with
  | None => None
  | Some s => Some (as_pair s, take (length it - 1) it)
  end.

Definition im_keys m : list K := slot_key <$> slots m.

Definition im_values m : list V := slot_value <$> slots m.

(** [iter_mut], with a function applied to each value. *)
Definition im_iter_mut (f : K -> V -> V) m : IndexMap K Q V :=
  mkIndexMap (key2slot m) ((fun s => Slot_new (slot_key s) (f (slot_key s) (slot_value s))) <$> slots m).
End map.

Arguments Entry : clear implicits.

(** ** The set *)

Abbreviation IndexSet T Q := (IndexMap T Q unit).

Section set.
Context {T Q : Type} `{Countable Q} {B : Borrow T Q}.
Implicit Types (s : IndexSet T Q) (value : T) (q : Q).

Definition is_contains q s : bool := im_contains_key q s.

Definition is_get q s : option (option T) := r ← im_get_key_value q s; Some (option_map fst r).

Definition is_get_index_of q s : option (option nat) :=
  r ← im_get_full q s;
  Some (option_map (fun '(index, _, _) => index) r).

Definition is_insert value s : option (bool * IndexSet T Q) :=
  '(old, s) ← im_insert value tt s;
  Some (match old with None => true | Some _ => false end, s).

Definition is_swap_remove q s : option (bool * IndexSet T Q) :=
  '(old, s) ← im_swap_remove q s;
  Some (match old with None => false | Some _ => true end, s).

Definition is_replace value s : option (option T * IndexSet T Q) :=
  '(removed, s) ← im_swap_remove_entry (borrow value) s;
  '(_, s) ← im_insert value tt s;
  Some (option_map fst removed, s).

Definition is_subset s other : bool :=
  (im_len s <=? im_len other)%nat && forallb (fun value => is_contains (borrow value) other) (im_keys s).

Definition is_superset s other : bool := is_subset other s.

Definition is_disjoint s other : bool :=
  if (im_len s <=? im_len other)%nat then forallb (fun value => negb (is_contains (borrow value) other)) (im_keys s)
  else forallb (fun value => negb (is_contains (borrow value) s)) (im_keys other).

Definition is_index index s : option T := fst <$> im_get_index index s.

Definition is_from_iter (values : list T) : option (IndexSet T Q) := im_from_iter ((fun value => (value, tt)) <$> values).
End set.

(** ** What the map promises

    A list of items in their order.  An item has the key that was inserted first
    and the key of the last insertion. *)

Record Item (K V : Type) := mkItem { original : K; current : K; item_value : V }.
Arguments mkItem {K V}.
Arguments original {K V}.
Arguments current {K V}.
Arguments item_value {K V}.

Section spec.
Context {K Q V : Type} `{Countable Q} {B : Borrow K Q}.
Implicit Types (l : list (Item K V)) (key : K) (q : Q) (value : V) (e : Item K V).

(** The item of a key, and its position. *)
Definition find q l : option (nat * Item K V) := list_find (fun e => borrow (original e) = q) l.

Definition spec_insert key value l : (nat * option V) * list (Item K V) :=
  match find (borrow key) l with
  | Some (i, e) => ((i, Some (item_value e)), <[i := mkItem (original e) key value]> l)
  | None => ((length l, None), l ++ [mkItem key key value])
  end.

(** The last item moves to the place of the removed one. *)
Definition swap_out (i : nat) l : list (Item K V) :=
  take i l ++ match rev (drop (S i) l) with [] => [] | e :: r => e :: rev r end.

Definition spec_remove q l : option (nat * K * V) * list (Item K V) :=
  match find q l with
  | Some (i, e) => (Some (i, current e, item_value e), swap_out i l)
  | None => (None, l)
  end.

Definition set_value (f : V -> V) e : Item K V := mkItem (original e) (current e) (f (item_value e)).

(** The operations that change the map or look at it. *)
Inductive op :=
| Insert (key : K) (value : V)
| Remove (q : Q)
| Update (q : Q) (f : V -> V)
| UpdateAt (i : nat) (f : V -> V)
| EntryOrInsert (key : K) (value : V)
| EntryModify (key : K) (f : V -> V)
| UpdateAll (f : K -> V -> V)
| Clear
| GetFull (q : Q)
| GetAt (i : nat)
| Len
| All.

Inductive output :=
| OInserted (index : nat) (old : option V)
| ORemoved (r : option (nat * K * V))
| OFound (index : option nat)
| OFull (r : option (nat * K * V))
| OPair (r : option (K * V))
| OLen (n : nat)
| OAll (l : list (K * V))
| ODone.

(** The operations of the code. *)
Definition step (o : op) (m : IndexMap K Q V) : option (output * IndexMap K Q V) :=
  match o with
  | Insert key value => '((i, old), m) ← im_insert_full key value m; Some (OInserted i old, m)
  | Remove q => '(r, m) ← im_swap_remove_full q m; Some (ORemoved r, m)
  | Update q f =>
      r ← im_get_mut q m;
      match r with
      | Some i => m ← slot_update f i m; Some (OFound (Some i), m)
      | None => Some (OFound None, m)
      end
  | UpdateAt i f =>
      match im_get_index_mut i m with
      | Some (_, i) => m ← slot_update f i m; Some (OFound (Some i), m)
      | None => Some (OFound None, m)
      end
  | EntryOrInsert key value => '(i, m) ← or_insert value (im_entry key m) m; Some (OFound (Some i), m)
  | EntryModify key f => '(_, m) ← and_modify f (im_entry key m) m; Some (ODone, m)
  | UpdateAll f => Some (ODone, im_iter_mut f m)
  | Clear => Some (ODone, im_clear m)
  | GetFull q => r ← im_get_full q m; Some (OFull r, m)
  | GetAt i => Some (OPair (im_get_index i m), m)
  | Len => Some (OLen (im_len m), m)
  | All => Some (OAll (as_pair <$> im_iter m), m)
  end.

Fixpoint run_ops (os : list op) (m : IndexMap K Q V) : option (list output * IndexMap K Q V) :=
  match os with
  | [] => Some ([], m)
  | o :: os => '(x, m) ← step o m; '(xs, m) ← run_ops os m; Some (x :: xs, m)
  end.

(** The operations of the list. *)
Definition spec_step (o : op) l : output * list (Item K V) :=
  match o with
  | Insert key value => let '((i, old), l) := spec_insert key value l in (OInserted i old, l)
  | Remove q => let '(r, l) := spec_remove q l in (ORemoved r, l)
  | Update q f =>
      match find q l with
      | Some (i, _) => (OFound (Some i), alter (set_value f) i l)
      | None => (OFound None, l)
      end
  | UpdateAt i f => (OFound (if decide (i < length l)%nat then Some i else None), alter (set_value f) i l)
  | EntryOrInsert key value =>
      match find (borrow key) l with
      | Some (i, _) => (OFound (Some i), l)
      | None => (OFound (Some (length l)), l ++ [mkItem key key value])
      end
  | EntryModify key f =>
      (ODone, match find (borrow key) l with Some (i, _) => alter (set_value f) i l | None => l end)
  | UpdateAll f => (ODone, (fun e => set_value (f (current e)) e) <$> l)
  | Clear => (ODone, [])
  | GetFull q => (OFull ((fun '(i, e) => (i, original e, item_value e)) <$> find q l), l)
  | GetAt i => (OPair ((fun e => (current e, item_value e)) <$> l !! i), l)
  | Len => (OLen (length l), l)
  | All => (OAll ((fun e => (current e, item_value e)) <$> l), l)
  end.

Fixpoint spec_ops (os : list op) l : list output * list (Item K V) :=
  match os with
  | [] => ([], l)
  | o :: os => let '(x, l) := spec_step o l in let '(xs, l) := spec_ops os l in (x :: xs, l)
  end.

(** ** The map keeps its promise *)

Definition slot_of e : Slot K V := Slot_new (current e) (item_value e).

(** The list that a map stands for: the slots are its items, and the tree finds
    each key at its position. *)
Record represents (m : IndexMap K Q V) l : Prop := {
  rep_slots : slots m = slot_of <$> l;
  rep_keys : forall q k i, key2slot m !! q = Some (k, i) <-> exists e, l !! i = Some e /\ original e = k /\ borrow k = q;
  rep_current : forall e, e ∈ l -> borrow (current e) = borrow (original e);
}.

Lemma rep_distinct m l i j e e' :
  represents m l -> l !! i = Some e -> l !! j = Some e' -> borrow (original e) = borrow (original e') -> i = j.
Proof.
  intros R Hi Hj E.
  assert (H1 : key2slot m !! borrow (original e) = Some (original e, i)) by (apply R; by exists e).
  assert (H2 : key2slot m !! borrow (original e') = Some (original e', j)) by (apply R; by exists e').
  rewrite E in H1. congruence.
Qed.

Lemma rep_find m l q : represents m l -> key2slot m !! q = (fun '(i, e) => (original e, i)) <$> find q l.
Proof.
  intros R. unfold find. destruct (list_find _ l) as [[i e]|] eqn:E; cbn.
  - apply list_find_Some in E as (Hi & Hq & _). apply R. by exists e.
  - apply list_find_None in E. destruct (key2slot m !! q) as [[k i]|] eqn:Hk; [|done].
    apply R in Hk as (e & He & Ek & Eq). rewrite Forall_forall in E. exfalso. apply (E e); [by eapply list_elem_of_lookup_2|].
    by rewrite Ek.
Qed.

Lemma find_lookup q l i e : find q l = Some (i, e) -> l !! i = Some e /\ borrow (original e) = q.
Proof. intros (Hi & Hq & _)%list_find_Some. done. Qed.

Lemma rep_slot m l i : represents m l -> slots m !! i = slot_of <$> l !! i.
Proof. intros R. by rewrite (rep_slots _ _ R), list_lookup_fmap. Qed.

Lemma rep_slot_at m l i : represents m l -> slot_at i m = item_value <$> l !! i.
Proof. intros R. unfold slot_at. rewrite (rep_slot m l) by done. by destruct (l !! i). Qed.

Lemma rep_length m l : represents m l -> length (slots m) = length l.
Proof. intros R. by rewrite (rep_slots _ _ R), length_fmap. Qed.

(** Replacing an item by one with the same first key. *)
Lemma rep_replace m l i e e' :
  represents m l -> l !! i = Some e -> original e' = original e -> borrow (current e') = borrow (original e') ->
  represents (mkIndexMap (key2slot m) (<[i := slot_of e']> (slots m))) (<[i := e']> l).
Proof.
  intros R Hi Ho Hc. pose proof (lookup_lt_Some _ _ _ Hi). split; cbn.
  - by rewrite list_fmap_insert, (rep_slots _ _ R).
  - intros q k j. rewrite (rep_keys _ _ R). destruct (decide (i = j)) as [<-|Hne].
    + rewrite list_lookup_insert_eq by done. split.
      * intros (x & Hx & <- & <-). rewrite Hi in Hx. injection Hx as <-. by exists e'.
      * intros (x & [= <-] & <- & <-). exists e. by rewrite Ho.
    + by rewrite list_lookup_insert_ne.
  - intros x Hx. apply list_elem_of_lookup in Hx as [j Hj]. destruct (decide (i = j)) as [<-|Hne].
    + rewrite list_lookup_insert_eq in Hj by done. by injection Hj as <-.
    + rewrite list_lookup_insert_ne in Hj by done. apply R. by eapply list_elem_of_lookup_2.
Qed.

Lemma rep_alter m l i e f :
  represents m l -> l !! i = Some e ->
  exists m', slot_update f i m = Some m' /\ represents m' (alter (set_value f) i l).
Proof.
  intros R Hi. unfold slot_update. rewrite (rep_slot m l i R), Hi. cbn. eexists. split; [done|].
  assert (Hc : borrow (current e) = borrow (original e)) by (apply R; by eapply list_elem_of_lookup_2).
  replace (alter (set_value f) i l) with (<[i := set_value f e]> l).
  - by apply (rep_replace m l i e (set_value f e)).
  - apply list_eq. intros j. destruct (decide (i = j)) as [<-|Hne].
    + rewrite list_lookup_insert_eq by (by eapply lookup_lt_Some). by rewrite list_lookup_alter_eq, Hi.
    + by rewrite list_lookup_insert_ne, list_lookup_alter_ne.
Qed.

Lemma rep_push m l key value :
  represents m l -> find (borrow key) l = None ->
  represents (mkIndexMap (<[borrow key := (key, length l)]> (key2slot m)) (slots m ++ [Slot_new key value]))
    (l ++ [mkItem key key value]).
Proof.
  intros R Hf. split; cbn.
  - by rewrite fmap_app, (rep_slots _ _ R).
  - intros q k i. destruct (decide (borrow key = q)) as [<-|Hq].
    + rewrite lookup_insert_eq. split.
      * intros [= <- <-]. exists (mkItem key key value). split; [|done]. by apply lookup_snoc_Some; right.
      * intros (e & [He|[Hi He]]%lookup_app_Some & <- & Eq).
        { assert (key2slot m !! borrow key = Some (original e, i)) as E by (apply R; by exists e).
          rewrite (rep_find m l _ R), Hf in E. done. }
        destruct (i - length l)%nat as [|n] eqn:En; [|discriminate He]. injection He as <-. cbn. repeat f_equal. lia.
    + rewrite lookup_insert_ne by done. rewrite (rep_keys _ _ R). split.
      * intros (e & He & Hk). exists e. split; [|done]. by apply lookup_app_l_Some.
      * intros (e & [He|[Hi He]]%lookup_app_Some & <- & Eq); [by exists e|].
        destruct (i - length l)%nat as [|n] eqn:En; [|discriminate He]. injection He as <-. cbn in Eq. done.
  - intros e [He| ->%list_elem_of_singleton]%elem_of_app; [by apply R|done].
Qed.

Lemma rep_empty : represents im_new [].
Proof. split; cbn; [done|..|by intros e []%elem_of_nil]. intros q k i. rewrite lookup_empty. split; [done|]. by intros (e & ? & _). Qed.

Lemma rep_iter_mut f m l : represents m l -> represents (im_iter_mut f m) ((fun e => set_value (f (current e)) e) <$> l).
Proof.
  intros R. split; cbn.
  - by rewrite (rep_slots _ _ R), <- !list_fmap_compose.
  - intros q k i. rewrite (rep_keys _ _ R), list_lookup_fmap. destruct (l !! i) as [e|]; cbn; [|done].
    split; intros (x & [= <-] & Hx); (eexists; split; [reflexivity|exact Hx]).
  - intros e (x & -> & Hx)%list_elem_of_fmap. exact (rep_current _ _ R x Hx).
Qed.

(** *** Removal *)

Lemma swap_out_insert i l e z :
  l !! i = Some e -> last l = Some z -> swap_out i l = take (length l - 1) (<[i := z]> l).
Proof.
  intros Hi Hz. apply list_elem_of_split_length in Hi as (t & d & -> & ->). unfold swap_out.
  rewrite take_app_length, drop_app_ge, Nat.sub_succ_l, Nat.sub_diag, insert_app_r_alt, Nat.sub_diag, length_app by lia.
  cbn [drop insert list_insert length]. destruct d as [|x d _] using rev_ind.
  - rewrite last_snoc in Hz. injection Hz as ->. cbn. rewrite app_nil_r, take_app_le, take_ge by lia. done.
  - rewrite drop_0, rev_app_distr. cbn. rewrite app_comm_cons, app_assoc, last_snoc in Hz. injection Hz as ->.
    rewrite rev_involutive, length_app. cbn.
    rewrite app_comm_cons, app_assoc, take_app_le by (rewrite length_app; cbn; lia).
    rewrite take_ge; [done|]. rewrite length_app. cbn. lia.
Qed.

Lemma swap_out_lookup i j l e z :
  l !! i = Some e -> last l = Some z ->
  swap_out i l !! j = if decide (j < length l - 1)%nat then if decide (i = j) then Some z else l !! j else None.
Proof.
  intros Hi Hz. rewrite (swap_out_insert i l e z Hi Hz). apply lookup_lt_Some in Hi.
  case_decide; [|by rewrite lookup_take_ge by lia]. rewrite lookup_take_lt by lia.
  case_decide as E; [subst; by rewrite list_lookup_insert_eq|by rewrite list_lookup_insert_ne].
Qed.

Lemma vec_swap_remove_slots m l i e :
  represents m l -> l !! i = Some e -> vec_swap_remove i (slots m) = Some (slot_of e, slot_of <$> swap_out i l).
Proof.
  intros R Hi. unfold vec_swap_remove. rewrite (rep_slot m l i R), Hi. cbn. rewrite (rep_slots _ _ R), fmap_last.
  destruct (last l) as [z|] eqn:Hz; [|by apply last_None in Hz as ->].
  cbn. by rewrite (swap_out_insert i l e z Hi Hz), length_fmap, fmap_take, list_fmap_insert.
Qed.

(** The keys after the removal of the item at [i]: each item of the new list is found. *)
Lemma rep_swap_out m l i e z keys :
  represents m l -> l !! i = Some e -> last l = Some z ->
  (forall q, keys !! q = if decide (q = borrow (original e)) then None
                         else if decide (q = borrow (original z)) then Some (original z, i) else key2slot m !! q) ->
  represents (mkIndexMap keys (slot_of <$> swap_out i l)) (swap_out i l).
Proof.
  intros R Hi Hz Hk. pose proof Hz as Hzl. rewrite last_lookup in Hzl. pose proof (lookup_lt_Some _ _ _ Hi) as Hlt.
  split; cbn; [done|..].
  - intros q k j. rewrite Hk. setoid_rewrite (swap_out_lookup i j l e z Hi Hz). case_decide as Eq.
    { subst q. split; [done|]. intros (x & Hx & <- & Eb). repeat case_decide; simplify_eq.
      - pose proof (rep_distinct _ _ _ _ _ _ R Hzl Hi Eb). lia.
      - by pose proof (rep_distinct _ _ _ _ _ _ R Hi Hx (eq_sym Eb)). }
    case_decide as Ez.
    { subst q. split.
      - intros [= <- <-]. exists z. split; [|done]. rewrite !decide_True; [done..|].
        destruct (decide (i = pred (length l))) as [->|]; [|lia]. congruence.
      - intros (x & Hx & <- & Eb). repeat case_decide; simplify_eq; [done|].
        pose proof (rep_distinct _ _ _ _ _ _ R Hx Hzl Eb). lia. }
    rewrite (rep_keys _ _ R). split.
    + intros (x & Hx & <- & Eb). exists x. split; [|done].
      rewrite decide_True, decide_False; [done|by intros <-; simplify_eq|].
      apply lookup_lt_Some in Hx as Hj. destruct (decide (j = pred (length l))) as [->|]; [|lia]. congruence.
    + intros (x & Hx & <- & Eb). repeat case_decide; simplify_eq. by exists x.
  - intros x [j Hj]%list_elem_of_lookup. rewrite (swap_out_lookup i j l e z Hi Hz) in Hj.
    repeat case_decide; simplify_eq; apply R; by eapply list_elem_of_lookup_2.
Qed.

Lemma insert_full_refines key value m l :
  represents m l -> exists m', im_insert_full key value m = Some ((spec_insert key value l).1, m')
    /\ represents m' (spec_insert key value l).2.
Proof.
  intros R. unfold im_insert_full, spec_insert. rewrite (rep_find m l _ R).
  destruct (find (borrow key) l) as [[i e]|] eqn:Hf; cbn.
  - apply find_lookup in Hf as [Hi Hb]. rewrite (rep_slot m l i R), Hi. cbn. eexists. split; [done|].
    by apply (rep_replace m l i e (mkItem (original e) key value)).
  - rewrite (rep_length m l R). eexists. split; [done|]. by apply rep_push.
Qed.

Lemma swap_remove_refines q m l :
  represents m l -> exists m', im_swap_remove_full q m = Some ((spec_remove q l).1, m')
    /\ represents m' (spec_remove q l).2.
Proof.
  intros R. unfold im_swap_remove_full, spec_remove. rewrite (rep_find m l _ R).
  destruct (find q l) as [[i e]|] eqn:Hf; cbn; [|by eexists]. apply find_lookup in Hf as [Hi <-].
  rewrite (vec_swap_remove_slots m l i e R Hi). cbn. rewrite length_fmap, list_lookup_fmap.
  destruct (last l) as [z|] eqn:Hz; [|by apply last_None in Hz as ->].
  pose proof (swap_out_insert i l e z Hi Hz) as Hso. pose proof (lookup_lt_Some _ _ _ Hi) as Hlt.
  assert (Hlen : length (swap_out i l) = (length l - 1)%nat).
  { rewrite Hso, length_take_le; [done|]. rewrite length_insert. lia. }
  rewrite Hlen. rewrite last_lookup in Hz. destruct (Nat.eqb_spec i (length l - 1)) as [->|Hne]; cbn.
  - eexists. split; [done|]. replace (length l - 1)%nat with (pred (length l)) in * by lia.
    assert (z = e) as -> by congruence. apply (rep_swap_out m l _ e e); [done..|by rewrite last_lookup|].
    intros q. case_decide as E; [by rewrite E, lookup_delete_eq|by rewrite lookup_delete_ne].
  - rewrite <- last_lookup in Hz. rewrite (swap_out_lookup i i l e z Hi Hz), !decide_True by (done || lia). cbn.
    rewrite (rep_current _ _ R z) by (apply list_elem_of_lookup; rewrite last_lookup in Hz; by eexists).
    assert (Hze : borrow (original e) <> borrow (original z)).
    { intros E. rewrite last_lookup in Hz. pose proof (rep_distinct _ _ _ _ _ _ R Hi Hz E). lia. }
    rewrite lookup_delete_ne by done.
    assert (key2slot m !! borrow (original z) = Some (original z, pred (length l))) as ->.
    { apply R. exists z. by rewrite <- last_lookup. }
    cbn. eexists. split; [done|]. apply (rep_swap_out m l i e z); [done..|]. intros q. case_decide as E.
    { subst q. by rewrite lookup_insert_ne, lookup_delete_eq. }
    case_decide as E'; [by rewrite E', lookup_insert_eq|by rewrite lookup_insert_ne, lookup_delete_ne].
Qed.

Lemma step_refines o m l :
  represents m l -> exists m', step o m = Some ((spec_step o l).1, m') /\ represents m' (spec_step o l).2.
Proof.
  intros R. destruct o as [key value|q|q f|i f|key value|key f|f| |q|i| |]; cbn [step spec_step].
  - destruct (insert_full_refines key value m l R) as (m' & -> & R'). destruct (spec_insert key value l) as [[i old] l'].
    by exists m'.
  - destruct (swap_remove_refines q m l R) as (m' & -> & R'). destruct (spec_remove q l) as [r l']. by exists m'.
  - unfold im_get_mut. rewrite (rep_find m l _ R). destruct (find q l) as [[i e]|] eqn:Hf; cbn; [|by exists m].
    apply find_lookup in Hf as [Hi _]. rewrite (rep_slot_at m l i R), Hi. cbn.
    destruct (rep_alter m l i e f R Hi) as (m' & -> & R'). by exists m'.
  - unfold im_get_index_mut. rewrite (rep_slot m l i R). destruct (l !! i) as [e|] eqn:Hi; cbn -[decide].
    + destruct (rep_alter m l i e f R Hi) as (m' & -> & R').
      rewrite decide_True by (by eapply lookup_lt_Some). by exists m'.
    + rewrite decide_False by (by apply lookup_ge_None in Hi; lia). exists m. split; [done|].
      replace (alter (set_value f) i l) with l; [done|]. rewrite (list_alter_ext _ id l l i); [by rewrite list_alter_id|intros x Hx; congruence|done].
  - unfold or_insert, im_entry. rewrite (rep_find m l _ R). destruct (find (borrow key) l) as [[i e]|] eqn:Hf; cbn.
    + apply find_lookup in Hf as [Hi _]. unfold occupied_into_mut. rewrite (rep_slot_at m l i R), Hi. by exists m.
    + unfold vacant_insert, slot_at. cbn. rewrite (rep_length m l R), lookup_app_r, (rep_length m l R), Nat.sub_diag
        by (rewrite (rep_length m l R); lia). cbn. eexists. split; [done|]. by apply rep_push.
  - unfold and_modify, im_entry. rewrite (rep_find m l _ R). destruct (find (borrow key) l) as [[i e]|] eqn:Hf; cbn; [|by exists m].
    apply find_lookup in Hf as [Hi _]. destruct (rep_alter m l i e f R Hi) as (m' & -> & R'). by exists m'.
  - eexists. split; [done|]. by apply rep_iter_mut.
  - eexists. split; [done|]. apply rep_empty.
  - unfold im_get_full. rewrite (rep_find m l _ R). destruct (find q l) as [[i e]|] eqn:Hf; cbn; [|by exists m].
    apply find_lookup in Hf as [Hi _]. rewrite (rep_slot_at m l i R), Hi. by exists m.
  - exists m. unfold im_get_index. rewrite (rep_slot m l i R). by destruct (l !! i).
  - exists m. unfold im_len. by rewrite (rep_length m l R).
  - exists m. unfold im_iter. rewrite (rep_slots _ _ R), <- list_fmap_compose. done.
Qed.
End spec.

Arguments op : clear implicits.
Arguments output : clear implicits.

(** ** Properties *)

(** C26. A map refines the list of its items: any sequence of operations on a new
    map runs without a panic and gives the results of the same operations on the
    list, where an insertion of a new key appends, a removal moves the last item
    into the gap, and the other operations act on the item of the key or of the
    index. *)
Theorem index_map_refines {K Q V : Type} `{Countable Q} {B : Borrow K Q} (os : list (op K Q V)) :
  exists m, run_ops os im_new = Some ((spec_ops os []).1, m) /\ represents m (spec_ops os []).2.
Proof.
  enough (forall m l, represents m l ->
    exists m', run_ops os m = Some ((spec_ops os l).1, m') /\ represents m' (spec_ops os l).2) as Hall.
  { apply Hall, rep_empty. }
  induction os as [|o os IH]; intros m l R; cbn [run_ops spec_ops]; [by exists m|].
  destruct (step_refines o m l R) as (m1 & -> & R1). cbn. destruct (spec_step o l) as [x l1]. cbn in R1.
  destruct (IH m1 l1 R1) as (m2 & -> & R2). destruct (spec_ops os l1) as [xs l2]. by exists m2.
Qed.
