(* ===== verification/TypeList.v ===== *)
(** The types known to a validator, [crates/wasmparser/src/validator/types.rs],
    and the matching of types, [crates/wasmparser/src/readers/core/types/matches.rs].

    Only core types are kept.  A function that can only panic returns an
    [option], one that can also fail a [result].  Lists are indexed from their
    first element. *)

From Stdlib Require Import ZArith Lia String.
From stdpp Require Import prelude.
From S2P Require Import Prelude StateLogic BinaryReader Types Operands CompositeTypes Items.

Local Open Scope Z_scope.

(** ** Equality of types, as derived *)

#[export] Instance StorageType_eq_dec : EqDecision StorageType.
Proof. solve_decision. Defined.
#[export] Instance FieldType_eq_dec : EqDecision FieldType.
Proof. solve_decision. Defined.
#[export] Instance FuncType_eq_dec : EqDecision FuncType.
Proof. solve_decision. Defined.
#[export] Instance ArrayType_eq_dec : EqDecision ArrayType.
Proof. solve_decision. Defined.
#[export] Instance StructType_eq_dec : EqDecision StructType.
Proof. solve_decision. Defined.
#[export] Instance ContType_eq_dec : EqDecision ContType.
Proof. solve_decision. Defined.
#[export] Instance CompositeInnerType_eq_dec : EqDecision CompositeInnerType.
Proof. solve_decision. Defined.
#[export] Instance CompositeType_eq_dec : EqDecision CompositeType.
Proof. solve_decision. Defined.
#[export] Instance SubType_eq_dec : EqDecision SubType.
Proof. solve_decision. Defined.

(** [RecGroup::eq]: offsets, and whether the group is explicit, are ignored. *)
Definition rec_group_eqb (a b : RecGroup) : bool := bool_decide (into_types a = into_types b).

(** ** Lists that can be snapshotted *)

Record Snapshot (T : Type) := mkSnapshot { prior_types : Z; items : list T }.
Arguments mkSnapshot {T}.
Arguments prior_types {T}.
Arguments items {T}.

Record SnapshotList (T : Type) := mkSnapshotList {
  snapshots : list (Snapshot T);
  snapshots_total : Z;
  cur : list T;
}.
Arguments mkSnapshotList {T}.
Arguments snapshots {T}.
Arguments snapshots_total {T}.
Arguments cur {T}.

Section snapshot.
Context {T : Type}.

Definition SnapshotList_default : SnapshotList T := mkSnapshotList [] 0 [].

(** The outer [option] is [None] when [get] panics. *)
Definition snapshot_get (l : SnapshotList T) (index : Z) : option (option T) :=
  if snapshots_total l <=? index then Some (cur l !! Z.to_nat (index - snapshots_total l))
  else
    i ← match binary_search_by_key index (map (fun s => (prior_types s, s)) (snapshots l)) with
        | inl i => Some i
        | inr O => None
        | inr (S i) => Some i
        end;
    snapshot ← snapshots l !! i;
    if index <? prior_types snapshot then None
    else
      x ← items snapshot !! Z.to_nat (index - prior_types snapshot);
      Some (Some x).

Definition snapshot_push (val : T) (l : SnapshotList T) : SnapshotList T :=
  mkSnapshotList (snapshots l) (snapshots_total l) (cur l ++ [val]).

Definition snapshot_len (l : SnapshotList T) : Z := Z.of_nat (length (cur l)) + snapshots_total l.

(** [None]: the [assert!] fails. *)
Definition snapshot_truncate (len : Z) (l : SnapshotList T) : option (SnapshotList T) :=
  if len <? snapshots_total l then None
  else Some (mkSnapshotList (snapshots l) (snapshots_total l)
               (take (Z.to_nat (len - snapshots_total l)) (cur l))).

(** The list that is returned and the list that is left behind. *)
Definition snapshot_commit (l : SnapshotList T) : SnapshotList T * SnapshotList T :=
  let len := Z.of_nat (length (cur l)) in
  let l :=
    if 0 <? len then
      mkSnapshotList (snapshots l ++ [mkSnapshot (snapshots_total l) (cur l)]) (snapshots_total l + len) []
    else l in
  (mkSnapshotList (snapshots l) (snapshots_total l) [], l).

(** [list[index]]. *)
Definition snapshot_index (l : SnapshotList T) (index : Z) : option T := snapshot_get l index ≫= id.
End snapshot.

(** ** Sizes of types *)

Definition TypeInfo := Z.

(** [None]: the [assert!] fails. *)
Definition typeinfo_new (size : Z) (contains_borrow : bool) : option TypeInfo :=
  if size <? Z.shiftl 1 24 then Some (Z.lor size (Z.shiftl (Z.b2z contains_borrow) 31)) else None.

Definition typeinfo_core (size : Z) : option TypeInfo := typeinfo_new size false.

Definition typeinfo_size (i : TypeInfo) : Z := Z.land i 0xffffff.

Definition subtype_info (t : SubType) : option TypeInfo :=
  typeinfo_core
    (1 + match inner (composite_type_of t) with
         | CFunc ty => 1 + wrap 32 (Z.of_nat (length (func_params ty) + length (func_results ty)))
         | CArray _ => 2
         | CStruct ty => 1 + 2 * wrap 32 (Z.of_nat (length (fields ty)))
         | CCont _ => 1
         end).

(** ** The list of types *)

Definition RecGroupId := Z.

(** [core_type_to_depth] is an [IndexMap], which is ordered by insertion;
    [canonical_rec_groups] is a [Map].  Both are association lists whose keys
    are unique. *)
Record TypeList := mkTypeList {
  core_types : SnapshotList SubType;
  core_type_to_rec_group : SnapshotList RecGroupId;
  core_type_to_supertype : SnapshotList (option CoreTypeId);
  core_type_to_depth : option (list (CoreTypeId * Z));
  rec_group_elements : SnapshotList (CoreTypeId * CoreTypeId);
  canonical_rec_groups : option (list (RecGroup * RecGroupId));
}.

(** [TypeAlloc::default]. *)
Definition TypeAlloc_default : TypeList :=
  mkTypeList SnapshotList_default SnapshotList_default SnapshotList_default (Some [])
    SnapshotList_default (Some []).

(** [types[id]]. *)
Definition type_at (types : TypeList) (id : CoreTypeId) : option SubType :=
  snapshot_index (core_types types) id.

Definition rec_group_at (types : TypeList) (id : RecGroupId) : option (CoreTypeId * CoreTypeId) :=
  snapshot_index (rec_group_elements types) id.

Definition rec_group_id_of (types : TypeList) (id : CoreTypeId) : option RecGroupId :=
  snapshot_index (core_type_to_rec_group types) id.

(** The outer [option] is [None] when the identifier is unknown. *)
Definition supertype_of (types : TypeList) (id : CoreTypeId) : option (option CoreTypeId) :=
  snapshot_index (core_type_to_supertype types) id.

(** The [IndexMap] is indexed by a [usize], that is by position. *)
Definition get_subtyping_depth (types : TypeList) (id : CoreTypeId) : option Z :=
  m ← core_type_to_depth types;
  snd <$> m !! Z.to_nat id.

(** [IndexMap::insert]: a key that is there keeps its position. *)
Fixpoint index_map_insert (id : CoreTypeId) (depth : Z) (m : list (CoreTypeId * Z))
  : list (CoreTypeId * Z) :=
  match m with
  | [] => [(id, depth)]
  | (k, d) :: m' => if k =? id then (k, depth) :: m' else (k, d) :: index_map_insert id depth m'
  end.

Definition set_subtyping_depth (id : CoreTypeId) (depth : Z) (types : TypeList) : option TypeList :=
  m ← core_type_to_depth types;
  Some (mkTypeList (core_types types) (core_type_to_rec_group types) (core_type_to_supertype types)
          (Some (index_map_insert id depth m)) (rec_group_elements types) (canonical_rec_groups types)).

(** ** Rewriting the indices of a type *)

Section remap.
Context (f : PackedIndex -> result PackedIndex).

Definition valtype_remap (t : ValType) : result ValType :=
  match t with
  | Ref r =>
      match rt_type_index r with
      | Some idx => idx ← f idx; mret (Ref (rt_concrete (is_nullable r) idx))
      | None => mret t
      end
  | I32 | I64 | F32 | F64 | V128 => mret t
  end.

Definition field_remap (t : FieldType) : result FieldType :=
  match element_type t with
  | SI8 | SI16 => mret t
  | SVal ty => ty ← valtype_remap ty; mret (mkFieldType (SVal ty) (mutable t))
  end.

(** The parameters and then the results, which share one slice. *)
Definition remap_indices (t : SubType) : result SubType :=
  sup ← match supertype_idx t with
        | Some idx => idx ← f idx; mret (Some idx)
        | None => mret None
        end;
  i ← match inner (composite_type_of t) with
      | CFunc ty => tys ← mapM valtype_remap (params_results ty); mret (CFunc (mkFuncType tys (len_params ty)))
      | CArray ty => fl ← field_remap (array_element ty); mret (CArray (mkArrayType fl))
      | CStruct ty => fs ← mapM field_remap (fields ty); mret (CStruct (mkStructType fs))
      | CCont ty => idx ← f (cont_index ty); mret (CCont (mkContType idx))
      end;
  mret (mkSubType (is_final t) sup (mkCompositeType i (ct_shared (composite_type_of t)))).
End remap.

(** ** Interning *)

(** [u32::try_from(n).unwrap()]. *)
Definition to_u32 (n : Z) : result Z := if n <? 2 ^ 32 then Ok n else Panic.

(** [start.index + offset] on [u32]. *)
Definition add_u32 (a b : Z) : result Z := to_u32 (a + b).

(** The supertype of a type whose group starts at [start]. *)
Definition resolve_supertype (start : Z) (ty : SubType) : result (option CoreTypeId) :=
  match supertype_idx ty with
  | None => mret None
  | Some idx =>
      u ← expect (unpack idx);
      match u with
      | RecGroup_ offset => id ← add_u32 start offset; mret (Some id)
      | Id_ id => mret (Some id)
      | Module_ _ => mret None
      end
  end.

(** An index into the group becomes an identifier. *)
Definition resolve_index (start : Z) (index : PackedIndex) : result PackedIndex :=
  u ← expect (unpack index);
  match u with
  | RecGroup_ offset => id ← add_u32 start offset; expect (pack (Id_ id))
  | Id_ _ | Module_ _ => mret index
  end.

Definition push_type_of_group (start : Z) (group : RecGroupId) (ty : SubType) (types : TypeList)
  : result TypeList :=
  sup ← resolve_supertype start ty;
  ty ← remap_indices (resolve_index start) ty;
  mret (mkTypeList (snapshot_push ty (core_types types)) (snapshot_push group (core_type_to_rec_group types))
          (snapshot_push sup (core_type_to_supertype types)) (core_type_to_depth types)
          (rec_group_elements types) (canonical_rec_groups types)).

Fixpoint push_types_of_group (start : Z) (group : RecGroupId) (tys : list SubType) (types : TypeList)
  : result TypeList :=
  match tys with
  | [] => mret types
  | ty :: tys' => types ← push_type_of_group start group ty types; push_types_of_group start group tys' types
  end.

(** [HashMap::get] of a recursion group. *)
Fixpoint find_rec_group (g : RecGroup) (m : list (RecGroup * RecGroupId)) : option RecGroupId :=
  match m with
  | [] => None
  | (k, id) :: m' => if rec_group_eqb k g then Some id else find_rec_group g m'
  end.

(** The types of a group that is not in the map. *)
Definition intern_new_group (group : RecGroupId) (g : RecGroup) (types : TypeList) : result TypeList :=
  start ← to_u32 (snapshot_len (core_types types));
  types ← push_types_of_group start group (into_types g) types;
  end_ ← to_u32 (snapshot_len (core_types types));
  mret (mkTypeList (core_types types) (core_type_to_rec_group types) (core_type_to_supertype types)
          (core_type_to_depth types) (snapshot_push (start, end_) (rec_group_elements types))
          (canonical_rec_groups types)).

Definition intern_canonical_rec_group (needs_type_canonicalization : bool) (g : RecGroup) (types : TypeList)
  : result ((bool * RecGroupId) * TypeList) :=
  group ← to_u32 (snapshot_len (rec_group_elements types));
  if needs_type_canonicalization then
    m ← expect (canonical_rec_groups types);
    match find_rec_group g m with
    | Some id => mret ((false, id), types)
    | None =>
        types ← intern_new_group group g
          (mkTypeList (core_types types) (core_type_to_rec_group types) (core_type_to_supertype types)
             (core_type_to_depth types) (rec_group_elements types) (Some (m ++ [(g, group)])));
        mret ((true, group), types)
    end
  else
    types ← intern_new_group group g types;
    mret ((true, group), types).

Definition intern_sub_type (sub_ty : SubType) (off : Z) (types : TypeList) : result (CoreTypeId * TypeList) :=
  '((_, group), types) ← intern_canonical_rec_group false (rec_group_implicit off sub_ty) types;
  range ← expect (rec_group_at types group);
  mret (fst range, types).

(** [SubType::func]. *)
Definition subtype_func (signature : FuncType) (shared : bool) : SubType :=
  mkSubType true None (mkCompositeType (CFunc signature) shared).

Definition intern_func_type (ty : FuncType) (off : Z) (types : TypeList) : result (CoreTypeId * TypeList) :=
  intern_sub_type (subtype_func ty false) off types.

Definition rec_group_local_id (types : TypeList) (rec_group : RecGroupId) (index off : Z) : result CoreTypeId :=
  elems ← expect (rec_group_at types rec_group);
  if snd elems <? fst elems then Panic
  else if index <? snd elems - fst elems then add_u32 (fst elems) index
  else Err (err_new (mkMsg "unknown type {index}: type index out of rec group bounds" [index]) off).

Definition at_canonicalized_unpacked_index (types : TypeList) (rec_group : RecGroupId) (index : UnpackedIndex)
  (off : Z) : result CoreTypeId :=
  match index with
  | Module_ _ => Panic
  | Id_ id => Ok id
  | RecGroup_ idx => rec_group_local_id types rec_group idx off
  end.

(** ** Subtyping *)

(** Follows the supertypes of [a]; [None] when one is unknown, or when [fuel]
    links are not enough. *)
Fixpoint id_is_subtype_loop (types : TypeList) (fuel : nat) (a b : CoreTypeId) : option bool :=
  match fuel with
  | O => None
  | S fuel' =>
      if a =? b then Some true
      else
        sup ← supertype_of types a;
        match sup with
        | Some a => id_is_subtype_loop types fuel' a b
        | None => Some false
        end
  end.

(** A supertype comes before its subtypes, so there are fewer links than [a]. *)
Definition id_is_subtype (types : TypeList) (a b : CoreTypeId) : option bool :=
  id_is_subtype_loop types (S (Z.to_nat a)) a b.

Definition unpacked_as_core_type_id (u : UnpackedIndex) : option CoreTypeId :=
  match u with Id_ id => Some id | _ => None end.

(** [core_type_id] and [subtype], the closures of [reftype_is_subtype_impl]. *)
Definition resolve_id (types : TypeList) (group : option RecGroupId) (index : UnpackedIndex)
  : option CoreTypeId :=
  match unpacked_as_core_type_id index with
  | Some id => Some id
  | None =>
      g ← group;
      match at_canonicalized_unpacked_index types g index (2 ^ 64 - 1) with
      | Ok id => Some id
      | _ => None
      end
  end.

Definition resolve_type (types : TypeList) (group : option RecGroupId) (index : UnpackedIndex)
  : option CompositeType :=
  id ← resolve_id types group index;
  composite_type_of <$> type_at types id.

Definition concrete_is_subtype (a_ty : CompositeType) (shared : bool) (ty : AbstractHeapType) : bool :=
  if negb (bool_decide (ct_shared a_ty = shared)) then false
  else
    match ty with
    | HAny | HEq => match inner a_ty with CArray _ | CStruct _ => true | _ => false end
    | HStruct => match inner a_ty with CStruct _ => true | _ => false end
    | HArray => match inner a_ty with CArray _ => true | _ => false end
    | HFunc => match inner a_ty with CFunc _ => true | _ => false end
    | HCont => match inner a_ty with CCont _ => true | _ => false end
    | HExtern | HExn | HI31 | HNone | HNoFunc | HNoExtern | HNoExn | HNoCont => false
    end.

Definition abstract_is_subtype (shared : bool) (ty : AbstractHeapType) (b_ty : CompositeType) : bool :=
  if negb (bool_decide (shared = ct_shared b_ty)) then false
  else
    match ty with
    | HNone => match inner b_ty with CArray _ | CStruct _ => true | _ => false end
    | HNoFunc => match inner b_ty with CFunc _ => true | _ => false end
    | HNoCont => match inner b_ty with CCont _ => true | _ => false end
    | HCont | HFunc | HExtern | HExn | HAny | HEq | HArray | HI31 | HStruct | HNoExtern | HNoExn => false
    end.

Definition heaptype_is_subtype (types : TypeList) (a : HeapType) (a_group : option RecGroupId)
  (b : HeapType) (b_group : option RecGroupId) : option bool :=
  if bool_decide (a = b) then Some true
  else
    match a, b with
    | Abstract a_shared a_ty, Abstract b_shared b_ty =>
        Some (bool_decide (a_shared = b_shared) && ht_is_subtype_of a_ty b_ty)
    | Concrete a, Abstract shared ty =>
        a_ty ← resolve_type types a_group a; Some (concrete_is_subtype a_ty shared ty)
    | Abstract shared ty, Concrete b =>
        b_ty ← resolve_type types b_group b; Some (abstract_is_subtype shared ty b_ty)
    | Concrete a, Concrete b =>
        a ← resolve_id types a_group a;
        b ← resolve_id types b_group b;
        id_is_subtype types a b
    end.

Definition reftype_is_subtype_impl (types : TypeList) (a : RefType) (a_group : option RecGroupId)
  (b : RefType) (b_group : option RecGroupId) : option bool :=
  if bool_decide (a = b) && bool_decide (a_group = b_group) then Some true
  else if is_nullable a && negb (is_nullable b) then Some false
  else
    a ← rt_heap_type a;
    b ← rt_heap_type b;
    heaptype_is_subtype types a a_group b b_group.

Definition reftype_is_subtype (types : TypeList) (a b : RefType) : option bool :=
  reftype_is_subtype_impl types a None b None.

Definition valtype_is_subtype (types : TypeList) (a b : ValType) : option bool :=
  if bool_decide (a = b) then Some true
  else match a, b with
  | Ref a, Ref b => reftype_is_subtype types a b
  | _, _ => Some false
  end.

Definition reftype_is_shared (types : TypeList) (ty : RefType) : option bool :=
  h ← rt_heap_type ty;
  match h with
  | Abstract shared _ => Some shared
  | Concrete index =>
      id ← unpacked_as_core_type_id index;
      t ← type_at types id;
      Some (ct_shared (composite_type_of t))
  end.

Definition valtype_is_shared (types : TypeList) (ty : ValType) : option bool :=
  match ty with
  | I32 | I64 | F32 | F64 | V128 => Some true
  | Ref rt => reftype_is_shared types rt
  end.

Definition types_top_type (types : TypeList) (heap_type : HeapType) : option HeapType :=
  match heap_type with
  | Concrete idx =>
      id ← unpacked_as_core_type_id idx;
      t ← type_at types id;
      let shared := ct_shared (composite_type_of t) in
      Some (match inner (composite_type_of t) with
            | CFunc _ => Abstract shared HFunc
            | CArray _ | CStruct _ => Abstract shared HAny
            | CCont _ => Abstract shared HCont
            end)
  | Abstract shared ty =>
      Some (Abstract shared
        (match ty with
         | HFunc | HNoFunc => HFunc
         | HExtern | HNoExtern => HExtern
         | HAny | HEq | HStruct | HArray | HI31 | HNone => HAny
         | HExn | HNoExn => HExn
         | HCont | HNoCont => HCont
         end))
  end.

(** The list that is returned and the list that is left behind. *)
Definition types_commit (types : TypeList) : TypeList * TypeList :=
  let (core_types', core_types) := snapshot_commit (core_types types) in
  let (core_type_to_rec_group', core_type_to_rec_group) := snapshot_commit (core_type_to_rec_group types) in
  let (core_type_to_supertype', core_type_to_supertype) := snapshot_commit (core_type_to_supertype types) in
  let (rec_group_elements', rec_group_elements) := snapshot_commit (rec_group_elements types) in
  (mkTypeList core_types' core_type_to_rec_group' core_type_to_supertype' None rec_group_elements' None,
   mkTypeList core_types core_type_to_rec_group core_type_to_supertype (core_type_to_depth types)
     rec_group_elements (canonical_rec_groups types)).

(** ** Matching *)

(** [iter.zip(..).all(..)] with a test that can panic. *)
Fixpoint all_pairs {A} (f : A -> A -> option bool) (l l' : list A) : option bool :=
  match l, l' with
  | a :: l, b :: l' =>
      match f a b with
      | Some true => all_pairs f l l'
      | r => r
      end
  | _, _ => Some true
  end.

Section matches.
Context (types : TypeList).

Definition matches_ref (ag bg : RecGroupId) (a b : RefType) : option bool :=
  reftype_is_subtype_impl types a (Some ag) b (Some bg).

Definition matches_val (ag bg : RecGroupId) (a b : ValType) : option bool :=
  match a, b with
  | Ref ra, Ref rb => matches_ref ag bg ra rb
  | Ref _, _ => Some false
  | _, _ => Some (bool_decide (a = b))
  end.

Definition matches_storage (ag bg : RecGroupId) (a b : StorageType) : option bool :=
  match a, b with
  | SI8, SI8 | SI16, SI16 => Some true
  | SI8, _ | SI16, _ => Some false
  | SVal va, SVal vb => matches_val ag bg va vb
  | SVal _, _ => Some false
  end.

Definition matches_field (ag bg : RecGroupId) (a b : FieldType) : option bool :=
  covariant ← matches_storage ag bg (element_type a) (element_type b);
  if negb covariant then Some false
  else if negb (mutable a) && negb (mutable b) then Some true
  else if mutable a && mutable b then matches_storage bg ag (element_type b) (element_type a)
  else Some false.

Definition matches_func (ag bg : RecGroupId) (a b : FuncType) : option bool :=
  if negb (length (func_params a) =? length (func_params b))%nat
     || negb (length (func_results a) =? length (func_results b))%nat then Some false
  else
    params_match ← all_pairs (fun pa pb => matches_val bg ag pb pa) (func_params a) (func_params b);
    if negb params_match then Some false
    else all_pairs (matches_val ag bg) (func_results a) (func_results b).

Definition matches_struct (ag bg : RecGroupId) (a b : StructType) : option bool :=
  if (length (fields a) <? length (fields b))%nat then Some false
  else all_pairs (matches_field ag bg) (fields a) (fields b).

Definition matches_cont (ag bg : RecGroupId) (a b : ContType) : option bool :=
  if cont_index a =? cont_index b then Some true
  else
    reftype_is_subtype_impl types (rt_concrete false (cont_index a)) (Some ag)
      (rt_concrete false (cont_index b)) (Some bg).

Definition matches_composite (ag bg : RecGroupId) (a b : CompositeType) : option bool :=
  if negb (bool_decide (ct_shared a = ct_shared b)) then Some false
  else
    match inner a, inner b with
    | CFunc fa, CFunc fb => matches_func ag bg fa fb
    | CFunc _, _ => Some false
    | CArray aa, CArray ab => matches_field ag bg (array_element aa) (array_element ab)
    | CArray _, _ => Some false
    | CStruct sa, CStruct sb => matches_struct ag bg sa sb
    | CStruct _, _ => Some false
    | CCont ca, CCont cb => matches_cont ag bg ca cb
    | CCont _, _ => Some false
    end.

(** [TypeList::matches]. *)
Definition types_match (a b : CoreTypeId) : option bool :=
  ag ← rec_group_id_of types a;
  at_ ← type_at types a;
  bg ← rec_group_id_of types b;
  bt ← type_at types b;
  matches_composite ag bg (composite_type_of at_) (composite_type_of bt).
End matches.
