(* ===== verification/Canonical.v ===== *)
(** The types of a module: [Module] of [crates/wasmparser/src/validator/core.rs]
    and the canonicalization of recursion groups,
    [crates/wasmparser/src/validator/core/canonical.rs].

    A type of the module is an identifier of the [TypeList] that all modules of a
    validator share.  [TypeCanonicalizer] is only ever used in its mode
    [HashConsing], which is the one modelled. *)

From Stdlib Require Import ZArith Lia String.
From stdpp Require Import prelude gmap.
From S2P Require Import Prelude StateLogic BinaryReader Types Operands CompositeTypes Items ValidatorState.
From S2P Require Import TypeList.

Local Open Scope Z_scope.

(** ** Limits and features *)

Definition MAX_WASM_SUBTYPING_DEPTH : Z := 63.
Definition MAX_WASM_TYPE_SIZE : Z := 1000000.

(** The features outside [FAST_VALIDATION_FEATURES]. *)
Definition needs_type_canonicalization (f : WasmFeatures) : bool :=
  shared_everything_threads f || exceptions f || component_model f || function_references f
  || memory_control f || gc f || component_model_values f || component_model_nested_names f
  || component_model_more_flags f || component_model_multiple_returns f || legacy_exceptions f
  || stack_switching f || component_model_async f.

(** [checked_sub] twice. *)
Definition check_max (cur_len amt_added max : Z) (desc : string) (off : Z) : result () :=
  if max - cur_len - amt_added <? 0 then
    if max =? 1 then Err (err_new (lit (String.append "multiple "%string desc)) off)
    else Err (err_new (mkMsg (String.append desc " count exceeds limit of {max}"%string) [max]) off)
  else Ok tt.

Definition combine_type_sizes (a b off : Z) : result Z :=
  if (a + b <? 2 ^ 32) && (a + b <? MAX_WASM_TYPE_SIZE) then Ok (a + b)
  else Err (err_new (mkMsg "effective type size exceeds the limit of {MAX_WASM_TYPE_SIZE}"
                       [MAX_WASM_TYPE_SIZE]) off).

(** ** The module *)

Inductive EntityType :=
| ET_Func (id : CoreTypeId)
| ET_Table (t : TableType)
| ET_Memory (t : MemoryType)
| ET_Global (t : GlobalType)
| ET_Tag (id : CoreTypeId).

(** [EntityType::info]; [None] when it panics. *)
Definition entity_info (types : TypeList) (e : EntityType) : option TypeInfo :=
  match e with
  | ET_Func id | ET_Tag id => t ← type_at types id; subtype_info t
  | ET_Table _ | ET_Memory _ | ET_Global _ => typeinfo_new 1 false
  end.

(** [struct Module]; its [IndexMap]s are association lists in the order of
    insertion, its strings lists of bytes. *)
Record WasmModule := mkModule {
  m_snapshot : option TypeList;
  m_types : list CoreTypeId;
  m_tables : list TableType;
  m_memories : list MemoryType;
  m_globals : list GlobalType;
  m_element_types : list RefType;
  m_data_count : option Z;
  m_functions : list Z;
  m_tags : list CoreTypeId;
  m_function_references : gset Z;
  m_imports : list ((list Z * list Z) * list EntityType);
  m_exports : list (list Z * EntityType);
  m_type_size : Z;
  m_num_imported_globals : Z;
  m_num_imported_functions : Z;
}.

Definition Module_default : WasmModule := {|
  m_snapshot := None; m_types := []; m_tables := []; m_memories := []; m_globals := [];
  m_element_types := []; m_data_count := None; m_functions := []; m_tags := [];
  m_function_references := ∅; m_imports := []; m_exports := []; m_type_size := 1;
  m_num_imported_globals := 0; m_num_imported_functions := 0;
|}.

Definition set_m_types (x : list CoreTypeId) (m : WasmModule) : WasmModule :=
  mkModule (m_snapshot m) x (m_tables m) (m_memories m) (m_globals m) (m_element_types m) (m_data_count m)
    (m_functions m) (m_tags m) (m_function_references m) (m_imports m) (m_exports m) (m_type_size m)
    (m_num_imported_globals m) (m_num_imported_functions m).

(** ** [InternRecGroup] for [Module] *)

Definition add_type_id (id : CoreTypeId) (m : WasmModule) : WasmModule := set_m_types (m_types m ++ [id]) m.

Definition type_id_at (m : WasmModule) (idx off : Z) : result CoreTypeId :=
  match m_types m !! Z.to_nat idx with
  | Some id => Ok id
  | None => Err (err_new (mkMsg "unknown type {idx}: type index out of bounds" [idx]) off)
  end.

Definition types_len (m : WasmModule) : result Z := to_u32 (Z.of_nat (length (m_types m))).

Record TypeCanonicalizer := mkCanonicalizer {
  tc_module : WasmModule;
  tc_features : WasmFeatures;
  rec_group_start : Z;
  rec_group_len : Z;
  tc_offset : Z;
}.

(** [TypeCanonicalizer::new] and [with_features]. *)
Definition canonicalizer_new (m : WasmModule) (off : Z) (f : WasmFeatures) : TypeCanonicalizer :=
  mkCanonicalizer m f (2 ^ 32 - 1) 0 off.

Definition allow_gc (c : TypeCanonicalizer) : bool := gc (tc_features c).

Definition canonicalize_type_index (c : TypeCanonicalizer) (ty : PackedIndex) : result PackedIndex :=
  u ← expect (unpack ty);
  match u with
  | Id_ _ => Ok ty
  | Module_ index =>
      if index <? rec_group_start c then
        id ← type_id_at (tc_module c) index (tc_offset c);
        match from_id id with
        | Some id => Ok id
        | None => Err (err_new (lit "implementation limit: too many types in `TypeList`") (tc_offset c))
        end
      else
        let local := index - rec_group_start c in
        if allow_gc c && (local <? rec_group_len c) then
          match from_rec_group_index local with
          | Some id => Ok id
          | None =>
              Err (err_new (lit "implementation limit: too many types in a recursion group") (tc_offset c))
          end
        else Err (err_new (mkMsg "unknown type {index}: type index out of bounds" [index]) (tc_offset c))
  | RecGroup_ _ => Ok ty
  end.

(** The loop over the types of the group; [local] is the index in the group. *)
Fixpoint canonicalize_types (c : TypeCanonicalizer) (local : Z) (tys : list (Z * SubType))
  : result (list (Z * SubType)) :=
  match tys with
  | [] => mret []
  | (o, ty) :: tys' =>
      type_index ← add_u32 (rec_group_start c) local;
      if match supertype_idx ty with
         | Some sup => match packed_as_module_index sup with Some i => type_index <=? i | None => false end
         | None => false
         end
      then Err (err_new (lit "supertypes must be defined before subtypes") (tc_offset c))
      else
        ty ← remap_indices (canonicalize_type_index c) ty;
        tys ← canonicalize_types c (local + 1) tys';
        mret ((o, ty) :: tys)
  end.

Definition canonicalize_rec_group (c : TypeCanonicalizer) (g : RecGroup) : result RecGroup :=
  start ← types_len (tc_module c);
  len ← to_u32 (Z.of_nat (length (into_types g)));
  let c := mkCanonicalizer (tc_module c) (tc_features c) start len (tc_offset c) in
  match group_inner g with
  | Implicit t =>
      ts ← canonicalize_types c 0 [t];
      match ts with [t] => mret (mkRecGroup (Implicit t)) | _ => Panic end
  | Explicit ts => ts ← canonicalize_types c 0 ts; mret (mkRecGroup (Explicit ts))
  end.

(** The closure [check] of [check_composite_type]. *)
Definition check_member (f : WasmFeatures) (types : TypeList) (off : Z) (shared : bool) (ty : ValType)
  : result () :=
  at_offset off (check_value_type_features f ty);;
  if shared then
    ok ← expect (valtype_is_shared types ty);
    if negb ok then Err (err_new (lit "shared composite type must contain shared types") off) else mret tt
  else mret tt.

Fixpoint check_members (f : WasmFeatures) (types : TypeList) (off : Z) (shared : bool) (tys : list ValType)
  : result () :=
  match tys with
  | [] => mret tt
  | ty :: tys' => check_member f types off shared ty;; check_members f types off shared tys'
  end.

Definition check_storage (f : WasmFeatures) (types : TypeList) (off : Z) (shared : bool) (ty : StorageType)
  : result () :=
  match ty with
  | SI8 | SI16 => mret tt
  | SVal value_type => check_member f types off shared value_type
  end.

Fixpoint check_fields (f : WasmFeatures) (types : TypeList) (off : Z) (shared : bool) (fs : list FieldType)
  : result () :=
  match fs with
  | [] => mret tt
  | ft :: fs' => check_storage f types off shared (element_type ft);; check_fields f types off shared fs'
  end.

Definition check_composite_type (ty : CompositeType) (f : WasmFeatures) (types : TypeList) (off : Z)
  : result () :=
  if negb (shared_everything_threads f) && ct_shared ty then
    Err (err_new (lit "shared composite types require the shared-everything-threads proposal") off)
  else
    match inner ty with
    | CFunc t =>
        check_members f types off (ct_shared ty) (func_params t ++ func_results t);;
        if (1 <? length (func_results t))%nat && negb (multi_value f) then
          Err (err_new (lit "func type returns multiple values but the multi-value feature is not enabled") off)
        else mret tt
    | CArray t =>
        if negb (gc f) then
          Err (err_new (lit "array indexed types not supported without the gc feature") off)
        else if negb (gc_types f) then
          Err (err_new (lit "cannot define array types when gc types are disabled") off)
        else check_storage f types off (ct_shared ty) (element_type (array_element t))
    | CStruct t =>
        if negb (gc f) then
          Err (err_new (lit "struct indexed types not supported without the gc feature") off)
        else if negb (gc_types f) then
          Err (err_new (lit "cannot define struct types when gc types are disabled") off)
        else check_fields f types off (ct_shared ty) (fields t)
    | CCont t =>
        if negb (stack_switching f) then
          Err (err_new (lit "cannot define continuation types when stack switching is disabled") off)
        else if negb (gc_types f) then
          Err (err_new (lit "cannot define continuation types when gc types are disabled") off)
        else
          id ← expect (packed_as_core_type_id (cont_index t));
          sub ← expect (type_at types id);
          match inner (composite_type_of sub) with
          | CFunc _ => mret tt
          | _ => Err (err_new (mkMsg "non-function type {}" [id]) off)
          end
    end.

Definition at_packed_index (m : WasmModule) (types : TypeList) (rec_group : RecGroupId) (index : PackedIndex)
  (off : Z) : result CoreTypeId :=
  u ← expect (unpack index);
  match u with
  | Id_ id => Ok id
  | Module_ idx => type_id_at m idx off
  | RecGroup_ idx => rec_group_local_id types rec_group idx off
  end.

(** The depth of a type in the hierarchy of its supertypes; [u8] addition. *)
Definition check_supertype (m : WasmModule) (rec_group : RecGroupId) (id : CoreTypeId) (types : TypeList)
  (supertype_index : PackedIndex) (off : Z) : result Z :=
  sup_id ← at_packed_index m types rec_group supertype_index off;
  sup ← expect (type_at types sup_id);
  if is_final sup then Err (err_new (lit "sub type cannot have a final super type") off)
  else
    ok ← expect (types_match types id sup_id);
    if negb ok then Err (err_new (lit "sub type must match super type") off)
    else
      d ← expect (get_subtyping_depth types sup_id);
      if 255 <? d + 1 then Panic
      else if MAX_WASM_SUBTYPING_DEPTH <? d + 1 then
        Err (err_new (mkMsg "sub type hierarchy too deep: found depth {}, cannot exceed depth {}"
                        [d + 1; MAX_WASM_SUBTYPING_DEPTH]) off)
      else Ok (d + 1).

(** The list of types with the depth of [id]. *)
Definition check_subtype (m : WasmModule) (rec_group : RecGroupId) (id : CoreTypeId) (f : WasmFeatures)
  (types : TypeList) (off : Z) : result TypeList :=
  ty ← expect (type_at types id);
  if negb (gc f) && (negb (is_final ty) || bool_decide (is_Some (supertype_idx ty))) then
    Err (err_new (lit "gc proposal must be enabled to use subtypes") off)
  else
    check_composite_type (composite_type_of ty) f types off;;
    depth ← match supertype_idx ty with
            | Some supertype_index => check_supertype m rec_group id types supertype_index off
            | None => Ok 0
            end;
    expect (set_subtyping_depth id depth types).

(** The loop [for i in start..end]. *)
Fixpoint add_type_ids (n : nat) (i : Z) (is_new : bool) (rec_group : RecGroupId) (f : WasmFeatures) (off : Z)
  (m : WasmModule) (types : TypeList) : result (WasmModule * TypeList) :=
  match n with
  | O => mret (m, types)
  | S n' =>
      let m := add_type_id i m in
      types ← (if is_new then check_subtype m rec_group i f types off else mret types);
      add_type_ids n' (i + 1) is_new rec_group f off m types
  end.

Definition canonicalize_and_intern_rec_group (f : WasmFeatures) (g : RecGroup) (off : Z)
  (m : WasmModule) (types : TypeList) : result (WasmModule * TypeList) :=
  if is_explicit_rec_group g && negb (gc f) then
    Err (err_new (lit "rec group usage requires `gc` proposal to be enabled") off)
  else
    g ← (if needs_type_canonicalization f then canonicalize_rec_group (canonicalizer_new m off f) g else mret g);
    '((is_new, rec_group_id), types) ← intern_canonical_rec_group (needs_type_canonicalization f) g types;
    range ← expect (rec_group_at types rec_group_id);
    add_type_ids (Z.to_nat (snd range - fst range)) (fst range) is_new rec_group_id f off m types.

(** [rec_group.types().len() as u32]. *)
Definition add_types (g : RecGroup) (f : WasmFeatures) (off : Z) (check_limit : bool) (m : WasmModule)
  (types : TypeList) : result (WasmModule * TypeList) :=
  (if check_limit then
     check_max (Z.of_nat (length (m_types m))) (wrap 32 (Z.of_nat (length (into_types g)))) MAX_WASM_TYPES
       "types"%string off
   else mret tt);;
  canonicalize_and_intern_rec_group f g off m types.
