(* ===== verification/ModuleState.v ===== *)
(** The state of a module that is being validated: [Module], [ModuleState] and
    the two implementations of [WasmModuleResources] in
    [crates/wasmparser/src/validator/core.rs].

    An operation returns the new state.  What an operation that fails leaves
    behind is not modelled: a validator is not used after an error. *)

From Stdlib Require Import ZArith Lia String.
From stdpp Require Import prelude gmap.
From S2P Require Import Prelude StateLogic BinaryReader Types Operands Operators OperatorReader SectionReader.
From S2P Require Import CompositeTypes Items ValidatorState OperatorValidator VisitOperators ValidateOperator.
From S2P Require Import Arity TypeList Canonical.

Local Open Scope Z_scope.

(** ** Limits *)

Definition MAX_WASM_FUNCTIONS : Z := 1000000.
Definition MAX_WASM_IMPORTS : Z := 1000000.
Definition MAX_WASM_EXPORTS : Z := 1000000.
Definition MAX_WASM_GLOBALS : Z := 1000000.
Definition MAX_WASM_ELEMENT_SEGMENTS : Z := 100000.
Definition MAX_WASM_DATA_SEGMENTS : Z := 100000.
Definition MAX_WASM_TABLE_ENTRIES : Z := 10000000.
Definition MAX_WASM_TABLES : Z := 100.
Definition MAX_WASM_MEMORIES : Z := 100.
Definition MAX_WASM_TAGS : Z := 1000000.
Definition DEFAULT_WASM_PAGE_SIZE : Z := Z.shiftl 1 16.

(** The [assert!]s of a power of two that is at most the default hold for the
    two page sizes that are valid. *)
Definition max_wasm_memory32_pages (page_size : Z) : Z := Z.shiftl 1 32 / page_size.
Definition max_wasm_memory64_pages (page_size : Z) : Z :=
  let n := Z.shiftl 1 64 / page_size in
  if n <? 2 ^ 64 then n else 2 ^ 64 - 1.

(** ** Updating the module *)

Definition set_m_snapshot (x : option TypeList) (m : WasmModule) : WasmModule :=
  mkModule x (m_types m) (m_tables m) (m_memories m) (m_globals m) (m_element_types m) (m_data_count m)
    (m_functions m) (m_tags m) (m_function_references m) (m_imports m) (m_exports m) (m_type_size m)
    (m_num_imported_globals m) (m_num_imported_functions m).
Definition set_m_tables (x : list TableType) (m : WasmModule) : WasmModule :=
  mkModule (m_snapshot m) (m_types m) x (m_memories m) (m_globals m) (m_element_types m) (m_data_count m)
    (m_functions m) (m_tags m) (m_function_references m) (m_imports m) (m_exports m) (m_type_size m)
    (m_num_imported_globals m) (m_num_imported_functions m).
Definition set_m_memories (x : list MemoryType) (m : WasmModule) : WasmModule :=
  mkModule (m_snapshot m) (m_types m) (m_tables m) x (m_globals m) (m_element_types m) (m_data_count m)
    (m_functions m) (m_tags m) (m_function_references m) (m_imports m) (m_exports m) (m_type_size m)
    (m_num_imported_globals m) (m_num_imported_functions m).
Definition set_m_globals (x : list GlobalType) (m : WasmModule) : WasmModule :=
  mkModule (m_snapshot m) (m_types m) (m_tables m) (m_memories m) x (m_element_types m) (m_data_count m)
    (m_functions m) (m_tags m) (m_function_references m) (m_imports m) (m_exports m) (m_type_size m)
    (m_num_imported_globals m) (m_num_imported_functions m).
Definition set_m_element_types (x : list RefType) (m : WasmModule) : WasmModule :=
  mkModule (m_snapshot m) (m_types m) (m_tables m) (m_memories m) (m_globals m) x (m_data_count m)
    (m_functions m) (m_tags m) (m_function_references m) (m_imports m) (m_exports m) (m_type_size m)
    (m_num_imported_globals m) (m_num_imported_functions m).
Definition set_m_data_count (x : option Z) (m : WasmModule) : WasmModule :=
  mkModule (m_snapshot m) (m_types m) (m_tables m) (m_memories m) (m_globals m) (m_element_types m) x
    (m_functions m) (m_tags m) (m_function_references m) (m_imports m) (m_exports m) (m_type_size m)
    (m_num_imported_globals m) (m_num_imported_functions m).
Definition set_m_functions (x : list Z) (m : WasmModule) : WasmModule :=
  mkModule (m_snapshot m) (m_types m) (m_tables m) (m_memories m) (m_globals m) (m_element_types m) (m_data_count m)
    x (m_tags m) (m_function_references m) (m_imports m) (m_exports m) (m_type_size m)
    (m_num_imported_globals m) (m_num_imported_functions m).
Definition set_m_tags (x : list CoreTypeId) (m : WasmModule) : WasmModule :=
  mkModule (m_snapshot m) (m_types m) (m_tables m) (m_memories m) (m_globals m) (m_element_types m) (m_data_count m)
    (m_functions m) x (m_function_references m) (m_imports m) (m_exports m) (m_type_size m)
    (m_num_imported_globals m) (m_num_imported_functions m).
Definition set_m_function_references (x : gset Z) (m : WasmModule) : WasmModule :=
  mkModule (m_snapshot m) (m_types m) (m_tables m) (m_memories m) (m_globals m) (m_element_types m) (m_data_count m)
    (m_functions m) (m_tags m) x (m_imports m) (m_exports m) (m_type_size m)
    (m_num_imported_globals m) (m_num_imported_functions m).
Definition set_m_imports (x : list ((list Z * list Z) * list EntityType)) (m : WasmModule) : WasmModule :=
  mkModule (m_snapshot m) (m_types m) (m_tables m) (m_memories m) (m_globals m) (m_element_types m) (m_data_count m)
    (m_functions m) (m_tags m) (m_function_references m) x (m_exports m) (m_type_size m)
    (m_num_imported_globals m) (m_num_imported_functions m).
Definition set_m_exports (x : list (list Z * EntityType)) (m : WasmModule) : WasmModule :=
  mkModule (m_snapshot m) (m_types m) (m_tables m) (m_memories m) (m_globals m) (m_element_types m) (m_data_count m)
    (m_functions m) (m_tags m) (m_function_references m) (m_imports m) x (m_type_size m)
    (m_num_imported_globals m) (m_num_imported_functions m).
Definition set_m_type_size (x : Z) (m : WasmModule) : WasmModule :=
  mkModule (m_snapshot m) (m_types m) (m_tables m) (m_memories m) (m_globals m) (m_element_types m) (m_data_count m)
    (m_functions m) (m_tags m) (m_function_references m) (m_imports m) (m_exports m) x
    (m_num_imported_globals m) (m_num_imported_functions m).
Definition set_m_imported (globals functions : Z) (m : WasmModule) : WasmModule :=
  mkModule (m_snapshot m) (m_types m) (m_tables m) (m_memories m) (m_globals m) (m_element_types m) (m_data_count m)
    (m_functions m) (m_tags m) (m_function_references m) (m_imports m) (m_exports m) (m_type_size m)
    globals functions.

(** ** Checks of types *)

Definition module_sub_type_at (m : WasmModule) (types : TypeList) (idx off : Z) : result SubType :=
  id ← type_id_at m idx off;
  expect (type_at types id).

Definition module_func_type_at (m : WasmModule) (type_index : Z) (types : TypeList) (off : Z) : result FuncType :=
  sub ← module_sub_type_at m types type_index off;
  match inner (composite_type_of sub) with
  | CFunc f => Ok f
  | _ => Err (err_new (mkMsg "type index {type_index} is not a function type" [type_index]) off)
  end.

(** The heap type that is written to is the result, here and below. *)
Definition module_check_heap_type (m : WasmModule) (ty : HeapType) (off : Z) : result HeapType :=
  match ty with
  | Abstract _ _ => Ok ty
  | Concrete (Module_ idx) => id ← type_id_at m idx off; Ok (Concrete (Id_ id))
  | Concrete (RecGroup_ _ | Id_ _) => Panic
  end.

Definition module_check_ref_type (m : WasmModule) (ty : RefType) (f : WasmFeatures) (off : Z) : result RefType :=
  at_offset off (check_ref_type_features f ty);;
  hty ← expect (rt_heap_type ty);
  hty ← module_check_heap_type m hty off;
  expect (rt_new (is_nullable ty) hty).

Definition module_check_value_type (m : WasmModule) (ty : ValType) (f : WasmFeatures) (off : Z) : result ValType :=
  match ty with
  | Ref rt => rt ← module_check_ref_type m rt f off; Ok (Ref rt)
  | I32 | I64 | F32 | F64 | V128 => at_offset off (check_value_type_features f ty);; Ok ty
  end.

Definition check_limits (initial : Z) (maximum : option Z) (off : Z) : result () :=
  match maximum with
  | Some max =>
      if max <? initial then Err (err_new (lit "size minimum must not be greater than maximum") off) else Ok tt
  | None => Ok tt
  end.

Definition check_table_type (m : WasmModule) (ty : TableType) (f : WasmFeatures) (types : TypeList) (off : Z)
  : result TableType :=
  el ← (if bool_decide (table_element_type ty = FUNCREF) then Ok (table_element_type ty)
        else module_check_ref_type m (table_element_type ty) f off);
  let ty := mkTableType el (table64 ty) (table_initial ty) (table_maximum ty) (table_shared ty) in
  if table64 ty && negb (memory64 f) then
    Err (err_new (lit "memory64 must be enabled for 64-bit tables") off)
  else
    check_limits (table_initial ty) (table_maximum ty) off;;
    if table_shared ty then
      if negb (shared_everything_threads f) then
        Err (err_new (lit "shared tables require the shared-everything-threads proposal") off)
      else
        ok ← expect (reftype_is_shared types (table_element_type ty));
        if negb ok then Err (err_new (lit "shared tables must have a shared element type") off) else Ok ty
    else Ok ty.

(** The page size and its logarithm. *)
Definition memory_page_size (ty : MemoryType) (f : WasmFeatures) (off : Z) : result (Z * Z) :=
  match page_size_log2 ty with
  | Some p =>
      if negb (custom_page_sizes f) then
        Err (err_new (lit "the custom page sizes proposal must be enabled to customize a memory's page size") off)
      else if negb (p =? 0) && negb (p =? 16) then Err (err_new (lit "invalid custom page size") off)
      else Ok (Z.shiftl 1 p, p)
  | None => Ok (DEFAULT_WASM_PAGE_SIZE, 16)
  end.

(** The largest number of pages, and the message when there are more. *)
Definition memory_true_maximum (ty : MemoryType) (f : WasmFeatures) (page_size page_size_log2 off : Z)
  : result (Z * Msg) :=
  if mem_memory64 ty then
    if negb (memory64 f) then Err (err_new (lit "memory64 must be enabled for 64-bit memories") off)
    else Ok (max_wasm_memory64_pages page_size,
             mkMsg "memory size must be at most 2**{} pages" [64 - page_size_log2])
  else
    let max := max_wasm_memory32_pages page_size in
    Ok (max, mkMsg "memory size must be at most {max} pages (4GiB)" [max]).

Definition check_memory_type (ty : MemoryType) (f : WasmFeatures) (off : Z) : result () :=
  check_limits (mem_initial ty) (mem_maximum ty) off;;
  '(page_size, page_size_log2) ← memory_page_size ty f off;
  '(true_maximum, err) ← memory_true_maximum ty f page_size page_size_log2 off;
  if true_maximum <? mem_initial ty then Err (err_new err off)
  else if match mem_maximum ty with Some maximum => true_maximum <? maximum | None => false end then
    Err (err_new err off)
  else if mem_shared ty then
    if negb (threads f) then Err (err_new (lit "threads must be enabled for shared memories") off)
    else if bool_decide (mem_maximum ty = None) then
      Err (err_new (lit "shared memory must have maximum size") off)
    else Ok tt
  else Ok tt.

Definition check_tag_type (m : WasmModule) (ty : TagType) (f : WasmFeatures) (types : TypeList) (off : Z)
  : result () :=
  if negb (exceptions f) then Err (err_new (lit "exceptions proposal not enabled") off)
  else
    ty ← module_func_type_at m (func_type_idx ty) types off;
    if negb (length (func_results ty) =? 0)%nat && negb (stack_switching f) then
      Err (err_new (lit "invalid exception type: non-empty tag result type") off)
    else Ok tt.

Definition check_global_type (m : WasmModule) (ty : GlobalType) (f : WasmFeatures) (types : TypeList) (off : Z)
  : result GlobalType :=
  content ← module_check_value_type m (content_type ty) f off;
  let ty := mkGlobalType content (global_mutable ty) (global_shared ty) in
  if global_shared ty then
    if negb (shared_everything_threads f) then
      Err (err_new (lit "shared globals require the shared-everything-threads proposal") off)
    else
      ok ← expect (valtype_is_shared types content);
      if negb ok then Err (err_new (lit "shared globals must have a shared value type") off) else Ok ty
  else Ok ty.

Definition max_tables (f : WasmFeatures) : Z := if reference_types f then MAX_WASM_TABLES else 1.
Definition max_memories (f : WasmFeatures) : Z := if multi_memory f then MAX_WASM_MEMORIES else 1.

(** [self.types[index]]. *)
Definition module_type (m : WasmModule) (index : Z) : result CoreTypeId := expect (m_types m !! Z.to_nat index).

(** The type that is written to, and the entity. *)
Definition check_type_ref (m : WasmModule) (type_ref : TypeRef) (f : WasmFeatures) (types : TypeList) (off : Z)
  : result (TypeRef * EntityType) :=
  match type_ref with
  | TR_Func type_index =>
      module_func_type_at m type_index types off;;
      id ← module_type m type_index;
      Ok (type_ref, ET_Func id)
  | TR_Table t => t ← check_table_type m t f types off; Ok (TR_Table t, ET_Table t)
  | TR_Memory t => check_memory_type t f off;; Ok (type_ref, ET_Memory t)
  | TR_Tag t =>
      check_tag_type m t f types off;;
      id ← module_type m (func_type_idx t);
      Ok (type_ref, ET_Tag id)
  | TR_Global t => t ← check_global_type m t f types off; Ok (TR_Global t, ET_Global t)
  end.

(** ** Adding items *)

(** The module after the import, and what [check_max] is given. *)
Definition push_import (ty : TypeRef) (f : WasmFeatures) (m : WasmModule) (off : Z)
  : result (WasmModule * (Z * Z * string)) :=
  match ty with
  | TR_Func type_index =>
      n ← add_u32 (m_num_imported_functions m) 1;
      let m := set_m_imported (m_num_imported_globals m) n (set_m_functions (m_functions m ++ [type_index]) m) in
      Ok (m, (Z.of_nat (length (m_functions m)), MAX_WASM_FUNCTIONS, "functions"%string))
  | TR_Table ty =>
      let m := set_m_tables (m_tables m ++ [ty]) m in
      Ok (m, (Z.of_nat (length (m_tables m)), max_tables f, "tables"%string))
  | TR_Memory ty =>
      let m := set_m_memories (m_memories m ++ [ty]) m in
      Ok (m, (Z.of_nat (length (m_memories m)), max_memories f, "memories"%string))
  | TR_Tag ty =>
      id ← module_type m (func_type_idx ty);
      let m := set_m_tags (m_tags m ++ [id]) m in
      Ok (m, (Z.of_nat (length (m_tags m)), MAX_WASM_TAGS, "tags"%string))
  | TR_Global ty =>
      if negb (mutable_global f) && global_mutable ty then
        Err (err_new (lit "mutable global support is not enabled") off)
      else
        n ← add_u32 (m_num_imported_globals m) 1;
        let m := set_m_imported n (m_num_imported_functions m) (set_m_globals (m_globals m ++ [ty]) m) in
        Ok (m, (Z.of_nat (length (m_globals m)), MAX_WASM_GLOBALS, "globals"%string))
  end.

(** [entry(key).or_default().push(entity)]. *)
Fixpoint imports_push (key : list Z * list Z) (e : EntityType) (is_ : list ((list Z * list Z) * list EntityType))
  : list ((list Z * list Z) * list EntityType) :=
  match is_ with
  | [] => [(key, [e])]
  | (k, es) :: is_' =>
      if bool_decide (k = key) then (k, es ++ [e]) :: is_' else (k, es) :: imports_push key e is_'
  end.

Definition add_import (i : Import) (f : WasmFeatures) (types : TypeList) (off : Z) (m : WasmModule)
  : result WasmModule :=
  '(ty, entity) ← check_type_ref m (import_ty i) f types off;
  '(m, (len, max, desc)) ← push_import ty f m off;
  check_max len 0 max desc off;;
  info ← expect (entity_info types entity);
  size ← combine_type_sizes (m_type_size m) (typeinfo_size info) off;
  Ok (set_m_imports
        (imports_push (str_bytes (import_module i), str_bytes (import_name i)) entity (m_imports m))
        (set_m_type_size size m)).

Definition add_export (name : Str) (ty : EntityType) (f : WasmFeatures) (off : Z) (check_limit : bool)
  (types : TypeList) (m : WasmModule) : result WasmModule :=
  if negb (mutable_global f) && match ty with ET_Global g => global_mutable g | _ => false end then
    Err (err_new (lit "mutable global support is not enabled") off)
  else
    (if check_limit then
       check_max (Z.of_nat (length (m_exports m))) 1 MAX_WASM_EXPORTS "exports"%string off
     else Ok tt);;
    info ← expect (entity_info types ty);
    size ← combine_type_sizes (m_type_size m) (typeinfo_size info) off;
    if bool_decide (str_bytes name ∈ map fst (m_exports m)) then
      Err (err_new (lit "duplicate export name `{name}` already defined") off)
    else Ok (set_m_exports (m_exports m ++ [(str_bytes name, ty)]) (set_m_type_size size m)).

Definition add_function (type_index : Z) (types : TypeList) (off : Z) (m : WasmModule) : result WasmModule :=
  module_func_type_at m type_index types off;;
  Ok (set_m_functions (m_functions m ++ [type_index]) m).

Definition add_memory (ty : MemoryType) (f : WasmFeatures) (off : Z) (m : WasmModule) : result WasmModule :=
  check_memory_type ty f off;;
  Ok (set_m_memories (m_memories m ++ [ty]) m).

Definition add_tag (ty : TagType) (f : WasmFeatures) (types : TypeList) (off : Z) (m : WasmModule)
  : result WasmModule :=
  check_tag_type m ty f types off;;
  id ← module_type m (func_type_idx ty);
  Ok (set_m_tags (m_tags m ++ [id]) m).

(** The closure [check] of [export_to_entity_type]. *)
Definition check_export_index (ty : string) (index : Z) (total off : Z) : result () :=
  if total <=? index then
    Err (err_new (mkMsg (String.append "unknown " (String.append ty
           (String.append " {index}: exported " (String.append ty " index out of bounds")))) [index]) off)
  else Ok tt.

(** The entity and the module, whose set of referenced functions grows. *)
Definition export_to_entity_type (e : Export) (off : Z) (m : WasmModule) : result (EntityType * WasmModule) :=
  let index := export_index e in
  match export_kind_of e with
  | EK_Func =>
      check_export_index "function"%string index (Z.of_nat (length (m_functions m))) off;;
      let m := set_m_function_references ({[index]} ∪ m_function_references m) m in
      ty ← expect (m_functions m !! Z.to_nat index);
      id ← module_type m ty;
      Ok (ET_Func id, m)
  | EK_Table =>
      check_export_index "table"%string index (Z.of_nat (length (m_tables m))) off;;
      t ← expect (m_tables m !! Z.to_nat index);
      Ok (ET_Table t, m)
  | EK_Memory =>
      check_export_index "memory"%string index (Z.of_nat (length (m_memories m))) off;;
      t ← expect (m_memories m !! Z.to_nat index);
      Ok (ET_Memory t, m)
  | EK_Global =>
      check_export_index "global"%string index (Z.of_nat (length (m_globals m))) off;;
      t ← expect (m_globals m !! Z.to_nat index);
      Ok (ET_Global t, m)
  | EK_Tag =>
      check_export_index "tag"%string index (Z.of_nat (length (m_tags m))) off;;
      id ← expect (m_tags m !! Z.to_nat index);
      Ok (ET_Tag id, m)
  end.

Definition get_func_type (m : WasmModule) (func_idx : Z) (types : TypeList) (off : Z) : result FuncType :=
  match m_functions m !! Z.to_nat func_idx with
  | Some idx => module_func_type_at m idx types off
  | None => Err (err_new (mkMsg "unknown function {func_idx}: func index out of bounds" [func_idx]) off)
  end.

Definition module_global_at (m : WasmModule) (idx off : Z) : result GlobalType :=
  match m_globals m !! Z.to_nat idx with
  | Some t => Ok t
  | None => Err (err_new (mkMsg "unknown global {idx}: global index out of bounds" [idx]) off)
  end.

Definition module_table_at (m : WasmModule) (idx off : Z) : result TableType :=
  match m_tables m !! Z.to_nat idx with
  | Some t => Ok t
  | None => Err (err_new (mkMsg "unknown table {idx}: table index out of bounds" [idx]) off)
  end.

Definition module_memory_at (m : WasmModule) (idx off : Z) : result MemoryType :=
  match m_memories m !! Z.to_nat idx with
  | Some t => Ok t
  | None => Err (err_new (mkMsg "unknown memory {idx}: memory index out of bounds" [idx]) off)
  end.

(** ** Resources *)

(** The resources of constant expressions. *)
Definition operator_resources (m : WasmModule) (types : TypeList) : WasmModuleResources := {|
  table_at at_ := m_tables m !! Z.to_nat at_;
  memory_at at_ := m_memories m !! Z.to_nat at_;
  tag_at at_ :=
    match m_tags m !! Z.to_nat at_ with
    | None => Some None
    | Some type_id =>
        t ← type_at types type_id;
        match inner (composite_type_of t) with CFunc f => Some (Some f) | _ => None end
    end;
  global_at at_ := m_globals m !! Z.to_nat at_;
  sub_type_at at_ :=
    match m_types m !! Z.to_nat at_ with
    | None => Some None
    | Some id => Some <$> type_at types id
    end;
  sub_type_at_id id := type_at types id;
  type_id_of_function at_ := type_index ← m_functions m !! Z.to_nat at_; m_types m !! Z.to_nat type_index;
  type_index_of_function at_ := m_functions m !! Z.to_nat at_;
  element_type_at at_ := m_element_types m !! Z.to_nat at_;
  is_subtype a b := valtype_is_subtype types a b;
  is_shared ty := reftype_is_shared types ty;
  check_heap_type t off := module_check_heap_type m t off;
  top_type h := types_top_type types h;
  element_count := wrap 32 (Z.of_nat (length (m_element_types m)));
  res_data_count := m_data_count m;
  is_function_referenced idx := bool_decide (idx ∈ m_function_references m);
|}.

(** [ValidatorResources], the resources of function bodies, uses the snapshot of
    the types that was taken when the code section started. *)
Definition validator_resources (m : WasmModule) : WasmModuleResources := {|
  table_at at_ := m_tables m !! Z.to_nat at_;
  memory_at at_ := m_memories m !! Z.to_nat at_;
  tag_at at_ :=
    match m_tags m !! Z.to_nat at_ with
    | None => Some None
    | Some id =>
        types ← m_snapshot m;
        t ← type_at types id;
        match inner (composite_type_of t) with CFunc f => Some (Some f) | _ => Some None end
    end;
  global_at at_ := m_globals m !! Z.to_nat at_;
  sub_type_at at_ :=
    match m_types m !! Z.to_nat at_ with
    | None => Some None
    | Some id => types ← m_snapshot m; Some <$> type_at types id
    end;
  sub_type_at_id id := types ← m_snapshot m; type_at types id;
  type_id_of_function at_ := type_index ← m_functions m !! Z.to_nat at_; m_types m !! Z.to_nat type_index;
  type_index_of_function at_ := m_functions m !! Z.to_nat at_;
  element_type_at at_ := m_element_types m !! Z.to_nat at_;
  is_subtype a b := types ← m_snapshot m; valtype_is_subtype types a b;
  is_shared ty := types ← m_snapshot m; reftype_is_shared types ty;
  check_heap_type t off := module_check_heap_type m t off;
  top_type h := types ← m_snapshot m; types_top_type types h;
  element_count := wrap 32 (Z.of_nat (length (m_element_types m)));
  res_data_count := m_data_count m;
  is_function_referenced idx := bool_decide (idx ∈ m_function_references m);
|}.

(** ** The state *)

Inductive Order :=
| O_Initial | O_Type | O_Import | O_Function | O_Table | O_Memory | O_Tag | O_Global | O_Export | O_Start
| O_Element | O_DataCount | O_Code | O_Data.

#[export] Instance Order_eq_dec : EqDecision Order.
Proof. solve_decision. Defined.

(** The position of a variant, which derived orders compare. *)
Definition order_index (o : Order) : Z :=
  match o with
  | O_Initial => 0 | O_Type => 1 | O_Import => 2 | O_Function => 3 | O_Table => 4 | O_Memory => 5 | O_Tag => 6
  | O_Global => 7 | O_Export => 8 | O_Start => 9 | O_Element => 10 | O_DataCount => 11 | O_Code => 12
  | O_Data => 13
  end.

(** [MaybeOwned]: a shared module can no longer be changed. *)
Inductive MaybeOwned := Owned (m : WasmModule) | Shared (m : WasmModule).

Definition owned_module (x : MaybeOwned) : WasmModule := match x with Owned m | Shared m => m end.

(** [assert_mut]. *)
Definition assert_mut (x : MaybeOwned) : result WasmModule :=
  match x with Owned m => Ok m | Shared _ => Panic end.

(** [arc]: the module, and what is left behind. *)
Definition make_shared (x : MaybeOwned) : MaybeOwned := Shared (owned_module x).

Record ModuleState := mkModuleState {
  ms_module : MaybeOwned;
  ms_order : Order;
  data_segment_count : Z;
  expected_code_bodies : option Z;
  code_section_index : option Z;
}.

Definition ModuleState_default : ModuleState := mkModuleState (Owned Module_default) O_Initial 0 None None.

Definition set_ms_module (x : MaybeOwned) (s : ModuleState) : ModuleState :=
  mkModuleState x (ms_order s) (data_segment_count s) (expected_code_bodies s) (code_section_index s).
Definition set_ms_order (x : Order) (s : ModuleState) : ModuleState :=
  mkModuleState (ms_module s) x (data_segment_count s) (expected_code_bodies s) (code_section_index s).
Definition set_data_segment_count (x : Z) (s : ModuleState) : ModuleState :=
  mkModuleState (ms_module s) (ms_order s) x (expected_code_bodies s) (code_section_index s).
Definition set_expected_code_bodies (x : option Z) (s : ModuleState) : ModuleState :=
  mkModuleState (ms_module s) (ms_order s) (data_segment_count s) x (code_section_index s).
Definition set_code_section_index (x : option Z) (s : ModuleState) : ModuleState :=
  mkModuleState (ms_module s) (ms_order s) (data_segment_count s) (expected_code_bodies s) x.

(** [self.module]. *)
Definition module_of (s : ModuleState) : WasmModule := owned_module (ms_module s).

(** [self.module.assert_mut()], updated. *)
Definition update_module (f : WasmModule -> WasmModule) (s : ModuleState) : result ModuleState :=
  m ← assert_mut (ms_module s);
  Ok (set_ms_module (Owned (f m)) s).

Definition update_order (order : Order) (off : Z) (s : ModuleState) : result ModuleState :=
  if order_index order <=? order_index (ms_order s) then Err (err_new (lit "section out of order") off)
  else Ok (set_ms_order order s).

Definition validate_end (s : ModuleState) (off : Z) : result () :=
  if match m_data_count (module_of s) with
     | Some data_count => negb (data_count =? data_segment_count s)
     | None => false
     end
  then Err (err_new (lit "data count and data section have inconsistent lengths") off)
  else if match expected_code_bodies s with Some n => 0 <? n | None => false end
  then Err (err_new (lit "function and code section have inconsistent lengths") off)
  else Ok tt.

Definition next_code_index_and_type (off : Z) (s : ModuleState) : result ((Z * Z) * ModuleState) :=
  let index := match code_section_index s with
               | Some i => i
               | None => m_num_imported_functions (module_of s)
               end in
  match m_functions (module_of s) !! Z.to_nat index with
  | None => Err (err_new (lit "code section entry exceeds number of functions") off)
  | Some ty => Ok ((wrap 32 index, ty), set_code_section_index (Some (index + 1)) s)
  end.

(** ** Constant expressions *)

(** [VisitConstOperator], less what does not change. *)
Record ConstVisitor := mkConstVisitor {
  cv_uninserted_funcref : bool;
  cv_ops : OperatorValidator;
  cv_module : MaybeOwned;
}.

Section const_expr.
Context (order : Order) (f : WasmFeatures) (types : TypeList).

Definition not_const (off : Z) : BinaryReaderError :=
  err_new (lit "constant expression required: non-constant operator: {instr}") off.

Definition validate_global (m : WasmModule) (index off : Z) : result () :=
  global ← module_global_at m index off;
  if (m_num_imported_globals m <=? index) && negb (gc f) then
    Err (err_new (lit "constant expression required: global.get of locally defined global") off)
  else if global_mutable global then
    Err (err_new (lit "constant expression required: global.get of mutable global") off)
  else Ok tt.

Definition insert_ref_func (index : Z) (c : ConstVisitor) : result ConstVisitor :=
  if bool_decide (order = O_Data) then Ok (mkConstVisitor true (cv_ops c) (cv_module c))
  else
    m ← assert_mut (cv_module c);
    Ok (mkConstVisitor (cv_uninserted_funcref c) (cv_ops c)
          (Owned (set_m_function_references ({[index]} ∪ m_function_references m) m))).

(** What is checked before the operator, [None] when it is not constant.  The
    validator of operators was created with the same features. *)
Definition const_operator (o : Op.Operator) (off : Z) (c : ConstVisitor) : option (result ConstVisitor) :=
  let allowed_if (b : bool) := Some (if b then Ok c else Err (not_const off)) in
  match o with
  | Op.Mvp (Op.I32Const _ | Op.I64Const _ | Op.F32Const _ | Op.F64Const _ | Op.End)
  | Op.Simd (Op.V128Const _) | Op.ReferenceTypes (Op.RefNull _) => Some (Ok c)
  | Op.Mvp (Op.I32Add | Op.I32Sub | Op.I32Mul | Op.I64Add | Op.I64Sub | Op.I64Mul) =>
      allowed_if (extended_const (ov_features (cv_ops c)))
  | Op.Gc (Op.StructNew _ | Op.StructNewDefault _ | Op.ArrayNew _ | Op.ArrayNewDefault _ | Op.ArrayNewFixed _ _
           | Op.RefI31) => allowed_if (gc f)
  | Op.SharedEverythingThreads Op.RefI31Shared => allowed_if (shared_everything_threads f)
  | Op.Mvp (Op.GlobalGet idx) =>
      Some (validate_global (owned_module (cv_module c)) idx off;; Ok c)
  | Op.ReferenceTypes (Op.RefFunc idx) => Some (insert_ref_func idx c)
  | _ => None
  end.

(** The method of the visitor for one operator. *)
Definition visit_const_operator (off : Z) (o : Op.Operator) (c : ConstVisitor) : result ConstVisitor :=
  match const_operator o off c with
  | None => Err (not_const off)
  | Some c =>
      c ← c;
      match validate_operator (R := operator_resources (owned_module (cv_module c)) types) off o (cv_ops c) with
      | (Ok _, ops) => Ok (mkConstVisitor (cv_uninserted_funcref c) ops (cv_module c))
      | (Err e, _) => Err e
      | (Panic, _) => Panic
      end
  end.

(** [while !ops.eof() { .. }]; [Panic] also when [fuel] operators are not enough. *)
Fixpoint visit_const_operators (fuel : nat) (r : BinaryReader) (c : ConstVisitor)
  : result (BinaryReader * ConstVisitor) :=
  if eof r then Ok (r, c)
  else match fuel with
  | O => Panic
  | S fuel' =>
      match visit_operator true (visit_const_operator (original_position r)) r with
      | (Ok visited, r) => c ← visited c; visit_const_operators fuel' r c
      | (Err e, _) => Err e
      | (Panic, _) => Panic
      end
  end.
End const_expr.

Definition check_const_expr (e : ConstExpr) (expected_ty : ValType) (f : WasmFeatures) (types : TypeList)
  (s : ModuleState) : result ModuleState :=
  let r := op_reader (const_expr_operators_reader e) in
  '(r, c) ← visit_const_operators (ms_order s) f types (length (remaining_buffer r)) r
              (mkConstVisitor false (new_const_expr f expected_ty) (ms_module s));
  match finish (original_position r) (cv_ops c) with
  | (Ok _, _) => if cv_uninserted_funcref c then Panic else Ok (set_ms_module (cv_module c) s)
  | (Err e, _) => Err e
  | (Panic, _) => Panic
  end.

(** ** Adding items with constant expressions *)

Definition add_global (g : Global) (f : WasmFeatures) (types : TypeList) (off : Z) (s : ModuleState)
  : result ModuleState :=
  ty ← check_global_type (module_of s) (global_ty g) f types off;
  s ← check_const_expr (init_expr g) (content_type ty) f types s;
  update_module (fun m => set_m_globals (m_globals m ++ [ty]) m) s.

Definition add_table (t : Table) (f : WasmFeatures) (types : TypeList) (off : Z) (s : ModuleState)
  : result ModuleState :=
  ty ← check_table_type (module_of s) (table_ty t) f types off;
  s ← match table_init t with
      | RefNull =>
          if negb (is_nullable (table_element_type ty)) then
            Err (err_new (lit "type mismatch: non-defaultable element type") off)
          else Ok s
      | Expr e =>
          if negb (function_references f) then
            Err (err_new (lit "tables with expression initializers require the function-references proposal") off)
          else check_const_expr e (Ref (table_element_type ty)) f types s
      end;
  update_module (fun m => set_m_tables (m_tables m ++ [ty]) m) s.

Definition add_data_segment (d : Data) (f : WasmFeatures) (types : TypeList) (off : Z) (s : ModuleState)
  : result ModuleState :=
  match data_kind d with
  | DK_Passive => Ok s
  | DK_Active memory_index offset_expr =>
      mem ← module_memory_at (module_of s) memory_index off;
      check_const_expr offset_expr (memory_index_type mem) f types s
  end.

(** [for item in section.into_iter_with_offsets() { body(item?)? }]; the
    iterator yields at most one item per announced item, one error and the end. *)
Fixpoint section_loop {A S} `{FromReader A} (fuel : nat) (body : Z -> A -> S -> result S)
  (it : SectionLimitedIntoIter) (s : S) : result S :=
  match fuel with
  | O => Panic
  | Datatypes.S fuel' =>
      match section_next_with_offset (A := A) it with
      | (None, _) => Ok s
      | (Some x, it') => item ← x; s ← body (fst item) (snd item) s; section_loop fuel' body it' s
      end
  end.

Definition for_section {A S} `{FromReader A} (body : Z -> A -> S -> result S) (sec : SectionLimited) (s : S)
  : result S :=
  section_loop (Datatypes.S (Datatypes.S (Z.to_nat (sec_count sec)))) body (section_into_iter sec) s.

(** The closure [validate_count]. *)
Definition validate_count (count off : Z) : result () :=
  if wrap 32 MAX_WASM_TABLE_ENTRIES <? count then
    Err (err_new (lit "number of elements is out of bounds") off)
  else Ok tt.

Definition check_element_kind (k : ElementKind) (element_ty : RefType) (f : WasmFeatures) (types : TypeList)
  (off : Z) (s : ModuleState) : result ModuleState :=
  match k with
  | ELK_Active table_index offset_expr =>
      table ← module_table_at (module_of s) (match table_index with Some i => i | None => 0 end) off;
      ok ← expect (reftype_is_subtype types element_ty (table_element_type table));
      if negb ok then
        Err (err_new (mkMsg "type mismatch: invalid element type `{}` for table type `{}`"
                        [ty_to_str (Ref element_ty); ty_to_str (Ref (table_element_type table))]) off)
      else check_const_expr offset_expr (table_index_type table) f types s
  | ELK_Passive | ELK_Declared =>
      if negb (bulk_memory f) then Err (err_new (lit "bulk memory must be enabled") off) else Ok s
  end.

Definition add_element_function (types : TypeList) (off : Z) (i : Z) (s : ModuleState) : result ModuleState :=
  get_func_type (module_of s) i types off;;
  update_module (fun m => set_m_function_references ({[i]} ∪ m_function_references m) m) s.

Definition add_element_segment (e : Element) (f : WasmFeatures) (types : TypeList) (off : Z) (s : ModuleState)
  : result ModuleState :=
  element_ty ← match element_items_of e with
               | EI_Functions _ => Ok FUNC
               | EI_Expressions ty _ => module_check_ref_type (module_of s) ty f off
               end;
  s ← check_element_kind (element_kind e) element_ty f types off s;
  s ← match element_items_of e with
      | EI_Functions reader =>
          validate_count (sec_count reader) off;;
          for_section (A := Z) (add_element_function types) reader s
      | EI_Expressions _ reader =>
          validate_count (sec_count reader) off;;
          for_section (A := ConstExpr)
            (fun _ expr s => check_const_expr expr (Ref element_ty) f types s) reader s
      end;
  update_module (fun m => set_m_element_types (m_element_types m ++ [element_ty]) m) s.
