(* ===== verification/ModuleValidator.v ===== *)
(** The validator of a binary, [crates/wasmparser/src/validator.rs].

    The crate is the one built without its Cargo feature [component-model]: the
    header of a component is an error.  The payloads of components that the
    parser can yield meet the checks that the validator has for them, which fail
    in the states of a module.  As in ModuleState.v, what an operation that
    fails leaves behind is not modelled. *)

From Stdlib Require Import ZArith Lia String.
From stdpp Require Import prelude gmap.
From S2P Require Import Prelude StateLogic BinaryReader Types Operands Operators SectionReader CompositeTypes.
From S2P Require Import Items Parser ValidatorState Arity TypeList Canonical ModuleState.

Local Open Scope Z_scope.

(** ** State *)

#[export] Instance Encoding_eq_dec : EqDecision Encoding.
Proof. solve_decision. Defined.

(** [enum State]. *)
Inductive VState :=
| VS_Unparsed (expected : option Encoding)
| VS_Module
| VS_End.

(** The identifier of the validator is left out. *)
Record Validator := mkValidator {
  v_state : VState;
  v_types : TypeList;
  v_module : option ModuleState;
  v_features : WasmFeatures;
}.

Definition set_v_state (x : VState) (v : Validator) : Validator :=
  mkValidator x (v_types v) (v_module v) (v_features v).
Definition set_v_types (x : TypeList) (v : Validator) : Validator :=
  mkValidator (v_state v) x (v_module v) (v_features v).
Definition set_v_module (x : option ModuleState) (v : Validator) : Validator :=
  mkValidator (v_state v) (v_types v) x (v_features v).

Definition ensure_parsable (s : VState) (off : Z) : result () :=
  match s with
  | VS_Module => Ok tt
  | VS_Unparsed _ => Err (err_new (lit "unexpected section before header was parsed") off)
  | VS_End => Err (err_new (lit "unexpected section after parsing has completed") off)
  end.

Definition ensure_module (s : VState) (off : Z) : result () :=
  ensure_parsable s off;;
  match s with
  | VS_Module => Ok tt
  | _ => Panic
  end.

Definition ensure_component (s : VState) (section : string) (off : Z) : result () :=
  ensure_parsable s off;;
  match s with
  | VS_Module =>
      Err (err_new (lit (String.append "unexpected component "%string
             (String.append section " section while parsing a module"%string))) off)
  | _ => Panic
  end.

Definition new_with_features (f : WasmFeatures) : Validator :=
  mkValidator (VS_Unparsed None) TypeAlloc_default None f.

(** [Panic]: an [assert!] fails. *)
Definition validator_reset (v : Validator) : result Validator :=
  match v_state v, v_module v with
  | VS_End, None => Ok (set_v_state (VS_Unparsed None) v)
  | _, _ => Panic
  end.

(** The types that are known when validation ends. *)
Record Types := mkTypes { types_list : TypeList; types_module : WasmModule }.

(** The types of the module that is being parsed. *)
Definition validator_types (v : Validator) (level : Z) : option Types :=
  s ← v_module v;
  if level =? 0 then Some (mkTypes (v_types v) (module_of s)) else None.

(** ** Sections *)

Definition expected_name (e : Encoding) : string :=
  match e with EModule => "module" | EComponent => "component" end.

Definition validator_version (num : Z) (encoding : Encoding) (range : Z * Z) (v : Validator) : result Validator :=
  match v_state v with
  | VS_Unparsed expected =>
      match expected with
      | Some expected =>
          if negb (bool_decide (expected = encoding)) then
            Err (err_new (lit (String.append "expected a version header for a "%string (expected_name expected)))
                   (fst range))
          else Ok tt
      | None => Ok tt
      end
  | _ => Err (err_new (lit "wasm version header out of order") (fst range))
  end;;
  match encoding with
  | EModule =>
      if num =? WASM_MODULE_VERSION then
        match v_module v with
        | None => Ok (set_v_state VS_Module (set_v_module (Some ModuleState_default) v))
        | Some _ => Panic
        end
      else Err (err_new (mkMsg "unknown binary version: {num:#x}" [num]) (fst range))
  | EComponent =>
      if negb (component_model (v_features v)) then
        Err (err_new (mkMsg "unknown binary version and encoding combination: {num:#x} and 0x1, note: encoded as a component but the WebAssembly component model feature is not enabled - enable the feature to allow component validation" [num]) (fst range))
      else Err (err_new (lit "component model validation support disabled at compile time") (fst range))
  end.

(** [validate_section] gets the number of items and the offset of the section,
    [validate_item] also changes the types. *)
Definition process_module_section {A} `{FromReader A} (order : Order) (section : SectionLimited)
  (validate_section : Z -> Z -> ModuleState -> result ModuleState)
  (validate_item : Z -> A -> ModuleState * TypeList -> result (ModuleState * TypeList))
  (v : Validator) : result Validator :=
  let off := fst (section_range section) in
  ensure_module (v_state v) off;;
  s ← expect (v_module v);
  s ← update_order order off s;
  s ← validate_section (sec_count section) off s;
  '(s, types) ← for_section validate_item section (s, v_types v);
  Ok (set_v_module (Some s) (set_v_types types v)).

(** [check_max(.., count, ..)?; state.module.assert_mut().reserve(count)]. *)
Definition reserve {A} (field : WasmModule -> list A) (max : Z) (desc : string) (count off : Z) (s : ModuleState)
  : result ModuleState :=
  check_max (Z.of_nat (length (field (module_of s)))) count max desc off;;
  assert_mut (ms_module s);;
  Ok s.

(** An item that changes the module and not the types. *)
Definition item_of_module {A} (f : A -> TypeList -> Z -> WasmModule -> result WasmModule) (off : Z) (a : A)
  (st : ModuleState * TypeList) : result (ModuleState * TypeList) :=
  m ← assert_mut (ms_module (fst st));
  m ← f a (snd st) off m;
  Ok (set_ms_module (Owned m) (fst st), snd st).

(** An item that changes the state of the module and not the types. *)
Definition item_of_state {A} (f : A -> TypeList -> Z -> ModuleState -> result ModuleState) (off : Z) (a : A)
  (st : ModuleState * TypeList) : result (ModuleState * TypeList) :=
  s ← f a (snd st) off (fst st);
  Ok (s, snd st).

Definition type_item (f : WasmFeatures) (off : Z) (rec_group : RecGroup) (st : ModuleState * TypeList)
  : result (ModuleState * TypeList) :=
  m ← assert_mut (ms_module (fst st));
  '(m, types) ← add_types rec_group f off true m (snd st);
  Ok (set_ms_module (Owned m) (fst st), types).

Definition validator_type_section (section : SectionLimited) (v : Validator) : result Validator :=
  process_module_section (A := RecGroup) O_Type section
    (reserve m_types MAX_WASM_TYPES "types"%string) (type_item (v_features v)) v.

Definition validator_import_section (section : SectionLimited) (v : Validator) : result Validator :=
  process_module_section (A := Import) O_Import section
    (reserve m_imports MAX_WASM_IMPORTS "imports"%string)
    (item_of_module (fun i types off => add_import i (v_features v) types off)) v.

Definition expect_code_bodies (count off : Z) (s : ModuleState) : result ModuleState :=
  s ← reserve m_functions MAX_WASM_FUNCTIONS "functions"%string count off s;
  if bool_decide (expected_code_bodies s = None) then Ok (set_expected_code_bodies (Some count) s)
  else Panic.

Definition validator_function_section (section : SectionLimited) (v : Validator) : result Validator :=
  process_module_section (A := Z) O_Function section expect_code_bodies
    (item_of_module (fun ty types off => add_function ty types off)) v.

Definition validator_table_section (section : SectionLimited) (v : Validator) : result Validator :=
  process_module_section (A := Table) O_Table section
    (reserve m_tables (max_tables (v_features v)) "tables"%string)
    (item_of_state (fun t types off => add_table t (v_features v) types off)) v.

Definition validator_memory_section (section : SectionLimited) (v : Validator) : result Validator :=
  process_module_section (A := MemoryType) O_Memory section
    (reserve m_memories (max_memories (v_features v)) "memories"%string)
    (item_of_module (fun ty _ off => add_memory ty (v_features v) off)) v.

Definition validator_tag_section (section : SectionLimited) (v : Validator) : result Validator :=
  if negb (exceptions (v_features v)) then
    Err (err_new (lit "exceptions proposal not enabled") (fst (section_range section)))
  else
    process_module_section (A := TagType) O_Tag section
      (reserve m_tags MAX_WASM_TAGS "tags"%string)
      (item_of_module (fun ty types off => add_tag ty (v_features v) types off)) v.

Definition validator_global_section (section : SectionLimited) (v : Validator) : result Validator :=
  process_module_section (A := Global) O_Global section
    (reserve m_globals MAX_WASM_GLOBALS "globals"%string)
    (item_of_state (fun g types off => add_global g (v_features v) types off)) v.

Definition export_item (f : WasmFeatures) (e : Export) (types : TypeList) (off : Z) (m : WasmModule)
  : result WasmModule :=
  '(ty, m) ← export_to_entity_type e off m;
  add_export (export_name e) ty f off false types m.

Definition validator_export_section (section : SectionLimited) (v : Validator) : result Validator :=
  process_module_section (A := Export) O_Export section
    (reserve m_exports MAX_WASM_EXPORTS "exports"%string)
    (item_of_module (export_item (v_features v))) v.

(** The state of the module at a section that is not a list of items. *)
Definition enter_section (order : Order) (off : Z) (v : Validator) : result ModuleState :=
  ensure_module (v_state v) off;;
  s ← expect (v_module v);
  update_order order off s.

Definition validator_start_section (func : Z) (range : Z * Z) (v : Validator) : result Validator :=
  let off := fst range in
  s ← enter_section O_Start off v;
  ty ← get_func_type (module_of s) func (v_types v) off;
  if negb (bool_decide (func_params ty = [])) || negb (bool_decide (func_results ty = [])) then
    Err (err_new (lit "invalid start function type") off)
  else Ok (set_v_module (Some s) v).

Definition validator_element_section (section : SectionLimited) (v : Validator) : result Validator :=
  process_module_section (A := Element) O_Element section
    (reserve m_element_types MAX_WASM_ELEMENT_SEGMENTS "element segments"%string)
    (item_of_state (fun e types off => add_element_segment e (v_features v) types off)) v.

Definition validator_data_count_section (count : Z) (range : Z * Z) (v : Validator) : result Validator :=
  let off := fst range in
  s ← enter_section O_DataCount off v;
  if wrap 32 MAX_WASM_DATA_SEGMENTS <? count then
    Err (err_new (lit "data count section specifies too many data segments") off)
  else
    s ← update_module (set_m_data_count (Some count)) s;
    Ok (set_v_module (Some s) v).

(** [state.expected_code_bodies.take()] and what it is compared with. *)
Definition take_code_bodies (count off : Z) (s : ModuleState) : result ModuleState :=
  match expected_code_bodies s with
  | Some n =>
      if n =? count then Ok (set_expected_code_bodies None s)
      else Err (err_new (lit "function and code section have inconsistent lengths") off)
  | None =>
      if count =? 0 then Ok s else Err (err_new (lit "code section without function section") off)
  end.

Definition validator_code_section_start (count : Z) (range : Z * Z) (v : Validator) : result Validator :=
  let off := fst range in
  s ← enter_section O_Code off v;
  s ← take_code_bodies count off s;
  let (snapshot, types) := types_commit (v_types v) in
  s ← update_module (set_m_snapshot (Some snapshot)) s;
  Ok (set_v_module (Some s) (set_v_types types v)).

(** The function, with the module that is its resources. *)
Definition validator_code_section_entry (body : FunctionBody) (v : Validator)
  : result ((FuncToValidate * WasmModule) * Validator) :=
  let off := fst (range (body_reader body)) in
  ensure_module (v_state v) off;;
  s ← expect (v_module v);
  '((index, ty), s) ← next_code_index_and_type off s;
  let s := set_ms_module (make_shared (ms_module s)) s in
  Ok ((mkFuncToValidate index ty (v_features v), module_of s), set_v_module (Some s) v).

Definition expect_data_segments (count off : Z) (s : ModuleState) : result ModuleState :=
  check_max 0 count MAX_WASM_DATA_SEGMENTS "data segments"%string off;;
  Ok (set_data_segment_count count s).

Definition validator_data_section (section : SectionLimited) (v : Validator) : result Validator :=
  process_module_section (A := Data) O_Data section expect_data_segments
    (item_of_state (fun d types off => add_data_segment d (v_features v) types off)) v.

(** The checks that a section of a component meets first; none of them passes
    while a module is validated. *)
Definition component_section_error (name : string) (off : Z) (v : Validator) : result () :=
  if negb (component_model (v_features v)) then
    Err (err_new (lit "component model feature is not enabled") off)
  else ensure_component (v_state v) name off.

Definition validator_unknown_section {A} (id : Z) (range : Z * Z) : result A :=
  Err (err_new (mkMsg "malformed section id: {id}" [id]) (fst range)).

Definition validator_end (off : Z) (v : Validator) : result (Types * Validator) :=
  match v_state v with
  | VS_Unparsed _ => Err (err_new (lit "cannot call `end` before a header has been parsed") off)
  | VS_End => Err (err_new (lit "cannot call `end` after parsing has completed") off)
  | VS_Module =>
      s ← expect (v_module v);
      validate_end s off;;
      let (committed, types) := types_commit (v_types v) in
      Ok (mkTypes committed (module_of s), mkValidator VS_End types None (v_features v))
  end.

(** ** Payloads *)

Inductive ValidPayload :=
| VP_Ok
| VP_Parser (p : Parser)
| VP_Func (f : FuncToValidate) (resources : WasmModule) (body : FunctionBody)
| VP_End (types : Types).

Definition valid_ok (x : result Validator) : result (ValidPayload * Validator) :=
  v ← x; Ok (VP_Ok, v).

(** A payload that is only meant for components. *)
Definition component_payload (x : result ()) (ok : ValidPayload) (v : Validator)
  : result (ValidPayload * Validator) :=
  x;; Ok (ok, v).

Definition validator_payload (payload : Payload) (v : Validator) : result (ValidPayload * Validator) :=
  let of_component name (s : SectionLimited) :=
    component_payload (component_section_error name (fst (section_range s)) v) VP_Ok v in
  match payload with
  | Version num encoding range => valid_ok (validator_version num encoding range v)
  | TypeSection s => valid_ok (validator_type_section s v)
  | ImportSection s => valid_ok (validator_import_section s v)
  | FunctionSection s => valid_ok (validator_function_section s v)
  | TableSection s => valid_ok (validator_table_section s v)
  | MemorySection s => valid_ok (validator_memory_section s v)
  | TagSection s => valid_ok (validator_tag_section s v)
  | GlobalSection s => valid_ok (validator_global_section s v)
  | ExportSection s => valid_ok (validator_export_section s v)
  | StartSection func range => valid_ok (validator_start_section func range v)
  | ElementSection s => valid_ok (validator_element_section s v)
  | DataCountSection count range => valid_ok (validator_data_count_section count range v)
  | CodeSectionStart count range _ => valid_ok (validator_code_section_start count range v)
  | CodeSectionEntry body =>
      '((f, m), v) ← validator_code_section_entry body v;
      Ok (VP_Func f m body, v)
  | DataSection s => valid_ok (validator_data_section s v)
  | ModuleSection p range =>
      component_payload (ensure_component (v_state v) "module"%string (fst range)) (VP_Parser p) v
  | ComponentSection p range =>
      component_payload (ensure_component (v_state v) "component"%string (fst range)) (VP_Parser p) v
  | InstanceSection s => of_component "core instance"%string s
  | CoreTypeSection s => of_component "core type"%string s
  | ComponentInstanceSection s => of_component "instance"%string s
  | ComponentAliasSection s => of_component "alias"%string s
  | ComponentTypeSection s => of_component "type"%string s
  | ComponentCanonicalSection s => of_component "function"%string s
  | ComponentStartSection _ range =>
      component_payload (ensure_component (v_state v) "start"%string (fst range)) VP_Ok v
  | ComponentImportSection s => of_component "import"%string s
  | ComponentExportSection s => of_component "export"%string s
  | End_ off => '(types, v) ← validator_end off v; Ok (VP_End types, v)
  | CustomSection _ => Ok (VP_Ok, v)
  | UnknownSection id _ range => validator_unknown_section id range
  end.

(** ** Whole modules *)

(** What the loop over the payloads collects. *)
Record Collected := mkCollected {
  functions_to_validate : list ((FuncToValidate * WasmModule) * FunctionBody);
  last_types : option Types;
}.

Definition collect (p : ValidPayload) (c : Collected) : Collected :=
  match p with
  | VP_Func f m body => mkCollected (functions_to_validate c ++ [((f, m), body)]) (last_types c)
  | VP_End types => mkCollected (functions_to_validate c) (Some types)
  | VP_Ok | VP_Parser _ => c
  end.

(** The loop over the payloads; [None] when [fuel] of them are not enough. *)
Fixpoint validate_payloads (fuel : nat) (ps : ParseAll) (v : Validator) (c : Collected)
  : option (result (Validator * Collected)) :=
  match fuel with
  | O => None
  | S fuel' =>
      match parse_all_next ps with
      | (None, _) => Some (Ok (v, c))
      | (Some (Err e), _) => Some (Err e)
      | (Some Panic, _) => Some Panic
      | (Some (Ok payload), ps) =>
          match validator_payload payload v with
          | Ok (p, v) => validate_payloads fuel' ps v (collect p c)
          | Err e => Some (Err e)
          | Panic => Some Panic
          end
      end
  end.

(** One function; the allocations that are passed on hold no state.  Every
    operator takes a byte, so the length of the body is enough fuel. *)
Definition validate_func (f : FuncToValidate) (m : WasmModule) (body : FunctionBody) : result () :=
  v ← into_validator (R := validator_resources m) f;
  match FuncValidator_validate (R := validator_resources m) (length (buffer (body_reader body))) body
          (validator v) with
  | Some (x, _) => x
  | None => Panic
  end.

Fixpoint validate_funcs (fs : list ((FuncToValidate * WasmModule) * FunctionBody)) : result () :=
  match fs with
  | [] => Ok tt
  | ((f, m), body) :: fs' => validate_func f m body;; validate_funcs fs'
  end.

(** [Panic] also stands for a parser that does not end, which would take more
    than two payloads per byte. *)
Definition validate_all (bytes : list Z) (v : Validator) : result (Types * Validator) :=
  let parser := set_features (v_features v) (Parser_new 0) in
  match validate_payloads (2 * length bytes + 2) (parse_all parser bytes) v (mkCollected [] None) with
  | None => Panic
  | Some x =>
      '(v, c) ← x;
      validate_funcs (functions_to_validate c);;
      types ← expect (last_types c);
      Ok (types, v)
  end.

(** [wasmparser::validate]. *)
Definition validate (bytes : list Z) : result Types :=
  '(types, _) ← validate_all bytes (new_with_features WasmFeatures_default);
  Ok types.
