(* ===== verification/LocalsSpec.v ===== *)
(** Locals and their initialization, against reference definitions.

    [Locals] keeps the first locals one by one and all of them as ranges; it
    represents the list of the types of all locals.  [LocalInits] keeps an undo
    log; it represents a stack of snapshots of the initialization flags. *)

From Stdlib Require Import ZArith Lia String.
From stdpp Require Import prelude.
From S2P Require Import Prelude StateLogic BinaryReader Types Operands CompositeTypes Items ValidatorState.

Local Open Scope Z_scope.

(** ** Locals *)

(** The locals of a group. *)
Definition group_locals (g : Z * ValType) : list ValType := replicate (Z.to_nat (fst g)) (snd g).

(** The ranges, from the index [start]. *)
Fixpoint ranges (start : Z) (all : list (Z * ValType)) (tys : list ValType) : Prop :=
  match all with
  | [] => tys = []
  | (i, ty) :: all' =>
      start <= i /\ exists tys', tys = group_locals (i + 1 - start, ty) ++ tys' /\ ranges (i + 1) all' tys'
  end.

Record locals_repr (l : Locals) (tys : list ValType) : Prop := {
  repr_num : num_locals l = Z.of_nat (length tys);
  repr_first : first l = take MAX_LOCALS_TO_TRACK tys;
  repr_ranges : ranges 0 (all_locals l) tys;
}.

Lemma length_group n ty : length (group_locals (n, ty)) = Z.to_nat n.
Proof. apply length_replicate. Qed.

Lemma ranges_snoc start all tys i ty :
  ranges start all tys -> start + Z.of_nat (length tys) <= i ->
  ranges start (all ++ [(i, ty)])
    (tys ++ group_locals (i + 1 - (start + Z.of_nat (length tys)), ty)).
Proof.
  revert start tys. induction all as [|[j tyj] all IH]; intros start tys H Hi; cbn [ranges app] in *.
  - subst tys. cbn [length] in *. split; [lia|]. exists []. rewrite app_nil_r. split; [|done].
    cbn [app]. do 2 f_equal. lia.
  - destruct H as (Hj & tys' & -> & H). rewrite length_app, length_group in *. split; [done|].
    exists (tys' ++ group_locals (i + 1 - (j + 1 + Z.of_nat (length tys')), ty)).
    split; [|apply IH; [done|lia]]. rewrite <- app_assoc. do 4 f_equal. lia.
Qed.

Lemma push_first_take count ty tys :
  push_first count ty (take MAX_LOCALS_TO_TRACK tys)
  = take MAX_LOCALS_TO_TRACK (tys ++ group_locals (count, ty)).
Proof.
  unfold push_first, extend_with, group_locals. simpl fst; simpl snd.
  rewrite take_app, take_replicate, length_take. do 2 f_equal. lia.
Qed.

Lemma define_ok count ty l tys l' :
  0 < count -> locals_repr l tys -> define count ty l = (true, l') ->
  locals_repr l' (tys ++ group_locals (count, ty))
  /\ num_locals l + count <= MAX_WASM_FUNCTION_LOCALS.
Proof.
  intros Hc [Hn Hf Hr]. unfold define.
  destruct (Z.ltb_spec (2 ^ 32 - 1) (num_locals l + count)); [done|].
  cbn [num_locals first all_locals].
  destruct (Z.ltb_spec MAX_WASM_FUNCTION_LOCALS (num_locals l + count)); [done|].
  intros [= <-]. split; [|lia]. split; cbn [num_locals first all_locals].
  - rewrite length_app. unfold group_locals. rewrite length_replicate. simpl. lia.
  - rewrite Hf. apply push_first_take.
  - pose proof (ranges_snoc 0 _ _ (num_locals l + count - 1) ty Hr ltac:(lia)) as H'.
    by replace (num_locals l + count - 1 + 1 - (0 + Z.of_nat (length tys))) with count in H' by lia.
Qed.

Lemma define_fails count ty l l' :
  define count ty l = (false, l') -> MAX_WASM_FUNCTION_LOCALS < num_locals l + count.
Proof.
  unfold define. destruct (Z.ltb_spec (2 ^ 32 - 1) (num_locals l + count)).
  - intros _. unfold MAX_WASM_FUNCTION_LOCALS. lia.
  - cbn [num_locals]. by destruct (Z.ltb_spec MAX_WASM_FUNCTION_LOCALS (num_locals l + count)).
Qed.

(** The search finds the range of an index. *)
Lemma search_ranges start all tys idx :
  ranges start all tys -> start <= idx ->
  match binary_search_by_key idx all with
  | inl i => snd <$> all !! i = tys !! Z.to_nat (idx - start) /\ (i < length all)%nat
  | inr i => snd <$> all !! i = tys !! Z.to_nat (idx - start) /\ (i <= length all)%nat
  end.
Proof.
  revert start tys. induction all as [|[j ty] all IH]; intros start tys H Hi; simpl in *.
  - subst tys. split; [done|lia].
  - destruct H as (Hj & tys' & -> & H).
    assert (Hin : idx <= j ->
      Some ty = (group_locals (j + 1 - start, ty) ++ tys') !! Z.to_nat (idx - start)).
    { intros Hle. rewrite lookup_app_l; unfold group_locals; simpl.
      - symmetry. apply lookup_replicate_2. lia.
      - rewrite length_replicate. lia. }
    destruct (Z.eqb_spec j idx); [simpl; split; [apply Hin; lia|lia]|].
    destruct (Z.ltb_spec idx j); [simpl; split; [apply Hin; lia|lia]|].
    specialize (IH (j + 1) tys' H ltac:(lia)).
    assert (Hout : (group_locals (j + 1 - start, ty) ++ tys') !! Z.to_nat (idx - start)
                   = tys' !! Z.to_nat (idx - (j + 1))).
    { rewrite lookup_app_r; unfold group_locals; simpl; rewrite length_replicate; [|lia].
      f_equal. lia. }
    rewrite Hout. destruct (binary_search_by_key idx all); destruct IH as [IH1 IH2];
      (split; [exact IH1|lia]).
Qed.

Lemma locals_get_repr l tys idx :
  locals_repr l tys -> 0 <= idx -> locals_get l idx = Some (tys !! Z.to_nat idx).
Proof.
  intros [Hn Hf Hr] Hi. unfold locals_get. rewrite Hf.
  destruct (take MAX_LOCALS_TO_TRACK tys !! Z.to_nat idx) as [ty|] eqn:E.
  - apply lookup_take_Some in E as [-> _]. done.
  - pose proof (search_ranges 0 _ _ idx Hr Hi) as H. rewrite Z.sub_0_r in H.
    unfold get_bsearch. destruct (binary_search_by_key idx (all_locals l)) as [i|i].
    + destruct H as [<- Hl]. apply lookup_lt_is_Some in Hl as [x ->]. done.
    + destruct H as [<- Hl]. destruct (Nat.eqb_spec i (length (all_locals l))) as [->|].
      * by rewrite lookup_ge_None_2.
      * destruct (lookup_lt_is_Some_2 (all_locals l) i) as [x ->]; [lia|done].
Qed.

Lemma locals_repr_empty : locals_repr (mkLocals 0 [] []) [].
Proof. done. Qed.

(** Groups of locals, one after the other; [None] when there are too many. *)
Fixpoint define_groups (gs : list (Z * ValType)) (l : Locals) : option Locals :=
  match gs with
  | [] => Some l
  | g :: gs' =>
      let (ok, l) := define (fst g) (snd g) l in
      if ok then define_groups gs' l else None
  end.

Lemma define_groups_repr gs l tys :
  Forall (fun g => 0 < fst g) gs -> locals_repr l tys -> num_locals l <= MAX_WASM_FUNCTION_LOCALS ->
  match define_groups gs l with
  | Some l' => locals_repr l' (tys ++ concat (map group_locals gs))
               /\ num_locals l' <= MAX_WASM_FUNCTION_LOCALS
  | None => MAX_WASM_FUNCTION_LOCALS < Z.of_nat (length (tys ++ concat (map group_locals gs)))
  end.
Proof.
  intros Hgs. revert l tys. induction Hgs as [|[c ty] gs Hc _ IH]; intros l tys Hl Hle; cbn [define_groups].
  - by rewrite app_nil_r.
  - cbn [fst snd] in *. destruct (define c ty l) as [[] l'] eqn:E; cbn [map concat].
    + destruct (define_ok c ty l tys l' Hc Hl E) as [Hl' Hn].
      rewrite app_assoc. apply IH; [done|].
      rewrite (repr_num _ _ Hl'), length_app, length_group. rewrite (repr_num _ _ Hl) in Hn. lia.
    + apply define_fails in E. rewrite (repr_num _ _ Hl) in E.
      rewrite !length_app, length_group. lia.
Qed.

(** ** Initialization *)

(** Undoing a log clears the flags that it lists. *)
Lemma uninit_all_lookup is_ l :
  Forall (fun i => 0 <= i < Z.of_nat (length l)) is_ ->
  exists l', uninit_all is_ l = Some l' /\ length l' = length l
    /\ forall j, l' !! j = if decide (Z.of_nat j ∈ is_) then l !! j ≫= fun _ => Some false else l !! j.
Proof.
  induction 1 as [|i is_ Hi _ (l' & E & Hlen & Hl')].
  - exists l. split_and!; [done..|]. intros j. rewrite decide_False; [done|]. apply not_elem_of_nil.
  - exists (<[Z.to_nat i := false]> l'). cbn [uninit_all foldr]. fold (uninit_all is_ l).
    rewrite E. cbn [mbind option_bind]. rewrite decide_True by lia.
    rewrite length_insert. split_and!; [done..|]. intros j.
    destruct (decide (j = Z.to_nat i)) as [->|Hj].
    + rewrite list_lookup_insert_eq by lia. rewrite decide_True by (rewrite elem_of_cons; left; lia).
      destruct (lookup_lt_is_Some_2 l (Z.to_nat i)) as [x ->]; [lia|done].
    + rewrite list_lookup_insert_ne by done. rewrite Hl'.
      destruct (decide (Z.of_nat j ∈ is_)) as [Hin|Hin].
      * rewrite decide_True; [done|]. rewrite elem_of_cons. by right.
      * rewrite decide_False; [done|]. rewrite elem_of_cons. intros [?|?]; [lia|done].
Qed.

(** The flags, and the flags when each open scope was entered, the innermost
    first: what entering and leaving a scope and initializing a local mean. *)
Inductive scope_op := Sc_init (i : Z) | Sc_enter | Sc_leave.

Record Scopes := mkScopes { flags : list bool; saved : list (list bool) }.

Definition scope_step (o : scope_op) (s : Scopes) : option Scopes :=
  match o with
  | Sc_init i => Some (mkScopes (<[Z.to_nat i := true]> (flags s)) (saved s))
  | Sc_enter => Some (mkScopes (flags s) (flags s :: saved s))
  | Sc_leave =>
      match saved s with
      | [] => None
      | fs :: saved' => Some (mkScopes fs saved')
      end
  end.

(** The same with [LocalInits] and the heights that the frames keep. *)
Definition inits_step (o : scope_op) (s : LocalInits * list Z) : option (LocalInits * list Z) :=
  let (li, hs) := s in
  match o with
  | Sc_init i => li ← set_init i li; Some (li, hs)
  | Sc_enter => Some (li, li_push_ctrl li :: hs)
  | Sc_leave =>
      match hs with
      | [] => None
      | h :: hs' => li ← li_pop_ctrl h li; Some (li, hs')
      end
  end.

Fixpoint run_scopes {S} (step : scope_op -> S -> option S) (os : list scope_op) (s : S) : option S :=
  match os with
  | [] => Some s
  | o :: os' => match step o s with Some s' => run_scopes step os' s' | None => None end
  end.

(** Undoing the log down to a height gives the flags that were saved with it. *)
Fixpoint log_repr (fs : list bool) (log : list Z) (hs : list Z) (saved : list (list bool)) : Prop :=
  Forall (fun i => 0 <= i < Z.of_nat (length fs)) log /\
  match hs, saved with
  | [], [] => True
  | h :: hs', fs' :: saved' =>
      0 <= h <= Z.of_nat (length log)
      /\ let n := (length log - Z.to_nat h)%nat in
         uninit_all (take n log) fs = Some fs' /\ log_repr fs' (drop n log) hs' saved'
  | _, _ => False
  end.

(** Locals below [first_non_default_local] are initialized everywhere. *)
Definition first_ok (first : Z) (fs : list bool) : Prop :=
  forall j b, Z.of_nat j < first -> fs !! j = Some b -> b = true.

Record scopes_repr (c : LocalInits * list Z) (s : Scopes) : Prop := {
  sr_flags : inits_of c.1 = flags s;
  sr_log : log_repr (flags s) (inits c.1) c.2 (saved s);
  sr_first : Forall (first_ok (first_non_default_local c.1)) (flags s :: saved s);
}.

Lemma is_uninit_repr c s i :
  scopes_repr c s -> 0 <= i < Z.of_nat (length (flags s)) ->
  is_uninit i c.1 = negb <$> flags s !! Z.to_nat i.
Proof.
  intros [Hf _ H1] Hi. unfold is_uninit. rewrite Hf.
  destruct (Z.ltb_spec i (first_non_default_local c.1)); [|done].
  destruct (lookup_lt_is_Some_2 (flags s) (Z.to_nat i)) as [b Hb]; [lia|]. rewrite Hb.
  apply Forall_cons in H1 as [H1 _]. by rewrite (H1 (Z.to_nat i) b ltac:(lia) Hb).
Qed.

(** Logging a local that was not initialized. *)
Lemma log_repr_init fs log hs saved i :
  fs !! Z.to_nat i = Some false -> 0 <= i < Z.of_nat (length fs) ->
  log_repr fs log hs saved -> log_repr (<[Z.to_nat i := true]> fs) (i :: log) hs saved.
Proof.
  intros Hb Hi. destruct hs as [|h hs], saved as [|fs' saved]; cbn [log_repr]; rewrite length_insert;
    (intros [Hlog H]; split; [by constructor|]); try done.
  destruct H as (Hh & Hu & H). split; [cbn [length]; lia|]. cbn [length].
  replace (S (length log) - Z.to_nat h)%nat with (S (length log - Z.to_nat h)) by lia.
  set (n := (length log - Z.to_nat h)%nat) in *. cbn [take drop]. split; [|done].
  assert (Hn : Forall (fun i => 0 <= i < Z.of_nat (length fs)) (take n log)) by by apply Forall_take.
  destruct (uninit_all_lookup (take n log) fs Hn) as (l1 & E1 & _ & L1).
  destruct (uninit_all_lookup (i :: take n log) (<[Z.to_nat i:=true]> fs)) as (l2 & E2 & _ & L2).
  { rewrite length_insert. by constructor. }
  rewrite E2. rewrite Hu in E1. injection E1 as ->. f_equal. apply list_eq. intros j.
  rewrite L1, L2. destruct (decide (j = Z.to_nat i)) as [->|Hj].
  - rewrite list_lookup_insert_eq by lia. rewrite Hb.
    rewrite decide_True by (rewrite elem_of_cons; left; lia). by destruct (decide _).
  - rewrite list_lookup_insert_ne by done. apply decide_ext. rewrite elem_of_cons.
    split; [|tauto]. intros [?|?]; [lia|done].
Qed.

Lemma first_ok_init first fs i : first_ok first fs -> first_ok first (<[Z.to_nat i := true]> fs).
Proof.
  intros H j b Hj. destruct (decide (Z.to_nat i = j)) as [<-|Hne].
  - destruct (decide (Z.to_nat i < length fs)%nat).
    + rewrite list_lookup_insert_eq by lia. congruence.
    + rewrite list_insert_ge by lia. by apply H.
  - rewrite list_lookup_insert_ne by done. by apply H.
Qed.

Lemma scope_init_repr c s i :
  scopes_repr c s -> 0 <= i < Z.of_nat (length (flags s)) ->
  exists c' s', inits_step (Sc_init i) c = Some c' /\ scope_step (Sc_init i) s = Some s'
    /\ scopes_repr c' s'.
Proof.
  intros Hr Hi. pose proof (is_uninit_repr _ _ _ Hr Hi) as Hu. destruct Hr as [Hf Hl H1].
  destruct c as [li hs]. cbn [fst snd] in *. cbn [inits_step scope_step]. unfold set_init. rewrite Hu.
  destruct (lookup_lt_is_Some_2 (flags s) (Z.to_nat i)) as [b Hb]; [lia|]. rewrite Hb.
  apply Forall_cons in H1 as [H1 Hs]. destruct b; cbn [negb fmap option_fmap option_map mbind option_bind].
  - do 2 eexists. split_and!; [done..|]. cbn [flags saved]. rewrite list_insert_id by done.
    split; cbn [fst snd flags saved]; [done..|by constructor].
  - do 2 eexists. split_and!; [done..|].
    split; cbn [fst snd flags saved inits_of inits first_non_default_local].
    + by rewrite Hf.
    + by apply log_repr_init.
    + constructor; [by apply first_ok_init|done].
Qed.

Lemma scope_leave_repr c s :
  scopes_repr c s ->
  match inits_step Sc_leave c, scope_step Sc_leave s with
  | Some c', Some s' => scopes_repr c' s'
  | None, None => True
  | _, _ => False
  end.
Proof.
  intros [Hf Hl H1]. destruct c as [li hs]. cbn [fst snd] in *. cbn [inits_step scope_step].
  destruct s as [fs sv]. cbn [flags saved] in *. subst fs.
  destruct hs as [|h hs], sv as [|fs' sv]; cbn [log_repr] in Hl; try tauto.
  destruct Hl as (_ & Hh & Hu & Hl). unfold li_pop_ctrl.
  destruct (Z.ltb_spec (Z.of_nat (length (inits li)) - h) 0); [lia|].
  replace (Z.to_nat (Z.of_nat (length (inits li)) - h)) with (length (inits li) - Z.to_nat h)%nat by lia.
  rewrite Hu. cbn [mbind option_bind].
  split; cbn [fst snd flags saved inits_of inits first_non_default_local]; [done..|].
  by apply Forall_cons in H1 as [_ H1].
Qed.

Lemma scope_enter_repr c s :
  scopes_repr c s ->
  match inits_step Sc_enter c, scope_step Sc_enter s with
  | Some c', Some s' => scopes_repr c' s'
  | _, _ => False
  end.
Proof.
  intros [Hf Hl H1]. destruct c as [li hs]. cbn [fst snd] in *. cbn [inits_step scope_step].
  split; cbn [fst snd flags saved]; [done| |].
  - cbn [log_repr]. unfold li_push_ctrl. rewrite Nat2Z.id, Nat.sub_diag. cbn [take drop uninit_all foldr].
    split_and!; [|lia|lia|done..]. destruct hs, (saved s); apply Hl.
  - apply Forall_cons in H1 as H1'. constructor; tauto.
Qed.

(** Initializations of locals that are there. *)
Definition scope_op_ok (n : nat) (o : scope_op) : Prop :=
  match o with Sc_init i => 0 <= i < Z.of_nat n | _ => True end.

Definition scopes_len (n : nat) (s : Scopes) : Prop :=
  Forall (fun fs => length fs = n) (flags s :: saved s).

Lemma scope_step_len n o s s' : scopes_len n s -> scope_step o s = Some s' -> scopes_len n s'.
Proof.
  unfold scopes_len. intros [Hf Hs]%Forall_cons. destruct o; cbn [scope_step].
  - intros [= <-]. constructor; [|done]. cbn [flags]. by rewrite length_insert.
  - intros [= <-]. by repeat constructor.
  - destruct (saved s) as [|fs sv]; [done|]. by intros [= <-].
Qed.

Lemma scope_step_repr n c s o :
  scopes_repr c s -> scopes_len n s -> scope_op_ok n o ->
  match inits_step o c, scope_step o s with
  | Some c', Some s' => scopes_repr c' s'
  | None, None => True
  | _, _ => False
  end.
Proof.
  intros Hr Hn Ho. destruct o as [i| |].
  - apply Forall_cons in Hn as [Hn _]. cbn [scope_op_ok] in Ho. rewrite <- Hn in Ho.
    destruct (scope_init_repr c s i Hr Ho) as (c' & s' & -> & -> & H). done.
  - pose proof (scope_enter_repr c s Hr) as H.
    destruct (inits_step Sc_enter c); [|done]. by destruct (scope_step Sc_enter s).
  - by apply scope_leave_repr.
Qed.

Lemma run_scopes_repr n os c s :
  scopes_repr c s -> scopes_len n s -> Forall (scope_op_ok n) os ->
  match run_scopes inits_step os c, run_scopes scope_step os s with
  | Some c', Some s' => scopes_repr c' s' /\ scopes_len n s'
  | None, None => True
  | _, _ => False
  end.
Proof.
  intros Hr Hn Hos. revert c s Hr Hn. induction Hos as [|o os Ho _ IH]; intros c s Hr Hn; [done|].
  cbn [run_scopes]. pose proof (scope_step_repr n c s o Hr Hn Ho) as H.
  pose proof (fun s' => scope_step_len n o s s' Hn) as Hl.
  destruct (inits_step o c) as [c'|], (scope_step o s) as [s'|]; try done.
  apply IH; [done|by apply Hl].
Qed.

(** ** The flags at the start of a function *)

Definition group_flags (g : Z * ValType) : list bool := replicate (Z.to_nat (fst g)) (is_defaultable (snd g)).

Definition define_inits (gs : list (Z * ValType)) (li : LocalInits) : LocalInits :=
  foldl (fun li g => li_define_locals (fst g) (snd g) li) li gs.

Definition initial_flags (nparams : Z) (gs : list (Z * ValType)) : list bool :=
  replicate (Z.to_nat nparams) true ++ concat (map group_flags gs).

Record inits_repr (li : LocalInits) (fs : list bool) : Prop := {
  ir_flags : inits_of li = fs;
  ir_log : inits li = [];
  ir_first : first_ok (first_non_default_local li) fs;
  ir_bound : first_non_default_local li = 2 ^ 32 - 1 \/ first_non_default_local li <= Z.of_nat (length fs);
}.

Lemma first_ok_app first fs n b :
  first_ok first fs -> b = true \/ first <= Z.of_nat (length fs) -> first_ok first (fs ++ replicate n b).
Proof.
  intros H Hb j x Hj [Hx|[Hl Hx]]%lookup_app_Some; [by eapply H|].
  apply lookup_replicate in Hx as [-> _]. destruct Hb; [done|lia].
Qed.

Lemma li_define_locals_repr li fs g :
  inits_repr li fs -> Z.of_nat (length fs) < 2 ^ 32 -> inits_repr (li_define_locals (fst g) (snd g) li) (fs ++ group_flags g).
Proof.
  intros [Hf Hl H1 Hb] Hlen. unfold li_define_locals. rewrite Hf.
  rewrite wrap_small by (unfold in_u; lia).
  assert (Hm : forall x, first_ok x fs /\ (x = 2 ^ 32 - 1 \/ x <= Z.of_nat (length fs)) ->
    is_defaultable (snd g) = true \/ x <= Z.of_nat (length fs) ->
    inits_repr (mkLocalInits (extend_with (Z.to_nat (fst g)) (is_defaultable (snd g)) fs) (inits li) x)
      (fs ++ group_flags g)).
  { intros x [Hx Hxb] Hd. split; cbn [inits_of inits first_non_default_local]; [done..| |].
    - by apply first_ok_app.
    - rewrite length_app. lia. }
  destruct (Z.eqb_spec (first_non_default_local li) (2 ^ 32 - 1)) as [E|E];
    destruct (is_defaultable (snd g)) eqn:D; cbn [negb andb]; apply Hm;
    try (split; [done|lia]); try (by left); try (right; lia).
  split; [|lia]. intros j b Hj Hx. apply (H1 j b); [lia|done].
Qed.

Lemma define_inits_repr gs li fs :
  inits_repr li fs -> Z.of_nat (length (fs ++ concat (map group_flags gs))) < 2 ^ 32 ->
  inits_repr (define_inits gs li) (fs ++ concat (map group_flags gs)).
Proof.
  revert li fs. induction gs as [|g gs IH]; intros li fs H Hl; cbn [define_inits foldl map concat].
  - by rewrite app_nil_r.
  - rewrite app_assoc. cbn [map concat] in Hl. rewrite app_assoc in Hl. apply IH; [|done].
    apply li_define_locals_repr; [done|]. rewrite !length_app in Hl. lia.
Qed.

Lemma define_params_repr n : 0 <= n -> inits_repr (define_params n LocalInits_default) (replicate (Z.to_nat n) true).
Proof.
  intros Hn. split; cbn [define_params inits_of inits first_non_default_local LocalInits_default]; [done..| |].
  - intros j b _ Hj. by apply lookup_replicate in Hj as [-> _].
  - by left.
Qed.

Lemma initial_scopes_repr li fs : inits_repr li fs -> scopes_repr (li, []) (mkScopes fs []).
Proof.
  intros [Hf Hl H1 _]. split; cbn [fst snd flags saved]; [done| |].
  - rewrite Hl. by split.
  - by repeat constructor.
Qed.
