(* ===== verification/ValidatorLogic.v ===== *)
(** A program logic for the operator validator.

    [moves v0 p q v]: from [v0] to [v] the control frames and the locals stayed
    as they were, [p] operands were popped and [q] pushed, and [v] satisfies the
    invariant [inv]. *)

From Stdlib Require Import ZArith Lia String.
From stdpp Require Import prelude.
From S2P Require Import Prelude StateLogic BinaryReader Types TypesSpec Operands CompositeTypes Items.
From S2P Require Import ValidatorState OperatorValidator LocalsSpec.

Local Open Scope Z_scope.

(** ** What the module promises *)

(** A heap type as it is read: an index, if any, is one of the module. *)
Definition ht_unresolved (h : HeapType) : Prop :=
  match h with
  | Abstract _ _ | Concrete (Module_ _) => True
  | Concrete _ => False
  end.

Section canonical.
Context {R : WasmModuleResources}.

(** The module has a type with this identifier. *)
Definition known (id : CoreTypeId) : Prop := is_Some (sub_type_at_id id).

(** A heap type that [check_heap_type] has seen. *)
Definition ht_canonical (h : HeapType) : Prop :=
  match h with
  | Abstract _ _ => True
  | Concrete (Id_ id) => in_u 20 id /\ known id
  | Concrete _ => False
  end.

Definition rt_canonical (r : RefType) : Prop := exists n h, ht_canonical h /\ rt_new n h = Some r.

Definition vt_canonical (t : ValType) : Prop :=
  match t with Ref r => rt_canonical r | _ => True end.

(** A type as it is on the operand stack. *)
Definition mt_canonical (t : MaybeType ValType) : Prop :=
  match t with Known t => vt_canonical t | _ => True end.

Definition mr_canonical (t : MaybeType RefType) : Prop :=
  match t with Known r => rt_canonical r | _ => True end.

Definition ft_canonical (f : FieldType) : Prop := vt_canonical (storage_unpack (element_type f)).

(** The readers limit types to far fewer elements. *)
Definition small {A} (l : list A) : Prop := Z.of_nat (length l) < 2 ^ 30.

Record func_ok (f : FuncType) : Prop := {
  fo_params : Forall vt_canonical (func_params f);
  fo_results : Forall vt_canonical (func_results f);
  fo_small : small (func_params f) /\ small (func_results f);
}.

(** Function types are canonical, and a continuation is one of a function. *)
Definition sub_ok (t : SubType) : Prop :=
  match inner (composite_type_of t) with
  | CFunc f => func_ok f
  | CStruct s => small (fields s) /\ Forall ft_canonical (fields s)
  | CArray a => ft_canonical (array_element a)
  | CCont c =>
      rt_canonical (rt_concrete true (cont_index c)) /\ exists f, func_type_of_cont_type c = Some f /\ func_ok f
  end.
End canonical.

Class ResourcesSpec (R : WasmModuleResources) : Prop := {
  is_subtype_refl t : is_subtype t t = Some true;
  is_subtype_spec a b : vt_canonical a -> vt_canonical b -> is_Some (is_subtype a b);
  is_shared_spec r : rt_canonical r -> is_Some (is_shared r);
  check_heap_type_spec h off :
    ht_unresolved h ->
    match check_heap_type h off with
    | Ok h' => ht_canonical h'
    | Err _ => True
    | Panic => False
    end;
  top_type_spec h : ht_canonical h -> exists s t, top_type h = Some (Abstract s t);
  sub_type_at_spec i : exists o, sub_type_at i = Some o /\ forall t, o = Some t -> sub_ok t;
  sub_type_at_id_spec id t : sub_type_at_id id = Some t -> sub_ok t;
  tag_at_spec i : exists o, tag_at i = Some o /\ forall f, o = Some f -> func_ok f;
  table_at_spec i t : table_at i = Some t -> rt_canonical (table_element_type t);
  global_at_spec i g : global_at i = Some g -> vt_canonical (content_type g);
  element_type_at_spec i r : element_type_at i = Some r -> rt_canonical r;
  type_id_of_function_spec i id : type_id_of_function i = Some id -> 0 <= id /\ known id;
}.

Section facts.
Context {R : WasmModuleResources}.

Lemma ht_canonical_valid h : ht_canonical h -> ht_valid h.
Proof. destruct h as [|[]]; try done. by intros [? _]. Qed.

Lemma rt_canonical_valid r : rt_canonical r -> rt_valid r.
Proof. intros (n & h & Hh & Hr). exists n, h. split; [by apply ht_canonical_valid|done]. Qed.

Lemma rt_new_canonical n h : ht_canonical h -> exists r, rt_new n h = Some r /\ rt_canonical r.
Proof.
  intros Hh. destruct (rt_new_heap_type n h (ht_canonical_valid h Hh)) as (r & Hr & _).
  exists r. split; [done|]. by exists n, h.
Qed.

(** A canonical concrete reference refers to a type by its identifier. *)
Lemma canonical_concrete r :
  rt_canonical r -> is_concrete_type_ref r = true ->
  exists i id, rt_type_index r = Some i /\ packed_as_core_type_id i = Some id /\ known id.
Proof.
  intros (n & h & Hh & Hr) Hc. destruct h as [s t|[i|i|id]]; try done.
  - injection Hr as <-. by destruct n, s, t.
  - simpl in Hr. destruct (unpack_pack (Id_ id) (proj1 Hh)) as (p & Hp & Hin & Hu). simpl in Hp.
    rewrite Hp in Hr. injection Hr as <-. destruct (concrete_fields n p Hin) as (_ & _ & ->).
    exists p. unfold packed_as_core_type_id, unpack in *.
    destruct (packed_kind p =? MODULE_KIND); [done|]. destruct (packed_kind p =? REC_GROUP_KIND); [done|].
    destruct (packed_kind p =? ID_KIND); [|done]. injection Hu as Hid. exists id. rewrite Hid. by destruct Hh.
Qed.

Lemma rt_new_is_canonical n h r : ht_canonical h -> rt_new n h = Some r -> rt_canonical r.
Proof. intros Hh Hr. by exists n, h. Qed.

Lemma as_non_null_canonical r : rt_canonical r -> rt_canonical (as_non_null r).
Proof.
  intros (n & h & Hh & Hr). exists false, h. split; [done|].
  by apply (as_non_null_new n); [apply ht_canonical_valid|].
Qed.

Lemma maybe_val_canonical t : mr_canonical t -> mt_canonical (maybe_val t).
Proof. by destruct t. Qed.

Lemma maybe_as_non_null_canonical t : mr_canonical t -> mr_canonical (maybe_as_non_null t).
Proof. destruct t; [done..|]. apply as_non_null_canonical. Qed.

(** ** The invariant *)

(** Frames are nested: the operands and the log of initializations of an outer
    frame are below those of an inner one. *)
Fixpoint nested (n i : Z) (cs : list Frame) : Prop :=
  match cs with
  | [] => True
  | c :: cs' =>
      0 <= height c <= n /\ 0 <= init_height c <= i /\ nested (height c) (init_height c) cs'
  end.

Definition bt_canonical (b : BlockType) : Prop :=
  match b with BT_Type t => vt_canonical t | _ => True end.

Record inv (v : OperatorValidator) : Prop := {
  inv_nested : nested (Z.of_nat (length (operands v))) (Z.of_nat (length (inits (local_inits v)))) (control v);
  inv_operands : Forall mt_canonical (operands v);
  inv_popped : Forall mt_canonical (popped_types_tmp v);
  inv_frames : Forall (fun c => bt_canonical (frame_block_type c)) (control v);
  inv_locals : exists tys, locals_repr (locals v) tys /\ Forall vt_canonical tys
    /\ length (inits_of (local_inits v)) = length tys;
  inv_log : Forall (fun i => 0 <= i < Z.of_nat (length (inits_of (local_inits v)))) (inits (local_inits v));
}.

(** The validator knows where the function ended once no frame is left. *)
Definition ended (v : OperatorValidator) : Prop :=
  control v = [] -> end_which_emptied_control v <> None.

Record moves (v0 : OperatorValidator) (p q : Z) (v : OperatorValidator) : Prop := {
  mv_inv : inv v;
  mv_control : control v = control v0;
  mv_inits : local_inits v = local_inits v0;
  mv_locals : locals v = locals v0;
  mv_features : ov_features v = ov_features v0;
  mv_end : end_which_emptied_control v = end_which_emptied_control v0;
  mv_count : pop_push_count v = (fst (pop_push_count v0) + p, snd (pop_push_count v0) + q);
}.

Lemma moves_refl v : inv v -> moves v 0 0 v.
Proof. intros Hv. split; try done. destruct (pop_push_count v). simpl. f_equal; lia. Qed.

Lemma moves_trans v0 p q v1 p' q' v2 :
  moves v0 p q v1 -> moves v1 p' q' v2 -> moves v0 (p + p') (q + q') v2.
Proof.
  intros [] []. split; try congruence. rewrite mv_count1, mv_count0. simpl. f_equal; lia.
Qed.

Lemma nested_mono n n' i i' cs : n <= n' -> i <= i' -> nested n i cs -> nested n' i' cs.
Proof. intros Hn Hi. destruct cs; [done|]. cbn [nested]. intuition lia. Qed.

End facts.

(** * The rules of [safe] for the methods of the operator validator. *)

Lemma set_operands_id v ty tys :
  operands v = ty :: tys ->
  set_operands (ty :: operands (set_operands tys v)) (set_operands tys v) = v.
Proof. destruct v. cbn. by intros ->. Qed.

Section rules.
Context {R : WasmModuleResources} {RS : ResourcesSpec R} (off : Z).

(** ** Operands *)

(** A type that was put back is popped as if it had stayed. *)
Lemma pop_operand_put_back expected v ty tys :
  operands v = ty :: tys ->
  _pop_operand off expected (Some ty) (set_operands tys v) = _pop_operand off expected None v.
Proof.
  intros E. unfold _pop_operand. rewrite !ST_bind_eq. cbn [modify].
  by rewrite (set_operands_id v ty tys E).
Qed.

(** The fast path changes nothing. *)
Lemma pop_operand_slow expected v :
  (forall t, is_subtype t t = Some true) -> pop_operand off expected v = _pop_operand off expected None v.
Proof.
  intros Hrefl. unfold pop_operand. rewrite ST_bind_eq. cbn [gets id].
  destruct (operands v) as [|ty tys] eqn:Eo; [done|]. rewrite ST_bind_eq. cbn [modify].
  destruct ty as [|u|t]; try (by apply pop_operand_put_back).
  destruct (control v) as [|c cs] eqn:Ec; [by apply pop_operand_put_back|].
  destruct (bool_decide_reflect (Some t = expected)) as [<-|]; [|by apply pop_operand_put_back].
  destruct (Z.leb_spec (height c) (Z.of_nat (length tys))) as [Hh|]; [|by apply pop_operand_put_back].
  cbn [andb]. unfold _pop_operand, record_pop, mbind, ST_bind, modify, gets. cbn [id].
  rewrite Ec, Eo. cbn [length].
  destruct (Z.eqb_spec (Z.of_nat (S (length tys))) (height c)); [lia|].
  cbn [andb]. unfold mret, ST_ret, check_popped, mbind, ST_bind, unwrap, when. by rewrite Hrefl.
Qed.

Lemma safe_is_subtype a b v (Q : bool -> OperatorValidator -> Prop) :
  vt_canonical a -> vt_canonical b -> (forall r, Q r v) -> safe (unwrap (is_subtype a b)) v Q.
Proof. intros Ha Hb HQ. destruct (is_subtype_spec a b Ha Hb) as [r ->]. apply HQ. Qed.

Lemma safe_is_shared r v (Q : bool -> OperatorValidator -> Prop) :
  rt_canonical r -> (forall b, Q b v) -> safe (unwrap (is_shared r)) v Q.
Proof. intros Hr HQ. destruct (is_shared_spec r Hr) as [b ->]. apply HQ. Qed.

(** A reference to an abstract heap type. *)
Lemma safe_rt_new_abstract n s t v (Q : RefType -> OperatorValidator -> Prop) :
  (forall r, rt_canonical r -> Q r v) -> safe (unwrap (rt_new n (Abstract s t))) v Q.
Proof.
  intros HQ. destruct (rt_new_canonical n (Abstract s t) I) as (r & Hr & Hc). eapply safe_unwrap; [done|]. by apply HQ.
Qed.

Lemma check_popped_safe actual expected v :
  mt_canonical actual -> vt_canonical expected -> safe (check_popped off actual expected) v (fun _ v' => v' = v).
Proof.
  intros Ha He. destruct actual as [|[u|]|t]; cbn [check_popped].
  - done.
  - destruct expected; try done. apply safe_bind, safe_is_shared; [done|]. intros s.
    apply safe_bind, safe_rt_new_abstract. intros r1 Hr. apply safe_bind, safe_is_subtype; [done..|].
    intros b. by apply safe_check.
  - by destruct expected.
  - apply safe_bind, safe_is_subtype; [done..|]. intros b. by apply safe_check.
Qed.

(** Popping and pushing one operand. *)
Lemma moves_operands v0 p q v p' q' os :
  moves v0 p q v ->
  match control v with [] => True | c :: _ => height c <= Z.of_nat (length os) end ->
  Forall mt_canonical os ->
  moves v0 (p + p') (q + q')
    (set_count (fst (pop_push_count v) + p', snd (pop_push_count v) + q') (set_operands os v)).
Proof.
  intros [[Hn Ho Hpo Hf Hl Hg] Hc Hi Hlo Hft He Hct] Hh Hos. split; try done.
  - split; try done. cbn -[Z.of_nat]. destruct (control v); [done|]. cbn [nested] in *. intuition lia.
  - cbn. rewrite Hct. cbn. f_equal; lia.
Qed.

Lemma safe_pop_operand expected v0 p q v (Q : MaybeType ValType -> OperatorValidator -> Prop) :
  moves v0 p q v -> match expected with Some t => vt_canonical t | None => True end ->
  (forall ty v', moves v0 (p + 1) q v' -> mt_canonical ty -> control v <> [] -> Q ty v') ->
  safe (pop_operand off expected) v Q.
Proof.
  intros Hm Hexp HQ. unfold safe. rewrite (pop_operand_slow _ _ is_subtype_refl).
  change (safe (_pop_operand off expected None) v Q). unfold _pop_operand.
  apply safe_bind, safe_modify, safe_bind, safe_gets. cbn [id].
  destruct (control v) as [|c cs] eqn:Ec; [done|]. apply safe_bind.
  pose proof (inv_nested _ (mv_inv _ _ _ _ Hm)) as Hn. rewrite Ec in Hn. cbn [nested] in Hn.
  pose proof (inv_operands _ (mv_inv _ _ _ _ Hm)) as Hcan.
  apply (safe_mono _ _ (fun ty v' => mt_canonical ty /\ exists os, v' = set_operands os v
    /\ height c <= Z.of_nat (length os) /\ Forall mt_canonical os)).
  { destruct (Z.eqb_spec (Z.of_nat (length (operands v))) (height c)); cbn [andb].
    - destruct (unreachable_ c); [|done]. split; [done|]. exists (operands v). split; [by destruct v|split; [lia|done]].
    - destruct (operands v) as [|ty os] eqn:Eo; [cbn [length] in *; lia|].
      apply safe_bind, safe_modify, safe_ret.
      apply Forall_cons in Hcan as [Hty Hcan]. split; [done|]. exists os. cbn [length] in *. split_and!; [done|lia|done]. }
  intros ty v' (Hty & os & -> & Hos & Hoc). apply safe_bind.
  apply (safe_mono _ _ (fun _ v' => v' = set_operands os v)).
  { destruct expected; [by apply check_popped_safe|done]. }
  intros _ v' ->. apply safe_bind, safe_modify, safe_ret. apply HQ; [|done..].
  pose proof (moves_operands v0 p q v 1 0 os Hm) as H. rewrite Ec, !Z.add_0_r in H. by apply H.
Qed.

Lemma safe_push_operand ty v0 p q v (Q : () -> OperatorValidator -> Prop) :
  moves v0 p q v -> mt_canonical ty -> (forall v', moves v0 p (q + 1) v' -> Q tt v') ->
  safe (push_operand ty) v Q.
Proof.
  intros Hm Hty HQ. unfold push_operand. apply safe_bind, safe_modify, safe_modify. apply HQ.
  pose proof (moves_operands v0 p q v 0 1 (ty :: operands v) Hm) as H. rewrite !Z.add_0_r in H.
  apply H; [|constructor; [done|apply (inv_operands _ (mv_inv _ _ _ _ Hm))]].
  pose proof (inv_nested _ (mv_inv _ _ _ _ Hm)) as Hn.
  destruct (control v); [done|]. cbn [nested length] in *. lia.
Qed.

Lemma safe_push_type ty v0 p q v (Q : () -> OperatorValidator -> Prop) :
  moves v0 p q v -> vt_canonical ty -> (forall v', moves v0 p (q + 1) v' -> Q tt v') ->
  safe (push_type ty) v Q.
Proof. apply (safe_push_operand (Known ty)). Qed.

Lemma safe_pop_type ty v0 p q v (Q : () -> OperatorValidator -> Prop) :
  moves v0 p q v -> vt_canonical ty -> (forall v', moves v0 (p + 1) q v' -> Q tt v') -> safe (pop_type off ty) v Q.
Proof.
  intros Hm Hty HQ. unfold pop_type. apply safe_bind. eapply safe_pop_operand; [done..|].
  intros ? v' H _ _. by apply HQ.
Qed.

Lemma safe_pop_types tys v0 p q v (Q : () -> OperatorValidator -> Prop) :
  moves v0 p q v -> Forall vt_canonical tys ->
  (forall v', moves v0 (p + Z.of_nat (length tys)) q v' -> Q tt v') ->
  safe (pop_types off tys) v Q.
Proof.
  intros Hm Htys HQ. unfold pop_types.
  apply (safe_for _ (fun k v' => moves v0 (p + Z.of_nat k) q v')).
  - by rewrite Z.add_0_r.
  - intros k ty w Hk Hw. eapply safe_pop_type; [done|by eapply Forall_lookup_1; [apply Forall_rev|]|]. intros w' Hw'.
    by replace (p + Z.of_nat (S k)) with (p + Z.of_nat k + 1) by lia.
  - intros v'. rewrite length_rev. apply HQ.
Qed.

Lemma safe_push_types tys v0 p q v (Q : () -> OperatorValidator -> Prop) :
  moves v0 p q v -> Forall vt_canonical tys ->
  (forall v', moves v0 p (q + Z.of_nat (length tys)) v' -> Q tt v') ->
  safe (push_types tys) v Q.
Proof.
  intros Hm Htys HQ. unfold push_types.
  apply (safe_for _ (fun k v' => moves v0 p (q + Z.of_nat k) v')).
  - by rewrite Z.add_0_r.
  - intros k ty w Hk Hw. eapply safe_push_type; [done|by eapply Forall_lookup_1|]. intros w' Hw'.
    by replace (q + Z.of_nat (S k)) with (q + Z.of_nat k + 1) by lia.
  - apply HQ.
Qed.

(** ** Counters and temporary state *)

Lemma moves_reset v0 p q v p' q' w :
  moves v0 p q v -> moves v0 p' q' w -> moves v0 p q (set_count (pop_push_count v) w).
Proof. intros [] [[] ]. split; try done. Qed.

Lemma moves_set_popped v0 p q v x :
  moves v0 p q v -> Forall mt_canonical x -> moves v0 p q (set_popped x v).
Proof. intros [[] ] Hx. by split. Qed.

Lemma moves_append v0 p q v os :
  moves v0 p q v -> Forall mt_canonical os -> moves v0 p q (set_operands (os ++ operands v) v).
Proof.
  intros [[Hn Ho Hpo Hf Hl Hg] Hc Hi Hlo Hft He Hct] Hos. split; try done.
  split; try done; cbn -[Z.of_nat]; [|by apply Forall_app].
  eapply nested_mono; [| |exact Hn]; [|done]. rewrite length_app. lia.
Qed.

Lemma safe_match_operand actual expected v0 p q v (Q : () -> OperatorValidator -> Prop) :
  moves v0 p q v -> vt_canonical actual -> vt_canonical expected -> (forall v', moves v0 p q v' -> Q tt v') ->
  safe (match_operand off actual expected) v Q.
Proof.
  intros Hm Ha He HQ. unfold match_operand. apply safe_bind, safe_gets, safe_bind.
  eapply safe_push_type; [done..|]. intros v1 H1. apply safe_bind. eapply safe_pop_type; [done..|].
  intros v2 H2. apply safe_modify, HQ. by eapply moves_reset.
Qed.

Lemma safe_match_stack_operands tys v0 p q v (Q : () -> OperatorValidator -> Prop) :
  moves v0 p q v -> Forall vt_canonical tys ->
  (forall v', moves v0 p q v' -> Q tt v') -> safe (match_stack_operands off tys) v Q.
Proof.
  intros Hm Htys HQ. unfold match_stack_operands. apply safe_bind, safe_gets, safe_bind.
  apply (safe_for _ (fun k v' => exists p', moves v0 p' q v')); [by exists p| |].
  - intros k ty w Hk [p' Hw]. apply safe_bind.
    eapply safe_pop_operand; [done|by eapply Forall_lookup_1; [apply Forall_rev|]|]. intros t w' Hw' Ht _.
    apply safe_modify. eexists. apply moves_set_popped; [done|].
    constructor; [done|apply (inv_popped _ (mv_inv _ _ _ _ Hw'))].
  - intros w [p' Hw]. apply safe_bind, safe_modify, safe_modify, HQ. eapply moves_reset; [done|].
    apply moves_set_popped; [|done]. apply moves_append; [done|].
    apply Forall_rev, (inv_popped _ (mv_inv _ _ _ _ Hw)).
Qed.

Lemma safe_pop_push_label_types tys v0 p q v (Q : () -> OperatorValidator -> Prop) :
  moves v0 p q v -> Forall vt_canonical tys ->
  (forall v', moves v0 (p + Z.of_nat (length tys)) (q + Z.of_nat (length tys)) v' -> Q tt v') ->
  safe (pop_push_label_types off tys) v Q.
Proof.
  intros Hm Htys HQ. unfold pop_push_label_types. apply safe_bind. eapply safe_pop_types; [done..|].
  intros v1 H1. eapply safe_push_types; [done..|]. apply HQ.
Qed.

(** ** References *)

Lemma safe_check_heap_type h v (Q : HeapType -> OperatorValidator -> Prop) :
  ht_unresolved h -> (forall h', ht_canonical h' -> Q h' v) -> safe (liftr (check_heap_type h off)) v Q.
Proof.
  intros Hh HQ. apply safe_liftr. pose proof (check_heap_type_spec h off Hh).
  destruct (check_heap_type h off); [by apply HQ|done..].
Qed.

(** [RefType::new] of a checked heap type. *)
Lemma safe_rt_new n h v (Q : RefType -> OperatorValidator -> Prop) :
  ht_canonical h -> (forall r, rt_canonical r -> Q r v) -> safe (unwrap (rt_new n h)) v Q.
Proof.
  intros Hh HQ. destruct (rt_new_canonical n h Hh) as (r & Hr & Hc).
  eapply safe_unwrap; [done|]. by apply HQ.
Qed.

Lemma safe_push_concrete_ref n i v0 p q v (Q : () -> OperatorValidator -> Prop) :
  moves v0 p q v -> (forall v', moves v0 p (q + 1) v' -> Q tt v') -> safe (push_concrete_ref off n i) v Q.
Proof.
  intros Hm HQ. unfold push_concrete_ref. apply safe_bind, safe_check_heap_type; [done|]. intros h Hh.
  apply safe_bind, safe_ok_or. intros r Hr. eapply safe_push_type; [done| |done]. by eapply rt_new_is_canonical.
Qed.

Lemma safe_pop_concrete_ref n i v0 p q v (Q : MaybeType ValType -> OperatorValidator -> Prop) :
  moves v0 p q v -> (forall ty v', moves v0 (p + 1) q v' -> Q ty v') -> safe (pop_concrete_ref off n i) v Q.
Proof.
  intros Hm HQ. unfold pop_concrete_ref. apply safe_bind, safe_check_heap_type; [done|]. intros h Hh.
  apply safe_bind, safe_ok_or. intros r Hr. eapply safe_pop_operand; [done|by eapply rt_new_is_canonical|]. intros; by apply HQ.
Qed.

Lemma safe_pop_ref expected v0 p q v (Q : MaybeType RefType -> OperatorValidator -> Prop) :
  moves v0 p q v -> match expected with Some r => rt_canonical r | None => True end ->
  (forall ty v', moves v0 (p + 1) q v' -> mr_canonical ty -> Q ty v') -> safe (pop_ref off expected) v Q.
Proof.
  intros Hm He HQ. unfold pop_ref. apply safe_bind. eapply safe_pop_operand; [done|by destruct expected|]. intros ty v' H Hty _.
  destruct ty as [|u|[]]; try apply safe_bail; by apply safe_ret, HQ.
Qed.

Lemma safe_pop_maybe_shared_ref expected v0 p q v (Q : MaybeType RefType -> OperatorValidator -> Prop) :
  moves v0 p q v -> (forall ty v', moves v0 (p + 1) q v' -> mr_canonical ty -> Q ty v') ->
  safe (pop_maybe_shared_ref off expected) v Q.
Proof.
  intros Hm HQ. unfold pop_maybe_shared_ref. apply safe_bind. eapply safe_pop_ref; [done..|]. intros ty v' H Hty.
  destruct ty as [|[u|]|r]; try by apply safe_ret, HQ.
  - apply safe_bind, safe_check. intros _. by apply safe_ret, HQ.
  - apply safe_bind, safe_is_shared; [done|]. intros s. apply safe_bind, safe_rt_new_abstract. intros e He.
    apply safe_bind, safe_is_subtype; [done..|]. intros b. apply safe_bind, safe_check. intros _.
    by apply safe_ret, HQ.
Qed.
End rules.
