(* ===== verification/ValidatorModule.v ===== *)
(** The rules of [safe] for what the operator validator asks of the module, of
    the locals and of the control frames; these leave the state as it is. *)

From Stdlib Require Import ZArith Lia String.
From stdpp Require Import prelude.
From S2P Require Import Prelude StateLogic BinaryReader Types TypesSpec Operands Operators OperandSpec.
From S2P Require Import CompositeTypes Items ValidatorState OperatorValidator Arity LocalsSpec ValidatorLogic.

Local Open Scope Z_scope.

(** The composite type at an index. *)
Definition inner_at {R : WasmModuleResources} (i : Z) (c : CompositeInnerType) : Prop :=
  exists st, sub_type_at i = Some (Some st) /\ inner (composite_type_of st) = c.

(** The parameters and the results of a block. *)
Definition block_types {R : WasmModuleResources} (b : BlockType) (ps rs : list ValType) : Prop :=
  match b with
  | BT_Empty => ps = [] /\ rs = []
  | BT_Type t => ps = [] /\ rs = [t]
  | BT_FuncType i => exists f, inner_at i (CFunc f) /\ ps = func_params f /\ rs = func_results f
  end.

(** The types of a label. *)
Definition label_of (kind : FrameKind) (ps rs : list ValType) : list ValType :=
  match kind with FK_Loop => ps | _ => rs end.

Section rules.
Context {R : WasmModuleResources} {RS : ResourcesSpec R} (off : Z).

Lemma inner_at_eq i c c' : inner_at i c -> inner_at i c' -> c = c'.
Proof. intros (st & H1 & <-) (st' & H2 & <-). congruence. Qed.

Lemma inner_at_ok i c :
  inner_at i c ->
  match c with
  | CFunc f => func_ok f
  | CStruct s => small (fields s) /\ Forall ft_canonical (fields s)
  | CArray a => ft_canonical (array_element a)
  | CCont c =>
      rt_canonical (rt_concrete true (cont_index c)) /\ exists f, func_type_of_cont_type c = Some f /\ func_ok f
  end.
Proof.
  intros (st & H & <-). destruct (sub_type_at_spec i) as (o & Ho & Hok). rewrite H in Ho. injection Ho as <-.
  by apply Hok.
Qed.

Lemma block_types_eq b ps rs ps' rs' :
  block_types b ps rs -> block_types b ps' rs' -> ps = ps' /\ rs = rs'.
Proof.
  destruct b as [|t|i]; cbn [block_types]; [intuition congruence..|].
  intros (f & H & -> & ->) (f' & H' & -> & ->). pose proof (inner_at_eq i _ _ H H') as [= ->]. done.
Qed.

Lemma block_types_ok b ps rs :
  block_types b ps rs -> bt_canonical b ->
  small ps /\ small rs /\ Forall vt_canonical ps /\ Forall vt_canonical rs.
Proof.
  destruct b as [|t|i]; cbn [block_types bt_canonical].
  - intros [-> ->] _. done.
  - intros [-> ->] H. split_and!; try done. by constructor.
  - intros (f & H & -> & ->) _. destruct (inner_at_ok _ _ H) as [Hp Hr [H1 H2]]. done.
Qed.

(** ** The module *)

Lemma safe_element_type_at i v (Q : RefType -> OperatorValidator -> Prop) :
  (forall t, rt_canonical t -> Q t v) -> safe (element_type_at' off i) v Q.
Proof. intros HQ. apply safe_ok_or. intros t Ht. by eapply HQ, element_type_at_spec. Qed.

Lemma safe_sub_type_at i v (Q : SubType -> OperatorValidator -> Prop) :
  (forall t, sub_type_at i = Some (Some t) -> Q t v) -> safe (sub_type_at' off i) v Q.
Proof.
  intros HQ. destruct (sub_type_at_spec i) as (o & Ho & _). apply safe_bind. eapply safe_unwrap; [done|].
  apply safe_ok_or. intros t ->. by apply HQ.
Qed.

Lemma safe_check_access s m v (Q : () -> OperatorValidator -> Prop) : Q tt v -> safe (check_access off s m) v Q.
Proof. intros HQ. apply safe_bind, safe_gets, safe_check. by intros _. Qed.

Lemma safe_struct_type_at i v (Q : StructType -> OperatorValidator -> Prop) :
  (forall s, inner_at i (CStruct s) -> Q s v) -> safe (struct_type_at off i) v Q.
Proof.
  intros HQ. unfold struct_type_at. apply safe_bind, safe_sub_type_at. intros t Ht.
  destruct (inner (composite_type_of t)) eqn:E; try done.
  apply safe_bind, safe_check_access, safe_ret, HQ. by exists t.
Qed.

Lemma safe_struct_field_at i j v (Q : FieldType -> OperatorValidator -> Prop) :
  (forall f, ft_canonical f -> Q f v) -> safe (struct_field_at off i j) v Q.
Proof.
  intros HQ. apply safe_bind, safe_struct_type_at. intros s Hs. apply safe_ok_or. intros f Hf. apply HQ.
  by apply (Forall_lookup_1 _ _ _ _ (proj2 (inner_at_ok _ _ Hs)) Hf).
Qed.

Lemma safe_mutable_struct_field_at i j v (Q : FieldType -> OperatorValidator -> Prop) :
  (forall f, ft_canonical f -> Q f v) -> safe (mutable_struct_field_at off i j) v Q.
Proof.
  intros HQ. apply safe_bind, safe_struct_field_at. intros f Hf.
  apply safe_bind, safe_check. intros _. by apply safe_ret, HQ.
Qed.

Lemma safe_array_type_at i v (Q : FieldType -> OperatorValidator -> Prop) :
  (forall f, ft_canonical f -> Q f v) -> safe (array_type_at off i) v Q.
Proof.
  intros HQ. unfold array_type_at. apply safe_bind, safe_sub_type_at. intros t Ht.
  destruct (inner (composite_type_of t)) eqn:E; try done.
  apply safe_bind, safe_check_access, safe_ret, HQ. by apply (inner_at_ok i (CArray t0)); exists t.
Qed.

Lemma safe_mutable_array_type_at i v (Q : FieldType -> OperatorValidator -> Prop) :
  (forall f, ft_canonical f -> Q f v) -> safe (mutable_array_type_at off i) v Q.
Proof.
  intros HQ. apply safe_bind, safe_array_type_at. intros f Hf.
  apply safe_bind, safe_check. intros _. by apply safe_ret, HQ.
Qed.

Lemma safe_func_type_at i v (Q : FuncType -> OperatorValidator -> Prop) :
  (forall f, inner_at i (CFunc f) -> Q f v) -> safe (func_type_at off i) v Q.
Proof.
  intros HQ. unfold func_type_at. apply safe_bind, safe_sub_type_at. intros t Ht.
  destruct (inner (composite_type_of t)) eqn:E; try done.
  apply safe_bind, safe_check_access, safe_ret, HQ. by exists t.
Qed.

Lemma safe_cont_type_at i v (Q : ContType -> OperatorValidator -> Prop) :
  (forall c, inner_at i (CCont c) -> Q c v) -> safe (cont_type_at off i) v Q.
Proof.
  intros HQ. unfold cont_type_at. apply safe_bind, safe_sub_type_at. intros t Ht.
  destruct (inner (composite_type_of t)) eqn:E; try done.
  apply safe_bind, safe_check_access, safe_ret, HQ. by exists t.
Qed.

Lemma safe_tag_at i v (Q : FuncType -> OperatorValidator -> Prop) :
  (forall f, tag_at i = Some (Some f) -> Q f v) -> safe (tag_at' off i) v Q.
Proof.
  intros HQ. destruct (tag_at_spec i) as (o & Ho & _). apply safe_bind. eapply safe_unwrap; [done|].
  apply safe_ok_or. intros f ->. by apply HQ.
Qed.

Lemma tag_ok i f : tag_at i = Some (Some f) -> func_ok f.
Proof. intros H. destruct (tag_at_spec i) as (o & Ho & Hok). rewrite H in Ho. injection Ho as <-. by apply Hok. Qed.

Lemma safe_exception_tag_at i v (Q : FuncType -> OperatorValidator -> Prop) :
  (forall f, tag_at i = Some (Some f) -> Q f v) -> safe (exception_tag_at off i) v Q.
Proof.
  intros HQ. apply safe_bind, safe_tag_at. intros f Hf. apply safe_bind, safe_check. intros _.
  by apply safe_ret, HQ.
Qed.

Lemma safe_global_type_at i v (Q : GlobalType -> OperatorValidator -> Prop) :
  (forall g, vt_canonical (content_type g) -> Q g v) -> safe (global_type_at off i) v Q.
Proof.
  intros HQ. unfold global_type_at. destruct (global_at i) eqn:E; [|done].
  apply safe_bind, safe_check_access, safe_ret, HQ. by eapply global_at_spec.
Qed.

Lemma safe_table_type_at i v (Q : TableType -> OperatorValidator -> Prop) :
  (forall t, rt_canonical (table_element_type t) -> Q t v) -> safe (table_type_at off i) v Q.
Proof.
  intros HQ. unfold table_type_at. destruct (table_at i) eqn:E; [|done].
  apply safe_bind, safe_check_access, safe_ret, HQ. by eapply table_at_spec.
Qed.

Lemma safe_check_data_segment i v (Q : () -> OperatorValidator -> Prop) :
  Q tt v -> safe (check_data_segment off i) v Q.
Proof. intros HQ. unfold check_data_segment. destruct res_data_count as [n|]; [|done]. by destruct (i <? n). Qed.

Lemma safe_type_of_function i v (Q : FuncType -> OperatorValidator -> Prop) :
  (forall t f, type_index_of_function i = Some t -> inner_at t (CFunc f) -> Q f v) ->
  safe (type_of_function off i) v Q.
Proof.
  intros HQ. unfold type_of_function. destruct (type_index_of_function i) as [t|] eqn:E; [|done].
  apply safe_func_type_at. intros f Hf. by apply (HQ t).
Qed.

Lemma safe_check_memory_index i v (Q : ValType -> OperatorValidator -> Prop) :
  (forall t, vt_canonical t -> Q t v) -> safe (check_memory_index off i) v Q.
Proof.
  intros HQ. unfold check_memory_index. destruct (memory_at i) as [m|]; [|done].
  apply safe_ret, HQ. unfold memory_index_type. by destruct (mem_memory64 m).
Qed.

Lemma safe_check_memarg m v (Q : ValType -> OperatorValidator -> Prop) :
  (forall t, vt_canonical t -> Q t v) -> safe (check_memarg off m) v Q.
Proof.
  intros HQ. apply safe_bind, safe_check_memory_index. intros t Ht. apply safe_bind, safe_check. intros _.
  apply safe_bind, safe_check. intros _. by apply safe_ret, HQ.
Qed.

Lemma safe_check_shared_memarg m v (Q : ValType -> OperatorValidator -> Prop) :
  (forall t, vt_canonical t -> Q t v) -> safe (check_shared_memarg off m) v Q.
Proof. intros HQ. apply safe_bind, safe_check. intros _. by apply safe_check_memory_index. Qed.

Lemma safe_check_floats_enabled v (Q : () -> OperatorValidator -> Prop) :
  Q tt v -> safe (check_floats_enabled off) v Q.
Proof. intros HQ. apply safe_bind, safe_gets, safe_check. by intros _. Qed.

(** ** Value types *)

Lemma check_ref_type_features_ok f r off' :
  rt_valid r -> at_offset off' (check_ref_type_features f r) <> Panic.
Proof.
  intros Hr. destruct (rt_valid_heap_type r Hr) as (h & Hh & _).
  unfold check_ref_type_features. rewrite Hh. repeat case_match; done.
Qed.

Lemma ht_module_unresolved h : ht_module h -> ht_unresolved h.
Proof. by destruct h as [|[]]. Qed.

Lemma check_ref_type_ok r :
  rt_module r ->
  match check_ref_type r off with Ok r' => rt_canonical r' | Err _ => True | Panic => False end.
Proof.
  intros Hr. destruct (rt_module_heap_type r Hr) as (h & Hmod & Hh & _). unfold check_ref_type. rewrite Hh.
  pose proof (check_heap_type_spec h off (ht_module_unresolved h Hmod)) as Hc. destruct (check_heap_type h off) as [h'| |]; try done.
  by destruct (rt_new_canonical (is_nullable r) h' Hc) as (r' & -> & H).
Qed.

Lemma rt_module_valid r : rt_module r -> rt_valid r.
Proof. intros (n & h & Hh & Hr). exists n, h. split; [by apply ht_module_valid|done]. Qed.

Lemma safe_check_ref_type r v (Q : RefType -> OperatorValidator -> Prop) :
  rt_module r -> (forall r', rt_canonical r' -> Q r' v) -> safe (liftr (check_ref_type r off)) v Q.
Proof.
  intros Hr HQ. apply safe_liftr. pose proof (check_ref_type_ok r Hr).
  destruct (check_ref_type r off); [by apply HQ|done..].
Qed.

Lemma check_value_type_features_ok f t off' :
  vt_module t -> at_offset off' (check_value_type_features f t) <> Panic.
Proof.
  intros Ht. destruct t; cbn [check_value_type_features]; try done; [by destruct (floats f)..| |].
  - by destruct (simd f).
  - by apply check_ref_type_features_ok, rt_module_valid.
Qed.

Lemma safe_check_value_type t f v (Q : ValType -> OperatorValidator -> Prop) :
  vt_module t -> (forall t', vt_canonical t' -> Q t' v) -> safe (liftr (check_value_type t f off)) v Q.
Proof.
  intros Ht HQ. apply safe_liftr. unfold check_value_type.
  pose proof (check_value_type_features_ok f t off Ht) as Hf.
  destruct (at_offset off (check_value_type_features f t)); [|done..].
  destruct t as [| | | | |r]; try by apply HQ.
  pose proof (check_ref_type_ok r Ht).
  destruct (check_ref_type r off); [by apply HQ|done..].
Qed.

(** ** Blocks *)

Lemma safe_params b v (Q : list ValType -> OperatorValidator -> Prop) :
  (forall ps rs, block_types b ps rs -> Q ps v) -> safe (params off b) v Q.
Proof.
  intros HQ. destruct b; cbn [params].
  - apply safe_ret. by eapply HQ.
  - apply safe_ret. by eapply HQ.
  - apply safe_bind, safe_func_type_at. intros f Hf. apply safe_ret. eapply HQ. by exists f.
Qed.

Lemma safe_results b v (Q : list ValType -> OperatorValidator -> Prop) :
  (forall ps rs, block_types b ps rs -> Q rs v) -> safe (results off b) v Q.
Proof.
  intros HQ. destruct b; cbn [results].
  - apply safe_ret. by eapply HQ.
  - apply safe_ret. by eapply HQ.
  - apply safe_bind, safe_func_type_at. intros f Hf. apply safe_ret. eapply HQ. by exists f.
Qed.

Lemma safe_label_types b kind v (Q : list ValType -> OperatorValidator -> Prop) :
  (forall ps rs, block_types b ps rs -> Q (label_of kind ps rs) v) -> safe (label_types off b kind) v Q.
Proof.
  intros HQ. destruct kind; cbn [label_types]; try (apply safe_results; exact HQ).
  apply safe_params. exact HQ.
Qed.

(** The block type of the operator, once it is checked. *)
Definition bt_checked (b b' : BlockType) : Prop :=
  bt_canonical b'
  /\ match b with BT_Type _ => exists t, b' = BT_Type t | _ => b' = b end.

Lemma safe_check_block_type b v (Q : BlockType -> OperatorValidator -> Prop) :
  bt_module b -> (forall b', bt_checked b b' -> Q b' v) -> safe (check_block_type off b) v Q.
Proof.
  intros Hb HQ. destruct b; cbn [check_block_type].
  - by apply safe_ret, HQ.
  - apply safe_bind, safe_gets, safe_bind, safe_check_value_type; [done|]. intros t' Ht'.
    apply safe_ret, HQ. split; [done|by exists t'].
  - apply safe_bind, safe_gets, safe_bind, safe_check. intros _.
    apply safe_bind, safe_func_type_at. intros f _. by apply safe_ret, HQ.
Qed.

(** ** Labels and locals *)

Definition label_at (v : OperatorValidator) (depth : Z) (b : BlockType * FrameKind) : Prop :=
  exists c, control v !! Z.to_nat depth = Some c /\ b = (frame_block_type c, frame_kind c).

Lemma label_at_canonical v depth b : inv v -> label_at v depth b -> bt_canonical b.1.
Proof.
  intros Hv (c & Hc & ->). apply (Forall_lookup_1 _ _ _ _ (inv_frames _ Hv) Hc).
Qed.

Lemma safe_jump depth v (Q : BlockType * FrameKind -> OperatorValidator -> Prop) :
  (forall b, label_at v depth b -> Q b v) -> safe (jump off depth) v Q.
Proof.
  intros HQ. apply safe_bind, safe_gets. cbn [id]. destruct (control v) eqn:Ec; [done|].
  rewrite <- Ec. destruct (control v !! Z.to_nat depth) as [c|] eqn:E; [|done].
  apply safe_ret, HQ. by exists c.
Qed.

Lemma safe_function_frame v (Q : Frame -> OperatorValidator -> Prop) :
  (forall c, last (control v) = Some c -> Q c v) -> safe (function_frame off) v Q.
Proof. intros HQ. apply safe_bind, safe_gets. cbn [id]. destruct (last (control v)); [by apply HQ|done]. Qed.

Lemma safe_local i v (Q : ValType -> OperatorValidator -> Prop) :
  inv v -> 0 <= i ->
  (forall t, vt_canonical t -> i < Z.of_nat (length (inits_of (local_inits v))) -> Q t v) -> safe (local off i) v Q.
Proof.
  intros Hv Hi HQ. destruct (inv_locals _ Hv) as (tys & Hl & Hcan & Hn).
  apply safe_bind, safe_gets, safe_bind. eapply safe_unwrap; [by apply locals_get_repr|].
  apply safe_ok_or. intros t Ht. apply HQ; [by eapply Forall_lookup_1|]. apply lookup_lt_Some in Ht. lia.
Qed.
End rules.

(** * The rules of [safe] for control frames, and the arities of the categories
    of annotations in a state of the validator. *)

(** ** Control frames *)

Section rules.
Context {R : WasmModuleResources}.

(** From [v0], with other frames: the counters only. *)
Record counts (v0 : OperatorValidator) (p q : Z) (v : OperatorValidator) : Prop := {
  ct_inv : inv v;
  ct_features : ov_features v = ov_features v0;
  ct_count : pop_push_count v = (fst (pop_push_count v0) + p, snd (pop_push_count v0) + q);
}.

Lemma moves_counts v0 p q v : moves v0 p q v -> counts v0 p q v.
Proof. by intros []. Qed.

Lemma counts_eq v0 p q p' q' v : counts v0 p q v -> p = p' -> q = q' -> counts v0 p' q' v.
Proof. by intros ? <- <-. Qed.

Lemma counts_moves v0 p q v1 p' q' v2 :
  counts v0 p q v1 -> moves v1 p' q' v2 -> counts v0 (p + p') (q + q') v2.
Proof.
  intros [] []. split; [done|congruence|]. rewrite mv_count, ct_count0. cbn. f_equal; lia.
Qed.

Lemma counts_trans v0 p q v1 p' q' v2 :
  counts v0 p q v1 -> counts v1 p' q' v2 -> counts v0 (p + p') (q + q') v2.
Proof.
  intros [] []. split; [done|congruence|]. rewrite ct_count1, ct_count0. cbn. f_equal; lia.
Qed.

Context {RS : ResourcesSpec R} (off : Z).

(** The frames after [unreachable]: the same labels. *)
Lemma safe_unreachable v0 p q v (Q : () -> OperatorValidator -> Prop) :
  moves v0 p q v ->
  (forall v', counts v0 p q v' -> control v' <> [] -> Q tt v') -> safe (unreachable off) v Q.
Proof.
  intros [[Hn Ho Hpo Hf Hl Hg] Hc Hi Hlo Hft He Hct] HQ. apply safe_bind, safe_gets. cbn [id].
  destruct (control v) as [|c cs] eqn:Ec; [done|]. apply safe_modify, HQ; [|done].
  split; [|done..]. cbn [nested] in Hn. split; [| |done| |done..].
  - cbn -[Z.of_nat]. rewrite length_drop. cbn [height init_height]. intuition lia.
  - cbn. by apply Forall_drop.
  - cbn. apply Forall_cons in Hf as [Hf1 Hf2]. by constructor.
Qed.

Lemma safe_push_frame kind b v (Q : () -> OperatorValidator -> Prop) :
  inv v -> bt_canonical b ->
  (forall v', counts v 0 0 v' -> control v' <> [] ->
     (exists c, control v' = c :: control v /\ frame_block_type c = b /\ frame_kind c = kind) -> Q tt v') ->
  safe (push_frame kind b) v Q.
Proof.
  intros [Hn Ho Hpo Hf Hl Hg] Hb HQ. apply safe_modify, HQ; [|done|].
  - split; [|done|cbn; destruct (pop_push_count v); cbn; f_equal; lia].
    split; try done.
    + cbn -[Z.of_nat]. unfold li_push_ctrl. split_and!; try lia. done.
    + cbn. by constructor.
  - by eexists.
Qed.

Lemma safe_push_ctrl kind b v (Q : () -> OperatorValidator -> Prop) :
  inv v -> bt_canonical b ->
  (forall ps rs v', block_types b ps rs -> counts v 0 (Z.of_nat (length ps)) v' -> control v' <> [] ->
     (exists c, control v' = c :: control v /\ frame_block_type c = b /\ frame_kind c = kind) -> Q tt v') ->
  safe (push_ctrl off kind b) v Q.
Proof.
  intros Hv Hb HQ. apply safe_bind. apply safe_push_frame; [done..|]. intros v1 H1 Hne Hc.
  apply safe_bind, safe_params. intros ps rs Hps.
  eapply safe_push_types; [apply moves_refl, H1|apply (block_types_ok _ _ _ Hps Hb)|]. intros v2 H2. apply (HQ ps rs); [done| | |].
  - exact (counts_moves _ _ _ _ _ _ _ H1 H2).
  - by rewrite (mv_control _ _ _ _ H2).
  - by rewrite (mv_control _ _ _ _ H2).
Qed.

(** Leaving a scope undoes its initializations. *)
Lemma li_pop_ctrl_ok v c cs :
  inv v -> control v = c :: cs ->
  exists li, li_pop_ctrl (init_height c) (local_inits v) = Some li
    /\ Z.of_nat (length (inits li)) = init_height c
    /\ inv (set_local_inits li v).
Proof.
  intros [Hn Ho Hpo Hf (tys & Hl & Hcan & Hlen) Hg] Ec. rewrite Ec in Hn. cbn [nested] in Hn.
  unfold li_pop_ctrl. destruct (Z.ltb_spec (Z.of_nat (length (inits (local_inits v))) - init_height c) 0); [lia|].
  set (n := Z.to_nat _).
  destruct (uninit_all_lookup (take n (inits (local_inits v))) (inits_of (local_inits v)))
    as (l' & E & Hl' & _); [by apply Forall_take|].
  rewrite E. eexists. split; [done|]. cbn [inits].
  assert (Hd : Z.of_nat (length (drop n (inits (local_inits v)))) = init_height c) by (rewrite length_drop; lia).
  split; [done|]. split; try done.
  - cbn -[Z.of_nat]. rewrite Ec. cbn [nested]. intuition lia.
  - exists tys. cbn. by rewrite Hl'.
  - cbn. rewrite Hl'. by apply Forall_drop.
Qed.

Lemma safe_pop_ctrl v (Q : Frame -> OperatorValidator -> Prop) :
  inv v ->
  (forall c cs ps rs v', control v = c :: cs -> block_types (frame_block_type c) ps rs ->
     bt_canonical (frame_block_type c) -> counts v (Z.of_nat (length rs)) 0 v' -> control v' = cs ->
     end_which_emptied_control v' = end_which_emptied_control v -> Q c v') ->
  safe (pop_ctrl off) v Q.
Proof.
  intros Hv HQ. apply safe_bind, safe_gets. cbn [id]. destruct (control v) as [|c cs] eqn:Ec; [done|].
  destruct (li_pop_ctrl_ok v c cs Hv Ec) as (li & Hli & Hlen & Hv1).
  apply safe_bind. eapply safe_unwrap; [done|]. apply safe_bind, safe_modify.
  apply safe_bind, safe_results. intros ps rs Hrs. apply safe_bind.
  assert (Hcan : bt_canonical (frame_block_type c)).
  { pose proof (inv_frames _ Hv) as Hf. rewrite Ec in Hf. by apply Forall_cons in Hf as [? _]. }
  eapply safe_pop_types; [by apply moves_refl|apply (block_types_ok _ _ _ Hrs Hcan)|]. intros v2 H2.
  apply safe_bind, safe_gets, safe_bind, safe_check. cbn [id].
  intros Hh%negb_false_iff%Z.eqb_eq. apply safe_bind, safe_modify, safe_ret.
  pose proof (mv_control _ _ _ _ H2) as Ec2. cbn in Ec2. rewrite Ec in Ec2.
  assert (Hb : bt_canonical (frame_block_type c) /\ Forall (fun c => bt_canonical (frame_block_type c)) cs).
  { pose proof (inv_frames _ Hv) as Hf. rewrite Ec in Hf. by apply Forall_cons in Hf. }
  apply (HQ c cs ps rs); [done|done|apply Hb| | |].
  - destruct H2 as [[Hn Ho Hpo Hf Hl Hg] _ Hi _ Hft _ Hct]. split; [|done..].
    split; [|done|done| |done..]; cbn -[Z.of_nat]; rewrite Ec2; cbn [tail].
    + rewrite Ec2 in Hn. cbn [nested] in Hn. rewrite Hh, Hi. cbn [local_inits set_local_inits].
      rewrite Hlen. apply Hn.
    + apply Hb.
  - cbn. by rewrite Ec2.
  - cbn. by rewrite (mv_end _ _ _ _ H2).
Qed.

(** ** Arities *)

Context (v0 : OperatorValidator).

Lemma len_u32_small {A} (l : list A) : small l -> len_u32 l = Z.of_nat (length l).
Proof. intros H. apply wrap_small. unfold in_u, small in *. lia. Qed.

Lemma func_arity_ok f :
  func_ok f -> func_arity f = (Z.of_nat (length (func_params f)), Z.of_nat (length (func_results f))).
Proof. intros [_ _ [H1 H2]]. unfold func_arity. by rewrite !len_u32_small. Qed.

Lemma inner_arity i c :
  inner_at i c ->
  type_arity (M := validator_arity v0) i
  = match c with
    | CFunc f => Some (Z.of_nat (length (func_params f)), Z.of_nat (length (func_results f)))
    | CStruct s => Some (Z.of_nat (length (fields s)), Z.of_nat (length (fields s)))
    | CArray _ => None
    | CCont c =>
        match func_type_of_cont_type c with
        | Some f => Some (Z.of_nat (length (func_params f)), Z.of_nat (length (func_results f)))
        | None => None
        end
    end.
Proof.
  intros H. pose proof (inner_at_ok i c H) as Hok. destruct H as (st & Hst & Hin).
  unfold type_arity, sub_type_arity. cbn [arity_sub_type_at validator_arity]. rewrite Hst.
  cbn [mbind option_bind id]. rewrite Hin. destruct c as [f|a|s|c].
  - by rewrite func_arity_ok.
  - done.
  - by rewrite len_u32_small by apply Hok.
  - destruct Hok as (_ & f & Hf & Hfo). cbn [arity_func_type_of_cont_type validator_arity]. rewrite Hf.
    cbn [mbind option_bind]. by rewrite func_arity_ok.
Qed.

Lemma block_arity b ps rs :
  block_types b ps rs ->
  block_type_arity (M := validator_arity v0) b = Some (Z.of_nat (length ps), Z.of_nat (length rs)).
Proof.
  destruct b as [|t|i]; cbn [block_types block_type_arity]; [by intros [-> ->]..|].
  intros (f & H & -> & ->). by rewrite (inner_arity i _ H).
Qed.

Lemma label_arity depth b ps rs :
  label_at v0 depth b -> block_types b.1 ps rs ->
  count_br (M := validator_arity v0) depth
  = Some (Z.of_nat (length (label_of b.2 ps rs)), Z.of_nat (length (label_of b.2 ps rs))).
Proof.
  intros (c & Hc & ->) Hb. unfold count_br. cbn [label_block validator_arity].
  unfold validator_label_block. rewrite Hc. cbn [fst snd] in *. rewrite (block_arity _ _ _ Hb).
  by destruct (frame_kind c).
Qed.

Lemma tag_arity i f :
  tag_at i = Some (Some f) ->
  tag_type_arity (ModuleArity := validator_arity v0) i
  = Some (Z.of_nat (length (func_params f)), Z.of_nat (length (func_results f))).
Proof.
  intros H. cbn [tag_type_arity validator_arity]. rewrite H. cbn. by rewrite func_arity_ok; [|eapply tag_ok].
Qed.

Lemma end_arity c cs ps rs :
  control v0 = c :: cs -> block_types (frame_block_type c) ps rs ->
  label_block (ModuleArity := validator_arity v0) 0 = Some (frame_block_type c, frame_kind c)
  /\ block_type_arity (M := validator_arity v0) (frame_block_type c)
     = Some (Z.of_nat (length ps), Z.of_nat (length rs)).
Proof.
  intros Hc Hb. split; [|by apply block_arity]. cbn. unfold validator_label_block. by rewrite Hc.
Qed.
End rules.

Lemma add_i32_small a b c d :
  - 2 ^ 30 <= a <= 2 ^ 31 - 1 -> - 2 ^ 30 <= b <= 2 ^ 31 - 1 ->
  - 2 ^ 31 <= a + c <= 2 ^ 31 - 1 -> - 2 ^ 31 <= b + d <= 2 ^ 31 - 1 ->
  add_i32 (a, b) (c, d) = (a + c, b + d).
Proof.
  intros. unfold add_i32. cbn [fst snd]. rewrite !(swrap_small 32 a), !(swrap_small 32 b) by (unfold in_i; lia).
  rewrite !swrap_small by (unfold in_i; lia). done.
Qed.
