(* ===== verification/VisitSpec.v ===== *)
(** What [validate_operator] does to a state that satisfies the invariant: the
    postcondition [visited] and the tactics that establish it. *)

From Stdlib Require Import ZArith Lia String.
From stdpp Require Import prelude.
From S2P Require Import Prelude StateLogic BinaryReader Types TypesSpec Operands Operators OperandSpec.
From S2P Require Import OperatorSpec CompositeTypes Items ValidatorState OperatorValidator VisitOperators.
From S2P Require Import ValidateOperator Arity LocalsSpec ValidatorLogic ValidatorModule.

Local Open Scope Z_scope.

(** Where the arity is computed without overflow. *)
Definition arity_fits (v : OperatorValidator) (o : Op.Operator) : Prop :=
  match o with
  | Op.Gc (Op.ArrayNewFixed _ n) => n < 2 ^ 31
  | Op.Mvp Op.Return => Z.of_nat (length (control v)) < 2 ^ 32
  | _ => True
  end.

(** The state after the operator [o] was validated in the state [v0]. *)
Record visited {R : WasmModuleResources} (v0 : OperatorValidator) (o : Op.Operator) (v : OperatorValidator)
  : Prop := {
  vi_inv : inv v;
  vi_ended : ended v;
  vi_features : ov_features v = ov_features v0;
  vi_arity : arity_fits v0 o ->
    operator_arity (M := validator_arity v0) o
    = Some (fst (pop_push_count v) - fst (pop_push_count v0), snd (pop_push_count v) - snd (pop_push_count v0));
}.

Section visited.
Context {R : WasmModuleResources} {RS : ResourcesSpec R}.

Lemma visited_counts v0 o p q v :
  counts v0 p q v -> ended v ->
  (arity_fits v0 o -> operator_arity (M := validator_arity v0) o = Some (p, q)) -> visited v0 o v.
Proof.
  intros [Hv Hf Hc] He Ha. split; [done..|]. intros Hfit. rewrite (Ha Hfit), Hc. cbn. do 2 f_equal; lia.
Qed.

Lemma visited_moves v0 o p q v :
  moves v0 p q v -> ended v0 ->
  (arity_fits v0 o -> operator_arity (M := validator_arity v0) o = Some (p, q)) -> visited v0 o v.
Proof.
  intros Hm He Ha. eapply visited_counts; [by apply moves_counts| |done].
  unfold ended. by rewrite (mv_control _ _ _ _ Hm), (mv_end _ _ _ _ Hm).
Qed.

(** The types that operators push are canonical. *)
Lemma func_at_canonical i f :
  inner_at i (CFunc f) -> Forall vt_canonical (func_params f) /\ Forall vt_canonical (func_results f).
Proof. intros H. by destruct (inner_at_ok _ _ H). Qed.

Lemma func_at_params i f : inner_at i (CFunc f) -> Forall vt_canonical (func_params f).
Proof. intros H. by apply (func_at_canonical i). Qed.

Lemma func_at_results i f : inner_at i (CFunc f) -> Forall vt_canonical (func_results f).
Proof. intros H. by apply (func_at_canonical i). Qed.

Lemma tag_params_canonical i f : tag_at i = Some (Some f) -> Forall vt_canonical (func_params f).
Proof. intros H. apply (tag_ok i f H). Qed.

Lemma tag_results_canonical i f : tag_at i = Some (Some f) -> Forall vt_canonical (func_results f).
Proof. intros H. apply (tag_ok i f H). Qed.

Lemma label_canonical v0 p q v d b k ps rs :
  moves v0 p q v -> label_at v d (b, k) -> block_types b ps rs -> Forall vt_canonical (label_of k ps rs).
Proof.
  intros Hv Hl Hb. pose proof (label_at_canonical _ _ _ (mv_inv _ _ _ _ Hv) Hl) as Hc.
  destruct (block_types_ok _ _ _ Hb Hc) as (_ & _ & H1 & H2). by destruct k.
Qed.

Lemma label_canonical_pair v0 p q v d b ps rs :
  moves v0 p q v -> label_at v d b -> block_types b.1 ps rs -> Forall vt_canonical (label_of b.2 ps rs).
Proof. destruct b. apply label_canonical. Qed.

Lemma checked_params_canonical b b' ps rs :
  bt_checked b b' -> block_types b' ps rs -> Forall vt_canonical ps.
Proof. intros [Hb _] H. by destruct (block_types_ok _ _ _ H Hb) as (_ & _ & ? & _). Qed.

Lemma last_frame_canonical v0 p q v c ps rs :
  moves v0 p q v -> last (control v) = Some c -> block_types (frame_block_type c) ps rs -> Forall vt_canonical rs.
Proof.
  intros Hv Hl Hb. apply last_Some_elem_of in Hl.
  pose proof (proj1 (Forall_forall _ _) (inv_frames _ (mv_inv _ _ _ _ Hv)) _ Hl) as Hc.
  by destruct (block_types_ok _ _ _ Hb Hc) as (_ & _ & _ & ?).
Qed.

Lemma combine_canonical (l l' : list ValType) k a b :
  Forall vt_canonical l -> Forall vt_canonical l' -> combine l l' !! k = Some (a, b) ->
  vt_canonical a /\ vt_canonical b.
Proof.
  intros H H' Hk. apply list_elem_of_lookup_2, list_elem_of_In in Hk.
  pose proof (in_combine_l _ _ _ _ Hk) as H1. pose proof (in_combine_r _ _ _ _ Hk) as H2.
  apply list_elem_of_In in H1, H2. split; [by apply (proj1 (Forall_forall _ _) H)|by apply (proj1 (Forall_forall _ _) H')].
Qed.

(** Comparing the types of functions does not panic. *)
Lemma all_subtypes_some (l l' : list ValType) :
  Forall vt_canonical l -> Forall vt_canonical l' -> is_Some (all_subtypes (combine l l')).
Proof.
  revert l'. induction l as [|a l IH]; intros [|b l'] H H'; cbn [combine all_subtypes]; try by eexists.
  apply Forall_cons in H as [Ha H], H' as [Hb H'].
  destruct (is_subtype_spec a b Ha Hb) as [[] ->]; [by apply IH|by eexists].
Qed.

Lemma not_or_some a b : is_Some a -> is_Some b -> is_Some (not_or a b).
Proof. intros [[] ->] ?; [done|by eexists]. Qed.

Lemma safe_not_or a b v (Q : bool -> OperatorValidator -> Prop) :
  is_Some (not_or a b) -> (forall r, not_or a b = Some r -> Q r v) -> safe (unwrap (not_or a b)) v Q.
Proof. intros [r Hr] HQ. rewrite Hr. by apply HQ. Qed.

Lemma not_or_false a b : not_or a b = Some false -> a = Some true /\ b = Some false.
Proof. by destruct a as [[]|]. Qed.

Lemma fields_canonical i s :
  inner_at i (CStruct s) -> Forall vt_canonical (map (fun f => storage_unpack (element_type f)) (fields s)).
Proof. intros H. apply Forall_map. by destruct (inner_at_ok _ _ H) as [_ ?]. Qed.

Lemma min_index_type_canonical a b : vt_canonical b -> vt_canonical (min_index_type a b).
Proof. by destruct a. Qed.

Lemma cont_ref_canonical i c : inner_at i (CCont c) -> rt_canonical (rt_concrete true (cont_index c)).
Proof. intros H. by destruct (inner_at_ok _ _ H) as [? _]. Qed.

Lemma Forall_removelast {A} (P : A -> Prop) l : Forall P l -> Forall P (removelast l).
Proof.
  induction 1 as [|x l Hx Hl IH]; [done|]. cbn [removelast]. destruct l; [done|]. by constructor.
Qed.

Lemma exn_canonical : rt_canonical EXN.
Proof. by exists false, (Abstract false HExn). Qed.

Lemma exnref_canonical : rt_canonical EXNREF.
Proof. by exists true, (Abstract false HExn). Qed.

Lemma funcref_canonical : rt_canonical FUNCREF.
Proof. by exists true, (Abstract false HFunc). Qed.

Lemma anyref_canonical : rt_canonical ANYREF.
Proof. by exists true, (Abstract false HAny). Qed.

Lemma eqref_canonical : rt_canonical EQREF.
Proof. by exists true, (Abstract false HEq). Qed.

Lemma nullable_canonical r : rt_canonical r -> rt_canonical (nullable r).
Proof.
  intros (n & h & Hh & Hr). exists true, h. split; [done|].
  by apply (nullable_new n); [apply ht_canonical_valid|].
Qed.

Lemma i31_canonical : rt_canonical I31.
Proof. by exists false, (Abstract false HI31). Qed.

Lemma index_type_canonical t : vt_canonical (table_index_type t).
Proof. unfold table_index_type. by destruct (table64 t). Qed.

Lemma ref_func_canonical i id r :
  type_id_of_function i = Some id -> rt_new false (Concrete (Id_ id)) = Some r -> rt_canonical r.
Proof.
  intros Hi Hr. destruct (type_id_of_function_spec i id Hi) as [H0 Hk].
  destruct (decide (in_u 20 id)) as [Hin|Hin]; [by apply (rt_new_is_canonical false (Concrete (Id_ id)))|].
  pose proof (pack_None (Id_ id) H0 Hin) as Hn. cbn in Hr, Hn. by rewrite Hn in Hr.
Qed.

Lemma ended_nonempty v : control v <> [] -> ended v.
Proof. intros H H'. done. Qed.
Lemma label_at_moves v0 p q v depth b : moves v0 p q v -> label_at v depth b -> label_at v0 depth b.
Proof. intros Hv (c & Hc & ->). rewrite (mv_control _ _ _ _ Hv) in Hc. by exists c. Qed.

(** The label of a branch and its arity. *)
Lemma branch_arity v0 p q v depth b ps rs :
  inv v0 -> moves v0 p q v -> label_at v depth b -> block_types b.1 ps rs ->
  let n := Z.of_nat (length (label_of b.2 ps rs)) in
  count_br (M := validator_arity v0) depth = Some (n, n) /\ n < 2 ^ 30
  /\ Forall vt_canonical (label_of b.2 ps rs).
Proof.
  intros Hinv Hv Hl Hb n. pose proof (label_at_moves _ _ _ _ _ _ Hv Hl) as Hl0.
  destruct (block_types_ok _ _ _ Hb (label_at_canonical _ _ _ Hinv Hl0)) as (H1 & H2 & H3 & H4).
  split; [by apply (label_arity v0 depth b ps rs)|]. unfold n, small in *. by destruct b.2.
Qed.

End visited.

(** ** Tactics *)

Create HintDb visit.
#[export] Hint Unfold check_cmp_op check_fcmp_op check_unary_op check_funary_op check_conversion_op
  check_fconversion_op check_binary_op check_fbinary_op check_atomic_load check_atomic_store
  check_atomic_binary_memory_op check_atomic_binary_memory_cmpxchg check_binop128 check_i64_mul_wide
  check_v128_splat check_v128_binary_op check_v128_fbinary_op check_v128_unary_op check_v128_funary_op
  check_v128_ternary_op check_v128_bitmask_op check_v128_shift_op check_v128_load_op
  check_simd_lane_index : visit.

Create HintDb canonical.
#[export] Hint Resolve fo_params fo_results maybe_val_canonical maybe_as_non_null_canonical as_non_null_canonical func_at_params
  func_at_results tag_params_canonical tag_results_canonical label_canonical label_canonical_pair checked_params_canonical last_frame_canonical
  fields_canonical min_index_type_canonical cont_ref_canonical Forall_removelast Forall_take Forall_drop
  exn_canonical exnref_canonical funcref_canonical anyref_canonical eqref_canonical nullable_canonical i31_canonical index_type_canonical ref_func_canonical rt_new_is_canonical : canonical.

Ltac v_can := cbn [vt_canonical mt_canonical]; first [exact I | assumption | solve [eauto 6 with canonical nocore]].

Ltac v_not_or :=
  repeat (apply not_or_some; [first [by eexists | unfold is_subtype_many; apply all_subtypes_some; v_can]|]);
  by eexists.

(** One method call of the validator. *)
Ltac v_step :=
  match goal with
  | |- safe (mbind _ _) _ _ => apply safe_bind
  | |- safe (mret _) _ _ => apply safe_ret
  | |- safe (bail _ _) _ _ => apply safe_bail
  | |- safe (gets _) _ _ => apply safe_gets; cbn [id]
  | |- safe (when _ (bail _ _)) _ _ => apply safe_check; intros ?
  | |- safe (ok_or _ _ _) _ _ => apply safe_ok_or; intros ? ?
  | |- safe (pop_type _ _) _ _ => eapply safe_pop_type; [eassumption|v_can|intros ? ?]
  | |- safe (pop_operand _ _) _ _ => eapply safe_pop_operand; [eassumption|v_can|intros ? ? ? ? ?]
  | |- safe (push_type _) _ _ => eapply safe_push_type; [eassumption|v_can|intros ? ?]
  | |- safe (push_operand _) _ _ => eapply safe_push_operand; [eassumption|v_can|intros ? ?]
  | |- safe (pop_types _ _) _ _ => eapply safe_pop_types; [eassumption|v_can|intros ? ?]
  | |- safe (push_types _) _ _ => eapply safe_push_types; [eassumption|v_can|intros ? ?]
  | |- safe (match_operand _ _ _) _ _ => eapply safe_match_operand; [eassumption|v_can|v_can|intros ? ?]
  | |- safe (match_stack_operands _ _) _ _ => eapply safe_match_stack_operands; [eassumption|v_can|intros ? ?]
  | |- safe (pop_push_label_types _ _) _ _ => eapply safe_pop_push_label_types; [eassumption|v_can|intros ? ?]
  | |- safe (push_concrete_ref _ _ _) _ _ => eapply safe_push_concrete_ref; [eassumption|intros ? ?]
  | |- safe (pop_concrete_ref _ _ _) _ _ => eapply safe_pop_concrete_ref; [eassumption|intros ? ? ?]
  | |- safe (pop_ref _ _) _ _ => eapply safe_pop_ref; [eassumption|v_can|intros ? ? ? ?]
  | |- safe (pop_maybe_shared_ref _ _) _ _ => eapply safe_pop_maybe_shared_ref; [eassumption|intros ? ? ? ?]
  | |- safe (liftr (check_heap_type _ _)) _ _ => apply safe_check_heap_type; [first [exact I|apply ht_module_unresolved; assumption]|intros ? ?]
  | |- safe (unwrap (is_subtype _ _)) _ _ => apply safe_is_subtype; [v_can|v_can|intros ?]
  | |- safe (unwrap (not_or _ _)) _ _ => apply safe_not_or; [v_not_or|intros ? ?]
  | |- safe (unwrap (is_shared _)) _ _ => apply safe_is_shared; [v_can|intros ?]
  | |- safe (unwrap (rt_new _ _)) _ _ => apply safe_rt_new; [first [assumption|exact I]|intros ? ?]
  | |- safe (liftr (check_value_type _ _ _)) _ _ => apply safe_check_value_type; [assumption|intros ? ?]
  | |- safe (liftr (check_ref_type _ _)) _ _ => apply safe_check_ref_type; [assumption|intros ? ?]
  | |- safe (element_type_at' _ _) _ _ => apply safe_element_type_at; intros ? ?
  | |- safe (check_access _ _ _) _ _ => apply safe_check_access
  | |- safe (struct_type_at _ _) _ _ => apply safe_struct_type_at; intros ? ?
  | |- safe (struct_field_at _ _ _) _ _ => apply safe_struct_field_at; intros ? ?
  | |- safe (mutable_struct_field_at _ _ _) _ _ => apply safe_mutable_struct_field_at; intros ? ?
  | |- safe (array_type_at _ _) _ _ => apply safe_array_type_at; intros ? ?
  | |- safe (mutable_array_type_at _ _) _ _ => apply safe_mutable_array_type_at; intros ? ?
  | |- safe (func_type_at _ _) _ _ => apply safe_func_type_at; intros ? ?
  | |- safe (cont_type_at _ _) _ _ => apply safe_cont_type_at; intros ? ?
  | |- safe (tag_at' _ _) _ _ => apply safe_tag_at; intros ? ?
  | |- safe (exception_tag_at _ _) _ _ => apply safe_exception_tag_at; intros ? ?
  | |- safe (global_type_at _ _) _ _ => apply safe_global_type_at; intros ? ?
  | |- safe (table_type_at _ _) _ _ => apply safe_table_type_at; intros ? ?
  | |- safe (check_data_segment _ _) _ _ => apply safe_check_data_segment
  | |- safe (type_of_function _ _) _ _ => apply safe_type_of_function; intros ? ? ? ?
  | |- safe (check_memory_index _ _) _ _ => apply safe_check_memory_index; intros ? ?
  | |- safe (check_memarg _ _) _ _ => apply safe_check_memarg; intros ? ?
  | |- safe (check_shared_memarg _ _) _ _ => apply safe_check_shared_memarg; intros ? ?
  | |- safe (check_floats_enabled _) _ _ => apply safe_check_floats_enabled
  | |- safe (params _ _) _ _ => apply safe_params; intros ? ? ?
  | |- safe (results _ _) _ _ => apply safe_results; intros ? ? ?
  | |- safe (label_types _ _ _) _ _ => apply safe_label_types; intros ? ? ?
  | |- safe (check_block_type _ _) _ _ => apply safe_check_block_type; [assumption|intros ? ?]
  | |- safe (jump _ _) _ _ => apply safe_jump; intros ? ?
  | |- safe (function_frame _) _ _ => apply safe_function_frame; intros ? ?
  | |- safe (unreachable _) _ _ => eapply safe_unreachable; [eassumption|intros ? ? ?]
  | |- safe _ _ _ => progress autounfold with visit
  end; cbv beta.

Ltac v_run := repeat v_step.

(** An operator whose arity is a pair of numbers. *)
Ltac v_done := eapply visited_moves; [eassumption|assumption|intros _; reflexivity].

Lemma some_pair_eq (a b c d : Z) : a = c -> b = d -> Some (a, b) = Some (c, d).
Proof. by intros -> ->. Qed.

(** The arity of an operator with categories, which [known] are computed. *)
Ltac arity_with known :=
  intros _; unfold operator_arity; cbn [operator_annotation mvp_annotation gc_annotation tail_call_annotation
    exceptions_annotation legacy_exceptions_annotation function_references_annotation
    stack_switching_annotation annotation_arity sum_tokens count];
  known; unfold Arity.swap; cbn [mbind option_bind fst snd];
  rewrite !add_i32_small by (unfold small in *; lia);
  repeat match goal with |- context [?a <=? ?b] => destruct (Z.leb_spec a b); [|unfold small in *; lia] end; cbn [andb]; apply some_pair_eq; lia.

Ltac branch Hinv :=
  match goal with
  | Hv : moves ?v0 _ _ ?v, Hl : label_at ?v ?d ?b, Hb : block_types (fst ?b) ?ps ?rs |- _ =>
      let Ha := fresh "Ha" in let Hs := fresh "Hs" in let Hc := fresh "Hc" in
      destruct (branch_arity v0 _ _ v d b ps rs Hinv Hv Hl Hb) as (Ha & Hs & Hc)
  | Hv : moves ?v0 _ _ ?v, Hl : label_at ?v ?d (?b, ?k), Hb : block_types ?b ?ps ?rs |- _ =>
      let Ha := fresh "Ha" in let Hs := fresh "Hs" in let Hc := fresh "Hc" in
      destruct (branch_arity v0 _ _ v d (b, k) ps rs Hinv Hv Hl Hb) as (Ha & Hs & Hc); cbn [fst snd] in *
  end.

(** * The operators whose arity is fixed: numeric, vector and memory operators. *)

Section visit.
Context {R : WasmModuleResources} {RS : ResourcesSpec R} (off : Z) (v0 : OperatorValidator).
Hypotheses (Hinv : inv v0) (Hended : ended v0).

Lemma visit_i8x16_shuffle_safe lanes : safe (visit_i8x16_shuffle off lanes) v0
  (fun _ v => visited v0 (Op.Simd (Op.I8x16Shuffle lanes)) v).
Proof.
  pose proof (moves_refl v0 Hinv) as Hm. unfold visit_i8x16_shuffle. v_run.
  eapply (safe_for _ (fun _ v => moves v0 (0 + 1 + 1) 0 v)); [eassumption| |].
  - intros. v_run. done.
  - intros. v_run. v_done.
Qed.

Lemma visit_simd_safe o : safe (visit_simd off o) v0 (fun _ v => visited v0 (Op.Simd o) v).
Proof.
  pose proof (moves_refl v0 Hinv) as Hm.
  destruct o; try (cbn [visit_simd]; v_run; v_done). apply visit_i8x16_shuffle_safe.
Qed.

Lemma visit_sign_extension_safe o :
  safe (visit_sign_extension off o) v0 (fun _ v => visited v0 (Op.SignExtension o) v).
Proof. pose proof (moves_refl v0 Hinv) as Hm. destruct o; cbn [visit_sign_extension]; v_run; v_done. Qed.

Lemma visit_saturating_float_to_int_safe o :
  safe (visit_saturating_float_to_int off o) v0 (fun _ v => visited v0 (Op.SaturatingFloatToInt o) v).
Proof. pose proof (moves_refl v0 Hinv) as Hm. destruct o; cbn [visit_saturating_float_to_int]; v_run; v_done. Qed.

Lemma visit_memory_control_safe o :
  safe (visit_memory_control off o) v0 (fun _ v => visited v0 (Op.MemoryControl o) v).
Proof. pose proof (moves_refl v0 Hinv) as Hm. destruct o; cbn [visit_memory_control]; v_run; v_done. Qed.

Lemma visit_threads_safe o : safe (visit_threads off o) v0 (fun _ v => visited v0 (Op.Threads o) v).
Proof. pose proof (moves_refl v0 Hinv) as Hm. destruct o; cbn [visit_threads]; v_run; v_done. Qed.

Lemma visit_relaxed_simd_safe o :
  safe (visit_relaxed_simd off o) v0 (fun _ v => visited v0 (Op.RelaxedSimd o) v).
Proof. pose proof (moves_refl v0 Hinv) as Hm. destruct o; cbn [visit_relaxed_simd]; v_run; v_done. Qed.

Lemma visit_wide_arithmetic_safe o :
  safe (visit_wide_arithmetic off o) v0 (fun _ v => visited v0 (Op.WideArithmetic o) v).
Proof. pose proof (moves_refl v0 Hinv) as Hm. destruct o; cbn [visit_wide_arithmetic]; v_run; v_done. Qed.

Lemma visit_bulk_memory_safe o :
  safe (visit_bulk_memory off o) v0 (fun _ v => visited v0 (Op.BulkMemory o) v).
Proof.
  pose proof (moves_refl v0 Hinv) as Hm.
  destruct o; cbn [visit_bulk_memory]; unfold visit_memory_copy, visit_table_init, visit_table_copy; v_run; v_done.
Qed.
End visit.
