(* ===== verification/VisitControl.v ===== *)
(** The control operators: blocks, branches, calls and exceptions. *)

From Stdlib Require Import ZArith Lia String.
From stdpp Require Import prelude.
From S2P Require Import Prelude StateLogic BinaryReader Types TypesSpec Operands Operators OperandSpec.
From S2P Require Import OperatorSpec CompositeTypes Items ValidatorState OperatorValidator VisitOperators.
From S2P Require Import ValidateOperator Arity LocalsSpec ValidatorLogic ValidatorModule VisitSpec.

Local Open Scope Z_scope.

Section visit.
Context {R : WasmModuleResources} {RS : ResourcesSpec R} (off : Z) (v0 : OperatorValidator).
Hypotheses (Hinv : inv v0) (Hended : ended v0).

Let Hm : moves v0 0 0 v0 := moves_refl v0 Hinv.

(** ** Blocks *)

(** The checked block type has the parameters and the results of the other. *)
Lemma bt_checked_arity b b' ps rs :
  bt_checked b b' -> block_types b' ps rs ->
  block_type_arity (M := validator_arity v0) b = Some (Z.of_nat (length ps), Z.of_nat (length rs)).
Proof.
  intros [_ Hb] Hps. destruct b as [|t|i].
  - subst b'. by apply block_arity.
  - destruct Hb as [t' ->]. by destruct Hps as [-> ->].
  - subst b'. by apply block_arity.
Qed.

(** Popping the parameters and pushing a frame. *)
Lemma enter_block_safe kind b b' p v (Q : () -> OperatorValidator -> Prop) :
  bt_checked b b' -> moves v0 p 0 v ->
  (forall (ps rs : list ValType) v', block_type_arity (M := validator_arity v0) b = Some (Z.of_nat (length ps), Z.of_nat (length rs)) ->
     small ps /\ small rs -> counts v0 (p + Z.of_nat (length ps)) (Z.of_nat (length ps)) v' -> ended v' -> Q tt v') ->
  safe (tys ← params off b'; pop_types off tys;; push_ctrl off kind b') v Q.
Proof.
  intros Hb Hv HQ. v_run. apply safe_push_ctrl; [by eapply mv_inv|apply Hb|].
  intros ps' rs' w Hps' Hw Hne _.
  match goal with H : block_types b' ?ps ?rs |- _ =>
    destruct (block_types_eq _ _ _ _ _ H Hps') as [-> ->]; clear H end.
  apply (HQ ps' rs').
  - by eapply bt_checked_arity.
  - destruct (block_types_ok _ _ _ Hps' (proj1 Hb)) as (? & ? & _). done.
  - eapply counts_eq; [eapply counts_trans; [by apply moves_counts|exact Hw]|lia..].
  - by apply ended_nonempty.
Qed.

Lemma visit_block_kind_safe kind b o :
  bt_module b ->
  (forall ps rs : list ValType, small ps /\ small rs ->
     block_type_arity (M := validator_arity v0) b = Some (Z.of_nat (length ps), Z.of_nat (length rs)) ->
     operator_arity (M := validator_arity v0) o = Some (Z.of_nat (length ps), Z.of_nat (length ps))) ->
  safe (visit_block_kind off kind b) v0 (fun _ v => visited v0 o v).
Proof.
  intros Hb Ho. unfold visit_block_kind. v_step. apply safe_check_block_type; [done|]. intros b' Hb'.
  eapply enter_block_safe; [done..|]. intros ps rs w Ha Hs Hw He.
  eapply visited_counts; [done..|]. intros _. by eapply Ho.
Qed.

Lemma visit_if_safe b :
  bt_module b -> safe (visit_if off b) v0 (fun _ v => visited v0 (Op.Mvp (Op.If b)) v).
Proof.
  intros Hb. unfold visit_if. v_step. apply safe_check_block_type; [done|]. intros b' Hb'. do 2 v_step.
  eapply enter_block_safe; [done..|]. intros ps rs w Ha Hs Hw He.
  eapply visited_counts; [done..|]. arity_with ltac:(rewrite Ha).
Qed.

(** The frame that is popped, and its arity. *)
Lemma leave_block_safe (Q : Frame -> OperatorValidator -> Prop) :
  (forall c ps rs v', label_block (ModuleArity := validator_arity v0) 0 = Some (frame_block_type c, frame_kind c) ->
     block_type_arity (M := validator_arity v0) (frame_block_type c)
       = Some (Z.of_nat (length ps), Z.of_nat (length rs)) ->
     block_types (frame_block_type c) ps rs -> bt_canonical (frame_block_type c) -> small ps /\ small rs ->
     counts v0 (Z.of_nat (length rs)) 0 v' -> Q c v') ->
  safe (pop_ctrl off) v0 Q.
Proof.
  intros HQ. apply safe_pop_ctrl; [done|]. intros c cs ps rs w Hc Hb Hcan Hw _ _.
  destruct (end_arity v0 c cs ps rs Hc Hb) as [H1 H2]. destruct (block_types_ok _ _ _ Hb Hcan) as (H3 & H4 & _).
  by apply (HQ c ps rs w).
Qed.

Lemma visit_else_safe : safe (visit_else off) v0 (fun _ v => visited v0 (Op.Mvp Op.Else) v).
Proof.
  unfold visit_else. v_step. apply leave_block_safe. intros c ps rs w Hl Ha Hb Hcan Hs Hw. do 2 v_step.
  apply safe_push_ctrl; [by eapply ct_inv|done|]. intros ps' rs' w' Hb' Hw' Hne _.
  destruct (block_types_eq _ _ _ _ _ Hb Hb') as [<- <-].
  eapply visited_counts; [by eapply counts_trans|by apply ended_nonempty|].
  arity_with ltac:(rewrite Hl, Ha).
Qed.

(** The second frame of an [if] without [else]. *)
Lemma implicit_else_safe c ps rs w (Q : Frame -> OperatorValidator -> Prop) :
  block_types (frame_block_type c) ps rs -> bt_canonical (frame_block_type c) ->
  counts v0 (Z.of_nat (length rs)) 0 w ->
  (forall c' p q w', frame_block_type c' = frame_block_type c -> counts v0 p q w' ->
     (p, q) = (if bool_decide (frame_kind c = FK_If)
               then (Z.of_nat (length rs) + Z.of_nat (length rs), Z.of_nat (length ps))
               else (Z.of_nat (length rs), 0)) -> Q c' w') ->
  safe (if bool_decide (frame_kind c = FK_If) then
          push_ctrl off FK_Else (frame_block_type c);; pop_ctrl off
        else mret c) w Q.
Proof.
  intros Hb Hcan Hw HQ. destruct (bool_decide (frame_kind c = FK_If)).
  - v_step. apply safe_push_ctrl; [by eapply ct_inv|done|]. intros ps' rs' w1 Hb' Hw1 _ (c' & Hc' & Hbt & _).
    apply safe_pop_ctrl; [by eapply ct_inv|]. intros c2 cs ps2 rs2 w2 Hc2 Hb2 _ Hw2 _ _.
    rewrite Hc' in Hc2. injection Hc2 as <- _. rewrite Hbt in Hb2.
    destruct (block_types_eq _ _ _ _ _ Hb Hb') as [<- <-].
    destruct (block_types_eq _ _ _ _ _ Hb Hb2) as [<- <-].
    eapply HQ; [done|eapply counts_trans; [eapply counts_trans|]; done|]. f_equal; lia.
  - v_step. by eapply HQ.
Qed.

Lemma visit_end_safe : off <> 0 -> safe (visit_end off) v0 (fun _ v => visited v0 (Op.Mvp Op.End) v).
Proof.
  intros Hoff. unfold visit_end. v_step. apply leave_block_safe. intros c ps rs w Hl Ha Hb Hcan Hs Hw. v_step.
  eapply implicit_else_safe; [done..|]. intros c' p q w' Hbt Hw' Hpq. do 2 v_step. rewrite Hbt in *.
  match goal with H : block_types _ ?x ?y |- _ =>
    destruct (block_types_eq _ _ _ _ _ Hb H) as [<- <-]; clear H end.
  v_step. eapply safe_push_types; [apply moves_refl; by eapply ct_inv|apply (block_types_ok _ _ _ Hb Hcan)|]. intros w2 Hw2. do 2 v_step.
  pose proof (counts_moves _ _ _ _ _ _ _ Hw' Hw2) as Hc2.
  assert (Har : operator_arity (M := validator_arity v0) (Op.Mvp Op.End)
                = Some (p + 0, q + (0 + Z.of_nat (length rs)))).
  { revert Hpq. destruct (bool_decide_reflect (frame_kind c = FK_If)) as [Hk|Hk]; intros [= -> ->];
      cut (arity_fits v0 (Op.Mvp Op.End)); try done.
    - arity_with ltac:(rewrite Hl, Ha, Hk).
    - arity_with ltac:(rewrite Hl, Ha; destruct (frame_kind c); try done). }
  assert (Hv : ended w2 -> visited v0 (Op.Mvp Op.End) w2) by (intros; by eapply visited_counts).
  destruct (control w2) eqn:Ec; [|apply safe_ret, Hv; unfold ended; by rewrite Ec].
  destruct (end_which_emptied_control w2) eqn:Ee; [apply safe_ret, Hv; unfold ended; by rewrite Ee|].
  destruct (Z.eqb_spec off 0); [done|]. apply safe_modify.
  destruct Hc2 as [[] Hf Hct]. eapply (visited_counts _ _ (p + 0)); [|done|by intros _]. by split.
Qed.

(** ** Branches *)

Lemma visit_br_safe d : safe (visit_br off d) v0 (fun _ v => visited v0 (Op.Mvp (Op.Br d)) v).
Proof.
  unfold visit_br. do 2 v_step. destruct b as [b kind]. v_run. branch Hinv.
  eapply visited_counts; [done|by apply ended_nonempty|]. arity_with ltac:(rewrite Ha).
Qed.

Lemma visit_br_if_safe d : safe (visit_br_if off d) v0 (fun _ v => visited v0 (Op.Mvp (Op.BrIf d)) v).
Proof.
  unfold visit_br_if. do 4 v_step. destruct b as [b kind]. v_run. branch Hinv.
  eapply visited_moves; [done..|]. arity_with ltac:(rewrite Ha).
Qed.

Lemma check_targets_for fuel tys it ls v :
  targets_collect fuel it = Ok ls -> check_targets off fuel tys it v = for_ (check_target off tys) ls v.
Proof.
  revert it ls v. induction fuel as [|fuel IH]; intros it ls v; [done|]. cbn [targets_collect check_targets].
  destruct (targets_next it) as [[[x| |]|] it']; try done; [|by intros [= <-]].
  destruct (targets_collect fuel it') as [xs| |] eqn:E; try done. intros [= <-]. cbn [for_].
  rewrite ST_bind_eq. cbn [liftr]. rewrite !ST_bind_eq.
  destruct (check_target off tys x v) as [[[]| |] w]; try done. by apply IH.
Qed.

Lemma check_target_safe tys d p q v (Q : () -> OperatorValidator -> Prop) :
  moves v0 p q v -> (forall v', moves v0 p q v' -> Q tt v') -> safe (check_target off tys d) v Q.
Proof. intros Hv HQ. unfold check_target. v_run. by apply HQ. Qed.

Lemma visit_br_table_safe t :
  br_table_wf t -> safe (visit_br_table off t) v0 (fun _ v => visited v0 (Op.Mvp (Op.BrTable t)) v).
Proof.
  intros (_ & _ & ls & Hls & _ & _). unfold visit_br_table. do 6 v_step. branch Hinv. v_step.
  match goal with |- safe _ ?w _ => apply (safe_mono _ _ (fun _ v => moves v0 (0 + 1) 0 v)) end.
  - unfold safe. rewrite (check_targets_for _ _ _ _ _ Hls).
    apply (safe_for _ (fun _ v => moves v0 (0 + 1) 0 v)); [done| |done].
    intros k x u _ Hu. by eapply check_target_safe.
  - intros [] u Hu. v_run. eapply visited_counts; [done|by apply ended_nonempty|]. arity_with ltac:(rewrite Ha).
Qed.

(** ** Returns and calls *)

Lemma check_return_safe p q v (Q : () -> OperatorValidator -> Prop) :
  moves v0 p q v ->
  (forall c ps rs v', last (control v0) = Some c -> block_types (frame_block_type c) ps rs ->
     counts v0 (p + Z.of_nat (length rs)) q v' -> control v' <> [] -> Q tt v') ->
  safe (check_return off) v Q.
Proof.
  intros Hv HQ. unfold check_return. v_run. eapply HQ; [|done..]. by rewrite <- (mv_control _ _ _ _ Hv).
Qed.

Lemma visit_return_safe : safe (check_return off) v0 (fun _ v => visited v0 (Op.Mvp Op.Return) v).
Proof.
  eapply check_return_safe; [done|]. intros c ps rs w Hc Hb Hw Hne.
  eapply visited_counts; [done|by apply ended_nonempty|]. intros Hfit. cbn [arity_fits] in Hfit.
  destruct (block_types_ok _ _ _ Hb) as (H1 & H2 & _).
  { apply last_Some_elem_of in Hc. by apply (proj1 (Forall_forall _ _) (inv_frames _ Hinv)). }
  revert Hfit. cut (arity_fits v0 (Op.Mvp Op.Nop)); [|done].
  rewrite last_lookup in Hc.
  assert (Hh : arity_control_stack_height (ModuleArity := validator_arity v0) = Z.of_nat (length (control v0))
               \/ ~ Z.of_nat (length (control v0)) < 2 ^ 32).
  { destruct (decide (Z.of_nat (length (control v0)) < 2 ^ 32)); [left|by right].
    cbn. apply wrap_small. unfold in_u. lia. }
  intros _ Hfit. destruct Hh as [Hh|]; [|done]. revert Hfit.
  assert (Hlen : (0 < length (control v0))%nat) by (apply lookup_lt_Some in Hc; lia).
  assert (Hl : label_block (ModuleArity := validator_arity v0) (Z.of_nat (length (control v0)) - 1)
               = Some (frame_block_type c, frame_kind c)).
  { cbn. unfold validator_label_block.
    replace (Z.to_nat _) with (Init.Nat.pred (length (control v0))) by lia. by rewrite Hc. }
  arity_with ltac:(rewrite Hh; unfold checked_sub; destruct (Z.ltb_spec (Z.of_nat (length (control v0))) 1);
    [lia|]; rewrite Hl, (block_arity v0 _ _ _ Hb)).
Qed.

Lemma check_call_ty_safe i f p q v (Q : () -> OperatorValidator -> Prop) :
  inner_at i (CFunc f) -> moves v0 p q v ->
  (forall v', moves v0 (p + Z.of_nat (length (func_params f))) (q + Z.of_nat (length (func_results f))) v' ->
     Q tt v') ->
  safe (check_call_ty off f) v Q.
Proof. intros Hf Hv HQ. unfold check_call_ty. v_run. by apply HQ. Qed.

Lemma counts_reset v p q p' q' w :
  moves v0 p q v -> counts v0 p' q' w -> counts v0 p q (set_count (pop_push_count v) w).
Proof. intros [] [[] ]. split; [|done..]. by split. Qed.

Lemma check_return_call_ty_safe i f p q v (Q : () -> OperatorValidator -> Prop) :
  inner_at i (CFunc f) -> moves v0 p q v ->
  (forall v', counts v0 (p + Z.of_nat (length (func_params f))) q v' -> ended v' -> Q tt v') ->
  safe (check_return_call_ty off f) v Q.
Proof.
  intros Hf Hv HQ. unfold check_return_call_ty, check_func_type_same_results. do 7 v_step.
  apply safe_when; [intros _; v_run|intros _]. do 7 v_step.
  eapply check_return_safe; [eassumption|]. intros c' ps' rs' w _ _ Hw Hne. apply safe_modify, HQ.
  - by eapply counts_reset.
  - by apply ended_nonempty.
Qed.

Lemma check_call_indirect_ty_safe i t p q v (Q : FuncType -> OperatorValidator -> Prop) :
  moves v0 p q v -> (forall f v', inner_at i (CFunc f) -> moves v0 (p + 1) q v' -> Q f v') ->
  safe (check_call_indirect_ty off i t) v Q.
Proof. intros Hv HQ. unfold check_call_indirect_ty. v_run. by apply HQ. Qed.

Lemma check_call_ref_ty_safe i p q v (Q : FuncType -> OperatorValidator -> Prop) :
  moves v0 p q v -> (forall f v', inner_at i (CFunc f) -> moves v0 (p + 1) q v' -> Q f v') ->
  safe (check_call_ref_ty off i) v Q.
Proof. intros Hv HQ. unfold check_call_ref_ty. v_run. by apply HQ. Qed.

Lemma func_small i f : inner_at i (CFunc f) -> small (func_params f) /\ small (func_results f).
Proof. intros H. apply (inner_at_ok _ _ H). Qed.

(** The arity of a call, direct or not. *)
Lemma func_count i t f :
  type_index_of_function i = Some t -> inner_at t (CFunc f) ->
  (t ← arity_type_index_of_function (ModuleArity := validator_arity v0) i; type_arity (M := validator_arity v0) t)
  = Some (Z.of_nat (length (func_params f)), Z.of_nat (length (func_results f))).
Proof.
  intros Hi Ht. cbn [arity_type_index_of_function validator_arity]. rewrite Hi.
  cbn [mbind option_bind]. by rewrite (inner_arity v0 _ _ Ht).
Qed.

Lemma visit_tail_call_safe o :
  safe (visit_tail_call off o) v0 (fun _ v => visited v0 (Op.TailCall o) v).
Proof.
  destruct o as [i|i t]; cbn [visit_tail_call]; v_step.
  - v_step. eapply check_return_call_ty_safe; [done..|]. intros w Hw He.
    destruct (func_small _ _ H0). eapply visited_counts; [done..|].
    arity_with ltac:(rewrite (func_count i t f) by done).
  - eapply check_call_indirect_ty_safe; [done|]. intros f u Hf Hu.
    eapply check_return_call_ty_safe; [done..|]. intros w Hw He.
    destruct (func_small _ _ Hf). eapply visited_counts; [done..|].
    arity_with ltac:(rewrite (inner_arity v0 _ _ Hf)).
Qed.

(** ** Exceptions *)

Lemma match_operands_safe (tys params : list ValType) p q v (Q : () -> OperatorValidator -> Prop) :
  Forall vt_canonical tys -> Forall vt_canonical params -> moves v0 p q v -> (forall v', moves v0 p q v' -> Q tt v') ->
  safe (for_ (fun '(expected, actual) => match_operand off actual expected) (combine tys params)) v Q.
Proof.
  intros Ht Hp Hv HQ. apply (safe_for _ (fun _ v => moves v0 p q v)); [done| |done].
  intros k [e a] w Hk Hw. destruct (combine_canonical _ _ _ _ _ Ht Hp Hk). v_run. done.
Qed.

Lemma check_catch_safe c p q v (Q : () -> OperatorValidator -> Prop) :
  moves v0 p q v -> (forall v', moves v0 p q v' -> Q tt v') -> safe (check_catch off c) v Q.
Proof.
  intros Hv HQ. destruct c; cbn [check_catch].
  - do 4 v_step. destruct b as [b k]. do 4 v_step. eapply match_operands_safe; [v_can|v_can|done..].
  - do 4 v_step. destruct b as [b k]. do 4 v_step. eapply match_operands_safe; [v_can| |done..].
    apply Forall_app. split; [v_can|]. constructor; [exact exn_canonical|done].
  - do 2 v_step. destruct b as [b k]. v_run. by apply HQ.
  - do 2 v_step. destruct b as [b k]. do 2 v_step.
    assert (Hl : Forall vt_canonical (label_of k ps rs)) by v_can.
    destruct (label_of k ps rs) as [|t [|]]; [done| |done]. apply Forall_cons in Hl as [Ht _]. v_run. by apply HQ.
Qed.

Lemma visit_try_table_safe t :
  try_table_wf t ->
  safe (visit_try_table off t) v0 (fun _ v => visited v0 (Op.Exceptions (Op.TryTable t)) v).
Proof.
  intros [Hb _]. unfold visit_try_table. v_step. apply safe_check_block_type; [done|]. intros b' Hb'. do 5 v_step.
  apply (safe_for _ (fun _ v => moves v0 (0 + Z.of_nat (length ps)) 0 v)); [done| |].
  - intros k c w _ Hw. by eapply check_catch_safe.
  - intros w Hw. apply safe_push_ctrl; [by eapply mv_inv|apply Hb'|]. intros ps' rs' w' Hps' Hw' Hne _.
    destruct (block_types_eq _ _ _ _ _ H Hps') as [<- <-].
    destruct (block_types_ok _ _ _ H (proj1 Hb')) as (? & ? & _).
    eapply visited_counts; [eapply counts_trans; [by apply moves_counts|done]|by apply ended_nonempty|].
    arity_with ltac:(rewrite (bt_checked_arity _ _ _ _ Hb' H)).
Qed.

Lemma visit_exceptions_safe o :
  exceptions_wf o -> safe (visit_exceptions off o) v0 (fun _ v => visited v0 (Op.Exceptions o) v).
Proof.
  destruct o as [t|i|]; cbn [exceptions_wf visit_exceptions]; intros Ho.
  - by apply visit_try_table_safe.
  - unfold visit_throw. v_run. destruct (fo_small _ (tag_ok _ _ H)) as [Hs3 Hs4].
    eapply visited_counts; [done|by apply ended_nonempty|]. arity_with ltac:(rewrite (tag_arity v0 _ _ H)).
  - unfold visit_throw_ref. v_run. eapply visited_counts; [done|by apply ended_nonempty|]. by intros _.
Qed.

Lemma visit_catch_safe i :
  safe (visit_catch off i) v0 (fun _ v => visited v0 (Op.LegacyExceptions (Op.Catch i)) v).
Proof.
  unfold visit_catch. v_step. apply leave_block_safe. intros c ps rs w Hl Ha Hb Hcan [Hs1 Hs2] Hw. do 3 v_step.
  apply safe_push_frame; [by eapply ct_inv|done|]. intros w1 Hw1 Hne _. do 2 v_step.
  eapply safe_push_types; [apply moves_refl; by eapply ct_inv|v_can|]. intros w2 Hw2.
  destruct (fo_small _ (tag_ok _ _ H0)) as [Hs3 Hs4].
  eapply visited_counts; [eapply counts_moves; [by eapply counts_trans|done]| |].
  - apply ended_nonempty. by rewrite (mv_control _ _ _ _ Hw2).
  - arity_with ltac:(rewrite Hl, Ha, (tag_arity v0 _ _ H0)).
Qed.

Lemma visit_delegate_safe d :
  safe (visit_delegate off d) v0 (fun _ v => visited v0 (Op.LegacyExceptions (Op.Delegate d)) v).
Proof.
  unfold visit_delegate. v_step. apply leave_block_safe. intros c ps rs w Hl Ha Hb Hcan [Hs1 Hs2] Hw. do 6 v_step.
  match goal with H : block_types (frame_block_type c) _ _ |- _ =>
    destruct (block_types_eq _ _ _ _ _ Hb H) as [<- <-] end.
  eapply safe_push_types; [apply moves_refl; by eapply ct_inv|apply (block_types_ok _ _ _ Hb Hcan)|]. intros w2 Hw2.
  eapply visited_counts; [eapply counts_moves; done| |arity_with ltac:(rewrite Hl, Ha)].
  apply ended_nonempty. rewrite (mv_control _ _ _ _ Hw2). intros E.
  match goal with H : label_at w d _ |- _ => destruct H as (c' & Hc' & _) end. by rewrite E in Hc'.
Qed.

Lemma visit_catch_all_safe :
  safe (visit_catch_all off) v0 (fun _ v => visited v0 (Op.LegacyExceptions Op.CatchAll) v).
Proof.
  unfold visit_catch_all. v_step. apply leave_block_safe. intros c ps rs w Hl Ha Hb Hcan [Hs1 Hs2] Hw.
  destruct (bool_decide (frame_kind c = FK_LegacyCatchAll)); [done|]. do 2 v_step.
  apply safe_push_frame; [by eapply ct_inv|done|]. intros w1 Hw1 Hne _.
  eapply visited_counts; [by eapply counts_trans|by apply ended_nonempty|]. arity_with ltac:(rewrite Hl, Ha).
Qed.

Lemma visit_legacy_exceptions_safe o :
  legacy_exceptions_wf o ->
  safe (visit_legacy_exceptions off o) v0 (fun _ v => visited v0 (Op.LegacyExceptions o) v).
Proof.
  destruct o as [b|i|d|d|]; cbn [legacy_exceptions_wf visit_legacy_exceptions]; intros Ho.
  - apply visit_block_kind_safe; [done|]. intros ps rs [Hs1 Hs2] Ha.
    cut (arity_fits v0 (Op.Mvp Op.Nop)); [|done]. arity_with ltac:(rewrite Ha).
  - apply visit_catch_safe.
  - unfold visit_rethrow. do 2 v_step. destruct b as [b k]. v_run.
    eapply visited_counts; [done|by apply ended_nonempty|]. by intros _.
  - apply visit_delegate_safe.
  - apply visit_catch_all_safe.
Qed.
End visit.

(** * The operators on references, tables, structs and arrays. *)

Lemma length_removelast_last {A} (l : list A) x :
  last l = Some x -> Z.of_nat (length (removelast l)) = Z.of_nat (length l) - 1.
Proof.
  intros (l' & ->)%last_Some. rewrite removelast_last, length_app. simpl. lia.
Qed.

Lemma last_canonical {R : WasmModuleResources} (l : list ValType) t : Forall vt_canonical l -> last l = Some t -> vt_canonical t.
Proof. intros H Ht. apply last_Some_elem_of in Ht. by apply (proj1 (Forall_forall _ _) H). Qed.

Section visit.
Context {R : WasmModuleResources} {RS : ResourcesSpec R} (off : Z) (v0 : OperatorValidator).
Hypotheses (Hinv : inv v0) (Hended : ended v0).

Let Hm : moves v0 0 0 v0 := moves_refl v0 Hinv.

(** ** Function references *)

Lemma visit_br_on_null_safe d :
  safe (visit_br_on_null off d) v0 (fun _ v => visited v0 (Op.FunctionReferences (Op.BrOnNull d)) v).
Proof.
  unfold visit_br_on_null. do 4 v_step. destruct b as [b k]. v_run. branch Hinv.
  eapply visited_moves; [done..|]. arity_with ltac:(rewrite Ha).
Qed.

Lemma visit_br_on_non_null_safe d :
  safe (visit_br_on_non_null off d) v0 (fun _ v => visited v0 (Op.FunctionReferences (Op.BrOnNonNull d)) v).
Proof.
  unfold visit_br_on_non_null. do 2 v_step. destruct b as [b k]. do 2 v_step. branch Hinv. v_step.
  destruct (last (label_of k ps rs)) as [[]|] eqn:El; try done.
  pose proof (last_canonical _ _ Hc El). v_run. apply length_removelast_last in El.
  eapply visited_moves; [done..|]. arity_with ltac:(rewrite Ha).
Qed.

Lemma visit_function_references_safe o :
  safe (visit_function_references off o) v0 (fun _ v => visited v0 (Op.FunctionReferences o) v).
Proof.
  destruct o as [i|i| |d|d]; cbn [visit_function_references].
  - v_step. eapply check_call_ref_ty_safe; [done|]. intros f w Hf Hw. destruct (func_small _ _ Hf).
    eapply check_call_ty_safe; [done..|]. intros w' Hw'.
    eapply visited_moves; [done..|]. arity_with ltac:(rewrite (inner_arity v0 _ _ Hf)).
  - v_step. eapply check_call_ref_ty_safe; [done|]. intros f w Hf Hw. destruct (func_small _ _ Hf).
    eapply check_return_call_ty_safe; [done..|]. intros w' Hw' He.
    eapply visited_counts; [done..|]. arity_with ltac:(rewrite (inner_arity v0 _ _ Hf)).
  - unfold visit_ref_as_non_null. v_run. v_done.
  - apply visit_br_on_null_safe.
  - apply visit_br_on_non_null_safe.
Qed.

(** ** Reference types *)

Lemma visit_ref_null_safe h :
  ht_module h -> safe (visit_ref_null off h) v0 (fun _ v => visited v0 (Op.ReferenceTypes (Op.RefNull h)) v).
Proof.
  intros Hh. unfold visit_ref_null. do 3 v_step.
  apply (safe_mono _ _ (fun _ v => v = v0)).
  - destruct (rt_new true h) as [r|] eqn:Er; [|done]. apply safe_liftr.
    pose proof (check_ref_type_features_ok (ov_features v0) r off) as H.
    assert (Hr : rt_valid r) by (exists true, h; split; [by apply ht_module_valid|done]).
    specialize (H Hr). by destruct (at_offset off _).
  - intros _ ? ->. v_run. v_done.
Qed.

Lemma visit_reference_types_safe o :
  reference_types_wf o ->
  safe (visit_reference_types off o) v0 (fun _ v => visited v0 (Op.ReferenceTypes o) v).
Proof.
  intros Ho. destruct o; cbn [reference_types_wf] in Ho;
    try (apply visit_ref_null_safe; assumption);
    unfold visit_reference_types, visit_typed_select, visit_ref_is_null, visit_ref_func, visit_table_fill,
      visit_table_get, visit_table_set, visit_table_grow, visit_table_size; v_run; v_done.
Qed.

(** ** Garbage collection *)

Lemma check_downcast_safe n h p q v (Q : RefType -> OperatorValidator -> Prop) :
  ht_module h -> moves v0 p q v ->
  (forall r v', moves v0 (p + 1) q v' -> rt_canonical r -> Q r v') -> safe (check_downcast off n h) v Q.
Proof.
  intros Hh Hv HQ. unfold check_downcast. do 5 v_step.
  match goal with H : ht_canonical ?h |- _ => destruct (top_type_spec h H) as (s & t & Htop) end.
  eapply safe_unwrap; [done|]. v_run. apply HQ; [done|v_can].
Qed.

Lemma check_cast_types_safe from to v (Q : RefType * RefType -> OperatorValidator -> Prop) :
  rt_module from -> rt_module to ->
  (forall from' to', rt_canonical from' -> rt_canonical to' -> Q (from', to') v) -> safe (check_cast_types off from to) v Q.
Proof. intros Hf Ht HQ. unfold check_cast_types. v_run. by apply HQ. Qed.

Lemma safe_rt_difference from to v (Q : RefType -> OperatorValidator -> Prop) :
  rt_canonical from -> (forall r, rt_canonical r -> Q r v) -> safe (unwrap (rt_difference from to)) v Q.
Proof.
  intros (n & h & Hh & Hf) HQ. destruct (rt_new_heap_type n h (ht_canonical_valid h Hh)) as (r' & Hr' & Hht & _).
  rewrite Hf in Hr'. injection Hr' as <-. unfold rt_difference. rewrite Hht. cbn [mbind option_bind].
  by apply safe_rt_new.
Qed.

Lemma visit_br_on_cast_safe d from to :
  rt_module from -> rt_module to ->
  safe (visit_br_on_cast off d from to) v0 (fun _ v => visited v0 (Op.Gc (Op.BrOnCast d from to)) v).
Proof.
  intros Hf Ht. unfold visit_br_on_cast. v_step. apply check_cast_types_safe; [done..|]. intros f' t' Hf' Ht'.
  do 2 v_step. destruct b as [b k]. do 2 v_step. branch Hinv. v_step.
  destruct (last (label_of k ps rs)) eqn:El; [|done]. pose proof (last_canonical _ _ Hc El).
  apply length_removelast_last in El. do 2 v_step. destruct r; [|done]. do 4 v_step. apply safe_rt_difference; [done|]. intros r Hr. v_run.
  eapply visited_moves; [done..|]. arity_with ltac:(rewrite Ha).
Qed.

Lemma visit_br_on_cast_fail_safe d from to :
  rt_module from -> rt_module to ->
  safe (visit_br_on_cast_fail off d from to) v0 (fun _ v => visited v0 (Op.Gc (Op.BrOnCastFail d from to)) v).
Proof.
  intros Hf Ht. unfold visit_br_on_cast_fail. v_step. apply check_cast_types_safe; [done..|]. intros f' t' Hf' Ht'.
  do 2 v_step. destruct b as [b k]. do 2 v_step. branch Hinv. v_step.
  apply safe_rt_difference; [done|]. intros r Hr. v_step.
  destruct (last (label_of k ps rs)) eqn:El; [|done]. pose proof (last_canonical _ _ Hc El).
  apply length_removelast_last in El. do 2 v_step. destruct r0; [|done]. v_run.
  eapply visited_moves; [done..|]. arity_with ltac:(rewrite Ha).
Qed.

Lemma convert_ref_safe from to p q v (Q : () -> OperatorValidator -> Prop) :
  moves v0 p q v -> (forall v', moves v0 (p + 1) (q + 1) v' -> Q tt v') -> safe (convert_ref off from to) v Q.
Proof.
  intros Hv HQ. unfold convert_ref. do 3 v_step. destruct ty as [|u|r]; v_run; by apply HQ.
Qed.

Lemma visit_struct_new_safe i :
  safe (visit_struct_new off i) v0 (fun _ v => visited v0 (Op.Gc (Op.StructNew i)) v).
Proof.
  unfold visit_struct_new. v_run. pose proof (inner_at_ok _ _ H) as Hs. cbn in Hs.
  eapply visited_moves; [done..|]. rewrite length_map. arity_with ltac:(rewrite (inner_arity v0 _ _ H)).
Qed.

Lemma visit_struct_new_default_safe i :
  safe (visit_struct_new_default off i) v0 (fun _ v => visited v0 (Op.Gc (Op.StructNewDefault i)) v).
Proof.
  unfold visit_struct_new_default. do 3 v_step.
  apply (safe_for _ (fun _ v => moves v0 0 0 v)); [done| |].
  - intros k x w _ Hw. v_run. done.
  - intros w Hw. v_run. v_done.
Qed.

Lemma visit_array_new_fixed_safe i n :
  in_u 32 n ->
  safe (visit_array_new_fixed off i n) v0 (fun _ v => visited v0 (Op.Gc (Op.ArrayNewFixed i n)) v).
Proof.
  intros [Hn _]. unfold visit_array_new_fixed. do 3 v_step.
  apply (safe_for _ (fun k v => moves v0 (0 + Z.of_nat k) 0 v)); [done| |].
  - intros k x w _ Hw. v_run. by replace (0 + Z.of_nat (S k)) with (0 + Z.of_nat k + 1) by lia.
  - intros w Hw. rewrite length_seq, Z2Nat.id in Hw by done. v_run.
    eapply visited_moves; [done..|]. intros Hfit. cbn [arity_fits] in Hfit.
    cut (arity_fits v0 (Op.Mvp Op.Nop)); [|done]. arity_with idtac.
Qed.

Lemma check_not_ref_safe t m v (Q : () -> OperatorValidator -> Prop) : Q tt v -> safe (check_not_ref off t m) v Q.
Proof. intros HQ. by destruct t. Qed.

Lemma check_array_elem_safe t i m1 m2 v (Q : () -> OperatorValidator -> Prop) :
  ft_canonical t -> Q tt v -> safe (check_array_elem off t i m1 m2) v Q.
Proof.
  intros Ht HQ. unfold check_array_elem, ft_canonical in *. destruct (storage_unpack _); try done. v_run. done.
Qed.

(** One operator of a group with a fixed arity. *)
Ltac v_gc := v_run; first [v_done | apply check_not_ref_safe; v_run; v_done | apply check_array_elem_safe; [done|]; v_run; v_done].

Lemma visit_array_copy_safe i j :
  safe (visit_array_copy off i j) v0 (fun _ v => visited v0 (Op.Gc (Op.ArrayCopy i j)) v).
Proof.
  unfold visit_array_copy. do 5 v_step.
  apply (safe_mono _ _ (fun _ v => v = v0)).
  - unfold ft_canonical in *. destruct (element_type f), (element_type f0); try done.
    cbn [storage_unpack] in *. v_run. done.
  - intros _ ? ->. v_run. v_done.
Qed.

Lemma safe_is_maybe_shared ty v (Q : option bool -> OperatorValidator -> Prop) :
  mr_canonical ty -> (forall b, Q b v) -> safe (unwrap (is_maybe_shared ty)) v Q.
Proof.
  intros Hty HQ. destruct ty as [|u|r]; try apply HQ. cbn [is_maybe_shared].
  destruct (is_shared_spec r Hty) as [b ->]. apply HQ.
Qed.

Lemma visit_ref_eq_safe : safe (visit_ref_eq off) v0 (fun _ v => visited v0 (Op.Gc Op.RefEq) v).
Proof.
  unfold visit_ref_eq. do 5 v_step. apply safe_is_maybe_shared; [done|]. intros a.
  v_step. apply safe_is_maybe_shared; [done|]. intros b. v_step.
  apply (safe_mono _ _ (fun _ v => moves v0 (0 + 1 + 1) 0 v)).
  - destruct a, b; v_run; done.
  - intros [] w Hw. v_run. v_done.
Qed.

Lemma visit_gc_safe o : gc_wf o -> safe (visit_gc off o) v0 (fun _ v => visited v0 (Op.Gc o) v).
Proof.
  intros Ho. destruct o; cbn [visit_gc gc_wf] in *;
    try (unfold visit_struct_get, visit_struct_get_s, visit_struct_get_u, visit_struct_get_field, visit_struct_set,
      visit_array_new, visit_array_new_default, visit_array_new_data, visit_array_new_elem, visit_array_get,
      visit_array_get_s, visit_array_get_u, visit_array_get_element, visit_array_set, visit_array_len,
      visit_array_fill, visit_array_init_data, visit_array_init_elem, visit_i31_get; v_gc; fail);
    try (unfold check_ref_test, check_ref_cast; v_step; eapply check_downcast_safe; [apply Ho|done|]; intros; v_run; v_done; fail);
    try (eapply convert_ref_safe; [done|]; intros; v_done; fail).
  - apply visit_ref_eq_safe.
  - apply visit_struct_new_safe.
  - apply visit_struct_new_default_safe.
  - apply visit_array_new_fixed_safe. apply Ho.
  - apply visit_array_copy_safe.
  - destruct Ho as (_ & ? & ?). by apply visit_br_on_cast_safe.
  - destruct Ho as (_ & ? & ?). by apply visit_br_on_cast_fail_safe.
Qed.
End visit.
