(* ===== verification/FuncSpec.v ===== *)
(** The remaining operators (atomic accesses, stack switching, the minimum
    viable product) and all of them together. *)

From Stdlib Require Import ZArith Lia String.
From stdpp Require Import prelude.
From S2P Require Import Prelude StateLogic Leb128 BinaryReader BinaryReaderSpec ReaderLogic Types TypesSpec.
From S2P Require Import Operands Operators OperatorReader OperandSpec OperatorSpec InstrRoundtrip SectionReader.
From S2P Require Import CompositeTypes Items FunctionSpec ValidatorState OperatorValidator VisitOperators.
From S2P Require Import ValidateOperator Arity LocalsSpec ValidatorLogic ValidatorModule VisitSpec VisitControl.

Local Open Scope Z_scope.

Section visit.
Context {R : WasmModuleResources} {RS : ResourcesSpec R} (off : Z) (v0 : OperatorValidator).
Hypotheses (Hinv : inv v0) (Hended : ended v0).

Let Hm : moves v0 0 0 v0 := moves_refl v0 Hinv.

(** ** Atomic accesses *)

Lemma check_atomic_type_safe t s m v (Q : () -> OperatorValidator -> Prop) :
  vt_canonical t -> vt_canonical s -> Q tt v -> safe (check_atomic_type off t s m) v Q.
Proof.
  intros Ht Hs HQ. unfold check_atomic_type. v_step. destruct (_ || _); v_run; done.
Qed.

(** The shared version of [anyref] and [eqref]. *)
Lemma safe_rt_shared s v (Q : RefType -> OperatorValidator -> Prop) :
  s = ANYREF \/ s = EQREF -> (forall r, rt_canonical r -> Q r v) -> safe (unwrap (rt_shared s)) v Q.
Proof.
  intros Hs HQ. destruct Hs as [-> | ->]; (eapply safe_unwrap; [reflexivity|]); apply HQ.
  - by exists true, (Abstract true HAny).
  - by exists true, (Abstract true HEq).
Qed.

Lemma check_shared_subtype_safe t s m v (Q : () -> OperatorValidator -> Prop) :
  rt_canonical t -> s = ANYREF \/ s = EQREF -> Q tt v -> safe (check_shared_subtype off t s m) v Q.
Proof.
  intros Ht Hs HQ. unfold check_shared_subtype. v_step. apply safe_rt_shared; [done|]. intros r Hr. v_run. done.
Qed.

Lemma check_atomic_storage_safe b t s m v (Q : () -> OperatorValidator -> Prop) :
  vt_canonical (storage_unpack t) -> s = ANYREF \/ s = EQREF -> Q tt v ->
  safe (check_atomic_storage off b t s m) v Q.
Proof.
  intros Ht Hs HQ. unfold check_atomic_storage. v_step.
  destruct t as [| |t]; [v_run; done..|]. cbn [storage_unpack] in Ht.
  destruct t; try (v_run; done); v_step; (apply safe_rt_shared; [done|]); intros s' Hs'; v_run; done.
Qed.

Lemma check_atomic_global_rmw_ty_safe i v (Q : ValType -> OperatorValidator -> Prop) :
  (forall t, vt_canonical t -> Q t v) -> safe (check_atomic_global_rmw_ty off i) v Q.
Proof. intros HQ. unfold check_atomic_global_rmw_ty. v_run. by apply HQ. Qed.

(** The type of an atomic field is [i32] or [i64]. *)
Lemma safe_i32_i64 (t : StorageType) m v (Q : ValType -> OperatorValidator -> Prop) :
  (forall t, vt_canonical t -> Q t v) ->
  safe match t with SVal I32 => mret I32 | SVal I64 => mret I64 | _ => bail off m end v Q.
Proof. intros HQ. destruct t as [| |[]]; try apply safe_bail; by apply HQ. Qed.

Ltac v_atomic :=
  repeat first
    [ v_step
    | apply check_atomic_type_safe; [v_can|v_can|]
    | apply check_shared_subtype_safe; [v_can|first [by left|by right]|]
    | apply check_atomic_storage_safe; [v_can|first [by left|by right]|]
    | apply check_atomic_global_rmw_ty_safe; intros ? ?
    | apply safe_i32_i64; intros ? ? ]; v_done.

Lemma visit_shared_everything_threads_safe o :
  safe (visit_shared_everything_threads off o) v0 (fun _ v => visited v0 (Op.SharedEverythingThreads o) v).
Proof.
  destruct o; cbn [visit_shared_everything_threads];
    unfold visit_global_atomic_get, visit_global_atomic_set, visit_global_atomic_rmw_xchg,
      visit_global_atomic_rmw_cmpxchg, visit_global_get, visit_global_set,
      visit_table_atomic_get, visit_table_atomic_set, visit_table_atomic_rmw_xchg,
      visit_table_atomic_rmw_cmpxchg, visit_table_get, visit_table_set,
      visit_struct_atomic_get, visit_struct_atomic_get_s, visit_struct_atomic_get_u, visit_struct_atomic_set,
      visit_struct_atomic_rmw_xchg, visit_struct_atomic_rmw_cmpxchg, check_struct_atomic_rmw,
      visit_struct_get, visit_struct_get_s, visit_struct_get_field, visit_struct_set,
      visit_array_atomic_get, visit_array_atomic_set, visit_array_atomic_rmw_xchg,
      visit_array_atomic_rmw_cmpxchg, check_array_atomic_rmw,
      visit_array_get, visit_array_get_s, visit_array_get_u, visit_array_get_element, visit_array_set;
    try (v_atomic; fail).
  unfold visit_ref_i31_shared. do 3 v_step. eapply safe_unwrap; [reflexivity|].
  assert (rt_canonical (from_u32 (Z.lor (as_u32 I31) SHARED_BIT))) by (by exists false, (Abstract true HI31)).
  v_run. v_done.
Qed.

(** ** Stack switching *)

Lemma safe_func_type_of_cont i c v (Q : FuncType -> OperatorValidator -> Prop) :
  inner_at i (CCont c) ->
  (forall f, func_type_of_cont_type c = Some f -> func_ok f ->
     type_arity (M := validator_arity v0) i
       = Some (Z.of_nat (length (func_params f)), Z.of_nat (length (func_results f))) -> Q f v) ->
  safe (unwrap (func_type_of_cont_type c)) v Q.
Proof.
  intros Hc HQ. destruct (inner_at_ok _ _ Hc) as (_ & f & Hf & Hok). eapply safe_unwrap; [done|].
  apply HQ; [done..|]. rewrite (inner_arity v0 _ _ Hc). by rewrite Hf.
Qed.

(** A canonical reference to a continuation. *)
Lemma cont_of_ref_safe r v (Q : ContType -> OperatorValidator -> Prop) :
  rt_canonical r -> is_concrete_type_ref r = true ->
  (forall c f st, validator_sub_type_of_ref_type r = Some st -> inner (composite_type_of st) = CCont c ->
     func_type_of_cont_type c = Some f -> func_ok f -> Q c v) ->
  safe (cont_of_ref off r) v Q.
Proof.
  intros Hr Hc HQ. destruct (canonical_concrete r Hr Hc) as (i & id & Hi & Hid & [st Hst]). unfold cont_of_ref.
  v_step. eapply safe_unwrap; [done|]. v_step. eapply safe_unwrap; [done|]. v_step. eapply safe_unwrap; [done|].
  pose proof (sub_type_at_id_spec id st Hst) as Hok. unfold sub_ok in Hok.
  destruct (inner (composite_type_of st)) as [|?|?|c] eqn:E; try done.
  destruct Hok as (_ & f & Hf & Hfo). apply safe_ret. eapply HQ; [|done..].
  unfold validator_sub_type_of_ref_type. rewrite Hi. cbn [mbind option_bind]. by rewrite Hid.
Qed.

Lemma check_handle_safe f h v (Q : () -> OperatorValidator -> Prop) :
  func_ok f -> moves v0 0 0 v -> (forall v', moves v0 0 0 v' -> Q tt v') -> safe (check_handle off f h) v Q.
Proof.
  intros Hfo Hv HQ. destruct h as [tag label|tag]; cbn [check_handle]; [|v_run; by apply HQ].
  do 6 v_step. branch Hinv. destruct (last (label_of b.2 ps rs)) as [[]|] eqn:El; try done.
  destruct (is_concrete_type_ref r) eqn:Ec; [|done]. v_step.
  apply cont_of_ref_safe; [exact (last_canonical _ _ Hc El)|done|]. intros c fc st _ _ Hfc Hfco. v_step.
  eapply safe_unwrap; [done|]. do 6 v_step.
  apply (safe_for _ (fun _ v => moves v0 0 0 v)); [done| |done].
  intros k [x y] w Hk Hw.
  edestruct combine_canonical as [Hx Hy]; [by apply Forall_take| |exact Hk|]; [v_can|]. v_run. done.
Qed.

Lemma check_resume_table_safe t i (Q : FuncType -> OperatorValidator -> Prop) :
  (forall f v, func_ok f -> moves v0 0 0 v ->
     type_arity (M := validator_arity v0) i
       = Some (Z.of_nat (length (func_params f)), Z.of_nat (length (func_results f))) -> Q f v) ->
  safe (check_resume_table off t i) v0 Q.
Proof.
  intros HQ. unfold check_resume_table. do 3 v_step. eapply safe_func_type_of_cont; [done|].
  intros f Hf Hok Ha. v_step. apply (safe_for _ (fun _ v => moves v0 0 0 v)); [done| |].
  - intros k h w _ Hw. by apply check_handle_safe.
  - intros w Hw. v_run. by apply HQ.
Qed.

Lemma visit_cont_bind_safe i j :
  safe (visit_cont_bind off i j) v0 (fun _ v => visited v0 (Op.StackSwitching (Op.ContBind i j)) v).
Proof.
  unfold visit_cont_bind. do 3 v_step. eapply safe_func_type_of_cont; [done|]. intros f Hf Hok Ha.
  do 3 v_step. eapply safe_func_type_of_cont; [done|]. intros f' Hf' Hok' Ha'.
  do 2 v_step. match goal with H : (_ <? _)%nat = false |- _ => apply Nat.ltb_ge in H; rename H into Hle end.
  do 2 v_step.
  do 2 v_step. subst. match goal with H : not_or _ _ = Some false |- _ =>
    apply not_or_false in H as [_ [[= Hr%Nat.eqb_eq] _]%not_or_false] end.
  v_run. destruct (fo_small _ Hok), (fo_small _ Hok'). eapply visited_moves; [done..|]. rewrite length_take.
  arity_with ltac:(rewrite Ha, Ha'; unfold checked_sub; cbn [fst snd];
    rewrite !(proj2 (Z.ltb_ge _ _)) by lia).
Qed.

Lemma visit_resume_safe i t :
  safe (visit_resume off i t) v0 (fun _ v => visited v0 (Op.StackSwitching (Op.Resume i t)) v).
Proof.
  unfold visit_resume. v_step. apply check_resume_table_safe. intros f w Hok Hw Ha. v_run.
  destruct (fo_small _ Hok). eapply visited_moves; [done..|]. arity_with ltac:(rewrite Ha).
Qed.

Lemma visit_resume_throw_safe i g t :
  safe (visit_resume_throw off i g t) v0 (fun _ v => visited v0 (Op.StackSwitching (Op.ResumeThrow i g t)) v).
Proof.
  unfold visit_resume_throw. v_step. apply check_resume_table_safe. intros f w Hok Hw Ha. v_run.
  match goal with H : tag_at g = Some _ |- _ => pose proof (tag_ok _ _ H) as Ht; pose proof (tag_arity v0 _ _ H) as Hta end.
  destruct (fo_small _ Hok), (fo_small _ Ht). eapply visited_moves; [done..|]. arity_with ltac:(rewrite Ha, Hta).
Qed.

(** The arity of the continuation that the last parameter refers to. *)
Lemma switch_count i c f r st c' f' :
  inner_at i (CCont c) -> func_type_of_cont_type c = Some f -> last (func_params f) = Some (Ref r) ->
  validator_sub_type_of_ref_type r = Some st -> inner (composite_type_of st) = CCont c' ->
  func_type_of_cont_type c' = Some f' -> func_ok f' ->
  count (M := validator_arity v0) (C_switch i)
  = Some (Z.of_nat (length (func_params f')), Z.of_nat (length (func_results f'))).
Proof.
  intros (st0 & Hst0 & Hin0) Hf Hl Hst Hin Hf' Hok. cbn [count arity_sub_type_at validator_arity].
  rewrite Hst0. cbn [mbind option_bind id]. rewrite Hin0. cbn [arity_func_type_of_cont_type validator_arity].
  rewrite Hf. cbn [mbind option_bind]. rewrite Hl. cbn [mbind option_bind sub_type_of_ref_type validator_arity].
  rewrite Hst. cbn [mbind option_bind]. unfold sub_type_arity. rewrite Hin.
  cbn [arity_func_type_of_cont_type validator_arity]. rewrite Hf'. cbn [mbind option_bind].
  by rewrite func_arity_ok.
Qed.

Lemma visit_switch_safe i g :
  safe (visit_switch off i g) v0 (fun _ v => visited v0 (Op.StackSwitching (Op.Switch i g)) v).
Proof.
  unfold visit_switch. do 2 v_step. rename H into Hc. v_step. eapply safe_func_type_of_cont; [done|].
  intros f Hf Hok Ha. do 4 v_step. destruct (last (func_params f)) as [[]|] eqn:El; try done.
  destruct (is_concrete_type_ref r) eqn:Er; [|done]. v_step.
  apply cont_of_ref_safe; [exact (last_canonical _ _ (fo_params _ Hok) El)|done|].
  intros c' f' st Hst Hin Hf' Hok'. v_step. eapply safe_unwrap; [done|]. v_run.
  pose proof (switch_count _ _ _ _ _ _ _ Hc Hf El Hst Hin Hf' Hok') as Hsw.
  apply length_removelast_last in El. destruct (fo_small _ Hok), (fo_small _ Hok').
  eapply visited_moves; [done..|]. cbn [count] in Hsw. arity_with ltac:(rewrite Ha, Hsw).
Qed.

Lemma visit_stack_switching_safe o :
  safe (visit_stack_switching off o) v0 (fun _ v => visited v0 (Op.StackSwitching o) v).
Proof.
  destruct o as [i|i j|g|i t|i g t|i g]; cbn [visit_stack_switching].
  - unfold visit_cont_new. v_run. v_done.
  - apply visit_cont_bind_safe.
  - unfold visit_suspend. v_run. destruct (fo_small _ (tag_ok _ _ H)).
    eapply visited_moves; [done..|]. arity_with ltac:(rewrite (tag_arity v0 _ _ H)).
  - apply visit_resume_safe.
  - apply visit_resume_throw_safe.
  - apply visit_switch_safe.
Qed.

(** ** The minimum viable product *)

Lemma visit_select_safe : safe (visit_select off) v0 (fun _ v => visited v0 (Op.Mvp Op.Select) v).
Proof.
  unfold visit_select. do 7 v_step.
  apply (safe_mono _ _ (fun t v => moves v0 (0 + 1 + 1 + 1) 0 v /\ mt_canonical t));
    [|intros t w [Hw Ht]; v_run; v_done].
  destruct ty as [| |[]], ty0 as [| |[]]; v_run; done.
Qed.

Lemma set_init_inv i p q v li :
  moves v0 p q v -> 0 <= i < Z.of_nat (length (inits_of (local_inits v))) ->
  set_init i (local_inits v) = Some li -> counts v0 p q (set_local_inits li v).
Proof.
  intros [[Hn Ho Hpo Hf (tys & Hl & Hcan & Hlen) Hg] Hc _ _ Hft _ Hct] Hi. unfold set_init.
  destruct (is_uninit i (local_inits v)) as [[]|]; try done; intros [= <-].
  - split; [|done..]. split; try done.
    + eapply nested_mono; [| |exact Hn]; [done|]. cbn [local_inits set_local_inits inits length]. lia.
    + exists tys. cbn [local_inits set_local_inits inits_of locals]. by rewrite length_insert.
    + cbn [local_inits set_local_inits inits_of inits]. rewrite length_insert. by constructor.
  - destruct v. split; [|done..]. split; try done. by exists tys.
Qed.

Lemma is_uninit_some i li :
  0 <= i < Z.of_nat (length (inits_of li)) -> exists b, is_uninit i li = Some b.
Proof.
  intros Hi. unfold is_uninit. destruct (i <? first_non_default_local li); [by eexists|].
  destruct (lookup_lt_is_Some_2 (inits_of li) (Z.to_nat i)) as [b ->]; [lia|]. by eexists.
Qed.

Lemma set_local_init_safe i p q v (Q : () -> OperatorValidator -> Prop) :
  moves v0 p q v -> 0 <= i < Z.of_nat (length (inits_of (local_inits v))) ->
  (forall v', counts v0 p q v' -> ended v' -> Q tt v') -> safe (set_local_init i) v Q.
Proof.
  intros Hv Hi HQ. unfold set_local_init. do 2 v_step.
  destruct (is_uninit_some i (local_inits v) Hi) as [b Hb].
  assert (exists li, set_init i (local_inits v) = Some li) as [li Hli]
    by (unfold set_init; rewrite Hb; destruct b; by eexists).
  v_step. eapply safe_unwrap; [done|]. apply safe_modify, HQ; [by eapply set_init_inv|].
  unfold ended. cbn. by rewrite (mv_control _ _ _ _ Hv), (mv_end _ _ _ _ Hv).
Qed.

Lemma visit_local_get_safe i :
  0 <= i -> safe (visit_local_get off i) v0 (fun _ v => visited v0 (Op.Mvp (Op.LocalGet i)) v).
Proof.
  intros Hi. unfold visit_local_get. v_step. apply safe_local; [done..|]. intros t Hcan Ht. do 2 v_step.
  destruct (is_uninit_some i (local_inits v0) ltac:(lia)) as [b Hb]. v_step. eapply safe_unwrap; [done|].
  v_run. v_done.
Qed.

Lemma visit_local_set_safe i :
  0 <= i -> safe (visit_local_set off i) v0 (fun _ v => visited v0 (Op.Mvp (Op.LocalSet i)) v).
Proof.
  intros Hi. unfold visit_local_set. v_step. apply safe_local; [done..|]. intros t Hcan Ht. do 2 v_step.
  eapply set_local_init_safe; [done|by rewrite (mv_inits _ _ _ _ H)|]. intros w Hw He.
  eapply visited_counts; [done..|]. by intros _.
Qed.

Lemma visit_local_tee_safe i :
  0 <= i -> safe (visit_local_tee off i) v0 (fun _ v => visited v0 (Op.Mvp (Op.LocalTee i)) v).
Proof.
  intros Hi. unfold visit_local_tee. v_step. apply safe_local; [done..|]. intros t Hcan Ht. do 3 v_step.
  eapply set_local_init_safe; [done|by rewrite (mv_inits _ _ _ _ H)|]. intros w Hw He.
  eapply safe_push_type; [apply moves_refl; by eapply ct_inv|done|]. intros w' Hw'.
  eapply visited_counts; [by eapply counts_moves| |by intros _].
  unfold ended. by rewrite (mv_control _ _ _ _ Hw'), (mv_end _ _ _ _ Hw').
Qed.

Lemma visit_mvp_safe f o :
  mvp_wf f o -> (o = Op.End -> off <> 0) -> safe (visit_mvp off o) v0 (fun _ v => visited v0 (Op.Mvp o) v).
Proof.
  intros Ho Hoff. destruct o; cbn [visit_mvp mvp_wf] in *;
    try (unfold visit_global_get, visit_global_set; v_run; v_done; fail).
  - v_run. eapply visited_counts; [done|by apply ended_nonempty|by intros _].
  - apply visit_block_kind_safe; [done..|]. intros ps rs [H1 H2] Ha.
    cut (arity_fits v0 (Op.Mvp Op.Nop)); [|done]. arity_with ltac:(rewrite Ha).
  - apply visit_block_kind_safe; [done..|]. intros ps rs [H1 H2] Ha.
    cut (arity_fits v0 (Op.Mvp Op.Nop)); [|done]. arity_with ltac:(rewrite Ha).
  - by apply visit_if_safe.
  - by apply visit_else_safe.
  - by apply visit_end_safe, Hoff.
  - by apply visit_br_safe.
  - by apply visit_br_if_safe.
  - by apply visit_br_table_safe.
  - by apply visit_return_safe.
  - do 2 v_step. eapply check_call_ty_safe; [done..|]. intros w Hw. destruct (func_small _ _ H0).
    eapply visited_moves; [done..|]. arity_with ltac:(rewrite (func_count v0 _ _ _ H H0)).
  - v_step. eapply check_call_indirect_ty_safe; [done|]. intros g w Hg Hw.
    eapply check_call_ty_safe; [done..|]. intros w' Hw'. destruct (func_small _ _ Hg).
    eapply visited_moves; [done..|]. arity_with ltac:(rewrite (inner_arity v0 _ _ Hg)).
  - apply visit_select_safe.
  - apply visit_local_get_safe. apply Ho.
  - apply visit_local_set_safe. apply Ho.
  - apply visit_local_tee_safe. apply Ho.
Qed.

(** ** Every operator *)

Lemma visit_temp_safe f o :
  op_wf f o -> (o = Op.Mvp Op.End -> off <> 0) -> safe (visit_temp off o) v0 (fun _ v => visited v0 o v).
Proof.
  intros Ho Hoff. destruct o; cbn [visit_temp op_wf] in *.
  - eapply visit_mvp_safe; [done|]. intros ->. by apply Hoff.
  - by apply visit_sign_extension_safe.
  - by apply visit_gc_safe.
  - by apply visit_saturating_float_to_int_safe.
  - by apply visit_bulk_memory_safe.
  - by apply visit_reference_types_safe.
  - by apply visit_tail_call_safe.
  - by apply visit_memory_control_safe.
  - by apply visit_threads_safe.
  - by apply visit_simd_safe.
  - by apply visit_relaxed_simd_safe.
  - by apply visit_exceptions_safe.
  - by apply visit_legacy_exceptions_safe.
  - by apply visit_shared_everything_threads_safe.
  - by apply visit_function_references_safe.
  - by apply visit_stack_switching_safe.
  - by apply visit_wide_arithmetic_safe.
Qed.

Lemma validate_operator_safe f o :
  op_wf f o -> (o = Op.Mvp Op.End -> off <> 0) -> safe (validate_operator off o) v0 (fun _ v => visited v0 o v).
Proof.
  intros Ho Hoff. unfold validate_operator. do 3 v_step. apply (safe_mono _ _ (fun _ v => v = v0)).
  - destruct (validate_proposal (ov_features v0) o) as [[[] d]|]; done.
  - intros _ ? ->. by eapply visit_temp_safe.
Qed.
End visit.

(** * Validating a whole function body: the invariant of the operator validator
    holds from [new_func] to the end of any body. *)

Section func.
Context {R : WasmModuleResources} {RS : ResourcesSpec R}.

(** ** Locals *)

Lemma define_param_locals_repr tys l tys0 :
  locals_repr l tys0 -> Z.of_nat (length (tys0 ++ tys)) <= MAX_WASM_FUNCTION_LOCALS ->
  locals_repr (define_param_locals l tys) (tys0 ++ tys).
Proof.
  revert l tys0. induction tys as [|ty tys IH]; intros l tys0 Hl Hlen; cbn [define_param_locals foldl].
  - by rewrite app_nil_r.
  - destruct (define 1 ty l) as [ok l'] eqn:E. cbn [snd].
    assert (ok = true) as ->.
    { destruct ok; [done|]. apply define_fails in E. rewrite (repr_num _ _ Hl) in E.
      rewrite length_app in Hlen. cbn [length] in Hlen. lia. }
    destruct (define_ok 1 ty l tys0 l' ltac:(lia) Hl E) as [Hl' _]. change (group_locals (1, ty)) with [ty] in Hl'.
    replace (tys0 ++ ty :: tys) with ((tys0 ++ [ty]) ++ tys) in * by (by rewrite <- app_assoc).
    by apply IH.
Qed.

(** What a function that is about to be validated, or being validated, is. *)
Record valid_state (v : OperatorValidator) : Prop := {
  vs_inv : inv v;
  vs_ended : ended v;
}.

Lemma new_func_valid ty off f v func_ty :
  inner_at ty (CFunc func_ty) -> Z.of_nat (length (func_params func_ty)) <= MAX_WASM_FUNCTION_LOCALS ->
  new_func ty off f = Ok v -> valid_state v /\ ov_features v = f /\ control v <> [].
Proof.
  intros Hty Hlen. pose proof (func_at_params _ _ Hty) as Hcan. destruct Hty as (st & Hst & Hin).
  unfold new_func. rewrite Hst, Hin.
  assert (Hl : locals_repr (define_param_locals (mkLocals 0 [] []) (func_params func_ty)) (func_params func_ty))
    by by apply (define_param_locals_repr _ _ [] locals_repr_empty).
  set (v1 := set_local_inits _ _). assert (Hv1 : inv v1).
  { split; cbn -[Z.to_nat Z.of_nat].
    - done.
    - done.
    - done.
    - by constructor.
    - exists (func_params func_ty). split; [done|]. split; [done|]. unfold extend_with.
      cbn [app]. by rewrite length_replicate, Nat2Z.id.
    - done. }
  destruct (ct_shared (composite_type_of st)); intros [= <-]; (split; [|done]).
  - split; [|done]. by destruct Hv1.
  - by split.
Qed.

Lemma new_func_ok ty off f func_ty :
  inner_at ty (CFunc func_ty) -> exists v, new_func ty off f = Ok v.
Proof. intros (st & Hst & Hin). unfold new_func. rewrite Hst, Hin. by eexists. Qed.

Lemma define_locals_safe off count ty v :
  valid_state v -> in_u 32 count -> vt_module ty ->
  safe (define_locals off count ty) v (fun _ v' =>
    valid_state v' /\ ov_features v' = ov_features v /\ control v' = control v).
Proof.
  intros [Hv He] [Hc _] Hty. unfold define_locals. do 2 v_step. v_step. apply safe_check_value_type; [done|].
  intros t Ht. destruct (Z.eqb_spec count 0); [by apply safe_ret|]. do 2 v_step.
  destruct (define count t (locals v)) as [ok l'] eqn:E. v_step. apply safe_modify.
  destruct ok; [|done]. apply safe_modify. destruct (inv_locals _ Hv) as (tys & Hl & Hcan & Hlen).
  destruct (define_ok count t (locals v) tys l' ltac:(lia) Hl E) as [Hl' _].
  split; [|done]. split; [|done]. destruct Hv as [Hn Ho Hpo Hf _ Hg].
  assert (Hi : inits_of (li_define_locals count t (local_inits v))
               = inits_of (local_inits v) ++ replicate (Z.to_nat count) (is_defaultable t)) by done.
  split; cbn -[Z.of_nat li_define_locals]; [done..| |].
  - exists (tys ++ group_locals (count, t)). split; [done|].
    split; [apply Forall_app; split; [done|by apply Forall_replicate]|].
    rewrite Hi, !length_app, length_replicate, length_group, Hlen. done.
  - rewrite Hi, length_app. cbn [inits li_define_locals]. eapply Forall_impl; [exact Hg|]. cbn. lia.
Qed.

(** ** Reachable states *)

(** Definitions of locals and operators, in any order. *)
Inductive reaches : OperatorValidator -> OperatorValidator -> Prop :=
| reaches_refl v : reaches v v
| reaches_locals v off count ty v1 v2 :
    in_u 32 count -> vt_module ty -> define_locals off count ty v = (Ok tt, v1) -> reaches v1 v2 -> reaches v v2
| reaches_operator v off f o v1 v2 :
    op_wf f o -> off <> 0 -> validate_operator off o v = (Ok tt, v1) -> reaches v1 v2 -> reaches v v2.

Lemma reaches_valid v v' : valid_state v -> reaches v v' -> valid_state v'.
Proof.
  intros Hv Hr. induction Hr as [v|v off c t v1 v2 Hc Ht Hd _ IH|v off f o v1 v2 Ho Hoff Hd _ IH]; [done|..].
  - pose proof (define_locals_safe off c t v Hv Hc Ht) as H. unfold safe in H. rewrite Hd in H. apply IH, H.
  - destruct Hv as [Hv He]. pose proof (validate_operator_safe off v Hv He f o Ho (fun _ => Hoff)) as H.
    unfold safe in H. rewrite Hd in H. destruct H. by apply IH.
Qed.

Lemma canonical_assertion t : mt_canonical t -> push_assertion t = true.
Proof.
  destruct t as [|u|[| | | | |r]]; try done. cbn [mt_canonical vt_canonical push_assertion].
  intros (n & h & Hh & Hr). destruct (rt_new_heap_type n h (ht_canonical_valid h Hh)) as (r' & Hr' & Hht & _).
  rewrite Hr in Hr'. injection Hr' as <-. rewrite Hht. by destruct h as [|[]].
Qed.

(** ** The locals of a body *)

Definition read_group : Reader (Z * ValType) := cnt ← read (A := Z); ty ← read (A := ValType); mret (cnt, ty).

(** A reader that moved forward. *)
Definition forward (r r' : BinaryReader) : Prop :=
  exists k, (0 < k <= length (remaining_buffer r))%nat /\ r' = advance k r.

Lemma forward_wf r r' : wf_reader r -> forward r r' -> wf_reader r' /\ position r < position r'
  /\ buffer r' = buffer r /\ original_offset r' = original_offset r.
Proof.
  intros Hr (k & Hk & ->). split; [by apply wf_advance; [|lia]|]. unfold advance, set_position. cbn. split; [lia|done].
Qed.

Lemma read_group_ok r :
  wf_reader r ->
  match read_group r with
  | (Ok g, r') => local_wf g /\ forward r r'
  | (Err _, _) => True
  | (Panic, _) => False
  end.
Proof.
  intros Hwf. assert (Henv : wp_env (err_in_range r) r) by by split.
  assert (H : wp (err_in_range r) r 0 read_group (fun g k => local_wf g /\ (0 < k)%nat)).
  { unfold read_group, read, from_reader, FromReader_u32, FromReader_ValType. wp_run. split; [by split|lia]. }
  destruct (H ltac:(lia)) as (k & Hk & E & Hm). rewrite advance_0 in *.
  destruct (read_group r) as [[g|e|] r']; simpl in *; subst; [|done..].
  destruct Hm as [Hg Hk0]. split; [done|]. exists k. split; [lia|done].
Qed.

Lemma read_var_u32_forward r :
  wf_reader r ->
  match read_var_u32 r with
  | (Ok n, r') => forward r r'
  | (Err _, _) => True
  | (Panic, _) => False
  end.
Proof.
  intros Hwf. assert (Henv : wp_env (err_in_range r) r) by by split.
  assert (H : wp (err_in_range r) r 0 read_var_u32 (fun _ k => (0 < k)%nat)) by (wp_run; lia).
  destruct (H ltac:(lia)) as (k & Hk & E & Hm). rewrite advance_0 in *.
  destruct (read_var_u32 r) as [[n|e|] r']; simpl in *; subst; [|done..]. exists k. split; [lia|done].
Qed.

(** A reader of the same buffer, further on, past the first byte. *)
Definition later (r0 r : BinaryReader) : Prop :=
  wf_reader r /\ position r0 < position r /\ buffer r = buffer r0 /\ original_offset r = original_offset r0.

Lemma later_forward r0 r r' : later r0 r -> forward r r' -> later r0 r'.
Proof.
  intros (Hr & Hp & Hb & Ho) Hf. destruct (forward_wf r r' Hr Hf) as (Hr' & Hp' & Hb' & Ho').
  split; [done|]. split; [lia|]. by rewrite Hb', Ho'.
Qed.

(** What a step of the validation of a body leaves behind. *)
Definition step_ok (r0 : BinaryReader) (v0 : OperatorValidator) (x : result () * BinaryReader * OperatorValidator)
  : Prop :=
  match x with
  | (Ok _, r, v) => later r0 r /\ valid_state v /\ ov_features v = ov_features v0
  | (Err _, _, _) => True
  | (Panic, _, _) => False
  end.

Lemma read_local_groups_ok n r0 r v0 v :
  later r0 r -> valid_state v -> ov_features v = ov_features v0 ->
  step_ok r0 v0 (read_local_groups n r v).
Proof.
  revert r v. induction n as [|n IH]; intros r v Hr Hv Hf; cbn [read_local_groups]; [done|].
  change (cnt ← read (A := Z); ty ← read (A := ValType); mret (cnt, ty)) with read_group.
  pose proof (read_group_ok r (proj1 Hr)) as Hg.
  destruct (read_group r) as [[[c t]|e|] r1]; [|done..]. destruct Hg as [[Hc Ht] Hfw].
  pose proof (define_locals_safe (original_position r) c t v Hv Hc Ht) as Hd. unfold safe in Hd.
  destruct (define_locals (original_position r) c t v) as [[[]|e|] v1]; [|done..].
  destruct Hd as (Hv1 & Hf1 & _). apply IH; [by eapply later_forward|done|congruence].
Qed.

Lemma read_locals_step r v :
  wf_reader r -> valid_state v -> step_ok r v (read_locals r v).
Proof.
  intros Hr Hv. unfold read_locals. pose proof (read_var_u32_forward r Hr) as H.
  destruct (read_var_u32 r) as [[n|e|] r1]; [|done..].
  apply read_local_groups_ok; [|done..]. by apply forward_wf.
Qed.

(** ** The operators of a body *)

Lemma validate_step_ok r0 r v0 v :
  0 <= position r0 -> later r0 r -> valid_state v -> ov_features v = ov_features v0 ->
  step_ok r v0 (validate_step r v).
Proof.
  intros H0 (Hr & Hp & _ & _) [Hv He] Hf. unfold validate_step.
  pose proof (visit_operator_outcome r true (validate_operator (original_position r)) Hr) as H.
  destruct (visit_operator true (validate_operator (original_position r)) r) as [[m|e|] r1]; [|done..].
  destruct H as (op & k & -> & Hop & Hk & Hr1).
  assert (Hoff : original_position r <> 0) by (unfold original_position; destruct Hr; lia).
  pose proof (validate_operator_safe (original_position r) v Hv He (features r) op Hop (fun _ => Hoff)) as Hs.
  unfold safe in Hs. destruct (validate_operator (original_position r) op v) as [[[]|e|] v1]; [|done..].
  destruct Hs as [Hv1 He1 Hf1 _]. split; [|split; [done|congruence]].
  apply forward_wf; [done|]. by exists k.
Qed.

Lemma validate_operators_ok fuel r0 r v0 v :
  0 <= position r0 -> later r0 r -> valid_state v -> ov_features v = ov_features v0 ->
  buffer_len r - position r <= Z.of_nat fuel ->
  exists x, validate_operators fuel r v = Some x
    /\ match x with
       | (Ok _, r', v') => later r0 r' /\ valid_state v' /\ eof r' = true
       | (Err _, _, _) => True
       | (Panic, _, _) => False
       end.
Proof.
  intros H0. revert r v. induction fuel as [|fuel IH]; intros r v Hl Hv Hf Hfuel; cbn [validate_operators].
  - destruct (eof r) eqn:E; [by eexists|]. unfold eof in E. lia.
  - destruct (eof r) eqn:E; [by eexists|].
    pose proof (validate_step_ok r0 r v0 v H0 Hl Hv Hf) as Hs.
    destruct (validate_step r v) as [[[[]|e|] r1] v1]; [|by eexists|done].
    destruct Hs as ((Hr1 & Hp1 & Hb1 & Ho1) & Hv1 & Hf1).
    destruct Hl as (Hr & Hp & Hb & Ho). apply IH; [|done..|].
    + split; [done|]. split; [lia|]. by rewrite Hb1, Ho1.
    + unfold buffer_len in *. rewrite Hb1. lia.
Qed.

Lemma finish_safe off v :
  valid_state v ->
  safe (finish off) v (fun _ v' => v' = v /\ control v = [] /\ end_which_emptied_control v = Some (off - 1)).
Proof.
  intros [_ He]. unfold finish. do 2 v_step. destruct (control v) eqn:Ec; [|done].
  destruct (end_which_emptied_control v) as [e|] eqn:Ee; [|by destruct (He Ec)].
  v_step. eapply safe_unwrap; [done|]. apply safe_check. intros Hoff%negb_false_iff%Z.eqb_eq.
  split_and!; [done..|]. f_equal. lia.
Qed.

Lemma validate_total fuel body v :
  wf_reader (body_reader body) -> valid_state v ->
  buffer_len (body_reader body) <= Z.of_nat fuel ->
  exists x v', FuncValidator_validate fuel body v = Some (x, v')
    /\ match x with
       | Ok _ => valid_state v' /\ control v' = []
           /\ end_which_emptied_control v'
              = Some (original_offset (body_reader body) + buffer_len (body_reader body) - 1)
       | Err _ => True
       | Panic => False
       end.
Proof.
  intros Hr Hv Hfuel. unfold FuncValidator_validate. set (r0 := body_reader body) in *.
  pose proof (read_locals_step r0 v Hr Hv) as Hl.
  destruct (read_locals r0 v) as [[[[]|e|] r] v1]; [|by do 2 eexists|done].
  destruct Hl as ((Hr1 & Hp1 & Hb1 & Ho1) & Hv1 & Hf1). set (r2 := with_features _ r).
  assert (Hl2 : later r0 r2) by (split; [by destruct Hr1|done]).
  destruct (validate_operators_ok fuel r0 r2 v1 v1) as (x & -> & Hx); [apply Hr|done..| |].
  { unfold buffer_len in *. cbn [r2 with_features buffer position]. rewrite Hb1. destruct Hr1. lia. }
  destruct x as [[[[]|e|] r3] v3]; [|by do 2 eexists|done].
  destruct Hx as ((Hr3 & Hp3 & Hb3 & Ho3) & Hv3 & Heof).
  pose proof (finish_safe (original_position r3) v3 Hv3) as Hfin. unfold safe in Hfin.
  destruct (finish (original_position r3) v3) as [[[]|e|] v4]; [|by do 2 eexists|done].
  destruct Hfin as (-> & Hc & He). do 2 eexists. split; [done|]. split_and!; [done..|].
  rewrite He. unfold eof in Heof. apply Z.leb_le in Heof. unfold original_position, buffer_len in *.
  rewrite Ho3. rewrite Hb3 in Heof. destruct Hr3 as [Hpos _ _ _]. unfold buffer_len in Hpos. rewrite Hb3 in Hpos.
  f_equal. lia.
Qed.
End func.
