(* ===== verification/TypeListSpec.v ===== *)
(** Snapshotted lists are lists: [snap_items] is the list that a [SnapshotList]
    stands for, and the operations are those of lists. *)

From Stdlib Require Import ZArith Lia String Relations.
From stdpp Require Import prelude relations.
From S2P Require Import Prelude StateLogic BinaryReader Types TypesSpec Operands OperandSpec CompositeTypes.
From S2P Require Import Items CompositeSpec TypeList.

Local Open Scope Z_scope.

Section snapshot.
Context {T : Type}.
Implicit Types l : SnapshotList T.

Definition snap_items l : list T := concat (map items (snapshots l)) ++ cur l.

(** The snapshots follow each other from [n] to [total], and none is empty. *)
Fixpoint chain (n : Z) (ss : list (Snapshot T)) (total : Z) : Prop :=
  match ss with
  | [] => n = total
  | s :: ss' => prior_types s = n /\ items s <> [] /\ chain (n + Z.of_nat (length (items s))) ss' total
  end.

Definition snap_wf l : Prop := chain 0 (snapshots l) (snapshots_total l).

Lemma chain_total n ss total :
  chain n ss total -> total = n + Z.of_nat (length (concat (map items ss))).
Proof.
  revert n. induction ss as [|s ss IH]; intros n; cbn [chain map concat]; [cbn; lia|].
  intros (_ & _ & H%IH). rewrite length_app. lia.
Qed.

Lemma snap_total l : snap_wf l -> snapshots_total l = Z.of_nat (length (concat (map items (snapshots l)))).
Proof. intros H%chain_total. lia. Qed.

(** The key of a snapshot, as the binary search sees it. *)
Local Abbreviation key := (fun s : Snapshot T => (prior_types s, s)).

(** The search ends in the snapshot that holds the index. *)
Lemma chain_search n ss total index :
  chain n ss total -> n <= index < total ->
  exists i s, match binary_search_by_key index (map key ss) with
              | inl i => Some i
              | inr O => None
              | inr (Datatypes.S i) => Some i
              end = Some i
    /\ ss !! i = Some s /\ prior_types s <= index
    /\ items s !! Z.to_nat (index - prior_types s) = concat (map items ss) !! Z.to_nat (index - n).
Proof.
  revert n. induction ss as [|s ss IH]; intros n Hc Hi; cbn [chain] in Hc; [lia|].
  destruct Hc as (Hp & Hne & Hc). cbn [map concat binary_search_by_key].
  destruct (items s) as [|x xs] eqn:Ei; [done|].
  destruct (decide (index < n + Z.of_nat (length (x :: xs)))) as [Hlt|Hge].
  - assert (Hhere : items s !! Z.to_nat (index - prior_types s)
                    = ((x :: xs) ++ concat (map items ss)) !! Z.to_nat (index - n)).
    { rewrite Hp, Ei, lookup_app_l; [done|lia]. }
    destruct (Z.eqb_spec (prior_types s) index) as [E|E].
    { exists 0%nat, s. split_and!; [done..|lia|done]. }
    destruct (Z.ltb_spec index (prior_types s)); [lia|].
    assert (Hs : binary_search_by_key index (map key ss) = inr 0%nat).
    { destruct ss as [|s' ss']; [done|]. destruct Hc as (Hp' & _). cbn [map binary_search_by_key].
      destruct (Z.eqb_spec (prior_types s') index); [lia|].
      by destruct (Z.ltb_spec index (prior_types s')); [|lia]. }
    rewrite Hs. exists 0%nat, s. split_and!; [done..|lia|done].
  - destruct (Z.eqb_spec (prior_types s) index); [cbn in Hge; lia|].
    destruct (Z.ltb_spec index (prior_types s)); [lia|].
    destruct (IH _ Hc ltac:(lia)) as (i & s' & Hs & Hl & Hle & Hx).
    exists (Datatypes.S i), s'. split_and!; [|done..|].
    + destruct (binary_search_by_key index (map key ss)) as [j|[|j]]; [by injection Hs as ->|done|by injection Hs as ->].
    + rewrite Hx, lookup_app_r by lia. f_equal. lia.
Qed.

Lemma snapshot_get_items l index :
  snap_wf l -> 0 <= index -> snapshot_get l index = Some (snap_items l !! Z.to_nat index).
Proof.
  intros Hl Hi. pose proof (snap_total l Hl) as Ht. unfold snapshot_get, snap_items.
  destruct (Z.leb_spec (snapshots_total l) index).
  - rewrite lookup_app_r by lia. f_equal. f_equal. lia.
  - destruct (chain_search 0 _ _ index Hl) as (i & s & Hs & Hsi & Hle & Hx); [lia|].
    rewrite Hs. cbn [mbind option_bind]. rewrite Hsi. cbn [mbind option_bind].
    destruct (Z.ltb_spec index (prior_types s)); [lia|]. rewrite Z.sub_0_r in Hx.
    rewrite Hx, lookup_app_l by lia.
    destruct (lookup_lt_is_Some_2 (concat (map items (snapshots l))) (Z.to_nat index)) as [x Hx']; [lia|].
    by rewrite Hx'.
Qed.

Lemma snapshot_index_items l index :
  snap_wf l -> 0 <= index -> snapshot_index l index = snap_items l !! Z.to_nat index.
Proof. intros Hl Hi. unfold snapshot_index. by rewrite snapshot_get_items. Qed.

Lemma snapshot_len_items l : snap_wf l -> snapshot_len l = Z.of_nat (length (snap_items l)).
Proof. intros Hl%snap_total. unfold snapshot_len, snap_items. rewrite length_app. lia. Qed.

Lemma snapshot_push_items x l : snap_items (snapshot_push x l) = snap_items l ++ [x].
Proof. unfold snap_items. cbn. by rewrite app_assoc. Qed.

Lemma snapshot_push_wf x l : snap_wf l -> snap_wf (snapshot_push x l).
Proof. done. Qed.

Lemma chain_app n ss total s :
  chain n ss total -> prior_types s = total -> items s <> [] ->
  chain n (ss ++ [s]) (total + Z.of_nat (length (items s))).
Proof.
  revert n. induction ss as [|s' ss IH]; intros n; cbn [chain app]; [by intros -> -> ?|].
  intros (Hp & Hne & Hc) Hs Hi. split_and!; [done..|]. by apply IH.
Qed.

Lemma snapshot_commit_ok l :
  snap_wf l ->
  let (l', l'') := snapshot_commit l in
  snap_wf l' /\ snap_wf l'' /\ snap_items l' = snap_items l /\ snap_items l'' = snap_items l.
Proof.
  intros Hl. unfold snapshot_commit. destruct (Z.ltb_spec 0 (Z.of_nat (length (cur l)))) as [H|H].
  - assert (Hne : cur l <> []) by (destruct (cur l); [cbn in H; lia|done]).
    assert (Hi : concat (map items (snapshots l ++ [mkSnapshot (snapshots_total l) (cur l)])) ++ []
                 = snap_items l).
    { rewrite map_app, concat_app. cbn [map concat items]. by rewrite !app_nil_r. }
    split_and!; [by apply chain_app..|done|done].
  - assert (Hne : cur l = []) by (destruct (cur l); [done|cbn in H; lia]).
    unfold snap_items. cbn. by rewrite Hne.
Qed.

Lemma snapshot_truncate_ok len l :
  snap_wf l -> snapshots_total l <= len ->
  exists l', snapshot_truncate len l = Some l' /\ snap_wf l' /\ snap_items l' = take (Z.to_nat len) (snap_items l).
Proof.
  intros Hl Hlen. unfold snapshot_truncate. destruct (Z.ltb_spec len (snapshots_total l)); [lia|].
  eexists. split; [done|]. split; [done|]. pose proof (snap_total l Hl) as Ht. unfold snap_items. cbn.
  rewrite take_app_ge by lia. do 2 f_equal. lia.
Qed.

Lemma snap_default_wf : snap_wf SnapshotList_default.
Proof. done. Qed.
End snapshot.

(** * Types whose indices all satisfy a predicate, and how [remap_indices] changes
    them. *)

(** ** Types over a set of indices *)

Section over.
Context (P : UnpackedIndex -> Prop).

Definition idx_over (p : PackedIndex) : Prop := exists u, P u /\ unpacked_valid u /\ pack u = Some p.

Definition ht_over (h : HeapType) : Prop :=
  match h with
  | Abstract _ _ => True
  | Concrete u => P u /\ unpacked_valid u
  end.

Definition rt_over (r : RefType) : Prop := exists n h, ht_over h /\ rt_new n h = Some r.

Definition vt_over (t : ValType) : Prop := match t with Ref r => rt_over r | _ => True end.

Definition ft_over (t : FieldType) : Prop :=
  match element_type t with SVal t => vt_over t | _ => True end.

Definition inner_over (t : CompositeInnerType) : Prop :=
  match t with
  | CFunc f => Forall vt_over (params_results f)
  | CArray a => ft_over (array_element a)
  | CStruct s => Forall ft_over (fields s)
  | CCont c => idx_over (cont_index c)
  end.

Definition super_over (t : SubType) : Prop :=
  match supertype_idx t with Some p => idx_over p | None => True end.

Definition sub_over (t : SubType) : Prop := inner_over (inner (composite_type_of t)) /\ super_over t.
End over.

(** The sizes that the readers allow. *)
Definition shape_ok (t : SubType) : Prop :=
  match inner (composite_type_of t) with
  | CFunc f =>
      Z.of_nat (length (func_params f)) <= MAX_WASM_FUNCTION_PARAMS
      /\ Z.of_nat (length (func_results f)) <= MAX_WASM_FUNCTION_RETURNS
  | CStruct s => Z.of_nat (length (fields s)) <= MAX_WASM_STRUCT_FIELDS
  | CArray _ | CCont _ => True
  end.

Definition is_module_index (u : UnpackedIndex) : Prop := exists i, u = Module_ i.

Lemma idx_over_unpack P p : idx_over P p -> exists u, P u /\ unpacked_valid u /\ unpack p = Some u /\ in_u 22 p /\ pack u = Some p.
Proof.
  intros (u & Hu & Hv & Hp). exists u. destruct (unpack_pack u Hv) as (p' & Hp' & Hin & Hup). by simplify_eq.
Qed.

Lemma ht_over_valid P h : ht_over P h -> ht_valid h.
Proof. destruct h; [done|]. by intros []. Qed.

Lemma rt_over_heap_type P r :
  rt_over P r -> exists h, rt_heap_type r = Some h /\ ht_over P h /\ rt_new (is_nullable r) h = Some r.
Proof.
  intros (n & h & Hh & Hr). destruct (rt_new_heap_type n h (ht_over_valid P h Hh)) as (r' & Hr' & Hht & Hn).
  simplify_eq. by exists h.
Qed.

Lemma rt_over_valid P r : rt_over P r -> rt_valid r.
Proof. intros (n & h & Hh & Hr). exists n, h. split; [by eapply ht_over_valid|done]. Qed.

Lemma ht_over_mono (P Q : UnpackedIndex -> Prop) h : (forall u, P u -> Q u) -> ht_over P h -> ht_over Q h.
Proof. intros H. destruct h; [done|]. intros []. split; auto. Qed.

Lemma rt_over_mono (P Q : UnpackedIndex -> Prop) r : (forall u, P u -> Q u) -> rt_over P r -> rt_over Q r.
Proof. intros H (n & h & Hh & Hr). exists n, h. split; [by eapply ht_over_mono|done]. Qed.

Lemma vt_over_mono (P Q : UnpackedIndex -> Prop) t : (forall u, P u -> Q u) -> vt_over P t -> vt_over Q t.
Proof. intros H. destruct t; try done. by apply rt_over_mono. Qed.

Lemma idx_over_mono (P Q : UnpackedIndex -> Prop) p : (forall u, P u -> Q u) -> idx_over P p -> idx_over Q p.
Proof. intros H (u & Hu & Hv & Hp). exists u. auto. Qed.

Lemma ft_over_mono (P Q : UnpackedIndex -> Prop) t : (forall u, P u -> Q u) -> ft_over P t -> ft_over Q t.
Proof. intros H. unfold ft_over. destruct (element_type t); try done. by apply vt_over_mono. Qed.

Lemma sub_over_mono (P Q : UnpackedIndex -> Prop) t : (forall u, P u -> Q u) -> sub_over P t -> sub_over Q t.
Proof.
  intros H [Hi Hs]. split.
  - destruct (inner (composite_type_of t)); cbn in *.
    + eapply Forall_impl; [exact Hi|]. intros; by eapply vt_over_mono.
    + by eapply ft_over_mono.
    + eapply Forall_impl; [exact Hi|]. intros; by eapply ft_over_mono.
    + by eapply idx_over_mono.
  - unfold super_over in *. destruct (supertype_idx t); [|done]. by eapply idx_over_mono.
Qed.

(** ** Types as they are read *)

Lemma rt_module_over r : rt_module r -> rt_over is_module_index r.
Proof.
  intros (n & h & Hh & Hr). exists n, h. split; [|done]. destruct h as [|[]]; try done.
  split; [by eexists|done].
Qed.

Lemma vt_module_over t : vt_module t -> vt_over is_module_index t.
Proof. destruct t; try done. apply rt_module_over. Qed.

Lemma index_module_over p : index_module p -> idx_over is_module_index p.
Proof. intros (i & Hi & Hp & _). exists (Module_ i). split; [by eexists|done]. Qed.

Lemma field_wf_over t : field_wf t -> ft_over is_module_index t.
Proof. unfold field_wf, ft_over. destruct (element_type t); try done. apply vt_module_over. Qed.

Lemma sub_type_wf_over t : sub_type_wf t -> sub_over is_module_index t /\ shape_ok t.
Proof.
  intros [Hi Hs]. unfold sub_over, super_over, shape_ok. split; [split|].
  - destruct (inner (composite_type_of t)) as [f|a|s|c]; cbn in *.
    + destruct Hi as (ps & rs & -> & Hp & Hr & _). cbn. apply Forall_app.
      split; (eapply Forall_impl; [done|]); intros; by apply vt_module_over.
    + by apply field_wf_over.
    + eapply Forall_impl; [apply Hi|]. intros; by apply field_wf_over.
    + by apply index_module_over.
  - destruct (supertype_idx t); [by apply index_module_over|done].
  - destruct (inner (composite_type_of t)) as [f|a|s|c]; cbn in *; [|done|apply Hi|done].
    destruct Hi as (ps & rs & -> & _ & _ & Hp & Hr). destruct (func_new_parts ps rs) as [-> ->]. done.
Qed.

(** ** Remapping *)

Section remap.
Context (P Q : UnpackedIndex -> Prop) (g : PackedIndex -> result PackedIndex).
Hypothesis Hg : forall p, idx_over P p -> rsafe (g p) (idx_over Q).

Lemma valtype_remap_over t : vt_over P t -> rsafe (valtype_remap g t) (vt_over Q).
Proof.
  destruct t as [| | | | |r]; try done. intros (n & h & Hh & Hr). cbn [valtype_remap].
  destruct h as [s a|u].
  - assert (Hc : rt_type_index r = None).
    { injection Hr as <-. by destruct n, s, a. }
    rewrite Hc. exists n, (Abstract s a). done.
  - destruct Hh as [Hu Hv]. destruct (unpack_pack u Hv) as (p & Hp & Hin & _).
    cbn in Hr. rewrite Hp in Hr. injection Hr as <-. destruct (concrete_fields n p Hin) as (_ & -> & ->).
    apply rsafe_bind. eapply rsafe_mono; [apply Hg; by exists u|]. intros p' (u' & Hu' & Hv' & Hp').
    exists n, (Concrete u'). split; [done|]. cbn. by rewrite Hp'.
Qed.

Lemma field_remap_over t : ft_over P t -> rsafe (field_remap g t) (ft_over Q).
Proof.
  unfold ft_over, field_remap. destruct (element_type t) as [| |ty] eqn:E; intros H; [by cbn; rewrite E..|].
  apply rsafe_bind. eapply rsafe_mono; [by apply valtype_remap_over|]. done.
Qed.

Lemma mapM_over {A} (h : A -> result A) (p q : A -> Prop) l :
  (forall x, p x -> rsafe (h x) q) -> Forall p l ->
  rsafe (mapM h l) (fun l' => Forall q l' /\ length l' = length l).
Proof.
  intros Hh Hl. eapply rsafe_mono; [apply (rsafe_mapM h (fun _ => q))|].
  - intros x Hx. apply Hh. by eapply Forall_forall in Hl.
  - intros l' Hl'. split; [|symmetry; by eapply Forall2_length]. clear -Hl'. induction Hl'; by constructor.
Qed.

Lemma remap_indices_over t :
  sub_over P t -> shape_ok t ->
  rsafe (remap_indices g t) (fun t' => sub_over Q t' /\ shape_ok t'
    /\ is_final t' = is_final t /\ (is_Some (supertype_idx t') <-> is_Some (supertype_idx t))).
Proof.
  intros [Hi Hs] Hsh. unfold remap_indices, super_over in *. apply rsafe_bind.
  apply (rsafe_mono _ (fun o : option PackedIndex =>
    match o with Some p => idx_over Q p | None => True end /\ (is_Some o <-> is_Some (supertype_idx t)))).
  { destruct (supertype_idx t) as [p|]; [|done]. apply rsafe_bind.
    eapply rsafe_mono; [by apply Hg|]. intros p' Hp'. split; [done|]. by split; intros _; eexists. }
  intros sup [Hsup Hiff]. apply rsafe_bind. unfold sub_over, super_over, shape_ok in *. cbn.
  destruct (inner (composite_type_of t)) as [f|a|s|c]; cbn in Hi, Hsh.
  - apply rsafe_bind. eapply rsafe_mono; [apply (mapM_over _ _ _ _ valtype_remap_over Hi)|].
    intros l [Hl Hlen]. cbn. unfold func_params, func_results in *.
    cbn. rewrite length_take, length_drop in *. rewrite Hlen. by destruct Hsh; split_and!.
  - apply rsafe_bind. eapply rsafe_mono; [by apply field_remap_over|]. intros. cbn. by split_and!.
  - apply rsafe_bind. eapply rsafe_mono; [apply (mapM_over _ _ _ _ field_remap_over Hi)|].
    intros l [Hl Hlen]. cbn. split_and!; try done. by rewrite Hlen.
  - apply rsafe_bind. eapply rsafe_mono; [by apply Hg|]. intros. cbn. by split_and!.
Qed.
End remap.

(** * The list of types: what its lookups return, and subtyping.

    [Hsub] and [Vsub] define subtyping by rules, over the supertypes that types
    declare; the functions of TypeList.v decide them. *)

(** ** The lists *)

Definition tys (T : TypeList) : list SubType := snap_items (core_types T).
Definition grps (T : TypeList) : list RecGroupId := snap_items (core_type_to_rec_group T).
Definition sups (T : TypeList) : list (option CoreTypeId) := snap_items (core_type_to_supertype T).
Definition elems (T : TypeList) : list (CoreTypeId * CoreTypeId) := snap_items (rec_group_elements T).

Definition ntypes (T : TypeList) : Z := Z.of_nat (length (tys T)).
Definition valid_id (T : TypeList) (id : CoreTypeId) : Prop := 0 <= id < ntypes T.

(** A supertype comes before its subtypes; a group is a range of types. *)
Record lists_wf (T : TypeList) : Prop := {
  lw_types : snap_wf (core_types T);
  lw_groups : snap_wf (core_type_to_rec_group T);
  lw_supers : snap_wf (core_type_to_supertype T);
  lw_elems : snap_wf (rec_group_elements T);
  lw_groups_len : length (grps T) = length (tys T);
  lw_supers_len : length (sups T) = length (tys T);
  lw_super i (j : CoreTypeId) : sups T !! i = Some (Some j) -> 0 <= j < Z.of_nat i;
  lw_range g a b : elems T !! g = Some (a, b) -> 0 <= a /\ a <= b <= ntypes T;
}.

(** A negative index is in no list. *)
Lemma chain_search_neg {A} n (ss : list (Snapshot A)) total index :
  chain n ss total -> index < n -> binary_search_by_key index (map (fun s => (prior_types s, s)) ss) = inr 0%nat.
Proof.
  destruct ss as [|s ss]; [done|]. intros (Hp & _) Hi. cbn [map binary_search_by_key].
  destruct (Z.eqb_spec (prior_types s) index); [lia|]. by destruct (Z.ltb_spec index (prior_types s)); [|lia].
Qed.

Lemma snapshot_index_neg {A} (l : SnapshotList A) index :
  snap_wf l -> index < 0 -> snapshot_index l index = None.
Proof.
  intros Hl Hi. pose proof (snap_total l Hl). unfold snapshot_index, snapshot_get.
  destruct (Z.leb_spec (snapshots_total l) index); [lia|]. by rewrite (chain_search_neg 0 _ (snapshots_total l)).
Qed.

(** ** The abstract heap types *)

(** The subtypes that are directly below a type, in the five hierarchies. *)
Inductive Adirect : AbstractHeapType -> AbstractHeapType -> Prop :=
| eq_below_any : Adirect HEq HAny
| i31_below_eq : Adirect HI31 HEq
| struct_below_eq : Adirect HStruct HEq
| array_below_eq : Adirect HArray HEq
| none_below_i31 : Adirect HNone HI31
| none_below_struct : Adirect HNone HStruct
| none_below_array : Adirect HNone HArray
| nofunc_below_func : Adirect HNoFunc HFunc
| noextern_below_extern : Adirect HNoExtern HExtern
| noexn_below_exn : Adirect HNoExn HExn
| nocont_below_cont : Adirect HNoCont HCont.

Definition Asub : AbstractHeapType -> AbstractHeapType -> Prop := rtc Adirect.

(** The abstract type directly above the concrete types of a kind, and the one
    below them. *)
Definition above_kind (c : CompositeInnerType) : AbstractHeapType :=
  match c with CFunc _ => HFunc | CArray _ => HArray | CStruct _ => HStruct | CCont _ => HCont end.
Definition below_kind (c : CompositeInnerType) : AbstractHeapType :=
  match c with CFunc _ => HNoFunc | CArray _ | CStruct _ => HNone | CCont _ => HNoCont end.

#[local] Hint Constructors Adirect : core.

Lemma Asub_test x y : ht_is_subtype_of x y = true <-> Asub x y.
Proof.
  split.
  - unfold Asub. destruct x, y; intros H; try discriminate H; first
      [ reflexivity | by apply rtc_once | eapply rtc_l; [|by apply rtc_once]; by constructor
      | eapply rtc_l; [exact none_below_i31|]; eapply rtc_l; [exact i31_below_eq|]; by apply rtc_once ].
  - induction 1 as [x|x y z Hxy _ IH]; [apply ht_subtype_refl|]. eapply ht_subtype_trans; [|exact IH]. by destruct Hxy.
Qed.

Lemma concrete_below_test c s x :
  concrete_is_subtype c s x = true <-> ct_shared c = s /\ Asub (above_kind (inner c)) x.
Proof.
  rewrite <- Asub_test. destruct c as [i s']. unfold concrete_is_subtype. cbn [ct_shared inner].
  destruct (bool_decide_reflect (s' = s)) as [->|Hne]; cbn [negb]; [|split; [done|by intros [? _]]].
  destruct i, x; cbn; split; try done; by intros [_ ?].
Qed.

Lemma abstract_below_test s x c :
  abstract_is_subtype s x c = true <-> s = ct_shared c /\ x = below_kind (inner c).
Proof.
  destruct c as [i s']. unfold abstract_is_subtype. cbn [ct_shared inner].
  destruct (bool_decide_reflect (s = s')) as [->|Hne]; cbn [negb]; [|split; [done|by intros [? _]]].
  destruct i, x; cbn; split; try done; by intros [_ ?].
Qed.

Section lists.
Context (T : TypeList) (HT : lists_wf T).

Lemma type_at_items id : 0 <= id -> type_at T id = tys T !! Z.to_nat id.
Proof. intros. apply snapshot_index_items; [apply HT|done]. Qed.

Lemma type_at_valid id t : type_at T id = Some t -> valid_id T id /\ tys T !! Z.to_nat id = Some t.
Proof.
  intros H. destruct (decide (0 <= id)) as [Hi|Hi].
  - rewrite type_at_items in H by done. apply lookup_lt_Some in H as Hl. unfold valid_id, ntypes. split; [lia|done].
  - unfold type_at in H. rewrite snapshot_index_neg in H; [done|apply HT|lia].
Qed.

Lemma valid_type_at id : valid_id T id -> exists t, type_at T id = Some t /\ tys T !! Z.to_nat id = Some t.
Proof.
  intros [H0 H1]. rewrite type_at_items by done. unfold ntypes in H1.
  destruct (lookup_lt_is_Some_2 (tys T) (Z.to_nat id)) as [t Ht]; [lia|]. by exists t.
Qed.

Lemma valid_iff id : valid_id T id <-> is_Some (type_at T id).
Proof.
  split; [intros H; destruct (valid_type_at id H) as (t & Ht & _); by exists t|].
  intros [t Ht]. by apply type_at_valid in Ht as [? _].
Qed.

Lemma valid_supertype id : valid_id T id -> exists o, supertype_of T id = Some o /\ sups T !! Z.to_nat id = Some o.
Proof.
  intros [H0 H1]. unfold supertype_of. rewrite snapshot_index_items by (apply HT || done).
  destruct (lookup_lt_is_Some_2 (sups T) (Z.to_nat id)) as [o Ho]; [|by exists o].
  rewrite lw_supers_len by done. unfold ntypes in H1. lia.
Qed.

Lemma valid_group id : valid_id T id -> is_Some (rec_group_id_of T id).
Proof.
  intros [H0 H1]. unfold rec_group_id_of. rewrite snapshot_index_items by (apply HT || done).
  apply lookup_lt_is_Some_2. change (snap_items _) with (grps T). rewrite lw_groups_len by done.
  unfold ntypes in H1. lia.
Qed.

Lemma rec_group_at_items g : 0 <= g -> rec_group_at T g = elems T !! Z.to_nat g.
Proof. intros. apply snapshot_index_items; [apply HT|done]. Qed.

(** ** Identifiers *)

Definition declared (a b : CoreTypeId) : Prop := 0 <= a /\ sups T !! Z.to_nat a = Some (Some b).

Lemma declared_lt a b : declared a b -> 0 <= b < a.
Proof. intros [H0 H%lw_super]; [lia|done]. Qed.

Lemma declared_valid a b : valid_id T a -> declared a b -> valid_id T b.
Proof. intros [H0 H1] H%declared_lt. split; lia. Qed.

Lemma declared_fun a b b' : declared a b -> declared a b' -> b = b'.
Proof. intros [_ H] [_ H']. by simplify_eq. Qed.

Lemma declared_rtc_valid a b : valid_id T a -> rtc declared a b -> valid_id T b.
Proof. intros Ha Hr. induction Hr as [|x y z Hxy _ IH]; [done|]. by apply IH, (declared_valid x). Qed.

Lemma id_loop_spec fuel a b :
  valid_id T a -> a < Z.of_nat fuel ->
  exists r, id_is_subtype_loop T fuel a b = Some r /\ (r = true <-> rtc declared a b).
Proof.
  revert a. induction fuel as [|fuel IH]; intros a Ha Hf; [destruct Ha; lia|]. cbn [id_is_subtype_loop].
  destruct (Z.eqb_spec a b) as [->|Hne]; [by exists true|].
  destruct (valid_supertype a Ha) as (o & -> & Ho). cbn [mbind option_bind].
  destruct o as [j|].
  - assert (Hd : declared a j) by (split; [apply Ha|done]).
    destruct (IH j (declared_valid a j Ha Hd)) as (r & -> & Hr); [apply declared_lt in Hd; lia|].
    exists r. split; [done|]. rewrite Hr. split; [by apply rtc_l|].
    intros H. inversion H as [|? y ? Hy Hr']; subst; [done|]. by rewrite (declared_fun a j y).
  - exists false. split; [done|]. split; [done|]. intros H.
    inversion H as [|? y ? [_ Hy] Hr']; subst; [done|]. by simplify_eq.
Qed.

Lemma id_is_subtype_spec a b :
  valid_id T a -> exists r, id_is_subtype T a b = Some r /\ (r = true <-> rtc declared a b).
Proof. intros Ha. apply id_loop_spec; [done|]. destruct Ha. lia. Qed.

(** ** Subtyping by rules *)

Definition is_id (u : UnpackedIndex) : Prop := exists id, u = Id_ id /\ valid_id T id.

(** Abstract types within their hierarchy; concrete types by the supertypes that
    they declare; a concrete type below the abstract types above its kind, and above
    the bottom of their hierarchy. *)
Inductive Hsub : HeapType -> HeapType -> Prop :=
| Hsub_abstract s x y : Asub x y -> Hsub (Abstract s x) (Abstract s y)
| Hsub_concrete i j : rtc declared i j -> Hsub (Concrete (Id_ i)) (Concrete (Id_ j))
| Hsub_up i t x :
    type_at T i = Some t -> Asub (above_kind (inner (composite_type_of t))) x ->
    Hsub (Concrete (Id_ i)) (Abstract (ct_shared (composite_type_of t)) x)
| Hsub_down j t :
    type_at T j = Some t ->
    Hsub (Abstract (ct_shared (composite_type_of t)) (below_kind (inner (composite_type_of t)))) (Concrete (Id_ j)).

Inductive Vsub : ValType -> ValType -> Prop :=
| Vsub_num t : (forall r, t <> Ref r) -> Vsub t t
| Vsub_ref a b ha hb :
    (is_nullable a = true -> is_nullable b = true) ->
    rt_heap_type a = Some ha -> rt_heap_type b = Some hb -> Hsub ha hb -> Vsub (Ref a) (Ref b).

Lemma Hsub_refl h : ht_over is_id h -> Hsub h h.
Proof.
  destruct h as [s x|u]; [intros _; constructor; reflexivity|].
  intros [(id & -> & _) _]. constructor. reflexivity.
Qed.

Lemma heaptype_is_subtype_spec a ga b gb :
  ht_over is_id a -> ht_over is_id b ->
  exists r, heaptype_is_subtype T a ga b gb = Some r /\ (r = true <-> Hsub a b).
Proof.
  intros Ha Hb. unfold heaptype_is_subtype. destruct (bool_decide_reflect (a = b)) as [->|Hne].
  { exists true. split; [done|]. split; [by intros _; apply Hsub_refl|done]. }
  destruct a as [s x|u], b as [s' y|u'].
  - eexists. split; [done|]. rewrite andb_true_iff, bool_decide_eq_true, Asub_test. split.
    + intros [-> ?]. by constructor.
    + by inversion 1.
  - destruct Hb as [(j & -> & Hj) _]. unfold resolve_type, resolve_id. cbn.
    destruct (valid_type_at j Hj) as (t & Ht & _). rewrite Ht. cbn. eexists. split; [done|].
    rewrite abstract_below_test. split.
    + intros [-> ->]. by constructor.
    + inversion 1; by simplify_eq.
  - destruct Ha as [(i & -> & Hi) _]. unfold resolve_type, resolve_id. cbn.
    destruct (valid_type_at i Hi) as (t & Ht & _). rewrite Ht. cbn. eexists. split; [done|].
    rewrite concrete_below_test. split.
    + intros [<- ?]. by constructor.
    + inversion 1; by simplify_eq.
  - destruct Ha as [(i & -> & Hi) _], Hb as [(j & -> & Hj) _]. unfold resolve_id. cbn.
    destruct (id_is_subtype_spec i j Hi) as (r & Hr & Hiff). exists r. split; [done|]. rewrite Hiff. split.
    + by constructor.
    + by inversion 1.
Qed.

Lemma reftype_is_subtype_spec a ga b gb :
  rt_over is_id a -> rt_over is_id b ->
  exists r, reftype_is_subtype_impl T a ga b gb = Some r /\ (r = true <-> Vsub (Ref a) (Ref b)).
Proof.
  intros Ha Hb. destruct (rt_over_heap_type _ _ Ha) as (ha & Hha & Hoa & _).
  destruct (rt_over_heap_type _ _ Hb) as (hb & Hhb & Hob & _). unfold reftype_is_subtype_impl.
  destruct (bool_decide_reflect (a = b)) as [->|Hne]; cbn [andb].
  - destruct (bool_decide_reflect (ga = gb)) as [->|Hg].
    { exists true. split; [done|]. split; [|done]. intros _. eapply Vsub_ref; [done..|]. simplify_eq. by apply Hsub_refl. }
    replace (is_nullable b && negb (is_nullable b)) with false by by destruct (is_nullable b).
    assert (ha = hb) as -> by congruence. rewrite Hhb. cbn [mbind option_bind].
    destruct (heaptype_is_subtype_spec hb ga hb gb Hob Hob) as (r & -> & Hr). exists r. split; [done|].
    rewrite Hr. split; [by eapply Vsub_ref|]. inversion 1; [congruence|by simplify_eq].
  - rewrite Hha, Hhb. cbn [mbind option_bind]. destruct (is_nullable a && negb (is_nullable b)) eqn:En.
    + exists false. split; [done|]. split; [done|]. apply andb_true_iff in En as [Ea Eb%negb_true_iff].
      inversion 1 as [|? ? ? ? Hn]; subst; [congruence|]. rewrite Hn in Eb; done.
    + destruct (heaptype_is_subtype_spec ha ga hb gb Hoa Hob) as (r & -> & Hr). exists r. split; [done|].
      rewrite Hr. split.
      * intros Hh. eapply Vsub_ref; [|done..]. intros Ea. rewrite Ea in En. by destruct (is_nullable b).
      * inversion 1; subst; [congruence|by simplify_eq].
Qed.

Lemma valtype_is_subtype_spec a b :
  vt_over is_id a -> vt_over is_id b ->
  exists r, valtype_is_subtype T a b = Some r /\ (r = true <-> Vsub a b).
Proof.
  intros Ha Hb. unfold valtype_is_subtype. destruct (bool_decide_reflect (a = b)) as [->|Hne].
  - exists true. split; [done|]. split; [|done]. intros _. destruct b as [| | | | |r]; try by apply Vsub_num.
    destruct (rt_over_heap_type _ _ Hb) as (h & Hh & Ho & _). eapply Vsub_ref; [done..|by apply Hsub_refl].
  - destruct a as [| | | | |ra], b as [| | | | |rb];
      try (exists false; split; [done|]; split; [done|]; inversion 1; by subst).
    by apply reftype_is_subtype_spec.
Qed.
End lists.
