(* ===== verification/TypeMatch.v ===== *)
(** Matching of types: [Cmatch] defines it by rules over subtyping, the functions
    of TypeList.v decide it.  Subtyping and matching are transitive when every
    declared supertype has the kind of its subtype. *)

From Stdlib Require Import ZArith Lia String Relations.
From stdpp Require Import prelude relations.
From S2P Require Import Prelude StateLogic BinaryReader Types TypesSpec Operands CompositeTypes Items TypeList.
From S2P Require Import TypeListSpec.

Local Open Scope Z_scope.

(** ** The kind of a type *)

(** Whether it is shared, and its constructor. *)
Definition comp_kind (c : CompositeType) : bool * Z :=
  (ct_shared c, match inner c with CFunc _ => 0 | CArray _ => 1 | CStruct _ => 2 | CCont _ => 3 end).

Lemma comp_kind_shared a b : comp_kind a = comp_kind b -> ct_shared a = ct_shared b.
Proof. by intros [=]. Qed.

Lemma comp_kind_above a b : comp_kind a = comp_kind b -> above_kind (inner a) = above_kind (inner b).
Proof. by destruct a as [[] ?], b as [[] ?]; intros [=]. Qed.

Lemma comp_kind_below a b : comp_kind a = comp_kind b -> below_kind (inner a) = below_kind (inner b).
Proof. by destruct a as [[] ?], b as [[] ?]; intros [=]. Qed.

(** The bottom of a hierarchy. *)
Lemma Asub_bottom x c : Asub x (below_kind c) -> x = below_kind c.
Proof. rewrite <- Asub_test. by destruct c, x. Qed.

Lemma Asub_through_kind c x : Asub (above_kind c) x -> Asub (below_kind c) x.
Proof. rewrite <- !Asub_test. by destruct c, x. Qed.

(** No concrete type is below the bottom of a hierarchy. *)
Lemma Asub_above_below c c' : ~ Asub (above_kind c) (below_kind c').
Proof. rewrite <- Asub_test. by destruct c, c'. Qed.

(** ** Matching by rules *)

Section match_rules.
Context (T : TypeList).

Definition Smatch (a b : StorageType) : Prop :=
  match a, b with
  | SI8, SI8 | SI16, SI16 => True
  | SVal a, SVal b => Vsub T a b
  | _, _ => False
  end.

(** Immutable fields are covariant, mutable ones invariant. *)
Definition Fmatch (a b : FieldType) : Prop :=
  Smatch (element_type a) (element_type b) /\ mutable a = mutable b
  /\ (mutable a = true -> Smatch (element_type b) (element_type a)).

Definition Imatch (a b : CompositeInnerType) : Prop :=
  match a, b with
  | CFunc a, CFunc b =>
      Forall2 (fun pa pb => Vsub T pb pa) (func_params a) (func_params b)
      /\ Forall2 (Vsub T) (func_results a) (func_results b)
  | CArray a, CArray b => Fmatch (array_element a) (array_element b)
  | CStruct a, CStruct b =>
      exists fs fs', fields a = fs ++ fs' /\ Forall2 Fmatch fs (fields b)
  | CCont a, CCont b =>
      exists i j, unpack (cont_index a) = Some (Id_ i) /\ unpack (cont_index b) = Some (Id_ j)
        /\ rtc (declared T) i j
  | _, _ => False
  end.

Definition Cmatch (a b : CompositeType) : Prop := ct_shared a = ct_shared b /\ Imatch (inner a) (inner b).

Lemma Cmatch_kind a b : Cmatch a b -> comp_kind a = comp_kind b.
Proof. destruct a as [[] ?], b as [[] ?]; intros [H1 H2]; cbn in *; try done; by subst. Qed.
End match_rules.

(** ** The functions *)

Section decide.
Context (T : TypeList) (HT : lists_wf T) (ag bg : RecGroupId).
Local Abbreviation over := (is_id T).

(** [f] decides [R] on the values that satisfy [p]. *)
Definition decides {A} (p : A -> Prop) (f : A -> A -> option bool) (R : A -> A -> Prop) : Prop :=
  forall a b, p a -> p b -> exists r, f a b = Some r /\ (r = true <-> R a b).

Lemma matches_val_spec g g' : decides (vt_over over) (matches_val T g g') (Vsub T).
Proof.
  intros a b Ha Hb. destruct a as [| | | | |ra], b as [| | | | |rb]; cbn [matches_val];
    try (eexists; split; [done|]; rewrite ?bool_decide_eq_true;
         split; [intros; done || (apply Vsub_num; congruence)|inversion 1; by subst]).
  by apply reftype_is_subtype_spec.
Qed.

Lemma matches_storage_spec g g' :
  decides (fun s => match s with SVal t => vt_over over t | _ => True end) (matches_storage T g g') (Smatch T).
Proof. intros [] [] Ha Hb; cbn; try by eexists. by apply matches_val_spec. Qed.

Lemma matches_field_spec g g' : decides (ft_over over) (matches_field T g g') (Fmatch T).
Proof.
  intros a b Ha Hb. unfold matches_field, Fmatch.
  destruct (matches_storage_spec g g' _ _ Ha Hb) as (r & -> & Hr). cbn [mbind option_bind].
  destruct r; cbn [negb]; [|exists false; split; [done|]; split; [done|]; by intros (H%Hr & _)].
  destruct (mutable a), (mutable b); cbn [negb andb]; try (eexists; split; [done|]; intuition congruence).
  destruct (matches_storage_spec g' g _ _ Hb Ha) as (r' & -> & Hr'). exists r'. split; [done|]. intuition.
Qed.

Lemma all_pairs_spec {A} (p : A -> Prop) f R l l' :
  decides p f R -> Forall p l -> Forall p l' ->
  exists r, all_pairs f l l' = Some r /\ (r = true <-> Forall2 R (take (length l') l) (take (length l) l')).
Proof.
  intros Hf Hl. revert l'. induction Hl as [|a l Ha Hl IH]; intros l' Hl'; cbn [all_pairs].
  - exists true. split; [by destruct l'|]. rewrite take_nil. by destruct l'.
  - destruct Hl' as [|b l' Hb Hl']; [by exists true|].
    destruct (Hf a b Ha Hb) as (r & -> & Hr). cbn [length take].
    destruct r.
    + destruct (IH l' Hl') as (r' & -> & Hr'). exists r'. split; [done|]. rewrite Hr'. split.
      * intros. constructor; [by apply Hr|done].
      * by inversion 1.
    + exists false. split; [done|]. split; [done|]. inversion 1 as [|? ? ? ? Hab]; subst. by apply Hr in Hab.
Qed.

Lemma all_pairs_same {A} (p : A -> Prop) f R l l' :
  decides p f R -> Forall p l -> Forall p l' -> length l = length l' ->
  exists r, all_pairs f l l' = Some r /\ (r = true <-> Forall2 R l l').
Proof.
  intros Hf Hl Hl' E. destruct (all_pairs_spec p f R l l' Hf Hl Hl') as (r & Hr & Hiff). exists r.
  split; [done|]. rewrite Hiff, E, take_ge by lia. by rewrite take_ge by lia.
Qed.

Lemma matches_func_spec a b :
  Forall (vt_over over) (params_results a) -> Forall (vt_over over) (params_results b) ->
  exists r, matches_func T ag bg a b = Some r /\ (r = true <-> Imatch T (CFunc a) (CFunc b)).
Proof.
  intros Ha Hb. unfold matches_func. cbn [Imatch].
  assert (Hp : forall c, Forall (vt_over over) (params_results c) ->
    Forall (vt_over over) (func_params c) /\ Forall (vt_over over) (func_results c)).
  { intros c Hc. split; [by apply Forall_take|by apply Forall_drop]. }
  destruct (Hp a Ha) as [Hpa Hra], (Hp b Hb) as [Hpb Hrb].
  destruct (negb _ || negb _) eqn:E.
  { exists false. split; [done|]. split; [done|]. intros [H1%Forall2_length H2%Forall2_length].
    rewrite H1, H2, !Nat.eqb_refl in E. done. }
  apply orb_false_iff in E as [E1%negb_false_iff%Nat.eqb_eq E2%negb_false_iff%Nat.eqb_eq].
  destruct (all_pairs_same (vt_over over) (fun pa pb => matches_val T bg ag pb pa)
    (fun pa pb => Vsub T pb pa) _ _ (fun x y Hx Hy => matches_val_spec bg ag y x Hy Hx) Hpa Hpb E1)
    as (r & -> & Hr). cbn [mbind option_bind].
  destruct r; cbn [negb]; [|exists false; split; [done|]; split; [done|]; by intros [H%Hr _]].
  destruct (all_pairs_same _ _ _ _ _ (matches_val_spec ag bg) Hra Hrb E2) as (r' & -> & Hr').
  exists r'. split; [done|]. rewrite Hr'. intuition.
Qed.

Lemma matches_struct_spec a b :
  Forall (ft_over over) (fields a) -> Forall (ft_over over) (fields b) ->
  exists r, matches_struct T ag bg a b = Some r /\ (r = true <-> Imatch T (CStruct a) (CStruct b)).
Proof.
  intros Ha Hb. unfold matches_struct. cbn [Imatch]. destruct (Nat.ltb_spec (length (fields a)) (length (fields b))).
  { exists false. split; [done|]. split; [done|]. intros (fs & fs' & E & H'%Forall2_length).
    rewrite E, length_app in *. lia. }
  destruct (all_pairs_spec _ _ _ _ _ (matches_field_spec ag bg) Ha Hb) as (r & -> & Hr).
  exists r. split; [done|]. rewrite Hr, (take_ge (fields b)) by lia. split.
  - intros H2. exists (take (length (fields b)) (fields a)), (drop (length (fields b)) (fields a)).
    by rewrite take_drop.
  - intros (fs & fs' & E & H2). pose proof (Forall2_length _ _ _ H2) as Hl. rewrite E, <- Hl.
    by rewrite take_app_length.
Qed.

Lemma rt_concrete_over p :
  idx_over over p -> exists i, unpack p = Some (Id_ i) /\ rt_over over (rt_concrete false p)
    /\ rt_heap_type (rt_concrete false p) = Some (Concrete (Id_ i)) /\ is_nullable (rt_concrete false p) = false.
Proof.
  intros Hp. destruct (idx_over_unpack _ _ Hp) as (u & (i & -> & Hi) & Hv & Hu & Hin). exists i.
  destruct Hp as (u' & Hu' & Hv' & Hp'). destruct (unpack_pack u' Hv') as (p' & Ep & _ & Eu). simplify_eq.
  assert (Hr : rt_new false (Concrete (Id_ i)) = Some (rt_concrete false p)) by (cbn in *; by rewrite Hp').
  destruct (rt_new_heap_type false (Concrete (Id_ i)) Hv) as (r & Er & Hh & Hn). simplify_eq.
  split_and!; [done| |done..]. exists false, (Concrete (Id_ i)). done.
Qed.

Lemma matches_cont_spec a b :
  idx_over over (cont_index a) -> idx_over over (cont_index b) ->
  exists r, matches_cont T ag bg a b = Some r /\ (r = true <-> Imatch T (CCont a) (CCont b)).
Proof.
  intros Ha Hb. destruct (rt_concrete_over _ Ha) as (i & Ei & Hoa & Hha & Hna).
  destruct (rt_concrete_over _ Hb) as (j & Ej & Hob & Hhb & Hnb). unfold matches_cont. cbn [Imatch].
  destruct (Z.eqb_spec (cont_index a) (cont_index b)) as [E|E].
  - exists true. split; [done|]. split; [|done]. intros _. exists i, j. rewrite E in Ei. simplify_eq.
    by rewrite E.
  - destruct (reftype_is_subtype_spec T HT _ (Some ag) _ (Some bg) Hoa Hob) as (r & -> & Hr).
    exists r. split; [done|]. rewrite Hr. split.
    + inversion 1 as [? Hn|? ? ha hb ? H1 H2 Hh]; subst; [by destruct (Hn _ eq_refl)|].
      simplify_eq. exists i, j. split_and!; [done..|]. by inversion Hh.
    + intros (i' & j' & ? & ? & Hd). simplify_eq. eapply Vsub_ref; [congruence|done..|by constructor].
Qed.

Lemma matches_composite_spec a b :
  inner_over over (inner a) -> inner_over over (inner b) ->
  exists r, matches_composite T ag bg a b = Some r /\ (r = true <-> Cmatch T a b).
Proof.
  intros Ha Hb. unfold matches_composite, Cmatch.
  destruct (bool_decide_reflect (ct_shared a = ct_shared b)) as [Hs|Hs]; cbn [negb].
  2: { exists false. split; [done|]. split; [done|]. by intros [? _]. }
  assert (Hi : exists r, match inner a, inner b with
    | CFunc fa, CFunc fb => matches_func T ag bg fa fb
    | CFunc _, _ => Some false
    | CArray aa, CArray ab => matches_field T ag bg (array_element aa) (array_element ab)
    | CArray _, _ => Some false
    | CStruct sa, CStruct sb => matches_struct T ag bg sa sb
    | CStruct _, _ => Some false
    | CCont ca, CCont cb => matches_cont T ag bg ca cb
    | CCont _, _ => Some false
    end = Some r /\ (r = true <-> Imatch T (inner a) (inner b))).
  { destruct (inner a), (inner b); try by (exists false); cbn [inner_over] in *.
    - by apply matches_func_spec.
    - by apply matches_field_spec.
    - by apply matches_struct_spec.
    - by apply matches_cont_spec. }
  destruct Hi as (r & Hr & Hiff). exists r. split; [done|]. rewrite Hiff. intuition.
Qed.
End decide.

(** ** Transitivity *)

Section trans.
Context (T : TypeList) (HT : lists_wf T).

(** Every type is over known identifiers, and a supertype has its kind. *)
Hypothesis Hkind : forall i j ti tj, declared T i j -> type_at T i = Some ti -> type_at T j = Some tj ->
  comp_kind (composite_type_of ti) = comp_kind (composite_type_of tj).

Lemma rtc_kind i j ti tj :
  rtc (declared T) i j -> type_at T i = Some ti -> type_at T j = Some tj ->
  comp_kind (composite_type_of ti) = comp_kind (composite_type_of tj).
Proof.
  intros Hr. revert ti. induction Hr as [i|i k j Hik Hkj IH]; intros ti Hi Hj; [by simplify_eq|].
  apply type_at_valid in Hi as Hv; [|done]. destruct Hv as [Hv _].
  destruct (valid_type_at T HT k (declared_valid T HT i k Hv Hik)) as (tk & Hk & _).
  rewrite (Hkind i k ti tk Hik Hi Hk). by apply IH.
Qed.

Lemma Hsub_trans a b c :
  ht_over (is_id T) a -> ht_over (is_id T) b -> ht_over (is_id T) c -> Hsub T a b -> Hsub T b c -> Hsub T a c.
Proof.
  intros Ha Hb Hc Hab Hbc. destruct Hab as [s x y Hxy|i j Hij|i t x Ht Hx|j t Ht];
    inversion Hbc as [s' y' z Hyz|j' k Hjk|j' t' z Ht' Hz|k t' Ht']; subst.
  - constructor. by etransitivity.
  - apply Asub_bottom in Hxy as ->. by constructor.
  - constructor. by etransitivity.
  - destruct Ha as [(i' & [= <-] & Hi) _]. destruct (valid_type_at T HT i Hi) as (ti & Hti & _).
    pose proof (rtc_kind i j _ _ Hij Hti Ht') as Hk. rewrite <- (comp_kind_shared _ _ Hk).
    constructor; [done|]. by rewrite (comp_kind_above _ _ Hk).
  - constructor; [done|]. by etransitivity.
  - by apply Asub_above_below in Hx.
  - destruct Hc as [(k' & [= <-] & Hk) _]. destruct (valid_type_at T HT k Hk) as (tk & Htk & _).
    pose proof (rtc_kind j k _ _ Hjk Ht Htk) as Hkd. rewrite (comp_kind_shared _ _ Hkd), (comp_kind_below _ _ Hkd).
    by constructor.
  - simplify_eq. constructor. by apply Asub_through_kind.
Qed.

Lemma Vsub_trans a b c :
  vt_over (is_id T) a -> vt_over (is_id T) b -> vt_over (is_id T) c -> Vsub T a b -> Vsub T b c -> Vsub T a c.
Proof.
  intros Ha Hb Hc Hab Hbc. destruct Hab as [t Ht|ra rb ha hb Hn Hha Hhb Hab]; [done|].
  inversion Hbc as [? Ht|? rc hb' hc Hn' Hhb' Hhc Hbc']; subst; [by destruct (Ht rb)|].
  destruct (rt_over_heap_type _ _ Ha) as (ha' & Ea & Hoa & _).
  destruct (rt_over_heap_type _ _ Hb) as (hb0 & Eb & Hob & _).
  destruct (rt_over_heap_type _ _ Hc) as (hc' & Ec & Hoc & _). simplify_eq.
  eapply Vsub_ref; [by auto|done..|]. by apply (Hsub_trans _ hb).
Qed.

Lemma Smatch_trans a b c :
  let over s := match s with SVal t => vt_over (is_id T) t | _ => True end in
  over a -> over b -> over c -> Smatch T a b -> Smatch T b c -> Smatch T a c.
Proof. destruct a, b, c; cbn; try done. apply Vsub_trans. Qed.

Lemma Fmatch_trans a b c :
  ft_over (is_id T) a -> ft_over (is_id T) b -> ft_over (is_id T) c ->
  Fmatch T a b -> Fmatch T b c -> Fmatch T a c.
Proof.
  intros Ha Hb Hc (H1 & H2 & H3) (H4 & H5 & H6). split_and!.
  - by eapply (Smatch_trans _ (element_type b)).
  - congruence.
  - intros Hm. eapply (Smatch_trans _ (element_type b)); [done..| |].
    + apply H6. congruence.
    + by apply H3.
Qed.

(** Two lists related element by element through a third. *)
Lemma Forall2_over_trans {A} (p : A -> Prop) (R : A -> A -> Prop) l1 l2 l3 :
  (forall a b c, p a -> p b -> p c -> R a b -> R b c -> R a c) ->
  Forall p l1 -> Forall p l2 -> Forall p l3 -> Forall2 R l1 l2 -> Forall2 R l2 l3 -> Forall2 R l1 l3.
Proof.
  intros HR H1 H2 H3 H12. revert l3 H3. induction H12 as [|a b l1 l2 Hab H12 IH]; intros l3 H3 H23.
  { by inversion H23. }
  inversion H23 as [|? c ? l3' Hbc H23']; subst. inversion H1; inversion H2; inversion H3; subst.
  constructor; [by apply (HR a b c)|by apply IH].
Qed.

Lemma Imatch_trans a b c :
  inner_over (is_id T) a -> inner_over (is_id T) b -> inner_over (is_id T) c ->
  Imatch T a b -> Imatch T b c -> Imatch T a c.
Proof.
  intros Ha Hb Hc Hab Hbc. destruct a as [fa|aa|sa|ca], b as [fb|ab|sb|cb], c as [fc|ac|sc|cc]; try done;
    cbn [Imatch inner_over] in *.
  - destruct Hab as [H1 H2], Hbc as [H3 H4]. split.
    + eapply (Forall2_over_trans (vt_over (is_id T)) _ _ (func_params fb));
        [|by apply Forall_take..|done|done]. intros x y z Hx Hy Hz Hyx Hzy. by apply (Vsub_trans _ y).
    + eapply (Forall2_over_trans (vt_over (is_id T)) _ _ (func_results fb));
        [exact Vsub_trans|by apply Forall_drop..|done|done].
  - by apply (Fmatch_trans _ (array_element ab)).
  - destruct Hab as (fs & fs' & Ea & H1), Hbc as (gs & gs' & Eb & H2). rewrite Eb in H1.
    apply Forall2_app_inv_r in H1 as (fs1 & fs2 & H1 & _ & ->). exists fs1, (fs2 ++ fs').
    split; [by rewrite Ea, app_assoc|]. rewrite Ea in Ha. rewrite Eb in Hb.
    apply Forall_app in Hb as [Hb _]. do 2 apply Forall_app in Ha as [Ha _].
    by apply (Forall2_over_trans (ft_over (is_id T)) (Fmatch T) fs1 gs (fields sc) Fmatch_trans).
  - destruct Hab as (i & j & Hi & Hj & Hij), Hbc as (j' & k & Hj' & Hk & Hjk). simplify_eq.
    exists i, k. split_and!; [done..|]. by etransitivity.
Qed.

Lemma Cmatch_trans a b c :
  inner_over (is_id T) (inner a) -> inner_over (is_id T) (inner b) -> inner_over (is_id T) (inner c) ->
  Cmatch T a b -> Cmatch T b c -> Cmatch T a c.
Proof.
  intros Ha Hb Hc [H1 H2] [H3 H4]. split; [congruence|]. by apply (Imatch_trans _ (inner b)).
Qed.

Lemma Smatch_refl s : match s with SVal t => vt_over (is_id T) t | _ => True end -> Smatch T s s.
Proof.
  destruct s; [done..|]. cbn. intros Ht.
  destruct (valtype_is_subtype_spec T HT _ _ Ht Ht) as (r & Hr & Hiff). apply Hiff.
  unfold valtype_is_subtype in Hr. rewrite bool_decide_true in Hr by done. by injection Hr as <-.
Qed.

Lemma Vsub_refl t : vt_over (is_id T) t -> Vsub T t t.
Proof. apply (Smatch_refl (SVal t)). Qed.

Lemma Cmatch_refl a : inner_over (is_id T) (inner a) -> Cmatch T a a.
Proof.
  intros Ha. split; [done|]. destruct (inner a) as [f|x|s|c]; cbn in *.
  - split; apply Forall_Forall2_diag; (eapply Forall_impl; [|intros; by apply Vsub_refl]);
      [by apply Forall_take|by apply Forall_drop].
  - split_and!; [by apply Smatch_refl|done|intros _; by apply Smatch_refl].
  - exists (fields s), []. rewrite app_nil_r. split; [done|]. apply Forall_Forall2_diag.
    eapply Forall_impl; [exact Ha|]. intros y Hy. split_and!; [by apply Smatch_refl|done|intros _; by apply Smatch_refl].
  - destruct (idx_over_unpack _ _ Ha) as (u & (i & -> & _) & _ & -> & _). by exists i, i.
Qed.
End trans.

(** * The list of types only grows: [grows T T'], and what stays true of a type when
    other types are added. *)

Record grows (T T' : TypeList) : Prop := {
  gr_types : tys T `prefix_of` tys T';
  gr_groups : grps T `prefix_of` grps T';
  gr_supers : sups T `prefix_of` sups T';
  gr_elems : elems T `prefix_of` elems T';
}.

#[export] Instance grows_preorder : PreOrder grows.
Proof. split; [by intros T; split|]. intros T1 T2 T3 [] []. split; by etransitivity. Qed.

Section grows.
Context (T T' : TypeList) (HT : lists_wf T) (HT' : lists_wf T') (G : grows T T').

Lemma grows_valid id : valid_id T id -> valid_id T' id.
Proof.
  intros [H0 H1]. split; [done|]. pose proof (prefix_length _ _ (gr_types _ _ G)). unfold ntypes in *. lia.
Qed.

Lemma grows_lookup i t : tys T !! i = Some t -> tys T' !! i = Some t.
Proof. intros H. eapply prefix_lookup_Some; [done|apply G]. Qed.

Lemma grows_sups i o : sups T !! i = Some o -> sups T' !! i = Some o.
Proof. intros H. eapply prefix_lookup_Some; [done|apply G]. Qed.

Lemma grows_type_at id t : type_at T id = Some t -> type_at T' id = Some t.
Proof.
  intros (Hv & H)%type_at_valid; [|done]. rewrite type_at_items; [by apply grows_lookup|done|apply Hv].
Qed.

Lemma grows_is_id u : is_id T u -> is_id T' u.
Proof. intros (id & -> & H). exists id. split; [done|by apply grows_valid]. Qed.

Lemma grows_declared a b : declared T a b -> declared T' a b.
Proof. intros [H0 H]. split; [done|by apply grows_sups]. Qed.

Lemma grows_rtc a b : rtc (declared T) a b -> rtc (declared T') a b.
Proof. induction 1 as [|a c b H _ IH]; [done|]. eapply rtc_l; [by apply grows_declared|done]. Qed.

Lemma grows_Hsub a b : Hsub T a b -> Hsub T' a b.
Proof.
  destruct 1; [by constructor|constructor; by apply grows_rtc|..]; econstructor; (by apply grows_type_at) || done.
Qed.

Lemma grows_Vsub a b : Vsub T a b -> Vsub T' a b.
Proof. destruct 1; [by apply Vsub_num|]. eapply Vsub_ref; [done..|]. by apply grows_Hsub. Qed.

Lemma grows_Smatch a b : Smatch T a b -> Smatch T' a b.
Proof. destruct a, b; cbn; try done. apply grows_Vsub. Qed.

Lemma grows_Fmatch a b : Fmatch T a b -> Fmatch T' a b.
Proof. intros (H1 & H2 & H3). split_and!; [by apply grows_Smatch|done|]. intros. by apply grows_Smatch, H3. Qed.

Lemma grows_Cmatch a b : Cmatch T a b -> Cmatch T' a b.
Proof.
  intros [H1 H2]. split; [done|]. destruct (inner a), (inner b); try done; cbn in *.
  - destruct H2 as [H2 H3]. split; (eapply Forall2_impl; [done|]); intros; by apply grows_Vsub.
  - by apply grows_Fmatch.
  - destruct H2 as (fs & fs' & E & H2). exists fs, fs'. split; [done|].
    eapply Forall2_impl; [done|]. intros; by apply grows_Fmatch.
  - destruct H2 as (i & j & Hi & Hj & H2). exists i, j. split_and!; [done..|by apply grows_rtc].
Qed.

Lemma grows_vt_over t : vt_over (is_id T) t -> vt_over (is_id T') t.
Proof. apply vt_over_mono, grows_is_id. Qed.

Lemma grows_shared t : valtype_is_shared T t = Some true -> valtype_is_shared T' t = Some true.
Proof.
  destruct t as [| | | | |r]; try done. cbn. unfold reftype_is_shared.
  destruct (rt_heap_type r) as [[|u]|]; try done. cbn.
  destruct (unpacked_as_core_type_id u) as [id|]; [|done]. cbn.
  destruct (type_at T id) as [t|] eqn:E; [|done]. by rewrite (grows_type_at _ _ E).
Qed.
End grows.

(** ** Types that were checked *)

(** The value types a composite type is made of. *)
Definition members (c : CompositeType) : list ValType :=
  let of_field (f : FieldType) := match element_type f with SVal t => [t] | _ => [] end in
  match inner c with
  | CFunc f => func_params f ++ func_results f
  | CArray a => of_field (array_element a)
  | CStruct s => fields s ≫= of_field
  | CCont _ => []
  end.

(** What [check_subtype] has established of type [i]. *)
Record checked (T : TypeList) (i : nat) (t : SubType) : Prop := {
  ck_over : sub_over (is_id T) t;
  ck_shape : shape_ok t;
  ck_cont c : inner (composite_type_of t) = CCont c ->
    exists id u f, unpack (cont_index c) = Some (Id_ id) /\ type_at T id = Some u
      /\ inner (composite_type_of u) = CFunc f;
  ck_shared : ct_shared (composite_type_of t) = true ->
    Forall (fun m => valtype_is_shared T m = Some true) (members (composite_type_of t));
  ck_super :
    match supertype_idx t with
    | None => sups T !! i = Some None
    | Some p => exists j u, unpack p = Some (Id_ j) /\ sups T !! i = Some (Some j) /\ type_at T j = Some u
        /\ is_final u = false /\ Cmatch T (composite_type_of t) (composite_type_of u)
    end;
}.

Lemma checked_grows T T' i t :
  lists_wf T -> lists_wf T' -> grows T T' -> checked T i t -> checked T' i t.
Proof.
  intros HT HT' G [Ho Hs Hc Hsh Hsu]. split; [|done|..].
  - eapply sub_over_mono; [|done]. intros; by eapply (grows_is_id T T').
  - intros c Ec. destruct (Hc c Ec) as (id & u & f & Hu & Ht & Hf). exists id, u, f.
    split_and!; [done|by eapply (grows_type_at T T')|done].
  - intros E. eapply Forall_impl; [by apply Hsh|]. intros m Hm. by eapply (grows_shared T T').
  - destruct (supertype_idx t) as [p|]; [|by eapply (grows_sups T T')].
    destruct Hsu as (j & u & Hp & Hj & Hu & Hfin & Hm). exists j, u.
    split_and!; [done|by eapply (grows_sups T T')|by eapply (grows_type_at T T')|done|by eapply (grows_Cmatch T T')].
Qed.

(** All types are checked: what a module sees of the list. *)
Record view_wf (T : TypeList) : Prop := {
  vw_lists : lists_wf T;
  vw_checked i t : tys T !! i = Some t -> checked T i t;
}.

Section view.
Context (T : TypeList) (HT : view_wf T).

Lemma type_at_checked id t : type_at T id = Some t -> checked T (Z.to_nat id) t.
Proof. intros [_ H]%type_at_valid; [|apply HT]. by apply (vw_checked _ HT). Qed.

(** A declared supertype matches. *)
Lemma declared_match i j ti tj :
  declared T i j -> type_at T i = Some ti -> type_at T j = Some tj ->
  Cmatch T (composite_type_of ti) (composite_type_of tj) /\ is_final tj = false.
Proof.
  intros [_ Hd] Hi Hj. pose proof (ck_super _ _ _ (type_at_checked _ _ Hi)) as H.
  destruct (supertype_idx ti) as [p|]; [|by simplify_eq].
  destruct H as (j' & u & _ & Hs & Hu & Hf & Hm). by simplify_eq.
Qed.

Lemma view_kind i j ti tj :
  declared T i j -> type_at T i = Some ti -> type_at T j = Some tj ->
  comp_kind (composite_type_of ti) = comp_kind (composite_type_of tj).
Proof. intros Hd Hi Hj. eapply Cmatch_kind. by apply (declared_match i j). Qed.

(** So does every type it is a subtype of. *)
Lemma rtc_match i j ti tj :
  rtc (declared T) i j -> type_at T i = Some ti -> type_at T j = Some tj ->
  Cmatch T (composite_type_of ti) (composite_type_of tj).
Proof.
  pose proof (vw_lists _ HT) as HL. intros Hr. revert ti.
  induction Hr as [i|i k j Hik Hkj IH]; intros ti Hi Hj.
  - simplify_eq. apply Cmatch_refl; [done|]. apply (type_at_checked _ _ Hi).
  - apply type_at_valid in Hi as Hv; [|done]. destruct Hv as [Hv _].
    destruct (valid_type_at T HL k (declared_valid T HL i k Hv Hik)) as (tk & Hk & _).
    apply (Cmatch_trans T HL view_kind _ (composite_type_of tk));
      [by eapply ck_over, type_at_checked..| |by apply IH]. by apply (declared_match i k).
Qed.
End view.
