(* ===== verification/InternSpec.v ===== *)
(** Canonicalizing and interning recursion groups: the invariant [alloc_wf] of the
    list of types, and that adding the types of a module preserves it. *)

From Stdlib Require Import ZArith Lia String Relations.
From stdpp Require Import prelude relations.
From S2P Require Import Prelude StateLogic BinaryReader Types TypesSpec Operands CompositeTypes Items.
From S2P Require Import CompositeSpec ValidatorState TypeList Canonical TypeListSpec TypeMatch.

Local Open Scope Z_scope.

(** ** The invariant *)

(** The depths of the first [k] types: one more than that of the supertype. *)
Record depths_ok (T : TypeList) (k : nat) (dm : list (CoreTypeId * Z)) : Prop := {
  do_keys : map fst dm = seqZ 0 (Z.of_nat k);
  do_depth i d (o : option CoreTypeId) : map snd dm !! i = Some d -> sups T !! i = Some o ->
    0 <= d <= MAX_WASM_SUBTYPING_DEPTH
    /\ match o with
       | Some j => map snd dm !! Z.to_nat j = Some (d - 1)
       | None => d = 0
       end;
}.

(** The types of a group follow each other in the list. *)
Definition types_from (T : TypeList) (start : Z) (ts : list SubType) : Prop :=
  forall n t, ts !! n = Some t -> tys T !! (Z.to_nat start + n)%nat = Some t.

(** The types of [g], whose group starts at [start], with their indices resolved. *)
Definition resolved (start : Z) (g : RecGroup) (ts : list SubType) : Prop :=
  Forall2 (fun t t' => remap_indices (resolve_index start) t = Ok t') (into_types g) ts.

Definition group_len (g : RecGroup) : nat := length (into_types g).

Definition entry_ok (T : TypeList) (e : RecGroup * RecGroupId) : Prop :=
  exists start ts, 0 <= snd e
    /\ elems T !! Z.to_nat (snd e) = Some (start, start + Z.of_nat (group_len (fst e)))
    /\ resolved start (fst e) ts /\ types_from T start ts.

Record groups_ok (T : TypeList) (gm : list (RecGroup * RecGroupId)) : Prop := {
  go_entries : Forall (entry_ok T) gm;
  go_keys : NoDup (map (fun e => into_types (fst e)) gm);
  go_ids : NoDup (map snd gm);
  go_count : (length (elems T) <= length (tys T)
              + length (filter (fun e => into_types (fst e) = []) gm))%nat;
}.

(** The first [k] types are checked. *)
Record alloc_wf (k : nat) (T : TypeList) : Prop := {
  aw_lists : lists_wf T;
  aw_checked i t : (i < k)%nat -> tys T !! i = Some t -> checked T i t;
  aw_depth : exists dm, core_type_to_depth T = Some dm /\ depths_ok T k dm;
  aw_groups : exists gm, canonical_rec_groups T = Some gm /\ groups_ok T gm;
}.

Definition types_wf (T : TypeList) : Prop := alloc_wf (length (tys T)) T.

Lemma types_wf_view T : types_wf T -> view_wf T.
Proof.
  intros H. split; [apply H|]. intros i t Hi. apply (aw_checked _ _ H); [|done]. by eapply lookup_lt_Some.
Qed.

Lemma TypeAlloc_default_wf : types_wf TypeAlloc_default.
Proof.
  split; [by split|done|..].
  - exists []. split; [done|]. by split.
  - exists []. split; [done|]. split; by constructor || done.
Qed.

(** There is at most one empty group. *)
Lemma one_empty_group (gm : list (RecGroup * RecGroupId)) :
  NoDup (map (fun e => into_types (fst e)) gm) ->
  (length (filter (fun e => into_types (fst e) = []) gm) <= 1)%nat.
Proof.
  induction gm as [|e gm IH]; [cbn; lia|]. cbn [map]. intros [Hn Hd]%NoDup_cons. rewrite filter_cons.
  destruct (decide (into_types (fst e) = [])) as [E|E]; [|by apply IH]. cbn.
  destruct (filter (fun e => into_types (fst e) = []) gm) as [|x xs] eqn:Ef; [done|]. exfalso.
  assert (Hx : x ∈ filter (fun e => into_types (fst e) = []) gm) by (rewrite Ef; left).
  apply list_elem_of_filter in Hx as [Ex Hx]. apply Hn. rewrite E, <- Ex. by apply (list_elem_of_fmap_2 (fun e => into_types (fst e))).
Qed.

Lemma elems_bound T gm :
  groups_ok T gm -> Z.of_nat (length (elems T)) <= ntypes T + 1.
Proof. intros [_ Hk _ Hc]. pose proof (one_empty_group gm Hk). unfold ntypes. lia. Qed.

(** ** Canonicalizing *)

(** An index of a canonical group of [len] types: a known type, or one of the group. *)
Definition canon_idx (T : TypeList) (len : Z) (u : UnpackedIndex) : Prop :=
  is_id T u \/ exists r, u = RecGroup_ r /\ 0 <= r < len.

Definition sup_before (T : TypeList) (local : Z) (t : SubType) : Prop :=
  forall p, supertype_idx t = Some p ->
  exists u, unpack p = Some u /\ (is_id T u \/ exists r, u = RecGroup_ r /\ 0 <= r < local).

(** The type at [local] in a canonical group. *)
Record canon_type (T : TypeList) (len local : Z) (t : SubType) : Prop := {
  ct_over : sub_over (canon_idx T len) t;
  ct_shape : shape_ok t;
  ct_before : sup_before T local t;
}.

Lemma from_id_over id p : 0 <= id -> from_id id = Some p -> unpacked_valid (Id_ id) /\ pack (Id_ id) = Some p.
Proof.
  intros H0 Hp. split; [|done]. destruct (decide (in_u 20 id)) as [?|Hn]; [done|].
  unfold from_id in Hp. by rewrite can_represent_index_false in Hp.
Qed.

Lemma from_rec_group_over i p :
  0 <= i -> from_rec_group_index i = Some p -> unpacked_valid (RecGroup_ i) /\ pack (RecGroup_ i) = Some p.
Proof.
  intros H0 Hp. split; [|done]. destruct (decide (in_u 20 i)) as [?|Hn]; [done|].
  unfold from_rec_group_index in Hp. by rewrite can_represent_index_false in Hp.
Qed.

Section canonicalize.
Context (T : TypeList) (c : TypeCanonicalizer).
Hypothesis Hm : Forall (valid_id T) (m_types (tc_module c)).

(** Where a canonical index comes from, with what is known of its order. *)
Lemma canonicalize_type_index_ok p i :
  in_u 20 i -> unpack p = Some (Module_ i) ->
  rsafe (canonicalize_type_index c p) (fun p' => exists u, pack u = Some p' /\ unpacked_valid u
    /\ (is_id T u \/ exists r, u = RecGroup_ r /\ 0 <= r < rec_group_len c /\ i = rec_group_start c + r)).
Proof.
  intros Hi Hp. unfold canonicalize_type_index. rewrite Hp. cbn [expect mbind result_bind].
  destruct (Z.ltb_spec i (rec_group_start c)).
  - unfold type_id_at. destruct (m_types (tc_module c) !! Z.to_nat i) as [id|] eqn:E; [|done].
    cbn [mbind result_bind]. assert (Hid : valid_id T id) by by eapply Forall_lookup_1.
    destruct (from_id id) as [p'|] eqn:Ep; [|done]. cbn. exists (Id_ id).
    destruct (from_id_over id p' (proj1 Hid) Ep). split_and!; [done..|]. left. by exists id.
  - destruct (allow_gc c && (i - rec_group_start c <? rec_group_len c)) eqn:E; [|done].
    apply andb_true_iff in E as [_ E%Z.ltb_lt].
    destruct (from_rec_group_index (i - rec_group_start c)) as [p'|] eqn:Ep; [|done]. cbn.
    destruct (from_rec_group_over (i - rec_group_start c) p') as [Hv Hpk]; [lia|done|].
    eexists. split_and!; [done..|]. right. eexists. split; [done|]. lia.
Qed.

Lemma canonicalize_type_index_over p :
  idx_over is_module_index p ->
  rsafe (canonicalize_type_index c p) (idx_over (canon_idx T (rec_group_len c))).
Proof.
  intros Hp. destruct (idx_over_unpack _ _ Hp) as (u & (i & ->) & Hv & Hu & _).
  eapply rsafe_mono; [by apply (canonicalize_type_index_ok p i)|]. intros p' (u & Hu' & Hv' & H).
  exists u. split_and!; [|done..]. destruct H as [H|(r & -> & Hr & _)]; [by left|right; by exists r].
Qed.
End canonicalize.

(** The supertype of a remapped type. *)
Lemma remap_indices_super g t t' :
  remap_indices g t = Ok t' ->
  match supertype_idx t with
  | Some p => exists p', g p = Ok p' /\ supertype_idx t' = Some p'
  | None => supertype_idx t' = None
  end.
Proof.
  unfold remap_indices. destruct (supertype_idx t) as [p|]; cbn [mbind result_bind].
  - destruct (g p) as [p'| |]; cbn [mbind result_bind mret result_ret]; [|done..].
    destruct (match inner (composite_type_of t) with CFunc _ => _ | _ => _ end); cbn [mbind result_bind]; [|done..].
    intros [= <-]. by exists p'.
  - cbn [mret result_ret mbind result_bind].
    destruct (match inner (composite_type_of t) with CFunc _ => _ | _ => _ end); cbn [mbind result_bind]; [|done..].
    by intros [= <-].
Qed.

Lemma as_module_index_unpack p i : unpack p = Some (Module_ i) -> packed_as_module_index p = Some i.
Proof.
  unfold unpack, packed_as_module_index. destruct (packed_kind p =? MODULE_KIND); [by intros [= <-]|].
  destruct (packed_kind p =? REC_GROUP_KIND); [done|]. by destruct (packed_kind p =? ID_KIND).
Qed.

Lemma rsafe_and {A} (x : result A) (Q Q' : A -> Prop) : rsafe x Q -> (forall a, x = Ok a -> Q' a) -> rsafe x (fun a => Q a /\ Q' a).
Proof. destruct x; cbn; [|done..]. intros ? H. split; [done|by apply H]. Qed.

Lemma canonicalize_types_ok T c local ts :
  Forall (valid_id T) (m_types (tc_module c)) -> 0 <= rec_group_start c -> 0 <= local ->
  rec_group_start c + local + Z.of_nat (length ts) < 2 ^ 32 ->
  Forall (fun t => sub_over is_module_index (snd t) /\ shape_ok (snd t)) ts ->
  rsafe (canonicalize_types c local ts) (fun ts' => length ts' = length ts
    /\ forall l t, map snd ts' !! l = Some t -> canon_type T (rec_group_len c) (local + Z.of_nat l) t).
Proof.
  intros Hm Hs. revert local. induction ts as [|[o t] ts IH]; intros local Hl Hb Hts; cbn [canonicalize_types].
  { split; [done|]. by intros []. }
  inversion Hts as [|? ? [Ho Hsh] Hts']; subst. cbn [fst snd length] in *. apply rsafe_bind.
  unfold add_u32, to_u32. destruct (Z.ltb_spec (rec_group_start c + local) (2 ^ 32)); [|lia]. cbn [rsafe].
  apply rsafe_check. intros Hsup. apply rsafe_bind.
  eapply rsafe_mono; [apply rsafe_and; [by apply (remap_indices_over is_module_index (canon_idx T (rec_group_len c)));
    [intros; by apply canonicalize_type_index_over|..]|intros t' Ht'; exact (remap_indices_super _ _ _ Ht')]|].
  intros t' ((Ho' & Hsh' & _ & _) & Hrs). apply rsafe_bind.
  eapply rsafe_mono; [apply (IH (local + 1)); [lia|lia|done]|]. intros ts' [Hlen Hall].
  apply rsafe_ok. split; [cbn; lia|]. intros [|l] t1; cbn [map lookup list_lookup].
  - intros [= <-]. rewrite Z.add_0_r. split; [done..|]. intros p' Hp'. destruct Ho as [_ Hov].
    unfold super_over in Hov. destruct (supertype_idx t) as [p|]; [|congruence].
    destruct Hrs as (p1 & Hp1 & Ep). simplify_eq.
    destruct (idx_over_unpack _ _ Hov) as (u & (i & ->) & Hv & Hu & _).
    rewrite (as_module_index_unpack p i Hu) in Hsup. apply Z.leb_gt in Hsup.
    pose proof (canonicalize_type_index_ok T c Hm p i Hv Hu) as Hc. rewrite Hp1 in Hc. cbn in Hc.
    destruct Hc as (u & Hpk & Hval & Hcase). destruct (unpack_pack u Hval) as (p2 & Hp2 & _ & Hun). simplify_eq.
    exists u. split; [done|]. destruct Hcase as [?|(r & -> & Hr & Ei)]; [by left|right].
    exists r. split; [done|lia].
  - intros H'. replace (local + Z.of_nat (S l)) with (local + 1 + Z.of_nat l) by lia. by apply Hall.
Qed.

(** What is interned: a canonical group, or a single type as it was read. *)
Definition group_pre (f : WasmFeatures) (T : TypeList) (g : RecGroup) : Prop :=
  if needs_type_canonicalization f then
    forall l t, into_types g !! l = Some t -> canon_type T (Z.of_nat (group_len g)) (Z.of_nat l) t
  else
    group_len g = 1%nat /\ Forall (fun t => sub_over is_module_index t /\ shape_ok t) (into_types g).

Lemma canonicalize_rec_group_ok T m off f g :
  Forall (valid_id T) (m_types m) -> Z.of_nat (length (m_types m)) + Z.of_nat (group_len g) < 2 ^ 32 ->
  Forall (fun t => sub_over is_module_index t /\ shape_ok t) (into_types g) ->
  rsafe (canonicalize_rec_group (canonicalizer_new m off f) g) (fun g' => group_len g' = group_len g
    /\ forall l t, into_types g' !! l = Some t -> canon_type T (Z.of_nat (group_len g')) (Z.of_nat l) t).
Proof.
  intros Hm Hb Hts. unfold canonicalize_rec_group, types_len, to_u32. unfold group_len in *.
  cbn [tc_module canonicalizer_new].
  destruct (Z.ltb_spec (Z.of_nat (length (m_types m))) (2 ^ 32)); [|lia].
  destruct (Z.ltb_spec (Z.of_nat (length (into_types g))) (2 ^ 32)); [|lia]. cbn [mbind result_bind].
  assert (H2 : forall ts, map snd ts = into_types g ->
    Forall (fun t : Z * SubType => sub_over is_module_index (snd t) /\ shape_ok (snd t)) ts).
  { intros ts E. rewrite <- E in Hts. by apply Forall_fmap in Hts. }
  set (c := mkCanonicalizer m _ _ _ _). unfold into_types, into_types_and_offsets in *.
  destruct (group_inner g) as [t|ts] eqn:Eg.
  - apply rsafe_bind. eapply rsafe_mono; [apply (canonicalize_types_ok T c 0 [t]); [done|subst c; cbn [rec_group_start length map] in *; lia..|by apply (H2 [t])]|].
    by intros [|t' [|]] [Hl Hall].
  - rewrite length_map in *. apply rsafe_bind.
    eapply rsafe_mono; [apply (canonicalize_types_ok T c 0 ts); [done|subst c; cbn [rec_group_start] in *; lia..|by apply H2]|].
    intros ts' [Hl Hall]. apply rsafe_ok. cbn in *. rewrite !length_map, Hl. split; [done|]. intros l u Hu.
    specialize (Hall l u Hu). by rewrite length_map in Hall.
Qed.

(** * Interning a recursion group: it gets the identifier of an equal group, or its
    types are appended to the list, with their indices resolved. *)

(** ** Appending types *)

Lemma to_u32_ok n : n < 2 ^ 32 -> to_u32 n = Ok n.
Proof. intros H. unfold to_u32. by destruct (Z.ltb_spec n (2 ^ 32)); [|lia]. Qed.

Lemma lookup_app_after {A} (l k : list A) n : (l ++ k) !! (length l + n)%nat = k !! n.
Proof. rewrite lookup_app_r by lia. f_equal. lia. Qed.

(** [T'] is [T] with the types [ts'] of one group appended. *)
Record appended (start : Z) (group : RecGroupId) (ts : list SubType) (T T' : TypeList) : Prop := {
  ap_types : exists ts', tys T' = tys T ++ ts'
    /\ Forall2 (fun t t' => remap_indices (resolve_index start) t = Ok t') ts ts';
  ap_supers : exists ss, sups T' = sups T ++ ss /\ Forall2 (fun t s => resolve_supertype start t = Ok s) ts ss;
  ap_groups : grps T' = grps T ++ replicate (length ts) group;
  ap_rec_groups : rec_group_elements T' = rec_group_elements T;
  ap_depth : core_type_to_depth T' = core_type_to_depth T;
  ap_canonical : canonical_rec_groups T' = canonical_rec_groups T;
  ap_wf : snap_wf (core_types T) /\ snap_wf (core_type_to_rec_group T) /\ snap_wf (core_type_to_supertype T) ->
    snap_wf (core_types T') /\ snap_wf (core_type_to_rec_group T') /\ snap_wf (core_type_to_supertype T');
}.

Lemma push_types_of_group_ok start group ts T :
  Forall (fun t => rsafe (resolve_supertype start t) (fun _ => True)
    /\ rsafe (remap_indices (resolve_index start) t) (fun _ => True)) ts ->
  rsafe (push_types_of_group start group ts T) (appended start group ts T).
Proof.
  intros Hts. revert T. induction Hts as [|t ts [Hs Ht] Hts IH]; intros T; cbn [push_types_of_group].
  { apply rsafe_ok. split; cbn [length replicate]; rewrite ?app_nil_r; try done; exists []; by rewrite app_nil_r. }
  apply rsafe_bind. unfold push_type_of_group.
  destruct (resolve_supertype start t) as [s| |] eqn:Es; cbn [mbind result_bind]; [|done..].
  destruct (remap_indices (resolve_index start) t) as [t'| |] eqn:Et; cbn [mbind result_bind]; [|done..].
  apply rsafe_ok. set (T1 := mkTypeList _ _ _ _ _ _). eapply rsafe_mono; [apply (IH T1)|].
  intros T' [(ts' & Ets & Hts') (ss & Ess & Hss) Hg He Hd Hc Hw]. split; [..|done|done|done|done].
  - exists (t' :: ts'). split; [|by constructor]. rewrite Ets. unfold tys, T1. cbn [core_types].
    by rewrite snapshot_push_items, <- app_assoc.
  - exists (s :: ss). split; [|by constructor]. rewrite Ess. unfold sups, T1. cbn [core_type_to_supertype].
    by rewrite snapshot_push_items, <- app_assoc.
  - rewrite Hg. unfold grps, T1. cbn [core_type_to_rec_group length replicate].
    by rewrite snapshot_push_items, <- app_assoc.
Qed.

(** ** Resolving *)

Section resolve.
Context (T : TypeList) (len : Z).
Local Abbreviation start := (ntypes T).
Hypothesis Hlen : 0 <= len.
Hypothesis Hfit : start + len <= 2 ^ 20.

(** The identifiers that are valid once the group is appended. *)
Definition is_id_below (n : Z) (u : UnpackedIndex) : Prop := exists id, u = Id_ id /\ 0 <= id < n.

Lemma resolve_index_ok p :
  idx_over (canon_idx T len) p -> rsafe (resolve_index start p) (idx_over (is_id_below (start + len))).
Proof.
  intros Hp. destruct (idx_over_unpack _ _ Hp) as (u & Hu & Hv & Hun & _ & Hpk). unfold resolve_index.
  rewrite Hun. cbn [expect mbind result_bind]. destruct Hu as [(id & -> & H0 & H1)|(r & -> & Hr)].
  - exists (Id_ id). split_and!; [exists id; split; [done|lia]|done..].
  - assert (0 <= start) by (unfold ntypes; lia). unfold add_u32. rewrite to_u32_ok by lia.
    cbn [mbind result_bind].
    assert (Hval : unpacked_valid (Id_ (start + r))) by (unfold unpacked_valid, in_u; cbn [unpacked_payload]; lia).
    destruct (unpack_pack _ Hval) as (p' & Ep & _). rewrite Ep. cbn.
    exists (Id_ (start + r)). split_and!; [|done..]. exists (start + r). split; [done|lia].
Qed.

(** The supertype of a type that was read is none, or comes before it. *)
Lemma resolve_supertype_ok local t :
  0 <= local <= len -> canon_type T len local t ->
  rsafe (resolve_supertype start t) (fun s => forall j, s = Some j -> 0 <= j < start + local).
Proof.
  intros Hl [_ _ Hb]. unfold resolve_supertype. destruct (supertype_idx t) as [p|] eqn:Ep; [|by apply rsafe_ok].
  destruct (Hb p Ep) as (u & -> & Hu). cbn [expect mbind result_bind].
  destruct Hu as [(id & -> & H0 & H1)|(r & -> & Hr)].
  - apply rsafe_ok. intros j [= <-]. lia.
  - assert (0 <= start) by (unfold ntypes; lia). unfold add_u32. rewrite to_u32_ok by lia.
    cbn [mbind result_bind]. apply rsafe_ok. intros j [= <-]. lia.
Qed.
End resolve.

Definition sup_id_of (t : SubType) : option CoreTypeId := p ← supertype_idx t; packed_as_core_type_id p.

Lemma as_core_type_id_unpack p id : unpack p = Some (Id_ id) -> packed_as_core_type_id p = Some id.
Proof.
  unfold unpack, packed_as_core_type_id. destruct (packed_kind p =? MODULE_KIND) eqn:E1; [done|].
  destruct (packed_kind p =? REC_GROUP_KIND); [done|]. destruct (packed_kind p =? ID_KIND); [|done]. by intros [= <-].
Qed.

(** The resolved type names the supertype that is recorded. *)
Lemma resolved_super T len t t' s :
  0 <= len -> ntypes T + len <= 2 ^ 20 -> super_over (canon_idx T len) t ->
  resolve_supertype (ntypes T) t = Ok s -> remap_indices (resolve_index (ntypes T)) t = Ok t' ->
  s = sup_id_of t'.
Proof.
  intros Hlen Hfit Ho Hs Ht%remap_indices_super. unfold sup_id_of, resolve_supertype, super_over in *.
  destruct (supertype_idx t) as [p|]; [|rewrite Ht; by injection Hs as <-].
  destruct Ht as (p' & Hp' & ->). cbn [mbind option_bind]. unfold resolve_index in Hp'.
  destruct (idx_over_unpack _ _ Ho) as (u & Hu & Hv & Hun & _). rewrite Hun in *.
  cbn [expect mbind result_bind] in *. destruct Hu as [(id & -> & _)|(r & -> & Hr)].
  - injection Hs as <-. injection Hp' as <-. symmetry. by apply as_core_type_id_unpack.
  - assert (0 <= ntypes T) by (unfold ntypes; lia). unfold add_u32 in *. rewrite to_u32_ok in * by lia.
    cbn [mbind result_bind] in *. injection Hs as <-.
    assert (Hval : unpacked_valid (Id_ (ntypes T + r))) by (unfold unpacked_valid, in_u; cbn [unpacked_payload]; lia).
    destruct (unpack_pack _ Hval) as (q & Eq & _ & Hq). rewrite Eq in Hp'. injection Hp' as <-.
    symmetry. by apply as_core_type_id_unpack.
Qed.

(** ** The types of a new group *)

(** What is known of a type of a group before it is checked. *)
Definition pre (f : WasmFeatures) (T : TypeList) (i : nat) (t : SubType) : Prop :=
  shape_ok t
  /\ if needs_type_canonicalization f then sub_over (is_id T) t /\ sups T !! i = Some (sup_id_of t)
     else sub_over is_module_index t /\ sups T !! i = Some None.

(** A group as it was read is left alone. *)
Lemma resolve_index_module start p :
  idx_over is_module_index p -> rsafe (resolve_index start p) (idx_over is_module_index).
Proof.
  intros Hp. destruct (idx_over_unpack _ _ Hp) as (u & (i & ->) & _ & Hu & _). unfold resolve_index. by rewrite Hu.
Qed.

Lemma resolve_supertype_module start t :
  super_over is_module_index t -> resolve_supertype start t = Ok None.
Proof.
  unfold super_over, resolve_supertype. destruct (supertype_idx t) as [p|]; [|done]. intros Hp.
  destruct (idx_over_unpack _ _ Hp) as (u & (i & ->) & _ & Hu & _). by rewrite Hu.
Qed.

Section new_group.
Context (f : WasmFeatures) (T : TypeList) (g : RecGroup).
Local Abbreviation start := (ntypes T).
Local Abbreviation len := (Z.of_nat (group_len g)).
Hypothesis HT : lists_wf T.
Hypothesis Hg : group_pre f T g.
Hypothesis Hfit : start + len <= 2 ^ 20.

(** Resolving a type of the group succeeds. *)
Lemma resolve_ok l t :
  into_types g !! l = Some t ->
  rsafe (resolve_supertype start t) (fun s => forall j, s = Some j -> 0 <= j < start + Z.of_nat l)
  /\ rsafe (remap_indices (resolve_index start) t) (fun t' => shape_ok t'
       /\ if needs_type_canonicalization f then sub_over (is_id_below (start + len)) t'
            /\ forall s, resolve_supertype start t = Ok s -> s = sup_id_of t'
          else sub_over is_module_index t' /\ resolve_supertype start t = Ok None).
Proof.
  intros Hl. apply lookup_lt_Some in Hl as Hlt. unfold group_pre in Hg.
  destruct (needs_type_canonicalization f).
  - pose proof (Hg l t Hl) as Hc. split.
    { apply (resolve_supertype_ok T len); [exact Hfit|unfold group_len; lia|done]. }
    destruct (Hc) as [Ho Hs _].
    pose proof (remap_indices_over (canon_idx T len) (is_id_below (start + len)) (resolve_index start)
      (fun p => resolve_index_ok T len (Nat2Z.is_nonneg _) Hfit p) t Ho Hs) as Hr.
    destruct (remap_indices (resolve_index start) t) as [t'| |] eqn:Et; [|done..].
    destruct Hr as (Ho' & Hs' & _). cbn. split_and!; [done..|]. intros s Es.
    apply (resolved_super T len t t' s); [lia|exact Hfit|apply Ho|done..].
  - destruct Hg as [Hone Hall]. eapply Forall_lookup_1 in Hall as [Ho Hs]; [|done].
    pose proof (resolve_supertype_module start t (proj2 Ho)) as Es. split; [by rewrite Es|].
    eapply rsafe_mono; [apply (remap_indices_over is_module_index is_module_index);
      [intros; by apply resolve_index_module|done..]|]. by intros t' (Ho' & Hs' & _).
Qed.

(** The lists after the types were appended. *)
Section appended.
Context (group : RecGroupId) (T1 : TypeList) (Ha : appended start group (into_types g) T T1).
Let T2 := mkTypeList (core_types T1) (core_type_to_rec_group T1) (core_type_to_supertype T1)
            (core_type_to_depth T1) (snapshot_push (start, start + len) (rec_group_elements T1))
            (canonical_rec_groups T1).

Lemma appended_length : length (tys T1) = (length (tys T) + group_len g)%nat.
Proof. destruct Ha as [(ts & -> & Hts) _ _ _ _ _ _]. by rewrite length_app, <- (Forall2_length _ _ _ Hts). Qed.

Lemma appended_elems : elems T2 = elems T ++ [(start, start + len)].
Proof. unfold elems, T2. cbn [rec_group_elements]. by rewrite snapshot_push_items, (ap_rec_groups _ _ _ _ _ Ha). Qed.

Lemma appended_ntypes : ntypes T2 = start + len.
Proof. unfold ntypes. change (tys T2) with (tys T1). rewrite appended_length. lia. Qed.

(** A new type, the type it comes from, and the supertype that is recorded. *)
Lemma appended_type l t' :
  tys T1 !! (length (tys T) + l)%nat = Some t' ->
  exists t s, into_types g !! l = Some t /\ remap_indices (resolve_index start) t = Ok t'
    /\ resolve_supertype start t = Ok s /\ sups T1 !! (length (tys T) + l)%nat = Some s.
Proof.
  destruct Ha as [(ts & -> & Hts) (ss & -> & Hss) _ _ _ _ _]. rewrite lookup_app_after. intros Hl.
  destruct (Forall2_lookup_r _ _ _ _ _ Hts Hl) as (t & Ht & Hr).
  destruct (Forall2_lookup_l _ _ _ _ _ Hss Ht) as (s & Hs & Hrs). exists t, s. split_and!; [done..|].
  by rewrite <- (lw_supers_len _ HT), lookup_app_after.
Qed.

Lemma appended_grows : grows T T2.
Proof.
  destruct Ha as [(ts & Ets & _) (ss & Ess & _) Egr _ _ _ _].
  split; [change (tys T2) with (tys T1)|change (grps T2) with (grps T1)|change (sups T2) with (sups T1)|
          rewrite appended_elems]; rewrite ?Ets, ?Egr, ?Ess; by eexists.
Qed.

Lemma appended_lists : lists_wf T2.
Proof.
  destruct (ap_wf _ _ _ _ _ Ha) as (W1 & W2 & W3); [by destruct HT|]. pose proof appended_length as El.
  destruct (Ha) as [_ (ss & Ess & Hss) Egr Eel _ _ _].
  assert (Hsl : length (sups T1) = length (tys T1)).
  { rewrite Ess, length_app, <- (Forall2_length _ _ _ Hss), (lw_supers_len _ HT), El. done. }
  split; [exact W1|exact W2|exact W3| | |exact Hsl| |].
  - unfold T2. cbn [rec_group_elements]. apply snapshot_push_wf. rewrite Eel. apply HT.
  - change (grps T2) with (grps T1). change (tys T2) with (tys T1).
    rewrite Egr, length_app, length_replicate, (lw_groups_len _ HT), El. done.
  - intros i j. change (sups T2) with (sups T1). intros Hi.
    destruct (decide (i < length (tys T))%nat) as [Hlt|Hge].
    { assert (Hlt' : (i < length (sups T))%nat) by (by rewrite (lw_supers_len _ HT)).
      rewrite Ess, (lookup_app_l _ _ _ Hlt') in Hi. by apply (lw_super _ HT). }
    assert (exists l, i = (length (tys T) + l)%nat) as [l ->] by (exists (i - length (tys T))%nat; lia).
    destruct (lookup_lt_is_Some_2 (tys T1) (length (tys T) + l)%nat) as [t' Ht'];
      [rewrite <- Hsl; by eapply lookup_lt_Some|].
    destruct (appended_type l t' Ht') as (t & s & Ht & _ & Hs & Es).
    assert (s = Some j) as -> by (apply (inj Some); exact (eq_trans (eq_sym Es) Hi)).
    destruct (resolve_ok l t Ht) as [Hr _]. rewrite Hs in Hr. specialize (Hr j eq_refl). unfold ntypes in Hr. lia.
  - intros k a b. rewrite appended_elems, appended_ntypes. intros [Hk|[_ Hk]]%lookup_app_Some.
    + apply (lw_range _ HT) in Hk. lia.
    + apply list_lookup_singleton_Some in Hk as [_ [= <- <-]]. unfold ntypes. lia.
Qed.

Lemma appended_pre i t : (length (tys T) <= i)%nat -> tys T2 !! i = Some t -> pre f T2 i t.
Proof.
  intros Hi Ht. change (tys T2) with (tys T1) in Ht. unfold pre. change (sups T2) with (sups T1).
  replace i with (length (tys T) + (i - length (tys T)))%nat in * by lia.
  destruct (appended_type _ _ Ht) as (t0 & s & Ht0 & Hr & Hs & Es).
  destruct (resolve_ok _ _ Ht0) as [_ H]. rewrite Hr in H. cbn in H. destruct H as [Hsh H]. split; [done|].
  rewrite Es. destruct (needs_type_canonicalization f).
  - destruct H as [Ho Hsup]. split; [|by rewrite (Hsup s Hs)].
    eapply sub_over_mono; [|done]. intros u (id & -> & Hid). exists id. split; [done|].
    unfold valid_id. by rewrite appended_ntypes.
  - destruct H as [Ho H]. split; [done|]. congruence.
Qed.

Lemma appended_resolved : exists ts, resolved start g ts /\ types_from T2 start ts.
Proof.
  destruct (ap_types _ _ _ _ _ Ha) as (ts & Ets & Hts). exists ts. split; [done|]. intros n t Hn.
  change (tys T2) with (tys T1). rewrite Ets. unfold ntypes. by rewrite Nat2Z.id, lookup_app_after.
Qed.
End appended.

Lemma intern_new_group_ok group :
  rsafe (intern_new_group group g T) (fun T' =>
    lists_wf T' /\ grows T T' /\ length (tys T') = (length (tys T) + group_len g)%nat
    /\ elems T' = elems T ++ [(start, start + len)]
    /\ core_type_to_depth T' = core_type_to_depth T /\ canonical_rec_groups T' = canonical_rec_groups T
    /\ (forall i t, (length (tys T) <= i)%nat -> tys T' !! i = Some t -> pre f T' i t)
    /\ exists ts, resolved start g ts /\ types_from T' start ts).
Proof.
  unfold intern_new_group. rewrite snapshot_len_items by apply HT. change (snap_items (core_types T)) with (tys T).
  fold (ntypes T). rewrite to_u32_ok by lia. cbn [mbind result_bind]. apply rsafe_bind.
  eapply rsafe_mono; [apply push_types_of_group_ok|].
  { apply Forall_lookup_2. intros l t Hl. destruct (resolve_ok l t Hl) as [H1 H2].
    split; (eapply rsafe_mono; [done|done]). }
  intros T1 Ha. pose proof (appended_length group T1 Ha) as El.
  rewrite snapshot_len_items by (apply (ap_wf _ _ _ _ _ Ha); by destruct HT).
  change (snap_items (core_types T1)) with (tys T1). rewrite El.
  replace (Z.of_nat (length (tys T) + group_len g)) with (start + len) by (unfold ntypes; lia).
  rewrite to_u32_ok by lia. cbn [mbind result_bind]. apply rsafe_ok. split_and!.
  - by apply (appended_lists group).
  - by apply (appended_grows group).
  - done.
  - by apply (appended_elems group).
  - apply Ha.
  - apply Ha.
  - by apply (appended_pre group).
  - by apply (appended_resolved group).
Qed.
End new_group.

(** ** Interning *)

Lemma types_from_grows T T' start ts : grows T T' -> types_from T start ts -> types_from T' start ts.
Proof. intros G H n t Hn. eapply grows_lookup; [done|by apply H]. Qed.

Lemma entry_ok_grows T T' e : grows T T' -> entry_ok T e -> entry_ok T' e.
Proof.
  intros G (start & ts & H0 & He & Hr & Ht). exists start, ts. split_and!; [done| |done|by eapply types_from_grows].
  eapply prefix_lookup_Some; [done|apply G].
Qed.

Lemma find_rec_group_spec g gm :
  match find_rec_group g gm with
  | Some id => exists g', (g', id) ∈ gm /\ into_types g' = into_types g
  | None => into_types g ∉ map (fun e => into_types (fst e)) gm
  end.
Proof.
  induction gm as [|[k id] gm IH]; cbn [find_rec_group map]; [by intros ?%not_elem_of_nil|].
  unfold rec_group_eqb. destruct (bool_decide_reflect (into_types k = into_types g)) as [E|E].
  - exists k. split; [left|done].
  - destruct (find_rec_group g gm) as [id'|].
    + destruct IH as (g' & Hin & Eg). exists g'. split; [by right|done].
    + cbn [fst]. rewrite not_elem_of_cons. by split; [|].
Qed.

Lemma depths_ok_grows T T' k dm :
  grows T T' -> (k <= length (sups T))%nat -> depths_ok T k dm -> depths_ok T' k dm.
Proof.
  intros G Hk [Hkey Hd]. split; [done|]. intros i d o Hi Ho. apply (Hd i d o); [done|].
  assert (Hl : (i < k)%nat).
  { apply lookup_lt_Some in Hi. rewrite length_map in Hi. apply (f_equal length) in Hkey.
    rewrite length_map, length_seqZ in Hkey. lia. }
  destruct (lookup_lt_is_Some_2 (sups T) i) as [o' Ho']; [lia|].
  rewrite (grows_sups T T' G _ _ Ho') in Ho. by injection Ho as <-.
Qed.

(** Checked types stay so when types are appended. *)
Lemma checked_prefix T T' k :
  lists_wf T -> lists_wf T' -> grows T T' -> (k <= length (tys T))%nat ->
  (forall i t, (i < k)%nat -> tys T !! i = Some t -> checked T i t) ->
  forall i t, (i < k)%nat -> tys T' !! i = Some t -> checked T' i t.
Proof.
  intros HT HT' G Hk Hc i t Hi Ht. apply (checked_grows T); [done..|]. apply Hc; [done|].
  destruct (lookup_lt_is_Some_2 (tys T) i) as [t' Ht']; [lia|]. rewrite (grows_lookup T T' G _ _ Ht') in Ht.
  by injection Ht as <-.
Qed.

(** The invariant of the map, with a new group in it or not. *)
Lemma groups_ok_new T T' gm g group (canon : bool) :
  groups_ok T gm -> grows T T' -> group = Z.of_nat (length (elems T)) ->
  length (tys T') = (length (tys T) + group_len g)%nat ->
  elems T' = elems T ++ [(ntypes T, ntypes T + Z.of_nat (group_len g))] ->
  (exists ts, resolved (ntypes T) g ts /\ types_from T' (ntypes T) ts) ->
  (if canon then find_rec_group g gm = None else group_len g = 1%nat) ->
  groups_ok T' (if canon then gm ++ [(g, group)] else gm).
Proof.
  intros [He Hk Hi Hc] G -> El Ee (ts & Hr & Hf) Hnew.
  assert (He' : Forall (entry_ok T') gm) by (eapply Forall_impl; [done|]; intros; by eapply entry_ok_grows).
  destruct canon.
  - pose proof (find_rec_group_spec g gm) as Hfind. rewrite Hnew in Hfind. split.
    + apply Forall_app. split; [done|]. constructor; [|done]. exists (ntypes T), ts. cbn [fst snd].
      split_and!; [lia| |done..]. by rewrite Ee, Nat2Z.id, list_lookup_middle.
    + rewrite map_app. apply NoDup_app. split_and!; [done| |apply NoDup_singleton].
      intros x Hx ->%list_elem_of_singleton. done.
    + rewrite map_app. apply NoDup_app. split_and!; [done| |apply NoDup_singleton].
      intros x Hx ->%list_elem_of_singleton. apply list_elem_of_fmap in Hx as ([k id] & Eid & Hin).
      eapply Forall_forall in He; [|done]. destruct He as (? & ? & _ & Hl & _). cbn [fst snd] in *. subst id.
      rewrite Nat2Z.id in Hl. apply lookup_lt_Some in Hl. exact (Nat.lt_irrefl _ Hl).
    + rewrite Ee, length_app, filter_app, length_app. cbn [length fst].
      unfold group_len in El. rewrite filter_cons. cbn [fst].
      destruct (decide (into_types g = [])); [cbn; lia|]. destruct (into_types g); [done|]. cbn in *. lia.
  - split; [done..|]. rewrite Ee, length_app. cbn. lia.
Qed.

(** The outcome of interning [g]. *)
Definition interned (f : WasmFeatures) (g : RecGroup) (T : TypeList) (x : (bool * RecGroupId) * TypeList) : Prop :=
  let '((is_new, id), T') := x in
  exists start, rec_group_at T' id = Some (start, start + Z.of_nat (group_len g))
    /\ 0 <= start /\ start + Z.of_nat (group_len g) <= ntypes T'
    /\ if is_new then
         start = ntypes T /\ alloc_wf (length (tys T)) T' /\ grows T T'
         /\ length (tys T') = (length (tys T) + group_len g)%nat
         /\ forall i t, (length (tys T) <= i)%nat -> tys T' !! i = Some t -> pre f T' i t
       else T' = T.

(** An entry of the map as it is looked up. *)
Lemma entry_at T e :
  lists_wf T -> entry_ok T e ->
  exists start, rec_group_at T (snd e) = Some (start, start + Z.of_nat (group_len (fst e)))
    /\ 0 <= start /\ start + Z.of_nat (group_len (fst e)) <= ntypes T.
Proof.
  intros HT (start & ts & H0 & He & _). exists start. rewrite rec_group_at_items by done. split; [done|].
  apply (lw_range _ HT) in He. lia.
Qed.

Lemma intern_new_interned f T g T1 gm (canon : bool) :
  types_wf T -> canonical_rec_groups T = Some gm ->
  lists_wf T1 -> grows T T1 -> length (tys T1) = (length (tys T) + group_len g)%nat ->
  elems T1 = elems T ++ [(ntypes T, ntypes T + Z.of_nat (group_len g))] ->
  core_type_to_depth T1 = core_type_to_depth T ->
  canonical_rec_groups T1 = Some (if canon then gm ++ [(g, Z.of_nat (length (elems T)))] else gm) ->
  (forall i t, (length (tys T) <= i)%nat -> tys T1 !! i = Some t -> pre f T1 i t) ->
  (exists ts, resolved (ntypes T) g ts /\ types_from T1 (ntypes T) ts) ->
  (if canon then find_rec_group g gm = None else group_len g = 1%nat) ->
  interned f g T ((true, Z.of_nat (length (elems T))), T1).
Proof.
  intros Hwf Egm HT1 G El Ee Ed Ec Hpre Hres Hnew. pose proof (aw_lists _ _ Hwf) as HT. exists (ntypes T).
  split_and!; [|unfold ntypes; lia|unfold ntypes; lia|done| |done..].
  - rewrite rec_group_at_items by (done || lia). by rewrite Ee, Nat2Z.id, list_lookup_middle.
  - split; [done|..].
    + apply (checked_prefix T T1); [done..|]. apply Hwf.
    + destruct (aw_depth _ _ Hwf) as (dm & Edm & Hdm). exists dm. rewrite Ed. split; [done|].
      apply (depths_ok_grows T); [done| |done]. by rewrite (lw_supers_len _ HT).
    + destruct (aw_groups _ _ Hwf) as (gm' & Egm' & Hgm). rewrite Egm in Egm'. injection Egm' as <-.
      eexists. split; [done|]. by apply (groups_ok_new T).
Qed.

Lemma intern_canonical_rec_group_ok f T g :
  types_wf T -> group_pre f T g -> ntypes T + Z.of_nat (group_len g) <= 2 ^ 20 ->
  rsafe (intern_canonical_rec_group (needs_type_canonicalization f) g T) (interned f g T).
Proof.
  intros Hwf Hg Hfit. pose proof (aw_lists _ _ Hwf) as HT. destruct (aw_groups _ _ Hwf) as (gm & Egm & Hgm).
  unfold intern_canonical_rec_group. rewrite snapshot_len_items by apply HT.
  change (snap_items (rec_group_elements T)) with (elems T).
  rewrite to_u32_ok by (pose proof (elems_bound T gm Hgm); lia). cbn [mbind result_bind].
  destruct (needs_type_canonicalization f) eqn:Ef.
  - rewrite Egm. cbn [expect mbind result_bind]. pose proof (find_rec_group_spec g gm) as Hfind.
    destruct (find_rec_group g gm) as [id|] eqn:Efind.
    + apply rsafe_ok. destruct Hfind as (g' & Hin & Eg). pose proof (go_entries _ _ Hgm) as He.
      eapply Forall_forall in He; [|done]. destruct (entry_at T _ HT He) as (start & H1 & H2 & H3).
      cbn [fst snd] in *. unfold group_len in *. rewrite Eg in *. by exists start.
    + set (T0 := mkTypeList _ _ _ _ _ _). assert (HT0 : lists_wf T0) by by destruct HT.
      assert (Hg0 : group_pre f T0 g).
      { unfold group_pre in *. rewrite Ef in *. intros l t Hl. by destruct (Hg l t Hl). }
      apply rsafe_bind. eapply rsafe_mono; [by apply (intern_new_group_ok f T0 g)|].
      intros T1 (L & G & El & Ee & Ed & Ec & Hpre & Hres). apply rsafe_ok.
      apply (intern_new_interned f T g T1 gm true); try done. by destruct G.
  - apply rsafe_bind. eapply rsafe_mono; [by apply (intern_new_group_ok f T g)|].
    intros T1 (L & G & El & Ee & Ed & Ec & Hpre & Hres). apply rsafe_ok.
    apply (intern_new_interned f T g T1 gm false); try done; [by rewrite Ec|].
    unfold group_pre in Hg. rewrite Ef in Hg. apply Hg.
Qed.
