(* ===== verification/AddTypesSpec.v ===== *)
(** Checking the types of a group and adding them to a module. *)

From Stdlib Require Import ZArith Lia String Relations.
From stdpp Require Import prelude relations.
From S2P Require Import Prelude StateLogic BinaryReader Types TypesSpec Operands CompositeTypes Items.
From S2P Require Import CompositeSpec ValidatorState TypeList Canonical TypeListSpec TypeMatch InternSpec.

Local Open Scope Z_scope.

(** The features that canonicalization waits for. *)
Lemma no_canonicalization f :
  needs_type_canonicalization f = false ->
  shared_everything_threads f = false /\ function_references f = false /\ gc f = false /\ stack_switching f = false.
Proof.
  unfold needs_type_canonicalization. intros H. repeat (apply orb_false_iff in H as [H ?]). done.
Qed.

(** ** Features and value types *)

Lemma value_type_features_over P f t off :
  vt_over P t ->
  rsafe (at_offset off (check_value_type_features f t)) (fun _ =>
    function_references f || gc f = false -> forall Q, vt_over Q t).
Proof.
  destruct t as [| | | | |r]; cbn [check_value_type_features vt_over];
    try (intros _; by repeat case_match).
  intros Hr. destruct (rt_over_heap_type _ _ Hr) as (h & Hh & Ho & Hn). unfold check_ref_type_features. rewrite Hh.
  destruct (negb (reference_types f)); [done|]. destruct h as [s a|u].
  - assert (HQ : forall Q, rt_over Q r) by (intros Q; by exists (is_nullable r), (Abstract s a)).
    repeat case_match; try done; intros _; exact HQ.
  - destruct (function_references f || gc f); done.
Qed.

Section shared.
Context (T : TypeList) (HT : lists_wf T).

Lemma reftype_is_shared_some r : rt_over (is_id T) r -> is_Some (reftype_is_shared T r).
Proof.
  intros Hr. destruct (rt_over_heap_type _ _ Hr) as (h & Hh & Ho & _). unfold reftype_is_shared. rewrite Hh.
  destruct h as [s a|u]; [by eexists|]. destruct Ho as [(id & -> & Hid) _]. cbn.
  destruct (valid_type_at T HT id Hid) as (t & -> & _). by eexists.
Qed.

Lemma valtype_is_shared_some t : vt_over (is_id T) t -> is_Some (valtype_is_shared T t).
Proof. destruct t; try by eexists. apply reftype_is_shared_some. Qed.

Lemma top_type_some h : ht_over (is_id T) h -> exists s t, types_top_type T h = Some (Abstract s t).
Proof.
  destruct h as [s a|u]; [by do 2 eexists|]. intros [(id & -> & Hid) _]. cbn.
  destruct (valid_type_at T HT id Hid) as (t & -> & _). cbn. destruct (inner (composite_type_of t)); by do 2 eexists.
Qed.
End shared.

(** ** Composite types *)

Section check.
Context (f : WasmFeatures) (T : TypeList) (HT : lists_wf T) (P : UnpackedIndex -> Prop) (shared : bool) (off : Z).
Hypothesis HP : shared = true -> forall t, vt_over P t -> vt_over (is_id T) t.

(** What a member that was checked is. *)
Definition member_ok (t : ValType) : Prop :=
  (shared = true -> valtype_is_shared T t = Some true)
  /\ (function_references f || gc f = false -> forall Q, vt_over Q t).

Lemma check_member_ok t : vt_over P t -> rsafe (check_member f T off shared t) (fun _ => member_ok t).
Proof.
  intros Ht. unfold check_member. apply rsafe_bind.
  eapply rsafe_mono; [by eapply (value_type_features_over P)|]. intros [] Hf. unfold member_ok.
  destruct shared; [|by apply rsafe_ok].
  destruct (valtype_is_shared_some T HT t) as [b ->]; [by apply HP|]. cbn [expect mbind result_bind].
  by destruct b.
Qed.

Lemma check_members_ok ts : Forall (vt_over P) ts ->
  rsafe (check_members f T off shared ts) (fun _ => Forall member_ok ts).
Proof.
  induction 1 as [|t ts Ht Hts IH]; cbn [check_members]; [by apply rsafe_ok|]. apply rsafe_bind.
  eapply rsafe_mono; [by apply check_member_ok|]. intros [] Hm.
  eapply rsafe_mono; [apply IH|]. intros [] Hms. by constructor.
Qed.

Definition field_members (ft : FieldType) : list ValType :=
  match element_type ft with SVal t => [t] | _ => [] end.

Lemma check_storage_ok ft : ft_over P ft ->
  rsafe (check_storage f T off shared (element_type ft)) (fun _ => Forall member_ok (field_members ft)).
Proof.
  unfold ft_over, check_storage, field_members. destruct (element_type ft) as [| |t]; intros Ht; try by constructor.
  eapply rsafe_mono; [by apply check_member_ok|]. intros [] Hm. by constructor.
Qed.

Lemma check_fields_ok fs : Forall (ft_over P) fs ->
  rsafe (check_fields f T off shared fs) (fun _ => Forall member_ok (fs ≫= field_members)).
Proof.
  induction 1 as [|ft fs Hf Hfs IH]; cbn [check_fields]; [by constructor|]. apply rsafe_bind.
  eapply rsafe_mono; [by apply check_storage_ok|]. intros [] Hm.
  eapply rsafe_mono; [apply IH|]. intros [] Hms. cbn. by apply Forall_app.
Qed.
End check.

(** A composite type without the features that concrete types need has no index. *)
Lemma members_over Q c :
  (forall x, inner c <> CCont x) -> Forall (vt_over Q) (members c) ->
  match inner c with CFunc ty => func_params ty ++ func_results ty = params_results ty | _ => True end ->
  inner_over Q (inner c).
Proof.
  intros Hc Hm Hf. unfold members in Hm. destruct (inner c) as [ty|a|s|x]; cbn in *.
  - by rewrite Hf in Hm.
  - unfold ft_over. destruct (element_type (array_element a)); try done. by inversion Hm.
  - clear -Hm. induction (fields s) as [|ft fs IH]; [done|]. cbn in Hm. apply Forall_app in Hm as [Hm Hms].
    constructor; [|by apply IH]. unfold ft_over. destruct (element_type ft); try done. by inversion Hm.
  - by destruct (Hc x).
Qed.

Lemma check_composite_type_ok f T i t off :
  lists_wf T -> pre f T i t ->
  rsafe (check_composite_type (composite_type_of t) f T off) (fun _ =>
    inner_over (is_id T) (inner (composite_type_of t))
    /\ (ct_shared (composite_type_of t) = true ->
          Forall (fun m => valtype_is_shared T m = Some true) (members (composite_type_of t)))
    /\ forall c, inner (composite_type_of t) = CCont c ->
         exists id u g, unpack (cont_index c) = Some (Id_ id) /\ type_at T id = Some u
           /\ inner (composite_type_of u) = CFunc g).
Proof.
  intros HT [Hsh Hpre]. set (c := composite_type_of t) in *. set (P := if needs_type_canonicalization f then is_id T else is_module_index).
  assert (Ho : inner_over P (inner c)) by (unfold P; destruct (needs_type_canonicalization f); apply Hpre).
  unfold check_composite_type. apply rsafe_check. intros Hs.
  assert (HP : ct_shared c = true -> forall v, vt_over P v -> vt_over (is_id T) v).
  { intros E v. unfold P. destruct (needs_type_canonicalization f) eqn:Ef; [done|].
    destruct (no_canonicalization f Ef) as [E' _]. by rewrite E', E in Hs. }
  assert (Hend : Forall (member_ok f T (ct_shared c)) (members c) -> (forall x, inner c <> CCont x) ->
    inner_over (is_id T) (inner c)
    /\ (ct_shared c = true -> Forall (fun m => valtype_is_shared T m = Some true) (members c))
    /\ forall x, inner c = CCont x -> exists id u g, unpack (cont_index x) = Some (Id_ id)
         /\ type_at T id = Some u /\ inner (composite_type_of u) = CFunc g).
  { intros Hm Hn. split_and!; [| |by intros x Ex; destruct (Hn x)].
    - unfold P in Ho. destruct (needs_type_canonicalization f) eqn:Ef; [done|].
      destruct (no_canonicalization f Ef) as (_ & E1 & E2 & _). apply members_over; [done| |].
      + eapply Forall_impl; [exact Hm|]. intros v [_ Hv]. apply Hv. by rewrite E1, E2.
      + destruct (inner c); try done. apply take_drop.
    - intros E. eapply Forall_impl; [exact Hm|]. by intros v [Hv _]; apply Hv. }
  unfold members in Hend |- *. destruct (inner c) as [ty|a|s|x] eqn:Ei; cbn [inner_over] in Ho.
  - apply rsafe_bind. eapply rsafe_mono; [apply (check_members_ok f T HT P (ct_shared c) off HP)|].
    { unfold func_params, func_results. by rewrite take_drop. }
    intros [] Hm. apply rsafe_check. intros _. apply rsafe_ok. by apply Hend.
  - do 2 (apply rsafe_check; intros _).
    eapply rsafe_mono; [by apply (check_storage_ok f T HT P (ct_shared c) off HP)|]. intros [] Hm. by apply Hend.
  - do 2 (apply rsafe_check; intros _).
    eapply rsafe_mono; [by apply (check_fields_ok f T HT P (ct_shared c) off HP)|]. intros [] Hm. by apply Hend.
  - apply rsafe_check. intros E1%negb_false_iff. apply rsafe_check. intros _. unfold P in Ho.
    destruct (needs_type_canonicalization f) eqn:Ef.
    2: { destruct (no_canonicalization f Ef) as (_ & _ & _ & E). congruence. }
    destruct (idx_over_unpack _ _ Ho) as (u & (id & -> & Hid) & _ & Hu & _).
    rewrite (as_core_type_id_unpack _ _ Hu). cbn [expect mbind result_bind].
    destruct (valid_type_at T HT id Hid) as (v & Hv & _). rewrite Hv. cbn [expect mbind result_bind].
    destruct (inner (composite_type_of v)) as [g|?|?|?] eqn:Ev; try done. apply rsafe_ok.
    split_and!; [done|by constructor|]. intros y [= <-]. by exists id, v, g.
Qed.

(** ** Subtypes *)

Lemma depth_lookup T k dm j :
  core_type_to_depth T = Some dm -> depths_ok T k dm -> (k <= length (sups T))%nat -> 0 <= j < Z.of_nat k ->
  exists d, get_subtyping_depth T j = Some d /\ map snd dm !! Z.to_nat j = Some d
    /\ 0 <= d <= MAX_WASM_SUBTYPING_DEPTH.
Proof.
  intros Ed [Hk Hd] Hl Hj. assert (Hlen : length dm = k).
  { apply (f_equal length) in Hk. rewrite length_map, length_seqZ in Hk. lia. }
  destruct (lookup_lt_is_Some_2 dm (Z.to_nat j)) as [[id d] Hx]; [lia|]. exists d.
  assert (Hs : map snd dm !! Z.to_nat j = Some d) by by rewrite (list_lookup_fmap snd), Hx.
  destruct (lookup_lt_is_Some_2 (sups T) (Z.to_nat j)) as [o Ho]; [lia|].
  unfold get_subtyping_depth. rewrite Ed. cbn [mbind option_bind]. rewrite Hx.
  split_and!; [done|done|..]; apply (Hd (Z.to_nat j) d o Hs Ho).
Qed.

Lemma types_match_ok T i j ti tj :
  lists_wf T -> type_at T i = Some ti -> type_at T j = Some tj ->
  sub_over (is_id T) ti -> sub_over (is_id T) tj ->
  exists r, types_match T i j = Some r /\ (r = true <-> Cmatch T (composite_type_of ti) (composite_type_of tj)).
Proof.
  intros HT Hi Hj [Hoi _] [Hoj _]. unfold types_match.
  destruct (valid_group T HT i) as [gi ->]; [apply valid_iff; by eauto|].
  destruct (valid_group T HT j) as [gj ->]; [apply valid_iff; by eauto|].
  rewrite Hi, Hj. cbn [mbind option_bind]. by apply matches_composite_spec.
Qed.

Lemma check_supertype_ok m rg k T t p f off :
  alloc_wf k T -> tys T !! k = Some t -> pre f T k t -> needs_type_canonicalization f = true ->
  supertype_idx t = Some p ->
  rsafe (check_supertype m rg (Z.of_nat k) T p off) (fun d =>
    1 <= d <= MAX_WASM_SUBTYPING_DEPTH
    /\ (exists j, sups T !! k = Some (Some j) /\ 0 <= j < Z.of_nat k /\ get_subtyping_depth T j = Some (d - 1))
    /\ exists j u, unpack p = Some (Id_ j) /\ sups T !! k = Some (Some j) /\ type_at T j = Some u
         /\ is_final u = false /\ Cmatch T (composite_type_of t) (composite_type_of u)).
Proof.
  intros Ha Ht [_ Hpre] Ef Ep. rewrite Ef in Hpre. destruct Hpre as [Ho Hs]. pose proof (aw_lists _ _ Ha) as HT.
  destruct (Ho) as [_ Hso]. unfold super_over in Hso. rewrite Ep in Hso.
  destruct (idx_over_unpack _ _ Hso) as (u & (j & -> & Hj) & _ & Hu & _).
  assert (Es : sups T !! k = Some (Some j)).
  { rewrite Hs. unfold sup_id_of. rewrite Ep. cbn [mbind option_bind]. by rewrite (as_core_type_id_unpack p j). }
  assert (Hjk : 0 <= j < Z.of_nat k) by by apply (lw_super _ HT).
  unfold check_supertype, at_packed_index. rewrite Hu. cbn [expect mbind result_bind].
  destruct (valid_type_at T HT j Hj) as (u & Hu' & Huj). rewrite Hu'. cbn [expect mbind result_bind].
  apply rsafe_check. intros Hfin.
  assert (Hk : type_at T (Z.of_nat k) = Some t) by (rewrite type_at_items by (done || lia); by rewrite Nat2Z.id).
  assert (Hou : sub_over (is_id T) u) by (apply (aw_checked _ _ Ha (Z.to_nat j)); [lia|done]).
  destruct (types_match_ok T _ _ _ _ HT Hk Hu' Ho Hou) as (r & -> & Hr). cbn [expect mbind result_bind].
  apply rsafe_check. intros ->%negb_false_iff. destruct (aw_depth _ _ Ha) as (dm & Ed & Hdm).
  assert (Hkl : (k <= length (sups T))%nat).
  { rewrite (lw_supers_len _ HT). apply lookup_lt_Some in Ht. lia. }
  destruct (depth_lookup T k dm j Ed Hdm Hkl Hjk) as (d & Hd & _ & Hb). rewrite Hd. cbn [expect mbind result_bind].
  unfold MAX_WASM_SUBTYPING_DEPTH in *. destruct (Z.ltb_spec 255 (d + 1)); [lia|].
  apply rsafe_check. intros Hmax%Z.ltb_ge. apply rsafe_ok. split_and!; [lia..| |].
  - exists j. split_and!; [done|lia..|]. by replace (d + 1 - 1) with d by lia.
  - exists j, u. split_and!; [done..|by apply Hr].
Qed.

Lemma index_map_insert_new k (dm : list (CoreTypeId * Z)) d :
  map fst dm = seqZ 0 (Z.of_nat k) -> index_map_insert (Z.of_nat k) d dm = dm ++ [(Z.of_nat k, d)].
Proof.
  intros Hk. assert (Hn : Z.of_nat k ∉ map fst dm) by (rewrite Hk, elem_of_seqZ; lia). clear Hk.
  induction dm as [|[i e] dm IH]; [done|]. cbn [map fst] in Hn. apply not_elem_of_cons in Hn as [Hne Hn].
  cbn [index_map_insert]. destruct (Z.eqb_spec i (Z.of_nat k)); [done|]. cbn. by rewrite IH.
Qed.

(** The depth of the next type. *)
Lemma depths_ok_snoc T k dm d (o : option CoreTypeId) :
  depths_ok T k dm -> sups T !! k = Some o -> 0 <= d <= MAX_WASM_SUBTYPING_DEPTH ->
  match o with Some j => 0 <= j < Z.of_nat k /\ map snd dm !! Z.to_nat j = Some (d - 1) | None => d = 0 end ->
  depths_ok T (S k) (dm ++ [(Z.of_nat k, d)]).
Proof.
  intros [Hk Hd] Ho Hb Hdep. assert (Hlen : length (map snd dm) = k).
  { apply (f_equal length) in Hk. rewrite !length_map, length_seqZ in *. lia. }
  split.
  - rewrite map_app, Hk. cbn [map fst]. rewrite Nat2Z.inj_succ. unfold Z.succ.
    by rewrite seqZ_app by lia.
  - intros i d' o'. rewrite map_app. cbn [map snd]. intros [Hi|[Hge Hi]]%lookup_app_Some Ho'.
    + destruct (Hd i d' o' Hi Ho') as [Hb' Hm]. split; [done|]. destruct o' as [j|]; [|done].
      by apply lookup_app_l_Some.
    + apply list_lookup_singleton_Some in Hi as [Hi <-]. assert (i = k) as -> by lia.
      rewrite Ho in Ho'. injection Ho' as <-. split; [done|]. destruct o as [j|]; [|done].
      apply lookup_app_l_Some, Hdep.
Qed.

(** The same lists, whatever the maps. *)
Lemma same_lists T T' :
  core_types T' = core_types T -> core_type_to_rec_group T' = core_type_to_rec_group T ->
  core_type_to_supertype T' = core_type_to_supertype T -> rec_group_elements T' = rec_group_elements T ->
  grows T T' /\ grows T' T /\ (lists_wf T -> lists_wf T').
Proof.
  intros E1 E2 E3 E4. unfold tys, grps, sups, elems in *. split_and!.
  - split; unfold tys, grps, sups, elems; by rewrite ?E1, ?E2, ?E3, ?E4.
  - split; unfold tys, grps, sups, elems; by rewrite ?E1, ?E2, ?E3, ?E4.
  - intros []. split; unfold tys, grps, sups, elems, ntypes in *; rewrite ?E1, ?E2, ?E3, ?E4; try done;
      unfold tys, ntypes; by rewrite ?E1.
Qed.

Lemma check_subtype_ok m rg k T t f off :
  alloc_wf k T -> tys T !! k = Some t -> pre f T k t ->
  rsafe (check_subtype m rg (Z.of_nat k) f T off) (fun T' =>
    alloc_wf (S k) T' /\ core_types T' = core_types T /\ core_type_to_rec_group T' = core_type_to_rec_group T
    /\ core_type_to_supertype T' = core_type_to_supertype T /\ rec_group_elements T' = rec_group_elements T).
Proof.
  intros Ha Ht Hp. pose proof (aw_lists _ _ Ha) as HT. unfold check_subtype.
  rewrite type_at_items by (done || lia). rewrite Nat2Z.id, Ht. cbn [expect mbind result_bind].
  apply rsafe_check. intros Hgc. apply rsafe_bind.
  eapply rsafe_mono; [by apply (check_composite_type_ok f T k)|]. intros _ (Ho & Hsh & Hco).
  destruct (aw_depth _ _ Ha) as (dm & Ed & Hdm).
  assert (Hkl : (k <= length (sups T))%nat) by (rewrite (lw_supers_len _ HT); apply lookup_lt_Some in Ht; lia).
  apply rsafe_bind. apply (rsafe_mono _ (fun d => 0 <= d <= MAX_WASM_SUBTYPING_DEPTH /\ checked T k t
    /\ exists o : option CoreTypeId, sups T !! k = Some o
         /\ match o with Some j => 0 <= j < Z.of_nat k /\ map snd dm !! Z.to_nat j = Some (d - 1) | None => d = 0 end)).
  - destruct (supertype_idx t) as [p|] eqn:Ep.
    + assert (Ef : needs_type_canonicalization f = true).
      { destruct (needs_type_canonicalization f) eqn:Ef; [done|]. destruct (no_canonicalization f Ef) as (_ & _ & E & _).
        rewrite E in Hgc. rewrite bool_decide_true in Hgc by by eexists. by destruct (is_final t). }
      eapply rsafe_mono; [by apply (check_supertype_ok m rg k T t p f)|].
      intros d (Hb & (j & Hj & Hjk & Hdj) & Hsup). split; [lia|].
      assert (Ho' : sub_over (is_id T) t) by (destruct Hp as [_ Hp]; rewrite Ef in Hp; apply Hp).
      split; [split; [done|apply Hp|done|done|by rewrite Ep]|]. exists (Some j). split; [done|]. split; [done|].
      destruct (depth_lookup T k dm j Ed Hdm Hkl Hjk) as (d' & Hd' & Hm & _). congruence.
    + apply rsafe_ok. split; [unfold MAX_WASM_SUBTYPING_DEPTH; lia|].
      assert (Es : sups T !! k = Some None).
      { destruct Hp as [_ Hp]. unfold sup_id_of in Hp. rewrite Ep in Hp.
        by destruct (needs_type_canonicalization f); destruct Hp. }
      split; [|by exists None]. split; [|apply Hp|done|done|by rewrite Ep]. split; [done|]. unfold super_over.
      by rewrite Ep.
  - intros d (Hb & Hck & o & Ho' & Hd). unfold set_subtyping_depth. rewrite Ed. cbn [mbind option_bind expect rsafe].
    set (T' := mkTypeList _ _ _ _ _ _). destruct (same_lists T T') as (G & G' & HL); [done..|].
    split; [|done]. split; [by apply HL|..].
    + intros i u Hi Hu. apply (checked_grows T); [done|by apply HL|done|]. change (tys T') with (tys T) in Hu.
      destruct (decide (i = k)) as [->|Hne]; [by simplify_eq|]. apply (aw_checked _ _ Ha); [lia|done].
    + eexists. split; [done|]. rewrite index_map_insert_new by apply Hdm.
      apply (depths_ok_grows T); [done|rewrite (lw_supers_len _ HT); by eapply lookup_lt_Some|].
      by apply (depths_ok_snoc T k dm d o).
    + destruct (aw_groups _ _ Ha) as (gm & Egm & [He Hk Hi Hc]). exists gm. split; [done|]. split; [|done..].
      eapply Forall_impl; [exact He|]. intros e Hent. by apply (entry_ok_grows T).
Qed.

(** ** Adding the types of a group *)

Lemma pre_grows f T T' i t : grows T T' -> pre f T i t -> pre f T' i t.
Proof.
  intros G [Hs Hp]. split; [done|].
  destruct (needs_type_canonicalization f); destruct Hp as [Ho Hsup];
    (split; [|by apply (grows_sups T T' G)]); [|done].
  eapply sub_over_mono; [|done]. intros; by eapply (grows_is_id T T').
Qed.

Lemma seqZ_snoc_front a n : [a] ++ seqZ (a + 1) (Z.of_nat n) = seqZ a (Z.of_nat (S n)).
Proof. rewrite (seqZ_cons a (Z.of_nat (S n))) by lia. cbn. do 2 f_equal; lia. Qed.

Lemma add_type_ids_new n k rg f off m T :
  alloc_wf k T -> (k + n = length (tys T))%nat ->
  (forall i t, (k <= i)%nat -> tys T !! i = Some t -> pre f T i t) ->
  rsafe (add_type_ids n (Z.of_nat k) true rg f off m T) (fun '(m', T') =>
    m' = set_m_types (m_types m ++ seqZ (Z.of_nat k) (Z.of_nat n)) m
    /\ types_wf T' /\ grows T T' /\ length (tys T') = length (tys T)).
Proof.
  revert k m T. induction n as [|n IH]; intros k m T Ha Hlen Hpre; cbn [add_type_ids].
  { apply rsafe_ok. cbn [seqZ]. rewrite app_nil_r. split_and!; [by destruct m| |done..].
    unfold types_wf. by replace (length (tys T)) with k by lia. }
  destruct (lookup_lt_is_Some_2 (tys T) k) as [t Ht]; [lia|]. apply rsafe_bind.
  eapply rsafe_mono; [by apply (check_subtype_ok _ _ k T t); [| |apply Hpre]|].
  intros T1 (Ha1 & E1 & E2 & E3 & E4). destruct (same_lists T T1 E1 E2 E3 E4) as (G & G' & _).
  assert (Et : tys T1 = tys T) by (unfold tys; by rewrite E1).
  replace (Z.of_nat k + 1) with (Z.of_nat (S k)) by lia.
  eapply rsafe_mono; [apply (IH (S k))|].
  - done.
  - rewrite Et. lia.
  - intros i u Hi Hu. apply (pre_grows f T); [done|]. rewrite Et in Hu. apply Hpre; [lia|done].
  - intros [m' T'] (-> & Hw & Hg & Hl). split_and!; [|done|by etransitivity|by rewrite Hl, Et].
    cbn [add_type_id set_m_types m_types]. rewrite <- app_assoc, <- seqZ_snoc_front.
    by replace (Z.of_nat (S k)) with (Z.of_nat k + 1) by lia.
Qed.

Lemma add_type_ids_old n i rg f off m T :
  add_type_ids n i false rg f off m T = Ok (set_m_types (m_types m ++ seqZ i (Z.of_nat n)) m, T).
Proof.
  revert i m. induction n as [|n IH]; intros i m; cbn [add_type_ids mbind result_bind mret result_ret].
  - cbn [seqZ]. rewrite app_nil_r. by destruct m.
  - rewrite IH. cbn [add_type_id set_m_types m_types]. by rewrite <- app_assoc, seqZ_snoc_front.
Qed.

(** A module whose types are in the list, and room for those it may still add. *)
Record module_types_ok (T : TypeList) (m : WasmModule) : Prop := {
  mt_valid : Forall (valid_id T) (m_types m);
  mt_max : Z.of_nat (length (m_types m)) <= MAX_WASM_TYPES;
  mt_room : ntypes T + MAX_WASM_TYPES - Z.of_nat (length (m_types m)) <= 2 ^ 20;
}.

Lemma check_max_ok cur amt max desc off :
  rsafe (check_max cur amt max desc off) (fun _ => cur + amt <= max).
Proof. unfold check_max. destruct (Z.ltb_spec (max - cur - amt) 0); [by case_match|]. cbn. lia. Qed.

(** What adding the types of a group does. *)
Definition added (T : TypeList) (m : WasmModule) (x : WasmModule * TypeList) : Prop :=
  let (m', T') := x in
  types_wf T' /\ grows T T' /\ module_types_ok T' m' /\ exists ids, m' = set_m_types (m_types m ++ ids) m.

Lemma canonicalize_and_intern_ok f g off m T :
  types_wf T -> module_types_ok T m -> rec_group_wf g ->
  Z.of_nat (length (m_types m)) + Z.of_nat (group_len g) <= MAX_WASM_TYPES ->
  rsafe (canonicalize_and_intern_rec_group f g off m T) (added T m).
Proof.
  intros Hw [Hv Hmx Hroom] [Hg _] Hmax. unfold MAX_WASM_TYPES in *. unfold canonicalize_and_intern_rec_group.
  assert (Hov : Forall (fun t => sub_over is_module_index t /\ shape_ok t) (into_types g))
    by (eapply Forall_impl; [exact Hg|]; intros; by apply sub_type_wf_over).
  apply rsafe_check. intros Hex. apply rsafe_bind.
  apply (rsafe_mono _ (fun g' => group_pre f T g' /\ group_len g' = group_len g)).
  { unfold group_pre. destruct (needs_type_canonicalization f) eqn:Ef.
    - eapply rsafe_mono; [apply (canonicalize_rec_group_ok T m off f g); [done|lia|done]|]. by intros g' [? ?].
    - apply rsafe_ok. split; [|done]. split; [|done]. destruct (no_canonicalization f Ef) as (_ & _ & E & _).
      rewrite E in Hex. unfold is_explicit_rec_group, group_len, into_types, into_types_and_offsets in *.
      by destruct (group_inner g). }
  intros g' [Hpre Hlen]. apply rsafe_bind.
  eapply rsafe_mono; [apply (intern_canonical_rec_group_ok f T g'); [done..|rewrite Hlen; lia]|].
  intros [[is_new id] T1] (start & Hat & H0 & Hend & Hcase). rewrite Hat. cbn [expect mbind result_bind fst snd].
  replace (start + Z.of_nat (group_len g') - start) with (Z.of_nat (group_len g')) by lia. rewrite Nat2Z.id.
  destruct is_new.
  - destruct Hcase as (-> & Ha & G & El & Hp). unfold ntypes at 1.
    eapply rsafe_mono; [apply (add_type_ids_new (group_len g') (length (tys T))); [done|lia|done]|].
    intros [m' T'] (-> & Hw' & G' & El'). split_and!; [done|by etransitivity| |by eexists].
    split; cbn [m_types set_m_types]; [apply Forall_app; split| |].
    + eapply Forall_impl; [exact Hv|]. intros x Hx. eapply (grows_valid T T'); [by etransitivity|done].
    + apply Forall_forall. intros x Hx%elem_of_seqZ. unfold valid_id, ntypes. lia.
    + rewrite length_app, length_seqZ. unfold MAX_WASM_TYPES. lia.
    + rewrite length_app, length_seqZ. unfold MAX_WASM_TYPES, ntypes in *. lia.
  - subst T1. rewrite add_type_ids_old. apply rsafe_ok. split_and!; [done..| |by eexists].
    split; cbn [m_types set_m_types]; [apply Forall_app; split; [done|]| |].
    + apply Forall_forall. intros x Hx%elem_of_seqZ. unfold valid_id. lia.
    + rewrite length_app, length_seqZ. unfold MAX_WASM_TYPES. lia.
    + rewrite length_app, length_seqZ. unfold MAX_WASM_TYPES in *. lia.
Qed.

Lemma add_types_ok f g off m T :
  types_wf T -> module_types_ok T m -> rec_group_wf g ->
  rsafe (add_types g f off true m T) (added T m).
Proof.
  intros Hw Hm Hg. unfold add_types. apply rsafe_bind.
  assert (Hsm : wrap 32 (Z.of_nat (length (into_types g))) = Z.of_nat (length (into_types g))).
  { unfold wrap. rewrite Z.mod_small; [done|]. destruct Hg as [_ Hl]. unfold MAX_WASM_TYPES in Hl. lia. }
  rewrite Hsm. eapply rsafe_mono; [apply check_max_ok|]. intros [] Hmax. by apply canonicalize_and_intern_ok.
Qed.
