(* ===== verification/ModuleStateSpec.v ===== *)
(** What a module promises to the validator of operators: the invariant
    [module_wf] of a module, and the two implementations of
    [WasmModuleResources] as instances of [ResourcesSpec]. *)

From Stdlib Require Import ZArith Lia String Relations.
From stdpp Require Import prelude relations gmap.
From S2P Require Import Prelude StateLogic BinaryReader Types TypesSpec Operands OperandSpec CompositeTypes.
From S2P Require Import Items CompositeSpec ItemSpec ValidatorState OperatorValidator TypeList Canonical.
From S2P Require Import ModuleState ValidatorLogic TypeListSpec TypeMatch InternSpec AddTypesSpec.

Local Open Scope Z_scope.

(** ** Canonical types *)

Section canonical.
Context (R : WasmModuleResources) (T : TypeList) (HT : lists_wf T).
Hypothesis HR : forall id, sub_type_at_id (WasmModuleResources := R) id = type_at T id.

Lemma ht_canonical_iff h : ht_canonical (R := R) h <-> ht_over (is_id T) h.
Proof.
  destruct h as [|[i|i|id]]; cbn; [done|..].
  - split; [done|]. by intros [(id & ? & _) _].
  - split; [done|]. by intros [(id & ? & _) _].
  - unfold known. rewrite HR, <- (valid_iff T HT). split.
    + intros [Hi Hv]. split; [by exists id|done].
    + by intros [(id' & [= <-] & Hv) Hi].
Qed.

Lemma rt_canonical_iff r : rt_canonical (R := R) r <-> rt_over (is_id T) r.
Proof.
  unfold rt_canonical, rt_over. split; intros (n & h & Hh & Hr); exists n, h; (split; [by apply ht_canonical_iff|done]).
Qed.

Lemma vt_canonical_iff t : vt_canonical (R := R) t <-> vt_over (is_id T) t.
Proof. destruct t; try done. apply rt_canonical_iff. Qed.

Lemma ft_canonical_of t : ft_over (is_id T) t -> ft_canonical (R := R) t.
Proof.
  unfold ft_over, ft_canonical. destruct (element_type t); try done. apply vt_canonical_iff.
Qed.

Lemma func_ok_of f :
  Forall (vt_over (is_id T)) (params_results f) ->
  Z.of_nat (length (func_params f)) <= MAX_WASM_FUNCTION_PARAMS ->
  Z.of_nat (length (func_results f)) <= MAX_WASM_FUNCTION_RETURNS -> func_ok (R := R) f.
Proof.
  intros Hf Hp Hr. assert (Hc : Forall (vt_canonical (R := R)) (params_results f)).
  { eapply Forall_impl; [exact Hf|]. intros; by apply vt_canonical_iff. }
  unfold MAX_WASM_FUNCTION_PARAMS, MAX_WASM_FUNCTION_RETURNS in *.
  split; [by apply Forall_take|by apply Forall_drop|unfold small; lia].
Qed.

Lemma func_ok_checked i t f : checked T i t -> inner (composite_type_of t) = CFunc f -> func_ok (R := R) f.
Proof.
  intros [[Ho _] Hs _ _ _] E. unfold shape_ok in Hs. rewrite E in *. by apply func_ok_of; [|apply Hs..].
Qed.

Hypothesis Hall : forall i t, tys T !! i = Some t -> checked T i t.

Lemma sub_ok_checked i t : checked T i t -> sub_ok (R := R) t.
Proof.
  intros Hc. destruct (Hc) as [[Ho _] Hs Hco _ _]. unfold sub_ok, shape_ok in *.
  destruct (inner (composite_type_of t)) as [f|a|s|c] eqn:E; cbn [inner_over] in Ho.
  - by eapply func_ok_checked.
  - by apply ft_canonical_of.
  - split; [unfold small, MAX_WASM_STRUCT_FIELDS in *; lia|].
    eapply Forall_impl; [exact Ho|]. intros; by apply ft_canonical_of.
  - split.
    + apply rt_canonical_iff. destruct Ho as (u & Hu & Hv & Hp). exists true, (Concrete u).
      split; [done|]. cbn. by rewrite Hp.
    + destruct (Hco c eq_refl) as (id & u & f & Hid & Hu & Hf). exists f.
      unfold func_type_of_cont_type. rewrite (as_core_type_id_unpack _ _ Hid). cbn. rewrite HR, Hu. cbn.
      rewrite Hf. split; [done|]. apply type_at_valid in Hu as [_ Hu]; [|done].
      eapply func_ok_checked; [by apply Hall|done].
Qed.
End canonical.

(** ** The invariant of a module *)

Definition func_id (T : TypeList) (id : CoreTypeId) : Prop :=
  exists t f, type_at T id = Some t /\ inner (composite_type_of t) = CFunc f.

(** A type index of the module that is one of a function type. *)
Definition func_index (T : TypeList) (m : WasmModule) (i : Z) : Prop :=
  0 <= i /\ exists id, m_types m !! Z.to_nat i = Some id /\ func_id T id.

Record module_wf (T : TypeList) (m : WasmModule) : Prop := {
  mw_types : module_types_ok T m;
  mw_functions : Forall (func_index T m) (m_functions m);
  mw_tables : Forall (fun t => rt_over (is_id T) (table_element_type t)) (m_tables m);
  mw_globals : Forall (fun g => vt_over (is_id T) (content_type g)) (m_globals m);
  mw_elements : Forall (rt_over (is_id T)) (m_element_types m);
  mw_tags : Forall (func_id T) (m_tags m);
  mw_imported_functions : 0 <= m_num_imported_functions m <= Z.of_nat (length (m_functions m));
  mw_imported_globals : 0 <= m_num_imported_globals m <= Z.of_nat (length (m_globals m));
  mw_imports_max : m_num_imported_functions m <= MAX_WASM_FUNCTIONS /\ m_num_imported_globals m <= MAX_WASM_GLOBALS;
  mw_exports : NoDup (map fst (m_exports m));
  mw_type_size : 1 <= m_type_size m < MAX_WASM_TYPE_SIZE;
}.

Lemma module_types_small T m : module_types_ok T m -> ntypes T <= 2 ^ 20.
Proof. intros [_ H1 H2]. lia. Qed.

Lemma valid_in_u20 T m id : module_types_ok T m -> valid_id T id -> in_u 20 id.
Proof. intros H%module_types_small [H0 H1]. unfold in_u. lia. Qed.

(** ** The implementations *)

Section resources.
Context (T : TypeList) (HT : view_wf T) (m : WasmModule) (Hm : module_wf T m).
Let HL : lists_wf T := vw_lists _ HT.

Lemma module_check_heap_type_ok h off :
  ht_unresolved h -> rsafe (module_check_heap_type m h off) (ht_over (is_id T)).
Proof.
  destruct h as [|[i|i|id]]; cbn; try done. intros _. unfold type_id_at.
  destruct (m_types m !! Z.to_nat i) as [id|] eqn:E; [|done]. cbn.
  assert (Hid : valid_id T id) by (eapply Forall_lookup_1; [apply (mw_types _ _ Hm)|done]).
  split; [by exists id|]. exact (valid_in_u20 T m id (mw_types _ _ Hm) Hid).
Qed.

Lemma module_type_at i id : m_types m !! i = Some id -> exists t, type_at T id = Some t.
Proof.
  intros E. assert (Hid : valid_id T id) by (eapply Forall_lookup_1; [apply (mw_types _ _ Hm)|done]).
  destruct (valid_type_at T HL id Hid) as (t & Ht & _). by exists t.
Qed.

Lemma type_at_sub_ok R id t :
  (forall id, sub_type_at_id (WasmModuleResources := R) id = type_at T id) ->
  type_at T id = Some t -> sub_ok (R := R) t.
Proof.
  intros HR Ht. eapply (sub_ok_checked R T HL HR); [apply HT|]. by eapply type_at_checked.
Qed.

Lemma tag_func_ok R i id :
  (forall id, sub_type_at_id (WasmModuleResources := R) id = type_at T id) ->
  m_tags m !! i = Some id ->
  exists t f, type_at T id = Some t /\ inner (composite_type_of t) = CFunc f /\ func_ok (R := R) f.
Proof.
  intros HR E. assert (Hid : func_id T id) by (eapply Forall_lookup_1; [apply Hm|done]).
  destruct Hid as (t & f & Ht & Hf). exists t, f. split_and!; [done..|].
  eapply (func_ok_checked R T HL HR); [by eapply type_at_checked|done].
Qed.

Lemma function_type_id i id :
  (type_index ← m_functions m !! i; m_types m !! Z.to_nat type_index) = Some id -> 0 <= id /\ is_Some (type_at T id).
Proof.
  destruct (m_functions m !! i) as [ti|]; [|done]. cbn. intros E.
  assert (Hid : valid_id T id) by (eapply Forall_lookup_1; [apply (mw_types _ _ Hm)|done]).
  split; [apply Hid|]. by apply (valid_iff T HL).
Qed.

#[local] Instance operator_resources_spec : ResourcesSpec (operator_resources m T).
Proof.
  assert (HR : forall id, sub_type_at_id (WasmModuleResources := operator_resources m T) id = type_at T id) by done.
  split.
  - intros t. cbn. unfold valtype_is_subtype. by rewrite bool_decide_true.
  - intros a b Ha%(vt_canonical_iff _ T HL HR) Hb%(vt_canonical_iff _ T HL HR). cbn.
    destruct (valtype_is_subtype_spec T HL a b Ha Hb) as (r & -> & _). by eexists.
  - intros r Hr%(rt_canonical_iff _ T HL HR). by apply reftype_is_shared_some.
  - intros h off Hh. pose proof (module_check_heap_type_ok h off Hh) as H. cbn.
    destruct (module_check_heap_type m h off); [|done..]. by apply (ht_canonical_iff _ T HL HR).
  - intros h Hh%(ht_canonical_iff _ T HL HR). by apply top_type_some.
  - intros i. cbn. destruct (m_types m !! Z.to_nat i) as [id|] eqn:E; [|by exists None].
    destruct (module_type_at _ _ E) as [t Ht]. rewrite Ht. exists (Some t). split; [done|].
    intros t' [= <-]. by apply (type_at_sub_ok _ id t HR).
  - intros id t Ht. by apply (type_at_sub_ok _ id t HR).
  - intros i. cbn. destruct (m_tags m !! Z.to_nat i) as [id|] eqn:E; [|by exists None].
    destruct (tag_func_ok _ _ _ HR E) as (t & f & -> & Hf & Hok). cbn. rewrite Hf. exists (Some f).
    split; [done|]. by intros f' [= <-].
  - intros i t Ht. apply (rt_canonical_iff _ T HL HR). cbn in Ht.
    by apply (Forall_lookup_1 _ _ _ _ (mw_tables _ _ Hm) Ht).
  - intros i g Hg. apply (vt_canonical_iff _ T HL HR). cbn in Hg.
    by apply (Forall_lookup_1 _ _ _ _ (mw_globals _ _ Hm) Hg).
  - intros i r Hr. apply (rt_canonical_iff _ T HL HR). cbn in Hr.
    by apply (Forall_lookup_1 _ _ _ _ (mw_elements _ _ Hm) Hr).
  - intros i id H. by apply (function_type_id (Z.to_nat i)).
Qed.

(** The resources of function bodies are those of the types of the snapshot. *)
Lemma validator_resources_spec : m_snapshot m = Some T -> ResourcesSpec (validator_resources m).
Proof.
  intros Es.
  assert (HR : forall id, sub_type_at_id (WasmModuleResources := validator_resources m) id = type_at T id)
    by (intros id; cbn; by rewrite Es).
  split.
  - intros t. cbn. rewrite Es. apply (is_subtype_refl (R := operator_resources m T)).
  - intros a b Ha%(vt_canonical_iff _ T HL HR) Hb%(vt_canonical_iff _ T HL HR). cbn. rewrite Es. cbn.
    destruct (valtype_is_subtype_spec T HL a b Ha Hb) as (r & -> & _). by eexists.
  - intros r Hr%(rt_canonical_iff _ T HL HR). cbn. rewrite Es. by apply reftype_is_shared_some.
  - intros h off Hh. pose proof (module_check_heap_type_ok h off Hh) as H. cbn.
    destruct (module_check_heap_type m h off); [|done..]. by apply (ht_canonical_iff _ T HL HR).
  - intros h Hh%(ht_canonical_iff _ T HL HR). cbn. rewrite Es. by apply top_type_some.
  - intros i. cbn. destruct (m_types m !! Z.to_nat i) as [id|] eqn:E; [|by exists None].
    destruct (module_type_at _ _ E) as [t Ht]. rewrite Es. cbn. rewrite Ht. exists (Some t). split; [done|].
    intros t' [= <-]. by apply (type_at_sub_ok _ id t HR).
  - intros id t Ht. rewrite HR in Ht. by apply (type_at_sub_ok _ id t HR).
  - intros i. cbn. destruct (m_tags m !! Z.to_nat i) as [id|] eqn:E; [|by exists None]. rewrite Es. cbn.
    destruct (tag_func_ok _ _ _ HR E) as (t & f & -> & Hf & Hok). cbn. rewrite Hf. exists (Some f).
    split; [done|]. by intros f' [= <-].
  - intros i t Ht. apply (rt_canonical_iff _ T HL HR). cbn in Ht.
    by apply (Forall_lookup_1 _ _ _ _ (mw_tables _ _ Hm) Ht).
  - intros i g Hg. apply (vt_canonical_iff _ T HL HR). cbn in Hg.
    by apply (Forall_lookup_1 _ _ _ _ (mw_globals _ _ Hm) Hg).
  - intros i r Hr. apply (rt_canonical_iff _ T HL HR). cbn in Hr.
    by apply (Forall_lookup_1 _ _ _ _ (mw_elements _ _ Hm) Hr).
  - intros i id H. unfold known. rewrite HR. by apply (function_type_id (Z.to_nat i)).
Qed.
End resources.

(** * The operations on a module preserve [module_wf] and do not panic. *)

(** ** Sizes of types *)

Lemma typeinfo_size_nonneg i : 0 <= typeinfo_size i.
Proof. unfold typeinfo_size. apply Z.land_nonneg. lia. Qed.

Lemma subtype_info_ok t : shape_ok t -> is_Some (subtype_info t).
Proof.
  unfold shape_ok, subtype_info, typeinfo_core, typeinfo_new, wrap.
  unfold MAX_WASM_FUNCTION_PARAMS, MAX_WASM_FUNCTION_RETURNS, MAX_WASM_STRUCT_FIELDS. intros Hs.
  match goal with |- is_Some (if ?n <? _ then _ else _) => assert (n < 2 ^ 24) end;
    [|rewrite (proj2 (Z.ltb_lt _ _)); [by eexists|done]].
  destruct (inner (composite_type_of t)) as [f|a|s|c]; try lia.
  all: rewrite Z.mod_small by lia; lia.
Qed.

Definition entity_ok (T : TypeList) (e : EntityType) : Prop :=
  match e with ET_Func id | ET_Tag id => func_id T id | _ => True end.

Lemma entity_info_ok T e : view_wf T -> entity_ok T e -> is_Some (entity_info T e).
Proof.
  intros HT. destruct e as [id|t|t|t|id]; cbn; try by eexists.
  all: intros (t & f & Ht & _); rewrite Ht; cbn; apply subtype_info_ok; by apply (type_at_checked T HT id t).
Qed.

Lemma combine_type_sizes_ok a b off :
  1 <= a -> 0 <= b -> rsafe (combine_type_sizes a b off) (fun s => 1 <= s < MAX_WASM_TYPE_SIZE).
Proof.
  intros Ha Hb. unfold combine_type_sizes. destruct (_ && _) eqn:E; [|done].
  apply andb_true_iff in E as [_ E%Z.ltb_lt]. cbn. lia.
Qed.

(** ** Checks of types *)

Section checks.
Context (T : TypeList) (HT : view_wf T) (m : WasmModule) (Hm : module_wf T m) (f : WasmFeatures) (off : Z).
Let HL : lists_wf T := vw_lists _ HT.

Lemma module_check_ref_type_ok r : rt_module r -> rsafe (module_check_ref_type m r f off) (rt_over (is_id T)).
Proof.
  intros Hr%rt_module_over. unfold module_check_ref_type. apply rsafe_bind.
  eapply rsafe_mono; [exact (value_type_features_over is_module_index f (Ref r) off Hr)|]. intros _ _.
  destruct (rt_over_heap_type _ _ Hr) as (h & Hh & Ho & _). rewrite Hh. cbn [expect mbind result_bind].
  apply rsafe_bind. eapply rsafe_mono; [apply (module_check_heap_type_ok T m Hm h off)|].
  { destruct h as [|u]; [done|]. by destruct Ho as [(i & ->) _]. }
  intros h' Hh'. destruct (rt_new_heap_type (is_nullable r) h' (ht_over_valid _ _ Hh')) as (r' & Hr' & _).
  rewrite Hr'. by exists (is_nullable r), h'.
Qed.

Lemma module_check_value_type_ok t : vt_module t -> rsafe (module_check_value_type m t f off) (vt_over (is_id T)).
Proof.
  destruct t as [| | | | |r]; cbn [module_check_value_type vt_module].
  1-5: intros _; apply rsafe_bind; (eapply rsafe_mono; [by apply (value_type_features_over is_module_index)|done]).
  intros Hr. apply rsafe_bind. eapply rsafe_mono; [by apply module_check_ref_type_ok|]. done.
Qed.

Lemma funcref_over P : rt_over P Types.FUNCREF.
Proof. by exists true, (Abstract false HFunc). Qed.

Lemma func_over P : rt_over P FUNC.
Proof. by exists false, (Abstract false HFunc). Qed.

Lemma check_limits_ok a b : rsafe (check_limits a b off) (fun _ => forall x, b = Some x -> a <= x).
Proof.
  unfold check_limits. destruct b as [x|]; [|done]. destruct (Z.ltb_spec x a); [done|]. cbn. by intros y [= <-].
Qed.

Lemma check_table_type_ok t :
  table_type_wf t -> rsafe (check_table_type m t f T off) (fun t' => rt_over (is_id T) (table_element_type t')).
Proof.
  intros [Hr _]. unfold check_table_type. apply rsafe_bind. apply (rsafe_mono _ (rt_over (is_id T))).
  { destruct (bool_decide_reflect (table_element_type t = Types.FUNCREF)) as [->|]; [apply funcref_over|].
    by apply module_check_ref_type_ok. }
  intros el Hel. cbn [table64 table_initial table_maximum table_shared table_element_type].
  apply rsafe_check. intros _. apply rsafe_bind. eapply rsafe_mono; [apply check_limits_ok|]. intros _ _.
  destruct (table_shared t); [|done]. apply rsafe_check. intros _.
  destruct (reftype_is_shared_some T HL el Hel) as [b ->]. cbn [expect mbind result_bind]. by destruct b.
Qed.

Lemma check_memory_type_ok t : rsafe (check_memory_type t f off) (fun _ => True).
Proof.
  unfold check_memory_type, memory_page_size, memory_true_maximum. apply rsafe_bind.
  eapply rsafe_mono; [apply check_limits_ok|]. intros _ _.
  repeat (case_match; cbn [mbind result_bind rsafe]; try done).
Qed.

Lemma module_func_type_at_ok i :
  in_u 32 i -> rsafe (module_func_type_at m i T off) (fun _ => func_index T m i).
Proof.
  intros [H0 _]. unfold module_func_type_at, module_sub_type_at, type_id_at.
  destruct (m_types m !! Z.to_nat i) as [id|] eqn:E; [|done]. cbn [mbind result_bind].
  destruct (module_type_at T HT m Hm _ _ E) as [t Ht]. rewrite Ht. cbn [expect mbind result_bind].
  destruct (inner (composite_type_of t)) as [fty| | |] eqn:Ei; try done. cbn.
  split; [done|]. exists id. split; [done|]. by exists t, fty.
Qed.

(** [self.types[index]] of a function type. *)
Lemma module_type_ok i : func_index T m i -> exists id, module_type m i = Ok id /\ func_id T id.
Proof. intros (_ & id & E & Hid). exists id. split; [|done]. unfold module_type. by rewrite E. Qed.

Lemma check_tag_type_ok t :
  tag_type_wf t -> rsafe (check_tag_type m t f T off) (fun _ => func_index T m (func_type_idx t)).
Proof.
  intros Ht. unfold check_tag_type. apply rsafe_check. intros _. apply rsafe_bind.
  eapply rsafe_mono; [by apply module_func_type_at_ok|]. intros fty H. cbn beta. by apply rsafe_check.
Qed.

Lemma check_global_type_ok g f' :
  global_type_wf f' g -> rsafe (check_global_type m g f T off) (fun g' => vt_over (is_id T) (content_type g')).
Proof.
  intros [Hc _]. unfold check_global_type. apply rsafe_bind.
  eapply rsafe_mono; [by apply module_check_value_type_ok|]. intros c Hco.
  cbn [global_shared content_type]. destruct (global_shared g); [|done].
  apply rsafe_check. intros _. destruct (valtype_is_shared_some T HL c Hco) as [b ->].
  cbn [expect mbind result_bind]. by destruct b.
Qed.

(** What an import is once its type was checked. *)
Definition ref_ok (t : TypeRef) : Prop :=
  match t with
  | TR_Func i => func_index T m i
  | TR_Table t => rt_over (is_id T) (table_element_type t)
  | TR_Memory _ => True
  | TR_Global g => vt_over (is_id T) (content_type g)
  | TR_Tag t => func_index T m (func_type_idx t)
  end.

Lemma check_type_ref_ok t f' :
  type_ref_wf f' t -> rsafe (check_type_ref m t f T off) (fun '(t', e) => ref_ok t' /\ entity_ok T e).
Proof.
  destruct t as [i|t|t|t|t]; cbn [type_ref_wf check_type_ref]; intros Ht; apply rsafe_bind.
  - eapply rsafe_mono; [by apply module_func_type_at_ok|]. intros fty Hi.
    destruct (module_type_ok i Hi) as (id & -> & Hid). done.
  - eapply rsafe_mono; [by apply check_table_type_ok|]. done.
  - eapply rsafe_mono; [by apply check_memory_type_ok|]. done.
  - eapply rsafe_mono; [by apply (check_global_type_ok _ f')|]. done.
  - eapply rsafe_mono; [by apply check_tag_type_ok|]. intros [] Hi.
    destruct (module_type_ok _ Hi) as (id & -> & Hid). done.
Qed.
End checks.

(** ** Adding items *)

Lemma Forall_snoc {A} (P : A -> Prop) l x : Forall P l -> P x -> Forall P (l ++ [x]).
Proof. intros Hl Hx. apply Forall_app. by split; [|constructor]. Qed.

Lemma module_types_same T m m' : m_types m' = m_types m -> module_types_ok T m -> module_types_ok T m'.
Proof. intros E []. split; by rewrite E. Qed.

Lemma Forall_func_index T m m' l : m_types m' = m_types m -> Forall (func_index T m) l -> Forall (func_index T m') l.
Proof. intros E H. eapply Forall_impl; [exact H|]. intros i. unfold func_index. by rewrite E. Qed.

(** An update of [m], whose invariant is among the hypotheses field by field. *)
Ltac module_update m :=
  split; cbn; try done; try (by apply (module_types_same _ m)); try (by apply (Forall_func_index _ m));
  rewrite ?length_app; cbn; try lia.

Section add.
Context (T : TypeList) (HT : view_wf T) (f : WasmFeatures) (off : Z).
Implicit Types m : WasmModule.

(** What items leave alone. *)
Record same_types (m m' : WasmModule) : Prop := {
  st_types : m_types m' = m_types m;
  st_snapshot : m_snapshot m' = m_snapshot m;
}.

(** What items that are not functions leave alone too. *)
Record same_functions (m m' : WasmModule) : Prop := {
  sf_functions : m_functions m' = m_functions m;
  sf_imported : m_num_imported_functions m' = m_num_imported_functions m;
}.

Definition updated (m m' : WasmModule) : Prop := module_wf T m' /\ same_types m m' /\ same_functions m m'.

(** The number of functions that are not imported. *)
Definition defined (m : WasmModule) : Z := Z.of_nat (length (m_functions m)) - m_num_imported_functions m.

Definition imported (m m' : WasmModule) : Prop := module_wf T m' /\ same_types m m' /\ defined m' = defined m.

(** The module is fine when there are not too many items of the kind. *)
Lemma push_import_ok m t :
  module_wf T m -> ref_ok T m t ->
  rsafe (push_import t f m off) (fun '(m', (len, max, _)) =>
    len <= max -> imported m m' /\ m_exports m' = m_exports m).
Proof.
  intros Hm Ht. destruct (mw_imports_max _ _ Hm) as [Hf Hg]. unfold MAX_WASM_FUNCTIONS, MAX_WASM_GLOBALS in *.
  pose proof (mw_imported_functions _ _ Hm). pose proof (mw_imported_globals _ _ Hm).
  destruct t as [i|t|t|t|t]; cbn [push_import ref_ok] in *.
  - unfold add_u32. rewrite to_u32_ok by lia. cbn. rewrite length_app. cbn. unfold MAX_WASM_FUNCTIONS. intros Hlen.
    split; [|done]. split_and!; [|done|unfold defined; cbn; rewrite length_app; cbn; lia]. destruct Hm; module_update m.
    + apply Forall_snoc; [by apply (Forall_func_index _ m)|done].
    + unfold MAX_WASM_FUNCTIONS, MAX_WASM_GLOBALS. lia.
  - intros _. split; [|done]. split_and!; [|done..]. destruct Hm; module_update m. by apply Forall_snoc.
  - intros _. split; [|done]. split_and!; [|done..]. destruct Hm; module_update m.
  - apply rsafe_check. intros _. unfold add_u32. rewrite to_u32_ok by lia. cbn. rewrite length_app. cbn.
    unfold MAX_WASM_GLOBALS. intros Hlen. split; [|done]. split_and!; [|done..].
    destruct Hm; module_update m.
    + by apply Forall_snoc.
    + unfold MAX_WASM_FUNCTIONS, MAX_WASM_GLOBALS. lia.
  - destruct (module_type_ok T m _ Ht) as (id & -> & Hid). intros _. split; [|done]. split_and!; [|done..].
    destruct Hm; module_update m. by apply Forall_snoc.
Qed.

Lemma check_max_zero cur max desc : rsafe (check_max cur 0 max desc off) (fun _ => cur <= max).
Proof. eapply rsafe_mono; [apply check_max_ok|]. cbn. lia. Qed.

Lemma add_import_ok m i f' : module_wf T m -> import_wf f' i -> rsafe (add_import i f T off m) (imported m).
Proof.
  intros Hm (_ & _ & Hi). unfold add_import. apply rsafe_bind.
  eapply rsafe_mono; [by apply (check_type_ref_ok T HT m Hm f off _ f')|]. intros [t e] [Ht He].
  apply rsafe_bind. eapply rsafe_mono; [by apply push_import_ok|]. intros [m' [[len max] desc]] Hu.
  apply rsafe_bind. eapply rsafe_mono; [apply check_max_zero|]. intros [] Hlen. destruct (Hu Hlen) as [(Hm' & Hst & Hd) Hex].
  destruct (entity_info_ok T e HT He) as [info ->]. cbn [expect mbind result_bind]. apply rsafe_bind.
  eapply rsafe_mono; [apply combine_type_sizes_ok; [apply Hm'|apply typeinfo_size_nonneg]|]. intros size Hs.
  apply rsafe_ok. split_and!; [|by destruct Hst|done]. destruct Hm'; module_update m'.
Qed.

Lemma add_export_ok m name e :
  module_wf T m -> entity_ok T e -> rsafe (add_export name e f off false T m) (updated m).
Proof.
  intros Hm He. unfold add_export. apply rsafe_check. intros _. cbn [mbind result_bind].
  destruct (entity_info_ok T e HT He) as [info ->]. cbn [expect mbind result_bind]. apply rsafe_bind.
  eapply rsafe_mono; [apply combine_type_sizes_ok; [apply Hm|apply typeinfo_size_nonneg]|]. intros size Hs.
  apply rsafe_check. intros Hn%bool_decide_eq_false. apply rsafe_ok. split_and!; [|done..].
  destruct Hm; module_update m. rewrite map_app. apply NoDup_app. split_and!; [done| |apply NoDup_singleton].
  by intros x Hx ->%list_elem_of_singleton.
Qed.

Lemma add_function_ok m i :
  module_wf T m -> in_u 32 i ->
  rsafe (add_function i T off m) (fun m' => module_wf T m' /\ same_types m m' /\ defined m' = defined m + 1).
Proof.
  intros Hm Hi. unfold add_function. apply rsafe_bind.
  eapply rsafe_mono; [by apply (module_func_type_at_ok T HT m Hm off)|]. intros fty Hf. apply rsafe_ok.
  split_and!; [|done|unfold defined; cbn; rewrite length_app; cbn; lia]. destruct Hm; module_update m.
  apply Forall_snoc; [by apply (Forall_func_index _ m)|done].
Qed.

Lemma add_memory_ok m t : module_wf T m -> rsafe (add_memory t f off m) (updated m).
Proof.
  intros Hm. unfold add_memory. apply rsafe_bind. eapply rsafe_mono; [apply check_memory_type_ok|].
  intros _ _. apply rsafe_ok. split_and!; [|done..]. destruct Hm; module_update m.
Qed.

Lemma add_tag_ok m t : module_wf T m -> tag_type_wf t -> rsafe (add_tag t f T off m) (updated m).
Proof.
  intros Hm Ht. unfold add_tag. apply rsafe_bind. eapply rsafe_mono; [by apply check_tag_type_ok|].
  intros [] Hi. destruct (module_type_ok T m _ Hi) as (id & -> & Hid). apply rsafe_ok. split_and!; [|done..].
  destruct Hm; module_update m. by apply Forall_snoc.
Qed.

Lemma function_entity m i ty :
  module_wf T m -> m_functions m !! i = Some ty -> exists id, module_type m ty = Ok id /\ func_id T id.
Proof. intros Hm E. apply module_type_ok. by apply (Forall_lookup_1 _ _ _ _ (mw_functions _ _ Hm) E). Qed.

Lemma check_export_index_ok desc i total :
  rsafe (check_export_index desc i total off) (fun _ => i < total).
Proof. unfold check_export_index. destruct (Z.leb_spec total i); [done|]. cbn. lia. Qed.

Lemma export_to_entity_type_ok m e :
  module_wf T m -> export_wf e ->
  rsafe (export_to_entity_type e off m) (fun '(ty, m') => entity_ok T ty /\ updated m m').
Proof.
  intros Hm [_ Hi]. unfold in_u in Hi. unfold export_to_entity_type.
  destruct (export_kind_of e); apply rsafe_bind; (eapply rsafe_mono; [apply check_export_index_ok|]); intros [] Hlt.
  1: destruct (lookup_lt_is_Some_2 (m_functions m) (Z.to_nat (export_index e))) as [t Ht]; [lia|].
  2: destruct (lookup_lt_is_Some_2 (m_tables m) (Z.to_nat (export_index e))) as [t Ht]; [lia|].
  3: destruct (lookup_lt_is_Some_2 (m_memories m) (Z.to_nat (export_index e))) as [t Ht]; [lia|].
  4: destruct (lookup_lt_is_Some_2 (m_globals m) (Z.to_nat (export_index e))) as [t Ht]; [lia|].
  5: destruct (lookup_lt_is_Some_2 (m_tags m) (Z.to_nat (export_index e))) as [t Ht]; [lia|].
  all: cbn [set_m_function_references m_functions]; rewrite Ht; cbn [expect mbind result_bind].
  - destruct (function_entity m _ _ Hm Ht) as (id & Hid & Hf). unfold module_type in *. cbn [m_types set_m_function_references] in *.
    rewrite Hid. cbn. split; [done|]. split_and!; [|done..]. destruct Hm; module_update m.
  - done.
  - done.
  - done.
  - cbn. split; [|done]. by apply (Forall_lookup_1 _ _ _ _ (mw_tags _ _ Hm) Ht).
Qed.
End add.
