(* ===== verification/ModuleItemsSpec.v ===== *)
(** Constant expressions: they are validated without a panic, and the assertion
    of [check_const_expr] about functions that were not declared cannot fail. *)

From Stdlib Require Import ZArith Lia String Relations.
From stdpp Require Import prelude relations gmap.
From S2P Require Import Prelude StateLogic Leb128 BinaryReader BinaryReaderSpec ReaderLogic Types TypesSpec.
From S2P Require Import Operands Operators OperatorReader OperandSpec OperatorSpec InstrRoundtrip SectionReader.
From S2P Require Import CompositeTypes Items FunctionSpec CompositeSpec SectionSpec ItemSpec ValidatorState.
From S2P Require Import OperatorValidator VisitOperators ValidateOperator TypeList Canonical ModuleState.
From S2P Require Import LocalsSpec ValidatorLogic VisitSpec FuncSpec TypeListSpec TypeMatch InternSpec.
From S2P Require Import AddTypesSpec ModuleStateSpec.

Local Open Scope Z_scope.

(** ** What a computation that succeeds does *)

Definition post {S A} (m : ST S A) (v : S) (Q : A -> S -> Prop) : Prop :=
  match m v with (Ok a, v') => Q a v' | _ => True end.

Section post.
Context {S : Type}.
Implicit Types v : S.

Lemma post_bind {A B} (m : ST S A) (k : A -> ST S B) v Q :
  post m v (fun a v' => post (k a) v' Q) -> post (m ≫= k) v Q.
Proof. unfold post, mbind, ST_bind. by destruct (m v) as [[a|e|] v']. Qed.

Lemma post_mono {A} (m : ST S A) v (Q Q' : A -> S -> Prop) :
  post m v Q -> (forall a v', Q a v' -> Q' a v') -> post m v Q'.
Proof. unfold post. destruct (m v) as [[a|e|] v']; auto. Qed.

Lemma post_ret {A} (a : A) v (Q : A -> S -> Prop) : Q a v -> post (mret a) v Q.
Proof. done. Qed.
Lemma post_gets {A} (f : S -> A) v (Q : A -> S -> Prop) : Q (f v) v -> post (gets f) v Q.
Proof. done. Qed.
Lemma post_modify f v (Q : () -> S -> Prop) : Q tt (f v) -> post (modify f) v Q.
Proof. done. Qed.

(** A computation that leaves the state alone. *)
Definition pure {A} (m : ST S A) : Prop := forall v, post m v (fun _ v' => v' = v).

Lemma post_pure {A} (m : ST S A) v (Q : A -> S -> Prop) : pure m -> (forall a, Q a v) -> post m v Q.
Proof. intros Hm HQ. eapply post_mono; [apply Hm|]. by intros a v' ->. Qed.

Lemma pure_bind {A B} (m : ST S A) (k : A -> ST S B) : pure m -> (forall a, pure (k a)) -> pure (m ≫= k).
Proof. intros Hm Hk v. apply post_bind. eapply post_pure; [done|]. intros a. apply Hk. Qed.

Lemma pure_ret {A} (a : A) : pure (mret a : ST S A).
Proof. by intros v. Qed.
Lemma pure_gets {A} (f : S -> A) : pure (gets f).
Proof. by intros v. Qed.
Lemma pure_liftr {A} (x : result A) : pure (liftr x : ST S A).
Proof. intros v. unfold post, liftr. by destruct x. Qed.
Lemma pure_unwrap {A} (x : option A) : pure (unwrap x : ST S A).
Proof. by intros v; destruct x. Qed.
Lemma pure_ok_or {A} off msg (x : option A) : pure (ok_or off msg x : ST S A).
Proof. by intros v; destruct x. Qed.
Lemma pure_bail {A} off msg : pure (bail off msg : ST S A).
Proof. by intros v. Qed.
Lemma pure_when b (m : ST S ()) : pure m -> pure (when b m).
Proof. intros Hm v. destruct b; [apply Hm|done]. Qed.
Lemma pure_for {A} (f : A -> ST S ()) l : (forall x, pure (f x)) -> pure (for_ f l).
Proof. intros Hf. induction l as [|x l IH]; cbn [for_]; [apply pure_ret|]. by apply pure_bind. Qed.

Lemma post_for {A} (f : A -> ST S ()) (I : S -> Prop) l v :
  I v -> (forall x v, I v -> post (f x) v (fun _ => I)) -> post (for_ f l) v (fun _ => I).
Proof.
  intros Hv Hf. revert v Hv. induction l as [|x l IH]; intros v Hv; cbn [for_]; [done|].
  apply post_bind. eapply post_mono; [by apply Hf|]. intros [] v' Hv'. by apply IH.
Qed.
End post.

Create HintDb pure.
#[export] Hint Resolve pure_bind pure_ret pure_gets pure_liftr pure_unwrap pure_ok_or pure_bail pure_when
  pure_for : pure.

(** ** The stack of a constant expression *)

(** The only frame is reachable and starts at the bottom of the stack. *)
Record const_state (c : Frame) (v : OperatorValidator) : Prop := {
  cs_control : control v = [c];
  cs_height : height c = 0;
  cs_reachable : unreachable_ c = false;
  cs_known : Forall (fun t => exists x, t = Known x) (operands v);
  cs_end : end_which_emptied_control v = None;
}.

Definition is_ref (t : ValType) : Prop := exists r, t = Ref r.

Definition has_ref (v : OperatorValidator) : Prop := exists r, Known (Ref r) ∈ operands v.

Section stack.
Context {R : WasmModuleResources} (off : Z) (c : Frame).

(** A reference is not a subtype of a number. *)
Hypothesis Hns : forall r t, is_subtype (Ref r) t = Some true -> is_ref t.

Lemma check_popped_pure a t : pure (check_popped off a t).
Proof.
  unfold check_popped. destruct a as [|[u|]|a], t; auto with pure.
  all: repeat (apply pure_bind; [auto with pure|intros ?]); auto with pure.
Qed.

Lemma push_const t v (Q : () -> OperatorValidator -> Prop) :
  const_state c v ->
  (forall v', const_state c v' -> operands v' = Known t :: operands v -> Q tt v') -> post (push_type t) v Q.
Proof.
  intros [H1 H2 H3 H4 H5] HQ. unfold push_type, push_operand. apply post_bind. cbn. apply HQ; [|done].
  split; try done. cbn. constructor; [by eexists|done].
Qed.

(** The popped type; a number was popped where one is expected. *)
Lemma pop_const e v (Q : MaybeType ValType -> OperatorValidator -> Prop) :
  const_state c v ->
  (forall t v', operands v = Known t :: operands v' -> const_state c v' ->
     (forall t', e = Some t' -> is_ref t -> is_ref t') -> Q (Known t) v') ->
  post (pop_operand off e) v Q.
Proof.
  intros [H1 H2 H3 H4 H5] HQ. unfold pop_operand. apply post_bind. cbn. destruct (operands v) as [|ty ops] eqn:Eo.
  - unfold _pop_operand. do 2 (apply post_bind; cbn). rewrite H1. cbn. unfold post. cbn. rewrite Eo. cbn. by rewrite H2, H3.
  - inversion H4 as [|? ? [t ->] H4']; subst. apply post_bind. cbn. rewrite H1, H2.
    assert (Hlen : (0 <=? Z.of_nat (length ops)) = true) by (apply Z.leb_le; lia). rewrite Hlen, andb_true_r.
    set (v1 := set_operands ops v).
    assert (Hst : forall w, control w = control v -> operands w = ops ->
      end_which_emptied_control w = end_which_emptied_control v -> const_state c w).
    { intros w Hc Ho He. split; rewrite ?Hc, ?Ho, ?He; try done. }
    case_bool_decide as Ee.
    + apply post_bind. cbn. apply HQ; [done|by apply Hst|]. intros t' E. rewrite <- Ee in E. by injection E as ->.
    + unfold _pop_operand. do 2 (apply post_bind; cbn). unfold v1. cbn. rewrite H1. cbn. rewrite H2, H3.
      replace (Z.of_nat (Datatypes.S (length ops)) =? 0) with false by (symmetry; apply Z.eqb_neq; lia). cbn.
      apply post_bind, post_bind. cbn. apply post_bind. destruct e as [t'|].
      * unfold check_popped. apply post_bind. unfold post at 1. cbn.
        destruct (is_subtype t t') as [[]|] eqn:Es; cbn; [|done|done].
        apply post_bind. cbn. apply HQ; [done|by apply Hst|]. intros t'' [= <-] [r ->]. by apply (Hns r).
      * cbn. apply post_bind. cbn. by apply HQ; [|apply Hst|].
Qed.

Lemma pop_type_const t v (Q : () -> OperatorValidator -> Prop) :
  const_state c v ->
  (forall x v', operands v = Known x :: operands v' -> const_state c v' -> (is_ref x -> is_ref t) -> Q tt v') ->
  post (pop_type off t) v Q.
Proof.
  intros Hv HQ. unfold pop_type. apply post_bind, pop_const; [done|]. intros x v' Ho Hc Hr.
  apply (HQ x); [done..|]. by apply Hr.
Qed.

Lemma pop_types_const ts v : const_state c v -> post (pop_types off ts) v (fun _ => const_state c).
Proof. intros Hv. apply post_for; [done|]. intros t w Hw. by apply pop_type_const. Qed.

(** What an operator that is not [end] does. *)
Definition keeps (v v' : OperatorValidator) : Prop := const_state c v' /\ (has_ref v -> has_ref v').

Lemma push_keeps t v : const_state c v -> post (push_type t) v (fun _ v' => keeps v v' /\ (is_ref t -> has_ref v')).
Proof.
  intros Hv. apply push_const; [done|]. intros v' Hv' Ho. split; [split; [done|]|].
  - intros [r Hr]. exists r. rewrite Ho. by right.
  - intros [r ->]. exists r. rewrite Ho. left.
Qed.

(** A reference is left when one is pushed last. *)
Lemma push_ref_keeps v0 v r : const_state c v -> post (push_type (Ref r)) v (fun _ v' => keeps v0 v' /\ has_ref v').
Proof.
  intros Hv. eapply post_mono; [by apply push_keeps|]. intros [] v' [[Hc _] Hr].
  assert (has_ref v') by (apply Hr; by eexists). by split_and!.
Qed.

Lemma push_concrete_keeps v0 v b i :
  const_state c v -> post (push_concrete_ref off b i) v (fun _ v' => keeps v0 v' /\ has_ref v').
Proof.
  intros Hv. unfold push_concrete_ref. do 2 (apply post_bind, post_pure; [auto with pure|intros ?]).
  by apply push_ref_keeps.
Qed.

Lemma binary_keeps t v : ~ is_ref t -> const_state c v -> post (check_binary_op off t) v (fun _ v' => keeps v v').
Proof.
  intros Ht Hv. unfold check_binary_op.
  apply post_bind, pop_type_const; [done|]. intros x v1 Ho1 Hc1 Hx.
  apply post_bind, pop_type_const; [done|]. intros y v2 Ho2 Hc2 Hy.
  apply push_const; [done|]. intros v' Hv' Ho. split; [done|]. intros [r Hr]. exists r.
  rewrite Ho1, Ho2 in Hr. rewrite Ho.
  apply elem_of_cons in Hr as [[= <-]|Hr]; [by destruct Ht; apply Hx; eexists|].
  apply elem_of_cons in Hr as [[= <-]|Hr]; [by destruct Ht; apply Hy; eexists|]. by right.
Qed.

(** [end] takes the only value. *)
Lemma end_const ty v :
  const_state c v -> frame_kind c = FK_Block -> frame_block_type c = BT_Type ty ->
  post (visit_end off) v (fun _ v' =>
    control v' = [] /\ end_which_emptied_control v' = Some off /\ (has_ref v -> is_ref ty)).
Proof.
  intros Hv Hk Hb. unfold visit_end, pop_ctrl. apply post_bind. apply post_bind. cbn.
  rewrite (cs_control _ _ Hv). apply post_bind, post_pure; [auto with pure|intros li].
  apply post_bind. cbn. set (v1 := set_local_inits li v).
  assert (Hv1 : const_state c v1) by by destruct Hv. apply post_bind. rewrite Hb. cbn.
  apply post_bind. unfold pop_types. cbn [rev app for_]. apply post_bind, pop_type_const; [done|].
  intros x v2 Ho Hc2 Hx. cbn. apply post_bind. cbn. rewrite (cs_height _ _ Hc2).
  apply post_bind. unfold post at 1. unfold when. destruct (Z.eqb_spec (Z.of_nat (length (operands v2))) 0) as [E|E];
    cbn; [|done].
  apply post_bind, post_modify, post_ret. rewrite Hk, (cs_control _ _ Hc2). cbn [tail].
  rewrite bool_decide_false by done. apply post_bind, post_ret. rewrite Hb. cbn [results].
  apply post_bind, post_ret. unfold push_types. cbn [for_]. apply post_bind, post_bind. apply post_bind, post_modify.
  apply post_modify, post_ret, post_bind, post_gets. cbn. rewrite (cs_end _ _ Hc2).
  destruct (off =? 0); [done|]. apply post_modify. cbn.
  split_and!; [done..|]. intros [r Hr]. change (operands v1) with (operands v) in Ho. rewrite Ho in Hr.
  destruct (operands v2); [|done]. apply list_elem_of_singleton in Hr as [= <-]. apply Hx. by eexists.
Qed.

(** After the end of the expression nothing can be popped. *)
Definition after_end (e : Z) (v : OperatorValidator) : Prop :=
  control v = [] /\ end_which_emptied_control v = Some e.

Lemma pop_after e t v (Q : MaybeType ValType -> OperatorValidator -> Prop) : after_end e v -> post (pop_operand off t) v Q.
Proof.
  intros [Hc _]. unfold pop_operand. apply post_bind. cbn. destruct (operands v) as [|x ops].
  - unfold _pop_operand. do 2 (apply post_bind; cbn). by rewrite Hc.
  - apply post_bind. cbn. rewrite Hc. destruct x; unfold _pop_operand; do 2 (apply post_bind; cbn); by rewrite Hc.
Qed.

Lemma pop_type_after e t v (Q : () -> OperatorValidator -> Prop) : after_end e v -> post (pop_type off t) v Q.
Proof. intros Hv. unfold pop_type. by eapply post_bind, pop_after. Qed.

Lemma push_after e t v : after_end e v -> post (push_type t) v (fun _ => after_end e).
Proof. intros Hv. unfold push_type, push_operand. apply post_bind. by cbn. Qed.

Lemma push_concrete_after e b i v : after_end e v -> post (push_concrete_ref off b i) v (fun _ => after_end e).
Proof.
  intros Hv. unfold push_concrete_ref. do 2 (apply post_bind, post_pure; [auto with pure|intros ?]).
  by apply push_after.
Qed.

Lemma end_after e v (Q : () -> OperatorValidator -> Prop) : after_end e v -> post (visit_end off) v Q.
Proof. intros [Hc _]. unfold visit_end, pop_ctrl. do 2 (apply post_bind; cbn). by rewrite Hc. Qed.
End stack.

(** ** The operators *)

Definition is_const_op (o : Op.Operator) : bool :=
  match o with
  | Op.Mvp (Op.I32Const _ | Op.I64Const _ | Op.F32Const _ | Op.F64Const _ | Op.End | Op.GlobalGet _)
  | Op.Simd (Op.V128Const _) | Op.ReferenceTypes (Op.RefNull _ | Op.RefFunc _)
  | Op.Mvp (Op.I32Add | Op.I32Sub | Op.I32Mul | Op.I64Add | Op.I64Sub | Op.I64Mul)
  | Op.Gc (Op.StructNew _ | Op.StructNewDefault _ | Op.ArrayNew _ | Op.ArrayNewDefault _ | Op.ArrayNewFixed _ _
           | Op.RefI31)
  | Op.SharedEverythingThreads Op.RefI31Shared => true
  | _ => false
  end.

Lemma const_operator_is_const order f o off cv x : const_operator order f o off cv = Some x -> is_const_op o = true.
Proof. destruct o as [o|o|o|o|o|o|o|o|o|o|o|o|o|o|o|o|o]; destruct o; done. Qed.

Definition is_end_op (o : Op.Operator) : bool := match o with Op.Mvp Op.End => true | _ => false end.
Definition is_ref_func (o : Op.Operator) : bool := match o with Op.ReferenceTypes (Op.RefFunc _) => true | _ => false end.

Section operators.
Context {R : WasmModuleResources} (off : Z).
Hypothesis Hns : forall r t, is_subtype (Ref r) t = Some true -> is_ref t.

Lemma sub_type_at_pure i : pure (sub_type_at' off i).
Proof. unfold sub_type_at'. auto with pure. Qed.

Lemma struct_type_at_pure i : pure (struct_type_at off i).
Proof.
  unfold struct_type_at, check_access. apply pure_bind; [apply sub_type_at_pure|]. intros t.
  destruct (inner (composite_type_of t)); auto with pure.
Qed.

Lemma array_type_at_pure i : pure (array_type_at off i).
Proof.
  unfold array_type_at, check_access. apply pure_bind; [apply sub_type_at_pure|]. intros t.
  destruct (inner (composite_type_of t)); auto with pure.
Qed.

Lemma global_type_at_pure i : pure (global_type_at off i).
Proof. unfold global_type_at, check_access. destruct (global_at i); auto 10 with pure. Qed.

Lemma floats_pure : pure (check_floats_enabled off).
Proof. unfold check_floats_enabled. auto with pure. Qed.

(** The checks of an operator, then what it pops and pushes. *)
Ltac pure_steps := repeat match goal with
  | |- post (mbind _ _) _ _ =>
      apply post_bind, post_pure; [solve [auto using struct_type_at_pure, array_type_at_pure,
        global_type_at_pure, floats_pure with pure]|intros ?]
  end.

Lemma keeps_ref c v m (Q : Prop) :
  post m v (fun _ v' => keeps c v v' /\ has_ref v') -> post m v (fun (_ : ()) v' => keeps c v v' /\ (Q -> has_ref v')).
Proof. intros H. eapply post_mono; [exact H|]. intros [] v' []. done. Qed.

Lemma keeps_num c v m (o : Op.Operator) :
  is_ref_func o = false -> post m v (fun _ v' => keeps c v v') ->
  post m v (fun (_ : ()) v' => keeps c v v' /\ (is_ref_func o = true -> has_ref v')).
Proof. intros E H. eapply post_mono; [exact H|]. intros [] v' Hk. split; [done|]. by rewrite E. Qed.

Lemma push_num_keeps c t v o :
  is_ref_func o = false -> const_state c v ->
  post (push_type t) v (fun _ v' => keeps c v v' /\ (is_ref_func o = true -> has_ref v')).
Proof.
  intros E Hv. eapply post_mono; [by apply (push_keeps c)|]. intros [] v' [Hk _]. split; [done|]. by rewrite E.
Qed.

Lemma visit_const_keeps c o v :
  is_const_op o = true -> is_end_op o = false -> const_state c v ->
  post (visit_temp off o) v (fun _ v' => keeps c v v' /\ (is_ref_func o = true -> has_ref v')).
Proof.
  intros Ho He Hv. destruct o as [o|o|o|o|o|o|o|o|o|o|o|o|o|o|o|o|o]; destruct o; try done; clear Ho He;
    cbn [visit_temp visit_mvp visit_gc visit_reference_types visit_simd visit_shared_everything_threads].
  1: unfold visit_global_get.
  1-5: pure_steps; by apply push_num_keeps.
  1-6: apply keeps_num; [done|]; apply binary_keeps; [done|by intros [? ?]|done].
  all: try (apply push_num_keeps; [done..]); apply keeps_ref.
  - unfold visit_struct_new. pure_steps. eapply post_bind, post_mono; [by apply pop_types_const|].
    intros [] w Hw. by apply push_concrete_keeps.
  - unfold visit_struct_new_default. pure_steps. by apply push_concrete_keeps.
  - unfold visit_array_new. pure_steps. do 2 (apply post_bind; eapply pop_type_const; [done..|]; intros ? ? _ ? _).
    by apply push_concrete_keeps.
  - unfold visit_array_new_default. pure_steps. apply post_bind. eapply pop_type_const; [done..|]. intros ? ? _ ? _.
    by apply push_concrete_keeps.
  - unfold visit_array_new_fixed. pure_steps. apply post_bind.
    eapply post_mono; [apply (post_for _ (const_state c)); [done|]|].
    { intros _ w Hw. by eapply pop_type_const. }
    intros [] w Hw. by apply push_concrete_keeps.
  - apply post_bind. eapply pop_type_const; [done..|]. intros ? ? _ ? _. by apply push_ref_keeps.
  - unfold visit_ref_null. apply post_bind, post_gets, post_bind, post_pure; [case_match; auto with pure|intros _].
    pure_steps. by apply push_ref_keeps.
  - unfold visit_ref_func. pure_steps. by apply push_ref_keeps.
  - unfold visit_ref_i31_shared. apply post_bind. eapply pop_type_const; [done..|]. intros ? ? _ ? _.
    pure_steps. by apply push_ref_keeps.
Qed.

Lemma visit_const_after e o v :
  is_const_op o = true -> after_end e v -> post (visit_temp off o) v (fun _ v' => after_end e v' /\ is_end_op o = false).
Proof.
  intros Ho Hv. assert (Hk : forall m, post m v (fun (_ : ()) => after_end e) -> is_end_op o = false ->
    post m v (fun (_ : ()) v' => after_end e v' /\ is_end_op o = false)).
  { intros m H E. eapply post_mono; [exact H|]. by intros. }
  destruct o as [o|o|o|o|o|o|o|o|o|o|o|o|o|o|o|o|o]; destruct o; try done; clear Ho;
    cbn [visit_temp visit_mvp visit_gc visit_reference_types visit_simd visit_shared_everything_threads];
    try (by eapply end_after); apply Hk; try done; clear Hk.
  all: try (unfold visit_global_get; pure_steps; by apply push_after).
  all: try (by eapply post_bind, pop_type_after).
  - unfold visit_struct_new. pure_steps. eapply post_bind, post_mono.
    + apply post_for with (I := after_end e); [done|]. intros t w Hw. by eapply pop_type_after.
    + intros [] w Hw. by apply push_concrete_after.
  - unfold visit_struct_new_default. pure_steps. by apply push_concrete_after.
  - unfold visit_array_new. pure_steps. by eapply post_bind, pop_type_after.
  - unfold visit_array_new_default. pure_steps. by eapply post_bind, pop_type_after.
  - unfold visit_array_new_fixed. pure_steps. eapply post_bind, post_mono.
    + apply post_for with (I := after_end e); [done|]. intros t w Hw. by eapply pop_type_after.
    + intros [] w Hw. by apply push_concrete_after.
  - unfold visit_ref_null. apply post_bind, post_gets, post_bind, post_pure; [case_match; auto with pure|intros _].
    pure_steps. by apply push_after.
  - unfold visit_ref_func. pure_steps. by apply push_after.
Qed.

(** The check of the proposal comes first. *)
Lemma validate_visit o v (Q : () -> OperatorValidator -> Prop) :
  post (visit_temp off o) v Q -> post (validate_operator off o) v Q.
Proof.
  intros H. unfold validate_operator. apply post_bind, post_gets, post_bind, post_pure; [|done].
  destruct (validate_proposal _ o) as [[[] d]|]; unfold check_enabled; auto with pure.
Qed.
End operators.

(** ** Visiting an expression *)

(** An update of the module, whoever owns it. *)
Definition owned_map (g : WasmModule -> WasmModule) (x : MaybeOwned) : MaybeOwned :=
  match x with Owned m => Owned (g m) | Shared m => Shared (g m) end.

Lemma set_refs_wf T x m : module_wf T m -> module_wf T (set_m_function_references x m).
Proof. intros []. module_update m. Qed.

(** What is canonical depends on the list of types only. *)
Lemma valid_state_module T m m' v :
  valid_state (R := operator_resources m T) v -> valid_state (R := operator_resources m' T) v.
Proof. intros [[] He]. by split; [split|]. Qed.

Lemma operator_resources_no_ref m T r t :
  is_subtype (WasmModuleResources := operator_resources m T) (Ref r) t = Some true -> is_ref t.
Proof.
  cbn. unfold valtype_is_subtype. destruct (bool_decide_reflect (Ref r = t)) as [<-|]; [by eexists|].
  destruct t; try done. by eexists.
Qed.

Lemma new_const_expr_valid m T f ty :
  lists_wf T -> vt_over (is_id T) ty -> valid_state (R := operator_resources m T) (new_const_expr f ty).
Proof.
  intros HT Hty. split; [|done]. split; cbn; try done.
  - constructor; [|done]. cbn. by apply (vt_canonical_iff (operator_resources m T) T HT).
  - exists []. by split_and!; [apply locals_repr_empty|..].
Qed.

Section visit.
Context (order : Order) (f : WasmFeatures) (T : TypeList) (HT : view_wf T) (mo : MaybeOwned) (ty : ValType).
(** The expressions of data segments are numbers. *)
Hypothesis Hdata : order = O_Data -> ~ is_ref ty.
Hypothesis Howned : order <> O_Data -> exists m, mo = Owned m.

(** Either no [end] was seen, and a function that was not declared left a
    reference on the stack, or one was. *)
Definition stack_ok (pos : Z) (un : bool) (v : OperatorValidator) : Prop :=
  (exists c, const_state c v /\ frame_kind c = FK_Block /\ frame_block_type c = BT_Type ty
     /\ (un = true -> has_ref v))
  \/ (exists e, after_end e v /\ e < pos /\ (un = true -> e + 1 < pos)).

(** Only the functions that are referred to may change, and not in data segments. *)
Definition refs_only (mo' : MaybeOwned) : Prop :=
  (exists x, mo' = owned_map (set_m_function_references x) mo) /\ (order = O_Data -> mo' = mo).

Record visiting (pos : Z) (c : ConstVisitor) : Prop := {
  vg_module : module_wf T (owned_module (cv_module c));
  vg_same : refs_only (cv_module c);
  vg_state : valid_state (R := operator_resources (owned_module (cv_module c)) T) (cv_ops c);
  vg_data : cv_uninserted_funcref c = true -> order = O_Data;
  vg_stack : stack_ok pos (cv_uninserted_funcref c) (cv_ops c);
  vg_first : pos = 0 -> cv_ops c = new_const_expr f ty;
}.

(** What is checked before the operator. *)
Record prepared (o : Op.Operator) (c c' : ConstVisitor) : Prop := {
  pp_ops : cv_ops c' = cv_ops c;
  pp_module : module_wf T (owned_module (cv_module c'));
  pp_same : refs_only (cv_module c');
  pp_data : cv_uninserted_funcref c' = true -> order = O_Data;
  pp_func : cv_uninserted_funcref c' = true -> is_ref_func o = true \/ cv_uninserted_funcref c = true;
}.

Lemma const_operator_ok pos o off c x :
  visiting pos c -> const_operator order f o off c = Some x -> rsafe x (prepared o c).
Proof.
  intros [Hm Hs Hv Hd _ _] Hx. assert (Hid : prepared o c c) by (split; auto).
  assert (Hif : forall b : bool, rsafe (if b then Ok c else Err (not_const off)) (prepared o c)) by by intros [].
  destruct o as [o|o|o|o|o|o|o|o|o|o|o|o|o|o|o|o|o]; destruct o; try done; cbn [const_operator] in Hx;
    injection Hx as <-; try done; try apply Hif; clear Hif.
  - apply rsafe_bind. unfold validate_global, module_global_at. destruct (m_globals _ !! _); [|done]. cbn [mbind result_bind].
    do 2 (apply rsafe_check; intros _). done.
  - unfold insert_ref_func. case_bool_decide as Eo.
    + apply rsafe_ok. split; cbn; auto.
    + destruct Hs as [[x Hx] _]. destruct (Howned Eo) as [m Hmo]. rewrite Hx, Hmo in *. cbn. split; cbn; auto.
      * apply set_refs_wf. exact Hm.
      * split; [|done]. rewrite Hmo. by eexists.
Qed.

Lemma visit_const_operator_ok pos o c f' :
  0 <= pos -> op_wf f' o -> visiting pos c ->
  rsafe (visit_const_operator order f T pos o c) (fun c' => forall pos', pos < pos' -> visiting pos' c').
Proof.
  intros Hpos Ho Hv. unfold visit_const_operator. destruct (const_operator order f o pos c) as [x|] eqn:Ex; [|done].
  pose proof (const_operator_is_const _ _ _ _ _ _ Ex) as Hconst. apply rsafe_bind.
  eapply rsafe_mono; [by eapply const_operator_ok|]. clear Ex. intros c1 [Eo Hm1 Hs1 Hd1 Hf1].
  destruct Hv as [_ _ Hst _ Hstack Hfirst]. set (R := operator_resources (owned_module (cv_module c1)) T).
  assert (Hst1 : valid_state (R := R) (cv_ops c)) by by eapply valid_state_module.
  assert (RS : ResourcesSpec R) by by apply operator_resources_spec.
  assert (Hns : forall r t, is_subtype (WasmModuleResources := R) (Ref r) t = Some true -> is_ref t)
    by apply operator_resources_no_ref.
  rewrite Eo. destruct (decide (is_end_op o = true /\ pos = 0)) as [[Hend ->]|Hne].
  { rewrite (Hfirst eq_refl). destruct o as [[]| | | | | | | | | | | | | | | |]; done. }
  assert (Hoff : o = Op.Mvp Op.End -> pos <> 0) by (intros -> ->; by apply Hne).
  destruct Hst1 as [Hi1 He1].
  pose proof (validate_operator_safe (RS := RS) pos (cv_ops c) Hi1 He1 f' o Ho Hoff) as Hsafe.
  unfold safe in Hsafe.
  assert (Hpost : post (validate_operator (R := R) pos o) (cv_ops c) (fun _ v' => forall pos', pos < pos' ->
    stack_ok pos' (cv_uninserted_funcref c1) v')).
  { apply validate_visit. destruct Hstack as [(fr & Hc & Hk & Hb & Hun)|(e & Ha & He & Hun)].
    - destruct (is_end_op o) eqn:Eend.
      + destruct o as [[]| | | | | | | | | | | | | | | |]; try done.
        eapply post_mono; [by apply (end_const pos fr Hns ty)|]. intros [] v' (H1 & H2 & H3) pos' Hp. right.
        exists pos. split_and!; [done..|]. intros Hu. destruct (Hf1 Hu) as [?|Hu']; [done|].
        destruct (Hdata (Hd1 Hu)). by apply H3, Hun.
      + eapply post_mono; [by apply (visit_const_keeps pos Hns fr)|]. intros [] v' [[Hc' Hr] Hrf] pos' _. left.
        exists fr. split_and!; [done..|]. intros Hu. destruct (Hf1 Hu) as [?|Hu']; [by apply Hrf|by apply Hr, Hun].
    - eapply post_mono; [by apply (visit_const_after pos e)|]. intros [] v' [Ha' _] pos' Hp. right.
      exists e. split_and!; [done|lia|]. intros _. lia. }
  unfold post in Hpost. destruct (validate_operator pos o (cv_ops c)) as [[[]|e|] v']; [|done..].
  intros pos' Hp. destruct Hsafe as [Hi' He' _ _]. split; cbn; [done..|by split|done|by apply Hpost|lia].
Qed.

Lemma visit_const_operators_ok fuel r c :
  wf_reader r -> visiting (original_position r) c -> (length (remaining_buffer r) <= fuel)%nat ->
  rsafe (visit_const_operators order f T fuel r c) (fun '(r', c') => visiting (original_position r') c').
Proof.
  revert r c. induction fuel as [|fuel IH]; intros r c Hr Hv Hf; cbn [visit_const_operators].
  - destruct (eof r) eqn:E; [done|]. rewrite remaining_nil_eof in E by done.
    apply bool_decide_eq_false in E. destruct (remaining_buffer r); [done|cbn in Hf; lia].
  - destruct (eof r) eqn:E; [done|].
    pose proof (visit_operator_outcome r true (visit_const_operator order f T (original_position r)) Hr) as H.
    destruct (visit_operator true _ r) as [[m|e|] r1]; [|done..]. destruct H as (op & k & -> & Hop & Hk & ->).
    apply rsafe_bind. eapply rsafe_mono; [eapply visit_const_operator_ok; [|done|done]|].
    { destruct Hr. unfold original_position. lia. }
    intros c' Hc'. apply IH.
    + apply wf_advance; [done|lia].
    + apply Hc'. rewrite advance_original_position. lia.
    + rewrite remaining_advance, length_drop by apply Hr. lia.
Qed.
End visit.

(** * The items of sections: adding one to the state of a module preserves the
    invariant [ms_wf], and so does a whole section. *)

(** ** The invariant of the state *)

Record ms_wf (T : TypeList) (s : ModuleState) : Prop := {
  ms_mod : module_wf T (module_of s);
  ms_shared m : ms_module s = Shared m -> order_index O_Code <= order_index (ms_order s);
  ms_snap S : m_snapshot (module_of s) = Some S ->
    view_wf S /\ grows T S /\ grows S T /\ order_index O_Code <= order_index (ms_order s);
  ms_expected : order_index (ms_order s) < order_index O_Function -> expected_code_bodies s = None;
  ms_index : order_index (ms_order s) < order_index O_Code -> code_section_index s = None;
}.

(** What a state says about the bodies of functions. *)
Record Bodies := mkBodies {
  b_module : WasmModule;
  b_expected : option Z;
  b_index : option Z;
}.

Definition bodies_of (s : ModuleState) : Bodies :=
  mkBodies (module_of s) (expected_code_bodies s) (code_section_index s).

(** What does not depend on more of the module than its functions. *)
Definition stable (B : Bodies -> Prop) : Prop :=
  forall m m' e i, defined m' = defined m -> B (mkBodies m e i) -> B (mkBodies m' e i).

(** The invariant while a section is read, with what is known of the bodies. *)
Record sec_inv (order : Order) (T : TypeList) (B : Bodies -> Prop) (s : ModuleState) : Prop := {
  si_wf : ms_wf T s;
  si_order : ms_order s = order;
  si_owned : order <> O_Data -> exists m, ms_module s = Owned m;
  si_bodies : B (bodies_of s);
}.

(** A module that was updated in place. *)
Lemma update_ms_wf T s m m' :
  ms_wf T s -> ms_module s = Owned m -> module_wf T m' -> m_snapshot m' = m_snapshot m ->
  ms_wf T (set_ms_module (Owned m') s).
Proof.
  intros [Hm _ Hsn He Hi] Eo Hm' Es. split; cbn; [done|done| |done|done].
  intros S HS. apply Hsn. unfold module_of. rewrite Eo. cbn. congruence.
Qed.

Lemma update_sec_inv order T B B' s m m' :
  sec_inv order T B s -> ms_module s = Owned m -> module_wf T m' -> m_snapshot m' = m_snapshot m ->
  B' (bodies_of (set_ms_module (Owned m') s)) -> sec_inv order T B' (set_ms_module (Owned m') s).
Proof. intros [Hs Ho _ _] Eo Hm' Es HB. split; [by eapply update_ms_wf|done| |done]. intros _. by eexists. Qed.

Lemma same_defined m m' : same_functions m m' -> defined m' = defined m.
Proof. intros [Ef Ei]. unfold defined. by rewrite Ef, Ei. Qed.

Lemma stable_update B s m m' :
  stable B -> ms_module s = Owned m -> defined m' = defined m -> B (bodies_of s) ->
  B (bodies_of (set_ms_module (Owned m') s)).
Proof.
  intros HB Em Hd. unfold bodies_of, module_of. rewrite Em. cbn. by apply HB.
Qed.

Lemma refs_sec_inv order T B s mo :
  sec_inv order T B s -> refs_only order (ms_module s) mo -> (order <> O_Data -> stable B) ->
  sec_inv order T B (set_ms_module mo s).
Proof.
  intros Hs [[x ->] Hd] HB. destruct (decide (order = O_Data)) as [Ho|Hne].
  { rewrite Hd by done. by destruct s. }
  destruct (si_owned _ _ _ _ Hs Hne) as [m Em]. rewrite Em. cbn [owned_map].
  pose proof (ms_mod _ _ (si_wf _ _ _ _ Hs)) as Hm. unfold module_of in Hm. rewrite Em in Hm.
  eapply update_sec_inv; [done..|by apply set_refs_wf|done|].
  apply (stable_update B s m); [by apply HB|done..|apply Hs].
Qed.

Section items.
Context (order : Order) (B : Bodies -> Prop) (HB : order <> O_Data -> stable B).
Context (f f' : WasmFeatures) (T : TypeList) (HT : view_wf T) (off : Z).
Implicit Types s : ModuleState.
Let HL : lists_wf T := vw_lists _ HT.

Lemma check_const_expr_ok e ty s :
  const_expr_wf f' e -> vt_over (is_id T) ty -> (order = O_Data -> ~ is_ref ty) -> sec_inv order T B s ->
  rsafe (check_const_expr e ty f T s) (sec_inv order T B).
Proof.
  intros [_ (ops & Hops)] Hty Hd Hs. destruct (Hs) as [Hwf Ho Hown _]. unfold check_const_expr. rewrite Ho.
  cbn [op_reader const_expr_operators_reader OperatorsReader_new]. apply rsafe_bind.
  assert (Hv0 : forall pos, visiting order f T (ms_module s) ty pos
                  (mkConstVisitor false (new_const_expr f ty) (ms_module s))).
  { intros pos. split; cbn; [apply Hwf| |by apply new_const_expr_valid|done| |done].
    - split; [|done]. exists (m_function_references (module_of s)). unfold module_of. by destruct (ms_module s) as [[]|[]].
    - left. exists (mkFrame FK_Block (BT_Type ty) 0 false 0). split_and!; [by split|done..]. }
  eapply rsafe_mono; [eapply (visit_const_operators_ok order f T HT (ms_module s) ty Hd Hown); [apply Hops|apply Hv0|done]|].
  intros [r c] [Hm Hx Hst Hda Hstack _].
  pose proof (finish_safe (R := operator_resources (owned_module (cv_module c)) T) (original_position r) (cv_ops c) Hst)
    as Hfin. unfold safe in Hfin.
  destruct (finish (original_position r) (cv_ops c)) as [[[]|e'|] v']; [|done..]. destruct Hfin as (-> & Hc & He).
  destruct Hstack as [(fr & Hcs & _)|(e1 & [_ He1] & _ & Hun)].
  { rewrite (cs_control _ _ Hcs) in Hc. done. }
  rewrite He in He1. injection He1 as <-. destruct (cv_uninserted_funcref c) eqn:Eu.
  { specialize (Hun eq_refl). lia. }
  cbn. by apply refs_sec_inv.
Qed.

Lemma update_module_ok s g :
  sec_inv order T B s -> order <> O_Data ->
  (forall m, module_wf T m -> updated T m (g m)) ->
  rsafe (update_module g s) (sec_inv order T B).
Proof.
  intros Hs Hne Hg. unfold update_module. destruct (si_owned _ _ _ _ Hs Hne) as [m Em]. rewrite Em. cbn.
  assert (Hm : module_wf T m).
  { pose proof (ms_mod _ _ (si_wf _ _ _ _ Hs)) as H. unfold module_of in H. by rewrite Em in H. }
  destruct (Hg m Hm) as (Hm' & [Ht Hsn] & Hf). eapply update_sec_inv; [done..|].
  apply (stable_update B s m); [by apply HB|done|by apply same_defined|apply Hs].
Qed.

(** The module that the checks see. *)
Lemma sec_inv_module s : sec_inv order T B s -> module_wf T (module_of s).
Proof. intros Hs. apply Hs. Qed.

Lemma add_global_ok g s :
  global_wf f' g -> order <> O_Data -> sec_inv order T B s -> rsafe (add_global g f T off s) (sec_inv order T B).
Proof.
  intros [Hg He] Hne Hs. unfold add_global. apply rsafe_bind.
  eapply rsafe_mono; [apply (check_global_type_ok T HT _ (sec_inv_module s Hs) f off _ f' Hg)|]. intros ty Hty.
  apply rsafe_bind. eapply rsafe_mono; [by apply check_const_expr_ok|]. intros s' Hs'.
  apply update_module_ok; [done..|]. intros m Hm. split_and!; [|done..]. destruct Hm; module_update m. by apply Forall_snoc.
Qed.

Lemma add_table_ok t s :
  table_wf f' t -> order <> O_Data -> sec_inv order T B s -> rsafe (add_table t f T off s) (sec_inv order T B).
Proof.
  intros [Ht He] Hne Hs. unfold add_table. apply rsafe_bind.
  eapply rsafe_mono; [apply (check_table_type_ok T HT _ (sec_inv_module s Hs) f off _ Ht)|]. intros ty Hty.
  apply rsafe_bind. apply (rsafe_mono _ (sec_inv order T B)).
  { destruct (table_init t) as [|e]; apply rsafe_check; intros _; [done|]. by apply check_const_expr_ok. }
  intros s' Hs'. apply update_module_ok; [done..|]. intros m Hm. split_and!; [|done..].
  destruct Hm; module_update m. by apply Forall_snoc.
Qed.

Lemma index_type_not_ref (b : bool) : ~ is_ref (if b then I64 else I32).
Proof. by destruct b; intros [r ?]. Qed.

Lemma index_type_over P (b : bool) : vt_over P (if b then I64 else I32).
Proof. by destruct b. Qed.

Lemma add_data_segment_ok d s :
  data_wf f' d -> sec_inv order T B s -> rsafe (add_data_segment d f T off s) (sec_inv order T B).
Proof.
  intros [_ Hk] Hs. unfold add_data_segment. destruct (data_kind d) as [|i e]; [done|]. destruct Hk as [_ He].
  unfold module_memory_at. destruct (m_memories (module_of s) !! Z.to_nat i) as [mem|]; [|done].
  cbn [mbind result_bind]. apply check_const_expr_ok; [done|apply index_type_over|intros _; apply index_type_not_ref|done].
Qed.

Lemma check_element_kind_ok k ty s :
  match k with ELK_Active _ e => const_expr_wf f' e | _ => True end ->
  rt_over (is_id T) ty -> order <> O_Data -> sec_inv order T B s ->
  rsafe (check_element_kind k ty f T off s) (sec_inv order T B).
Proof.
  intros Hk Hty Hne Hs. unfold check_element_kind. destruct k as [|ti e|]; try (by apply rsafe_check).
  unfold module_table_at. destruct (m_tables (module_of s) !! _) as [t|] eqn:Et; [|done]. cbn [mbind result_bind].
  assert (Ht : rt_over (is_id T) (table_element_type t)).
  { exact (Forall_lookup_1 _ _ _ _ (mw_tables _ _ (sec_inv_module s Hs)) Et). }
  destruct (reftype_is_subtype_spec T HL ty None _ None Hty Ht) as (r & Hr & _). unfold reftype_is_subtype. rewrite Hr.
  cbn [expect mbind result_bind]. apply rsafe_check. intros _.
  apply check_const_expr_ok; [done|apply index_type_over|done|done].
Qed.

Lemma get_func_type_ok m i : module_wf T m -> rsafe (get_func_type m i T off) (fun _ => True).
Proof.
  intros Hm. unfold get_func_type. destruct (m_functions m !! Z.to_nat i) as [ti|] eqn:E; [|done].
  destruct (Forall_lookup_1 _ _ _ _ (mw_functions _ _ Hm) E) as (_ & id & Eid & t & g & Ht & Hg).
  unfold module_func_type_at, module_sub_type_at, type_id_at. rewrite Eid. cbn [mbind result_bind].
  rewrite Ht. cbn [expect mbind result_bind]. by rewrite Hg.
Qed.
End items.

(** ** Sections *)

Section loop.
Context {A S : Type} `{FromReader A}.

(** A loop over the items that a section yields; [I k] holds after [k] items. *)
Lemma section_loop_inv (P : A -> Prop) (I : nat -> S -> Prop) (body : Z -> A -> S -> result S) n fuel r c s k :
  (n + 1 < fuel)%nat ->
  Forall P (section_items n r).1 -> (section_items (A := A) n r).2 <> Panic -> I k s ->
  (forall j off a s, (j < k + n)%nat -> P a -> I j s -> rsafe (body off a s) (I (Datatypes.S j))) ->
  rsafe (section_loop fuel body (mkIter (mkSection r c) (Z.of_nat n) false) s) (I (k + n)%nat).
Proof.
  revert fuel r s k. induction n as [|n IH]; intros [|fuel] r s k Hf HP Hst HI Hb; try lia;
    cbn [section_loop]; unfold section_next_with_offset; rewrite section_next_items; cbn [section_items] in HP, Hst.
  - rewrite Nat.add_0_r. by destruct (eof r).
  - destruct (read r) as [[a|e|] r1]; [|done|done]. cbn [is_err mbind result_bind fst snd].
    destruct (section_items n r1) as [xs st] eqn:Ei. cbn [fst snd] in *. inversion HP as [|? ? Ha Hxs]; subst.
    apply rsafe_bind. eapply rsafe_mono; [apply (Hb k); [lia|done|done]|]. intros s' HI'.
    replace (k + Datatypes.S n)%nat with (Datatypes.S k + n)%nat by lia.
    apply IH; [lia|by rewrite Ei|by rewrite Ei|done|]. intros j off a' s'' Hj. apply Hb. lia.
Qed.

Lemma for_section_inv (P : A -> Prop) (I : nat -> S -> Prop) (body : Z -> A -> S -> result S) sec s :
  0 <= sec_count sec ->
  Forall P (section_items (Z.to_nat (sec_count sec)) (sec_reader sec)).1 ->
  (section_items (A := A) (Z.to_nat (sec_count sec)) (sec_reader sec)).2 <> Panic -> I 0%nat s ->
  (forall j off a s, (j < Z.to_nat (sec_count sec))%nat -> P a -> I j s -> rsafe (body off a s) (I (Datatypes.S j))) ->
  rsafe (for_section body sec s) (I (Z.to_nat (sec_count sec))).
Proof.
  intros Hc HP Hst HI Hb. destruct sec as [r n]. unfold for_section, section_into_iter. cbn [sec_count sec_reader] in *.
  rewrite <- (Z2Nat.id n) at 3 by done. apply (section_loop_inv P I body (Z.to_nat n) _ r n s 0%nat); [lia|done..].
Qed.
End loop.

(** A list of items that is read again. *)
Lemma for_yields {A} `{FromReader A} (P : A -> Prop) (I : ModuleState -> Prop) body sec xs s :
  yields sec xs -> Forall P xs -> I s ->
  (forall off a s, P a -> I s -> rsafe (body off a s) I) -> rsafe (for_section body sec s) I.
Proof.
  intros (Hc & Hi & _) HP HI Hb. apply (for_section_inv P (fun _ => I)); rewrite ?Hi; try done; [apply Hc|].
  intros j o a s' _. apply Hb.
Qed.

Section elements.
Context (order : Order) (B : Bodies -> Prop) (HB : order <> O_Data -> stable B).
Context (f f' : WasmFeatures) (T : TypeList) (HT : view_wf T) (off : Z).
Hypothesis Hne : order <> O_Data.

Lemma add_element_function_ok o i s :
  sec_inv order T B s -> rsafe (add_element_function T o i s) (sec_inv order T B).
Proof.
  intros Hs. unfold add_element_function. apply rsafe_bind.
  eapply rsafe_mono; [apply get_func_type_ok, (sec_inv_module _ _ _ _ Hs)|]. intros fty _.
  apply update_module_ok; [done..|]. intros m Hm. split_and!; [by apply set_refs_wf|done..].
Qed.

Lemma add_element_segment_ok e s :
  element_wf f' e -> sec_inv order T B s -> rsafe (add_element_segment e f T off s) (sec_inv order T B).
Proof.
  intros [Hi Hk] Hs. unfold add_element_segment. apply rsafe_bind. apply (rsafe_mono _ (rt_over (is_id T))).
  { destruct (element_items_of e) as [sec|ty sec]; [apply func_over|]. destruct Hi as [Hty _].
    by apply (module_check_ref_type_ok T _ (sec_inv_module _ _ _ _ Hs)). }
  intros ty Hty. apply rsafe_bind. eapply rsafe_mono; [apply (check_element_kind_ok order B HB f f' T HT off _ ty s)|]; try done.
  { destruct (element_kind e); try done. apply Hk. }
  intros s1 Hs1. apply rsafe_bind. apply (rsafe_mono _ (sec_inv order T B)).
  - destruct (element_items_of e) as [sec|ty' sec].
    + destruct Hi as (fs & Hy & Hfs). unfold validate_count. apply rsafe_bind, rsafe_check. intros _.
      apply (for_yields (in_u 32) _ _ _ fs); [done..|]. intros o i s' _. apply add_element_function_ok.
    + destruct Hi as (_ & es & Hy & Hes). unfold validate_count. apply rsafe_bind, rsafe_check. intros _.
      apply (for_yields (const_expr_wf f') _ _ _ es); [done..|]. intros o x s' Hx Hs'.
      by apply (check_const_expr_ok order B HB f f').
  - intros s' Hs'. apply update_module_ok; [done..|]. intros m Hm. split_and!; [|done..].
    destruct Hm; module_update m. by apply Forall_snoc.
Qed.
End elements.
