(* ===== verification/ModuleValidatorSpec.v ===== *)
(** The sections of a module: each keeps the invariant [validator_wf] of the
    validator, and none makes it panic. *)

From Stdlib Require Import ZArith Lia String Relations.
From stdpp Require Import prelude relations gmap.
From S2P Require Import Prelude StateLogic Leb128 BinaryReader BinaryReaderSpec ReaderLogic Types TypesSpec.
From S2P Require Import Operands Operators OperandSpec OperatorSpec InstrRoundtrip SectionReader CompositeTypes.
From S2P Require Import Items EncSections ReencodeSections Locality FunctionSpec CompositeSpec SectionSpec.
From S2P Require Import ItemSpec SectionItems Parser ParserSpec ValidatorState Arity TypeList Canonical.
From S2P Require Import ModuleState ModuleValidator TypeListSpec TypeMatch InternSpec AddTypesSpec.
From S2P Require Import ModuleStateSpec ModuleItemsSpec.

Local Open Scope Z_scope.

(** ** Snapshots of the types *)

(** Lists with the same items, however they are split. *)
Record same_items (T T' : TypeList) : Prop := {
  sm_types : tys T' = tys T;
  sm_groups : grps T' = grps T;
  sm_supers : sups T' = sups T;
  sm_elems : elems T' = elems T;
}.

Lemma same_items_grows T T' : same_items T T' -> grows T T' /\ grows T' T.
Proof. intros [E1 E2 E3 E4]. split; split; by rewrite ?E1, ?E2, ?E3, ?E4. Qed.

Lemma view_wf_same T T' : view_wf T -> lists_wf T' -> same_items T T' -> view_wf T'.
Proof.
  intros [HT Hc] HT' Hs. split; [done|]. intros i t Hi. apply (checked_grows T); [done..|by destruct (same_items_grows T T')|].
  apply Hc. by rewrite <- (sm_types _ _ Hs).
Qed.

Lemma types_wf_same T T' :
  types_wf T -> lists_wf T' -> same_items T T' -> core_type_to_depth T' = core_type_to_depth T ->
  canonical_rec_groups T' = canonical_rec_groups T -> types_wf T'.
Proof.
  intros HT HL' Hs Ed Eg. destruct (Hs) as [E1 E2 E3 E4]. pose proof (types_wf_view _ HT) as HV.
  destruct HT as [HL Hc (dm & Hd & Hok) (gm & Hg & Gok)]. unfold types_wf. rewrite E1. split; [done|..].
  - intros i t _ Hi. by apply (vw_checked _ (view_wf_same _ _ HV HL' Hs)).
  - exists dm. split; [congruence|]. apply (depths_ok_grows T); [by destruct (same_items_grows T T')|by rewrite lw_supers_len|done].
  - exists gm. split; [congruence|]. destruct Gok as [He Hk Hi Hn]. split; [|done|done|by rewrite E1, E4].
    eapply Forall_impl; [exact He|]. intros e (start & ts & H0 & H1 & H2 & H3). exists start, ts. rewrite E4.
    split_and!; [done..|]. intros n t Ht. rewrite E1. by apply H3.
Qed.

Lemma depths_same T T' :
  types_wf T -> same_items T T' -> exists dm, depths_ok T' (length (tys T')) dm.
Proof.
  intros HT Hs. destruct (aw_depth _ _ HT) as (dm & _ & Hok). exists dm. rewrite (sm_types _ _ Hs).
  apply (depths_ok_grows T); [by destruct (same_items_grows T T')| |done]. by rewrite (lw_supers_len _ (aw_lists _ _ HT)).
Qed.

Lemma lists_wf_same T T' :
  lists_wf T -> same_items T T' -> snap_wf (core_types T') -> snap_wf (core_type_to_rec_group T') ->
  snap_wf (core_type_to_supertype T') -> snap_wf (rec_group_elements T') -> lists_wf T'.
Proof.
  intros [_ _ _ _ H1 H2 H3 H4] [E1 E2 E3 E4] ? ? ? ?. split; unfold ntypes; rewrite ?E1, ?E2, ?E3, ?E4; done.
Qed.

(** A snapshot has the types so far, and so has the list that is left behind. *)
Lemma types_commit_ok T :
  types_wf T ->
  let (S, T') := types_commit T in
  view_wf S /\ types_wf T' /\ same_items T S /\ same_items T T'.
Proof.
  intros HT. pose proof (types_wf_view _ HT) as HV. pose proof (vw_lists _ HV) as HL.
  destruct (HL) as [H1 H2 H3 H4 _ _ _ _]. unfold types_commit.
  apply snapshot_commit_ok in H1, H2, H3, H4.
  destruct (snapshot_commit (core_types T)) as [a a'], (snapshot_commit (core_type_to_rec_group T)) as [b b'].
  destruct (snapshot_commit (core_type_to_supertype T)) as [c c'], (snapshot_commit (rec_group_elements T)) as [d d'].
  destruct H1 as (? & ? & ? & ?), H2 as (? & ? & ? & ?), H3 as (? & ? & ? & ?), H4 as (? & ? & ? & ?).
  set (S := mkTypeList a b c _ d _). set (T' := mkTypeList a' b' c' _ d' _).
  assert (HS : same_items T S) by done. assert (HS' : same_items T T') by done.
  split_and!; [|by apply (types_wf_same T); [|apply (lists_wf_same T)|..]|done..].
  by apply (view_wf_same T); [|apply (lists_wf_same T)|].
Qed.

(** ** Modules when the types grow *)

Section grow.
Context (T T' : TypeList) (HT : lists_wf T) (HT' : lists_wf T') (G : grows T T').

Lemma func_id_grows id : func_id T id -> func_id T' id.
Proof. intros (t & f & Ht & Hf). exists t, f. split; [by apply (grows_type_at T T')|done]. Qed.

Lemma func_index_grows m ids i : func_index T m i -> func_index T' (set_m_types (m_types m ++ ids) m) i.
Proof.
  intros (H0 & id & Hid & Hf). split; [done|]. exists id. split; [|by apply func_id_grows].
  cbn. by apply lookup_app_l_Some.
Qed.

Lemma module_wf_grows m ids :
  module_wf T m -> module_types_ok T' (set_m_types (m_types m ++ ids) m) ->
  module_wf T' (set_m_types (m_types m ++ ids) m).
Proof.
  intros [Hty Hfu Hta Hgl Hel Htg ? ? ? ? ?] Ht'. split; cbn; try done; (eapply Forall_impl; [done|]).
  - intros. by apply func_index_grows.
  - intros t Ht. cbn in Ht. eapply rt_over_mono; [|done]. intros; by apply (grows_is_id T T').
  - intros. by apply (grows_vt_over T T').
  - intros t Ht. eapply rt_over_mono; [|done]. intros; by apply (grows_is_id T T').
  - intros. by apply func_id_grows.
Qed.
End grow.

(** ** Function bodies *)

(** A function that can be validated, with the module that is its resources. *)
Definition func_ready (f : FuncToValidate) (m : WasmModule) (body : FunctionBody) : Prop :=
  wf_reader (body_reader body)
  /\ exists S, m_snapshot m = Some S /\ view_wf S /\ module_wf S m /\ func_index S m (ftv_ty f).

(** The function number [j] of those that are not imported, and its place in the index space. *)
Definition func_place (m : WasmModule) (j : nat) : Z := m_num_imported_functions m + Z.of_nat j.

Definition collected (m : WasmModule) (j : nat) (x : (FuncToValidate * WasmModule) * FunctionBody) : Prop :=
  let '((f, m'), body) := x in
  ftv_index f = wrap 32 (func_place m j) /\ m_functions m !! Z.to_nat (func_place m j) = Some (ftv_ty f)
  /\ m' = m /\ func_ready f m body.

(** The number of bodies so far. *)
Definition b_done (b : Bodies) : Z :=
  match b_index b with Some i => i - m_num_imported_functions (b_module b) | None => 0 end.

(** The bodies [fs] were found and [left] are still to come. *)
Record bodies_inv (left : Z) (fs : list ((FuncToValidate * WasmModule) * FunctionBody)) (b : Bodies) : Prop := {
  bi_count :
    match b_expected b with
    | Some n => b_index b = None /\ n = defined (b_module b) /\ left = 0
    | None => b_done b + left = defined (b_module b)
    end;
  bi_done : b_done b = Z.of_nat (length fs);
  bi_collected j x : fs !! j = Some x -> collected (b_module b) j x;
}.

Lemma bodies_none left fs b : bodies_inv left fs b -> b_index b = None -> fs = [].
Proof. intros [_ Hd _] E. unfold b_done in Hd. rewrite E in Hd. by destruct fs. Qed.

(** Sections that come before all bodies. *)
Definition no_bodies (fs : list ((FuncToValidate * WasmModule) * FunctionBody)) (b : Bodies) : Prop :=
  bodies_inv 0 fs b /\ b_index b = None.

(** Without bodies, the module may still change. *)
Lemma no_bodies_stable fs : stable (no_bodies fs).
Proof.
  intros m m' e i Hd [Hb Ei]. cbn in Ei. subst i. split; [|done].
  pose proof (bodies_none _ _ _ Hb eq_refl) as ->. destruct Hb as [Hc _ _]. split; [|done..]. cbn in *. by rewrite Hd.
Qed.

(** ** The invariant of the validator *)

Definition validator_wf (left : Z) (fs : list ((FuncToValidate * WasmModule) * FunctionBody)) (v : Validator)
  : Prop :=
  types_wf (v_types v)
  /\ match v_state v with
     | VS_Unparsed _ => v_module v = None /\ ntypes (v_types v) + MAX_WASM_TYPES <= 2 ^ 20 /\ left = 0 /\ fs = []
     | VS_Module => exists s, v_module v = Some s /\ ms_wf (v_types v) s /\ bodies_inv left fs (bodies_of s)
         /\ (0 < left -> is_Some (m_snapshot (module_of s)))
     | VS_End => v_module v = None
     end.

(** The room for types in a validator that has not been used. *)
Lemma new_with_features_wf f : validator_wf 0 [] (new_with_features f).
Proof. split; [apply TypeAlloc_default_wf|done]. Qed.

(** The place of the last section; a section comes after those before it. *)
Definition order_of (v : Validator) : Z :=
  match v_module v with Some s => order_index (ms_order s) | None => -1 end.

Definition moved (o : option Order) (v v' : Validator) : Prop :=
  match o with
  | Some o => order_of v < order_index o /\ order_of v' = order_index o
  | None => order_of v <= order_of v'
  end.

(** What a payload, of a section or not, leaves behind. *)
Definition section_post (left : Z) (fs : list ((FuncToValidate * WasmModule) * FunctionBody)) (o : option Order)
  (v v' : Validator) : Prop :=
  validator_wf left fs v' /\ moved o v v'.

Record entered (order : Order) (T : TypeList) (s s' : ModuleState) : Prop := {
  en_inv B : B (bodies_of s) -> sec_inv order T B s';
  en_after : order_index (ms_order s) < order_index order;
  en_same : bodies_of s' = bodies_of s;
  en_expected : order_index order <= order_index O_Function -> expected_code_bodies s = None;
  en_index : order_index order <= order_index O_Code -> code_section_index s = None;
}.

Lemma update_order_ok order off T s :
  ms_wf T s -> rsafe (update_order order off s) (entered order T s).
Proof.
  intros [Hm Hsh Hsn He Hi]. unfold update_order.
  destruct (Z.leb_spec (order_index order) (order_index (ms_order s))) as [?|Hlt]; [done|].
  split; [intros B HB; split; [split|done| |done]|done|done|..]; cbn in *.
  - done.
  - intros m Em. specialize (Hsh m Em). lia.
  - intros S HS. destruct (Hsn S HS) as (H1 & H2 & H3 & H4). split_and!; [done..|lia].
  - intros Ho. apply He. lia.
  - intros Ho. apply Hi. lia.
  - intros Hne. destruct (ms_module s) as [m|m] eqn:Em; [by exists m|]. specialize (Hsh m eq_refl).
    destruct order; try done; cbn in *; lia.
  - intros Ho. apply He. lia.
  - intros Ho. apply Hi. lia.
Qed.

Lemma enter_section_ok left fs order off v :
  validator_wf left fs v ->
  rsafe (enter_section order off v) (fun s' =>
    v_state v = VS_Module
    /\ exists s, v_module v = Some s /\ ms_wf (v_types v) s /\ bodies_inv left fs (bodies_of s)
       /\ entered order (v_types v) s s').
Proof.
  intros [HT Hv]. unfold enter_section, ensure_module. destruct (v_state v) eqn:Es; try done.
  destruct Hv as (s & Hs & Hwf & Hb & _). rewrite Hs. cbn [ensure_parsable expect mbind result_bind].
  eapply rsafe_mono; [by apply update_order_ok|]. intros s' He. split; [done|]. by exists s.
Qed.

Lemma set_module_wf left fs v T s :
  types_wf T -> ms_wf T s -> bodies_inv left fs (bodies_of s) ->
  (0 < left -> is_Some (m_snapshot (module_of s))) -> v_state v = VS_Module ->
  validator_wf left fs (set_v_module (Some s) (set_v_types T v)).
Proof. intros HT Hs Hb Hl Ev. split; [done|]. cbn. rewrite Ev. by exists s. Qed.

(** The items of a section that the parser has found. *)
Lemma section_of_items {A} `{SectionItemLaws A} f sec :
  section_of f sec ->
  in_u 32 (sec_count sec)
  /\ Forall (item_wf f) (section_items (A := A) (Z.to_nat (sec_count sec)) (sec_reader sec)).1
  /\ (section_items (A := A) (Z.to_nat (sec_count sec)) (sec_reader sec)).2 <> Panic.
Proof.
  intros (br & Hwf & <- & Hsec). unfold section_new in Hsec.
  destruct (read_var_u32 br) as [[n|e|] r1] eqn:En; try done. injection Hsec as <-. cbn [sec_count sec_reader].
  pose proof (read_var_u32_inv br n r1 Hwf En) as [Hn _].
  destruct (local_var_u32 br n r1 Hwf En) as (nb & _ & Enb & Er1 & _).
  assert (Hwf1 : wf_reader r1) by by eapply local_reader_wf; [apply local_var_u32|..].
  destruct (section_items_ok (A := A) (Z.to_nat n) r1 Hwf1) as (Hws & _ & Hst). split_and!; [done| |].
  - subst r1. done.
  - by intros E; rewrite E in Hst.
Qed.

(** What an item leaves behind: the types and the state. *)
Definition item_post (order : Order) (B : Bodies -> Prop) (x : ModuleState * TypeList) : Prop :=
  types_wf (snd x) /\ sec_inv order (snd x) B (fst x).

(** A section, by what its check and its items do; [B k] holds after [k] items. *)
Lemma process_module_section_ok {A} `{SectionItemLaws A} order f sec check item v fs (B : nat -> Bodies -> Prop) :
  section_of f sec -> validator_wf 0 fs v ->
  (forall T s0 s off, types_wf T -> bodies_inv 0 fs (bodies_of s0) -> entered order T s0 s ->
     rsafe (check (sec_count sec) off s) (sec_inv order T (B 0%nat))) ->
  (forall j T s off (a : A), types_wf T -> item_wf f a -> sec_inv order T (B j) s ->
     rsafe (item off a (s, T)) (item_post order (B (S j)))) ->
  (forall b, B (Z.to_nat (sec_count sec)) b -> bodies_inv 0 fs b) ->
  rsafe (process_module_section (A := A) order sec check item v) (section_post 0 fs (Some order) v).
Proof.
  intros Hsec Hv Hc Hi HB. destruct (section_of_items (A := A) f sec Hsec) as (Hn & HP & Hst).
  pose proof (enter_section_ok 0 fs order (fst (section_range sec)) v Hv) as He. unfold process_module_section.
  unfold enter_section in He. destruct (ensure_module (v_state v) _); [|done..]. cbn [mbind result_bind] in *.
  destruct (v_module v) as [s0|] eqn:Ev; [|done]. cbn [expect mbind result_bind] in *.
  apply rsafe_bind. eapply rsafe_mono; [exact He|]. intros s1 (Es & s & [= <-] & Hwf & Hb & Hs1). destruct Hv as [HT _].
  apply rsafe_bind. eapply rsafe_mono; [by eapply Hc|]. intros s2 Hs2. apply rsafe_bind.
  eapply rsafe_mono; [apply (for_section_inv (item_wf f) (fun k => item_post order (B k)) item); [apply Hn|done..|]|].
  - intros j o x [s' T'] _ Ha [HT' Hs']. by apply Hi.
  - intros [s' T'] [HT' Hs']. apply rsafe_ok. split; [apply set_module_wf; [done|apply Hs'|apply HB, Hs'|lia|done]|].
    pose proof (si_order _ _ _ _ Hs') as Ho. cbn in Ho. unfold moved, order_of. cbn. rewrite Ev, Ho.
    split; [apply Hs1|done].
Qed.

(** ** Checks before the items *)

Lemma reserve_ok {A} (field : WasmModule -> list A) max desc count off order T B s :
  order <> O_Data -> sec_inv order T B s -> rsafe (reserve field max desc count off s) (sec_inv order T B).
Proof.
  intros Hne Hs. unfold reserve. apply rsafe_bind. eapply rsafe_mono; [apply check_max_ok|]. intros _ _.
  destruct (si_owned _ _ _ _ Hs Hne) as [m ->]. done.
Qed.

(** Sections before the bodies. *)
Lemma reserve_entered {A} (field : WasmModule -> list A) max desc count off order T fs s0 s :
  order_index order <= order_index O_Code -> bodies_inv 0 fs (bodies_of s0) -> entered order T s0 s ->
  rsafe (reserve field max desc count off s) (sec_inv order T (no_bodies fs)).
Proof.
  intros Hne Hb Hs. apply reserve_ok; [by destruct order|]. apply (en_inv _ _ _ _ Hs). split; [done|].
  by apply (en_index _ _ _ _ Hs).
Qed.

(** The function section has [k] functions so far and expects [n] bodies. *)
Definition functions_inv (fs : list ((FuncToValidate * WasmModule) * FunctionBody)) (n : Z) (k : nat) (b : Bodies)
  : Prop :=
  fs = [] /\ b_expected b = Some n /\ b_index b = None /\ defined (b_module b) = Z.of_nat k.

Lemma functions_inv_bodies n fs b :
  0 <= n -> functions_inv fs n (Z.to_nat n) b -> bodies_inv 0 fs b.
Proof.
  intros Hn (-> & Ee & Ei & Ed). split; [|by unfold b_done; rewrite Ei|done]. rewrite Ee, Ei, Ed. by rewrite Z2Nat.id.
Qed.

Lemma set_expected_inv order T B B' s x :
  sec_inv order T B s -> order_index O_Function <= order_index order ->
  B' (bodies_of (set_expected_code_bodies x s)) -> sec_inv order T B' (set_expected_code_bodies x s).
Proof.
  intros [[Hm Hsh Hsn He Hi] Ho Hw HB] Hle HB'. split; [split|done|done|done]; cbn; try done.
  intros Hlt. rewrite Ho in Hlt. cbn in Hle. lia.
Qed.

Lemma expect_code_bodies_ok count off T fs s0 s :
  bodies_inv 0 fs (bodies_of s0) -> entered O_Function T s0 s ->
  rsafe (expect_code_bodies count off s) (sec_inv O_Function T (functions_inv fs count 0)).
Proof.
  intros Hb [Hs _ Hsame He Hi]. unfold expect_code_bodies. apply rsafe_bind.
  specialize (Hi ltac:(done)). specialize (He ltac:(done)).
  eapply rsafe_mono; [apply (reserve_ok _ _ _ _ _ O_Function T (eq (bodies_of s0))); [done|by apply Hs]|].
  intros s1 Hs1. pose proof (si_bodies _ _ _ _ Hs1) as E. unfold bodies_of in E. injection E as E1 E2 E3.
  rewrite <- E2, He. cbn. apply (set_expected_inv _ _ (eq (bodies_of s0))); [done..|].
  split_and!; [by apply (bodies_none 0 fs (bodies_of s0))|done|cbn; congruence|].
  destruct Hb as [Hc _ _]. unfold b_done in Hc. cbn in Hc. rewrite He, Hi in Hc.
  change (defined (module_of s1) = 0). rewrite <- E1. lia.
Qed.

Lemma expect_data_segments_ok order count off T fs s0 s :
  bodies_inv 0 fs (bodies_of s0) -> entered order T s0 s ->
  rsafe (expect_data_segments count off s) (sec_inv order T (bodies_inv 0 fs)).
Proof.
  intros Hb Hs. unfold expect_data_segments. apply rsafe_bind. eapply rsafe_mono; [apply check_max_ok|].
  intros _ _. apply rsafe_ok. by destruct (en_inv _ _ _ _ Hs _ Hb) as [[] ? ? ?].
Qed.

(** ** Items *)

Section items.
Context {A : Type} (order : Order) (T : TypeList) (B : Bodies -> Prop) (s : ModuleState) (off : Z) (a : A).
Hypotheses (HT : types_wf T) (Hs : sec_inv order T B s) (Hne : order <> O_Data).

Lemma item_of_module_ok B' (g : A -> TypeList -> Z -> WasmModule -> result WasmModule) :
  (forall m, ms_module s = Owned m -> module_wf T m -> rsafe (g a T off m) (fun m' =>
     module_wf T m' /\ same_types m m' /\ B' (bodies_of (set_ms_module (Owned m') s)))) ->
  rsafe (item_of_module g off a (s, T)) (item_post order B').
Proof.
  intros Hg. unfold item_of_module. cbn [fst snd]. destruct (si_owned _ _ _ _ Hs Hne) as [m Em].
  rewrite Em. cbn [assert_mut mbind result_bind]. apply rsafe_bind.
  assert (Hm : module_wf T m)
    by (pose proof (sec_inv_module _ _ _ _ Hs) as H; unfold module_of in H; by rewrite Em in H).
  eapply rsafe_mono; [by apply Hg|]. intros m' (Hm' & [_ Hsn] & HB). split; [done|]. by eapply update_sec_inv.
Qed.

(** An item that is no function. *)
Lemma item_updated_ok (g : A -> TypeList -> Z -> WasmModule -> result WasmModule) :
  stable B -> (forall m, module_wf T m -> rsafe (g a T off m) (updated T m)) ->
  rsafe (item_of_module g off a (s, T)) (item_post order B).
Proof.
  intros HB Hg. apply item_of_module_ok. intros m Em Hm. eapply rsafe_mono; [by apply Hg|].
  intros m' (Hm' & Ht & Hf). split_and!; [done..|].
  apply (stable_update B s m); [done..|by apply same_defined|apply Hs].
Qed.

Lemma item_of_state_ok (g : A -> TypeList -> Z -> ModuleState -> result ModuleState) :
  rsafe (g a T off s) (sec_inv order T B) -> rsafe (item_of_state g off a (s, T)) (item_post order B).
Proof using HT. intros Hg. apply rsafe_bind. by eapply rsafe_mono; [exact Hg|]. Qed.
End items.

(** Types are added before any snapshot is taken. *)
Lemma type_item_ok f off g T s fs :
  types_wf T -> rec_group_wf g -> sec_inv O_Type T (no_bodies fs) s ->
  rsafe (type_item f off g (s, T)) (item_post O_Type (no_bodies fs)).
Proof.
  intros HT Hg Hs. unfold type_item. cbn [fst snd]. destruct (si_owned _ _ _ _ Hs ltac:(done)) as [m Em].
  rewrite Em. cbn [assert_mut mbind result_bind]. destruct (Hs) as [[Hm _ Hsn He Hi] Ho Hw [Hb Hx]].
  unfold module_of in Hm, Hsn. rewrite Em in Hm, Hsn. cbn [owned_module] in Hm, Hsn.
  apply rsafe_bind. eapply rsafe_mono; [by apply add_types_ok; [|apply Hm|]|].
  intros [m' T'] (HT' & G & Hmt & ids & ->). split; [done|]. split; [split|done|..]; cbn; try done.
  - apply (module_wf_grows T); [apply HT|apply HT'|done..].
  - intros S HS. destruct (Hsn S HS) as (_ & _ & _ & H). rewrite Ho in H. done.
  - intros _. by eexists.
  - pose proof (no_bodies_stable fs m (set_m_types (m_types m ++ ids) m) (expected_code_bodies s)
      (code_section_index s) eq_refl) as H. apply H. split; [|done]. unfold bodies_of, module_of in Hb. by rewrite Em in Hb.
Qed.

Lemma export_item_ok f e T off m :
  view_wf T -> export_wf e -> module_wf T m -> rsafe (export_item f e T off m) (updated T m).
Proof.
  intros HT He Hm. unfold export_item. apply rsafe_bind.
  eapply rsafe_mono; [by apply (export_to_entity_type_ok T)|]. intros [ty m'] [Hty (Hm' & [E1 E2] & [E3 E4])].
  eapply rsafe_mono; [by apply add_export_ok|]. intros m'' (Hm'' & [E5 E6] & [E7 E8]).
  split_and!; [done|split; congruence..].
Qed.
