(* ===== verification/ModuleBodiesSpec.v ===== *)
(** Payloads and whole modules: the validator keeps its invariant, it does not
    panic on any input, and it ends. *)

From Stdlib Require Import ZArith Lia String Relations Sorted.
From stdpp Require Import prelude relations gmap.
From S2P Require Import Prelude StateLogic Leb128 BinaryReader BinaryReaderSpec ReaderLogic Types TypesSpec.
From S2P Require Import Operands Operators OperandSpec OperatorSpec InstrRoundtrip SectionReader CompositeTypes.
From S2P Require Import Items EncSections ReencodeSections Locality FunctionSpec CompositeSpec SectionSpec.
From S2P Require Import ItemSpec SectionItems Parser ParserSpec ParserStable ValidatorState OperatorValidator.
From S2P Require Import Arity TypeList Canonical ModuleState ModuleValidator ValidatorLogic ValidatorModule.
From S2P Require Import VisitSpec FuncSpec TypeListSpec TypeMatch InternSpec AddTypesSpec ModuleStateSpec.
From S2P Require Import ModuleItemsSpec ModuleValidatorSpec.

Local Open Scope Z_scope.

(** ** The module and a snapshot of the types *)

Lemma set_same_types m : set_m_types (m_types m ++ []) m = m.
Proof. rewrite app_nil_r. by destruct m. Qed.

Lemma module_wf_equiv T T' m :
  lists_wf T -> lists_wf T' -> grows T T' -> grows T' T -> module_wf T m -> module_wf T' m.
Proof.
  intros HT HT' G G' Hm. rewrite <- (set_same_types m). apply (module_wf_grows T); [done..|].
  rewrite set_same_types. destruct (mw_types _ _ Hm) as [Hv Hmx Hr]. split; [|done|].
  - eapply Forall_impl; [exact Hv|]. intros; by apply (grows_valid T T').
  - pose proof (prefix_length _ _ (gr_types _ _ G')). unfold ntypes in *. lia.
Qed.

Lemma ms_wf_equiv T T' s :
  lists_wf T -> lists_wf T' -> same_items T T' -> ms_wf T s -> ms_wf T' s.
Proof.
  intros HT HT' Hs [Hm Hsh Hsn He Hi]. destruct (same_items_grows _ _ Hs) as [G G'].
  split; [by apply (module_wf_equiv T)|done| |done|done]. intros S HS. destruct (Hsn S HS) as (H1 & H2 & H3 & H4).
  split_and!; [done|by trans T..|done].
Qed.

(** ** Function bodies *)

Lemma func_index_at S m i :
  view_wf S -> m_snapshot m = Some S -> func_index S m i ->
  exists fty, inner_at (R := validator_resources m) i (CFunc fty)
    /\ Z.of_nat (length (func_params fty)) <= MAX_WASM_FUNCTION_LOCALS.
Proof.
  intros HS Es (_ & id & Hid & t & g & Ht & Hg). exists g. split.
  - exists t. split; [|done]. cbn. rewrite Hid, Es. cbn. by rewrite Ht.
  - pose proof (ck_shape _ _ _ (type_at_checked S HS _ _ Ht)) as Hs. unfold shape_ok in Hs. rewrite Hg in Hs.
    destruct Hs as [Hs _]. unfold MAX_WASM_FUNCTION_PARAMS, MAX_WASM_FUNCTION_LOCALS in *. lia.
Qed.

(** Validating it ends, without a panic. *)
Lemma validate_func_ok f m body : func_ready f m body -> rsafe (validate_func f m body) (fun _ => True).
Proof.
  intros (Hr & S & Es & HS & Hm & Hi). destruct (func_index_at S m _ HS Es Hi) as (fty & Hat & Hp).
  pose proof (validator_resources_spec S HS m Hm Es) as HRS. unfold validate_func, into_validator.
  destruct (new_func_ok (R := validator_resources m) _ 0 (ftv_features f) fty Hat) as [v Hv]. rewrite Hv.
  cbn [mbind result_bind validator].
  destruct (new_func_valid (R := validator_resources m) _ _ _ v fty Hat Hp Hv) as (Hvs & _ & _).
  destruct (validate_total (R := validator_resources m) (length (buffer (body_reader body))) body v Hr Hvs)
    as (x & v' & -> & Hx); [done|]. by destruct x as [[]| |].
Qed.

Lemma validate_funcs_ok fs :
  Forall (fun '((f, m), body) => func_ready f m body) fs -> rsafe (validate_funcs fs) (fun _ => True).
Proof.
  induction 1 as [|[[f m] body] fs Hf _ IH]; [done|]. cbn [validate_funcs]. apply rsafe_bind.
  eapply rsafe_mono; [by apply validate_func_ok|]. by intros [] _.
Qed.

(** ** Payloads *)

(** A section of [A]s: what is left are the items. *)
Ltac section_items A f B :=
  eapply (process_module_section_ok (A := A) _ f _ _ _ _ _ B);
    [done..
    |intros; first [by eapply reserve_entered|by eapply expect_code_bodies_ok
                   |by eapply expect_data_segments_ok]
    |intros j T s off a HT Ha Hi
    |first [done|by intros b [Hb _]|idtac]].

Section sections.
Context (f : WasmFeatures) (v : Validator) (fs : list ((FuncToValidate * WasmModule) * FunctionBody)).
Context (Hv : validator_wf 0 fs v) (sec : SectionLimited) (Hsec : section_of f sec).
Let early (_ : nat) := no_bodies fs.
Let late (_ : nat) := bodies_inv 0 fs.

Lemma type_section_ok : rsafe (validator_type_section sec v) (section_post 0 fs (Some O_Type) v).
Proof. section_items RecGroup f early. by apply type_item_ok. Qed.

Lemma import_section_ok : rsafe (validator_import_section sec v) (section_post 0 fs (Some O_Import) v).
Proof.
  section_items Import f early. eapply item_of_module_ok; [done..|]. intros m Em Hm.
  eapply rsafe_mono; [by apply (add_import_ok T (types_wf_view _ HT) _ _ m a f)|]. intros m' (Hm' & Ht & Hd).
  split_and!; [done..|]. apply (stable_update _ s m); [apply no_bodies_stable|done..|apply Hi].
Qed.

Lemma function_section_ok : rsafe (validator_function_section sec v) (section_post 0 fs (Some O_Function) v).
Proof.
  section_items Z f (functions_inv fs (sec_count sec)).
  - eapply item_of_module_ok; [done..|]. intros m Em Hm.
    eapply rsafe_mono; [by apply add_function_ok; [apply types_wf_view|..]|]. intros m' (Hm' & Ht & Hd).
    split_and!; [done..|]. destruct (si_bodies _ _ _ _ Hi) as (H0 & H1 & H2 & H3). split_and!; [done..|].
    unfold bodies_of, module_of in *. rewrite Em in H3. cbn in *. lia.
  - intros b Hb. destruct (section_of_items (A := Z) f sec Hsec) as ([Hn _] & _).
    by apply (functions_inv_bodies (sec_count sec)).
Qed.

Ltac state_item lem :=
  apply item_of_state_ok; [done|];
  apply (lem _ _) with (f' := f); first [done|by apply types_wf_view|intros; apply no_bodies_stable].
Ltac module_item lem :=
  eapply item_updated_ok; [done..|apply no_bodies_stable|]; intros m Hm; by apply lem; [try apply types_wf_view|..].

Lemma table_section_ok : rsafe (validator_table_section sec v) (section_post 0 fs (Some O_Table) v).
Proof. section_items Table f early. state_item add_table_ok. Qed.

Lemma memory_section_ok : rsafe (validator_memory_section sec v) (section_post 0 fs (Some O_Memory) v).
Proof. section_items MemoryType f early. module_item add_memory_ok. Qed.

Lemma tag_section_ok : rsafe (validator_tag_section sec v) (section_post 0 fs (Some O_Tag) v).
Proof.
  unfold validator_tag_section. apply rsafe_check. intros _. section_items TagType f early. module_item add_tag_ok.
Qed.

Lemma global_section_ok : rsafe (validator_global_section sec v) (section_post 0 fs (Some O_Global) v).
Proof. section_items Global f early. state_item add_global_ok. Qed.

Lemma export_section_ok : rsafe (validator_export_section sec v) (section_post 0 fs (Some O_Export) v).
Proof. section_items Export f early. module_item export_item_ok. Qed.

Lemma element_section_ok : rsafe (validator_element_section sec v) (section_post 0 fs (Some O_Element) v).
Proof. section_items Element f early. state_item add_element_segment_ok. Qed.

Lemma data_section_ok : rsafe (validator_data_section sec v) (section_post 0 fs (Some O_Data) v).
Proof. section_items Data f late. state_item add_data_segment_ok. Qed.
End sections.

(** ** Other payloads *)

Section payloads.
Context (v : Validator) (fs : list ((FuncToValidate * WasmModule) * FunctionBody)).
Implicit Types left : Z.

Lemma version_ok num e rg : validator_wf 0 fs v -> rsafe (validator_version num e rg v) (section_post 0 fs None v).
Proof.
  intros [HT Hv]. unfold validator_version. destruct (v_state v) as [ex| |] eqn:Es; try done.
  destruct Hv as (Hm & Hr & _ & ->). apply rsafe_bind. apply (rsafe_mono _ (fun _ => True)).
  { destruct ex; [|done]. by destruct (negb _). }
  intros [] _. destruct e; [|by destruct (negb _)]. destruct (num =? _); [|done]. rewrite Hm.
  apply rsafe_ok. split; [|unfold moved, order_of; by rewrite Hm]. split; [done|].
  exists ModuleState_default. split_and!; [done| |by split|lia].
  split; cbn; try done. split; cbn; try done.
  - split; [by constructor|done|]. cbn. lia.
  - constructor.
Qed.

(** A section that was entered, whatever else it changed. *)
Lemma moved_entered order T T' s s' s1 :
  v_module v = Some s -> entered order T s s' -> ms_order s1 = order ->
  moved (Some order) v (set_v_module (Some s1) (set_v_types T' v)).
Proof. intros Ev He Ho. unfold moved, order_of. cbn. rewrite Ev, Ho. split; [apply He|done]. Qed.

Lemma start_section_ok func rg :
  validator_wf 0 fs v -> rsafe (validator_start_section func rg v) (section_post 0 fs (Some O_Start) v).
Proof.
  intros Hv. unfold validator_start_section. apply rsafe_bind.
  eapply rsafe_mono; [by apply (enter_section_ok 0 fs)|]. intros s' (Es & s & Hs & Hwf & Hb & He).
  pose proof (en_inv _ _ _ _ He _ Hb) as Hi. apply rsafe_bind.
  eapply rsafe_mono; [apply get_func_type_ok, (sec_inv_module _ _ _ _ Hi)|]. intros ty _.
  apply rsafe_check. intros _. destruct Hv as [HT _].
  split; [|by apply (moved_entered _ (v_types v) (v_types v) s s'); [..|apply Hi]].
  apply (set_module_wf 0 fs v (v_types v)); [done|apply Hi|apply Hi|lia|done].
Qed.

Lemma data_count_section_ok count rg :
  validator_wf 0 fs v -> rsafe (validator_data_count_section count rg v) (section_post 0 fs (Some O_DataCount) v).
Proof.
  intros Hv. unfold validator_data_count_section. apply rsafe_bind.
  eapply rsafe_mono; [by apply (enter_section_ok 0 fs)|]. intros s' (Es & s & Hs & Hwf & Hb & He).
  assert (Hi : sec_inv O_DataCount (v_types v) (no_bodies fs) s').
  { apply (en_inv _ _ _ _ He). split; [done|]. by apply (en_index _ _ _ _ He). }
  apply rsafe_check. intros _. apply rsafe_bind.
  eapply rsafe_mono; [apply (update_module_ok O_DataCount (no_bodies fs)) with (T := v_types v); [|done..|]|].
  - intros _. apply no_bodies_stable.
  - intros m Hm. split_and!; [|done..]. destruct Hm; module_update m.
  - intros s1 Hs1. destruct Hv as [HT _].
    split; [|by apply (moved_entered _ (v_types v) (v_types v) s s'); [..|apply Hs1]].
    apply (set_module_wf 0 fs v (v_types v)); [done|apply Hs1|apply Hs1|lia|done].
Qed.

(** The number of bodies is that of the functions. *)
Lemma take_code_bodies_ok count off T s :
  sec_inv O_Code T (no_bodies fs) s ->
  rsafe (take_code_bodies count off s) (sec_inv O_Code T (fun b => bodies_inv count fs b /\ b_index b = None)).
Proof.
  intros Hs. destruct (si_bodies _ _ _ _ Hs) as [Hb Hx]. rewrite (bodies_none 0 fs _ Hb Hx) in *.
  destruct Hb as [Hc _ _]. cbn in Hc, Hx. unfold take_code_bodies.
  destruct (expected_code_bodies s) as [n|] eqn:En.
  - destruct Hc as (_ & -> & _). destruct (Z.eqb_spec (defined (module_of s)) count) as [<-|]; [|done].
    eapply set_expected_inv; [done..|]. split; [|done]. split; [|by unfold b_done; cbn; rewrite Hx|done].
    cbn. unfold b_done. cbn. by rewrite Hx.
  - destruct (Z.eqb_spec count 0) as [->|]; [|done]. by destruct Hs as [H1 H2 H3 [H4 _]].
Qed.

Lemma validator_code_start_ok count rg :
  validator_wf 0 fs v -> rsafe (validator_code_section_start count rg v) (section_post count fs (Some O_Code) v).
Proof.
  intros Hv. unfold validator_code_section_start. apply rsafe_bind.
  eapply rsafe_mono; [by apply (enter_section_ok 0 fs)|]. intros s' (Es & s & Hs & Hwf & Hb & He).
  apply rsafe_bind. eapply rsafe_mono; [apply (take_code_bodies_ok _ _ (v_types v)), (en_inv _ _ _ _ He)|].
  { split; [done|]. by apply (en_index _ _ _ _ He). }
  intros s1 Hs1. destruct Hv as [HT _]. pose proof (types_commit_ok _ HT) as Hc. destruct (si_bodies _ _ _ _ Hs1) as [Hb1 Hx1].
  destruct (types_commit (v_types v)) as [S T']. destruct Hc as (HS & HT' & HsS & HsT).
  assert (HL : lists_wf (v_types v)) by apply HT. assert (HL' : lists_wf T') by apply HT'.
  destruct (si_owned _ _ _ _ Hs1 ltac:(done)) as [m Em]. unfold update_module. rewrite Em. cbn.
  destruct (Hs1) as [Hw1 Ho _ _]. pose proof (ms_wf_equiv _ _ _ HL HL' HsT Hw1) as [Hm _ _ Hx Hi].
  unfold module_of in Hm. rewrite Em in Hm. cbn in Hm.
  split; [apply (set_module_wf count fs v T'); [done| | |cbn; by eexists|done]|].
  - split; cbn; try done; [by destruct Hm; module_update m|]. intros S' [= <-].
    destruct (same_items_grows _ _ HsS), (same_items_grows _ _ HsT).
    split_and!; [done|by trans (v_types v)..|]. by rewrite Ho.
  - pose proof (bodies_none _ _ _ Hb1 Hx1) as ->. destruct Hb1 as [Hc1 Hd1 _]. unfold bodies_of, module_of, b_done in *.
    rewrite Em in *. cbn in *. rewrite Hx1 in *. by split.
  - by apply (moved_entered _ (v_types v) T' s s').
Qed.

(** The next function, and where it is in the index space. *)
Lemma next_code_index_ok T s left off :
  ms_wf T s -> bodies_inv left fs (bodies_of s) ->
  rsafe (next_code_index_and_type off s) (fun '((index, ty), s') => exists i,
    index = wrap 32 i /\ i = m_num_imported_functions (module_of s) + Z.of_nat (length fs)
    /\ m_functions (module_of s) !! Z.to_nat i = Some ty /\ s' = set_code_section_index (Some (i + 1)) s).
Proof.
  intros Hs [_ Hd _]. unfold next_code_index_and_type. unfold b_done in Hd. cbn in Hd.
  destruct (m_functions (module_of s) !! _) as [ty|] eqn:E; [|done]. apply rsafe_ok. eexists. split_and!; [done| |done..].
  destruct (code_section_index s); lia.
Qed.

Lemma bodies_inv_snoc left m e i f body :
  bodies_inv left fs (mkBodies m e i) -> 0 < left -> collected m (length fs) ((f, m), body) ->
  bodies_inv (left - 1) (fs ++ [((f, m), body)]) (mkBodies m e (Some (func_place m (length fs) + 1))).
Proof.
  intros [Hc Hd Hx] Hl Hn. unfold b_done, func_place in *. cbn in *. split; unfold b_done; cbn.
  - destruct e; [lia|]. lia.
  - rewrite length_app. cbn. lia.
  - intros j x Hj. apply lookup_app_Some in Hj as [Hj|[Hle Hj]]; [by apply Hx|].
    apply list_lookup_singleton_Some in Hj as [Hj <-]. by replace j with (length fs) by lia.
Qed.

Lemma code_section_entry_ok left body :
  validator_wf left fs v -> 0 < left -> wf_reader (body_reader body) ->
  rsafe (validator_code_section_entry body v) (fun '((f, m), v') =>
    section_post (left - 1) (fs ++ [((f, m), body)]) None v v').
Proof.
  intros [HT Hv] Hl Hr. unfold validator_code_section_entry, ensure_module. destruct (v_state v) eqn:Es; try done.
  destruct Hv as (s & Hs & Hwf & Hb & Hsn). rewrite Hs. cbn [ensure_parsable expect mbind result_bind].
  apply rsafe_bind. eapply rsafe_mono; [by eapply next_code_index_ok|].
  intros [[index ty] s'] (i & -> & Ei & Hty & ->). cbn. destruct (Hsn Hl) as [S HS].
  destruct (ms_snap _ _ Hwf S HS) as (HSv & G & G' & Ho). pose proof (ms_mod _ _ Hwf) as Hm.
  assert (HmS : module_wf S (module_of s)).
  { by apply (module_wf_equiv (v_types v)); [apply HT|apply HSv|..]. }
  split; [|unfold moved, order_of; cbn; by rewrite Hs]. split; [done|].
  cbn. rewrite Es. eexists. split_and!; [done| | |intros _; cbn; by exists S].
  - destruct Hwf. split; cbn in *; try done. lia.
  - unfold bodies_of, module_of. cbn. rewrite Ei. apply (bodies_inv_snoc left _ _ (code_section_index s)); [done..|].
    unfold collected, func_place. change (owned_module (ms_module s)) with (module_of s). rewrite <- Ei.
    split_and!; [done..|]. split; [done|]. exists S. split_and!; [done..|].
    by apply (Forall_lookup_1 _ _ _ _ (mw_functions _ _ HmS) Hty).
Qed.

(** What is known of the types in the end: every function that is not imported has its body. *)
Record types_ok (t : Types) : Prop := {
  to_view : view_wf (types_list t);
  to_module : module_wf (types_list t) (types_module t);
  to_depths : exists dm, depths_ok (types_list t) (length (tys (types_list t))) dm;
  to_bodies : Z.of_nat (length fs) = defined (types_module t);
  to_collected j x : fs !! j = Some x -> collected (types_module t) j x;
}.

Lemma validator_end_ok off :
  validator_wf 0 fs v ->
  rsafe (validator_end off v) (fun '(t, v') => v_state v' = VS_End /\ validator_wf 0 fs v' /\ types_ok t).
Proof.
  intros [HT Hv]. unfold validator_end. destruct (v_state v) eqn:Es; try done.
  destruct Hv as (s & Hs & Hwf & Hb & _). rewrite Hs. cbn [expect mbind result_bind]. apply rsafe_bind.
  pose proof (ms_mod _ _ Hwf) as Hm. pose proof (types_commit_ok _ HT) as Hc.
  destruct (types_commit (v_types v)) as [S T']. destruct Hc as (HS & HT' & HsS & _).
  assert (HmS : module_wf S (module_of s)).
  { destruct (same_items_grows _ _ HsS). by apply (module_wf_equiv (v_types v)); [apply HT|apply HS|..]. }
  apply (rsafe_mono _ (fun _ => Z.of_nat (length fs) = defined (module_of s))).
  - unfold validate_end. apply rsafe_check. intros _. apply rsafe_check. intros He. apply rsafe_ok.
    destruct Hb as [Hc Hd _]. rewrite <- Hd. unfold b_done, defined in *. cbn in *.
    pose proof (mw_imported_functions _ _ Hm). destruct (expected_code_bodies s) as [n|]; [|lia].
    destruct Hc as (-> & -> & _). apply Z.ltb_ge in He. lia.
  - intros [] Hn. split_and!; [done|done|]. split; [done|done| |done|apply Hb].
    by apply (depths_same (v_types v)).
Qed.

Lemma component_section_ok name off (Q : () -> Prop) : rsafe (component_section_error name off v) Q.
Proof.
  unfold component_section_error. destruct (negb _); [done|]. unfold ensure_component. by destruct (v_state v).
Qed.

Lemma ensure_component_ok name off (Q : () -> Prop) : rsafe (ensure_component (v_state v) name off) Q.
Proof. unfold ensure_component. by destruct (v_state v). Qed.
End payloads.

(** The place of a section, when it has one. *)
Definition section_order (pl : Payload) : option Order :=
  match pl with
  | TypeSection _ => Some O_Type
  | ImportSection _ => Some O_Import
  | FunctionSection _ => Some O_Function
  | TableSection _ => Some O_Table
  | MemorySection _ => Some O_Memory
  | TagSection _ => Some O_Tag
  | GlobalSection _ => Some O_Global
  | ExportSection _ => Some O_Export
  | StartSection _ _ => Some O_Start
  | ElementSection _ => Some O_Element
  | DataCountSection _ _ => Some O_DataCount
  | CodeSectionStart _ _ _ => Some O_Code
  | DataSection _ => Some O_Data
  | _ => None
  end.

(** What a payload leaves behind. *)
Definition payload_post (left : Z) (fs : list ((FuncToValidate * WasmModule) * FunctionBody)) (pl : Payload)
  (v : Validator) (x : ValidPayload * Validator) : Prop :=
  let (p, v') := x in
  match p with
  | VP_Ok => is_end pl = false /\ section_post left fs (section_order pl) v v'
  | VP_Parser _ => False
  | VP_Func f m body => is_end pl = false /\ section_post left (fs ++ [((f, m), body)]) (section_order pl) v v'
  | VP_End t => is_end pl = true /\ v_state v' = VS_End /\ validator_wf left fs v' /\ types_ok fs t
  end.

Lemma valid_ok_post left fs pl o v x :
  is_end pl = false -> section_order pl = o -> rsafe x (section_post left fs o v) ->
  rsafe (valid_ok x) (payload_post left fs pl v).
Proof. intros He <- Hx. apply rsafe_bind. eapply rsafe_mono; [exact Hx|]. by intros v' Hv'. Qed.

Lemma validator_payload_ok enc f st pl st' fs v :
  payload_wf enc f pl -> bodies_wf st pl st' -> validator_wf (bodies_left st) fs v ->
  rsafe (validator_payload pl v) (payload_post (bodies_left st') fs pl v).
Proof.
  intros Hp Hb Hv. destruct pl.
  14: { destruct Hb as (H0 & H1 & _). rewrite H0 in Hv. rewrite H1. eapply valid_ok_post; [done..|].
        by apply validator_code_start_ok. }
  14: { destruct Hb as (H0 & H1 & H2). apply rsafe_bind. eapply rsafe_mono; [by apply code_section_entry_ok|].
        intros [[g m] v'] Hv'. apply rsafe_ok. by rewrite H1. }
  all: destruct Hb as [H0 H1]; rewrite H0 in Hv; rewrite H1; cbn [validator_payload payload_wf] in *.
  all: try done; try (apply rsafe_bind; first [apply component_section_ok|apply ensure_component_ok]).
  all: try (eapply valid_ok_post; [done..|]);
    eauto using version_ok, type_section_ok, import_section_ok, function_section_ok, table_section_ok,
      memory_section_ok, tag_section_ok, global_section_ok, export_section_ok, start_section_ok,
      element_section_ok, data_count_section_ok, data_section_ok.
  - apply rsafe_ok. split; [done|]. split; [done|]. cbn. lia.
  - apply rsafe_bind. eapply rsafe_mono; [by apply validator_end_ok|]. by intros [t v'] Hv'.
Qed.

(** ** The loop over the payloads *)

Record loop_inv (ps : ParseAll) (v : Validator) (c : Collected) : Prop := {
  li_parser : wf_all ps;
  li_stack : pa_stack ps = [];
  li_validator : validator_wf (bodies_left (p_state (pa_cur ps))) (functions_to_validate c) v;
  li_done : pa_done ps = true ->
    v_state v = VS_End /\ exists t, last_types c = Some t /\ types_ok (functions_to_validate c) t;
}.

(** What the iterator yields, when no parser is waiting. *)
Lemma parse_all_next_payload ps pl ps' :
  wf_all ps -> pa_stack ps = [] -> parse_all_next ps = (Some (Ok pl), ps') -> nested_parser pl = None ->
  pa_stack ps' = [] /\ pa_done ps' = is_end pl
  /\ payload_wf (p_encoding (pa_cur ps)) (p_features (pa_cur ps)) pl
  /\ bodies_wf (p_state (pa_cur ps)) pl (p_state (pa_cur ps')).
Proof.
  intros (Hc & _ & Hb) Hs. unfold parse_all_next. destruct (pa_done ps); [done|].
  pose proof (parse_ok (pa_cur ps) (pa_data ps) true Hc Hb) as Hp.
  destruct (parse (pa_cur ps) (pa_data ps) true) as [[[h|n pl']|e|] p']; try done. cbn in Hp.
  destruct Hp as (k & p1 & -> & Hk & Hok & -> & _). destruct (Z.ltb_spec (Z.of_nat (length (pa_data ps))) (Z.of_nat k)); [done|].
  destruct (after_payload pl' (pa_stack ps) _) as [[st cur'] d] eqn:Ea. intros [= <- <-] Hn. cbn [pa_stack pa_done pa_cur].
  rewrite Hs in Ea.
  assert (st = [] /\ cur' = advance_parser k p1 /\ d = is_end pl') as (-> & -> & ->) by (by destruct pl'; injection Ea as <- <- <-).
  split_and!; [done|done|apply Hok|apply Hok].
Qed.

Definition finished (x : Validator * Collected) : Prop :=
  let (v, c) := x in
  v_state v = VS_End /\ v_module v = None /\ types_wf (v_types v)
  /\ exists t, last_types c = Some t /\ types_ok (functions_to_validate c) t.

(** Nested modules are those of components. *)
Lemma nested_payload pl v (Q : ValidPayload * Validator -> Prop) :
  is_Some (nested_parser pl) -> rsafe (validator_payload pl v) Q.
Proof. destruct pl; intros [np Hn]; try done; apply rsafe_bind, ensure_component_ok. Qed.

Lemma loop_inv_step ps v c pl ps' :
  loop_inv ps v c -> parse_all_next ps = (Some (Ok pl), ps') -> wf_all ps' ->
  rsafe (validator_payload pl v) (fun '(p, v') => loop_inv ps' v' (collect p c)
    /\ if is_end pl then pa_done ps' = true else moved (section_order pl) v v').
Proof.
  intros [Hw Hs Hv _] Hn Hw'. destruct (nested_parser pl) as [np|] eqn:En; [by apply nested_payload; rewrite En|].
  destruct (parse_all_next_payload ps pl ps' Hw Hs Hn En) as (Hs' & Hd & Hpw & Hbw).
  eapply rsafe_mono; [by eapply validator_payload_ok|]. intros [p v'] Hp.
  destruct p as [|q|f m body|t]; cbn [payload_post collect] in *; try done.
  - destruct Hp as [He [Hv' Hm]]. rewrite He in *. split; [|done]. split; [done..|]. by rewrite Hd.
  - destruct Hp as [He [Hv' Hm]]. rewrite He in *. split; [|done]. split; [done..|]. by rewrite Hd.
  - destruct Hp as (Ee & He & Hv' & Ht). rewrite Ee in *. split; [|done]. split; [done..|].
    intros _. split; [done|]. by exists t.
Qed.

(** The loop ends, without a panic. *)
Lemma validate_payloads_ok fuel ps v c :
  loop_inv ps v c -> (all_measure ps < fuel)%nat ->
  exists x, validate_payloads fuel ps v c = Some x /\ rsafe x finished.
Proof.
  revert ps v c. induction fuel as [|fuel IH]; intros ps v c Hl Hf; [lia|]. cbn [validate_payloads].
  pose proof (parse_all_next_ok ps (li_parser _ _ _ Hl)) as Hn.
  destruct (parse_all_next ps) as [[[pl|e|]|] ps'] eqn:En; [|by eexists|done|].
  - destruct Hn as [Hw Hm]. pose proof (loop_inv_step ps v c pl ps' Hl En Hw) as Hp.
    destruct (validator_payload pl v) as [[p v']|e|]; [|by eexists|done]. destruct Hp as [Hp _]. apply IH; [done|lia].
  - destruct Hn as [Hd ->]. eexists. split; [done|]. destruct (li_done _ _ _ Hl Hd) as (Es & t & Ht & Hok).
    destruct (li_validator _ _ _ Hl) as [HT Hv]. rewrite Es in Hv. cbn. split_and!; [done..|]. by exists t.
Qed.

(** ** What the loop collects *)

(** [x] is an error, or a value that satisfies [Q]. *)
Definition rpost {A} (x : result A) (Q : A -> Prop) : Prop := match x with Ok a => Q a | _ => True end.

Lemma rpost_bind {A C} (m : result A) (k : A -> result C) Q : (forall a, rpost (k a) Q) -> rpost (m ≫= k) Q.
Proof. intros H. destruct m; cbn; [apply H|done..]. Qed.

Lemma rpost_check {A} (b : bool) e (m : result A) Q : rpost m Q -> rpost (if b then Err e else m) Q.
Proof. by destruct b. Qed.

Definition keeps_features (v v' : Validator) : Prop := v_features v' = v_features v.

Lemma process_features {A} `{FromReader A} order sec check item v :
  rpost (process_module_section (A := A) order sec check item v) (keeps_features v).
Proof.
  unfold process_module_section. do 4 (apply rpost_bind; intros ?). apply rpost_bind. by intros [s types].
Qed.

Definition section_features (pl : Payload) (v : Validator) (x : ValidPayload * Validator) : Prop :=
  keeps_features v (snd x)
  /\ match pl, fst x with
     | CodeSectionEntry b, VP_Func f m body => ftv_features f = v_features v /\ body = b
     | CodeSectionEntry _, _ | _, VP_Func _ _ _ => False
     | _, _ => True
     end.

Lemma valid_ok_features pl v x :
  match pl with CodeSectionEntry _ => False | _ => True end ->
  rpost x (keeps_features v) -> rpost (valid_ok x) (section_features pl v).
Proof. intros Hp. destruct x as [v'| |]; [|done..]. cbn. intros Hx. split; [done|]. by destruct pl. Qed.

(** A payload leaves the features, and only a body gives a function. *)
Lemma payload_features pl v : rpost (validator_payload pl v) (section_features pl v).
Proof.
  destruct pl; cbn [validator_payload]; try (apply valid_ok_features; [done|]); try (by apply process_features);
    try (apply rpost_bind; by intros []); try done.
  - unfold validator_version. apply rpost_bind. intros []. by repeat case_match.
  - unfold validator_tag_section. apply rpost_check, process_features.
  - unfold validator_start_section. do 2 (apply rpost_bind; intros ?). by apply rpost_check.
  - unfold validator_data_count_section. apply rpost_bind. intros s. apply rpost_check, rpost_bind. by intros.
  - unfold validator_code_section_start. do 2 (apply rpost_bind; intros ?). case_match. apply rpost_bind. by intros.
  - unfold validator_code_section_entry, rpost. destruct (ensure_module _ _); [|done..]. cbn [mbind result_bind].
    destruct (expect (v_module v)) as [s| |]; [|done..]. cbn [mbind result_bind].
    by destruct (next_code_index_and_type _ _) as [[[index ty] s']| |].
  - unfold validator_end, rpost. destruct (v_state v); [done| |done]. destruct (expect (v_module v)) as [s| |]; [|done..].
    cbn [mbind result_bind]. destruct (validate_end s pos); [|done..]. cbn [mbind result_bind].
    by destruct (types_commit (v_types v)).
Qed.

(** The bodies among the payloads. *)
Definition body_of (x : result Payload) : option FunctionBody :=
  match x with Ok (CodeSectionEntry b) => Some b | _ => None end.

Lemma validate_payloads_bodies fuel ps v c v' c' :
  validate_payloads fuel ps v c = Some (Ok (v', c')) ->
  exists xs, payloads fuel ps = Some xs
    /\ map snd (functions_to_validate c') = map snd (functions_to_validate c) ++ omap body_of xs
    /\ (Forall (fun x => ftv_features (fst (fst x)) = v_features v) (functions_to_validate c) ->
        Forall (fun x => ftv_features (fst (fst x)) = v_features v) (functions_to_validate c')).
Proof.
  revert ps v c. induction fuel as [|fuel IH]; intros ps v c; [done|]. cbn [validate_payloads payloads].
  destruct (parse_all_next ps) as [[[pl|e|]|] ps']; try done.
  2: { intros [= <- <-]. exists []. cbn. by rewrite app_nil_r. }
  pose proof (payload_features pl v) as Hp. destruct (validator_payload pl v) as [[p v1]| |]; [|done..].
  destruct Hp as [Hf Hp]. unfold keeps_features in Hf. cbn [fst snd] in *. intros Hrun.
  destruct (IH ps' v1 _ Hrun) as (xs & Exs & Hb & Hfs). exists (Ok pl :: xs). rewrite Exs. split; [done|].
  rewrite Hf in Hfs. split.
  - rewrite Hb. destruct p; destruct pl; try done. cbn [collect functions_to_validate omap list_omap body_of].
    rewrite map_app, <- app_assoc. cbn. by destruct Hp as [_ ->].
  - intros Hc. apply Hfs. destruct p; try done. cbn. apply Forall_app. split; [done|]. constructor; [|done].
    destruct pl; try done. by destruct Hp.
Qed.

(** ** The order of the sections *)

(** The sections that the loop goes through come in order, after the last one before it. *)
Lemma validate_payloads_order fuel ps v c v' c' :
  loop_inv ps v c -> validate_payloads fuel ps v c = Some (Ok (v', c')) ->
  exists xs, payloads fuel ps = Some (map Ok xs)
    /\ StronglySorted Z.lt (map order_index (omap section_order xs))
    /\ Forall (fun o => order_of v < o) (map order_index (omap section_order xs)).
Proof.
  revert ps v c. induction fuel as [|fuel IH]; intros ps v c Hl; [done|]. cbn [validate_payloads payloads].
  pose proof (parse_all_next_ok ps (li_parser _ _ _ Hl)) as Hn.
  destruct (parse_all_next ps) as [[[pl|e|]|] ps'] eqn:En; try done.
  2: { intros _. exists []. split; [done|]. by split; constructor. }
  destruct Hn as [Hw _]. pose proof (loop_inv_step ps v c pl ps' Hl En Hw) as Hp.
  destruct (validator_payload pl v) as [[p v1]| |]; [|done..]. destruct Hp as [Hp Hm]. intros Hrun.
  destruct (IH ps' v1 _ Hp Hrun) as (xs & Exs & Hso & Hall). exists (pl :: xs). rewrite Exs. split; [done|].
  destruct (is_end pl) eqn:Ee.
  - pose proof (payloads_done _ _ _ Hm Exs) as Ex. destruct xs; [|done].
    by destruct pl.
  - cbn [omap list_omap]. unfold moved in Hm. destruct (section_order pl) as [o|]; cbn [map].
    + destruct Hm as [H1 H2]. rewrite H2 in Hall. split; [by constructor|]. constructor; [done|].
      eapply Forall_impl; [exact Hall|]. cbn. lia.
    + split; [done|]. eapply Forall_impl; [exact Hall|]. cbn. lia.
Qed.

(** ** Whole modules *)

(** A validator that can be given a module, with the bytes of the module. *)
Record can_validate (bytes : list Z) (v : Validator) : Prop := {
  cv_bytes : Forall is_byte bytes;
  cv_state : exists e, v_state v = VS_Unparsed e;
  cv_wf : validator_wf 0 [] v;
}.

Lemma loop_inv_start bytes v :
  can_validate bytes v ->
  loop_inv (parse_all (set_features (v_features v) (Parser_new 0)) bytes) v (mkCollected [] None).
Proof.
  intros [Hb He Hv]. split; [|done|done|done]. split_and!; [|done|done]. by split.
Qed.

(** The bodies of the code section. *)
Definition code_bodies (f : WasmFeatures) (bytes : list Z) : list FunctionBody :=
  match payloads (2 * length bytes + 2) (parse_all (set_features f (Parser_new 0)) bytes) with
  | Some xs => omap body_of xs
  | None => []
  end.

(** What a module that was accepted is: [fs] are its functions, all of them valid. *)
Record accepted (bytes : list Z) (f : WasmFeatures) (fs : list ((FuncToValidate * WasmModule) * FunctionBody))
  (x : Types * Validator) : Prop := {
  ac_types : types_ok fs (fst x);
  ac_order : exists xs, payloads (2 * length bytes + 2) (parse_all (set_features f (Parser_new 0)) bytes) = Some (map Ok xs)
    /\ StronglySorted Z.lt (map order_index (omap section_order xs));
  ac_bodies : map snd fs = code_bodies f bytes;
  ac_features : Forall (fun x => ftv_features (fst (fst x)) = f) fs;
  ac_valid : Forall (fun '((f, m), body) => validate_func f m body = Ok tt) fs;
  ac_state : v_state (snd x) = VS_End /\ v_module (snd x) = None;
  ac_list : types_wf (v_types (snd x));
}.

Lemma validate_funcs_all fs : validate_funcs fs = Ok tt -> Forall (fun '((f, m), body) => validate_func f m body = Ok tt) fs.
Proof.
  induction fs as [|[[f m] body] fs IH]; [constructor|]. cbn [validate_funcs].
  destruct (validate_func f m body) as [[]| |] eqn:E; [|done..]. intros H. constructor; [done|by apply IH].
Qed.

Lemma types_ok_ready fs t : types_ok fs t -> Forall (fun '((f, m), body) => func_ready f m body) fs.
Proof.
  intros Ht. apply Forall_lookup. intros j [[f m] body] Hj. by destruct (to_collected _ _ Ht j _ Hj) as (_ & _ & -> & ?).
Qed.

Lemma validate_all_ok bytes v :
  can_validate bytes v -> rsafe (validate_all bytes v) (fun x => exists fs, accepted bytes (v_features v) fs x).
Proof.
  intros Hv. unfold validate_all.
  destruct (validate_payloads_ok (2 * length bytes + 2) _ v _ (loop_inv_start bytes v Hv)) as (x & Ex & Hx).
  { unfold all_measure. cbn. lia. }
  rewrite Ex. destruct x as [[v' c]| |]; [|done..]. destruct Hx as (Es & Em & HT & t & Ht & Hok).
  destruct (validate_payloads_bodies _ _ _ _ _ _ Ex) as (xs & Exs & Hb & Hfs). cbn [mbind result_bind].
  pose proof (validate_funcs_ok _ (types_ok_ready _ _ Hok)) as Hf.
  destruct (validate_funcs (functions_to_validate c)) as [[]| |] eqn:Ef; [|done..]. cbn [mbind result_bind].
  rewrite Ht. cbn. exists (functions_to_validate c).
  split; try done; [| |by apply Hfs|by apply validate_funcs_all].
  - destruct (validate_payloads_order _ _ _ _ _ _ (loop_inv_start bytes v Hv) Ex) as (pls & H1 & H2 & _). by exists pls.
  - unfold code_bodies. by rewrite Exs.
Qed.
