(* ===== verification/MigrateSpec.v ===== *)
(** The regions of an instrumented function: the tree of blocks against the
    operators of the body; the variables that the regions modify and read, and
    their addresses, against reference definitions. *)

From Stdlib Require Import ZArith Lia String Sorted.
From stdpp Require Import prelude gmap.
From S2P Require Import Prelude Leb128 BinaryReader BinaryReaderSpec Encode Types EncTypes Operands Operators.
From S2P Require Import OperatorReader Instructions Reencode InstrRoundtrip SectionReader Items EncSections.
From S2P Require Import Locality FunctionSpec Migrate.

Import WM.
Local Open Scope Z_scope.

(** ** Operators with their positions *)

Abbreviation located_op := (Z * Op.Operator)%type.

Fixpoint locate (fuel : nat) (r : BinaryReader) : option (list located_op) :=
  if eof r then Some []
  else match fuel with
  | O => None
  | S fuel' =>
      match read_operator r with
      | (Ok op, r') => ops ← locate fuel' r'; Some ((position r, op) :: ops)
      | _ => None
      end
  end.

(** The operators of a body, when all of them can be decoded. *)
Definition located_operators (b : FunctionBody) : option (list located_op) :=
  r ← body_operators b;
  locate (length (remaining_buffer r)) r.

Fixpoint tree_ops (ops : list located_op) (s : TreeState) : option TreeState :=
  match ops with
  | [] => Some s
  | (p, op) :: ops => s ← tree_step p op s; tree_ops ops s
  end.

Lemma tree_loop_located fuel r ops s : locate fuel r = Some ops -> tree_loop fuel r s = tree_ops ops s.
Proof.
  revert r ops s. induction fuel as [|fuel IH]; intros r ops s; cbn [locate tree_loop]; destruct (eof r);
    try (by intros [= <-]); try done.
  destruct (read_operator r) as [[op| |] r']; try done. intros H.
  destruct (locate fuel r') as [ops'|] eqn:E; [|done]. injection H as <-. cbn [tree_ops].
  destruct (tree_step (position r) op s) as [s'|]; [|done]. by apply IH.
Qed.

Fixpoint print_ops (d : ModuleData) (block : TreeNode) (ops : list located_op) : option code :=
  match ops with
  | [] => Some []
  | (p, op) :: ops =>
      if p <=? end_inst block then
        if start_inst block <=? p then i ← shift_calls d op; rest ← print_ops d block ops; Some (i :: rest)
        else print_ops d block ops
      else Some []
  end.

Lemma print_loop_located d block fuel r ops insts :
  locate fuel r = Some ops ->
  print_loop d fuel block r insts = (rest ← print_ops d block ops; Some (insts ++ rest)).
Proof.
  revert r ops insts. induction fuel as [|fuel IH]; intros r ops insts; cbn [locate print_loop]; destruct (eof r);
    try (intros [= <-]; cbn; by rewrite app_nil_r); try done.
  destruct (read_operator r) as [[op| |] r']; try done. intros H.
  destruct (locate fuel r') as [ops'|] eqn:E; [|done]. injection H as <-. cbn [print_ops].
  destruct (position r <=? end_inst block); [|cbn; by rewrite app_nil_r].
  destruct (start_inst block <=? position r); [|by apply IH].
  destruct (shift_calls d op) as [i|]; [|done]. cbn [mbind option_bind]. rewrite (IH _ _ _ E).
  destruct (print_ops d block ops') as [rest|]; [|done]. cbn. by rewrite <- app_assoc.
Qed.

Lemma update_loop_located d fuel r ops insts :
  locate fuel r = Some ops ->
  update_loop d fuel r insts = (rest ← mapM (fun o => shift_calls d (snd o)) ops; Some (insts ++ rest)).
Proof.
  revert r ops insts. induction fuel as [|fuel IH]; intros r ops insts; cbn [locate update_loop]; destruct (eof r);
    try (intros [= <-]; cbn; by rewrite app_nil_r); try done.
  destruct (read_operator r) as [[op| |] r']; try done. intros H.
  destruct (locate fuel r') as [ops'|] eqn:E; [|done]. injection H as <-. cbn [mapM snd].
  destruct (shift_calls d op) as [i|]; [|done]. cbn [mbind option_bind]. rewrite (IH _ _ _ E).
  destruct (mapM _ ops') as [rest|]; [|done]. cbn. by rewrite <- app_assoc.
Qed.

(** Positions increase. *)
Lemma locate_sorted fuel r ops :
  wf_reader r -> locate fuel r = Some ops ->
  StronglySorted Z.lt (map fst ops) /\ Forall (fun p => position r <= p) (map fst ops).
Proof.
  revert r ops. induction fuel as [|fuel IH]; intros r ops Hwf; cbn [locate]; destruct (eof r);
    try (intros [= <-]; by repeat constructor); try done.
  pose proof (visit_operator_outcome r true id Hwf) as Ho. fold read_operator in Ho.
  destruct (read_operator r) as [[op| |] r']; try done. destruct Ho as (op' & k & _ & _ & Hk & ->).
  intros H. destruct (locate fuel _) as [ops'|] eqn:E; [|done]. injection H as <-.
  destruct (IH _ _ (wf_advance k r Hwf (proj2 Hk)) E) as [Hs Hp]. cbn [map fst].
  assert (Hlt : Forall (fun p => position r < p) (map fst ops')).
  { eapply Forall_impl; [exact Hp|]. unfold advance, set_position. cbn. lia. }
  split; [by constructor|]. constructor; [done|]. eapply Forall_impl; [exact Hlt|]. cbn. lia.
Qed.

(** ** Nesting *)

(** [ops], inside [d] open blocks, ends with the [end] of the function.  Only the
    blocks that the tree knows are counted. *)
Fixpoint nested (d : nat) (ops : list Op.Operator) : bool :=
  match ops with
  | [] => false
  | op :: ops =>
      match op with
      | Op.Mvp (Op.Block _ | Op.Loop _ | Op.If _) => nested (S d) ops
      | Op.Mvp Op.Else => (0 <? d)%nat && nested d ops
      | Op.Mvp Op.End =>
          match d with
          | O => bool_decide (ops = [])
          | S d => nested d ops
          end
      | _ => nested d ops
      end
  end.

Definition is_else (op : Op.Operator) : bool := match op with Op.Mvp Op.Else => true | _ => false end.
Definition elses (ops : list Op.Operator) : nat := length (filter (fun op => is_else op = true) ops).

(** What an operator is to the tree. *)
Inductive op_kind := KOpen (ty : NodeType) | KElse | KEnd | KPlain.

Definition kind_of (op : Op.Operator) : op_kind :=
  match op with
  | Op.Mvp (Op.Block _) => KOpen BLOCK
  | Op.Mvp (Op.Loop _) => KOpen LOOP
  | Op.Mvp (Op.If _) => KOpen IF
  | Op.Mvp Op.Else => KElse
  | Op.Mvp Op.End => KEnd
  | _ => KPlain
  end.

(** One more operator of the code that is open. *)
Definition plain_step (p : Z) (s : TreeState) : option TreeState :=
  if negb (code_section_is_open s) then
    let s := open_node CODE p s in
    stack_top ← head (ts_stack s);
    Some (mkTreeState (ts_stack s) (ts_blocks s) (<[wrap 32 stack_top := [wrap 32 p]]> (ts_insts s)) true)
  else
    stack_top ← head (ts_stack s);
    insts ← ts_insts s !! wrap 32 stack_top;
    Some (mkTreeState (ts_stack s) (ts_blocks s) (<[wrap 32 stack_top := insts ++ [wrap 32 p]]> (ts_insts s)) true).

Definition end_step (p : Z) (s : TreeState) : option TreeState :=
  '(stack, blocks) ← closig_block p (ts_stack s) (ts_blocks s);
  Some (mkTreeState stack blocks (ts_insts s) (code_section_is_open s)).

Lemma tree_step_kind p op s :
  tree_step p op s
  = match kind_of op with
    | KOpen ty => s ← close_open_code p s; Some (open_node ty p s)
    | KElse => s ← close_open_code p s; Some (open_node ELSE p s)
    | KEnd => s ← close_open_code p s; end_step p s
    | KPlain => plain_step p s
    end.
Proof. destruct op as [[]|o|o|o|o|o|o|o|o|o|o|o|o|o|o|o|o]; reflexivity. Qed.

Lemma nested_kind d op ops :
  nested d (op :: ops)
  = match kind_of op with
    | KOpen _ => nested (S d) ops
    | KElse => (0 <? d)%nat && nested d ops
    | KEnd => match d with O => bool_decide (ops = []) | S d => nested d ops end
    | KPlain => nested d ops
    end.
Proof. destruct op as [[]|o|o|o|o|o|o|o|o|o|o|o|o|o|o|o|o]; reflexivity. Qed.

Lemma is_else_kind op : is_else op = match kind_of op with KElse => true | _ => false end.
Proof. destruct op as [[]|o|o|o|o|o|o|o|o|o|o|o|o|o|o|o|o]; reflexivity. Qed.

Lemma kind_end op : kind_of op = KEnd -> op = Op.Mvp Op.End.
Proof. by destruct op as [[]|o|o|o|o|o|o|o|o|o|o|o|o|o|o|o|o]. Qed.

Lemma elses_cons op ops : elses (op :: ops) = ((if is_else op then 1 else 0) + elses ops)%nat.
Proof. unfold elses. rewrite filter_cons. by destruct (is_else op); case_decide. Qed.

(** ** The shape of the tree while it is built *)

Definition toplevel (bs : list TreeNode) : list TreeNode := filter (fun n => outer n = 0) bs.

Lemma toplevel_app l1 l2 : toplevel (l1 ++ l2) = toplevel l1 ++ toplevel l2.
Proof. apply filter_app. Qed.

Lemma toplevel_nil l : Forall (fun n => outer n <> 0) l -> toplevel l = [].
Proof. intros H. induction H as [|n l Hn _ IH]; [done|]. unfold toplevel. rewrite filter_cons_False by done. exact IH. Qed.

Lemma toplevel_one n : outer n = 0 -> toplevel [n] = [n].
Proof. intros H. unfold toplevel. by rewrite filter_cons_True. Qed.

(** Whether code is open, as a number of entries of the stack. *)
Definition open_code (s : TreeState) : nat := if code_section_is_open s then 1 else 0.

(** When code is open its operators are recorded. *)
Definition recorded (s : TreeState) : Prop :=
  code_section_is_open s = true -> exists top insts, head (ts_stack s) = Some top /\ ts_insts s !! wrap 32 top = Some insts.

(** The nodes of the first level that are closed, and the one that is open: it is
    the last one, at the bottom of the stack, and what comes after it is nested. *)
Inductive tree_shape (closed : list TreeNode) (s : TreeState) : option TreeNode -> nat -> Prop :=
| shape_idle :
    ts_stack s = [] -> code_section_is_open s = false -> toplevel (ts_blocks s) = closed ->
    tree_shape closed s None 0
| shape_busy n l1 l2 st d :
    ts_blocks s = l1 ++ n :: l2 -> toplevel l1 = closed -> outer n = 0 -> Forall (fun n => outer n <> 0) l2 ->
    ts_stack s = st ++ [Z.of_nat (length l1) + 1] ->
    Forall (fun x => Z.of_nat (length l1) + 1 < x <= Z.of_nat (length (ts_blocks s))) st ->
    (length st + 1 = d + open_code s)%nat -> recorded s ->
    tree_shape closed s (Some n) d.

(** Closing a node that is nested in the open one. *)
Lemma close_nested p x st l1 n l2 b :
  Forall (fun n => outer n <> 0) l2 -> b = Z.of_nat (length l1) + 1 ->
  b < x <= Z.of_nat (length (l1 ++ n :: l2)) ->
  exists l2', closig_block p (x :: st) (l1 ++ n :: l2) = Some (st, l1 ++ n :: l2')
    /\ Forall (fun n => outer n <> 0) l2' /\ length l2' = length l2.
Proof.
  intros Hl2 -> Hx. rewrite length_app in Hx. cbn [length] in Hx. unfold closig_block.
  destruct (Z.ltb_spec x 1); [lia|]. set (k := (Z.to_nat (x - 1) - length l1 - 1)%nat).
  assert (E : Z.to_nat (x - 1) = (length l1 + S k)%nat) by (unfold k; lia). rewrite E.
  destruct (lookup_lt_is_Some_2 l2 k) as [m Hm]; [unfold k; lia|].
  assert (Hl : (l1 ++ n :: l2) !! (length l1 + S k)%nat = Some m).
  { rewrite lookup_app_r by lia. by replace (length l1 + S k - length l1)%nat with (S k) by lia. }
  rewrite Hl. exists (<[k := set_end_inst p m]> l2). split_and!.
  - cbn [mbind option_bind]. by rewrite insert_app_r.
  - apply Forall_insert; [done|]. exact (Forall_lookup_1 _ _ _ _ Hl2 Hm).
  - apply length_insert.
Qed.

(** Closing the open node. *)
Lemma close_top p l1 n l2 :
  closig_block p [Z.of_nat (length l1) + 1] (l1 ++ n :: l2) = Some ([], l1 ++ set_end_inst p n :: l2).
Proof.
  unfold closig_block. destruct (Z.ltb_spec (Z.of_nat (length l1) + 1) 1); [lia|].
  replace (Z.to_nat (Z.of_nat (length l1) + 1 - 1)) with (length l1 + 0)%nat by lia.
  assert (Hl : (l1 ++ n :: l2) !! (length l1 + 0)%nat = Some n).
  { rewrite lookup_app_r by lia. by replace (length l1 + 0 - length l1)%nat with 0%nat by lia. }
  rewrite Hl. cbn [mbind option_bind]. by rewrite insert_app_r.
Qed.

(** Popping the stack closes the open node, or one that is nested in it. *)
Lemma shape_pop closed s n d q :
  tree_shape closed s (Some n) d ->
  exists stack blocks, closig_block q (ts_stack s) (ts_blocks s) = Some (stack, blocks)
    /\ forall insts,
       ((d + open_code s = 1)%nat
        /\ tree_shape (closed ++ [set_end_inst q n]) (mkTreeState stack blocks insts false) None 0)
       \/ exists k, (d + open_code s = S (S k))%nat
          /\ tree_shape closed (mkTreeState stack blocks insts false) (Some n) (S k).
Proof.
  intros H. inversion H as [|n' l1 l2 st d' Eb Ec Hn Hl2 Es Hst Hd Hr]; subst. rewrite Es, Eb.
  destruct st as [|x st]; cbn [app].
  - rewrite close_top. eexists _, _. split; [done|]. intros insts. left. cbn [length] in Hd. split; [lia|].
    constructor; [done..|]. cbn [ts_blocks]. rewrite toplevel_app.
    change (set_end_inst q n :: l2) with ([set_end_inst q n] ++ l2).
    by rewrite toplevel_app, toplevel_one, (toplevel_nil l2), app_nil_r.
  - apply Forall_cons in Hst as [Hx Hst]. rewrite Eb in Hx, Hst.
    destruct (close_nested q x (st ++ [Z.of_nat (length l1) + 1]) l1 n l2 _ Hl2 eq_refl Hx) as (l2' & -> & Hl2' & Hlen).
    eexists _, _. split; [done|]. intros insts. right. exists (length st). cbn [length] in Hd. split; [lia|].
    eapply shape_busy; cbn [ts_blocks ts_stack]; [done..| |unfold open_code; cbn; lia|by intros].
    eapply Forall_impl; [exact Hst|]. intros y. cbn beta. rewrite !length_app. cbn [length]. lia.
Qed.

(** A node is opened, with its code recorded when it is code. *)
Lemma shape_push closed s cur d ty p insts o :
  tree_shape closed s cur d -> code_section_is_open s = false ->
  (o = true -> is_Some (insts !! wrap 32 (Z.of_nat (length (ts_blocks s)) + 1))) ->
  exists n, tree_shape closed
      (let (stack, blocks) := opening_block ty p (ts_stack s) (ts_blocks s) in mkTreeState stack blocks insts o)
      (Some n) (S d - (if o then 1 else 0))
    /\ match cur with Some m => n = m | None => start_inst n = p end.
Proof.
  intros H Ho Hi.
  assert (Hrec : forall stack blocks, recorded (mkTreeState (Z.of_nat (length (ts_blocks s)) + 1 :: stack) blocks insts o)).
  { intros stack blocks E. cbn in E. destruct (Hi E) as [l Hl]. by exists (Z.of_nat (length (ts_blocks s)) + 1), l. }
  destruct H as [Es _ Ec|n l1 l2 st d Eb Ec Hn Hl2 Es Hst Hd Hr].
  - rewrite Es. exists (set_outer 0 (TreeNode_new (Z.of_nat (length (ts_blocks s)) + 1) ty p)). split; [|done].
    eapply (shape_busy _ _ _ (ts_blocks s) [] []); cbn; first [done|by destruct o|apply Hrec].
  - exists n. split; [|done]. unfold opening_block. rewrite Es.
    eapply (shape_busy _ _ _ l1 (l2 ++ [_]) (_ :: st)); cbn [ts_blocks ts_stack].
    + rewrite Eb, <- app_assoc. done.
    + done.
    + done.
    + apply Forall_app. split; [done|]. constructor; [|done]. destruct st as [|x st]; cbn; [lia|].
      apply Forall_cons in Hst as [Hx _]. lia.
    + done.
    + rewrite length_app. cbn [length]. constructor; [rewrite Eb, length_app; cbn [length]; lia|].
      eapply Forall_impl; [exact Hst|]. cbn beta. lia.
    + unfold open_code in *. cbn [code_section_is_open length]. rewrite Ho in Hd. destruct o; lia.
    + apply Hrec.
Qed.

(** More code in the open code. *)
Lemma shape_more closed s cur d p :
  tree_shape closed s cur d -> code_section_is_open s = true ->
  exists s' n, plain_step p s = Some s' /\ cur = Some n /\ code_section_is_open s' = true
    /\ tree_shape closed s' (Some n) d.
Proof.
  intros H Ho. unfold plain_step. rewrite Ho. cbn [negb].
  destruct H as [Es Ho' _|n l1 l2 st d Eb Ec Hn Hl2 Es Hst Hd Hr]; [congruence|].
  destruct (Hr Ho) as (top & insts & Ht & Hl). rewrite Ht. cbn [mbind option_bind]. rewrite Hl. cbn [mbind option_bind].
  eexists _, n. split_and!; [done..|]. eapply shape_busy; cbn [ts_blocks ts_stack]; try done.
  - unfold open_code in *. by rewrite Ho in Hd.
  - intros _. exists top. eexists. split; [done|]. cbn. by rewrite lookup_insert_eq.
Qed.

(** ** Regions tile the body *)

(** The nodes [ns] are, one after the other, [ops] up to [rest]: a node starts at
    its first operator, and its end is between its last operator and what follows. *)
Inductive tiling : list TreeNode -> list located_op -> list located_op -> Prop :=
| tiling_nil rest : tiling [] rest rest
| tiling_cons n ns o seg ops rest :
    Forall (fun x => fst x <= end_inst n) ((start_inst n, o) :: seg) ->
    Forall (fun x => end_inst n < fst x) ops -> tiling ns ops rest ->
    tiling (n :: ns) ((start_inst n, o) :: seg ++ ops) rest.

Lemma tiling_snoc ns ops n o seg rest :
  tiling ns ops (((start_inst n, o) :: seg) ++ rest) ->
  Forall (fun x => fst x <= end_inst n) ((start_inst n, o) :: seg) -> Forall (fun x => end_inst n < fst x) rest ->
  tiling (ns ++ [n]) ops rest.
Proof.
  intros H H1 H2. remember (((start_inst n, o) :: seg) ++ rest) as tail eqn:E.
  induction H as [|m ns' o' seg' ops' rest' Hm1 Hm2 Ht IH]; subst.
  - cbn [app]. apply (tiling_cons n [] o seg rest rest); [done..|constructor].
  - cbn [app]. constructor; [done..|by apply IH].
Qed.

Lemma tiling_suffix ns ops rest : tiling ns ops rest -> exists pre, ops = pre ++ rest.
Proof.
  induction 1 as [|n ns o seg ops rest _ _ _ [pre ->]]; [by exists []|].
  exists ((start_inst n, o) :: seg ++ pre). cbn. by rewrite <- app_assoc.
Qed.

Definition increasing (ops : list located_op) : Prop := StronglySorted Z.lt (map fst ops).

Lemma increasing_suffix pre ops : increasing (pre ++ ops) -> increasing ops.
Proof.
  unfold increasing. induction pre as [|x pre IH]; [done|]. cbn. intros H. apply IH. by apply StronglySorted_inv in H as [? _].
Qed.

Lemma increasing_below ops p op rem :
  increasing (ops ++ (p, op) :: rem) ->
  Forall (fun x => fst x < p) ops /\ Forall (fun x => p <= fst x) ((p, op) :: rem) /\ Forall (fun x => p < fst x) rem.
Proof.
  unfold increasing. induction ops as [|x ops IH]; cbn; intros H; apply StronglySorted_inv in H as [H1 H2].
  - rewrite Forall_map in H2. split_and!; [done| |done]. constructor; [done|]. eapply Forall_impl; [exact H2|]. cbn. lia.
  - destruct (IH H1) as (A & B & C). split_and!; [|done..]. constructor; [|done].
    rewrite map_app, Forall_app in H2. destruct H2 as [_ H2]. by apply Forall_cons in H2 as [? _].
Qed.

(** The state of the tree when [rem] is left of [ops]. *)
Definition building (ops rem : list located_op) (d : nat) (s : TreeState) : Prop :=
  exists closed cur seg, tree_shape closed s cur d /\ tiling closed ops (seg ++ rem)
    /\ match cur with None => seg = [] | Some n => exists o seg', seg = (start_inst n, o) :: seg' end.

(** The open node is closed at [q], with the operators of [seg]. *)
Lemma tiling_close closed ops n o seg rest q :
  tiling closed ops (((start_inst n, o) :: seg) ++ rest) ->
  Forall (fun x => fst x <= q) ((start_inst n, o) :: seg) -> Forall (fun x => q < fst x) rest ->
  tiling (closed ++ [set_end_inst q n]) ops rest.
Proof. intros Ht H1 H2. by apply (tiling_snoc closed ops (set_end_inst q n) o seg rest). Qed.

Lemma building_close_code ops p op rem d s :
  increasing ops -> 1 <= p -> building ops ((p, op) :: rem) d s ->
  exists s', close_open_code p s = Some s' /\ code_section_is_open s' = false /\ building ops ((p, op) :: rem) d s'.
Proof.
  intros Hs Hp (closed & cur & seg & Hsh & Ht & Hcur). unfold close_open_code.
  destruct (code_section_is_open s) eqn:Ho; [|by exists s; split_and!; [..|exists closed, cur, seg]].
  destruct cur as [n|]; [|inversion Hsh; congruence]. destruct Hcur as (o & seg' & ->).
  unfold close_preceeding_code_portion. destruct (Z.ltb_spec p 1); [lia|].
  destruct (shape_pop _ _ _ _ (p - 1) Hsh) as (stack & bs & -> & Hpop). cbn [mbind option_bind].
  eexists. split_and!; [done..|]. unfold open_code in Hpop. rewrite Ho in Hpop.
  destruct (tiling_suffix _ _ _ Ht) as [pre E]. rewrite E in Hs. apply increasing_suffix in Hs.
  destruct (increasing_below _ _ _ _ Hs) as (Hlo & Hhi & _).
  destruct (Hpop (ts_insts s)) as [[Hd Hsh']|(k & Hd & Hsh')].
  - assert (d = 0%nat) as -> by lia. exists (closed ++ [set_end_inst (p - 1) n]), None, []. split_and!; [done| |done].
    eapply tiling_close; [exact Ht|..]; (eapply Forall_impl; [eassumption|]; cbn; lia).
  - assert (d = S k) as -> by lia. exists closed, (Some n), ((start_inst n, o) :: seg'). by split_and!; [..|eauto].
Qed.

Lemma building_end ops p op rem d s :
  increasing ops -> code_section_is_open s = false -> building ops ((p, op) :: rem) (S d) s ->
  exists s', end_step p s = Some s' /\ code_section_is_open s' = false /\ building ops rem d s'.
Proof.
  intros Hs Ho (closed & cur & seg & Hsh & Ht & Hcur). destruct cur as [n|]; [|inversion Hsh].
  destruct Hcur as (o & seg' & ->). unfold end_step.
  destruct (shape_pop _ _ _ _ p Hsh) as (stack & bs & -> & Hpop). cbn [mbind option_bind]. rewrite Ho.
  eexists. split_and!; [done..|]. unfold open_code in Hpop. rewrite Ho in Hpop.
  destruct (tiling_suffix _ _ _ Ht) as [pre E]. rewrite E in Hs. apply increasing_suffix in Hs.
  destruct (increasing_below _ _ _ _ Hs) as (Hlo & _ & Hhi).
  assert (Ht' : tiling closed ops (((start_inst n, o) :: (seg' ++ [(p, op)])) ++ rem)).
  { cbn [app] in *. by rewrite <- app_assoc. }
  destruct (Hpop (ts_insts s)) as [[Hd Hsh']|(k & Hd & Hsh')].
  - assert (d = 0%nat) as -> by lia. exists (closed ++ [set_end_inst p n]), None, []. split_and!; [done| |done].
    eapply tiling_close; [exact Ht'| |done]. rewrite app_comm_cons. apply Forall_app. split; [|by repeat constructor].
    eapply Forall_impl; [exact Hlo|]. cbn. lia.
  - assert (d = S k) as -> by lia. exists closed, (Some n), ((start_inst n, o) :: (seg' ++ [(p, op)])).
    by split_and!; [..|eauto].
Qed.

(** The operator at [p] joins the open region, or starts one. *)
Lemma building_push ops p op rem d s ty insts o :
  code_section_is_open s = false -> building ops ((p, op) :: rem) d s ->
  (o = true -> is_Some (insts !! wrap 32 (Z.of_nat (length (ts_blocks s)) + 1))) ->
  building ops rem (S d - (if o then 1 else 0))
    (let (stack, blocks) := opening_block ty p (ts_stack s) (ts_blocks s) in mkTreeState stack blocks insts o).
Proof.
  intros Ho (closed & cur & seg & Hsh & Ht & Hcur) Hi.
  destruct (shape_push _ _ _ _ ty p insts o Hsh Ho Hi) as (n & Hsh' & Hn).
  exists closed, (Some n), (seg ++ [(p, op)]). split_and!; [done|by rewrite <- app_assoc|].
  destruct cur as [m|].
  - subst n. destruct Hcur as (o' & seg' & ->). by exists o', (seg' ++ [(p, op)]).
  - subst seg. exists op, []. by rewrite Hn.
Qed.

Lemma building_plain ops p op rem d s :
  building ops ((p, op) :: rem) d s -> exists s', plain_step p s = Some s' /\ building ops rem d s'.
Proof.
  intros Hb. destruct (code_section_is_open s) eqn:Ho.
  - destruct Hb as (closed & cur & seg & Hsh & Ht & Hcur).
    destruct (shape_more _ _ _ _ p Hsh Ho) as (s' & n & -> & -> & _ & Hsh'). eexists. split; [done|].
    destruct Hcur as (o & seg' & ->). exists closed, (Some n), (((start_inst n, o) :: seg') ++ [(p, op)]).
    split_and!; [done|by rewrite <- app_assoc|]. by exists o, (seg' ++ [(p, op)]).
  - unfold plain_step. rewrite Ho. cbn [negb open_node opening_block ts_stack head mbind option_bind ts_blocks].
    eexists. split; [done|].
    pose proof (building_push ops p op rem d s CODE
                  (<[wrap 32 (Z.of_nat (length (ts_blocks s)) + 1) := [wrap 32 p]]> (ts_insts s)) true Ho Hb) as H.
    rewrite lookup_insert_eq in H. specialize (H ltac:(by eauto)). by rewrite Nat.sub_succ, Nat.sub_0_r in H.
Qed.

(** The tree of a body without [else]: its first level is the body without the last [end]. *)
Lemma tree_ops_tiling ops rem d s :
  increasing ops -> Forall (fun x => 1 <= fst x) rem -> nested d (map snd rem) = true -> elses (map snd rem) = 0%nat ->
  building ops rem d s ->
  exists s' p, tree_ops rem s = Some s' /\ ts_stack s' = [] /\ tiling (toplevel (ts_blocks s')) ops [(p, Op.Mvp Op.End)].
Proof.
  intros Hs. revert d s. induction rem as [|[p op] rem IH]; intros d s Hp Hn He Hb; [done|].
  apply Forall_cons in Hp as [Hp Hps]. cbn [fst] in Hp. cbn [map snd] in Hn, He.
  rewrite elses_cons, is_else_kind in He. rewrite nested_kind in Hn. cbn [tree_ops]. rewrite tree_step_kind.
  destruct (kind_of op) as [ty| | |] eqn:Ek.
  - destruct (building_close_code _ _ _ _ _ _ Hs Hp Hb) as (s1 & -> & Ho & Hb1). cbn [mbind option_bind].
    apply (IH (S d)); [done..|]. pose proof (building_push _ _ _ _ _ _ ty (ts_insts s1) false Ho Hb1) as H.
    unfold open_node. rewrite Ho. by apply H.
  - cbn in He. lia.
  - destruct (building_close_code _ _ _ _ _ _ Hs Hp Hb) as (s1 & -> & Ho & Hb1). cbn [mbind option_bind].
    destruct d as [|d].
    + apply bool_decide_eq_true in Hn. destruct rem; [|done].
      destruct Hb1 as (closed & cur & seg & Hsh & Ht & Hcur). destruct cur as [n|].
      { inversion Hsh. unfold open_code in *. rewrite Ho in *. lia. }
      subst seg. inversion Hsh as [Es _ Ec|]; subst. unfold end_step. rewrite Es. cbn.
      eexists _, p. split_and!; [done..|]. by rewrite <- (kind_end op Ek).
    + destruct (building_end _ _ _ _ _ _ Hs Ho Hb1) as (s2 & -> & _ & Hb2). cbn [mbind option_bind]. by apply (IH d).
  - destruct (building_plain _ _ _ _ _ _ Hb) as (s1 & -> & Hb1). cbn [mbind option_bind]. by apply (IH d).
Qed.

(** ** Indices of the nodes *)

Definition indexed (bs : list TreeNode) : Prop := forall k n, bs !! k = Some n -> index n = Z.of_nat k + 1.

Lemma indexed_open ty p stack bs : indexed bs -> indexed (snd (opening_block ty p stack bs)).
Proof.
  intros H k n. unfold opening_block. cbn [snd]. intros [Hk|[Hk Hn]]%lookup_app_Some; [by apply H|].
  apply list_lookup_singleton_Some in Hn as [E <-]. cbn. lia.
Qed.

Lemma indexed_close q stack bs stack' bs' :
  indexed bs -> closig_block q stack bs = Some (stack', bs') -> indexed bs'.
Proof.
  intros H. unfold closig_block. destruct stack as [|x stack]; [by intros [= <- <-]|].
  destruct (x <? 1); [done|]. destruct (bs !! _) as [m|] eqn:Em; [|done]. intros [= <- <-] k n.
  rewrite list_lookup_insert_Some. intros [(<- & <- & _)|[_ Hk]]; [|by apply H]. by apply H in Em.
Qed.

Lemma indexed_step p op s s' : indexed (ts_blocks s) -> tree_step p op s = Some s' -> indexed (ts_blocks s').
Proof.
  intros H. rewrite tree_step_kind.
  assert (Hc : forall s1, close_open_code p s = Some s1 -> indexed (ts_blocks s1)).
  { intros s1. unfold close_open_code, close_preceeding_code_portion. destruct (code_section_is_open s); [|by intros [= <-]].
    destruct (p <? 1); [done|]. destruct (closig_block _ _ _) as [[]|] eqn:E; [|done]. intros [= <-].
    by eapply indexed_close. }
  assert (Ho : forall ty s1, indexed (ts_blocks s1) -> indexed (ts_blocks (open_node ty p s1))).
  { intros ty s1 H1. by apply indexed_open. }
  destruct (kind_of op).
  1-2: destruct (close_open_code p s) as [s1|]; [|done]; intros [= <-]; by apply Ho, Hc.
  - destruct (close_open_code p s) as [s1|]; [|done]. cbn [mbind option_bind]. unfold end_step.
    destruct (closig_block _ _ _) as [[]|] eqn:E; [|done]. intros [= <-]. eapply indexed_close; [|exact E]. by apply Hc.
  - unfold plain_step. destruct (negb _).
    + intros [= <-]. by apply Ho.
    + destruct (head _); [|done]. cbn [mbind option_bind]. destruct (_ !! _); [|done]. by intros [= <-].
Qed.

Lemma indexed_ops ops s s' : indexed (ts_blocks s) -> tree_ops ops s = Some s' -> indexed (ts_blocks s').
Proof.
  revert s. induction ops as [|[p op] ops IH]; intros s H; cbn [tree_ops]; [by intros [= <-]|].
  destruct (tree_step p op s) as [s1|] eqn:E; [|done]. apply IH. by eapply indexed_step.
Qed.

Lemma indexed_loop fuel r s s' : indexed (ts_blocks s) -> tree_loop fuel r s = Some s' -> indexed (ts_blocks s').
Proof.
  revert r s. induction fuel as [|fuel IH]; intros r s H; cbn [tree_loop]; destruct (eof r); try (by intros [= <-]); try done.
  destruct (read_operator r) as [[op| |] r']; try done.
  destruct (tree_step (position r) op s) as [s1|] eqn:E; [|done]. apply IH. by eapply indexed_step.
Qed.

Lemma toplevel_lookup bs n :
  indexed bs -> n ∈ toplevel bs -> 1 <= index n /\ bs !! Z.to_nat (index n - 1) = Some n.
Proof.
  intros H [_ Hn]%list_elem_of_filter. apply list_elem_of_lookup in Hn as [k Hk]. rewrite (H k n Hk).
  split; [lia|]. by replace (Z.to_nat (Z.of_nat k + 1 - 1)) with k by lia.
Qed.

(** ** Printing the regions *)

Definition shifted (d : ModuleData) (ops : list located_op) : option code := mapM (fun o => shift_calls d (snd o)) ops.

Lemma shifted_app d l1 l2 c :
  shifted d (l1 ++ l2) = Some c -> exists c1 c2, shifted d l1 = Some c1 /\ shifted d l2 = Some c2 /\ c = c1 ++ c2.
Proof.
  unfold shifted. revert c. induction l1 as [|x l1 IH]; intros c; cbn; [intros H; by exists [], c|].
  destruct (shift_calls d x.2) as [i|]; [|done]. cbn. destruct (mapM _ (l1 ++ l2)) as [c'|]; [|done]. intros [= <-].
  destruct (IH c' eq_refl) as (c1 & c2 & -> & -> & ->). by exists (i :: c1), c2.
Qed.

(** What comes before the node is skipped, what comes after it ends the loop. *)
Lemma print_ops_range d n pre seg post c :
  Forall (fun x => fst x < start_inst n) pre -> start_inst n <= end_inst n + 1 ->
  Forall (fun x => start_inst n <= fst x <= end_inst n) seg -> Forall (fun x => end_inst n < fst x) post ->
  shifted d seg = Some c -> print_ops d n (pre ++ seg ++ post) = Some c.
Proof.
  intros Hpre Hle Hseg Hpost. induction Hpre as [|[p op] pre Hp _ IH]; cbn [app print_ops].
  - revert c. induction Hseg as [|[p op] seg Hp _ IH]; intros c Hc; cbn [app print_ops].
    + injection Hc as <-. destruct post as [|[p op] post]; [done|]. apply Forall_cons in Hpost as [Hp _]. cbn in Hp |- *.
      by destruct (Z.leb_spec p (end_inst n)); [lia|].
    + cbn in Hp. destruct (Z.leb_spec p (end_inst n)); [|lia]. destruct (Z.leb_spec (start_inst n) p); [|lia].
      unfold shifted in *. cbn in Hc. destruct (shift_calls d op) as [i|]; [|done]. cbn in Hc |- *.
      destruct (mapM _ seg) as [c'|]; [|done]. injection Hc as <-. by rewrite (IH c').
  - intros Hc. cbn in Hp. destruct (Z.leb_spec p (end_inst n)); [|lia]. destruct (Z.leb_spec (start_inst n) p); [lia|].
    by apply IH.
Qed.

Lemma print_tiling d ns ops rest all pre c :
  tiling ns ops rest -> all = pre ++ ops -> increasing all -> shifted d ops = Some c ->
  exists cs c', mapM (fun n => print_ops d n all) ns = Some cs /\ shifted d rest = Some c' /\ c = concat cs ++ c'.
Proof.
  intros Ht. revert pre c. induction Ht as [rest|n ns o seg ops rest H1 H2 Ht IH]; intros pre c E Hs Hc.
  - by exists [], c.
  - rewrite app_comm_cons in Hc. destruct (shifted_app _ _ _ _ Hc) as (c1 & c2 & Hc1 & Hc2 & ->).
    destruct (IH (pre ++ (start_inst n, o) :: seg) c2) as (cs & c' & Hcs & Hr & ->); [|done..|].
    { rewrite E, <- app_assoc. done. }
    exists (c1 :: cs), c'. split_and!; [|done|cbn [concat]; by rewrite <- app_assoc]. cbn [mapM].
    assert (print_ops d n all = Some c1) as ->; [|cbn; by rewrite Hcs].
    rewrite E in Hs |- *. rewrite app_comm_cons. destruct (increasing_below _ _ _ _ Hs) as (Hlo & Hhi & _).
    apply Forall_cons in H1 as [H0 H1]. cbn in H0.
    apply print_ops_range; [done|lia| |done..]. rewrite app_comm_cons, Forall_app in Hhi. destruct Hhi as [Hhi _].
    apply Forall_and. split; [done|]. by constructor.
Qed.

(** ** The operators of a body *)

Lemma local_skip_locals : local 1 skip_locals.
Proof.
  apply local_bind_l; [apply local_var_u32|]. intros n. induction (Z.to_nat n) as [|k IH]; [apply local_ret|].
  cbn [skip_locals_loop]. apply (local_bind_r 0); [apply (local_weaken 1), local_var_u32|]. intros _.
  apply (local_bind_r 0); [apply (local_weaken 1), local_val_type|]. by intros _.
Qed.

(** The operators come after the count of the locals. *)
Lemma body_operators_ok b r :
  wf_reader (body_reader b) -> body_operators b = Some r -> wf_reader r /\ 1 <= position r.
Proof.
  intros Hwf. unfold body_operators. destruct (skip_locals (body_reader b)) as [[[]| |] r'] eqn:E; [|done..].
  intros [= <-]. split; [by eapply local_reader_wf; [apply local_skip_locals| |]|].
  destruct (local_skip_locals _ _ _ Hwf E) as (bs & Hl & _ & -> & _). destruct Hwf. unfold advance, set_position. cbn. lia.
Qed.

Lemma located_ok b ops :
  wf_reader (body_reader b) -> located_operators b = Some ops -> increasing ops /\ Forall (fun x => 1 <= fst x) ops.
Proof.
  intros Hwf. unfold located_operators. destruct (body_operators b) as [r|] eqn:E; [|done]. cbn [mbind option_bind].
  destruct (body_operators_ok _ _ Hwf E) as [Hr Hp]. intros H. destruct (locate_sorted _ _ _ Hr H) as [H1 H2].
  split; [done|]. rewrite Forall_map in H2. eapply Forall_impl; [exact H2|]. cbn. lia.
Qed.

(** The tree of a body, by its operators. *)
Lemma build_located b ops :
  located_operators b = Some ops ->
  build_block_tree b
  = (s ← tree_ops ops (mkTreeState [] [] ∅ false);
     if bool_decide (ts_stack s = []) then Some (mkBlockTree (ts_blocks s) (ts_insts s)) else None).
Proof.
  unfold located_operators, build_block_tree. destruct (body_operators b) as [r|]; [|done]. cbn [mbind option_bind].
  intros H. by rewrite (tree_loop_located _ _ _ _ H).
Qed.

Lemma print_located d b ops i n :
  located_operators b = Some ops -> 1 <= i -> blocks (tree d) !! Z.to_nat (i - 1) = Some n ->
  print_block_instructions d i b = print_ops d n ops.
Proof.
  unfold located_operators, print_block_instructions. intros H Hi Hn. destruct (Z.ltb_spec i 1); [lia|].
  rewrite Hn. cbn [mbind option_bind]. destruct (body_operators b) as [r|]; [|done]. cbn [mbind option_bind] in H |- *.
  rewrite (print_loop_located _ _ _ _ _ _ H). by destruct (print_ops d n ops).
Qed.

Lemma update_located d b ops : located_operators b = Some ops -> update_instructions d b = shifted d ops.
Proof.
  unfold located_operators, update_instructions. destruct (body_operators b) as [r|]; [|done].
  cbn [mbind option_bind]. intros H. rewrite (update_loop_located _ _ _ _ _ H). unfold shifted. by destruct (mapM _ ops).
Qed.

Lemma print_all_located d b ops ns :
  located_operators b = Some ops -> indexed (blocks (tree d)) -> (forall n, n ∈ ns -> n ∈ toplevel (blocks (tree d))) ->
  mapM (fun i => print_block_instructions d i b) (map index ns) = mapM (fun n => print_ops d n ops) ns.
Proof.
  intros Hl Hix. induction ns as [|n ns IH]; intros Hns; [done|]. cbn [map mapM].
  destruct (toplevel_lookup _ n Hix) as [Hi Hn]; [apply Hns; by left|].
  rewrite (print_located _ _ _ _ _ Hl Hi Hn), IH; [done|]. intros m Hm. apply Hns. by right.
Qed.

(** The regions, printed one after the other, are the body without its last [end]. *)
Lemma regions_print b ops :
  wf_reader (body_reader b) -> located_operators b = Some ops -> nested 0 (map snd ops) = true ->
  elses (map snd ops) = 0%nat ->
  exists t, build_block_tree b = Some t
    /\ forall d insts, tree d = t -> update_instructions d b = Some insts ->
       exists regions, mapM (fun i => print_block_instructions d i b) (generate_checkpoint_list (blocks t)) = Some regions
         /\ insts = concat regions ++ [Instr.End : Instr.Instruction].
Proof.
  intros Hwf Hl Hn He. destruct (located_ok _ _ Hwf Hl) as [Hs Hp]. set (s0 := mkTreeState [] [] ∅ false).
  assert (Hb : building ops ops 0 s0) by (exists [], None, []; split_and!; by constructor).
  destruct (tree_ops_tiling _ _ _ _ Hs Hp Hn He Hb) as (s & p & Hs' & Hst & Ht).
  assert (Hix : indexed (ts_blocks s)) by (eapply indexed_ops; [|exact Hs']; by intros k n).
  rewrite (build_located _ _ Hl). fold s0. rewrite Hs'. cbn [mbind option_bind]. rewrite bool_decide_true by done. eexists. split; [done|].
  intros d insts Ed. rewrite (update_located _ _ _ Hl). intros Hi.
  destruct (print_tiling d _ _ _ ops [] insts Ht eq_refl Hs Hi) as (cs & c' & Hcs & Hc' & ->).
  exists cs. cbn in Hc'. injection Hc' as <-. split; [|done]. rewrite <- Hcs. subst s0. cbn [blocks].
  apply (print_all_located d b ops (toplevel (ts_blocks s)) Hl); rewrite Ed; [done|by intros].
Qed.

(** ** Bodies with [else] *)

(** An [else] opens a node and closes none, so each leaves an entry on the stack. *)
Record stack_shape (d k : nat) (s : TreeState) : Prop := {
  ss_valid : Forall (fun x => 1 <= x <= Z.of_nat (length (ts_blocks s))) (ts_stack s);
  ss_length : length (ts_stack s) = (d + k + open_code s)%nat;
  ss_recorded : recorded s;
}.

Lemma close_valid q x stack bs :
  1 <= x <= Z.of_nat (length bs) ->
  exists bs', closig_block q (x :: stack) bs = Some (stack, bs') /\ length bs' = length bs.
Proof.
  intros Hx. unfold closig_block. destruct (Z.ltb_spec x 1); [lia|].
  destruct (lookup_lt_is_Some_2 bs (Z.to_nat (x - 1))) as [n Hn]; [lia|]. rewrite Hn. eexists. split; [done|].
  apply length_insert.
Qed.

Lemma stack_close_code d k p s :
  1 <= p -> stack_shape d k s ->
  exists s', close_open_code p s = Some s' /\ code_section_is_open s' = false /\ stack_shape d k s'.
Proof.
  intros Hp [Hv Hl Hr]. unfold close_open_code, open_code in *.
  destruct (code_section_is_open s) eqn:Ho; [|by exists s; split_and!; [..|split; [|unfold open_code; rewrite Ho|]]].
  unfold close_preceeding_code_portion. destruct (Z.ltb_spec p 1); [lia|].
  destruct (ts_stack s) as [|x stack]; cbn [length] in Hl; [lia|]. apply Forall_cons in Hv as [Hx Hv].
  destruct (close_valid (p - 1) x stack _ Hx) as (bs' & -> & Hlen). eexists. split_and!; [done..|].
  split; cbn; [by rewrite Hlen|lia|by intros].
Qed.

Lemma stack_push d k ty p s :
  code_section_is_open s = false -> stack_shape d k s ->
  stack_shape (S d) k (open_node ty p s) /\ stack_shape d (S k) (open_node ty p s).
Proof.
  intros Ho [Hv Hl Hr]. unfold open_code in Hl. rewrite Ho in Hl.
  split; (split; cbn; [|unfold open_code; cbn; rewrite Ho; lia|intros E; cbn in E; congruence]);
    rewrite length_app; cbn; (constructor; [lia|]; eapply Forall_impl; [exact Hv|]; cbn; lia).
Qed.

Lemma stack_plain d k p s : stack_shape d k s -> exists s', plain_step p s = Some s' /\ stack_shape d k s'.
Proof.
  intros [Hv Hl Hr]. unfold plain_step, open_code, recorded in *. destruct (code_section_is_open s); cbn [negb].
  - destruct (Hr eq_refl) as (top & insts & Et & E). rewrite Et. cbn [mbind option_bind]. rewrite E.
    cbn [mbind option_bind]. eexists. split; [done|]. split; [done|done|]. intros _. exists top. eexists. cbn.
    split; [done|]. by rewrite lookup_insert_eq.
  - cbn [open_node opening_block ts_stack head mbind option_bind ts_blocks ts_insts]. eexists. split; [done|].
    split; unfold recorded; cbn [ts_blocks ts_stack ts_insts code_section_is_open length].
    + rewrite length_app. cbn. constructor; [lia|]. eapply Forall_impl; [exact Hv|]. cbn. lia.
    + unfold open_code. cbn. lia.
    + intros _. eexists _, _. cbn [head]. split; [done|]. by rewrite lookup_insert_eq.
Qed.

Lemma stack_end d k p s :
  code_section_is_open s = false -> stack_shape (S d) k s -> exists s', end_step p s = Some s' /\ stack_shape d k s'.
Proof.
  intros Ho [Hv Hl Hr]. unfold end_step, open_code in *. rewrite Ho in *.
  destruct (ts_stack s) as [|x stack]; cbn [length] in Hl; [lia|]. apply Forall_cons in Hv as [Hx Hv].
  destruct (close_valid p x stack _ Hx) as (bs' & -> & Hlen). eexists. split; [done|].
  split; cbn; [by rewrite Hlen|lia|by intros].
Qed.

(** The stack at the end of the body: the last [end] removes one entry at most. *)
Lemma tree_ops_stack rem d k s :
  Forall (fun x => 1 <= fst x) rem -> nested d (map snd rem) = true -> stack_shape d k s ->
  exists s', tree_ops rem s = Some s' /\ length (ts_stack s') = (k + elses (map snd rem) - 1)%nat.
Proof.
  revert d k s. induction rem as [|[p op] rem IH]; intros d k s Hp Hn Hs; [done|].
  apply Forall_cons in Hp as [Hp Hps]. cbn [fst] in Hp. cbn [map snd] in Hn |- *.
  rewrite elses_cons, is_else_kind. rewrite nested_kind in Hn. cbn [tree_ops]. rewrite tree_step_kind.
  destruct (stack_close_code _ _ _ _ Hp Hs) as (s1 & Hc & Ho & Hs1).
  destruct (kind_of op) as [ty| | |] eqn:Ek; cbn [Nat.add]; [rewrite Hc..|]; cbn [mbind option_bind].
  - apply (IH (S d)); [done..|]. by apply stack_push.
  - apply andb_prop in Hn as [_ Hn]. rewrite <- Nat.add_succ_comm. apply (IH d (S k)); [done..|]. by apply stack_push.
  - destruct d as [|d].
    + apply bool_decide_eq_true in Hn. destruct rem; [|done]. destruct Hs1 as [Hv Hl _]. unfold open_code in Hl.
      rewrite Ho in Hl. unfold end_step. cbn [elses filter map] in *. destruct (ts_stack s1) as [|x stack]; cbn in Hl.
      * eexists. split; [done|]. cbn. lia.
      * apply Forall_cons in Hv as [Hx _]. destruct (close_valid p x stack _ Hx) as (bs' & -> & _).
        eexists. split; [done|]. cbn. lia.
    + destruct (stack_end _ _ p _ Ho Hs1) as (s2 & -> & Hs2). cbn [mbind option_bind]. by apply (IH d).
  - destruct (stack_plain _ _ p _ Hs) as (s2 & -> & Hs2). cbn [mbind option_bind]. by apply (IH d).
Qed.

(** [assert!(stack.is_empty())] holds when there is one [else] at most. *)
Lemma tree_of_elses b ops :
  wf_reader (body_reader b) -> located_operators b = Some ops -> nested 0 (map snd ops) = true ->
  is_Some (build_block_tree b) <-> (elses (map snd ops) <= 1)%nat.
Proof.
  intros Hwf Hl Hn. destruct (located_ok _ _ Hwf Hl) as [_ Hp].
  destruct (tree_ops_stack ops 0 0 (mkTreeState [] [] ∅ false) Hp Hn) as (s & Hs & Hlen); [by split|].
  rewrite (build_located _ _ Hl), Hs. cbn [mbind option_bind].
  cbn [Nat.add] in Hlen. case_bool_decide as E.
  - rewrite E in Hlen. cbn in Hlen. split; [lia|]. by eauto.
  - split; [by intros []|]. intros H. destruct E. apply length_zero_iff_nil. lia.
Qed.

(** * The variables that an instrumented function saves: the sets of live variables
    against a closed form, and the addresses of their slots. *)

(** ** Live variables *)

(** What is modified up to region [i] and read after it. *)
Definition live_after (modified read : list (gset Z)) (i : nat) : gset Z :=
  ⋃ take (S i) modified ∩ ⋃ drop (S i) read.

Lemma cumulative_lookup acc sets i :
  (i < length sets)%nat -> cumulative acc sets !! i = Some (acc ∪ ⋃ take (S i) sets).
Proof.
  revert acc i. induction sets as [|set sets IH]; intros acc i Hi; cbn in Hi; [lia|].
  destruct i as [|i]; cbn [cumulative lookup list_lookup].
  - f_equal. rewrite firstn_cons, take_0. set_solver.
  - rewrite IH by lia. f_equal. rewrite (firstn_cons (S i)). set_solver.
Qed.

Lemma successors_loop_spec live n out :
  (n <= length live - 1)%nat ->
  successors_loop live n (⋃ drop (S n) live) out = Some (out ++ map (fun i => ⋃ drop (S i) live) (rev (seq 0 n))).
Proof.
  revert out. induction n as [|n IH]; intros out Hn; cbn [successors_loop].
  { cbn. by rewrite app_nil_r. }
  destruct (Nat.eqb_spec n (length live - 1)); [lia|].
  destruct (lookup_lt_is_Some_2 live (S n)) as [x Hx]; [lia|]. rewrite Hx. cbn [mbind option_bind].
  assert (E : ⋃ drop (S n) live = ⋃ drop (S (S n)) live ∪ x).
  { rewrite (drop_S live x (S n) Hx). cbn [union_list foldr]. apply union_comm_L. }
  rewrite <- E, IH by lia. rewrite seq_S, rev_app_distr. cbn. by rewrite <- app_assoc.
Qed.

Lemma live_in_successors_spec live :
  (0 < length live)%nat ->
  live_in_successors live = Some (map (fun i => ⋃ drop (S i) live) (seq 0 (length live - 1))).
Proof.
  intros Hl. unfold live_in_successors. destruct live as [|x live']; [by cbn in Hl; lia|]. set (live := x :: live') in *.
  assert (E : ⋃ drop (S (length live - 1)) live = (∅ : gset Z)) by (by rewrite drop_ge by lia).
  rewrite <- E, successors_loop_spec by lia. cbn [mbind option_bind app].
  by rewrite <- map_rev, rev_involutive.
Qed.

(** The sets of one kind of variables, in closed form. *)
Lemma live_sets_spec n read modified :
  length read = n -> length modified = n -> (0 < n)%nat ->
  live_sets n read modified = Some (∅ :: tail read, map (live_after modified read) (seq 0 n)).
Proof.
  intros Hr Hm Hn. unfold live_sets. destruct read as [|r0 read]; [cbn in Hr; lia|]. cbn [reset_first mbind option_bind tail].
  rewrite live_in_successors_spec by (cbn; lia). cbn [mbind option_bind]. cbn [length] in *.
  assert (Hmap : forall l, Forall (fun i => (i < n)%nat) l ->
    mapM (live_out_at n (cumulative ∅ modified) (map (fun i => ⋃ drop (S i) (∅ :: read)) (seq 0 (S (length read) - 1)))) l
    = Some (map (live_after modified (r0 :: read)) l)).
  { intros l Hl. induction Hl as [|i l Hi _ IH]; [done|]. cbn [mapM map]. rewrite IH.
    assert (live_out_at n (cumulative ∅ modified)
              (map (fun i => ⋃ drop (S i) (∅ :: read)) (seq 0 (S (length read) - 1))) i
            = Some (live_after modified (r0 :: read) i)) as ->; [|done].
    unfold live_out_at, live_after. destruct (Nat.eqb_spec i (n - 1)) as [->|Hne].
    - f_equal. rewrite (drop_ge (r0 :: read)) by (cbn; lia). set_solver.
    - rewrite cumulative_lookup by lia. cbn [mbind option_bind].
      rewrite (list_lookup_fmap (fun i => ⋃ drop (S i) (∅ :: read)) (seq 0 (S (length read) - 1)) i).
      rewrite lookup_seq_lt by lia. cbn. by rewrite union_empty_l_L. }
  rewrite Hmap; [done|]. apply Forall_seq. lia.
Qed.

Lemma mapM_rev {A B} (f : A -> option B) l : mapM f (rev l) = (@rev B <$> mapM f l).
Proof.
  assert (Happ : forall l1 l2, mapM f (l1 ++ l2) = (x ← mapM f l1; y ← mapM f l2; Some (x ++ y))).
  { intros l1 l2. induction l1 as [|a l1 IH]; cbn; [by destruct (mapM f l2)|]. destruct (f a); [|done]. cbn.
    rewrite IH. destruct (mapM f l1); [|done]. cbn. by destruct (mapM f l2). }
  induction l as [|a l IH]; [done|]. cbn [rev]. rewrite Happ, IH. cbn. destruct (mapM f l) as [x|]; cbn; destruct (f a); done.
Qed.

(** The live variables of a function, in closed form. *)
Lemma generate_live_spec body bs cps modified set_globals reads :
  mapM (scan_checkpoint visit_read body bs) cps = Some reads -> cps <> [] ->
  length modified = length cps -> length set_globals = length cps ->
  generate_live_var_list body bs cps modified set_globals
  = Some (mkLiveVars modified set_globals (∅ :: tail (map fst reads)) (∅ :: tail (map snd reads))
            (map (live_after modified (map fst reads)) (seq 0 (length cps)))
            (map (live_after set_globals (map snd reads)) (seq 0 (length cps)))).
Proof.
  intros Hr Hne Hm Hg. unfold generate_live_var_list. rewrite mapM_rev, Hr. cbn [fmap option_fmap option_map mbind option_bind].
  assert (Hl : length reads = length cps) by (by apply mapM_Some, Forall2_length in Hr).
  assert (0 < length cps)%nat by (destruct cps; cbn; [done|lia]).
  rewrite <- !map_rev, !rev_involutive. rewrite !live_sets_spec by (rewrite ?length_map; done || lia). done.
Qed.

Lemma generate_live_nil body bs modified set_globals :
  generate_live_var_list body bs [] modified set_globals = None.
Proof. done. Qed.

(** ** What the scans find *)

(** The operators of a region that take more than its last byte: those that name a variable do. *)
Definition region_ops (n : TreeNode) (ops : list located_op) : list Op.Operator :=
  map snd (filter (fun x => start_inst n <= fst x < end_inst n) ops).

(** The variable that an operator assigns, or reads. *)
Definition assigned_local (op : Op.Operator) : option Z :=
  match op with Op.Mvp (Op.LocalSet x) | Op.Mvp (Op.LocalTee x) => Some x | _ => None end.
Definition assigned_global (op : Op.Operator) : option Z :=
  match op with Op.Mvp (Op.GlobalSet x) => Some x | _ => None end.
Definition got_local (op : Op.Operator) : option Z :=
  match op with Op.Mvp (Op.LocalGet x) => Some x | _ => None end.
Definition got_global (op : Op.Operator) : option Z :=
  match op with Op.Mvp (Op.GlobalGet x) => Some x | _ => None end.

Definition variables (f : Op.Operator -> option Z) (ops : list Op.Operator) : gset Z := list_to_set (omap f ops).

Lemma region_ops_after n ops : Forall (fun x => end_inst n <= fst x) ops -> region_ops n ops = [].
Proof.
  intros H. unfold region_ops. induction H as [|x ops Hx _ IH]; [done|]. rewrite filter_cons_False by lia. exact IH.
Qed.

Lemma scan_located {A} (visit : Op.Operator -> A -> A) n fuel r ops a :
  wf_reader r -> locate fuel r = Some ops ->
  scan_block fuel visit n r a = Some (foldl (fun a op => visit op a) a (region_ops n ops)).
Proof.
  intros Hwf H. destruct (locate_sorted fuel r ops Hwf H) as [Hs _]. clear Hwf. revert r ops a H Hs.
  induction fuel as [|fuel IH]; intros r ops a; cbn [locate scan_block]; destruct (eof r);
    try (by intros [= <-]); try done.
  destruct (read_operator r) as [[op| |] r']; try done. intros H.
  destruct (locate fuel r') as [ops'|] eqn:E; [|done]. injection H as <-. cbn [map fst]. intros Hs.
  apply StronglySorted_inv in Hs as [Hs Hlt]. destruct (Z.ltb_spec (position r) (end_inst n)) as [He|He].
  - unfold region_ops. destruct (Z.leb_spec (start_inst n) (position r)).
    + rewrite filter_cons_True by (cbn; lia). cbn [map snd foldl]. by apply IH.
    + rewrite filter_cons_False by (cbn; lia). by apply IH.
  - rewrite region_ops_after; [done|]. constructor; [done|]. rewrite Forall_map in Hlt.
    eapply Forall_impl; [exact Hlt|]. cbn. lia.
Qed.

Lemma fold_modified ops s :
  foldl (fun a op => visit_modified op a) s ops
  = (variables assigned_local ops ∪ fst s, variables assigned_global ops ∪ snd s).
Proof.
  unfold variables. revert s. induction ops as [|op ops IH]; intros [v g]; cbn [foldl omap list_omap].
  { cbn. by rewrite !union_empty_l_L. }
  rewrite IH. destruct op as [o|?|?|?|?|?|?|?|?|?|?|?|?|?|?|?|?]; try done. destruct o; try done; cbn; f_equal; set_solver.
Qed.

Lemma fold_read ops s :
  foldl (fun a op => visit_read op a) s ops = (variables got_local ops ∪ fst s, variables got_global ops ∪ snd s).
Proof.
  unfold variables. revert s. induction ops as [|op ops IH]; intros [v g]; cbn [foldl omap list_omap].
  { cbn. by rewrite !union_empty_l_L. }
  rewrite IH. destruct op as [o|?|?|?|?|?|?|?|?|?|?|?|?|?|?|?|?]; try done. destruct o; try done; cbn; f_equal; set_solver.
Qed.

(** A body whose declarations are the byte of an empty list. *)
Definition no_declared_locals (b : FunctionBody) : Prop := head (remaining_buffer (body_reader b)) = Some 0.

(** Its declarations are decoded as an operator that names no variable. *)
Lemma scan_no_locals visit b bs cp n ops :
  (forall s, visit (Op.Mvp Op.Unreachable) s = s) ->
  wf_reader (body_reader b) -> no_declared_locals b -> located_operators b = Some ops ->
  1 <= cp -> bs !! Z.to_nat (cp - 1) = Some n ->
  scan_checkpoint visit b bs cp = Some (foldl (fun a op => visit op a) (∅, ∅) (region_ops n ops)).
Proof.
  intros Hv Hwf Hz Hl Hcp Hn. unfold scan_checkpoint. destruct (Z.ltb_spec cp 1); [lia|]. rewrite Hn. cbn [mbind option_bind].
  unfold no_declared_locals in Hz. set (r := body_reader b) in *.
  destruct (remaining_buffer r) as [|z rest] eqn:E; [done|]. injection Hz as ->.
  destruct (wf_advance_cons r 0 rest Hwf E) as [Hwf1 _].
  assert (Eu : read_u8 r = (Ok 0, advance 1 r)) by (apply (read_u8_cons r 0 rest); [apply Hwf|done]).
  assert (Es : body_operators b = Some (advance 1 r)).
  { unfold body_operators. fold r. unfold skip_locals. rewrite ST_bind_eq. unfold read_var_u32.
    by rewrite ST_bind_eq, Eu. }
  assert (Eo : read_operator r = (Ok (Op.Mvp Op.Unreachable), advance 1 r)).
  { unfold read_operator, visit_operator. rewrite ST_bind_eq. cbn -[read_u8].
    by rewrite ST_bind_eq, Eu. }
  unfold located_operators in Hl. rewrite Es in Hl. cbn [mbind option_bind] in Hl.
  rewrite (remaining_advance_cons r 0 rest (proj1 (wf_pos _ Hwf)) E) in Hl.
  assert (Hl' : locate (length (0 :: rest)) r = Some ((position r, Op.Mvp Op.Unreachable) :: ops)).
  { cbn [length locate]. rewrite remaining_nil_eof by done. rewrite E. cbn. by rewrite Eo, Hl. }
  rewrite (scan_located visit n _ _ _ _ Hwf Hl'). f_equal. unfold region_ops.
  destruct (decide (start_inst n <= position r < end_inst n)) as [H1|H1].
  - rewrite filter_cons_True by done. cbn [map snd foldl]. by rewrite Hv.
  - by rewrite filter_cons_False by done.
Qed.

(** ** Stores *)

(** Regions one after the other, each of which changes what it modifies only. *)
Inductive runs_through {V} : list (gset Z) -> list (Z -> V) -> Prop :=
| through_end s : runs_through [] [s]
| through_region set sets s s' ss :
    (forall x, x ∉ set -> s' x = s x) -> runs_through sets (s' :: ss) -> runs_through (set :: sets) (s :: s' :: ss).

Lemma runs_through_unmodified {V} sets (s : Z -> V) ss i s' x :
  runs_through sets (s :: ss) -> (s :: ss) !! i = Some s' -> x ∉ ⋃ take i sets -> s' x = s x.
Proof.
  revert sets s ss. induction i as [|i IH]; intros sets s ss Ht Hi Hx; [by injection Hi as ->|].
  cbn in Hi. inversion Ht as [|set sets' s0 s1 ss' Hset Ht']; subst; [done|].
  cbn in Hx. rewrite (IH sets' s1 ss' Ht' Hi) by set_solver. apply Hset. set_solver.
Qed.

(** ** Addresses *)

Definition sum_sizes (tys : list WE.ValType) : Z := foldr (fun ty n => slot_size ty + n) 0 tys.

Lemma slot_size_pos ty : 2 <= slot_size ty <= 8.
Proof. destruct ty; cbn; lia. Qed.

Lemma sum_sizes_take_S tys i ty :
  tys !! i = Some ty -> sum_sizes (take (S i) tys) = sum_sizes (take i tys) + slot_size ty.
Proof.
  revert i. induction tys as [|t tys IH]; intros i; [done|]. destruct i as [|i]; cbn.
  - intros [= ->]. rewrite take_0. cbn. lia.
  - intros H. specialize (IH i H). unfold sum_sizes in IH. rewrite IH. lia.
Qed.

(** The entries of a map that is filled from [k] on. *)
Lemma assign_slots_lookup k tys a m i :
  0 <= k -> k + Z.of_nat (length tys) < 2 ^ 32 -> 0 <= i < 2 ^ 32 ->
  fst (assign_slots k tys a m) !! i
  = if bool_decide (k <= i < k + Z.of_nat (length tys)) then Some (a + sum_sizes (take (Z.to_nat (i - k)) tys))
    else m !! i.
Proof.
  revert k a m. induction tys as [|ty tys IH]; intros k a m Hk Hl Hi; cbn [assign_slots length] in *.
  { rewrite bool_decide_false by lia. done. }
  rewrite IH by lia. rewrite wrap_small by (unfold in_u; lia).
  destruct (decide (i = k)) as [->|Hne].
  - rewrite bool_decide_false, lookup_insert_eq, bool_decide_true by lia. rewrite Z.sub_diag. cbn. by rewrite Z.add_0_r.
  - case_bool_decide; case_bool_decide; try lia.
    + replace (Z.to_nat (i - k)) with (S (Z.to_nat (i - (k + 1)))) by lia. cbn. f_equal. unfold sum_sizes. lia.
    + by rewrite lookup_insert_ne by lia.
Qed.

Lemma assign_slots_next k tys a m : snd (assign_slots k tys a m) = a + sum_sizes tys.
Proof.
  revert k a m. induction tys as [|ty tys IH]; intros k a m; cbn [assign_slots]; [cbn; lia|]. rewrite IH. cbn.
  unfold sum_sizes. lia.
Qed.
