(* ===== verification/MigrateRun.v ===== *)
(** What the injected instructions do: a machine for code with forward branches,
    after the specification of WebAssembly, and the behaviour of an instrumented
    region on it.

    The state of the original program (locals, globals, its own memories) is
    abstract: [UserState] names the operations that the injected code uses, and
    the code of a region is given by its effect.  The checkpoint memory and the
    two functions of the host are concrete. *)

From Stdlib Require Import ZArith Lia.
From stdpp Require Import prelude gmap.
From S2P Require Import Prelude Types EncTypes Operands Operators Instructions Items EncSections Migrate.

Import WM.

Local Open Scope Z_scope.
Local Open Scope code_scope.

#[local] Existing Instance WS.ValType_eq_dec.

(** ** Values and memory *)

Record val := mkval { val_ty : WE.ValType; val_bits : Z }.

Definition i32 (n : Z) : val := mkval WE.I32 (wrap 32 n).

(** The bytes that a value takes in memory. *)
Definition byte_width (ty : WE.ValType) : Z :=
  match ty with
  | WE.I32 | WE.F32 => 4
  | WE.I64 | WE.F64 => 8
  | WE.V128 => 16
  | WE.Ref _ => 0
  end.

Definition mem := Z -> Z.

(** Little endian. *)
Definition store_bytes (a width x : Z) (m : mem) : mem := fun b =>
  if (a <=? b) && (b <? a + width) then Z.shiftr x (8 * (b - a)) mod 256 else m b.

Fixpoint load_bytes (n : nat) (a : Z) (m : mem) : Z :=
  match n with
  | O => 0
  | S n' => m a mod 256 + 256 * load_bytes n' (a + 1) m
  end.

(** ** The machine *)

(** The state of the original program. *)
Class UserState (U : Type) := {
  get_local : U -> Z -> option val;
  set_local : U -> Z -> val -> U;
  get_global : U -> Z -> option val;
  set_global : U -> Z -> val -> U;
}.

Class UserStateLaws (U : Type) {S : UserState U} := {
  get_set_local : forall u i j x, get_local (set_local u i x) j = if decide (i = j) then Some x else get_local u j;
  get_global_set_local : forall u i j x, get_global (set_local u i x) j = get_global u j;
  get_local_set_global : forall u i j x, get_local (set_global u i x) j = get_local u j;
}.

(** The functions that the host provides: whether to migrate, and the contents of
    the checkpoint memory. *)
Class Host := {
  should_migrate : Z;
  restore_memory : mem -> mem;
}.

(** Where the injected code finds them: the functions, the memory and its size. *)
Record layout := mkLayout { migrate_index : Z; restore_index : Z; memory_at : Z; memory_size : Z }.

Record config (U : Type) := mkConfig {
  user : U;
  memory : mem;
  operands : list val;
  labels : list nat;
  skipping : option (nat * nat);
}.
Arguments mkConfig {U}.
Arguments user {U}.
Arguments memory {U}.
Arguments operands {U}.
Arguments labels {U}.
Arguments skipping {U}.

Section machine.
Context {U : Type} {US : UserState U} {HO : Host} (lay : layout).

(** A branch to label [n]: operands go back to the height of the label, and
    instructions are skipped up to its [end]. *)
Definition branch (n : Z) (c : config U) : option (config U) :=
  h ← labels c !! Z.to_nat n;
  Some (mkConfig (user c) (memory c) (drop (length (operands c) - h) (operands c)) (labels c) (Some (0%nat, Z.to_nat n))).

Definition push_val (v : val) (c : config U) : config U :=
  mkConfig (user c) (memory c) (v :: operands c) (labels c) (skipping c).

(** Instructions while a branch is taken: [k] blocks were opened since, and [n]
    labels are left before the last one. *)
Definition skip_step (i : Instr.Instruction) (k n : nat) (c : config U) : option (config U) :=
  let skip x ls := Some (mkConfig (user c) (memory c) (operands c) ls x) in
  match i with
  | Instr.ControlInstr (Instr.Block _ | Instr.Loop _ | Instr.If _ | Instr.Try _)
  | Instr.ParametricInstr (Instr.TryTable _ _) => skip (Some (S k, n)) (labels c)
  | Instr.ControlInstr Instr.End =>
      match k, labels c with
      | S k, _ => skip (Some (k, n)) (labels c)
      | O, _ :: ls => skip (match n with O => None | S n => Some (0%nat, n) end) ls
      | O, [] => None
      end
  | _ => Some c
  end.

(** A load or a store of the checkpoint memory. *)
Definition load_step (ty : WE.ValType) (m : WE.MemArg) (c : config U) : option (config U) :=
  match operands c with
  | mkval WE.I32 a :: vs =>
      if bool_decide (WE.memory_index m = memory_at lay) && (a + WE.offset m + byte_width ty <=? memory_size lay) then
        Some (mkConfig (user c) (memory c)
                (mkval ty (load_bytes (Z.to_nat (byte_width ty)) (a + WE.offset m) (memory c)) :: vs)
                (labels c) None)
      else None
  | _ => None
  end.

Definition store_step (ty : WE.ValType) (m : WE.MemArg) (c : config U) : option (config U) :=
  match operands c with
  | mkval ty' x :: mkval WE.I32 a :: vs =>
      if bool_decide (ty' = ty) && bool_decide (WE.memory_index m = memory_at lay)
         && (a + WE.offset m + byte_width ty <=? memory_size lay) then
        Some (mkConfig (user c) (store_bytes (a + WE.offset m) (byte_width ty) x (memory c)) vs (labels c) None)
      else None
  | _ => None
  end.

Definition compare_step (f : Z -> Z -> bool) (c : config U) : option (config U) :=
  match operands c with
  | mkval WE.I32 y :: mkval WE.I32 x :: vs =>
      Some (mkConfig (user c) (memory c) (i32 (if f x y then 1 else 0) :: vs) (labels c) None)
  | _ => None
  end.

(** Instructions that are not injected are stuck here; they are in regions. *)
Definition exec_step (i : Instr.Instruction) (c : config U) : option (config U) :=
  match i with
  | Instr.ControlInstr i =>
      match i with
      | Instr.Block WE.Empty =>
          Some (mkConfig (user c) (memory c) (operands c) (length (operands c) :: labels c) None)
      | Instr.End =>
          match labels c with
          | _ :: ls => Some (mkConfig (user c) (memory c) (operands c) ls None)
          | [] => None
          end
      | Instr.Br n => branch n c
      | Instr.BrIf n =>
          match operands c with
          | mkval WE.I32 x :: vs =>
              let c := mkConfig (user c) (memory c) vs (labels c) None in
              if x =? 0 then Some c else branch n c
          | _ => None
          end
      | Instr.Call f =>
          if f =? migrate_index lay then Some (push_val (i32 should_migrate) c)
          else if f =? restore_index lay then
            Some (mkConfig (user c) (restore_memory (memory c)) (operands c) (labels c) None)
          else None
      | _ => None
      end
  | Instr.VariableInstr i =>
      match i, operands c with
      | Instr.LocalGet x, _ => v ← get_local (user c) x; Some (push_val v c)
      | Instr.GlobalGet x, _ => v ← get_global (user c) x; Some (push_val v c)
      | Instr.LocalSet x, v :: vs => Some (mkConfig (set_local (user c) x v) (memory c) vs (labels c) None)
      | Instr.GlobalSet x, v :: vs => Some (mkConfig (set_global (user c) x v) (memory c) vs (labels c) None)
      | _, _ => None
      end
  | Instr.NumericInstr (Instr.I32Const x) => Some (push_val (i32 x) c)
  | Instr.NumericInstr Instr.I32Eq => compare_step Z.eqb c
  | Instr.NumericInstr Instr.I32Ne => compare_step (fun x y => negb (x =? y)) c
  | Instr.MemoryInstr (Instr.I32Load m) => load_step WE.I32 m c
  | Instr.MemoryInstr (Instr.I64Load m) => load_step WE.I64 m c
  | Instr.MemoryInstr (Instr.F32Load m) => load_step WE.F32 m c
  | Instr.MemoryInstr (Instr.F64Load m) => load_step WE.F64 m c
  | Instr.SimdLoadInstr (Instr.V128Load m) => load_step WE.V128 m c
  | Instr.MemoryInstr (Instr.I32Store m) => store_step WE.I32 m c
  | Instr.MemoryInstr (Instr.I64Store m) => store_step WE.I64 m c
  | Instr.MemoryInstr (Instr.F32Store m) => store_step WE.F32 m c
  | Instr.MemoryInstr (Instr.F64Store m) => store_step WE.F64 m c
  | Instr.SimdLoadInstr (Instr.V128Store m) => store_step WE.V128 m c
  | _ => None
  end.

Definition step (i : Instr.Instruction) (c : config U) : option (config U) :=
  match skipping c with
  | Some (k, n) => skip_step i k n c
  | None => exec_step i c
  end.

Fixpoint run (is_ : code) (c : config U) : option (config U) :=
  match is_ with
  | [] => Some c
  | i :: is_ => c ← step i c; run is_ c
  end.

(** Code with pieces of the original program, which have the effect [effect]. *)
Inductive runs (effect : code -> U -> U -> Prop) : code -> config U -> config U -> Prop :=
| runs_nil c : runs effect [] c c
| runs_step i is_ c c' c'' : step i c = Some c' -> runs effect is_ c' c'' -> runs effect (i :: is_) c c''
| runs_region body is_ c u c'' :
    skipping c = None -> operands c = [] -> effect body (user c) u ->
    runs effect is_ (mkConfig u (memory c) [] (labels c) None) c'' -> runs effect (body ++ is_) c c''.

Lemma run_app a b c c' : run a c = Some c' -> run (a ++ b) c = run b c'.
Proof.
  revert c. induction a as [|i a IH]; intros c; cbn [run app]; [by intros [= ->]|].
  destruct (step i c) as [c1|]; [|done]. apply IH.
Qed.

Lemma runs_run effect a b c c' c'' : run a c = Some c' -> runs effect b c' c'' -> runs effect (a ++ b) c c''.
Proof.
  revert c. induction a as [|i a IH]; intros c; cbn [run app]; [by intros [= ->]|].
  destruct (step i c) as [c1|] eqn:E; [|done]. intros H Hb. eapply runs_step; [exact E|]. by apply IH.
Qed.

Lemma runs_app effect a b c c' c'' : runs effect a c c' -> runs effect b c' c'' -> runs effect (a ++ b) c c''.
Proof.
  intros Ha Hb. induction Ha as [c|i a c c1 c2 E _ IH|body a c u c2 Hs Ho He _ IH]; [done|..].
  - cbn. eapply runs_step; [exact E|by apply IH].
  - rewrite <- app_assoc. eapply runs_region; [done..|by apply IH].
Qed.
End machine.

(** ** Code that is skipped *)

(** How an instruction changes the number of open blocks. *)
Definition nesting (i : Instr.Instruction) (k : nat) : option nat :=
  match i with
  | Instr.ControlInstr (Instr.Block _ | Instr.Loop _ | Instr.If _ | Instr.Try _)
  | Instr.ParametricInstr (Instr.TryTable _ _) => Some (S k)
  | Instr.ControlInstr Instr.End => match k with O => None | S k => Some k end
  | _ => Some k
  end.

Fixpoint nesting_of (is_ : code) (k : nat) : option nat :=
  match is_ with
  | [] => Some k
  | i :: is_ => k ← nesting i k; nesting_of is_ k
  end.

Definition balanced (is_ : code) : bool := bool_decide (nesting_of is_ 0 = Some 0%nat).

Section skip.
Context {U : Type} {US : UserState U} {HO : Host} (lay : layout).

Definition set_skipping (x : option (nat * nat)) (c : config U) : config U :=
  mkConfig (user c) (memory c) (operands c) (labels c) x.

Lemma skip_nesting i k k' n (c : config U) :
  nesting i k = Some k' -> skipping c = Some (k, n) -> step lay i c = Some (set_skipping (Some (k', n)) c).
Proof.
  intros H E. unfold step. rewrite E. destruct c as [u m vs ls x]; cbn in E; subst x.
  destruct i as [[]|[]| | | | | | | | | | | | | | | | | | | | | | | | | | |]; cbn in H |- *; try (injection H as <-; done).
  destruct k; [done|]. by injection H as <-.
Qed.

Lemma run_skip is_ k k' n (c : config U) :
  nesting_of is_ k = Some k' -> skipping c = Some (k, n) -> run lay is_ c = Some (set_skipping (Some (k', n)) c).
Proof.
  revert k c. induction is_ as [|i is_ IH]; intros k c H E; cbn [run nesting_of] in *.
  { injection H as <-. f_equal. by destruct c; cbn in E |- *; subst. }
  destruct (nesting i k) as [k1|] eqn:Ei; [|done]. rewrite (skip_nesting _ _ _ _ _ Ei E). cbn [mbind option_bind].
  by rewrite (IH k1).
Qed.

Lemma run_skip_balanced is_ n (c : config U) :
  balanced is_ = true -> skipping c = Some (0%nat, n) -> run lay is_ c = Some c.
Proof.
  intros H E. apply bool_decide_eq_true in H. rewrite (run_skip _ _ _ n c H E). f_equal. by destruct c; cbn in E |- *; subst.
Qed.
End skip.

Lemma nesting_of_app a b k : nesting_of (a ++ b) k = (k ← nesting_of a k; nesting_of b k).
Proof.
  revert k. induction a as [|i a IH]; intros k; cbn; [done|]. destruct (nesting i k); [|done]. apply IH.
Qed.

Lemma balanced_app a b : balanced a = true -> balanced b = true -> balanced (a ++ b) = true.
Proof.
  unfold balanced. rewrite !bool_decide_eq_true. intros Ha Hb. rewrite nesting_of_app, Ha. done.
Qed.

(** Code without blocks. *)
Definition flat (is_ : code) : Prop := Forall (fun i => forall k, nesting i k = Some k) is_.

Lemma flat_nesting is_ k : flat is_ -> nesting_of is_ k = Some k.
Proof. intros H. induction H as [|i is_ Hi _ IH]; [done|]. cbn. by rewrite Hi. Qed.

Lemma flat_concat l : Forall flat l -> flat (concat l).
Proof. induction 1; [constructor|]. by apply Forall_app. Qed.

Lemma flat_block is_ : flat is_ -> balanced (⟦ Instr.Block WE.Empty ⟧ ++ is_ ++ ⟦ Instr.End ⟧) = true.
Proof.
  intros H. unfold balanced. apply bool_decide_eq_true. cbn. rewrite nesting_of_app, flat_nesting by done. done.
Qed.

(** ** The injected code *)

(** Between two pieces of code: nothing on the stack, nothing skipped. *)
Definition at_rest {U} (u : U) (m : mem) (ls : list nat) : config U := mkConfig u m [] ls None.

(** The layout is that of the instrumented module. *)
Record placed (d : ModuleData) (lay : layout) : Prop := {
  pl_migrate : migrate_index lay = num_of_import_functions (sections d);
  pl_restore : restore_index lay = num_of_import_functions (sections d) + 1;
  pl_memory : memory_at lay = checkpoint_memory_index (sections d);
  pl_addr : resuming_block_addr (slots d) = 0;
  pl_size : 4 <= memory_size lay;
}.

Lemma wrap_swrap w x : 0 < w -> wrap w (swrap w x) = wrap w x.
Proof.
  intros Hw. unfold wrap, swrap. rewrite Zminus_mod_idemp_l. f_equal. lia.
Qed.

Section injected.
Context {U : Type} {US : UserState U} {UL : UserStateLaws U} {HO : Host} {HH : HashOrder}.
Context (d : ModuleData) (func_index : nat) (lay : layout) (PL : placed d lay).

Abbreviation v := (resuming_block_var (slots d)).

(** [local.get v; i32.const x; i32.eq; br_if 0] in a block. *)
Lemma run_guard_eq (u : U) m ls r x :
  get_local u v = Some (i32 r) ->
  run lay ⟦ Instr.LocalGet v; Instr.I32Const x; Instr.I32Eq; Instr.BrIf 0 ⟧ (at_rest u m (0%nat :: ls))
  = Some (mkConfig u m [] (0%nat :: ls) (if wrap 32 r =? wrap 32 x then Some (0%nat, 0%nat) else None)).
Proof. intros H. unfold at_rest. cbn -[wrap]. rewrite H. cbn -[wrap]. by destruct (wrap 32 r =? wrap 32 x). Qed.

Lemma run_guard_ne (u : U) m ls r x :
  get_local u v = Some (i32 r) ->
  run lay ⟦ Instr.LocalGet v; Instr.I32Const x; Instr.I32Ne; Instr.BrIf 0 ⟧ (at_rest u m (0%nat :: ls))
  = Some (mkConfig u m [] (0%nat :: ls) (if wrap 32 r =? wrap 32 x then None else Some (0%nat, 0%nat))).
Proof. intros H. unfold at_rest. cbn -[wrap]. rewrite H. cbn -[wrap]. by destruct (wrap 32 r =? wrap 32 x). Qed.

(** Opening and closing a block. *)
Lemma run_block is_ (u u' : U) m m' ls :
  run lay is_ (at_rest u m (0%nat :: ls)) = Some (at_rest u' m' (0%nat :: ls)) ->
  run lay (⟦ Instr.Block WE.Empty ⟧ ++ is_ ++ ⟦ Instr.End ⟧) (at_rest u m ls) = Some (at_rest u' m' ls).
Proof. intros H. cbn [app run step at_rest skipping mbind option_bind]. cbn. by rewrite (run_app _ _ _ _ _ H). Qed.

(** The same, when the rest of the block is left. *)
Lemma run_block_left is_ (u u' : U) m m' ls :
  run lay is_ (at_rest u m (0%nat :: ls)) = Some (mkConfig u' m' [] (0%nat :: ls) (Some (0%nat, 0%nat))) ->
  run lay (⟦ Instr.Block WE.Empty ⟧ ++ is_ ++ ⟦ Instr.End ⟧) (at_rest u m ls) = Some (at_rest u' m' ls).
Proof. intros H. cbn [app run step at_rest skipping mbind option_bind]. cbn. by rewrite (run_app _ _ _ _ _ H). Qed.

(** [jump_to_end]: the region is entered when nothing is resumed, or when the
    number to resume from is that of the region. *)
Lemma run_jump (u : U) m ls r b :
  get_local u v = Some (i32 r) ->
  run lay (jump_to_end d b) (at_rest u m (0%nat :: ls))
  = Some (mkConfig u m [] (0%nat :: ls)
            (if (wrap 32 r =? wrap 32 b) || (wrap 32 r =? 0) then None else Some (0%nat, 0%nat))).
Proof.
  intros H.
  change (jump_to_end d b) with
    (⟦ Instr.Block WE.Empty ⟧ ++ ⟦ Instr.LocalGet v; Instr.I32Const (swrap 32 b); Instr.I32Eq; Instr.BrIf 0 ⟧
     ++ ⟦ Instr.LocalGet v; Instr.I32Const 0; Instr.I32Eq; Instr.BrIf 0 ⟧ ++ ⟦ Instr.Br 1; Instr.End ⟧).
  rewrite (run_app _ _ _ _ (at_rest u m (0%nat :: 0%nat :: ls))) by done.
  rewrite (run_app _ _ _ _ _ (run_guard_eq _ _ _ _ _ H)), wrap_swrap by lia.
  destruct (wrap 32 r =? wrap 32 b); [done|]. cbn [orb].
  rewrite (run_app _ _ _ _ _ (run_guard_eq u m (0%nat :: ls) r 0 H)). change (wrap 32 0) with 0.
  by destruct (wrap 32 r =? 0).
Qed.

(** The host does not ask to migrate. *)
Lemma run_migrate_check (u : U) m ls :
  wrap 32 should_migrate = 0 -> run lay (migrate_check d) (at_rest u m ls) = Some (at_rest u m ls).
Proof.
  intros H. apply (run_block_left ⟦ Instr.Call _; Instr.I32Const 0; Instr.I32Eq; Instr.BrIf 0; Instr.Unreachable ⟧).
  cbn -[wrap]. rewrite (pl_migrate _ _ PL), Z.eqb_refl. cbn -[wrap]. by rewrite H.
Qed.

(** The prologue: the memory comes from the host, and with it the number. *)
Lemma run_prologue (u : U) m ls :
  let m' := restore_memory m in
  run lay (initialize_resuming_block_var d (num_of_import_functions (sections d) + 1)) (at_rest u m ls)
  = Some (at_rest (set_local u v (mkval WE.I32 (load_bytes 4 0 m'))) m' ls).
Proof.
  intros m'.
  apply (run_block ⟦ Instr.Call _; Instr.I32Const _; Instr.I32Load (checkpoint_mem_arg d); Instr.LocalSet v ⟧).
  cbn -[wrap swrap load_bytes]. rewrite (pl_migrate _ _ PL), (pl_restore _ _ PL), (pl_addr _ _ PL).
  destruct (Z.eqb_spec (num_of_import_functions (sections d) + 1) (num_of_import_functions (sections d))); [lia|].
  rewrite Z.eqb_refl. cbn -[wrap swrap load_bytes]. rewrite bool_decide_true by (symmetry; apply PL).
  change (wrap 32 (swrap 32 0)) with 0. change (0 + 0 + 4) with 4. pose proof (pl_size _ _ PL).
  destruct (Z.leb_spec 4 (memory_size lay)); [done|lia].
Qed.
(** ** Saving and restoring *)

(** Every slot is in the memory, which an [i32] addresses. *)
Record fits : Prop := {
  ft_size : memory_size lay <= 2 ^ 32;
  ft_vars : forall var a, checkpoint_var_memory_mapping (slots d) !! var = Some a -> 0 <= a /\ a + 16 <= memory_size lay;
  ft_globals : forall g a, checkpoint_global_memory_mapping (slots d) !! g = Some a -> 0 <= a /\ a + 16 <= memory_size lay;
}.

(** The saved locals have their types; the saved globals have the types of the
    locals with the same indices, which is what the stores assume. *)
Record saved_ok (tys : list WE.ValType) (vars globals : gset Z) (u : U) : Prop := {
  so_locals : forall var ty, var ∈ vars -> tys !! Z.to_nat var = Some ty -> exists x, get_local u var = Some (mkval ty x);
  so_globals : forall g ty, g ∈ globals -> tys !! Z.to_nat g = Some ty -> exists x, get_global u g = Some (mkval ty x);
}.

Lemma address_wrap a : fits -> 0 <= a -> a + 16 <= memory_size lay -> wrap 32 (swrap 32 a) = a.
Proof. intros [Hs _ _] Ha Hb. rewrite wrap_swrap by lia. apply wrap_small. unfold in_u. lia. Qed.

Lemma width_bound ty : 0 <= byte_width ty <= 16.
Proof. destruct ty; cbn; lia. Qed.

(** An address, a value and a store. *)
Lemma run_store ty i a get x (u : U) m ls :
  fits -> 0 <= a -> a + 16 <= memory_size lay -> store d ty = Some i ->
  (forall c : config U, user c = u -> skipping c = None -> step lay get c = Some (push_val (mkval ty x) c)) ->
  run lay ⟦ Instr.I32Const (swrap 32 a); get; i ⟧ (at_rest u m ls)
  = Some (at_rest u (store_bytes a (byte_width ty) x m) ls).
Proof.
  intros F Ha Hb Hi Hg.
  rewrite (run_app lay ⟦ Instr.I32Const (swrap 32 a) ⟧ ⟦ get; i ⟧ _ (push_val (i32 (swrap 32 a)) (at_rest u m ls))) by done.
  cbn [run]. rewrite Hg by done. unfold i32, at_rest, push_val.
  cbn [mbind option_bind user memory operands labels skipping].
  rewrite (address_wrap a F Ha Hb). pose proof (width_bound ty) as Hw.
  assert (Hle : (a + byte_width ty <=? memory_size lay) = true) by (apply Z.leb_le; lia).
  unfold step. cbn [skipping].
  destruct ty; cbn in Hi; try done; injection Hi as <-; unfold exec_step, store_step;
    cbn [operands checkpoint_mem_arg WE.memory_index WE.offset];
    rewrite !bool_decide_true by first [done|symmetry; apply PL]; rewrite !Z.add_0_r, Hle; done.
Qed.

Lemma run_store_local tys var c (u : U) m ls vars globals :
  fits -> saved_ok tys vars globals u -> var ∈ vars -> store_local d tys var = Some c ->
  exists m', run lay c (at_rest u m ls) = Some (at_rest u m' ls).
Proof.
  intros F Hu Hv. unfold store_local. destruct (checkpoint_var_memory_mapping _ !! var) as [a|] eqn:Ea; [|done].
  cbn [mbind option_bind]. destruct (tys !! Z.to_nat var) as [ty|] eqn:Et; [|done]. cbn [mbind option_bind].
  destruct (store d ty) as [i|] eqn:Ei; [|done]. intros [= <-]. destruct (so_locals _ _ _ _ Hu var ty Hv Et) as [x Hx].
  destruct (ft_vars F _ _ Ea) as [Ha Hb]. eexists. eapply run_store; [done..|].
  intros c0 Hc Hs. unfold step. rewrite Hs. cbn. by rewrite Hc, Hx.
Qed.

Lemma run_store_global tys g c (u : U) m ls vars globals :
  fits -> saved_ok tys vars globals u -> g ∈ globals -> store_global d tys g = Some c ->
  exists m', run lay c (at_rest u m ls) = Some (at_rest u m' ls).
Proof.
  intros F Hu Hv. unfold store_global. destruct (checkpoint_global_memory_mapping _ !! g) as [a|] eqn:Ea; [|done].
  cbn [mbind option_bind]. destruct (tys !! Z.to_nat g) as [ty|] eqn:Et; [|done]. cbn [mbind option_bind].
  destruct (store d ty) as [i|] eqn:Ei; [|done]. intros [= <-]. destruct (so_globals _ _ _ _ Hu g ty Hv Et) as [x Hx].
  destruct (ft_globals F _ _ Ea) as [Ha Hb]. eexists. eapply run_store; [done..|].
  intros c0 Hc Hs. unfold step. rewrite Hs. cbn. by rewrite Hc, Hx.
Qed.

(** Pieces that keep the program as it is, one after the other. *)
Lemma run_concat {A} (gen : A -> option code) (l : list A) cs (u : U) m ls :
  mapM gen l = Some cs ->
  (forall x c m, x ∈ l -> gen x = Some c -> exists m', run lay c (at_rest u m ls) = Some (at_rest u m' ls)) ->
  exists m', run lay (concat cs) (at_rest u m ls) = Some (at_rest u m' ls).
Proof.
  intros Hm Hrun. apply mapM_Some in Hm. revert m. induction Hm as [|x c l cs Hx _ IH]; intros m; [by exists m|].
  destruct (Hrun x c m) as [m1 H1]; [by left|done|]. destruct (IH) with (m := m1) as [m2 H2].
  { intros y c' m' Hy. apply Hrun. by right. }
  exists m2. cbn [concat]. by rewrite (run_app _ _ _ _ _ H1).
Qed.
Context {HL : forall s : gset Z, iter s ≡ₚ elements s}.

Lemma elem_of_iter x (s : gset Z) : x ∈ iter s <-> x ∈ s.
Proof. rewrite HL. apply elem_of_elements. Qed.

Lemma load_store_bytes a w x m n k :
  0 <= k -> k + Z.of_nat n <= w ->
  load_bytes n (a + k) (store_bytes a w x m) = (x / 256 ^ k) mod 256 ^ Z.of_nat n.
Proof.
  revert k. induction n as [|n IH]; intros k Hk Hw; cbn [load_bytes]; [by rewrite Z.pow_0_r, Z.mod_1_r|].
  rewrite <- Z.add_assoc, IH by lia. unfold store_bytes at 1.
  destruct (Z.leb_spec a (a + k)); [|lia]. destruct (Z.ltb_spec (a + k) (a + w)); [|lia]. cbn [andb].
  replace (8 * (a + k - a)) with (8 * k) by lia. rewrite Z.shiftr_div_pow2, Z.mod_mod by lia.
  rewrite (Z.pow_mul_r 2 8 k) by lia. change (2 ^ 8) with 256. rewrite Nat2Z.inj_succ, Z.pow_succ_r by lia.
  rewrite Z.rem_mul_r by (try apply Z.pow_pos_nonneg; lia). rewrite Z.pow_add_r, Z.pow_1_r, <- Z.div_div by lia. done.
Qed.

Lemma load_number x m : in_u 32 x -> load_bytes 4 0 (store_bytes 0 4 x m) = x.
Proof.
  intros Hx. change 0 with (0 + 0) at 1. rewrite load_store_bytes by lia. rewrite Z.pow_0_r, Z.div_1_r. by apply Z.mod_small.
Qed.

(** A checkpoint keeps the program as it is, and records the region. *)
Lemma run_checkpoint b distributed k vars globals tys c (u : U) m ls :
  fits -> checkpoint_position d b = Some k -> saved_vars d distributed k = Some (vars, globals) ->
  get_params_and_locals (sections d) (locals d) func_index = Some tys -> saved_ok tys vars globals u ->
  checkpoint_live_out_vars d func_index b distributed = Some c ->
  exists m', run lay c (at_rest u m ls) = Some (at_rest u m' ls) /\ load_bytes 4 0 m' = wrap 32 b.
Proof.
  intros F Hk Hv Ht Hu. unfold checkpoint_live_out_vars. rewrite Hk. cbn [mbind option_bind]. rewrite Hv.
  cbn [mbind option_bind]. rewrite Ht. cbn [mbind option_bind].
  destruct (mapM _ (iter vars)) as [cs|] eqn:Ecs; [|done]. cbn [mbind option_bind].
  destruct (mapM _ (iter globals)) as [gs|] eqn:Egs; [|done]. intros [= <-].
  destruct (run_concat _ _ _ u m (0%nat :: ls) Ecs) as [m1 H1].
  { intros x c0 m0 Hx Hc. eapply run_store_local; [done|exact Hu| |exact Hc]. by apply elem_of_iter. }
  destruct (run_concat _ _ _ u m1 (0%nat :: ls) Egs) as [m2 H2].
  { intros x c0 m0 Hx Hc. eapply run_store_global; [done|exact Hu| |exact Hc]. by apply elem_of_iter. }
  exists (store_bytes 0 4 (wrap 32 b) m2). split; [|apply load_number; unfold in_u, wrap; apply Z.mod_pos_bound; lia].
  set (tail := ⟦ Instr.I32Const (swrap 32 (resuming_block_addr (slots d))); Instr.I32Const (swrap 32 b);
                 Instr.I32Store (checkpoint_mem_arg d) ⟧).
  replace (concat gs ++ _) with ((concat gs ++ tail) ++ ⟦ Instr.End ⟧) by by rewrite <- app_assoc.
  rewrite (app_assoc (concat cs)). apply run_block.
  rewrite (run_app _ _ _ _ _ H1), (run_app _ _ _ _ _ H2). subst tail. rewrite (pl_addr _ _ PL).
  cbn -[wrap swrap store_bytes]. rewrite !wrap_swrap by lia.
  rewrite !bool_decide_true by first [done|symmetry; apply PL]. change (wrap 32 0 + 0) with 0. change (0 + 4) with 4. pose proof (pl_size _ _ PL).
  cbn [andb]. destruct (Z.leb_spec 4 (memory_size lay)); [done|lia].
Qed.
(** What is loaded is set, and nothing else changes. *)
Lemma load_local_flat tys var c : load_local d tys var = Some c -> flat c.
Proof.
  unfold load_local. destruct (_ !! var); [|done]. cbn [mbind option_bind]. destruct (_ !! Z.to_nat var) as [ty|]; [|done].
  cbn [mbind option_bind]. destruct ty; cbn; intros [= <-]; repeat constructor.
Qed.

Lemma load_global_flat g c : load_global d g = Some c -> flat c.
Proof.
  unfold load_global. destruct (_ !! g); [|done]. cbn [mbind option_bind]. destruct (_ !! Z.to_nat g) as [ty|]; [|done].
  cbn [mbind option_bind]. destruct ty; cbn; intros [= <-]; repeat constructor.
Qed.

Lemma mapM_flat {A} (gen : A -> option code) l cs :
  (forall x c, gen x = Some c -> flat c) -> mapM gen l = Some cs -> flat (concat cs).
Proof.
  intros Hf Hm. apply flat_concat. apply mapM_Some in Hm. induction Hm; constructor; [by eapply Hf|done].
Qed.

(** The test before the loads. *)
Definition resume_guard (distributed : bool) (p : Z) : code :=
  if distributed then ⟦ Instr.LocalGet v; Instr.I32Const 0; Instr.I32Eq; Instr.BrIf 0 ⟧
  else ⟦ Instr.LocalGet v; Instr.I32Const 0; Instr.I32Eq; Instr.BrIf 0 ⟧
       ++ ⟦ Instr.LocalGet v; Instr.I32Const (swrap 32 p); Instr.I32Ne; Instr.BrIf 0 ⟧.

(** Nothing is restored when nothing is resumed, or (when checkpoints are not
    distributed) when the number is that of another region. *)
Definition not_resumed (distributed : bool) (r p : Z) : bool :=
  (wrap 32 r =? 0) || (negb distributed && negb (wrap 32 r =? wrap 32 p)).

Lemma run_resume_guard distributed p (u : U) m ls r :
  get_local u v = Some (i32 r) ->
  run lay (resume_guard distributed p) (at_rest u m (0%nat :: ls))
  = Some (mkConfig u m [] (0%nat :: ls) (if not_resumed distributed r p then Some (0%nat, 0%nat) else None)).
Proof.
  intros Hr. pose proof (run_guard_eq u m ls r 0 Hr) as G0. change (wrap 32 0) with 0 in G0.
  pose proof (run_guard_ne u m ls r (swrap 32 p) Hr) as G1. rewrite wrap_swrap in G1 by lia.
  unfold resume_guard, not_resumed. destruct distributed; [by rewrite orb_false_r|].
  rewrite (run_app _ _ _ _ _ G0). destruct (wrap 32 r =? 0); [done|]. cbn [orb negb andb]. etransitivity; [exact G1|].
  by destruct (wrap 32 r =? wrap 32 p).
Qed.

(** The parts of the code that restores. *)
Lemma resume_inv p distributed c :
  resume_modified_vars d func_index p distributed = Some c ->
  exists k vars globals tys cs gs, checkpoint_position d p = Some k
    /\ saved_vars d distributed k = Some (vars, globals)
    /\ mapM (load_local d tys) (rev (iter vars)) = Some cs /\ mapM (load_global d) (rev (iter globals)) = Some gs
    /\ c = ⟦ Instr.Block WE.Empty ⟧ ++ (resume_guard distributed p ++ concat cs ++ concat gs) ++ ⟦ Instr.End ⟧.
Proof.
  unfold resume_modified_vars. destruct (checkpoint_position d p) as [k|]; [|done]. cbn [mbind option_bind].
  destruct (saved_vars d distributed k) as [[vars globals]|] eqn:Ev; [|done]. cbn [mbind option_bind].
  destruct (get_params_and_locals _ _ _) as [tys|]; [|done]. cbn [mbind option_bind].
  destruct (mapM _ (rev (iter vars))) as [cs|] eqn:Ecs; [|done]. cbn [mbind option_bind].
  destruct (mapM _ (rev (iter globals))) as [gs|] eqn:Egs; [|done]. intros [= <-].
  exists k, vars, globals, tys, cs, gs. split_and!; [done..|]. rewrite <- !app_assoc. by destruct distributed.
Qed.

Lemma run_resume_left p distributed c (u : U) m ls r :
  resume_modified_vars d func_index p distributed = Some c -> get_local u v = Some (i32 r) ->
  not_resumed distributed r p = true -> run lay c (at_rest u m ls) = Some (at_rest u m ls).
Proof.
  intros H Hr Hn. destruct (resume_inv _ _ _ H) as (k & vars & globals & tys & cs & gs & _ & _ & Ecs & Egs & ->).
  apply run_block_left. rewrite (run_app _ _ _ _ _ (run_resume_guard _ _ _ _ _ _ Hr)), Hn.
  apply (run_skip_balanced lay _ 0); [|done]. unfold balanced. apply bool_decide_eq_true, flat_nesting.
  apply Forall_app_2; [by eapply mapM_flat; [apply (load_local_flat tys)|]|by eapply mapM_flat; [apply load_global_flat|]].
Qed.

(** An address, a load and a write of the variable. *)
Lemma run_load ty i a set put (u : U) m ls :
  fits -> 0 <= a -> a + 16 <= memory_size lay -> load d ty = Some i ->
  (forall x (c : config U), skipping c = None ->
     step lay set (push_val x c) = Some (mkConfig (put (user c) x) (memory c) (operands c) (labels c) None)) ->
  exists x, run lay ⟦ Instr.I32Const (swrap 32 a); i; set ⟧ (at_rest u m ls) = Some (at_rest (put u x) m ls).
Proof.
  intros F Ha Hb Hi Hput. exists (mkval ty (load_bytes (Z.to_nat (byte_width ty)) a m)).
  rewrite (run_app lay ⟦ Instr.I32Const (swrap 32 a) ⟧ ⟦ i; set ⟧ _ (push_val (i32 (swrap 32 a)) (at_rest u m ls))) by done.
  pose proof (width_bound ty) as Hw.
  assert (Hle : (a + byte_width ty <=? memory_size lay) = true) by (apply Z.leb_le; lia).
  assert (Hl : step lay i (push_val (i32 (swrap 32 a)) (at_rest u m ls))
    = Some (push_val (mkval ty (load_bytes (Z.to_nat (byte_width ty)) a m)) (at_rest u m ls))).
  { unfold i32, at_rest, push_val, step. cbn [user memory operands labels skipping]. rewrite (address_wrap a F Ha Hb).
    destruct ty; cbn in Hi; try done; injection Hi as <-; unfold exec_step, load_step;
      cbn [operands checkpoint_mem_arg WE.memory_index WE.offset];
      rewrite !bool_decide_true by (symmetry; apply PL); rewrite !Z.add_0_r, Hle; done. }
  cbn [run]. rewrite Hl. cbn [mbind option_bind]. by rewrite Hput.
Qed.

(** Pieces that change the program by [keep]-ing some of it. *)
Lemma run_concat_keep {A} (gen : A -> option code) (keep : U -> Prop) (l : list A) cs (u : U) m ls :
  mapM gen l = Some cs -> keep u ->
  (forall x c u, x ∈ l -> gen x = Some c -> keep u ->
     exists u', run lay c (at_rest u m ls) = Some (at_rest u' m ls) /\ keep u') ->
  exists u', run lay (concat cs) (at_rest u m ls) = Some (at_rest u' m ls) /\ keep u'.
Proof.
  intros Hm Hk Hrun. apply mapM_Some in Hm. revert u Hk. induction Hm as [|x c l cs Hx _ IH]; intros u Hk; [by exists u|].
  destruct (Hrun x c u) as (u1 & H1 & K1); [by left|done..|]. destruct IH with (u := u1) as (u2 & H2 & K2); [|done|].
  { intros y c' u' Hy. apply Hrun. by right. }
  exists u2. cbn [concat]. by rewrite (run_app _ _ _ _ _ H1).
Qed.

(** Loading the locals, then the globals, changes the saved locals only. *)
Lemma run_load_local tys var c (vars : gset Z) (u u0 : U) m ls :
  fits -> var ∈ vars -> load_local d tys var = Some c -> (forall w, w ∉ vars -> get_local u0 w = get_local u w) ->
  exists u', run lay c (at_rest u0 m ls) = Some (at_rest u' m ls) /\ forall w, w ∉ vars -> get_local u' w = get_local u w.
Proof.
  intros F Hvar. unfold load_local. destruct (_ !! var) as [a|] eqn:Ea; [|done]. cbn [mbind option_bind].
  destruct (tys !! Z.to_nat var) as [ty|]; [|done]. cbn [mbind option_bind]. destruct (load d ty) as [i|] eqn:Ei; [|done].
  intros [= <-] K. destruct (ft_vars F _ _ Ea) as [Ha Hb].
  destruct (run_load ty i a (Instr.LocalSet var) (fun u x => set_local u var x) u0 m ls F Ha Hb Ei) as [x Hx].
  { intros x c Hc. unfold step, push_val. cbn [skipping]. by rewrite Hc. }
  eexists. split; [exact Hx|]. intros w Hw. rewrite get_set_local, decide_False; [by apply K|congruence].
Qed.

Lemma run_load_global g c (vars : gset Z) (u u0 : U) m ls :
  fits -> load_global d g = Some c -> (forall w, w ∉ vars -> get_local u0 w = get_local u w) ->
  exists u', run lay c (at_rest u0 m ls) = Some (at_rest u' m ls) /\ forall w : Z, w ∉ vars -> get_local u' w = get_local u w.
Proof.
  intros F. unfold load_global. destruct (_ !! g) as [a|] eqn:Ea; [|done]. cbn [mbind option_bind].
  destruct (_ !! Z.to_nat g) as [ty|]; [|done]. cbn [mbind option_bind]. destruct (load d ty) as [i|] eqn:Ei; [|done].
  intros [= <-] K. destruct (ft_globals F _ _ Ea) as [Ha Hb].
  destruct (run_load ty i a (Instr.GlobalSet g) (fun u x => set_global u g x) u0 m ls F Ha Hb Ei) as [x Hx].
  { intros x c Hc. unfold step, push_val. cbn [skipping]. by rewrite Hc. }
  eexists. split; [exact Hx|]. intros w Hw. rewrite get_local_set_global. by apply K.
Qed.

(** Restoring always ends; it changes the saved variables only. *)
Lemma run_resume p distributed c (u : U) m ls r :
  fits -> resume_modified_vars d func_index p distributed = Some c -> get_local u v = Some (i32 r) ->
  exists u' k vars globals, run lay c (at_rest u m ls) = Some (at_rest u' m ls)
    /\ checkpoint_position d p = Some k /\ saved_vars d distributed k = Some (vars, globals)
    /\ forall w, w ∉ vars -> get_local u' w = get_local u w.
Proof.
  intros F H Hr. destruct (resume_inv _ _ _ H) as (k & vars & globals & tys & cs & gs & Hk & Hv & Ecs & Egs & Ec).
  destruct (not_resumed distributed r p) eqn:Hn.
  { exists u, k, vars, globals. split_and!; [|done..]. by eapply run_resume_left. }
  set (keep := fun u' => forall w, w ∉ vars -> get_local u' w = get_local u w).
  destruct (run_concat_keep _ keep _ _ u m (0%nat :: ls) Ecs) as (u1 & H1 & K1); [done| |].
  { intros var c0 u0 Hvar Hc K. eapply run_load_local; [done| |done..]. apply elem_of_iter.
    by apply list_elem_of_In, in_rev, list_elem_of_In in Hvar. }
  destruct (run_concat_keep _ keep _ _ u1 m (0%nat :: ls) Egs) as (u2 & H2 & K2); [done| |].
  { intros g c0 u0 _ Hc K. by eapply run_load_global. }
  exists u2, k, vars, globals. split_and!; [|done..]. rewrite Ec. apply run_block.
  rewrite (run_app _ _ _ _ _ (run_resume_guard _ _ _ _ _ _ Hr)), Hn. by rewrite (run_app _ _ _ _ _ H1).
Qed.

(** ** Regions *)

(** A region that is not the last one. *)
Lemma encode_region_inv distributed fb is_first prev b c :
  encode_region d func_index distributed fb is_first false prev b = Some c ->
  exists resume body cp,
    (if is_first then Some [] else p ← prev; resume_modified_vars d func_index p distributed) = Some resume
    /\ print_block_instructions d b fb = Some body /\ checkpoint_live_out_vars d func_index b distributed = Some cp
    /\ c = ⟦ Instr.Block WE.Empty ⟧ ++ resume ++ jump_to_end d b ++ body ++ cp ++ migrate_check d ++ ⟦ Instr.End ⟧.
Proof.
  unfold encode_region. destruct (if is_first then _ else _) as [resume|]; [|done]. cbn [mbind option_bind].
  destruct (print_block_instructions d b fb) as [body|]; [|done]. cbn [mbind option_bind].
  destruct (checkpoint_live_out_vars d func_index b distributed) as [cp|]; [|done]. intros [= <-]. by exists resume, body, cp.
Qed.
Lemma checkpoint_balanced b distributed c :
  checkpoint_live_out_vars d func_index b distributed = Some c -> balanced c = true.
Proof.
  unfold checkpoint_live_out_vars. destruct (checkpoint_position d b) as [k|]; [|done]. cbn [mbind option_bind].
  destruct (saved_vars d distributed k) as [[vars globals]|]; [|done]. cbn [mbind option_bind].
  destruct (mapM _ (iter vars)) as [cs|] eqn:Ecs; [|done]. cbn [mbind option_bind].
  destruct (mapM _ (iter globals)) as [gs|] eqn:Egs; [|done]. intros [= <-].
  assert (Fc : flat (concat cs)).
  { eapply mapM_flat; [|exact Ecs]. intros x c. cbn. destruct (get_params_and_locals _ _ _); [|done]. cbn [mbind option_bind].
    unfold store_local. destruct (_ !! x); [|done]. cbn [mbind option_bind]. destruct (_ !! Z.to_nat x) as [ty|]; [|done].
    cbn [mbind option_bind]. destruct ty; cbn; intros [= <-]; repeat constructor. }
  assert (Fg : flat (concat gs)).
  { eapply mapM_flat; [|exact Egs]. intros x c. cbn. destruct (get_params_and_locals _ _ _); [|done]. cbn [mbind option_bind].
    unfold store_global. destruct (_ !! x); [|done]. cbn [mbind option_bind]. destruct (_ !! Z.to_nat x) as [ty|]; [|done].
    cbn [mbind option_bind]. destruct ty; cbn; intros [= <-]; repeat constructor. }
  unfold balanced. apply bool_decide_eq_true. cbn [app nesting_of nesting mbind option_bind].
  rewrite !nesting_of_app, flat_nesting by done. cbn [mbind option_bind]. rewrite nesting_of_app, flat_nesting by done. done.
Qed.

(** The region is entered: its code has its effect, and the checkpoint its number. *)
Lemma region_entered effect b distributed resume body cp k vars globals tys (u u1 u2 : U) m ls r :
  fits -> run lay resume (at_rest u m (0%nat :: ls)) = Some (at_rest u1 m (0%nat :: ls)) ->
  get_local u1 v = Some (i32 r) -> wrap 32 r = wrap 32 b \/ wrap 32 r = 0 -> effect body u1 u2 ->
  checkpoint_position d b = Some k -> saved_vars d distributed k = Some (vars, globals) ->
  get_params_and_locals (sections d) (locals d) func_index = Some tys -> saved_ok tys vars globals u2 ->
  checkpoint_live_out_vars d func_index b distributed = Some cp -> wrap 32 should_migrate = 0 ->
  exists m', load_bytes 4 0 m' = wrap 32 b
    /\ runs lay effect
         (⟦ Instr.Block WE.Empty ⟧ ++ resume ++ jump_to_end d b ++ body ++ cp ++ migrate_check d ++ ⟦ Instr.End ⟧)
         (at_rest u m ls) (at_rest u2 m' ls).
Proof.
  intros F Hres Hr Hcase Hbody Hk Hv Ht Hu Hcp Hmig.
  destruct (run_checkpoint b distributed k vars globals tys cp u2 m (0%nat :: ls) F Hk Hv Ht Hu Hcp) as (m' & Hrun & Hnum).
  exists m'. split; [done|]. eapply runs_run; [done|]. eapply runs_run; [exact Hres|].
  pose proof (run_jump u1 m ls r b Hr) as Hj.
  assert ((wrap 32 r =? wrap 32 b) || (wrap 32 r =? 0) = true) as E.
  { destruct Hcase as [E|E]; rewrite E, Z.eqb_refl; [done|]. apply orb_true_r. }
  rewrite E in Hj. eapply runs_run; [exact Hj|]. eapply runs_region; [done|done|exact Hbody|].
  eapply runs_run; [exact Hrun|]. eapply runs_run; [by apply run_migrate_check|]. eapply runs_step; [done|]. constructor.
Qed.

(** The region is left by the jump: only what was restored before it remains. *)
Lemma region_left effect b distributed resume body cp (u u1 : U) m ls r :
  run lay resume (at_rest u m (0%nat :: ls)) = Some (at_rest u1 m (0%nat :: ls)) ->
  get_local u1 v = Some (i32 r) -> wrap 32 r <> wrap 32 b -> wrap 32 r <> 0 -> balanced body = true ->
  checkpoint_live_out_vars d func_index b distributed = Some cp ->
  runs lay effect
    (⟦ Instr.Block WE.Empty ⟧ ++ resume ++ jump_to_end d b ++ body ++ cp ++ migrate_check d ++ ⟦ Instr.End ⟧)
    (at_rest u m ls) (at_rest u1 m ls).
Proof.
  intros Hres Hr Hb H0 Hbal Hcp. eapply runs_run; [done|]. eapply runs_run; [exact Hres|].
  pose proof (run_jump u1 m ls r b Hr) as Hj.
  assert ((wrap 32 r =? wrap 32 b) || (wrap 32 r =? 0) = false) as E.
  { apply orb_false_iff. split; by apply Z.eqb_neq. }
  rewrite E in Hj. eapply runs_run; [exact Hj|].
  assert (Hs : balanced (body ++ cp ++ migrate_check d) = true).
  { repeat apply balanced_app; [done|by eapply checkpoint_balanced|done]. }
  rewrite !(app_assoc body), (app_assoc (body ++ cp)), <- (app_assoc body). eapply runs_run.
  { by apply (run_skip_balanced lay _ 0). }
  eapply runs_step; [done|]. constructor.
Qed.
(** ** The whole function *)

(** The pieces of the original program, one after the other. *)
Inductive chain (effect : code -> U -> U -> Prop) : list code -> U -> U -> Prop :=
| chain_nil u : chain effect [] u u
| chain_cons body bodies u u1 u2 : effect body u u1 -> chain effect bodies u1 u2 -> chain effect (body :: bodies) u u2.

(** Nothing is resumed, and what is saved has the types of the stores. *)
Record going (distributed : bool) (tys : list WE.ValType) (u : U) : Prop := {
  go_number : get_local u v = Some (i32 0);
  go_saved : forall k vars globals, saved_vars d distributed k = Some (vars, globals) -> saved_ok tys vars globals u;
}.

Lemma checkpoint_vars b distributed cp :
  checkpoint_live_out_vars d func_index b distributed = Some cp ->
  exists k vars globals, checkpoint_position d b = Some k /\ saved_vars d distributed k = Some (vars, globals).
Proof.
  unfold checkpoint_live_out_vars. destruct (checkpoint_position d b) as [k|]; [|done]. cbn [mbind option_bind].
  destruct (saved_vars d distributed k) as [[vars globals]|] eqn:E; [|done]. intros _. by exists k, vars, globals.
Qed.

Lemma run_resume_first (is_first distributed : bool) prev resume (u : U) m ls :
  (if is_first then Some [] else p ← prev; resume_modified_vars d func_index p distributed) = Some resume ->
  get_local u v = Some (i32 0) -> run lay resume (at_rest u m ls) = Some (at_rest u m ls).
Proof.
  intros H Hu. destruct is_first; [by injection H as <-|]. destruct prev as [p|]; [|done]. cbn [mbind option_bind] in H.
  eapply run_resume_left; [exact H|exact Hu|done].
Qed.

(** One region, when nothing is resumed. *)
Lemma run_region effect distributed fb tys is_first is_last prev b body c (u u1 : U) m ls :
  fits -> wrap 32 should_migrate = 0 -> get_params_and_locals (sections d) (locals d) func_index = Some tys ->
  encode_region d func_index distributed fb is_first is_last prev b = Some c -> print_block_instructions d b fb = Some body ->
  effect body u u1 -> going distributed tys u -> going distributed tys u1 ->
  exists m', runs lay effect c (at_rest u m ls) (at_rest u1 m' ls).
Proof.
  intros F Hm Ht Hc Hbody He Hu Hu1. destruct is_last.
  - unfold encode_region in Hc. destruct (if is_first then _ else _) as [resume|] eqn:Er; [|done].
    cbn [mbind option_bind] in Hc. rewrite Hbody in Hc. injection Hc as <-. exists m.
    eapply runs_run; [eapply run_resume_first; [exact Er|apply Hu]|].
    rewrite <- (app_nil_r body). eapply runs_region; [done|done|exact He|constructor].
  - destruct (encode_region_inv _ _ _ _ _ _ Hc) as (resume & body' & cp & Er & Hb & Hcp & ->).
    rewrite Hbody in Hb. injection Hb as <-. destruct (checkpoint_vars _ _ _ Hcp) as (k & vars & globals & Hk & Hv).
    edestruct (region_entered effect b distributed resume body cp k vars globals tys u u u1 m ls 0) as (m' & _ & H);
      [done|by eapply run_resume_first; [exact Er|apply Hu]|apply Hu|by right|done..|by eapply Hu1|done|done|].
    by exists m'.
Qed.

Lemma run_regions effect distributed fb tys bs prev c bodies (u u' : U) m ls :
  fits -> wrap 32 should_migrate = 0 -> get_params_and_locals (sections d) (locals d) func_index = Some tys ->
  (forall body u u', effect body u u' -> going distributed tys u -> going distributed tys u') ->
  encode_regions d func_index distributed fb bs prev = Some c ->
  mapM (fun b => print_block_instructions d (index b) fb) (filter (fun b => index b ∈ checkpoint_list d) bs) = Some bodies ->
  chain effect bodies u u' -> going distributed tys u ->
  exists m', runs lay effect c (at_rest u m ls) (at_rest u' m' ls).
Proof.
  intros F Hm Ht Heff. revert prev c bodies u m.
  induction bs as [|b bs IH]; intros prev c bodies u m Hc Hb Hch Hu; cbn [encode_regions] in Hc.
  { injection Hc as <-. injection Hb as <-. inversion Hch; subst. exists m. constructor. }
  rewrite filter_cons in Hb. case_bool_decide as Hin; [|by rewrite decide_False in Hb; [eapply IH|]].
  rewrite decide_True in Hb by done. cbn [mapM] in Hb.
  destruct (encode_region _ _ _ _ _ _ _ _) as [region|] eqn:Er; [|done]. cbn [mbind option_bind] in Hc.
  destruct (encode_regions d func_index distributed fb bs _) as [rest|] eqn:Es; [|done]. injection Hc as <-.
  destruct (print_block_instructions d (index b) fb) as [body|] eqn:Ep; [|done]. cbn [mbind option_bind] in Hb.
  destruct (mapM _ (filter _ bs)) as [bodies'|] eqn:Eb; [|done]. injection Hb as <-.
  inversion Hch as [|? ? ? u1 ? He Hch']; subst.
  pose proof (Heff _ _ _ He Hu) as Hu1.
  destruct (run_region effect distributed fb tys _ _ _ _ _ _ u u1 m ls F Hm Ht Er Ep He Hu Hu1) as [m1 H1].
  destruct (IH _ _ _ u1 m1 Es eq_refl Hch' Hu1) as [m2 H2]. exists m2. by eapply runs_app.
Qed.
End injected.
