(* ===== verification/ReaderTheorems.v ===== *)
(** Properties of the binary reader and of the primitive encoders. *)

From Stdlib Require Import ZArith Lia String.
From stdpp Require Import prelude.
From S2P Require Import Prelude Leb128 BinaryReader BinaryReaderSpec ReaderLogic Encode Types.

Local Open Scope Z_scope.

(** A reader over concrete bytes, for witnesses. *)
Ltac wf_concrete := apply wf_new; [repeat constructor; vm_compute; intuition congruence|lia|vm_compute; reflexivity].

(** C31. On every well-formed reader the four LEB128 readers compute their
    specification: the outcome depends only on where the LEB128 string ends
    (within 5 or 10 bytes, beyond them, or not before the end of the buffer) and
    on whether its value fits the width; overlong encodings are accepted within
    the length limit, and each error carries its message and its offset. *)
Theorem leb_reads_correct r :
  wf_reader r ->
  read_var_u32 r = leb_u_spec 32 5 "invalid var_u32: integer representation too long"
                     "invalid var_u32: integer too large" r
  /\ read_var_u64 r = leb_u_spec 64 10 "invalid var_u64: integer representation too long"
                        "invalid var_u64: integer too large" r
  /\ read_var_i32 r = leb_i_spec 32 5 "invalid var_i32: integer representation too long"
                        "invalid var_i32: integer too large" r
  /\ read_var_i64 r = leb_i_spec 64 10 "invalid var_i64: integer representation too long"
                        "invalid var_i64: integer too large" r.
Proof.
  intros Hwf. split; [by apply read_var_u32_spec|]. split; [by apply read_var_u64_spec|].
  split; [by apply read_var_i32_spec|by apply read_var_i64_spec].
Qed.

Lemma leb_reads_correct_witness :
  let r := BinaryReader_new [0xff; 0x80; 0x00] 7 in
  wf_reader r /\ read_var_i32 r
    = leb_i_spec 32 5 "invalid var_i32: integer representation too long"
        "invalid var_i32: integer too large" r
  /\ (read_var_i32 r).1 = Ok 127.
Proof.
  intros r. assert (Hwf : wf_reader r) by wf_concrete.
  split; [exact Hwf|]. split; [apply (leb_reads_correct r Hwf)|]. vm_compute. reflexivity.
Defined.

(** What wasm-encoder writes for an integer of each width, wasmparser reads
    back, consuming exactly the bytes written, at any position of any buffer. *)
Theorem leb_roundtrip {L : Leb128} {LS : Leb128Spec L} f v :
  (in_u 32 v -> enc_reads f (encode_u32 v) read_var_u32 v)
  /\ (in_u 64 v -> enc_reads f (encode_u64 v) read_var_u64 v)
  /\ (in_i 32 v -> enc_reads f (encode_i32 v) read_var_i32 v)
  /\ (in_i 64 v -> enc_reads f (encode_i64 v) read_var_i64 v)
  /\ (in_u 32 v -> enc_reads f (encode_i64 v) read_var_s33 v).
Proof.
  split; [apply er_u32; apply _|]. split; [apply er_u64; apply _|].
  split; [apply er_i32; apply _|]. split; [apply er_i64; apply _|apply er_s33; apply _].
Qed.

Lemma leb_roundtrip_witness :
  Leb128Spec ref_leb128
  /\ enc_reads WasmFeatures_all (encode_i64 (-12345)) read_var_i64 (-12345)
  /\ encode_i64 (-12345) = Some [0xc7; 0x9f; 0x7f].
Proof.
  split; [exact ref_leb128_spec|]. split; [|vm_compute; reflexivity].
  destruct (leb_roundtrip (LS := ref_leb128_spec) WasmFeatures_all (-12345))
    as (_ & _ & _ & H & _).
  apply H. apply (bool_decide_unpack _). vm_compute. exact I.
Defined.

Lemma u32_try_from_spec z : u32_try_from z = if bool_decide (in_u 32 z) then Some z else None.
Proof.
  unfold u32_try_from, in_u. case_bool_decide.
  - by rewrite (proj2 (Z.leb_le 0 z)), (proj2 (Z.leb_le z _)) by lia.
  - destruct (Z.leb_spec 0 z), (Z.leb_spec z (2 ^ 32 - 1)); try done. lia.
Qed.

(** [read_var_s33] accepts exactly the LEB128 strings of at most five bytes
    whose signed value fits 33 bits.  Below five bytes it returns that value; at
    any length, converting the result with [u32::try_from], as every caller does,
    gives the same answer as converting the signed value. *)
Theorem read_var_s33_as_u32 r n :
  wf_reader r -> leb_scan 5 (remaining_buffer r) = Done n ->
  let v := sleb_val (take n (remaining_buffer r)) in
  if bool_decide (in_i 33 v) then
    exists x, read_var_s33 r = (Ok x, advance n r)
      /\ u32_try_from x = u32_try_from v /\ ((n < 5)%nat -> x = v)
  else
    read_var_s33 r
    = (Err (err_new (lit "invalid var_s33: integer representation too long")
              (original_position r + Z.of_nat n - 1)), advance n r).
Proof.
  intros Hwf Hn v. rewrite read_var_s33_spec by done. unfold s33_spec. rewrite Hn.
  pose proof (leb_scan_done _ _ _ Hn) as [Hn1 Hn2]. fold v. case_bool_decide as Hv; [|done].
  eexists. split; [done|].
  assert (Hl : length (take n (remaining_buffer r)) = n) by (rewrite length_take; lia).
  destruct (s33_value_u32 (take n (remaining_buffer r))) as [H1 H2].
  { intros E. rewrite E in Hl. simpl in Hl. lia. }
  { lia. }
  { exact Hv. }
  split.
  - rewrite !u32_try_from_spec. fold v in H1, H2. repeat case_bool_decide; try tauto.
    by rewrite H2.
  - intros H5. unfold s33_value. rewrite Hl. by rewrite bool_decide_eq_false_2 by lia.
Qed.

Lemma read_var_s33_as_u32_witness :
  let r := BinaryReader_new [0xe5; 0x8e; 0x26] 0 in
  wf_reader r /\ leb_scan 5 (remaining_buffer r) = Done 3
  /\ exists x, read_var_s33 r = (Ok x, advance 3 r)
       /\ u32_try_from x = u32_try_from 624485 /\ ((3 < 5)%nat -> x = 624485).
Proof.
  intros r. assert (Hwf : wf_reader r) by wf_concrete.
  split; [exact Hwf|]. split; [vm_compute; reflexivity|].
  exact (read_var_s33_as_u32 r 3 Hwf eq_refl).
Defined.

(** A negative number written in five bytes is returned as its value plus
    [2^35]: the reader, documented to return a signed 33-bit integer, does not
    extend the sign of the last byte. *)
Theorem read_var_s33_five_bytes r :
  wf_reader r -> leb_scan 5 (remaining_buffer r) = Done 5 ->
  in_i 33 (sleb_val (take 5 (remaining_buffer r))) ->
  sleb_val (take 5 (remaining_buffer r)) < 0 ->
  read_var_s33 r = (Ok (sleb_val (take 5 (remaining_buffer r)) + 2 ^ 35), advance 5 r).
Proof.
  intros Hwf Hn Hv Hneg. rewrite read_var_s33_spec by done. unfold s33_spec. rewrite Hn.
  rewrite bool_decide_eq_true_2 by done. do 2 f_equal. unfold s33_value.
  pose proof (leb_scan_done _ _ _ Hn) as [_ Hl].
  set (bs := take 5 (remaining_buffer r)) in *.
  assert (H5 : length bs = 5%nat) by (unfold bs; rewrite length_take; lia).
  rewrite bool_decide_eq_true_2 by done.
  assert (Hne : bs <> []) by by destruct bs.
  pose proof (sleb_uleb bs Hne) as E. rewrite H5 in E. pose proof (uleb_val_nonneg bs).
  pose proof (uleb_val_bound bs) as Hb. rewrite H5 in Hb. unfold swrap in E.
  change (7 * Z.of_nat 5) with 35 in *. change (2 ^ (35 - 1)) with 17179869184 in *.
  change (2 ^ 35) with 34359738368 in *. rewrite E in Hneg |- *.
  destruct (Z.lt_ge_cases (uleb_val bs) 17179869184).
  - rewrite Z.mod_small in Hneg |- * by lia. lia.
  - replace (uleb_val bs + 17179869184) with (uleb_val bs - 17179869184 + 1 * 34359738368)
      in Hneg |- * by lia. rewrite Z.mod_add, Z.mod_small in Hneg |- * by lia. lia.
Qed.

Lemma read_var_s33_five_bytes_witness :
  let r := BinaryReader_new [0xff; 0xff; 0xff; 0xff; 0x7f] 0 in
  read_var_s33 r = (Ok (-1 + 2 ^ 35), advance 5 r).
Proof.
  intros r. apply (read_var_s33_five_bytes r).
  - wf_concrete.
  - vm_compute. reflexivity.
  - apply (bool_decide_unpack _). vm_compute. exact I.
  - vm_compute. reflexivity.
Defined.

(** [read_string] returns only UTF-8: on any reader it succeeds with the
    encoding of a sequence of Unicode scalar values, at most 100000 bytes long,
    or fails with an error located in the buffer; it never panics. *)
Theorem read_string_safe r :
  wf_reader r ->
  match read_string r with
  | (Ok s, r') => exists cs, Forall scalar cs /\ s = utf8_encode cs
      /\ Z.of_nat (length s) <= MAX_WASM_STRING_SIZE /\ wf_reader r'
  | (Err e, r') => err_in_range r e /\ wf_reader r'
  | (Panic, _) => False
  end.
Proof.
  intros Hwf.
  assert (Henv : wp_env (err_in_range r) r) by by split.
  assert (Hwp : wp (err_in_range r) r 0 read_string (fun s _ => Forall is_byte s
    /\ from_utf8 s = true /\ Z.of_nat (length s) <= MAX_WASM_STRING_SIZE)).
  { unfold read_string, internal_read_string. do 2 wp_step.
    destruct (Z.ltb_spec MAX_WASM_STRING_SIZE v); [wp_run|].
    apply wp_bind, wp_bytes; [done|unfold in_u in *; lia|]. intros bs Hl Hb.
    destruct (from_utf8 bs) eqn:Hu; wp_run. split; [done|]. split; [done|]. lia. }
  destruct (Hwp ltac:(lia)) as (k & Hk & E & Hm). rewrite advance_0 in *.
  assert (Hwf' : wf_reader (advance k r)) by (apply wf_advance; [done|lia]).
  destruct (read_string r) as [[s|e|] r']; simpl in *; subst; [|by split|done].
  destruct Hm as (Hb & Hu & Hl). destruct (from_utf8_decode s Hb Hu) as (cs & Hcs & ->).
  by exists cs.
Qed.

Lemma read_string_safe_witness :
  let r := BinaryReader_new [0x03; 0xe2; 0x82; 0xac] 0 in
  wf_reader r /\ read_string r = (Ok [0xe2; 0x82; 0xac], advance 4 r)
  /\ exists cs, Forall scalar cs /\ [0xe2; 0x82; 0xac] = utf8_encode cs
       /\ Z.of_nat 3 <= MAX_WASM_STRING_SIZE /\ wf_reader (advance 4 r).
Proof.
  intros r. assert (Hwf : wf_reader r) by wf_concrete.
  split; [exact Hwf|]. split; [vm_compute; reflexivity|]. exact (read_string_safe r Hwf).
Defined.

(** A string of Unicode scalar values of at most 100000 bytes, written by
    wasm-encoder, is read back by [read_string]. *)
Theorem string_roundtrip {L : Leb128} {LS : Leb128Spec L} f cs :
  Forall scalar cs -> Z.of_nat (length (utf8_encode cs)) <= MAX_WASM_STRING_SIZE ->
  enc_reads f (encode_str (utf8_encode cs)) read_string (utf8_encode cs).
Proof. intros Hcs Hl. apply er_str; [apply _| |done]. by apply from_utf8_encode. Qed.

Lemma string_roundtrip_witness :
  Leb128Spec ref_leb128
  /\ enc_reads WasmFeatures_all (encode_str (utf8_encode [0x20AC; 0x41; 0x1F980])) read_string
       (utf8_encode [0x20AC; 0x41; 0x1F980])
  /\ encode_str (utf8_encode [0x20AC; 0x41; 0x1F980])
     = Some [8; 0xe2; 0x82; 0xac; 0x41; 0xf0; 0x9f; 0xa6; 0x80].
Proof.
  split; [exact ref_leb128_spec|]. split; [|vm_compute; reflexivity].
  apply (string_roundtrip (LS := ref_leb128_spec)).
  - repeat constructor; unfold scalar; lia.
  - vm_compute. discriminate.
Defined.

Lemma reads_whole f bs : reads f (read_bytes (Z.of_nat (length bs));; mret tt) bs tt.
Proof.
  rewrite <- (app_nil_r bs) at 2. eapply reads_bind; [by apply reads_bytes|apply reads_ret].
Qed.

(** A section written by [encode_section] is framed by its size: reading it
    with [read_reader] gives a reader for exactly the count and the body, in which
    the count is read back and the body follows to the end. *)
Theorem section_roundtrip {L : Leb128} {LS : Leb128Spec L} f count body :
  in_u 32 count -> Z.of_nat (length (write_unsigned count) + length body) < 2 ^ 32 ->
  exists bs, encode_section count body = Some bs
    /\ reads_ex f read_reader bs (fun br => wf_reader br
         /\ remaining_buffer br = write_unsigned count ++ body
         /\ exists br', read_var_u32 br = (Ok count, br') /\ remaining_buffer br' = body).
Proof.
  intros Hc Hl. set (payload := write_unsigned count ++ body).
  assert (Hlen : (length (write_unsigned count) <= 5)%nat).
  { apply (write_unsigned_length 4); unfold in_u in *; simpl in *; lia. }
  destruct (er_usize f (Z.of_nat (length payload))) as (b0 & E0 & H0).
  { unfold in_u, payload. rewrite length_app. lia. }
  exists (b0 ++ payload). split.
  - unfold encode_section, encoding_size. rewrite (proj2 (Z.leb_le _ _)) by lia. simpl.
    replace (Z.of_nat (length (write_unsigned count)) + Z.of_nat (length body))
      with (Z.of_nat (length payload)) by (unfold payload; rewrite length_app; lia).
    by rewrite E0.
  - eapply reads_ex_bind with (P := eq (Z.of_nat (length payload))); [by eapply reads_reads_ex|].
    intros n <-. intros r rest Hwf Hf E.
    destruct (reads_ex_skip f _ _ (reads_whole f payload) r rest Hwf Hf E)
      as (br & Ebr & Hwbr & Hrem).
    exists br. split; [done|]. split; [done|]. split; [done|].
    exists (advance (length (write_unsigned count)) br).
    split; [by apply (reads_var_u32 (features br) count Hc br body)|].
    rewrite remaining_advance by apply Hwbr. rewrite Hrem. apply drop_app_length.
Qed.

Lemma section_roundtrip_witness :
  Leb128Spec ref_leb128
  /\ exists bs, encode_section 2 [0x60; 0x00; 0x00; 0x60; 0x00; 0x00] = Some bs
    /\ reads_ex WasmFeatures_all read_reader bs (fun br => wf_reader br
         /\ remaining_buffer br = write_unsigned 2 ++ [0x60; 0x00; 0x00; 0x60; 0x00; 0x00]
         /\ exists br', read_var_u32 br = (Ok 2, br')
              /\ remaining_buffer br' = [0x60; 0x00; 0x00; 0x60; 0x00; 0x00]).
Proof.
  split; [exact ref_leb128_spec|]. apply (section_roundtrip (LS := ref_leb128_spec)).
  - apply (bool_decide_unpack _). vm_compute. exact I.
  - vm_compute. reflexivity.
Defined.
