(* ===== verification/OperatorTheorems.v ===== *)
(** Properties of the core types (packing, the subtype order, their binary format)
    and of operators: decoding arbitrary bytes, and the round trip from wasmparser
    through wasm-encoder and back. *)

From Stdlib Require Import ZArith Lia String.
From stdpp Require Import prelude.
From S2P Require Import Prelude Leb128 BinaryReader BinaryReaderSpec ReaderLogic Encode Types TypesSpec.
From S2P Require Import EncTypes Operands Operators OperatorReader Instructions Reencode OperandSpec.
From S2P Require Import OperandRoundtrip OperatorSpec InstrRoundtrip ReaderTheorems.

Local Open Scope Z_scope.

(** ** Types *)

(** Packing a type index into 22 bits is lossless and partial exactly
    where it has to be: indices below [2^20] of every kind pack and unpack to
    themselves, all others are refused. *)
Theorem packed_index_roundtrip u :
  0 <= unpacked_payload u ->
  match pack u with
  | Some p => in_u 20 (unpacked_payload u) /\ in_u 22 p /\ unpack p = Some u
      /\ packed_is_canonical p = Some (unpacked_is_canonical u)
      /\ packed_as_module_index p = unpacked_as_module_index u
  | None => 2 ^ 20 <= unpacked_payload u
  end.
Proof.
  intros H0. destruct (decide (unpacked_valid u)) as [Hu|Hu].
  - destruct (unpack_pack u Hu) as (p & -> & Hp & Hun). split; [done|]. split; [done|].
    split; [done|]. unfold unpack, packed_is_canonical, packed_as_module_index in *.
    destruct (packed_kind p =? MODULE_KIND) eqn:E1.
    + injection Hun as <-. apply Z.eqb_eq in E1. rewrite E1. done.
    + destruct (packed_kind p =? REC_GROUP_KIND); [by injection Hun as <-|].
      destruct (packed_kind p =? ID_KIND); [by injection Hun as <-|done].
  - rewrite pack_None by done. unfold unpacked_valid, in_u in Hu. lia.
Qed.

Lemma packed_index_roundtrip_witness :
  in_u 22 (0x100000 + 77) /\ unpack (0x100000 + 77) = Some (RecGroup_ 77).
Proof.
  destruct (packed_index_roundtrip (RecGroup_ 77) ltac:(vm_compute; discriminate))
    as (_ & H1 & H2 & _).
  split; [exact H1|exact H2].
Defined.

(** C32. The 24-bit [RefType] implements the pair of a nullability and a heap
    type: [new] succeeds on every representable heap type, the accessors return
    the components, the debug assertion of [from_u32] holds, and the updates and
    [difference] act on the components. *)
Theorem ref_type_refines n h :
  ht_valid h ->
  exists r, rt_new n h = Some r
    /\ is_nullable r = n /\ rt_heap_type r = Some h /\ from_u32_ok (as_u32 r) = true
    /\ rt_new false h = Some (as_non_null r) /\ rt_new true h = Some (nullable r)
    /\ rt_shared r = match h with
                     | Abstract _ t => rt_new n (Abstract true t)
                     | Concrete _ => None
                     end
    /\ (forall n' h' r', ht_valid h' -> rt_new n' h' = Some r' ->
          rt_difference r r' = rt_new (if n' then false else n) h
          /\ (r = r' -> n = n' /\ h = h')).
Proof.
  intros Hh. destruct (rt_new_heap_type n h Hh) as (r & Hr & Hht & Hn). exists r.
  split; [done|]. split; [done|]. split; [done|].
  split; [by apply (rt_new_from_u32_ok n h)|]. split; [by apply (as_non_null_new n)|].
  split; [by apply (nullable_new n)|]. split; [by apply rt_shared_new|].
  intros n' h' r' Hh' Hr'. destruct (rt_new_heap_type n' h' Hh') as (r2 & E & Hht' & Hn').
  rewrite Hr' in E. injection E as <-. split.
  - unfold rt_difference. rewrite Hht, Hn, Hn'. done.
  - intros ->. rewrite Hht in Hht'. injection Hht' as ->. by rewrite <- Hn, Hn'.
Qed.

Lemma ref_type_refines_witness :
  exists r, rt_new true (Concrete (Module_ 5)) = Some r
    /\ is_nullable r = true /\ rt_heap_type r = Some (Concrete (Module_ 5)).
Proof.
  destruct (ref_type_refines true (Concrete (Module_ 5))) as (r & H1 & H2 & H3 & _).
  - apply (bool_decide_unpack (in_u 20 5)). vm_compute. exact I.
  - exists r. split; [exact H1|]. split; [exact H2|exact H3].
Defined.

(** The top and the bottom of the hierarchy of an abstract heap type. *)
Definition ht_top (t : AbstractHeapType) : AbstractHeapType :=
  match t with
  | HFunc | HNoFunc => HFunc
  | HExtern | HNoExtern => HExtern
  | HExn | HNoExn => HExn
  | HCont | HNoCont => HCont
  | HAny | HEq | HI31 | HStruct | HArray | HNone => HAny
  end.

Definition ht_bottom (t : AbstractHeapType) : AbstractHeapType :=
  match ht_top t with
  | HFunc => HNoFunc
  | HExtern => HNoExtern
  | HExn => HNoExn
  | HCont => HNoCont
  | _ => HNone
  end.

(** Subtyping of abstract heap types is a partial order whose components
    are the five hierarchies: comparable types have a common top, and each
    hierarchy has its bottom. *)
Theorem ht_subtype_hierarchies :
  PartialOrder (fun a b => ht_is_subtype_of a b = true)
  /\ (forall a b, ht_is_subtype_of a b = true -> ht_top a = ht_top b)
  /\ (forall a, ht_is_subtype_of a (ht_top a) = true)
  /\ (forall a, ht_is_subtype_of (ht_bottom a) a = true).
Proof.
  split; [exact ht_subtype_order|]. split; [by intros [] []|]. split; by intros [].
Qed.

(** Types read from arbitrary bytes refer to types of the module: reading a
    heap, reference, value or block type never panics, and yields a type whose
    index is a module index below [2^20] (a [u32] for block types). *)
Theorem type_readers_safe r :
  wf_reader r ->
  wp (err_in_range r) r 0 from_reader_heap_type (fun h _ => ht_module h)
  /\ wp (err_in_range r) r 0 from_reader_ref_type (fun t _ => rt_module t)
  /\ wp (err_in_range r) r 0 from_reader_val_type (fun t _ => vt_module t)
  /\ wp (err_in_range r) r 0 read_block_type (fun b _ => bt_module b).
Proof.
  intros Hwf. assert (Henv : wp_env (err_in_range r) r) by by split.
  split; [by apply wp_heap_type|]. split; [by apply wp_ref_type|].
  split; [by apply wp_val_type|by apply wp_block_type].
Qed.

Lemma type_readers_safe_witness :
  let r := BinaryReader_new [0x63; 0x80; 0x80; 0x80; 0x01] 12 in
  wf_reader r
  /\ wp (err_in_range r) r 0 from_reader_val_type (fun t _ => vt_module t)
  /\ (from_reader_val_type r).1
     = Err (err_new (lit "type index greater than implementation limits") 17).
Proof.
  intros r. assert (Hwf : wf_reader r) by wf_concrete.
  split; [exact Hwf|]. split; [apply (type_readers_safe r Hwf)|]. vm_compute. reflexivity.
Defined.

(** Every type that refers to the module survives translation to
    wasm-encoder, encoding and reading back, in its short or its long form. *)
Theorem types_roundtrip {L : Leb128} {LS : Leb128Spec L} f :
  (forall h, ht_module h -> exists h', heap_type h = ROk h'
     /\ enc_reads f (WE.encode_heap_type h') from_reader_heap_type h)
  /\ (forall r, rt_module r -> exists r', ref_type r = ROk r'
       /\ enc_reads f (WE.encode_ref_type r') from_reader_ref_type r)
  /\ (forall t, vt_module t -> exists t', val_type t = ROk t'
       /\ enc_reads f (WE.encode_val_type t') from_reader_val_type t)
  /\ (forall b, bt_module b -> exists b', block_type b = ROk b'
       /\ enc_reads f (WE.encode_block_type b') read_block_type b).
Proof.
  split; [by apply er_heap_type|]. split; [|split; [|by apply er_block_type]].
  - intros r Hr. destruct (er_ref_type f r Hr) as (r' & E & H & _). by exists r'.
  - intros t Ht. destruct (er_val_type f t Ht) as (t' & E & H & _). by exists t'.
Qed.

Lemma types_roundtrip_witness :
  Leb128Spec ref_leb128
  /\ exists b', block_type (BT_FuncType 70) = ROk b'
       /\ enc_reads WasmFeatures_all (WE.encode_block_type b') read_block_type (BT_FuncType 70).
Proof.
  split; [exact ref_leb128_spec|].
  destruct (types_roundtrip (LS := ref_leb128_spec) WasmFeatures_all) as (_ & _ & _ & H).
  apply H. apply (bool_decide_unpack (in_u 32 70)). vm_compute. exact I.
Defined.

(** ** Decoding *)

(** C30. Decoding one operator from arbitrary bytes, with any visitor and any
    features, never panics; on success it consumed at least one byte, stayed in
    the buffer, and called the visitor with a well-formed operator; an error is
    located in the buffer, except for the arity error of a typed [select]. *)
Theorem visit_operator_safe {A} r simd_visitor (visit : Op.Operator -> A) :
  wf_reader r ->
  match visit_operator simd_visitor visit r with
  | (Ok a, r') => wf_reader r' /\ position r < position r'
      /\ buffer r' = buffer r /\ exists op, a = visit op /\ op_wf (features r) op
  | (Err e, r') => wf_reader r' /\ operator_error r e
  | (Panic, _) => False
  end.
Proof.
  intros Hwf. pose proof (visit_operator_outcome r simd_visitor visit Hwf) as H.
  destruct (visit_operator simd_visitor visit r) as [[a|e|] r']; [|tauto|done].
  destruct H as (op & k & -> & Hop & Hk & ->). split; [apply wf_advance; [done|lia]|].
  split; [unfold advance; simpl; lia|]. split; [done|]. by exists op.
Qed.

Lemma visit_operator_safe_witness :
  let r := BinaryReader_new [0x1c; 0x02; 0x7f; 0x7f] 1000 in
  wf_reader r /\ (read_operator r).1 = Err (err_new (lit "invalid result arity") 2)
  /\ operator_error r (err_new (lit "invalid result arity") 2).
Proof.
  intros r. assert (Hwf : wf_reader r) by wf_concrete.
  split; [exact Hwf|]. split; [vm_compute; reflexivity|].
  exact (proj2 (visit_operator_safe r true id Hwf)).
Defined.

(** The arity error of a typed [select] is reported at the position in the
    reader's buffer: whenever the reader does not start at offset zero of its
    file, the reported offset is too small by the reader's original offset. *)
Theorem typed_select_offset r n rest :
  wf_reader r -> n <> 1 -> in_u 32 n ->
  remaining_buffer r = 0x1c :: write_unsigned (Leb128 := ref_leb128) n ++ rest ->
  exists e r', read_operator r = (Err e, r')
    /\ offset e = original_position r' - original_offset r.
Proof.
  intros Hwf Hn Hin E. unfold read_operator, visit_operator, mbind, ST_bind, gets.
  rewrite (read_u8_cons r 0x1c (write_unsigned n ++ rest)) by (done || apply Hwf).
  cbv iota. destruct (wf_advance_cons r _ _ Hwf E) as [Hwf' _].
  rewrite (reads_var_u32 (features r) n Hin (advance 1 r) rest Hwf' eq_refl).
  2: { rewrite remaining_advance by apply Hwf. rewrite E. done. }
  rewrite (proj2 (Z.eqb_neq n 1)) by done. eexists _, _. split; [done|].
  cbn [offset err_new err_new_kind]. unfold original_position. simpl. lia.
Qed.

Lemma typed_select_offset_witness :
  let r := BinaryReader_new [0x1c; 0x02; 0x7f; 0x7f] 1000 in
  exists e r', read_operator r = (Err e, r')
    /\ offset e = original_position r' - original_offset r.
Proof.
  intros r. apply (typed_select_offset r 2 [0x7f; 0x7f]).
  - wf_concrete.
  - lia.
  - apply (bool_decide_unpack (in_u 32 2)). vm_compute. exact I.
  - vm_compute. reflexivity.
Defined.

(** A decoded [br_table] has the targets it announces: collecting
    [targets()] yields exactly [len()] numbers, and never the "trailing data"
    error of the iterator. *)
Theorem br_table_targets_complete r t r' :
  wf_reader r -> read_operator r = (Ok (Op.BrTable t : Op.Operator), r') ->
  exists ls, br_table_targets t = Ok ls /\ Z.of_nat (length ls) = cnt t
    /\ cnt t <= MAX_WASM_BR_TABLE_SIZE /\ Forall (in_u 32) ls.
Proof.
  intros Hwf Hr. pose proof (visit_operator_outcome r true id Hwf) as H.
  unfold read_operator in Hr. rewrite Hr in H.
  destruct H as (op & k & E & Hop & _). change (id op) with op in E. subst op.
  destruct Hop as (Hcnt & _ & ls & Hls & Hin & Hlen).
  exists ls. split; [done|]. split; [done|]. split; [lia|done].
Qed.

Lemma br_table_targets_complete_witness :
  let r := BinaryReader_new [0x0e; 0x02; 0x81; 0x00; 0x02; 0x00] 0 in
  let t := mkBrTable (mkReader [0x81; 0x00; 0x02] 0 2 WasmFeatures_all) 2 0 in
  br_table_targets t = Ok [1; 2]
  /\ exists ls, br_table_targets t = Ok ls /\ Z.of_nat (length ls) = cnt t
       /\ cnt t <= MAX_WASM_BR_TABLE_SIZE /\ Forall (in_u 32) ls.
Proof.
  intros r t. split; [vm_compute; reflexivity|].
  apply (br_table_targets_complete r t (advance 6 r)).
  - wf_concrete.
  - vm_compute. reflexivity.
Defined.

(** ** Constant expressions *)

(** [skip_const_expr] terminates on arbitrary bytes: it stops right after
    the first [end] operator, or with the first error of the decoder. *)
Theorem skip_const_expr_terminates r :
  wf_reader r ->
  match skip_const_expr r with
  | (Ok tt, r') => exists ops, decodes r (ops ++ [Op.End : Op.Operator]) r'
      /\ (Op.End : Op.Operator) ∉ ops
  | (Err e, _) => exists ops r1, decodes r ops r1 /\ operator_error r1 e
  | (Panic, _) => False
  end.
Proof. intros Hwf. apply skip_const_expr_loop_ok; [done|lia]. Qed.

Lemma skip_const_expr_terminates_witness :
  let r := BinaryReader_new [0x41; 0x2a; 0x0b; 0x0b] 0 in
  skip_const_expr r = (Ok tt, advance 3 r)
  /\ exists ops, decodes r (ops ++ [Op.End : Op.Operator]) (advance 3 r)
       /\ (Op.End : Op.Operator) ∉ ops.
Proof.
  intros r. split; [vm_compute; reflexivity|].
  exact (skip_const_expr_terminates r ltac:(wf_concrete)).
Defined.

(** ** Round trips *)

(** Every well-formed operator, of all 618 and under every set of features,
    translates to an instruction of wasm-encoder whose encoding does not panic
    and which wasmparser decodes, consuming exactly the bytes written, to the
    same operator (a branch table is the same when its targets are). *)
Theorem operator_roundtrip {L : Leb128} {LS : Leb128Spec L} f op :
  op_wf f op ->
  exists i bs, instruction op = ROk i /\ Instr.encode_instruction i = Some bs
    /\ reads_ex f read_operator bs (op_equiv op).
Proof. apply (operator_roundtrip_ex f op). Qed.

Lemma operator_roundtrip_witness :
  Leb128Spec ref_leb128
  /\ exists i bs, instruction (Op.V128Store8Lane (mkMemArg 0 0 16 3) 7) = ROk i
       /\ Instr.encode_instruction i = Some bs
       /\ reads_ex WasmFeatures_all read_operator bs
            (op_equiv (Op.V128Store8Lane (mkMemArg 0 0 16 3) 7)).
Proof.
  split; [exact ref_leb128_spec|]. apply (operator_roundtrip (LS := ref_leb128_spec)).
  simpl. unfold memarg_wf, lane_wf. simpl.
  repeat split; vm_compute; (reflexivity || discriminate).
Defined.

(** C6. Re-encoding is faithful: whatever operator wasmparser decodes from
    arbitrary bytes, [Reencode] translates it, wasm-encoder encodes it without
    panicking, and the encoding decodes to the same operator under the same
    features.  Overlong integers are normalised on the way. *)
Theorem reencode_decoded_operator {L : Leb128} {LS : Leb128Spec L} r op r1 :
  wf_reader r -> read_operator r = (Ok op, r1) ->
  exists i bs, instruction op = ROk i /\ Instr.encode_instruction i = Some bs
    /\ forall r2 rest, wf_reader r2 -> features r2 = features r ->
         remaining_buffer r2 = bs ++ rest ->
         exists op', read_operator r2 = (Ok op', advance (length bs) r2) /\ op_equiv op op'.
Proof.
  intros Hwf Hr. pose proof (visit_operator_outcome r true id Hwf) as H.
  unfold read_operator in Hr. rewrite Hr in H. destruct H as (op' & k & -> & Hop & _).
  destruct (operator_roundtrip_ex (features r) (id op') Hop) as (i & bs & Ei & Eb & Hrd).
  exists i, bs. split; [done|]. split; [done|]. exact Hrd.
Qed.

Lemma reencode_decoded_operator_witness :
  let r := BinaryReader_new [0x28; 0x82; 0x00; 0x80; 0x01] 0 in
  Leb128Spec ref_leb128
  /\ exists i bs, instruction (Op.I32Load (mkMemArg 2 2 128 0)) = ROk i
       /\ Instr.encode_instruction i = Some bs
       /\ forall r2 rest, wf_reader r2 -> features r2 = features r ->
            remaining_buffer r2 = bs ++ rest ->
            exists op', read_operator r2 = (Ok op', advance (length bs) r2)
              /\ op_equiv (Op.I32Load (mkMemArg 2 2 128 0)) op'.
Proof.
  intros r. split; [exact ref_leb128_spec|].
  apply (reencode_decoded_operator (LS := ref_leb128_spec) r _ (advance 5 r)).
  - wf_concrete.
  - vm_compute. reflexivity.
Defined.
