(* ===== verification/SectionTheorems.v ===== *)
(** Theorems about sections and their items. *)

From Stdlib Require Import ZArith Lia String.
From stdpp Require Import prelude.
From S2P Require Import Prelude Leb128 BinaryReader BinaryReaderSpec ReaderLogic Encode Types TypesSpec.
From S2P Require Import EncTypes Operands Operators OperatorReader Instructions Reencode OperandSpec.
From S2P Require Import OperandRoundtrip OperatorSpec InstrRoundtrip SectionReader CompositeTypes Items.
From S2P Require Import EncSections ReencodeSections Locality FunctionSpec CompositeSpec SectionSpec ItemSpec.
From S2P Require Import SectionItems ReaderTheorems.

Local Open Scope Z_scope.

(** ** Re-encoded sections *)

(** Translating [sec] item by item succeeds exactly when its items can be read,
    and fails with the reader's error otherwise; the new section holds as many
    items, can be encoded unless it is too long for its size field, and reads
    back to equivalent items. *)
Definition section_reencoded (A : Type) `{FromReader A} {L : Leb128} (f : WasmFeatures)
  (parse : SectionBuilder -> SectionLimited -> outcome SectionBuilder)
  (equiv : A -> A -> Prop) (sec : SectionLimited) : Prop :=
  match section_collect (A := A) sec with
  | Ok xs => exists s, parse SectionBuilder_new sec = ROk s
      /\ num_added s = Z.of_nat (length xs)
      /\ (encode_builder s = None -> 2 ^ 32 <= Z.of_nat (length (bytes s)) + 5)
      /\ forall bs, encode_builder s = Some bs ->
         reads_ex f (read_section A) bs (Forall2 equiv xs)
  | Err e => parse SectionBuilder_new sec = RErr (ParseError e)
  | Panic => False
  end.

Lemma items_check_checked {A} `{SectionItem A} (xs : list A) :
  (forall x, item_check x = Ok tt) -> items_check xs = Ok tt.
Proof. intros Hc. induction xs as [|x xs IH]; [done|]. simpl. by rewrite Hc. Qed.

Lemma eager_section_reencoded {A} `{SectionItemLaws A} {L : Leb128} {LS : Leb128Spec L} r sec :
  (forall x : A, item_check x = Ok tt) -> (forall x : A, item_fits x) ->
  wf_reader r -> section_new r = Ok sec ->
  section_reencoded A (features r) (fun s sec => for_each parse_item sec s) item_equiv sec.
Proof.
  intros Hc Hfits Hwf Hsec.
  destruct (reencode_section (A := A) r sec Hwf Hsec) as (xs & st & Ecol & Hst).
  unfold section_reencoded. rewrite Ecol, (items_check_checked xs Hc) in *.
  assert (Hfs : Forall item_fits xs) by by apply Forall_true.
  destruct st as [u|e|]; [|by apply Hst|done].
  destruct Hst as (Hok & Hback). destruct (Hok Hfs) as [s Hs]. exists s.
  split; [done|]. by apply Hback.
Qed.

(** C33. Re-encoding the sections of a module.  For each of the ten kinds of
    section below and any section content [r], translating the section succeeds
    exactly when all its items can be read, with the same number of items, and
    the encoded section is read back as equivalent items (equal types, imports,
    exports, limits and indices; constant expressions with equivalent
    operators); otherwise the error of the first unreadable item is returned.
    There is no panic, except when the new section does not fit in 32 bits. *)
Theorem reencode_sections {L : Leb128} {LS : Leb128Spec L} r sec :
  wf_reader r -> section_new r = Ok sec ->
  let f := features r in
  section_reencoded RecGroup f parse_type_section rec_group_equiv sec
  /\ section_reencoded Import f parse_import_section eq sec
  /\ section_reencoded Z f parse_function_section eq sec
  /\ section_reencoded Table f parse_table_section table_equiv sec
  /\ section_reencoded MemoryType f parse_memory_section eq sec
  /\ section_reencoded TagType f parse_tag_section eq sec
  /\ section_reencoded Global f parse_global_section global_equiv sec
  /\ section_reencoded Export f parse_export_section eq sec
  /\ section_reencoded Element f parse_element_section element_equiv sec
  /\ section_reencoded Data f parse_data_section data_equiv sec.
Proof.
  intros Hwf Hsec f. unfold f. clear f.
  split; [exact (eager_section_reencoded (A := RecGroup) r sec ltac:(done) ltac:(done) Hwf Hsec)|].
  split; [exact (eager_section_reencoded (A := Import) r sec ltac:(done) ltac:(done) Hwf Hsec)|].
  split; [exact (eager_section_reencoded (A := Z) r sec ltac:(done) ltac:(done) Hwf Hsec)|].
  split; [exact (eager_section_reencoded (A := Table) r sec ltac:(done) ltac:(done) Hwf Hsec)|].
  split; [exact (eager_section_reencoded (A := MemoryType) r sec ltac:(done) ltac:(done) Hwf Hsec)|].
  split; [exact (eager_section_reencoded (A := TagType) r sec ltac:(done) ltac:(done) Hwf Hsec)|].
  split; [exact (eager_section_reencoded (A := Global) r sec ltac:(done) ltac:(done) Hwf Hsec)|].
  split; [exact (eager_section_reencoded (A := Export) r sec ltac:(done) ltac:(done) Hwf Hsec)|].
  split; [exact (eager_section_reencoded (A := Element) r sec ltac:(done) ltac:(done) Hwf Hsec)|].
  exact (eager_section_reencoded (A := Data) r sec ltac:(done) ltac:(done) Hwf Hsec).
Qed.

(** Two data segments: an active one, whose memory index takes two bytes, and a
    passive one. *)
Lemma reencode_sections_witness :
  let r := BinaryReader_new [0x02; 0x02; 0x80; 0x00; 0x41; 0x08; 0x0b; 0x01; 0xaa; 0x01; 0x00] 0 in
  Leb128Spec ref_leb128
  /\ exists sec, section_new r = Ok sec
    /\ section_reencoded (L := ref_leb128) Data (features r) parse_data_section data_equiv sec
    /\ match parse_data_section (L := ref_leb128) SectionBuilder_new sec with
       | ROk s => encode_builder (L := ref_leb128) s
                  = Some [0x09; 0x02; 0x00; 0x41; 0x08; 0x0b; 0x01; 0xaa; 0x01; 0x00]
       | _ => False
       end.
Proof.
  intros r. split; [exact ref_leb128_spec|]. assert (Hwf : wf_reader r) by wf_concrete.
  eexists. split; [vm_compute; reflexivity|]. split; [|vm_compute; reflexivity].
  pose proof (reencode_sections (LS := ref_leb128_spec) r _ Hwf ltac:(vm_compute; reflexivity)) as H.
  apply H.
Defined.

(** C34. Re-encoding the code section.  When the bodies of a code section can be
    delimited, translating it returns the first error found in a body, if there
    is one; otherwise it yields a section with as many bodies which, encoded, is
    read back as bodies with the same locals and equivalent operators.  It can
    only panic when a new body has more than 4 GiB. *)
Theorem reencode_code_section {L : Leb128} {LS : Leb128Spec L} r sec bodies :
  wf_reader r -> section_new r = Ok sec -> section_collect sec = Ok bodies ->
  match items_check bodies with
  | Ok _ =>
      (Forall body_fits bodies ->
         exists s, parse_code_section SectionBuilder_new sec = ROk s)
      /\ forall s, parse_code_section SectionBuilder_new sec = ROk s ->
         num_added s = Z.of_nat (length bodies)
         /\ forall bs, encode_builder s = Some bs ->
            reads_ex (features r) (read_section FunctionBody) bs
              (Forall2 function_body_equiv bodies)
  | Err e =>
      Forall body_fits bodies ->
      parse_code_section SectionBuilder_new sec = RErr (ParseError e)
  | Panic => False
  end.
Proof.
  intros Hwf Hsec Hcol.
  destruct (reencode_section (A := FunctionBody) r sec Hwf Hsec) as (xs & st & Ecol & Hst).
  rewrite Hcol in Ecol. destruct st as [u|e|]; [|done..]. injection Ecol as <-.
  destruct (items_check bodies) as [u'|e|]; [|exact Hst|done].
  destruct Hst as [Hok Hback]. split; [exact Hok|]. intros s Hs.
  destruct (Hback s Hs) as (Hn & _ & Hr). by split.
Qed.

(** Two bodies: one with two groups of locals, and an empty one. *)
Definition code_example : list Z :=
  [0x02; 0x08; 0x02; 0x01; 0x7f; 0x02; 0x7e; 0x20; 0x00; 0x0b; 0x02; 0x00; 0x0b].

Lemma reencode_code_section_witness :
  let r := BinaryReader_new code_example 0 in
  Leb128Spec ref_leb128
  /\ exists sec bodies, section_new r = Ok sec /\ section_collect sec = Ok bodies
    /\ items_check (H0 := FunctionBody_item (L := ref_leb128)) bodies = Ok tt
    /\ forall s, parse_code_section (L := ref_leb128) SectionBuilder_new sec = ROk s ->
         num_added s = Z.of_nat (length bodies)
         /\ forall bs, encode_builder (L := ref_leb128) s = Some bs ->
            reads_ex (features r) (read_section FunctionBody) bs
              (Forall2 function_body_equiv bodies).
Proof.
  intros r. split; [exact ref_leb128_spec|]. assert (Hwf : wf_reader r) by wf_concrete.
  assert (exists sec bodies, section_new r = Ok sec /\ section_collect sec = Ok bodies
    /\ items_check (H0 := FunctionBody_item (L := ref_leb128)) bodies = Ok tt)
    as (sec & bodies & Hsec & Hcol & Hck).
  { eexists _, _. repeat split; vm_compute; reflexivity. }
  exists sec, bodies. do 3 (split; [assumption|]).
  pose proof (reencode_code_section (LS := ref_leb128_spec) r sec bodies Hwf Hsec Hcol) as H.
  rewrite Hck in H. apply H.
Defined.

(** ** Reading sections *)

(** Iterating over a section is reading its announced number of items and
    then checking that nothing is left: [collect] returns the items, or the
    first error, or the error for trailing data; a loop over the section runs
    its body on the items in order, stops at the first error of the body, and
    reports a reading error only after the bodies of the items before it.  The
    fuel of the two loops is never exhausted. *)
Theorem section_iteration {A S} `{FromReader A} (body : A -> S -> outcome S) r n s :
  0 <= n ->
  section_collect (A := A) (mkSection r n)
  = match read_n (Z.to_nat n) r with
    | (Ok xs, r') => if eof r' then Ok xs else Err (trailing_data_error r')
    | (Err e, _) => Err e
    | (Panic, _) => Panic
    end
  /\ for_each body (mkSection r n) s
     = (let (xs, st) := section_items (Z.to_nat n) r in
        s' ← fold_outcome body xs s; from_result st;; ROk s').
Proof.
  intros Hn. split; [|by apply for_each_items]. rewrite section_collect_items by done.
  generalize (Z.to_nat n). clear Hn. intros k. revert r.
  induction k as [|k IH]; intros r; cbn [read_n section_items]; [cbn [mret ST_ret]; by destruct (eof r)|].
  rewrite ST_bind_eq. destruct (read r) as [[x|e|] r1]; [|done..]. rewrite ST_bind_eq.
  specialize (IH r1). destruct (section_items k r1) as [xs st].
  destruct (read_n k r1) as [[ys|e|] r2]; destruct st as [[]|e'|]; try done;
    cbn [mret ST_ret]; destruct (eof r2); congruence.
Qed.

Lemma section_iteration_witness :
  section_collect (A := Z) (mkSection (BinaryReader_new [5; 7; 9] 0) 2)
  = Err (trailing_data_error (advance 2 (BinaryReader_new [5; 7; 9] 0)))
  /\ for_each (fun (x acc : Z) => ROk (acc + x)) (mkSection (BinaryReader_new [5; 7] 0) 2) 0
     = ROk 12.
Proof.
  pose proof (section_iteration (A := Z) (fun (x acc : Z) => ROk (acc + x))) as H. split.
  - rewrite (proj1 (H (BinaryReader_new [5; 7; 9] 0) 2 0 ltac:(lia))). vm_compute. reflexivity.
  - rewrite (proj2 (H (BinaryReader_new [5; 7] 0) 2 0 ltac:(lia))). vm_compute. reflexivity.
Defined.

(** Reading an item is safe: it returns a well-formed item after moving forward,
    or an error. *)
Definition read_safe (A : Type) `{SectionItem A} (r : BinaryReader) : Prop :=
  match read (A := A) r with
  | (Ok x, r') => item_wf (features r) x /\ wf_reader r' /\ position r < position r'
  | (Err e, r') => (err_in_range r e \/ arity_error e) /\ wf_reader r'
  | (Panic, _) => False
  end.

Lemma read_item_safe {A} `{SectionItemLaws A} r : wf_reader r -> read_safe A r.
Proof.
  intros Hwf. unfold read_safe.
  assert (Henv : wp_env (fun e => err_in_range r e \/ arity_error e) r).
  { split; [done|by left|]. intros m e Hk [He|[_ Hc]]; [by left|congruence]. }
  destruct (item_read _ r 0 (fun a k => item_wf (features r) a /\ (0 < k)%nat) Henv
    ltac:(by right) ltac:(done) ltac:(lia)) as (k & Hk & E & Hm). rewrite advance_0 in *.
  pose proof (wf_advance k r Hwf ltac:(lia)) as Hwf'.
  destruct (read r) as [[x|e|] r1]; simpl in *; subst; [|done..].
  destruct Hm as [Hx Hk0]. split; [done|]. split; [done|]. simpl. lia.
Qed.

(** C35. The items of every section are read safely: from any reader each
    [from_reader] returns an item that is well formed and moves forward, or an
    error that is located in the buffer (the arity error of a typed [select]
    in a constant expression apart); none panics or reads past the end. *)
Theorem section_items_safe {L : Leb128} {LS : Leb128Spec L} r :
  wf_reader r ->
  read_safe RecGroup r /\ read_safe Import r /\ read_safe Z r /\ read_safe Table r
  /\ read_safe MemoryType r /\ read_safe TagType r /\ read_safe Global r /\ read_safe Export r
  /\ read_safe Element r /\ read_safe Data r /\ read_safe FunctionBody r.
Proof. intros Hwf. do 10 (split; [by apply read_item_safe|]). by apply read_item_safe. Qed.

Lemma section_items_safe_witness :
  let r := BinaryReader_new [0x60; 0x01] 0 in
  Leb128Spec ref_leb128 /\ wf_reader r
  /\ read_safe (H0 := RecGroup_item (L := ref_leb128)) RecGroup r.
Proof.
  intros r. split; [exact ref_leb128_spec|]. assert (Hwf : wf_reader r) by wf_concrete.
  split; [exact Hwf|]. exact (proj1 (section_items_safe (LS := ref_leb128_spec) r Hwf)).
Defined.

(** Decoding is local: an operator that was decoded depends only on its own
    bytes, on the enabled features and on its offset in the file.  Any other
    reader at the same offset whose buffer starts with those bytes decodes the
    same operator, whatever follows and however the buffer is cut. *)
Theorem operator_locality r op r' :
  wf_reader r -> read_operator r = (Ok op, r') ->
  exists bs, (0 < length bs)%nat
    /\ remaining_buffer r = bs ++ remaining_buffer r' /\ r' = advance (length bs) r
    /\ forall r2 rest, wf_reader r2 -> features r2 = features r ->
       original_position r2 = original_position r -> remaining_buffer r2 = bs ++ rest ->
       read_operator r2 = (Ok op, advance (length bs) r2).
Proof.
  intros Hwf Hr. destruct (local_operator r op r' Hwf Hr) as (bs & Hl & E & Ha & H).
  exists bs. do 3 (split; [done|]). intros r2 rest Hwf2 Hf Hp E2. by apply (H r2 rest).
Qed.

(** [i32.const 1] in the middle of a buffer, and in another one. *)
Lemma operator_locality_witness :
  let r := advance 1 (BinaryReader_new [0x01; 0x41; 0x01; 0x0b] 0) in
  exists op, read_operator r = (Ok op, advance 2 r)
    /\ exists bs, (0 < length bs)%nat
       /\ remaining_buffer r = bs ++ remaining_buffer (advance 2 r)
       /\ advance 2 r = advance (length bs) r
       /\ forall r2 rest, wf_reader r2 -> features r2 = features r ->
          original_position r2 = original_position r -> remaining_buffer r2 = bs ++ rest ->
          read_operator r2 = (Ok op, advance (length bs) r2).
Proof.
  intros r. assert (Hwf : wf_reader r).
  { apply wf_advance; [wf_concrete|vm_compute; repeat constructor]. }
  eexists. split; [vm_compute; reflexivity|].
  apply (operator_locality r _ _ Hwf). vm_compute. reflexivity.
Defined.

(** ** Groups of locals *)

Definition expand_locals (groups : list (Z * WE.ValType)) : list WE.ValType :=
  concat (map (fun g => repeat g.2 (Z.to_nat g.1)) groups).

(** No two neighbouring groups have the same type. *)
Fixpoint groups_maximal (groups : list (Z * WE.ValType)) : Prop :=
  match groups with
  | g1 :: (g2 :: _) as rest => g1.2 <> g2.2 /\ groups_maximal rest
  | _ => True
  end.

Lemma groups_maximal_snoc gs g1 g2 :
  groups_maximal (gs ++ [g1]) -> g1.2 <> g2.2 -> groups_maximal (gs ++ [g1; g2]).
Proof.
  induction gs as [|g gs IH]; [done|]. intros Hm Hne. destruct gs as [|g' gs]; simpl in *; tauto.
Qed.

Lemma groups_maximal_last gs g1 g1' :
  groups_maximal (gs ++ [g1]) -> g1.2 = g1'.2 -> groups_maximal (gs ++ [g1']).
Proof.
  induction gs as [|g gs IH]; [done|]. intros Hm He. destruct gs as [|g' gs]; simpl in *.
  - by rewrite <- He.
  - split; [tauto|]. apply IH; tauto.
Qed.

Lemma expand_locals_app gs gs' : expand_locals (gs ++ gs') = expand_locals gs ++ expand_locals gs'.
Proof. unfold expand_locals. by rewrite map_app, concat_app. Qed.

Lemma repeat_snoc {A} (x : A) n : repeat x (S n) = repeat x n ++ [x].
Proof. induction n as [|n IH]; [done|]. simpl in *. by rewrite <- IH. Qed.

Lemma collect_locals_ok ls acc :
  groups_maximal (rev acc) ->
  Forall (fun g => 0 < g.1 /\ g.1 + Z.of_nat (length ls) < 2 ^ 32) acc ->
  Z.of_nat (length ls) < 2 ^ 32 ->
  exists gs, WS.collect_locals ls acc = Some gs
    /\ expand_locals gs = expand_locals (rev acc) ++ ls
    /\ groups_maximal gs /\ Forall (fun g => 0 < g.1 < 2 ^ 32) gs.
Proof.
  revert acc. induction ls as [|l ls IH]; intros acc Hm Hacc Hl; cbn [WS.collect_locals].
  - exists (rev acc). rewrite app_nil_r. split; [done|]. split; [done|]. split; [done|].
    apply Forall_rev. eapply Forall_impl; [exact Hacc|]. simpl. intros; lia.
  - cbn [length] in *. rewrite Nat2Z.inj_succ in *.
    assert (Hw : Forall (fun g => 0 < g.1 /\ g.1 + Z.of_nat (length ls) < 2 ^ 32) acc).
    { eapply Forall_impl; [exact Hacc|]. simpl. intros; lia. }
    destruct acc as [|[n t] acc].
    { destruct (IH [(1, l)]) as (gs & E & Ex & Hg); [done| |lia|].
      { constructor; [simpl; lia|done]. }
      exists gs. split; [done|]. split; [|done]. by rewrite Ex. }
    apply Forall_cons in Hacc as [[Hn0 Hn] _]. cbn [fst] in *.
    cbn [rev] in *. destruct (decide (l = t)) as [->|Hne].
    + destruct (Z.eqb_spec n (2 ^ 32 - 1)); [lia|]. apply Forall_cons in Hw as [_ Hw].
      destruct (IH ((n + 1, t) :: acc)) as (gs & E & Ex & Hg).
      * by apply (groups_maximal_last _ (n, t)).
      * constructor; [simpl; lia|done].
      * lia.
      * exists gs. split; [done|]. split; [|done]. rewrite Ex. cbn [rev].
        rewrite !expand_locals_app, <- !app_assoc. f_equal. unfold expand_locals. simpl.
        rewrite !app_nil_r. replace (Z.to_nat (n + 1)) with (S (Z.to_nat n)) by lia.
        by rewrite repeat_snoc, <- app_assoc.
    + destruct (IH ((1, l) :: (n, t) :: acc)) as (gs & E & Ex & Hg).
      * cbn [rev]. rewrite <- app_assoc. apply groups_maximal_snoc; [done|]. simpl. congruence.
      * constructor; [simpl; lia|done].
      * lia.
      * exists gs. split; [done|]. split; [|done]. rewrite Ex. cbn [rev].
        by rewrite !expand_locals_app, <- !app_assoc.
Qed.

(** [Function::new_with_locals_types] groups the locals: for fewer than 2^32
    locals it does not overflow, the groups it encodes expand to exactly the
    given types in order, no group is empty, and two neighbouring groups have
    different types, so the declaration is as short as it can be. *)
Theorem new_with_locals_types_groups {L : Leb128} (locals : list WE.ValType) :
  Z.of_nat (length locals) < 2 ^ 32 ->
  exists groups, WS.new_with_locals_types locals = WS.Function_new groups
    /\ expand_locals groups = locals /\ groups_maximal groups
    /\ Forall (fun g => 0 < g.1 < 2 ^ 32) groups.
Proof.
  intros Hl. destruct (collect_locals_ok locals [] I (Forall_nil_2 _) Hl) as (gs & E & H).
  exists gs. split; [|exact H]. unfold WS.new_with_locals_types. by rewrite E.
Qed.

Lemma new_with_locals_types_groups_witness :
  exists groups, WS.new_with_locals_types (L := ref_leb128) [WE.I32; WE.I32; WE.I64; WE.I32]
      = WS.Function_new (L := ref_leb128) groups
    /\ expand_locals groups = [WE.I32; WE.I32; WE.I64; WE.I32] /\ groups_maximal groups
    /\ Forall (fun g => 0 < g.1 < 2 ^ 32) groups.
Proof. apply (new_with_locals_types_groups (L := ref_leb128)). vm_compute. reflexivity. Defined.
