(* ===== verification/ModuleTheorems.v ===== *)
(** The parser, [crates/wasmparser/src/parser.rs], and the translation of whole modules
    and of their names: their properties. *)

From Stdlib Require Import ZArith Lia String.
From stdpp Require Import prelude.
From S2P Require Import Prelude Leb128 BinaryReader BinaryReaderSpec ReaderLogic Encode Types EncTypes Operands.
From S2P Require Import Operators OperatorReader Instructions Reencode OperandSpec OperandRoundtrip.
From S2P Require Import InstrRoundtrip SectionReader CompositeTypes Items EncSections ReencodeSections Locality.
From S2P Require Import FunctionSpec CompositeSpec SectionSpec ItemSpec SectionItems Parser ParserSpec.
From S2P Require Import ParserStable Names NameSpec ReencodeModule ModuleSpec ModuleRoundtrip ReaderTheorems.

Local Open Scope Z_scope.

(** A module with an empty type section and a code section with one function. *)
Definition sample_header : list Z := [0x00; 0x61; 0x73; 0x6d; 0x01; 0x00; 0x00; 0x00].
Definition sample_code : list Z := [0x0a; 0x04; 0x01; 0x02; 0x00; 0x0b].
Definition sample_module : list Z := sample_header ++ [0x01; 0x01; 0x00] ++ sample_code.

(** The parser of [sample_module] at its code section's functions. *)
Definition sample_parser : Parser :=
  mkParser (InFunctionBody 1 3) 14 (u64_MAX - 14) EModule WasmFeatures_all.

(** Byte lists given explicitly. *)
Ltac bytes := repeat (constructor; [unfold is_byte; lia|]); constructor.

Lemma sample_parser_wf : wf_parser sample_parser.
Proof. split; unfold sample_parser, u64_MAX, in_u; cbn; (lia || unfold in_u; lia). Qed.

Lemma sample_bytes : Forall is_byte sample_module.
Proof. bytes. Qed.

(** ** The invariant *)

(** C9. [parse] preserves the parser's invariant on any input and never
    panics, so none of its [u64] additions and subtractions overflows.  A
    payload takes at most the bytes given, at least one unless it is [End]; the
    parser then stands after it, and the parser of a nested module satisfies
    the invariant and owns exactly the bytes that the outer parser skips.  [End]
    is only reported where the parser's input is exhausted and complete; more
    data, at least one byte of it, is only asked for before the end of the
    input; an error lies within the bytes given. *)
Theorem parse_invariant p data is_eof :
  wf_parser p -> Forall is_byte data ->
  match parse p data is_eof with
  | (Ok (Parsed consumed pl), p') =>
      wf_parser p' /\ 0 <= consumed <= Z.of_nat (length data)
      /\ p_offset p' = p_offset p + consumed + nested_size pl
      /\ p_offset p' + p_max_size p' = p_offset p + p_max_size p
      /\ (if is_end pl then consumed = 0 /\ limit_data p data is_eof = ([], true) else 0 < consumed)
      /\ (forall np, nested_parser pl = Some np ->
            wf_parser np /\ p_offset np = p_offset p + consumed
            /\ p_offset np + p_max_size np = p_offset p')
  | (Ok (NeedMoreData hint), p') => wf_parser p' /\ is_eof = false /\ 0 < hint
  | (Err e, p') => wf_parser p' /\ p_offset p <= offset e <= p_offset p + Z.of_nat (length data)
  | (Panic, _) => False
  end.
Proof.
  intros Hp Hb. pose proof (parse_ok p data is_eof Hp Hb) as Hok.
  destruct (parse p data is_eof) as [[[h|c pl]|e|] p'] eqn:Ep; cbn [fst snd parse_post] in Hok.
  - destruct Hok as (He & _ & ->). split_and!; [by apply resume_wf|done|by eapply parse_hint].
  - destruct Hok as (k & p1 & -> & Hk & Hok & -> & Hend).
    pose proof (payload_ok_wf p pl p1 k Hp Hok) as Hw. pose proof (nested_wf p pl p1 k) as Hn.
    destruct (Hok) as [Hf Ho Hm _ _ Hpr Hnp _].
    split_and!; [done|lia|lia|cbn; lia|cbn; lia| |].
    + destruct (is_end pl); [|lia]. split; [lia|by apply Hend].
    + intros np E. destruct (Hnp np E) as [-> _]. split; [by apply (Hn _ Hp Hok)|]. cbn. lia.
  - destruct Hok as [He ->]. split; [by apply resume_wf|done].
  - done.
Qed.

Lemma parse_invariant_witness :
  wf_parser (Parser_new 0) /\ Forall is_byte sample_module
  /\ (exists p', parse (Parser_new 0) sample_module false = (Ok (Parsed 8 (Version 1 EModule (0, 8))), p')
        /\ wf_parser p').
Proof.
  split; [exact wf_parser_new|]. split; [exact sample_bytes|].
  pose proof (parse_invariant (Parser_new 0) sample_module false wf_parser_new sample_bytes) as H.
  eexists. split; [vm_compute; reflexivity|]. exact (proj1 H).
Defined.

(** ** Incremental parsing *)

(** Parsing is settled by the bytes that are there: when [parse] on a part
    of the input reports a payload or an error, it reports the same payload or
    error, with the same number of bytes and the same parser afterwards, on that
    part followed by any other bytes, whether or not they are the last ones. *)
Theorem parse_prefix p data more is_eof x p' :
  wf_parser p -> Forall is_byte (data ++ more) ->
  parse p data false = (x, p') -> needs_more x = false ->
  parse p (data ++ more) is_eof = (x, p').
Proof. intros Hp Hb E Hx. rewrite <- E. apply parse_more; [done..|]. by rewrite E. Qed.

Lemma parse_prefix_witness :
  exists p', parse (Parser_new 0) sample_header false = (Ok (Parsed 8 (Version 1 EModule (0, 8))), p')
    /\ parse (Parser_new 0) (sample_header ++ [0xff]) true
       = (Ok (Parsed 8 (Version 1 EModule (0, 8))), p').
Proof.
  eexists. split; [vm_compute; reflexivity|].
  apply (parse_prefix (Parser_new 0) sample_header [0xff] true).
  - exact wf_parser_new.
  - bytes.
  - vm_compute; reflexivity.
  - reflexivity.
Defined.

(** C36. The loop documented for [Parser::parse], which reads a stream as the
    parser asks for data, sees the payloads that [parse_all] yields on the whole
    input, and ends as it does, however the stream is cut into segments and
    however little each [read] returns. *)
Theorem stream_parse_all p input :
  wf_parser p -> Forall is_byte (concat input) -> Forall (fun s => s <> []) input ->
  let n := length (concat input) in
  exists xs, payloads (2 * n + 2) (parse_all p (concat input)) = Some xs
    /\ stream_run (3 * n + 3) (stream p input) = Some xs.
Proof.
  intros Hp Hb Hin n.
  assert (Hwf : wf_all (parse_all p (concat input))) by by split_and!; [|constructor|].
  destruct (payloads_total (2 * n + 2) _ Hwf) as (xs & Hxs & _); [cbn; lia|].
  exists xs. split; [done|]. eapply (stream_payloads _ _ _ _ _ Hwf); [|done|exact Hxs|].
  - split; cbn; [done|by left|done..].
  - cbn. lia.
Qed.

Lemma stream_parse_all_witness :
  exists xs, payloads 36 (parse_all (Parser_new 0) sample_module) = Some xs
    /\ stream_run 54 (stream (Parser_new 0) [take 3 sample_module; drop 3 sample_module]) = Some xs.
Proof.
  apply (stream_parse_all (Parser_new 0) [take 3 sample_module; drop 3 sample_module]).
  - exact wf_parser_new.
  - exact sample_bytes.
  - repeat constructor; discriminate.
Defined.

(** ** Parsing the whole input *)

(** C37. [parse_all] terminates on any input: the iterator yields at most
    [2 * n + 1] items on [n] bytes, none of them after a panic, and the last one
    is the end of the outermost module or component, or the first error. *)
Theorem parse_all_terminates p data :
  wf_parser p -> Forall is_byte data ->
  exists xs, payloads (2 * length data + 2) (parse_all p data) = Some xs
    /\ (length xs <= 2 * length data + 1)%nat /\ ends_well xs.
Proof.
  intros Hp Hb. assert (Hwf : wf_all (parse_all p data)) by by split_and!; [|constructor|].
  destruct (payloads_total (2 * length data + 2) _ Hwf) as (xs & Hxs & Hl & _); [cbn; lia|].
  exists xs. split; [done|]. split; [cbn in Hl; lia|]. by eapply payloads_ends_well.
Qed.

Lemma parse_all_terminates_witness :
  exists xs, payloads 36 (parse_all (Parser_new 0) sample_module) = Some xs
    /\ (length xs <= 35)%nat /\ ends_well xs.
Proof.
  apply (parse_all_terminates (Parser_new 0) sample_module); [exact wf_parser_new|exact sample_bytes].
Defined.

(** ** Skipping the code section *)

(** After [CodeSectionStart], [skip_section] leaves the parser where
    reading all the functions would: when the functions fill the section, both
    resume at the section that follows, after the same number of bytes. *)
Theorem skip_section_entries p data remaining len p' rest :
  wf_parser p -> Forall is_byte data -> p_state p = InFunctionBody remaining len ->
  parse_entries (Z.to_nat remaining) p data = Some (p', rest) -> p_state p' = InFunctionBody 0 0 ->
  skip_section p = Some (resume p') /\ rest = drop (Z.to_nat len) data.
Proof.
  intros Hp Hb Hs Hpe Hs'. pose proof (wfp_state p Hp) as Hw. rewrite Hs in Hw.
  destruct Hw as (Hr & Hl & Hm). unfold in_u in *.
  rewrite <- (Z2Nat.id remaining) in Hs by lia.
  destruct (parse_entries_skip _ len p data p' rest Hp Hb Hs Hpe) as (len' & E & _ & -> & ->).
  cbn in E, Hs'. injection Hs' as ->. rewrite Z.sub_0_r. split; [|done].
  destruct Hp as [H1 H2 H3 _]. unfold skip_section. rewrite Hs.
  destruct (Z.leb_spec (p_offset p + len) u64_MAX); [|lia].
  destruct (Z.leb_spec len (p_max_size p)); [|lia]. cbn. unfold resume, set_state, advance_parser. cbn.
  by rewrite Z2Nat.id by lia.
Qed.

Lemma skip_section_entries_witness :
  exists p', parse_entries 1 sample_parser (drop 3 sample_code) = Some (p', [])
    /\ skip_section sample_parser = Some (resume p').
Proof.
  eexists. split; [vm_compute; reflexivity|].
  apply (skip_section_entries sample_parser (drop 3 sample_code) 1 3 _ []).
  - exact sample_parser_wf.
  - bytes.
  - reflexivity.
  - vm_compute; reflexivity.
  - reflexivity.
Defined.

(** A module with a type, an exported function and its name; the size of the
    type section is not written in the shortest way. *)
Definition named_module : list Z :=
  sample_header ++ [0x01; 0x84; 0x00; 0x01; 0x60; 0x00; 0x00] ++ [0x03; 0x02; 0x01; 0x00]
  ++ [0x07; 0x05; 0x01; 0x01; 0x66; 0x00; 0x00] ++ sample_code
  ++ [0x00; 0x0b; 0x04; 0x6e; 0x61; 0x6d; 0x65; 0x01; 0x04; 0x01; 0x00; 0x01; 0x66].

Lemma named_module_bytes : Forall is_byte named_module.
Proof. bytes. Qed.

(** ** Modules *)

(** C3. Re-encoding a whole core module.  When the round-trip reencoder
    translates a module, the input decodes to a list of sections, the output is
    again a module that parses and decodes, and the two lists agree section by
    section, in order: equal types, imports, exports, indices, names and custom
    sections, constant expressions, segments and bodies with equivalent
    operators.  The header, the framing of every section and the functions of
    the code section are those that [parse_all] reports on the output. *)
Theorem reencode_module {L : Leb128} {LS : Leb128Spec L} data m :
  Forall is_byte data -> Z.of_nat (length data) <= u64_MAX ->
  parse_core_module WS.Module_new (Parser_new 0) data = ROk m ->
  Forall is_byte (WS.module_bytes m) -> Z.of_nat (length (WS.module_bytes m)) <= u64_MAX ->
  exists vs vs', module_view data = ROk vs /\ module_view (WS.module_bytes m) = ROk vs'
    /\ Forall2 ms_equiv vs vs'.
Proof.
  intros Hb Hl Hm Hb' Hl'. destruct (core_module_sections data m Hb Hl Hm) as (vs & bs & Hv & E & Hs).
  rewrite E in *. destruct (sections_module bs vs Hs Hb' Hl') as (vs' & Hv' & Heq). eauto.
Qed.

Lemma reencode_module_witness :
  Leb128Spec ref_leb128 /\ exists m,
    parse_core_module (L := ref_leb128) WS.Module_new (Parser_new 0) named_module = ROk m
    /\ length (WS.module_bytes m) = 44%nat
    /\ exists vs vs', module_view named_module = ROk vs /\ module_view (WS.module_bytes m) = ROk vs'
       /\ Forall2 ms_equiv vs vs'.
Proof.
  split; [exact ref_leb128_spec|]. eexists. split; [vm_compute; reflexivity|]. split; [reflexivity|].
  apply (reencode_module (LS := ref_leb128_spec) named_module).
  - exact named_module_bytes.
  - vm_compute. discriminate.
  - vm_compute. reflexivity.
  - cbn [WS.module_bytes]. bytes.
  - vm_compute. discriminate.
Defined.

(** C38. Re-encoding a module terminates, and it fails only on modules that
    cannot be decoded.  No payload is lost to the bound on the number of
    iterations: any larger bound gives the same result.  When every section of
    the input decodes, and the bodies of its functions too, the translation is
    not an error. *)
Theorem reencode_module_errors {L : Leb128} {LS : Leb128Spec L} data :
  Forall is_byte data -> Z.of_nat (length data) <= u64_MAX ->
  (forall fuel st, (2 * length data + 2 <= fuel)%nat ->
     parse_payloads fuel 0 data (parse_all (Parser_new 0) data) st
     = parse_payloads (2 * length data + 2) 0 data (parse_all (Parser_new 0) data) st)
  /\ (forall vs, module_view data = ROk vs -> Forall section_checked vs ->
      forall e, parse_core_module WS.Module_new (Parser_new 0) data <> RErr e).
Proof.
  intros Hb Hl. pose proof (parse_all_wf data Hb) as Hc. split.
  - intros fuel st Hf. assert (Hm : (all_measure (parse_all (Parser_new 0) data) < 2 * length data + 2)%nat)
      by (unfold all_measure, parse_all; cbn [pa_done pa_stack pa_data length]; lia).
    rewrite (parse_payloads_fuel data fuel) by (apply Hc || lia).
    by rewrite (parse_payloads_fuel data (2 * length data + 2)) by (apply Hc || lia).
  - intros vs Hv Hck. apply no_error_bind; [by eapply views_no_error|]. by intros [m o] _.
Qed.

Lemma reencode_module_errors_witness :
  Leb128Spec ref_leb128
  /\ exists vs, module_view named_module = ROk vs /\ Forall (section_checked (L := ref_leb128)) vs
    /\ forall e, parse_core_module (L := ref_leb128) WS.Module_new (Parser_new 0) named_module <> RErr e.
Proof.
  split; [exact ref_leb128_spec|].
  destruct (reencode_module_errors (LS := ref_leb128_spec) named_module named_module_bytes
    ltac:(vm_compute; discriminate)) as [_ H].
  assert (exists vs, module_view named_module = ROk vs /\ Forall (section_checked (L := ref_leb128)) vs)
    as (vs & Hv & Hc).
  { eexists. split; [vm_compute; reflexivity|]. repeat constructor. }
  exists vs. split; [exact Hv|]. split; [exact Hc|]. exact (H vs Hv Hc).
Defined.

(** ** Names *)

(** Re-encoding the name section.  When the subsections of a name section
    are translated, they can all be read, and a reader at the bytes of the new
    section reads the same subsections: the same kinds in the same order, with
    the same indices and names, and the unknown ones byte by byte. *)
Theorem name_section_roundtrip {L : Leb128} {LS : Leb128Spec L} r names :
  wf_reader r -> custom_name_section r = ROk names ->
  exists vs, names_view (S (length (remaining_buffer r))) r = Ok vs
    /\ forall r', wf_reader r' -> features r' = features r -> remaining_buffer r' = names ->
       names_view (S (length names)) r' = Ok vs.
Proof.
  intros Hwf Hn. destruct (names_written _ r [] names Hwf Hn) as (vs & bs & Hv & -> & Hback).
  exists vs. split; [done|]. intros r' Hwf' Hf E. apply Hback; [done..|]. cbn [app]. lia.
Qed.

(** The name of function 0, and the names of its locals 0 and 1. *)
Definition sample_names : list Z :=
  [0x01; 0x04; 0x01; 0x00; 0x01; 0x66; 0x02; 0x89; 0x00; 0x01; 0x00; 0x02; 0x00; 0x01; 0x61; 0x01; 0x01; 0x62].

Lemma name_section_roundtrip_witness :
  let r := BinaryReader_new sample_names 0 in
  Leb128Spec ref_leb128 /\ wf_reader r
  /\ exists names, custom_name_section (L := ref_leb128) r = ROk names /\ length names = 17%nat
     /\ exists vs, names_view 19 r = Ok vs.
Proof.
  intros r. assert (Hwf : wf_reader r) by wf_concrete.
  split; [exact ref_leb128_spec|]. split; [exact Hwf|].
  eexists. split; [vm_compute; reflexivity|]. split; [reflexivity|].
  destruct (name_section_roundtrip (LS := ref_leb128_spec) r _ Hwf ltac:(vm_compute; reflexivity))
    as (vs & Hv & _).
  exists vs. exact Hv.
Defined.

(** The names of an [IndirectNaming] are limited, those of a [NameMap] are not:
    a name of more than [MAX_WASM_STRING_SIZE] bytes can be read as the name of a
    function, for example, but not as the name of a local, label or field. *)
Lemma long_indirect_name {L : Leb128} {LS : Leb128Spec L} f n bs :
  naming_wf n -> MAX_WASM_STRING_SIZE < Z.of_nat (length (naming_name n)) ->
  encode_u32 (naming_index n) +> encode_str (naming_name n) = Some bs ->
  reads f from_reader_naming bs n
  /\ forall i r rest, wf_reader r -> features r = f -> in_u 32 i ->
     remaining_buffer r = write_unsigned i ++ write_unsigned 1 ++ bs ++ rest ->
     exists e r', from_reader_indirect_naming r = (Err e, r') /\ message e = lit "string size out of bounds".
Proof.
  intros Hn Hl Ebs. split.
  { destruct (er_naming f n Hn) as (bs' & E & Hr). rewrite E in Ebs. by injection Ebs as ->. }
  destruct Hn as (Hi & Hu & Hlen). unfold encode_str, encode_usize in Ebs.
  rewrite (proj2 (Z.leb_le _ _)) in Ebs by lia. injection Ebs as <-.
  intros i r rest Hwf Hf Hin E. unfold from_reader_indirect_naming, skip. rewrite <- !app_assoc in E.
  rewrite ST_bind_eq, (reads_var_u32 f i Hin r _ Hwf Hf E).
  destruct (advance_app _ _ _ Hwf E) as [Hwf1 E1]. rewrite ST_bind_eq, ST_bind_eq. cbn [gets].
  rewrite ST_bind_eq, ST_bind_eq.
  rewrite (reads_var_u32 f 1 ltac:(unfold in_u; lia) _ _ Hwf1 Hf E1).
  destruct (advance_app _ _ _ Hwf1 E1) as [Hwf2 E2]. change (Z.to_nat 1) with 1%nat. cbn [skip_namings].
  rewrite ST_bind_eq, (reads_var_u32 f _ Hi _ _ Hwf2 Hf E2).
  destruct (advance_app _ _ _ Hwf2 E2) as [Hwf3 E3]. unfold skip_string. rewrite ST_bind_eq, ST_bind_eq.
  rewrite (reads_var_u32 f (Z.of_nat (length (naming_name n))) ltac:(unfold in_u; lia) _ _ Hwf3 Hf E3).
  rewrite (proj2 (Z.ltb_lt _ _)) by done. by do 2 eexists.
Qed.
