(* ===== verification/ComponentTheorems.v ===== *)
(** The items of the sections of a component: what wasm-encoder writes for a
    translated item is read back as an equivalent item, and the theorem about
    re-encoding the sections of a component. *)

From Stdlib Require Import ZArith Lia String.
From stdpp Require Import prelude.
From S2P Require Import Prelude Leb128 BinaryReader BinaryReaderSpec ReaderLogic Encode Types TypesSpec.
From S2P Require Import EncTypes Operands Operators OperatorReader Instructions Reencode OperandSpec.
From S2P Require Import OperandRoundtrip OperatorSpec InstrRoundtrip SectionReader CompositeTypes Items.
From S2P Require Import EncSections ReencodeSections Locality FunctionSpec CompositeSpec SectionSpec ItemSpec.
From S2P Require Import SectionItems Parser ParserSpec Names NameSpec ReencodeModule ModuleSpec ReaderTheorems SectionTheorems.
From S2P Require Import ComponentReaders ComponentEncode ComponentSpec.

Local Open Scope Z_scope.

#[export] Existing Instance RoundtripComponentReencoder.

Create HintDb component.

(** One field after the other; [er_field] finds the lemma about a field. *)
Ltac er_field :=
  first [ apply er_push | apply er_u32; assumption | apply er_from_str; assumption
        | solve [eauto 4 with component] ].
Ltac er_step :=
  match goal with
  | |- enc_reads _ (_ +> _) (_ ≫= _) _ => eapply er_bind; [er_field|cbv iota beta]
  | |- enc_reads _ (Some []) (mret _) _ => apply er_ret
  | |- enc_reads _ _ (_ ≫= _) _ => eapply er_last; [er_field|reflexivity]
  end.
Ltac er_go := repeat er_step.

Section roundtrip.
Context (f : WasmFeatures) {L : Leb128} {LS : Leb128Spec L}.

Lemma er_wf_list {A B} `{FromReader A} (g : A -> B) (enc : B -> Enc) xs limit desc (P : A -> Prop) :
  limit < 2 ^ 32 -> list_wf limit P xs -> (forall x, P x -> enc_reads f (enc (g x)) read x) ->
  enc_reads f (encode_list enc (map g xs)) (read_iter limit desc) xs.
Proof. intros Hlim [Hl Hxs] HP. by eapply er_list_map. Qed.

Lemma er_bool b : enc_reads f (WC.async_byte b) (read (A := bool)) b.
Proof. rewrite <- (and_then_nil_r (WC.async_byte b)). eapply er_bind; [apply er_push|]. destruct b; apply er_ret. Qed.

Lemma er_component_val_type t :
  val_type_wf t -> enc_reads f (WC.encode_component_val_type (component_val_type t)) from_reader_component_val_type t.
Proof.
  destruct t as [p|i]; intros Ht; unfold from_reader_component_val_type.
  - cbn [component_val_type WC.encode_component_val_type]. unfold WC.encode_primitive_val_type.
    rewrite <- (and_then_nil_r (push _)). eapply er_peek; [done|].
    destruct p; (eapply er_bind; [apply er_push|apply er_ret]).
  - destruct (er_s33 f i Ht) as (bs & E & Hr).
    destruct (write_signed_first i Ht) as (b & bs' & Ew & Hbyte & Hnb).
    exists bs. split; [done|]. injection E as <-. rewrite Ew in *. apply reads_peek.
    assert (primitive_from_byte b = None) as ->.
    { unfold primitive_from_byte. repeat case_match; try done; lia. }
    rewrite <- (app_nil_r (b :: bs')). apply reads_bind with i; [done|].
    rewrite wrap_small by done. apply reads_ret.
Qed.

Lemma er_option_val_type o :
  opt_wf val_type_wf o ->
  enc_reads f (encode_option WC.encode_component_val_type (component_val_type <$> o)) from_reader_option_val_type o.
Proof.
  destruct o as [t|]; intros Ho; cbn [fmap option_fmap option_map encode_option].
  - eapply er_bind; [apply er_push|]. eapply er_last; [by apply er_component_val_type|done].
  - rewrite <- (and_then_nil_r (push _)). eapply er_bind; [apply er_push|apply er_ret].
Qed.

(** *** Sorts *)

Lemma er_sort_core b : enc_reads f (push WC.CORE_SORT +> push b) read_sort (0x00, Some b).
Proof. eapply er_bind; [apply er_push|]. eapply er_last; [apply er_push|done]. Qed.

Lemma er_sort b : (b =? 0x00) = false -> enc_reads f (push b) read_sort (b, None).
Proof.
  intros Hb. rewrite <- (and_then_nil_r (push b)). eapply er_bind; [apply er_push|]. rewrite Hb. apply er_ret.
Qed.

Lemma er_lift {A} (x : result A) a : x = Ok a -> enc_reads f (Some []) (lift_result x) a.
Proof. intros ->. exists []. split; [done|]. intros r rest _ _ _. by rewrite advance_0. Qed.

(** The sort written for a kind is read, and is of this kind. *)
Definition sort_of {A} (g : Z -> option Z -> Z -> result A) (e : Enc) (a : A) : Prop :=
  exists b1 b2, enc_reads f e read_sort (b1, b2) /\ forall off, g b1 b2 off = Ok a.

Ltac sort_of := eexists _, _; (split; [first [apply er_sort_core | by apply er_sort]|done]).

Lemma export_kind_sort k :
  sort_of component_external_kind_from_bytes (WC.encode_component_export_kind (component_export_kind k)) k.
Proof. destruct k; sort_of. Qed.

Lemma outer_alias_kind_sort k :
  sort_of component_outer_alias_kind_from_bytes (WC.encode_component_outer_alias_kind (component_outer_alias_kind k)) k.
Proof. destruct k; sort_of. Qed.

Lemma core_export_kind_sort k :
  sort_of core_instance_export_kind (push WC.CORE_SORT +> WS.encode_export_kind (export_kind k)) k.
Proof. destruct k; sort_of. Qed.

Lemma er_component_kind k :
  enc_reads f (WC.encode_component_export_kind (component_export_kind k)) from_reader_component_external_kind k.
Proof.
  destruct (export_kind_sort k) as (b1 & b2 & Hs & Hk). apply er_gets. intros pos.
  rewrite <- (and_then_nil_r (WC.encode_component_export_kind _)). eapply er_bind; [exact Hs|]. by apply er_lift.
Qed.

Lemma er_alias a : alias_wf a -> enc_reads f (WC.encode_alias (component_alias a)) from_reader_component_alias a.
Proof.
  destruct a as [k i n|k i n|k c i]; intros [H1 H2]; apply er_gets; intros pos;
    [destruct (export_kind_sort k) as (b1 & b2 & Hs & Hk)
    |destruct (core_export_kind_sort k) as (b1 & b2 & Hs & Hk); cbn [component_alias WC.encode_alias];
     rewrite <- (and_then_assoc (push WC.CORE_SORT))
    |destruct (outer_alias_kind_sort k) as (b1 & b2 & Hs & Hk)];
    (eapply er_bind; [exact Hs|]); (eapply er_bind; [apply er_push|]); cbv iota beta;
    (match goal with |- enc_reads _ ?e _ _ => rewrite <- (and_then_nil_l e) end);
    (eapply er_bind; [apply er_lift, Hk|]); (eapply er_bind; [by apply er_u32|]).
  1,2: destruct n as [n], H2; eapply er_last; [by apply er_str|done].
  destruct k; (eapply er_last; [by apply er_u32|done]).
Qed.

(** *** References, imports and exports *)

Lemma er_export_name n :
  str_wf (export_name_str n) ->
  enc_reads f (WC.encode_component_export_name (str_bytes (export_name_str n))) from_reader_component_export_name n.
Proof.
  destruct n as [[s]]. intros [Hu Hl]. eapply er_bind; [apply er_push|]. eapply er_last; [by apply er_str|done].
Qed.

Lemma er_import_name n :
  str_wf (import_name_str n) ->
  enc_reads f (WC.encode_component_import_name (str_bytes (import_name_str n))) from_reader_component_import_name n.
Proof.
  destruct n as [[s]]. intros [Hu Hl]. eapply er_bind; [apply er_push|]. eapply er_last; [by apply er_str|done].
Qed.

Lemma er_type_bounds b : bounds_wf b -> enc_reads f (WC.encode_type_bounds (type_bounds b)) from_reader_type_bounds b.
Proof.
  unfold from_reader_type_bounds. destruct b as [i|]; intros Hb; cbn [type_bounds WC.encode_type_bounds]; er_go.
Qed.
End roundtrip.

#[export] Hint Resolve er_bool er_component_val_type er_option_val_type er_component_kind er_export_name
  er_import_name er_type_bounds er_external_kind : component.

Section items.
Context (f : WasmFeatures) {L : Leb128} {LS : Leb128Spec L}.

Lemma er_component_type_ref t :
  component_type_ref_wf t ->
  enc_reads f (WC.encode_component_type_ref (component_type_ref t)) from_reader_component_type_ref t.
Proof.
  pose proof (er_component_kind f) as Hk. unfold from_reader_component_type_ref, WC.encode_component_type_ref.
  destruct t; intros Ht; cbn [component_type_ref WC.ref_kind];
    [pose proof (Hk CEK_Module)|pose proof (Hk CEK_Func)|pose proof (Hk CEK_Value)|pose proof (Hk CEK_Type)
    |pose proof (Hk CEK_Instance)|pose proof (Hk CEK_Component)];
    (eapply er_bind; [eassumption|]); cbv iota beta; er_go.
Qed.

Lemma er_component_import i :
  component_import_wf i ->
  enc_reads f (WC.encode_component_import_name (str_bytes (import_name_str (ci_name i)))
    +> WC.encode_component_type_ref (component_type_ref (ci_ty i))) from_reader_component_import i.
Proof.
  destruct i as [n t]. intros [Hn Ht]. unfold from_reader_component_import. cbn [ci_name ci_ty] in *.
  eapply er_bind; [by apply er_import_name|]. eapply er_last; [by apply er_component_type_ref|done].
Qed.

Lemma er_component_export x :
  component_export_wf x ->
  enc_reads f (WC.encode_component_export_name (str_bytes (export_name_str (ce_name x)))
    +> WC.encode_component_export_kind (component_export_kind (ce_kind x))
    +> encode_u32 (component_external_index (ce_kind x) (ce_index x))
    +> match component_type_ref <$> ce_ty x with
       | Some ty => push 0x01 +> WC.encode_component_type_ref ty
       | None => push 0x00
       end) from_reader_component_export x.
Proof.
  destruct x as [n k i t]. intros (Hn & Hi & Ht). unfold from_reader_component_export.
  cbn [ce_name ce_kind ce_index ce_ty] in *.
  replace (component_external_index k i) with i by by destruct k.
  do 3 er_step. destruct t as [t|]; cbn [fmap option_fmap option_map].
  - eapply er_bind; [apply er_push|]. eapply er_last; [eapply er_last; [by apply er_component_type_ref|done]|done].
  - rewrite <- (and_then_nil_r (push _)). eapply er_bind; [apply er_push|]. apply er_ret_bind, er_ret.
Qed.

(** *** Canonical functions *)

Lemma er_canonical_option o :
  canonical_option_wf o -> enc_reads f (WC.encode_canonical_option (canonical_option o)) from_reader_canonical_option o.
Proof. unfold from_reader_canonical_option. destruct o; intros Ho; cbn [canonical_option WC.encode_canonical_option]; er_go. Qed.

Lemma er_options os : options_wf os -> enc_reads f (WC.encode_options (map canonical_option os)) read_options os.
Proof. intros Ho. apply (er_wf_list f _ _ _ _ _ canonical_option_wf); [done|exact Ho|apply er_canonical_option]. Qed.
Hint Resolve er_options : component.

Lemma canonical_reencode c s :
  canonical_wf c ->
  exists e, parse_component_canonical c s = unwrap_outcome (add_item e s)
    /\ enc_reads f e from_reader_canonical_function c.
Proof.
  intros Hc. unfold from_reader_canonical_function.
  destruct c; cbn [canonical_wf] in Hc; destruct_and?; eexists; (split; [reflexivity|]); er_go.
Qed.

(** *** Instances *)

Lemma er_instantiation_arg a :
  arg_wf a ->
  enc_reads f (encode_str (str_bytes (arg_name a)) +> WC.encode_module_arg (WC.ArgInstance (arg_index a)))
    from_reader_instantiation_arg a.
Proof.
  destruct a as [n [] i]. intros [Hn Hi]. unfold from_reader_instantiation_arg. cbn [arg_name arg_index] in *.
  er_step. eapply er_bind; [eapply er_last; [apply er_push|done]|]. cbv beta. er_step.
Qed.

Lemma er_component_instantiation_arg a :
  component_arg_wf a ->
  enc_reads f (encode_str (str_bytes (carg_name a)) +> WC.encode_component_export_kind (component_export_kind (carg_kind a))
    +> encode_u32 (component_external_index (carg_kind a) (carg_index a)))
    from_reader_component_instantiation_arg a.
Proof.
  destruct a as [n k i]. intros [Hn Hi]. unfold from_reader_component_instantiation_arg.
  cbn [carg_name carg_kind carg_index] in *. replace (component_external_index k i) with i by by destruct k. er_go.
Qed.

Lemma er_untyped_export x :
  untyped_export_wf x ->
  enc_reads f (WC.encode_component_export_name (str_bytes (export_name_str (ce_name x)))
    +> WC.encode_component_export_kind (component_export_kind (ce_kind x))
    +> encode_u32 (component_external_index (ce_kind x) (ce_index x))) read_untyped_export x.
Proof.
  destruct x as [n k i t]. intros [(Hn & Hi & _) Ht]. unfold read_untyped_export.
  cbn [ce_name ce_kind ce_index ce_ty] in *. subst t.
  replace (component_external_index k i) with i by by destruct k. er_go.
Qed.

Lemma er_core_export x :
  export_wf x ->
  enc_reads f (encode_str (str_bytes (export_name x)) +> WS.encode_export_kind (export_kind (export_kind_of x))
    +> encode_u32 (external_index (export_kind_of x) (export_index x))) from_reader_export x.
Proof.
  destruct x as [n k i]. intros [Hn Hi]. unfold from_reader_export. cbn [export_name export_kind_of export_index] in *.
  replace (external_index k i) with i by by destruct k. er_go.
Qed.

Lemma instance_reencode i s :
  instance_wf i ->
  exists e, parse_instance i s = unwrap_outcome (add_item e s) /\ enc_reads f e from_reader_instance i.
Proof.
  unfold from_reader_instance. destruct i as [i args|es]; intros Hi; eexists; (split; [reflexivity|]).
  - destruct Hi as [Hi Ha]. do 2 er_step. eapply er_last; [|done].
    apply (er_wf_list f _ _ _ _ _ arg_wf); [done|done|]. intros [n [] j] Hx. by apply er_instantiation_arg.
  - eapply er_bind; [apply er_push|]. cbv iota beta. eapply er_last; [|done].
    apply (er_wf_list f _ _ _ _ _ export_wf); [done|done|]. intros x Hx. by apply er_core_export.
Qed.

Lemma component_instance_reencode i s :
  component_instance_wf i ->
  exists e, parse_component_instance i s = unwrap_outcome (add_item e s)
    /\ enc_reads f e from_reader_component_instance i.
Proof.
  unfold from_reader_component_instance. destruct i as [i args|es]; intros Hi; eexists; (split; [reflexivity|]).
  - destruct Hi as [Hi Ha]. do 2 er_step. eapply er_last; [|done].
    apply (er_wf_list f _ _ _ _ _ component_arg_wf); [done|done|]. intros x Hx. by apply er_component_instantiation_arg.
  - destruct Hi as [Hl Hes]. eapply er_bind; [apply er_push|]. cbv iota beta.
    unfold encode_list. rewrite length_map, encode_items_map.
    eapply er_bind; [apply er_size; [exact LS|lia|done]|]. cbv beta.
    rewrite Nat2Z.id. eapply er_last; [|done].
    eapply (er_items f (H := read_untyped_export)), Forall_impl; [exact Hes|]. intros x Hx. by apply er_untyped_export.
Qed.

(** *** Defined types and functions *)

Lemma er_named_type p :
  named_type_wf p -> enc_reads f (WC.encode_named_type (named_type p)) (read (A := Str * ComponentValType)) p.
Proof.
  destruct p as [n t]. intros [Hn Ht]. change (enc_reads f (WC.encode_named_type (named_type (n, t)))
    (a ← read (A := Str); b ← read (A := ComponentValType); mret (a, b)) (n, t)).
  cbn [fst snd] in *. unfold WC.encode_named_type, named_type. cbn [fst snd]. er_go.
Qed.

Lemma er_named_types limit desc l :
  limit < 2 ^ 32 -> list_wf limit named_type_wf l ->
  enc_reads f (encode_list WC.encode_named_type (map named_type l)) (read_iter limit desc) l.
Proof. intros Hlim Hl. apply (er_wf_list f _ _ _ _ _ named_type_wf); [done|done|]. apply er_named_type. Qed.

Lemma er_case c :
  case_wf c ->
  enc_reads f (WC.encode_case (str_bytes (case_name c), component_val_type <$> case_ty c, case_refines c))
    from_reader_variant_case c.
Proof.
  destruct c as [n t r]. intros (Hn & Ht & Hr). unfold from_reader_variant_case, WC.encode_case.
  cbn [case_name case_ty case_refines] in *. do 2 er_step. destruct r as [i|]; cbn [encode_option].
  - eapply er_bind; [apply er_push|]. eapply er_last; [eapply er_last; [by apply er_u32|done]|done].
  - rewrite <- (and_then_nil_r (push _)). eapply er_bind; [apply er_push|]. apply er_ret_bind, er_ret.
Qed.

(** The first byte of a defined type selects its reader. *)
Definition read_defined (b : Z) : Reader ComponentDefinedType :=
  match primitive_from_byte b with
  | Some ty => mret (CD_Primitive ty)
  | None => read_component_defined_type b
  end.

Lemma er_defined_type t :
  defined_type_wf t ->
  exists b e, parse_component_defined_type t = push b +> e /\ (b < 0x3f \/ 0x42 < b) /\ enc_reads f e (read_defined b) t.
Proof.
  destruct t; cbn [defined_type_wf parse_component_defined_type]; intros Ht;
    [destruct ty; (eexists _, (Some []); split; [reflexivity|]; split; [right; done|]; apply er_ret)|..].
  all: try (eexists _, _; split; [reflexivity|]; split; [right; done|]; unfold read_defined;
    cbn [primitive_from_byte read_component_defined_type]).
  1: eapply er_last; [by apply er_named_types|done].
  1: { eapply er_last; [|done]. apply (er_wf_list f _ _ _ _ _ case_wf); [done|done|]. apply er_case. }
  all: try (er_go; fail).
  1: { eapply er_last; [|done]. apply (er_wf_list f _ _ _ _ _ val_type_wf); [done|done|].
    intros x Hx. by apply er_component_val_type. }
  1,2: eapply er_last; [|done]; apply (er_wf_list f _ _ _ _ _ str_wf); [done|done|]; intros x Hx; by apply er_from_str.
  - destruct Ht. er_go.
  - exists 0x65, (Some []). split; [done|]. split; [by right|]. apply er_ret.
Qed.

Lemma func_type_reencode ty :
  component_func_wf ty ->
  exists e, (forall dst, option_map WC.func_sink (parse_component_func_type (WC.func_encoder_new dst) ty)
               = (bs ← e; Some (dst ++ 0x40 :: bs)))
    /\ enc_reads f e (params ← read_iter MAX_WASM_FUNCTION_PARAMS "component function parameters";
                      results ← read; mret (CT_Func (mkComponentFuncType params results))) (CT_Func ty).
Proof.
  destruct ty as [ps rs]. intros [Hp Hr]. cbn [cf_params cf_results] in *.
  pose proof (er_named_types MAX_WASM_FUNCTION_PARAMS "component function parameters" ps ltac:(done) Hp) as Hps.
  assert (Hrs : exists e, enc_reads f e from_reader_component_func_result rs
    /\ forall sink, match rs with
       | FR_Unnamed ty => WC.func_result (component_val_type ty) (WC.mkFuncEncoder true false sink)
       | FR_Named list => WC.func_results (map named_type list) (WC.mkFuncEncoder true false sink)
       end = (bs ← e; Some (WC.mkFuncEncoder true true (sink ++ bs)))).
  { unfold from_reader_component_func_result. destruct rs as [t|l].
    - exists (push 0x00 +> WC.encode_component_val_type (component_val_type t)). split; [er_go|].
      intros sink. unfold WC.func_result, WC.append. by destruct (push 0x00 +> _).
    - exists (push 0x01 +> encode_list WC.encode_named_type (map named_type l)). split.
      + eapply er_bind; [apply er_push|]. cbv iota beta. eapply er_last; [by apply er_named_types|done].
      + intros sink. unfold WC.func_results, WC.append. by destruct (push 0x01 +> _). }
  destruct Hrs as (e & Her & Hsink).
  exists (encode_list WC.encode_named_type (map named_type ps) +> e). split.
  - intros dst. unfold parse_component_func_type, WC.func_params, WC.append. cbn [cf_params cf_results WC.params_encoded
      WC.func_encoder_new WC.func_sink WC.results_encoded].
    destruct (encode_list _ _) as [b1|]; [|done]. cbn [mbind option_bind]. rewrite Hsink.
    destruct e as [b2|]; [|done]. cbn. by rewrite <- !app_assoc.
  - eapply er_bind; [exact Hps|]. eapply er_last; [exact Her|done].
Qed.
End items.

(** A first byte, and a value that is the last field. *)
Lemma reads_ex_first {A} f b bs (m : Z -> Reader A) (P : A -> Prop) :
  reads_ex f (m b) bs P -> reads_ex f (read_u8 ≫= m) (b :: bs) P.
Proof.
  intros Hm. apply (reads_ex_bind f _ _ [b] _ (eq b)); [by apply (reads_reads_ex f _ _ b); [apply reads_u8|]|].
  by intros ? <-.
Qed.

Lemma reads_ex_last {A B} f bs (m : Reader A) (g : A -> B) (P : A -> Prop) (Q : B -> Prop) :
  reads_ex f m bs P -> (forall a, P a -> Q (g a)) -> reads_ex f (a ← m; mret (g a)) bs Q.
Proof.
  intros Hm HQ. rewrite <- (app_nil_r bs). eapply reads_ex_bind; [exact Hm|]. intros a Ha.
  apply (reads_reads_ex f _ _ (g a)); [apply reads_ret|by apply HQ].
Qed.

(** ** Core types *)

(** The offsets of the types of a group are not kept. *)
Definition strip_group (g : RecGroup) : RecGroup :=
  match group_inner g with
  | Implicit (_, t) => mkRecGroup (Implicit (0, t))
  | Explicit ts => mkRecGroup (Explicit (map (fun t => (0, snd t)) ts))
  end.

Definition strip_module_decl (d : ModuleTypeDeclaration) : ModuleTypeDeclaration :=
  match d with MTD_Type g => MTD_Type (strip_group g) | d => d end.

Definition strip_core_type (t : CoreType) : CoreType :=
  match t with
  | CoreRec g => CoreRec (strip_group g)
  | CoreModule ds => CoreModule (map strip_module_decl ds)
  end.

Definition core_type_equiv (t t' : CoreType) : Prop := strip_core_type t = strip_core_type t'.

Lemma rec_group_equiv_strip g g' : rec_group_equiv g g' -> strip_group g = strip_group g'.
Proof.
  destruct g as [[[o t]|ts]], g' as [[[o' t']|ts']]; intros [H1 H2]; try done; unfold into_types in H2; cbn in H2 |- *.
  - by injection H2 as ->.
  - clear H1. do 2 f_equal. revert ts' H2. induction ts as [|t ts IH]; intros [|t' ts'] H2; [done..|].
    injection H2 as H2 H3. cbn [map]. rewrite H2. f_equal. by apply IH.
Qed.

Section core_types.
Context (f : WasmFeatures) {L : Leb128} {LS : Leb128Spec L}.

Lemma core_group_append prefix sink g :
  parse_core_group prefix sink g = (bs ← parse_core_group prefix [] g; ROk (sink ++ bs)).
Proof.
  unfold parse_core_group, WC.append. destruct (is_explicit_rec_group g).
  - destruct (mapM sub_type (into_types g)) as [ts| |]; [|done..]. cbn [mbind outcome_bind].
    by destruct (WEType.rec ts).
  - destruct (into_types g) as [|t ts]; [done|]. destruct (sub_type t) as [t'| |]; [|done..]. cbn [mbind outcome_bind].
    by destruct (WEType.encode_subtype prefix t').
Qed.

Lemma core_group_plain g :
  rec_group_wf g ->
  exists bs, parse_core_group false [] g = ROk bs /\ reads_ex f from_reader_rec_group bs (rec_group_equiv g).
Proof.
  intros Hg. destruct (rec_group_reencode f g SectionBuilder_new Hg) as (e & bs & Hp & -> & Hr).
  exists bs. split; [|done]. unfold parse_recursive_type_group in Hp. unfold parse_core_group, WC.append.
  destruct (is_explicit_rec_group g).
  - destruct (mapM sub_type (into_types g)) as [ts| |]; [|done..]. cbn [mbind outcome_bind] in *.
    destruct (WEType.rec ts); [|done]. by injection Hp as ->.
  - destruct (into_types g) as [|t ts]; [done|]. destruct (sub_type t) as [t'| |]; [|done..]. cbn [mbind outcome_bind] in *.
    destruct (WEType.encode_subtype false t'); [|done]. by injection Hp as ->.
Qed.

(** Only a type that is not final has a prefix. *)
Lemma encode_subtype_prefix t :
  WEType.encode_subtype true t
  = if WEType.is_final t then WEType.encode_subtype false t else push 0x00 +> WEType.encode_subtype false t.
Proof.
  unfold WEType.encode_subtype. destruct (WEType.is_final t); [done|]. rewrite orb_true_r.
  by rewrite !and_then_assoc, and_then_nil_l.
Qed.

Lemma encode_subtype_first t :
  exists b e, WEType.encode_subtype false t = push b +> e
    /\ if WEType.is_final t then b = 0x4f \/ 0x5d <= b <= 0x65 else b = 0x50.
Proof.
  unfold WEType.encode_subtype. destruct (WEType.is_final t).
  - destruct (bool_decide _); cbn [orb negb].
    + eexists _, _. rewrite and_then_assoc. split; [done|by left].
    + rewrite and_then_nil_l. destruct (WEType.shared _); [eexists _, _; split; [done|right; lia]|].
      rewrite and_then_nil_l. destruct (WEType.inner _); (eexists _, _; split; [done|right; lia]).
  - rewrite orb_true_r. eexists _, _. rewrite !and_then_assoc, and_then_nil_l. by split.
Qed.

Definition core_rec_equiv (g : RecGroup) (t : CoreType) : Prop := exists g', t = CoreRec g' /\ rec_group_equiv g g'.

(** A group in a component, after a prefix if its type is not final. *)
Lemma reads_core_group b bs g :
  b = 0x4e \/ b = 0x4f \/ 0x5d <= b <= 0x65 -> reads_ex f from_reader_rec_group (b :: bs) (rec_group_equiv g) ->
  reads_ex f from_reader_core_type (b :: bs) (core_rec_equiv g).
Proof.
  intros Hb Hr. unfold from_reader_core_type. apply reads_ex_peek.
  assert (Hm : reads_ex f (g ← read (A := RecGroup); mret (CoreRec g)) (b :: bs) (core_rec_equiv g)).
  { rewrite <- (app_nil_r (b :: bs)). eapply reads_ex_bind; [exact Hr|]. intros g' Hg.
    apply (reads_reads_ex f _ _ (CoreRec g')); [apply reads_ret|by exists g']. }
  byte_default Hm.
Qed.

Lemma reads_core_group_prefixed bs g :
  reads_ex f from_reader_rec_group (0x50 :: bs) (rec_group_equiv g) ->
  reads_ex f from_reader_core_type (0x00 :: 0x50 :: bs) (core_rec_equiv g).
Proof.
  intros Hr. unfold from_reader_core_type. apply reads_ex_peek. cbv iota.
  apply reads_ex_first. apply reads_ex_peek. cbn [negb Z.eqb Pos.eqb].
  rewrite <- (app_nil_r (0x50 :: bs)). eapply reads_ex_bind; [exact Hr|]. intros g' Hg.
  apply (reads_reads_ex f _ _ (CoreRec g')); [apply reads_ret|by exists g'].
Qed.

Lemma core_group_prefixed g :
  rec_group_wf g ->
  exists bs, parse_core_group true [] g = ROk bs /\ reads_ex f from_reader_core_type bs (core_rec_equiv g).
Proof.
  intros Hg. destruct (core_group_plain g Hg) as (bs & Hp & Hr). unfold parse_core_group in *.
  destruct (is_explicit_rec_group g).
  - exists bs. split; [done|]. destruct (mapM sub_type (into_types g)) as [ts| |]; [|done..].
    cbn [mbind outcome_bind] in Hp. unfold WEType.rec, WC.append in Hp.
    destruct (encode_usize _ +> _) as [tl|]; [|done]. injection Hp as <-. apply reads_core_group; [by left|done].
  - destruct (into_types g) as [|t ts]; [done|]. destruct (sub_type t) as [t'| |]; [|done..].
    cbn [mbind outcome_bind] in *. rewrite encode_subtype_prefix.
    destruct (encode_subtype_first t') as (b & e & Ee & Hb). rewrite Ee in *.
    destruct e as [tl|]; [|done]. injection Hp as <-. destruct (WEType.is_final t').
    + eexists. split; [done|]. apply reads_core_group; [lia|done].
    + subst b. eexists. split; [done|]. by apply reads_core_group_prefixed.
Qed.
End core_types.

(** ** Lists of declarations

    A loop that appends the bytes of each declaration and counts it; the reader of
    a declaration has fuel for the types in it. *)

Section declarations.
Context (f : WasmFeatures) {L : Leb128} {LS : Leb128Spec L}.
Context {D S : Type} (R : nat -> Reader D) (body : D -> S -> outcome S).
Context (bytes_of : S -> list Z) (count : S -> Z) (inv : S -> Prop) (equiv : D -> D -> Prop).

Definition appends (d : D) (bs : list Z) : Prop :=
  forall s, inv s -> count s < 2 ^ 32 - 1 ->
  exists s', body d s = ROk s' /\ inv s' /\ bytes_of s' = bytes_of s ++ bs /\ count s' = count s + 1.

Definition decl_reencoded (d : D) : Prop :=
  exists bs, appends d bs /\ forall m, (length bs <= m)%nat -> reads_ex f (R m) bs (equiv d).

Lemma for_decl_reencoded ds s :
  Forall decl_reencoded ds -> inv s -> count s + Z.of_nat (length ds) < 2 ^ 32 ->
  exists s' bs, for_decl body ds s = ROk s' /\ inv s' /\ bytes_of s' = bytes_of s ++ bs
    /\ count s' = count s + Z.of_nat (length ds)
    /\ forall m, (length bs <= m)%nat -> reads_ex f (read_n (H := R m) (length ds)) bs (Forall2 equiv ds).
Proof.
  intros Hds. revert s. induction Hds as [|d ds (b1 & Happ & Hr) _ IH]; intros s Hs Hc.
  - exists s, []. rewrite app_nil_r. split_and!; [done..|simpl; lia|]. intros m _.
    by apply (reads_reads_ex f _ _ []); [apply reads_ret|constructor].
  - cbn [length] in Hc. destruct (Happ s Hs ltac:(lia)) as (s1 & Hb & Hs1 & E1 & C1).
    destruct (IH s1 Hs1 ltac:(lia)) as (s2 & b2 & Hf & Hs2 & E2 & C2 & H2). exists s2, (b1 ++ b2).
    cbn [for_decl]. rewrite Hb. cbn [mbind outcome_bind]. rewrite Hf, E2, E1, app_assoc.
    split_and!; [done..|simpl; lia|]. intros m. rewrite length_app. intros Hm. cbn [length read_n].
    eapply reads_ex_bind; [by apply Hr; lia|]. intros y Hy. rewrite <- (app_nil_r b2).
    eapply reads_ex_bind; [by apply H2; lia|]. intros ys Hys.
    by apply (reads_reads_ex f _ _ (y :: ys)); [apply reads_ret|constructor].
Qed.

(** The list with its count. *)
Lemma reads_decls {B} limit desc ds bs m (mk : list D -> B) (P : B -> Prop) :
  Z.of_nat (length ds) <= limit -> limit < 2 ^ 32 ->
  reads_ex f (read_n (H := R m) (length ds)) bs (Forall2 equiv ds) ->
  (forall ds', Forall2 equiv ds ds' -> P (mk ds')) ->
  reads_ex f (ds ← read_iter (H := R m) limit desc; mret (mk ds)) (write_unsigned (Z.of_nat (length ds)) ++ bs) P.
Proof.
  intros Hl Hlim Hr HP. rewrite <- (app_nil_r (_ ++ bs)).
  eapply (reads_ex_bind f _ _ _ _ (Forall2 equiv ds)).
  - unfold read_iter. destruct (er_size f (Z.of_nat (length ds)) limit desc ltac:(lia) Hlim) as (nb & En & Hn).
    unfold encode_usize in En. rewrite (proj2 (Z.leb_le _ _)) in En by lia. injection En as <-.
    eapply reads_ex_bind; [by apply (reads_reads_ex f _ _ _ (eq (Z.of_nat (length ds))) Hn)|].
    intros ? <-. by rewrite Nat2Z.id.
  - intros ds' Hds'. apply (reads_reads_ex f _ _ (mk ds')); [apply reads_ret|by apply HP].
Qed.
End declarations.

(** ** Module types *)

Section module_types.
Context (f : WasmFeatures) {L : Leb128} {LS : Leb128Spec L}.

Definition module_inv (m : WC.ModuleType) : Prop := 0 <= WC.mt_types_added m <= WC.mt_num_added m.

Definition module_decl_equiv (d d' : ModuleTypeDeclaration) : Prop := strip_module_decl d = strip_module_decl d'.

Lemma incr_ok n : n < 2 ^ 32 - 1 -> WC.incr n = Some (n + 1).
Proof. intros Hn. unfold WC.incr. destruct (Z.eqb_spec n (2 ^ 32 - 1)); [lia|done]. Qed.

(** A declaration without types of its own. *)
Lemma plain_decl_reencoded {D S} (R : nat -> Reader D) body bytes_of count inv equiv (d : D) e :
  (forall m, enc_reads f e (R m) d) -> equiv d d ->
  (forall bs, e = Some bs -> appends (S := S) body bytes_of count inv d bs) ->
  decl_reencoded f R body bytes_of count inv equiv d.
Proof.
  intros Hr Hd Happ. destruct (Hr 0%nat) as (bs & -> & _). exists bs. split; [by apply Happ|].
  intros m _. destruct (Hr m) as (bs' & E & H). injection E as <-. by apply reads_reads_ex with d.
Qed.

Ltac module_append :=
  intros bs Eb m [H1 H2] Hm; eexists; cbn [parse_component_module_type_declaration];
  unfold WC.module_export, WC.module_import, WC.alias_outer_core_type, WC.append.

Lemma module_type_decl_reencoded g :
  rec_group_wf g ->
  decl_reencoded f (fun _ => from_reader_module_type_declaration) parse_component_module_type_declaration
    WC.mt_bytes WC.mt_num_added module_inv module_decl_equiv (MTD_Type g).
Proof.
  intros Hg. destruct (core_group_plain f g Hg) as (bs & Hp & Hr). exists (0x01 :: bs). split.
  - intros m [H1 H2] Hm. eexists. unfold parse_component_module_type_declaration, WC.module_ty.
    rewrite !incr_ok by lia. cbn [mbind option_bind unwrap_outcome outcome_bind WC.mt_bytes].
    rewrite core_group_append, Hp. cbn [mbind outcome_bind]. split; [done|]. unfold module_inv. cbn.
    rewrite <- app_assoc. split_and!; try done; lia.
  - intros m _. unfold from_reader_module_type_declaration.
    apply reads_ex_first. cbv iota. rewrite <- (app_nil_r bs). eapply reads_ex_bind; [exact Hr|]. intros g' Hg'.
    apply (reads_reads_ex f _ _ (MTD_Type g')); [apply reads_ret|].
    unfold module_decl_equiv, strip_module_decl. f_equal. by apply rec_group_equiv_strip.
Qed.

Lemma module_decl_reencoded d :
  module_decl_wf f d ->
  decl_reencoded f (fun _ => from_reader_module_type_declaration) parse_component_module_type_declaration
    WC.mt_bytes WC.mt_num_added module_inv module_decl_equiv d.
Proof.
  unfold from_reader_module_type_declaration.
  destruct d as [g|name ty|[] c i|[im iname ity]]; intros Hd; cbn [module_decl_wf] in Hd;
    [by apply module_type_decl_reencoded|..].
  - destruct Hd as [Hn Ht]. destruct (er_type_ref f ty Ht) as (t' & Et & Hr).
    eapply (plain_decl_reencoded _ _ _ _ _ _ _
      (push 0x03 +> encode_str (str_bytes name) +> WS.encode_entity_type t')); [|done|].
    + intros _. do 2 er_step. eapply er_last; [exact Hr|done].
    + module_append. rewrite Et. cbn [mbind outcome_bind]. rewrite Eb, incr_ok by lia.
      split; [done|]. unfold module_inv. cbn. split_and!; try done; lia.
  - destruct Hd as [Hc Hi]. eapply (plain_decl_reencoded _ _ _ _ _ _ _
      (push 0x02 +> push WC.CORE_TYPE_SORT +> push 0x01 +> encode_u32 c +> encode_u32 i)); [|done|].
    + intros _. eapply er_bind; [apply er_push|]. eapply er_bind; [apply er_push|]. apply er_ret_bind. er_go.
    + module_append. cbn [ComponentHooks.outer_type_index RoundtripComponentReencoder Hooks.type_index RoundtripReencoder].
      rewrite Eb, !incr_ok by lia. split; [done|]. unfold module_inv. cbn. split_and!; try done; lia.
  - destruct Hd as (Him & Hn & Ht). cbn [import_module import_name import_ty] in *.
    destruct (er_type_ref f ity Ht) as (t' & Et & Hr). eapply (plain_decl_reencoded _ _ _ _ _ _ _
      (push 0x00 +> encode_str (str_bytes im) +> encode_str (str_bytes iname) +> WS.encode_entity_type t')); [|done|].
    + intros _. er_step. eapply er_last; [|done]. unfold read, from_reader, FromReader_Import, from_reader_import.
      do 2 er_step. eapply er_last; [exact Hr|done].
    + module_append. cbn [import_module import_name import_ty]. rewrite Et. cbn [mbind outcome_bind].
      rewrite Eb, incr_ok by lia. split; [done|]. unfold module_inv. cbn. split_and!; try done; lia.
Qed.

Lemma core_type_reencode t :
  core_type_wf f t ->
  exists bs, (forall sink, parse_component_core_type sink t = ROk (sink ++ bs))
    /\ reads_ex f from_reader_core_type bs (core_type_equiv t).
Proof.
  destruct t as [g|ds]; cbn [core_type_wf]; intros Ht.
  - destruct (core_group_prefixed f g Ht) as (bs & Hp & Hr). exists bs. split.
    + intros sink. cbn [parse_component_core_type]. by rewrite core_group_append, Hp.
    + intros r rest Hwf Hf E. destruct (Hr r rest Hwf Hf E) as (t & Hrd & g' & -> & Hg). eexists. split; [exact Hrd|].
      unfold core_type_equiv, strip_core_type. f_equal. by apply rec_group_equiv_strip.
  - destruct Ht as [Hl Hds]. unfold MAX_WASM_MODULE_TYPE_DECLS in Hl.
    destruct (for_decl_reencoded f (fun _ => from_reader_module_type_declaration) parse_component_module_type_declaration
      WC.mt_bytes WC.mt_num_added module_inv module_decl_equiv ds WC.ModuleType_new) as (m & bs & Hf & _ & Eb & En & Hr).
    { eapply Forall_impl; [exact Hds|apply module_decl_reencoded]. }
    { done. }
    { simpl. lia. }
    exists (0x50 :: write_unsigned (Z.of_nat (length ds)) ++ bs). split.
    + intros sink. cbn [parse_component_core_type]. unfold component_module_type. rewrite Hf. cbn [mbind outcome_bind].
      unfold WC.encode_module_type. rewrite Eb, En. done.
    + unfold from_reader_core_type. apply reads_ex_peek. cbv iota.
      apply reads_ex_first. apply (reads_decls f (fun _ => from_reader_module_type_declaration) module_decl_equiv _ _ ds bs (length bs));
        [done|done|by apply (Hr (length bs))|].
      intros ds' Hds'. unfold core_type_equiv, strip_core_type. f_equal. clear -Hds'.
      induction Hds' as [|d d' ds ds' Hd _ IH]; [done|]. simpl. by rewrite Hd, IH.
Qed.
End module_types.

(** ** Types of components and instances *)

Fixpoint strip_type (t : ComponentType) : ComponentType :=
  match t with
  | CT_Component ds => CT_Component (map strip_component_decl ds)
  | CT_Instance ds => CT_Instance (map strip_instance_decl ds)
  | t => t
  end
with strip_component_decl (d : ComponentTypeDeclaration) : ComponentTypeDeclaration :=
  match d with
  | CTD_CoreType t => CTD_CoreType (strip_core_type t)
  | CTD_Type t => CTD_Type (strip_type t)
  | d => d
  end
with strip_instance_decl (d : InstanceTypeDeclaration) : InstanceTypeDeclaration :=
  match d with
  | ITD_CoreType t => ITD_CoreType (strip_core_type t)
  | ITD_Type t => ITD_Type (strip_type t)
  | d => d
  end.

(** Types that differ only in the offsets of the core types in them. *)
Definition component_type_equiv (t t' : ComponentType) : Prop := strip_type t = strip_type t'.
Definition component_decl_equiv (d d' : ComponentTypeDeclaration) : Prop :=
  strip_component_decl d = strip_component_decl d'.
Definition instance_decl_equiv (d d' : InstanceTypeDeclaration) : Prop := strip_instance_decl d = strip_instance_decl d'.

Lemma Forall2_strip {A} (g : A -> A) xs ys : Forall2 (fun x y => g x = g y) xs ys -> map g xs = map g ys.
Proof. induction 1 as [|x y xs ys Hx _ IH]; [done|]. simpl. by rewrite Hx, IH. Qed.

Definition decls_inv (c : WC.ComponentType) : Prop :=
  0 <= WC.ct_core_types_added c <= WC.ct_num_added c /\ 0 <= WC.ct_types_added c <= WC.ct_num_added c
  /\ 0 <= WC.ct_instances_added c <= WC.ct_num_added c.

Section nested.
Context (f : WasmFeatures) {L : Leb128} {LS : Leb128Spec L} (wf : ComponentType -> Prop).

(** What is known of the types one level down. *)
Definition type_reencoded (t : ComponentType) : Prop :=
  exists bs, (forall dst, parse_component_type dst t = ROk (dst ++ bs))
    /\ forall m, (length bs <= m)%nat -> reads_ex f (component_type_reader m) bs (component_type_equiv t).

Hypothesis Htypes : forall t, wf t -> type_reencoded t.

Definition component_decl_reencoded : ComponentTypeDeclaration -> Prop :=
  decl_reencoded f (fun m => read_component_type_declaration (component_type_reader m)) parse_component_type_declaration
    WC.ct_bytes WC.ct_num_added decls_inv component_decl_equiv.

Definition instance_decl_reencoded : InstanceTypeDeclaration -> Prop :=
  decl_reencoded f (fun m => read_instance_type_declaration (component_type_reader m))
    parse_component_instance_type_declaration WC.ct_bytes WC.ct_num_added decls_inv instance_decl_equiv.

(** Adding the bytes of a declaration, then counting what it defines. *)
Definition adds (g : WC.ComponentType -> option WC.ComponentType) (bs : list Z) : Prop :=
  forall c, decls_inv c -> WC.ct_num_added c < 2 ^ 32 - 1 ->
  exists c', g c = Some c' /\ decls_inv c' /\ WC.ct_bytes c' = WC.ct_bytes c ++ bs
    /\ WC.ct_num_added c' = WC.ct_num_added c + 1.

Lemma adds_declaration bs g :
  (g = Some \/ g = WC.add_core_type \/ g = WC.add_type \/ g = WC.add_instance) ->
  adds (fun c => c ← WC.add_declaration (Some bs) c; g c) bs.
Proof.
  intros Hg c (H1 & H2 & H3) Hc. unfold WC.add_declaration, WC.append. cbn [mbind option_bind].
  rewrite incr_ok by done. cbn [mbind option_bind].
  destruct Hg as [ -> | [ -> | [ -> | -> ]]]; unfold WC.add_core_type, WC.add_type, WC.add_instance; cbn; rewrite ?incr_ok by lia;
    (eexists; split; [done|]); unfold decls_inv; cbn; (split_and!; try done; lia).
Qed.

Lemma adds_alias a bs : WC.encode_alias a = Some bs -> adds (WC.component_alias_decl a) (0x02 :: bs).
Proof.
  intros Ha. unfold WC.component_alias_decl. rewrite Ha.
  destruct a as [? [] ?|? ? ?|[] ? ?]; apply adds_declaration; auto.
Qed.

Lemma adds_import name t bs :
  WC.encode_component_import_name name +> WC.encode_component_type_ref t = Some bs ->
  adds (WC.component_import name t) (0x03 :: bs).
Proof.
  intros Ha. unfold WC.component_import, WC.count_type_ref. rewrite Ha. destruct t; apply adds_declaration; auto.
Qed.

Lemma adds_export name t bs :
  WC.encode_component_export_name name +> WC.encode_component_type_ref t = Some bs ->
  adds (WC.component_export name t) (0x04 :: bs).
Proof.
  intros Ha. unfold WC.component_export, WC.count_type_ref. rewrite Ha. destruct t; apply adds_declaration; auto.
Qed.

Definition parses_instance_decl (d : InstanceTypeDeclaration) (bs : list Z) : Prop :=
  appends parse_component_instance_type_declaration WC.ct_bytes WC.ct_num_added decls_inv d bs.

Lemma adds_parses d g bs :
  (forall c, parse_component_instance_type_declaration d c = unwrap_outcome (g c)) -> adds g bs ->
  parses_instance_decl d bs.
Proof. intros Hd Hg c Hc Hn. destruct (Hg c Hc Hn) as (c' & E & H). exists c'. by rewrite Hd, E. Qed.

(** A type that is written after a declaration was started. *)
Lemma started_parses d g b bs (p : list Z -> outcome (list Z)) :
  (forall c, parse_component_instance_type_declaration d c
     = (c ← unwrap_outcome (g c); bytes ← p (WC.ct_bytes c); mret (WC.component_set_bytes bytes c))) ->
  adds g [b] -> (forall sink, p sink = ROk (sink ++ bs)) -> parses_instance_decl d (b :: bs).
Proof.
  intros Hd Hg Hp c Hc Hn. destruct (Hg c Hc Hn) as (c' & E & Hi & Eb & En). eexists.
  rewrite Hd, E. cbn [unwrap_outcome mbind outcome_bind]. rewrite Hp. split; [done|]. split; [exact Hi|]. cbn.
  rewrite Eb, <- app_assoc. done.
Qed.

Lemma instance_decl_bytes d :
  instance_decl_wf f wf d ->
  exists b bs, b <> 0x03 /\ parses_instance_decl d (b :: bs)
    /\ forall m, (length bs <= m)%nat ->
       reads_ex f (read_instance_type_declaration (component_type_reader m)) (b :: bs) (instance_decl_equiv d).
Proof.
  unfold read_instance_type_declaration. destruct d as [t|t|a|n t]; cbn [instance_decl_wf]; intros Hd.
  - destruct (core_type_reencode f t Hd) as (bs & Hp & Hr). exists 0x00, bs. split; [done|]. split.
    + apply (started_parses _ WC.component_core_type _ _ (fun sink => parse_component_core_type sink t)); [done| |done].
      apply (adds_declaration [0x00]). auto.
    + intros m _. apply reads_ex_first. eapply reads_ex_last; [exact Hr|]. intros t' Ht.
      unfold instance_decl_equiv. cbn. by rewrite Ht.
  - destruct (Htypes t Hd) as (bs & Hp & Hr). exists 0x01, bs. split; [done|]. split.
    + apply (started_parses _ WC.component_ty _ _ (fun sink => parse_component_type sink t)); [done| |done].
      apply (adds_declaration [0x01]). auto.
    + intros m Hm. apply reads_ex_first. eapply reads_ex_last; [by apply Hr|]. intros t' Ht.
      unfold instance_decl_equiv. cbn. by rewrite Ht.
  - destruct (er_alias f a Hd) as (bs & Ea & Hr). exists 0x02, bs. split; [done|]. split.
    + eapply adds_parses; [done|by apply adds_alias].
    + intros m _. apply reads_ex_first. eapply reads_ex_last; [by apply (reads_reads_ex f _ _ a (eq a))|by intros ? <-].
  - destruct Hd as [Hn Ht]. destruct (er_export_name f n Hn) as (b1 & E1 & Hr1).
    destruct (er_component_type_ref f t Ht) as (b2 & E2 & Hr2). exists 0x04, (b1 ++ b2). split; [done|]. split.
    + eapply adds_parses; [done|]. apply adds_export. by rewrite E1, E2.
    + intros m _. apply reads_ex_first. eapply reads_ex_bind; [by apply (reads_reads_ex f _ _ n (eq n))|].
      intros ? <-. eapply reads_ex_last; [by apply (reads_reads_ex f _ _ t (eq t))|by intros ? <-].
Qed.

Lemma instance_decl_reencode d : instance_decl_wf f wf d -> instance_decl_reencoded d.
Proof.
  intros Hd. destruct (instance_decl_bytes d Hd) as (b & bs & _ & Hp & Hr). exists (b :: bs). split; [exact Hp|].
  intros m Hm. apply Hr. simpl in Hm. lia.
Qed.

Lemma parse_declaration_of_instance d c :
  parse_component_type_declaration (declaration_of_instance d) c = parse_component_instance_type_declaration d c.
Proof. by destruct d. Qed.

Lemma inherited_decl_reencode d :
  instance_decl_wf f wf d -> component_decl_reencoded (declaration_of_instance d).
Proof.
  intros Hd. destruct (instance_decl_bytes d Hd) as (b & bs & Hb & Hp & Hr). exists (b :: bs). split.
  - intros c Hc Hn. rewrite parse_declaration_of_instance. by apply Hp.
  - intros m Hm. unfold read_component_type_declaration. apply reads_ex_peek.
    rewrite (proj2 (Z.eqb_neq _ _) Hb). eapply reads_ex_last; [apply Hr; simpl in Hm; lia|].
    intros d' Hd'. unfold instance_decl_equiv, component_decl_equiv in *. destruct d, d'; simpl in *; congruence.
Qed.

Lemma import_decl_reencode i : component_import_wf i -> component_decl_reencoded (CTD_Import i).
Proof.
  intros Hi. destruct (er_component_import f i Hi) as (bs & Eb & Hr). exists (0x03 :: bs). split.
  - intros c Hc Hn. destruct (adds_import _ _ _ Eb c Hc Hn) as (c' & E & H). exists c'.
    cbn [parse_component_type_declaration]. by rewrite E.
  - intros m _. unfold read_component_type_declaration. apply reads_ex_peek. cbn [Z.eqb Pos.eqb].
    apply reads_ex_first. eapply reads_ex_last; [by apply (reads_reads_ex f _ _ i (eq i))|by intros ? <-].
Qed.

Lemma component_decl_reencode d : component_decl_wf f wf d -> component_decl_reencoded d.
Proof.
  destruct d as [t|t|a|n t|i]; intros Hd; [..|by apply import_decl_reencode].
  - by apply (inherited_decl_reencode (ITD_CoreType t)).
  - by apply (inherited_decl_reencode (ITD_Type t)).
  - by apply (inherited_decl_reencode (ITD_Alias a)).
  - by apply (inherited_decl_reencode (ITD_Export n t)).
Qed.

(** The reader of a type, for at least one byte. *)
Lemma type_bytes_reencoded t b bs :
  (forall dst, parse_component_type dst t = ROk (dst ++ b :: bs)) ->
  (forall m, (length bs <= m)%nat -> reads_ex f (component_type_reader (S m)) (b :: bs) (component_type_equiv t)) ->
  type_reencoded t.
Proof. intros Hp Hr. exists (b :: bs). split; [done|]. intros [|m] Hm; simpl in Hm; [lia|]. apply Hr. lia. Qed.

Lemma defined_type_reencode t : defined_type_wf t -> type_reencoded (CT_Defined t).
Proof.
  intros Ht. destruct (er_defined_type f t Ht) as (b & e & Ee & Hb & bs & -> & Hr).
  apply (type_bytes_reencoded _ b bs).
  - intros dst. cbn [parse_component_type]. by rewrite Ee.
  - intros m _. cbn [component_type_reader]. unfold read_component_type. apply reads_ex_first.
    assert (Hm : reads_ex f (match primitive_from_byte b with
      | Some ty => mret (CT_Defined (CD_Primitive ty))
      | None => t ← read_component_defined_type b; mret (CT_Defined t)
      end) bs (component_type_equiv (CT_Defined t))).
    { unfold read_defined in Hr. destruct (primitive_from_byte b).
      - intros r rest Hwf Hf E. specialize (Hr r rest Hwf Hf E). injection Hr as <- Hr. by eexists; rewrite <- Hr.
      - by eapply reads_ex_last; [apply (reads_reads_ex f _ _ t (eq t) Hr)|intros ? <-]. }
    clear Hr Ee. byte_default Hm.
Qed.

Lemma component_func_reencode t : component_func_wf t -> type_reencoded (CT_Func t).
Proof.
  intros Ht. destruct (func_type_reencode f t Ht) as (e & Hp & bs & -> & Hr).
  apply (type_bytes_reencoded _ 0x40 bs).
  - intros dst. cbn [parse_component_type]. specialize (Hp dst).
    destruct (parse_component_func_type _ t) as [fe|]; [|done]. cbn in Hp |- *. by injection Hp as ->.
  - intros m _. cbn [component_type_reader]. unfold read_component_type. apply reads_ex_first. cbv iota.
    by apply (reads_reads_ex f _ _ (CT_Func t)).
Qed.

Lemma resource_reencode rep dtor :
  vt_module rep -> opt_wf (in_u 32) dtor -> type_reencoded (CT_Resource rep dtor).
Proof.
  intros Hrep Hd. destruct (er_val_type f rep Hrep) as (rep' & Erep & (b1 & E1 & H1) & _).
  assert (Hdtor : enc_reads f (match Hooks.function_index <$> dtor with
      | Some i => push 0x01 +> encode_u32 i | None => push 0x00 end)
    (d ← read_u8;
     dtor ← match d with
            | 0x00 => mret None
            | 0x01 => i ← read; mret (Some i)
            | b => invalid_leading_byte b "resource destructor"
            end;
     mret (CT_Resource rep dtor)) (CT_Resource rep dtor)).
  { destruct dtor as [i|]; cbn [fmap option_fmap option_map].
    - eapply er_bind; [apply er_push|]. cbv iota. eapply er_last; [eapply er_last; [by apply er_u32|done]|done].
    - rewrite <- (and_then_nil_r (push _)). eapply er_bind; [apply er_push|]. apply er_ret_bind, er_ret. }
  destruct Hdtor as (b2 & E2 & H2). apply (type_bytes_reencoded _ 0x3f (b1 ++ b2)).
  - intros dst. cbn [parse_component_type]. rewrite Erep. cbn [mbind outcome_bind]. unfold WC.encode_resource.
    by rewrite E1, E2.
  - intros m _. cbn [component_type_reader]. unfold read_component_type. apply reads_ex_first. cbv iota.
    eapply reads_ex_bind; [by apply (reads_reads_ex f _ _ rep (eq rep))|]. intros ? <-.
    by apply (reads_reads_ex f _ _ (CT_Resource rep dtor)).
Qed.

Lemma component_decls_reencode ds :
  list_wf MAX_WASM_COMPONENT_TYPE_DECLS (component_decl_wf f wf) ds -> type_reencoded (CT_Component ds).
Proof.
  intros [Hl Hds]. unfold MAX_WASM_COMPONENT_TYPE_DECLS in Hl.
  destruct (for_decl_reencoded f _ _ _ _ _ _ ds WC.ComponentType_new
    (Forall_impl _ _ _ Hds component_decl_reencode)) as (c & bs & Hf & _ & Eb & En & Hr); [done|simpl; lia|].
  apply (type_bytes_reencoded _ 0x41 (write_unsigned (Z.of_nat (length ds)) ++ bs)).
  - intros dst. cbn [parse_component_type]. change (for_decl _ ds _) with
      (for_decl parse_component_type_declaration ds WC.ComponentType_new). rewrite Hf. cbn [mbind outcome_bind].
    unfold WC.encode_component_type. by rewrite Eb, En.
  - intros m. rewrite length_app. intros Hm. cbn [component_type_reader]. unfold read_component_type.
    apply reads_ex_first. cbv iota. eapply (reads_decls f (fun m => read_component_type_declaration
      (component_type_reader m)) component_decl_equiv _ _ ds bs m); [done|done|apply Hr; lia|].
    intros ds' Hds'. unfold component_type_equiv. cbn. f_equal. by apply Forall2_strip.
Qed.

Lemma instance_decls_reencode ds :
  list_wf MAX_WASM_INSTANCE_TYPE_DECLS (instance_decl_wf f wf) ds -> type_reencoded (CT_Instance ds).
Proof.
  intros [Hl Hds]. unfold MAX_WASM_INSTANCE_TYPE_DECLS in Hl.
  destruct (for_decl_reencoded f _ _ _ _ _ _ ds WC.ComponentType_new
    (Forall_impl _ _ _ Hds instance_decl_reencode)) as (c & bs & Hf & _ & Eb & En & Hr); [done|simpl; lia|].
  apply (type_bytes_reencoded _ 0x42 (write_unsigned (Z.of_nat (length ds)) ++ bs)).
  - intros dst. cbn [parse_component_type]. change (for_decl _ ds _) with
      (for_decl parse_component_instance_type_declaration ds WC.ComponentType_new). rewrite Hf. cbn [mbind outcome_bind].
    unfold WC.encode_instance_type. by rewrite Eb, En.
  - intros m. rewrite length_app. intros Hm. cbn [component_type_reader]. unfold read_component_type.
    apply reads_ex_first. cbv iota. eapply (reads_decls f (fun m => read_instance_type_declaration
      (component_type_reader m)) instance_decl_equiv _ _ ds bs m); [done|done|apply Hr; lia|].
    intros ds' Hds'. unfold component_type_equiv. cbn. f_equal. by apply Forall2_strip.
Qed.

Lemma type_layer_reencode t : type_layer_wf f wf t -> type_reencoded t.
Proof.
  destruct t as [t|t|ds|ds|rep dtor]; cbn [type_layer_wf]; intros Ht.
  - by apply defined_type_reencode.
  - by apply component_func_reencode.
  - by apply component_decls_reencode.
  - by apply instance_decls_reencode.
  - by apply resource_reencode; apply Ht.
Qed.
End nested.

Lemma nested_type_reencode f {L : Leb128} {LS : Leb128Spec L} n t : nested_type_wf f n t -> type_reencoded f t.
Proof.
  revert t. induction n as [|n IH]; intros t Ht; [done|]. by apply (type_layer_reencode f (nested_type_wf f n)).
Qed.

(** The fuel of the reader is the number of bytes left. *)
Lemma component_type_reencode f {L : Leb128} {LS : Leb128Spec L} t :
  component_type_wf f t ->
  exists bs, (forall dst, parse_component_type dst t = ROk (dst ++ bs))
    /\ reads_ex f from_reader_component_type bs (component_type_equiv t).
Proof.
  intros [n Ht]. destruct (nested_type_reencode f n t Ht) as (bs & Hp & Hr). exists bs. split; [done|].
  intros r rest Hwf Hf E. apply (Hr (S (length (remaining_buffer r))) ltac:(rewrite E, length_app; lia) r rest Hwf Hf E).
Qed.

(** ** The items of the sections of a component *)

Lemma section_ty_item body bs s :
  (forall sink, body sink = ROk (sink ++ bs)) ->
  section_ty body s = unwrap_outcome (add_item (Some bs) s).
Proof.
  intros Hb. unfold section_ty, add_item, WC.incr. destruct (num_added s =? _); [done|].
  cbn [mbind option_bind unwrap_outcome outcome_bind]. by rewrite Hb.
Qed.

Section component_items.
Context {L : Leb128}.

#[export] Instance CoreType_item : SectionItem CoreType := {
  parse_item := core_type_item; item_wf := core_type_wf;
  item_check := checked; item_fits := always; item_equiv := core_type_equiv;
}.

#[export] Instance ComponentType_item : SectionItem ComponentType := {
  parse_item := component_type_item; item_wf := component_type_wf;
  item_check := checked; item_fits := always; item_equiv := component_type_equiv;
}.

#[export] Instance ComponentImport_item : SectionItem ComponentImport := {
  parse_item := component_import_item; item_wf := fun _ => component_import_wf;
  item_check := checked; item_fits := always; item_equiv := eq;
}.

#[export] Instance ComponentExport_item : SectionItem ComponentExport := {
  parse_item := parse_component_export; item_wf := fun _ => component_export_wf;
  item_check := checked; item_fits := always; item_equiv := eq;
}.

#[export] Instance ComponentAlias_item : SectionItem ComponentAlias := {
  parse_item := component_alias_item; item_wf := fun _ => alias_wf;
  item_check := checked; item_fits := always; item_equiv := eq;
}.

#[export] Instance Instance_item : SectionItem Instance_ := {
  parse_item := parse_instance; item_wf := fun _ => instance_wf;
  item_check := checked; item_fits := always; item_equiv := eq;
}.

#[export] Instance ComponentInstance_item : SectionItem ComponentInstance := {
  parse_item := parse_component_instance; item_wf := fun _ => component_instance_wf;
  item_check := checked; item_fits := always; item_equiv := eq;
}.

#[export] Instance CanonicalFunction_item : SectionItem CanonicalFunction := {
  parse_item := parse_component_canonical; item_wf := fun _ => canonical_wf;
  item_check := checked; item_fits := always; item_equiv := eq;
}.
End component_items.

Section component_laws.
Context {L : Leb128} {LS : Leb128Spec L}.

#[export] Instance CoreType_laws : SectionItemLaws CoreType.
Proof.
  split; [intros E r0 k Q Henv _ HQ; by apply CoreType_readable|].
  intros f a s Ha. destruct (core_type_reencode f a Ha) as (bs & Hp & Hr).
  exists (Some bs). apply eager_parse; [by apply section_ty_item|]. by exists bs.
Qed.

#[export] Instance ComponentType_laws : SectionItemLaws ComponentType.
Proof.
  split; [intros E r0 k Q Henv _ HQ; by apply ComponentType_readable|].
  intros f a s Ha. destruct (component_type_reencode f a Ha) as (bs & Hp & Hr).
  exists (Some bs). apply eager_parse; [by apply section_ty_item|]. by exists bs.
Qed.

#[export] Instance ComponentImport_laws : SectionItemLaws ComponentImport.
Proof.
  split; [intros E r0 k Q Henv _ HQ; by apply ComponentImport_readable|].
  intros f a s Ha. eexists. apply eager_parse; [done|]. eapply erx_exact; [by apply er_component_import|done].
Qed.

#[export] Instance ComponentExport_laws : SectionItemLaws ComponentExport.
Proof.
  split; [intros E r0 k Q Henv _ HQ; by apply ComponentExport_readable|].
  intros f a s Ha. eexists. apply eager_parse; [done|]. eapply erx_exact; [by apply er_component_export|done].
Qed.

#[export] Instance ComponentAlias_laws : SectionItemLaws ComponentAlias.
Proof.
  split; [intros E r0 k Q Henv _ HQ; by apply ComponentAlias_readable|].
  intros f a s Ha. eexists. apply eager_parse; [done|]. eapply erx_exact; [by apply er_alias|done].
Qed.

#[export] Instance Instance_laws : SectionItemLaws Instance_.
Proof.
  split; [intros E r0 k Q Henv _ HQ; by apply Instance_readable|].
  intros f a s Ha. destruct (instance_reencode f a s Ha) as (e & Hp & Hr). exists e.
  apply eager_parse; [done|]. by eapply erx_exact.
Qed.

#[export] Instance ComponentInstance_laws : SectionItemLaws ComponentInstance.
Proof.
  split; [intros E r0 k Q Henv _ HQ; by apply ComponentInstance_readable|].
  intros f a s Ha. destruct (component_instance_reencode f a s Ha) as (e & Hp & Hr). exists e.
  apply eager_parse; [done|]. by eapply erx_exact.
Qed.

#[export] Instance CanonicalFunction_laws : SectionItemLaws CanonicalFunction.
Proof.
  split; [intros E r0 k Q Henv _ HQ; by apply CanonicalFunction_readable|].
  intros f a s Ha. destruct (canonical_reencode f a s Ha) as (e & Hp & Hr). exists e.
  apply eager_parse; [done|]. by eapply erx_exact.
Qed.
End component_laws.

(** C4. Re-encoding the sections of a component.  For each of the eight kinds of
    section of items of a component and any section content [r], translating the
    section succeeds exactly when all its items can be read, with the same number
    of items, and the encoded section is read back as the same items (core types
    nested in them may have other offsets); otherwise the error of the first
    unreadable item is returned.  There is no panic, except when the new section
    does not fit in 32 bits; reading types of components and instances nested in
    each other terminates for any bytes. *)
Theorem reencode_component_sections {L : Leb128} {LS : Leb128Spec L} r sec :
  wf_reader r -> section_new r = Ok sec ->
  let f := features r in
  section_reencoded CoreType f parse_core_type_section core_type_equiv sec
  /\ section_reencoded ComponentType f parse_component_type_section component_type_equiv sec
  /\ section_reencoded ComponentImport f parse_component_import_section eq sec
  /\ section_reencoded ComponentExport f parse_component_export_section eq sec
  /\ section_reencoded ComponentAlias f parse_component_alias_section eq sec
  /\ section_reencoded Instance_ f parse_instance_section eq sec
  /\ section_reencoded ComponentInstance f parse_component_instance_section eq sec
  /\ section_reencoded CanonicalFunction f parse_component_canonical_section eq sec.
Proof.
  intros Hwf Hsec f. unfold f. clear f.
  split; [exact (eager_section_reencoded (A := CoreType) r sec ltac:(done) ltac:(done) Hwf Hsec)|].
  split; [exact (eager_section_reencoded (A := ComponentType) r sec ltac:(done) ltac:(done) Hwf Hsec)|].
  split; [exact (eager_section_reencoded (A := ComponentImport) r sec ltac:(done) ltac:(done) Hwf Hsec)|].
  split; [exact (eager_section_reencoded (A := ComponentExport) r sec ltac:(done) ltac:(done) Hwf Hsec)|].
  split; [exact (eager_section_reencoded (A := ComponentAlias) r sec ltac:(done) ltac:(done) Hwf Hsec)|].
  split; [exact (eager_section_reencoded (A := Instance_) r sec ltac:(done) ltac:(done) Hwf Hsec)|].
  split; [exact (eager_section_reencoded (A := ComponentInstance) r sec ltac:(done) ltac:(done) Hwf Hsec)|].
  exact (eager_section_reencoded (A := CanonicalFunction) r sec ltac:(done) ltac:(done) Hwf Hsec).
Qed.

(** The type of an instance: a record type, and an export of it, whose name has
    the other leading byte and whose index takes two bytes. *)
Lemma reencode_component_sections_witness :
  let r := BinaryReader_new [0x01; 0x42; 0x02; 0x01; 0x72; 0x01; 0x01; 0x61; 0x79;
                             0x04; 0x01; 0x01; 0x62; 0x03; 0x00; 0x80; 0x00] 0 in
  Leb128Spec ref_leb128
  /\ exists sec, section_new r = Ok sec
    /\ section_reencoded (L := ref_leb128) ComponentType (features r) parse_component_type_section
         component_type_equiv sec
    /\ section_collect (A := ComponentType) sec
       = Ok [CT_Instance [ITD_Type (CT_Defined (CD_Record [(mkStr [0x61], CV_Primitive PU32)]));
                          ITD_Export (mkExportName (mkStr [0x62])) (CTR_Type (TB_Eq 0))]]
    /\ match parse_component_type_section (L := ref_leb128) SectionBuilder_new sec with
       | ROk s => encode_builder (L := ref_leb128) s
                  = Some [0x10; 0x01; 0x42; 0x02; 0x01; 0x72; 0x01; 0x01; 0x61; 0x79;
                          0x04; 0x00; 0x01; 0x62; 0x03; 0x00; 0x00]
       | _ => False
       end.
Proof.
  intros r. split; [exact ref_leb128_spec|]. assert (Hwf : wf_reader r) by wf_concrete.
  eexists. split; [vm_compute; reflexivity|]. split; [|split; vm_compute; reflexivity].
  pose proof (reencode_component_sections (LS := ref_leb128_spec) r _ Hwf ltac:(vm_compute; reflexivity)) as H.
  apply H.
Defined.

(** ** The names of a component *)

(** The sort of a map of names, as the binary format has it, and the map. *)
Definition sorted_names (n : ComponentName) : option (list Z * SectionLimited) :=
  match n with
  | CN_CoreFuncs map => Some ([0x00; 0x00], map)
  | CN_CoreTables map => Some ([0x00; 0x01], map)
  | CN_CoreMemories map => Some ([0x00; 0x02], map)
  | CN_CoreGlobals map => Some ([0x00; 0x03], map)
  | CN_CoreTypes map => Some ([0x00; 0x10], map)
  | CN_CoreModules map => Some ([0x00; 0x11], map)
  | CN_CoreInstances map => Some ([0x00; 0x12], map)
  | CN_Funcs map => Some ([0x01], map)
  | CN_Values map => Some ([0x02], map)
  | CN_Types map => Some ([0x03], map)
  | CN_Components map => Some ([0x04], map)
  | CN_Instances map => Some ([0x05], map)
  | CN_Component _ _ | CN_Unknown _ _ _ => None
  end.

(** What a subsection says: the name of the component, the names of a sort with
    their indices, or bytes. *)
Inductive ComponentNameView :=
| CNV_Component (name : list Z)
| CNV_Names (sort : list Z) (names : list Naming)
| CNV_Unknown (ty : Z) (data : list Z).

Definition component_name_view (n : ComponentName) : result ComponentNameView :=
  match n with
  | CN_Component name _ => Ok (CNV_Component name)
  | CN_Unknown ty data _ => Ok (CNV_Unknown ty data)
  | _ =>
      match sorted_names n with
      | Some (sort, sec) => NameSpec.result_bind (section_collect (A := Naming) sec) (fun xs => Ok (CNV_Names sort xs))
      | None => Panic
      end
  end.

Fixpoint component_names_view (fuel : nat) (r : BinaryReader) : result (list ComponentNameView) :=
  match fuel with
  | O => Panic
  | S fuel' =>
      match subsections_next (A := ComponentName) r with
      | (None, _) => Ok []
      | (Some x, r') =>
          NameSpec.result_bind x (fun n => NameSpec.result_bind (component_name_view n) (fun v =>
          NameSpec.result_bind (component_names_view fuel' r') (fun vs => Ok (v :: vs))))
      end
  end.

Section component_names.
Context {L : Leb128} {LS : Leb128Spec L}.

Lemma local_name_ctor : local 1 component_name_ctor.
Proof.
  apply local_bind_l; [apply local_u8|]. intros b. repeat case_match; try apply local_ret.
  apply local_bind_r; [eapply local_weaken, local_u8|]. intros. apply local_ret.
Qed.

(** Which constructor is read. *)
Lemma name_ctor_inv br mk br' :
  component_name_ctor br = (Ok (Some mk), br') ->
  exists sort, forall s, sorted_names (mk s) = Some (sort, s).
Proof.
  unfold component_name_ctor. rewrite ST_bind_eq. destruct (read_u8 br) as [[b| |] r1]; [|done..].
  intros H. repeat case_match; try done; try (injection H as <- _; by eexists).
  rewrite ST_bind_eq in H. destruct (read_u8 r1) as [[c| |] r2]; [|done..]. injection H as H _.
  repeat case_match; try done; injection H as <-; by eexists.
Qed.

(** The sort of core names takes two bytes, the other ones take one. *)
Lemma read_sort_byte f b rest (k : Z -> Reader (option (SectionLimited -> ComponentName))) x :
  reads f (k b) rest x -> reads f (read_u8 ≫= k) (b :: rest) x.
Proof. intros H. apply (reads_bind f _ _ [b] rest b); [apply reads_u8|done]. Qed.

(** How a map is translated, and that its sort selects it again. *)
Lemma sorted_names_parse f n sort sec names :
  sorted_names n = Some (sort, sec) ->
  (exists kind, sort = [kind]
       /\ parse_custom_component_name_subsection n names = push_component_names kind (name_map sec (fun i => i)) names
     \/ sort = [0; kind]
       /\ parse_custom_component_name_subsection n names = push_core_names kind (name_map sec (fun i => i)) names)
  /\ (forall xs, section_collect (A := Naming) sec = Ok xs -> component_name_view n = Ok (CNV_Names sort xs))
  /\ exists mk, reads f component_name_ctor sort (Some mk) /\ forall s, sorted_names (mk s) = Some (sort, s).
Proof.
  destruct n; intros [= <- <-];
    (split; [eexists; first [left; split; reflexivity|right; split; reflexivity]|]);
    (split; [intros xs Hxs; cbn -[section_collect]; by rewrite Hxs|]);
    (eexists; split; [repeat (apply read_sort_byte; cbv iota beta); apply reads_ret|done]).
Qed.

(** What a map is written as. *)
Lemma sorted_names_bytes sort kind (m : SectionBuilder) names names' :
  in_u 32 (num_added m) ->
  sort = [kind] /\ push_component_names kind (ROk m) names = ROk names'
  \/ sort = [0; kind] /\ push_core_names kind (ROk m) names = ROk names' ->
  let content := sort ++ write_unsigned (num_added m) ++ bytes m in
  names' = names ++ 1 :: write_unsigned (Z.of_nat (length content)) ++ content
  /\ Z.of_nat (length content) < 2 ^ 32.
Proof.
  intros Hn H content. unfold push_component_names, push_core_names, WC.component_decls, WC.core_decls, WN.size, encoding_size in H.
  cbn in H. destruct (Z.leb_spec (Z.of_nat (length (write_unsigned (num_added m)))) 5) as [|]; [|by destruct H as [[_ H]|[_ H]]].
  cbn in H.
  assert (Hl : Z.of_nat (length sort) + (Z.of_nat (length (write_unsigned (num_added m))) + Z.of_nat (length (bytes m)))
    = Z.of_nat (length content)) by (unfold content; rewrite !length_app; lia).
  destruct H as [[-> H]|[-> H]]; cbn [length] in Hl;
    match type of H with context [encode_usize ?n] => replace n with (Z.of_nat (length content)) in H by lia end;
    unfold encode_usize in H; (destruct (Z.leb_spec (Z.of_nat (length content)) (2 ^ 32 - 1)); [|done]);
    cbn in H; injection H as <-; (split; [done|lia]).
Qed.

(** Whether the sort is unknown depends on the bytes only. *)
Lemma name_ctor_unknown br r1 br' :
  wf_reader br -> wf_reader br' -> remaining_buffer br' = remaining_buffer br ->
  component_name_ctor br = (Ok None, r1) -> exists r2, component_name_ctor br' = (Ok None, r2).
Proof.
  intros Hwf Hwf' E. unfold component_name_ctor. rewrite !ST_bind_eq.
  destruct (remaining_buffer br) as [|b rest] eqn:Eb; [by rewrite (read_u8_nil br) by (done || apply Hwf)|].
  rewrite (read_u8_cons br b rest), (read_u8_cons br' b rest) by (done || apply Hwf || apply Hwf').
  destruct (wf_advance_cons br b rest Hwf Eb) as [Hwf1 _], (wf_advance_cons br' b rest Hwf' E) as [Hwf1' _].
  apply (remaining_advance_cons br b rest (proj1 (wf_pos _ Hwf))) in Eb.
  apply (remaining_advance_cons br' b rest (proj1 (wf_pos _ Hwf'))) in E.
  destruct (decide (b = 0)) as [->|H0]; [|intros H; repeat case_match; done || by eexists].
  rewrite !ST_bind_eq. destruct rest as [|c rest]; [by rewrite (read_u8_nil (advance 1 br)) by (done || apply Hwf1)|].
  rewrite (read_u8_cons (advance 1 br) c rest), (read_u8_cons (advance 1 br') c rest) by (done || apply Hwf1 || apply Hwf1').
  intros [= -> _]. by eexists.
Qed.

(** How a subsection was read, and that bytes that are unknown are read as such. *)
Lemma component_name_from_reader_inv id br n :
  wf_reader br -> component_name_from_reader id br = Ok n ->
  (exists name rg r', n = CN_Component name rg /\ read_string br = (Ok name, r'))
  \/ (exists sort sec r', wf_reader r' /\ features r' = features br /\ section_new r' = Ok sec
        /\ sorted_names n = Some (sort, sec))
  \/ (exists rg, n = CN_Unknown id (remaining_buffer br) rg
        /\ forall br', wf_reader br' -> features br' = features br -> remaining_buffer br' = remaining_buffer br ->
           exists rg', component_name_from_reader id br' = Ok (CN_Unknown id (remaining_buffer br) rg')).
Proof.
  intros Hwf. unfold component_name_from_reader at 1. intros H.
  destruct (decide (id = 0)) as [->|H0]; [|destruct (decide (id = 1)) as [->|H1]].
  - left. destruct (read_string br) as [[name|e|] r'] eqn:Er; [|done..].
    destruct (negb (eof r')); [done|]. injection H as <-. by do 3 eexists.
  - right. destruct (component_name_ctor br) as [[[mk|]|e|] r'] eqn:Ec; [| |done..].
    + left. destruct (section_new (shrink r')) as [sec|e|] eqn:Es; [|done..]. injection H as <-.
      destruct (name_ctor_inv br mk r' Ec) as [sort Hsort].
      pose proof (local_reader_wf 1 _ br _ r' local_name_ctor Hwf Ec) as Hwf'.
      destruct (local_name_ctor br _ r' Hwf Ec) as (bs & _ & _ & -> & _).
      exists sort, sec, (shrink (advance (length bs) br)). split_and!; [by apply shrink_wf|done..].
    + right. injection H as <-. eexists. split; [done|]. intros br' Hwf' Hf' E.
      destruct (name_ctor_unknown br r' br' Hwf Hwf' E Ec) as [r2 Ec']. eexists.
      unfold component_name_from_reader. by rewrite Ec', E.
  - right. right.
    assert (Hu : forall r, component_name_from_reader id r = Ok (CN_Unknown id (remaining_buffer r)
      (original_position r, original_position r + Z.of_nat (length (remaining_buffer r))))).
    { intros r. unfold component_name_from_reader. destruct id as [|p|p]; [done|by destruct p|done]. }
    fold (component_name_from_reader id br) in H. rewrite Hu in H. injection H as <-. eexists. split; [done|].
    intros br' _ _ E. rewrite Hu, E. by eexists.
Qed.

Definition component_subsection_written (f : WasmFeatures) (n : ComponentName) (names names' : list Z) : Prop :=
  exists v bs, component_name_view n = Ok v /\ names' = names ++ bs /\ bs <> []
    /\ reads_ex f (subsection_read (A := ComponentName)) bs (fun n' => component_name_view n' = Ok v).

Lemma sorted_names_written br n sort sec names names' :
  wf_reader br -> section_new br = Ok sec -> sorted_names n = Some (sort, sec) ->
  parse_custom_component_name_subsection n names = ROk names' ->
  component_subsection_written (features br) n names names'.
Proof.
  intros Hwf Hsec Hs Hp. set (f := features br).
  destruct (sorted_names_parse f n sort sec names Hs) as ((kind & Hk) & Hv & mk & Hmk & Hmap).
  destruct (name_map sec (fun i => i)) as [m|e|] eqn:Em; [|by destruct Hk as [[_ E]|[_ E]]; rewrite E in Hp..].
  destruct (name_map_translated br sec m Hwf Hsec Em) as (xs & Hxs & Hin & Hn & Hr).
  destruct (sorted_names_bytes sort kind m names names' Hin) as [-> Hl].
  { destruct Hk as [[-> E]|[-> E]]; rewrite E in Hp; [by left|by right]. }
  eexists _, _. split; [by apply Hv|]. split; [done|]. split; [done|]. apply framed_read_back; [done..|].
  intros br2 Hwf2 Hf2 E2. destruct (advance_app br2 sort _ Hwf2 E2) as [Hwf3 E3].
  destruct (content_read_back f (shrink (advance (length sort) br2)) (num_added m) (bytes m) (eq xs)) as (sec2 & ys & Es2 & Hc & <-);
    [by apply shrink_wf|done|done| |done|].
  { rewrite Hn, Nat2Z.id. by apply (reads_reads_ex f _ _ xs (eq xs)). }
  exists (mk sec2). unfold subsection_from_reader, Subsection_ComponentName, component_name_from_reader.
  rewrite (Hmk br2 _ Hwf2 Hf2 E2), Es2. split; [done|].
  by apply (sorted_names_parse f _ _ _ names (Hmap sec2)).
Qed.

Lemma component_name_written f name rg names names' :
  str_wf (mkStr name) -> WC.names_component name names = Some names' ->
  component_subsection_written f (CN_Component name rg) names names'.
Proof.
  intros Hs H. destruct (module_name_bytes name names names') as [-> Hl].
  { etrans; [|exact H]. unfold WC.names_component, WN.module. destruct (_ <=? _); [|done].
    destruct (encoding_size _) as [l|]; [|done]. cbn [mbind option_bind].
    unfold WN.push_subsection, WC.append, WN.subsection_header.
    destruct (encode_usize _); [|done]. by destruct (encode_str name). }
  eexists _, _. split; [done|]. split; [done|]. split; [done|]. apply framed_read_back; [lia|done|].
  intros br Hwf Hf E. destruct (module_name_read_back f name Hs br Hwf Hf E) as (n & Hn & Hv).
  unfold name_from_reader in Hn. unfold subsection_from_reader, Subsection_ComponentName, component_name_from_reader.
  destruct (read_string br) as [[name'|e|] r']; [|done..]. destruct (negb (eof r')); [done|].
  injection Hn as <-. injection Hv as ->. by eexists.
Qed.

Lemma component_written_subsection id br n names names' :
  0 <= id < 128 -> wf_reader br -> Z.of_nat (length (remaining_buffer br)) < 2 ^ 32 ->
  component_name_from_reader id br = Ok n ->
  parse_custom_component_name_subsection n names = ROk names' ->
  component_subsection_written (features br) n names names'.
Proof.
  intros Hid Hwf Hl Hn Hp.
  destruct (component_name_from_reader_inv id br n Hwf Hn)
    as [(name & rg & r' & -> & Hr)|[(sort & sec & r' & Hwf' & <- & Hsec & Hs)|(rg & -> & Hun)]].
  - destruct (read_string_inv br name r' Hwf Hr) as [Hs _]. cbn in Hp.
    destruct (WC.names_component name names) as [names1|] eqn:Em; [|done]. injection Hp as ->.
    by apply component_name_written.
  - by eapply sorted_names_written.
  - cbn in Hp. unfold WC.names_raw, encode_bytes, encode_usize in Hp.
    rewrite (proj2 (Z.leb_le _ _)) in Hp by lia. cbn in Hp. injection Hp as <-.
    eexists _, _. split; [done|]. split; [done|]. split; [done|]. apply framed_read_back; [done..|].
    intros br2 Hwf2 Hf2 E2. destruct (Hun br2 Hwf2 Hf2 E2) as [rg2 E]. by eexists.
Qed.

(** All the subsections: the names that are read from what is written. *)
Lemma component_names_written fuel r ret ns :
  wf_reader r -> component_name_loop fuel r ret = ROk ns ->
  exists vs bs, component_names_view fuel r = Ok vs /\ ns = ret ++ bs
    /\ forall r2 fuel2, wf_reader r2 -> features r2 = features r -> remaining_buffer r2 = bs ->
       (length bs < fuel2)%nat -> component_names_view fuel2 r2 = Ok vs.
Proof.
  revert r ret. induction fuel as [|fuel IH]; intros r ret Hwf Hs; [done|].
  cbn [component_name_loop component_names_view] in *. unfold subsections_next in *. destruct (eof r).
  { injection Hs as <-. exists [], []. rewrite app_nil_r. split_and!; [done..|].
    intros r2 fuel2 Hwf2 _ E Hl. destruct fuel2; [lia|]. cbn [component_names_view]. unfold subsections_next.
    rewrite remaining_nil_eof by done. by rewrite bool_decide_eq_true_2. }
  destruct (subsection_read r) as [[n|e|] r'] eqn:Er; [|done..]. cbn [from_result] in Hs.
  destruct (subsection_read_inv r n r' Hwf Er) as ((Hwf' & Hf') & id & br & Hid & Hwfb & Hfb & Hlb & Hn).
  cbn in Hs. destruct (parse_custom_component_name_subsection n ret) as [ret'|e|] eqn:Ep; [|done..].
  destruct (component_written_subsection id br n ret ret' Hid Hwfb Hlb Hn Ep) as (v & b1 & Hv & -> & Hne & Hrd).
  destruct (IH r' _ Hwf' Hs) as (vs & b2 & Hvs & -> & Hback). rewrite Hf' in Hback. rewrite Hfb in Hrd.
  exists (v :: vs), (b1 ++ b2). cbn. rewrite Hv. cbn. rewrite Hvs. split_and!; [done|by rewrite app_assoc|].
  intros r2 fuel2 Hwf2 Hf2 E2 Hl. destruct fuel2 as [|fuel2]; [lia|]. cbn [component_names_view].
  unfold subsections_next. rewrite remaining_nil_eof by done.
  rewrite bool_decide_eq_false_2 by (rewrite E2; by destruct b1).
  destruct (Hrd r2 b2 Hwf2 Hf2 E2) as (n2 & -> & Hv2). destruct (advance_app r2 b1 b2 Hwf2 E2) as [Hwf3 E3].
  rewrite length_app in Hl. destruct b1; [done|]. cbn in Hl. cbn [NameSpec.result_bind]. rewrite Hv2. cbn [NameSpec.result_bind].
  rewrite (Hback _ fuel2 Hwf3); [done|done|done|lia].
Qed.
End component_names.

(** ** Whole components *)

(** The bytes of a section. *)
Definition frame {L : Leb128} (s : Z * list Z) : list Z :=
  fst s :: write_unsigned (Z.of_nat (length (snd s))) ++ snd s.

Definition frames {L : Leb128} (ss : list (option (Z * list Z))) : list Z :=
  concat (map (fun s => match s with Some s => frame s | None => [] end) ss).

(** What is written for a section of items: from any reader at the content, as
    many items are read as from the original section, and equivalent ones. *)
Definition items_written (A : Type) `{FromReader A} (f : WasmFeatures) (equiv : A -> A -> Prop)
  (sec : SectionLimited) (content : list Z) : Prop :=
  exists xs, section_collect (A := A) sec = Ok xs
    /\ forall br, wf_reader br -> features br = f -> remaining_buffer br = content ->
       exists sec' ys, section_new br = Ok sec' /\ section_collect (A := A) sec' = Ok ys /\ Forall2 equiv xs ys.

(** What is written for the names of a component: from any reader at the content,
    the subsections that are read are those of the original section. *)
Definition names_written_back (f : WasmFeatures) (r : BinaryReader) (content : list Z) : Prop :=
  exists vs, component_names_view (S (length (remaining_buffer r))) r = Ok vs
    /\ forall br, wf_reader br -> features br = f -> remaining_buffer br = content ->
       component_names_view (S (length content)) br = Ok vs.

(** The section that is written for a payload: its id and its content. *)
Definition payload_written {L : Leb128} (f : WasmFeatures) (whole : list Z) (pl : Payload) (s : option (Z * list Z))
  : Prop :=
  match pl with
  | Version _ EComponent _ | End_ _ => s = None
  | InstanceSection sec => exists c, s = Some (2, c) /\ items_written Instance_ f eq sec c
  | CoreTypeSection sec => exists c, s = Some (3, c) /\ items_written CoreType f core_type_equiv sec c
  | ComponentInstanceSection sec => exists c, s = Some (5, c) /\ items_written ComponentInstance f eq sec c
  | ComponentAliasSection sec => exists c, s = Some (6, c) /\ items_written ComponentAlias f eq sec c
  | ComponentTypeSection sec => exists c, s = Some (7, c) /\ items_written ComponentType f component_type_equiv sec c
  | ComponentCanonicalSection sec => exists c, s = Some (8, c) /\ items_written CanonicalFunction f eq sec c
  | ComponentStartSection start _ => exists c, s = Some (9, c) /\ reads f from_reader_component_start c start
  | ComponentImportSection sec => exists c, s = Some (10, c) /\ items_written ComponentImport f eq sec c
  | ComponentExportSection sec => exists c, s = Some (11, c) /\ items_written ComponentExport f eq sec c
  | CustomSection c =>
      exists data, s = Some (0, (write_unsigned (Z.of_nat (length (custom_name c))) ++ custom_name c) ++ data)
        /\ match as_component_name c with
           | Some r => names_written_back f r data
           | None => data = custom_data c
           end
  | ModuleSection p range =>
      exists input m, index_range range whole = ROk input /\ parse_core_module WS.Module_new p input = ROk m
        /\ s = Some (1, WS.module_bytes m)
  | ComponentSection p range =>
      exists input c, index_range range whole = ROk input
        /\ parse_component_loop (S (length input)) whole WC.Component_new p input = ROk c
        /\ s = Some (4, WC.component_bytes c)
  | UnknownSection id _ range => exists contents, index_range range whole = ROk contents /\ s = Some (id, contents)
  | _ => False
  end.

(** The payloads of a component, without those of what is nested in it. *)
Fixpoint component_payloads (fuel : nat) (parser : Parser) (remaining : list Z) : outcome (list Payload) :=
  match fuel with
  | O => RPanic
  | S fuel' =>
      match remaining with
      | [] => ROk []
      | _ =>
          match parse parser remaining true with
          | (Ok (Parsed consumed payload), parser') =>
              remaining' ← skip_nested payload (drop (Z.to_nat consumed) remaining);
              pls ← component_payloads fuel' parser' remaining';
              mret (payload :: pls)
          | (Ok (NeedMoreData _), _) => RPanic
          | (Err e, _) => RErr (ParseError e)
          | (Panic, _) => RPanic
          end
      end
  end.

Section component.
Context {L : Leb128} {LS : Leb128Spec L}.

Lemma pushed_section id e c c' :
  unwrap_outcome (WC.component_section id e c) = ROk c' ->
  exists bs, e = Some bs /\ WC.component_bytes c' = WC.component_bytes c ++ id :: bs.
Proof. unfold WC.component_section. destruct e as [bs|]; [|done]. intros [= <-]. by exists bs. Qed.

(** A section with its size. *)
Lemma sized_bytes content bs :
  encode_bytes content = Some bs -> bs = write_unsigned (Z.of_nat (length content)) ++ content.
Proof. unfold encode_bytes, encode_usize. destruct (_ <=? _); [|done]. by intros [= <-]. Qed.

Lemma items_section_written {A} `{SectionItemLaws A} id f sec c c' :
  section_of f sec ->
  reencode_component_items id (fun s sec => for_each parse_item sec s) sec c = ROk c' ->
  exists content, items_written A f item_equiv sec content
    /\ WC.component_bytes c' = WC.component_bytes c ++ frame (WC.component_section_id id, content).
Proof.
  intros (br & Hwf & Hf & Hsec) Hc. unfold reencode_component_items in Hc.
  destruct (for_each parse_item sec SectionBuilder_new) as [s| |] eqn:Es; [|done..]. cbn [mbind outcome_bind] in Hc.
  apply pushed_section in Hc as (bs & Henc & Hb).
  destruct (translate_section br sec s Hwf Hsec Es) as (xs & Hcol & Hn & Hin & Hr & _). rewrite Hf in Hr.
  destruct (encode_builder_bytes s bs Henc) as [-> _]. eexists. split; [|exact Hb].
  exists xs. split; [done|]. intros br' Hwf' Hf' E.
  apply (content_read_back f br' (num_added s) (bytes s)); [done..| |done]. by rewrite Hn, Nat2Z.id.
Qed.

Lemma er_component_start f s :
  start_wf s ->
  enc_reads f (encode_u32 (start_func_index s) +> encode_list encode_u32 (start_arguments s) +> encode_u32 (start_results s))
    from_reader_component_start s.
Proof.
  destruct s as [i args n]. intros (Hi & Hl & Ha & Hn). cbn [start_func_index start_arguments start_results] in *.
  unfold from_reader_component_start. eapply er_bind; [by apply er_u32|]. cbv beta. eapply er_bind.
  { apply er_list; [exact LS|exact Hl|done|]. eapply Forall_impl; [exact Ha|]. intros x Hx. by apply er_u32. }
  cbv beta. eapply er_last; [|done].
  destruct (er_size f n MAX_WASM_FUNCTION_RETURNS "start function results" Hn ltac:(done)) as (bs & Eb & Hr).
  exists bs. split; [|done]. unfold MAX_WASM_FUNCTION_RETURNS in Hn. unfold encode_usize in Eb.
  by rewrite (proj2 (Z.leb_le n _)) in Eb by lia.
Qed.

Lemma start_section_written f start rg whole c c' :
  start_wf start -> parse_component_start_section start c = ROk c' ->
  exists s, payload_written f whole (ComponentStartSection start rg) s
    /\ WC.component_bytes c' = WC.component_bytes c ++ frames [s].
Proof.
  intros Hs Hc. destruct (er_component_start f start Hs) as (content & Ec & Hr).
  unfold parse_component_start_section in Hc. apply pushed_section in Hc as (bs & Eb & Hb).
  unfold WC.encode_component_start in Eb. rewrite map_id in Eb.
  replace (encode_u32 _ +> _) with (Some content) in Eb by (symmetry; exact Ec).
  cbn [mbind option_bind] in Eb. apply sized_bytes in Eb as ->. exists (Some (9, content)).
  split; [by exists content|]. unfold frames. cbn. by rewrite app_nil_r.
Qed.

Lemma custom_reader_wf f cs :
  (exists br, wf_reader br /\ features br = f /\ custom_new br = Ok cs) ->
  wf_reader (custom_reader cs) /\ features (custom_reader cs) = f.
Proof.
  intros (br & Hwf & Hf & Hc). unfold custom_new in Hc.
  destruct (read_string br) as [[name|e|] r'] eqn:Er; [|done..]. injection Hc as <-.
  destruct (read_string_inv br name r' Hwf Er) as (_ & Hwf' & Hf'). split; [done|]. cbn. by rewrite Hf'.
Qed.

Lemma custom_section_written f whole cs c c' :
  (exists br, wf_reader br /\ features br = f /\ custom_new br = Ok cs) ->
  parse_component_custom_section cs c = ROk c' ->
  exists s, payload_written f whole (CustomSection cs) s /\ WC.component_bytes c' = WC.component_bytes c ++ frames [s].
Proof.
  intros Hr Hc. destruct (custom_reader_wf f cs Hr) as [Hwf Hf].
  unfold parse_component_custom_section in Hc. unfold frames. cbn [payload_written map concat].
  destruct (as_component_name cs) as [r|] eqn:Er.
  - destruct (custom_component_name_section r) as [names| |] eqn:En; [|done..]. cbn [mbind outcome_bind] in Hc.
    apply pushed_section in Hc as (bs & Eb & Hb). unfold WC.encode_component_name_section in Eb.
    assert (custom_name cs = component_name_str /\ r = shrink (custom_reader cs)) as [Ecn ->].
    { unfold as_component_name in Er. case_bool_decide; [|done]. by injection Er as <-. }
    destruct (component_names_written _ _ [] names (shrink_wf _ Hwf) En) as (vs & bs' & Hv & -> & Hback).
    rewrite <- Ecn in Eb. destruct (custom_section_bytes _ _ _ Eb) as [-> _].
    cbn [app] in Hb. eexists (Some (0, _ ++ bs')). split; [exists bs'; split; [done|]|by rewrite app_nil_r].
    exists vs. split; [done|].
    intros br Hwf2 Hf2 E2. apply Hback; [done|by rewrite Hf2|done|lia].
  - apply pushed_section in Hc as (bs & Eb & Hb). destruct (custom_section_bytes _ _ _ Eb) as [-> _].
    eexists. split; [by exists (custom_data cs)|]. by rewrite app_nil_r.
Qed.

(** A payload that is a section of items. *)
Lemma items_payload_written {A} `{SectionItemLaws A} id f whole pl sec c c' :
  section_of f sec ->
  (forall content, items_written A f item_equiv sec content ->
     payload_written f whole pl (Some (WC.component_section_id id, content))) ->
  reencode_component_items id (fun s sec => for_each parse_item sec s) sec c = ROk c' ->
  exists s, payload_written f whole pl s /\ WC.component_bytes c' = WC.component_bytes c ++ frames [s].
Proof.
  intros Hs Hp Hc. destruct (items_section_written id f sec c c' Hs Hc) as (ct & Hi & Hb).
  eexists. split; [by apply Hp|]. unfold frames. cbn [map concat]. by rewrite app_nil_r.
Qed.

Lemma payload_section_written enc f whole sub pl c c' :
  payload_wf enc f pl ->
  (forall np rg input x, pl = ComponentSection np rg -> index_range rg whole = ROk input ->
     sub WC.Component_new np input = ROk x ->
     parse_component_loop (S (length input)) whole WC.Component_new np input = ROk x) ->
  parse_component_payload sub whole pl c = ROk c' ->
  exists s, payload_written f whole pl s /\ WC.component_bytes c' = WC.component_bytes c ++ frames [s].
Proof.
  intros Hw Hsub Hc. destruct pl; try done; cbn [parse_component_payload] in Hc.
  - destruct encoding; [done|]. injection Hc as <-. exists None. split; [done|]. by rewrite app_nil_r.
  - destruct (index_range unchecked_range whole) as [input| |] eqn:Ei; [|done..]. cbn [mbind outcome_bind] in Hc.
    unfold parse_component_submodule in Hc.
    destruct (parse_core_module WS.Module_new parser input) as [m| |] eqn:Em; [|done..]. cbn [mbind outcome_bind] in Hc.
    apply pushed_section in Hc as (bs & Eb & Hb). apply sized_bytes in Eb as ->.
    eexists. split; [by exists input, m|]. unfold frames. cbn. by rewrite app_nil_r.
  - eapply (items_payload_written (A := Instance_) WC.CoreInstanceId); [exact Hw|intros ct Hi; by exists ct|exact Hc].
  - eapply (items_payload_written (A := CoreType) WC.CoreTypeId); [exact Hw|intros ct Hi; by exists ct|exact Hc].
  - destruct (index_range unchecked_range whole) as [input| |] eqn:Ei; [|done..]. cbn [mbind outcome_bind] in Hc.
    destruct (sub WC.Component_new parser input) as [x| |] eqn:Ex; [|done..]. cbn [mbind outcome_bind] in Hc.
    apply pushed_section in Hc as (bs & Eb & Hb). apply sized_bytes in Eb as ->.
    eexists. split; [exists input, x; split_and!; [done|by eapply Hsub|done]|]. unfold frames. cbn. by rewrite app_nil_r.
  - eapply (items_payload_written (A := ComponentInstance) WC.InstanceId); [exact Hw|intros ct Hi; by exists ct|exact Hc].
  - eapply (items_payload_written (A := ComponentAlias) WC.AliasId); [exact Hw|intros ct Hi; by exists ct|exact Hc].
  - eapply (items_payload_written (A := ComponentType) WC.TypeId); [exact Hw|intros ct Hi; by exists ct|exact Hc].
  - eapply (items_payload_written (A := CanonicalFunction) WC.CanonicalFunctionId); [exact Hw|intros ct Hi; by exists ct|exact Hc].
  - by apply start_section_written.
  - eapply (items_payload_written (A := ComponentImport) WC.ImportId); [exact Hw|intros ct Hi; by exists ct|exact Hc].
  - eapply (items_payload_written (A := ComponentExport) WC.ExportId); [exact Hw|intros ct Hi; by exists ct|exact Hc].
  - by apply custom_section_written; [exact Hw|].
  - cbn [as_section] in Hc. destruct (index_range range whole) as [ct| |] eqn:Ei; [|done..]. cbn [mbind outcome_bind] in Hc.
    apply pushed_section in Hc as (bs & Eb & Hb). apply sized_bytes in Eb as ->.
    eexists. split; [by exists ct|]. unfold frames. cbn. by rewrite app_nil_r.
  - injection Hc as <-. exists None. split; [done|]. by rewrite app_nil_r.
Qed.

(** ** The loop over the payloads *)

(** A parser in front of [data], which ends where the parser does or before. *)
Definition in_front (p : Parser) (data : list Z) : Prop :=
  wf_parser p /\ Forall is_byte data /\ Z.of_nat (length data) <= p_max_size p.

Lemma index_range_ok rg whole input :
  index_range rg whole = ROk input -> Forall is_byte whole ->
  0 <= fst rg -> Forall is_byte input /\ Z.of_nat (length input) = snd rg - fst rg.
Proof.
  destruct rg as [a b]. unfold index_range. destruct (Z.leb_spec a b); [|done].
  destruct (Z.leb_spec b (Z.of_nat (length whole))); [|done]. intros [= <-] Hb Ha. cbn [fst snd] in *.
  unfold slice. split; [by apply Forall_take, Forall_drop|]. rewrite length_take, length_drop. lia.
Qed.

(** One iteration: it makes progress, and what is nested is shorter. *)
Lemma component_step p data c pl p' :
  in_front p data -> data <> [] -> parse p data true = (Ok (Parsed c pl), p') ->
  exists k, c = Z.of_nat k /\ (0 < k <= length data)%nat /\ payload_wf (p_encoding p) (p_features p) pl
    /\ p_features p' = p_features p
    /\ forall rest, skip_nested pl (drop k data) = ROk rest ->
       in_front p' rest /\ (length rest < length data)%nat
       /\ forall whole np rg input, pl = ComponentSection np rg -> index_range rg whole = ROk input ->
          Forall is_byte whole -> in_front np input /\ (length input < length data)%nat.
Proof.
  intros (Hp & Hb & Hl) Hne E. pose proof (parse_ok p data true Hp Hb) as Hok. rewrite E in Hok. cbn [fst snd parse_post] in Hok.
  destruct Hok as (k & p1 & -> & Hk & Hpo & -> & Hend). exists k.
  assert (Hk0 : (0 < k)%nat).
  { pose proof (po_progress _ _ _ _ Hpo) as Hpr. destruct (is_end pl) eqn:He; [|done].
    destruct (Hend eq_refl) as [Hd _]. unfold limit_data in Hd.
    destruct (Z.ltb_spec (p_max_size p) (Z.of_nat (length data))); [lia|]. by injection Hd as ->. }
  split_and!; [done|lia|lia|apply (po_content _ _ _ _ Hpo)|cbn; apply (po_features _ _ _ _ Hpo)|].
  intros rest Hr. pose proof (payload_ok_wf _ _ _ _ Hp Hpo) as Hwf.
  pose proof (fun np => nested_wf _ _ _ _ np Hp Hpo) as Hnw.
  pose proof (po_content _ _ _ _ Hpo) as Hct. pose proof (po_max_size _ _ _ _ Hpo) as Hms.
  assert (Hrest : Forall is_byte rest /\ Z.of_nat (length rest) = Z.of_nat (length data) - Z.of_nat k - nested_size pl
    /\ 0 <= nested_size pl).
  { assert (Hd : Forall is_byte (drop k data)) by by apply Forall_drop.
    destruct pl; try (injection Hr as <-; split; [done|]; rewrite length_drop; cbn; lia);
      destruct unchecked_range as [a b], Hct as [-> ->]; unfold nested_size; cbn [skip_nested nested_parser] in *;
      (destruct (Z.leb_spec (p_offset parser + p_max_size parser - p_offset parser) (Z.of_nat (length (drop k data))));
        [|done]); injection Hr as <-; (split; [by apply Forall_drop|]); rewrite !length_drop in *;
      destruct (Hnw parser eq_refl) as [? ? ? ?]; lia. }
  destruct Hrest as (Hbr & Hlr & Hns). split; [split_and!; [done|done|cbn; lia]|]. split; [lia|].
  intros whole np [a b] input -> Hi Hbw. destruct Hct as [-> ->]. pose proof (Hnw np eq_refl) as Hnp.
  destruct (index_range_ok _ _ _ Hi Hbw) as [Hbi Hli]; [apply Hnp|]. cbn [fst snd] in Hli.
  unfold nested_size in *. cbn [nested_parser] in *. split; [split_and!; [done|done|lia]|]. lia.
Qed.

Lemma payload_sub_ext sub sub' whole pl c :
  (forall np rg input, pl = ComponentSection np rg -> index_range rg whole = ROk input ->
     sub WC.Component_new np input = sub' WC.Component_new np input) ->
  parse_component_payload sub whole pl c = parse_component_payload sub' whole pl c.
Proof.
  intros H. destruct pl; try done. cbn [parse_component_payload].
  destruct (index_range unchecked_range whole) as [input| |] eqn:Ei; [|done..]. cbn [mbind outcome_bind].
  by rewrite (H _ _ _ eq_refl Ei).
Qed.

(** More fuel than bytes changes nothing. *)
Lemma component_loop_fuel whole f1 f2 c p data :
  Forall is_byte whole -> in_front p data -> (length data < f1)%nat -> (length data < f2)%nat ->
  parse_component_loop f1 whole c p data = parse_component_loop f2 whole c p data.
Proof.
  intros Hw. revert f2 c p data. induction f1 as [|f1 IH]; intros [|f2] c p data Hin H1 H2; try lia.
  cbn [parse_component_loop]. destruct data as [|b data]; [done|].
  destruct (parse p (b :: data) true) as [[[h|n pl]|e|] p'] eqn:Ep; [done| |done..].
  destruct (component_step p (b :: data) n pl p' Hin ltac:(done) Ep) as (k & -> & Hk & _ & _ & Hstep).
  destruct (_ <? _); [done|]. rewrite Nat2Z.id.
  destruct (skip_nested pl _) as [rest| |] eqn:Er; [|done..]. cbn [mbind outcome_bind].
  destruct (Hstep rest eq_refl) as (Hin' & Hl & Hnest).
  rewrite (payload_sub_ext _ (parse_component_loop f2 whole)).
  - destruct (parse_component_payload _ _ _ _); [|done..]. cbn [mbind outcome_bind]. apply IH; [done|lia..].
  - intros np rg input Epl Ei. destruct (Hnest whole np rg input Epl Ei Hw) as [Hn Hli]. apply IH; [done|lia..].
Qed.

Lemma frames_app ss ss' : frames (ss ++ ss') = frames ss ++ frames ss'.
Proof. unfold frames. by rewrite map_app, concat_app. Qed.

Lemma component_loop_written whole fuel c0 p data c :
  Forall is_byte whole -> in_front p data -> (length data < fuel)%nat ->
  parse_component_loop fuel whole c0 p data = ROk c ->
  exists pls ss, component_payloads fuel p data = ROk pls
    /\ Forall2 (payload_written (p_features p) whole) pls ss
    /\ WC.component_bytes c = WC.component_bytes c0 ++ frames ss.
Proof.
  intros Hw. revert c0 p data. induction fuel as [|fuel IH]; intros c0 p data Hin Hf Hc; [lia|].
  cbn [parse_component_loop component_payloads] in *. destruct data as [|b data].
  { injection Hc as <-. exists [], []. by rewrite app_nil_r. }
  destruct (parse p (b :: data) true) as [[[h|n pl]|e|] p'] eqn:Ep; [done| |done..].
  destruct (component_step p (b :: data) n pl p' Hin ltac:(done) Ep) as (k & -> & Hk & Hpw & Hft & Hstep).
  destruct (_ <? _); [done|]. rewrite Nat2Z.id in *.
  destruct (skip_nested pl _) as [rest| |] eqn:Er; [|done..]. cbn [mbind outcome_bind] in *.
  destruct (Hstep rest eq_refl) as (Hin' & Hl & Hnest).
  destruct (parse_component_payload _ _ pl c0) as [c1| |] eqn:Ec; [|done..]. cbn [mbind outcome_bind] in Hc.
  destruct (IH c1 p' rest Hin' ltac:(lia) Hc) as (pls & ss & -> & Hss & Hb). rewrite Hft in Hss.
  destruct (payload_section_written (p_encoding p) (p_features p) whole (parse_component_loop fuel whole) pl c0 c1 Hpw)
    as (s & Hs & Hb1); [|exact Ec|].
  { intros np rg input x Epl Ei Ex. destruct (Hnest whole np rg input Epl Ei Hw) as [Hn Hli].
    rewrite <- Ex. apply component_loop_fuel; [done|done|lia..]. }
  exists (pl :: pls), (s :: ss). split; [done|]. split; [by constructor|].
  change (s :: ss) with ([s] ++ ss). by rewrite frames_app, Hb, Hb1, app_assoc.
Qed.
End component.

(** C5. Re-encoding a whole component, and each component nested in it.  The loop
    terminates: any bound above the number of bytes gives the same result.  When
    the translation succeeds, every payload that the parser reports, in order,
    is written as one section with the same id and nothing else is written:
    sections of items with content that any reader reads back as equivalent
    items, the start section with the same function, a nested module or component
    as the translation of exactly its bytes, a custom section named
    [component-name] with content that any reader reads back as the same names
    (the name of the component, the names of each sort with their indices, and
    unknown subsections byte by byte), and every other custom section and the
    unknown sections byte by byte. *)
Theorem reencode_component {L : Leb128} {LS : Leb128Spec L} whole p data c0 :
  Forall is_byte whole -> in_front p data ->
  (forall fuel, (length data < fuel)%nat ->
     parse_component_loop fuel whole c0 p data = parse_component_loop (S (length data)) whole c0 p data)
  /\ forall c, parse_component_loop (S (length data)) whole c0 p data = ROk c ->
     exists pls ss, component_payloads (S (length data)) p data = ROk pls
       /\ Forall2 (payload_written (p_features p) whole) pls ss
       /\ WC.component_bytes c = WC.component_bytes c0 ++ frames ss.
Proof.
  intros Hw Hin. split; [intros fuel Hf; apply component_loop_fuel; [done|done|lia..]|].
  intros c Hc. apply (component_loop_written whole (S (length data)) c0 p data c); [done|done|lia|done].
Qed.

(** A component with an import section (an instance of type 0, after an instance
    type), a nested module that is empty but for its header, a custom section, and
    names: of the component, and of core function 0, after a count of two bytes. *)
Definition sample_component : list Z :=
  WC.COMPONENT_HEADER ++ [0x07; 0x83; 0x00; 0x01; 0x42; 0x00] ++ [0x0a; 0x06; 0x01; 0x01; 0x01; 0x61; 0x05; 0x00]
  ++ [0x01; 0x08] ++ WS.HEADER ++ [0x00; 0x03; 0x01; 0x78; 0xff]
  ++ [0x00; 0x1c; 0x0e] ++ component_name_str
  ++ [0x00; 0x02; 0x01; 0x63] ++ [0x01; 0x07; 0x00; 0x00; 0x81; 0x00; 0x00; 0x01; 0x66].

Lemma reencode_component_witness :
  Leb128Spec ref_leb128 /\ exists c pls ss,
    parse_component (L := ref_leb128) WC.Component_new (Parser_new 0) sample_component = ROk c
    /\ component_payloads (S (length sample_component)) (Parser_new 0) sample_component = ROk pls
    /\ length pls = 6%nat
    /\ Forall2 (payload_written (L := ref_leb128) all sample_component) pls ss
    /\ WC.component_bytes c = WC.COMPONENT_HEADER ++ [0x07; 0x03; 0x01; 0x42; 0x00]
         ++ [0x0a; 0x06; 0x01; 0x00; 0x01; 0x61; 0x05; 0x00] ++ [0x01; 0x08] ++ WS.HEADER
         ++ [0x00; 0x03; 0x01; 0x78; 0xff] ++ [0x00; 0x1b; 0x0e] ++ component_name_str
         ++ [0x00; 0x02; 0x01; 0x63] ++ [0x01; 0x06; 0x00; 0x00; 0x01; 0x00; 0x01; 0x66].
Proof.
  split; [exact ref_leb128_spec|].
  assert (Hb : Forall is_byte sample_component) by (repeat constructor; discriminate).
  assert (Hin : in_front (Parser_new 0) sample_component).
  { split; [apply wf_parser_new|]. split; [exact Hb|]. vm_compute. discriminate. }
  destruct (reencode_component (LS := ref_leb128_spec) sample_component (Parser_new 0) sample_component
    WC.Component_new Hb Hin) as [_ H].
  eexists.
  destruct (H _ ltac:(vm_compute; reflexivity)) as (pls & ss & Hp & Hs & _). exists pls, ss.
  split; [vm_compute; reflexivity|]. split; [exact Hp|]. split; [|split; [exact Hs|reflexivity]].
  vm_compute in Hp. injection Hp as <-. reflexivity.
Defined.

(** ** Truncated components *)

Section truncated.
Context {L : Leb128} {LS : Leb128Spec L}.

Lemma component_version_read : reads all read_header_version WC.COMPONENT_HEADER 0x1000d.
Proof.
  intros r rest Hwf Hf E.
  change WC.COMPONENT_HEADER with (WASM_MAGIC_NUMBER ++ [0x0d; 0x00; 0x01; 0x00]) in E |- *.
  rewrite <- app_assoc in E. unfold read_header_version. rewrite ST_bind_eq.
  rewrite (reads_bytes all WASM_MAGIC_NUMBER 4 eq_refl r _ Hwf Hf E).
  rewrite bool_decide_eq_true_2 by done. cbn [negb].
  destruct (advance_app r _ _ Hwf E) as [Hwf1 E1].
  rewrite (reads_u32 all [0x0d; 0x00; 0x01; 0x00] eq_refl _ _ Hwf1 Hf E1). by rewrite advance_advance.
Qed.

Lemma component_header_parsed rest :
  Forall is_byte (WC.COMPONENT_HEADER ++ rest) -> Z.of_nat (length (WC.COMPONENT_HEADER ++ rest)) <= u64_MAX ->
  parse (Parser_new 0) (WC.COMPONENT_HEADER ++ rest) true
  = (Ok (Parsed 8 (Version 13 EComponent (0, 8))), enc_parser EComponent 8).
Proof.
  intros Hb Hl. pose proof (fresh_wf 0 _ Hb ltac:(lia) ltac:(lia)) as Hwf.
  change (enc_parser EComponent 8) with
    (advance_parser 8 (set_state SectionStart (set_encoding EComponent (Parser_new 0)))).
  apply (parse_step (Parser_new 0) _ _ _ 8); cbn [Parser_new p_features p_offset p_max_size]; try (done || lia).
  2: { rewrite length_app. cbn. lia. }
  change (mkParser Header 0 u64_MAX EModule all) with (Parser_new 0).
  unfold parse_reader. rewrite pr_get. cbn [p_state Parser_new]. unfold parse_header.
  rewrite pr_gets. rewrite (pr_read _ _ _ _ 0x1000d (advance 8 (fresh 0 (WC.COMPONENT_HEADER ++ rest))))
    by (by apply component_version_read with (rest := rest)).
  rewrite fresh_position. done.
Qed.

(** A nested section at [o]: it is reported before its content is looked at. *)
Lemma nested_section_parsed o id len body :
  id = 1 \/ id = 4 -> 0 <= len <= MAX_WASM_MODULE_SIZE -> Forall is_byte (id :: write_unsigned len ++ body) ->
  0 <= o -> o + 1 + Z.of_nat (length (write_unsigned len)) + len + Z.of_nat (length body) <= u64_MAX ->
  exists n pl p', parse (enc_parser EComponent o) (id :: write_unsigned len ++ body) true = (Ok (Parsed n pl), p')
    /\ n = 1 + Z.of_nat (length (write_unsigned len))
    /\ forall rest, Z.of_nat (length rest) < len -> skip_nested pl rest = RPanic.
Proof.
  intros Hid Hlen Hb Ho Hfit. set (data := id :: write_unsigned len ++ body).
  assert (Hdl : Z.of_nat (length data) = 1 + Z.of_nat (length (write_unsigned len)) + Z.of_nat (length body)).
  { unfold data. cbn [length]. rewrite length_app. lia. }
  pose proof (fresh_wf o data Hb Ho ltac:(lia)) as Hwf. unfold MAX_WASM_MODULE_SIZE in Hlen.
  assert (Hu : in_u 32 len) by (unfold in_u; lia).
  pose proof (parse_reader_section EComponent o id len body ltac:(lia) Hu Hwf ltac:(lia)) as Hp. fold data in Hp.
  unfold parse, limit_data. cbn [p_max_size p_offset p_features enc_parser].
  destruct (Z.ltb_spec (u64_MAX - o) (Z.of_nat (length data))); [lia|]. cbn [fst snd].
  change (BinaryReader_new_features data o all) with (fresh o data).
  change (mkParser SectionStart o (u64_MAX - o) EComponent all) with (enc_parser EComponent o). rewrite Hp.
  set (r := advance _ (fresh o data)).
  assert (Hpos : original_position r = o + 1 + Z.of_nat (length (write_unsigned len))).
  { unfold r. rewrite advance_original_position, fresh_position. lia. }
  unfold section_payload. rewrite pr_get. cbn [p_encoding enc_parser].
  destruct (Z.eqb_spec id 0); [lia|].
  replace (component_section_payload id len (o + 1)) with (Some (nested_section id len (o + 1)))
    by by destruct Hid as [-> | ->].
  unfold nested_section. destruct (Z.ltb_spec MAX_WASM_MODULE_SIZE len); [unfold MAX_WASM_MODULE_SIZE in *; lia|].
  rewrite pr_gets, pr_get. unfold u64_sub, u64_add. cbn [p_max_size p_offset enc_parser].
  rewrite (proj2 (Z.leb_le len _)) by lia. rewrite (proj2 (Z.leb_le (o + len) _)) by lia.
  rewrite Hpos. unfold on_parser. destruct Hid as [-> | ->]; unfold mbind, ST_bind, mret, ST_ret, modify;
    cbn [set_max_size set_offset enc_parser p_offset p_max_size p_state p_encoding p_features]; rewrite Hpos;
    (destruct (Z.ltb_spec u64_MAX (o + len + (o + 1 + Z.of_nat (length (write_unsigned len)) - o))); [lia|]);
    (destruct (Z.ltb_spec (u64_MAX - o - len) (o + 1 + Z.of_nat (length (write_unsigned len)) - o)); [lia|]);
    (eexists _, _, _; split; [done|]; split; [lia|]); intros rest Hr; cbn [skip_nested];
    (destruct (Z.leb_spec (o + 1 + Z.of_nat (length (write_unsigned len)) + len
       - (o + 1 + Z.of_nat (length (write_unsigned len)))) (Z.of_nat (length rest))); [lia|done]).
Qed.

Lemma component_loop_step fuel whole c p data n pl p' :
  data <> [] -> parse p data true = (Ok (Parsed n pl), p') -> n <= Z.of_nat (length data) ->
  parse_component_loop (S fuel) whole c p data
  = (rest ← skip_nested pl (drop (Z.to_nat n) data);
     c' ← parse_component_payload (parse_component_loop fuel whole) whole pl c;
     parse_component_loop fuel whole c' p' rest).
Proof.
  intros Hne Hp Hn. cbn [parse_component_loop]. destruct data as [|b data]; [done|]. rewrite Hp.
  by destruct (Z.ltb_spec (Z.of_nat (length (b :: data))) n); [lia|].
Qed.
End truncated.

(** Re-encoding panics on a truncated component.  When the last section of a
    component is a nested module or component of a size that is allowed, but the
    input ends before its content does, the parser reports the section, and the
    translation slices past the end of the input: whatever the bytes that are
    left, it panics in its second step and does not return an error. *)
Theorem truncated_component_panics {L : Leb128} {LS : Leb128Spec L} id len body :
  id = 1 \/ id = 4 -> 0 <= len <= MAX_WASM_MODULE_SIZE -> Z.of_nat (length body) < len -> Forall is_byte body ->
  let data := WC.COMPONENT_HEADER ++ id :: write_unsigned len ++ body in
  parse_component WC.Component_new (Parser_new 0) data = RPanic
  /\ forall fuel, parse_component_loop (S (S fuel)) data WC.Component_new (Parser_new 0) data = RPanic.
Proof.
  intros Hid Hlen Hbody Hb data.
  assert (Hu : in_u 32 len) by (unfold in_u, MAX_WASM_MODULE_SIZE in *; lia).
  assert (Hwl : (length (write_unsigned len) <= 5)%nat) by (apply (write_unsigned_length 4); unfold in_u in *; cbn; lia).
  assert (Hbs : Forall is_byte (id :: write_unsigned len ++ body)).
  { constructor; [unfold is_byte; lia|]. apply Forall_app. split; [|done].
    apply leb_form_bytes, unsigned_form. unfold in_u in *. lia. }
  assert (Hl : Z.of_nat (length data) <= 14 + len).
  { unfold data. rewrite length_app. cbn [length]. rewrite length_app. cbn. lia. }
  assert (Hda : Forall is_byte data) by (apply Forall_app; split; [repeat constructor; discriminate|done]).
  unfold MAX_WASM_MODULE_SIZE in Hlen.
  cut (forall fuel, parse_component_loop (S (S fuel)) data WC.Component_new (Parser_new 0) data = RPanic).
  { intros H. split; [|done]. unfold parse_component.
    destruct (length data) as [|fuel] eqn:El; [by apply length_zero_iff_nil in El|apply H]. }
  intros fuel.
  pose proof (component_header_parsed _ Hda ltac:(unfold u64_MAX; fold data; lia)) as Hh. fold data in Hh.
  assert (Hne : data <> []) by (unfold data; discriminate).
  rewrite (component_loop_step _ _ _ _ _ _ _ _ Hne Hh) by (unfold data; rewrite length_app; cbn; lia).
  change (drop (Z.to_nat 8) data) with (id :: write_unsigned len ++ body).
  cbn [skip_nested mbind outcome_bind parse_component_payload mret outcome_ret].
  destruct (nested_section_parsed 8 id len body Hid ltac:(unfold MAX_WASM_MODULE_SIZE; lia) Hbs ltac:(lia)
    ltac:(unfold u64_MAX; lia)) as (n & pl & p' & Hp & -> & Hskip).
  rewrite (component_loop_step _ _ _ _ _ _ _ _ (not_eq_sym (nil_cons (x := id) (l := _))) Hp) by (cbn [length]; rewrite length_app; lia).
  replace (Z.to_nat (1 + _)) with (S (length (write_unsigned len))) by lia. cbn [drop].
  by rewrite drop_app_length, Hskip.
Qed.

(** A nested module of eight bytes, of which two are there. *)
Lemma truncated_component_panics_witness :
  Leb128Spec ref_leb128
  /\ parse_component (L := ref_leb128) WC.Component_new (Parser_new 0)
       (WC.COMPONENT_HEADER ++ [0x01; 0x08; 0x00; 0x61]) = RPanic.
Proof.
  split; [exact ref_leb128_spec|].
  pose proof (truncated_component_panics (LS := ref_leb128_spec) 1 8 [0x00; 0x61] ltac:(by left)
    ltac:(vm_compute; split; discriminate) ltac:(vm_compute; reflexivity) ltac:(repeat constructor; discriminate)) as [H _].
  exact H.
Defined.
