(* ===== verification/ComponentNameTheorems.v ===== *)
(** Import and export names of components, [crates/wasmparser/src/validator/names.rs]:
    the grammar of names, a logic for the name parser, and the properties of parsing,
    of the accessors, and of the equality, hash and order of names. *)

From Stdlib Require Import ZArith Lia String Ascii.
From stdpp Require Import prelude.
From S2P Require Import Prelude StateLogic BinaryReader ComponentNames.

Local Open Scope Z_scope.

(** ** The grammar of kebab strings *)

(** Joined words: each but the first after a separator. *)
Definition seps (c : Z) (ws : list Chars) : Chars := concat (map (cons c) ws).

Definition word_char (upper : bool) (c : Z) : bool := (if upper then is_AZ c else is_az c) || is_digit c.

(** A letter, then letters of the same case and digits. *)
Definition kebab_word (w : Chars) : Prop :=
  exists (upper : bool) c cs, w = c :: cs /\ (if upper then is_AZ c else is_az c) = true
    /\ Forall (fun c => word_char upper c = true) cs.

Definition kebab_case (s : Chars) : Prop :=
  exists w ws, Forall kebab_word (w :: ws) /\ s = w ++ seps DASH ws.

Ltac char_cases :=
  unfold word_char, not_kebab_char, semver_char, is_az, is_AZ, is_digit, DASH, DOT, COLON, SLASH, AT, LT_, GT_ in *;
  repeat match goal with
  | H : context [ ?a <=? ?b ] |- _ => destruct (Z.leb_spec a b)
  | H : context [ ?a =? ?b ] |- _ => destruct (Z.eqb_spec a b)
  | |- context [ ?a <=? ?b ] => destruct (Z.leb_spec a b)
  | |- context [ ?a =? ?b ] => destruct (Z.eqb_spec a b)
  end;
  cbn in *; try done; try lia.

Lemma kebab_loop_char upper c s :
  word_char upper c = true -> kebab_loop (negb upper) upper (c :: s) = kebab_loop (negb upper) upper s.
Proof. intros H. cbn [kebab_loop]. destruct upper; char_cases. Qed.

Lemma kebab_loop_dash upper s : kebab_loop (negb upper) upper (DASH :: s) = kebab_loop false false s.
Proof. by destruct upper. Qed.

Lemma kebab_loop_letter (upper : bool) c s :
  (if upper then is_AZ c else is_az c) = true -> kebab_loop false false (c :: s) = kebab_loop (negb upper) upper s.
Proof. intros H. cbn [kebab_loop]. destruct upper; char_cases. Qed.

Lemma kebab_loop_start c s :
  kebab_loop false false (c :: s) = true ->
  exists upper : bool, (if upper then is_AZ c else is_az c) = true /\ kebab_loop (negb upper) upper s = true.
Proof.
  intros H. destruct (is_az c) eqn:E1.
  { exists false. split; [done|]. by rewrite <- (kebab_loop_letter false c s E1). }
  destruct (is_AZ c) eqn:E2.
  { exists true. split; [done|]. by rewrite <- (kebab_loop_letter true c s E2). }
  cbn [kebab_loop] in H. rewrite E1, E2, !andb_false_r in H. done.
Qed.

Lemma kebab_loop_next upper c s :
  kebab_loop (negb upper) upper (c :: s) = true ->
  (word_char upper c = true /\ kebab_loop (negb upper) upper s = true)
  \/ (c = DASH /\ kebab_loop false false s = true).
Proof.
  intros H. destruct (word_char upper c) eqn:E; [left; split; [done|by rewrite <- (kebab_loop_char upper c s E)]|].
  destruct (Z.eqb_spec c DASH) as [->|Hd]; [right; split; [done|by rewrite kebab_loop_dash in H]|].
  exfalso. cbn [kebab_loop] in H. destruct upper; char_cases.
Qed.

Lemma ends_with_cons c a s : s <> [] -> ends_with c (a :: s) = ends_with c s.
Proof. unfold ends_with. by destruct s. Qed.

(** The states of the loop inside a word. *)
Lemma kebab_loop_word upper s :
  kebab_loop (negb upper) upper s = true -> ends_with DASH s = false ->
  exists tail ws, Forall (fun c => word_char upper c = true) tail /\ Forall kebab_word ws /\ s = tail ++ seps DASH ws.
Proof.
  revert upper. induction s as [s IH] using (induction_ltof1 _ (@length Z)). intros upper H He.
  destruct s as [|c s]; [by exists [], []|]. apply kebab_loop_next in H as [[Hc H]|[-> H]].
  - destruct s as [|c' s]; [exists [c], []; split_and!; [by constructor|constructor|done]|].
    rewrite ends_with_cons in He by done.
    destruct (IH (c' :: s) ltac:(unfold ltof; cbn; lia) upper H He) as (tail & ws & Ht & Hws & ->).
    exists (c :: tail), ws. split_and!; [by constructor|done..].
  - destruct s as [|c' s]; [done|]. apply kebab_loop_start in H as (up & Hc' & H).
    assert (He' : ends_with DASH s = false).
    { rewrite ends_with_cons in He by done. destruct s; [done|]. by rewrite ends_with_cons in He. }
    destruct (IH s ltac:(unfold ltof; cbn; lia) up H He') as (tail & ws & Ht & Hws & ->).
    exists [], ((c' :: tail) :: ws). split; [constructor|]. split; [|done].
    constructor; [by exists up, c', tail|done].
Qed.

Lemma kebab_loop_tail upper tail s :
  Forall (fun c => word_char upper c = true) tail ->
  kebab_loop (negb upper) upper (tail ++ s) = kebab_loop (negb upper) upper s.
Proof. induction 1 as [|c tail Hc _ IH]; [done|]. cbn [app]. by rewrite kebab_loop_char. Qed.

Lemma kebab_loop_words upper ws :
  Forall kebab_word ws -> kebab_loop (negb upper) upper (seps DASH ws) = true.
Proof.
  revert upper. induction ws as [|w ws IH]; intros upper H; [done|]. apply Forall_cons in H as [(up & c & cs & -> & Hc & Hcs) H].
  unfold seps. cbn [map concat]. rewrite <- app_comm_cons, kebab_loop_dash, <- app_comm_cons, (kebab_loop_letter up) by done.
  rewrite kebab_loop_tail by done. by apply IH.
Qed.

Lemma kebab_word_last w : kebab_word w -> exists c, last w = Some c /\ c <> DASH.
Proof.
  intros (up & c & cs & -> & Hc & Hcs). induction cs as [|d cs IH] using rev_ind.
  - exists c. split; [done|]. destruct up; char_cases.
  - apply Forall_app in Hcs as [_ Hd]. rewrite Forall_singleton in Hd. exists d.
    split; [by rewrite app_comm_cons, last_snoc|]. destruct up; char_cases.
Qed.

Lemma kebab_case_last s : kebab_case s -> exists c, last s = Some c /\ c <> DASH.
Proof.
  intros (w & ws & H & ->). destruct ws as [|w' ws _] using rev_ind.
  - rewrite app_nil_r. apply Forall_cons in H as [H _]. by apply kebab_word_last.
  - assert (Hw : kebab_word w').
    { apply Forall_cons in H as [_ H]. apply Forall_app in H as [_ H]. by rewrite Forall_singleton in H. }
    destruct (kebab_word_last w' Hw) as (c & Hl & Hc). exists c. split; [|done].
    unfold seps. rewrite map_app, concat_app. cbn [map concat]. rewrite app_nil_r, app_assoc.
    rewrite last_app_cons. destruct w' as [|a w']; [done|]. by rewrite last_cons_cons.
Qed.

Lemma is_kebab_case_spec s : is_kebab_case s = true <-> kebab_case s.
Proof.
  unfold is_kebab_case. rewrite !andb_true_iff, !negb_true_iff. split.
  - intros (H & Hn & He). destruct s as [|c s]; [by case_bool_decide|]. apply kebab_loop_start in H as (up & Hc & H).
    assert (He' : ends_with DASH s = false) by (destruct s; [done|]; by rewrite ends_with_cons in He).
    destruct (kebab_loop_word up s H He') as (tail & ws & Ht & Hws & ->).
    exists (c :: tail), ws. split; [|done]. constructor; [by exists up, c, tail|done].
  - intros H. destruct (kebab_case_last s H) as (c & Hl & Hc). split_and!.
    + destruct H as (w & ws & H & ->). apply Forall_cons in H as [(up & a & cs & -> & Ha & Hcs) H].
      rewrite <- app_comm_cons, (kebab_loop_letter up), kebab_loop_tail by done. by apply kebab_loop_words.
    + case_bool_decide as E; [by rewrite E in Hl|done].
    + unfold ends_with. rewrite Hl. by apply Z.eqb_neq.
Qed.

(** Its characters are letters, digits and dashes. *)
Lemma kebab_case_chars s : kebab_case s -> Forall (fun c => not_kebab_char c = false) s.
Proof.
  assert (Hw : forall w, kebab_word w -> Forall (fun c => not_kebab_char c = false) w).
  { intros w (up & c & cs & -> & Hc & Hcs). constructor; [destruct up; char_cases|].
    eapply Forall_impl; [exact Hcs|]. intros x Hx. destruct up; char_cases. }
  intros (w & ws & H & ->). apply Forall_cons in H as [H Hs]. apply Forall_app. split; [by apply Hw|].
  induction Hs as [|w' ws Hw' _ IH]; [constructor|]. unfold seps. cbn. constructor; [done|].
  apply Forall_app. split; [by apply Hw|exact IH].
Qed.

Lemma kebab_case_nonempty s : kebab_case s -> s <> [].
Proof. intros H ->. by destruct (kebab_case_last [] H) as (c & ? & _). Qed.

(** ** A logic of grammars

    [accepts f m P]: with the features [f], the parser [m] succeeds with [a] after
    taking [s] in front of [r] exactly when [P s r a]; it does not panic, and its
    errors are located at the offset of the name. *)

Record accepts_at {A} (p : ComponentNameParser) (m : Parse A) (P : Chars -> Chars -> A -> Prop) : Prop := {
  acc_iff a p' : m p = (Ok a, p') <-> exists s, next p = s ++ next p' /\ p' = set_next (next p') p /\ P s (next p') a;
  acc_safe : match (m p).1 with Ok _ => True | Err e => offset e = np_offset p | Panic => False end;
}.

Definition accepts {A} (f : WasmFeatures) (m : Parse A) (P : Chars -> Chars -> A -> Prop) : Prop :=
  forall p, np_features p = f -> accepts_at p m P.

Lemma set_next_id p : set_next (next p) p = p.
Proof. by destruct p. Qed.

Lemma acc_ext_at {A} p (m : Parse A) P Q :
  accepts_at p m P -> (forall s r a, next p = s ++ r -> P s r a <-> Q s r a) -> accepts_at p m Q.
Proof.
  intros [Hi Hs] H. split; [|done]. intros a p'. rewrite Hi. split; intros (s & E & Ep & HP); exists s; by firstorder.
Qed.

Section logic.
Context (f : WasmFeatures).

Lemma acc_ext {A} (m : Parse A) P Q : accepts f m P -> (forall s r a, P s r a <-> Q s r a) -> accepts f m Q.
Proof. intros Hm H p Hp. eapply acc_ext_at; [by apply Hm|]. intros s r a _. apply H. Qed.

Lemma acc_ret {A} (a : A) : accepts f (mret a) (fun s _ x => s = [] /\ x = a).
Proof.
  intros p _. split; [|done]. intros x p'. split.
  - intros [= <- <-]. exists []. by rewrite set_next_id.
  - intros (s & E & Ep & -> & ->). cbn in E. rewrite <- E, set_next_id in Ep. by subst.
Qed.

Lemma acc_fail {A} (m : string) : accepts f (bail_at (A := A) m) (fun _ _ _ => False).
Proof. intros p _. split; [|done]. intros x p'. split; [done|]. by intros (? & _ & _ & []). Qed.

Lemma acc_bind_at {A B} p (m : Parse A) (k : A -> Parse B) P Q :
  accepts_at p m P ->
  (forall a p1 s1, np_features p1 = np_features p -> next p = s1 ++ next p1 -> P s1 (next p1) a ->
     accepts_at p1 (k a) (Q a)) ->
  accepts_at p (x ← m; k x) (fun s r b => exists s1 s2 a, s = s1 ++ s2 /\ P s1 (s2 ++ r) a /\ Q a s2 r b).
Proof.
  intros [Hi Hs] Hk. split.
  - intros b p'. rewrite ST_bind_eq. split.
    + destruct (m p) as [[a|e|] p1] eqn:Em; [|done..]. intros Ek.
      destruct (proj1 (Hi a p1) eq_refl) as (s1 & E1 & Ep1 & HP).
      assert (Hf1 : np_features p1 = np_features p) by by rewrite Ep1.
      apply (acc_iff _ _ _ (Hk a p1 s1 Hf1 E1 HP)) in Ek as (s2 & E2 & Ep2 & HQ). exists (s1 ++ s2).
      split; [by rewrite E1, E2, app_assoc|]. split; [by rewrite Ep2, Ep1|]. exists s1, s2, a. by rewrite <- E2.
    + intros (s & E & Ep & s1 & s2 & a & -> & HP & HQ).
      assert (Em : m p = (Ok a, set_next (s2 ++ next p') p)).
      { apply Hi. exists s1. cbn. split; [by rewrite app_assoc|done]. }
      assert (E1 : next p = s1 ++ (s2 ++ next p')) by by rewrite app_assoc.
      rewrite Em. apply (acc_iff _ _ _ (Hk a (set_next (s2 ++ next p') p) s1 eq_refl E1 HP)). exists s2. by split_and!.
  - rewrite ST_bind_eq. destruct (m p) as [[a|e|] p1] eqn:Em; [|done..].
    destruct (proj1 (Hi a p1) eq_refl) as (s1 & E1 & Ep1 & HP).
    pose proof (acc_safe _ _ _ (Hk a p1 s1 ltac:(by rewrite Ep1) E1 HP)) as Hsk. rewrite Ep1 in Hsk |- *. exact Hsk.
Qed.

Lemma acc_bind {A B} (m : Parse A) (k : A -> Parse B) P Q :
  accepts f m P -> (forall a, accepts f (k a) (Q a)) ->
  accepts f (x ← m; k x) (fun s r b => exists s1 s2 a, s = s1 ++ s2 /\ P s1 (s2 ++ r) a /\ Q a s2 r b).
Proof. intros Hm Hk p Hp. apply acc_bind_at; [by apply Hm|]. intros a p1 s1 Hp1 _ _. apply Hk. by rewrite Hp1. Qed.

(** Looking at the rest of the name, and at the features. *)
Lemma acc_look {A} (K : Chars -> Parse A) P :
  (forall p, np_features p = f -> accepts_at p (K (next p)) P) -> accepts f (s ← gets next; K s) P.
Proof. intros H p Hp. destruct (H p Hp) as [Hi Hs]. by split. Qed.

Lemma acc_features {A} (K : WasmFeatures -> Parse A) P : accepts f (K f) P -> accepts f (x ← gets np_features; K x) P.
Proof. intros H p Hp. destruct (H p Hp) as [Hi Hs]. split; rewrite ST_bind_eq; cbn; by rewrite Hp. Qed.

Lemma acc_set {A} p s0 r0 (m : Parse A) P :
  np_features p = f -> next p = s0 ++ r0 -> accepts_at (set_next r0 p) m P ->
  accepts_at p (modify (set_next r0);; m) (fun s r a => exists s', s = s0 ++ s' /\ P s' r a).
Proof.
  intros Hp E [Hi Hs]. split; [|exact Hs]. intros a p'. rewrite ST_bind_eq. cbn -[set_next]. rewrite Hi. cbn. split.
  - intros (s & E1 & Ep & HP). exists (s0 ++ s). split; [by rewrite E, E1, app_assoc|]. split; [done|by exists s].
  - intros (s & E1 & Ep & s' & -> & HP). exists s'. split_and!; [|done..].
    rewrite E, <- app_assoc in E1. by apply app_inv_head in E1.
Qed.

End logic.

(** ** Strings *)

Lemma strip_prefix_some pre s r : strip_prefix pre s = Some r <-> s = pre ++ r.
Proof.
  revert s. induction pre as [|a pre IH]; intros s; [by cbn; split; [intros [= ->]|intros ->]|].
  destruct s as [|c s]; [by split|]. cbn. destruct (Z.eqb_spec a c) as [<-|Hne].
  - rewrite IH. split; [by intros ->|by intros [= ->]].
  - split; [done|]. intros [= -> ->]. done.
Qed.

Lemma strip_prefix_app pre s : strip_prefix pre (pre ++ s) = Some s.
Proof. by apply strip_prefix_some. Qed.

Lemma strip_prefix_none pre s c : In c pre -> ~ In c s -> strip_prefix pre s = None.
Proof.
  intros Hc Hs. destruct (strip_prefix pre s) as [r|] eqn:E; [|done]. apply strip_prefix_some in E as ->.
  destruct Hs. apply in_or_app. by left.
Qed.

Lemma str_find_some g s i :
  str_find g s = Some i <-> exists c, take i s ++ c :: drop (S i) s = s /\ g c = true /\ Forall (fun c => g c = false) (take i s).
Proof.
  revert i. induction s as [|c s IH]; intros i.
  { split; [done|]. intros (c & E & _). by destruct (take i []). }
  cbn [str_find]. destruct (g c) eqn:Eg.
  - split.
    + intros [= <-]. exists c. split; [done|]. split; [done|constructor].
    + intros (d & E & Hd & Hall). destruct i as [|i]; [done|]. cbn [firstn] in Hall. apply Forall_cons in Hall as [H _]. congruence.
  - destruct i as [|i].
    + split; [by destruct (str_find g s)|]. intros (d & E & Hd & _). cbn in E. injection E as ->. congruence.
    + transitivity (str_find g s = Some i); [destruct (str_find g s); cbn; split; congruence|]. rewrite IH. cbn [firstn].
      split; intros (d & E & Hd & Hall); exists d; (split; [|split; [done|]]).
      * cbn. by rewrite E.
      * by constructor.
      * cbn in E. by injection E.
      * by apply Forall_cons in Hall as [_ Hall].
Qed.

Lemma str_find_none g s : str_find g s = None <-> Forall (fun c => g c = false) s.
Proof.
  induction s as [|c s IH]; [done|]. cbn [str_find]. rewrite Forall_cons. destruct (g c) eqn:E; [by split; [|intros [? _]]|].
  rewrite <- IH. destruct (str_find g s); cbn; split; [done|by intros []|done|done].
Qed.

(** The first position where a predicate holds splits a string. *)
Lemma str_find_split g s c r :
  Forall (fun c => g c = false) s -> g c = true -> str_find g (s ++ c :: r) = Some (length s).
Proof. induction 1 as [|a s Ha _ IH]; intros Hc; cbn; [by rewrite Hc|]. by rewrite Ha, IH. Qed.

Lemma starts_with_cons c r : starts_with c r = true <-> exists r', r = c :: r'.
Proof.
  destruct r as [|a r]; cbn; [split; [done|by intros []]|]. rewrite Z.eqb_eq. split; [intros ->; by eexists|by intros (r' & [= -> _])].
Qed.

Lemma not_in_find c s : Forall (fun x => is_char c x = false) s <-> ~ In c s.
Proof.
  unfold is_char. induction s as [|a s IH]; [by split; [intros _ []|constructor]|]. rewrite Forall_cons, IH, Z.eqb_neq.
  cbn [In]. split; [intros [H1 H2] [H|H]; [by apply H1|by apply H2]|]. intros H. split; [intros ->|intros Hi]; apply H; auto.
Qed.

(** The first position where a predicate holds is where it can be split. *)
Lemma str_find_take g l i s r :
  str_find g l = Some i -> l = s ++ r -> Forall (fun c => g c = false) s ->
  match r with c :: _ => g c = true | [] => False end -> take i l = s /\ drop i l = r.
Proof.
  intros Hi -> Hs Hr. destruct r as [|c r]; [done|]. rewrite (str_find_split g s c r Hs Hr) in Hi. injection Hi as <-.
  by rewrite take_app_length, drop_app_length.
Qed.

Lemma str_find_drop g l i : str_find g l = Some i -> exists c r, drop i l = c :: r /\ g c = true.
Proof.
  intros H. apply str_find_some in H as (c & E & Hc & _). exists c, (drop (S i) l). split; [|done].
  rewrite <- (take_drop i l) in E at 3. by apply app_inv_head in E.
Qed.

(** ** The parsers *)

(** Where a kebab string ends. *)
Definition stops (r : Chars) : Prop := match r with [] => True | c :: _ => not_kebab_char c = true end.

Section parsers.
Context (f : WasmFeatures).

Lemma eat_eq {A} prefix (m m' : Parse A) p :
  (b ← eat_str prefix; if b : bool then m else m') p
  = match strip_prefix prefix (next p) with Some rest => m (set_next rest p) | None => m' p end.
Proof. unfold eat_str. rewrite !ST_bind_eq. cbn [gets]. by destruct (strip_prefix prefix (next p)). Qed.

(** [if self.eat_str(prefix) { m } else { m' }]. *)
Lemma acc_eat {A} prefix (m m' : Parse A) P Q :
  accepts f m P -> accepts f m' Q ->
  accepts f (b ← eat_str prefix; if b : bool then m else m')
    (fun s r a => (exists s', s = prefix ++ s' /\ P s' r a) \/ (strip_prefix prefix (s ++ r) = None /\ Q s r a)).
Proof.
  intros Hm Hm' p Hp. pose proof (Hm' p Hp) as [Hi' Hs'].
  destruct (strip_prefix prefix (next p)) as [rest|] eqn:E.
  - pose proof (proj1 (strip_prefix_some _ _ _) E) as En.
    destruct (acc_set f p prefix rest m P Hp En (Hm (set_next rest p) Hp)) as [Hi Hs].
    split; [|rewrite eat_eq, E; exact Hs]. intros a p'. rewrite eat_eq, E. etransitivity; [exact (Hi a p')|].
    split; intros (s & E1 & Ep & H); exists s; (split; [done|]; split; [done|]); [by left|].
    destruct H as [H|[H _]]; [done|]. by rewrite <- E1, E in H.
  - split; [|rewrite eat_eq, E; exact Hs']. intros a p'. rewrite eat_eq, E, Hi'.
    split; intros (s & E1 & Ep & H); exists s; (split; [done|]; split; [done|]); [right; by rewrite <- E1|].
    destruct H as [(s' & -> & _)|[_ H]]; [|done]. rewrite E1, <- app_assoc, strip_prefix_app in E. done.
Qed.

Lemma acc_expect_str prefix : accepts f (expect_str prefix) (fun s _ _ => s = prefix).
Proof.
  eapply acc_ext; [apply acc_eat; [apply acc_ret|apply acc_fail]|].
  intros s r []. split; [intros [(s' & -> & -> & _)|[_ []]]; by rewrite app_nil_r|].
  intros ->. left. exists []. by rewrite app_nil_r.
Qed.

(** [expect_str(prefix)?; m]. *)
Lemma acc_expect {A} prefix (m : Parse A) P :
  accepts f m P -> accepts f (expect_str prefix;; m) (fun s r a => exists s', s = prefix ++ s' /\ P s' r a).
Proof.
  intros Hm. eapply acc_ext; [eapply (acc_bind f _ _ _ (fun _ => P)); [apply acc_expect_str|done]|].
  intros s r a. split; [intros (s1 & s2 & u & -> & -> & H); by exists s2|intros (s' & -> & H); by exists prefix, s', tt].
Qed.

Lemma acc_eat_up_to c :
  accepts f (eat_up_to c)
    (fun s r a => (a = Some s /\ ~ In c s /\ starts_with c r = true) \/ (a = None /\ s = [] /\ ~ In c r)).
Proof.
  apply acc_look. intros p Hp. destruct (str_find (is_char c) (next p)) as [i|] eqn:E.
  - pose proof E as E0. apply str_find_some in E0 as (d & _ & _ & Hn). apply not_in_find in Hn.
    destruct (str_find_drop _ _ _ E) as (d' & r0 & Hdr & Hd). apply Z.eqb_eq in Hd as <-.
    assert (En : next p = take i (next p) ++ drop i (next p)) by by rewrite take_drop.
    eapply acc_ext_at; [eapply (acc_set f p _ _ _ _ Hp En); eapply acc_ret; exact Hp|].
    intros s r a Esr. split.
    + intros (s' & -> & -> & ->). rewrite app_nil_r in Esr |- *. left. split_and!; [done..|].
      rewrite En in Esr at 1. apply app_inv_head in Esr as <-. rewrite Hdr. apply starts_with_cons. by eexists.
    + intros [(-> & Hs & Hr)|(_ & -> & Hr)].
      * exists []. apply starts_with_cons in Hr as (r' & ->).
        destruct (str_find_take _ _ _ _ _ E Esr (proj2 (not_in_find _ _) Hs) (Z.eqb_refl _)) as [-> _]. by rewrite app_nil_r.
      * destruct Hr. cbn in Esr. rewrite <- Esr, En, Hdr. apply in_or_app. right. by left.
  - apply str_find_none, not_in_find in E. eapply acc_ext_at; [by eapply (acc_ret f)|]. intros s r a Esr. split.
    + intros [-> ->]. right. cbn in Esr. by rewrite <- Esr.
    + intros [(_ & _ & Hr)|(-> & -> & _)]; [|done]. apply starts_with_cons in Hr as (r' & ->).
      destruct E. rewrite Esr. apply in_or_app. right. by left.
Qed.

(** [match x { Some(a) => Ok(a), None => bail!(..) }]. *)
Lemma acc_some {A} (o : option A) m :
  accepts f (match o with Some a => mret a | None => bail_at m end) (fun s _ a => s = [] /\ o = Some a).
Proof.
  destruct o as [x|]; (eapply acc_ext; [apply acc_ret || apply acc_fail|]); intros s r a; cbn; split; [by intros [-> ->]|..|done|by intros []].
  intros [-> [= ->]]. done.
Qed.

Lemma acc_take_up_to c : accepts f (take_up_to c) (fun s r a => a = s /\ ~ In c s /\ starts_with c r = true).
Proof.
  eapply acc_ext; [eapply acc_bind; [apply acc_eat_up_to|intros o; apply acc_some]|].
  cbn beta. intros s r a. split.
  - intros (s1 & s2 & o & -> & [(-> & H)|(-> & _)] & -> & E); [|done]. injection E as ->. by rewrite app_nil_r.
  - intros (-> & H). exists s, [], (Some s). rewrite app_nil_r. by split_and!; [|left|..].
Qed.

Lemma acc_take_rest : accepts f take_rest (fun s r a => a = s /\ r = []).
Proof.
  apply acc_look. intros p Hp. eapply acc_ext_at.
  { eapply (acc_set f p (next p) [] _ _ Hp); [by rewrite app_nil_r|]. by eapply (acc_ret f). }
  intros s r a E. split.
  - intros (s' & -> & -> & ->). rewrite app_nil_r in E |- *. split; [done|]. symmetry. apply (app_inv_head (next p)). by rewrite app_nil_r.
  - intros [-> ->]. rewrite app_nil_r in E. exists []. by rewrite app_nil_r.
Qed.

Lemma acc_kebab s0 : accepts f (kebab s0) (fun s _ k => s = [] /\ kebab_case s0 /\ k = new_unchecked s0).
Proof.
  unfold kebab. eapply acc_ext; [apply acc_some|]. intros s r k. unfold KebabStr_new. rewrite <- is_kebab_case_spec.
  destruct (is_kebab_case s0); split; [intros [-> [= ->]]|intros (-> & _ & ->)|by intros []|by intros (_ & ? & _)]; done.
Qed.

Lemma acc_expect_kebab : accepts f expect_kebab (fun s r k => r = [] /\ kebab_case s /\ k = new_unchecked s).
Proof.
  eapply acc_ext; [eapply acc_bind; [apply acc_take_rest|intros x; apply acc_kebab]|]. cbn beta. intros s r k. split.
  - intros (s1 & s2 & x & -> & [-> Hr] & -> & Hk & ->). rewrite app_nil_r. by destruct (app_eq_nil _ _ Hr).
  - intros (-> & Hk & ->). exists s, [], s. by rewrite app_nil_r.
Qed.

(** Dropping the character that was found. *)
Lemma acc_drop_char {A} p c r (x : A) :
  np_features p = f -> next p = c :: r ->
  accepts_at p (s ← gets next; rest ← unwrap (str_from 1 s); modify (set_next rest);; mret x)
    (fun s _ a => s = [c] /\ a = x).
Proof.
  intros Hp E. assert (Hfr : str_from 1 (next p) = Some r).
  { rewrite E. unfold str_from, str_slice. cbn [length]. rewrite (proj2 (Nat.leb_le _ _)) by lia.
    rewrite Nat.leb_refl. cbn. by rewrite Nat.sub_0_r, firstn_all. }
  destruct (acc_set f p [c] r (mret x) (fun s _ a => s = [] /\ a = x) Hp E (acc_ret f x (set_next r p) Hp)) as [Hi Hs].
  assert (Eq : (s ← gets next; rest ← unwrap (str_from 1 s); modify (set_next rest);; mret x) p
    = (modify (set_next r);; mret x) p) by (rewrite !ST_bind_eq; cbn [gets]; by rewrite Hfr).
  split; [|by rewrite Eq]. intros a p'. rewrite Eq, Hi.
  split; intros (s & E1 & Ep & H); exists s; (split; [done|]; split; [done|]);
    [by destruct H as (s' & -> & -> & ->)|exists []; by destruct H as [-> ->]].
Qed.

Lemma acc_take_until c : accepts f (take_until c) (fun s _ a => s = a ++ [c] /\ ~ In c a).
Proof.
  eapply acc_ext; [eapply (acc_bind f _ _ (fun s r a => match a with Some a => s = a ++ [c] /\ ~ In c a | None => s = [] /\ ~ In c r end));
    [|intros o; apply acc_some]|].
  - intros p Hp. eapply acc_ext_at; [eapply acc_bind_at; [by apply acc_eat_up_to|]|].
    + instantiate (1 := fun o s r a => match o with Some _ => s = [c] /\ a = o | None => s = [] /\ a = None end).
      intros [x|] p1 s1 Hp1 _ [(Ho & _ & Hst)|(Ho & _)]; try done.
      * apply starts_with_cons in Hst as (r' & Er). eapply acc_ext_at; [eapply acc_drop_char; [by rewrite Hp1|exact Er]|done].
      * eapply acc_ext_at; [eapply (acc_ret f); by rewrite Hp1|done].
    + intros s r a _. split.
      * intros (s1 & s2 & o & -> & [(-> & Hn & _)|(-> & -> & Hn)] & [-> ->]); [done|by split].
      * destruct a as [a|]; [intros [-> Hn]|intros [-> Hn]].
        -- exists a, [c], (Some a). split_and!; [done| |done..]. left. split_and!; [done..|]. apply starts_with_cons. by exists r.
        -- exists [], [], None. split_and!; [done| |done..]. by right.
  - cbn beta. intros s r a. split.
    + intros (s1 & s2 & o & -> & Ho & -> & ->). by rewrite app_nil_r.
    + intros H. exists s, [], (Some a). by rewrite app_nil_r.
Qed.
End parsers.

(** ** The grammar of paths *)

Definition lower_kebab (s : Chars) : Prop := kebab_case s /\ existsb is_AZ s = false.

(** [pkgpath ::= <namespace>+ <label> <projection>*]; without the feature for
    nested names one namespace and at most one projection. *)
Definition path_parts (f : WasmFeatures) (require_projection : bool) (ns : Chars) (pkgs projs : list Chars) (s : Chars)
  : Prop :=
  s = ns ++ seps COLON pkgs ++ seps SLASH projs
  /\ Forall lower_kebab (ns :: pkgs) /\ Forall kebab_case projs /\ pkgs <> []
  /\ (require_projection = true -> projs <> [])
  /\ (component_model_nested_names f = false -> length pkgs = 1%nat /\ (length projs <= 1)%nat).

Definition path (f : WasmFeatures) (require_projection : bool) (s : Chars) : Prop :=
  exists ns pkgs projs, path_parts f require_projection ns pkgs projs s.

Section paths.
Context (f : WasmFeatures).

Lemma acc_take_kebab : accepts f take_kebab (fun s r k => kebab_case s /\ k = new_unchecked s /\ stops r).
Proof.
  apply acc_look. intros p Hp. destruct (str_find not_kebab_char (next p)) as [i|] eqn:E.
  - destruct (str_find_drop _ _ _ E) as (d & r0 & Hdr & Hd).
    assert (En : next p = take i (next p) ++ drop i (next p)) by by rewrite take_drop.
    eapply acc_ext_at; [eapply (acc_set f p _ _ _ _ Hp En); eapply (acc_kebab f); exact Hp|].
    intros s r a Esr. split.
    + intros (s' & -> & -> & Hk & ->). rewrite app_nil_r in Esr |- *. split_and!; [done..|].
      rewrite En in Esr at 1. apply app_inv_head in Esr as <-. by rewrite Hdr.
    + intros (Hk & -> & Hr). exists []. destruct r as [|c r].
      { exfalso. rewrite app_nil_r in Esr. apply kebab_case_chars in Hk. rewrite <- Esr in Hk.
        apply str_find_none in Hk. congruence. }
      destruct (str_find_take _ _ _ _ _ E Esr (kebab_case_chars _ Hk) Hr) as [-> _]. by rewrite app_nil_r.
  - eapply acc_ext_at; [by eapply (acc_expect_kebab f)|]. intros s r a Esr. split.
    + by intros (-> & Hk & ->).
    + intros (Hk & -> & Hr). split_and!; [|done..]. destruct r as [|c r]; [done|].
      apply str_find_none in E. rewrite Esr in E. apply Forall_app in E as [_ E]. apply Forall_cons in E as [E _].
      cbn in Hr. congruence.
Qed.

Lemma acc_take_lowercase_kebab :
  accepts f take_lowercase_kebab (fun s r k => lower_kebab s /\ k = new_unchecked s /\ stops r).
Proof.
  eapply acc_ext.
  { eapply (acc_bind f _ _ _ (fun k s _ a => existsb is_AZ (kebab_str k) = false /\ s = [] /\ a = k)); [apply acc_take_kebab|].
    intros k. destruct (existsb is_AZ (kebab_str k)); (eapply acc_ext; [apply acc_ret || apply acc_fail|]);
      intros s r a; cbn; split; [done|by intros []|by intros [-> ->]|by intros (_ & -> & ->)]. }
  cbn beta. unfold lower_kebab. intros s r a. split.
  - intros (s1 & s2 & k & -> & (Hk & -> & Hst) & He & -> & ->). by rewrite app_nil_r.
  - intros ([Hk He] & -> & Hst). exists s, [], (new_unchecked s). by rewrite app_nil_r.
Qed.

(** Labels, each after a separator, as many as there are. *)
Definition labels (c : Z) (K : Chars -> Prop) (s r : Chars) (_ : ()) : Prop :=
  exists ks, s = seps c ks /\ Forall K ks /\ starts_with c r = false /\ (ks <> [] -> stops r).

Lemma acc_take_all c (K : Chars -> Prop) take_ :
  not_kebab_char c = true -> accepts f take_ (fun s r k => K s /\ k = new_unchecked s /\ stops r) ->
  accepts f (take_all c take_) (labels c K).
Proof.
  intros Hc Ht. apply acc_look. intros p Hp. generalize (le_n (S (length (next p)))) as Hl.
  generalize (S (length (next p))) at 2 3 as fuel. intros fuel. revert p Hp.
  induction fuel as [|fuel IH]; intros p Hp Hl; [lia|]. cbn [take_while_sep].
  eassert (Hb : accepts_at p (if starts_with c (next p) then expect_str [c];; take_;; take_while_sep fuel c take_ else mret tt) _).
  2: { destruct Hb as [Hi Hs]. split; [exact Hi|exact Hs]. }
  destruct (starts_with c (next p)) eqn:Ec.
  - eapply acc_ext_at.
    { eapply acc_bind_at; [by apply (acc_expect_str f)|]. intros u p1 s1 Hp1 E1 ->.
      eapply acc_bind_at; [apply Ht; by rewrite Hp1|]. intros k p2 s2 Hp2 E2 _.
      apply IH; [by rewrite Hp2, Hp1|]. rewrite E1, E2, !length_app in Hl. cbn in Hl. lia. }
    cbn beta. intros s r [] Esr. split.
    + intros (s1 & s2 & u & -> & -> & s3 & s4 & k & -> & (HK & -> & Hst) & ks & -> & Hks & Hr & Hsr).
      exists (s3 :: ks). split; [by unfold seps; cbn|]. split; [by constructor|]. split; [done|]. intros _.
      destruct ks as [|k0 ks]; [exact Hst|by apply Hsr].
    + intros ([|k ks] & -> & Hks & Hr & Hsr); [cbn in Esr; by rewrite <- Esr, Ec in Hr|].
      apply Forall_cons in Hks as [HK Hks]. exists [c], (k ++ seps c ks), tt. split; [by unfold seps; cbn|]. split; [done|].
      exists k, (seps c ks), (new_unchecked k). split; [done|]. split.
      { split_and!; [done..|]. destruct ks as [|k0 ks]; [by apply Hsr|exact Hc]. }
      exists ks. split_and!; [done..|]. intros _. by apply Hsr.
  - eapply acc_ext_at; [by eapply (acc_ret f)|]. intros s r [] Esr. split.
    + intros [-> _]. exists []. split_and!; [done|constructor|by rewrite Esr in Ec|done].
    + intros ([|k ks] & -> & _ & Hr & _); [done|]. exfalso. rewrite Esr in Ec. unfold seps in Ec. cbn in Ec. by rewrite Z.eqb_refl in Ec.
Qed.

Lemma acc_when (b : bool) (m : Parse ()) P :
  accepts f m P -> accepts f (when b m) (fun s r x => if b then P s r x else s = []).
Proof.
  intros H. destruct b; [exact H|]. eapply acc_ext; [apply (acc_ret f)|]. intros s r []. by split; [intros [-> _]|].
Qed.

Lemma acc_seps c K (take_ : Parse KebabStr) n :
  not_kebab_char c = true -> accepts f take_ (fun s r k => K s /\ k = new_unchecked s /\ stops r) ->
  accepts f (take_;; when n (take_all c take_))
    (fun s r _ => exists k ks, s = k ++ seps c ks /\ Forall K (k :: ks) /\ stops r
       /\ if n then starts_with c r = false else ks = []).
Proof.
  intros Hc Ht. eapply acc_ext.
  { eapply (acc_bind f _ _ _ (fun _ => _)); [exact Ht|]. intros _. apply acc_when. by apply acc_take_all. }
  cbn beta. intros s r u. split.
  - intros (s1 & s2 & k & -> & (HK & -> & Hst) & Hn). destruct n.
    + destruct Hn as (ks & -> & Hks & Hr & Hsr). exists s1, ks. split_and!; [done|by constructor| |done].
      destruct ks; [exact Hst|by apply Hsr].
    + subst s2. exists s1, []. split_and!; [done|constructor; [done|constructor]|done..].
  - intros (k & ks & -> & Hks & Hst & Hn). apply Forall_cons in Hks as [HK Hks]. exists k, (seps c ks), (new_unchecked k).
    split; [done|]. split.
    { split_and!; [done..|]. destruct ks; [done|exact Hc]. }
    destruct n; [by exists ks|by subst ks].
Qed.

(** Where the projections end. *)
Definition path_end (n : bool) (projs : list Chars) (r : Chars) : Prop :=
  (projs <> [] -> stops r) /\ (projs = [] \/ n = true -> starts_with SLASH r = false).

Lemma acc_projections require_projection n :
  accepts f (s ← gets next;
             if starts_with SLASH s then expect_str [SLASH];; take_kebab;; when n (take_all SLASH take_kebab)
             else when require_projection (bail_at "expected `/` after package name"))
    (fun s r _ => exists projs, s = seps SLASH projs /\ Forall kebab_case projs
       /\ (require_projection = true -> projs <> []) /\ (n = false -> (length projs <= 1)%nat) /\ path_end n projs r).
Proof.
  apply acc_look. intros p Hp. destruct (starts_with SLASH (next p)) eqn:Es.
  - eapply acc_ext_at; [eapply (acc_expect f); [|exact Hp]; eapply acc_seps; [done|apply acc_take_kebab]|].
    cbn beta. intros s r u E. split.
    + intros (s' & -> & k & ks & -> & Hks & Hst & Hn). exists (k :: ks). split; [done|]. split; [done|]. split; [done|].
      split; [intros ->; by subst ks|]. split; [done|]. intros [?| ->]; done.
    + intros (projs & -> & Hk & _ & Hl & Hst & Hn). destruct projs as [|k ks].
      { cbn in E. rewrite E in Es. by rewrite Hn in Es by by left. }
      exists (k ++ seps SLASH ks). split; [done|]. exists k, ks. split; [done|]. split; [done|].
      split; [by apply Hst|]. destruct n; [apply Hn; by right|]. destruct ks; [done|]. specialize (Hl eq_refl). cbn in Hl. lia.
  - eapply acc_ext_at; [eapply acc_when; [apply (acc_fail f)|exact Hp]|]. intros s r u E. split.
    + destruct require_projection; [done|]. intros ->. exists []. cbn in E. rewrite E in Es.
      split; [done|]. split; [constructor|]. split; [done|]. split; [intros _; cbn; lia|]. by split.
    + intros (projs & -> & _ & Hr & _). destruct projs as [|k ks]; [by destruct require_projection; [destruct Hr|]|].
      exfalso. by rewrite E in Es.
Qed.

Lemma acc_pkg_path require_projection :
  accepts f (pkg_path require_projection)
    (fun s r _ => exists ns pkgs projs, path_parts f require_projection ns pkgs projs s
       /\ path_end (component_model_nested_names f) projs r
       /\ (projs = [] -> stops r /\ (component_model_nested_names f = true -> starts_with COLON r = false))).
Proof.
  set (n := component_model_nested_names f). eapply acc_ext.
  { unfold pkg_path. eapply (acc_bind f _ _ _ (fun _ => _)); [apply acc_take_lowercase_kebab|]. intros _.
    apply acc_expect. eapply (acc_bind f _ _ _ (fun _ => _)); [apply acc_take_lowercase_kebab|]. intros _.
    apply acc_features. eapply (acc_bind f _ _ _ (fun _ => _)).
    - apply acc_when. apply (acc_take_all COLON lower_kebab); [done|apply acc_take_lowercase_kebab].
    - intros _. apply acc_projections. }
  cbn beta. intros s r u. split.
  - intros (ns & s2 & k & -> & (Hns & -> & _) & s3 & -> & pkg & s4 & k2 & -> & (Hp & -> & Hst) & s5 & s6 & [] & -> & Hl
      & projs & -> & Hpr & Hreq & Hlen & Hend).
    assert (Hpk : exists ks, s5 = seps COLON ks /\ Forall lower_kebab ks /\ (n = false -> ks = [])
      /\ (projs = [] -> stops r /\ (n = true -> starts_with COLON r = false))).
    { fold n in Hl. destruct n.
      - destruct Hl as (ks & -> & Hks & Hc & Hsr). exists ks. split_and!; [done|done|done|]. intros ->. cbn in Hc.
        split; [|done]. destruct ks; [exact Hst|by apply Hsr].
      - subst s5. exists []. split_and!; [done|constructor|done|]. intros ->. by cbn in Hst. }
    destruct Hpk as (ks & -> & Hks & Hn & He). exists ns, (pkg :: ks), projs. split; [|done]. unfold path_parts.
    split; [by unfold seps; cbn; rewrite <- !app_assoc|]. split; [constructor; [done|by constructor]|]. split_and!; [done|done|done|].
    intros E. fold n in E. rewrite (Hn E). split; [done|]. by apply Hlen.
  - intros (ns & pkgs & projs & (-> & Hns & Hpr & Hpk & Hreq & Hn) & Hend & He). destruct pkgs as [|pkg pkgs]; [done|].
    fold n in Hn.
    apply Forall_cons in Hns as [Hns Hps]. apply Forall_cons in Hps as [Hpkg Hps].
    exists ns, (seps COLON (pkg :: pkgs) ++ seps SLASH projs), (new_unchecked ns). split; [done|].
    split; [by split_and!|]. exists (pkg ++ seps COLON pkgs ++ seps SLASH projs).
    split; [by unfold seps; cbn; rewrite <- app_assoc|].
    assert (Hst : stops ((seps COLON pkgs ++ seps SLASH projs) ++ r)).
    { destruct pkgs; [|done]. destruct projs; [by apply He|done]. }
    exists pkg, (seps COLON pkgs ++ seps SLASH projs), (new_unchecked pkg). split; [done|]. split; [by split_and!|].
    exists (seps COLON pkgs), (seps SLASH projs), tt. split; [done|]. fold n. split.
    + destruct n.
      * exists pkgs. split_and!; [done|done| |].
        -- destruct projs; [by apply He|done].
        -- intros _. destruct projs; [by apply He|done].
      * destruct (Hn eq_refl) as [Hl _]. by destruct pkgs.
    + exists projs. split_and!; [done..| |done]. intros E. by apply Hn.
Qed.
End paths.

(** ** The grammar of names *)

Definition base64_char (c : Z) : bool := is_digit c || is_az c || is_AZ c || (c =? 0x2b) || (c =? 0x2f).

Definition base64 (s : Chars) : Prop :=
  exists body n, s = body ++ repeat 0x3d n /\ body <> [] /\ Forall (fun c => base64_char c = true) body /\ (n <= 2)%nat.

(** An algorithm, a digest, and options. *)
Definition hash_word (h : Chars) : Prop :=
  exists alg digest options, In alg [chars "sha256"; chars "sha384"; chars "sha512"]
    /\ h = alg ++ DASH :: digest ++ options /\ base64 digest /\ (options = [] \/ starts_with 0x3f options = true).

Definition integrity (m : Chars) : Prop :=
  split_whitespace m <> [] /\ Forall hash_word (split_whitespace m) /\ ~ In GT_ m.

Definition hash_suffix (s : Chars) : Prop :=
  s = [] \/ exists m, s = chars ",integrity=<" ++ m ++ [GT_] /\ integrity m.

Section versions.
Context {V : Semver}.

Definition version (s : Chars) : Prop := is_Some (version_parse s).

Definition version_range (s : Chars) : Prop :=
  s = chars "*" \/ (exists l, s = chars ">=" ++ l /\ version l) \/ (exists u, s = LT_ :: u /\ version u)
  \/ (exists l u, s = chars ">=" ++ l ++ 0x20 :: LT_ :: u /\ version l /\ version u).

(** [pkgname ::= <pkgpath> <version>?] and [pkgnamequery ::= <pkgpath> <verrange>?]. *)
Definition package_name (f : WasmFeatures) (require_projection : bool) (s : Chars) : Prop :=
  path f require_projection s \/ exists p v, s = p ++ AT :: v /\ path f require_projection p /\ version v.

Definition package_query (f : WasmFeatures) (s : Chars) : Prop :=
  path f false s \/ exists p q, s = p ++ AT :: q /\ path f false p
    /\ (q = chars "*" \/ exists range, q = chars "{" ++ range ++ chars "}" /\ ~ In 0x7d range /\ version_range range).

(** The names of each kind. *)
Definition name_grammar (f : WasmFeatures) (k : ParsedComponentNameKind) (s : Chars) : Prop :=
  match k with
  | PLabel => kebab_case s
  | PConstructor => exists r, s = CONSTRUCTOR ++ r /\ kebab_case r
  | PMethod => exists r m, s = METHOD ++ r ++ DOT :: m /\ kebab_case r /\ kebab_case m
  | PStatic => exists r m, s = STATIC ++ r ++ DOT :: m /\ kebab_case r /\ kebab_case m
  | PInterface => package_name f true s
  | PDependency =>
      (exists q, s = chars "unlocked-dep=<" ++ q ++ [GT_] /\ package_query f q)
      \/ exists n h, s = chars "locked-dep=<" ++ n ++ GT_ :: h /\ package_name f false n /\ hash_suffix h
  | PUrl => exists u h, s = chars "url=<" ++ u ++ GT_ :: h /\ ~ In LT_ u /\ ~ In GT_ u /\ hash_suffix h
  | PHash => exists m, s = chars "integrity=<" ++ m ++ [GT_] /\ integrity m
  end.
End versions.

(** ** Hashes *)

Lemma is_base64_equals i n s :
  (n <= 2)%nat -> is_base64_loop (S i) (Z.of_nat n) (repeat 0x3d s) = true <-> (n + s <= 2)%nat.
Proof.
  revert i n. induction s as [|s IH]; intros i n Hn; cbn [repeat is_base64_loop]; [split; [lia|done]|].
  unfold is_base64_step. cbn [is_digit]. change (is_digit 0x3d || is_az 0x3d || is_AZ 0x3d || (0x3d =? 0x2b) || (0x3d =? 0x2f)) with false.
  cbn [andb Z.eqb]. destruct (Z.ltb_spec (Z.of_nat n) 2); cbn [andb Nat.ltb Nat.leb]; cbn.
  - replace (Z.of_nat n + 1) with (Z.of_nat (S n)) by lia. rewrite IH by lia. lia.
  - split; [done|lia].
Qed.

Lemma is_base64_tail i n s :
  is_base64_loop (S i) (Z.of_nat (S n)) s = true -> s = repeat 0x3d (length s).
Proof.
  revert i n. induction s as [|c s IH]; intros i n H; [done|]. cbn [is_base64_loop] in H. unfold is_base64_step in H.
  replace (Z.of_nat (S n) =? 0) with false in H by (symmetry; apply Z.eqb_neq; lia). rewrite andb_false_r in H.
  destruct (Z.eqb_spec c 0x3d) as [->|]; [|done]. cbn [andb] in H.
  destruct ((0 <? S i)%nat && (Z.of_nat (S n) <? 2)); [|done].
  replace (Z.of_nat (S n) + 1) with (Z.of_nat (S (S n))) in H by lia. cbn. f_equal. by eapply IH.
Qed.

Lemma is_base64_loop_spec i s :
  is_base64_loop (S i) 0 s = true <->
  exists body n, s = body ++ repeat 0x3d n /\ Forall (fun c => base64_char c = true) body /\ (n <= 2)%nat.
Proof.
  revert i. induction s as [|c s IH]; intros i.
  { split; [|done]. intros _. exists [], 0%nat. split; [done|]. split; [constructor|lia]. }
  cbn [is_base64_loop]. unfold is_base64_step. fold (base64_char c). destruct (base64_char c) eqn:Hc.
  - cbn [andb Z.eqb]. rewrite IH. split.
    + intros (body & n & -> & Hb & Hn). exists (c :: body), n. split; [done|]. split; [by constructor|done].
    + intros ([|b body] & n & E & Hb & Hn).
      * destruct n as [|n]; [done|]. injection E as -> ->. done.
      * injection E as <- ->. apply Forall_cons in Hb as [_ Hb]. by exists body, n.
  - cbn [andb]. destruct (Z.eqb_spec c 0x3d) as [->|Hne]; cbn [andb]; cbn.
    + split.
      * intros H. pose proof (is_base64_tail (S i) 0 s H) as Es. exists [], (S (length s)).
        split; [by cbn; rewrite <- Es|]. split; [constructor|]. rewrite Es in H.
        apply (is_base64_equals (S i) 1) in H; lia.
      * intros ([|b body] & n & E & Hb & Hn); [|injection E as <- _; by apply Forall_cons in Hb as [? _]].
        destruct n as [|n]; [done|]. injection E as ->. apply (is_base64_equals (S i) 1); lia.
    + split; [done|]. intros ([|b body] & n & E & Hb & Hn); [|injection E as <- _; by apply Forall_cons in Hb as [? _]; congruence].
      destruct n as [|n]; [done|]. by injection E as ->.
Qed.

Lemma is_base64_spec s : is_base64 s = true <-> base64 s.
Proof.
  unfold is_base64. destruct s as [|c s]; [split; [done|]; intros (body & n & E & Hb & _); by destruct body|].
  case_bool_decide; [done|]. cbn [is_base64_loop]. unfold is_base64_step. fold (base64_char c). destruct (base64_char c) eqn:Hc.
  - cbn [andb Z.eqb]. rewrite is_base64_loop_spec. split.
    + intros (body & n & -> & Hb & Hn). exists (c :: body), n. split_and!; [done|done|by constructor|done].
    + intros ([|b body] & n & E & Hb & Hbs & Hn); [done|]. injection E as <- ->. apply Forall_cons in Hbs as [_ Hbs]. by exists body, n.
  - cbn [andb Nat.ltb Nat.leb]. rewrite andb_false_r. split; [done|].
    intros ([|b body] & n & E & Hb & Hbs & Hn); [done|]. injection E as <- _. by apply Forall_cons in Hbs as [? _]; congruence.
Qed.

Section names.
Context {V : Semver} {VS : SemverSpec V} (f : WasmFeatures).

Lemma version_no s c : version s -> semver_char c = false -> ~ In c s.
Proof.
  intros [v Hv] Hc Hi. pose proof (version_chars _ _ Hv) as H. rewrite List.Forall_forall in H. specialize (H c Hi). congruence.
Qed.

(** A check that takes nothing. *)
Lemma acc_semver s0 : accepts f (check_semver s0) (fun s _ _ => s = [] /\ version s0).
Proof.
  unfold check_semver, semver, version. eapply acc_ext.
  { eapply (acc_bind f _ _ (fun s _ v => s = [] /\ version_parse s0 = Some v) (fun _ => _)); [|intros _; apply acc_ret].
    destruct (version_parse s0) as [v|]; (eapply acc_ext; [apply acc_ret || apply acc_fail|]); intros s r x;
      (split; [by intros []; subst|by intros [-> [=]]]). }
  cbn beta. intros s r []. split; [intros (s1 & s2 & v & -> & [-> Hv] & -> & _); by split; [|exists v]|].
  intros [-> [v Hv]]. by exists [], [], v.
Qed.

Lemma acc_semver_range range : accepts f (semver_range range) (fun s _ _ => s = [] /\ version_range range).
Proof.
  unfold semver_range. case_bool_decide as Es.
  { eapply acc_ext; [apply acc_ret|]. intros s r []. split; [intros [-> _]; split; [done|by left]|by intros [-> _]]. }
  destruct (strip_prefix (chars ">=") range) as [rest|] eqn:Eg.
  - apply strip_prefix_some in Eg as ->. destruct (str_find (is_char 0x20) rest) as [i|] eqn:Ei.
    + destruct (str_find_drop _ _ _ Ei) as (d & up & Hd & Hsp). apply Z.eqb_eq in Hsp as <-.
      assert (Er : rest = take i rest ++ 0x20 :: up) by by rewrite <- Hd, take_drop.
      assert (Hup : drop (S i) rest = up).
      { replace (S i) with (i + 1)%nat by lia. rewrite <- drop_drop, Hd. done. }
      rewrite Hup. eapply acc_ext.
      { eapply (acc_bind f _ _ _ (fun _ s _ _ => s = [] /\ exists u, up = LT_ :: u /\ version u)); [apply acc_semver|]. intros _.
        destruct (strip_prefix [LT_] up) as [u|] eqn:El.
        - apply strip_prefix_some in El as ->. eapply acc_ext; [apply acc_semver|]. intros s r []. split.
          + intros [-> Hu]. split; [done|by exists u].
          + intros (-> & u' & [= <-] & Hu). done.
        - eapply acc_ext; [apply acc_fail|]. intros s r []. split; [done|]. intros (_ & u & -> & _). done. }
      cbn beta. intros s r []. split.
      * intros (s1 & s2 & [] & -> & [-> Hl] & -> & u & -> & Hu). split; [done|]. right. right. right.
        exists (take i rest), u. split; [by rewrite <- Er|done].
      * intros (-> & [E|[(l & E & Hl)|[(u & E & _)|(l & u & E & Hl & Hu)]]]); [done| |done|].
        -- apply app_inv_head in E as <-. exfalso. apply (version_no rest 0x20 Hl eq_refl). rewrite Er. apply in_or_app. right. by left.
        -- apply app_inv_head in E.
           destruct (str_find_take _ _ _ _ _ Ei E (proj2 (not_in_find _ _) (version_no l 0x20 Hl eq_refl)) eq_refl) as [E1 E2].
           exists [], [], tt. split; [done|]. rewrite E1. split; [done|]. split; [done|]. exists u. rewrite Hd in E2. by injection E2.
    + eapply acc_ext; [eapply (acc_bind f _ _ _ (fun _ => _)); [apply acc_semver|]; intros _; apply acc_ret|].
      apply str_find_none, not_in_find in Ei. cbn beta. intros s r []. split.
      * intros (s1 & s2 & [] & -> & [-> Hl] & -> & _). split; [done|]. right. left. by exists rest.
      * intros (-> & [E|[(l & E & Hl)|[(u & E & _)|(l & u & E & Hl & Hu)]]]); [done| |done|].
        -- apply app_inv_head in E as <-. by exists [], [], tt.
        -- apply app_inv_head in E as ->. destruct Ei. apply in_or_app. right. by left.
  - assert (Hn : forall x, range <> chars ">=" ++ x).
    { intros x E. apply strip_prefix_some in E. congruence. }
    destruct (strip_prefix [LT_] range) as [u|] eqn:El.
    + apply strip_prefix_some in El as ->. eapply acc_ext; [apply acc_semver|]. intros s r []. split.
      * intros [-> Hu]. split; [done|]. right. right. left. by exists u.
      * intros (-> & [E|[(l & E & _)|[(u' & E & Hu)|(l & u' & E & _)]]]); [done|by destruct (Hn l)| |by destruct (Hn (l ++ 0x20 :: LT_ :: u'))].
        injection E as <-. done.
    + eapply acc_ext; [apply acc_fail|]. intros s r []. split; [done|].
      intros (-> & [E|[(l & E & _)|[(u' & -> & Hu)|(l & u' & E & _)]]]); [done|by destruct (Hn l)| |by destruct (Hn (l ++ 0x20 :: LT_ :: u'))].
      done.
Qed.

(** ** Hashes *)

Lemma base64_no_question s : base64 s -> ~ In 0x3f s.
Proof.
  intros (body & n & -> & _ & Hb & _) Hi. apply in_app_or in Hi as [Hi|Hi].
  - rewrite List.Forall_forall in Hb. by specialize (Hb _ Hi).
  - by apply repeat_spec in Hi.
Qed.

Lemma acc_digest rest :
  accepts f (if is_base64 (match str_find (is_char 0x3f) rest with Some i => take i rest | None => rest end) then mret tt
             else bail_at "not valid base64: `{base64}`")
    (fun s _ _ => s = [] /\ exists d o, rest = d ++ o /\ base64 d /\ (o = [] \/ starts_with 0x3f o = true)).
Proof.
  set (d0 := match str_find (is_char 0x3f) rest with Some i => take i rest | None => rest end).
  assert (Hd : forall d o, rest = d ++ o -> base64 d -> o = [] \/ starts_with 0x3f o = true -> d = d0).
  { intros d o E Hd Ho. subst d0. destruct Ho as [->|Ho].
    - rewrite app_nil_r in E. subst rest. rewrite (proj2 (str_find_none _ _)); [done|]. by apply not_in_find, base64_no_question.
    - apply starts_with_cons in Ho as (o' & ->). rewrite E, (str_find_split (is_char 0x3f) d 0x3f o');
        [by rewrite take_app_length|by apply not_in_find, base64_no_question|done]. }
  assert (Hd0 : exists o, rest = d0 ++ o /\ (o = [] \/ starts_with 0x3f o = true)).
  { subst d0. destruct (str_find (is_char 0x3f) rest) as [i|] eqn:Ei; [|exists []; rewrite app_nil_r; by split; [|left]].
    destruct (str_find_drop _ _ _ Ei) as (c & o & Ed & Hc). apply Z.eqb_eq in Hc as <-. exists (drop i rest).
    split; [by rewrite take_drop|]. right. rewrite Ed. by apply Z.eqb_refl. }
  pose proof (is_base64_spec d0) as Hs. clearbody d0.
  destruct (is_base64 d0); (eapply acc_ext; [apply acc_ret || apply acc_fail|]); intros s r []; cbn; split.
  - intros [-> _]. split; [done|]. destruct Hd0 as (o & Eo & Ho). exists d0, o. split_and!; [done|by apply Hs|done].
  - by intros [-> _].
  - done.
  - intros (_ & d & o & Eo & Hb & Ho). rewrite (Hd d o Eo Hb Ho) in Hb. by apply Hs in Hb.
Qed.

Lemma acc_check_hash h : accepts f (check_hash h) (fun s _ _ => s = [] /\ hash_word h).
Proof.
  unfold check_hash.
  assert (Ha : forall alg rest, In alg [chars "sha256"; chars "sha384"; chars "sha512"] ->
    accepts f (match strip_prefix [DASH] rest with
               | None => bail_at "expected `-` after hash algorithm: {hash}"
               | Some rest =>
                   let base64 := match str_find (is_char 0x3f) rest with Some i => take i rest | None => rest end in
                   if is_base64 base64 then mret tt else bail_at "not valid base64: `{base64}`"
               end) (fun s _ _ => s = [] /\ hash_word (alg ++ rest))).
  { intros alg rest Hin.
    assert (Huniq : forall alg' r', In alg' [chars "sha256"; chars "sha384"; chars "sha512"] -> alg ++ rest = alg' ++ r' -> rest = r').
    { intros alg' r' Hin' E. assert (Hl : length alg = length alg').
      { destruct Hin as [<-|[<-|[<-|[]]]], Hin' as [<-|[<-|[<-|[]]]]; done. }
      by apply app_inj_1 in E as [_ E]. }
    destruct (strip_prefix [DASH] rest) as [r|] eqn:Er.
    - apply strip_prefix_some in Er as ->. eapply acc_ext; [apply acc_digest|]. intros s r0 []. split.
      + intros (-> & d & o & -> & Hb & Ho). split; [done|]. by exists alg, d, o.
      + intros (-> & alg' & d & o & Hin' & E & Hb & Ho). split; [done|]. apply (Huniq alg') in E; [|done].
        injection E as ->. by exists d, o.
    - eapply acc_ext; [apply acc_fail|]. intros s r0 []. split; [done|].
      intros (-> & alg' & d & o & Hin' & E & Hb & Ho). apply (Huniq alg') in E; [|done]. by subst rest. }
  destruct (strip_prefix (chars "sha256") h) as [r|] eqn:E1.
  { apply strip_prefix_some in E1 as ->. apply Ha. by left. }
  destruct (strip_prefix (chars "sha384") h) as [r|] eqn:E2.
  { apply strip_prefix_some in E2 as ->. apply Ha. right. by left. }
  destruct (strip_prefix (chars "sha512") h) as [r|] eqn:E3.
  { apply strip_prefix_some in E3 as ->. apply Ha. right. right. by left. }
  eapply acc_ext; [apply acc_fail|]. intros s r []. split; [done|].
  intros (_ & alg & d & o & [<-|[<-|[<-|[]]]] & -> & _); by rewrite strip_prefix_app in *.
Qed.

Lemma acc_for {A} (g : A -> Parse ()) K l :
  (forall x, accepts f (g x) (fun s _ _ => s = [] /\ K x)) -> accepts f (for_ g l) (fun s _ _ => s = [] /\ Forall K l).
Proof.
  intros Hg. induction l as [|x l IH]; cbn [for_].
  { eapply acc_ext; [apply acc_ret|]. intros s r []. split; [intros [-> _]; by split|by intros [-> _]]. }
  eapply acc_ext; [eapply (acc_bind f _ _ _ (fun _ => _)); [apply Hg|intros _; exact IH]|]. cbn beta. intros s r u. split.
  - intros (s1 & s2 & [] & -> & [-> Hx] & -> & Hl). split; [done|by constructor].
  - intros [-> Hl]. apply Forall_cons in Hl as [Hx Hl]. by exists [], [], tt.
Qed.

Lemma acc_parse_hash : accepts f parse_hash (fun s r a => a = s /\ integrity s /\ starts_with GT_ r = true).
Proof.
  eapply acc_ext.
  { eapply (acc_bind f _ _ _ (fun x s _ a => s = [] /\ a = x /\ split_whitespace x <> [] /\ Forall hash_word (split_whitespace x)));
      [apply acc_take_up_to|]. intros x. cbv zeta. eapply acc_ext.
    - eapply (acc_bind f _ _ _ (fun _ s _ a => s = [] /\ a = x /\ split_whitespace x <> []));
        [apply (acc_for _ hash_word); apply acc_check_hash|]. intros _.
      case_bool_decide as E; (eapply acc_ext; [apply acc_ret || apply acc_fail|]); intros s r a; split;
        [done|by intros (_ & _ & ?)|by intros [-> ->]|by intros (-> & -> & _)].
    - cbn beta. intros s r a. split.
      + intros (s1 & s2 & [] & -> & [-> Hh] & -> & -> & Hn). done.
      + intros (-> & -> & Hn & Hh). by exists [], [], tt. }
  cbn beta. intros s r a. unfold integrity. split.
  - intros (s1 & s2 & x & -> & (-> & Hg & Hst) & -> & -> & Hn & Hh). by rewrite app_nil_r.
  - intros (-> & (Hn & Hh & Hg) & Hst). exists s, [], s. by rewrite app_nil_r.
Qed.
End names.

(** ** Names *)

Section grammar.
Context {V : Semver} {VS : SemverSpec V} (f : WasmFeatures).

(** What may follow a path. *)
Definition path_stop (r : Chars) : Prop := match r with [] => True | c :: _ => c = AT \/ c = GT_ end.

Lemma acc_path require_projection :
  accepts f (pkg_path require_projection)
    (fun s r _ => exists ns pkgs projs, path_parts f require_projection ns pkgs projs s
       /\ path_end (component_model_nested_names f) projs r
       /\ (projs = [] -> stops r /\ (component_model_nested_names f = true -> starts_with COLON r = false))).
Proof. apply acc_pkg_path. Qed.

Lemma path_stop_ok s r req :
  path_stop r ->
  (exists ns pkgs projs, path_parts f req ns pkgs projs s
     /\ path_end (component_model_nested_names f) projs r
     /\ (projs = [] -> stops r /\ (component_model_nested_names f = true -> starts_with COLON r = false)))
  <-> path f req s.
Proof.
  intros Hr. assert (Hst : stops r /\ starts_with SLASH r = false /\ starts_with COLON r = false).
  { destruct r as [|c r]; [done|]. by destruct Hr as [->| ->]. }
  destruct Hst as (H1 & H2 & H3). split; [intros (ns & pkgs & projs & H & _); by exists ns, pkgs, projs|].
  intros (ns & pkgs & projs & H). exists ns, pkgs, projs. split; [done|]. split; [by split|]. done.
Qed.

Lemma strip_at r : strip_prefix [AT] r = None <-> starts_with AT r = false.
Proof.
  destruct r as [|c r]; [done|]. cbn [strip_prefix starts_with]. rewrite (Z.eqb_sym c AT). by destruct (AT =? c).
Qed.

Lemma acc_pkg_name req :
  accepts f (pkg_name req)
    (fun s r _ => (starts_with AT r = false /\ exists ns pkgs projs, path_parts f req ns pkgs projs s
         /\ path_end (component_model_nested_names f) projs r
         /\ (projs = [] -> stops r /\ (component_model_nested_names f = true -> starts_with COLON r = false)))
       \/ exists p v, s = p ++ AT :: v /\ path f req p /\ version v /\ (r = [] \/ starts_with GT_ r = true)).
Proof.
  eapply acc_ext.
  { eapply (acc_bind f _ _ _ (fun _ => _)); [apply acc_path|]. intros _.
    apply (acc_eat f [AT] _ _ (fun s r _ => version s /\ (r = [] \/ starts_with GT_ r = true)) (fun s _ _ => s = [])).
    - eapply acc_ext.
      { eapply (acc_bind f _ _ _ (fun o s r _ => match o with Some x => s = [] /\ version x | None => version s /\ r = [] end));
          [apply acc_eat_up_to|]. intros [x|].
        - eapply acc_ext; [eapply (acc_bind f _ _ _ (fun y => _)); [apply acc_ret|intros y; apply acc_semver]|].
          cbn beta. intros s r u. split; [intros (s1 & s2 & y & -> & [-> ->] & -> & H); done|].
          intros [-> H]. by exists [], [], x.
        - eapply acc_ext; [eapply (acc_bind f _ _ _ (fun y => _)); [apply acc_take_rest|intros y; apply acc_semver]|].
          cbn beta. intros s r u. split.
          + intros (s1 & s2 & y & -> & [-> Hr] & -> & H). rewrite app_nil_r. by destruct (app_eq_nil _ _ Hr).
          + intros [H ->]. exists s, [], s. by rewrite app_nil_r. }
      cbn beta. intros s r u. split.
      + intros (s1 & s2 & o & -> & [(-> & Hn & Hst)|(-> & -> & Hn)] & H).
        * destruct H as [-> H]. rewrite app_nil_r. split; [done|]. by right.
        * destruct H as [H ->]. split; [done|]. by left.
      + intros [H [->|Hst]].
        * exists [], s, None. split; [done|]. split; [|done]. right. rewrite app_nil_r. split_and!; [done..|]. exact (version_no s GT_ H eq_refl).
        * exists s, [], (Some s). rewrite app_nil_r. split; [done|]. split; [|done]. left. split_and!; [done| |done]. exact (version_no s GT_ H eq_refl).
    - eapply acc_ext; [apply acc_ret|]. intros s r []. split; [by intros [-> _]|done]. }
  cbn beta. intros s r u. split.
  - intros (s1 & s2 & [] & -> & Hp & [(v & -> & Hv & Hr)|[Hst ->]]).
    + right. exists s1, v. split; [done|]. split; [|done]. by eapply path_stop_ok; [|exact Hp]; left.
    + left. rewrite app_nil_r. split; [by apply strip_at|exact Hp].
  - intros [[Hst Hp]|(p & v & -> & Hp & Hv & Hr)].
    + exists s, [], tt. rewrite app_nil_r. split; [done|]. split; [exact Hp|]. right. split; [|done].
      by apply strip_at.
    + exists p, (AT :: v), tt. split; [done|]. split; [by apply path_stop_ok; [left|]|]. left. by exists v.
Qed.

Lemma acc_pkg_name_query :
  accepts f pkg_name_query
    (fun s r _ => (starts_with AT r = false /\ exists ns pkgs projs, path_parts f false ns pkgs projs s
         /\ path_end (component_model_nested_names f) projs r
         /\ (projs = [] -> stops r /\ (component_model_nested_names f = true -> starts_with COLON r = false)))
       \/ exists p q, s = p ++ AT :: q /\ path f false p
         /\ (q = chars "*" \/ exists range, q = chars "{" ++ range ++ chars "}" /\ ~ In 0x7d range /\ version_range range)).
Proof.
  eapply acc_ext.
  { eapply (acc_bind f _ _ _ (fun _ => _)); [apply acc_path|]. intros _.
    apply (acc_eat f [AT] _ _ (fun q _ _ => q = chars "*" \/ exists range, q = chars "{" ++ range ++ chars "}"
      /\ ~ In 0x7d range /\ version_range range) (fun s _ _ => s = [])).
    - eapply acc_ext.
      { apply (acc_eat f (chars "*")); [apply acc_ret|]. apply acc_expect.
        eapply (acc_bind f _ _ _ (fun x s _ _ => s = chars "}" /\ version_range x)); [apply acc_take_up_to|]. intros x.
        eapply acc_ext; [apply acc_expect, acc_semver_range|]. intros s r u. split.
        - intros (s' & -> & -> & H). by rewrite app_nil_r.
        - intros [-> H]. exists []. by rewrite app_nil_r. }
      cbn beta. intros s r []. split.
      + intros [(s' & -> & -> & _)|[_ (s' & -> & s1 & s2 & x & -> & (-> & Hn & Hst) & -> & Hv)]].
        * left. by rewrite app_nil_r.
        * right. by exists s1.
      + intros [->|(range & -> & Hn & Hv)].
        * left. exists []. by rewrite app_nil_r.
        * right. split; [done|]. exists (range ++ chars "}"). split; [done|]. by exists range, (chars "}"), range.
    - eapply acc_ext; [apply acc_ret|]. intros s r []. split; [by intros [-> _]|done]. }
  cbn beta. intros s r u. split.
  - intros (s1 & s2 & [] & -> & Hp & [(q & -> & Hq)|[Hst ->]]).
    + right. exists s1, q. split; [done|]. split; [|done]. by eapply path_stop_ok; [|exact Hp]; left.
    + left. rewrite app_nil_r. split; [by apply strip_at|exact Hp].
  - intros [[Hst Hp]|(p & q & -> & Hp & Hq)].
    + exists s, [], tt. rewrite app_nil_r. split; [done|]. split; [exact Hp|]. right. split; [|done].
      by apply strip_at.
    + exists p, (AT :: q), tt. split; [done|]. split; [by apply path_stop_ok; [left|]|]. left. by exists q.
Qed.

(** A package name, or query, in front of a closing bracket. *)
Lemma acc_name_closed req {A} (m : Parse A) P :
  accepts f m P ->
  accepts f (pkg_name req;; expect_str [GT_];; m)
    (fun s r a => exists n s', s = n ++ GT_ :: s' /\ package_name f req n /\ P s' r a).
Proof.
  intros Hm. eapply acc_ext; [eapply (acc_bind f _ _ _ (fun _ => _)); [apply acc_pkg_name|]; intros _; apply acc_expect, Hm|].
  cbn beta. intros s r a. split.
  - intros (n & s2 & [] & -> & Hn & s' & -> & HP). exists n, s'. split; [done|]. split; [|done].
    destruct Hn as [[_ Hp]|(p & v & -> & Hp & Hv & _)]; [left|right; by exists p, v].
    by eapply path_stop_ok; [|exact Hp]; right.
  - intros (n & s' & -> & Hn & HP). exists n, (GT_ :: s'), tt. split; [done|]. split; [|by exists s'].
    destruct Hn as [Hp|(p & v & -> & Hp & Hv)]; [left|right].
    + split; [done|]. by apply path_stop_ok; [right|].
    + exists p, v. split_and!; [done..|]. by right.
Qed.

Lemma acc_query_closed {A} (m : Parse A) P :
  accepts f m P ->
  accepts f (pkg_name_query;; expect_str [GT_];; m)
    (fun s r a => exists n s', s = n ++ GT_ :: s' /\ package_query f n /\ P s' r a).
Proof.
  intros Hm. eapply acc_ext; [eapply (acc_bind f _ _ _ (fun _ => _)); [apply acc_pkg_name_query|]; intros _; apply acc_expect, Hm|].
  cbn beta. intros s r a. split.
  - intros (n & s2 & [] & -> & Hn & s' & -> & HP). exists n, s'. split; [done|]. split; [|done].
    destruct Hn as [[_ Hp]|(p & v & -> & Hp & Hv)]; [left|right; by exists p, v].
    by eapply path_stop_ok; [|exact Hp]; right.
  - intros (n & s' & -> & Hn & HP). exists n, (GT_ :: s'), tt. split; [done|]. split; [|by exists s'].
    destruct Hn as [Hp|(p & v & -> & Hp & Hv)]; [left|right; by exists p, v].
    split; [done|]. by apply path_stop_ok; [right|].
Qed.
End grammar.

Section parse.
Context {V : Semver} {VS : SemverSpec V} (f : WasmFeatures).

Lemma acc_then {A B} (m : Parse A) (b : B) P :
  accepts f m P -> accepts f (m;; mret b) (fun s r x => x = b /\ exists a, P s r a).
Proof.
  intros Hm. eapply acc_ext; [eapply (acc_bind f _ _ _ (fun _ => _)); [exact Hm|]; intros _; apply acc_ret|].
  cbn beta. intros s r x. split.
  - intros (s1 & s2 & a & -> & HP & -> & ->). rewrite app_nil_r. split; [done|by exists a].
  - intros (-> & a & HP). exists s, [], a. by rewrite app_nil_r.
Qed.

Lemma acc_eat_optional_hash :
  accepts f eat_optional_hash
    (fun s r a => (exists m, s = chars ",integrity=<" ++ m ++ [GT_] /\ integrity m /\ a = Some m)
       \/ (s = [] /\ a = None /\ strip_prefix [0x2c] r = None)).
Proof.
  eapply acc_ext.
  { apply (acc_eat f [0x2c]); [|apply acc_ret]. apply acc_expect.
    eapply (acc_bind f _ _ _ (fun x s _ a => s = [GT_] /\ a = Some x)); [apply acc_parse_hash|]. intros x.
    eapply acc_ext; [apply acc_expect, acc_ret|]. intros s r a. split.
    - intros (s' & -> & -> & ->). done.
    - intros [-> ->]. by exists []. }
  cbn beta. intros s r a. split.
  - intros [(s' & -> & s2 & -> & m & s4 & x & -> & (-> & Hi & _) & -> & ->)|[Hst [-> ->]]]; [left; by exists m|by right].
  - intros [(m & -> & Hi & ->)|(-> & -> & Hst)]; [left|by right]. exists (chars "integrity=<" ++ m ++ [GT_]).
    split; [done|]. exists (m ++ [GT_]). split; [done|]. exists m, [GT_], m. by split_and!.
Qed.

Lemma optional_hash_end s : (exists a, (exists m, s = chars ",integrity=<" ++ m ++ [GT_] /\ integrity m /\ a = Some m)
  \/ (s = [] /\ a = None /\ strip_prefix [0x2c] [] = None)) <-> hash_suffix s.
Proof.
  split.
  - intros (a & [(m & -> & Hm & _)|(-> & _)]); [right; by exists m|by left].
  - intros [->|(m & -> & Hm)]; [exists None; by right|exists (Some m); left; by exists m].
Qed.

Lemma kebab_no s c : kebab_case s -> not_kebab_char c = true -> ~ In c s.
Proof. intros H Hc Hi. apply kebab_case_chars in H. rewrite List.Forall_forall in H. specialize (H c Hi). cbn in H. congruence. Qed.

Lemma acc_resource_function k :
  accepts f (resource_function k)
    (fun s r k' => k' = k /\ r = [] /\ exists x m, s = x ++ DOT :: m /\ kebab_case x /\ kebab_case m).
Proof.
  eapply acc_ext.
  { eapply acc_bind; [apply acc_take_until|]. intros x.
    eapply (acc_bind f _ _ _ (fun _ => _)); [apply acc_kebab|]. intros _. apply acc_then, acc_expect_kebab. }
  cbn beta. intros s r k'. split.
  - intros (s1 & s2 & x & -> & [-> Hn] & s3 & s4 & y & -> & (-> & Hx & ->) & -> & z & -> & Hm & _).
    split; [done|]. split; [done|]. exists x, s4. split; [by rewrite <- app_assoc|done].
  - intros (-> & -> & x & m & -> & Hx & Hm). exists (x ++ [DOT]), m, x. split; [by rewrite <- app_assoc|].
    split; [split; [done|by apply kebab_no]|]. exists [], m, (new_unchecked x). split; [done|]. split; [done|].
    split; [done|]. by exists (new_unchecked m).
Qed.

Lemma acc_url :
  accepts f (url ← take_up_to GT_; when (contains LT_ url) (bail_at "url cannot contain `<`");;
             expect_str [GT_];; eat_optional_hash;; mret PUrl)
    (fun s r k => k = PUrl /\ exists u h, s = u ++ GT_ :: h /\ ~ In LT_ u /\ ~ In GT_ u
       /\ exists a, (exists m, h = chars ",integrity=<" ++ m ++ [GT_] /\ integrity m /\ a = Some m)
            \/ (h = [] /\ a = None /\ strip_prefix [0x2c] r = None)).
Proof.
  eapply acc_ext.
  { eapply (acc_bind f _ _ _ (fun u => _)); [apply acc_take_up_to|]. intros u.
    eapply (acc_bind f _ _ _ (fun _ => _)); [apply acc_when, acc_fail|]. intros _.
    apply acc_expect, acc_then, acc_eat_optional_hash. }
  cbn beta. intros s r k. split.
  - intros (u & s2 & x & -> & (-> & Hg & _) & s3 & s4 & [] & -> & Hl & h & -> & -> & Hh).
    destruct (contains LT_ u) eqn:El; [done|]. subst s3. split; [done|]. exists u, h. split; [done|]. split; [|done].
    intros Hi. assert (Ht : contains LT_ u = true) by (apply existsb_exists; exists LT_; split; [done|apply Z.eqb_refl]). congruence.
  - intros (-> & u & h & -> & Hl & Hg & Hh). exists u, (GT_ :: h), u. split; [done|]. split; [done|].
    exists [], (GT_ :: h), tt. split; [done|]. split; [|by exists h].
    destruct (contains LT_ u) eqn:El; [|done]. apply existsb_exists in El as (x & Hx & Ex). apply Z.eqb_eq in Ex as <-. done.
Qed.

Lemma acc_rest :
  accepts f (s ← gets next; if contains COLON s then pkg_name true;; mret PInterface else expect_kebab;; mret PLabel)
    (fun s r k => if contains COLON (s ++ r) then
       k = PInterface /\ ((starts_with AT r = false /\ exists ns pkgs projs, path_parts f true ns pkgs projs s
            /\ path_end (component_model_nested_names f) projs r
            /\ (projs = [] -> stops r /\ (component_model_nested_names f = true -> starts_with COLON r = false)))
          \/ exists p v, s = p ++ AT :: v /\ path f true p /\ version v /\ (r = [] \/ starts_with GT_ r = true))
     else k = PLabel /\ r = [] /\ kebab_case s).
Proof.
  apply acc_look. intros p Hp. destruct (contains COLON (next p)) eqn:Ec.
  - eapply acc_ext_at; [eapply (acc_then (pkg_name true)); [apply acc_pkg_name|exact Hp]|]. cbn beta. intros s r k E.
    rewrite <- E, Ec. split; [intros (-> & [] & H)|intros (-> & H); split; [done|exists tt]]; done.
  - eapply acc_ext_at; [eapply (acc_then expect_kebab); [apply acc_expect_kebab|exact Hp]|]. cbn beta. intros s r k E.
    rewrite <- E, Ec. split; [by intros (-> & y & -> & H & _)|]. intros (-> & -> & H). split; [done|]. by exists (new_unchecked s).
Qed.

(** The characters of interface names. *)
Lemma package_name_no req s c :
  package_name f req s -> not_kebab_char c = true -> semver_char c = false -> c <> COLON -> c <> SLASH -> c <> AT -> ~ In c s.
Proof.
  assert (Hp : forall s, path f req s -> not_kebab_char c = true -> c <> COLON -> c <> SLASH -> ~ In c s).
  { intros s' (ns & pkgs & projs & -> & Hns & Hpr & _) Hc H1 H2 Hi. apply Forall_cons in Hns as [[Hns _] Hps].
    apply in_app_or in Hi as [Hi|Hi]; [by apply (kebab_no ns c)|].
    apply in_app_or in Hi as [Hi|Hi]; apply in_concat in Hi as (l & Hl & Hi); apply in_map_iff in Hl as (k & <- & Hk);
      destruct Hi as [Hi|Hi]; try done.
    - rewrite List.Forall_forall in Hps. by apply (kebab_no k c); [apply Hps|..].
    - rewrite List.Forall_forall in Hpr. by apply (kebab_no k c); [apply Hpr|..]. }
  intros [H|(p & v & -> & H & Hv)] Hc Hs H1 H2 H3; [by apply Hp|]. intros Hi.
  apply in_app_or in Hi as [Hi|[Hi|Hi]]; [by apply (Hp p)|done|by apply (version_no v c)].
Qed.

Lemma package_name_colon req s : package_name f req s -> contains COLON s = true.
Proof.
  assert (Hp : forall s r, path f req s -> contains COLON (s ++ r) = true).
  { intros s' r (ns & [|k pkgs] & projs & -> & _ & _ & Hn & _); [done|]. unfold contains. apply existsb_exists. exists COLON.
    split; [|apply Z.eqb_refl]. rewrite <- !app_assoc. apply in_or_app. right. by left. }
  intros [H|(p & v & -> & H & Hv)]; [rewrite <- (app_nil_r s)|]; by apply Hp.
Qed.
End parse.

(** ** The grammar is what the parser accepts *)

Section names.
Context {V : Semver} {VS : SemverSpec V} (f : WasmFeatures).

(** The bodies of the alternatives, each after its prefix. *)
Definition unlocked_body (s : Chars) : Prop := exists q, s = LT_ :: q ++ [GT_] /\ package_query f q.
Definition hash_body (s : Chars) : Prop := exists m, s = LT_ :: m ++ [GT_] /\ integrity m.

Lemma acc_unlocked :
  accepts f (expect_str [LT_];; pkg_name_query;; expect_str [GT_];; mret PDependency)
    (fun s _ k => k = PDependency /\ unlocked_body s).
Proof.
  eapply acc_ext; [apply acc_expect, acc_query_closed, acc_ret|]. cbn beta. intros s r k. split.
  - intros (s' & -> & q & s2 & -> & Hq & -> & ->). split; [done|]. by exists q.
  - intros (-> & q & -> & Hq). exists (q ++ [GT_]). split; [done|]. by exists q, [].
Qed.

Lemma acc_hash_name :
  accepts f (expect_str [LT_];; parse_hash;; expect_str [GT_];; mret PHash) (fun s _ k => k = PHash /\ hash_body s).
Proof.
  eapply acc_ext.
  { apply acc_expect. eapply (acc_bind f _ _ _ (fun _ => _)); [apply acc_parse_hash|]. intros _. apply acc_expect, acc_ret. }
  cbn beta. intros s r k. split.
  - intros (s' & -> & m & s2 & x & -> & (-> & Hm & _) & s3 & -> & -> & ->). split; [done|]. by exists m.
  - intros (-> & m & -> & Hm). exists (m ++ [GT_]). split; [done|]. exists m, [GT_], m. split; [done|].
    split; [by split_and!|]. by exists [].
Qed.

(** The alternatives after the prefixes end with an optional hash; at the end of the
    name that is a suffix of the grammar. *)
Definition at_end {A} (N : Chars -> Chars -> A -> Prop) (G : A -> Chars -> Prop) : Prop :=
  forall s k, N s [] k <-> G k s.

Definition locked_body (s : Chars) : Prop :=
  exists n h, s = LT_ :: n ++ GT_ :: h /\ package_name f false n /\ hash_suffix h.
Definition url_body (s : Chars) : Prop :=
  exists u h, s = LT_ :: u ++ GT_ :: h /\ ~ In LT_ u /\ ~ In GT_ u /\ hash_suffix h.

Lemma acc_locked :
  exists N, accepts f (expect_str [LT_];; pkg_name false;; expect_str [GT_];; eat_optional_hash;; mret PDependency) N
    /\ at_end N (fun k s => k = PDependency /\ locked_body s).
Proof.
  eexists. split; [apply acc_expect, acc_name_closed, acc_then, acc_eat_optional_hash|]. cbn beta. intros s k. split.
  - intros (s' & -> & n & h & -> & Hn & -> & Hh). split; [done|]. exists n, h. split_and!; [done..|]. by apply optional_hash_end.
  - intros (-> & n & h & -> & Hn & Hh). exists (n ++ GT_ :: h). split; [done|]. exists n, h. split_and!; [done..|].
    by apply optional_hash_end.
Qed.

Lemma acc_url_name :
  exists N, accepts f (expect_str [LT_];; url ← take_up_to GT_; when (contains LT_ url) (bail_at "url cannot contain `<`");;
                       expect_str [GT_];; eat_optional_hash;; mret PUrl) N
    /\ at_end N (fun k s => k = PUrl /\ url_body s).
Proof.
  eexists. split; [apply acc_expect, acc_url|]. cbn beta. intros s k. split.
  - intros (s' & -> & -> & u & h & -> & H1 & H2 & Hh). split; [done|]. exists u, h. split_and!; [done..|].
    by apply optional_hash_end.
  - intros (-> & u & h & -> & H1 & H2 & Hh). exists (u ++ GT_ :: h). split; [done|]. split; [done|]. exists u, h.
    split_and!; [done..|]. by apply optional_hash_end.
Qed.

(** Without a prefix. *)
Definition plain (k : ParsedComponentNameKind) (s : Chars) : Prop :=
  (k = PInterface /\ package_name f true s) \/ (k = PLabel /\ kebab_case s).

Lemma kebab_no_colon s : kebab_case s -> contains COLON s = false.
Proof.
  intros H. destruct (contains COLON s) eqn:E; [|done]. apply existsb_exists in E as (c & Hc & E). apply Z.eqb_eq in E as <-.
  by destruct (kebab_no s COLON H eq_refl).
Qed.

Lemma acc_plain :
  exists N, accepts f (s ← gets next; if contains COLON s then pkg_name true;; mret PInterface else expect_kebab;; mret PLabel) N
    /\ at_end N plain.
Proof.
  eexists. split; [apply acc_rest|]. cbn beta. intros s k. rewrite app_nil_r. split.
  - destruct (contains COLON s).
    + intros (-> & [(_ & Hp)|(p & v & -> & Hp & Hv & _)]); left; (split; [done|]).
      * left. by eapply path_stop_ok; [|exact Hp].
      * right. by exists p, v.
    + intros (-> & _ & H). by right.
  - intros [(-> & H)|(-> & H)].
    + rewrite (package_name_colon _ _ _ H). split; [done|]. destruct H as [H|(p & v & -> & H & Hv)].
      * left. split; [done|]. by apply path_stop_ok.
      * right. exists p, v. split_and!; [done..|]. by left.
    + by rewrite (kebab_no_colon _ H).
Qed.

(** [if self.eat_str(prefix)] at the end of the name. *)
Lemma acc_if_eat prefix (m m' : Parse ParsedComponentNameKind) G G' :
  (exists N, accepts f m N /\ at_end N G) -> (exists N, accepts f m' N /\ at_end N G') ->
  exists N, accepts f (if_eat prefix m m') N
    /\ at_end N (fun k s => (exists s', s = prefix ++ s' /\ G k s') \/ (strip_prefix prefix s = None /\ G' k s)).
Proof.
  intros (N & HN & EN) (N' & HN' & EN'). eexists. split; [by apply acc_eat|]. intros s k. cbn beta. rewrite app_nil_r, (EN' s k).
  split; (intros [(s' & -> & H)|H]; [left; exists s'; split; [done|by apply EN]|by right]).
Qed.

Lemma plain_no c k s :
  plain k s -> not_kebab_char c = true -> semver_char c = false -> c <> COLON -> c <> SLASH -> c <> AT -> ~ In c s.
Proof. intros [(_ & H)|(_ & H)] H1 H2 H3 H4 H5; [by eapply package_name_no|by apply kebab_no]. Qed.

Lemma plain_no_prefix k s prefix : plain k s -> In 0x5b prefix \/ In 0x3d prefix -> strip_prefix prefix s = None.
Proof. intros H [Hc|Hc]; (eapply strip_prefix_none; [exact Hc|]); by eapply plain_no. Qed.

Lemma acc_exact {A} (m : Parse A) (N : Chars -> Chars -> A -> Prop) G :
  accepts f m N -> (forall s k, N s [] k <-> G k s) -> exists N, accepts f m N /\ at_end N G.
Proof. intros H E. by exists N. Qed.

Lemma acc_self {A} (m : Parse A) N : accepts f m N -> exists N', accepts f m N' /\ at_end N' (fun k s => N s [] k).
Proof. intros H. by exists N. Qed.

(** The parser accepts the names of the grammar. *)
Lemma acc_parse_name : exists N, accepts f parse_name N /\ at_end N (name_grammar f).
Proof.
  unfold parse_name. edestruct (acc_if_eat CONSTRUCTOR) as (N & HN & EN).
  { eapply (acc_exact _ _ (fun k s => k = PConstructor /\ kebab_case s)); [apply acc_then, acc_expect_kebab|].
    intros s k. split; [by intros (-> & x & _ & H & _)|]. intros (-> & H). split; [done|]. by exists (new_unchecked s). }
  { apply (acc_if_eat METHOD); [apply acc_self, acc_resource_function|].
    apply (acc_if_eat STATIC); [apply acc_self, acc_resource_function|].
    apply acc_if_eat; [apply acc_self, acc_unlocked|].
    apply acc_if_eat; [apply acc_locked|]. apply acc_if_eat; [apply acc_url_name|].
    apply acc_if_eat; [apply acc_self, acc_hash_name|apply acc_plain]. }
  exists N. split; [exact HN|]. intros s k. rewrite (EN s k). clear N HN EN. cbn beta. split.
  - intros [(s' & -> & -> & H)|[_ [(s' & -> & -> & _ & H)|[_ [(s' & -> & -> & _ & H)|[_ [(s' & -> & -> & H)|[_ [(s' & -> & -> & H)
      |[_ [(s' & -> & -> & H)|[_ [(s' & -> & -> & H)|[_ [(-> & H)|(-> & H)]]]]]]]]]]]]]]].
    + by exists s'.
    + destruct H as (x & m & -> & H). by exists x, m.
    + destruct H as (x & m & -> & H). by exists x, m.
    + destruct H as (q & -> & H). left. by exists q.
    + destruct H as (n & h & -> & H). right. by exists n, h.
    + destruct H as (u & h & -> & H). by exists u, h.
    + destruct H as (m & -> & H). by exists m.
    + exact H.
    + exact H.
  - intros H. destruct k; cbn [name_grammar] in H.
    + do 7 (right; split; [eapply (plain_no_prefix PLabel); [by right|cbn; tauto]|]). by right.
    + destruct H as (x & -> & H). left. by exists x.
    + destruct H as (x & m & -> & H). right. split; [done|]. left. exists (x ++ DOT :: m). split_and!; [done..|]. by exists x, m.
    + destruct H as (x & m & -> & H). do 2 (right; split; [done|]). left. exists (x ++ DOT :: m). split_and!; [done..|].
      by exists x, m.
    + do 7 (right; split; [eapply (plain_no_prefix PInterface); [by left|cbn; tauto]|]). by left.
    + destruct H as [(q & -> & H)|(n & h & -> & H)].
      * do 3 (right; split; [done|]). left. exists (LT_ :: q ++ [GT_]). split_and!; [done..|]. by exists q.
      * do 4 (right; split; [done|]). left. exists (LT_ :: n ++ GT_ :: h). split_and!; [done..|]. by exists n, h.
    + destruct H as (u & h & -> & H). do 5 (right; split; [done|]). left. exists (LT_ :: u ++ GT_ :: h). split_and!; [done..|].
      by exists u, h.
    + destruct H as (m & -> & H). do 6 (right; split; [done|]). left. exists (LT_ :: m ++ [GT_]). split_and!; [done..|]. by exists m.
Qed.
End names.

(** ** Names *)

(** Versions of three numbers. *)
Definition number (s : Chars) : bool := negb (bool_decide (s = [])) && forallb is_digit s.

Fixpoint dotted (n : nat) (s : Chars) : bool :=
  match n, str_find (is_char DOT) s with
  | O, None => number s
  | S n, Some i => number (take i s) && dotted n (drop (S i) s)
  | _, _ => false
  end.

#[export] Instance release_semver : Semver := {|
  Version := Chars;
  version_parse s := if dotted 2 s && forallb semver_char s then Some s else None;
|}.

#[export] Instance release_semver_spec : SemverSpec release_semver.
Proof.
  split. intros s v. cbn -[dotted forallb]. destruct (dotted 2 s); [|done]. cbn [andb].
  destruct (forallb semver_char s) eqn:E; [|done]. intros _.
  apply List.Forall_forall. by apply forallb_forall.
Qed.

(** What the constructor accepts. *)
Lemma new_grammar {V : Semver} {VS : SemverSpec V} f name off :
  (forall n, ComponentName_new_with_features name off f = Ok n <-> raw n = name /\ name_grammar f (parsed_kind n) name)
  /\ match ComponentName_new_with_features name off f with Ok _ => True | Err e => offset e = off | Panic => False end.
Proof.
  destruct (acc_parse_name f) as (N & HN & EN). destruct (HN (mkNameParser name off f) eq_refl) as [Hi Hs].
  unfold ComponentName_new_with_features. destruct (parse_name (mkNameParser name off f)) as [[k|e|] p] eqn:E; cbn in Hs.
  - destruct (proj1 (Hi k p) eq_refl) as (s & Es & Ep & HNk). cbn in Es. case_bool_decide as Hn; cbn.
    + rewrite Hn in Es, HNk. rewrite app_nil_r in Es. subst s. apply EN in HNk. split; [|done]. intros [raw0 k0]. cbn. split; [intros [= <- <-]; done|].
      intros (-> & Hk). apply EN in Hk. assert (H : (Ok k, p) = (Ok k0, set_next [] (mkNameParser name off f))); [|by injection H as ->].
      apply Hi. exists name. cbn. by rewrite app_nil_r.
    + split; [|done]. intros n. split; [done|]. intros [_ Hk]. apply EN in Hk. destruct Hn.
      assert (H : (Ok k, p) = (Ok (parsed_kind n), set_next [] (mkNameParser name off f))); [|by injection H as _ ->].
      apply Hi. exists name. cbn. by rewrite app_nil_r.
  - split; [|done]. intros n. split; [done|]. intros [_ Hk]. apply EN in Hk.
    assert (H : (Err e, p) = (Ok (parsed_kind n), set_next [] (mkNameParser name off f))); [|done].
    apply Hi. exists name. cbn. by rewrite app_nil_r.
  - done.
Qed.

(** C27. [ComponentName::new_with_features] refines the grammar of names: it returns a
    name, with its kind, exactly for the strings that are of that kind in the grammar
    (labels, constructors, methods, statics, interfaces, dependencies, urls and
    hashes), so every string has at most one kind; it never panics, and an error is
    located at the offset of the name.  (The examples of four kinds in the comments
    of the source are not in the grammar: [documented_names_rejected].) *)
Theorem component_name_grammar (V : Semver) (VS : SemverSpec V) name off f :
  (forall n, ComponentName_new_with_features name off f = Ok n <-> raw n = name /\ name_grammar f (parsed_kind n) name)
  /\ match ComponentName_new_with_features name off f with Ok _ => True | Err e => offset e = off | Panic => False end.
Proof. apply new_grammar. Qed.

Lemma component_name_grammar_witness :
  name_grammar WasmFeatures_default PInterface (chars "wasi:http/types@2.0.0")
  /\ ~ (exists k, name_grammar WasmFeatures_default k (chars "wasi:http/types@2.0")).
Proof.
  split.
  - refine (proj2 (proj1 (proj1 (component_name_grammar release_semver release_semver_spec _ 3 WasmFeatures_default)
      (mkComponentName _ PInterface)) _)). vm_compute. reflexivity.
  - intros (k & H).
    pose proof (proj2 (proj1 (component_name_grammar release_semver release_semver_spec (chars "wasi:http/types@2.0") 3 WasmFeatures_default)
      (mkComponentName _ k)) (conj eq_refl H)) as E. vm_compute in E. done.
Defined.

(** ** The parts of a name *)

Lemma str_rfind_split g s c r :
  Forall (fun x => g x = false) r -> g c = true -> str_rfind g (s ++ c :: r) = Some (length s).
Proof.
  intros Hr Hc. assert (Hn : str_rfind g r = None).
  { induction Hr as [|x r Hx _ IH]; [done|]. cbn. by rewrite IH, Hx. }
  induction s as [|a s IH]; cbn; [by rewrite Hn, Hc|]. by rewrite IH.
Qed.

Lemma str_slice_mid s t r : str_slice (length s) (length (s ++ t)) (s ++ t ++ r) = Some t.
Proof.
  unfold str_slice. rewrite (proj2 (Nat.leb_le _ _)) by (rewrite length_app; lia).
  rewrite (proj2 (Nat.leb_le _ _)) by (rewrite !length_app; lia). cbn [andb].
  rewrite drop_app_length, length_app. replace (length s + length t - length s)%nat with (length t) by lia.
  by rewrite take_app_length.
Qed.

Lemma str_slice_front s r : str_slice 0 (length s) (s ++ r) = Some s.
Proof. apply (str_slice_mid []). Qed.

Lemma str_from_app s t : str_from (length s) (s ++ t) = Some t.
Proof. unfold str_from. rewrite <- (app_nil_r t) at 2. apply str_slice_mid. Qed.

Lemma find_no c s t : ~ In c s -> str_find (is_char c) (s ++ c :: t) = Some (length s).
Proof. intros H. apply str_find_split; [by apply not_in_find|apply Z.eqb_refl]. Qed.

Lemma find_or_end_no c s t : ~ In c s -> (t = [] \/ starts_with c t = true) -> find_or_end c (s ++ t) = length s.
Proof.
  intros H [->|Ht]; unfold find_or_end.
  - rewrite app_nil_r. by rewrite (proj2 (str_find_none _ _)) by by apply not_in_find.
  - apply starts_with_cons in Ht as [t' ->]. by rewrite find_no.
Qed.

Lemma seps_no c sep ws : c <> sep -> Forall kebab_case ws -> not_kebab_char c = true -> ~ In c (seps sep ws).
Proof.
  intros Hc Hws Hk Hi. apply in_concat in Hi as (l & Hl & Hi). apply in_map_iff in Hl as (w & <- & Hw).
  destruct Hi as [Hi|Hi]; [by symmetry in Hi|]. rewrite List.Forall_forall in Hws. by apply (kebab_no w c); [apply Hws|..].
Qed.

Section interface_names.
Context {V : Semver} {VS : SemverSpec V}.

(** An interface name with its parts: the namespace [a], which may be nested, the
    package [k], the projection [b] that starts with the interface [j], and the
    version [v]. *)
Record interface_parts (i : InterfaceName) (a k j b v : Chars) : Prop := {
  ip_str : interface_name_str i = a ++ COLON :: k ++ SLASH :: b ++ v;
  ip_a : ~ In SLASH a /\ ~ In AT a;
  ip_k : ~ In SLASH k /\ ~ In AT k /\ ~ In COLON k;
  ip_b : ~ In AT b /\ ~ In COLON b;
  ip_j : exists b', b = j ++ b' /\ ~ In SLASH j /\ (b' = [] \/ starts_with SLASH b' = true);
  ip_v : (v = [] \/ starts_with AT v = true) /\ ~ In COLON v;
}.

Lemma namespace_parts i a k j b v : interface_parts i a k j b v -> namespace i = Some (new_unchecked a).
Proof.
  intros [E _ (_ & _ & Hk) (_ & Hb) _ (_ & Hv)]. unfold namespace. rewrite E, str_rfind_split; [|apply not_in_find|apply Z.eqb_refl].
  - cbn [mbind option_bind]. by rewrite str_slice_front.
  - rewrite in_app_iff. intros [?|[?|Hi]]; [done..|]. by apply in_app_or in Hi as [?|?].
Qed.

Lemma slash_parts i a k j b v :
  interface_parts i a k j b v -> str_find (is_char SLASH) (interface_name_str i) = Some (length (a ++ COLON :: k)).
Proof.
  intros [E (Ha & _) (Hk & _) _ _ _]. rewrite E.
  replace (a ++ COLON :: k ++ SLASH :: b ++ v) with ((a ++ COLON :: k) ++ SLASH :: b ++ v) by by rewrite <- app_assoc.
  apply find_no. rewrite in_app_iff. by intros [?|[?|?]].
Qed.

Lemma package_parts i a k j b v : interface_parts i a k j b v -> package i = Some (new_unchecked k).
Proof.
  intros H. pose proof (slash_parts _ _ _ _ _ _ H) as Hs. destruct H as [E _ (_ & _ & Hk) (_ & Hb) _ (_ & Hv)].
  unfold package. rewrite Hs, E, str_rfind_split; [|apply not_in_find|apply Z.eqb_refl].
  - cbn [mbind option_bind].
    replace (length a + 1)%nat with (length (a ++ [COLON])) by by rewrite length_app.
    replace (a ++ COLON :: k) with ((a ++ [COLON]) ++ k) by by rewrite <- app_assoc.
    replace (a ++ COLON :: k ++ SLASH :: b ++ v) with ((a ++ [COLON]) ++ k ++ SLASH :: b ++ v) by by rewrite <- app_assoc.
    by rewrite str_slice_mid.
  - rewrite in_app_iff. intros [?|[?|Hi]]; [done..|]. by apply in_app_or in Hi as [?|?].
Qed.

Lemma parts_split i a k j b v :
  interface_parts i a k j b v ->
  interface_name_str i = ((a ++ COLON :: k) ++ [SLASH]) ++ b ++ v /\ ~ In AT (((a ++ COLON :: k) ++ [SLASH]) ++ b).
Proof.
  intros [E (_ & Ha) (_ & Hk & _) (Hb & _) _ _]. rewrite E, <- !app_assoc. split; [done|]. rewrite !in_app_iff.
  intros [?|[[?|?]|[[?|[]]|?]]]; done.
Qed.

Lemma projection_parts i a k j b v : interface_parts i a k j b v -> projection i = Some (new_unchecked b).
Proof.
  intros H. pose proof (slash_parts _ _ _ _ _ _ H) as Hs. destruct (parts_split _ _ _ _ _ _ H) as [E Ha]. destruct (ip_v _ _ _ _ _ _ H) as [Hv _].
  unfold projection. rewrite Hs. cbn [mbind option_bind]. rewrite E at 1. rewrite app_assoc, find_or_end_no by done. rewrite E.
  replace (length (a ++ COLON :: k) + 1)%nat with (length ((a ++ COLON :: k) ++ [SLASH])) by by rewrite (length_app _ [SLASH]).
  by rewrite str_slice_mid.
Qed.

Lemma interface_of_parts i a k j b v : interface_parts i a k j b v -> interface i = Some (new_unchecked j).
Proof.
  intros H. unfold interface. rewrite (projection_parts _ _ _ _ _ _ H). destruct (ip_j _ _ _ _ _ _ H) as (b' & -> & Hj & Hb').
  cbn [mbind option_bind kebab_str]. rewrite find_or_end_no by done. by rewrite str_slice_front.
Qed.

Lemma version_parts i a k j b v :
  interface_parts i a k j b v ->
  interface_version i = match v with [] => Some None | _ :: s => x ← version_parse s; Some (Some x) end.
Proof.
  intros H. destruct (parts_split _ _ _ _ _ _ H) as [E Ha]. destruct (ip_v _ _ _ _ _ _ H) as [[->|Hv] _]; unfold interface_version.
  - rewrite E, app_nil_r, (proj2 (str_find_none _ _)); [done|]. by apply not_in_find.
  - apply starts_with_cons in Hv as [s ->]. rewrite E, app_assoc, find_no by done.
    set (l := ((a ++ COLON :: k) ++ [SLASH]) ++ b). replace (length l + 1)%nat with (length (l ++ [AT])) by by rewrite length_app.
    replace (l ++ AT :: s) with ((l ++ [AT]) ++ s) by by rewrite <- app_assoc. by rewrite str_from_app.
Qed.
End interface_names.

Section name_parts.
Context {V : Semver} {VS : SemverSpec V} (f : WasmFeatures).

(** The parts of an interface name as the grammar has them. *)
Definition interface_grammar (i : InterfaceName) (ns : Chars) (pkgs : list Chars) (pkg proj : Chars) (projs : list Chars)
  (v : option Chars) : Prop :=
  exists p, path_parts f true ns (pkgs ++ [pkg]) (proj :: projs) p
    /\ interface_name_str i = p ++ match v with Some u => AT :: u | None => [] end
    /\ match v with Some u => version u | None => True end.

Lemma package_name_grammar s :
  package_name f true s -> exists ns pkgs pkg proj projs v, interface_grammar (mkInterfaceName s) ns pkgs pkg proj projs v.
Proof.
  assert (Hp : forall p v, path f true p -> match v with Some u => version u | None => True end ->
            exists ns pkgs pkg proj projs,
              interface_grammar (mkInterfaceName (p ++ match v with Some u => AT :: u | None => [] end)) ns pkgs pkg proj projs v).
  { intros p v (ns & pkgs & projs & H) Hv. pose proof H as (_ & _ & _ & Hn & Hr & _).
    destruct (exists_last Hn) as (pkgs' & pkg & ->). destruct projs as [|proj projs]; [by specialize (Hr eq_refl)|].
    by exists ns, pkgs', pkg, proj, projs, p. }
  intros [H|(p & u & -> & H & Hu)].
  - destruct (Hp s None H I) as (ns & pkgs & pkg & proj & projs & Hg). cbn in Hg. rewrite app_nil_r in Hg.
    by exists ns, pkgs, pkg, proj, projs, None.
  - destruct (Hp p (Some u) H Hu) as (ns & pkgs & pkg & proj & projs & Hg). by exists ns, pkgs, pkg, proj, projs, (Some u).
Qed.

Lemma lower_kebab_all l : Forall lower_kebab l -> Forall kebab_case l.
Proof. intros H. eapply Forall_impl; [exact H|]. by intros s [? _]. Qed.

Lemma interface_grammar_parts i ns pkgs pkg proj projs v :
  interface_grammar i ns pkgs pkg proj projs v ->
  interface_parts i (ns ++ seps COLON pkgs) pkg proj (proj ++ seps SLASH projs)
    match v with Some u => AT :: u | None => [] end.
Proof.
  intros (p & (Ep & Hns & Hpr & _) & E & Hv). apply lower_kebab_all, Forall_cons in Hns as [Hns Hpk].
  apply Forall_app in Hpk as [Hpk Hk]. apply Forall_cons in Hk as [Hk _]. apply Forall_cons in Hpr as [Hj Hpr]. split.
  - rewrite E, Ep. unfold seps. rewrite map_app, concat_app. cbn [map concat]. rewrite app_nil_r.
    by repeat (rewrite <- ?app_assoc; cbn [app]).
  - rewrite !in_app_iff. split; (intros [H|H]; [by revert H; apply kebab_no|by revert H; apply seps_no]).
  - split_and!; by apply kebab_no.
  - rewrite !in_app_iff. split; (intros [H|H]; [by revert H; apply kebab_no|by revert H; apply seps_no]).
  - exists (seps SLASH projs). split; [done|]. split; [by apply kebab_no|]. destruct projs; [by left|by right].
  - destruct v as [u|]; [|split; [by left|by intros []]]. split; [by right|]. intros [H|H]; [done|]. by revert H; apply version_no.
Qed.
End name_parts.

(** What the kind of a name and its accessors return. *)
Definition parts_spec {V : Semver} (f : WasmFeatures) (name : Chars) (k : ComponentNameKind) : Prop :=
  match k with
  | Label s => name = kebab_str s /\ kebab_case name
  | Constructor s => name = CONSTRUCTOR ++ kebab_str s /\ kebab_case (kebab_str s)
  | Method r => exists x m, name = METHOD ++ x ++ DOT :: m /\ kebab_case x /\ kebab_case m
      /\ resource_func_str r = x ++ DOT :: m /\ resource r = Some (new_unchecked x)
  | Static r => exists x m, name = STATIC ++ x ++ DOT :: m /\ kebab_case x /\ kebab_case m
      /\ resource_func_str r = x ++ DOT :: m /\ resource r = Some (new_unchecked x)
  | Interface i => interface_name_str i = name /\ exists ns pkgs pkg proj projs v,
      interface_grammar f i ns pkgs pkg proj projs v
      /\ namespace i = Some (new_unchecked (ns ++ seps COLON pkgs))
      /\ package i = Some (new_unchecked pkg)
      /\ projection i = Some (new_unchecked (proj ++ seps SLASH projs))
      /\ interface i = Some (new_unchecked proj)
      /\ interface_version i = match v with Some u => Some <$> version_parse u | None => Some None end
      /\ is_Some (interface_version i)
  | Dependency d => dependency_name_str d = name
  | Url u => url_name_str u = name
  | Hash h => hash_name_str h = name
  end.

Lemma resource_spec x m : kebab_case x -> resource (mkResourceFunc (x ++ DOT :: m)) = Some (new_unchecked x).
Proof.
  intros H. unfold resource. cbn [resource_func_str]. rewrite find_no by by apply kebab_no. cbn [mbind option_bind].
  by rewrite str_slice_front.
Qed.

Lemma interface_spec (V : Semver) (VS : SemverSpec V) f name :
  package_name f true name -> parts_spec f name (Interface (mkInterfaceName name)).
Proof.
  intros H. split; [done|]. destruct (package_name_grammar f name H) as (ns & pkgs & pkg & proj & projs & v & Hg).
  exists ns, pkgs, pkg, proj, projs, v. pose proof (interface_grammar_parts f _ _ _ _ _ _ _ Hg) as Hp.
  assert (Hv : interface_version (mkInterfaceName name)
               = match v with Some u => Some <$> version_parse u | None => Some None end).
  { rewrite (version_parts _ _ _ _ _ _ Hp). by destruct v as [u|]; [destruct (version_parse u)|]. }
  rewrite (namespace_parts _ _ _ _ _ _ Hp), (package_parts _ _ _ _ _ _ Hp), (projection_parts _ _ _ _ _ _ Hp),
    (interface_of_parts _ _ _ _ _ _ Hp), Hv.
  destruct Hg as (p & Hp1 & Hp2 & Hver). split_and!; try done; [by exists p|]. destruct v as [u|]; [|done].
  destruct Hver as [x Hx]. by rewrite Hx.
Qed.

(** C28. The kind of a parsed name and every accessor of its parts return without a
    panic, and they return the parts of the grammar: the resource of a method or a
    static function, and the namespace, package, projection, interface and version of
    an interface name, nested names included. *)
Theorem component_name_parts (V : Semver) (VS : SemverSpec V) name off f n :
  ComponentName_new_with_features name off f = Ok n ->
  exists k, component_name_kind n = Some k /\ name_kind_of k = parsed_kind n /\ parts_spec f name k.
Proof.
  intros H. apply (proj1 (new_grammar f name off)) in H as [En Hg]. destruct n as [raw0 k]. cbn in En, Hg. subst raw0. unfold component_name_kind. cbn [parsed_kind raw].
  destruct k; cbn [name_grammar] in Hg.
  - eexists. split; [done|]. by split.
  - destruct Hg as (r & -> & Hr). rewrite str_from_app. eexists. split; [done|]. by split.
  - destruct Hg as (x & m & -> & Hx & Hm). rewrite str_from_app. eexists. split; [done|]. split; [done|]. exists x, m.
    split_and!; try done. by apply resource_spec.
  - destruct Hg as (x & m & -> & Hx & Hm). rewrite str_from_app. eexists. split; [done|]. split; [done|]. exists x, m.
    split_and!; try done. by apply resource_spec.
  - eexists. split; [done|]. split; [done|]. by apply interface_spec.
  - by eexists.
  - by eexists.
  - by eexists.
Qed.

Lemma component_name_parts_witness :
  exists n, ComponentName_new_with_features (chars "[method]request.set-path") 7 WasmFeatures_default = Ok n
    /\ exists k, component_name_kind n = Some k /\ name_kind_of k = PMethod
         /\ parts_spec WasmFeatures_default (chars "[method]request.set-path") k.
Proof.
  eexists. split; [vm_compute; reflexivity|].
  refine (component_name_parts release_semver release_semver_spec _ 7 WasmFeatures_default _ _). vm_compute. reflexivity.
Defined.

(** ** Equality, hash and order *)

Abbreviation lower_str s := (map to_ascii_lowercase s).

Lemma len_utf8_pos c : 0 < len_utf8 c.
Proof. unfold len_utf8. repeat case_match; lia. Qed.

Lemma str_len_nonneg s : 0 <= str_len s.
Proof. induction s as [|c s IH]; cbn; [lia|]. pose proof (len_utf8_pos c). unfold str_len in IH. lia. Qed.

Lemma lower_len c : len_utf8 (to_ascii_lowercase c) = len_utf8 c.
Proof. unfold to_ascii_lowercase, is_AZ, len_utf8. repeat case_match; lia. Qed.

Lemma lower_str_len s t : lower_str s = lower_str t -> str_len s = str_len t.
Proof.
  revert t. induction s as [|c s IH]; intros [|d t] H; try done. cbn in H. injection H as Hc H. cbn.
  rewrite <- (lower_len c), Hc, lower_len. f_equal. by apply IH.
Qed.

(** The lengths in bytes make up for the end of the shorter string in [zip]. *)
Lemma kebab_eq_loop s t :
  str_len s = str_len t -> forallb (fun '(x, y) => to_ascii_lowercase x =? to_ascii_lowercase y) (zip s t) = true ->
  lower_str s = lower_str t.
Proof.
  revert t. induction s as [|c s IH]; intros [|d t] Hl H; try done.
  - cbn in Hl. pose proof (len_utf8_pos d). pose proof (str_len_nonneg t). unfold str_len in *. lia.
  - cbn in Hl. pose proof (len_utf8_pos c). pose proof (str_len_nonneg s). unfold str_len in *. lia.
  - cbn in Hl, H. apply andb_true_iff in H as [Hc H]. apply Z.eqb_eq in Hc. cbn. rewrite Hc. f_equal. apply IH; [|done].
    rewrite <- (lower_len c), Hc, lower_len in Hl. unfold str_len. lia.
Qed.

Lemma kebab_eq_spec a b : kebab_eq a b = true <-> lower_str (kebab_str a) = lower_str (kebab_str b).
Proof.
  unfold kebab_eq. destruct (Z.eqb_spec (str_len (kebab_str a)) (str_len (kebab_str b))) as [Hl|Hl]; cbn [negb].
  - split; [by apply kebab_eq_loop|]. intros H. clear Hl. revert H. generalize (kebab_str b).
    induction (kebab_str a) as [|c s IH]; intros [|d t] H; try done. cbn in H |- *. injection H as Hc H.
    rewrite (IH t H), andb_true_r. by apply Z.eqb_eq.
  - split; [done|]. intros H. by apply lower_str_len in H.
Qed.

Lemma kebab_hash_spec a b : kebab_hash a = kebab_hash b <-> lower_str (kebab_str a) = lower_str (kebab_str b).
Proof.
  unfold kebab_hash. split.
  - intros [= _ H]. rewrite <- (map_map to_ascii_lowercase HashChar), <- (map_map to_ascii_lowercase HashChar (kebab_str b)) in H.
    revert H. generalize (lower_str (kebab_str b)). induction (lower_str (kebab_str a)) as [|c s IH]; intros [|d t] H; try done.
    cbn in H. injection H as -> H. f_equal. by apply IH.
  - intros H. f_equal; [by rewrite (lower_str_len _ _ H)|].
    by rewrite <- (map_map to_ascii_lowercase HashChar), H, map_map.
Qed.

Lemma str_cmp_eq s t : str_cmp s t = Eq <-> s = t.
Proof.
  revert t. induction s as [|c s IH]; intros [|d t]; try done. cbn. destruct (Z.compare_spec c d) as [->|H|H].
  - rewrite IH. split; [by intros ->|by intros [= ->]].
  - split; [done|]. intros [= -> ->]. lia.
  - split; [done|]. intros [= -> ->]. lia.
Qed.

Lemma str_cmp_opp s t : str_cmp t s = CompOpp (str_cmp s t).
Proof.
  revert t. induction s as [|c s IH]; intros [|d t]; try done. cbn. rewrite (Z.compare_antisym c d).
  destruct (c ?= d); cbn; [apply IH|done|done].
Qed.

Lemma str_cmp_trans s t u : str_cmp s t = Lt -> str_cmp t u = Lt -> str_cmp s u = Lt.
Proof.
  revert t u. induction s as [|c s IH]; intros [|d t] [|e u] H1 H2; try done. cbn in *.
  destruct (Z.compare_spec c d) as [->|H|H], (Z.compare_spec d e) as [->|H'|H']; try done.
  all: first [by eapply IH|by rewrite (proj2 (Z.compare_lt_iff _ _)) by lia].
Qed.

(** The string by which names of a kind are compared. *)
Definition sort_key (k : ComponentNameKind) : Chars :=
  match k with
  | Label s | Constructor s => lower_str (kebab_str s)
  | Method r | Static r => resource_func_str r
  | Interface i => interface_name_str i
  | Dependency d => dependency_name_str d
  | Url u => url_name_str u
  | Hash h => hash_name_str h
  end.

(** Methods and static functions are one kind for the equality. *)
Definition eq_kind (k : ParsedComponentNameKind) : ParsedComponentNameKind := match k with PStatic => PMethod | _ => k end.

Lemma kind_eq_spec a b : kind_eq a b = true <-> eq_kind (name_kind_of a) = eq_kind (name_kind_of b) /\ sort_key a = sort_key b.
Proof.
  destruct a, b; cbn; rewrite ?kebab_eq_spec, ?bool_decide_eq_true; (split; [intros H; by split|by intros [_ H]]) || (split; [done|by intros [H _]]).
Qed.

Lemma kind_hash_spec a b : kind_hash a = kind_hash b <-> eq_kind (name_kind_of a) = eq_kind (name_kind_of b) /\ sort_key a = sort_key b.
Proof.
  destruct a, b; cbn [kind_hash name_kind_of eq_kind sort_key]; rewrite <- ?kebab_hash_spec.
  all: split; [intros H; first [discriminate H|split; congruence]|intros [H1 H2]; first [done|by rewrite H2]].
Qed.

Lemma kind_cmp_spec a b :
  kind_cmp a b = Some (match kind_rank (name_kind_of a) ?= kind_rank (name_kind_of b) with
                       | Eq => str_cmp (sort_key a) (sort_key b) | c => c end).
Proof. by destruct a, b. Qed.

Lemma kind_rank_inj k k' : kind_rank k = kind_rank k' -> k = k'.
Proof. by destruct k, k'. Qed.

(** C29. The equality of names is an equivalence that the hash respects exactly (equal
    names feed the hasher the same input, unequal names different input), with the
    letter case of labels and the difference between methods and static functions
    ignored; the order never reaches its [unreachable!] arm and is a strict total
    order up to names that are equal and of one kind. *)
Theorem component_name_order :
  Equivalence (fun a b => kind_eq a b = true)
  /\ (forall a b, kind_eq a b = true <-> kind_hash a = kind_hash b)
  /\ (forall a b, exists c, kind_cmp a b = Some c /\ kind_cmp b a = Some (CompOpp c)
        /\ (c = Eq <-> kind_eq a b = true /\ name_kind_of a = name_kind_of b))
  /\ StrictOrder (fun a b => kind_cmp a b = Some Lt).
Proof.
  split_and!.
  - split; [intros a|intros a b|intros a b c]; rewrite !kind_eq_spec; intuition congruence.
  - intros a b. by rewrite kind_eq_spec, kind_hash_spec.
  - intros a b. rewrite (kind_cmp_spec a b), (kind_cmp_spec b a). eexists. split; [done|]. split.
    + rewrite (Z.compare_antisym (kind_rank (name_kind_of a))), str_cmp_opp. by destruct (_ ?= _).
    + rewrite kind_eq_spec. destruct (Z.compare_spec (kind_rank (name_kind_of a)) (kind_rank (name_kind_of b))) as [H|H|H].
      * apply kind_rank_inj in H. rewrite str_cmp_eq, H. tauto.
      * split; [done|]. intros [_ E]. rewrite E in H. lia.
      * split; [done|]. intros [_ E]. rewrite E in H. lia.
  - split.
    + intros a H. rewrite kind_cmp_spec, Z.compare_refl in H. by rewrite (proj2 (str_cmp_eq _ _) eq_refl) in H.
    + intros a b c H1 H2. rewrite kind_cmp_spec in *. injection H1 as H1. injection H2 as H2. f_equal.
      destruct (Z.compare_spec (kind_rank (name_kind_of a)) (kind_rank (name_kind_of b))) as [E|E|E]; [..|done];
        destruct (Z.compare_spec (kind_rank (name_kind_of b)) (kind_rank (name_kind_of c))) as [E'|E'|E']; try done.
      { rewrite E, E', Z.compare_refl. by eapply str_cmp_trans. }
      all: by rewrite (proj2 (Z.compare_lt_iff _ _)) by lia.
Qed.

(** The order tells a method from the static function of the same name, which the
    equality and the hash identify; and [partial_cmp] compares kinds only. *)
Example method_equals_static :
  exists m s, ComponentName_new (chars "[method]a.b") 0 = Ok m /\ ComponentName_new (chars "[static]a.b") 0 = Ok s
    /\ name_eq m s = Some true /\ name_hash m = name_hash s /\ name_cmp m s = Some Lt.
Proof. eexists _, _. split; [vm_compute; reflexivity|]. split; [vm_compute; reflexivity|]. by vm_compute. Qed.

Example labels_partially_equal :
  exists a b, ComponentName_new (chars "a") 0 = Ok a /\ ComponentName_new (chars "b") 0 = Ok b
    /\ name_cmp a b = Some Lt /\ name_partial_cmp a b = Some Eq.
Proof. eexists _, _. split; [vm_compute; reflexivity|]. split; [vm_compute; reflexivity|]. by vm_compute. Qed.

(** A query for any version may be written in braces. *)
Example star_in_braces :
  exists n, ComponentName_new (chars "unlocked-dep=<a:b@{*}>") 0 = Ok n /\ parsed_kind n = PDependency.
Proof. eexists. split; [vm_compute; reflexivity|done]. Qed.

(** The names that the documentation gives as examples of four kinds are not names:
    those of a dependency, a url and a hash lack the angle brackets (and the digest
    its dash), and the version of the interface has two numbers only. *)
Example documented_names_rejected :
  Forall (fun name => exists e, ComponentName_new name 0 = Err e)
    [chars "locked-dep=foo:bar/baz"; chars "url=https://..."; chars "integrity=sha256:..."; chars "wasi:http/types@2.0"].
Proof. repeat constructor; eexists; vm_compute; reflexivity. Qed.
