(* ===== verification/ValidatorTheorems.v ===== *)
(** The operator validator: the properties of
    [crates/wasmparser/src/validator/operators.rs], [func.rs] and [arity.rs]. *)

From Stdlib Require Import ZArith Lia String.
From stdpp Require Import prelude.
From S2P Require Import Prelude StateLogic Leb128 BinaryReader BinaryReaderSpec ReaderLogic Types TypesSpec.
From S2P Require Import Operands Operators OperatorReader OperandSpec OperatorSpec SectionReader CompositeTypes.
From S2P Require Import Items ValidatorState OperatorValidator VisitOperators ValidateOperator Arity LocalsSpec.
From S2P Require Import ValidatorLogic ValidatorModule VisitSpec FuncSpec ReaderTheorems.

Local Open Scope Z_scope.

(** ** A module *)

(** One type, of a function from an [i64] to an [i32], and one memory. *)
Definition sample_func : FuncType := FuncType_new [I64] [I32].
Definition sample_sub : SubType := mkSubType true None (mkCompositeType (CFunc sample_func) false).

Definition sample_resources : WasmModuleResources := {|
  table_at _ := None;
  memory_at i := if i =? 0 then Some (mkMemoryType false false 1 None None) else None;
  tag_at _ := Some None;
  global_at _ := None;
  sub_type_at i := Some (if i =? 0 then Some sample_sub else None);
  sub_type_at_id id := if id =? 0 then Some sample_sub else None;
  type_id_of_function _ := None;
  type_index_of_function i := if i =? 0 then Some 0 else None;
  element_type_at _ := None;
  is_subtype a b := Some (bool_decide (a = b));
  is_shared _ := Some false;
  check_heap_type h off :=
    match h with
    | Abstract _ _ => Ok h
    | Concrete _ => Err (err_new (lit "unknown type: type index out of bounds") off)
    end;
  top_type _ := Some (Abstract false HAny);
  element_count := 0;
  res_data_count := None;
  is_function_referenced _ := false;
|}.

Lemma sample_func_ok : func_ok (R := sample_resources) sample_func.
Proof. split; [by repeat constructor..|done]. Qed.

#[export] Instance sample_resources_spec : ResourcesSpec sample_resources.
Proof.
  split.
  - intros t. cbn. by rewrite bool_decide_eq_true_2.
  - by eexists.
  - by eexists.
  - intros [] off; done.
  - intros h _. by exists false, HAny.
  - intros i. eexists. split; [done|]. intros t. destruct (i =? 0); [|done]. intros [= <-]. exact sample_func_ok.
  - intros id t. cbn. destruct (id =? 0); [|done]. intros [= <-]. exact sample_func_ok.
  - intros i. by exists None.
  - done.
  - done.
  - done.
  - done.
Qed.

(** In the function with two locals, after [i64.const]. *)
Definition sample_state : OperatorValidator :=
  mkOV (mkLocals 2 [I64; I32] [(0, I64); (1, I32)]) (mkLocalInits [true; true] [] (2 ^ 32 - 1))
    WasmFeatures_all [] [mkFrame FK_Block (BT_FuncType 0) 0 false 0] [Known I64] None false (0, 1).

Lemma sample_state_inv : inv (R := sample_resources) sample_state.
Proof.
  split; cbn; [lia|by constructor|done|by constructor| |done]. exists [I64; I32]. split; [|by repeat constructor].
  split; [done..|]. split; [lia|]. exists [I32]. split; [done|]. split; [lia|]. by exists [].
Qed.

(** ** Operands *)

(** Popping an operand with the fast path, which compares the top of the
    stack with the expected type and skips the rest when they are equal, is the
    same as the general path: the same result or error, and the same state. *)
Theorem pop_operand_fast_path {R : WasmModuleResources} off expected v :
  (forall t, is_subtype t t = Some true) ->
  pop_operand off expected v = _pop_operand off expected None v.
Proof. intros Hrefl. by apply pop_operand_slow. Qed.

Lemma pop_operand_fast_path_witness :
  let R := sample_resources in
  pop_operand 7 (Some I64) sample_state = _pop_operand 7 (Some I64) None sample_state
  /\ fst (pop_operand 7 (Some I64) sample_state) = Ok (Known I64)
  /\ pop_operand 7 (Some I32) sample_state = _pop_operand 7 (Some I32) None sample_state
  /\ fst (pop_operand 7 (Some I32) sample_state)
     = Err (err_new (mkMsg "type mismatch: expected {}, found {}" [0x7f; 0x7e]) 7).
Proof.
  intros R. assert (Hr : forall t, is_subtype t t = Some true) by (intros t; cbn; by rewrite bool_decide_eq_true_2).
  split; [exact (pop_operand_fast_path 7 (Some I64) sample_state Hr)|]. split; [reflexivity|].
  split; [exact (pop_operand_fast_path 7 (Some I32) sample_state Hr)|]. reflexivity.
Defined.

(** ** Locals *)

(** After any groups of locals were defined, the lookup that uses the table
    of the first locals and a binary search in the compressed ranges finds for
    every index the type that the list of all locals has there, and nothing
    beyond it; defining fails exactly when there are more than 50000 locals. *)
Theorem locals_lookup gs :
  Forall (fun g => 0 < fst g) gs ->
  let tys := concat (map group_locals gs) in
  match define_groups gs (mkLocals 0 [] []) with
  | Some l =>
      Z.of_nat (length tys) <= MAX_WASM_FUNCTION_LOCALS /\ num_locals l = Z.of_nat (length tys)
      /\ forall idx, 0 <= idx -> locals_get l idx = Some (tys !! Z.to_nat idx)
  | None => MAX_WASM_FUNCTION_LOCALS < Z.of_nat (length tys)
  end.
Proof.
  intros Hgs tys. pose proof (define_groups_repr gs _ [] Hgs locals_repr_empty) as H. cbn [app] in H.
  fold tys in H. specialize (H ltac:(done)).
  destruct (define_groups gs (mkLocals 0 [] [])) as [l|]; [|done]. destruct H as [Hl Hn].
  rewrite (repr_num _ _ Hl) in Hn. split_and!; [done|by apply repr_num|].
  intros idx Hi. by apply locals_get_repr.
Qed.

Lemma locals_lookup_witness :
  match define_groups [(2, I32); (60, I64); (1, F32)] (mkLocals 0 [] []) with
  | Some l => locals_get l 1 = Some (Some I32) /\ locals_get l 61 = Some (Some I64)
              /\ locals_get l 62 = Some (Some F32) /\ locals_get l 63 = Some None
  | None => False
  end
  /\ define_groups [(2, I32); (49999, I64)] (mkLocals 0 [] []) = None.
Proof.
  assert (H1 : Forall (fun g => 0 < fst g) [(2, I32); (60, I64); (1, F32)]) by (repeat constructor).
  assert (H2 : Forall (fun g => 0 < fst g) [(2, I32); (49999, I64)]) by (repeat constructor).
  pose proof (locals_lookup _ H1) as [_ [_ H]]. pose proof (locals_lookup _ H2) as H'.
  split; [|vm_compute; reflexivity].
  cbn [define_groups define fst snd Z.add Z.ltb Z.compare] in H |- *.
  split; [exact (H 1 ltac:(lia))|]. split; [exact (H 61 ltac:(lia))|].
  split; [exact (H 62 ltac:(lia))|exact (H 63 ltac:(lia))].
Defined.

(** The undo log of [LocalInits] implements scopes: starting from any
    parameters and groups of locals, after any sequence of initializations of
    locals, entries into and exits from scopes, the log answers for every local
    as the flags do which are copied at every entry and restored at every exit;
    it gets stuck only at an exit from a scope that was not entered. *)
Theorem local_inits_scopes nparams gs os :
  0 <= nparams ->
  let fs := initial_flags nparams gs in
  Z.of_nat (length fs) < 2 ^ 32 -> Forall (scope_op_ok (length fs)) os ->
  match run_scopes inits_step os (define_inits gs (define_params nparams LocalInits_default), []),
        run_scopes scope_step os (mkScopes fs []) with
  | Some c, Some s =>
      length (flags s) = length fs
      /\ forall i, 0 <= i < Z.of_nat (length fs) -> is_uninit i c.1 = negb <$> flags s !! Z.to_nat i
  | None, None => True
  | _, _ => False
  end.
Proof.
  intros Hn fs Hlen Hos.
  pose proof (define_inits_repr gs _ _ (define_params_repr nparams Hn) Hlen) as Hi.
  pose proof (run_scopes_repr (length fs) os _ _ (initial_scopes_repr _ _ Hi)
    (Forall_cons_2 _ _ _ eq_refl (Forall_nil_2 _)) Hos) as H.
  destruct (run_scopes inits_step os _) as [c|], (run_scopes scope_step os _) as [s|]; try done.
  destruct H as [Hr Hl]. apply Forall_cons in Hl as [Hl _]. split; [done|].
  intros i Hir. apply is_uninit_repr; [done|]. by rewrite Hl.
Qed.

Lemma local_inits_scopes_witness :
  let gs := [(1, I32); (2, Ref EXN)] in
  let os := [Sc_init 2; Sc_enter; Sc_init 3; Sc_enter; Sc_init 3; Sc_leave; Sc_leave] in
  match run_scopes inits_step os (define_inits gs (define_params 1 LocalInits_default), []) with
  | Some c => is_uninit 1 c.1 = Some false /\ is_uninit 2 c.1 = Some false /\ is_uninit 3 c.1 = Some true
  | None => False
  end.
Proof.
  intros gs os. assert (Hos : Forall (scope_op_ok (length (initial_flags 1 gs))) os).
  { unfold gs, os. cbn. repeat (constructor; [cbn; lia|]). by repeat constructor. }
  pose proof (local_inits_scopes 1 gs os ltac:(lia) ltac:(vm_compute; reflexivity) Hos) as [_ H].
  split; [exact (H 1 ltac:(vm_compute; split; congruence))|].
  split; [exact (H 2 ltac:(vm_compute; split; congruence))|exact (H 3 ltac:(vm_compute; split; congruence))].
Defined.

(** ** Operators *)

(** C7. Validating any operator that the reader can produce, at an offset that is
    not zero (operators come after the header of a module), preserves the
    invariant of the validator: frames are nested above the operands and the
    initializations of the frames around them, block types are canonical, every
    local has a flag and a type, and the end of the function is known once its
    last frame is popped.  No [unwrap], [expect], index or subtraction in the
    618 methods panics. *)
Theorem validate_operator_invariant {R : WasmModuleResources} {RS : ResourcesSpec R} off f o v :
  inv v -> ended v -> op_wf f o -> off <> 0 ->
  match validate_operator off o v with
  | (Ok _, v') => inv v' /\ ended v' /\ ov_features v' = ov_features v
  | (Err _, _) => True
  | (Panic, _) => False
  end.
Proof.
  intros Hv He Ho Hoff. pose proof (validate_operator_safe off v Hv He f o Ho (fun _ => Hoff)) as H.
  unfold safe in H. destruct (validate_operator off o v) as [[[]|e|] v']; [|done..].
  by destruct H.
Qed.

(** [local.get 1] and then the block that takes and gives the two operands. *)
Lemma validate_operator_invariant_witness :
  let R := sample_resources in
  (exists v', validate_operator 7 (Op.Mvp (Op.Block (BT_FuncType 0))) sample_state = (Ok tt, v')
    /\ length (control v') = 2%nat /\ inv v' /\ ended v' /\ ov_features v' = WasmFeatures_all)
  /\ fst (validate_operator 7 (Op.Mvp Op.End) sample_state)
     = Err (err_new (mkMsg "type mismatch: expected {}, found {}" [0x7f; 0x7e]) 7).
Proof.
  intros R. split; [|vm_compute; reflexivity].
  pose proof (validate_operator_invariant 7 WasmFeatures_all (Op.Mvp (Op.Block (BT_FuncType 0))) sample_state
    sample_state_inv ltac:(done) ltac:(cbn; unfold in_u; lia) ltac:(lia)) as H.
  eexists. split; [vm_compute; reflexivity|]. split; [reflexivity|]. vm_compute in H |- *. exact H.
Defined.

(** C39. The arity that is computed from the annotation of an operator before it
    is validated is the number of operands that validating it with success pops
    and pushes, for every operator at an offset that is not zero, block, branch
    and call, in reachable and in unreachable code, with two exceptions: the
    arity is a 32-bit signed number, so an [array.new_fixed] of 2^31 elements or
    more, for which it is [None], is excluded, and so is a [return] inside 2^32
    or more frames, whose count is a 32-bit number.  Otherwise the comparison of
    the debug build never fails. *)
Theorem operator_arity_agrees {R : WasmModuleResources} {RS : ResourcesSpec R} off f o v v' :
  inv v -> ended v -> op_wf f o -> off <> 0 -> arity_fits v o ->
  validate_operator off o v = (Ok tt, v') ->
  operator_arity (M := validator_arity v) o
  = Some (fst (pop_push_count v') - fst (pop_push_count v), snd (pop_push_count v') - snd (pop_push_count v)).
Proof.
  intros Hv He Ho Hoff Hfit Hok. pose proof (validate_operator_safe off v Hv He f o Ho (fun _ => Hoff)) as H.
  unfold safe in H. rewrite Hok in H. by apply H.
Qed.

Lemma operator_arity_agrees_witness :
  let R := sample_resources in
  let o := Op.Mvp (Op.Call 0) in
  operator_arity (M := validator_arity sample_state) o = Some (1, 1)
  /\ operator_arity (M := validator_arity sample_state) (Op.Mvp (Op.Br 0)) = Some (1, 0).
Proof.
  intros R o. split; [|reflexivity].
  assert (Hok : exists v', validate_operator 7 o sample_state = (Ok tt, v') /\ pop_push_count v' = (1, 2)).
  { eexists. split; [vm_compute; reflexivity|reflexivity]. }
  destruct Hok as (v' & Hok & Hc).
  pose proof (operator_arity_agrees 7 WasmFeatures_all o sample_state v' sample_state_inv ltac:(done)
    ltac:(cbn; unfold in_u; lia) ltac:(lia) ltac:(exact I) Hok) as H.
  rewrite Hc in H. exact H.
Defined.

(** ** Functions *)

(** C40. Whatever locals are defined and whatever operators are validated after
    [new_func], every reference type on the operand stack is abstract or refers
    to a type by its identifier, never by an index of the module, as the debug
    build asserts at every push; and so is the type of every local. *)
Theorem operand_types_canonical {R : WasmModuleResources} {RS : ResourcesSpec R} ty off f func_ty v0 v :
  inner_at ty (CFunc func_ty) -> Z.of_nat (length (func_params func_ty)) <= MAX_WASM_FUNCTION_LOCALS ->
  new_func ty off f = Ok v0 -> reaches v0 v ->
  Forall (fun t => push_assertion t = true) (operands v)
  /\ (forall idx t, 0 <= idx -> locals_get (locals v) idx = Some (Some t) -> push_assertion (Known t) = true).
Proof.
  intros Hty Hlen Hnew Hr. destruct (new_func_valid _ _ _ _ _ Hty Hlen Hnew) as [Hv0 _].
  destruct (reaches_valid _ _ Hv0 Hr) as [Hv _]. split.
  - eapply Forall_impl; [apply (inv_operands _ Hv)|]. apply canonical_assertion.
  - intros idx t Hi Hget. destruct (inv_locals _ Hv) as (tys & Hl & Hc & _).
    rewrite (locals_get_repr _ _ _ Hl Hi) in Hget. injection Hget as Hget.
    by apply canonical_assertion, (Forall_lookup_1 _ _ _ _ Hc Hget).
Qed.

Lemma operand_types_canonical_witness :
  let R := sample_resources in
  let v0 := match new_func 0 0 WasmFeatures_all with Ok v => v | _ => sample_state end in
  let v1 := snd (validate_operator 7 (Op.Mvp (Op.I32Const 5)) v0) in
  let v2 := snd (validate_operator 9 (Op.Gc Op.RefI31) v1) in
  new_func 0 0 WasmFeatures_all = Ok v0 /\ operands v2 = [Known (Ref I31)]
  /\ Forall (fun t => push_assertion t = true) (operands v2).
Proof.
  intros R v0 v1 v2. assert (Hty : inner_at 0 (CFunc sample_func)) by (by exists sample_sub).
  assert (H0 : new_func 0 0 WasmFeatures_all = Ok v0) by (vm_compute; reflexivity).
  assert (Hr : reaches v0 v2).
  { apply (reaches_operator v0 7 WasmFeatures_all (Op.Mvp (Op.I32Const 5)) v1);
      [cbn; unfold in_i; lia|lia|vm_compute; reflexivity|].
    apply (reaches_operator v1 9 WasmFeatures_all (Op.Gc Op.RefI31) v2);
      [exact I|lia|vm_compute; reflexivity|]. apply reaches_refl. }
  split; [exact H0|]. split; [vm_compute; reflexivity|].
  exact (proj1 (operand_types_canonical 0 0 WasmFeatures_all sample_func v0 v2 Hty ltac:(vm_compute; congruence) H0 Hr)).
Defined.

(** C8. Validating the body of a function terminates on arbitrary bytes, with a
    verdict and without a panic: a body of [n] bytes needs at most [n] turns of
    the loop.  A body that is accepted leaves no control frame open, and the
    [end] of the function is its last byte. *)
Theorem validate_function_total {R : WasmModuleResources} {RS : ResourcesSpec R} fuel f func_ty body :
  inner_at (ftv_ty f) (CFunc func_ty) ->
  Z.of_nat (length (func_params func_ty)) <= MAX_WASM_FUNCTION_LOCALS ->
  wf_reader (body_reader body) -> buffer_len (body_reader body) <= Z.of_nat fuel ->
  exists fv x v', into_validator f = Ok fv
    /\ FuncValidator_validate fuel body (validator fv) = Some (x, v')
    /\ match x with
       | Ok _ => control v' = []
           /\ end_which_emptied_control v'
              = Some (original_offset (body_reader body) + buffer_len (body_reader body) - 1)
       | Err _ => True
       | Panic => False
       end.
Proof.
  intros Hty Hlen Hr Hfuel. destruct (new_func_ok (ftv_ty f) 0 (ftv_features f) func_ty Hty) as [v Hv].
  destruct (new_func_valid _ _ _ _ _ Hty Hlen Hv) as [Hvs _].
  destruct (validate_total fuel body v Hr Hvs Hfuel) as (x & v' & Hx & Hres).
  exists (mkFuncValidator v (ftv_index f)), x, v'. unfold into_validator. rewrite Hv.
  split_and!; [done..|]. destruct x; tauto.
Qed.

(** [(local i64) (i32.wrap_i64 (local.get 1))], and the same without [end]. *)
Lemma validate_function_total_witness :
  let R := sample_resources in
  let f := mkFuncToValidate 0 0 WasmFeatures_all in
  let body bs := mkFunctionBody (BinaryReader_new_features bs 100 WasmFeatures_all) in
  (exists fv v', into_validator f = Ok fv
    /\ FuncValidator_validate 7 (body [1; 1; 0x7e; 0x20; 1; 0xa7; 0x0b]) (validator fv) = Some (Ok tt, v')
    /\ control v' = [] /\ end_which_emptied_control v' = Some 106)
  /\ (exists fv v', into_validator f = Ok fv
    /\ FuncValidator_validate 6 (body [1; 1; 0x7e; 0x20; 1; 0xa7]) (validator fv)
       = Some (Err (err_new (lit "control frames remain at end of function: END opcode expected") 106), v')).
Proof.
  intros R f body.
  assert (Hty : inner_at (ftv_ty f) (CFunc sample_func)) by (by exists sample_sub).
  pose proof (validate_function_total 7 f sample_func (body [1; 1; 0x7e; 0x20; 1; 0xa7; 0x0b]) Hty
    ltac:(vm_compute; congruence) ltac:(wf_concrete) ltac:(vm_compute; congruence)) as (fv & x & v' & H1 & H2 & H3).
  split.
  - exists fv, v'. vm_compute in H1. injection H1 as <-. vm_compute in H2. injection H2 as <- <-.
    split; [vm_compute; reflexivity|]. split; [vm_compute; reflexivity|exact H3].
  - do 2 eexists. split; [vm_compute; reflexivity|]. vm_compute. reflexivity.
Defined.
