(* ===== verification/TypeListTheorems.v ===== *)
(** The types that a validator knows: the properties of
    [crates/wasmparser/src/validator/types.rs] and of the subtyping and
    canonicalization of types. *)

From Stdlib Require Import ZArith Lia String Relations.
From stdpp Require Import prelude relations gmap.
From S2P Require Import Prelude StateLogic BinaryReader Types TypesSpec Operands CompositeTypes Items.
From S2P Require Import CompositeSpec ValidatorState TypeList Canonical ModuleState TypeListSpec TypeMatch.
From S2P Require Import InternSpec AddTypesSpec ModuleStateSpec.

Local Open Scope Z_scope.

(** ** Snapshots *)

(** The snapshotted lists that hold a list of values. *)
Inductive holds {A} : SnapshotList A -> list A -> Prop :=
| holds_default : holds SnapshotList_default []
| holds_push l xs x : holds l xs -> holds (snapshot_push x l) (xs ++ [x])
| holds_commit_new l xs : holds l xs -> holds (fst (snapshot_commit l)) xs
| holds_commit_old l xs : holds l xs -> holds (snd (snapshot_commit l)) xs
| holds_truncate l xs n l' : holds l xs -> snapshot_truncate n l = Some l' -> holds l' (take (Z.to_nat n) xs).

Lemma holds_items {A} (l : SnapshotList A) xs : holds l xs -> snap_wf l /\ snap_items l = xs.
Proof.
  induction 1 as [|l xs x _ [Hw <-]|l xs _ [Hw <-]|l xs _ [Hw <-]|l xs n l' _ [Hw <-] Ht].
  - done.
  - by rewrite snapshot_push_items.
  - pose proof (snapshot_commit_ok l Hw) as H. destruct (snapshot_commit l). by destruct H as (? & _ & ? & _).
  - pose proof (snapshot_commit_ok l Hw) as H. destruct (snapshot_commit l). by destruct H as (_ & ? & _ & ?).
  - unfold snapshot_truncate in Ht. destruct (Z.ltb_spec n (snapshots_total l)); [done|].
    destruct (snapshot_truncate_ok n l Hw) as (l2 & Hl2 & Hw2 & Hi2); [done|]. unfold snapshot_truncate in Hl2.
    destruct (Z.ltb_spec n (snapshots_total l)); [lia|]. simplify_eq. done.
Qed.

(** C25. A [SnapshotList] is a list: however it was built by pushing, committing
    and truncating, its length is that of the values it holds, [get] finds the
    value at every index with its binary search over the snapshots, indexing past
    the end panics, and neither [get] nor a truncation that keeps the committed
    values panics. *)
Theorem snapshot_list_refines {A} (l : SnapshotList A) (xs : list A) :
  holds l xs ->
  snapshot_len l = Z.of_nat (length xs)
  /\ (forall i, 0 <= i -> snapshot_get l i = Some (xs !! Z.to_nat i))
  /\ (forall i, 0 <= i -> snapshot_index l i = xs !! Z.to_nat i)
  /\ (forall n, snapshots_total l <= n -> exists l', snapshot_truncate n l = Some l' /\ holds l' (take (Z.to_nat n) xs)).
Proof.
  intros H. destruct (holds_items l xs H) as [Hw <-]. split_and!.
  - by apply snapshot_len_items.
  - intros i Hi. by apply snapshot_get_items.
  - intros i Hi. by apply snapshot_index_items.
  - intros n Hn. destruct (snapshot_truncate_ok n l Hw Hn) as (l' & Hl' & _). exists l'. split; [done|].
    by eapply holds_truncate.
Qed.

(** Two snapshots, and values after them. *)
Definition sample_list : SnapshotList Z :=
  snapshot_push 9 (snd (snapshot_commit (snapshot_push 8 (snd (snapshot_commit
    (snapshot_push 7 (snapshot_push 6 SnapshotList_default))))))).

Lemma snapshot_list_refines_witness :
  snapshot_len sample_list = 4 /\ snapshot_get sample_list 1 = Some (Some 7) /\ snapshot_index sample_list 2 = Some 8
  /\ exists l', snapshot_truncate 3 sample_list = Some l' /\ holds l' [6; 7; 8].
Proof.
  assert (H : holds sample_list [6; 7; 8; 9]).
  { unfold sample_list. apply (holds_push _ [6; 7; 8]), holds_commit_old, (holds_push _ [6; 7]), holds_commit_old,
      (holds_push _ [6]), (holds_push _ []), holds_default. }
  destruct (snapshot_list_refines sample_list [6; 7; 8; 9] H) as (H1 & H2 & H3 & H4).
  split; [exact H1|]. split; [exact (H2 1 ltac:(lia))|]. split; [exact (H3 2 ltac:(lia))|]. exact (H4 3 ltac:(done)).
Defined.

(** ** A list of types *)

(** An open structure, a subtype of it with a field, and a function. *)
Definition open_struct : SubType := mkSubType false None (mkCompositeType (CStruct (mkStructType [])) false).
Definition sub_struct : SubType :=
  mkSubType true (pack (Module_ 0))
    (mkCompositeType (CStruct (mkStructType [mkFieldType (SVal I32) false])) false).
Definition sample_group : RecGroup := rec_group_explicit [(8, open_struct); (9, sub_struct)].

Definition sample_added : result (WasmModule * TypeList) :=
  add_types sample_group WasmFeatures_default 8 true Module_default TypeAlloc_default.

Definition sample_types : TypeList :=
  match sample_added with Ok (_, T) => T | _ => TypeAlloc_default end.

Lemma sample_group_wf : rec_group_wf sample_group.
Proof. split; [|done]. repeat constructor; cbn; try done. by exists 0. Qed.

Lemma sample_types_wf : types_wf sample_types.
Proof.
  pose proof (add_types_ok WasmFeatures_default sample_group 8 Module_default TypeAlloc_default
                TypeAlloc_default_wf) as H.
  unfold sample_types, sample_added. destruct (add_types _ _ _ _ _ _) as [[m T]| |];
    [|apply TypeAlloc_default_wf..]. apply H; [by split; [constructor|..]|apply sample_group_wf].
Qed.

(** ** Subtyping *)

(** C19. The subtype test of the validator decides the rules of subtyping, for value
    types that refer to known types by identifier.  The rules do not use the
    tables of the code: equal numeric types; nullability; between abstract types
    the closure of the direct edges of the hierarchies; the declared supertypes,
    followed transitively; a concrete type below the abstract types above its
    kind, and above the bottom of its kind; shared types apart.  The test never
    panics, it says yes exactly when the rules derive it, and on a well-formed
    list of types the relation is reflexive and transitive. *)
Theorem subtype_test_decides (T : TypeList) (a b c : ValType) :
  view_wf T -> vt_over (is_id T) a -> vt_over (is_id T) b -> vt_over (is_id T) c ->
  (exists r, valtype_is_subtype T a b = Some r /\ (r = true <-> Vsub T a b))
  /\ valtype_is_subtype T a a = Some true
  /\ (valtype_is_subtype T a b = Some true -> valtype_is_subtype T b c = Some true ->
      valtype_is_subtype T a c = Some true).
Proof.
  intros HT Ha Hb Hc. pose proof (vw_lists _ HT) as HL.
  destruct (valtype_is_subtype_spec T HL a b Ha Hb) as (rab & Eab & Hab).
  destruct (valtype_is_subtype_spec T HL b c Hb Hc) as (rbc & Ebc & Hbc).
  destruct (valtype_is_subtype_spec T HL a c Ha Hc) as (rac & Eac & Hac).
  split_and!; [by exists rab|by unfold valtype_is_subtype; rewrite bool_decide_true|].
  rewrite Eab, Ebc, Eac. intros [= ->] [= ->]. f_equal. apply Hac.
  apply (Vsub_trans T HL (view_kind T HT) a b c); [done..|by apply Hab|by apply Hbc].
Qed.

(** [(ref null id)]. *)
Definition concrete_ref (id : CoreTypeId) : ValType :=
  match rt_new true (Concrete (Id_ id)) with Some r => Ref r | None => I32 end.

Lemma concrete_ref_over id : valid_id sample_types id -> in_u 20 id -> vt_over (is_id sample_types) (concrete_ref id).
Proof.
  intros Hv Hi. assert (Ho : ht_over (is_id sample_types) (Concrete (Id_ id))) by (split; [by exists id|done]).
  unfold concrete_ref. destruct (rt_new true (Concrete (Id_ id))) as [r|] eqn:E; [|done]. by exists true, (Concrete (Id_ id)).
Qed.

Lemma subtype_test_decides_witness :
  valtype_is_subtype sample_types (concrete_ref 1) (concrete_ref 0) = Some true
  /\ valtype_is_subtype sample_types (concrete_ref 0) (concrete_ref 1) = Some false
  /\ Vsub sample_types (concrete_ref 1) (concrete_ref 0)
  /\ ~ Vsub sample_types (concrete_ref 0) (concrete_ref 1).
Proof.
  assert (H0 : vt_over (is_id sample_types) (concrete_ref 0)) by (apply concrete_ref_over; vm_compute; done).
  assert (H1 : vt_over (is_id sample_types) (concrete_ref 1)) by (apply concrete_ref_over; vm_compute; done).
  pose proof (types_wf_view _ sample_types_wf) as HT.
  destruct (subtype_test_decides sample_types _ _ _ HT H1 H0 H0) as ((r & Er & Hr) & _).
  destruct (subtype_test_decides sample_types _ _ _ HT H0 H1 H1) as ((q & Eq & Hq) & _).
  assert (E : valtype_is_subtype sample_types (concrete_ref 1) (concrete_ref 0) = Some true) by (vm_compute; reflexivity).
  assert (F : valtype_is_subtype sample_types (concrete_ref 0) (concrete_ref 1) = Some false) by (vm_compute; reflexivity).
  rewrite E in Er. rewrite F in Eq. injection Er as <-. injection Eq as <-.
  split; [exact E|]. split; [exact F|]. split; [by apply Hr|]. intros H. by apply Hq in H.
Defined.

(** The structural matching of two types of a list, as [matches] decides it. *)
Definition type_matches (T : TypeList) (i j : CoreTypeId) : Prop :=
  exists ti tj, type_at T i = Some ti /\ type_at T j = Some tj
    /\ comp_kind (composite_type_of ti) = comp_kind (composite_type_of tj)
    /\ Cmatch T (composite_type_of ti) (composite_type_of tj).

(** Every link to a supertype lowers the depth by one. *)
Lemma depth_steps T dm n i j :
  lists_wf T -> depths_ok T (length (tys T)) dm -> nsteps (declared T) n i j -> valid_id T i ->
  exists d, map snd dm !! Z.to_nat i = Some d /\ map snd dm !! Z.to_nat j = Some (d - Z.of_nat n)
    /\ 0 <= d - Z.of_nat n /\ d <= MAX_WASM_SUBTYPING_DEPTH.
Proof.
  intros HL Hd Hn. assert (Hat : forall k, valid_id T k -> exists d o, map snd dm !! Z.to_nat k = Some d /\ sups T !! Z.to_nat k = Some o).
  { intros k [H0 H1]. unfold ntypes in H1.
    assert (length (map snd dm) = length (tys T)) as Hl.
    { rewrite length_map, <- (length_map fst), (do_keys _ _ _ Hd), length_seqZ. lia. }
    destruct (lookup_lt_is_Some_2 (map snd dm) (Z.to_nat k)) as [d Hd']; [lia|].
    destruct (lookup_lt_is_Some_2 (sups T) (Z.to_nat k)) as [o Ho]; [rewrite (lw_supers_len _ HL); lia|]. by exists d, o. }
  induction Hn as [i|n i k j Hik _ IH]; intros Hi; destruct (Hat i Hi) as (d & o & Hd1 & Ho);
    destruct (do_depth _ _ _ Hd _ _ _ Hd1 Ho) as [Hb Hp].
  - exists d. rewrite Z.sub_0_r. split_and!; [done..|lia|lia].
  - destruct (IH (declared_valid T HL i k Hi Hik)) as (d' & Hk & Hj & H1 & H2). destruct Hik as [_ Hik].
    assert (o = Some k) as -> by congruence. assert (d' = d - 1) as -> by congruence.
    exists d. replace (d - Z.of_nat (S n)) with (d - 1 - Z.of_nat n) by lia. split_and!; [done..|lia].
Qed.

Lemma rtc_declared_valid T i j : lists_wf T -> valid_id T i -> rtc (declared T) i j -> valid_id T j.
Proof. intros HL Hi Hr. induction Hr as [|i k j Hik _ IH]; [done|]. apply IH. by eapply declared_valid. Qed.

(** What the links to supertypes establish: the answer is that of the links; types
    that are linked match, the supertype is not final, and the links are not many. *)
Definition nominal_subtyping (T : TypeList) (i j : CoreTypeId) : Prop :=
  exists r, id_is_subtype T i j = Some r /\ (r = true <-> rtc (declared T) i j)
    /\ (r = true ->
        type_matches T i j
        /\ (i <> j -> exists tj, type_at T j = Some tj /\ is_final tj = false)
        /\ exists n, nsteps (declared T) n i j /\ Z.of_nat n <= MAX_WASM_SUBTYPING_DEPTH).

Lemma nominal_subtyping_ok T dm i j :
  view_wf T -> depths_ok T (length (tys T)) dm -> valid_id T i -> valid_id T j -> nominal_subtyping T i j.
Proof.
  intros HV Hd Hi Hj. pose proof (vw_lists _ HV) as HL.
  destruct (id_is_subtype_spec T HL i j Hi) as (r & Er & Hr). exists r. split_and!; [done|done|]. intros ->.
  assert (Hij : rtc (declared T) i j) by by apply Hr.
  destruct (valid_type_at T HL i Hi) as (ti & Hti & _), (valid_type_at T HL j Hj) as (tj & Htj & _). split_and!.
  - exists ti, tj. assert (Cmatch T (composite_type_of ti) (composite_type_of tj)) as Hm by by eapply rtc_match.
    split_and!; [done..|by eapply Cmatch_kind|done].
  - intros Hne. exists tj. split; [done|]. apply rtc_inv_r in Hij as [->|(k & Hik & Hkj)]; [done|].
    assert (Hk : valid_id T k) by by apply (rtc_declared_valid T i k).
    destruct (valid_type_at T HL k Hk) as (tk & Htk & _). by eapply (declared_match T HV k j tk tj).
  - apply rtc_nsteps in Hij as [n Hn]. exists n. split; [done|].
    destruct (depth_steps T dm n i j HL Hd Hn Hi) as (d & _ & _ & H1 & H2). lia.
Qed.

(** ** Interning *)

(** Recursion groups interned one after the other, with their identifiers. *)
Fixpoint intern_all (gs : list RecGroup) (T : TypeList) : result (list RecGroupId * TypeList) :=
  match gs with
  | [] => Ok ([], T)
  | g :: gs' =>
      '((_, id), T) ← intern_canonical_rec_group true g T;
      '(ids, T) ← intern_all gs' T;
      Ok (id :: ids, T)
  end.

(** What the map of groups is, whatever the groups. *)
Record groups_map (T : TypeList) (gm : list (RecGroup * RecGroupId)) : Prop := {
  gp_map : canonical_rec_groups T = Some gm;
  gp_snap : snap_wf (rec_group_elements T);
  gp_keys : NoDup (map (fun e => into_types (fst e)) gm);
  gp_ids : NoDup (map snd gm);
  gp_bound : Forall (fun e => 0 <= snd e < Z.of_nat (length (elems T))) gm;
}.

Lemma types_wf_groups_map T : types_wf T -> exists gm, groups_map T gm.
Proof.
  intros HT. destruct (aw_groups _ _ HT) as (gm & Hgm & [He Hk Hi _]). exists gm. split; [done|apply HT|done..|].
  eapply Forall_impl; [exact He|]. intros e (start & ts & H0 & H1 & _). apply lookup_lt_Some in H1. split; [exact H0|]. apply Nat2Z.inj_lt in H1. rewrite Z2Nat.id in H1 by exact H0. exact H1.
Qed.

(** Interning the types of a group adds one range and leaves the map alone. *)
Lemma push_types_of_group_same start group ts T T' :
  push_types_of_group start group ts T = Ok T' ->
  rec_group_elements T' = rec_group_elements T /\ canonical_rec_groups T' = canonical_rec_groups T.
Proof.
  revert T. induction ts as [|t ts IH]; intros T; cbn [push_types_of_group]; [by intros [= <-]|].
  unfold push_type_of_group. destruct (resolve_supertype start t) as [sup| |]; [|done..]. cbn [mbind result_bind].
  destruct (remap_indices (resolve_index start) t) as [u| |]; [|done..]. cbn [mbind result_bind mret result_ret].
  intros H. by apply IH in H.
Qed.

Lemma intern_new_group_same group g T T' :
  intern_new_group group g T = Ok T' ->
  canonical_rec_groups T' = canonical_rec_groups T
  /\ exists r, rec_group_elements T' = snapshot_push r (rec_group_elements T).
Proof.
  unfold intern_new_group. destruct (to_u32 (snapshot_len (core_types T))) as [start| |]; [|done..].
  cbn [mbind result_bind]. destruct (push_types_of_group _ _ _ _) as [T1| |] eqn:E; [|done..].
  apply push_types_of_group_same in E as [E1 E2]. cbn [mbind result_bind].
  destruct (to_u32 (snapshot_len (core_types T1))) as [e| |]; [|done..]. intros [= <-]. cbn. rewrite E1, E2.
  split; [done|]. by eexists.
Qed.

(** The group is in the map afterwards, and so is what was in it. *)
Lemma intern_group_map g T gm b id T' :
  groups_map T gm -> intern_canonical_rec_group true g T = Ok ((b, id), T') ->
  exists gm', groups_map T' gm' /\ gm ⊆ gm' /\ exists k, (k, id) ∈ gm' /\ into_types k = into_types g.
Proof.
  intros [Hm Hs Hk Hi Hb]. unfold intern_canonical_rec_group. rewrite snapshot_len_items by done.
  change (snap_items (rec_group_elements T)) with (elems T). unfold to_u32.
  case_match; [|done]. cbn [mbind result_bind]. rewrite Hm.
  cbn [expect mbind result_bind]. pose proof (find_rec_group_spec g gm) as Hfind.
  destruct (find_rec_group g gm) as [id0|].
  - intros [= <- <- <-]. exists gm. split; [by split|]. done.
  - destruct (intern_new_group _ g _) as [T1| |] eqn:E; [|done..]. intros [= <- <- <-].
    apply intern_new_group_same in E as [Ec (r & Er)]. cbn in Ec, Er. eexists. split; [split; [done|..]|].
    + rewrite Er. by apply snapshot_push_wf.
    + rewrite map_app. apply NoDup_app. split_and!; [done| |apply NoDup_singleton].
      intros x Hx ->%list_elem_of_singleton. done.
    + rewrite map_app. apply NoDup_app. split_and!; [done| |apply NoDup_singleton].
      intros x Hx ->%list_elem_of_singleton. apply list_elem_of_fmap in Hx as (e & E & He).
      eapply Forall_forall in Hb; [|done].
      destruct Hb as [_ Hlt]. exact (Z.lt_neq _ _ Hlt (eq_sym E)).
    + unfold elems. rewrite Er, snapshot_push_items, length_app. cbn. apply Forall_app. split.
      * eapply Forall_impl; [exact Hb|]. cbn. unfold elems. intros. lia.
      * constructor; [|done]. cbn. unfold elems. lia.
    + split; [set_solver|]. exists g. split; [set_solver|done].
Qed.

Lemma intern_all_map gs T gm ids T' :
  groups_map T gm -> intern_all gs T = Ok (ids, T') ->
  exists gm', groups_map T' gm' /\ gm ⊆ gm'
    /\ Forall2 (fun g id => exists k, (k, id) ∈ gm' /\ into_types k = into_types g) gs ids.
Proof.
  revert T gm ids. induction gs as [|g gs IH]; intros T gm ids Hg; cbn [intern_all].
  { intros [= <- <-]. by exists gm. }
  destruct (intern_canonical_rec_group true g T) as [[[b id] T1]| |] eqn:E; [|done..]. cbn [mbind result_bind].
  destruct (intern_group_map g T gm b id T1 Hg E) as (gm1 & Hg1 & Hsub & k & Hk & Ek).
  destruct (intern_all gs T1) as [[ids1 T2]| |] eqn:E2; [|done..]. intros [= <- <-].
  destruct (IH T1 gm1 ids1 Hg1 E2) as (gm2 & Hg2 & Hsub2 & HF). exists gm2. split_and!; [done|set_solver|].
  constructor; [|done]. exists k. split; [set_solver|done].
Qed.

(** The map is injective both ways. *)
Lemma groups_map_unique T gm g h a b :
  groups_map T gm -> (g, a) ∈ gm -> (h, b) ∈ gm -> a = b <-> into_types g = into_types h.
Proof.
  intros [_ _ Hk Hi _] Hg Hh. apply list_elem_of_lookup in Hg as [i Hg], Hh as [j Hh].
  assert (forall A (p : RecGroup * RecGroupId -> A) (x y : RecGroup * RecGroupId), NoDup (map p gm) ->
    gm !! i = Some x -> gm !! j = Some y -> p x = p y -> i = j) as Hinj.
  { intros A p x y Hn Hx Hy Hp. eapply (NoDup_lookup _ i j (p x)); [done| |].
    - change (map p gm) with (p <$> gm). by rewrite list_lookup_fmap, Hx.
    - change (map p gm) with (p <$> gm). by rewrite list_lookup_fmap, Hy, Hp. }
  split; intros E.
  - assert (i = j) as -> by by apply (Hinj _ snd _ _ Hi Hg Hh). by simplify_eq.
  - assert (i = j) as -> by by apply (Hinj _ (fun e => into_types (fst e)) _ _ Hk Hg Hh). by simplify_eq.
Qed.

(** C21. Interning identifies types isorecursively: when recursion groups are
    interned one after the other into a well-formed list, two of them get the
    same identifier if and only if they have the same canonical types. *)
Theorem interning_identity (T T' : TypeList) (gs : list RecGroup) (ids : list RecGroupId) i j g h a b :
  types_wf T -> intern_all gs T = Ok (ids, T') ->
  gs !! i = Some g -> gs !! j = Some h -> ids !! i = Some a -> ids !! j = Some b ->
  a = b <-> into_types g = into_types h.
Proof.
  intros HT Hi Hg Hh Ha Hb. destruct (types_wf_groups_map T HT) as (gm & Hgm).
  destruct (intern_all_map gs T gm ids T' Hgm Hi) as (gm' & Hgm' & _ & HF).
  destruct (Forall2_lookup_lr _ _ _ _ _ _ HF Hg Ha) as (k & Hk & <-).
  destruct (Forall2_lookup_lr _ _ _ _ _ _ HF Hh Hb) as (l & Hl & <-). by apply (groups_map_unique T' gm').
Qed.

(** Three groups, the first and the last with equal types at different offsets. *)
Definition sample_groups : list RecGroup :=
  [rec_group_implicit 8 open_struct; rec_group_explicit [(20, open_struct); (21, open_struct)];
   rec_group_explicit [(30, open_struct)]].

Lemma interning_identity_witness :
  types_wf sample_types
  /\ exists ids T', intern_all sample_groups sample_types = Ok (ids, T') /\ ids = [1; 2; 1]
    /\ forall a b, ids !! 0%nat = Some a -> ids !! 2%nat = Some b -> a = b.
Proof.
  split; [exact sample_types_wf|].
  destruct (intern_all sample_groups sample_types) as [[ids T']| |] eqn:E; [|vm_compute in E; discriminate E..].
  exists ids, T'. split; [reflexivity|]. split; [vm_compute in E; congruence|]. intros a b Ha Hb.
  apply (interning_identity sample_types T' sample_groups ids 0 2
           (rec_group_implicit 8 open_struct) (rec_group_explicit [(30, open_struct)]) a b sample_types_wf E
           eq_refl eq_refl Ha Hb).
  reflexivity.
Defined.
