(* ===== verification/ModuleValidTheorems.v ===== *)
(** The validator of modules: the properties of [crates/wasmparser/src/validator.rs]
    and [validator/core.rs]. *)

From Stdlib Require Import ZArith Lia String Relations Sorted.
From stdpp Require Import prelude relations gmap.
From S2P Require Import Prelude StateLogic Leb128 BinaryReader BinaryReaderSpec ReaderLogic Types TypesSpec.
From S2P Require Import Operands Operators OperatorReader OperandSpec OperatorSpec InstrRoundtrip SectionReader.
From S2P Require Import CompositeTypes Items FunctionSpec CompositeSpec SectionSpec ItemSpec Parser ParserSpec.
From S2P Require Import ValidatorState OperatorValidator Arity TypeList Canonical ModuleState ModuleValidator.
From S2P Require Import ValidatorLogic VisitSpec FuncSpec TypeListSpec TypeMatch InternSpec AddTypesSpec.
From S2P Require Import ModuleStateSpec ModuleItemsSpec ModuleValidatorSpec ModuleBodiesSpec TypeListTheorems.

Local Open Scope Z_scope.

(** ** Whole modules *)

(** A module with an exported function that returns a constant. *)
Definition sample_module : list Z :=
  [0x00; 0x61; 0x73; 0x6d; 0x01; 0x00; 0x00; 0x00;
   0x01; 0x05; 0x01; 0x60; 0x00; 0x01; 0x7f;
   0x03; 0x02; 0x01; 0x00;
   0x07; 0x05; 0x01; 0x01; 0x66; 0x00; 0x00;
   0x0a; 0x06; 0x01; 0x04; 0x00; 0x41; 0x2a; 0x0b].

(** The same module, whose function returns a number of another type. *)
Definition invalid_module : list Z :=
  [0x00; 0x61; 0x73; 0x6d; 0x01; 0x00; 0x00; 0x00;
   0x01; 0x05; 0x01; 0x60; 0x00; 0x01; 0x7f;
   0x03; 0x02; 0x01; 0x00;
   0x07; 0x05; 0x01; 0x01; 0x66; 0x00; 0x00;
   0x0a; 0x06; 0x01; 0x04; 0x00; 0x42; 0x2a; 0x0b].

Lemma new_can_validate f bytes : Forall is_byte bytes -> can_validate bytes (new_with_features f).
Proof. intros Hb. split; [done|by exists None|apply new_with_features_wf]. Qed.

(** C1. Validating arbitrary bytes never panics: on any input, a validator that is
    new, or that was reset with room for [MAX_WASM_TYPES] more types below the
    2^20 that an index can name, ends with types or with an error.  (Without room
    it can panic: [interning_panics_when_full].)  The validator is the one built
    without the component-model feature, for which a component is an error.
    When it accepts, the validator is ready to be reset, its list
    of types is well formed, and the module it returns satisfies its invariant:
    every index is in range and of the right kind, every type is known, and no
    two exports have the same name. *)
Theorem validate_all_safe (bytes : list Z) (v : Validator) :
  can_validate bytes v ->
  match validate_all bytes v with
  | Ok (types, v') =>
      view_wf (types_list types) /\ module_wf (types_list types) (types_module types)
      /\ types_wf (v_types v') /\ validator_reset v' = Ok (set_v_state (VS_Unparsed None) v')
  | Err _ => True
  | Panic => False
  end.
Proof.
  intros Hv. pose proof (validate_all_ok bytes v Hv) as H. destruct (validate_all bytes v) as [[t v']| |]; [|done..].
  destruct H as (fs & [[H1 H2 _ _ _] _ _ _ _ [Es Em] HT]). split_and!; [done..|]. unfold validator_reset. cbn in Es, Em.
  by rewrite Es, Em.
Qed.

Lemma validate_all_safe_witness :
  can_validate sample_module (new_with_features WasmFeatures_default)
  /\ (exists types v', validate_all sample_module (new_with_features WasmFeatures_default) = Ok (types, v')
       /\ module_wf (types_list types) (types_module types))
  /\ exists e, validate_all invalid_module (new_with_features WasmFeatures_default) = Err e.
Proof.
  assert (Hc : can_validate sample_module (new_with_features WasmFeatures_default)).
  { apply new_can_validate. repeat constructor; unfold is_byte; lia. }
  split; [exact Hc|]. split.
  - pose proof (validate_all_safe sample_module (new_with_features WasmFeatures_default) Hc) as H.
    destruct (validate_all sample_module (new_with_features WasmFeatures_default)) as [[types v']|e|] eqn:E.
    + exists types, v'. split; [reflexivity|]. exact (proj1 (proj2 H)).
    + vm_compute in E. discriminate E.
    + destruct H.
  - eexists. vm_compute. reflexivity.
Defined.

(** C2. A module that is accepted has had all of its functions validated: there are
    as many bodies in its code section as functions that are not imported, and the
    body of each, in the order of the index space, was validated with success
    against the type that the module declares for the function, with the whole
    module as its resources and the features of the validator. *)
Theorem accepted_functions_validated (bytes : list Z) (v v' : Validator) (types : Types) :
  can_validate bytes v -> validate_all bytes v = Ok (types, v') ->
  Z.of_nat (length (code_bodies (v_features v) bytes)) = defined (types_module types)
  /\ forall j body, code_bodies (v_features v) bytes !! j = Some body ->
     exists ty, m_functions (types_module types) !! Z.to_nat (func_place (types_module types) j) = Some ty
       /\ validate_func (mkFuncToValidate (wrap 32 (func_place (types_module types) j)) ty (v_features v))
            (types_module types) body = Ok tt.
Proof.
  intros Hv Hok. pose proof (validate_all_ok bytes v Hv) as H. rewrite Hok in H.
  destruct H as (fs & [[_ _ _ Hn Hc] _ Hb Hf Hall _ _]). cbn [fst snd] in *. rewrite <- Hb, length_map. split; [done|].
  intros j body Hj. change (map snd fs) with (snd <$> fs) in Hj. rewrite list_lookup_fmap in Hj.
  destruct (fs !! j) as [[[f m] b]|] eqn:Ej; [|done]. injection Hj as ->.
  pose proof (Forall_lookup_1 _ _ _ _ Hall Ej) as Hval. pose proof (Forall_lookup_1 _ _ _ _ Hf Ej) as Hfe.
  destruct (Hc _ _ Ej) as (H1 & H2 & -> & _). cbn in *. exists (ftv_ty f). split; [done|].
  rewrite <- H1, <- Hfe. by destruct f.
Qed.

Lemma accepted_functions_validated_witness :
  exists types v' body, validate_all sample_module (new_with_features WasmFeatures_default) = Ok (types, v')
    /\ code_bodies WasmFeatures_default sample_module = [body]
    /\ exists ty, validate_func (mkFuncToValidate 0 ty WasmFeatures_default) (types_module types) body = Ok tt.
Proof.
  assert (Hc : can_validate sample_module (new_with_features WasmFeatures_default)).
  { apply new_can_validate. repeat constructor; unfold is_byte; lia. }
  destruct (validate_all sample_module (new_with_features WasmFeatures_default)) as [[types v']|e|] eqn:E;
    [|vm_compute in E; discriminate E..].
  destruct (accepted_functions_validated sample_module _ v' types Hc E) as [_ H].
  destruct (code_bodies WasmFeatures_default sample_module) as [|body [|]] eqn:Eb;
    [vm_compute in Eb; discriminate Eb| |vm_compute in Eb; discriminate Eb].
  exists types, v', body. split; [reflexivity|]. split; [reflexivity|].
  assert (Hn : m_num_imported_functions (types_module types) = 0).
  { vm_compute in E. injection E as <- <-. reflexivity. }
  destruct (H 0%nat body) as (ty & _ & Hval); [cbn [v_features new_with_features]; rewrite Eb; reflexivity|].
  exists ty. unfold func_place in Hval. rewrite Hn in Hval. exact Hval.
Defined.

(** C10. A module that is accepted has its sections in order: its payloads are all
    read without an error, and the places of its sections (type, import, function,
    table, memory, tag, global, export, start, element, data count, code, data)
    increase strictly, so no section occurs twice. *)
Theorem accepted_sections_ordered (bytes : list Z) (v v' : Validator) (types : Types) :
  can_validate bytes v -> validate_all bytes v = Ok (types, v') ->
  exists xs, payloads (2 * length bytes + 2) (parse_all (set_features (v_features v) (Parser_new 0)) bytes)
               = Some (map Ok xs)
    /\ StronglySorted Z.lt (map order_index (omap section_order xs)).
Proof.
  intros Hv Hok. pose proof (validate_all_ok bytes v Hv) as H. rewrite Hok in H. destruct H as (fs & H). apply H.
Qed.

(** The payloads of a list without errors. *)
Definition ok_payload (x : result Payload) : option Payload := match x with Ok p => Some p | _ => None end.

Lemma ok_payload_map xs : omap ok_payload (map Ok xs) = xs.
Proof. induction xs as [|x xs IH]; [done|]. cbn. by rewrite IH. Qed.

Definition orders_of (x : option (list (result Payload))) : list Order :=
  match x with Some l => omap section_order (omap ok_payload l) | None => [] end.

Lemma accepted_sections_ordered_witness :
  exists xs, payloads 70 (parse_all (set_features WasmFeatures_default (Parser_new 0)) sample_module) = Some (map Ok xs)
    /\ omap section_order xs = [O_Type; O_Function; O_Export; O_Code]
    /\ StronglySorted Z.lt (map order_index (omap section_order xs)).
Proof.
  assert (Hc : can_validate sample_module (new_with_features WasmFeatures_default)).
  { apply new_can_validate. repeat constructor; unfold is_byte; lia. }
  destruct (validate_all sample_module (new_with_features WasmFeatures_default)) as [[types v']|e|] eqn:E;
    [|vm_compute in E; discriminate E..].
  destruct (accepted_sections_ordered sample_module _ v' types Hc E) as (xs & Exs & Hs).
  exists xs. split; [exact Exs|]. split; [|exact Hs].
  assert (Ho : orders_of (Some (map Ok xs)) = omap section_order xs) by (cbn; by rewrite ok_payload_map).
  rewrite <- Ho, <- Exs. vm_compute. reflexivity.
Defined.

(** ** Types and resources of a module *)

(** C22. Adding a recursion group to a module never panics while there is room for
    types, and keeps the invariants: the list of types only grows, every type in it
    has been checked (its members are known types, shared types have shared
    members, a supertype is declared before, is not final, is matched, and the depth
    is bounded), depths and canonical groups are consistent, and the module gains
    the identifiers of the types of the group. *)
Theorem add_types_invariant (f : WasmFeatures) (g : RecGroup) (off : Z) (m : WasmModule) (T : TypeList) :
  types_wf T -> module_types_ok T m -> rec_group_wf g ->
  match add_types g f off true m T with
  | Ok (m', T') =>
      types_wf T' /\ grows T T' /\ module_types_ok T' m' /\ exists ids, m' = set_m_types (m_types m ++ ids) m
  | Err _ => True
  | Panic => False
  end.
Proof.
  intros HT Hm Hg. pose proof (add_types_ok f g off m T HT Hm Hg) as H. by destruct (add_types g f off true m T) as [[m' T']| |].
Qed.

Lemma add_types_invariant_witness :
  exists m' T', add_types sample_group WasmFeatures_default 8 true Module_default TypeAlloc_default = Ok (m', T')
    /\ types_wf T' /\ m_types m' = [0; 1].
Proof.
  assert (Hm : module_types_ok TypeAlloc_default Module_default) by (split; [constructor|vm_compute; discriminate..]).
  pose proof (add_types_invariant WasmFeatures_default sample_group 8 Module_default TypeAlloc_default
                TypeAlloc_default_wf Hm sample_group_wf) as H.
  destruct (add_types sample_group WasmFeatures_default 8 true Module_default TypeAlloc_default) as [[m' T']|e|] eqn:E;
    [|vm_compute in E; discriminate E..].
  exists m', T'. split; [reflexivity|]. split; [exact (proj1 H)|]. vm_compute in E. injection E as <- <-. reflexivity.
Defined.

(** A module with an open structure, and a structure declared below it. *)
Definition subtype_module : list Z :=
  [0x00; 0x61; 0x73; 0x6d; 0x01; 0x00; 0x00; 0x00;
   0x01; 0x0e; 0x01; 0x4e; 0x02; 0x50; 0x00; 0x5f; 0x00; 0x4f; 0x01; 0x00; 0x5f; 0x01; 0x7f; 0x00].

(** The same module, whose supertype is final; and whose supertype has a field more. *)
Definition final_module : list Z :=
  [0x00; 0x61; 0x73; 0x6d; 0x01; 0x00; 0x00; 0x00;
   0x01; 0x0e; 0x01; 0x4e; 0x02; 0x4f; 0x00; 0x5f; 0x00; 0x4f; 0x01; 0x00; 0x5f; 0x01; 0x7f; 0x00].
Definition mismatch_module : list Z :=
  [0x00; 0x61; 0x73; 0x6d; 0x01; 0x00; 0x00; 0x00;
   0x01; 0x0e; 0x01; 0x4e; 0x02; 0x50; 0x00; 0x5f; 0x01; 0x7f; 0x00; 0x4f; 0x01; 0x00; 0x5f; 0x00].

(** C20. In a module that is accepted, from any bytes, declared subtypes are
    subtypes.  The test between two types of the list that validation returns
    never panics, and it answers yes exactly when the second is reached from the
    first by declared supertypes.  When it is, both are of the same kind
    (function, array, structure or continuation, shared or not), the first
    matches the second by the structural rules (parameters contravariantly,
    results covariantly, mutable fields invariantly, structures in width and
    depth), a type that is a proper supertype is not final, and the declared
    links followed are no more than the depth the validator allows. *)
Theorem declared_subtypes_match (bytes : list Z) (v v' : Validator) (types : Types) (i j : CoreTypeId) :
  can_validate bytes v -> validate_all bytes v = Ok (types, v') ->
  valid_id (types_list types) i -> valid_id (types_list types) j ->
  exists r, id_is_subtype (types_list types) i j = Some r
    /\ (r = true <-> rtc (declared (types_list types)) i j)
    /\ (r = true ->
        type_matches (types_list types) i j
        /\ (i <> j -> exists tj, type_at (types_list types) j = Some tj /\ is_final tj = false)
        /\ exists n, nsteps (declared (types_list types)) n i j /\ Z.of_nat n <= MAX_WASM_SUBTYPING_DEPTH).
Proof.
  intros Hv Hok Hi Hj. pose proof (validate_all_ok bytes v Hv) as H. rewrite Hok in H.
  destruct H as (fs & Hacc). destruct (ac_types _ _ _ _ Hacc) as [HT _ [dm Hd] _ _]. by eapply nominal_subtyping_ok.
Qed.

Lemma declared_subtypes_match_witness :
  (exists types v', validate_all subtype_module (new_with_features WasmFeatures_default) = Ok (types, v')
     /\ id_is_subtype (types_list types) 1 0 = Some true /\ type_matches (types_list types) 1 0)
  /\ (exists e, validate_all final_module (new_with_features WasmFeatures_default) = Err e)
  /\ (exists e, validate_all mismatch_module (new_with_features WasmFeatures_default) = Err e).
Proof.
  assert (Hc : can_validate subtype_module (new_with_features WasmFeatures_default)).
  { apply new_can_validate. repeat constructor; unfold is_byte; lia. }
  split; [|split; eexists; vm_compute; reflexivity].
  destruct (validate_all subtype_module (new_with_features WasmFeatures_default)) as [[types v']|e|] eqn:E;
    [|vm_compute in E; discriminate E..].
  assert (Hs : id_is_subtype (types_list types) 1 0 = Some true /\ valid_id (types_list types) 1 /\ valid_id (types_list types) 0).
  { vm_compute in E. injection E as <- <-. split_and!; vm_compute; done. }
  destruct Hs as (Hs & H1 & H0). exists types, v'. split; [reflexivity|]. split; [exact Hs|].
  destruct (declared_subtypes_match subtype_module _ v' types 1 0 Hc E H1 H0) as (r & Er & _ & Hr).
  rewrite Hs in Er. injection Er as <-. exact (proj1 (Hr eq_refl)).
Defined.

(** C23. A module keeps the promises that the validator of operators relies on: both
    implementations of [WasmModuleResources], the one for constant expressions and
    the one for function bodies, which looks types up in the committed snapshot,
    satisfy [ResourcesSpec]; so the theorems about operators and function bodies
    hold of every module that satisfies its invariant. *)
Theorem module_resources_promise (T : TypeList) (m : WasmModule) :
  view_wf T -> module_wf T m ->
  ResourcesSpec (operator_resources m T) /\ (m_snapshot m = Some T -> ResourcesSpec (validator_resources m)).
Proof. intros HT Hm. split; [by apply operator_resources_spec|]. by apply validator_resources_spec. Qed.

Lemma module_resources_promise_witness :
  exists T m, m_snapshot m = Some T /\ m_functions m = [0] /\ ResourcesSpec (validator_resources m).
Proof.
  assert (Hc : can_validate sample_module (new_with_features WasmFeatures_default)).
  { apply new_can_validate. repeat constructor; unfold is_byte; lia. }
  pose proof (validate_all_ok sample_module _ Hc) as H.
  destruct (validate_all sample_module (new_with_features WasmFeatures_default)) as [[types v']|e|] eqn:E;
    [|vm_compute in E; discriminate E..].
  destruct H as (fs & Hacc). destruct (ac_types _ _ _ _ Hacc) as [HT Hm _ _ _]. cbn [fst] in HT, Hm.
  assert (Es : m_snapshot (types_module types) = Some (types_list types)
               /\ m_functions (types_module types) = [0]).
  { vm_compute in E. injection E as <- <-. split; reflexivity. }
  exists (types_list types), (types_module types). split; [exact (proj1 Es)|]. split; [exact (proj2 Es)|].
  exact (proj2 (module_resources_promise (types_list types) (types_module types) HT Hm) (proj1 Es)).
Defined.

(** ** Constant expressions *)

(** C24. Checking a constant expression that was read from any bytes never panics: in
    particular the assertion that every function it refers to has been recorded
    cannot fail, although functions are not recorded while the data section is
    read.  The invariant of the module is kept, and in the data section, where the
    module may be shared with function bodies, the module is left as it is. *)
Theorem check_const_expr_safe f T (r r' : BinaryReader) (e : ConstExpr) (ty : ValType) (s : ModuleState) :
  wf_reader r -> from_reader_const_expr r = (Ok e, r') -> view_wf T -> ms_wf T s -> vt_over (is_id T) ty ->
  (ms_order s = O_Data -> ~ is_ref ty) -> (ms_order s <> O_Data -> exists m, ms_module s = Owned m) ->
  match check_const_expr e ty f T s with
  | Ok s' => ms_wf T s' /\ (ms_order s = O_Data -> module_of s' = module_of s)
  | Err _ => True
  | Panic => False
  end.
Proof.
  intros Hr He HT Hs Hty Hd Ho.
  set (B := fun b => ms_order s = O_Data -> b_module b = module_of s).
  assert (HB : ms_order s <> O_Data -> stable B) by (intros Hne m m' x i _ _ H; by destruct (Hne H)).
  assert (Hi : sec_inv (ms_order s) T B s) by by split.
  pose proof (check_const_expr_ok (ms_order s) B HB f (features r) T HT e ty s
                (read_const_expr_inv r e r' Hr He) Hty Hd Hi) as H.
  destruct (check_const_expr e ty f T s) as [s'| |]; [|done..]. destruct H as [H1 H2 _ H3]. by split.
Qed.

(** [i32.const 1], [i64.const 1] and [ref.func 0], each with its [end]. *)
Definition const_i32 : BinaryReader := BinaryReader_new [0x41; 0x01; 0x0b] 0.
Definition const_func : BinaryReader := BinaryReader_new [0xd2; 0x00; 0x0b] 0.

Definition read_expr (r : BinaryReader) : ConstExpr :=
  match from_reader_const_expr r with (Ok e, _) => e | (_, r') => mkConstExpr r' end.

Definition data_state : ModuleState := set_ms_order O_Data ModuleState_default.

Lemma data_state_wf : ms_wf TypeAlloc_default data_state.
Proof.
  split; cbn; try done. split; cbn; try done. constructor.
Qed.

Lemma check_const_expr_safe_witness :
  ms_wf TypeAlloc_default data_state
  /\ check_const_expr (read_expr const_i32) I32 WasmFeatures_default TypeAlloc_default data_state = Ok data_state
  /\ match check_const_expr (read_expr const_func) I32 WasmFeatures_default TypeAlloc_default data_state with
     | Ok s' => ms_wf TypeAlloc_default s'
     | Err _ => True
     | Panic => False
     end.
Proof.
  split; [exact data_state_wf|]. split; [vm_compute; reflexivity|].
  assert (Hw : wf_reader const_func) by (apply wf_new; [repeat constructor; unfold is_byte; lia|vm_compute; intuition discriminate..]).
  assert (E : from_reader_const_expr const_func = (Ok (read_expr const_func), snd (from_reader_const_expr const_func)))
    by (vm_compute; reflexivity).
  pose proof (check_const_expr_safe WasmFeatures_default TypeAlloc_default const_func _ (read_expr const_func) I32
    data_state Hw E (types_wf_view _ TypeAlloc_default_wf) data_state_wf ltac:(done)
    ltac:(intros _ [x Hx]; discriminate Hx) ltac:(intros Hn; destruct (Hn eq_refl))) as H.
  destruct (check_const_expr (read_expr const_func) I32 WasmFeatures_default TypeAlloc_default data_state);
    [exact (proj1 H)|exact H|exact H].
Defined.

(** ** Validating several modules *)

(** A validator that has accepted a module can be reset and given another one,
    without any risk of a panic, as long as its list of types has room for the
    types of a module below the 2^20 that an index can name; whatever the second
    module is, validating it ends with types or with an error. *)
Theorem validator_reuse (bytes bytes' : list Z) (v v' : Validator) (types : Types) :
  can_validate bytes v -> Forall is_byte bytes' -> validate_all bytes v = Ok (types, v') ->
  ntypes (v_types v') + MAX_WASM_TYPES <= 2 ^ 20 ->
  exists v2, validator_reset v' = Ok v2 /\ can_validate bytes' v2 /\ validate_all bytes' v2 <> Panic.
Proof.
  intros Hv Hb Hok Hroom. pose proof (validate_all_ok bytes v Hv) as H. rewrite Hok in H.
  destruct H as (fs & [_ _ _ _ _ [Es Em] HT]). cbn [snd] in *. exists (set_v_state (VS_Unparsed None) v').
  assert (Hc : can_validate bytes' (set_v_state (VS_Unparsed None) v')).
  { split; [done|by exists None|]. split; [done|]. cbn. by rewrite Em. }
  split_and!; [unfold validator_reset; by rewrite Es, Em|done|].
  pose proof (validate_all_ok bytes' _ Hc) as H. by destruct (validate_all bytes' _).
Qed.

Lemma validator_reuse_witness :
  exists types v' v2, validate_all sample_module (new_with_features WasmFeatures_default) = Ok (types, v')
    /\ validator_reset v' = Ok v2 /\ validate_all invalid_module v2 <> Panic.
Proof.
  assert (Hc : can_validate sample_module (new_with_features WasmFeatures_default)).
  { apply new_can_validate. repeat constructor; unfold is_byte; lia. }
  destruct (validate_all sample_module (new_with_features WasmFeatures_default)) as [[types v']|e|] eqn:E;
    [|vm_compute in E; discriminate E..].
  assert (Hb : Forall is_byte invalid_module) by (repeat constructor; unfold is_byte; lia).
  destruct (validator_reuse sample_module invalid_module _ v' types Hc Hb E) as (v2 & H1 & _ & H2).
  { vm_compute in E. injection E as <- <-. vm_compute. discriminate. }
  exists types, v', v2. split; [reflexivity|]. split; [exact H1|exact H2].
Defined.

(** A group that refers to itself, as it is canonicalized. *)
Definition self_struct : SubType :=
  mkSubType true None (mkCompositeType (CStruct (mkStructType [mkFieldType (SVal (
    match rt_new true (Concrete (RecGroup_ 0)) with Some r => Ref r | None => I32 end)) false])) false).

Lemma resolve_index_full n p :
  2 ^ 20 <= n < 2 ^ 32 -> unpack p = Some (RecGroup_ 0) -> resolve_index n p = Panic.
Proof.
  intros Hn Hp. unfold resolve_index, add_u32, to_u32. rewrite Hp. cbn [expect mbind result_bind]. rewrite Z.add_0_r.
  destruct (Z.ltb_spec n (2 ^ 32)); [|lia]. cbn [mbind result_bind pack]. unfold from_id.
  rewrite can_represent_index_false; [done|lia|unfold in_u; lia].
Qed.

(** Without room, interning it panics: the identifier of a type does not fit an index. *)
Theorem interning_panics_when_full (T : TypeList) :
  2 ^ 20 <= snapshot_len (core_types T) < 2 ^ 32 -> snapshot_len (rec_group_elements T) < 2 ^ 32 ->
  intern_canonical_rec_group false (rec_group_explicit [(0, self_struct)]) T = Panic.
Proof.
  intros Hn He. unfold intern_canonical_rec_group, intern_new_group, to_u32.
  destruct (Z.ltb_spec (snapshot_len (rec_group_elements T)) (2 ^ 32)); [|lia].
  destruct (Z.ltb_spec (snapshot_len (core_types T)) (2 ^ 32)); [|lia].
  assert (Hr : remap_indices (resolve_index (snapshot_len (core_types T))) self_struct = Panic).
  { set (n := snapshot_len (core_types T)) in *. unfold self_struct.
    destruct (rt_new true (Concrete (RecGroup_ 0))) as [r|] eqn:Er; [|vm_compute in Er; discriminate Er].
    cbn -[resolve_index]. destruct (rt_type_index r) as [p|] eqn:Ep;
      [|vm_compute in Er; injection Er as <-; vm_compute in Ep; discriminate Ep].
    rewrite resolve_index_full; [done|done|].
    vm_compute in Er. injection Er as <-. vm_compute in Ep. injection Ep as <-. vm_compute. reflexivity. }
  change (into_types (rec_group_explicit [(0, self_struct)])) with [self_struct]. cbn [mbind result_bind push_types_of_group].
  unfold push_type_of_group. change (resolve_supertype _ self_struct) with (@Ok (option CoreTypeId) None).
  cbn [mbind result_bind]. by rewrite Hr.
Qed.
