(* ===== verification/MigrateTheorems.v ===== *)
(** The injection of checkpoint and restore procedures: the properties of
    [crates/wasm-migrate/src/lib.rs]. *)

From Stdlib Require Import ZArith Lia String.
From stdpp Require Import prelude gmap.
From S2P Require Import Prelude Leb128 BinaryReader BinaryReaderSpec ReaderLogic Encode Types EncTypes Operands.
From S2P Require Import Operators OperatorReader Instructions Reencode SectionReader Items EncSections ReencodeSections.
From S2P Require Import Parser ParserSpec ReencodeModule ComponentReaders ComponentEncode ComponentSpec.
From S2P Require Import ComponentTheorems Migrate MigrateModule ModuleValidator MigrateSpec MigrateRun.

Import WM WMM.
Local Open Scope Z_scope.

(** ** Regions *)

(** [i32.const 7; local.set 0; block; local.get 0; local.set 1; end; nop; end],
    with two locals. *)
Definition sample_body : FunctionBody :=
  mkFunctionBody (BinaryReader_new
    [0x01; 0x02; 0x7f; 0x41; 0x07; 0x21; 0x00; 0x02; 0x40; 0x20; 0x00; 0x21; 0x01; 0x0b; 0x01; 0x0b] 0).

(** Two [if] with an [else] each. *)
Definition else_body : FunctionBody :=
  mkFunctionBody (BinaryReader_new
    [0x00; 0x41; 0x00; 0x04; 0x40; 0x05; 0x0b; 0x41; 0x00; 0x04; 0x40; 0x05; 0x0b; 0x0b] 0).

Lemma sample_body_wf : wf_reader (body_reader sample_body).
Proof. split; try (vm_compute; split; congruence || done); try done. repeat constructor; unfold is_byte; lia. Qed.

Lemma else_body_wf : wf_reader (body_reader else_body).
Proof. split; try (vm_compute; split; congruence || done); try done. repeat constructor; unfold is_byte; lia. Qed.




(** ** Variables *)

(** The store that a restart finds: the saved variables as they were at the
    checkpoint, the others as they were at the start. *)
Definition restored {V} (saved : gset Z) (start checkpoint : Z -> V) (x : Z) : V :=
  if decide (x ∈ saved) then checkpoint x else start x.

(** Saving the sets [saved] is enough for regions that modify the sets [modified]
    and read the sets [reads]: the store that is restored at a checkpoint agrees
    with the store there on what a later region reads. *)
Definition restores (modified reads saved : list (gset Z)) : Prop :=
  forall V (stores : list (Z -> V)) start i at_i set k later x,
    runs_through modified stores -> stores !! 0%nat = Some start -> stores !! S i = Some at_i ->
    saved !! i = Some set -> (i < k)%nat -> reads !! k = Some later -> x ∈ later ->
    restored set start at_i x = at_i x.

Lemma live_after_restores modified reads n : restores modified reads (map (live_after modified reads) (seq 0 n)).
Proof.
  intros V stores start i at_i set k later x Ht H0 Hi Hs Hk Hl Hx.
  unfold restored. case_decide as Hd; [done|]. symmetry. destruct stores as [|s0 stores]; [done|]. injection H0 as ->.
  eapply runs_through_unmodified; [exact Ht|exact Hi|]. intros Hmod. apply Hd. clear Hd.
  rewrite (list_lookup_fmap _ (seq 0 n) i) in Hs. destruct (seq 0 n !! i) as [j|] eqn:Ej; [|done].
  apply lookup_seq in Ej as [-> _]. injection Hs as <-. unfold live_after. apply elem_of_intersection. split; [done|].
  apply elem_of_union_list. exists later. split; [|done]. apply list_elem_of_lookup. exists (k - S i)%nat.
  rewrite lookup_drop. by replace (S i + (k - S i))%nat with k by lia.
Qed.

(** The sets of the scans are those of the operators of each region. *)
Definition scans_exact (bs : list TreeNode) (cps : list Z) (gs : list WS.GlobalType) (ops : list located_op)
    (modified set_globals : list (gset Z)) (reads : list VarSets) : Prop :=
  forall k cp n, cps !! k = Some cp -> bs !! Z.to_nat (cp - 1) = Some n ->
    modified !! k = Some (variables assigned_local (region_ops n ops))
    /\ set_globals !! k = Some (variables assigned_global (region_ops n ops) ∪ mutable_globals gs)
    /\ reads !! k = Some (variables got_local (region_ops n ops), variables got_global (region_ops n ops)).

Lemma scan_checkpoint_pos visit body bs cp s : scan_checkpoint visit body bs cp = Some s -> 1 <= cp.
Proof. unfold scan_checkpoint. destruct (Z.ltb_spec cp 1); [done|]. lia. Qed.

Lemma scans_exact_ok body bs cps gs ops sets reads :
  mapM (scan_checkpoint visit_modified body bs) cps = Some sets ->
  mapM (scan_checkpoint visit_read body bs) cps = Some reads ->
  wf_reader (body_reader body) -> no_declared_locals body -> located_operators body = Some ops ->
  scans_exact bs cps gs ops (map fst sets) (map (fun s => snd s ∪ mutable_globals gs) sets) reads.
Proof.
  intros Hm Hr Hwf Hz Hl k cp n Hk Hn. apply mapM_Some in Hm, Hr.
  destruct (Forall2_lookup_l _ _ _ _ _ Hm Hk) as (s & Hs & Es), (Forall2_lookup_l _ _ _ _ _ Hr Hk) as (t & Ht & Et).
  pose proof (scan_checkpoint_pos _ _ _ _ _ Es) as Hcp.
  rewrite (scan_no_locals visit_modified body bs cp n ops) in Es by done.
  rewrite (scan_no_locals visit_read body bs cp n ops) in Et by done.
  rewrite fold_modified in Es. rewrite fold_read in Et. cbn [fst snd] in *. rewrite !union_empty_r_L in *.
  injection Es as <-. injection Et as <-.
  change (map fst sets) with (fst <$> sets).
  change (map (fun s => snd s ∪ mutable_globals gs) sets) with ((fun s : VarSets => snd s ∪ mutable_globals gs) <$> sets).
  rewrite !list_lookup_fmap, Hs. by split_and!.
Qed.

(** C14. The live-out variables of a region, locals and globals, are those of the
    computed modified sets up to the region that are in the computed read set of a
    later one; a function without regions makes the analysis panic.  Saving them
    is enough relative to the computed sets: if each region changes only the
    variables of its modified set, the store that is restored at a checkpoint
    agrees with the store there on every variable of the read set of a later
    region, for the locals and for the globals.  For a body that declares no
    locals the computed sets are exact: the locals that the operators of the
    region set or tee and get, the globals that they get, and the globals that
    they set with all mutable ones.  (With declared locals the declarations are
    scanned as operators, and the sets can miss variables.) *)
Theorem live_out_is_enough (body : FunctionBody) (bs : list TreeNode) (cps : list Z) (gs : list WS.GlobalType)
    (modified set_globals : list (gset Z)) :
  generate_modified_var_list body bs cps gs = Some (modified, set_globals) ->
  match generate_live_var_list body bs cps modified set_globals with
  | None => cps = [] \/ mapM (scan_checkpoint visit_read body bs) cps = None
  | Some live =>
      exists reads, mapM (scan_checkpoint visit_read body bs) cps = Some reads
        /\ live_out_set_vars live = map (live_after modified (map fst reads)) (seq 0 (length cps))
        /\ live_out_global_vars live = map (live_after set_globals (map snd reads)) (seq 0 (length cps))
        /\ restores modified (map fst reads) (live_out_set_vars live)
        /\ restores set_globals (map snd reads) (live_out_global_vars live)
        /\ (wf_reader (body_reader body) -> no_declared_locals body ->
            forall ops, located_operators body = Some ops -> scans_exact bs cps gs ops modified set_globals reads)
  end.
Proof.
  intros Hm. unfold generate_modified_var_list in Hm.
  destruct (mapM (scan_checkpoint visit_modified body bs) cps) as [sets|] eqn:Es; [|done]. injection Hm as <- <-.
  assert (Hlen : length cps = length sets) by by apply mapM_Some, Forall2_length in Es.
  destruct (decide (cps = [])) as [->|Hne]; [by left|].
  destruct (mapM (scan_checkpoint visit_read body bs) cps) as [reads|] eqn:Er.
  2: { unfold generate_live_var_list. rewrite mapM_rev, Er. by right. }
  rewrite (generate_live_spec _ _ _ _ _ reads Er Hne) by (rewrite length_map; done).
  cbn [live_out_set_vars live_out_global_vars].
  exists reads. split_and!; [done..|apply live_after_restores|apply live_after_restores|].
  intros Hwf Hz ops Hl. by apply (scans_exact_ok body).
Qed.

(** ** Addresses *)

(** C15. The address of a variable is one more than the sizes of the slots before
    it, the globals come after the locals, and the number of the region to resume
    from is at address zero.  The sizes are half of the bytes that the variables
    take, so the slots overlap: storing a variable overwrites the start of the
    next one, and the number overwrites the first variable. *)
Theorem checkpoint_slots (m : ModuleSections) locals func_index (tys : list WE.ValType) s locals' :
  get_params_and_locals m locals func_index = Some tys ->
  compute_var_to_mem_mapping m locals func_index = Some (s, locals') ->
  Z.of_nat (length tys) < 2 ^ 32 -> Z.of_nat (length (global_section m)) < 2 ^ 32 ->
  let gtys := map WS.global_val_type (global_section m) in
  resuming_block_addr s = 0 /\ resuming_block_var s = Z.of_nat (length tys)
  /\ (forall i ty, tys !! i = Some ty -> exists a,
       checkpoint_var_memory_mapping s !! Z.of_nat i = Some a /\ a = 1 + sum_sizes (take i tys)
       /\ (byte_width ty = 0 \/ a + slot_size ty < a + byte_width ty)
       /\ ((S i < length tys)%nat -> checkpoint_var_memory_mapping s !! Z.of_nat (S i) = Some (a + slot_size ty)))
  /\ (forall i ty, gtys !! i = Some ty -> exists a,
       checkpoint_global_memory_mapping s !! Z.of_nat i = Some a /\ a = 1 + sum_sizes tys + sum_sizes (take i gtys)).
Proof.
  intros Ht Hc Hl Hg gtys. unfold compute_var_to_mem_mapping in Hc. rewrite Ht in Hc. cbn [mbind option_bind] in Hc.
  destruct (locals !! func_index) as [ls|]; [|done]. cbn [mbind option_bind] in Hc.
  destruct (assign_slots 0 tys (0 + 1) ∅) as [vars next] eqn:Ev.
  destruct (assign_slots 0 _ next ∅) as [globals next'] eqn:Eg. injection Hc as <- _. cbn.
  assert (Hvars : forall i, (i < length tys)%nat -> vars !! Z.of_nat i = Some (1 + sum_sizes (take i tys))).
  { intros i Hi. pose proof (assign_slots_lookup 0 tys (0 + 1) ∅ (Z.of_nat i)) as H. rewrite Ev in H. cbn [fst] in H.
    rewrite H by lia. rewrite bool_decide_true by lia. by rewrite Z.sub_0_r, Nat2Z.id. }
  split_and!; [done|apply wrap_small; unfold in_u; lia|..].
  - intros i ty Hi. pose proof (lookup_lt_Some _ _ _ Hi). eexists. split_and!; [by apply Hvars|done|destruct ty; cbn; lia|].
    intros HS. rewrite Hvars by done. by rewrite (sum_sizes_take_S _ _ _ Hi), Z.add_assoc.
  - intros i ty Hi. pose proof (lookup_lt_Some _ _ _ Hi) as Hlt. eexists. split; [|done].
    pose proof (assign_slots_lookup 0 gtys next ∅ (Z.of_nat i)) as H. subst gtys. rewrite Eg in H. cbn [fst] in H.
    rewrite length_map in H, Hlt. rewrite H by lia. rewrite bool_decide_true by lia. rewrite Z.sub_0_r, Nat2Z.id.
    pose proof (assign_slots_next 0 tys (0 + 1) ∅) as Hn. rewrite Ev in Hn. cbn [snd] in Hn. by rewrite Hn.
Qed.

(** ** A sample module *)

#[local] Existing Instance ref_leb128.
#[local] Instance elements_order : HashOrder := elements.

Lemma elements_order_ok (s : gset Z) : iter s ≡ₚ elements s.
Proof. done. Qed.

(** A module with the sample body as its only function. *)
Definition sample_bytes : list Z :=
  [0x00; 0x61; 0x73; 0x6d; 0x01; 0x00; 0x00; 0x00; 0x01; 0x04; 0x01; 0x60; 0x00; 0x00; 0x03; 0x02; 0x01; 0x00;
   0x0a; 0x12; 0x01; 0x10; 0x01; 0x02; 0x7f; 0x41; 0x07; 0x21; 0x00; 0x02; 0x40; 0x20; 0x00; 0x21; 0x01; 0x0b; 0x01;
   0x0b].

Definition sample_sections : ModuleSections :=
  match read_module_bytecode (Parser_new 0) sample_bytes with ROk m => m | _ => ModuleSections_new end.

Definition sample_data : option ModuleData := pre_module_encoding sample_sections 0.


(** The same operators with parameters instead of declared locals. *)
Definition param_body : FunctionBody :=
  mkFunctionBody (BinaryReader_new
    [0x00; 0x41; 0x07; 0x21; 0x00; 0x02; 0x40; 0x20; 0x00; 0x21; 0x01; 0x0b; 0x01; 0x0b] 0).

Lemma param_body_wf : wf_reader (body_reader param_body).
Proof. split; try (vm_compute; split; congruence || done); try done. repeat constructor; unfold is_byte; lia. Qed.

Definition param_tree : BlockTree := match build_block_tree param_body with Some t => t | None => mkBlockTree [] ∅ end.

Lemma live_out_is_enough_witness :
  exists modified set_globals live saved,
    generate_modified_var_list param_body (blocks param_tree) [1; 2; 4] [] = Some (modified, set_globals)
    /\ generate_live_var_list param_body (blocks param_tree) [1; 2; 4] modified set_globals = Some live
    /\ live_out_set_vars live !! 0%nat = Some saved
    /\ (forall s0 s1 s2 s3 : Z -> Z, runs_through modified [s0; s1; s2; s3] -> restored saved s0 s1 0 = s1 0)
    /\ exists n ops, blocks param_tree !! 0%nat = Some n /\ located_operators param_body = Some ops
       /\ modified !! 0%nat = Some (variables assigned_local (region_ops n ops)).
Proof.
  destruct (generate_modified_var_list param_body (blocks param_tree) [1; 2; 4] []) as [[modified set_globals]|] eqn:E;
    [|vm_compute in E; discriminate E].
  pose proof (live_out_is_enough param_body (blocks param_tree) [1; 2; 4] [] modified set_globals E) as H.
  exists modified, set_globals.
  destruct (generate_live_var_list param_body (blocks param_tree) [1; 2; 4] modified set_globals) as [live|] eqn:El.
  2: { vm_compute in E. injection E as <- <-. vm_compute in El. discriminate El. }
  destruct H as (reads & Hr & Hlo & _ & H & _ & Hx). exists live.
  destruct (live_out_set_vars live !! 0%nat) as [saved|] eqn:Es; [|rewrite Hlo in Es; discriminate Es].
  exists saved. split; [reflexivity|]. split; [reflexivity|]. split; [reflexivity|]. split.
  - intros s0 s1 s2 s3 Ht. destruct (reads !! 1%nat) as [later|] eqn:Ek.
    2: { vm_compute in Hr. injection Hr as <-. discriminate Ek. }
    assert (Ef : map fst reads !! 1%nat = Some (fst later)).
    { change (map fst reads) with (fst <$> reads). rewrite list_lookup_fmap, Ek. reflexivity. }
    apply (H Z [s0; s1; s2; s3] s0 0%nat s1 saved 1%nat (fst later) 0 Ht eq_refl eq_refl Es ltac:(lia) Ef).
    vm_compute in Hr. injection Hr as <-. injection Ek as <-. apply (bool_decide_unpack _). vm_compute. exact I.
  - destruct (located_operators param_body) as [ops|] eqn:Eo; [|vm_compute in Eo; discriminate Eo].
    destruct (blocks param_tree !! 0%nat) as [n|] eqn:En; [|vm_compute in En; discriminate En].
    exists n, ops. split; [reflexivity|]. split; [reflexivity|].
    exact (proj1 (Hx param_body_wf eq_refl ops eq_refl 0%nat 1 n eq_refl En)).
Defined.

Lemma checkpoint_slots_witness :
  exists tys s locals', get_params_and_locals sample_sections [[(2, WE.I32)]] 0 = Some tys
    /\ compute_var_to_mem_mapping sample_sections [[(2, WE.I32)]] 0 = Some (s, locals')
    /\ checkpoint_var_memory_mapping s !! 0 = Some 1 /\ checkpoint_var_memory_mapping s !! 1 = Some 3
    /\ resuming_block_addr s = 0.
Proof.
  destruct (get_params_and_locals sample_sections [[(2, WE.I32)]] 0) as [tys|] eqn:Et; [|vm_compute in Et; discriminate Et].
  destruct (compute_var_to_mem_mapping sample_sections [[(2, WE.I32)]] 0) as [[s locals']|] eqn:Es;
    [|vm_compute in Es; discriminate Es].
  assert (Hty : tys = [WE.I32; WE.I32]) by (vm_compute in Et; injection Et as <-; reflexivity).
  destruct (checkpoint_slots sample_sections [[(2, WE.I32)]] 0 tys s locals' Et Es) as (H0 & _ & Hv & _);
    [rewrite Hty; cbn; lia|vm_compute; reflexivity|].
  destruct (Hv 0%nat WE.I32) as (a & Ha & -> & _ & Hnext); [rewrite Hty; reflexivity|]. rewrite Hty in Ha, Hnext.
  exists tys, s, locals'. split; [reflexivity|]. split; [reflexivity|]. split; [exact Ha|]. split; [apply Hnext; cbn; lia|exact H0].
Defined.

(** ** Running the instrumented function *)

(** The layout of the instrumented module, with a checkpoint memory of [size] bytes. *)
Definition layout_of (d : ModuleData) (size : Z) : layout :=
  mkLayout (num_of_import_functions (sections d)) (num_of_import_functions (sections d) + 1)
    (checkpoint_memory_index (sections d)) size.

(** What [pre_module_encoding] fills in. *)
Lemma pre_module_inv m func_index d :
  pre_module_encoding m func_index = Some d ->
  sections d = m
  /\ exists body locals0, function_bodies m !! func_index = Some body /\ build_block_tree body = Some (tree d)
     /\ checkpoint_list d = generate_checkpoint_list (blocks (tree d))
     /\ compute_var_to_mem_mapping m locals0 func_index = Some (slots d, locals d).
Proof.
  unfold pre_module_encoding. destruct (extract_locals m) as [ls|]; [|done]. cbn [mbind option_bind].
  destruct (function_bodies m !! func_index) as [body|]; [|done]. cbn [mbind option_bind].
  destruct (build_block_tree body) as [t|] eqn:Et; [|done]. cbn [mbind option_bind].
  destruct (generate_modified_var_list _ _ _ _) as [[mo gl]|]; [|done]. cbn [mbind option_bind].
  destruct (generate_live_var_list _ _ _ _ _) as [live|]; [|done]. cbn [mbind option_bind].
  destruct (compute_var_to_mem_mapping m ls func_index) as [[sl ls']|] eqn:Ec; [|done]. intros [= <-]. cbn.
  split; [done|]. by exists body, ls.
Qed.

Lemma assign_slots_bound k tys a m0 var x :
  fst (assign_slots k tys a m0) !! var = Some x -> m0 !! var = Some x \/ a <= x <= a + 8 * Z.of_nat (length tys).
Proof.
  revert k a m0. induction tys as [|ty tys IH]; intros k a m0 H; cbn [assign_slots length] in *; [by left|].
  pose proof (slot_size_pos ty). destruct (IH _ _ _ H) as [Hm|Hx]; [|right; lia].
  destruct (decide (wrap 32 k = var)) as [<-|Hne]; [rewrite lookup_insert_eq in Hm; injection Hm as <-; right; lia|].
  rewrite lookup_insert_ne in Hm by done. by left.
Qed.

(** The slots are in the memory when it has eight bytes per variable. *)
Lemma slots_fit m func_index d tys size :
  pre_module_encoding m func_index = Some d -> get_params_and_locals m (locals d) func_index = Some tys ->
  17 + 8 * (Z.of_nat (length tys) + Z.of_nat (length (global_section m))) <= size <= 2 ^ 32 ->
  placed d (layout_of d size) /\ fits d (layout_of d size).
Proof.
  intros Hd Ht Hs. destruct (pre_module_inv _ _ _ Hd) as (Em & body & ls & _ & _ & _ & Hc).
  unfold compute_var_to_mem_mapping in Hc.
  destruct (get_params_and_locals m ls func_index) as [tys0|] eqn:Et; [|done]. cbn [mbind option_bind] in Hc.
  destruct (ls !! func_index) as [fl|] eqn:Ef; [|done]. cbn [mbind option_bind] in Hc.
  destruct (assign_slots 0 tys0 (0 + 1) ∅) as [vars next] eqn:Ev.
  destruct (assign_slots 0 _ next ∅) as [globals next'] eqn:Eg. injection Hc as Es El.
  assert (Hlen : (length tys0 <= length tys)%nat).
  { unfold get_params_and_locals in Et, Ht. destruct (function_to_type m !! _) as [ti|]; [|done]. cbn in Et, Ht.
    destruct (params m !! _) as [ps|]; [|done]. cbn in Et, Ht. rewrite Ef in Et. injection Et as <-. rewrite <- El in Ht.
    rewrite list_lookup_insert_eq in Ht by (by apply lookup_lt_Some in Ef). injection Ht as <-.
    unfold expand_locals. rewrite flat_map_app, !length_app. lia. }
  pose proof (assign_slots_next 0 tys0 (0 + 1) ∅) as Hn. rewrite Ev in Hn. cbn [snd] in Hn.
  assert (Hsum : 0 <= sum_sizes tys0 <= 8 * Z.of_nat (length tys0)).
  { clear. induction tys0 as [|ty tys IH]; cbn [sum_sizes foldr length]; [lia|]. pose proof (slot_size_pos ty).
    unfold sum_sizes in IH. lia. }
  split; split; cbn; rewrite <- ?Es; cbn; try done; try lia.
  - intros var a Ha. pose proof (assign_slots_bound 0 tys0 (0 + 1) ∅ var a) as H. rewrite Ev in H.
    destruct (H Ha) as [?|?]; [done|lia].
  - intros g a Ha. pose proof (assign_slots_bound 0 (map WS.global_val_type (global_section m)) next ∅ g a) as H.
    rewrite Eg, length_map in H. destruct (H Ha) as [?|?]; [done|lia].
Qed.

Lemma filter_iff_in {A} (P Q : A -> Prop) `{forall x, Decision (P x)} `{forall x, Decision (Q x)} (l : list A) :
  (forall x, x ∈ l -> P x <-> Q x) -> filter P l = filter Q l.
Proof.
  induction l as [|x l IH]; intros HPQ; [done|]. rewrite !filter_cons, IH by (intros y Hy; apply HPQ; by right).
  destruct (HPQ x) as [H1 H2]; [by left|]. by do 2 case_decide; try tauto.
Qed.

(** The blocks that are printed are those of the checkpoint list. *)
Lemma checkpointed_blocks bs :
  indexed bs -> filter (fun b => index b ∈ map index (toplevel bs)) bs = toplevel bs.
Proof.
  intros Hix. unfold toplevel at 2. apply filter_iff_in. intros b Hb. split.
  - intros (n & En & Hn)%list_elem_of_fmap.
    destruct (toplevel_lookup _ _ Hix Hn) as [_ Hln]. apply list_elem_of_filter in Hn as [Hn _].
    apply list_elem_of_lookup in Hb as [k Hk]. rewrite <- En, (Hix _ _ Hk) in Hln.
    replace (Z.to_nat (Z.of_nat k + 1 - 1)) with k in Hln by lia. by assert (n = b) as <- by congruence.
  - intros Ho. apply list_elem_of_fmap. exists b. split; [done|]. by apply list_elem_of_filter.
Qed.

(** C12. Without a migration the instrumented function does what the original one
    does: when the memory that the host restores holds the number zero and the host
    does not ask to migrate, the code runs to its end, and every region has its
    effect, once and in order.  The code of a region is known by its effect on an
    empty operand stack, which falls through to the end of the region and keeps
    the types of the saved variables and the new local; a region that leaves
    values on the stack or that branches to the label of the function is not
    covered, since the wrapping block changes what it does.  The saved globals
    must have the types of the locals with the same indices, as the stores
    assume, the memory must have room for the slots, and a hash set is iterated
    in an order that lists the set. *)
Theorem instrumented_runs_every_region {U : Type} {US : UserState U} {UL : UserStateLaws U} {HO : Host}
    {HH : HashOrder} (effect : code -> U -> U -> Prop) m func_index d fb tys distributed insts bodies (u u' : U) mem0 size :
  (forall s : gset Z, iter s ≡ₚ elements s) ->
  pre_module_encoding m func_index = Some d -> function_bodies m !! func_index = Some fb ->
  get_params_and_locals m (locals d) func_index = Some tys ->
  17 + 8 * (Z.of_nat (length tys) + Z.of_nat (length (global_section m))) <= size <= 2 ^ 32 ->
  wrap 32 should_migrate = 0 -> load_bytes 4 0 (restore_memory mem0) = 0 ->
  instrument d func_index distributed = Some insts ->
  mapM (fun i => print_block_instructions d i fb) (checkpoint_list d) = Some bodies ->
  (forall body u u', effect body u u' -> going d distributed tys u -> going d distributed tys u') ->
  going d distributed tys (set_local u (resuming_block_var (slots d)) (i32 0)) ->
  chain effect bodies (set_local u (resuming_block_var (slots d)) (i32 0)) u' ->
  exists mem', runs (layout_of d size) effect insts (at_rest u mem0 [0%nat]) (at_rest u' mem' []).
Proof.
  intros HL Hd Hfb Ht Hs Hm H0 Hi Hb Heff Hu Hch. destruct (slots_fit _ _ _ _ _ Hd Ht Hs) as [PL F].
  destruct (pre_module_inv _ _ _ Hd) as (<- & body & ls & Hbody & Hbt & Hcl & _).
  rewrite Hfb in Hbody. injection Hbody as <-. unfold instrument in Hi. rewrite Hfb in Hi. cbn [mbind option_bind] in Hi.
  destruct (encode_regions d func_index distributed fb (blocks (tree d)) None) as [c|] eqn:Ec; [|done].
  apply Some_inj in Hi as <-. assert (Hix : indexed (blocks (tree d))).
  { unfold build_block_tree in Hbt. destruct (body_operators fb) as [r|]; [|done]. cbn [mbind option_bind] in Hbt.
    destruct (tree_loop _ r _) as [s|] eqn:Es; [|done]. cbn [mbind option_bind] in Hbt. case_bool_decide; [|done].
    injection Hbt as <-. eapply indexed_loop; [|exact Es]. by intros k n. }
  assert (Hmap : mapM (fun b => print_block_instructions d (index b) fb)
                   (filter (fun b => index b ∈ checkpoint_list d) (blocks (tree d))) = Some bodies).
  { rewrite Hcl in Hb |- *. change (generate_checkpoint_list _) with (map index (toplevel (blocks (tree d)))) in *.
    rewrite checkpointed_blocks by done. rewrite <- Hb. clear. by induction (toplevel _) as [|n l IH]; cbn; [|rewrite IH]. }
  destruct (run_regions d func_index (layout_of d size) PL (HL := HL) effect distributed fb tys (blocks (tree d)) None
              c bodies _ u' (restore_memory mem0) [0%nat] F Hm Ht Heff Ec Hmap Hch Hu) as [mem' Hrun].
  exists mem'.
  eapply runs_run; [apply (run_prologue d (layout_of d size) PL)|]. rewrite H0.
  eapply runs_app; [exact Hrun|]. eapply runs_step; [done|constructor].
Qed.


(** ** The sample, run *)

(** A program state: the locals and the globals. *)
Definition store := ((Z -> option val) * (Z -> option val))%type.

#[local] Instance store_user : UserState store := {
  get_local u i := fst u i;
  set_local u i x := (fun j => if decide (i = j) then Some x else fst u j, snd u);
  get_global u i := snd u i;
  set_global u i x := (fst u, fun j => if decide (i = j) then Some x else snd u j);
}.

#[local] Instance store_laws : UserStateLaws store.
Proof. by split. Qed.

(** A host that starts the function from its beginning and never migrates. *)
#[local] Instance fresh_host : Host := { should_migrate := 0; restore_memory := fun _ _ => 0 }.

(** The effect of the regions of the sample: a constant, a copy, nothing. *)
Inductive sample_effect : code -> store -> store -> Prop :=
| effect_const n u : sample_effect ⟦ Instr.I32Const n; Instr.LocalSet 0 ⟧%code u (set_local u 0 (i32 n))
| effect_copy n u :
    get_local u 0 = Some (i32 n) ->
    sample_effect ⟦ Instr.Block WE.Empty; Instr.LocalGet 0; Instr.LocalSet 1; Instr.End ⟧%code u (set_local u 1 (i32 n))
| effect_nop u : sample_effect ⟦ Instr.Nop ⟧%code u u.

(** The body of the only function of the sample. *)
Definition module_body : FunctionBody :=
  match function_bodies sample_sections !! 0%nat with Some b => b | None => sample_body end.

Definition sample_regions : list code :=
  [⟦ Instr.I32Const 7; Instr.LocalSet 0 ⟧%code;
   ⟦ Instr.Block WE.Empty; Instr.LocalGet 0; Instr.LocalSet 1; Instr.End ⟧%code;
   ⟦ Instr.Nop ⟧%code].

(** What the model computes for the sample. *)
Lemma sample_facts d :
  sample_data = Some d ->
  resuming_block_var (slots d) = 2 /\ get_params_and_locals sample_sections (locals d) 0 = Some [WE.I32; WE.I32; WE.I32]
  /\ mapM (fun i => print_block_instructions d i module_body) (checkpoint_list d) = Some sample_regions.
Proof. intros H. vm_compute in H. injection H as <-. by vm_compute. Qed.

Lemma sample_saved d distributed k vars globals :
  sample_data = Some d -> saved_vars d distributed k = Some (vars, globals) -> (forall x, x ∈ vars -> 0 <= x <= 1) /\ forall x, x ∉ globals.
Proof.
  intros H Hs.
  assert (match saved_vars d distributed k with
          | Some (v, g) => forallb (fun x => (0 <=? x) && (x <=? 1)) (elements v) && Nat.eqb (length (elements g)) 0
          | None => true
          end = true) as Hall.
  { vm_compute in H. injection H as <-. destruct distributed; destruct k as [|[|[|k]]]; reflexivity. }
  rewrite Hs in Hall. apply andb_true_iff in Hall as [H1 H2]. rewrite forallb_forall in H1. split.
  - intros x Hx. apply elem_of_elements, list_elem_of_In, H1 in Hx. lia.
  - intros x Hx. apply elem_of_elements in Hx. by destruct (elements globals); [apply elem_of_nil in Hx|].
Qed.

(** A state of the sample: the two locals and the number are [i32]. *)
Definition typed_store (u : store) : Prop := forall i, 0 <= i <= 1 -> exists n, get_local u i = Some (i32 n).

Lemma typed_saved d distributed k vars globals u :
  sample_data = Some d -> typed_store u -> saved_vars d distributed k = Some (vars, globals) ->
  saved_ok [WE.I32; WE.I32; WE.I32] vars globals u.
Proof.
  intros H Hu [Hv Hg]%(sample_saved _ _ _ _ _ H). split; [|by intros g ty []%Hg].
  intros var ty Hvar Ht. pose proof (Hv var Hvar) as Hr.
  destruct (Hu var Hr) as [n Hn]. exists (wrap 32 n). rewrite Hn.
  assert (var = 0 \/ var = 1) as [-> | ->] by lia; by injection Ht as <-.
Qed.

Lemma going_set d distributed u i n :
  sample_data = Some d -> 0 <= i <= 1 -> going d distributed [WE.I32; WE.I32; WE.I32] u ->
  going d distributed [WE.I32; WE.I32; WE.I32] (set_local u i (i32 n)).
Proof.
  intros H Hi [Hn Hs]. destruct (sample_facts d H) as (Hv & _). split.
  - rewrite get_set_local, decide_False by lia. done.
  - intros k vars globals Hk. destruct (Hs _ _ _ Hk) as [Hl Hg]. split; [|intros g ty; rewrite get_global_set_local; apply Hg].
    intros var ty Hvar Ht. rewrite get_set_local. case_decide as E; [|by apply Hl]. exists (wrap 32 n).
    subst var. assert (i = 0 \/ i = 1) as [-> | ->] by lia; by injection Ht as <-.
Qed.

(** The effects of the regions keep the types and the number. *)
Lemma sample_effect_keeps d distributed body u u' :
  sample_data = Some d -> sample_effect body u u' -> going d distributed [WE.I32; WE.I32; WE.I32] u ->
  going d distributed [WE.I32; WE.I32; WE.I32] u'.
Proof.
  intros Hd H Hu. destruct H; [apply going_set; by try lia..|done].
Qed.

Definition zero_store : store := (fun _ => Some (i32 0), fun _ => None).

Lemma typed_zero : typed_store zero_store.
Proof. intros i _. by exists 0. Qed.

Lemma instrumented_runs_every_region_witness :
  exists d insts u' mem', sample_data = Some d /\ instrument d 0 true = Some insts
    /\ runs (layout_of d 65536) sample_effect insts (at_rest zero_store (fun _ => 0) [0%nat]) (at_rest u' mem' [])
    /\ get_local u' 0 = Some (i32 7) /\ get_local u' 1 = Some (i32 7).
Proof.
  destruct sample_data as [d|] eqn:Ed; [|vm_compute in Ed; discriminate Ed].
  destruct (sample_facts d Ed) as (Hv & Ht & Hb).
  destruct (instrument d 0 true) as [insts|] eqn:Ei.
  2: { vm_compute in Ed. injection Ed as <-. vm_compute in Ei. discriminate Ei. }
  set (u0 := set_local zero_store 2 (i32 0)). set (u1 := set_local u0 0 (i32 7)). set (u2 := set_local u1 1 (i32 7)).
  destruct (instrumented_runs_every_region sample_effect sample_sections 0 d module_body [WE.I32; WE.I32; WE.I32] true insts
              sample_regions zero_store u2 (fun _ => 0) 65536 elements_order_ok Ed) as [mem' H];
    [vm_compute; reflexivity|exact Ht|vm_compute; split; discriminate|reflexivity|reflexivity|exact Ei|exact Hb
    |intros body u u'; apply (sample_effect_keeps d true body u u' Ed)|..].
  - rewrite Hv. split; [rewrite Hv; reflexivity|]. intros k vars globals. apply (typed_saved d true k vars globals _ Ed).
    intros i Hi. exists 0. unfold get_local, set_local; cbn. case_decide; reflexivity.
  - rewrite Hv. repeat (econstructor; [constructor; reflexivity|]); constructor.
  - exists d, insts, u2, mem'. split; [reflexivity|]. split; [exact Ei|]. split; [exact H|]. split; reflexivity.
Defined.


(** ** Components *)

Section components.
Context {L : Leb128} {LS : Leb128Spec L} {HO : HashOrder}.
Context (func_index : nat) (target_component target_module : Z) (distributed : bool).

Abbreviation elaborate := (elaborate_component_bytecode func_index target_component target_module distributed).
Abbreviation elaborate_loop := (elaborate_payloads func_index target_component target_module distributed).

(** The features of all parsers of an iteration. *)
Definition with_features (f : WasmFeatures) (it : ParseAll) : Prop :=
  p_features (pa_cur it) = f /\ Forall (fun q => p_features q = f) (pa_stack it).

Lemma parse_all_step f it pl it' :
  wf_all it -> with_features f it -> parse_all_next it = (Some (Ok pl), it') ->
  wf_all it' /\ with_features f it' /\ (all_measure it' < all_measure it)%nat
  /\ (exists enc, payload_wf enc f pl)
  /\ forall np, nested_parser pl = Some np -> wf_parser np /\ 0 < p_offset np.
Proof.
  intros Hw [Hf Hfs] En. pose proof (parse_all_next_ok it Hw) as Hn. rewrite En in Hn. destruct Hn as [Hw' Hm].
  destruct Hw as (Hc & _ & Hb). unfold parse_all_next in En. destruct (pa_done it); [done|].
  pose proof (parse_ok (pa_cur it) (pa_data it) true Hc Hb) as Hp.
  destruct (parse (pa_cur it) (pa_data it) true) as [[[h|c pl0]|e|] p']; [done| |done..].
  cbn [fst snd parse_post] in Hp. destruct Hp as (k & p1 & -> & Hk & Hok & -> & _). destruct (_ <? _); [done|].
  pose proof (po_features _ _ _ _ Hok) as Hp1. pose proof (po_nested _ _ _ _ Hok) as Hnp.
  pose proof (fun np => nested_wf _ _ _ _ np Hc Hok) as Hnw. pose proof (po_progress _ _ _ _ Hok) as Hpr.
  pose proof (po_content _ _ _ _ Hok) as Hct. rewrite Hf in Hp1, Hnp, Hct.
  destruct (after_payload pl0 _ _) as [[stack cur] done] eqn:Ea. injection En as -> <-.
  split; [done|]. split; [|split; [done|split; [by eexists|]]].
  - unfold with_features. cbn [pa_cur pa_stack].
    destruct pl; cbn in Ea; try (injection Ea as <- <- _; split; [exact Hp1|done]).
    1,2: injection Ea as <- <- _; destruct (Hnp parser eq_refl) as [-> _]; split; [done|by constructor].
    destruct (pa_stack it) as [|q qs]; injection Ea as <- <- _; [by split|]. by inversion Hfs.
  - intros np E. destruct (Hnp np E) as [-> _]. split; [by apply (Hnw _ E)|]. cbn.
    destruct (is_end pl) eqn:He; [by destruct pl|]. pose proof (wfp_offset _ Hc). lia.
Qed.

(** A slice that does not start at the first byte is shorter than the whole. *)
Lemma nested_slice np rg enc f pl data input :
  payload_wf enc f pl -> pl = ComponentSection np rg \/ pl = ModuleSection np rg -> wf_parser np -> 0 < p_offset np ->
  Forall is_byte data -> index_range rg data = ROk input -> Forall is_byte input /\ (length input < length data)%nat.
Proof.
  intros Hc Hpl Hw Ho Hb Hi. destruct rg as [a b].
  assert (a = p_offset np) as -> by by destruct Hpl as [-> | ->]; destruct Hc.
  destruct (index_range_ok _ _ _ Hi Hb) as [Hbi Hl]; [cbn; lia|]. cbn [fst snd] in Hl. split; [done|].
  unfold index_range in Hi. destruct (Z.leb_spec (p_offset np) b); [|done].
  destruct (Z.leb_spec b (Z.of_nat (length data))); [|done]. lia.
Qed.

(** The loop depends on the components inside only. *)
Lemma elaborate_loop_ext nested nested' f number data fuel it c k :
  Forall is_byte data -> wf_all it -> with_features f it ->
  (forall n np input c, wf_parser np -> Forall is_byte input -> (length input < length data)%nat ->
     nested n np input c = nested' n np input c) ->
  elaborate_loop nested number data fuel it c k = elaborate_loop nested' number data fuel it c k.
Proof.
  intros Hb. revert it c k. induction fuel as [|fuel IH]; intros it c k Hw Hf Hn; [done|]. cbn [elaborate_payloads].
  destruct (parse_all_next it) as [[[pl|e|]|] it'] eqn:En; [|done..].
  destruct (parse_all_step f it pl it' Hw Hf En) as (Hw' & Hf' & _ & [enc Hc] & Hnp). cbn [mbind outcome_bind from_result].
  replace (elaborate_payload func_index target_component target_module distributed nested number data pl c k)
    with (elaborate_payload func_index target_component target_module distributed nested' number data pl c k).
  { destruct (elaborate_payload _ _ _ _ nested' _ _ _ _ _) as [[c' k']| |]; [|done..]. by apply IH. }
  destruct pl; try done. unfold elaborate_payload. destruct (unwrap_outcome (plus_i32 number 1)) as [n| |]; [|done..].
  cbn [mbind outcome_bind]. destruct (index_range unchecked_range data) as [input| |] eqn:Ei; [|done..].
  cbn [mbind outcome_bind]. destruct (Hnp parser eq_refl) as [Hwp Hop].
  destruct (nested_slice _ _ _ _ _ _ _ Hc (or_introl eq_refl) Hwp Hop Hb Ei) as [Hbi Hli]. by rewrite (Hn n parser input).
Qed.

Lemma parse_all_start p data : wf_parser p -> Forall is_byte data ->
  wf_all (parse_all p data) /\ with_features (p_features p) (parse_all p data)
  /\ (all_measure (parse_all p data) < 2 * length data + 2)%nat.
Proof. intros Hp Hb. split; [by split_and!|]. split; [by split|]. unfold all_measure, parse_all. cbn. lia. Qed.

(** Components are nested at most as deep as there are bytes. *)
Lemma elaborate_depth d1 d2 number p data c :
  wf_parser p -> Forall is_byte data -> (length data < d1)%nat -> (length data < d2)%nat ->
  elaborate d1 number p data c = elaborate d2 number p data c.
Proof.
  revert d2 number p data c. induction d1 as [|d1 IH]; intros [|d2] number p data c Hp Hb H1 H2; try lia.
  cbn [elaborate_component_bytecode]. destruct (parse_all_start p data Hp Hb) as (Hw & Hf & _).
  eapply elaborate_loop_ext; [done..|]. intros n np input c' Hnp Hbi Hl. apply IH; [done..|lia|lia].
Qed.

(** What is written for a payload when [modules] modules came before it. *)
Definition payload_elaborated (f : WasmFeatures) (number : Z) (data : list Z) (modules : Z) (pl : Payload)
  (s : option (Z * list Z)) : Prop :=
  match pl with
  | ModuleSection p range =>
      exists input m, index_range range data = ROk input
        /\ elaborate_module func_index distributed p input
             ((target_component =? number) && (target_module =? modules + 1)) = ROk m
        /\ s = Some (1, WS.module_bytes m)
  | ComponentSection p range =>
      exists input c, index_range range data = ROk input
        /\ elaborate (S (length input)) (number + 1) p input WC.Component_new = ROk c
        /\ s = Some (4, WC.component_bytes c)
  | InstanceSection _ | CoreTypeSection _ | ComponentInstanceSection _ | ComponentAliasSection _
  | ComponentTypeSection _ | ComponentCanonicalSection _ | ComponentStartSection _ _ | ComponentImportSection _
  | ComponentExportSection _ | CustomSection _ => payload_written f data pl s
  | _ => s = None
  end.

Fixpoint payloads_elaborated (f : WasmFeatures) (number : Z) (data : list Z) (modules : Z) (pls : list Payload)
  (ss : list (option (Z * list Z))) : Prop :=
  match pls, ss with
  | [], [] => True
  | pl :: pls, s :: ss =>
      payload_elaborated f number data modules pl s
      /\ payloads_elaborated f number data
           (match pl with ModuleSection _ _ => modules + 1 | _ => modules end) pls ss
  | _, _ => False
  end.

Lemma expect_ok_inv {A} (x : outcome A) a : expect_ok x = ROk a -> x = ROk a.
Proof. by destruct x. Qed.

Lemma plus_i32_inv a b c : unwrap_outcome (plus_i32 a b) = ROk c -> c = a + b.
Proof. unfold plus_i32. destruct (_ <=? _); [done|]. by intros [= <-]. Qed.

(** The sections that are copied are those of the reencoder. *)
Lemma copy_payload_written f enc data pl c c' :
  payload_wf enc f pl -> nested_parser pl = None -> copy_payload pl c = ROk c' ->
  exists s, payload_elaborated f 0 data 0 pl s /\ WC.component_bytes c' = WC.component_bytes c ++ frames [s].
Proof.
  intros Hw Hn Hc.
  pose proof (payload_section_written enc f data (fun _ _ _ => RPanic) pl c c' Hw ltac:(done)) as Hs.
  destruct pl; try done; try (by apply Hs); injection Hc as <-; exists None; (split; [done|]; by rewrite app_nil_r).
Qed.

Lemma elaborate_payload_written f enc number data depth pl c k c' k' :
  Forall is_byte data -> payload_wf enc f pl -> (forall np, nested_parser pl = Some np -> wf_parser np /\ 0 < p_offset np) ->
  (length data <= depth)%nat ->
  elaborate_payload func_index target_component target_module distributed (elaborate depth) number data pl c k
    = ROk (c', k') ->
  exists s, payload_elaborated f number data k pl s /\ WC.component_bytes c' = WC.component_bytes c ++ frames [s]
    /\ k' = match pl with ModuleSection _ _ => k + 1 | _ => k end.
Proof.
  intros Hb Hw Hnp Hd Hc. destruct (nested_parser pl) as [np|] eqn:En.
  - destruct (Hnp np eq_refl) as [Hwp Hop]. destruct pl; try done; injection En as ->; unfold elaborate_payload in Hc.
    + destruct (unwrap_outcome (plus_i32 k 1)) as [k1| |] eqn:Ek; [|done..]. apply plus_i32_inv in Ek as ->.
      cbn [mbind outcome_bind] in Hc. destruct (index_range unchecked_range data) as [input| |] eqn:Ei; [|done..].
      cbn [mbind outcome_bind] in Hc. destruct (elaborate_module _ _ _ _ _) as [m| |] eqn:Em; [|done..].
      cbn [mbind outcome_bind] in Hc. destruct (push_component_section _ _ _) as [c1| |] eqn:Ep; [|done..].
      injection Hc as <- <-. apply pushed_section in Ep as (bs & Eb & Hbs). apply sized_bytes in Eb as ->.
      eexists. split; [by exists input, m|]. split; [|done]. unfold frames. cbn. by rewrite app_nil_r.
    + destruct (unwrap_outcome (plus_i32 number 1)) as [n1| |] eqn:Ek; [|done..]. apply plus_i32_inv in Ek as ->.
      cbn [mbind outcome_bind] in Hc. destruct (index_range unchecked_range data) as [input| |] eqn:Ei; [|done..].
      cbn [mbind outcome_bind] in Hc.
      destruct (expect_ok (elaborate depth (number + 1) np input WC.Component_new)) as [x| |] eqn:Ex; [|done..].
      apply expect_ok_inv in Ex. cbn [mbind outcome_bind] in Hc.
      destruct (push_component_section _ _ _) as [c1| |] eqn:Ep; [|done..]. injection Hc as <- <-.
      apply pushed_section in Ep as (bs & Eb & Hbs). apply sized_bytes in Eb as ->.
      destruct (nested_slice _ _ _ _ _ _ _ Hw (or_introl eq_refl) Hwp Hop Hb Ei) as [Hbi Hli].
      rewrite (elaborate_depth _ (S (length input))) in Ex; [|done|done|lia|lia].
      eexists. split; [by exists input, x|]. split; [|done]. unfold frames. cbn. by rewrite app_nil_r.
  - assert (E : (component ← expect_ok (copy_payload pl c); mret (component, k)) = ROk (c', k')) by by destruct pl.
    destruct (expect_ok (copy_payload pl c)) as [c1| |] eqn:Ec; [|done..]. injection E as <- <-.
    destruct (copy_payload_written f enc data pl c c1 Hw En (expect_ok_inv _ _ Ec)) as (s & Hs & Hbs).
    exists s. by destruct pl.
Qed.

Lemma elaborate_loop_written f number data depth fuel it c k c' :
  Forall is_byte data -> wf_all it -> with_features f it -> (length data <= depth)%nat ->
  elaborate_loop (elaborate depth) number data fuel it c k = ROk c' ->
  exists pls ss, payloads fuel it = Some (map Ok pls) /\ payloads_elaborated f number data k pls ss
    /\ WC.component_bytes c' = WC.component_bytes c ++ frames ss.
Proof.
  intros Hb. revert it c k. induction fuel as [|fuel IH]; intros it c k Hw Hf Hd Hc; [done|].
  cbn [elaborate_payloads payloads] in *. destruct (parse_all_next it) as [[[pl|e|]|] it'] eqn:En; [|done..|].
  2: { injection Hc as <-. exists [], []. by rewrite app_nil_r. }
  destruct (parse_all_step f it pl it' Hw Hf En) as (Hw' & Hf' & _ & [enc Hpw] & Hnp). cbn [mbind outcome_bind from_result] in Hc.
  destruct (elaborate_payload _ _ _ _ _ _ _ _ _ _) as [[c1 k1]| |] eqn:Ep; [|done..]. cbn [mbind outcome_bind] in Hc.
  destruct (elaborate_payload_written f enc number data depth pl c k c1 k1 Hb Hpw Hnp Hd Ep) as (s & Hs & Hbs & ->).
  destruct (IH it' c1 _ Hw' Hf' Hd Hc) as (pls & ss & -> & Hss & Hb').
  exists (pl :: pls), (s :: ss). split; [done|]. split; [by split|].
  change (s :: ss) with ([s] ++ ss). by rewrite frames_app, Hb', Hbs, app_assoc.
Qed.

(** Payloads of a component in which nothing is nested and nothing is unknown. *)
Definition plain (pl : Payload) : Prop :=
  match pl with
  | Version _ EComponent _ | InstanceSection _ | CoreTypeSection _ | ComponentInstanceSection _
  | ComponentAliasSection _ | ComponentTypeSection _ | ComponentCanonicalSection _ | ComponentStartSection _ _
  | ComponentImportSection _ | ComponentExportSection _ | CustomSection _ | End_ _ => True
  | _ => False
  end.

Lemma plain_payload nested sub number data whole pl c k :
  plain pl ->
  elaborate_payload func_index target_component target_module distributed nested number data pl c k
  = (c' ← expect_ok (parse_component_payload sub whole pl c); mret (c', k)).
Proof. destruct pl; try done. by destruct encoding. Qed.

(** On such payloads the loop does what the reencoder does. *)
Lemma plain_loop nested number data whole xs fuel fe fr p rest c k :
  in_front p rest -> payloads fuel (parse_all p rest) = Some (map Ok xs) -> Forall plain xs ->
  (length xs < fe)%nat -> (length rest < fr)%nat ->
  elaborate_loop nested number data fe (parse_all p rest) c k
  = expect_ok (parse_component_loop fr whole c p rest).
Proof.
  revert fuel fe fr p rest c. induction xs as [|pl xs IH]; intros [|fuel] [|fe] [|fr] p rest c Hin Hx Hpl He Hr; try (done || lia).
  { cbn [payloads] in Hx. destruct (parse_all_next (parse_all p rest)) as [[x|] it'] eqn:En.
    - by destruct (payloads fuel it').
    - unfold parse_all_next in En. cbn [pa_done parse_all pa_cur pa_data] in En.
      destruct (parse p rest true) as [[[h|n pl]|e|] p']; try done. destruct (_ <? _); [done|]. by destruct (after_payload _ _ _) as [[? ?] ?]. }
  cbn [payloads elaborate_payloads] in *.
  destruct (parse_all_next (parse_all p rest)) as [[x|] it'] eqn:En; [|done].
  destruct (payloads fuel it') as [xs'|] eqn:Ex; [|done]. injection Hx as -> ->.
  apply Forall_cons in Hpl as [Hpl Hpls]. cbn [mbind outcome_bind from_result].
  rewrite (plain_payload nested (parse_component_loop fr whole) number data whole pl c k Hpl).
  destruct Hin as (Hp & Hb & Hl). pose proof (parse_ok p rest true Hp Hb) as Hok.
  unfold parse_all_next in En. cbn [pa_done parse_all pa_cur pa_data pa_stack] in En.
  destruct (parse p rest true) as [[[h|n pl']|e|] p'] eqn:Ep; try done.
  destruct (Z.ltb_spec (Z.of_nat (length rest)) n); [done|].
  destruct (after_payload pl' [] p') as [[stack cur] dn] eqn:Ea. injection En as -> <-.
  cbn [fst snd parse_post] in Hok. destruct Hok as (j & p1 & -> & Hj & Hok & _).
  pose proof (po_progress _ _ _ _ Hok) as Hpr. rewrite Nat2Z.id in *. destruct rest as [|b rest].
  { destruct (is_end pl) eqn:Hend; [|cbn in Hj; lia]. destruct pl; try done. injection Ea as <- <- <-.
    destruct fe as [|fe]; [cbn in He; lia|]. done. }
  destruct (component_step p (b :: rest) (Z.of_nat j) pl p' (conj Hp (conj Hb Hl)) ltac:(done) Ep)
    as (j' & Ej & Hk & _ & _ & Hstep). apply Nat2Z.inj in Ej as <-.
  assert (Hne : is_end pl = false) by (destruct (is_end pl); [lia|done]).
  assert (Hsk : skip_nested pl (drop j (b :: rest)) = ROk (drop j (b :: rest))) by by destruct pl.
  assert (Haf : mkParseAll stack cur dn (drop j (b :: rest)) = parse_all p' (drop j (b :: rest))).
  { destruct pl; try done; cbn in Ea; by injection Ea as <- <- <-. }
  destruct (Hstep _ Hsk) as (Hin' & Hlen & _). rewrite Haf in Ex |- *.
  cbn [parse_component_loop]. rewrite Ep. destruct (Z.ltb_spec (Z.of_nat (length (b :: rest))) (Z.of_nat j)); [lia|].
  rewrite Nat2Z.id, Hsk. cbn [mbind outcome_bind].
  destruct (parse_component_payload _ whole pl c) as [c1| |]; [|done..]. cbn [expect_ok mbind outcome_bind mret outcome_ret].
  eapply IH; [done|exact Ex|done|cbn in He; lia|lia].
Qed.

Lemma front_of_file data :
  Forall is_byte data -> Z.of_nat (length data) <= u64_MAX -> in_front (Parser_new 0) data.
Proof. intros Hb Hl. split; [apply wf_parser_new|done]. Qed.
End components.

(** C17. wasm-migrate on a component.  When [compute] succeeds, the output is the
    header and one section for each payload that [parse_all] reports, in order: a
    module is read and written again, with the procedures when it is the target
    (the first module has index 1), a component is elaborated by the same
    function on the bytes that its range selects, and the other sections are
    translated to equivalent ones.  Since [parse_all] also reports the payloads of
    what is nested, the sections of nested components and the custom sections of
    modules are written once more, into the component around them; sections
    with an unknown id are lost.  Components can be nested as deep as there are
    bytes: a larger bound changes nothing. *)
Theorem migrated_component_sections {L : Leb128} {LS : Leb128Spec L} {HO : HashOrder}
    func_index target_component target_module distributed data :
  Forall is_byte data -> is_component data = true ->
  (forall depth number p c, wf_parser p -> (length data < depth)%nat ->
     elaborate_component_bytecode func_index target_component target_module distributed depth number p data c
     = elaborate_component_bytecode func_index target_component target_module distributed (S (length data)) number p data c)
  /\ forall out, compute func_index target_component target_module distributed data = Some out ->
     exists pls ss, payloads (2 * length data + 2) (parse_all (Parser_new 0) data) = Some (map Ok pls)
       /\ payloads_elaborated func_index target_component target_module distributed WasmFeatures_all 0 data 0 pls ss
       /\ out = WC.COMPONENT_HEADER ++ frames ss.
Proof.
  intros Hb Hc. split; [intros depth number p c Hp Hd; by apply elaborate_depth; [| |lia|lia]|].
  intros out Ho. unfold compute in Ho. rewrite Hc in Ho.
  destruct (elaborate_component_bytecode _ _ _ _ _ _ _ _ _) as [c| |] eqn:Ec; [|done..]. injection Ho as <-.
  destruct (parse_all_start (Parser_new 0) data wf_parser_new Hb) as (Hw & Hf & _).
  destruct (elaborate_loop_written func_index target_component target_module distributed _ 0 data _ _ _ _ _ _
    Hb Hw Hf (le_n _) Ec) as (pls & ss & Hp & Hs & Hby). by exists pls, ss.
Qed.

(** A component in which another one is nested, with one custom section. *)
Definition nested_component : list Z :=
  WC.COMPONENT_HEADER ++ [0x04; 0x0d] ++ WC.COMPONENT_HEADER ++ [0x00; 0x03; 0x01; 0x78; 0xff].

(** The custom section is written twice. *)
Lemma migrated_component_sections_witness :
  Leb128Spec ref_leb128 /\ exists pls ss,
    payloads (2 * length nested_component + 2) (parse_all (Parser_new 0) nested_component) = Some (map Ok pls)
    /\ length pls = 6%nat
    /\ payloads_elaborated (L := ref_leb128) (HO := elements) 0 0 0 false WasmFeatures_all 0 nested_component 0 pls ss
    /\ WC.COMPONENT_HEADER ++ frames (L := ref_leb128) ss
       = nested_component ++ [0x00; 0x03; 0x01; 0x78; 0xff].
Proof.
  split; [exact ref_leb128_spec|].
  destruct (migrated_component_sections (LS := ref_leb128_spec) (HO := elements) 0 0 0 false nested_component) as [_ H];
    [repeat constructor; discriminate|vm_compute; reflexivity|].
  destruct (H _ ltac:(vm_compute; reflexivity)) as (pls & ss & Hp & Hs & Ho). exists pls, ss.
  assert (H6 : option_map length (payloads (2 * length nested_component + 2) (parse_all (Parser_new 0) nested_component))
    = Some 6%nat) by (vm_compute; reflexivity).
  rewrite Hp in H6. cbn [option_map] in H6. rewrite length_map in H6. injection H6 as H6.
  split; [exact Hp|]. split; [exact H6|]. split; [exact Hs|symmetry; exact Ho].
Defined.

(** C18. A component in which no module or component is nested, and all sections
    are known, is treated as by the round-trip reencoder: wasm-migrate
    writes the same bytes, whatever its target, and panics when the reencoder
    reports an error. *)
Theorem flat_component_reencoded {L : Leb128} {LS : Leb128Spec L} {HO : HashOrder}
    func_index target_component target_module distributed data pls :
  Forall is_byte data -> Z.of_nat (length data) <= u64_MAX -> is_component data = true ->
  payloads (2 * length data + 2) (parse_all (Parser_new 0) data) = Some (map Ok pls) -> Forall plain pls ->
  compute func_index target_component target_module distributed data
  = match parse_component WC.Component_new (Parser_new 0) data with
    | ROk c => Some (WC.component_bytes c)
    | _ => None
    end.
Proof.
  intros Hb Hl Hc Hp Hpl. unfold compute. rewrite Hc.
  destruct (parse_all_start (Parser_new 0) data wf_parser_new Hb) as (Hw & _ & Hm).
  destruct (payloads_total _ _ Hw Hm) as (xs & Hx & Hlx & _). rewrite Hx in Hp. injection Hp as ->. rewrite length_map in Hlx.
  cbn [elaborate_component_bytecode].
  rewrite (plain_loop _ _ _ _ _ _ _ data pls _ _ (S (length data)) _ _ _ _ (front_of_file data Hb Hl) Hx Hpl) by lia.
  unfold parse_component. by destruct (parse_component_loop _ _ _ _ _).
Qed.

(** An instance type and an import of an instance of it. *)
Definition flat_component : list Z :=
  WC.COMPONENT_HEADER ++ [0x07; 0x83; 0x00; 0x01; 0x42; 0x00] ++ [0x0a; 0x06; 0x01; 0x01; 0x01; 0x61; 0x05; 0x00].

Lemma flat_component_reencoded_witness :
  Leb128Spec ref_leb128
  /\ compute (L := ref_leb128) (H := elements) 0 0 1 true flat_component
     = Some (WC.COMPONENT_HEADER ++ [0x07; 0x03; 0x01; 0x42; 0x00] ++ [0x0a; 0x06; 0x01; 0x00; 0x01; 0x61; 0x05; 0x00]).
Proof.
  split; [exact ref_leb128_spec|].
  assert (Hb : Forall is_byte flat_component) by (repeat constructor; discriminate).
  set (n := (2 * length flat_component + 2)%nat).
  pose (pls := omap (fun x => match x with Ok pl => Some pl | _ => None end)
    (from_option id [] (payloads n (parse_all (Parser_new 0) flat_component)))).
  assert (Hp : payloads n (parse_all (Parser_new 0) flat_component) = Some (map Ok pls)) by (vm_compute; reflexivity).
  assert (Hpl : Forall plain pls) by (vm_compute; repeat constructor).
  pose proof (flat_component_reencoded (LS := ref_leb128_spec) (HO := elements) 0 0 1 true flat_component pls Hb
    ltac:(vm_compute; discriminate) ltac:(vm_compute; reflexivity) Hp Hpl) as H.
  rewrite H. vm_compute. reflexivity.
Defined.

(** A module without types in a component: [encode_module] looks up the type of
    the target function, also when it is in another module. *)
Example untyped_module_panics :
  compute (L := ref_leb128) (H := elements) 0 0 5 false (WC.COMPONENT_HEADER ++ [0x01; 0x08] ++ WS.HEADER) = None.
Proof. vm_compute. reflexivity. Qed.

(** A module with a type, in a component that is nested in another one: its range
    counts from the start of the file, but is taken from the nested component.
    The reencoder translates it, wasm-migrate panics. *)
Definition deep_module : list Z :=
  WC.COMPONENT_HEADER ++ [0x04; 0x18] ++ WC.COMPONENT_HEADER
  ++ [0x01; 0x0e] ++ WS.HEADER ++ [0x01; 0x04; 0x01; 0x60; 0x00; 0x00].

Example deep_module_panics :
  compute (L := ref_leb128) (H := elements) 0 0 5 false deep_module = None
  /\ match parse_component (L := ref_leb128) WC.Component_new (Parser_new 0) deep_module with
     | ROk c => WC.component_bytes c = deep_module
     | _ => False
     end.
Proof. vm_compute. by split. Qed.

(** The same module at the top: it is written again. *)
Example module_written_again :
  is_Some (compute (L := ref_leb128) (H := elements) 0 0 5 false
    (WC.COMPONENT_HEADER ++ [0x01; 0x0e] ++ WS.HEADER ++ [0x01; 0x04; 0x01; 0x60; 0x00; 0x00])).
Proof. vm_compute. by eexists. Qed.
